(* ===== verification/_CoqProject ===== *)
-Q . S2P
Prelude.v
HashTable.v
CmdState.v
Vulkan.v
ImgXlate.v
GrallocFormat.v
GrallocDevice.v
GrallocAlloc.v
GrallocMap.v
GrallocLock.v
VtestAlloc.v
VtestWrapper.v
CrosHandle.v
EglWindow.v
Anb.v
AhbBuffer.v
Ahb.v
AhbSession.v
AhbProps.v
ImgCommands.v
CmdTable.v
GtWindow.v
GtObjects.v
GtRecord.v
GtSession.v
HalExts.v
HalProcs.v
HalLoader.v
HalSession.v
RmBackend.v
RmVa.v
RmCtx.v
RmSession.v
RmDevice.v
Astc.v
AstcCopy.v
AstcImageCopy.v
