(* ===== verification/Prelude.v ===== *)
(** * Waydroid NVIDIA: verification library

    ** The program

    Waydroid runs Android in a container; this repository gives it the host's
    NVIDIA GPU.  Its C parts, all below [src/]:

    - the gralloc backend ([nvidia-prolapse/gralloc/nvidia_gbm_wrapper.c])
      allocates graphics buffers as Vulkan images exported as dma-bufs, imports
      them, and locks them for the CPU (block-linear ones through a staging
      copy on the GPU);
    - without the NVIDIA userspace in the guest, the guest wrapper
      ([src/minigbm-vtest/vtest_wrapper.c]) asks the host's vtest server
      ([src/virglrenderer-vtest/vtest_gpu_alloc.c]) for buffers over a socket;
    - the EGL platform ([nvidia-prolapse/egl/src/]) turns an ANativeWindow into
      an EGL surface: dequeue, wait for the release fence, draw, queue with an
      acquire fence;
    - the Vulkan HAL ([nvidia-prolapse/hal/src/]) sits between applications and
      the ICD: instances, devices, the extensions shown and the entry points
      handed out ([hal.c], [device.c]), native buffers and their fences ([anb.c]), AHardwareBuffers as
      images and memory ([ahb.c]), the translation of the application's image
      handles in every command that names one ([imgxlate.c]), emulation of ASTC
      and ETC2 textures by a compute shader ([astc.c]), the shadow of the
      compute state that the decoder's dispatch would destroy ([cmdstate.c]),
      opt-in GPU timing ([gputime.c]), and the handle maps behind all of it
      ([util.c]);
    - the native driver is Mesa's NVK on a backend of its own
      ([driver-source/native/mesa/nvkmd_rm.c]) that carries memory, address
      space, channels and synchronization to NVIDIA's resource manager through
      the calls of [nv_rm.h], answered by Rust code.

    The allocators and the surface meet in minigbm's handle
    ([cros_gralloc_handle.h]); the emulation calls the shadow to put the
    application's state back; images bound to an AHardwareBuffer are wrappers
    that the translation replaces; the shadow and the timing keep their records
    in the command-buffer table; all look handles up in the maps.

    ** The files

    - [Prelude] (this file): machine integers as [Z] with their wrap-around,
      the state monad [M] with its weakest-precondition rules, list and map
      lemmas, tactics, the hint database [nvdb].
    - [Vulkan] (module [Vk]): constants of the Khronos and DRM headers, traces
      of calls, and the balance of a resource over a trace: creations less
      destructions and transfers.  "Nothing leaks" is always a statement about
      a balance.
    - [HashTable]: [LinearMap] and [Hash] are [struct nvhal_map] and
      [struct nvhal_hash] of [util.c], slot by slot; the class [HandleMap] is
      what they promise.
    - [CmdState]: [cmdstate.c]: the owner array, the live calls and the heap
      cells of a command buffer's shadow, the intercepted commands, the
      restore, and the pool-to-family table.
    - [GrallocFormat], [GrallocDevice], [GrallocAlloc], [GrallocMap],
      [GrallocLock]: [nvidia_gbm_wrapper.c]: decisions without side effects,
      the process-wide Vulkan device, allocation, imported buffers and their
      locks, and the bytes a lock shows and an unlock commits.
    - [VtestAlloc], [VtestWrapper]: the host allocator and the guest wrapper,
      with the socket protocol between them.
    - [CrosHandle]: the checks on a minigbm handle, shared by two clients.
    - [EglWindow]: [egl/src/window.c] and [egl/src/gralloc.c].
    - [ImgXlate]: of [imgxlate.c], the replacement of structures in a pNext
      chain ([Chain]) and the private data of loader objects ([LoaderPd]).
    - [Anb]: [hal/src/anb.c].
    - [AhbBuffer], [Ahb], [AhbSession], [AhbProps]: [ahb.c] with the image
      calls of [anb.c] that end in it: what a hardware buffer says of itself and
      the queries about it; wrapper images, their deferred creation, memory and
      binds; the invariant of a whole session; single operations.
    - [ImgCommands]: the commands of [imgxlate.c] that name images.
    - [CmdTable]: the command-buffer table of [imgxlate.c] with its per-thread
      cache, as interleaved steps of threads.
    - [GtWindow], [GtObjects], [GtRecord], [GtSession]: [gputime.c]: the window
      of measurements and its report; the objects the timing knows and the
      memory-type experiment; the recording of one command buffer; harvest and
      the device.
    - [HalExts], [HalProcs], [HalLoader], [HalSession]: [hal.c] and [device.c]:
      the extension lists and the names a driver is asked for; the tables of
      entry points of [hal.c], [imgxlate.c], [cmdstate.c] and [nvhal.h] and the two
      queries that read them; the module, instances, devices, queues and their
      tables; sessions of all of these with their invariant.
    - [Astc], [AstcCopy], [AstcImageCopy]: [hal/src/astc.c]: images, layout and
      binds; barriers, copies and decoder dispatches with their meaning, and
      the buffer copies; copies between images.

    - [RmBackend], [RmVa], [RmCtx], [RmSession], [RmDevice]: [nvkmd_rm.c]: the
      interface of [nv_rm.h] with deferred releases and loss of the device, and
      the theory of an address space with owners; VA ranges and memory objects
      with their invariant; contexts, their batches and the termination of a
      flush; sessions of all these calls, the theorems about them and a concrete
      other side; synchronization, physical and logical devices.

    A C function keeps its name.  Its early returns are the branches of its
    definition, a [goto] to cleanup code is a call of a definition for that
    code, error codes are values.  State is a record passed by [M]; where the
    code mutates shared objects through pointers the model has the heap
    ([CmdState], [GrallocMap], [EglWindow]).  Code outside the repository (the
    ICD, the kernel, the dynamic linker, the window, allocation) is a record of
    functions from the calls made so far to answers, so that a theorem for all
    such records covers every behaviour over time, failures included.  What a
    theorem needs of them is a class of laws that the specification of that
    code states (for instance that a new handle is not one in use), or, where
    real code may do otherwise, a premise of the one theorem or part of it that
    needs it ([fences_answer], [fences_come_with_buffers], [can_decode],
    [stamps_ordered]); a concrete record is the theorem's witness.

    ** What the theorems show

    - Refinement: the hash table implements a finite map under any sequence of
      operations; the restore after a decode re-creates the compute state the
      driver had, except what was pushed to a set before the last push; the
      commands recorded for an emulated texture act on it as Vulkan's copies
      act on a compressed image, and its texels remain the decoded blocks
      wherever a decode can run (a compute queue, a decoder, no false predicate
      of conditional rendering); opaque sparse binds of the image reach the
      parts byte for byte;
      the batches of a channel are the client's waits, pushes and signals in
      order and once ([rm_stream_exact]);
      the table of GPU times holds the exact totals of a window.
    - Ownership: for every pattern of failures, images, memories, descriptors,
      mappings, fences and references outstanding are exactly those the
      component's state names, but for the runs with a defect that a
      statement names: [buffers_own_exactly], [alloc_no_leak],
      [window_ownership], [anb_session_exact], [ahb_session_exact],
      [astc_images_sound], [gt_session_exact], [rm_space_exact],
      [rm_memory_exact], [rm_devices_exact], [loader_tables_exact],
      [create_device_exact], [vtest_session_no_leak], [vtest_serves_without_leak]
      and others.
    - Ordering: no buffer is attached before its fence was waited for (where
      the waits succeed), no fence is reused while pending, the library writes
      nothing to a buffer locked for reading, no thread uses an entry of the
      command-buffer table after it was freed, no timestamp is written where
      Vulkan allows none; for the last two the runs with the defects
      [sweep_of_unwritten_entry] and [untracked_pass_stamped] are set apart in
      the statements.
    - Transparency: a command that names images reaches the ICD once with every
      wrapper replaced, or not at all; the intercepted and the timed commands
      reach it unchanged and in order; on a device where an image can be the HAL's
      no query hands out the driver's own function for a command that takes one
      ([images_translated]).
    - Functional behaviour and layout: modifier and memory-type choice, plane
      placement, alignment, strides and bounds on 32- and 64-bit integers, the
      protocol's encoding, buffer ages; the extensions shown and asked for
      ([enumerate_exact], [device_names_exact]).
    - Round trips: what a CPU lock shows is the image and what an unlock writes
      arrives; requests decode to what was asked.
    - Termination and progress: the socket loops end, probing ends, the
      enumeration of extensions ends, a flush ends on a ring that drains, every swap with an answering window comes back
      with a buffer.

    Twenty defects and divergences came up; where the model has the state
    that shows one, a lemma computes it ([lost_fence_leaks],
    [residency_bind_slips], [failed_poll_attaches], [freed_memory_image_stuck],
    [sweep_of_unwritten_entry], [untracked_pass_stamped], [start_failure_orphan],
    [shadow_wrapper_null] and the like).

    ** Bounds and fuel

    Loops over arrays are structural recursion on lists.  The probe loops of
    the hash table carry the capacity as fuel, which an empty slot makes
    enough (proved).  Calls that the kernel may interrupt take the number of
    interruptions, any natural number, from the environment.  Sizes in [Astc]
    are below 2^48 and alignments at most 2^32 per part: 17 parts then fit
    64 bits.  The 8192 probes of a table of times reach a free slot because at
    most 6144 are used (proved).  A submission is retried as often as its bound
    allows; one more than the ring's slots is enough (proved).  The enumeration
    of extensions takes as many passes as its fuel; half the number of calls
    after which the driver's list stops changing is enough (proved).  Critical sections under one mutex are single
    steps.

    ** Not modelled

    - Of [imgxlate.c] the queries and creations that take one image or an array
      of create infos and forward it with the handle replaced; of [astc.c] the
      device probing, decoder pipelines and descriptor slots, views and
      teardown; of [gputime.c] reading the properties, the text of the report
      and the SPIR-V dumps.  These are the next steps, in this order: the rest of
      [astc.c], the rest of [imgxlate.c], [egl/src/platform.c].
    - Of [hal.c] and [device.c] the reports in the log, the description of a
      refused create info and the library path of host builds; [egl/src/front.c]:
      tables of entry points and calls to the loader.
    - The shaders and generated tables; the decoder is a parameter.
    - [driver-source/]: Rust, and the Gallium driver, C against Mesa headers that
      are not in the repository; [shim/]: adapters of C library symbols; [media/]: C++;
      [mcpe-vv-module/]: miniz is third-party code; tools, probes, tests,
      packaging and patches.
    - Log texts and trace output; data races. *)

From Stdlib Require Import ZArith Lia.
From stdpp Require Import base option sets strings gmap list.

Set Default Goal Selector "!".

Declare Scope c_scope.
Delimit Scope c_scope with c.

(** ** Machine integers *)

#[local] Open Scope Z_scope.

(** [uint32_t] and [uint64_t] values are [Z]s reduced modulo the width. *)
Definition u32 (x : Z) : Z := x mod 2 ^ 32.
Definition u64 (x : Z) : Z := x mod 2 ^ 64.
Definition UINT32_MAX : Z := 2 ^ 32 - 1.
Definition UINT64_MAX : Z := 2 ^ 64 - 1.

(** [(int)x] of a [uint32_t] value: two's complement. *)
Definition i32 (x : Z) : Z :=
  let y := u32 x in if y <? 2 ^ 31 then y else y - 2 ^ 32.

Definition is_u32 (x : Z) : Prop := 0 <= x < 2 ^ 32.
Definition is_u64 (x : Z) : Prop := 0 <= x < 2 ^ 64.

Lemma u32_range x : is_u32 (u32 x).
Proof. unfold is_u32, u32. apply Z.mod_pos_bound. lia. Qed.

Lemma u64_range x : is_u64 (u64 x).
Proof. unfold is_u64, u64. apply Z.mod_pos_bound. lia. Qed.

Lemma u32_id x : is_u32 x -> u32 x = x.
Proof. intros. unfold u32. by apply Z.mod_small. Qed.

Lemma u64_id x : is_u64 x -> u64 x = x.
Proof. intros. unfold u64. by apply Z.mod_small. Qed.

(** Bit masks: [(x & m) == m] and [(x & m) != 0]. *)
Definition has_all (x m : Z) : bool := Z.land x m =? m.
Definition has_any (x m : Z) : bool := negb (Z.land x m =? 0).

Lemma has_any_lor x y m : has_any (Z.lor x y) m = has_any x m || has_any y m.
Proof.
  unfold has_any. rewrite Z.land_lor_distr_l, <- negb_andb. f_equal.
  destruct (Z.eqb_spec (Z.land x m) 0) as [->|Hx]; [by rewrite Z.lor_0_l|].
  apply Z.eqb_neq. rewrite Z.lor_eq_0_iff. tauto.
Qed.

Lemma has_all_lor x a b :
  has_all x (Z.lor a b) = true <-> has_all x a = true /\ has_all x b = true.
Proof.
  unfold has_all. rewrite !Z.eqb_eq. split.
  - intros H. assert (Hb : forall i, Z.testbit a i || Z.testbit b i = true -> Z.testbit x i = true).
    { intros i Hi. assert (E := f_equal (fun z => Z.testbit z i) H).
      cbv beta in E. rewrite Z.land_spec, Z.lor_spec, Hi in E.
      by apply andb_true_iff in E as [? _]. }
    split; apply Z.bits_inj'; intros i _; rewrite Z.land_spec; specialize (Hb i);
      destruct (Z.testbit x i), (Z.testbit a i), (Z.testbit b i); naive_solver.
  - intros [Ha Hb]. by rewrite Z.land_lor_distr_r, Ha, Hb.
Qed.

Lemma land_mask x k : 0 <= k -> Z.land x (2 ^ k - 1) = x mod 2 ^ k.
Proof. intros. rewrite <- Z.land_ones by done. f_equal. rewrite Z.ones_equiv. lia. Qed.

Lemma land_pow2_mask x c k : 0 <= k -> c = 2 ^ k -> Z.land x (c - 1) = x mod c.
Proof. intros ? ->. by apply land_mask. Qed.

Lemma land_low_zero a b k :
  0 <= k -> a mod 2 ^ k = 0 -> 0 <= b < 2 ^ k -> Z.land a b = 0.
Proof.
  intros Hk Ha Hb. apply Z.bits_inj'. intros i Hi.
  rewrite Z.land_spec, Z.bits_0.
  destruct (decide (i < k)) as [Hlt|Hge].
  - assert (Z.testbit a i = false) as ->; [|done].
    rewrite <- (Z.mod_pow2_bits_low a k i) by lia. by rewrite Ha, Z.bits_0.
  - assert (Z.testbit b i = false) as ->; [|by rewrite andb_false_r].
    destruct (decide (b = 0)) as [->|Hnz]; [apply Z.bits_0|].
    apply Z.bits_above_log2; [lia|].
    assert (Z.log2 b < k) by (apply Z.log2_lt_pow2; lia). lia.
Qed.

(** [lo | hi << 32] of two 32-bit words. *)
Lemma lor_hi_lo lo hi : is_u32 lo -> Z.lor lo (Z.shiftl hi 32) = lo + hi * 2 ^ 32.
Proof.
  intros Hlo. rewrite Z.shiftl_mul_pow2 by lia.
  assert (Hland : Z.land (hi * 2 ^ 32) lo = 0).
  { apply (land_low_zero _ _ 32); [lia| |exact Hlo]. apply Z.mod_mul. lia. }
  rewrite Z.lor_comm.
  pose proof (Z.add_lor_land (hi * 2 ^ 32) lo). lia.
Qed.

(** [ALLOC_ALIGN(v, a)]: [((v) + (a)-1) & ~((uint64_t)(a)-1)] in 64 bits. *)
Definition alloc_align (v a : Z) : Z :=
  Z.land (u64 (v + (a - 1))) (u64 (Z.lnot (a - 1))).

Lemma alloc_align_spec v k :
  0 <= k < 64 -> 0 <= v -> v + (2 ^ k - 1) < 2 ^ 64 ->
  alloc_align v (2 ^ k) = (v + (2 ^ k - 1)) / 2 ^ k * 2 ^ k.
Proof.
  intros Hk Hv Hmax. unfold alloc_align.
  assert (0 < 2 ^ k) by (apply Z.pow_pos_nonneg; lia).
  rewrite (u64_id (v + _)) by (unfold is_u64; lia).
  set (x := v + (2 ^ k - 1)) in *.
  rewrite <- Z.shiftr_div_pow2, <- Z.shiftl_mul_pow2 by lia.
  apply Z.bits_inj'. intros i Hi.
  rewrite Z.land_spec. unfold u64.
  rewrite Z.shiftl_spec by lia.
  destruct (decide (i < 64)) as [Hi64|Hi64].
  - rewrite Z.mod_pow2_bits_low by lia. rewrite Z.lnot_spec by lia.
    destruct (decide (i < k)) as [Hik|Hik].
    + replace (2 ^ k - 1) with (Z.ones k) by (rewrite Z.ones_equiv; lia).
      rewrite Z.ones_spec_low by lia.
      rewrite (Z.testbit_neg_r _ (i - k)) by lia. by rewrite andb_false_r.
    + replace (2 ^ k - 1) with (Z.ones k) by (rewrite Z.ones_equiv; lia).
      rewrite Z.ones_spec_high by lia. rewrite Z.shiftr_spec by lia.
      rewrite andb_true_r. f_equal. lia.
  - assert (Z.testbit x i = false) as ->.
    { destruct (decide (x = 0)) as [->|]; [apply Z.bits_0|].
      apply Z.bits_above_log2; [unfold x; lia|].
      assert (Z.log2 x < 64) by (apply Z.log2_lt_pow2; unfold x; lia). lia. }
    rewrite andb_false_l. rewrite Z.shiftr_spec by lia.
    replace (i - k + k) with i by lia.
    destruct (decide (x = 0)) as [->|]; [by rewrite Z.bits_0|].
    symmetry. apply Z.bits_above_log2; [unfold x; lia|].
    assert (Z.log2 x < 64) by (apply Z.log2_lt_pow2; unfold x; lia). lia.
Qed.

Lemma align_up_bounds v a :
  0 < a -> v <= (v + (a - 1)) / a * a < v + a.
Proof.
  intros Ha. pose proof (Z.div_mod (v + (a - 1)) a ltac:(lia)) as E.
  pose proof (Z.mod_pos_bound (v + (a - 1)) a Ha).
  nia.
Qed.

(** ** Errno values (Linux, generic) *)

Definition EPERM : Z := 1.
Definition EINTR : Z := 4.
Definition EIO : Z := 5.
Definition EAGAIN : Z := 11.
Definition ENOMEM : Z := 12.
Definition EACCES : Z := 13.
Definition EBUSY : Z := 16.
Definition ENODEV : Z := 19.
Definition EINVAL : Z := 22.
Definition EFBIG : Z := 27.
Definition EPROTO : Z := 71.

(** ** A state monad

    C functions that read and write shared state are modelled as
    [M St A := St -> A * St]; a call into code outside the repository (the
    kernel, the Vulkan driver, the window) is a function of the history of
    the calls made so far, so that every behaviour of that code over time is
    an instance of the model. *)

Definition M (St A : Type) : Type := St -> A * St.

#[export] Instance M_ret (St : Type) : MRet (M St) := fun A a s => (a, s).
#[export] Instance M_bind (St : Type) : MBind (M St) :=
  fun A B f m s => let r := m s in f r.1 r.2.

Definition getS {St} : M St St := fun s => (s, s).
Definition putS {St} (s : St) : M St () := fun _ => (tt, s).
Definition modS {St} (f : St -> St) : M St () := fun s => (tt, f s).

Lemma bind_run {St A B} (m : M St A) (f : A -> M St B) s :
  (m ≫= f) s = f (m s).1 (m s).2.
Proof. reflexivity. Qed.

Lemma ret_run {St A} (a : A) (s : St) : (mret a : M St A) s = (a, s).
Proof. reflexivity. Qed.

(** Weakest precondition: the run of [m] from [s] ends with a result and a
    state that satisfy [Q].  Total by construction. *)
Definition wp {St A} (m : M St A) (Q : A -> St -> Prop) (s : St) : Prop := Q (m s).1 (m s).2.

Lemma wp_bind {St A B} (m : M St A) (f : A -> M St B) Q s :
  wp m (fun a => wp (f a) Q) s -> wp (m ≫= f) Q s.
Proof. done. Qed.

Lemma wp_ret {St A} (a : A) (Q : A -> St -> Prop) s : Q a s -> wp (mret a : M St A) Q s.
Proof. done. Qed.

Lemma wp_mono {St A} (m : M St A) (Q Q' : A -> St -> Prop) s :
  wp m Q s -> (forall a s', Q a s' -> Q' a s') -> wp m Q' s.
Proof. unfold wp. auto. Qed.

(** A loop over a list, carrying an accumulator. *)
Fixpoint foldM {St A B} (f : B -> A -> M St B) (l : list A) (b : B) : M St B :=
  match l with
  | [] => mret b
  | x :: l => b' ← f b x; foldM f l b'
  end.

(** Invariant rule for [foldM]. *)
Lemma foldM_inv {St A B} (f : B -> A -> M St B) (I : B -> St -> Prop) l b s :
  I b s ->
  (forall b x s, x ∈ l -> I b s -> I (f b x s).1 (f b x s).2) ->
  I (foldM f l b s).1 (foldM f l b s).2.
Proof.
  revert b s. induction l as [|x l IH]; intros b s Hb Hf; simpl; [done|].
  rewrite bind_run. apply IH.
  - apply Hf; [set_solver|done].
  - intros. apply Hf; [set_solver|done].
Qed.

(** ** Generic list and option lemmas *)

Definition sumZ (l : list Z) : Z := foldr Z.add 0 l.

Lemma sumZ_app l k : sumZ (l ++ k) = sumZ l + sumZ k.
Proof. unfold sumZ. induction l as [|x l IH]; simpl; lia. Qed.

Lemma find_index_lt {A} (P : A -> Prop) `{!forall x, Decision (P x)} l i x :
  list_find P l = Some (i, x) -> (i < length l)%nat /\ P x.
Proof.
  intros (Hi & HP & _)%list_find_Some. split; [|done]. by eapply lookup_lt_Some.
Qed.

Lemma filter_keeps {A} (P : A -> Prop) `{!forall x, Decision (P x)} (l : list A) : Forall P l -> filter P l = l.
Proof. induction 1 as [|x l Hx _ IH]; [done|]. rewrite filter_cons_True by done. by rewrite IH. Qed.

(** Number of entries of a list that satisfy a boolean test. *)
Fixpoint countb {A} (p : A -> bool) (l : list A) : nat :=
  match l with
  | [] => 0%nat
  | x :: l => (if p x then 1 else 0) + countb p l
  end%nat.

Lemma countb_app {A} (p : A -> bool) l k : countb p (l ++ k) = (countb p l + countb p k)%nat.
Proof. induction l as [|x l IH]; simpl; lia. Qed.

Lemma countb_le {A} (p : A -> bool) l : (countb p l <= length l)%nat.
Proof. induction l as [|x l IH]; simpl; [lia|]. destruct (p x); lia. Qed.

Lemma countb_insert {A} (p : A -> bool) l i x y :
  l !! i = Some x ->
  (countb p (<[i := y]> l) + (if p x then 1 else 0) = countb p l + (if p y then 1 else 0))%nat.
Proof.
  revert i. induction l as [|z l IH]; intros i Hi; [done|].
  destruct i as [|i]; simpl in *.
  - injection Hi as ->. lia.
  - specialize (IH i Hi). lia.
Qed.

Lemma countb_lt_exists {A} (p : A -> bool) l :
  (countb p l < length l)%nat -> exists i x, l !! i = Some x /\ p x = false.
Proof.
  induction l as [|x l IH]; simpl; [lia|]. intros Hlt.
  destruct (p x) eqn:E.
  - destruct IH as (i & y & Hi & Hy); [lia|]. by exists (S i), y.
  - by exists 0%nat, x.
Qed.

Lemma countb_replicate {A} (p : A -> bool) n x :
  countb p (replicate n x) = if p x then n else 0%nat.
Proof. induction n as [|n IH]; simpl; destruct (p x); lia. Qed.

Lemma countb_pos {A} (p : A -> bool) l x : x ∈ l -> p x = true -> (1 <= countb p l)%nat.
Proof. induction 1 as [y l|x y l _ IH]; intros H; simpl; [rewrite H; lia|]. specialize (IH H). lia. Qed.

Lemma countb_none {A} (p : A -> bool) l : (forall x, x ∈ l -> p x = false) -> countb p l = 0%nat.
Proof. induction l as [|x l IH]; intros H; simpl; [done|]. rewrite (H x), IH by set_solver. done. Qed.

Lemma countb_fmap {A B} (f : A -> B) (p : B -> bool) l : countb p (f <$> l) = countb (fun x => p (f x)) l.
Proof. induction l as [|x l IH]; [done|]. rewrite fmap_cons. simpl. by rewrite IH. Qed.

Lemma countb_unique {A} (p : A -> bool) q l :
  NoDup l -> (forall x, x ∈ l -> p x = true -> x = q) -> (countb p l <= 1)%nat.
Proof.
  induction 1 as [|x l Hx Hl IH]; intros H; simpl; [lia|].
  assert (countb p l <= 1)%nat by (apply IH; set_solver). destruct (p x) eqn:E; [|lia].
  destruct (countb p l) eqn:El; [lia|]. exfalso.
  assert (Z : forall l, countb p l <> 0%nat -> exists y, y ∈ l /\ p y = true).
  { clear. induction l as [|y l IH]; simpl; [done|]. destruct (p y) eqn:E; [intros _; exists y; set_solver|].
    intros (z & ? & ?)%IH. exists z. set_solver. }
  destruct (Z l) as (y & Hy & Hp); [lia|]. apply Hx. rewrite (H x), <- (H y); set_solver.
Qed.

Lemma countb_ext {A} (p q : A -> bool) l :
  (forall x, x ∈ l -> p x = q x) -> countb p l = countb q l.
Proof.
  induction l as [|x l IH]; intros H; simpl; [done|].
  rewrite (H x), IH by set_solver. done.
Qed.

(** The last entry of a list that satisfies a boolean test. *)
Definition last_with {A} (p : A -> bool) (l : list A) : option A :=
  foldl (fun acc x => if p x then Some x else acc) None l.

Lemma last_with_acc {A} (p : A -> bool) l acc :
  foldl (fun acc x => if p x then Some x else acc) acc l =
  match last_with p l with Some y => Some y | None => acc end.
Proof.
  unfold last_with. revert acc. induction l as [|x l IH]; intros acc; simpl; [done|].
  rewrite (IH (if p x then _ else acc)), (IH (if p x then _ else None)).
  destruct (foldl _ None l); [done|]. by destruct (p x).
Qed.

Lemma last_with_app {A} (p : A -> bool) l k :
  last_with p (l ++ k) = match last_with p k with Some y => Some y | None => last_with p l end.
Proof. unfold last_with at 1. rewrite foldl_app. apply last_with_acc. Qed.

Lemma last_with_cons {A} (p : A -> bool) x l :
  last_with p (x :: l) =
  match last_with p l with Some y => Some y | None => if p x then Some x else None end.
Proof. apply (last_with_app p [x] l). Qed.

Lemma last_with_snoc {A} (p : A -> bool) l x :
  last_with p (l ++ [x]) = if p x then Some x else last_with p l.
Proof. rewrite last_with_app. unfold last_with at 1. simpl. by destruct (p x). Qed.

Lemma last_with_Some {A} (p : A -> bool) l x : last_with p l = Some x -> x ∈ l /\ p x = true.
Proof.
  induction l as [|y l IH] using rev_ind; [done|]. rewrite last_with_snoc.
  destruct (p y) eqn:E; [intros [= ->]; set_solver|]. intros [? ?]%IH. set_solver.
Qed.

Lemma last_with_None {A} (p : A -> bool) l : last_with p l = None <-> forall x, x ∈ l -> p x = false.
Proof.
  induction l as [|y l IH] using rev_ind; [split; [set_solver|done]|]. rewrite last_with_snoc.
  destruct (p y) eqn:E.
  - split; [done|]. intros H. rewrite (H y) in E by set_solver. done.
  - rewrite IH. split; [|intros H x Hx; apply H; set_solver].
    intros H x [Hx| ->%list_elem_of_singleton]%elem_of_app; auto.
Qed.

Lemma last_with_ext {A} (p q : A -> bool) l :
  (forall x, x ∈ l -> p x = q x) -> last_with p l = last_with q l.
Proof.
  induction l as [|y l IH] using rev_ind; [done|]. intros H. rewrite !last_with_snoc.
  rewrite (H y), IH by set_solver. done.
Qed.

Lemma last_with_fmap {A B} (f : A -> B) (p : B -> bool) l :
  last_with p (f <$> l) = f <$> last_with (fun x => p (f x)) l.
Proof.
  induction l as [|y l IH] using rev_ind; [done|].
  rewrite fmap_app. simpl. rewrite !last_with_snoc, IH. by destruct (p (f y)).
Qed.

(** Sum of a quantity over the entries of a finite map. *)
Definition total {A} (f : Z -> A -> Z) (m : gmap Z A) : Z :=
  sumZ ((fun kv => f kv.1 kv.2) <$> map_to_list m).

Lemma sumZ_perm l l' : l ≡ₚ l' -> sumZ l = sumZ l'.
Proof. unfold sumZ. induction 1; simpl; lia. Qed.

Lemma total_empty {A} (f : Z -> A -> Z) : total f ∅ = 0.
Proof. unfold total. by rewrite map_to_list_empty. Qed.

Lemma total_insert_new {A} (f : Z -> A -> Z) m k x :
  m !! k = None -> total f (<[k := x]> m) = f k x + total f m.
Proof.
  intros Hk. unfold total. rewrite (sumZ_perm _ _ (fmap_Permutation _ _ _ (map_to_list_insert m k x Hk))).
  reflexivity.
Qed.

Lemma total_delete {A} (f : Z -> A -> Z) m k x :
  m !! k = Some x -> total f (delete k m) = total f m - f k x.
Proof.
  intros Hk. rewrite <- (insert_delete_id m k x Hk) at 2.
  rewrite total_insert_new by apply lookup_delete_eq. lia.
Qed.

Lemma total_insert {A} (f : Z -> A -> Z) m k x y :
  m !! k = Some y -> total f (<[k := x]> m) = total f m - f k y + f k x.
Proof.
  intros Hk. rewrite <- insert_delete_eq, total_insert_new by apply lookup_delete_eq.
  rewrite (total_delete f m k y Hk). lia.
Qed.

Lemma total_nonneg {A} (f : Z -> A -> Z) m : (forall k x, 0 <= f k x) -> 0 <= total f m.
Proof.
  intros Hf. induction m as [|k x m Hk IH] using map_ind; [by rewrite total_empty|].
  rewrite total_insert_new by done. specialize (Hf k x). lia.
Qed.
Lemma total_ge {A} (f : Z -> A -> Z) m k x : (forall k x, 0 <= f k x) -> m !! k = Some x -> f k x <= total f m.
Proof. intros Hf Hk. pose proof (total_nonneg f (delete k m) Hf) as H. rewrite (total_delete f m k x Hk) in H. lia. Qed.
Lemma total_ge2 {A} (f : Z -> A -> Z) m k x k' x' :
  (forall k x, 0 <= f k x) -> m !! k = Some x -> m !! k' = Some x' -> k <> k' -> f k x + f k' x' <= total f m.
Proof.
  intros Hf Hk Hk' Hne. pose proof (total_ge f (delete k m) k' x' Hf) as H. rewrite lookup_delete_ne in H by done.
  rewrite (total_delete f m k x Hk) in H. specialize (H Hk'). lia.
Qed.

Lemma total_ext {A} (f g : Z -> A -> Z) m : (forall k x, m !! k = Some x -> f k x = g k x) -> total f m = total g m.
Proof.
  intros H. unfold total. f_equal. apply list_fmap_ext. intros i [k x] Hi. apply H.
  by apply elem_of_map_to_list, (list_elem_of_lookup_2 _ i).
Qed.
Lemma total_zero {A} (f : Z -> A -> Z) m : (forall k x, f k x = 0) -> total f m = 0.
Proof.
  intros Hf. induction m as [|k x m Hk IH] using map_ind; [apply total_empty|]. by rewrite total_insert_new, Hf, IH.
Qed.
(** How often a key occurs. *)
Lemma total_count {A} (m : gmap Z A) : total (fun _ _ => 1) m = Z.of_nat (size m).
Proof.
  induction m as [|k x m Hk IH] using map_ind; [done|]. rewrite total_insert_new, IH, map_size_insert_None by done. lia.
Qed.
Lemma total_key {A} (m : gmap Z A) h : total (fun k _ => if decide (k = h) then 1 else 0) m = if decide (is_Some (m !! h)) then 1 else 0.
Proof.
  destruct (m !! h) as [x|] eqn:E.
  - rewrite <- (insert_delete_id m h x E), total_insert_new by apply lookup_delete_eq. rewrite decide_True, decide_True by eauto.
    rewrite (total_ext _ (fun _ _ => 0)), total_zero by (try done; intros k y [? _]%lookup_delete_Some; by rewrite decide_False). done.
  - rewrite (decide_False (P := is_Some _)) by (by intros [? ?]). rewrite (total_ext _ (fun _ _ => 0)); [by apply total_zero|].
    intros k y Hk. rewrite decide_False; [done|]. congruence.
Qed.

(** ** Tactics *)

(** Run a monadic definition: expose the binds and the pairs. *)
Ltac mrun :=
  repeat first
    [ rewrite bind_run | rewrite ret_run | progress cbn [fst snd getS putS modS] ].

(** Split every conditional and match of the goal. *)
Ltac case_all :=
  repeat (case_match; simplify_eq/=).

(** Turn boolean tests in hypotheses into propositions for [lia]. *)
Ltac bool_props :=
  repeat match goal with
  | H : (_ && _)%bool = true |- _ => apply andb_true_iff in H as [? ?]
  | H : (_ || _)%bool = false |- _ => apply orb_false_iff in H as [? ?]
  | H : negb _ = true |- _ => apply negb_true_iff in H
  | H : negb _ = false |- _ => apply negb_false_iff in H
  | H : (_ =? _)%Z = true |- _ => apply Z.eqb_eq in H
  | H : (_ =? _)%Z = false |- _ => apply Z.eqb_neq in H
  | H : (_ <? _)%Z = true |- _ => apply Z.ltb_lt in H
  | H : (_ <? _)%Z = false |- _ => apply Z.ltb_ge in H
  | H : (_ <=? _)%Z = true |- _ => apply Z.leb_le in H
  | H : (_ <=? _)%Z = false |- _ => apply Z.leb_gt in H
  | H : bool_decide _ = true |- _ => apply bool_decide_eq_true in H
  | H : bool_decide _ = false |- _ => apply bool_decide_eq_false in H
  end.

Create HintDb nvdb.
Create Rewrite HintDb nvdb.
#[export] Hint Resolve u32_range u64_range countb_le : nvdb.
#[export] Hint Rewrite @bind_run @ret_run : nvdb.
