(* ===== verification/HashTable.v ===== *)
(** * Handle maps of the Vulkan HAL ([nvidia-prolapse/hal/src/util.c])

    [struct nvhal_map] (a linear array searched by key) and
    [struct nvhal_hash] (open addressing with linear probing and tombstones),
    the two containers every handle lookup of the HAL goes through.  Pointers
    are [Z] with [NULL = 0].  Both are proved to implement a finite map; the
    interface [HandleMap] states that contract for their clients.

    The rwlock of [nvhal_hash] brackets each whole operation, so an operation
    is one atomic step of the model.  [size_t] counters are not reduced: a
    table of [2^63] slots does not fit an address space. *)

From Stdlib Require Import ZArith Lia.
From stdpp Require Import base option sets strings gmap list.
From S2P Require Import Prelude.

Set Default Goal Selector "!".
#[local] Open Scope Z_scope.

Definition NULL : Z := 0.

(** ** The interface the clients rely on *)

(** A map from 64-bit handles to pointers: [hm_rep t m] says that [t]
    represents the finite map [m]; a lookup of an absent handle is [NULL]. *)
Class HandleMap (T : Type) := {
  hm_rep : T -> gmap Z Z -> Prop;
  hm_key : Z -> bool;
  hm_empty : T;
  hm_get : T -> Z -> Z;
  hm_put : bool -> T -> Z -> Z -> option (bool * T);
  hm_del : T -> Z -> Z * T;
}.

Class HandleMapLaws (T : Type) `{HandleMap T} : Prop := {
  hm_rep_empty : hm_rep hm_empty ∅;
  hm_get_spec t m k : hm_rep t m -> hm_key k = true -> hm_get t k = default NULL (m !! k);
  hm_put_ok t m k v : hm_rep t m -> hm_key k = true ->
    exists t', hm_put true t k v = Some (true, t') /\ hm_rep t' (<[k := v]> m);
  hm_put_fail t m k v : hm_rep t m ->
    exists b t', hm_put false t k v = Some (b, t') /\
      hm_rep t' (if b then <[k := v]> m else m);
  hm_del_spec t m k : hm_rep t m -> hm_key k = true ->
    (hm_del t k).1 = default NULL (m !! k) /\ hm_rep (hm_del t k).2 (delete k m);
}.

(** ** [struct nvhal_map]: a growable array of (key, value) pairs *)

Module LinearMap.

Record nvhal_map := mk_map {
  e : list (Z * Z);   (** [m->e[0 .. n-1]] *)
  cap : nat;          (** allocated entries *)
}.

Definition n (m : nvhal_map) : nat := length (e m).

Fixpoint get_from (l : list (Z * Z)) (key : Z) : Z :=
  match l with
  | [] => NULL
  | kv :: l => if kv.1 =? key then kv.2 else get_from l key
  end.

Definition nvhal_map_get (m : nvhal_map) (key : Z) : Z := get_from (e m) key.

(** The index of the first entry with that key. *)
Fixpoint index_of (l : list (Z * Z)) (key : Z) : option nat :=
  match l with
  | [] => None
  | kv :: l => if kv.1 =? key then Some 0%nat else S <$> index_of l key
  end.

(** [alloc_ok] is whether [realloc] succeeds when it is called. *)
Definition nvhal_map_put (alloc_ok : bool) (m : nvhal_map) (key val : Z) : bool * nvhal_map :=
  match index_of (e m) key with
  | Some i => (true, mk_map (<[i := (key, val)]> (e m)) (cap m))
  | None =>
      if (n m =? cap m)%nat then
        let cap' := if (cap m =? 0)%nat then 8%nat else (cap m * 2)%nat in
        if alloc_ok then (true, mk_map (e m ++ [(key, val)]) cap') else (false, m)
      else (true, mk_map (e m ++ [(key, val)]) (cap m))
  end.

(** [m->e[i] = m->e[--m->n]]: the last entry moves into the hole. *)
Definition swap_remove {A} (l : list A) (i : nat) : list A :=
  match last l with
  | Some x => removelast (<[i := x]> l)
  | None => l
  end.

Definition nvhal_map_del (m : nvhal_map) (key : Z) : Z * nvhal_map :=
  match index_of (e m) key with
  | Some i => (default NULL (snd <$> e m !! i), mk_map (swap_remove (e m) i) (cap m))
  | None => (NULL, m)
  end.

(** [nvhal_map_del_val]: every entry holding [val]; the index advances only
    when the entry stays, so the moved-in entry is examined too.  Each step
    drops an entry or advances, so [n] steps are enough. *)
Fixpoint del_val_from (fuel : nat) (l : list (Z * Z)) (i : nat) (val : Z) : list (Z * Z) :=
  match fuel with
  | O => l
  | S fuel =>
      match l !! i with
      | Some kv => if kv.2 =? val then del_val_from fuel (swap_remove l i) i val
                   else del_val_from fuel l (S i) val
      | None => l
      end
  end.

Definition nvhal_map_del_val (m : nvhal_map) (val : Z) : nvhal_map :=
  mk_map (del_val_from (n m) (e m) 0 val) (cap m).

Definition nvhal_map_free (m : nvhal_map) : nvhal_map := mk_map [] 0.

(** *** The array is a finite map *)

(** Keys are distinct and the entries fit the allocation. *)
Definition inv (m : nvhal_map) : Prop := NoDup (e m).*1 /\ (n m <= cap m)%nat.
Definition rep (m : nvhal_map) (g : gmap Z Z) : Prop := inv m /\ g = list_to_map (e m).

Lemma get_from_spec l key : get_from l key = default NULL ((list_to_map l : gmap Z Z) !! key).
Proof.
  induction l as [|[a b] l IH]; simpl; [by rewrite lookup_empty|].
  destruct (Z.eqb_spec a key) as [->|Hne]; [by rewrite lookup_insert_eq|].
  by rewrite lookup_insert_ne.
Qed.

Lemma index_of_Some l key i :
  index_of l key = Some i -> exists val, l !! i = Some (key, val).
Proof.
  revert i. induction l as [|[a b] l IH]; intros i; simpl; [done|].
  destruct (Z.eqb_spec a key) as [->|Hne].
  - intros [= <-]. by exists b.
  - intros (j & Hj & ->)%fmap_Some. by apply IH.
Qed.

Lemma index_of_None l key : index_of l key = None -> key ∉ l.*1.
Proof.
  induction l as [|[a b] l IH]; simpl; [set_solver|].
  destruct (Z.eqb_spec a key) as [->|Hne]; [done|].
  rewrite fmap_None. intros H%IH. apply not_elem_of_cons. by split; [congruence|].
Qed.

Lemma swap_remove_perm {A} (l : list A) i x : l !! i = Some x -> l ≡ₚ x :: swap_remove l i.
Proof.
  intros Hi. destruct (exists_last (l := l)) as (l' & y & ->); [by destruct l|].
  unfold swap_remove. rewrite last_snoc.
  assert (Hlt : (i < length (l' ++ [y]))%nat) by (by eapply lookup_lt_Some).
  rewrite length_app in Hlt. simpl in Hlt.
  destruct (decide (i = length l')) as [->|Hne].
  - rewrite list_lookup_middle in Hi by done. injection Hi as ->.
    rewrite insert_app_r_alt by lia. rewrite Nat.sub_diag. simpl.
    rewrite removelast_last. by rewrite Permutation_app_comm.
  - rewrite lookup_app_l in Hi by lia. rewrite insert_app_l by lia.
    rewrite removelast_last.
    rewrite Permutation_app_comm. simpl.
    rewrite <- (take_drop_middle l' i x Hi) at 1.
    rewrite insert_take_drop by lia. solve_Permutation.
Qed.

Lemma rep_empty : rep (mk_map [] 0) ∅.
Proof. split; [split; [constructor|done]|done]. Qed.

Lemma insert_keys (l : list (Z * Z)) i key val val' :
  l !! i = Some (key, val') -> (<[i := (key, val)]> l).*1 = l.*1.
Proof.
  intros Hi. rewrite list_fmap_insert. apply list_insert_id. by rewrite list_lookup_fmap, Hi.
Qed.

Lemma lm_put_found m g key val i :
  rep m g -> index_of (e m) key = Some i ->
  rep (mk_map (<[i := (key, val)]> (e m)) (cap m)) (<[key := val]> g).
Proof.
  intros [[Hnd Hle] ->] Hi. destruct (index_of_Some _ _ _ Hi) as [val' Hl].
  unfold rep, inv, n. simpl. rewrite (insert_keys _ _ _ _ _ Hl), length_insert.
  split_and!; [done|done|]. apply map_eq. intros key'.
  assert (Hnd' : NoDup (<[i := (key, val)]> (e m)).*1) by (by rewrite (insert_keys _ _ _ _ _ Hl)).
  assert (i < length (e m))%nat by (by eapply lookup_lt_Some).
  destruct (decide (key = key')) as [<-|Hne].
  - rewrite lookup_insert_eq. symmetry. apply elem_of_list_to_map_1; [done|].
    apply list_elem_of_lookup. exists i. by rewrite list_lookup_insert_eq.
  - rewrite lookup_insert_ne by done. apply option_eq. intros x.
    rewrite <- !elem_of_list_to_map by done. rewrite !list_elem_of_lookup.
    split; intros [j Hj]; exists j; destruct (decide (i = j)) as [->|?].
    + congruence.
    + by rewrite list_lookup_insert_ne.
    + rewrite list_lookup_insert_eq in Hj by done. congruence.
    + by rewrite list_lookup_insert_ne in Hj.
Qed.

Lemma put_new m g key val c :
  rep m g -> index_of (e m) key = None -> (n m < c)%nat ->
  rep (mk_map (e m ++ [(key, val)]) c) (<[key := val]> g).
Proof.
  intros [[Hnd Hle] ->] Hi%index_of_None Hc. unfold rep, inv, n in *. simpl.
  assert (E : e m ++ [(key, val)] ≡ₚ (key, val) :: e m) by (by rewrite Permutation_app_comm).
  assert (Hnd' : NoDup ((key, val) :: e m).*1) by (simpl; constructor; done).
  split_and!.
  - by rewrite E.
  - rewrite length_app. simpl. lia.
  - rewrite <- (list_to_map_proper _ _ Hnd' (symmetry E)). done.
Qed.

Lemma lm_put_spec ok m g key val :
  rep m g -> exists b m', nvhal_map_put ok m key val = (b, m') /\
    (ok = true -> b = true) /\ rep m' (if (b : bool) then <[key := val]> g else g).
Proof.
  intros R. unfold nvhal_map_put. destruct (index_of (e m) key) as [i|] eqn:Hi.
  { eexists true, _. split_and!; try done. by apply lm_put_found. }
  pose proof (proj2 (proj1 R)).
  destruct (Nat.eqb_spec (n m) (cap m)) as [E|E].
  - destruct ok; [|by exists false, m]. eexists true, _. split_and!; try done.
    eapply put_new; eauto. destruct (Nat.eqb_spec (cap m) 0); lia.
  - eexists true, _. split_and!; try done. eapply put_new; eauto. lia.
Qed.

Lemma swap_remove_keys (l : list (Z * Z)) i x :
  l !! i = Some x -> NoDup l.*1 -> NoDup (swap_remove l i).*1 /\ x.1 ∉ (swap_remove l i).*1.
Proof.
  intros Hi Hnd. rewrite (swap_remove_perm l i x Hi) in Hnd. rewrite fmap_cons in Hnd.
  by apply NoDup_cons in Hnd as [? ?].
Qed.

Lemma swap_remove_length {A} (l : list A) i x : l !! i = Some x -> length l = S (length (swap_remove l i)).
Proof. intros Hi. by rewrite (swap_remove_perm l i x Hi) at 1. Qed.

Lemma lm_del_spec m g key :
  rep m g -> (nvhal_map_del m key).1 = default NULL (g !! key) /\
    rep (nvhal_map_del m key).2 (delete key g).
Proof.
  intros R. unfold nvhal_map_del. destruct (index_of (e m) key) as [i|] eqn:Hi; simpl.
  - destruct (index_of_Some _ _ _ Hi) as [val Hl]. rewrite Hl. simpl.
    destruct R as [[Hnd Hle] ->].
    destruct (swap_remove_keys _ _ _ Hl Hnd) as [Hnd' Hni].
    pose proof (swap_remove_perm _ _ _ Hl) as P.
    assert (E : (list_to_map (e m) : gmap Z Z) = <[key := val]> (list_to_map (swap_remove (e m) i))).
    { by rewrite (list_to_map_proper _ _ Hnd P). }
    rewrite E, lookup_insert_eq. split; [done|]. unfold rep, inv, n in *. simpl.
    rewrite delete_insert_id by (by apply not_elem_of_list_to_map).
    split_and!; [done| |done]. pose proof (swap_remove_length _ _ _ Hl). lia.
  - destruct R as [Hinv ->]. apply index_of_None in Hi.
    assert ((list_to_map (e m) : gmap Z Z) !! key = None) as E by (by apply not_elem_of_list_to_map).
    rewrite E. split; [done|]. rewrite delete_id by done. by split.
Qed.

(** [nvhal_map_del_val] keeps exactly the entries with another value. *)
Lemma del_val_from_perm fuel l i val :
  (length l - i <= fuel)%nat -> (i <= length l)%nat ->
  (forall j kv, (j < i)%nat -> l !! j = Some kv -> kv.2 <> val) ->
  del_val_from fuel l i val ≡ₚ filter (fun kv => kv.2 <> val) l.
Proof.
  assert (Hdone : forall l : list (Z * Z),
    (forall j kv, (j < length l)%nat -> l !! j = Some kv -> kv.2 <> val) ->
    l = filter (fun kv => kv.2 <> val) l).
  { intros l0 Hl0. symmetry.
    induction l0 as [|x l0 IH]; [done|]. rewrite filter_cons_True.
    - f_equal. apply IH. intros j kv Hj Hkv. apply (Hl0 (S j)); simpl; [lia|done].
    - by apply (Hl0 0%nat); simpl; [lia|]. }
  revert l i. induction fuel as [|fuel IH]; intros l i Hf Hi Hpre; simpl.
  { rewrite <- Hdone; [done|]. intros j kv Hj. apply Hpre. lia. }
  destruct (l !! i) as [kv|] eqn:E.
  - assert (i < length l)%nat by (by eapply lookup_lt_Some).
    destruct (Z.eqb_spec kv.2 val) as [Ev|Ev].
    + pose proof (swap_remove_length _ _ _ E).
      rewrite IH; [|lia|lia|].
      * rewrite (swap_remove_perm _ _ _ E) at 2. rewrite filter_cons_False by naive_solver. done.
      * intros j kv' Hj Hkv'. apply (Hpre j kv' Hj). rewrite <- Hkv'.
        unfold swap_remove. destruct (last l) as [y|] eqn:El; [|done].
        rewrite removelast_firstn_len, length_insert, lookup_take_lt by lia.
        by rewrite list_lookup_insert_ne by lia.
    + apply IH; [lia|lia|]. intros j kv' Hj Hkv'.
      destruct (decide (j = i)) as [->|?]; [by simplify_eq|]. apply (Hpre j); [lia|done].
  - apply lookup_ge_None in E. rewrite <- Hdone; [done|]. intros j kv Hj. apply Hpre. lia.
Qed.

#[export] Instance linear_handle_map : HandleMap nvhal_map := {
  hm_rep := rep;
  hm_key := fun _ => true;
  hm_empty := mk_map [] 0;
  hm_get := nvhal_map_get;
  hm_put := fun ok m k v => Some (nvhal_map_put ok m k v);
  hm_del := nvhal_map_del;
}.

#[export] Instance linear_handle_map_laws : HandleMapLaws nvhal_map.
Proof.
  split; simpl.
  - apply rep_empty.
  - intros t m key [_ ->] _. apply get_from_spec.
  - intros t m key val R _. destruct (lm_put_spec true t m key val R) as (b & t' & -> & Hb & R').
    rewrite (Hb eq_refl) in R'. exists t'. by rewrite (Hb eq_refl).
  - intros t m key val R. destruct (lm_put_spec false t m key val R) as (b & t' & -> & _ & R'). by exists b, t'.
  - intros t m key R _. by apply lm_del_spec.
Qed.

(** [nvhal_map_del_val] removes exactly the entries holding the given
    value, although it moves the last entry into each hole while it scans. *)
Theorem map_del_val_exact (m : nvhal_map) (g : gmap Z Z) (val : Z) :
  rep m g ->
  rep (nvhal_map_del_val m val) (filter (fun kv => kv.2 <> val) g) /\
  forall key, nvhal_map_get (nvhal_map_del_val m val) key =
    default NULL (filter (fun kv => kv.2 <> val) g !! key).
Proof.
  intros [[Hnd Hle] ->].
  assert (P : e (nvhal_map_del_val m val) ≡ₚ filter (fun kv => kv.2 <> val) (e m)).
  { unfold nvhal_map_del_val. simpl. apply del_val_from_perm; unfold n; [lia|lia|lia]. }
  assert (Hnd' : NoDup (e (nvhal_map_del_val m val)).*1).
  { rewrite P. by apply NoDup_fmap_filter || (eapply sublist_NoDup; [exact Hnd|]; apply fmap_sublist, sublist_filter). }
  assert (E : list_to_map (e (nvhal_map_del_val m val)) =
    filter (fun kv => kv.2 <> val) (list_to_map (e m) : gmap Z Z)).
  { rewrite (list_to_map_proper _ _ Hnd' P).
    apply map_eq. intros key. apply option_eq. intros x.
    rewrite <- elem_of_list_to_map, map_lookup_filter_Some, <- elem_of_list_to_map, list_elem_of_filter
      by (done || by rewrite <- P). naive_solver. }
  split; [split; [split; [done|]|by rewrite E]|].
  - unfold n in *. rewrite P. etrans; [apply length_filter|]. done.
  - intros key. rewrite <- E. apply get_from_spec.
Qed.

Lemma map_del_val_exact_witness :
  nvhal_map_get (nvhal_map_del_val (mk_map [(1, 10); (2, 20); (3, 20)] 8) 20) 3 = NULL.
Proof.
  destruct (map_del_val_exact (mk_map [(1, 10); (2, 20); (3, 20)] 8)
              (list_to_map [(1, 10); (2, 20); (3, 20)]) 20) as [_ H].
  - split; [split|reflexivity].
    + vm_compute. repeat constructor; set_solver.
    + vm_compute. lia.
  - rewrite H. reflexivity.
Defined.

End LinearMap.

(** ** [struct nvhal_hash] *)

Module Hash.

Record nvhal_hash := mk_hash {
  k : list Z;      (** [h->k], [0] = never used, [HASH_TOMB] = deleted *)
  v : list Z;
  cap : nat;
  n : nat;         (** live entries *)
  used : nat;      (** live + tombstones *)
}.

Definition HASH_TOMB : Z := UINT64_MAX.
Definition NVHAL_HASH_INIT : nvhal_hash := mk_hash [] [] 0 0 0.

Definition hash_slot (key : Z) (cap : nat) : nat :=
  let k1 := Z.lxor key (Z.shiftr key 33) in
  let k2 := u64 (k1 * 0xff51afd7ed558ccd) in
  let k3 := Z.lxor k2 (Z.shiftr k2 33) in
  Z.to_nat (Z.land k3 (Z.of_nat cap - 1)).

(** [(i + 1) & (cap - 1)] *)
Definition next_slot (cap i : nat) : nat :=
  Z.to_nat (Z.land (Z.of_nat i + 1) (Z.of_nat cap - 1)).

(** The probe loop of [hash_find_locked]: at most [rest] further probes. *)
Fixpoint find_from (ks : list Z) (cap : nat) (key : Z) (i rest : nat) : option nat :=
  match rest with
  | O => None
  | S rest =>
      if ks !!! i =? 0 then None
      else if ks !!! i =? key then Some i
      else find_from ks cap key (next_slot cap i) rest
  end.

Definition hash_find_locked (h : nvhal_hash) (key : Z) : option nat :=
  if (cap h =? 0)%nat then None
  else find_from (k h) (cap h) key (hash_slot key (cap h)) (cap h).

Definition bad_key (key : Z) : bool := (key =? 0) || (key =? HASH_TOMB).

Definition nvhal_hash_get (h : nvhal_hash) (key : Z) : Z :=
  if bad_key key then NULL
  else match hash_find_locked h key with
       | Some at_ => v h !!! at_
       | None => NULL
       end.

(** [while (!stop(k[i])) i = (i + 1) & (cap - 1);] with [fuel] iterations. *)
Fixpoint probe (stop : Z -> bool) (ks : list Z) (cap i fuel : nat) : option nat :=
  match fuel with
  | O => None
  | S fuel => if stop (ks !!! i) then Some i else probe stop ks cap (next_slot cap i) fuel
  end.

(** [while ((h->n + 1) * 2 > cap) cap *= 2;] *)
Fixpoint grow_cap (fuel n cap : nat) : option nat :=
  if (cap <? (n + 1) * 2)%nat then
    match fuel with
    | O => None
    | S fuel => grow_cap fuel n (cap * 2)
    end
  else Some cap.

Definition is_live (x : Z) : bool := negb (x =? 0) && negb (x =? HASH_TOMB).
Definition is_zero (x : Z) : bool := x =? 0.
Definition is_free (x : Z) : bool := (x =? 0) || (x =? HASH_TOMB).

(** One iteration of the rehash loop: a live entry goes to the first empty
    slot of the new arrays. *)
Definition rehash_one (cap' : nat) (acc : option (list Z * list Z)) (kv : Z * Z)
  : option (list Z * list Z) :=
  '(ks, vs) ← acc;
  if is_live kv.1 then
    j ← probe is_zero ks cap' (hash_slot kv.1 cap') cap';
    Some (<[j := kv.1]> ks, <[j := kv.2]> vs)
  else Some (ks, vs).

Definition rehash (cap' : nat) (h : nvhal_hash) : option (list Z * list Z) :=
  foldl (rehash_one cap') (Some (replicate cap' 0, replicate cap' NULL)) (zip (k h) (v h)).

(** [alloc_ok]: both [calloc]s succeed.  [None] is a loop that does not end. *)
Definition hash_grow_locked (alloc_ok : bool) (h : nvhal_hash) : option (bool * nvhal_hash) :=
  cap' ← grow_cap (S (n h)) (n h) (if (cap h =? 0)%nat then 64%nat else cap h);
  if alloc_ok then
    '(ks, vs) ← rehash cap' h;
    Some (true, mk_hash ks vs cap' (n h) (n h))
  else Some (false, h).

(** The store at the end of [nvhal_hash_put]: the first slot that is empty or
    a tombstone. *)
Definition put_at (h : nvhal_hash) (key val : Z) : option (bool * nvhal_hash) :=
  i ← probe is_free (k h) (cap h) (hash_slot key (cap h)) (cap h);
  Some (true, mk_hash (<[i := key]> (k h)) (<[i := val]> (v h)) (cap h) (S (n h))
                      (if k h !!! i =? 0 then S (used h) else used h)).

Definition nvhal_hash_put (alloc_ok : bool) (h : nvhal_hash) (key val : Z)
  : option (bool * nvhal_hash) :=
  if bad_key key then Some (false, h)
  else match hash_find_locked h key with
       | Some at_ => Some (true, mk_hash (k h) (<[at_ := val]> (v h)) (cap h) (n h) (used h))
       | None =>
           if (cap h * 3 <? (used h + 1) * 4)%nat then
             '(ok, h') ← hash_grow_locked alloc_ok h;
             if (ok : bool) then put_at h' key val else Some (false, h')
           else put_at h key val
       end.

Definition nvhal_hash_del (h : nvhal_hash) (key : Z) : Z * nvhal_hash :=
  if bad_key key then (NULL, h)
  else match hash_find_locked h key with
       | Some at_ =>
           (v h !!! at_,
            mk_hash (<[at_ := HASH_TOMB]> (k h)) (<[at_ := NULL]> (v h)) (cap h) (n h - 1) (used h))
       | None => (NULL, h)
       end.

(** [nvhal_hash_sweep]: the state of the loop is the table, the number of
    entries deleted and the values handed to [on_del]. *)
Definition sweep_one (pred : Z -> bool) (acc : nvhal_hash * nat * list Z) (i : nat)
  : nvhal_hash * nat * list Z :=
  let '(h, cnt, dels) := acc in
  if is_live (k h !!! i) && pred (v h !!! i) then
    (mk_hash (<[i := HASH_TOMB]> (k h)) (<[i := NULL]> (v h)) (cap h) (n h - 1) (used h),
     S cnt, dels ++ [v h !!! i])
  else acc.

Definition nvhal_hash_sweep (pred : Z -> bool) (h : nvhal_hash) : nvhal_hash * nat * list Z :=
  foldl (sweep_one pred) (h, 0%nat, []) (seq 0 (cap h)).

(** *** Cyclic probing *)

(** The slot [d] steps after [s] in a table of [c] slots. *)
Definition pos (c s d : nat) : nat := ((s + d) mod c)%nat.

Definition pow2 (c : nat) : Prop := exists j : nat, Z.of_nat c = 2 ^ Z.of_nat j.

Lemma pow2_pos c : pow2 c -> (0 < c)%nat.
Proof. intros [j Hj]. assert (0 < 2 ^ Z.of_nat j) by (apply Z.pow_pos_nonneg; lia). lia. Qed.

Lemma pow2_double c : pow2 c -> pow2 (c * 2).
Proof.
  intros [j Hj]. exists (S j). replace (Z.of_nat (S j)) with (Z.of_nat j + 1) by lia.
  rewrite Z.pow_add_r by lia. lia.
Qed.

Lemma next_slot_mod c i : pow2 c -> next_slot c i = (S i mod c)%nat.
Proof.
  intros Hc. pose proof (pow2_pos c Hc). destruct Hc as [j Hj]. unfold next_slot.
  rewrite (land_pow2_mask _ _ (Z.of_nat j)) by (lia || done).
  apply Nat2Z.inj. rewrite Z2Nat.id, Nat2Z.inj_mod.
  - f_equal. lia.
  - apply Z.mod_pos_bound. lia.
Qed.

Lemma hash_slot_lt key c : pow2 c -> (hash_slot key c < c)%nat.
Proof.
  intros Hc. pose proof (pow2_pos c Hc). destruct Hc as [j Hj]. unfold hash_slot.
  rewrite (land_pow2_mask _ _ (Z.of_nat j)) by (lia || done).
  match goal with |- context [?x mod Z.of_nat c] => pose proof (Z.mod_pos_bound x (Z.of_nat c)) end.
  lia.
Qed.

Lemma pos_lt c s d : (0 < c)%nat -> (pos c s d < c)%nat.
Proof. intros. unfold pos. apply Nat.mod_upper_bound. lia. Qed.

Lemma pos_0 c s : (s < c)%nat -> pos c s 0 = s.
Proof. intros. unfold pos. rewrite Nat.add_0_r. by apply Nat.mod_small. Qed.

Lemma pos_next c s d : pow2 c -> pos c (next_slot c s) d = pos c s (S d).
Proof.
  intros Hc. pose proof (pow2_pos c Hc). rewrite next_slot_mod by done. unfold pos.
  rewrite Nat.Div0.add_mod_idemp_l. f_equal. lia.
Qed.

Lemma pos_inj c s d d' : (d < c)%nat -> (d' < c)%nat -> pos c s d = pos c s d' -> d = d'.
Proof.
  intros Hd Hd' E. unfold pos in E. assert (c <> 0)%nat by lia.
  pose proof (Nat.div_mod (s + d) c ltac:(done)) as E1.
  pose proof (Nat.div_mod (s + d') c ltac:(done)) as E2.
  rewrite E in E1. set (q1 := ((s + d) / c)%nat) in *. set (q2 := ((s + d') / c)%nat) in *.
  destruct (Nat.lt_trichotomy q1 q2) as [?|[->|?]]; nia.
Qed.

Lemma pos_surj c s i : (i < c)%nat -> exists d, (d < c)%nat /\ pos c s d = i.
Proof.
  intros Hi. exists ((i + (c - s mod c)) mod c)%nat. split.
  - apply Nat.mod_upper_bound. lia.
  - unfold pos. rewrite Nat.Div0.add_mod_idemp_r.
    pose proof (Nat.mod_upper_bound s c ltac:(lia)).
    rewrite <- (Nat.Div0.add_mod_idemp_l s).
    replace (s mod c + (i + (c - s mod c)))%nat with (i + 1 * c)%nat by lia.
    rewrite Nat.Div0.mod_add. by apply Nat.mod_small.
Qed.

Lemma find_from_Some ks c key i rest j :
  pow2 c -> (i < c)%nat ->
  find_from ks c key i rest = Some j <->
  exists d, (d < rest)%nat /\ j = pos c i d /\ ks !!! j = key /\ ks !!! j <> 0 /\
    forall e, (e < d)%nat -> ks !!! pos c i e <> 0 /\ ks !!! pos c i e <> key.
Proof.
  intros Hc. pose proof (pow2_pos c Hc). revert i.
  induction rest as [|rest IH]; intros i Hi; simpl.
  { split; [done|]. intros (d & ? & _). lia. }
  destruct (Z.eqb_spec (ks !!! i) 0) as [E0|E0].
  { split; [done|]. intros (d & Hd & -> & ? & Hnz & He). destruct d as [|d].
    - by rewrite pos_0 in Hnz.
    - destruct (He 0%nat); [lia|]. by rewrite pos_0 in *. }
  destruct (Z.eqb_spec (ks !!! i) key) as [E1|E1].
  { split.
    - intros [= <-]. exists 0%nat. rewrite pos_0 by done. repeat split; (lia || done).
    - intros (d & Hd & -> & Hk & Hnz & He). destruct d as [|d]; [by rewrite pos_0|].
      destruct (He 0%nat); [lia|]. by rewrite pos_0 in *. }
  rewrite IH by (rewrite next_slot_mod by done; apply Nat.mod_upper_bound; lia).
  split.
  - intros (d & Hd & -> & Hk & Hnz & He). rewrite pos_next in * by done.
    exists (S d). repeat split; [lia|done|done| | ].
    + destruct e as [|e]; [by rewrite pos_0|]. destruct (He e); [lia|]. by rewrite pos_next in *.
    + destruct e as [|e]; [by rewrite pos_0|]. destruct (He e); [lia|]. by rewrite pos_next in *.
  - intros (d & Hd & -> & Hk & Hnz & He). destruct d as [|d].
    { by rewrite pos_0 in Hk. }
    exists d. rewrite pos_next by done. repeat split; [lia|done|done| | ].
    + rewrite pos_next by done. apply He. lia.
    + rewrite pos_next by done. apply He. lia.
Qed.

Lemma probe_Some stop ks c i fuel j :
  pow2 c -> (i < c)%nat -> probe stop ks c i fuel = Some j ->
  (j < c)%nat /\ stop (ks !!! j) = true /\
  exists d, (d < fuel)%nat /\ j = pos c i d /\
    forall e, (e < d)%nat -> stop (ks !!! pos c i e) = false.
Proof.
  intros Hc. pose proof (pow2_pos c Hc). revert i.
  induction fuel as [|fuel IH]; intros i Hi; simpl; [done|].
  destruct (stop (ks !!! i)) eqn:E.
  { intros [= <-]. split; [done|]. split; [done|]. exists 0%nat. rewrite pos_0 by done.
    repeat split; lia. }
  intros Hp. apply IH in Hp as (Hj & Hs & d & Hd & -> & He);
    [|rewrite next_slot_mod by done; apply Nat.mod_upper_bound; lia].
  rewrite pos_next in * by done. split; [done|]. split; [done|].
  exists (S d). split; [lia|]. split; [done|].
  intros [|e] ?; [by rewrite pos_0|]. rewrite <- pos_next by done. apply He. lia.
Qed.

Lemma probe_total_aux stop ks c i fuel d :
  pow2 c -> (i < c)%nat -> (d < fuel)%nat -> stop (ks !!! pos c i d) = true ->
  is_Some (probe stop ks c i fuel).
Proof.
  intros Hc. pose proof (pow2_pos c Hc). revert i d.
  induction fuel as [|fuel IH]; intros i d Hi Hd Hs; [lia|]. simpl.
  destruct (stop (ks !!! i)) eqn:E; [by eexists|].
  destruct d as [|d]; [by rewrite pos_0, E in Hs|].
  apply (IH _ d); [|lia|by rewrite pos_next].
  rewrite next_slot_mod by done. apply Nat.mod_upper_bound. lia.
Qed.

(** A full turn of the table finds any stopping slot. *)
Lemma probe_total stop ks c i j :
  pow2 c -> (i < c)%nat -> (j < c)%nat -> stop (ks !!! j) = true ->
  is_Some (probe stop ks c i c).
Proof.
  intros Hc Hi Hj Hs. destruct (pos_surj c i j Hj) as (d & Hd & <-).
  by apply (probe_total_aux stop ks c i c d).
Qed.

(** *** The table invariant *)

(** [key] at index [i] is reachable from its home slot without crossing an
    empty slot: the condition linear probing with tombstones maintains. *)
Definition reach (ks : list Z) (c : nat) (key : Z) (i : nat) : Prop :=
  exists d, (d < c)%nat /\ i = pos c (hash_slot key c) d /\
    forall e, (e < d)%nat -> ks !!! pos c (hash_slot key c) e <> 0.

Record tbl (c : nat) (ks vs : list Z) : Prop := {
  tbl_pow2 : pow2 c;
  tbl_len_k : length ks = c;
  tbl_len_v : length vs = c;
  tbl_uniq i j key :
    ks !! i = Some key -> ks !! j = Some key -> is_live key = true -> i = j;
  tbl_reach i key : ks !! i = Some key -> is_live key = true -> reach ks c key i;
}.

(** The entries of the arrays are the pairs of the finite map [m]. *)
Definition holds (ks vs : list Z) (m : gmap Z Z) : Prop :=
  forall key val, m !! key = Some val <->
    is_live key = true /\ exists i, ks !! i = Some key /\ vs !! i = Some val.

Definition is_used (x : Z) : bool := negb (x =? 0).

Definition inv (h : nvhal_hash) : Prop :=
  h = NVHAL_HASH_INIT \/
  (tbl (cap h) (k h) (v h) /\ n h = countb is_live (k h) /\ used h = countb is_used (k h) /\
   (used h * 4 <= cap h * 3)%nat).

Definition rep (h : nvhal_hash) (m : gmap Z Z) : Prop := inv h /\ holds (k h) (v h) m.

Lemma is_live_bad key : is_live key = negb (bad_key key).
Proof. unfold is_live, bad_key. by rewrite negb_orb. Qed.

Lemma is_live_nz key : is_live key = true -> key <> 0.
Proof. unfold is_live. intros. bool_props. lia. Qed.

Lemma not_live_tomb : is_live HASH_TOMB = false.
Proof. reflexivity. Qed.

Lemma total_of (ks : list Z) i x : ks !! i = Some x -> ks !!! i = x.
Proof. apply list_lookup_total_correct. Qed.

Lemma of_total (ks : list Z) i x : (i < length ks)%nat -> ks !!! i = x -> ks !! i = Some x.
Proof. intros Hi <-. by apply list_lookup_lookup_total_lt. Qed.

Lemma insert_total_ne (ks : list Z) i j x : i <> j -> <[i := x]> ks !!! j = ks !!! j.
Proof. intros. by apply list_lookup_total_insert_ne. Qed.

Lemma find_hit c ks vs key i :
  tbl c ks vs -> is_live key = true -> ks !! i = Some key ->
  find_from ks c key (hash_slot key c) c = Some i.
Proof.
  intros T Hl Hi. pose proof (tbl_pow2 _ _ _ T) as Hc. pose proof (pow2_pos _ Hc).
  destruct (tbl_reach _ _ _ T i key Hi Hl) as (d & Hd & E & Hnz).
  apply find_from_Some; [done|by apply hash_slot_lt|].
  exists d. split; [done|]. split; [done|].
  rewrite (total_of _ _ _ Hi). split; [done|]. split; [by apply is_live_nz|].
  intros e He. split; [by apply Hnz|]. intros Hk.
  assert (ks !! pos c (hash_slot key c) e = Some key) as Hpe.
  { apply of_total; [|done]. rewrite (tbl_len_k _ _ _ T). by apply pos_lt. }
  pose proof (tbl_uniq _ _ _ T _ _ _ Hi Hpe Hl) as Ei. rewrite E in Ei.
  apply pos_inj in Ei; lia.
Qed.

Lemma find_sound c ks vs key i :
  tbl c ks vs -> find_from ks c key (hash_slot key c) c = Some i -> ks !! i = Some key.
Proof.
  intros T Hf. pose proof (tbl_pow2 _ _ _ T) as Hc. pose proof (pow2_pos _ Hc).
  apply find_from_Some in Hf as (d & Hd & -> & Hk & _ & _); [|done|by apply hash_slot_lt].
  apply of_total; [|done]. rewrite (tbl_len_k _ _ _ T). by apply pos_lt.
Qed.

Lemma tbl_setv c ks vs i val : tbl c ks vs -> tbl c ks (<[i := val]> vs).
Proof. intros []. split; try done. by rewrite length_insert. Qed.

(** Overwriting a slot with a non-empty key keeps every probe chain. *)
Lemma reach_insert ks c key i j x :
  x <> 0 -> reach ks c key i -> reach (<[j := x]> ks) c key i.
Proof.
  intros Hx (d & Hd & E & Hnz). exists d. split; [done|]. split; [done|].
  intros e He. destruct (decide (j = pos c (hash_slot key c) e)) as [->|Hne].
  - destruct (decide (pos c (hash_slot key c) e < length ks)%nat).
    + by rewrite list_lookup_total_insert_eq.
    + rewrite list_insert_ge by lia. by apply Hnz.
  - rewrite insert_total_ne by done. by apply Hnz.
Qed.

Lemma tbl_tomb c ks vs i : tbl c ks vs -> tbl c (<[i := HASH_TOMB]> ks) (<[i := NULL]> vs).
Proof.
  intros [Hp Hk Hv Hu Hr]. split; [done|by rewrite length_insert|by rewrite length_insert| |].
  - intros i1 i2 key [[-> [<- _]]|[_ H1]]%list_lookup_insert_Some H2 Hl; [done|].
    apply list_lookup_insert_Some in H2 as [[-> [<- _]]|[_ H2]]; [done|]. by eapply Hu.
  - intros i1 key [[-> [<- _]]|[_ H1]]%list_lookup_insert_Some Hl; [done|].
    apply reach_insert; [done|]. by apply Hr.
Qed.

Lemma tbl_insert stop c ks vs key val j :
  (forall x, stop x = true -> is_live x = false) ->
  (forall x, stop x = false -> x <> 0) ->
  tbl c ks vs -> is_live key = true -> (forall i, ks !! i <> Some key) ->
  probe stop ks c (hash_slot key c) c = Some j ->
  tbl c (<[j := key]> ks) (<[j := val]> vs).
Proof.
  intros Hs1 Hs2 [Hp Hk Hv Hu Hr] Hl Hn Hj.
  apply probe_Some in Hj as (Hjc & Hstop & d & Hd & Ej & He); [|done|by apply hash_slot_lt].
  split; [done|by rewrite length_insert|by rewrite length_insert| |].
  - intros i1 i2 key' H1 H2 Hl'.
    apply list_lookup_insert_Some in H1 as [(-> & -> & _)|[Hne1 H1]];
      apply list_lookup_insert_Some in H2 as [(-> & ? & _)|[Hne2 H2]]; simplify_eq/=; try done.
    + by destruct (Hn i2).
    + by destruct (Hn i1).
    + by eapply Hu.
  - intros i1 key' H1 Hl'.
    apply list_lookup_insert_Some in H1 as [(<- & <- & _)|[Hne1 H1]].
    + exists d. split; [done|]. split; [done|]. intros e Hed.
      rewrite insert_total_ne; [by apply Hs2, He|]. rewrite Ej.
      intros E%pos_inj; lia.
    + apply reach_insert; [by apply is_live_nz|]. by apply Hr.
Qed.

Lemma holds_insert ks vs m key val j x :
  holds ks vs m -> is_live key = true -> m !! key = None -> length ks = length vs ->
  ks !! j = Some x -> is_live x = false ->
  holds (<[j := key]> ks) (<[j := val]> vs) (<[key := val]> m).
Proof.
  intros Hh Hl Hnone Hlen Hj Hx key' val'.
  assert (j < length ks)%nat by (by eapply lookup_lt_Some).
  destruct (decide (key = key')) as [<-|Hne].
  - rewrite lookup_insert_eq. split.
    + intros [= <-]. split; [done|]. exists j. by rewrite !list_lookup_insert_eq by lia.
    + intros [_ (i & Hi & Hv)]. destruct (decide (i = j)) as [->|Hij].
      { rewrite list_lookup_insert_eq in Hv by lia. congruence. }
      rewrite list_lookup_insert_ne in Hi, Hv by done.
      assert (m !! key = Some val') by (apply Hh; eauto). congruence.
  - rewrite lookup_insert_ne by done. rewrite (Hh key' val'). split.
    + intros [? (i & Hi & Hv)]. split; [done|]. exists i.
      destruct (decide (i = j)) as [->|Hij]; [congruence|].
      by rewrite !list_lookup_insert_ne.
    + intros [? (i & Hi & Hv)]. split; [done|]. exists i.
      destruct (decide (i = j)) as [->|Hij].
      { rewrite list_lookup_insert_eq in Hi by lia. congruence. }
      by rewrite !list_lookup_insert_ne in Hi, Hv.
Qed.

Lemma holds_setv c ks vs m key val i :
  tbl c ks vs -> holds ks vs m -> is_live key = true -> ks !! i = Some key ->
  holds ks (<[i := val]> vs) (<[key := val]> m).
Proof.
  intros T Hh Hl Hi key' val'.
  assert (i < length vs)%nat.
  { rewrite (tbl_len_v _ _ _ T), <- (tbl_len_k _ _ _ T). by eapply lookup_lt_Some. }
  destruct (decide (key = key')) as [<-|Hne].
  - rewrite lookup_insert_eq. split.
    + intros [= <-]. split; [done|]. exists i. by rewrite list_lookup_insert_eq.
    + intros [_ (i' & Hi' & Hv)]. rewrite (tbl_uniq _ _ _ T i' i key) in Hv by done.
      rewrite list_lookup_insert_eq in Hv by done. congruence.
  - rewrite lookup_insert_ne by done. rewrite (Hh key' val'). split; intros [? (i' & Hi' & Hv)];
      (split; [done|]); exists i'; rewrite list_lookup_insert_ne in * by congruence; done.
Qed.

Lemma holds_tomb c ks vs m key i :
  tbl c ks vs -> holds ks vs m -> is_live key = true -> ks !! i = Some key ->
  holds (<[i := HASH_TOMB]> ks) (<[i := NULL]> vs) (delete key m).
Proof.
  intros T Hh Hl Hi key' val'.
  assert (i < length ks)%nat by (by eapply lookup_lt_Some).
  destruct (decide (key = key')) as [<-|Hne].
  - rewrite lookup_delete_eq. split; [done|]. intros [_ (i' & Hi' & Hv)].
    apply list_lookup_insert_Some in Hi' as [(_ & <- & _)|[Hne Hi']]; [done|].
    destruct Hne. by eapply (tbl_uniq _ _ _ T).
  - rewrite lookup_delete_ne by done. rewrite (Hh key' val'). split; intros [Hl' (i' & Hi' & Hv)]; (split; [done|]).
    + exists i'. rewrite !list_lookup_insert_ne by congruence. done.
    + apply list_lookup_insert_Some in Hi' as [(_ & <- & _)|[Hne' Hi']]; [done|].
      exists i'. by rewrite list_lookup_insert_ne in Hv.
Qed.

(** *** Lookup *)

Lemma rep_init : rep NVHAL_HASH_INIT ∅.
Proof.
  split; [by left|]. intros key val. rewrite lookup_empty. split; [done|].
  intros [_ (i & Hi & _)]. done.
Qed.

Lemma find_locked_Some h m key i :
  rep h m -> hash_find_locked h key = Some i ->
  tbl (cap h) (k h) (v h) /\ k h !! i = Some key.
Proof.
  intros [[->|(T & _)] _]; unfold hash_find_locked; [done|].
  case_match; [done|]. intros Hf. split; [done|]. by eapply find_sound.
Qed.

Lemma find_locked_value h m key i :
  rep h m -> is_live key = true -> hash_find_locked h key = Some i ->
  m !! key = Some (v h !!! i).
Proof.
  intros R Hl Hf. destruct (find_locked_Some _ _ _ _ R Hf) as [T Hi].
  apply R. split; [done|]. exists i. split; [done|].
  apply of_total; [|done]. rewrite (tbl_len_v _ _ _ T), <- (tbl_len_k _ _ _ T).
  by eapply lookup_lt_Some.
Qed.

Lemma find_locked_None h m key :
  rep h m -> is_live key = true -> hash_find_locked h key = None -> m !! key = None.
Proof.
  intros [Hi Hh] Hl Hf. destruct (m !! key) as [val|] eqn:E; [|done].
  apply Hh in E as [_ (i & Hk & Hv)]. destruct Hi as [->|(T & _)]; [done|].
  unfold hash_find_locked in Hf. destruct (Nat.eqb_spec (cap h) 0).
  - apply lookup_lt_Some in Hk. pose proof (tbl_len_k _ _ _ T). lia.
  - by rewrite (find_hit _ _ _ _ _ T Hl Hk) in Hf.
Qed.

Lemma get_spec h m key :
  rep h m -> bad_key key = false -> nvhal_hash_get h key = default NULL (m !! key).
Proof.
  intros R Hb. unfold nvhal_hash_get. rewrite Hb.
  assert (is_live key = true) by (by rewrite is_live_bad, Hb).
  destruct (hash_find_locked h key) as [i|] eqn:E.
  - by rewrite (find_locked_value _ _ _ _ R H E).
  - by rewrite (find_locked_None _ _ _ R H E).
Qed.

(** *** Growing *)

Lemma grow_cap_spec fuel n0 c :
  pow2 c -> ((n0 + 1) * 2 <= c * 2 ^ fuel)%nat ->
  exists c', grow_cap fuel n0 c = Some c' /\ pow2 c' /\ ((n0 + 1) * 2 <= c')%nat.
Proof.
  revert c. induction fuel as [|fuel IH]; intros c Hc Hle; simpl.
  - destruct (Nat.ltb_spec c ((n0 + 1) * 2)); [|eauto]. simpl in Hle. lia.
  - destruct (Nat.ltb_spec c ((n0 + 1) * 2)); [|eauto].
    apply IH; [by apply pow2_double|]. simpl in Hle. lia.
Qed.

Lemma pow2_64 : pow2 64.
Proof. by exists 6%nat. Qed.

Lemma grow_cap_total h :
  inv h ->
  exists c', grow_cap (S (n h)) (n h) (if (cap h =? 0)%nat then 64%nat else cap h) = Some c' /\
    pow2 c' /\ ((n h + 1) * 2 <= c')%nat.
Proof.
  intros Hi. apply grow_cap_spec.
  - destruct Hi as [->|(T & _)]; [apply pow2_64|].
    pose proof (tbl_pow2 _ _ _ T) as Hp. pose proof (pow2_pos _ Hp).
    destruct (Nat.eqb_spec (cap h) 0); [lia|done].
  - assert (n h + 1 <= 2 ^ n h)%nat.
    { pose proof (Nat.pow_gt_lin_r 2 (n h)). lia. }
    assert (1 <= if (cap h =? 0)%nat then 64 else cap h)%nat.
    { destruct (Nat.eqb_spec (cap h) 0); lia. }
    simpl. nia.
Qed.

(** What the rehash loop adds to the map it started from. *)
Definition add_live (m : gmap Z Z) (kv : Z * Z) : gmap Z Z :=
  if is_live kv.1 then <[kv.1 := kv.2]> m else m.

Definition live_uniq (l : list (Z * Z)) : Prop :=
  forall i j kv kv', l !! i = Some kv -> l !! j = Some kv' -> kv.1 = kv'.1 ->
    is_live kv.1 = true -> i = j.

Lemma live_uniq_cons kv l : live_uniq (kv :: l) ->
  live_uniq l /\ (is_live kv.1 = true -> forall i kv', l !! i = Some kv' -> kv'.1 <> kv.1).
Proof.
  intros Hu. split.
  - intros i j x y Hx Hy E Hl. by pose proof (Hu (S i) (S j) x y Hx Hy E Hl) as [= ->].
  - intros Hl i kv' Hi E. pose proof (Hu 0%nat (S i) kv kv' eq_refl Hi (eq_sym E) Hl). done.
Qed.

Lemma rehash_one_step c ks vs m kv :
  tbl c ks vs -> holds ks vs m -> (countb is_used ks < c)%nat ->
  (is_live kv.1 = true -> m !! kv.1 = None) ->
  exists ks' vs', rehash_one c (Some (ks, vs)) kv = Some (ks', vs') /\ tbl c ks' vs' /\
    holds ks' vs' (add_live m kv) /\
    countb is_used ks' = (countb is_used ks + (if is_live kv.1 then 1 else 0))%nat /\
    countb is_live ks' = (countb is_live ks + (if is_live kv.1 then 1 else 0))%nat.
Proof.
  intros T Hh Hcnt Hfresh. unfold rehash_one, add_live. simpl.
  destruct (is_live kv.1) eqn:Hl; [|exists ks, vs; split_and!; (done || lia)].
  pose proof (tbl_pow2 _ _ _ T) as Hc.
  rewrite <- (tbl_len_k _ _ _ T) in Hcnt at 1.
  destruct (countb_lt_exists _ _ Hcnt) as (z & x & Hz & Hx).
  destruct (probe_total is_zero ks c (hash_slot kv.1 c) z) as [j Hj];
    [done|by apply hash_slot_lt| | |].
  { rewrite <- (tbl_len_k _ _ _ T). by eapply lookup_lt_Some. }
  { rewrite (total_of _ _ _ Hz). by apply negb_false_iff in Hx. }
  rewrite Hj. simpl. eexists _, _. split; [done|].
  assert (Hn : m !! kv.1 = None) by by apply Hfresh.
  pose proof (probe_Some _ _ _ _ _ _ Hc (hash_slot_lt _ _ Hc) Hj) as (Hjc & Hst & _).
  assert (Hj0 : ks !! j = Some 0).
  { apply of_total; [by rewrite (tbl_len_k _ _ _ T)|]. unfold is_zero in Hst. by bool_props. }
  split.
  { eapply (tbl_insert is_zero); eauto.
    - intros y Hy. unfold is_zero in Hy. bool_props. by subst.
    - intros y Hy. unfold is_zero in Hy. by bool_props.
    - intros i Hi.
      destruct (vs !! i) as [val|] eqn:Ev.
      + assert (m !! kv.1 = Some val) by (apply Hh; eauto). congruence.
      + apply lookup_ge_None in Ev. apply lookup_lt_Some in Hi.
        rewrite (tbl_len_v _ _ _ T), <- (tbl_len_k _ _ _ T) in Ev. lia. }
  split.
  { eapply holds_insert; eauto. by rewrite (tbl_len_k _ _ _ T), (tbl_len_v _ _ _ T). }
  pose proof (countb_insert is_used _ _ _ kv.1 Hj0). pose proof (countb_insert is_live _ _ _ kv.1 Hj0).
  rewrite Hl in *. assert (is_used kv.1 = true).
  { apply is_live_nz in Hl. unfold is_used. by destruct (Z.eqb_spec kv.1 0). }
  rewrite H1 in *. simpl in *. lia.
Qed.

Lemma rehash_foldl c l ks vs m :
  tbl c ks vs -> holds ks vs m -> live_uniq l ->
  (forall i kv, l !! i = Some kv -> is_live kv.1 = true -> m !! kv.1 = None) ->
  (countb is_used ks + countb is_live l.*1 < c)%nat ->
  exists ks' vs', foldl (rehash_one c) (Some (ks, vs)) l = Some (ks', vs') /\ tbl c ks' vs' /\
    holds ks' vs' (foldl add_live m l) /\
    countb is_used ks' = (countb is_used ks + countb is_live l.*1)%nat /\
    countb is_live ks' = (countb is_live ks + countb is_live l.*1)%nat.
Proof.
  revert ks vs m. induction l as [|kv l IH]; intros ks vs m T Hh Hu Hf Hcnt; simpl in *;
    try change (list_fmap (Z * Z)%type Z fst l) with (l.*1) in *.
  { exists ks, vs. split_and!; (done || lia). }
  apply live_uniq_cons in Hu as [Hu Hhd].
  destruct (rehash_one_step c ks vs m kv) as (ks1 & vs1 & E & T1 & Hh1 & Cu & Cl); [done|done|lia| |].
  { intros. by apply (Hf 0%nat kv). }
  simpl in E. rewrite E.
  destruct (IH ks1 vs1 (add_live m kv)) as (ks2 & vs2 & E2 & T2 & Hh2 & Cu2 & Cl2); try done.
  { intros i kv' Hi Hl. unfold add_live. destruct (is_live kv.1) eqn:Hlk.
    - rewrite lookup_insert_ne by (symmetry; by eapply Hhd). by eapply (Hf (S i)).
    - by eapply (Hf (S i)). }
  { lia. }
  exists ks2, vs2. split_and!; try done; lia.
Qed.

Lemma add_live_other l m key :
  (forall i kv, l !! i = Some kv -> kv.1 <> key) -> foldl add_live m l !! key = m !! key.
Proof.
  revert m. induction l as [|kv l IH]; intros m Hne; simpl; [done|].
  rewrite IH by (intros i kv' Hi; by apply (Hne (S i))).
  unfold add_live. destruct (is_live kv.1); [|done].
  by rewrite lookup_insert_ne by (by apply (Hne 0%nat)).
Qed.

Lemma add_live_in l m i key val :
  live_uniq l -> l !! i = Some (key, val) -> is_live key = true ->
  foldl add_live m l !! key = Some val.
Proof.
  revert m i. induction l as [|kv l IH]; intros m i Hu Hi Hl; [done|].
  apply live_uniq_cons in Hu as [Hu Hhd]. destruct i as [|i]; simpl in *.
  - injection Hi as ->. rewrite add_live_other by (intros ? ? Hj; by eapply (Hhd Hl)).
    unfold add_live. simpl. by rewrite Hl, lookup_insert_eq.
  - by eapply IH.
Qed.

Lemma zip_uniq c ks vs : tbl c ks vs -> live_uniq (zip ks vs).
Proof.
  intros T i j [k1 v1] [k2 v2] (? & ? & ? & Hi & Hvi)%lookup_zip_with_Some
    (? & ? & ? & Hj & Hvj)%lookup_zip_with_Some. simplify_eq/=. intros -> Hl.
  by eapply (tbl_uniq _ _ _ T).
Qed.

(** A rehash of a well-formed table holds exactly the same entries. *)
Lemma rehash_spec h m c :
  tbl (cap h) (k h) (v h) -> holds (k h) (v h) m -> pow2 c ->
  (countb is_live (k h) < c)%nat ->
  exists ks vs, rehash c h = Some (ks, vs) /\ tbl c ks vs /\ holds ks vs m /\
    countb is_used ks = countb is_live (k h) /\ countb is_live ks = countb is_live (k h).
Proof.
  intros T Hh Hc Hn. unfold rehash.
  assert (Hz : (zip (k h) (v h)).*1 = k h).
  { apply fst_zip. by rewrite (tbl_len_k _ _ _ T), (tbl_len_v _ _ _ T). }
  destruct (rehash_foldl c (zip (k h) (v h)) (replicate c 0) (replicate c NULL) ∅)
    as (ks & vs & E & T' & Hh' & Cu & Cl).
  - split; [done|apply length_replicate|apply length_replicate| |].
    + by intros i j key [-> _]%lookup_replicate _ ?.
    + by intros i key [-> _]%lookup_replicate ?.
  - intros key val. rewrite lookup_empty. split; [done|].
    by intros [? (i & [-> _]%lookup_replicate & _)].
  - by eapply zip_uniq.
  - intros. apply lookup_empty.
  - rewrite Hz, countb_replicate. simpl. lia.
  - rewrite Hz, countb_replicate in *. exists ks, vs. split_and!; try done.
    replace m with (foldl add_live ∅ (zip (k h) (v h))); [done|].
    apply map_eq. intros key. destruct (m !! key) as [val|] eqn:Em.
    + apply Hh in Em as [Hl (i & Hk & Hv)]. eapply add_live_in; [by eapply zip_uniq| |done].
      apply lookup_zip_with_Some. by exists key, val.
    + destruct (decide (is_live key = true)) as [Hl|Hl].
      * rewrite add_live_other; [apply lookup_empty|].
        intros i [k1 v1] (? & ? & E1 & Hk & Hv)%lookup_zip_with_Some E2.
        injection E1 as <- <-. simpl in E2. subst k1.
        assert (m !! key = Some v1) by (apply Hh; eauto). congruence.
      * destruct (foldl add_live ∅ _ !! key) as [val|] eqn:E2; [|done].
        by apply Hh' in E2 as [? _].
Qed.

Lemma grow_locked_spec h m :
  rep h m -> exists h', hash_grow_locked true h = Some (true, h') /\ rep h' m /\
    tbl (cap h') (k h') (v h') /\ used h' = n h' /\ ((n h' + 1) * 2 <= cap h')%nat.
Proof.
  intros [Hi Hh]. destruct (grow_cap_total h Hi) as (c & E & Hc & Hle).
  unfold hash_grow_locked. rewrite E. simpl. destruct Hi as [->|(T & Hn & Hu & Hload)].
  - pose proof (pow2_pos _ Hc). unfold rehash. simpl. eexists. split; [done|]. simpl.
    assert (T : tbl c (replicate c 0) (replicate c NULL)).
    { split; [done|apply length_replicate|apply length_replicate| |].
      + by intros i j key [-> _]%lookup_replicate _ ?.
      + by intros i key [-> _]%lookup_replicate ?. }
    split_and!; try done; try (simpl in Hle; lia). split.
    + right. simpl. rewrite !countb_replicate. split_and!; (done || lia).
    + intros key val. split.
      * intros Hm%Hh. destruct Hm as [_ (i & Hk & _)]. done.
      * by intros [? (i & [-> _]%lookup_replicate & _)].
  - destruct (rehash_spec h m c T Hh Hc) as (ks & vs & -> & T' & Hh' & Cu & Cl); [lia|].
    simpl. eexists. split; [done|]. simpl. split_and!; try done; try lia.
    split; [right|done]. simpl. split_and!; (done || lia).
Qed.

(** *** Insertion, deletion, sweep *)

Lemma put_at_spec h m key val :
  rep h m -> tbl (cap h) (k h) (v h) -> is_live key = true -> m !! key = None ->
  ((used h + 1) * 4 <= cap h * 3)%nat ->
  exists h', put_at h key val = Some (true, h') /\ rep h' (<[key := val]> m).
Proof.
  intros [Hi Hh] T Hl Hnone Hload. pose proof (tbl_pow2 _ _ _ T) as Hc. pose proof (pow2_pos _ Hc).
  assert (Hu : n h = countb is_live (k h) /\ used h = countb is_used (k h)).
  { destruct Hi as [->|(_ & ? & ? & _)]; [|done]. simpl in *. lia. }
  destruct Hu as [Hn Hu].
  assert (Hlt : (countb is_used (k h) < length (k h))%nat) by (rewrite (tbl_len_k _ _ _ T); lia).
  destruct (countb_lt_exists _ _ Hlt) as (z & x & Hz & Hx).
  destruct (probe_total is_free (k h) (cap h) (hash_slot key (cap h)) z) as [j Hj];
    [done|by apply hash_slot_lt| | |].
  { rewrite <- (tbl_len_k _ _ _ T). by eapply lookup_lt_Some. }
  { rewrite (total_of _ _ _ Hz). apply negb_false_iff in Hx. unfold is_free. by rewrite Hx. }
  unfold put_at. rewrite Hj. simpl. eexists. split; [done|].
  pose proof (probe_Some _ _ _ _ _ _ Hc (hash_slot_lt _ _ Hc) Hj) as (Hjc & Hst & _).
  assert (Hjl : k h !! j = Some (k h !!! j)).
  { apply of_total; [by rewrite (tbl_len_k _ _ _ T)|done]. }
  assert (Hnl : is_live (k h !!! j) = false).
  { unfold is_free in Hst. rewrite is_live_bad. unfold bad_key. by rewrite Hst. }
  split; [right; simpl|simpl; eapply holds_insert; eauto; by rewrite (tbl_len_k _ _ _ T), (tbl_len_v _ _ _ T)].
  pose proof (countb_insert is_used _ _ _ key Hjl) as Cu.
  pose proof (countb_insert is_live _ _ _ key Hjl) as Cl.
  assert (is_used key = true) as Huk.
  { apply is_live_nz in Hl. unfold is_used. by destruct (Z.eqb_spec key 0). }
  rewrite Hnl, Hl in Cl. rewrite Huk in Cu. unfold is_used at 2 in Cu.
  split_and!.
  - eapply (tbl_insert is_free); eauto.
    + intros y Hy. rewrite is_live_bad. unfold bad_key, is_free in *. by rewrite Hy.
    + intros y Hy. unfold is_free in Hy. bool_props. done.
    + intros i Hi'. assert (is_Some (v h !! i)) as [val' Hv].
      { apply lookup_lt_is_Some. rewrite (tbl_len_v _ _ _ T), <- (tbl_len_k _ _ _ T).
        by eapply lookup_lt_Some. }
      assert (m !! key = Some val') by (apply Hh; eauto). congruence.
  - lia.
  - destruct (Z.eqb_spec (k h !!! j) 0); simpl in Cu; lia.
  - destruct (Z.eqb_spec (k h !!! j) 0); lia.
Qed.

Lemma put_found h m key val i :
  rep h m -> is_live key = true -> hash_find_locked h key = Some i ->
  rep (mk_hash (k h) (<[i := val]> (v h)) (cap h) (n h) (used h)) (<[key := val]> m).
Proof.
  intros R Hl Hf. destruct (find_locked_Some _ _ _ _ R Hf) as [T Hk]. destruct R as [Hi Hh].
  split; [|by eapply holds_setv]. destruct Hi as [->|(_ & Hn & Hu & Hload)]; [done|].
  right. simpl. split_and!; try done. by apply tbl_setv.
Qed.

Lemma put_spec h m key val :
  rep h m -> bad_key key = false ->
  exists h', nvhal_hash_put true h key val = Some (true, h') /\ rep h' (<[key := val]> m).
Proof.
  intros R Hb. assert (Hl : is_live key = true) by (by rewrite is_live_bad, Hb).
  unfold nvhal_hash_put. rewrite Hb.
  destruct (hash_find_locked h key) as [i|] eqn:Hf.
  { eexists. split; [done|]. by eapply put_found. }
  pose proof (find_locked_None _ _ _ R Hl Hf) as Hnone.
  destruct (Nat.ltb_spec (cap h * 3) ((used h + 1) * 4)) as [Hg|Hg].
  - destruct (grow_locked_spec h m R) as (h' & -> & R' & T' & Hu & Hle). simpl.
    apply (put_at_spec h' m); try done. lia.
  - apply (put_at_spec h m); try done. destruct R as [[->|(T & _)] _]; [|done].
    simpl in Hg. lia.
Qed.

Lemma put_fail_spec h m key val :
  rep h m -> exists b h', nvhal_hash_put false h key val = Some (b, h') /\
    rep h' (if (b : bool) then <[key := val]> m else m).
Proof.
  intros R. unfold nvhal_hash_put. destruct (bad_key key) eqn:Hb; [by exists false, h|].
  assert (Hl : is_live key = true) by (by rewrite is_live_bad, Hb).
  destruct (hash_find_locked h key) as [i|] eqn:Hf.
  { eexists true, _. split; [done|]. by eapply put_found. }
  pose proof (find_locked_None _ _ _ R Hl Hf) as Hnone.
  destruct (Nat.ltb_spec (cap h * 3) ((used h + 1) * 4)) as [Hg|Hg].
  - destruct (grow_cap_total h (proj1 R)) as (c & E & _).
    unfold hash_grow_locked. rewrite E. simpl. by exists false, h.
  - destruct (put_at_spec h m key val) as (h' & -> & R'); try done.
    + destruct R as [[->|(T & _)] _]; [|done]. simpl in Hg. lia.
    + by exists true, h'.
Qed.

Lemma tomb_rep h m key i :
  rep h m -> tbl (cap h) (k h) (v h) -> is_live key = true -> k h !! i = Some key ->
  rep (mk_hash (<[i := HASH_TOMB]> (k h)) (<[i := NULL]> (v h)) (cap h) (n h - 1) (used h))
      (delete key m).
Proof.
  intros [Hi Hh] T Hl Hk. split; [|by eapply holds_tomb].
  destruct Hi as [->|(_ & Hn & Hu & Hload)]; [done|]. right. simpl.
  pose proof (countb_insert is_used _ _ _ HASH_TOMB Hk) as Cu.
  pose proof (countb_insert is_live _ _ _ HASH_TOMB Hk) as Cl.
  assert (is_used key = true) as Huk.
  { apply is_live_nz in Hl. unfold is_used. by destruct (Z.eqb_spec key 0). }
  rewrite Huk in Cu. rewrite Hl, not_live_tomb in Cl. assert (is_used HASH_TOMB = true) as Hut by done. rewrite Hut in Cu.
  split_and!; [by apply tbl_tomb|lia|lia|done].
Qed.

Lemma del_spec h m key :
  rep h m -> bad_key key = false ->
  (nvhal_hash_del h key).1 = default NULL (m !! key) /\
  rep (nvhal_hash_del h key).2 (delete key m).
Proof.
  intros R Hb. assert (Hl : is_live key = true) by (by rewrite is_live_bad, Hb).
  unfold nvhal_hash_del. rewrite Hb.
  destruct (hash_find_locked h key) as [i|] eqn:Hf; simpl.
  - rewrite (find_locked_value _ _ _ _ R Hl Hf). split; [done|].
    destruct (find_locked_Some _ _ _ _ R Hf) as [T Hk]. by apply tomb_rep.
  - pose proof (find_locked_None _ _ _ R Hl Hf) as E. rewrite E. split; [done|].
    by rewrite delete_id.
Qed.

(** What the first [i] iterations of the sweep have established: what is left
    is part of the original map, an entry went only if [pred] chose it, and
    no chosen entry is left below [i]. *)
Definition swept (pred : Z -> bool) (h0 : nvhal_hash) (m : gmap Z Z) (i : nat)
  (acc : nvhal_hash * nat * list Z) : Prop :=
  let '(h, cnt, dels) := acc in
  exists m', rep h m' /\ cap h = cap h0 /\ m' ⊆ m /\ (size m' + cnt = size m)%nat /\
    length dels = cnt /\
    (forall key val, m !! key = Some val -> pred val = false -> m' !! key = Some val) /\
    (forall j key val, (j < i)%nat -> k h !! j = Some key -> is_live key = true ->
       v h !! j = Some val -> pred val = false).

Lemma sweep_one_swept pred h0 m i acc :
  swept pred h0 m i acc -> (i < cap h0)%nat -> swept pred h0 m (S i) (sweep_one pred acc i).
Proof.
  destruct acc as [[h cnt] dels]. intros (m' & R & Hcap & Hsub & Hsz & Hd & Hkeep & Hpre) Hi.
  assert (T : tbl (cap h) (k h) (v h)).
  { destruct R as [[->|(T & _)] _]; [|done]. simpl in Hcap. lia. }
  pose proof (tbl_len_k _ _ _ T) as Lk. pose proof (tbl_len_v _ _ _ T) as Lv.
  assert (Hk : k h !! i = Some (k h !!! i)) by (apply of_total; [lia|done]).
  assert (Hv : v h !! i = Some (v h !!! i)) by (apply of_total; [lia|done]).
  unfold sweep_one. destruct (is_live (k h !!! i)) eqn:Hl; simpl.
  2:{ exists m'. split_and!; try done. intros j key val Hj Hkj Hlj Hvj.
      destruct (decide (j = i)) as [->|?]; [congruence|]. apply (Hpre j key); [lia|done..]. }
  destruct (pred (v h !!! i)) eqn:Hp.
  2:{ exists m'. split_and!; try done. intros j key val Hj Hkj Hlj Hvj.
      destruct (decide (j = i)) as [->|?]; [congruence|]. apply (Hpre j key); [lia|done..]. }
  assert (Hm : m' !! (k h !!! i) = Some (v h !!! i)) by (apply R; eauto).
  exists (delete (k h !!! i) m'). split_and!.
  - by apply tomb_rep.
  - done.
  - etrans; [apply delete_subseteq|done].
  - rewrite map_size_delete_Some by eauto. pose proof (map_size_non_empty_iff m') as [_ Hne].
    assert (size m' <> 0%nat); [|lia]. apply Hne. intros ->. done.
  - rewrite length_app. simpl. lia.
  - intros key val Hkey Hpv. rewrite lookup_delete_ne; [by apply Hkeep|].
    intros <-. rewrite (lookup_weaken _ _ _ _ Hm Hsub) in Hkey. congruence.
  - simpl. intros j key val Hj Hkj Hlj Hvj.
    destruct (decide (j = i)) as [->|?].
    { rewrite list_lookup_insert_eq in Hkj by lia. by injection Hkj as <-. }
    rewrite list_lookup_insert_ne in Hkj, Hvj by done. apply (Hpre j key); [lia|done..].
Qed.

Lemma sweep_spec pred h m :
  rep h m ->
  exists h' cnt dels, nvhal_hash_sweep pred h = (h', cnt, dels) /\
    rep h' (filter (fun kv => pred kv.2 = false) m) /\
    (size (filter (fun kv => pred kv.2 = false) m) + cnt = size m)%nat /\ length dels = cnt.
Proof.
  intros R. unfold nvhal_hash_sweep.
  assert (Hs : forall i acc, (i <= cap h)%nat -> swept pred h m (cap h - i) acc ->
    swept pred h m (cap h) (foldl (sweep_one pred) acc (seq (cap h - i) i))).
  { induction i as [|i IH]; intros acc Hi Hacc; simpl; [by rewrite Nat.sub_0_r in Hacc|].
    replace (S (cap h - S i)) with (cap h - i)%nat by lia. apply IH; [lia|].
    replace (cap h - i)%nat with (S (cap h - S i)) by lia. apply sweep_one_swept; [done|lia]. }
  specialize (Hs (cap h) (h, 0%nat, []) (Nat.le_refl _)). rewrite Nat.sub_diag in Hs.
  destruct (foldl _ _ _) as [[h' cnt] dels]. destruct Hs as (m' & R' & Hcap & Hsub & Hsz & Hd & Hkeep & Hall).
  { exists m. split_and!; (done || lia). }
  assert (Em : filter (fun kv => pred kv.2 = false) m = m'); [|rewrite Em; by exists h', cnt, dels].
  apply map_eq. intros key. apply option_eq. intros val. rewrite map_lookup_filter_Some. simpl. split.
  - intros [Hm Hp]. by apply Hkeep.
  - intros Hm. split; [by eapply lookup_weaken|].
    apply R' in Hm as [Hl (j & Hk & Hv)]. eapply (Hall j); eauto.
    destruct R' as [[->|(T & _)] _]; [done|].
    rewrite <- Hcap, <- (tbl_len_k _ _ _ T). by eapply lookup_lt_Some.
Qed.

#[export] Instance hash_handle_map : HandleMap nvhal_hash := {
  hm_rep := rep;
  hm_key := fun key => negb (bad_key key);
  hm_empty := NVHAL_HASH_INIT;
  hm_get := nvhal_hash_get;
  hm_put := nvhal_hash_put;
  hm_del := nvhal_hash_del;
}.

#[export] Instance hash_handle_map_laws : HandleMapLaws nvhal_hash.
Proof.
  split; simpl.
  - apply rep_init.
  - intros. apply get_spec; [done|]. by apply negb_true_iff.
  - intros. apply put_spec; [done|]. by apply negb_true_iff.
  - intros. by apply put_fail_spec.
  - intros. apply del_spec; [done|]. by apply negb_true_iff.
Qed.

(** *** Sequences of operations *)

(** The calls a client makes; [alloc_ok] is the outcome of the allocations
    inside that call. *)
Inductive op :=
  | OpGet (key : Z)
  | OpPut (alloc_ok : bool) (key val : Z)
  | OpDel (key : Z)
  | OpSweep (pred : Z -> bool).

Inductive res := RVal (x : Z) | RBool (b : bool) | RCount (c : nat).

Definition hash_op (h : nvhal_hash) (o : op) : option (res * nvhal_hash) :=
  match o with
  | OpGet key => Some (RVal (nvhal_hash_get h key), h)
  | OpPut ok key val => '(b, h') ← nvhal_hash_put ok h key val; Some (RBool b, h')
  | OpDel key => let r := nvhal_hash_del h key in Some (RVal r.1, r.2)
  | OpSweep pred => let r := nvhal_hash_sweep pred h in Some (RCount r.1.2, r.1.1)
  end.

Fixpoint hash_run (h : nvhal_hash) (os : list op) : option (list res * nvhal_hash) :=
  match os with
  | [] => Some ([], h)
  | o :: os => '(r, h') ← hash_op h o; '(rs, h'') ← hash_run h' os; Some (r :: rs, h'')
  end.

(** The reference: the same calls on a finite map.  A put is refused only for
    a reserved key or when an allocation failed. *)
Inductive map_op : gmap Z Z -> op -> res -> gmap Z Z -> Prop :=
  | map_op_get m key :
      map_op m (OpGet key) (RVal (if bad_key key then NULL else default NULL (m !! key))) m
  | map_op_put m ok key val :
      bad_key key = false -> map_op m (OpPut ok key val) (RBool true) (<[key := val]> m)
  | map_op_put_refused m ok key val :
      bad_key key = true \/ ok = false -> map_op m (OpPut ok key val) (RBool false) m
  | map_op_del m key :
      bad_key key = false -> map_op m (OpDel key) (RVal (default NULL (m !! key))) (delete key m)
  | map_op_del_bad m key : bad_key key = true -> map_op m (OpDel key) (RVal NULL) m
  | map_op_sweep m pred c :
      (size (filter (fun kv : Z * Z => pred kv.2 = false) m) + c = size m)%nat ->
      map_op m (OpSweep pred) (RCount c) (filter (fun kv => pred kv.2 = false) m).

Inductive map_run : gmap Z Z -> list op -> list res -> gmap Z Z -> Prop :=
  | map_run_nil m : map_run m [] [] m
  | map_run_cons m o r m' os rs m'' :
      map_op m o r m' -> map_run m' os rs m'' -> map_run m (o :: os) (r :: rs) m''.

Lemma hash_op_refines h m o :
  rep h m -> exists r h' m', hash_op h o = Some (r, h') /\ map_op m o r m' /\ rep h' m'.
Proof.
  intros R. destruct o as [key|ok key val|key|pred]; simpl.
  - eexists _, h, m. split_and!; [done| |done].
    replace (nvhal_hash_get h key) with (if bad_key key then NULL else default NULL (m !! key));
      [constructor|].
    destruct (bad_key key) eqn:Hb; [unfold nvhal_hash_get; by rewrite Hb|]. symmetry. by apply get_spec.
  - destruct (bad_key key) eqn:Hb.
    { unfold nvhal_hash_put. rewrite Hb. simpl. eexists _, h, m. split_and!; [done| |done].
      constructor. by left. }
    destruct ok.
    + destruct (put_spec h m key val R Hb) as (h' & -> & R'). simpl.
      eexists _, h', _. split_and!; [done| |done]. by constructor.
    + destruct (put_fail_spec h m key val R) as (b & h' & -> & R'). simpl.
      destruct b; eexists _, h', _; (split_and!; [done| |done]); constructor; [done|by right].
  - destruct (bad_key key) eqn:Hb.
    + unfold nvhal_hash_del. rewrite Hb. eexists _, h, m. split_and!; [done| |done]. by constructor.
    + destruct (del_spec h m key R Hb) as [-> R']. eexists _, _, _. split_and!; [done| |done]. by constructor.
  - destruct (sweep_spec pred h m R) as (h' & cnt & dels & -> & R' & Hsz & _). simpl.
    eexists _, h', _. split_and!; [done| |done]. by constructor.
Qed.

Lemma hash_run_refines os h m :
  rep h m -> exists rs h' m', hash_run h os = Some (rs, h') /\ map_run m os rs m' /\ rep h' m'.
Proof.
  revert h m. induction os as [|o os IH]; intros h m R; simpl.
  - exists [], h, m. split_and!; [done|constructor|done].
  - destruct (hash_op_refines h m o R) as (r & h' & m' & -> & Hop & R'). simpl.
    destruct (IH h' m' R') as (rs & h'' & m'' & -> & Hrun & R''). simpl.
    eexists _, h'', m''. split_and!; [done| |done]. by econstructor.
Qed.

(** C12: every sequence of get/put/delete/sweep calls on a [nvhal_hash] started
    from [NVHAL_HASH_INIT] terminates (no probe, grow or rehash loop runs out
    of slots, whatever allocations fail) and answers exactly what the same
    calls answer on a finite map. *)
Theorem hash_refines_map (os : list op) :
  exists rs h m, hash_run NVHAL_HASH_INIT os = Some (rs, h) /\ map_run ∅ os rs m /\ rep h m.
Proof.
  apply hash_run_refines, rep_init.
Qed.

(** the load invariant: in every reachable table at most three quarters of
    the slots are in use, so every probe loop meets an empty slot within one
    turn; capacities are powers of two, which is what makes the
    [& (cap - 1)] wrap-around a modulo. *)
Theorem hash_load_bounded (os : list op) rs h :
  hash_run NVHAL_HASH_INIT os = Some (rs, h) ->
  (used h * 4 <= cap h * 3)%nat /\ (n h <= used h)%nat /\
  (cap h = 0%nat \/ (pow2 (cap h) /\ exists i, k h !! i = Some 0)).
Proof.
  intros E. destruct (hash_run_refines os _ _ rep_init) as (rs' & h' & m & E' & _ & [Hi _]).
  rewrite E in E'. injection E' as <- <-. destruct Hi as [->|(T & Hn & Hu & Hload)].
  { simpl. split_and!; [lia|lia|by left]. }
  pose proof (pow2_pos _ (tbl_pow2 _ _ _ T)). split_and!; [done| |right; split; [apply T|]].
  - rewrite Hn, Hu. clear. induction (k h) as [|x l IH]; simpl; [lia|].
    unfold is_live at 1, is_used at 1. destruct (x =? 0), (x =? HASH_TOMB); simpl; lia.
  - destruct (countb_lt_exists is_used (k h)) as (i & x & Hi & Hx).
    + rewrite (tbl_len_k _ _ _ T). lia.
    + exists i. apply negb_false_iff, Z.eqb_eq in Hx. by rewrite Hi, Hx.
Qed.

Lemma hash_load_bounded_witness :
  exists rs h, hash_run NVHAL_HASH_INIT [OpPut true 4096 7; OpDel 4096; OpPut true 8192 9] = Some (rs, h) /\
    (used h * 4 <= cap h * 3)%nat.
Proof.
  destruct (hash_run NVHAL_HASH_INIT [OpPut true 4096 7; OpDel 4096; OpPut true 8192 9])
    as [[rs h]|] eqn:E; [|vm_compute in E; discriminate E].
  exists rs, h. split; [reflexivity|]. exact (proj1 (hash_load_bounded _ rs h E)).
Defined.

End Hash.
