(* ===== verification/CmdState.v ===== *)
(** * Compute-state shadow of the Vulkan HAL ([nvidia-prolapse/hal/src/cmdstate.c])

    The HAL's texture decode records its own compute dispatch into the
    application's command buffer and then has to put back what the
    application had bound.  [cmdstate.c] keeps, per command buffer, the
    compute pipeline or shader, the descriptor-set calls that still own a set
    index, and the push-constant updates, and [nvhal_cs_restore] re-records
    them.

    The model follows the C data: [owner] is the 32-entry array of pointers
    to [struct cs_call], [calls] the array of live calls in recording order,
    [mem] the heap cells those pointers name.  A pointer is used only through
    the state that allocated it, so each shadow carries its own part of the
    heap.  A step that reads a freed cell, frees twice or writes past an
    array has no result ([None]); the theorems show this never happens.
    [alloc_ok] is the outcome of the n-th allocation; error logs are kept. *)

From Stdlib Require Import ZArith Lia.
From stdpp Require Import base option sets strings gmap list.
From S2P Require Import Prelude HashTable.

Set Default Goal Selector "!".
#[local] Open Scope Z_scope.

Module CmdState.

(** ** Vulkan values the file uses *)

Definition VK_NULL_HANDLE : Z := 0.
Definition VK_PIPELINE_BIND_POINT_COMPUTE : Z := 1.
Definition COMPUTE_STAGE : Z := 5.                     (* bit number *)
Definition VK_SHADER_STAGE_COMPUTE_BIT : Z := 2 ^ COMPUTE_STAGE.
Definition VK_SUCCESS : Z := 0.
Definition VK_ERROR_OUT_OF_HOST_MEMORY : Z := -1.
Definition VK_ERROR_INITIALIZATION_FAILED : Z := -3.

Definition VK_DESCRIPTOR_TYPE_SAMPLER : Z := 0.
Definition VK_DESCRIPTOR_TYPE_COMBINED_IMAGE_SAMPLER : Z := 1.
Definition VK_DESCRIPTOR_TYPE_SAMPLED_IMAGE : Z := 2.
Definition VK_DESCRIPTOR_TYPE_STORAGE_IMAGE : Z := 3.
Definition VK_DESCRIPTOR_TYPE_UNIFORM_TEXEL_BUFFER : Z := 4.
Definition VK_DESCRIPTOR_TYPE_STORAGE_TEXEL_BUFFER : Z := 5.
Definition VK_DESCRIPTOR_TYPE_UNIFORM_BUFFER : Z := 6.
Definition VK_DESCRIPTOR_TYPE_STORAGE_BUFFER : Z := 7.
Definition VK_DESCRIPTOR_TYPE_UNIFORM_BUFFER_DYNAMIC : Z := 8.
Definition VK_DESCRIPTOR_TYPE_STORAGE_BUFFER_DYNAMIC : Z := 9.
Definition VK_DESCRIPTOR_TYPE_INPUT_ATTACHMENT : Z := 10.
Definition VK_DESCRIPTOR_TYPE_INLINE_UNIFORM_BLOCK : Z := 1000138000.
Definition VK_STRUCTURE_TYPE_WRITE_DESCRIPTOR_SET_INLINE_UNIFORM_BLOCK : Z := 1000138002.

(** Sizes in bytes on the 64-bit ABIs the HAL is built for. *)
Definition sizeof_VkWriteDescriptorSet : Z := 64.
Definition sizeof_VkDescriptorImageInfo : Z := 24.
Definition sizeof_VkBufferView : Z := 8.
Definition sizeof_VkDescriptorBufferInfo : Z := 24.
Definition sizeof_InlineUniformBlock : Z := 32.

(** A structure of a [pNext] chain, as far as [write_payload] reads it. *)
Record ext_struct := mk_ext {
  ib_sType : Z;
  ib_pNext : bool;          (** non-NULL *)
  ib_dataSize : Z;
  ib_pData : list Z;
}.

Record VkWriteDescriptorSet := mk_write {
  w_pNext : option ext_struct;
  w_dstBinding : Z;
  w_dstArrayElement : Z;
  w_descriptorCount : Z;
  w_descriptorType : Z;
  w_pImageInfo : list (Z * Z * Z);
  w_pBufferInfo : list (Z * Z * Z);
  w_pTexelBufferView : list Z;
}.

(** Which entry point pushes descriptors: [vkCmdPushDescriptorSet] or its
    KHR alias. *)
Inductive push_entry := PushCore | PushKHR.

(** The [Info] structures of the "2" commands; [pNext] is whether it is
    non-NULL. *)
Record VkBindDescriptorSetsInfo := mk_bsi {
  bsi_pNext : bool; bsi_stageFlags : Z; bsi_layout : Z; bsi_firstSet : Z;
  bsi_sets : list Z; bsi_dyn : list Z }.
Record VkPushConstantsInfo := mk_pci {
  pci_pNext : bool; pci_layout : Z; pci_stageFlags : Z; pci_offset : Z; pci_values : list Z }.
Record VkPushDescriptorSetInfo := mk_pdi {
  pdi_pNext : bool; pdi_stageFlags : Z; pdi_layout : Z; pdi_set : Z;
  pdi_writes : list VkWriteDescriptorSet }.
Record VkSetDescriptorBufferOffsetsInfoEXT := mk_doi {
  doi_pNext : bool; doi_stageFlags : Z; doi_layout : Z; doi_firstSet : Z;
  doi_indices : list Z; doi_offsets : list Z }.
Record VkBindDescriptorBufferEmbeddedSamplersInfoEXT := mk_esi {
  esi_pNext : bool; esi_stageFlags : Z; esi_layout : Z; esi_set : Z }.

(** The commands that reach the driver.  Arrays carry their length. *)
Inductive vkcmd :=
  | CmdBindPipeline (bp p : Z)
  | CmdBindShadersEXT (st : list Z) (sh : option (list Z))
  | CmdBindDescriptorSets (bp layout first : Z) (sets dyn : list Z)
  | CmdBindDescriptorSets2 (khr : bool) (i : VkBindDescriptorSetsInfo)
  | CmdPushConstants (layout st offset : Z) (data : list Z)
  | CmdPushConstants2 (khr : bool) (i : VkPushConstantsInfo)
  | CmdPushDescriptorSet (fn : push_entry) (bp layout set : Z) (w : list VkWriteDescriptorSet)
  | CmdPushDescriptorSet2 (khr : bool) (i : VkPushDescriptorSetInfo)
  | CmdPushDescriptorSetWithTemplate (khr : bool) (t layout set data : Z)
  | CmdPushDescriptorSetWithTemplate2 (khr : bool) (i : Z)
  | CmdSetDescriptorBufferOffsetsEXT (bp layout first : Z) (idx off : list Z)
  | CmdSetDescriptorBufferOffsets2EXT (i : VkSetDescriptorBufferOffsetsInfoEXT)
  | CmdBindDescriptorBufferEmbeddedSamplersEXT (bp layout set : Z)
  | CmdBindDescriptorBufferEmbeddedSamplers2EXT (i : VkBindDescriptorBufferEmbeddedSamplersInfoEXT)
  | CmdBeginConditionalRenderingEXT (i : Z)
  | CmdEndConditionalRenderingEXT
  | CmdBindSamplerHeapEXT (i : Z)
  | CmdBindResourceHeapEXT (i : Z)
  | CmdPushDataEXT (i : Z).

(** ** State *)

Definition CS_MAX_SETS : Z := 32.
Definition CS_MAX_CALLS : Z := CS_MAX_SETS.
Definition CS_MAX_PUSH : Z := 32.

Inductive cs_kind := CS_BIND | CS_PUSH_DESC | CS_DB_OFFSETS | CS_DB_SAMPLERS.

(** [struct cs_call] with the payload behind it; [n] is the length of [dyn] or
    of [writes]. *)
Record cs_call := mk_call {
  kind : cs_kind;
  layout : Z;
  first : Z;
  count : Z;
  refs : Z;
  sets : list Z;
  dyn : list Z;
  writes : list VkWriteDescriptorSet;
  push_fn : push_entry;
  indices : list Z;
  offsets : list Z;
}.

Record cs_push := mk_push {
  p_layout : Z;
  p_stages : Z;
  p_offset : Z;
  p_size : Z;
  p_data : list Z;
}.

Inductive cs_bound := CS_NONE | CS_PIPELINE | CS_SHADER.

Definition ptr := nat.

Record nvhal_cmd_state := mk_cs {
  bound : cs_bound;
  pipeline : Z;
  shader : Z;
  owner : list (option ptr);      (** [CS_MAX_SETS] entries *)
  calls : list ptr;               (** [calls[0 .. ncalls-1]] *)
  push : list cs_push;            (** [push[0 .. npush-1]] *)
  push_compute : bool;
  conditional : bool;
  lost : option string;
  mem : gmap ptr cs_call;         (** the cells the pointers name *)
}.

(** The calloc-ed (or memset) shadow over the heap part [h]. *)
Definition zero_cs (h : gmap ptr cs_call) : nvhal_cmd_state :=
  mk_cs CS_NONE 0 0 (replicate (Z.to_nat CS_MAX_SETS) None) [] [] false false None h.

Definition with_bound (s : nvhal_cmd_state) b p sh :=
  mk_cs b p sh (owner s) (calls s) (push s) (push_compute s) (conditional s) (lost s) (mem s).
Definition with_owner (s : nvhal_cmd_state) o :=
  mk_cs (bound s) (pipeline s) (shader s) o (calls s) (push s) (push_compute s) (conditional s) (lost s) (mem s).
Definition with_calls (s : nvhal_cmd_state) c :=
  mk_cs (bound s) (pipeline s) (shader s) (owner s) c (push s) (push_compute s) (conditional s) (lost s) (mem s).
Definition with_push (s : nvhal_cmd_state) p pc :=
  mk_cs (bound s) (pipeline s) (shader s) (owner s) (calls s) p pc (conditional s) (lost s) (mem s).
Definition with_conditional (s : nvhal_cmd_state) b :=
  mk_cs (bound s) (pipeline s) (shader s) (owner s) (calls s) (push s) (push_compute s) b (lost s) (mem s).
Definition with_lost (s : nvhal_cmd_state) l :=
  mk_cs (bound s) (pipeline s) (shader s) (owner s) (calls s) (push s) (push_compute s) (conditional s) l (mem s).
Definition with_mem (s : nvhal_cmd_state) h :=
  mk_cs (bound s) (pipeline s) (shader s) (owner s) (calls s) (push s) (push_compute s) (conditional s) (lost s) h.
Definition with_refs (c : cs_call) r :=
  mk_call (kind c) (layout c) (first c) (count c) r (sets c) (dyn c) (writes c) (push_fn c) (indices c) (offsets c).

(** [struct nvhal_cmd], the tracking entry of a command buffer (its GPU
    timing member belongs to gputime.c). *)
Record nvhal_cmd := mk_cmd {
  dev : Z;
  pool : Z;
  family : Z;
  cs : option nvhal_cmd_state;
}.
Definition with_cs (e : nvhal_cmd) c := mk_cmd (dev e) (pool e) (family e) c.

(** What one intercept works on: the number of allocations made so far, the
    error log and the tracking entry. *)
Record cmd_st := mk_st {
  nalloc : nat;
  errs : list string;
  e : nvhal_cmd;
}.

Definition NVHAL_ERR (st : cmd_st) (m : string) : cmd_st :=
  mk_st (nalloc st) (errs st ++ [m]) (e st).
Definition put_cs (st : cmd_st) (s : nvhal_cmd_state) : cmd_st :=
  mk_st (nalloc st) (errs st) (with_cs (e st) (Some s)).

(** ** Freeing and resetting *)

Definition free_call (s : nvhal_cmd_state) (c : ptr) : option nvhal_cmd_state :=
  match mem s !! c with
  | Some _ => Some (with_mem s (delete c (mem s)))
  | None => None
  end.

Fixpoint free_calls (s : nvhal_cmd_state) (l : list ptr) : option nvhal_cmd_state :=
  match l with
  | [] => Some s
  | c :: l => s ← free_call s c; free_calls s l
  end.

Definition cs_reset (s : nvhal_cmd_state) : option nvhal_cmd_state :=
  s ← free_calls s (calls s); Some (zero_cs (mem s)).

(** [nvhal_cs_free]: what is left of the shadow's heap part afterwards. *)
Definition nvhal_cs_free (o : option nvhal_cmd_state) : option (gmap ptr cs_call) :=
  match o with
  | None => Some ∅
  | Some s => s ← cs_reset s; Some (mem s)
  end.

Definition lose (s : nvhal_cmd_state) (why : string) : nvhal_cmd_state :=
  match lost s with None => with_lost s (Some why) | Some _ => s end.

(** The entry leaves the array (the later ones move down) and is freed. *)
Fixpoint remove_first (c : ptr) (l : list ptr) : list ptr :=
  match l with
  | [] => []
  | x :: l => if decide (x = c) then l else x :: remove_first c l
  end.

Definition remove_call (s : nvhal_cmd_state) (c : ptr) : option nvhal_cmd_state :=
  free_call (with_calls s (remove_first c (calls s))) c.

(** One iteration of [add_call]: [c] takes over set index [k]. *)
Definition take_over (c : ptr) (s : nvhal_cmd_state) (k : nat) : option nvhal_cmd_state :=
  o ← owner s !! k;
  let s := with_owner s (<[k := Some c]> (owner s)) in
  match o with
  | None => Some s
  | Some o =>
      oc ← mem s !! o;
      let r := u32 (refs oc - 1) in
      let s := with_mem s (<[o := with_refs oc r]> (mem s)) in
      if r =? 0 then remove_call s o else Some s
  end.

Fixpoint take_all (c : ptr) (s : nvhal_cmd_state) (l : list nat) : option nvhal_cmd_state :=
  match l with
  | [] => Some s
  | k :: l => s ← take_over c s k; take_all c s l
  end.

Definition add_call (s : nvhal_cmd_state) (c : ptr) : option nvhal_cmd_state :=
  cc ← mem s !! c;
  let s := with_mem s (<[c := with_refs cc (count cc)]> (mem s)) in
  s ← take_all c s (seq (Z.to_nat (first cc)) (Z.to_nat (count cc)));
  if Z.of_nat (length (calls s)) <? CS_MAX_CALLS then Some (with_calls s (calls s ++ [c])) else None.

(** ** Push descriptors: the deep copy *)

Definition write_kind (t : Z) : Z :=
  if bool_decide (t ∈ [VK_DESCRIPTOR_TYPE_SAMPLER; VK_DESCRIPTOR_TYPE_COMBINED_IMAGE_SAMPLER;
       VK_DESCRIPTOR_TYPE_SAMPLED_IMAGE; VK_DESCRIPTOR_TYPE_STORAGE_IMAGE;
       VK_DESCRIPTOR_TYPE_INPUT_ATTACHMENT]) then 1
  else if bool_decide (t ∈ [VK_DESCRIPTOR_TYPE_UNIFORM_TEXEL_BUFFER;
       VK_DESCRIPTOR_TYPE_STORAGE_TEXEL_BUFFER]) then 2
  else if bool_decide (t ∈ [VK_DESCRIPTOR_TYPE_UNIFORM_BUFFER; VK_DESCRIPTOR_TYPE_STORAGE_BUFFER;
       VK_DESCRIPTOR_TYPE_UNIFORM_BUFFER_DYNAMIC; VK_DESCRIPTOR_TYPE_STORAGE_BUFFER_DYNAMIC]) then 3
  else if t =? VK_DESCRIPTOR_TYPE_INLINE_UNIFORM_BLOCK then 4
  else 0.

(** [ALIGN8] on [size_t]. *)
Definition ALIGN8 (x : Z) : Z := alloc_align x 8.
(** The same macro on a [uint32_t] operand: the addition is done in 32 bits. *)
Definition ALIGN8_32 (x : Z) : Z := Z.land (u32 (x + 7)) (u64 (Z.lnot 7)).

Definition elem_size (k : Z) : Z :=
  if k =? 1 then sizeof_VkDescriptorImageInfo
  else if k =? 2 then sizeof_VkBufferView
  else sizeof_VkDescriptorBufferInfo.

(** Bytes of one write's arrays, with the [ok] flag. *)
Definition write_payload (w : VkWriteDescriptorSet) : Z * bool :=
  let k := write_kind (w_descriptorType w) in
  if k =? 4 then
    match w_pNext w with
    | Some ib =>
        if negb (ib_sType ib =? VK_STRUCTURE_TYPE_WRITE_DESCRIPTOR_SET_INLINE_UNIFORM_BLOCK)
           || ib_pNext ib then (0, false)
        else (u64 (ALIGN8 sizeof_InlineUniformBlock + ALIGN8_32 (ib_dataSize ib)), true)
    | None => (0, false)
    end
  else if (k =? 0) || bool_decide (is_Some (w_pNext w)) then (0, false)
  else (ALIGN8 (u64 (elem_size k * w_descriptorCount w)), true).

(** [for (i = 0; i < n && ok; i++) bytes += write_payload(&w[i], &ok)] *)
Fixpoint sum_payload (bytes : Z) (ws : list VkWriteDescriptorSet) : Z * bool :=
  match ws with
  | [] => (bytes, true)
  | w :: ws =>
      let '(b, ok) := write_payload w in
      if ok then sum_payload (u64 (bytes + b)) ws else (u64 (bytes + b), false)
  end.

(** A [memcpy] of [sz] bytes to offset [p] of an allocation of [cap] bytes. *)
Definition fits (cap p sz : Z) : bool := p + sz <=? cap.

Definition copy_list {A} (n : Z) (l : list A) : list A := take (Z.to_nat n) l.

(** One iteration of the copy loop, from offset [p] of an allocation of
    [cap] bytes: the copied write and the next offset. *)
Definition copy_write (cap p : Z) (w : VkWriteDescriptorSet) : option (VkWriteDescriptorSet * Z) :=
  let k := write_kind (w_descriptorType w) in
  if k =? 4 then
    ib ← w_pNext w;
    let p1 := p + ALIGN8 sizeof_InlineUniformBlock in
    if fits cap p sizeof_InlineUniformBlock && fits cap p1 (ib_dataSize ib) then
      let cb := mk_ext (ib_sType ib) (ib_pNext ib) (ib_dataSize ib)
                  (copy_list (ib_dataSize ib) (ib_pData ib)) in
      Some (mk_write (Some cb) (w_dstBinding w) (w_dstArrayElement w) (w_descriptorCount w)
              (w_descriptorType w) (w_pImageInfo w) (w_pBufferInfo w) (w_pTexelBufferView w),
            p1 + ALIGN8_32 (ib_dataSize ib))
    else None
  else
    let sz := u64 (elem_size k * w_descriptorCount w) in
    let n := w_descriptorCount w in
    if fits cap p sz then
      Some (mk_write (w_pNext w) (w_dstBinding w) (w_dstArrayElement w) (w_descriptorCount w)
              (w_descriptorType w)
              (if k =? 1 then copy_list n (w_pImageInfo w) else [])
              (if k =? 3 then copy_list n (w_pBufferInfo w) else [])
              (if k =? 2 then copy_list n (w_pTexelBufferView w) else []),
            p + ALIGN8 sz)
    else None.

Fixpoint copy_writes (cap p : Z) (ws : list VkWriteDescriptorSet) :
  option (list VkWriteDescriptorSet * Z) :=
  match ws with
  | [] => Some ([], p)
  | w :: ws =>
      '(cw, p) ← copy_write cap p w;
      '(cws, p) ← copy_writes cap p ws;
      Some (cw :: cws, p)
  end.

(** ** Recording *)

Section Record.

(** Outcome of the n-th host allocation, and whether a device has the two
    push-descriptor entry points. *)
Context (alloc_ok : nat -> bool) (has_push has_push_khr : Z -> bool).

Definition cs_of (st : cmd_st) : option nvhal_cmd_state * cmd_st :=
  match cs (e st) with
  | Some s => (Some s, st)
  | None =>
      let st' := mk_st (S (nalloc st)) (errs st) (e st) in
      if alloc_ok (nalloc st) then
        let s := zero_cs ∅ in (Some s, put_cs st' s)
      else (None, NVHAL_ERR st' "out of host memory for the compute-state shadow; an ASTC decode in it cannot restore the app's compute state")
  end.

(** [struct nvhal_cmd_state *s = cs_of(e); if (s) lose(s, why);] *)
Definition cs_lose (st : cmd_st) (why : string) : cmd_st :=
  match cs_of st with
  | (Some s, st) => put_cs st (lose s why)
  | (None, st) => st
  end.

(** A new cell at a fresh address, zeroed but for the four fields set here;
    [NULL] (with [lose]) when the indices or the allocation do not fit. *)
Definition new_call (n : nat) (s : nvhal_cmd_state) (kd : cs_kind) (lay fst cnt : Z) :
  option ptr * nat * nvhal_cmd_state :=
  if (cnt =? 0) || (CS_MAX_SETS <=? fst) || (CS_MAX_SETS - fst <? cnt) then
    (None, n, lose s "a descriptor set index beyond 32")
  else if alloc_ok n then
    (Some n, S n, with_mem s (<[n := mk_call kd lay fst cnt 0 [] [] [] PushCore [] []]> (mem s)))
  else (None, S n, lose s "out of host memory").

(** The payload of a fresh call is filled in, then it takes its set indices:
    the tail every [record_*] shares. *)
Definition finish_call (st : cmd_st) (r : option ptr * nat * nvhal_cmd_state)
  (fill : cs_call -> cs_call) : option cmd_st :=
  let '(o, n, s) := r in
  let st := mk_st n (errs st) (e st) in
  match o with
  | None => Some (put_cs st s)
  | Some c =>
      cc ← mem s !! c;
      s ← add_call (with_mem s (<[c := fill cc]> (mem s))) c;
      Some (put_cs st s)
  end.

Definition record_bind (st : cmd_st) (lay fst : Z) (ss ds : list Z) : option cmd_st :=
  match cs_of st with
  | (None, st) => Some st
  | (Some s, st) =>
      if lay =? VK_NULL_HANDLE then
        Some (put_cs st (lose s "a descriptor-set binding with a dynamic pipeline layout (VkPipelineLayoutCreateInfo in pNext)"))
      else
        finish_call st (new_call (nalloc st) s CS_BIND lay fst (Z.of_nat (length ss)))
          (fun c => mk_call (kind c) (layout c) (first c) (count c) (refs c) ss ds
                      (writes c) (push_fn c) (indices c) (offsets c))
  end.

Definition record_push_desc (st : cmd_st) (fn : option push_entry) (lay set : Z)
  (w : list VkWriteDescriptorSet) : option cmd_st :=
  match cs_of st with
  | (None, st) => Some st
  | (Some s, st) =>
      match fn with
      | None => Some (put_cs st (lose s "push descriptors without a vkCmdPushDescriptorSet entry point to replay them"))
      | Some fn =>
          if lay =? VK_NULL_HANDLE then
            Some (put_cs st (lose s "push descriptors with a dynamic pipeline layout"))
          else
            let hdr := ALIGN8 (u64 (Z.of_nat (length w) * sizeof_VkWriteDescriptorSet)) in
            let '(bytes, ok) := sum_payload hdr w in
            if negb ok then
              Some (put_cs st (lose s "push descriptors of a type or with a pNext structure the shadow does not copy"))
            else
              match new_call (nalloc st) s CS_PUSH_DESC lay set 1 with
              | (None, n, s) => Some (put_cs (mk_st n (errs st) (e st)) s)
              | (Some c, n, s) =>
                  '(cws, _) ← copy_writes bytes hdr w;
                  finish_call st (Some c, n, s)
                    (fun c => mk_call (kind c) (layout c) (first c) (count c) (refs c) (sets c) (dyn c)
                                cws fn (indices c) (offsets c))
              end
      end
  end.

Definition record_db_offsets (st : cmd_st) (lay fst : Z) (idx off : list Z) : option cmd_st :=
  match cs_of st with
  | (None, st) => Some st
  | (Some s, st) =>
      if lay =? VK_NULL_HANDLE then
        Some (put_cs st (lose s "descriptor buffer offsets with a dynamic pipeline layout"))
      else
        finish_call st (new_call (nalloc st) s CS_DB_OFFSETS lay fst (Z.of_nat (length idx)))
          (fun c => mk_call (kind c) (layout c) (first c) (count c) (refs c) (sets c) (dyn c)
                      (writes c) (push_fn c) idx off)
  end.

Definition record_db_samplers (st : cmd_st) (lay set : Z) : option cmd_st :=
  match cs_of st with
  | (None, st) => Some st
  | (Some s, st) =>
      if lay =? VK_NULL_HANDLE then
        Some (put_cs st (lose s "embedded descriptor buffer samplers with a dynamic pipeline layout"))
      else finish_call st (new_call (nalloc st) s CS_DB_SAMPLERS lay set 1) (fun c => c)
  end.

(** The update with the same layout, stages and range leaves the array. *)
Definition same_range (lay st off size : Z) (p : cs_push) : bool :=
  (p_layout p =? lay) && (p_stages p =? st) && (p_offset p =? off) && (p_size p =? size).

Fixpoint pop_same (lay st off size : Z) (l : list cs_push) : option (list cs_push) :=
  match l with
  | [] => None
  | p :: l =>
      if same_range lay st off size p then Some l
      else (fun r => p :: r) <$> pop_same lay st off size l
  end.

Definition has_compute (stages : Z) : bool := has_any stages VK_SHADER_STAGE_COMPUTE_BIT.

Definition shadow_push_compute (c : nvhal_cmd) : bool :=
  match cs c with Some s => push_compute s | None => false end.

Definition record_push (st : cmd_st) (lay stages off : Z) (data : list Z) : cmd_st :=
  let compute := has_compute stages in
  if negb compute && negb (shadow_push_compute (e st)) then st
  else
    match cs_of st with
    | (None, st) => st
    | (Some s, st) =>
        if lay =? VK_NULL_HANDLE then
          put_cs st (lose s "push constants with a dynamic pipeline layout")
        else
          let size := Z.of_nat (length data) in
          let pc := push_compute s || compute in
          let p := mk_push lay stages off size data in
          match pop_same lay stages off size (push s) with
          | Some l => put_cs st (with_push s (l ++ [p]) pc)
          | None =>
              if Z.of_nat (length (push s)) =? CS_MAX_PUSH then
                put_cs st (lose (with_push s (push s) pc) "more than 32 distinct push-constant updates")
              else
                let st' := mk_st (S (nalloc st)) (errs st) (e st) in
                if alloc_ok (nalloc st) then put_cs st' (with_push s (push s ++ [p]) pc)
                else put_cs st' (lose (with_push s (push s) pc) "out of host memory")
          end
    end.

(** ** Restoring *)

(** The command [nvhal_cs_restore] re-records for one call. *)
Definition call_cmd (c : cs_call) : vkcmd :=
  match kind c with
  | CS_BIND =>
      CmdBindDescriptorSets VK_PIPELINE_BIND_POINT_COMPUTE (layout c) (first c) (sets c) (dyn c)
  | CS_PUSH_DESC =>
      CmdPushDescriptorSet (push_fn c) VK_PIPELINE_BIND_POINT_COMPUTE (layout c) (first c) (writes c)
  | CS_DB_OFFSETS =>
      CmdSetDescriptorBufferOffsetsEXT VK_PIPELINE_BIND_POINT_COMPUTE (layout c) (first c)
        (indices c) (offsets c)
  | CS_DB_SAMPLERS =>
      CmdBindDescriptorBufferEmbeddedSamplersEXT VK_PIPELINE_BIND_POINT_COMPUTE (layout c) (first c)
  end.

Definition push_cmd (p : cs_push) : vkcmd :=
  CmdPushConstants (p_layout p) (p_stages p) (p_offset p) (p_data p).

Definition bound_cmd (s : nvhal_cmd_state) : list vkcmd :=
  match bound s with
  | CS_NONE => []
  | CS_PIPELINE => [CmdBindPipeline VK_PIPELINE_BIND_POINT_COMPUTE (pipeline s)]
  | CS_SHADER => [CmdBindShadersEXT [VK_SHADER_STAGE_COMPUTE_BIT] (Some [shader s])]
  end.

(** The updates from the first one that reaches the compute stage on. *)
Fixpoint from_compute (l : list cs_push) : list cs_push :=
  match l with
  | [] => []
  | p :: l' => if has_compute (p_stages p) then l else from_compute l'
  end.

Definition replay (s : nvhal_cmd_state) : option (list vkcmd) :=
  cells ← mapM (fun c => mem s !! c) (calls s);
  Some (bound_cmd s ++ (call_cmd <$> cells) ++ (push_cmd <$> from_compute (push s))).

(** The commands recorded, and the entry with the error logged. *)
Definition nvhal_cs_restore (st : cmd_st) : option (list vkcmd * cmd_st) :=
  match cs (e st) with
  | None => Some ([], st)
  | Some s =>
      out ← replay s;
      Some (out, match lost s with
                 | Some why => NVHAL_ERR st ("the app's compute state could not be fully restored after the ASTC decode: " +:+ why)
                 | None => st
                 end)
  end.

(** ** Intercepts: what each one records after it has forwarded the command *)

Definition rec_BindPipeline (st : cmd_st) (bp p : Z) : cmd_st :=
  if negb (bp =? VK_PIPELINE_BIND_POINT_COMPUTE) then st
  else match cs_of st with
       | (Some s, st) => put_cs st (with_bound s CS_PIPELINE p (shader s))
       | (None, st) => st
       end.

(** [for (i = 0; i < n; i++)]; [sh] may be NULL. *)
Fixpoint rec_BindShaders (st : cmd_st) (i : nat) (stages : list Z) (sh : option (list Z)) : cmd_st :=
  match stages with
  | [] => st
  | b :: stages =>
      if b =? VK_SHADER_STAGE_COMPUTE_BIT then
        match cs_of st with
        | (None, st) => st
        | (Some s, st) =>
            let x := match sh with
                     | Some l => default VK_NULL_HANDLE (l !! i)
                     | None => VK_NULL_HANDLE
                     end in
            rec_BindShaders (put_cs st (with_bound s CS_SHADER (pipeline s) x)) (S i) stages sh
        end
      else rec_BindShaders st (S i) stages sh
  end.

Definition bind_sets2 (st : cmd_st) (i : VkBindDescriptorSetsInfo) : option cmd_st :=
  if negb (has_compute (bsi_stageFlags i)) then Some st
  else if bsi_pNext i then Some (cs_lose st "vkCmdBindDescriptorSets2 with a pNext structure")
  else record_bind st (bsi_layout i) (bsi_firstSet i) (bsi_sets i) (bsi_dyn i).

Definition push2 (st : cmd_st) (i : VkPushConstantsInfo) : cmd_st :=
  if pci_pNext i then
    if has_compute (pci_stageFlags i) || shadow_push_compute (e st)
    then cs_lose st "vkCmdPushConstants2 with a pNext structure"
    else st
  else record_push st (pci_layout i) (pci_stageFlags i) (pci_offset i) (pci_values i).

Definition push_desc2 (st : cmd_st) (i : VkPushDescriptorSetInfo) : option cmd_st :=
  if negb (has_compute (pdi_stageFlags i)) then Some st
  else if pdi_pNext i then Some (cs_lose st "vkCmdPushDescriptorSet2 with a pNext structure")
  else
    let fn := if has_push (dev (e st)) then Some PushCore
              else if has_push_khr (dev (e st)) then Some PushKHR else None in
    record_push_desc st fn (pdi_layout i) (pdi_set i) (pdi_writes i).

Definition template_lost (st : cmd_st) : cmd_st :=
  cs_lose st "push descriptors through a descriptor update template".

Definition db_offsets2 (st : cmd_st) (i : VkSetDescriptorBufferOffsetsInfoEXT) : option cmd_st :=
  if negb (has_compute (doi_stageFlags i)) then Some st
  else if doi_pNext i then Some (cs_lose st "vkCmdSetDescriptorBufferOffsets2EXT with a pNext structure")
  else record_db_offsets st (doi_layout i) (doi_firstSet i) (doi_indices i) (doi_offsets i).

Definition db_samplers2 (st : cmd_st) (i : VkBindDescriptorBufferEmbeddedSamplersInfoEXT) : option cmd_st :=
  if negb (has_compute (esi_stageFlags i)) then Some st
  else if esi_pNext i then Some (cs_lose st "vkCmdBindDescriptorBufferEmbeddedSamplers2EXT with a pNext structure")
  else record_db_samplers st (esi_layout i) (esi_set i).

Definition begin_conditional (st : cmd_st) : cmd_st :=
  match cs_of st with
  | (Some s, st) => put_cs st (with_conditional s true)
  | (None, st) => st
  end.

Definition end_conditional (st : cmd_st) : cmd_st :=
  match cs (e st) with
  | Some s => put_cs st (with_conditional s false)
  | None => st
  end.

Definition heap_lost (st : cmd_st) : cmd_st :=
  cs_lose st "descriptor heap state (VK_EXT_descriptor_heap), which the decode's descriptor-set binding invalidates".

Definition only_compute (bp : Z) (st : cmd_st) (r : option cmd_st) : option cmd_st :=
  if bp =? VK_PIPELINE_BIND_POINT_COMPUTE then r else Some st.

(** The recording half of the intercept of every command. *)
Definition record (st : cmd_st) (c : vkcmd) : option cmd_st :=
  match c with
  | CmdBindPipeline bp p => Some (rec_BindPipeline st bp p)
  | CmdBindShadersEXT stages sh => Some (rec_BindShaders st 0 stages sh)
  | CmdBindDescriptorSets bp lay fst ss ds => only_compute bp st (record_bind st lay fst ss ds)
  | CmdBindDescriptorSets2 _ i => bind_sets2 st i
  | CmdPushConstants lay stages off data => Some (record_push st lay stages off data)
  | CmdPushConstants2 _ i => Some (push2 st i)
  | CmdPushDescriptorSet fn bp lay set w => only_compute bp st (record_push_desc st (Some fn) lay set w)
  | CmdPushDescriptorSet2 _ i => push_desc2 st i
  | CmdPushDescriptorSetWithTemplate _ _ _ _ _ => Some (template_lost st)
  | CmdPushDescriptorSetWithTemplate2 _ _ => Some (template_lost st)
  | CmdSetDescriptorBufferOffsetsEXT bp lay fst idx off =>
      only_compute bp st (record_db_offsets st lay fst idx off)
  | CmdSetDescriptorBufferOffsets2EXT i => db_offsets2 st i
  | CmdBindDescriptorBufferEmbeddedSamplersEXT bp lay set =>
      only_compute bp st (record_db_samplers st lay set)
  | CmdBindDescriptorBufferEmbeddedSamplers2EXT i => db_samplers2 st i
  | CmdBeginConditionalRenderingEXT _ => Some (begin_conditional st)
  | CmdEndConditionalRenderingEXT => Some (end_conditional st)
  | CmdBindSamplerHeapEXT _ | CmdBindResourceHeapEXT _ | CmdPushDataEXT _ => Some (heap_lost st)
  end.

(** [CSCMD] and the forwarding call: the command reaches the driver first,
    then it is recorded; one for an unknown command buffer is dropped.  [sent]
    is what the driver has received. *)
Record world := mk_world {
  w_nalloc : nat;
  w_errs : list string;
  w_cmds : gmap Z nvhal_cmd;
  sent : list (Z * vkcmd);
}.

Definition intercept (w : world) (cb : Z) (c : vkcmd) : option world :=
  match w_cmds w !! cb with
  | None => Some (mk_world (w_nalloc w) (w_errs w ++ ["command buffer was not allocated through this HAL; dropped"%string])
                    (w_cmds w) (sent w))
  | Some en =>
      st ← record (mk_st (w_nalloc w) (w_errs w) en) c;
      Some (mk_world (nalloc st) (errs st) (<[cb := e st]> (w_cmds w)) (sent w ++ [(cb, c)]))
  end.

(** [cs_BeginCommandBuffer] with the driver's answer [r]: the result and
    whether the driver was called. *)
Definition cs_BeginCommandBuffer (w : world) (cb r : Z) : option (Z * bool * world) :=
  match w_cmds w !! cb with
  | None => Some (VK_ERROR_OUT_OF_HOST_MEMORY, false,
      mk_world (w_nalloc w) (w_errs w ++ ["vkBeginCommandBuffer: command buffer was not allocated through this HAL"%string])
        (w_cmds w) (sent w))
  | Some en =>
      match cs en with
      | None => Some (r, true, w)
      | Some s =>
          s ← cs_reset s;
          Some (r, true, mk_world (w_nalloc w) (w_errs w) (<[cb := with_cs en (Some s)]> (w_cmds w)) (sent w))
      end
  end.

Definition nvhal_cs_conditional (w : world) (cb : Z) : bool :=
  match w_cmds w !! cb with
  | Some en => match cs en with Some s => conditional s | None => false end
  | None => false
  end.

End Record.

(** ** The ownership invariant *)

(** Set index [k] is one of those call [c] binds. *)
Definition covers (c : cs_call) (k : nat) : bool :=
  (first c <=? Z.of_nat k) && (Z.of_nat k <? first c + count c).

Definition cell_covers (h : gmap ptr cs_call) (k : nat) (p : ptr) : bool :=
  match h !! p with Some c => covers c k | None => false end.

(** The last live call that binds set index [k]. *)
Definition last_cover (h : gmap ptr cs_call) (l : list ptr) (k : nat) : option ptr :=
  last_with (cell_covers h k) l.

(** The set indices a recorded command binds. *)
Definition cmd_covers (k : nat) (c : vkcmd) : bool :=
  let range f n := (f <=? Z.of_nat k) && (Z.of_nat k <? f + n) in
  match c with
  | CmdBindDescriptorSets _ _ f ss _ => range f (Z.of_nat (length ss))
  | CmdPushDescriptorSet _ _ _ f _ => range f 1
  | CmdSetDescriptorBufferOffsetsEXT _ _ f idx _ => range f (Z.of_nat (length idx))
  | CmdBindDescriptorBufferEmbeddedSamplersEXT _ _ f => range f 1
  | _ => false
  end.

(** [count] is the length of the arrays the call carries. *)
Definition cell_wf (c : cs_call) : Prop := forall k, cmd_covers k (call_cmd c) = covers c k.

(** How many set indices [p] owns. *)
Definition owns (o : list (option ptr)) (p : ptr) : nat := countb (fun x => bool_decide (x = Some p)) o.

(** The invariant while a call of [X] is taking over its indices and those
    satisfying [done] are its own already.  [refs] counts owned indices,
    every live call owns one, the cells are exactly the live calls, and every
    index is owned by the last call that binds it. *)
Record winv (X : gset ptr) (done : nat -> Prop) (s : nvhal_cmd_state) : Prop := {
  wi_len : length (owner s) = Z.to_nat CS_MAX_SETS;
  wi_nodup : NoDup (calls s);
  wi_disj p : p ∈ calls s -> p ∉ X;
  wi_dom p : is_Some (mem s !! p) <-> p ∈ calls s \/ p ∈ X;
  wi_wf p c : mem s !! p = Some c -> cell_wf c /\ first c + count c <= CS_MAX_SETS;
  wi_refs p c : p ∈ calls s -> mem s !! p = Some c ->
    refs c = Z.of_nat (owns (owner s) p) /\ (1 <= owns (owner s) p)%nat;
  wi_owner k p : owner s !! k = Some (Some p) -> p ∈ calls s \/ p ∈ X;
  wi_done k : (k < Z.to_nat CS_MAX_SETS)%nat -> done k -> exists p, owner s !! k = Some (Some p) /\ p ∈ X;
  wi_todo k : (k < Z.to_nat CS_MAX_SETS)%nat -> ~ done k ->
    owner s !! k = Some (last_cover (mem s) (calls s) k);
}.

Definition inv (s : nvhal_cmd_state) : Prop := winv ∅ (fun _ => False) s.

(** The parts of the shadow the ownership operations leave alone. *)
Definition same_rest (s s' : nvhal_cmd_state) : Prop :=
  bound s' = bound s /\ pipeline s' = pipeline s /\ shader s' = shader s /\ push s' = push s /\
  push_compute s' = push_compute s /\ conditional s' = conditional s /\ lost s' = lost s.

(** The command that would be replayed for set index [k]. *)
Definition slot (s : nvhal_cmd_state) (k : nat) : option vkcmd :=
  p ← mjoin (owner s !! k); call_cmd <$> mem s !! p.

Lemma owns_insert o k x y p :
  o !! k = Some x ->
  (owns (<[k := y]> o) p + (if decide (x = Some p) then 1 else 0) =
   owns o p + (if decide (y = Some p) then 1 else 0))%nat.
Proof.
  intros Hk. unfold owns. pose proof (countb_insert (fun x => bool_decide (x = Some p)) o k x y Hk) as C.
  simpl in C. repeat case_decide; repeat case_bool_decide; (congruence || lia).
Qed.

Lemma owns_pos o k p : o !! k = Some (Some p) -> (1 <= owns o p)%nat.
Proof.
  intros Hk. pose proof (owns_insert o k (Some p) None p Hk) as H.
  rewrite decide_True in H by done. rewrite (decide_False (P := None = Some p)) in H by done. lia.
Qed.

Lemma owns_le o p : (owns o p <= length o)%nat.
Proof. apply countb_le. Qed.

Lemma owns_zero_lookup o k p : owns o p = 0%nat -> o !! k <> Some (Some p).
Proof. intros H Hk%owns_pos. lia. Qed.

Lemma owns_In o p : (1 <= owns o p)%nat -> p ∈ omap id o.
Proof.
  intros H. apply list_elem_of_omap. exists (Some p). split; [|done]. revert H.
  unfold owns. induction o as [|x o IH]; simpl; [lia|]. case_bool_decide as E.
  - subst. set_solver.
  - intros H. apply elem_of_cons. right. apply IH. lia.
Qed.

Lemma omap_id_length {A} (o : list (option A)) : (length (omap id o) <= length o)%nat.
Proof.
  induction o as [|x o IH]; [done|]. destruct x as [x|]; cbn.
  - change (S (length (omap id o)) <= S (length o))%nat. lia.
  - change (length (omap id o) <= S (length o))%nat. lia.
Qed.

(** Calls that each own an index fit the array. *)
Lemma owners_bound (o : list (option ptr)) (l : list ptr) :
  NoDup l -> (forall p, p ∈ l -> (1 <= owns o p)%nat) -> (length l <= length o)%nat.
Proof.
  intros Hnd Ho. etrans; [|apply (omap_id_length o)].
  apply submseteq_length, NoDup_submseteq; [done|]. intros p Hp. apply owns_In. by apply Ho.
Qed.

Lemma remove_first_sub c l p : p ∈ remove_first c l -> p ∈ l.
Proof. induction l as [|x l IH]; simpl; [done|]. case_decide; set_solver. Qed.

Lemma remove_first_in c l p : NoDup l -> p ∈ remove_first c l <-> p ∈ l /\ p <> c.
Proof.
  induction l as [|x l IH]; simpl; [set_solver|]. intros [Hx Hnd]%NoDup_cons. case_decide as E.
  - subst x. split; [|set_solver]. intros Hp. split; [set_solver|]. by intros ->.
  - rewrite !elem_of_cons, IH by done. set_solver.
Qed.

Lemma remove_first_nodup c l : NoDup l -> NoDup (remove_first c l).
Proof.
  induction l as [|x l IH]; simpl; [done|]. intros [Hx Hnd]%NoDup_cons. case_decide; [done|].
  constructor; [|by apply IH]. intros Hin. apply Hx. by eapply remove_first_sub.
Qed.

Lemma last_with_remove (f : ptr -> bool) c l :
  NoDup l -> last_with f l <> Some c -> last_with f (remove_first c l) = last_with f l.
Proof.
  induction l as [|x l IH]; simpl; [done|]. intros [Hx Hnd]%NoDup_cons Hne.
  rewrite last_with_cons in Hne. case_decide as E.
  - subst x. rewrite last_with_cons. destruct (last_with f l); [done|].
    destruct (f c); [done|done].
  - rewrite !last_with_cons. destruct (last_with f l) as [y|] eqn:El.
    + rewrite (IH Hnd); [done|]. congruence.
    + rewrite IH by done. done.
Qed.

Lemma last_cover_ext h h' l k :
  (forall p, p ∈ l -> cell_covers h' k p = cell_covers h k p) -> last_cover h' l k = last_cover h l k.
Proof. apply last_with_ext. Qed.

Definition same_cell (c c' : cs_call) : Prop := exists r, c' = with_refs c r.

Lemma same_cell_cmd c c' : same_cell c c' -> call_cmd c' = call_cmd c.
Proof. by intros [r ->]. Qed.

Lemma cell_covers_refs h o oc r k p :
  h !! o = Some oc -> cell_covers (<[o := with_refs oc r]> h) k p = cell_covers h k p.
Proof.
  intros Ho. unfold cell_covers. destruct (decide (o = p)) as [->|Hne].
  - by rewrite lookup_insert_eq, Ho.
  - by rewrite lookup_insert_ne.
Qed.

(** Dropping the reference [o] held on an index that [c] took. *)
Lemma drop_ref_spec c done s k o oc :
  winv {[c]} done s -> (k < Z.to_nat CS_MAX_SETS)%nat -> ~ done k ->
  owner s !! k = Some (Some o) -> mem s !! o = Some oc ->
  o ∈ calls s /\ o <> c /\ u32 (refs oc - 1) = Z.of_nat (owns (<[k := Some c]> (owner s)) o).
Proof.
  intros W Hk Hd Ho Hoc. rewrite (wi_todo _ _ _ W k Hk Hd) in Ho. injection Ho as Ho.
  pose proof (last_with_Some _ _ _ Ho) as [Hin _].
  assert (o <> c) by (pose proof (wi_disj _ _ _ W o Hin); set_solver).
  split_and!; [done|done|].
  destruct (wi_refs _ _ _ W o oc Hin Hoc) as [Hr H1].
  assert (Hl : owner s !! k = Some (Some o)) by (by rewrite (wi_todo _ _ _ W k Hk Hd), Ho).
  pose proof (owns_insert _ _ _ (Some c) o Hl) as Hi.
  rewrite decide_True in Hi by done. rewrite decide_False in Hi by congruence.
  pose proof (owns_le (owner s) o). rewrite (wi_len _ _ _ W) in *. unfold CS_MAX_SETS in *.
  rewrite u32_id; unfold is_u32; lia.
Qed.

(** What [take_over] makes of the shadow: index [k] is [c]'s, exactly the
    calls that still own an index stay, with their references adjusted. *)
Record took (c : ptr) (k : nat) (s s' : nvhal_cmd_state) : Prop := {
  tk_owner : owner s' = <[k := Some c]> (owner s);
  tk_nodup : NoDup (calls s');
  tk_in p : p ∈ calls s' <-> p ∈ calls s /\ (1 <= owns (owner s') p)%nat;
  tk_cell p : p ∈ calls s' \/ p = c ->
    exists c0 c1, mem s !! p = Some c0 /\ mem s' !! p = Some c1 /\ same_cell c0 c1 /\
      (p = c -> c1 = c0) /\ (p ∈ calls s' -> refs c1 = Z.of_nat (owns (owner s') p));
  tk_gone p : p ∉ calls s' -> p <> c -> mem s' !! p = None;
  tk_last f : (forall j, owner s' !! j <> Some (last_with f (calls s))) \/
    last_with f (calls s') = last_with f (calls s);
  tk_rest : same_rest s s';
}.

Lemma cell_covers_same h h' k p c0 c1 :
  h !! p = Some c0 -> h' !! p = Some c1 -> same_cell c0 c1 -> cell_covers h' k p = cell_covers h k p.
Proof. intros H0 H1 [r ->]. unfold cell_covers. by rewrite H0, H1. Qed.

Lemma took_winv c done s s' k :
  winv {[c]} done s -> (k < Z.to_nat CS_MAX_SETS)%nat -> ~ done k -> took c k s s' ->
  winv {[c]} (fun j => done j \/ j = k) s'.
Proof.
  intros W Hk Hd T. pose proof (wi_len _ _ _ W) as Hlen.
  split.
  - by rewrite (tk_owner _ _ _ _ T), length_insert.
  - apply T.
  - intros p [Hp _]%(tk_in _ _ _ _ T). by apply W.
  - intros p. split.
    + intros [c0 Hc0]. destruct (decide (p ∈ calls s')); [by left|].
      destruct (decide (p = c)) as [->|?]; [right; set_solver|].
      by rewrite (tk_gone _ _ _ _ T) in Hc0.
    + intros Hp. destruct (tk_cell _ _ _ _ T p) as (c0 & c1 & _ & H1 & _); [set_solver|by eexists].
  - intros p c1 Hc1. destruct (tk_cell _ _ _ _ T p) as (c0 & c1' & H0 & H1 & [r ->] & _).
    + destruct (decide (p ∈ calls s')); [by left|]. right.
      destruct (decide (p = c)) as [|Hne]; [done|]. by rewrite (tk_gone _ _ _ _ T) in Hc1.
    + assert (c1 = with_refs c0 r) as -> by congruence. exact (wi_wf _ _ _ W p c0 H0).
  - intros p c1 Hp Hc1. destruct (tk_cell _ _ _ _ T p) as (c0 & c1' & _ & H1 & _ & _ & Hr); [by left|].
    simplify_eq. split; [by apply Hr|]. by apply (tk_in _ _ _ _ T).
  - intros j p Hj. pose proof (owns_pos _ _ _ Hj). rewrite (tk_owner _ _ _ _ T) in Hj.
    apply list_lookup_insert_Some in Hj as [(_ & [= ->] & _)|[_ Hj]]; [right; set_solver|].
    destruct (wi_owner _ _ _ W j p Hj); [left|by right]. by apply T.
  - intros j Hj Hdj. rewrite (tk_owner _ _ _ _ T). destruct (decide (j = k)) as [->|Hne].
    + exists c. rewrite list_lookup_insert_eq by lia. set_solver.
    + rewrite list_lookup_insert_ne by done. apply W; [done|]. naive_solver.
  - intros j Hj Hdj. assert (j <> k /\ ~ done j) as [Hne Hdj'] by naive_solver.
    pose proof (wi_todo _ _ _ W j Hj Hdj') as Hoj.
    assert (Hoj' : owner s' !! j = Some (last_cover (mem s) (calls s) j)).
    { rewrite (tk_owner _ _ _ _ T). by rewrite list_lookup_insert_ne. }
    rewrite Hoj'. f_equal. unfold last_cover.
    destruct (tk_last _ _ _ _ T (cell_covers (mem s) j)) as [Hno|<-]; [by edestruct Hno|].
    symmetry. apply last_with_ext. intros p Hp.
    destruct (tk_cell _ _ _ _ T p) as (c0 & c1 & H0 & H1 & Hs & _); [by left|].
    by eapply cell_covers_same.
Qed.

Lemma took_slot c cc done s s' k j :
  winv {[c]} done s -> took c k s s' -> (k < Z.to_nat CS_MAX_SETS)%nat -> mem s !! c = Some cc ->
  slot s' j = if decide (j = k) then Some (call_cmd cc) else slot s j.
Proof.
  intros W T Hk Hc. unfold slot. rewrite (tk_owner _ _ _ _ T).
  destruct (decide (j = k)) as [->|Hne].
  - rewrite list_lookup_insert_eq by (rewrite (wi_len _ _ _ W); lia). simpl.
    destruct (tk_cell _ _ _ _ T c) as (c0 & c1 & H0 & H1 & _ & E & _); [by right|].
    rewrite H1, E by done. simpl. congruence.
  - rewrite list_lookup_insert_ne by done.
    destruct (owner s !! j) as [[p|]|] eqn:Ho; try done. simpl.
    assert (Ho' : owner s' !! j = Some (Some p)).
    { rewrite (tk_owner _ _ _ _ T). by rewrite list_lookup_insert_ne. }
    destruct (decide (p = c)) as [->|Hpc].
    { destruct (tk_cell _ _ _ _ T c) as (c0 & c1 & H0 & H1 & _ & E & _); [by right|].
      rewrite H0, H1. by rewrite E. }
    assert (Hp : p ∈ calls s).
    { destruct (wi_owner _ _ _ W j p Ho); [done|set_solver]. }
    destruct (tk_cell _ _ _ _ T p) as (c0 & c1 & H0 & H1 & Hs & _).
    { left. apply T. split; [done|]. by eapply owns_pos. }
    rewrite H0, H1. simpl. by rewrite (same_cell_cmd _ _ Hs).
Qed.

Section TakeOver.
Context (c : ptr) (cc : cs_call) (done : nat -> Prop) (s : nvhal_cmd_state) (k : nat).
Context (W : winv {[c]} done s) (Hc : mem s !! c = Some cc).
Context (Hk : (k < Z.to_nat CS_MAX_SETS)%nat) (Hd : ~ done k).

Let o' := <[k := Some c]> (owner s).

Lemma to_cell p : p ∈ calls s \/ p = c -> is_Some (mem s !! p).
Proof using W. intros Hp. apply W. by rewrite elem_of_singleton. Qed.

Lemma to_fresh : c ∉ calls s.
Proof using W. intros Hin%(wi_disj _ _ _ W). by apply Hin, elem_of_singleton. Qed.

Lemma to_owns p :
  p ∈ calls s -> owner s !! k <> Some (Some p) -> owns o' p = owns (owner s) p.
Proof using W Hk Hd.
  intros Hp Hne. pose proof to_fresh.
  pose proof (owns_insert _ _ _ (Some c) p (wi_todo _ _ _ W k Hk Hd)) as Hi.
  rewrite (wi_todo _ _ _ W k Hk Hd) in Hne. rewrite !decide_False in Hi by congruence. unfold o'. lia.
Qed.

Lemma to_cell_same p :
  p ∈ calls s \/ p = c -> owner s !! k <> Some (Some p) ->
  exists c0 c1, mem s !! p = Some c0 /\ mem s !! p = Some c1 /\ same_cell c0 c1 /\
    (p = c -> c1 = c0) /\ (p ∈ calls s -> refs c1 = Z.of_nat (owns o' p)).
Proof using W Hk Hd.
  intros Hp Hne. destruct (to_cell p Hp) as [c0 Hc0]. exists c0, c0.
  split_and!; try done; [by exists (refs c0); destruct c0|].
  intros Hin. rewrite to_owns by done. by apply (wi_refs _ _ _ W p c0).
Qed.

Lemma to_gone p : p ∉ calls s -> p <> c -> mem s !! p = None.
Proof using W. intros Hp Hne. apply eq_None_not_Some. by intros [?|?%elem_of_singleton]%(wi_dom _ _ _ W). Qed.

Lemma to_pos p : p ∈ calls s -> owner s !! k <> Some (Some p) -> (1 <= owns o' p)%nat.
Proof using W Hk Hd.
  intros Hp Hne. rewrite to_owns by done. destruct (to_cell p) as [c0 Hc0]; [by left|].
  by apply (wi_refs _ _ _ W p c0).
Qed.

Lemma took_free : owner s !! k = Some None -> took c k s (with_owner s o').
Proof using W Hk Hd.
  intros Ho. split; simpl; try done.
  - apply W.
  - intros p. split; [|tauto]. intros Hp. split; [done|]. apply to_pos; [done|congruence].
  - intros p Hp. apply to_cell_same; [done|congruence].
  - apply to_gone.
  - intros f. by right.
Qed.

Context (o : ptr) (oc : cs_call) (Ho : owner s !! k = Some (Some o)) (Hoc : mem s !! o = Some oc).
Let h' := <[o := with_refs oc (u32 (refs oc - 1))]> (mem s).

Lemma took_shared : (u32 (refs oc - 1) <> 0) -> took c k s (with_mem (with_owner s o') h').
Proof using W Hk Hd Ho Hoc.
  intros Hr. destruct (drop_ref_spec c done s k o oc) as (Hin & Hne & Er); try done.
  fold o' in Er. split; simpl; try done.
  - apply W.
  - intros p. split; [|tauto]. intros Hp. split; [done|].
    destruct (decide (p = o)) as [->|?]; [lia|]. apply to_pos; [done|congruence].
  - intros p Hp. unfold h'. destruct (decide (o = p)) as [<-|?].
    + rewrite lookup_insert_eq. exists oc. eexists. split_and!; try done. by eexists.
    + rewrite lookup_insert_ne by done. apply to_cell_same; [done|congruence].
  - intros p Hp Hpc. unfold h'. rewrite lookup_insert_ne by (intros ->; done). by apply to_gone.
  - intros f. by right.
Qed.

Lemma took_last :
  u32 (refs oc - 1) = 0 ->
  took c k s (with_mem (with_calls (with_mem (with_owner s o') h') (remove_first o (calls s)))
                (delete o h')).
Proof using W Hk Hd Ho Hoc.
  intros Hr. destruct (drop_ref_spec c done s k o oc) as (Hin & Hne & Er); try done.
  fold o' in Er. rewrite Hr in Er. assert (Ez : owns o' o = 0%nat) by lia.
  pose proof (remove_first_in o (calls s)) as Hrm. specialize (fun p => Hrm p (wi_nodup _ _ _ W)).
  split; simpl; try done.
  - apply remove_first_nodup, W.
  - intros p. rewrite Hrm. split.
    + intros [Hp Hpo]. split; [done|]. apply to_pos; [done|congruence].
    + intros [Hp H1]. split; [done|]. intros ->. lia.
  - intros p Hp. assert (p <> o) by (destruct Hp as [[_ ?]%Hrm| ->]; congruence).
    unfold h'. rewrite lookup_delete_ne, lookup_insert_ne by done.
    destruct (to_cell_same p) as (c0 & c1 & H0 & H1 & Hs & E & Hrf).
    + destruct Hp as [[? _]%Hrm|?]; [by left|by right].
    + congruence.
    + exists c0, c1. split_and!; try done. intros [? _]%Hrm. by apply Hrf.
  - intros p Hp Hpc. destruct (decide (p = o)) as [->|?]; [by rewrite lookup_delete_eq|].
    unfold h'. rewrite lookup_delete_ne, lookup_insert_ne by done.
    apply to_gone; [|done]. intros Hp'. apply Hp. by apply Hrm.
  - intros f. destruct (decide (last_with f (calls s) = Some o)) as [E|E].
    + left. intros j. rewrite E. by apply owns_zero_lookup.
    + right. apply last_with_remove; [apply W|done].
Qed.

End TakeOver.

(** [take_over] never touches a freed cell. *)
Lemma take_over_took c cc done s k :
  winv {[c]} done s -> mem s !! c = Some cc -> (k < Z.to_nat CS_MAX_SETS)%nat -> ~ done k ->
  exists s', take_over c s k = Some s' /\ took c k s s'.
Proof.
  intros W Hc Hk Hd. unfold take_over.
  pose proof (wi_todo _ _ _ W k Hk Hd) as Hok. rewrite Hok. simpl.
  destruct (last_cover (mem s) (calls s) k) as [o|] eqn:El.
  2:{ eexists. split; [done|]. by eapply took_free. }
  pose proof (last_with_Some _ _ _ El) as [Hin _].
  destruct (to_cell c done s W o) as [oc Hoc]; [by left|]. rewrite Hoc. simpl.
  destruct (Z.eqb_spec (u32 (refs oc - 1)) 0) as [Hr|Hr].
  - unfold remove_call, free_call. simpl. rewrite lookup_insert_eq.
    eexists. split; [done|]. by eapply took_last.
  - eexists. split; [done|]. by eapply took_shared.
Qed.

Lemma owns_none o p : (forall k, o !! k <> Some (Some p)) -> owns o p = 0%nat.
Proof.
  intros H. destruct (decide (owns o p = 0)%nat) as [|Hne]; [done|].
  assert (Hin : p ∈ omap id o) by (apply owns_In; lia).
  apply list_elem_of_omap in Hin as (x & Hx & E). cbv in E. subst x.
  apply list_elem_of_lookup in Hx as [k Hk]. by destruct (H k).
Qed.

Lemma took_owns c done s s' k :
  winv {[c]} done s -> (k < Z.to_nat CS_MAX_SETS)%nat -> ~ done k -> took c k s s' ->
  owns (owner s') c = S (owns (owner s) c).
Proof.
  intros W Hk Hd T. pose proof (wi_todo _ _ _ W k Hk Hd) as Ho.
  pose proof (owns_insert _ _ _ (Some c) c Ho) as Hi. rewrite <- (tk_owner _ _ _ _ T) in Hi.
  rewrite (decide_True (P := Some c = Some c)) in Hi by done.
  rewrite decide_False in Hi; [lia|]. intros [Hin _]%last_with_Some.
  by apply (wi_disj _ _ _ W c Hin), elem_of_singleton.
Qed.

Lemma same_rest_refl s : same_rest s s.
Proof. by repeat split. Qed.

Lemma same_rest_trans s1 s2 s3 : same_rest s1 s2 -> same_rest s2 s3 -> same_rest s1 s3.
Proof. unfold same_rest. intuition congruence. Qed.

(** The loop of [add_call] over [[j, j + m)], with [[f, j)] done. *)
Lemma take_all_spec c cc f m j s :
  (f <= j)%nat -> (j + m <= Z.to_nat CS_MAX_SETS)%nat ->
  winv {[c]} (fun i => f <= i < j)%nat s -> mem s !! c = Some cc ->
  exists s', take_all c s (seq j m) = Some s' /\
    winv {[c]} (fun i => f <= i < j + m)%nat s' /\ same_rest s s' /\ mem s' !! c = Some cc /\
    owns (owner s') c = (m + owns (owner s) c)%nat /\
    (forall p, p ∈ calls s' -> p ∈ calls s) /\
    (forall i, slot s' i = if decide (j <= i < j + m)%nat then Some (call_cmd cc) else slot s i).
Proof.
  revert j s. induction m as [|m IH]; intros j s Hf Hm W Hc; simpl.
  { exists s. split_and!; try done.
    - by rewrite Nat.add_0_r.
    - intros i. by rewrite decide_False by lia. }
  destruct (take_over_took c cc _ s j W Hc) as (s1 & -> & T); [lia|lia|]. simpl.
  assert (W1 : winv {[c]} (fun i => f <= i < S j)%nat s1).
  { assert (winv {[c]} (fun i => (f <= i < j)%nat \/ i = j) s1) as [? ? ? ? ? ? ? Hdn Htd]
      by (eapply took_winv; [exact W|lia|lia|done]).
    split; try done.
    - intros i Hi Hr. apply Hdn; [done|lia].
    - intros i Hi Hr. apply Htd; [done|lia]. }
  destruct (tk_cell _ _ _ _ T c) as (c0 & c1 & H0 & H1 & _ & E & _); [by right|].
  assert (Hc1 : mem s1 !! c = Some cc) by (rewrite H1, E by done; congruence).
  destruct (IH (S j) s1) as (s2 & -> & W2 & R2 & Hc2 & Hown & Hsub & Hsl); [lia|lia|done|done|].
  exists s2. split_and!; try done.
  - by replace (j + S m)%nat with (S j + m)%nat by lia.
  - eapply same_rest_trans; [apply T|done].
  - rewrite Hown, (took_owns c _ s s1 j W) by (done || lia). lia.
  - intros p Hp%Hsub. by apply (tk_in _ _ _ _ T).
  - intros i. rewrite Hsl, (took_slot c cc _ s s1 j i W T) by (done || lia).
    repeat case_decide; (done || lia).
Qed.

Lemma winv_ext X d d' s : (forall k, d k <-> d' k) -> winv X d s -> winv X d' s.
Proof.
  intros H [? ? ? ? ? ? ? Hdn Htd]. split; try done.
  - intros k Hk Hd. apply Hdn; [done|]. by apply H.
  - intros k Hk Hd. apply Htd; [done|]. by rewrite H.
Qed.

(** Calls that hold an index, plus the one that just took some, fit the array. *)
Lemma calls_room c f m s :
  winv {[c]} (fun i => f <= i < f + m)%nat s -> (0 < m)%nat -> (f + m <= Z.to_nat CS_MAX_SETS)%nat ->
  Z.of_nat (length (calls s)) < CS_MAX_CALLS.
Proof.
  intros W Hm Hle. pose proof (wi_len _ _ _ W) as Hlen.
  destruct (wi_done _ _ _ W f) as (p & Hp & ->%elem_of_singleton); [lia|lia|].
  enough (length (c :: calls s) <= length (owner s))%nat as Hn.
  { simpl in Hn. rewrite Hlen in Hn. unfold CS_MAX_CALLS, CS_MAX_SETS in *. lia. }
  apply owners_bound.
  - constructor; [|apply W]. intros Hin%(wi_disj _ _ _ W). by apply Hin, elem_of_singleton.
  - intros q [->|Hq]%elem_of_cons; [by eapply owns_pos|].
    destruct (proj2 (wi_dom _ _ _ W q)) as [qc Hqc]; [by left|]. by apply (wi_refs _ _ _ W q qc).
Qed.

Lemma covers_range cc i :
  0 <= first cc -> 0 <= count cc ->
  covers cc i = bool_decide (Z.to_nat (first cc) <= i < Z.to_nat (first cc) + Z.to_nat (count cc))%nat.
Proof.
  intros H0 H1. unfold covers. apply eq_true_iff_eq. rewrite bool_decide_eq_true, andb_true_iff, Z.leb_le, Z.ltb_lt. lia.
Qed.

(** A fresh call, before its indices are taken. *)
Lemma fresh_winv s c cc f :
  inv s -> mem s !! c = None -> cell_wf cc -> first cc + count cc <= CS_MAX_SETS ->
  winv {[c]} (fun i => f <= i < f)%nat (with_mem s (<[c := cc]> (mem s))).
Proof.
  intros W Hc Hwf Hfit. assert (Hne : forall p, p ∈ calls s -> p <> c).
  { intros p Hp ->. assert (is_Some (mem s !! c)) as [? ?] by (apply W; by left). congruence. }
  split; simpl; try apply W.
  - intros p Hp. rewrite elem_of_singleton. by apply Hne.
  - intros p. rewrite elem_of_singleton. destruct (decide (c = p)) as [<-|?].
    + rewrite lookup_insert_eq. naive_solver.
    + rewrite lookup_insert_ne by done. rewrite (wi_dom _ _ _ W p). set_solver.
  - intros p c0. destruct (decide (c = p)) as [<-|?].
    + rewrite lookup_insert_eq. by intros [= <-].
    + rewrite lookup_insert_ne by done. apply W.
  - intros p c0 Hp. rewrite lookup_insert_ne by (symmetry; by apply Hne). by apply W.
  - intros k p Hk. destruct (wi_owner _ _ _ W k p Hk); [by left|set_solver].
  - lia.
  - intros k Hk _. rewrite (wi_todo _ _ _ W k Hk) by tauto. f_equal. symmetry. apply last_cover_ext.
    intros p Hp. unfold cell_covers. by rewrite lookup_insert_ne by (symmetry; by apply Hne).
Qed.

Lemma fresh_slot s c cc k :
  inv s -> mem s !! c = None -> slot (with_mem s (<[c := cc]> (mem s))) k = slot s k.
Proof.
  intros W Hc. unfold slot. simpl. destruct (owner s !! k) as [[p|]|] eqn:E; [|done..]. simpl.
  rewrite lookup_insert_ne; [done|]. intros <-.
  assert (is_Some (mem s !! c)) as [? ?] by (apply W, (wi_owner _ _ _ W k c E)). congruence.
Qed.

(** The call enters the array: the invariant holds again. *)
Lemma finish_winv s c cc f m :
  winv {[c]} (fun i => f <= i < f + m)%nat s -> mem s !! c = Some cc -> (0 < m)%nat ->
  f = Z.to_nat (first cc) -> m = Z.to_nat (count cc) -> 0 <= first cc ->
  refs cc = count cc -> owns (owner s) c = m -> inv (with_calls s (calls s ++ [c])).
Proof.
  intros W Hc Hm Hf Hcnt H0 Hr Ho.
  assert (Hcc : c ∉ calls s) by (intros Hin%(wi_disj _ _ _ W); by apply Hin, elem_of_singleton).
  split; simpl; try apply W.
  - apply NoDup_app. split_and!; [apply W| |by apply NoDup_singleton]. set_solver.
  - set_solver.
  - intros p. rewrite (wi_dom _ _ _ W p). set_solver.
  - intros p c0 [Hp| ->%list_elem_of_singleton]%elem_of_app Hc0; [by apply W|].
    assert (c0 = cc) as -> by congruence. lia.
  - intros k p [?|?]%(wi_owner _ _ _ W); set_solver.
  - done.
  - intros k Hk _. unfold last_cover. rewrite last_with_snoc.
    assert (Hcov : cell_covers (mem s) k c = bool_decide (f <= k < f + m)%nat).
    { unfold cell_covers. rewrite Hc. subst f m. apply covers_range; lia. }
    rewrite Hcov. case_bool_decide as Hin.
    + destruct (wi_done _ _ _ W k Hk Hin) as (p & Hp & ->%elem_of_singleton). done.
    + by apply (wi_todo _ _ _ W k Hk).
Qed.

Lemma with_mem_mem s a b : with_mem (with_mem s a) b = with_mem s b.
Proof. reflexivity. Qed.

(** [add_call] of a fresh cell: defined, keeps the invariant, and from then
    on the call is what is replayed for exactly the indices it binds. *)
Lemma add_call_spec s c cc :
  inv s -> mem s !! c = None -> cell_wf cc -> 0 < count cc -> 0 <= first cc -> first cc + count cc <= CS_MAX_SETS ->
  exists s', add_call (with_mem s (<[c := cc]> (mem s))) c = Some s' /\ inv s' /\ same_rest s s' /\
    (forall p, is_Some (mem s' !! p) -> is_Some (mem s !! p) \/ p = c) /\
    (forall k, slot s' k = if covers cc k then Some (call_cmd cc) else slot s k).
Proof.
  intros W Hc Hwf H0 H1 H2. unfold add_call. simpl. rewrite lookup_insert_eq. simpl.
  rewrite insert_insert_eq, with_mem_mem. remember (with_refs cc (count cc)) as cc' eqn:Ecc.
  assert (Ef : first cc = first cc') by (by subst). assert (Ec : count cc = count cc') by (by subst).
  assert (Em : call_cmd cc = call_cmd cc') by (by subst). assert (refs cc' = count cc') by (by subst).
  assert (Ev : forall k, covers cc k = covers cc' k) by (by subst).
  assert (Hwf' : cell_wf cc') by (by subst).
  clear Ecc Hwf. rewrite Ef, Ec, Em in *.
  pose proof (fresh_winv s c cc' (Z.to_nat (first cc')) W Hc Hwf' H2) as W0.
  destruct (take_all_spec c cc' (Z.to_nat (first cc')) (Z.to_nat (count cc')) (Z.to_nat (first cc'))
    (with_mem s (<[c := cc']> (mem s)))) as (s1 & E & W1 & R1 & Hc1 & Hown & Hsub & Hsl);
    [lia|lia|done|simpl; by rewrite lookup_insert_eq|].
  assert (Hz : owns (owner s) c = 0%nat).
  { apply owns_none. intros k [Hin|Hin]%(wi_owner _ _ _ W); [|set_solver].
    assert (is_Some (mem s !! c)) as [? ?] by (apply W; by left). congruence. }
  simpl in Hown. rewrite E. simpl.
  rewrite (proj2 (Z.ltb_lt _ _)) by (eapply calls_room; [exact W1|lia|lia]).
  eexists. split_and!; [done| | | |].
  - eapply finish_winv; [exact W1|exact Hc1| | | | | |]; [lia|done|done|lia|done|lia].
  - exact R1.
  - simpl. intros p [Hp|Hp]%(wi_dom _ _ _ W1); [|right; set_solver].
    left. apply W. left. by apply Hsub.
  - intros k. change (slot (with_calls s1 (calls s1 ++ [c])) k) with (slot s1 k).
    rewrite Hsl, (fresh_slot s c cc' k W Hc).
    rewrite Ev, covers_range by lia.
    case_decide; case_bool_decide; done.
Qed.

(** ** Reset *)

Lemma zero_inv : inv (zero_cs ∅).
Proof.
  split; cbn [zero_cs owner calls mem].
  - by rewrite length_replicate.
  - by apply NoDup_nil.
  - set_solver.
  - intros p. rewrite lookup_empty. split; [by intros []|set_solver].
  - intros p c. by rewrite lookup_empty.
  - set_solver.
  - intros k p Hk. apply lookup_replicate in Hk as [? _]. done.
  - done.
  - intros k Hk _. by apply lookup_replicate_2.
Qed.

Lemma free_calls_spec s l :
  NoDup l -> (forall p, is_Some (mem s !! p) <-> p ∈ l) ->
  exists s', free_calls s l = Some s' /\ mem s' = ∅.
Proof.
  revert s. induction l as [|c l IH]; intros s Hnd Hd; simpl.
  - exists s. split; [done|]. apply map_empty. intros p. apply eq_None_not_Some. rewrite Hd. set_solver.
  - apply NoDup_cons in Hnd as [Hc Hnd]. unfold free_call.
    destruct (proj2 (Hd c)) as [cc Hcc]; [set_solver|]. rewrite Hcc. simpl.
    apply IH; [done|]. intros p. simpl. rewrite lookup_delete_is_Some, Hd. set_solver.
Qed.

(** Resetting frees every live call exactly once and leaves nothing behind. *)
Lemma cs_reset_spec s : inv s -> cs_reset s = Some (zero_cs ∅).
Proof.
  intros W. unfold cs_reset. destruct (free_calls_spec s (calls s)) as (s' & -> & E).
  - apply W.
  - intros p. rewrite (wi_dom _ _ _ W p). set_solver.
  - simpl. by rewrite E.
Qed.

(** ** The deep copy of push descriptors *)

(** What the driver reads of a write: the array its type selects. *)
Definition eff_write (w : VkWriteDescriptorSet) : VkWriteDescriptorSet :=
  let k := write_kind (w_descriptorType w) in
  let n := w_descriptorCount w in
  mk_write
    (if k =? 4 then (fun ib => mk_ext (ib_sType ib) (ib_pNext ib) (ib_dataSize ib)
                       (copy_list (ib_dataSize ib) (ib_pData ib))) <$> w_pNext w else w_pNext w)
    (w_dstBinding w) (w_dstArrayElement w) n (w_descriptorType w)
    (if k =? 1 then copy_list n (w_pImageInfo w) else [])
    (if k =? 3 then copy_list n (w_pBufferInfo w) else [])
    (if k =? 2 then copy_list n (w_pTexelBufferView w) else []).

(** A write an application may pass: 32-bit counts, and an inline block below
    [2^32 - 8] bytes (the limit of every implementation is far lower). *)
Definition write_ok (w : VkWriteDescriptorSet) : Prop :=
  is_u32 (w_descriptorCount w) /\
  forall ib, w_pNext w = Some ib -> 0 <= ib_dataSize ib < 2 ^ 32 - 8.

(** Upper bound of the bytes one write adds, in unbounded arithmetic. *)
Definition write_size (w : VkWriteDescriptorSet) : Z :=
  40 + 24 * w_descriptorCount w + match w_pNext w with Some ib => ib_dataSize ib + 8 | None => 0 end.

Definition writes_size (ws : list VkWriteDescriptorSet) : Z := sumZ (write_size <$> ws).

Lemma writes_size_cons w ws : writes_size (w :: ws) = write_size w + writes_size ws.
Proof. reflexivity. Qed.

Lemma ALIGN8_bounds x : 0 <= x < 2 ^ 64 - 8 -> x <= ALIGN8 x < x + 8.
Proof.
  intros Hx. unfold ALIGN8. change 8 with (2 ^ 3). rewrite alloc_align_spec by lia.
  apply align_up_bounds. lia.
Qed.

Lemma ALIGN8_32_eq x : 0 <= x < 2 ^ 32 - 8 -> ALIGN8_32 x = ALIGN8 x.
Proof.
  intros Hx. unfold ALIGN8_32, ALIGN8, alloc_align. change (8 - 1) with 7.
  rewrite u32_id by (unfold is_u32; lia). by rewrite (u64_id (x + 7)) by (unfold is_u64; lia).
Qed.

Lemma elem_size_bounds k : 0 < elem_size k <= 24.
Proof. unfold elem_size. repeat case_match; vm_compute; done. Qed.

Lemma elem_bytes k w : write_ok w -> 0 <= elem_size k * w_descriptorCount w <= 24 * w_descriptorCount w
  /\ u64 (elem_size k * w_descriptorCount w) = elem_size k * w_descriptorCount w.
Proof.
  intros [Hc _]. pose proof (elem_size_bounds k). unfold is_u32 in Hc.
  assert (0 <= elem_size k * w_descriptorCount w <= 24 * w_descriptorCount w) by nia.
  split; [done|]. apply u64_id. unfold is_u64. lia.
Qed.

(** One write: the copy lands inside the allocation and advances the cursor
    by exactly what [write_payload] counted. *)
Lemma copy_write_spec cap p w sz :
  write_ok w -> write_payload w = (sz, true) -> p + sz <= cap ->
  exists cw, copy_write cap p w = Some (cw, p + sz) /\ eff_write cw = eff_write w.
Proof.
  intros Hok Hp Hcap. unfold write_payload in Hp. unfold copy_write, eff_write.
  destruct (write_kind (w_descriptorType w) =? 4) eqn:K4.
  - destruct (w_pNext w) as [ib|] eqn:Hn; [|done].
    cbn [mbind option_bind]. pose proof (proj2 Hok ib Hn) as Hds.
    destruct (negb _ || ib_pNext ib); [done|].
    rewrite (ALIGN8_32_eq _ Hds) in *.
    assert (Ha : ib_dataSize ib <= ALIGN8 (ib_dataSize ib) < ib_dataSize ib + 8)
      by (apply ALIGN8_bounds; lia).
    change (ALIGN8 sizeof_InlineUniformBlock) with 32 in *. injection Hp as Hp.
    rewrite u64_id in Hp by (unfold is_u64; lia). unfold fits, sizeof_InlineUniformBlock.
    rewrite !(proj2 (Z.leb_le _ _)) by lia. cbn [andb].
    eexists. split; [by rewrite <- Hp, Z.add_assoc|]. simpl. rewrite K4. simpl.
    unfold copy_list. by rewrite take_take, Nat.min_id.
  - destruct (_ || _) eqn:E; [done|]. injection Hp as Hp.
    destruct (elem_bytes (write_kind (w_descriptorType w)) w Hok) as [Hb Hu]. rewrite Hu in *.
    pose proof (proj1 Hok) as Hcnt. unfold is_u32 in Hcnt.
    assert (Ha : elem_size (write_kind (w_descriptorType w)) * w_descriptorCount w <= sz)
      by (rewrite <- Hp; apply ALIGN8_bounds; lia).
    unfold fits. rewrite (proj2 (Z.leb_le _ _)) by lia.
    eexists. split; [by rewrite Hp|]. simpl. rewrite K4. unfold copy_list.
    repeat case_match; by rewrite ?take_take, ?Nat.min_id.
Qed.

Lemma write_payload_size w sz :
  write_ok w -> write_payload w = (sz, true) -> 0 <= sz <= write_size w.
Proof.
  intros Hok Hp. unfold write_payload in Hp. unfold write_size.
  pose proof (proj1 Hok) as Hcnt. unfold is_u32 in Hcnt.
  destruct (_ =? 4).
  - destruct (w_pNext w) as [ib|] eqn:Hn; [|done]. pose proof (proj2 Hok ib Hn) as Hds.
    destruct (negb _ || ib_pNext ib); [done|]. injection Hp as Hp.
    rewrite (ALIGN8_32_eq _ Hds) in *. change (ALIGN8 sizeof_InlineUniformBlock) with 32 in *.
    assert (ib_dataSize ib <= ALIGN8 (ib_dataSize ib) < ib_dataSize ib + 8)
      by (apply ALIGN8_bounds; lia).
    rewrite u64_id in Hp by (unfold is_u64; lia). lia.
  - destruct (_ || _) eqn:E; [done|]. injection Hp as Hp.
    destruct (elem_bytes (write_kind (w_descriptorType w)) w Hok) as [Hb Hu]. rewrite Hu in *.
    assert (elem_size (write_kind (w_descriptorType w)) * w_descriptorCount w <= sz <
      elem_size (write_kind (w_descriptorType w)) * w_descriptorCount w + 8)
      by (rewrite <- Hp; apply ALIGN8_bounds; lia).
    destruct (w_pNext w) as [ib|] eqn:Hn; [pose proof (proj2 Hok ib Hn)|]; lia.
Qed.

Lemma write_size_pos w : write_ok w -> 0 <= write_size w.
Proof.
  intros Hok. pose proof (proj1 Hok) as Hcnt. unfold is_u32 in Hcnt. unfold write_size.
  destruct (w_pNext w) as [ib|] eqn:Hn; [pose proof (proj2 Hok ib Hn)|]; lia.
Qed.

Lemma writes_size_pos ws : Forall write_ok ws -> 0 <= writes_size ws.
Proof.
  induction 1 as [|w ws Hw _ IH]; [done|]. rewrite writes_size_cons.
  pose proof (write_size_pos w Hw). lia.
Qed.

(** The whole array: the copy loop fills exactly the bytes the sizing loop
    counted. *)
Lemma copy_writes_spec ws p bytes cap :
  Forall write_ok ws -> 0 <= p -> p + writes_size ws < 2 ^ 64 ->
  sum_payload p ws = (bytes, true) -> bytes <= cap ->
  p <= bytes /\ exists cws, copy_writes cap p ws = Some (cws, bytes) /\ eff_write <$> cws = eff_write <$> ws.
Proof.
  intros Hok. revert p. induction Hok as [|w ws Hw Hok IH]; intros p Hp Hlt Hs Hcap.
  { injection Hs as <-. split; [lia|]. by exists []. }
  pose proof (writes_size_pos ws Hok). rewrite writes_size_cons in Hlt.
  cbn [sum_payload copy_writes] in *.
  destruct (write_payload w) as [sz ok] eqn:E. destruct ok; [|done].
  pose proof (write_payload_size w sz Hw E) as Hsz.
  rewrite u64_id in Hs by (unfold is_u64; lia).
  destruct (IH (p + sz)) as (Hle & cws & Ec & Ee); [lia|lia|done|done|]. split; [lia|].
  destruct (copy_write_spec cap p w sz Hw E) as (cw & -> & Ew); [lia|]. simpl. rewrite Ec. simpl.
  eexists. split; [done|]. by rewrite !fmap_cons, Ew, Ee.
Qed.

(** ** The reference: the application's whole history *)

(** What the application has recorded since [vkBeginCommandBuffer], at the
    compute bind point: the pipeline or shader binding in effect, every
    descriptor-set binding and every push-constant update. *)
Record history := mk_hist {
  h_bound : list vkcmd;
  h_sets : list vkcmd;
  h_push : list cs_push;
}.
Definition no_history : history := mk_hist [] [] [].

(** A command as the driver sees it. *)
Definition canon (c : vkcmd) : vkcmd :=
  match c with
  | CmdPushDescriptorSet fn bp lay set ws => CmdPushDescriptorSet fn bp lay set (eff_write <$> ws)
  | _ => c
  end.

Lemma canon_covers k c : cmd_covers k (canon c) = cmd_covers k c.
Proof. by destruct c. Qed.

Section Spec.
Context (has_push : Z -> bool).

(** The compute descriptor-set binding a command performs, if any, as the
    command with explicit bind point. *)
Definition set_binding (d : Z) (c : vkcmd) : option vkcmd :=
  let bp1 := VK_PIPELINE_BIND_POINT_COMPUTE in
  match c with
  | CmdBindDescriptorSets bp _ _ _ _ | CmdPushDescriptorSet _ bp _ _ _
  | CmdSetDescriptorBufferOffsetsEXT bp _ _ _ _ | CmdBindDescriptorBufferEmbeddedSamplersEXT bp _ _ =>
      if bp =? bp1 then Some c else None
  | CmdBindDescriptorSets2 _ i =>
      if has_compute (bsi_stageFlags i)
      then Some (CmdBindDescriptorSets bp1 (bsi_layout i) (bsi_firstSet i) (bsi_sets i) (bsi_dyn i)) else None
  | CmdPushDescriptorSet2 _ i =>
      if has_compute (pdi_stageFlags i)
      then Some (CmdPushDescriptorSet (if has_push d then PushCore else PushKHR) bp1 (pdi_layout i) (pdi_set i) (pdi_writes i))
      else None
  | CmdSetDescriptorBufferOffsets2EXT i =>
      if has_compute (doi_stageFlags i)
      then Some (CmdSetDescriptorBufferOffsetsEXT bp1 (doi_layout i) (doi_firstSet i) (doi_indices i) (doi_offsets i)) else None
  | CmdBindDescriptorBufferEmbeddedSamplers2EXT i =>
      if has_compute (esi_stageFlags i)
      then Some (CmdBindDescriptorBufferEmbeddedSamplersEXT bp1 (esi_layout i) (esi_set i)) else None
  | _ => None
  end.

(** The compute shader object a [vkCmdBindShadersEXT] binds last. *)
Definition shader_at (i : nat) (sh : option (list Z)) : Z :=
  match sh with Some l => default VK_NULL_HANDLE (l !! i) | None => VK_NULL_HANDLE end.
Definition compute_shader (i : nat) (stages : list Z) (sh : option (list Z)) : option Z :=
  (fun p => shader_at p.1 sh) <$>
  last_with (fun p => p.2 =? VK_SHADER_STAGE_COMPUTE_BIT) (zip (seq i (length stages)) stages).

Definition bound_binding (c : vkcmd) : option vkcmd :=
  match c with
  | CmdBindPipeline bp _ => if bp =? VK_PIPELINE_BIND_POINT_COMPUTE then Some c else None
  | CmdBindShadersEXT stages sh =>
      (fun x => CmdBindShadersEXT [VK_SHADER_STAGE_COMPUTE_BIT] (Some [x])) <$> compute_shader 0 stages sh
  | _ => None
  end.

Definition push_update (c : vkcmd) : option cs_push :=
  match c with
  | CmdPushConstants lay st off data => Some (mk_push lay st off (Z.of_nat (length data)) data)
  | CmdPushConstants2 _ i =>
      Some (mk_push (pci_layout i) (pci_stageFlags i) (pci_offset i) (Z.of_nat (length (pci_values i))) (pci_values i))
  | _ => None
  end.

Definition add_opt {A} (l : list A) (o : option A) : list A :=
  match o with Some x => l ++ [x] | None => l end.

Definition hist_step (d : Z) (h : history) (c : vkcmd) : history :=
  mk_hist (match bound_binding c with Some b => [b] | None => h_bound h end)
          (add_opt (h_sets h) (set_binding d c))
          (add_opt (h_push h) (push_update c)).

End Spec.

(** One byte of push-constant memory as one shader stage sees it. *)
Definition cell : Type := Z * Z.     (* stage bit number, byte *)

Definition update_covers (x : cell) (p : cs_push) : bool :=
  Z.testbit (p_stages p) x.1 && (p_offset p <=? x.2) && (x.2 <? p_offset p + p_size p).

(** Its value, with the layout that set it, after a sequence of updates. *)
Definition push_value (l : list cs_push) (x : cell) : option (Z * Z) :=
  p ← last_with (update_covers x) l;
  b ← p_data p !! Z.to_nat (x.2 - p_offset p);
  Some (p_layout p, b).

(** ** Simulation: the shadow against the history *)

(** An array of writes whose bytes fit the address space. *)
Definition writes_ok (ws : list VkWriteDescriptorSet) : Prop :=
  Forall write_ok ws /\ Z.of_nat (length ws) * 64 + writes_size ws < 2 ^ 64 - 8.

(** Commands with 32-bit set indices and arrays that exist in memory. *)
Definition cmd_ok (c : vkcmd) : Prop :=
  match c with
  | CmdBindDescriptorSets _ _ f _ _ | CmdSetDescriptorBufferOffsetsEXT _ _ f _ _
  | CmdBindDescriptorBufferEmbeddedSamplersEXT _ _ f => 0 <= f
  | CmdPushDescriptorSet _ _ _ f w => 0 <= f /\ writes_ok w
  | CmdBindDescriptorSets2 _ i => 0 <= bsi_firstSet i
  | CmdPushDescriptorSet2 _ i => 0 <= pdi_set i /\ writes_ok (pdi_writes i)
  | CmdSetDescriptorBufferOffsets2EXT i => 0 <= doi_firstSet i
  | CmdBindDescriptorBufferEmbeddedSamplers2EXT i => 0 <= esi_set i
  | _ => True
  end.

(** Memory safety of one shadow: ownership, addresses below the allocation
    counter, arrays within their bounds. *)
Definition push_wf (p : cs_push) : Prop := p_size p = Z.of_nat (length (p_data p)).
Definition shadow_ok (n : nat) (s : nvhal_cmd_state) : Prop :=
  inv s /\ (forall p, is_Some (mem s !! p) -> (p < n)%nat) /\
  (Z.of_nat (length (push s)) <= CS_MAX_PUSH /\ Forall push_wf (push s)).

(** The push-constant part of the shadow: the updates it kept, after some
    that never reached the compute stage, give every byte the value the
    whole history gives it. *)
Definition push_ok (s : nvhal_cmd_state) (h : history) : Prop :=
  (exists h0, (forall u, u ∈ h0 -> has_compute (p_stages u) = false) /\
     forall x, push_value (h0 ++ push s) x = push_value (h_push h) x) /\
  (push_compute s = false -> push s = [] /\ forall u, u ∈ h_push h -> has_compute (p_stages u) = false).

Definition shadows (s : nvhal_cmd_state) (h : history) : Prop :=
  bound_cmd s = h_bound h /\
  (forall k, canon <$> slot s k = canon <$> last_with (cmd_covers k) (h_sets h)) /\
  push_ok s h.

(** Nothing that touches compute state so far. *)
Definition untouched (h : history) : Prop :=
  h_bound h = [] /\ h_sets h = [] /\ (forall u, u ∈ h_push h -> has_compute (p_stages u) = false).

(** The simulation relation: always memory safe; and as long as no error was
    logged and nothing was lost, the shadow stands for the history. *)
Definition good (st : cmd_st) (h : history) : Prop :=
  match cs (e st) with
  | None => errs st = [] -> untouched h
  | Some s => shadow_ok (nalloc st) s /\ (errs st = [] -> lost s = None -> shadows s h)
  end.

Lemma untouched_zero h : untouched h -> shadows (zero_cs ∅) h.
Proof.
  intros (Hb & Hs & Hp). split_and!; [done| |split].
  - intros k. rewrite Hs. unfold slot, zero_cs. cbn [owner mem].
    destruct (replicate _ _ !! k) as [o|] eqn:E; [|done].
    apply lookup_replicate in E as [-> _]. done.
  - exists (h_push h). split; [done|]. intros x. cbn. by rewrite app_nil_r.
  - done.
Qed.

Lemma zero_shadow_ok n : shadow_ok n (zero_cs ∅).
Proof.
  split; [apply zero_inv|]. split; [|split; [done|by apply Forall_nil]]. cbn [zero_cs mem]. intros p [c Hc]. by rewrite lookup_empty in Hc.
Qed.

Lemma shadow_ok_mono n n' s : (n <= n')%nat -> shadow_ok n s -> shadow_ok n' s.
Proof. intros Hn (Hi & Hp & Hl & Hw). split_and!; [done| |done|done]. intros p Hq%Hp. lia. Qed.

Lemma lose_lost s why : lost (lose s why) <> None.
Proof. unfold lose. by destruct (lost s) eqn:E; simpl; rewrite ?E. Qed.

Lemma same_rest_shadow n s s' : owner s' = owner s -> calls s' = calls s -> mem s' = mem s ->
  push s' = push s -> shadow_ok n s -> shadow_ok n s'.
Proof.
  intros Ho Hc Hm Hp (Hi & Hq & Hl & Hw). destruct Hi. unfold shadow_ok.
  rewrite Hm, Hp. split_and!; [|done|done|done].
  split; rewrite ?Ho, ?Hc, ?Hm; done.
Qed.

Lemma lose_shadow_ok n s why : shadow_ok n s -> shadow_ok n (lose s why).
Proof. unfold lose. destruct (lost s); [done|]. by apply same_rest_shadow. Qed.

Section Simulation.
Context (alloc_ok : nat -> bool) (has_push has_push_khr : Z -> bool).

Lemma good_reported st h : cs (e st) = None -> errs st <> [] -> good st h.
Proof. intros Hc He. unfold good. by rewrite Hc. Qed.

Lemma good_lost st s h why : shadow_ok (nalloc st) s -> good (put_cs st (lose s why)) h.
Proof.
  intros Hs. unfold good. simpl. split; [by apply lose_shadow_ok|].
  intros _ E. by destruct (lose_lost s why).
Qed.

(** After [cs_of], a shadow in the same relation, or an error was logged. *)
Lemma cs_of_good st h :
  good st h ->
  match cs_of alloc_ok st with
  | (Some s, st') => good st' h /\ cs (e st') = Some s /\ dev (e st') = dev (e st) /\
                     shadow_ok (nalloc st') s
  | (None, st') => cs (e st') = None /\ errs st' <> [] /\ dev (e st') = dev (e st)
  end.
Proof.
  intros G. unfold cs_of. unfold good in G. destruct (cs (e st)) as [s|] eqn:E.
  - split_and!; try done; [|by apply G]. unfold good. by rewrite E.
  - destruct (alloc_ok (nalloc st)); simpl.
    + split_and!; [|done|done|apply zero_shadow_ok]. unfold good. simpl.
      split; [apply zero_shadow_ok|]. intros He _. by apply untouched_zero, G.
    + split_and!; [done| |done]. intros H%(f_equal length). rewrite length_app in H. simpl in H. lia.
Qed.

Definition next (st st' : cmd_st) (h : history) : Prop := good st' h /\ dev (e st') = dev (e st).

Lemma cs_lose_good st h h' why : good st h -> next st (cs_lose alloc_ok st why) h'.
Proof.
  intros G. unfold cs_lose. pose proof (cs_of_good st h G) as H.
  destruct (cs_of alloc_ok st) as [[s|] st'].
  - destruct H as (_ & _ & Hd & Hok). split; [by apply good_lost|done].
  - destruct H as (? & ? & ?). split; [by apply good_reported|done].
Qed.

Lemma new_call_good st s kd lay f n why :
  shadow_ok (nalloc st) s -> new_call alloc_ok (nalloc st) s kd lay f n = why ->
  match why with
  | (None, n', s') => (nalloc st <= n')%nat /\ shadow_ok n' s' /\ lost s' <> None
  | (Some c, n', s') => c = nalloc st /\ n' = S (nalloc st) /\ (n =? 0) = false /\
      f < CS_MAX_SETS /\ f + n <= CS_MAX_SETS /\
      s' = with_mem s (<[c := mk_call kd lay f n 0 [] [] [] PushCore [] []]> (mem s))
  end.
Proof.
  intros Hok <-. unfold new_call.
  destruct (_ || _) eqn:E.
  { split_and!; [lia|by apply lose_shadow_ok|apply lose_lost]. }
  bool_props. destruct (alloc_ok (nalloc st)).
  - split_and!; (done || lia).
  - split_and!; [lia| |apply lose_lost]. apply lose_shadow_ok. eapply shadow_ok_mono; [|done]. lia.
Qed.

(** The tail of every [record_*]: a fresh call with its payload is added. *)
Lemma finish_call_good st s h kd lay f n fill b :
  good st h -> cs (e st) = Some s -> 0 <= f -> 0 <= n ->
  (let cc := fill (mk_call kd lay f n 0 [] [] [] PushCore [] []) in
   first cc = f /\ count cc = n /\ cell_wf cc /\ canon (call_cmd cc) = canon b) ->
  exists st', finish_call st (new_call alloc_ok (nalloc st) s kd lay f n) fill = Some st' /\
    next st st' (mk_hist (h_bound h) (h_sets h ++ [b]) (h_push h)).
Proof.
  intros G Hs Hf Hn. set (cc := fill _). intros (Ef & En & Hwf & Hb).
  unfold good in G. rewrite Hs in G. destruct G as [Hok Hsh].
  pose proof (new_call_good st s kd lay f n _ Hok eq_refl) as H.
  destruct (new_call alloc_ok (nalloc st) s kd lay f n) as [[[c|] n'] s'].
  2:{ destruct H as (Hle & Hok' & Hl). simpl. eexists. split; [done|]. split; [|done].
      unfold good. simpl. split; [done|]. by intros _ E. }
  destruct H as (-> & -> & Hnz & Hf1 & Hf2 & ->). unfold finish_call. simpl.
  rewrite lookup_insert_eq. simpl. fold cc. rewrite with_mem_mem, insert_insert_eq.
  destruct Hok as (Hi & Hp & Hl & Hw).
  assert (Hfresh : mem s !! nalloc st = None).
  { apply eq_None_not_Some. intros ?%Hp. lia. }
  apply Z.eqb_neq in Hnz.
  destruct (add_call_spec s (nalloc st) cc) as (s1 & -> & Hi1 & R1 & Hm1 & Hsl1);
    [done|done|done|lia|lia|lia|]. simpl.
  destruct R1 as (Rb & Rp & Rs & Rpu & Rpc & Rc & Rl).
  eexists. split; [done|]. split; [|done]. unfold good. simpl. split.
  { split_and!; [done| |by rewrite Rpu|by rewrite Rpu]. intros p [Hp'| ->]%Hm1; [apply Hp in Hp'|]; lia. }
  intros He Hlo. rewrite Rl in Hlo. destruct (Hsh He Hlo) as (Sb & Ss & Sp).
  split_and!.
  - unfold bound_cmd. by rewrite Rb, Rp, Rs.
  - intros k. simpl. rewrite last_with_snoc, Hsl1.
    rewrite <- (canon_covers k b), <- Hb, canon_covers, (Hwf k).
    destruct (covers cc k); [by simpl; rewrite Hb|apply Ss].
  - unfold push_ok in *. by rewrite Rpu, Rpc.
Qed.

(** The history gains a descriptor-set binding. *)
Definition add_set (h : history) (b : vkcmd) : history := mk_hist (h_bound h) (h_sets h ++ [b]) (h_push h).

(** The two ways a [record_*] gives up: the shadow could not be allocated, or
    the binding cannot be replayed. *)
Ltac reported := eexists; split; [done|]; split; [by apply good_reported|done].
Ltac gave_up := eexists; split; [done|]; split; [by apply good_lost|done].
Ltac with_shadow G :=
  let H := fresh in
  pose proof (cs_of_good _ _ G) as H;
  destruct (cs_of alloc_ok _) as [[s|] st1];
  [destruct H as (G1 & Hs & Hd & Hok) | destruct H as (? & ? & ?); reported].

Lemma record_bind_good st h lay f ss ds :
  good st h -> 0 <= f ->
  exists st', record_bind alloc_ok st lay f ss ds = Some st' /\
    next st st' (add_set h (CmdBindDescriptorSets VK_PIPELINE_BIND_POINT_COMPUTE lay f ss ds)).
Proof.
  intros G Hf. unfold record_bind. with_shadow G.
  destruct (lay =? VK_NULL_HANDLE); [gave_up|].
  destruct (finish_call_good st1 s h CS_BIND lay f (Z.of_nat (length ss))
    (fun c => mk_call (kind c) (layout c) (first c) (count c) (refs c) ss ds
                (writes c) (push_fn c) (indices c) (offsets c))
    (CmdBindDescriptorSets VK_PIPELINE_BIND_POINT_COMPUTE lay f ss ds) G1 Hs Hf) as (st' & -> & N);
    [lia|by repeat split|]. exists st'. split; [done|]. destruct N as [N1 N2].
  split; [done|by rewrite N2].
Qed.

Lemma record_db_offsets_good st h lay f idx off :
  good st h -> 0 <= f ->
  exists st', record_db_offsets alloc_ok st lay f idx off = Some st' /\
    next st st' (add_set h (CmdSetDescriptorBufferOffsetsEXT VK_PIPELINE_BIND_POINT_COMPUTE lay f idx off)).
Proof.
  intros G Hf. unfold record_db_offsets. with_shadow G.
  destruct (lay =? VK_NULL_HANDLE); [gave_up|].
  destruct (finish_call_good st1 s h CS_DB_OFFSETS lay f (Z.of_nat (length idx))
    (fun c => mk_call (kind c) (layout c) (first c) (count c) (refs c) (sets c) (dyn c)
                (writes c) (push_fn c) idx off)
    (CmdSetDescriptorBufferOffsetsEXT VK_PIPELINE_BIND_POINT_COMPUTE lay f idx off) G1 Hs Hf)
    as (st' & -> & N1 & N2); [lia|by repeat split|].
  exists st'. split; [done|]. split; [done|by rewrite N2].
Qed.

Lemma record_db_samplers_good st h lay f :
  good st h -> 0 <= f ->
  exists st', record_db_samplers alloc_ok st lay f = Some st' /\
    next st st' (add_set h (CmdBindDescriptorBufferEmbeddedSamplersEXT VK_PIPELINE_BIND_POINT_COMPUTE lay f)).
Proof.
  intros G Hf. unfold record_db_samplers. with_shadow G.
  destruct (lay =? VK_NULL_HANDLE); [gave_up|].
  destruct (finish_call_good st1 s h CS_DB_SAMPLERS lay f 1 (fun c => c)
    (CmdBindDescriptorBufferEmbeddedSamplersEXT VK_PIPELINE_BIND_POINT_COMPUTE lay f) G1 Hs Hf)
    as (st' & -> & N1 & N2); [lia|by repeat split|].
  exists st'. split; [done|]. split; [done|by rewrite N2].
Qed.

Lemma record_push_desc_good st h o fn lay f ws :
  good st h -> 0 <= f -> writes_ok ws -> o = None \/ o = Some fn ->
  exists st', record_push_desc alloc_ok st o lay f ws = Some st' /\
    next st st' (add_set h (CmdPushDescriptorSet fn VK_PIPELINE_BIND_POINT_COMPUTE lay f ws)).
Proof.
  intros G Hf [Hw Hsz] Hfn. unfold record_push_desc. with_shadow G.
  destruct Hfn as [->| ->]; [gave_up|].
  destruct (lay =? VK_NULL_HANDLE); [gave_up|].
  pose proof (writes_size_pos ws Hw). unfold sizeof_VkWriteDescriptorSet.
  rewrite (u64_id (Z.of_nat (length ws) * 64)) by (unfold is_u64; lia).
  assert (Hh : Z.of_nat (length ws) * 64 <= ALIGN8 (Z.of_nat (length ws) * 64) < Z.of_nat (length ws) * 64 + 8)
    by (apply ALIGN8_bounds; lia).
  set (hdr := ALIGN8 _) in *. destruct (sum_payload hdr ws) as [bytes ok] eqn:E.
  destruct ok; simpl; [|gave_up].
  destruct (copy_writes_spec ws hdr bytes bytes Hw) as (_ & cws & Ec & Ee); [lia|lia|done|lia|].
  destruct (finish_call_good st1 s h CS_PUSH_DESC lay f 1
    (fun c => mk_call (kind c) (layout c) (first c) (count c) (refs c) (sets c) (dyn c)
                cws fn (indices c) (offsets c))
    (CmdPushDescriptorSet fn VK_PIPELINE_BIND_POINT_COMPUTE lay f ws) G1 Hs Hf) as (st' & E' & N1 & N2);
    [lia|split_and!; try done; simpl; by rewrite Ee|].
  destruct (new_call alloc_ok (nalloc st1) s CS_PUSH_DESC lay f 1) as [[[c|] n'] s'].
  - rewrite Ec. simpl mbind. exists st'. split; [done|]. split; [done|by rewrite N2].
  - simpl in E'. injection E' as <-. eexists. split; [done|]. split; [done|by rewrite <- Hd].
Qed.

(** *** Push constants *)

Lemma has_compute_bit stages : has_compute stages = Z.testbit stages COMPUTE_STAGE.
Proof.
  unfold has_compute, has_any, VK_SHADER_STAGE_COMPUTE_BIT.
  destruct (Z.testbit stages COMPUTE_STAGE) eqn:E.
  - apply negb_true_iff, Z.eqb_neq. intros H.
    assert (Z.testbit (Z.land stages (2 ^ COMPUTE_STAGE)) COMPUTE_STAGE = true) as H'.
    { rewrite Z.land_spec, E. by rewrite Z.pow2_bits_true. }
    rewrite H in H'. by rewrite Z.bits_0 in H'.
  - apply negb_false_iff, Z.eqb_eq. apply Z.bits_inj'. intros i Hi. rewrite Z.land_spec, Z.bits_0.
    destruct (decide (i = COMPUTE_STAGE)) as [->|Hne]; [by rewrite E|].
    rewrite Z.pow2_bits_false by done. by rewrite andb_false_r.
Qed.

Lemma no_compute_covers u y : has_compute (p_stages u) = false -> update_covers (COMPUTE_STAGE, y) u = false.
Proof. rewrite has_compute_bit. intros H. unfold update_covers. cbn [fst]. by rewrite H. Qed.

Lemma pop_same_split lay st off size l l' :
  pop_same lay st off size l = Some l' ->
  exists l1 p l2, l = l1 ++ p :: l2 /\ l' = l1 ++ l2 /\ same_range lay st off size p = true.
Proof.
  revert l'. induction l as [|p l IH]; intros l'; simpl; [done|].
  destruct (same_range lay st off size p) eqn:E.
  - intros [= <-]. by exists [], p, l.
  - intros (l0 & H & ->)%fmap_Some. destruct (IH l0 H) as (l1 & q & l2 & -> & -> & Hq).
    by exists (p :: l1), q, l2.
Qed.

Lemma same_range_covers lay st off size data p x :
  same_range lay st off size p = true ->
  update_covers x p = update_covers x (mk_push lay st off size data).
Proof. unfold same_range. intros. bool_props. unfold update_covers. simpl. by repeat f_equal. Qed.

(** An update of the same stages and range hides the older one. *)
Lemma push_value_dedup lay st off size data l l' l0 x :
  pop_same lay st off size l = Some l' ->
  push_value (l0 ++ l' ++ [mk_push lay st off size data]) x =
  push_value (l0 ++ l ++ [mk_push lay st off size data]) x.
Proof.
  intros (l1 & p & l2 & -> & -> & Hp)%pop_same_split. unfold push_value.
  rewrite !(app_assoc l0), !last_with_snoc.
  destruct (update_covers x (mk_push lay st off size data)) eqn:E; [done|].
  rewrite !last_with_app, last_with_cons, (same_range_covers lay st off size data p x Hp), E.
  by destruct (last_with (update_covers x) l2).
Qed.

Lemma push_value_snoc l l' u x :
  push_value l x = push_value l' x -> push_value (l ++ [u]) x = push_value (l' ++ [u]) x.
Proof. unfold push_value. rewrite !last_with_snoc. by destruct (update_covers x u). Qed.

Definition add_push (h : history) (u : cs_push) : history := mk_hist (h_bound h) (h_sets h) (h_push h ++ [u]).

(** The shadow keeps an update: [l] is the new array. *)
Lemma push_ok_keep s h u l pc :
  push_ok s h -> push_compute s || has_compute (p_stages u) = pc ->
  push_compute s = true \/ has_compute (p_stages u) = true ->
  (forall h0 x, push_value (h0 ++ l) x = push_value (h0 ++ push s ++ [u]) x) ->
  push_ok (with_push s l pc) (add_push h u).
Proof.
  intros [(h0 & H0 & Hv) _] Hpc Hor Hl. split.
  - exists h0. split; [done|]. intros x. simpl. rewrite Hl, app_assoc. by apply push_value_snoc.
  - simpl. intros ->. apply orb_false_iff in Hpc. naive_solver congruence.
Qed.

(** Nothing to protect yet: the update is not recorded. *)
Lemma push_ok_skip s h u :
  push_ok s h -> push_compute s = false -> has_compute (p_stages u) = false -> push_ok s (add_push h u).
Proof.
  intros [_ Hn] Hpc Hu. destruct (Hn Hpc) as [Hnil Hno].
  assert (Hall : forall v, v ∈ h_push h ++ [u] -> has_compute (p_stages v) = false).
  { intros v [Hv| ->%list_elem_of_singleton]%elem_of_app; auto. }
  split; [|intros _; by split]. exists (h_push h ++ [u]). split; [done|].
  intros x. by rewrite Hnil, app_nil_r.
Qed.

Lemma good_skip st h u :
  good st h -> shadow_push_compute (e st) = false -> has_compute (p_stages u) = false ->
  good st (add_push h u).
Proof.
  unfold good, shadow_push_compute. destruct (cs (e st)) as [s|]; intros G Hpc Hu.
  - destruct G as [Hok Hsh]. split; [done|]. intros He Hl. destruct (Hsh He Hl) as (? & ? & ?).
    split_and!; try done. by apply push_ok_skip.
  - intros He. destruct (G He) as (? & ? & Hp). split_and!; try done. simpl.
    intros v [Hv| ->%list_elem_of_singleton]%elem_of_app; auto.
Qed.

Lemma good_keep st n s h u l pc :
  good st h -> cs (e st) = Some s -> (nalloc st <= n)%nat ->
  push_compute s || has_compute (p_stages u) = pc ->
  push_compute s = true \/ has_compute (p_stages u) = true ->
  Z.of_nat (length l) <= CS_MAX_PUSH -> Forall push_wf l ->
  (forall h0 x, push_value (h0 ++ l) x = push_value (h0 ++ push s ++ [u]) x) ->
  good (put_cs (mk_st n (errs st) (e st)) (with_push s l pc)) (add_push h u).
Proof.
  intros G Hs Hn Hpc Hor Hlen Hwf Hl. unfold good in *. rewrite Hs in G. simpl.
  destruct G as [(Hi & Hp & _) Hsh]. split.
  - split_and!; [|intros p Hq%Hp; lia|done|done]. by destruct Hi.
  - intros He Hlo. destruct (Hsh He Hlo) as (Hb & Hss & Hpo). split_and!; [done|done|].
    by apply push_ok_keep.
Qed.

Lemma with_push_shadow_ok n s pc : shadow_ok n s -> shadow_ok n (with_push s (push s) pc).
Proof. by apply same_rest_shadow. Qed.

Lemma record_push_good st h lay stages off data :
  good st h ->
  next st (record_push alloc_ok st lay stages off data)
    (add_push h (mk_push lay stages off (Z.of_nat (length data)) data)).
Proof.
  intros G. unfold record_push.
  destruct (negb (has_compute stages) && _) eqn:Esk.
  { bool_props. split; [by apply good_skip|done]. }
  assert (Hor : shadow_push_compute (e st) = true \/ has_compute stages = true).
  { apply andb_false_iff in Esk as [?%negb_false_iff|?%negb_false_iff]; [by right|by left]. }
  pose proof (cs_of_good st h G) as H.
  assert (Hpc : forall s st', cs_of alloc_ok st = (Some s, st') -> push_compute s = true \/ has_compute stages = true).
  { intros s st' E. unfold cs_of, shadow_push_compute in *. destruct (cs (e st)) as [s0|]; [|by right; destruct Hor].
    by injection E as <- _. }
  destruct (cs_of alloc_ok st) as [[s|] st1].
  2:{ destruct H as (? & ? & ?). split; [by apply good_reported|done]. }
  destruct H as (G1 & Hs & Hd & Hok). specialize (Hpc s st1 eq_refl).
  destruct (lay =? VK_NULL_HANDLE); [split; [by apply good_lost|done]|].
  destruct (pop_same _ _ _ _ _) as [l|] eqn:Epop.
  { split; [|done]. apply good_keep; try done.
    - destruct Hok as (_ & _ & Hlen & _). apply pop_same_split in Epop as (l1 & p & l2 & E & -> & _).
      rewrite E in Hlen. rewrite !length_app in *. simpl in *. lia.
    - destruct Hok as (_ & _ & _ & Hwf). apply pop_same_split in Epop as (l1 & p & l2 & E & -> & _).
      rewrite E in Hwf. apply Forall_app in Hwf as [? [_ ?]%Forall_cons].
      repeat apply Forall_app_2; [done|done|by apply Forall_singleton].
    - intros h0 x. by apply push_value_dedup. }
  destruct (Z.eqb_spec (Z.of_nat (length (push s))) CS_MAX_PUSH) as [Hfull|Hroom].
  { split; [|done]. apply good_lost, with_push_shadow_ok, Hok. }
  destruct (alloc_ok (nalloc st1)); (split; [|done]).
  - destruct Hok as (_ & _ & Hlen & Hwf). apply good_keep; (done || lia || idtac).
    + rewrite length_app. simpl. lia.
    + apply Forall_app_2; [done|by apply Forall_singleton].
  - apply good_lost, with_push_shadow_ok. eapply shadow_ok_mono; [|exact Hok]. simpl. lia.
Qed.

Lemma push2_good st h i :
  good st h ->
  next st (push2 alloc_ok st i) (add_push h (mk_push (pci_layout i) (pci_stageFlags i) (pci_offset i)
    (Z.of_nat (length (pci_values i))) (pci_values i))).
Proof.
  intros G. unfold push2. destruct (pci_pNext i); [|by apply record_push_good].
  destruct (_ || _) eqn:E; [by eapply cs_lose_good|]. bool_props.
  split; [by apply good_skip|done].
Qed.

(** *** The bound pipeline or shader *)

Definition set_bound (h : history) (b : vkcmd) : history := mk_hist [b] (h_sets h) (h_push h).

Lemma good_bound st s h k p x b :
  good st h -> cs (e st) = Some s -> bound_cmd (with_bound s k p x) = [b] ->
  good (put_cs st (with_bound s k p x)) (set_bound h b).
Proof.
  intros G Hs Hb. unfold good in *. rewrite Hs in G. simpl. destruct G as [Hok Hsh].
  split; [by eapply same_rest_shadow; [..|exact Hok]|].
  intros He Hl. destruct (Hsh He Hl) as (_ & ? & ?). split_and!; done.
Qed.

Lemma rec_BindPipeline_good st h bp p :
  good st h ->
  next st (rec_BindPipeline alloc_ok st bp p)
    (if bp =? VK_PIPELINE_BIND_POINT_COMPUTE then set_bound h (CmdBindPipeline bp p) else h).
Proof.
  intros G. unfold rec_BindPipeline. destruct (Z.eqb_spec bp VK_PIPELINE_BIND_POINT_COMPUTE) as [->|Hne]; [|done].
  simpl. pose proof (cs_of_good st h G) as H. destruct (cs_of alloc_ok st) as [[s|] st1].
  - destruct H as (G1 & Hs & Hd & Hok). split; [by eapply good_bound|done].
  - destruct H as (? & ? & ?). split; [by apply good_reported|done].
Qed.

Lemma compute_shader_cons i b stages sh :
  compute_shader i (b :: stages) sh =
  match compute_shader (S i) stages sh with
  | Some x => Some x
  | None => if b =? VK_SHADER_STAGE_COMPUTE_BIT then Some (shader_at i sh) else None
  end.
Proof.
  unfold compute_shader. cbn [length seq zip zip_with]. rewrite last_with_cons. cbn [snd].
  destruct (last_with _ _); [done|]. by destruct (b =? _).
Qed.

Definition shader_history (h : history) (o : option Z) : history :=
  match o with
  | Some x => set_bound h (CmdBindShadersEXT [VK_SHADER_STAGE_COMPUTE_BIT] (Some [x]))
  | None => h
  end.

Lemma rec_BindShaders_good st h i stages sh :
  good st h ->
  next st (rec_BindShaders alloc_ok st i stages sh) (shader_history h (compute_shader i stages sh)).
Proof.
  revert st h i. induction stages as [|b stages IH]; intros st h i G; [done|].
  rewrite compute_shader_cons. cbn [rec_BindShaders].
  destruct (b =? VK_SHADER_STAGE_COMPUTE_BIT) eqn:Eb.
  2:{ destruct (IH st h (S i) G) as [G' D']. split; [|done].
      by destruct (compute_shader (S i) stages sh). }
  pose proof (cs_of_good st h G) as H. destruct (cs_of alloc_ok st) as [[s|] st1].
  2:{ destruct H as (? & ? & ?). split; [by apply good_reported|done]. }
  destruct H as (G1 & Hs & Hd & Hok). fold (shader_at i sh).
  edestruct (IH (put_cs st1 (with_bound s CS_SHADER (pipeline s) (shader_at i sh)))
    (shader_history h (Some (shader_at i sh))) (S i)) as [G' D'].
  { by eapply good_bound. }
  split; [|by rewrite D']. by destruct (compute_shader (S i) stages sh).
Qed.

(** *** Every command *)

Lemma good_conditional st s h b :
  good st h -> cs (e st) = Some s -> good (put_cs st (with_conditional s b)) h.
Proof.
  intros G Hs. unfold good in *. rewrite Hs in G. simpl. destruct G as [Hok Hsh].
  split; [by eapply same_rest_shadow; [..|exact Hok]|]. intros He Hl. by apply Hsh.
Qed.

Lemma hist_id h : mk_hist (h_bound h) (h_sets h) (h_push h) = h.
Proof. by destruct h. Qed.

Lemma next_some st st' h : next st st' h -> exists st1, Some st' = Some st1 /\ next st st1 h.
Proof. by exists st'. Qed.

(** The recording half of every intercept is defined (no cell is used after
    it was freed, no array is overrun) and follows the history. *)
Lemma record_good st h c :
  good st h -> cmd_ok c ->
  exists st', record alloc_ok has_push has_push_khr st c = Some st' /\
    next st st' (hist_step has_push (dev (e st)) h c).
Proof.
  intros G Hc. unfold hist_step.
  assert (Hlose : forall why h', exists st', Some (cs_lose alloc_ok st why) = Some st' /\ next st st' h')
    by (intros why h'; eapply next_some, cs_lose_good; eauto).
  assert (Hskip : exists st', Some st = Some st' /\ next st st' h) by (by exists st).
  destruct c as [bp p|stages sh|bp lay f ss ds|khr i|lay stages off data|khr i|fn bp lay set ws|khr i
    |khr t lay set data|khr i|bp lay f idx off|i|bp lay f|i|i| |i|i|i];
    cbn [bound_binding set_binding push_update add_opt record cmd_ok] in *;
    unfold only_compute, bind_sets2, push_desc2, db_offsets2, db_samplers2, template_lost, heap_lost;
    try (apply Hlose).
  - apply next_some. pose proof (rec_BindPipeline_good st h bp p G) as N.
    destruct (bp =? VK_PIPELINE_BIND_POINT_COMPUTE); [done|by rewrite hist_id].
  - apply next_some. pose proof (rec_BindShaders_good st h 0 stages sh G) as N.
    destruct (compute_shader 0 stages sh); [done|]. cbn. by rewrite hist_id.
  - destruct (Z.eqb_spec bp VK_PIPELINE_BIND_POINT_COMPUTE) as [->|?]; [by apply record_bind_good|by rewrite hist_id].
  - destruct (has_compute _); simpl; [|by rewrite hist_id].
    destruct (bsi_pNext i); [apply Hlose|by apply record_bind_good].
  - by apply next_some, record_push_good.
  - by apply next_some, push2_good.
  - destruct (Z.eqb_spec bp VK_PIPELINE_BIND_POINT_COMPUTE) as [->|?]; [|by rewrite hist_id].
    destruct Hc. apply record_push_desc_good; auto.
  - destruct (has_compute _); simpl; [|by rewrite hist_id].
    destruct (pdi_pNext i); [apply Hlose|]. destruct Hc.
    apply record_push_desc_good; try done.
    destruct (has_push (dev (e st))), (has_push_khr (dev (e st))); auto.
  - destruct (Z.eqb_spec bp VK_PIPELINE_BIND_POINT_COMPUTE) as [->|?]; [by apply record_db_offsets_good|by rewrite hist_id].
  - destruct (has_compute _); simpl; [|by rewrite hist_id].
    destruct (doi_pNext i); [apply Hlose|by apply record_db_offsets_good].
  - destruct (Z.eqb_spec bp VK_PIPELINE_BIND_POINT_COMPUTE) as [->|?]; [by apply record_db_samplers_good|by rewrite hist_id].
  - destruct (has_compute _); simpl; [|by rewrite hist_id].
    destruct (esi_pNext i); [apply Hlose|by apply record_db_samplers_good].
  - rewrite hist_id. apply next_some. unfold begin_conditional.
    pose proof (cs_of_good st h G) as H. destruct (cs_of alloc_ok st) as [[s|] st1].
    + destruct H as (G1 & Hs & Hd & Hok). split; [by apply good_conditional|done].
    + destruct H as (? & ? & ?). split; [by apply good_reported|done].
  - rewrite hist_id. apply next_some. unfold end_conditional.
    destruct (cs (e st)) as [s|] eqn:E; [|done]. split; [by apply good_conditional|done].
Qed.

(** ** One command buffer's recording *)

Inductive event :=
  | Record (c : vkcmd)
  | Begin.

Definition event_ok (ev : event) : Prop := match ev with Record c => cmd_ok c | Begin => True end.

(** The part of [cs_BeginCommandBuffer] that concerns the shadow. *)
Definition begin_entry (st : cmd_st) : option cmd_st :=
  match cs (e st) with
  | Some s => s ← cs_reset s; Some (put_cs st s)
  | None => Some st
  end.

Definition step (st : cmd_st) (ev : event) : option cmd_st :=
  match ev with
  | Record c => record alloc_ok has_push has_push_khr st c
  | Begin => begin_entry st
  end.

Fixpoint run (st : cmd_st) (evs : list event) : option cmd_st :=
  match evs with
  | [] => Some st
  | ev :: evs => st ← step st ev; run st evs
  end.

(** What the application has recorded at the end. *)
Definition app_step (d : Z) (h : history) (ev : event) : history :=
  match ev with Record c => hist_step has_push d h c | Begin => no_history end.
Definition app_history (d : Z) (evs : list event) : history := foldl (app_step d) no_history evs.

(** A tracking entry as [nvhal_cmd_track] makes it. *)
Definition fresh_entry (n : nat) (d pool family : Z) : cmd_st := mk_st n [] (mk_cmd d pool family None).

Lemma untouched_none : untouched no_history.
Proof. split_and!; [done|done|set_solver]. Qed.

Lemma begin_good st h : good st h -> exists st', begin_entry st = Some st' /\ next st st' no_history.
Proof.
  intros G. unfold begin_entry. unfold good in G. destruct (cs (e st)) as [s|] eqn:E.
  - destruct G as [Hok _]. rewrite cs_reset_spec by apply Hok. simpl. eexists. split; [done|].
    split; [|done]. unfold good. simpl. split; [apply zero_shadow_ok|]. intros _ _.
    apply untouched_zero, untouched_none.
  - exists st. split; [done|]. split; [|done]. unfold good. rewrite E. intros _. apply untouched_none.
Qed.

Lemma run_good evs st h :
  good st h -> Forall event_ok evs ->
  exists st', run st evs = Some st' /\ good st' (foldl (app_step (dev (e st))) h evs).
Proof.
  revert st h. induction evs as [|ev evs IH]; intros st h G Hok; simpl; [by exists st|].
  apply Forall_cons in Hok as [Hev Hok].
  assert (exists st', step st ev = Some st' /\ next st st' (app_step (dev (e st)) h ev)) as (st1 & -> & G1 & D1).
  { destruct ev as [c|]; [by apply record_good|by eapply begin_good]. }
  simpl. destruct (IH st1 _ G1 Hok) as (st' & E & G'). rewrite D1 in G'. by exists st'.
Qed.

Lemma fresh_good n d pool family : good (fresh_entry n d pool family) no_history.
Proof. intros _. apply untouched_none. Qed.

(** *** What the restore puts back *)

Definition is_bound (c : vkcmd) : bool :=
  match c with CmdBindPipeline _ _ | CmdBindShadersEXT _ _ => true | _ => false end.

(** A push-descriptor call replaces the descriptors it writes and leaves the
    others of its set; any other call replaces the whole set.  [supersedes c
    b]: push [c] writes every descriptor push [b] wrote (for an inline block
    the range is in bytes). *)
Definition pushed (c : vkcmd) : list VkWriteDescriptorSet :=
  match c with CmdPushDescriptorSet _ _ _ _ ws => ws | _ => [] end.
Definition is_push_desc (c : vkcmd) : bool :=
  match c with CmdPushDescriptorSet _ _ _ _ _ => true | _ => false end.
Definition write_within (w w' : VkWriteDescriptorSet) : bool :=
  (w_dstBinding w =? w_dstBinding w') && (w_dstArrayElement w' <=? w_dstArrayElement w) &&
  (w_dstArrayElement w + w_descriptorCount w <=? w_dstArrayElement w' + w_descriptorCount w').
Definition supersedes (c b : vkcmd) : bool :=
  forallb (fun w => existsb (write_within w) (pushed c)) (pushed b).

(** The calls that make up the contents of set index [k], oldest first. *)
Definition effect_step (k : nat) (l : list vkcmd) (c : vkcmd) : list vkcmd :=
  if cmd_covers k c
  then (if is_push_desc c then base.filter (fun b => is_push_desc b && negb (supersedes c b) = true) l else []) ++ [c]
  else l.
Definition in_effect (k : nat) (l : list vkcmd) : list vkcmd := foldl (effect_step k) [] l.

(** The commands [out] re-establish the compute state the history left: the
    binding, the contents of every set index that one call makes up, and of
    a set several pushes make up what the last of them wrote; for every
    compute push-constant byte its value; no other stage's bytes change. *)
Definition restores (out : list vkcmd) (h : history) : Prop :=
  last_with is_bound out = last (h_bound h) /\
  (forall k, canon <$> in_effect k out = canon <$> option_list (last (in_effect k (h_sets h)))) /\
  (forall y, push_value (omap push_update out) (COMPUTE_STAGE, y) = push_value (h_push h) (COMPUTE_STAGE, y)) /\
  (forall x, last_with (update_covers x) (omap push_update out) = None \/
     push_value (omap push_update out) x = push_value (h_push h) x).

Lemma in_effect_last k l : last (in_effect k l) = last_with (cmd_covers k) l.
Proof.
  unfold in_effect. induction l as [|c l IH] using rev_ind; [done|].
  rewrite foldl_app, last_with_snoc. simpl. unfold effect_step at 1.
  destruct (cmd_covers k c); [by rewrite last_snoc|done].
Qed.

(** Where at most one push binds [k] nothing accumulates. *)
Lemma in_effect_single k l :
  (countb (fun c => is_push_desc c && cmd_covers k c) l <= 1)%nat ->
  in_effect k l = option_list (last_with (cmd_covers k) l).
Proof.
  induction l as [|c l IH] using rev_ind; [done|]. intros Hc.
  rewrite countb_app in Hc. simpl in Hc.
  rewrite last_with_snoc. unfold in_effect in *. rewrite foldl_app. simpl. rewrite IH by lia. clear IH.
  unfold effect_step. destruct (cmd_covers k c) eqn:Ec; [|done]. destruct (is_push_desc c) eqn:Ep; [|done].
  cbn in Hc. destruct (last_with (cmd_covers k) l) as [b|] eqn:El; [|done].
  apply last_with_Some in El as [Hb Hcb]. simpl. rewrite filter_cons.
  destruct (decide _) as [Hd|_]; [|done]. apply andb_true_iff in Hd as [Hd _].
  pose proof (countb_pos (fun c => is_push_desc c && cmd_covers k c) l b Hb) as Hp.
  cbv beta in Hp. rewrite Hd, Hcb in Hp. specialize (Hp eq_refl). lia.
Qed.

Lemma from_compute_split l :
  exists l1, l = l1 ++ from_compute l /\ forall u, u ∈ l1 -> has_compute (p_stages u) = false.
Proof.
  induction l as [|u l IH].
  { exists []. split; [done|set_solver]. }
  simpl. destruct (has_compute (p_stages u)) eqn:E.
  - exists []. split; [done|set_solver].
  - destruct IH as (l1 & Hl & H1). exists (u :: l1). split; [simpl; by rewrite <- Hl|].
    intros v [->|Hv]%elem_of_cons; auto.
Qed.

Lemma mapM_cells s :
  inv s -> exists cells, mapM (fun c => mem s !! c) (calls s) = Some cells /\
    Forall2 (fun p c => mem s !! p = Some c) (calls s) cells.
Proof.
  intros W. destruct (mapM (fun c => mem s !! c) (calls s)) as [cells|] eqn:E.
  - exists cells. split; [done|]. by apply mapM_Some_1.
  - exfalso. apply mapM_None_1 in E. apply list.Exists_exists in E as (p & Hp & Hn).
    assert (is_Some (mem s !! p)) as [? ?] by (apply W; by left). congruence.
Qed.

(** The last replayed call that binds [k] is the call of [k]'s owner. *)
Lemma last_cells s cells k :
  inv s -> Forall2 (fun p c => mem s !! p = Some c) (calls s) cells ->
  last_with (cmd_covers k) (call_cmd <$> cells) = slot s k.
Proof.
  clear alloc_ok has_push has_push_khr. intros W F. rewrite last_with_fmap.
  assert (E : last_with (fun c => cmd_covers k (call_cmd c)) cells =
              last_with (cell_covers (mem s) k) (calls s) ≫= fun p => mem s !! p).
  { assert (Hwf : forall p c, mem s !! p = Some c -> cmd_covers k (call_cmd c) = cell_covers (mem s) k p).
    { intros p c Hc. unfold cell_covers. rewrite Hc. by apply (wi_wf _ _ _ W p c Hc). }
    clear W. induction F as [|p c l cells Hc F IH]; [done|].
    rewrite !last_with_cons, (Hwf p c Hc), IH.
    destruct (last_with (cell_covers (mem s) k) l) as [q|] eqn:Eq; simpl.
    - destruct (mem s !! q) eqn:E; [done|]. apply last_with_Some in Eq as [_ Eq].
      unfold cell_covers in Eq. by rewrite E in Eq.
    - by destruct (cell_covers (mem s) k p). }
  rewrite E. unfold slot.
  destruct (decide (k < Z.to_nat CS_MAX_SETS)%nat) as [Hk|Hk].
  - rewrite (wi_todo _ _ _ W k Hk) by tauto. simpl. unfold last_cover.
    by destruct (last_with (cell_covers (mem s) k) (calls s)).
  - rewrite (lookup_ge_None_2 (owner s)) by (rewrite (wi_len _ _ _ W); lia). simpl.
    assert (last_with (cell_covers (mem s) k) (calls s) = None) as ->; [|done].
    apply last_with_None. intros p Hp. unfold cell_covers. destruct (mem s !! p) as [c|] eqn:Ec; [|done].
    apply (wi_wf _ _ _ W) in Ec as [_ Hfit]. unfold covers. apply andb_false_iff. right.
    apply Z.ltb_ge. lia.
Qed.

(** A live push binds one index and still owns it, so no two bind the same. *)
Lemma push_owner s p c k :
  inv s -> mem s !! p = Some c -> is_push_desc (call_cmd c) = true -> cmd_covers k (call_cmd c) = true ->
  owner s !! k = Some (Some p).
Proof.
  clear alloc_ok has_push has_push_khr. intros W Hc Hp Hk.
  assert (Hin : p ∈ calls s) by (destruct (proj1 (wi_dom _ _ _ W p)); [by eexists|done|set_solver]).
  destruct (wi_refs _ _ _ W p c Hin Hc) as [_ H1].
  destruct (proj1 (list_elem_of_omap _ _ _) (owns_In _ _ H1)) as (o & Ho' & Hid). cbn in Hid. subst o.
  apply list_elem_of_lookup in Ho' as (j & Hj).
  assert (Hl : (j < Z.to_nat CS_MAX_SETS)%nat) by (rewrite <- (wi_len _ _ _ W); by eapply lookup_lt_Some).
  pose proof (wi_todo _ _ _ W j Hl ltac:(tauto)) as Ho. rewrite Hj in Ho. injection Ho as Ho. symmetry in Ho.
  apply last_with_Some in Ho as [_ Ho]. unfold cell_covers in Ho. rewrite Hc in Ho.
  rewrite <- (proj1 (wi_wf _ _ _ W p c Hc) j) in Ho.
  destruct (call_cmd c); try done. cbn in Hk, Ho. assert (j = k) as -> by lia. done.
Qed.

Lemma one_push s cells k :
  inv s -> Forall2 (fun p c => mem s !! p = Some c) (calls s) cells ->
  (countb (fun c => is_push_desc c && cmd_covers k c) (call_cmd <$> cells) <= 1)%nat.
Proof.
  intros W F. rewrite countb_fmap.
  set (g := fun p => match mem s !! p with Some c => is_push_desc (call_cmd c) && cmd_covers k (call_cmd c) | None => false end).
  assert (E : countb (fun c => is_push_desc (call_cmd c) && cmd_covers k (call_cmd c)) cells = countb g (calls s)).
  { clear W. induction F as [|p c l cells Hc F IH]; [done|]. simpl. rewrite IH. unfold g at 2. by rewrite Hc. }
  assert (G : forall p, g p = true -> owner s !! k = Some (Some p)).
  { intros p Hg. unfold g in Hg. case_match eqn:Ec; [|done]. apply andb_true_iff in Hg as [Hg1 Hg2]. by eapply push_owner. }
  assert (Q : exists q, forall p, g p = true -> p = q).
  { destruct (owner s !! k) as [[q|]|]; [exists q|exists 0%nat|exists 0%nat]; intros p Hg; specialize (G p Hg); congruence. }
  destruct Q as [q Q]. rewrite E. apply (countb_unique g q); [apply W|auto].
Qed.

Lemma push_updates_replay s cells :
  Forall push_wf (push s) ->
  omap push_update (bound_cmd s ++ (call_cmd <$> cells) ++ (push_cmd <$> from_compute (push s))) =
  from_compute (push s).
Proof.
  intros Hwf. rewrite !omap_app.
  assert (omap push_update (bound_cmd s) = []) as -> by (unfold bound_cmd; by destruct (bound s)).
  assert (omap push_update (call_cmd <$> cells) = []) as ->.
  { induction cells as [|c cells IH]; [done|]. rewrite fmap_cons. cbn.
    unfold call_cmd at 1. by destruct (kind c). }
  simpl. destruct (from_compute_split (push s)) as (l1 & E & _). rewrite E in Hwf.
  apply Forall_app in Hwf as [_ Hwf]. clear E. induction Hwf as [|u l Hu Hwf IH]; [done|].
  trans (mk_push (p_layout u) (p_stages u) (p_offset u) (Z.of_nat (length (p_data u))) (p_data u)
          :: omap push_update (push_cmd <$> l)); [done|].
  unfold push_wf in Hu. rewrite IH, <- Hu. by destruct u.
Qed.

Lemma last_none {A} (f : A -> bool) l : (forall x, x ∈ l -> f x = false) -> last_with f l = None.
Proof. apply last_with_None. Qed.

(** Which part of the replay answers which question. *)
Lemma replay_parts s cells k :
  let out := bound_cmd s ++ (call_cmd <$> cells) ++ (push_cmd <$> from_compute (push s)) in
  last_with is_bound out = last (bound_cmd s) /\
  last_with (cmd_covers k) out = last_with (cmd_covers k) (call_cmd <$> cells).
Proof.
  simpl. rewrite !last_with_app, !last_with_fmap.
  rewrite (last_none (fun x => is_bound (push_cmd x))) by done.
  rewrite (last_none (fun x => is_bound (call_cmd x)))
    by (intros c _; unfold call_cmd; by destruct (kind c)).
  rewrite (last_none (fun x => cmd_covers k (push_cmd x))) by done.
  split; [unfold bound_cmd; by destruct (bound s)|]. simpl.
  destruct (call_cmd <$> last_with _ cells); [done|]. unfold bound_cmd. by destruct (bound s).
Qed.

Lemma replay_pushes s cells (f : vkcmd -> bool) :
  (forall c, f c = true -> is_push_desc c = true) ->
  countb f (bound_cmd s ++ (call_cmd <$> cells) ++ (push_cmd <$> from_compute (push s))) = countb f (call_cmd <$> cells).
Proof.
  intros H. rewrite !countb_app, (countb_none f (push_cmd <$> _)), (countb_none f (bound_cmd s)); [lia| |].
  - intros c Hc. destruct (f c) eqn:E; [|done]. apply H in E. unfold bound_cmd in Hc.
    destruct (bound s); [by apply elem_of_nil in Hc| |]; apply list_elem_of_singleton in Hc; by subst c.
  - intros c (u & -> & _)%list_elem_of_fmap. destruct (f (push_cmd u)) eqn:E; [by apply H in E|done].
Qed.

Lemma push_replay_exact s h :
  push_ok s h ->
  (forall y, push_value (from_compute (push s)) (COMPUTE_STAGE, y) = push_value (h_push h) (COMPUTE_STAGE, y)) /\
  (forall x, last_with (update_covers x) (from_compute (push s)) = None \/
     push_value (from_compute (push s)) x = push_value (h_push h) x).
Proof.
  intros [(h0 & H0 & Hv) _]. destruct (from_compute_split (push s)) as (l1 & E & H1).
  assert (Hsome : forall x u, last_with (update_covers x) (from_compute (push s)) = Some u ->
    push_value (from_compute (push s)) x = push_value (h_push h) x).
  { intros x u Hu. rewrite <- Hv, E, app_assoc. unfold push_value.
    rewrite last_with_app. rewrite <- E. by rewrite Hu. }
  split.
  - intros y. destruct (last_with (update_covers (COMPUTE_STAGE, y)) (from_compute (push s))) as [u|] eqn:Eu.
    { by eapply Hsome. }
    rewrite <- Hv, E, app_assoc. unfold push_value. rewrite last_with_app, <- E, Eu.
    rewrite last_none; [done|]. intros u [Hu|Hu]%elem_of_app; by apply no_compute_covers; auto.
  - intros x. destruct (last_with (update_covers x) (from_compute (push s))) as [u|] eqn:Eu; [right|by left].
    by eapply Hsome.
Qed.

Lemma restore_good st h :
  good st h ->
  exists out st', nvhal_cs_restore st = Some (out, st') /\ (errs st' = [] -> restores out h).
Proof.
  intros G. unfold nvhal_cs_restore. unfold good in G. destruct (cs (e st)) as [s|].
  2:{ exists [], st. split; [done|]. intros He. destruct (G He) as (Hb & Hs & Hp).
      unfold restores. rewrite Hb, Hs. split_and!; [done|by intros k| |by left]. intros y. unfold push_value.
      rewrite (last_none _ (h_push h)); [done|]. intros u Hu. by apply no_compute_covers, Hp. }
  destruct G as [(Hi & _ & _ & Hwf) Hsh]. unfold replay.
  destruct (mapM_cells s Hi) as (cells & -> & F). simpl.
  eexists _, _. split; [done|]. intros He.
  destruct (lost s) as [why|] eqn:El.
  { simpl in He. apply (f_equal length) in He. rewrite length_app in He. simpl in He. lia. }
  destruct (Hsh He eq_refl) as (Hb & Hss & Hpo).
  unfold restores. rewrite push_updates_replay by done. rewrite <- Hb.
  destruct (push_replay_exact s h Hpo) as [Hc Ho].
  split_and!; [apply (replay_parts s cells 0)| |done|done].
  intros k. destruct (replay_parts s cells k) as [_ L]. rewrite in_effect_last, in_effect_single
    by (rewrite replay_pushes; [by apply (one_push s)|by intros c [? _]%andb_true_iff]).
  rewrite L, (last_cells s) by done. specialize (Hss k).
  destruct (slot s k), (last_with _ (h_sets h)); simplify_eq/=; congruence.
Qed.

End Simulation.

(** ** Claims *)

Definition all_ok (_ : nat) : bool := true.
Definition dev_all (_ : Z) : bool := true.

(** A write of one storage image, for the examples. *)
Definition image_write (binding view : Z) : VkWriteDescriptorSet :=
  mk_write None binding 0 1 VK_DESCRIPTOR_TYPE_STORAGE_IMAGE [(0, view, 1)] [] [].

Lemma image_write_ok b v : writes_ok [image_write b v].
Proof.
  split; [apply Forall_singleton; split; [vm_compute; split; congruence|done]|].
  vm_compute. done.
Qed.

(** C1: for every sequence of commands an application records (and whatever
    host allocations fail), the shadow is memory safe (no freed call is
    touched, [calls] and [push] stay within 32 entries), and either the
    restore logs an error or the commands it re-records put back: the last
    compute pipeline or shader; for every set index the last call still in
    effect, which is the whole contents of the set unless several
    push-descriptor calls make it up (a later one having left descriptors of
    an earlier one in place: then the earlier ones are not restored, see
    [push_desc_incremental_dropped]); every compute push-constant byte as the
    whole history left it, and no byte of another stage set to anything
    else. *)
Theorem cs_restore_exact (alloc_ok : nat -> bool) (has_push has_push_khr : Z -> bool)
  (evs : list event) (n : nat) (d pool family : Z) :
  Forall event_ok evs ->
  exists st out st', run alloc_ok has_push has_push_khr (fresh_entry n d pool family) evs = Some st /\
    nvhal_cs_restore st = Some (out, st') /\
    (errs st' = [] -> restores out (app_history has_push d evs)).
Proof.
  intros Hok. destruct (run_good alloc_ok has_push has_push_khr evs _ _ (fresh_good n d pool family) Hok)
    as (st & E & G).
  destruct (restore_good st _ G) as (out & st' & E' & H). by exists st, out, st'.
Qed.

Lemma cs_restore_exact_witness :
  exists st out st', run all_ok dev_all dev_all (fresh_entry 0 1 2 0)
      [Record (CmdBindPipeline 1 77); Record (CmdBindDescriptorSets 1 5 0 [10; 11; 12] []);
       Record (CmdBindDescriptorSets 1 5 1 [21] [64]); Record (CmdPushConstants 5 32 0 [1; 2; 3; 4]);
       Record (CmdPushDescriptorSet PushCore 1 5 3 [image_write 0 99])] = Some st /\
    nvhal_cs_restore st = Some (out, st') /\ errs st' = [] /\
    last_with (cmd_covers 1) out = Some (CmdBindDescriptorSets 1 5 1 [21] [64]).
Proof.
  set (evs := [Record (CmdBindPipeline 1 77); _; _; _; _]).
  destruct (cs_restore_exact all_ok dev_all dev_all evs 0 1 2 0) as (st & out & st' & E & E' & H).
  - unfold evs. repeat first [apply Forall_nil_2 | apply Forall_cons_2];
      cbn [event_ok cmd_ok]; first [exact I | lia | split; [lia|apply image_write_ok]].
  - exists st, out, st'. vm_compute in E. injection E as <-. vm_compute in E'. injection E' as <- <-.
    split; [vm_compute; reflexivity|]. split; [reflexivity|]. split; [reflexivity|]. vm_compute. reflexivity.
Defined.

Lemma calls_bound s : inv s -> Z.of_nat (length (calls s)) <= CS_MAX_CALLS.
Proof.
  intros W. assert (length (calls s) <= length (owner s))%nat as H.
  { apply owners_bound; [apply W|]. intros p Hp.
    destruct (proj2 (wi_dom _ _ _ W p)) as [c Hc]; [by left|]. by apply (wi_refs _ _ _ W p c). }
  rewrite (wi_len _ _ _ W) in H. unfold CS_MAX_CALLS, CS_MAX_SETS in *. lia.
Qed.

(** C2: the reference counts are exact and nothing leaks: in every reachable
    shadow the live calls are distinct, at most 32, and each one's [refs] is
    the number of set indices it owns, which is never zero; freeing the
    command buffer frees every cell exactly once. *)
Theorem cs_refs_exact (alloc_ok : nat -> bool) (has_push has_push_khr : Z -> bool)
  (evs : list event) (n : nat) (d pool family : Z) :
  Forall event_ok evs ->
  exists st, run alloc_ok has_push has_push_khr (fresh_entry n d pool family) evs = Some st /\
    nvhal_cs_free (cs (e st)) = Some ∅ /\
    forall s, cs (e st) = Some s ->
      NoDup (calls s) /\ Z.of_nat (length (calls s)) <= CS_MAX_CALLS /\
      Z.of_nat (length (push s)) <= CS_MAX_PUSH /\
      forall p c, mem s !! p = Some c ->
        p ∈ calls s /\ 1 <= refs c /\ refs c = Z.of_nat (countb (fun o => bool_decide (o = Some p)) (owner s)).
Proof.
  intros Hok. destruct (run_good alloc_ok has_push has_push_khr evs _ _ (fresh_good n d pool family) Hok)
    as (st & E & G).
  exists st. split; [done|]. unfold good in G. destruct (cs (e st)) as [s|]; [|done].
  destruct G as [(Hi & _ & Hl & _) _]. simpl. rewrite cs_reset_spec by done. split; [done|].
  intros s' [= <-]. split_and!; [apply Hi|by apply calls_bound|done|]. intros p c Hc.
  assert (Hp : p ∈ calls s) by (destruct (proj1 (wi_dom _ _ _ Hi p)); [by eexists|done|set_solver]).
  destruct (wi_refs _ _ _ Hi p c Hp Hc) as [Hr H1]. unfold owns in *. split_and!; [done|lia|done].
Qed.

Lemma cs_refs_exact_witness :
  exists st, run all_ok dev_all dev_all (fresh_entry 0 1 2 0)
      [Record (CmdBindDescriptorSets 1 5 0 [10; 11; 12] []); Record (CmdBindDescriptorSets 1 5 1 [21] [])] = Some st /\
    nvhal_cs_free (cs (e st)) = Some ∅.
Proof.
  destruct (cs_refs_exact all_ok dev_all dev_all
    [Record (CmdBindDescriptorSets 1 5 0 [10; 11; 12] []); Record (CmdBindDescriptorSets 1 5 1 [21] [])] 0 1 2 0)
    as (st & E & F & _).
  - repeat first [apply Forall_nil_2 | apply Forall_cons_2]; cbn; lia.
  - exists st. by split.
Defined.

(** ** Several command buffers: what reaches the driver *)

Section Forward.
Context (alloc_ok : nat -> bool) (has_push has_push_khr : Z -> bool).

(** Allocations and error messages only accumulate. *)
Definition mono (st st' : cmd_st) : Prop := (nalloc st <= nalloc st')%nat /\ errs st `prefix_of` errs st'.

#[local] Instance mono_preorder : PreOrder mono.
Proof.
  split; [by split|]. intros x y z [? ?] [? ?]. split; [lia|]. by etrans.
Qed.

Lemma cs_of_mono st : mono st (cs_of alloc_ok st).2.
Proof. unfold cs_of. repeat case_match; (split; simpl; [lia|]); first [reflexivity | by eexists]. Qed.

Lemma put_cs_mono st st' s : mono st st' -> mono st (put_cs st' s).
Proof. done. Qed.

Lemma cs_lose_mono st why : mono st (cs_lose alloc_ok st why).
Proof.
  unfold cs_lose. pose proof (cs_of_mono st). destruct (cs_of alloc_ok st) as [[s|] st1]; done.
Qed.

Lemma finish_call_mono st o n s fill st' :
  finish_call st (o, n, s) fill = Some st' -> (nalloc st <= n)%nat -> mono st st'.
Proof.
  unfold finish_call. destruct o as [c|]; [|by intros [= <-] Hn; split].
  intros (cc & _ & (s1 & _ & [= <-])%bind_Some)%bind_Some Hn. by split.
Qed.

Lemma new_call_nalloc n s kd lay f c : (n <= (new_call alloc_ok n s kd lay f c).1.2)%nat.
Proof. unfold new_call. repeat case_match; simpl; lia. Qed.

Lemma finish_new_mono st s kd lay f c fill st' :
  finish_call st (new_call alloc_ok (nalloc st) s kd lay f c) fill = Some st' -> mono st st'.
Proof.
  pose proof (new_call_nalloc (nalloc st) s kd lay f c) as H.
  destruct (new_call _ _ _ _ _ _ _) as [[o n] s']. intros E. by apply finish_call_mono in E.
Qed.

Lemma record_push_mono st lay stages off data : mono st (record_push alloc_ok st lay stages off data).
Proof.
  unfold record_push. destruct (_ && _); [done|].
  pose proof (cs_of_mono st) as H. destruct (cs_of alloc_ok st) as [[s|] st1]; [|done]. simpl in H.
  repeat case_match; try done; (etrans; [exact H|]; split; simpl; [lia|done]).
Qed.

Lemma rec_BindShaders_mono st i stages sh : mono st (rec_BindShaders alloc_ok st i stages sh).
Proof.
  revert st i. induction stages as [|b stages IH]; intros st i; [done|]. cbn [rec_BindShaders].
  destruct (b =? _); [|apply IH]. pose proof (cs_of_mono st) as H.
  destruct (cs_of alloc_ok st) as [[s|] st1]; [|done]. etrans; [exact H|]. etrans; [|apply IH]. done.
Qed.

Lemma record_push_desc_mono st fn lay f ws st' :
  record_push_desc alloc_ok st fn lay f ws = Some st' -> mono st st'.
Proof.
  unfold record_push_desc. pose proof (cs_of_mono st) as H.
  destruct (cs_of alloc_ok st) as [[s|] st1]; [|by intros [= <-]].
  destruct fn as [fn|]; [|intros [= <-]; done].
  destruct (lay =? _); [intros [= <-]; done|].
  destruct (sum_payload _ _) as [bytes ok]. destruct ok; [cbn [negb]|intros [= <-]; done].
  pose proof (new_call_nalloc (nalloc st1) s CS_PUSH_DESC lay f 1) as H'.
  destruct (new_call _ _ _ _ _ _ _) as [[[c|] n] s'']; (etrans; [exact H|]).
  - apply bind_Some in H0 as ([cws p] & _ & E). by eapply finish_call_mono.
  - injection H0 as <-. done.
Qed.

Lemma record_sets_mono st st' :
  (exists lay f ss ds, record_bind alloc_ok st lay f ss ds = Some st') \/
  (exists lay f idx off, record_db_offsets alloc_ok st lay f idx off = Some st') \/
  (exists lay f, record_db_samplers alloc_ok st lay f = Some st') -> mono st st'.
Proof.
  pose proof (cs_of_mono st) as H. unfold record_bind, record_db_offsets, record_db_samplers.
  destruct (cs_of alloc_ok st) as [[s|] st1]; simpl in H; [|naive_solver].
  intros [(lay & f & ss & ds & E)|[(lay & f & idx & off & E)|(lay & f & E)]];
    (destruct (lay =? _); [by injection E as <-|]; apply finish_new_mono in E; by etrans).
Qed.

Lemma record_mono st c st' :
  record alloc_ok has_push has_push_khr st c = Some st' -> mono st st'.
Proof.
  pose proof (cs_lose_mono st) as Hl. pose proof (cs_of_mono st) as Hof.
  destruct c; cbn [record];
    unfold only_compute, bind_sets2, push2, push_desc2, db_offsets2, db_samplers2, template_lost, heap_lost,
      rec_BindPipeline, begin_conditional, end_conditional;
    intros E; repeat case_match; simplify_eq/=; try done; try apply Hl;
    eauto using record_push_mono, rec_BindShaders_mono, record_push_desc_mono;
    apply record_sets_mono; eauto 10.
Qed.

(** Every tracked entry follows some history. *)
Definition world_ok (w : world) : Prop :=
  forall cb en, w_cmds w !! cb = Some en -> exists h, good (mk_st (w_nalloc w) (w_errs w) en) h.

Fixpoint intercept_all (w : world) (l : list (Z * vkcmd)) : option world :=
  match l with
  | [] => Some w
  | (cb, c) :: l => w ← intercept alloc_ok has_push has_push_khr w cb c; intercept_all w l
  end.

Lemma good_later st st' en h :
  good (mk_st (nalloc st) (errs st) en) h -> mono st st' -> good (mk_st (nalloc st') (errs st') en) h.
Proof.
  intros G [Hn He]. unfold good in *. simpl in *.
  assert (Hnil : errs st' = [] -> errs st = []).
  { intros E. rewrite E in He. by apply prefix_nil_inv in He. }
  destruct (cs en) as [s|]; [|by intros; apply G, Hnil].
  destruct G as [Hok Hsh]. split; [by eapply shadow_ok_mono|]. auto.
Qed.

Lemma intercept_ok w cb c :
  world_ok w -> cmd_ok c ->
  exists w', intercept alloc_ok has_push has_push_khr w cb c = Some w' /\ world_ok w' /\
    dom (w_cmds w') = dom (w_cmds w) /\
    sent w' = sent w ++ (if decide (cb ∈ dom (w_cmds w)) then [(cb, c)] else []).
Proof.
  intros Hw Hc. unfold intercept. destruct (w_cmds w !! cb) as [en|] eqn:E.
  - destruct (Hw cb en E) as [h G]. destruct (record_good alloc_ok has_push has_push_khr _ _ c G Hc) as (st' & Er & G' & _).
    rewrite Er. simpl. pose proof (record_mono _ _ _ Er) as Hm. eexists. split; [done|]. simpl. split_and!.
    + intros cb' en'. simpl. intros [[-> <-]|[Hne H]]%lookup_insert_Some.
      * eexists. destruct st'. exact G'.
      * destruct (Hw cb' en' H) as [h' G'']. exists h'.
        apply (good_later (mk_st (w_nalloc w) (w_errs w) en) st'); done.
    + rewrite dom_insert_lookup_L; [done|by eexists].
    + rewrite decide_True; [done|]. by apply elem_of_dom.
  - eexists. split; [done|]. simpl. split_and!; [|done|].
    + intros cb' en' H. destruct (Hw cb' en' H) as [h' G'']. exists h'.
      apply (good_later (mk_st (w_nalloc w) (w_errs w) en') (mk_st (w_nalloc w) (w_errs w ++ ["command buffer was not allocated through this HAL; dropped"%string]) en')); [done|].
      split; [done|]. by eexists.
    + rewrite decide_False; [by rewrite app_nil_r|]. by apply not_elem_of_dom.
Qed.

Lemma intercept_all_ok l w :
  world_ok w -> Forall (fun x => cmd_ok x.2) l ->
  exists w', intercept_all w l = Some w' /\
    sent w' = sent w ++ filter (fun x => x.1 ∈ dom (w_cmds w)) l.
Proof.
  revert w. induction l as [|[cb c] l IH]; intros w Hw Hl; simpl.
  { exists w. by rewrite app_nil_r. }
  apply Forall_cons in Hl as [Hc Hl].
  destruct (intercept_ok w cb c Hw Hc) as (w1 & -> & Hw1 & Hd & Hs). simpl.
  destruct (IH w1 Hw1 Hl) as (w2 & -> & Hs2). exists w2. split; [done|].
  rewrite Hs2, Hs, Hd, <- app_assoc. f_equal. rewrite filter_cons. simpl. by destruct (decide _).
Qed.

End Forward.

(** A world in which nothing has been recorded yet. *)
Definition fresh_world (cmds : gmap Z nvhal_cmd) : world :=
  mk_world 0 [] ((fun en => with_cs en None) <$> cmds) [].

(** The intercepts are transparent: whatever the application records into
    whatever command buffers, the driver receives exactly the commands for
    the command buffers the HAL tracks, unchanged, each once and in order;
    a command for an unknown command buffer is dropped.  No allocation
    failure in the shadow changes that. *)
Theorem intercepts_transparent (alloc_ok : nat -> bool) (has_push has_push_khr : Z -> bool)
  (cmds : gmap Z nvhal_cmd) (l : list (Z * vkcmd)) :
  Forall (fun x => cmd_ok x.2) l ->
  exists w, intercept_all alloc_ok has_push has_push_khr (fresh_world cmds) l = Some w /\
    sent w = filter (fun x => x.1 ∈ dom cmds) l.
Proof.
  intros Hl. destruct (intercept_all_ok alloc_ok has_push has_push_khr l (fresh_world cmds)) as (w & -> & Hs).
  - intros cb en. simpl. rewrite lookup_fmap. intros (en0 & _ & ->)%fmap_Some.
    exists no_history. intros _. apply untouched_none.
  - done.
  - exists w. split; [done|]. rewrite Hs. simpl. by rewrite dom_fmap_L.
Qed.

Lemma intercepts_transparent_witness :
  exists w, intercept_all (fun _ => false) dev_all dev_all (fresh_world {[7 := mk_cmd 1 2 0 None]})
      [(7, CmdBindPipeline 1 77); (8, CmdBindPipeline 1 78); (7, CmdBindDescriptorSets 1 5 0 [10] [])] = Some w /\
    sent w = [(7, CmdBindPipeline 1 77); (7, CmdBindDescriptorSets 1 5 0 [10] [])].
Proof.
  destruct (intercepts_transparent (fun _ => false) dev_all dev_all {[7 := mk_cmd 1 2 0 None]}
    [(7, CmdBindPipeline 1 77); (8, CmdBindPipeline 1 78); (7, CmdBindDescriptorSets 1 5 0 [10] [])])
    as (w & E & Hs).
  - repeat first [apply Forall_nil_2 | apply Forall_cons_2]; cbn; (lia || done).
  - exists w. split; [exact E|]. rewrite Hs. reflexivity.
Defined.

(** Push descriptors are updated incrementally (a second
    [vkCmdPushDescriptorSet] leaves the bindings it does not name), but the
    shadow keeps one call per set index: of two pushes to set 0 that write
    binding 0 and binding 1, only the second is replayed, with no error. *)
Lemma push_desc_incremental_dropped :
  let evs := [Record (CmdPushDescriptorSet PushCore 1 5 0 [image_write 0 100]);
              Record (CmdPushDescriptorSet PushCore 1 5 0 [image_write 1 101])] in
  exists st, run all_ok dev_all dev_all (fresh_entry 0 1 2 0) evs = Some st /\
    nvhal_cs_restore st = Some ([CmdPushDescriptorSet PushCore 1 5 0 [image_write 1 101]], st) /\ errs st = [] /\
    in_effect 0 (h_sets (app_history dev_all 1 evs)) =
      [CmdPushDescriptorSet PushCore 1 5 0 [image_write 0 100]; CmdPushDescriptorSet PushCore 1 5 0 [image_write 1 101]].
Proof. eexists. split; [vm_compute; reflexivity|]. split_and!; vm_compute; reflexivity. Qed.

(** ** Command pools and their queue family *)

Section Pools.
Context {T : Type} `{HandleMapLaws T}.

Definition nvhal_pool_family (pools : T) (pool : Z) : Z :=
  let v := if pool =? VK_NULL_HANDLE then NULL else hm_get pools pool in
  if v =? NULL then UINT32_MAX else u32 (u64 (v - 1)).

Definition nvhal_pool_forget (pools : T) (pool : Z) : T :=
  if pool =? VK_NULL_HANDLE then pools else (hm_del pools pool).2.

(** [known] is whether the device was created through the HAL, [r] and
    [pool] what the driver's [vkCreateCommandPool] answers, [mem_ok] the
    outcome of the table's allocation.  The result, whether an error was
    logged, and the table. *)
Definition cs_CreateCommandPool (mem_ok known : bool) (r pool queueFamilyIndex : Z) (pools : T) :
  option (Z * bool * T) :=
  if negb known then Some (VK_ERROR_INITIALIZATION_FAILED, true, pools)
  else if r =? VK_SUCCESS then
    '(b, pools) ← hm_put mem_ok pools pool (queueFamilyIndex + 1);
    Some (r, negb b, pools)
  else Some (r, false, pools).

Inductive pool_op :=
  | PCreate (known : bool) (r pool family : Z)
  | PForget (pool : Z).

Definition pool_op_ok (o : pool_op) : Prop :=
  match o with
  | PCreate _ _ p f => hm_key p = true /\ p <> VK_NULL_HANDLE /\ is_u32 f
  | PForget p => p <> VK_NULL_HANDLE -> hm_key p = true
  end.

Definition pool_step (pools : T) (o : pool_op) : option T :=
  match o with
  | PCreate known r p f => '(_, _, pools) ← cs_CreateCommandPool true known r p f pools; Some pools
  | PForget p => Some (nvhal_pool_forget pools p)
  end.

Fixpoint pool_run (pools : T) (os : list pool_op) : option T :=
  match os with
  | [] => Some pools
  | o :: os => pools ← pool_step pools o; pool_run pools os
  end.

(** The reference: a map from live pools to their family. *)
Definition pool_spec (m : gmap Z Z) (o : pool_op) : gmap Z Z :=
  match o with
  | PCreate known r p f => if known && (r =? VK_SUCCESS) then <[p := f]> m else m
  | PForget p => delete p m
  end.

Definition pools_rep (t : T) (m : gmap Z Z) : Prop :=
  hm_rep t ((fun f => f + 1) <$> m) /\ (forall p f, m !! p = Some f -> p <> VK_NULL_HANDLE /\ is_u32 f).

Lemma pool_step_rep t m o :
  pools_rep t m -> pool_op_ok o -> exists t', pool_step t o = Some t' /\ pools_rep t' (pool_spec m o).
Proof.
  intros [R Hm] Ho. destruct o as [known r p f|p]; simpl in *.
  - destruct Ho as (Hk & Hp & Hf). unfold cs_CreateCommandPool.
    destruct known; simpl; [|by exists t].
    destruct (r =? VK_SUCCESS); simpl; [|by exists t].
    destruct (hm_put_ok t _ p (f + 1) R Hk) as (t' & -> & R'). simpl. exists t'. split; [done|].
    split; [by rewrite fmap_insert|]. intros q g [[-> <-]|[_ Hq]]%lookup_insert_Some; [done|]. by eapply Hm.
  - unfold nvhal_pool_forget. destruct (Z.eqb_spec p VK_NULL_HANDLE) as [->|Hp].
    + exists t. split; [done|]. rewrite delete_id; [done|].
      destruct (m !! VK_NULL_HANDLE) as [f|] eqn:E; [|done]. by destruct (Hm _ _ E).
    + destruct (hm_del_spec t _ p R (Ho Hp)) as [_ R']. eexists. split; [done|].
      split; [by rewrite fmap_delete|]. intros q g [_ Hq]%lookup_delete_Some. by eapply Hm.
Qed.

Lemma pool_run_rep os t m :
  pools_rep t m -> Forall pool_op_ok os ->
  exists t', pool_run t os = Some t' /\ pools_rep t' (foldl pool_spec m os).
Proof.
  revert t m. induction os as [|o os IH]; intros t m R Hos; simpl; [by exists t|].
  apply Forall_cons in Hos as [Ho Hos].
  destruct (pool_step_rep t m o R Ho) as (t1 & -> & R1). simpl. by apply IH.
Qed.

Lemma pool_family_rep t m p :
  pools_rep t m -> (p <> VK_NULL_HANDLE -> hm_key p = true) ->
  nvhal_pool_family t p = default UINT32_MAX (m !! p).
Proof.
  intros [R Hm] Hp. unfold nvhal_pool_family. destruct (Z.eqb_spec p VK_NULL_HANDLE) as [->|Hne].
  - simpl. destruct (m !! VK_NULL_HANDLE) as [f|] eqn:E; [by destruct (Hm _ _ E)|done].
  - rewrite (hm_get_spec t _ p R (Hp Hne)), lookup_fmap. unfold NULL.
    destruct (m !! p) as [f|] eqn:E; simpl; [|done].
    destruct (Hm _ _ E) as [_ Hf]. destruct (Z.eqb_spec (f + 1) 0) as [Hz|_]; [unfold is_u32 in Hf; lia|].
    replace (f + 1 - 1) with f by lia. unfold is_u32 in Hf.
    rewrite u64_id by (unfold is_u64; lia). by apply u32_id.
Qed.

End Pools.

#[local] Existing Instance Hash.hash_handle_map.
#[local] Existing Instance Hash.hash_handle_map_laws.

(** the pool table remembers families: over the hash table, after any
    sequence of pool creations and destructions [nvhal_pool_family] is the
    queue family a live pool was created with and [UINT32_MAX] for any other
    pool (a failed creation, a destroyed pool, [VK_NULL_HANDLE]); storing
    [family + 1] keeps family 0 apart from "absent". *)
Theorem pool_family_correct (os : list pool_op) (p : Z) :
  Forall (pool_op_ok (T := Hash.nvhal_hash)) os ->
  (p <> VK_NULL_HANDLE -> Hash.bad_key p = false) ->
  exists t, pool_run (T := Hash.nvhal_hash) hm_empty os = Some t /\
    nvhal_pool_family t p = default UINT32_MAX (foldl pool_spec ∅ os !! p).
Proof.
  intros Hos Hp. destruct (pool_run_rep (T := Hash.nvhal_hash) os hm_empty ∅) as (t & -> & R); [|done|].
  - split; [rewrite fmap_empty; apply hm_rep_empty|]. intros q f. by rewrite lookup_empty.
  - exists t. split; [done|]. apply pool_family_rep; [done|]. intros Hne. simpl. by rewrite Hp.
Qed.

Lemma pool_family_correct_witness :
  exists t, pool_run (T := Hash.nvhal_hash) hm_empty
      [PCreate true 0 4096 0; PCreate true 0 8192 2; PForget 8192] = Some t /\
    nvhal_pool_family t 4096 = 0.
Proof.
  destruct (pool_family_correct [PCreate true 0 4096 0; PCreate true 0 8192 2; PForget 8192] 4096)
    as (t & E & F).
  - repeat first [apply Forall_nil_2 | apply Forall_cons_2]; cbn;
      first [done | split; [done|]; split; [done|]; unfold is_u32; lia].
  - done.
  - exists t. split; [exact E|]. rewrite F. reflexivity.
Defined.

End CmdState.
