(* ===== verification/Vulkan.v ===== *)
(** * The outside world: Vulkan, DRM and file-descriptor values

    Constants of the Khronos and DRM headers the C code includes, the record
    of calls made to code outside the repository (the Vulkan driver, the
    kernel), and the balance of the resources those calls create and destroy.
    The driver's and the kernel's answers are parameters of the components
    (functions of the calls made so far); nothing about them is fixed here. *)

From Stdlib Require Import ZArith Lia.
From stdpp Require Import base option sets strings gmap list.
From S2P Require Import Prelude.

Set Default Goal Selector "!".
#[local] Open Scope Z_scope.

Module Vk.

Definition VK_NULL_HANDLE : Z := 0.
Definition VK_SUCCESS : Z := 0.
Definition VK_ERROR_OUT_OF_HOST_MEMORY : Z := -1.
Definition VK_ERROR_OUT_OF_DEVICE_MEMORY : Z := -2.

Definition VK_FORMAT_UNDEFINED : Z := 0.
Definition VK_FORMAT_R5G6B5_UNORM_PACK16 : Z := 4.
Definition VK_FORMAT_R8_UNORM : Z := 9.
Definition VK_FORMAT_R8G8B8A8_UNORM : Z := 37.
Definition VK_FORMAT_R8G8B8A8_SRGB : Z := 43.
Definition VK_FORMAT_B8G8R8A8_UNORM : Z := 44.
Definition VK_FORMAT_B8G8R8A8_SRGB : Z := 50.
Definition VK_FORMAT_A2B10G10R10_UNORM_PACK32 : Z := 64.
Definition VK_FORMAT_R16G16B16A16_SFLOAT : Z := 97.
Definition VK_FORMAT_G8_B8R8_2PLANE_420_UNORM : Z := 1000156003.
Definition VK_FORMAT_G10X6_B10X6R10X6_2PLANE_420_UNORM_3PACK16 : Z := 1000156013.

Definition FEATURE_SAMPLED_IMAGE : Z := 0x1.
Definition FEATURE_STORAGE_IMAGE : Z := 0x2.
Definition FEATURE_COLOR_ATTACHMENT : Z := 0x80.
Definition FEATURE_TRANSFER_SRC : Z := 0x4000.
Definition FEATURE_TRANSFER_DST : Z := 0x8000.
Definition FEATURE_DISJOINT : Z := 0x400000.

Definition USAGE_TRANSFER_SRC : Z := 0x1.
Definition USAGE_TRANSFER_DST : Z := 0x2.
Definition USAGE_SAMPLED : Z := 0x4.
Definition USAGE_STORAGE : Z := 0x8.
Definition USAGE_COLOR_ATTACHMENT : Z := 0x10.

Definition MEM_DEVICE_LOCAL : Z := 0x1.
Definition MEM_HOST_VISIBLE : Z := 0x2.
Definition MEM_HOST_COHERENT : Z := 0x4.
Definition MEM_HOST_CACHED : Z := 0x8.

Definition EXTMEM_DEDICATED_ONLY : Z := 0x1.
Definition EXTMEM_EXPORTABLE : Z := 0x2.

(** [fourcc_code(a, b, c, d)] of drm_fourcc.h. *)
Definition fourcc (a b c d : Z) : Z := a + b * 2 ^ 8 + c * 2 ^ 16 + d * 2 ^ 24.

Definition DRM_FORMAT_R8 : Z := fourcc 82 56 32 32.
Definition DRM_FORMAT_RGB565 : Z := fourcc 82 71 49 54.
Definition DRM_FORMAT_XRGB8888 : Z := fourcc 88 82 50 52.
Definition DRM_FORMAT_ARGB8888 : Z := fourcc 65 82 50 52.
Definition DRM_FORMAT_XBGR8888 : Z := fourcc 88 66 50 52.
Definition DRM_FORMAT_ABGR8888 : Z := fourcc 65 66 50 52.
Definition DRM_FORMAT_ABGR2101010 : Z := fourcc 65 66 51 48.
Definition DRM_FORMAT_ABGR16161616F : Z := fourcc 65 66 52 72.
Definition DRM_FORMAT_NV12 : Z := fourcc 78 86 49 50.
Definition DRM_FORMAT_P010 : Z := fourcc 80 48 49 48.

Definition DRM_FORMAT_MOD_LINEAR : Z := 0.
Definition DRM_FORMAT_MOD_INVALID : Z := 0x00ffffffffffffff.

Record VkDrmFormatModifierProperties2EXT := mk_modprops {
  drmFormatModifier : Z;
  drmFormatModifierPlaneCount : Z;
  drmFormatModifierTilingFeatures : Z;
}.

Record VkMemoryRequirements := mk_reqs { req_size : Z; req_alignment : Z; req_memoryTypeBits : Z }.
Record VkSubresourceLayout := mk_layout { l_offset : Z; l_rowPitch : Z; l_size : Z }.

(** ** Calls that create or destroy something *)

Inductive kind :=
  | KInstance | KDevice | KImage | KMemory | KBuffer | KPool | KFence   (** Vulkan objects *)
  | KFd | KMapping | KHeap                                             (** the process *)
  | KColor | KSync | KRef | KWin | KOwned.                             (** EGL and windows *)
#[export] Instance kind_eq_dec : EqDecision kind.
Proof. solve_decision. Defined.

(** A call as it happened: a create call with its result and the handle it
    wrote, a destroy call with its argument, and the calls whose order
    matters to a property. *)
Inductive event :=
  | Created (k : kind) (ok : bool) (h : Z)
  | Destroyed (k : kind) (h : Z)
  | Moved (k : kind) (h : Z)
  | Called (what : string) (args : list Z).

Definition trace := list event.

(** Nothing but creations, destructions and transfers. *)
Definition silent (t : trace) : Prop := Forall (fun e => match e with Called _ _ => False | _ => True end) t.

(** How many instances of handle [h] are outstanding: successful creations
    less destructions and ownership transfers. *)
Definition ev_delta (k : kind) (h : Z) (ev : event) : Z :=
  match ev with
  | Created k' ok h' => if decide (k' = k /\ h' = h /\ ok = true) then 1 else 0
  | Destroyed k' h' | Moved k' h' => if decide (k' = k /\ h' = h) then -1 else 0
  | Called _ _ => 0
  end.

Definition balance (k : kind) (h : Z) (t : trace) : Z := sumZ (ev_delta k h <$> t).

Lemma balance_app k h t u : balance k h (t ++ u) = balance k h t + balance k h u.
Proof. unfold balance. by rewrite fmap_app, sumZ_app. Qed.

Lemma balance_snoc k h t ev : balance k h (t ++ [ev]) = balance k h t + ev_delta k h ev.
Proof. rewrite balance_app. unfold balance at 2, sumZ. simpl. lia. Qed.

Lemma balance_nil k h : balance k h [] = 0.
Proof. reflexivity. Qed.

(** 1 when the two handles (of the two kinds) are the same, else 0. *)
Definition one (k k' : kind) (h h' : Z) : Z := if decide (k' = k /\ h' = h) then 1 else 0.

Lemma delta_created k h k' h' : ev_delta k h (Created k' true h') = one k k' h h'.
Proof. unfold ev_delta, one. repeat case_decide; tauto. Qed.
Lemma delta_failed k h k' h' : ev_delta k h (Created k' false h') = 0.
Proof. unfold ev_delta. case_decide; [|done]. by destruct H as (_ & _ & ?). Qed.
Lemma delta_destroyed k h k' h' : ev_delta k h (Destroyed k' h') = - one k k' h h'.
Proof. unfold ev_delta, one. by case_decide. Qed.
Lemma delta_moved k h k' h' : ev_delta k h (Moved k' h') = - one k k' h h'.
Proof. unfold ev_delta, one. by case_decide. Qed.
Lemma delta_called k h w l : ev_delta k h (Called w l) = 0.
Proof. done. Qed.

Lemma one_other k k' h h' : k <> k' -> one k k' h h' = 0.
Proof. intros H. unfold one. rewrite decide_False; [done|]. by intros [? _]. Qed.
Lemma one_same k h h' : one k k h h' = if decide (h' = h) then 1 else 0.
Proof. unfold one. repeat case_decide; naive_solver. Qed.

End Vk.

#[export] Hint Rewrite Vk.balance_app Vk.balance_snoc Vk.balance_nil Vk.delta_created Vk.delta_failed
  Vk.delta_destroyed Vk.delta_moved Vk.delta_called : nvdb.

(** Compute the resource balances along explicit traces. *)
Ltac bal_simpl :=
  autorewrite with nvdb;
  repeat match goal with
  | |- context [Vk.one ?k ?k' ?h ?h'] =>
      first [ constr_eq k k'; rewrite (Vk.one_same k h h')
            | rewrite (Vk.one_other k k' h h') by discriminate ]
  end.
