(* ===== verification/ImgXlate.v ===== *)
(** * pNext surgery and loader-owned private data ([hal/src/imgxlate.c])

    [Chain] models [nvhal_chain_replace], which every create-info translation
    of the HAL uses to take one structure out of the application's pNext chain
    and put others in its place: the structures before it are copied into a
    caller's buffer, the rest of the chain is shared, and the application's
    memory is not written.  Structures are records at addresses.

    [LoaderPd] models the private data the HAL keeps for objects of the
    Android loader (swapchains and surfaces), and its refinement of a finite
    map keyed by object type, handle and slot. *)

From Stdlib Require Import ZArith Lia.
From stdpp Require Import base option sets strings gmap list.
From S2P Require Import Prelude HashTable Vulkan.

Set Default Goal Selector "!".
#[local] Open Scope Z_scope.

Module Chain.

(** A structure: its type, its pNext and, as one value, its other members. *)
Record node := mk_node { n_type : Z; n_next : Z; n_data : Z }.
Abbreviation heap := (gmap Z node).
Definition set_next (nd : node) (p : Z) : node := mk_node (n_type nd) p (n_data nd).
Definition put_next (h : heap) (p next : Z) : heap := alter (fun nd => set_next nd next) p h.

Section Replace.
(** [nvhal_stype_size], generated from the Vulkan registry; 0: unknown. *)
Context (stype_size : Z -> Z).
(** [storage] and [storage_size]. *)
Context (base : Z) (size : Z).

(** The loop over the structures before [drop]: [None] when the fuel runs
    out, [inl] the refusal, [inr] the heap, [first] and [last]. *)
Fixpoint copy_before (fuel : nat) (h : heap) (s drop first last used : Z) : option (() + heap * Z * Z) :=
  if (s =? 0) || (s =? drop) then Some (inr (h, first, last))
  else match fuel with
  | O => None
  | S fuel =>
      match h !! s with
      | None => None
      | Some nd =>
          let sz := stype_size (n_type nd) in
          if sz =? 0 then Some (inl tt)
          else
          let used := alloc_align used 16 in
          if size <? u64 (used + sz) then Some (inl tt)
          else
          let c := base + used in
          let h := <[c := nd]> h in
          let h := if last =? 0 then h else put_next h last c in
          copy_before fuel h (n_next nd) drop (if last =? 0 then c else first) c (u64 (used + sz))
      end
  end.

(** [drop] 0: none; [add]: the first added structure and the one whose pNext
    is [*add_tail_next].  The result is the heap and [*out]. *)
Definition nvhal_chain_replace (fuel : nat) (h : heap) (head drop : Z) (add : option (Z * Z)) : option (() + heap * Z) :=
  let rest := if drop =? 0 then head else match h !! drop with Some nd => n_next nd | None => 0 end in
  match (if drop =? 0 then Some (inr (h, 0, 0)) else copy_before fuel h head drop 0 0 0) with
  | None => None
  | Some (inl tt) => Some (inl tt)
  | Some (inr (h, first, last)) =>
      let '(h, first) := if last =? 0 then (h, rest) else (put_next h last rest, first) in
      match add with
      | Some (a, tail) => Some (inr (put_next h tail first, a))
      | None => Some (inr (h, first))
      end
  end.

(** ** Specification *)

(** [l] lists the structures from [p] up to (not including) [q]. *)
Fixpoint seg (h : heap) (p : Z) (l : list Z) (q : Z) : Prop :=
  match l with
  | [] => p = q
  | a :: l => p = a /\ a <> 0 /\ exists nd, h !! a = Some nd /\ seg h (n_next nd) l q
  end.
(** What a reader of the chain sees. *)
Definition what (h : heap) (l : list Z) : list (option (Z * Z)) :=
  (fun p => (fun nd => (n_type nd, n_data nd)) <$> h !! p) <$> l.

(** Where the copies go: 16-aligned offsets, each after the one before. *)
Fixpoint places (used : Z) (szs : list Z) : list Z :=
  match szs with
  | [] => []
  | sz :: szs => alloc_align used 16 :: places (alloc_align used 16 + sz) szs
  end.
(** Every size is known and the copies fit the buffer. *)
Fixpoint fits (used : Z) (szs : list Z) : bool :=
  match szs with
  | [] => true
  | sz :: szs => negb (sz =? 0) && (alloc_align used 16 + sz <=? size) && fits (alloc_align used 16 + sz) szs
  end.
Definition sizes (h : heap) (l : list Z) : list Z :=
  (fun p => match h !! p with Some nd => stype_size (n_type nd) | None => 0 end) <$> l.

(** ** The copies *)

Context (Hsize : 0 <= size < 2 ^ 63) (Hbase : 0 < base).
Context (Hst : forall t, 0 <= stype_size t < 2 ^ 32).

Definition in_storage (p : Z) : Prop := base <= p < base + size.

Lemma align16 u : 0 <= u <= size -> u <= alloc_align u 16 < u + 16 /\ alloc_align u 16 mod 16 = 0.
Proof.
  intros H. change 16 with (2 ^ 4). rewrite alloc_align_spec by lia. change (2 ^ 4) with 16.
  pose proof (align_up_bounds u 16 ltac:(lia)). split; [lia|]. apply Z.mod_mul. lia.
Qed.

Lemma seg_snoc h p l q nd : seg h p l q -> q <> 0 -> h !! q = Some nd -> seg h p (l ++ [q]) (n_next nd).
Proof.
  revert p. induction l as [|a l IH]; intros p H Hq Hn; cbn in *; [subst; eauto 6|].
  destruct H as (-> & Ha & nd' & Hl & H). eauto 7.
Qed.
Lemma seg_app h p l m q r : seg h p l m -> seg h m r q -> seg h p (l ++ r) q.
Proof.
  revert p. induction l as [|a l IH]; intros p H Hm; cbn in *; [by subst|]. destruct H as (-> & Ha & nd & Hl & H). eauto 7.
Qed.
Lemma seg_app_inv h p l r q : seg h p (l ++ r) q -> exists m, seg h p l m /\ seg h m r q.
Proof.
  revert p. induction l as [|a l IH]; intros p H; cbn in *; [eauto|]. destruct H as (-> & Ha & nd & Hl & H).
  destruct (IH _ H) as (m & H1 & H2). eauto 9.
Qed.
Lemma seg_same h h' p l q : (forall a, a ∈ l -> h' !! a = h !! a) -> seg h p l q -> seg h' p l q.
Proof.
  revert p. induction l as [|a l IH]; intros p E H; cbn in *; [done|]. destruct H as (-> & Ha & nd & Hl & H).
  split_and!; [done|done|]. exists nd. split; [by rewrite E by set_solver|]. apply IH; [set_solver|done].
Qed.
Lemma what_same h h' l : (forall a, a ∈ l -> h' !! a = h !! a) -> what h' l = what h l.
Proof. intros E. unfold what. apply list_fmap_ext. intros i a Ha. rewrite E; [done|]. by eapply list_elem_of_lookup_2. Qed.

Lemma put_next_other h p q a : a <> p -> put_next h p q !! a = h !! a.
Proof. intros. unfold put_next. by rewrite lookup_alter_ne. Qed.
Lemma what_put_next h p q l : what (put_next h p q) l = what h l.
Proof.
  unfold what. apply list_fmap_ext. intros i a _. unfold put_next. destruct (decide (a = p)) as [->|].
  - rewrite lookup_alter_eq. by destruct (h !! p).
  - by rewrite lookup_alter_ne.
Qed.

(** The copies so far: a chain from [first] whose last structure is [last]. *)
Definition copied (h : heap) (first last : Z) (cs : list Z) : Prop :=
  (cs = [] /\ first = 0 /\ last = 0) \/
  (exists cs' nd, cs = cs' ++ [last] /\ last <> 0 /\ seg h first cs' last /\ h !! last = Some nd).

Lemma places_bounds u szs :
  0 <= u <= size -> Forall (fun z => 0 <= z < 2 ^ 32) szs -> fits u szs = true ->
  Forall (fun o => u <= o < size /\ o mod 16 = 0) (places u szs).
Proof.
  revert u. induction szs as [|z szs IH]; intros u Hu Hz Hf; cbn [fits places] in *; [constructor|].
  apply Forall_cons in Hz as [Hz Hzs]. bool_props. pose proof (align16 u Hu) as [? ?].
  constructor; [split; [lia|done]|]. eapply Forall_impl; [apply IH; [lia|done|done]|]. cbn. intros o [? ?]. split; [lia|done].
Qed.

(** The copies do not overlap: each starts after the end of the one before. *)
Lemma places_ordered u szs i o o' z :
  0 <= u <= size -> Forall (fun z => 0 <= z < 2 ^ 32) szs -> fits u szs = true ->
  places u szs !! i = Some o -> places u szs !! S i = Some o' -> szs !! i = Some z -> o + z <= o'.
Proof.
  revert u i. induction szs as [|y szs IH]; intros u i Hu Hz Hf Ho Ho' Hi; cbn [fits places] in *; [done|].
  apply Forall_cons in Hz as [Hy Hz]. bool_props. pose proof (align16 u Hu) as [? ?]. destruct i as [|i]; cbn in *.
  - simplify_eq. destruct szs as [|y' szs]; cbn in *; [done|]. simplify_eq.
    pose proof (align16 (alloc_align u 16 + z) ltac:(lia)). lia.
  - eapply (IH _ i); [|done|done|done|done|done]. lia.
Qed.

Lemma sizes_range h l : Forall (fun z => 0 <= z < 2 ^ 32) (sizes h l).
Proof. unfold sizes. apply Forall_fmap, Forall_forall. intros p _. cbn. destruct (h !! p); [apply Hst|lia]. Qed.

Lemma copied_extend h first last cs c nd :
  copied h first last cs -> c <> 0 -> c ∉ cs -> NoDup cs ->
  let h1 := <[c := nd]> h in
  let h2 := if last =? 0 then h1 else put_next h1 last c in
  copied h2 (if last =? 0 then c else first) c (cs ++ [c]) /\
  (forall a, a <> c -> last = 0 \/ a <> last -> h2 !! a = h !! a) /\ h2 !! c = Some nd /\ what h2 cs = what h cs.
Proof.
  intros [(-> & -> & ->)|(cs' & ndl & -> & Hl & Hs & Hn)] Hc Hin Hnd h1 h2.
  - subst h1 h2. rewrite Z.eqb_refl. split_and!.
    + right. exists [], nd. split_and!; [done|done|done|by rewrite lookup_insert_eq].
    + intros a Ha _. by rewrite lookup_insert_ne.
    + by rewrite lookup_insert_eq.
    + done.
  - apply Z.eqb_neq in Hl as El. subst h2. rewrite El. subst h1.
    assert (Hcl : c <> last) by set_solver.
    assert (Hlk : put_next (<[c:=nd]> h) last c !! last = Some (set_next ndl c)).
    { unfold put_next. rewrite lookup_alter_eq, lookup_insert_ne by done. by rewrite Hn. }
    apply NoDup_app in Hnd as (Hnd & Hdis & _). split_and!.
    + right. exists (cs' ++ [last]), nd. split_and!; [done|done| |].
      * apply (seg_snoc _ _ _ _ (set_next ndl c)); [|done|done].
        eapply seg_same; [|exact Hs]. intros a Ha. rewrite put_next_other, lookup_insert_ne; [done|set_solver|].
        intros ->. by apply (Hdis last Ha), list_elem_of_singleton.
      * rewrite put_next_other, lookup_insert_eq by done. done.
    + intros a Ha [|Hal]; [done|]. by rewrite put_next_other, lookup_insert_ne.
    + rewrite put_next_other, lookup_insert_eq by done. done.
    + rewrite what_put_next. apply what_same. intros a Ha. apply lookup_insert_ne. set_solver.
Qed.

Record copies (h h' : heap) (used : Z) (l cs new : list Z) (first last : Z) : Prop := {
  co_chain : copied h' first last (cs ++ new);
  co_new : new = (Z.add base <$> places used (sizes h l));
  co_what : what h' new = what h l;
  co_old : what h' cs = what h cs;
  co_app a : ~ in_storage a -> h' !! a = h !! a;
  co_nodup : NoDup (cs ++ new);
}.

Lemma places_from_ge u szs : forall o, o ∈ places u szs -> 0 <= u <= size -> Forall (fun z => 0 <= z < 2 ^ 32) szs -> fits u szs = true ->
  u <= o < size.
Proof. intros o Ho Hu Hz Hf. pose proof (places_bounds u szs Hu Hz Hf) as F. rewrite Forall_forall in F. apply (F _ Ho). Qed.

Lemma copy_before_spec fuel h s drop l first last used cs :
  seg h s l drop -> drop ∉ l -> (length l <= fuel)%nat -> 0 <= used <= size ->
  Forall (fun p => ~ in_storage p) l -> ~ in_storage drop ->
  copied h first last cs -> NoDup cs -> Forall (fun p => base <= p < base + used) cs ->
  if fits used (sizes h l) then
    exists h' first' last' new, copy_before fuel h s drop first last used = Some (inr (h', first', last')) /\
      copies h h' used l cs new first' last'
  else copy_before fuel h s drop first last used = Some (inl tt).
Proof.
  revert fuel h s first last used cs. induction l as [|a l IH]; intros fuel h s first last used cs Hs Hd Hf Hu Hl Hdr Hc Hnd Hcs.
  - cbn [seg] in Hs. subst s. cbn [sizes fmap list_fmap fits]. exists h, first, last, []. split.
    + destruct fuel; cbn [copy_before]; by rewrite Z.eqb_refl, orb_true_r.
    + split; rewrite ?app_nil_r; done.
  - cbn [seg] in Hs. destruct Hs as (-> & Ha & nd & Hn & Hs). destruct fuel as [|fuel]; [cbn in Hf; lia|].
    apply not_elem_of_cons in Hd as [Hda Hd]. apply Forall_cons in Hl as [Hla Hl].
    cbn [copy_before]. rewrite (proj2 (Z.eqb_neq a 0)), (proj2 (Z.eqb_neq a drop)) by congruence. cbn [orb]. rewrite Hn.
    change (sizes h (a :: l)) with ((match h !! a with Some nd => stype_size (n_type nd) | None => 0 end) :: sizes h l).
    rewrite Hn. cbn [fits]. pose proof (Hst (n_type nd)). set (sz := stype_size (n_type nd)) in *.
    destruct (Z.eqb_spec sz 0) as [|Hsz]; cbn [negb andb]; [done|].
    pose proof (align16 used Hu) as [Hal _]. set (u := alloc_align used 16) in *.
    rewrite (u64_id (u + sz)) by (split; lia). rewrite (Z.ltb_antisym (u + sz)).
    destruct (Z.leb_spec (u + sz) size) as [Hle|Hgt]; cbn [negb]; [|done].
    set (c := base + u) in *.
    assert (Hcc : c ∉ cs) by (intros Hin; rewrite Forall_forall in Hcs; specialize (Hcs c Hin); cbn in Hcs; lia).
    destruct (copied_extend h first last cs c nd Hc ltac:(lia) Hcc Hnd) as (Hc2 & Hoth & Hcn & Hw).
    set (h2 := if last =? 0 then <[c:=nd]> h else put_next (<[c:=nd]> h) last c) in *.
    assert (Hlast : last = 0 \/ base <= last < base + used).
    { destruct Hc as [(_ & _ & ->)|(cs' & ndl & -> & _)]; [by left|right]. rewrite Forall_forall in Hcs. apply Hcs. set_solver. }
    assert (Happ : forall x, ~ in_storage x -> h2 !! x = h !! x).
    { intros x Hx. apply Hoth; [intros ->; apply Hx; unfold in_storage; lia|]. destruct Hlast; [by left|right].
      intros ->. apply Hx. unfold in_storage. lia. }
    assert (Hsame : forall x, x ∈ l -> h2 !! x = h !! x).
    { intros x Hx. rewrite Forall_forall in Hl. by apply Happ, Hl. }
    assert (Hsz2 : sizes h2 l = sizes h l).
    { unfold sizes. apply list_fmap_ext. intros i x Hx. rewrite Hsame; [done|]. by eapply list_elem_of_lookup_2. }
    specialize (IH fuel h2 (n_next nd) (if last =? 0 then c else first) c (u + sz) (cs ++ [c])). rewrite Hsz2 in IH.
    replace (u64 (u + sz)) with (u + sz) in IH by (by rewrite u64_id by (split; lia)).
    destruct (fits (u + sz) (sizes h l)) eqn:Hfit.
    + destruct IH as (h' & f' & l' & new & -> & Cp).
      { by eapply seg_same. } { done. } { cbn in Hf. lia. } { lia. } { done. } { done. } { done. }
      { apply NoDup_app. split_and!; [done| |apply NoDup_singleton]. intros x Hx ->%list_elem_of_singleton. done. }
      { apply Forall_app. split; [|constructor; [lia|constructor]]. eapply Forall_impl; [exact Hcs|]. cbn. lia. }
      exists h', f', l', (c :: new). split; [done|]. destruct Cp as [C1 C2 C3 C4 C5 C6].
      assert (Ew : what h' cs = what h2 cs /\ what h' [c] = what h2 [c]).
      { unfold what in C4. rewrite !fmap_app in C4. apply app_inj_1 in C4; [done|]. by rewrite !length_fmap. }
      split.
      * rewrite cons_middle, app_assoc. exact C1.
      * rewrite C2, Hsz2. change (sizes h (a :: l)) with ((match h !! a with Some nd => stype_size (n_type nd) | None => 0 end) :: sizes h l).
        rewrite Hn. done.
      * change (what h' (c :: new)) with (what h' [c] ++ what h' new). change (what h (a :: l)) with (what h [a] ++ what h l).
        rewrite (proj2 Ew), C3, (what_same h h2 l) by done. f_equal. unfold what. cbn [fmap list_fmap]. by rewrite Hcn, Hn.
      * rewrite (proj1 Ew). done.
      * intros x Hx. rewrite C5, Happ by done. done.
      * rewrite cons_middle, app_assoc. exact C6.
    + apply IH; try done.
      { by eapply seg_same. } { cbn in Hf. lia. } { lia. }
      { apply NoDup_app. split_and!; [done| |apply NoDup_singleton]. intros x Hx ->%list_elem_of_singleton. done. }
      { apply Forall_app. split; [|constructor; [lia|constructor]]. eapply Forall_impl; [exact Hcs|]. cbn. lia. }
Qed.

(** The added structures: a chain of their own, outside the application's
    chain and the buffer, whose last one is [t]. *)
Definition adds (h : heap) (chain : list Z) (add : option (Z * Z)) (la : list Z) : Prop :=
  match add with
  | None => la = []
  | Some (a, t) => exists la' nd, la = la' ++ [t] /\ t <> 0 /\ seg h a la' t /\ h !! t = Some nd /\ NoDup la /\
                    Forall (fun p => (p ∉ chain) /\ ~ in_storage p) la
  end.

Lemma finish h0 h first last cs l2 add la rest :
  (forall a, ~ in_storage a -> h !! a = h0 !! a) ->
  copied h first last cs -> NoDup cs -> Forall in_storage cs -> Forall (fun p => ~ in_storage p) l2 ->
  seg h0 rest l2 0 -> adds h0 l2 add la ->
  let '(h1, first1) := if last =? 0 then (h, rest) else (put_next h last rest, first) in
  let '(h2, out) := match add with Some (a, tail) => (put_next h1 tail first1, a) | None => (h1, first1) end in
  seg h2 out (la ++ cs ++ l2) 0 /\ what h2 (la ++ cs ++ l2) = (what h0 la ++ what h cs ++ what h0 l2) /\
  (forall a, ~ in_storage a -> Some a <> (snd <$> add) -> h2 !! a = h0 !! a).
Proof.
  intros Happ Hc Hnd Hin Hl2 Hs Had. rewrite Forall_forall in Hin, Hl2.
  assert (Hsplit : (forall x, x ∈ la -> ~ in_storage x) -> what h (la ++ cs ++ l2) = what h0 la ++ what h cs ++ what h0 l2).
  { intros Hla. unfold what. rewrite !fmap_app. f_equal; [|f_equal].
    - apply (what_same h0 h). intros a Ha. by apply Happ, Hla.
    - apply (what_same h0 h). intros a Ha. by apply Happ, Hl2. }
  assert (E1 : exists h1 first1, (if last =? 0 then (h, rest) else (put_next h last rest, first)) = (h1, first1) /\
     seg h1 first1 (cs ++ l2) 0 /\ (forall l, what h1 l = what h l) /\ forall a, ~ in_storage a -> h1 !! a = h0 !! a).
  { destruct Hc as [(-> & -> & ->)|(cs' & nd & -> & Hl & Hsg & Hn)].
    - rewrite Z.eqb_refl. exists h, rest. split_and!; try done. eapply seg_same; [|exact Hs]. intros a Ha. by apply Happ, Hl2.
    - apply Z.eqb_neq in Hl as El. rewrite El. exists (put_next h last rest), first. split_and!; [done| |intros; apply what_put_next|].
      + rewrite <- app_assoc. apply (seg_app _ _ _ last).
        * eapply seg_same; [|exact Hsg]. intros a Ha. apply put_next_other. intros ->.
          apply NoDup_app in Hnd as (_ & Hnd & _). by apply (Hnd last Ha), list_elem_of_singleton.
        * cbn [app seg]. split_and!; [done|done|]. exists (set_next nd rest). split.
          { unfold put_next. by rewrite lookup_alter_eq, Hn. }
          cbn [set_next n_next]. eapply seg_same; [|exact Hs]. intros a Ha. rewrite put_next_other; [by apply Happ, Hl2|].
          intros ->. apply (Hl2 last Ha), Hin. set_solver.
      + intros a Ha. rewrite put_next_other; [by apply Happ|]. intros ->. apply Ha, Hin. set_solver. }
  destruct E1 as (h1 & f1 & -> & Hsg & Hw & Hoff). destruct add as [[a t]|]; cbn [adds] in Had.
  - destruct Had as (la' & nd & -> & Ht & Hsa & Hn & Hnda & Hla). rewrite Forall_forall in Hla.
    destruct (Hla t ltac:(set_solver)) as [Htl Hts]. apply NoDup_app in Hnda as (_ & Hnda & _). split_and!.
    + rewrite <- app_assoc. apply (seg_app _ _ _ t).
      * eapply seg_same; [|exact Hsa]. intros x Hx. rewrite put_next_other; [apply Hoff, (Hla x); set_solver|].
        intros ->. by apply (Hnda t Hx), list_elem_of_singleton.
      * cbn [app seg]. split_and!; [done|done|]. exists (set_next nd f1). split.
        { unfold put_next. rewrite lookup_alter_eq, Hoff, Hn by done. done. }
        cbn [set_next n_next]. eapply seg_same; [|exact Hsg]. intros x Hx. apply put_next_other. intros ->.
        apply elem_of_app in Hx as [Hx|Hx]; [by apply Hts, Hin|done].
    + rewrite what_put_next, Hw. apply Hsplit. intros x Hx. apply (Hla x Hx).
    + intros x Hx Hne. cbn in Hne. rewrite put_next_other by congruence. by apply Hoff.
  - subst la. split_and!; [done|rewrite Hw; apply Hsplit; set_solver|]. intros x Hx _. by apply Hoff.
Qed.

Lemma replace_spec h head drop l1 l2 add la fuel :
  seg h head (l1 ++ drop :: l2) 0 -> NoDup (l1 ++ drop :: l2) -> (length l1 <= fuel)%nat ->
  Forall (fun p => ~ in_storage p) (l1 ++ drop :: l2) -> adds h (l1 ++ drop :: l2) add la ->
  if fits 0 (sizes h l1) then
    exists h' out, nvhal_chain_replace fuel h head drop add = Some (inr (h', out)) /\
      let cs := Z.add base <$> places 0 (sizes h l1) in
      seg h' out (la ++ cs ++ l2) 0 /\ what h' (la ++ cs ++ l2) = what h (la ++ l1 ++ l2) /\
      Forall in_storage cs /\ (forall a, ~ in_storage a -> Some a <> (snd <$> add) -> h' !! a = h !! a)
  else nvhal_chain_replace fuel h head drop add = Some (inl tt).
Proof.
  intros Hs Hnd Hf Hst0 Had. apply seg_app_inv in Hs as (m & Hs1 & Hs2). cbn [seg] in Hs2. destruct Hs2 as (-> & Hd & nd & Hn & Hs2).
  apply Forall_app in Hst0 as [Ho1 Ho2]. apply Forall_cons in Ho2 as [Hod Ho2].
  apply NoDup_app in Hnd as (Hnd1 & Hdis & Hnd2).
  pose proof (copy_before_spec fuel h head drop l1 0 0 0 [] Hs1 ltac:(intros H; apply (Hdis _ H); set_solver) Hf ltac:(lia) Ho1 Hod
    ltac:(by left) ltac:(constructor) ltac:(constructor)) as C.
  unfold nvhal_chain_replace. rewrite (proj2 (Z.eqb_neq drop 0)) by done. rewrite Hn. destruct (fits 0 (sizes h l1)) eqn:Hfit.
  - destruct C as (h' & first & last & new & -> & [C1 C2 C3 _ C5 Hndn]). cbn [app] in C1, Hndn.
    assert (Hin : Forall in_storage new).
    { rewrite C2, Forall_fmap. eapply Forall_impl; [apply (places_bounds 0); [lia|apply sizes_range|done]|].
      cbn. intros o [? _]. unfold in_storage. lia. }
    pose proof (finish h h' first last new l2 add la (n_next nd) C5 C1 Hndn Hin Ho2 Hs2) as F.
    assert (Had2 : adds h l2 add la).
    { destruct add as [[a t]|]; [|done]. destruct Had as (la' & ndt & -> & Ht & Hsa & Hnt & Hnda & Hla). exists la', ndt.
      split_and!; try done. eapply Forall_impl; [exact Hla|]. cbn. intros p [Hp Hq]. split; [set_solver|done]. }
    specialize (F Had2). destruct (if last =? 0 then _ else _) as [h1 f1].
    assert (Hw : forall h2, what h2 (la ++ new ++ l2) = what h la ++ what h' new ++ what h l2 -> what h2 (la ++ new ++ l2) = what h (la ++ l1 ++ l2)).
    { intros h2 ->. rewrite C3. unfold what. by rewrite !fmap_app. }
    destruct add as [[a t]|]; destruct F as (F1 & F2 & F3);
      [exists (put_next h1 t f1), a|exists h1, f1]; (split; [done|]); cbn zeta; rewrite <- C2; auto.
  - by rewrite C.
Qed.

End Replace.

(** [nvhal_chain_replace] on a chain [l1 ++ drop :: l2] with any buffer
    either refuses, exactly when a structure before the dropped one has an
    unknown size or the copies do not fit, or leaves a chain that reads as the
    added structures, then [l1], then [l2]; the copies lie in the buffer at
    16-aligned offsets without overlap, and no structure of the application is
    written. *)
Theorem chain_replace_exact stype_size base size h head drop l1 l2 add la fuel :
  0 <= size < 2 ^ 63 -> 0 < base -> (forall t, 0 <= stype_size t < 2 ^ 32) ->
  seg h head (l1 ++ drop :: l2) 0 -> NoDup (l1 ++ drop :: l2) -> (length l1 <= fuel)%nat ->
  Forall (fun p => ~ in_storage base size p) (l1 ++ drop :: l2) -> adds base size h (l1 ++ drop :: l2) add la ->
  let r := nvhal_chain_replace stype_size base size fuel h head drop add in
  let szs := sizes stype_size h l1 in
  let offs := places 0 szs in
  (fits size 0 szs = false /\ r = Some (inl tt)) \/
  (fits size 0 szs = true /\
   (exists h' out, r = Some (inr (h', out)) /\
     seg h' out (la ++ (Z.add base <$> offs) ++ l2) 0 /\
     what h' (la ++ (Z.add base <$> offs) ++ l2) = what h (la ++ l1 ++ l2) /\
     (forall a, a ∈ l1 ++ drop :: l2 -> h' !! a = h !! a)) /\
   Forall (fun o => 0 <= o < size /\ o mod 16 = 0) offs /\
   (forall i o o' z, offs !! i = Some o -> offs !! S i = Some o' -> szs !! i = Some z -> o + z <= o')).
Proof.
  intros Hsz Hb Hst Hs Hnd Hf Hout Had r szs offs.
  pose proof (replace_spec stype_size base size Hsz Hb Hst h head drop l1 l2 add la fuel Hs Hnd Hf Hout Had) as R.
  pose proof (sizes_range stype_size Hst h l1) as Hr. fold szs in R, Hr. fold r in R. fold offs in R.
  destruct (fits size 0 szs) eqn:Hfit; [right; split; [done|]|by left; split].
  destruct R as (h' & out & -> & R1 & R2 & _ & R3). split_and!.
  - exists h', out. split_and!; try done. intros a Ha. rewrite Forall_forall in Hout. apply R3; [by apply Hout|].
    destruct add as [[x t]|]; [|done]. destruct Had as (la' & nd & -> & _ & _ & _ & _ & Hla). rewrite Forall_forall in Hla.
    intros [= ->]. destruct (Hla t) as [Hn _]; [set_solver|]. done.
  - apply places_bounds; [lia|lia|done|done].
  - intros i o o' z. apply (places_ordered size Hsz 0); [lia|done|done].
Qed.

(** Three structures of 24, 40 and 24 bytes; the second is replaced. *)
Definition demo_heap : heap :=
  <[1000 := mk_node 1 2000 11]> (<[2000 := mk_node 2 3000 22]> (<[3000 := mk_node 3 0 33]> {[9000 := mk_node 4 0 44]})).
Definition demo_size (t : Z) : Z := if t =? 2 then 40 else 24.

Lemma chain_replace_exact_witness :
  exists h' out, nvhal_chain_replace demo_size 5000 1024 3 demo_heap 1000 2000 (Some (9000, 9000)) = Some (inr (h', out)) /\
    seg h' out [9000; 5000; 3000] 0 /\ what h' [9000; 5000; 3000] = [Some (4, 44); Some (1, 11); Some (3, 33)].
Proof.
  destruct (chain_replace_exact demo_size 5000 1024 demo_heap 1000 2000 [1000] [3000] (Some (9000, 9000)) [9000] 3)
    as [[H _]|(_ & (h' & out & Hr & Hs & Hw & _) & _)].
  - lia.
  - lia.
  - intros t. unfold demo_size. destruct (t =? 2); lia.
  - cbn. split_and!; [done|done|]. eexists. split; [reflexivity|]. cbn. split_and!; [done|done|]. eexists. split; [reflexivity|].
    cbn. split_and!; [done|done|]. eexists. split; reflexivity.
  - apply (bool_decide_unpack _). vm_compute. exact I.
  - cbn. lia.
  - repeat constructor; unfold in_storage; lia.
  - exists [], (mk_node 4 0 44). split_and!; try done; [apply NoDup_singleton|]. repeat constructor; [set_solver|unfold in_storage; lia].
  - vm_compute in H. discriminate H.
  - exists h', out. split; [exact Hr|]. split; [exact Hs|exact Hw].
Defined.

End Chain.

(** ** Private data of the loader's objects *)

Module LoaderPd.

Definition VK_OBJECT_TYPE_SURFACE_KHR : Z := 1000000000.
Definition VK_OBJECT_TYPE_SWAPCHAIN_KHR : Z := 1000001000.

Definition loader_obj (t : Z) : bool := (t =? VK_OBJECT_TYPE_SWAPCHAIN_KHR) || (t =? VK_OBJECT_TYPE_SURFACE_KHR).

(** Object type, handle and slot. *)
Definition key : Type := Z * Z * Z.
Record nvhal_loader_pd := mk_lpd { pd_key : key; pd_data : Z }.
Definition pd_slot (e : nvhal_loader_pd) : Z := (pd_key e).2.

(** [loader_pd], whose length is [loader_pd_count], and [loader_pd_cap]. *)
Record lpds := mk_lpds { loader_pd : list nvhal_loader_pd; loader_pd_cap : Z }.

Definition lpd_index (l : list nvhal_loader_pd) (k : key) : nat :=
  match list_find (fun e => pd_key e = k) l with Some (i, _) => i | None => length l end.

(** [realloc_ok]: the allocator's answer when the array must grow. *)
Definition loader_pd_set (realloc_ok : bool) (s : lpds) (k : key) (data : Z) : Z * lpds :=
  let i := lpd_index (loader_pd s) k in
  let count := Z.of_nat (length (loader_pd s)) in
  if (i =? length (loader_pd s))%nat then
    let cap := if (count =? loader_pd_cap s) && realloc_ok
               then (if loader_pd_cap s =? 0 then 16 else u32 (loader_pd_cap s * 2)) else loader_pd_cap s in
    if count <? cap then (Vk.VK_SUCCESS, mk_lpds (loader_pd s ++ [mk_lpd k data]) cap)
    else (Vk.VK_ERROR_OUT_OF_HOST_MEMORY, mk_lpds (loader_pd s) cap)
  else (Vk.VK_SUCCESS, mk_lpds (<[i := mk_lpd k data]> (loader_pd s)) (loader_pd_cap s)).

Definition loader_pd_get (s : lpds) (k : key) : Z :=
  match list_find (fun e => pd_key e = k) (loader_pd s) with Some (_, e) => pd_data e | None => 0 end.

Fixpoint forget_from (fuel : nat) (l : list nvhal_loader_pd) (i : nat) (sl : Z) : list nvhal_loader_pd :=
  match fuel with
  | O => l
  | S fuel =>
      match l !! i with
      | None => l
      | Some e => if pd_slot e =? sl then forget_from fuel (LinearMap.swap_remove l i) i sl else forget_from fuel l (S i) sl
      end
  end.
Definition loader_pd_forget_slot (s : lpds) (sl : Z) : lpds :=
  mk_lpds (forget_from (length (loader_pd s)) (loader_pd s) 0 sl) (loader_pd_cap s).

Definition nvhal_loader_pd_teardown (s : lpds) : lpds := mk_lpds [] 0.

(** ** Refinement of a finite map *)

Definition rep (s : lpds) (m : gmap key Z) : Prop :=
  NoDup (pd_key <$> loader_pd s) /\ m = list_to_map ((fun e => (pd_key e, pd_data e)) <$> loader_pd s).

Definition kv (e : nvhal_loader_pd) : key * Z := (pd_key e, pd_data e).
Lemma kv_fst l : (kv <$> l).*1 = pd_key <$> l.
Proof. rewrite <- list_fmap_compose. done. Qed.

Lemma rep_lookup s m k e : rep s m -> e ∈ loader_pd s -> pd_key e = k -> m !! k = Some (pd_data e).
Proof.
  intros [Hnd ->] He <-. apply elem_of_list_to_map_1; [by rewrite kv_fst|]. apply (list_elem_of_fmap_2 kv _ _ He).
Qed.
Lemma rep_absent s m k : rep s m -> list_find (fun e => pd_key e = k) (loader_pd s) = None -> m !! k = None.
Proof.
  intros [Hnd ->] Hf. apply not_elem_of_list_to_map_1. change (fun e => (pd_key e, pd_data e)) with kv. rewrite kv_fst.
  intros (e & -> & He)%list_elem_of_fmap. apply list_find_None in Hf. rewrite Forall_forall in Hf. by apply (Hf e He).
Qed.

Lemma get_rep s m k : rep s m -> loader_pd_get s k = default 0 (m !! k).
Proof.
  intros R. unfold loader_pd_get. destruct (list_find _ _) as [[i e]|] eqn:Hf.
  - apply list_find_Some in Hf as (Hi & He & _). rewrite (rep_lookup s m k e R); [done| |done]. by eapply list_elem_of_lookup_2.
  - by rewrite (rep_absent s m k R Hf).
Qed.

Lemma rep_insert s m k d i e cap :
  rep s m -> loader_pd s !! i = Some e -> pd_key e = k -> rep (mk_lpds (<[i := mk_lpd k d]> (loader_pd s)) cap) (<[k := d]> m).
Proof.
  intros [Hnd ->] Hi <-. split; cbn [loader_pd].
  - rewrite list_fmap_insert. cbn [pd_key]. by rewrite list_insert_id by (by rewrite list_lookup_fmap, Hi).
  - rewrite <- (take_drop_middle _ _ _ Hi). rewrite <- (take_drop_middle _ _ _ Hi) in Hnd.
    rewrite insert_app_r_alt by (rewrite length_take; lia). rewrite length_take, Nat.min_l, Nat.sub_diag by (apply lookup_lt_Some in Hi; lia).
    cbn [list_insert]. rewrite !fmap_app, !fmap_cons. cbn [pd_key pd_data].
    rewrite !list_to_map_app. cbn [list_to_map foldr]. cbn.
    assert (Hno : (list_to_map ((fun e => (pd_key e, pd_data e)) <$> take i (loader_pd s)) : gmap key Z) !! pd_key e = None).
    { apply not_elem_of_list_to_map_1. change (fun e => (pd_key e, pd_data e)) with kv. rewrite kv_fst.
      rewrite fmap_app, fmap_cons in Hnd. apply NoDup_app in Hnd as (_ & Hd & _). intros H. by apply (Hd _ H), elem_of_cons; left. }
    rewrite <- !insert_union_r by done. by rewrite insert_insert_eq.
Qed.

Lemma rep_push s m k d cap : rep s m -> m !! k = None -> rep (mk_lpds (loader_pd s ++ [mk_lpd k d]) cap) (<[k := d]> m).
Proof.
  intros [Hnd ->] Hno. change (fun e => (pd_key e, pd_data e)) with kv in *. apply not_elem_of_list_to_map_2 in Hno.
  rewrite kv_fst in Hno. split; cbn [loader_pd].
  - rewrite fmap_app. apply NoDup_app. split_and!; [done| |apply NoDup_singleton]. intros x Hx ->%list_elem_of_singleton. done.
  - rewrite fmap_app. cbn [fmap list_fmap pd_key pd_data]. rewrite list_to_map_snoc; [done|]. by rewrite kv_fst.
Qed.

Lemma index_spec l k :
  (exists e, l !! lpd_index l k = Some e /\ pd_key e = k) \/ (lpd_index l k = length l /\ list_find (fun e => pd_key e = k) l = None).
Proof.
  unfold lpd_index. destruct (list_find _ _) as [[i e]|] eqn:Hf; [left|by right].
  apply list_find_Some in Hf as (Hi & He & _). by exists e.
Qed.

Lemma forget_perm fuel l i sl :
  (length l <= fuel + i)%nat -> Forall (fun e => pd_slot e <> sl) (take i l) ->
  forget_from fuel l i sl ≡ₚ filter (fun e => pd_slot e <> sl) l.
Proof.
  revert l i. induction fuel as [|fuel IH]; intros l i Hf Ht; cbn [forget_from].
  - rewrite take_ge in Ht by lia. by rewrite filter_keeps.
  - destruct (l !! i) as [e|] eqn:Hi.
    + assert (Hlt := lookup_lt_Some _ _ _ Hi). destruct (Z.eqb_spec (pd_slot e) sl) as [Es|Es].
      * pose proof (LinearMap.swap_remove_perm _ _ _ Hi) as P. pose proof (LinearMap.swap_remove_length _ _ _ Hi) as L.
        rewrite IH; [|lia|].
        { rewrite P at 2. rewrite filter_cons_False by naive_solver. done. }
        { unfold LinearMap.swap_remove. destruct (last l) as [x|] eqn:El; [|done].
          rewrite removelast_firstn_len, length_insert, take_take, Nat.min_l, take_insert_ge by lia. done. }
      * rewrite IH; [done|lia|]. rewrite (take_S_r _ _ _ Hi). apply Forall_app. split; [done|]. by constructor.
    + rewrite take_ge in Ht by (by apply lookup_ge_None). by rewrite filter_keeps.
Qed.

Lemma kv_filter l sl :
  (list_to_map (kv <$> filter (fun e => pd_slot e <> sl) l) : gmap key Z) =
  filter (fun x : key * Z => x.1.2 <> sl) (list_to_map (kv <$> l)).
Proof.
  induction l as [|e l IH]; [symmetry; apply (map_filter_empty (M := gmap key))|].
  assert (E : (list_to_map (kv <$> e :: l) : gmap key Z) = <[pd_key e := pd_data e]> (list_to_map (kv <$> l))) by done. rewrite E.
  destruct (decide (pd_slot e <> sl)) as [H|H].
  - rewrite filter_cons_True by done. rewrite map_filter_insert_True by done. by rewrite <- IH.
  - rewrite filter_cons_False by done. rewrite map_filter_insert_False by done. rewrite IH.
    symmetry. apply map_filter_delete_not. intros y _ Hy. by apply H.
Qed.

Lemma forget_rep s m sl : rep s m -> rep (loader_pd_forget_slot s sl) (filter (fun x : key * Z => x.1.2 <> sl) m).
Proof.
  intros [Hnd ->]. unfold loader_pd_forget_slot, rep. cbn [loader_pd].
  pose proof (forget_perm (length (loader_pd s)) (loader_pd s) 0 sl ltac:(lia) ltac:(constructor)) as P.
  assert (Hnd2 : NoDup (pd_key <$> filter (fun e => pd_slot e <> sl) (loader_pd s))).
  { eapply sublist_NoDup; [exact Hnd|]. apply fmap_sublist, sublist_filter. }
  split; [by rewrite P|]. change (fun e => (pd_key e, pd_data e)) with kv. rewrite <- kv_filter. symmetry.
  apply list_to_map_proper; [rewrite kv_fst; by rewrite P|by rewrite P].
Qed.

(** The calls of a device and what the map specification answers: a failed
    [set] changes nothing. *)
Inductive pd_op :=
  | PSet (realloc_ok : bool) (k : key) (data : Z)
  | PGet (k : key)
  | PForget (slot : Z)
  | PTeardown.

Definition pd_run (o : pd_op) (s : lpds) : Z * lpds :=
  match o with
  | PSet ok k d => loader_pd_set ok s k d
  | PGet k => (loader_pd_get s k, s)
  | PForget sl => (0, loader_pd_forget_slot s sl)
  | PTeardown => (0, nvhal_loader_pd_teardown s)
  end.

Definition pd_spec (o : pd_op) (m : gmap key Z) (r : Z) : gmap key Z :=
  match o with
  | PSet _ k d => if r =? Vk.VK_SUCCESS then <[k := d]> m else m
  | PGet _ => m
  | PForget sl => filter (fun x : key * Z => x.1.2 <> sl) m
  | PTeardown => ∅
  end.

(** The answer the specification allows. *)
Definition pd_answer (o : pd_op) (m : gmap key Z) (r : Z) : Prop :=
  match o with
  | PSet ok k _ => r = Vk.VK_SUCCESS \/ (ok = false /\ m !! k = None /\ r = Vk.VK_ERROR_OUT_OF_HOST_MEMORY)
  | PGet k => r = default 0 (m !! k)
  | _ => True
  end.

Fixpoint pd_runs (os : list pd_op) (s : lpds) : list Z * lpds :=
  match os with
  | [] => ([], s)
  | o :: os => let '(r, s) := pd_run o s in let '(rs, s) := pd_runs os s in (r :: rs, s)
  end.
Fixpoint pd_allowed (os : list pd_op) (rs : list Z) (m : gmap key Z) : Prop :=
  match os, rs with
  | [], [] => True
  | o :: os, r :: rs => pd_answer o m r /\ pd_allowed os rs (pd_spec o m r)
  | _, _ => False
  end.

Definition cap_ok (n : nat) (s : lpds) : Prop :=
  (length (loader_pd s) <= n)%nat /\ (Z.of_nat n < 2 ^ 31 -> Z.of_nat (length (loader_pd s)) <= loader_pd_cap s).

Lemma set_refines n ok k d s m :
  rep s m -> cap_ok n s -> Z.of_nat n < 2 ^ 31 ->
  let r := loader_pd_set ok s k d in
  rep r.2 (pd_spec (PSet ok k d) m r.1) /\ pd_answer (PSet ok k d) m r.1 /\ cap_ok (S n) r.2.
Proof.
  intros R [C1 C2] Hn. cbn zeta. specialize (C2 Hn). unfold loader_pd_set.
  destruct (index_spec (loader_pd s) k) as [(e & Hi & He)|[Hi Hf]].
  - assert (Hlt := lookup_lt_Some _ _ _ Hi). rewrite (proj2 (Nat.eqb_neq _ _)) by lia. cbn [fst snd].
    split_and!; [by eapply rep_insert|by left|]. split; cbn [loader_pd loader_pd_cap]; rewrite length_insert; lia.
  - rewrite Hi, Nat.eqb_refl. pose proof (rep_absent s m k R Hf) as Hno.
    set (cap := if _ && ok then _ else _).
    assert (Hcap : loader_pd_cap s <= cap /\ (ok = true -> Z.of_nat (length (loader_pd s)) < cap)).
    { subst cap. destruct (Z.eqb_spec (Z.of_nat (length (loader_pd s))) (loader_pd_cap s)) as [E|E]; cbn [andb]; [|lia].
      destruct ok; [|split; [lia|done]]. destruct (Z.eqb_spec (loader_pd_cap s) 0); [lia|]. rewrite u32_id by (split; lia). lia. }
    destruct (Z.ltb_spec (Z.of_nat (length (loader_pd s))) cap) as [Hlt|Hge]; cbn [fst snd pd_spec].
    + rewrite Z.eqb_refl. split_and!; [by apply rep_push|by left|]. split; cbn [loader_pd loader_pd_cap]; rewrite length_app; cbn; lia.
    + split_and!; [done| |split; cbn [loader_pd loader_pd_cap]; lia]. right. split_and!; [|done|done]. destruct ok; [lia|done].
Qed.

Lemma op_refines n o s m :
  rep s m -> cap_ok n s -> Z.of_nat n < 2 ^ 31 ->
  rep (pd_run o s).2 (pd_spec o m (pd_run o s).1) /\ pd_answer o m (pd_run o s).1 /\ cap_ok (S n) (pd_run o s).2.
Proof.
  intros R C Hn. destruct o as [ok k d|k|sl|]; [by apply (set_refines n)| | |]; cbn [pd_run fst snd pd_spec pd_answer].
  - split_and!; [done|by apply get_rep|]. destruct C as [C1 C2]. specialize (C2 Hn). split; lia.
  - split_and!; [by apply forget_rep|done|]. destruct C as [C1 C2]. specialize (C2 Hn). unfold loader_pd_forget_slot. split; cbn [loader_pd loader_pd_cap];
      rewrite (forget_perm (length (loader_pd s)) (loader_pd s) 0 sl ltac:(lia) ltac:(constructor));
      pose proof (length_filter (fun e => pd_slot e <> sl) (loader_pd s)); lia.
  - split_and!; [split; [constructor|done]|done|split; cbn; lia].
Qed.

Lemma runs_refine os n s m :
  rep s m -> cap_ok n s -> Z.of_nat (n + length os) < 2 ^ 31 -> pd_allowed os (pd_runs os s).1 m.
Proof.
  revert n s m. induction os as [|o os IH]; intros n s m R C Hn; cbn [pd_runs]; [done|]. cbn [length] in Hn.
  destruct (op_refines n o s m R C ltac:(lia)) as (R1 & A & C1). destruct (pd_run o s) as [r s1]. cbn [fst snd] in *.
  specialize (IH (S n) s1 _ R1 C1 ltac:(lia)). destruct (pd_runs os s1) as [rs s2]. cbn [fst] in *. by split.
Qed.

(** any sequence of vkSetPrivateData, vkGetPrivateData and
    vkDestroyPrivateDataSlot calls on swapchains and surfaces is answered as a
    finite map from (object type, handle, slot) would: a value never set reads
    0, a destroyed slot's values are gone, and a set fails only when the array
    is full and cannot grow, in which case nothing changes. *)
Theorem loader_pd_refines_map (os : list pd_op) :
  Z.of_nat (length os) < 2 ^ 31 -> pd_allowed os (pd_runs os (mk_lpds [] 0)).1 ∅.
Proof. intros H. apply (runs_refine os 0); [by split; [constructor|]|by split|done]. Qed.

Lemma loader_pd_refines_map_witness :
  (pd_runs [PSet true (1, 2, 3) 7; PGet (1, 2, 3); PForget 3; PGet (1, 2, 3)] (mk_lpds [] 0)).1 = [0; 7; 0; 0] /\
  pd_allowed [PSet true (1, 2, 3) 7; PGet (1, 2, 3); PForget 3; PGet (1, 2, 3)] [0; 7; 0; 0] ∅.
Proof.
  split; [vm_compute; reflexivity|].
  exact (loader_pd_refines_map [PSet true (1, 2, 3) 7; PGet (1, 2, 3); PForget 3; PGet (1, 2, 3)] ltac:(cbn; lia)).
Defined.

End LoaderPd.
