(* ===== verification/GrallocFormat.v ===== *)
(** * Decisions of the NVIDIA buffer allocator
      ([nvidia-prolapse/gralloc/nvidia_gbm_wrapper.c])

    The parts of the allocator that decide without side effects: the format
    whitelist, which DRM modifiers an image may have, which memory type it
    goes to, whether the driver's row layout is usable, and where the planes
    of a two-plane buffer go.  [GrallocAlloc] and [GrallocMap] run them
    against the driver. *)

From Stdlib Require Import ZArith Lia.
From stdpp Require Import base option sets strings gmap list.
From S2P Require Import Prelude Vulkan.

Set Default Goal Selector "!".
#[local] Open Scope Z_scope.

Module GrallocFormat.
Import Vk.

Record nvg_format := mk_format {
  drm : Z;
  vkf : Z;
  srgb : Z;
  bpp : Z;
  name : string;
}.

Definition nvg_formats : list nvg_format := [
  mk_format DRM_FORMAT_R8 VK_FORMAT_R8_UNORM VK_FORMAT_UNDEFINED 1 "R8";
  mk_format DRM_FORMAT_RGB565 VK_FORMAT_R5G6B5_UNORM_PACK16 VK_FORMAT_UNDEFINED 2 "RGB565";
  mk_format DRM_FORMAT_XRGB8888 VK_FORMAT_B8G8R8A8_UNORM VK_FORMAT_B8G8R8A8_SRGB 4 "XRGB8888";
  mk_format DRM_FORMAT_ARGB8888 VK_FORMAT_B8G8R8A8_UNORM VK_FORMAT_B8G8R8A8_SRGB 4 "ARGB8888";
  mk_format DRM_FORMAT_XBGR8888 VK_FORMAT_R8G8B8A8_UNORM VK_FORMAT_R8G8B8A8_SRGB 4 "XBGR8888";
  mk_format DRM_FORMAT_ABGR8888 VK_FORMAT_R8G8B8A8_UNORM VK_FORMAT_R8G8B8A8_SRGB 4 "ABGR8888";
  mk_format DRM_FORMAT_ABGR2101010 VK_FORMAT_A2B10G10R10_UNORM_PACK32 VK_FORMAT_UNDEFINED 4 "ABGR2101010";
  mk_format DRM_FORMAT_ABGR16161616F VK_FORMAT_R16G16B16A16_SFLOAT VK_FORMAT_UNDEFINED 8 "ABGR16161616F"
].

Fixpoint find_in (l : list nvg_format) (drm_format : Z) : option nvg_format :=
  match l with
  | [] => None
  | f :: l => if drm f =? drm_format then Some f else find_in l drm_format
  end.
Definition find_format (drm_format : Z) : option nvg_format := find_in nvg_formats drm_format.

Definition nvg_get_gbm_format (drm_format : Z) : Z :=
  match find_format drm_format with Some _ => drm_format | None => 0 end.

Lemma find_in_Some l d f : find_in l d = Some f -> f ∈ l /\ drm f = d.
Proof.
  induction l as [|g l IH]; simpl; [done|]. destruct (Z.eqb_spec (drm g) d) as [<-|_].
  - intros [= ->]. split; [set_solver|done].
  - intros [? ?]%IH. split; [set_solver|done].
Qed.

Lemma find_format_bpp d f : find_format d = Some f -> bpp f ∈ [1; 2; 4; 8].
Proof.
  intros [Hf _]%find_in_Some. unfold nvg_formats in Hf.
  repeat (apply elem_of_cons in Hf as [->|Hf]; [set_solver|]). by apply elem_of_nil in Hf.
Qed.

Lemma bpp_pos d f : find_format d = Some f -> 0 < bpp f <= 8.
Proof.
  intros H%find_format_bpp. repeat (apply elem_of_cons in H as [H|H]; [lia|]). by apply elem_of_nil in H.
Qed.

(** ** Modifier selection *)

(** [while (gob_rows > 1) { gob_rows = ceil(gob_rows / 2); max_log2++; }]: a
    32-bit row count is down to one in at most 32 steps. *)
Fixpoint gob_log2 (fuel : nat) (gob_rows max_log2 : Z) : Z :=
  match fuel with
  | O => max_log2
  | S fuel =>
      if 1 <? gob_rows
      then gob_log2 fuel (gob_rows / 2 + (if gob_rows mod 2 =? 0 then 0 else 1)) (max_log2 + 1)
      else max_log2
  end.

Definition modifier_fits_height (modifier height : Z) : bool :=
  let gob_generation := Z.land (Z.shiftr modifier 20) 3 in
  if negb (Z.shiftr modifier 56 =? 3) || (Z.land modifier 0x10 =? 0)
     || (negb (gob_generation =? 0) && negb (gob_generation =? 2))
  then true
  else
    let gob_rows := height / 8 + (if height mod 8 =? 0 then 0 else 1) in
    Z.land modifier 0xf <=? gob_log2 32 gob_rows 0.

Definition NVG_MAX_MODS : nat := 64.

(** The features a candidate modifier must have. *)
Definition need_features (linear : bool) : Z :=
  Z.lor (Z.lor (Z.lor FEATURE_SAMPLED_IMAGE FEATURE_TRANSFER_SRC) FEATURE_TRANSFER_DST)
        (if linear then 0 else FEATURE_COLOR_ATTACHMENT).

Definition candidate_ok (linear : bool) (h : Z) (p : VkDrmFormatModifierProperties2EXT) : bool :=
  let is_linear := drmFormatModifier p =? DRM_FORMAT_MOD_LINEAR in
  negb ((drmFormatModifier p =? DRM_FORMAT_MOD_INVALID) || negb (eqb is_linear linear)
        || negb (drmFormatModifierPlaneCount p =? 1)
        || negb (has_all (drmFormatModifierTilingFeatures p) (need_features linear)))
  && modifier_fits_height (drmFormatModifier p) h.

Record candidates := mk_cand {
  c_mods : list Z;         (** [mods[0 .. n-1]] *)
  c_storage : bool;
  c_color : bool;
  c_linear : bool;         (** the layout that will be used *)
}.

Definition add_candidate (linear : bool) (h : Z) (c : candidates)
  (p : VkDrmFormatModifierProperties2EXT) : candidates :=
  if candidate_ok linear h p then
    mk_cand (c_mods c ++ [drmFormatModifier p])
      (c_storage c && has_any (drmFormatModifierTilingFeatures p) FEATURE_STORAGE_IMAGE)
      (c_color c && has_any (drmFormatModifierTilingFeatures p) FEATURE_COLOR_ATTACHMENT)
      (c_linear c)
  else c.

(** The NVG_SOURCE_RM fallback: explicit LINEAR with the same features. *)
Definition rm_linear_ok (linear : bool) (p : VkDrmFormatModifierProperties2EXT) : bool :=
  negb (negb (drmFormatModifier p =? DRM_FORMAT_MOD_LINEAR)
        || negb (drmFormatModifierPlaneCount p =? 1)
        || negb (has_all (drmFormatModifierTilingFeatures p) (need_features linear))).

(** [source_rm]: built with NVG_SOURCE_RM.  The driver's list is cut to
    [NVG_MAX_MODS] entries. *)
Definition modifier_candidates (source_rm linear : bool) (h : Z)
  (mprops : list VkDrmFormatModifierProperties2EXT) : candidates :=
  let ps := take NVG_MAX_MODS mprops in
  let c := foldl (add_candidate linear h) (mk_cand [] true true linear) ps in
  if source_rm && bool_decide (c_mods c = []) && negb linear then
    match list_find (fun p => rm_linear_ok linear p = true) ps with
    | Some (_, p) =>
        mk_cand [DRM_FORMAT_MOD_LINEAR]
          (has_any (drmFormatModifierTilingFeatures p) FEATURE_STORAGE_IMAGE) true true
    | None => c
    end
  else c.

Definition image_usage (c : candidates) : Z :=
  Z.lor (Z.lor (Z.lor (Z.lor USAGE_SAMPLED USAGE_TRANSFER_SRC) USAGE_TRANSFER_DST)
    (if c_color c then USAGE_COLOR_ATTACHMENT else 0))
    (if c_storage c then USAGE_STORAGE else 0).

(** The driver's answer to the image query for one modifier. *)
Record image_query := mk_query {
  q_result : Z;
  q_extmem : Z;
  q_maxw : Z;
  q_maxh : Z;
}.

Definition query_ok (w h : Z) (q : image_query) : bool :=
  negb (negb (q_result q =? VK_SUCCESS) || negb (has_any (q_extmem q) EXTMEM_EXPORTABLE)
        || (q_maxw q <? w) || (q_maxh q <? h)).

(** [mods[m++] = mods[i]] for the modifiers the query accepts. *)
Definition accepted_mods (query : Z -> image_query) (w h : Z) (mods : list Z) : list Z :=
  filter (fun m => query_ok w h (query m) = true) mods.

(** ** Memory type *)

(** [for (i = 0; i < memoryTypeCount; i++) if ((bits & (1u << i)) && (flags[i] & want) == want)] *)
Fixpoint first_type (types : list Z) (i : Z) (ok : Z -> Z -> bool) : option Z :=
  match types with
  | [] => None
  | fl :: types => if ok i fl then Some i else first_type types (i + 1) ok
  end.

Definition type_matches (bits want i fl : Z) : bool := Z.testbit bits i && has_all fl want.

Definition host_flags (cpu_read_often : bool) : Z :=
  Z.lor (Z.lor MEM_HOST_VISIBLE MEM_HOST_COHERENT) (if cpu_read_often then MEM_HOST_CACHED else 0).

(** Pass 0 (LINEAR only) looks for host memory, pass 1 (not for a buffer the
    CPU reads often) for device-local memory. *)
Definition memory_type (linear cpu_read_often : bool) (bits : Z) (types : list Z) : option Z :=
  let pass0 := if linear then first_type types 0 (type_matches bits (host_flags cpu_read_often)) else None in
  match pass0 with
  | Some t => Some t
  | None => if cpu_read_often then None
            else first_type types 0 (type_matches bits MEM_DEVICE_LOCAL)
  end.

(** ** Row layout *)

Definition layout_unusable (mappable : bool) (w bpp : Z) (l : VkSubresourceLayout) : bool :=
  negb (l_offset l =? 0) || (l_rowPitch l =? 0) || (UINT32_MAX <? l_rowPitch l)
  || (mappable && (negb (l_rowPitch l mod bpp =? 0) || (l_rowPitch l <? u64 (w * bpp)))).

(** ** Planes of a two-plane LINEAR buffer *)

(** One iteration of step 2 of [nvg_plane_layout], on [uint64_t]. *)
Definition place_plane (offset fin : Z) (r : VkMemoryRequirements) : option (Z * Z) :=
  let a := if req_alignment r =? 0 then 1 else req_alignment r in
  let o := if fin <? offset then offset else fin in
  let o := u64 (u64 (o + a - 1) / a * a) in
  if UINT32_MAX <? o then None else Some (o, u64 (o + req_size r)).

Definition place_planes (offset0 offset1 : Z) (r0 r1 : VkMemoryRequirements) : option (Z * Z * Z) :=
  '(o0, e0) ← place_plane offset0 0 r0;
  '(o1, e1) ← place_plane offset1 e0 r1;
  Some (o0, o1, e1).

(** ** Block height *)

Lemma half_up n : n / 2 + (if n mod 2 =? 0 then 0 else 1) = (n + 1) / 2.
Proof.
  pose proof (Z.div_mod n 2 ltac:(lia)). pose proof (Z.mod_pos_bound n 2 ltac:(lia)).
  destruct (Z.eqb_spec (n mod 2) 0) as [E|E].
  - apply (Z.div_unique_pos (n + 1) 2 (n / 2 + 0) 1); lia.
  - apply (Z.div_unique_pos (n + 1) 2 (n / 2 + 1) 0); lia.
Qed.

Lemma log2_up_half n : 1 < n -> Z.log2_up n = Z.log2_up ((n + 1) / 2) + 1.
Proof.
  intros Hn. destruct (Z.log2_up_spec n Hn) as [Hlo Hhi].
  assert (0 < Z.log2_up n) by (by apply Z.log2_up_pos).
  set (k := Z.log2_up n) in *. assert (Hk : 2 ^ k = 2 * 2 ^ (k - 1)).
  { replace k with (Z.succ (k - 1)) at 1 by lia. by rewrite Z.pow_succ_r by lia. }
  destruct (decide (k = 1)) as [E|E].
  - rewrite E in *. simpl in *. assert (n = 2) as -> by lia. reflexivity.
  - assert (Z.log2_up ((n + 1) / 2) = k - 1); [|lia].
    apply Z.log2_up_unique; [lia|].
    assert (H2 : 2 ^ (k - 1) = 2 * 2 ^ (Z.pred (k - 1))).
    { replace (k - 1) with (Z.succ (Z.pred (k - 1))) at 1 by lia. by rewrite Z.pow_succ_r by lia. }
    replace (Z.pred k) with (k - 1) in Hlo by lia.
    split.
    + assert (2 ^ Z.pred (k - 1) + 1 <= (n + 1) / 2) by (apply Z.div_le_lower_bound; lia). lia.
    + assert ((n + 1) / 2 < 2 ^ (k - 1) + 1) by (apply Z.div_lt_upper_bound; lia). lia.
Qed.

Lemma gob_log2_spec fuel n acc :
  0 < n <= 2 ^ Z.of_nat fuel -> gob_log2 fuel n acc = acc + Z.log2_up n.
Proof.
  revert n acc. induction fuel as [|fuel IH]; intros n acc Hn; cbn [gob_log2].
  - change (2 ^ Z.of_nat 0) with 1 in Hn. assert (n = 1) as -> by lia. change (Z.log2_up 1) with 0. lia.
  - rewrite half_up. destruct (Z.ltb_spec 1 n) as [H1|H1].
    + rewrite Nat2Z.inj_succ, Z.pow_succ_r in Hn by lia.
      assert (0 < (n + 1) / 2) by (apply Z.div_str_pos; lia).
      assert ((n + 1) / 2 < 2 ^ Z.of_nat fuel + 1) by (apply Z.div_lt_upper_bound; lia).
      rewrite IH by lia. rewrite (log2_up_half n) by lia. lia.
    + assert (n = 1) as -> by lia. change (Z.log2_up 1) with 0. lia.
Qed.

(** A modifier of the generations whose block height the driver clamps:
    NVIDIA vendor code, block-linear, GOB generation 0 or 2. *)
Definition clamped_generation (modifier : Z) : bool :=
  (Z.shiftr modifier 56 =? 3) && negb (Z.land modifier 0x10 =? 0)
  && ((Z.land (Z.shiftr modifier 20) 3 =? 0) || (Z.land (Z.shiftr modifier 20) 3 =? 2)).

Lemma ceil8 h : h / 8 + (if h mod 8 =? 0 then 0 else 1) = (h + 7) / 8.
Proof.
  pose proof (Z.div_mod h 8 ltac:(lia)). pose proof (Z.mod_pos_bound h 8 ltac:(lia)).
  destruct (Z.eqb_spec (h mod 8) 0) as [E|E].
  - apply (Z.div_unique_pos (h + 7) 8 (h / 8 + 0) 7); lia.
  - apply (Z.div_unique_pos (h + 7) 8 (h / 8 + 1) (h mod 8 - 1)); lia.
Qed.

Lemma le_log2_up b n : 0 <= b -> 0 < n -> b <= Z.log2_up n <-> b = 0 \/ 2 ^ (b - 1) < n.
Proof.
  intros Hb Hn. pose proof (Z.log2_up_nonneg n). destruct (decide (b = 0)) as [->|Hb0]; [naive_solver lia|].
  rewrite (Z.log2_up_lt_pow2 n (b - 1)) by lia. split; [intros; right; lia|intros [?|?]; lia].
Qed.

(** [modifier_fits_height] accepts a block-linear modifier of the clamped
    generations exactly when its block (8 rows times [2^b]) is at most the
    smallest power-of-two number of GOBs covering the image, i.e. a block
    half as high would not cover the height; every other modifier passes.
    The halving loop terminates within 32 steps on every 32-bit height. *)
Theorem modifier_fits_height_spec (modifier height : Z) :
  0 <= modifier -> 0 < height < 2 ^ 32 ->
  modifier_fits_height modifier height = true <->
  (clamped_generation modifier = true ->
   modifier mod 16 = 0 \/ 8 * 2 ^ (modifier mod 16 - 1) < height).
Proof.
  intros Hm Hh. unfold modifier_fits_height, clamped_generation.
  assert (0 < (height + 7) / 8) by (apply Z.div_str_pos; lia).
  assert ((height + 7) / 8 < 2 ^ 29 + 1) by (apply Z.div_lt_upper_bound; lia).
  rewrite ceil8, gob_log2_spec by lia. change 0xf with (16 - 1). rewrite (land_pow2_mask modifier 16 4) by done.
  rewrite Z.add_0_l.
  pose proof (Z.mod_pos_bound modifier 16 ltac:(lia)) as Hb. set (b := modifier mod 16) in *.
  assert (Hiff : (b <=? Z.log2_up ((height + 7) / 8)) = true <-> b = 0 \/ 8 * 2 ^ (b - 1) < height).
  { rewrite Z.leb_le, le_log2_up by lia. assert (2 ^ (b - 1) < (height + 7) / 8 <-> 8 * 2 ^ (b - 1) < height); [|tauto].
    split; intros H'.
    - pose proof (Z.mul_div_le (height + 7) 8 ltac:(lia)). lia.
    - assert (2 ^ (b - 1) + 1 <= (height + 7) / 8); [|lia]. apply Z.div_le_lower_bound; lia. }
  destruct (Z.shiftr modifier 56 =? 3), (Z.land modifier 0x10 =? 0),
    (Z.land (Z.shiftr modifier 20) 3 =? 0), (Z.land (Z.shiftr modifier 20) 3 =? 2); cbn [negb andb orb]; rewrite ?Hiff; intuition congruence.
Qed.

Lemma modifier_fits_height_spec_witness :
  modifier_fits_height 0x0300000000606014 100 = true /\ modifier_fits_height 0x0300000000606014 64 = false /\
  8 * 2 ^ (0x0300000000606014 mod 16 - 1) < 100.
Proof.
  split; [|split; [reflexivity|reflexivity]].
  apply (proj2 (modifier_fits_height_spec 0x0300000000606014 100 ltac:(lia) ltac:(lia))).
  intros _. right. reflexivity.
Defined.

(** ** Candidates *)

Definition has_storage (p : VkDrmFormatModifierProperties2EXT) : bool :=
  has_any (drmFormatModifierTilingFeatures p) FEATURE_STORAGE_IMAGE.
Definition has_color (p : VkDrmFormatModifierProperties2EXT) : bool :=
  has_any (drmFormatModifierTilingFeatures p) FEATURE_COLOR_ATTACHMENT.

(** The loop is a filter with two conjunctions. *)
Lemma fold_candidates linear h ps c :
  foldl (add_candidate linear h) c ps =
  let ok := filter (fun p => candidate_ok linear h p = true) ps in
  mk_cand (c_mods c ++ (drmFormatModifier <$> ok)) (c_storage c && forallb has_storage ok)
    (c_color c && forallb has_color ok) (c_linear c).
Proof.
  revert c. induction ps as [|p ps IH]; intros c; simpl.
  { rewrite app_nil_r, !andb_true_r. by destruct c. }
  rewrite IH. unfold add_candidate. rewrite filter_cons.
  destruct (candidate_ok linear h p); simpl.
  - rewrite <- app_assoc, !andb_assoc. done.
  - done.
Qed.

Lemma candidate_ok_facts linear h p :
  candidate_ok linear h p = true ->
  drmFormatModifier p <> DRM_FORMAT_MOD_INVALID /\ drmFormatModifierPlaneCount p = 1 /\
  has_all (drmFormatModifierTilingFeatures p) (need_features linear) = true /\
  (drmFormatModifier p = DRM_FORMAT_MOD_LINEAR <-> linear = true) /\
  modifier_fits_height (drmFormatModifier p) h = true.
Proof.
  unfold candidate_ok. intros [H Hf]%andb_true_iff. bool_props. apply eqb_prop in H2.
  split_and!; try done. rewrite <- H2. symmetry. apply Z.eqb_eq.
Qed.

Lemma forallb_elem {A} (f : A -> bool) l x : forallb f l = true -> x ∈ l -> f x = true.
Proof. rewrite forallb_forall. intros H Hx. apply H. by apply list_elem_of_In. Qed.

Lemma rm_linear_ok_facts linear p :
  rm_linear_ok linear p = true ->
  drmFormatModifier p = DRM_FORMAT_MOD_LINEAR /\ drmFormatModifierPlaneCount p = 1 /\
  has_all (drmFormatModifierTilingFeatures p) (need_features linear) = true.
Proof. unfold rm_linear_ok. intros H. bool_props. by split_and!. Qed.

(** Colour-attachment support of a block-linear candidate is part of the need. *)
Lemma need_color p :
  has_all (drmFormatModifierTilingFeatures p) (need_features false) = true -> has_color p = true.
Proof.
  unfold need_features. rewrite has_all_lor. intros [_ H]. unfold has_color, has_any, has_all in *.
  apply Z.eqb_eq in H. rewrite H. done.
Qed.

(** the modifier candidates are sound: each one is an entry of the
    driver's list with a single plane and the required features, LINEAR
    exactly when the chosen layout is LINEAR, fitting the image's height when
    it is block-linear; the image usage asks for STORAGE and COLOR_ATTACHMENT
    only if every candidate supports them.  In proprietary mode the layout is
    the requested one ("not substituting another layout"); in source mode
    LINEAR replaces block-linear only if no block-linear modifier qualifies. *)
Theorem candidates_sound (source_rm linear : bool) (h : Z)
  (mprops : list VkDrmFormatModifierProperties2EXT) :
  let c := modifier_candidates source_rm linear h mprops in
  (forall m, m ∈ c_mods c -> exists p, p ∈ take NVG_MAX_MODS mprops /\ drmFormatModifier p = m /\
     drmFormatModifierPlaneCount p = 1 /\
     has_all (drmFormatModifierTilingFeatures p) (need_features linear) = true /\
     (m = DRM_FORMAT_MOD_LINEAR <-> c_linear c = true) /\
     (c_linear c = false -> modifier_fits_height m h = true) /\
     (c_storage c = true -> has_storage p = true) /\ (c_color c = true -> has_color p = true)) /\
  (source_rm = false -> c_linear c = linear) /\
  (c_linear c <> linear -> linear = false /\
     forall p, p ∈ take NVG_MAX_MODS mprops -> candidate_ok false h p = false).
Proof.
  simpl. unfold modifier_candidates. set (ps := take NVG_MAX_MODS mprops). rewrite fold_candidates.
  cbn [c_mods c_storage c_color c_linear app andb].
  set (ok := filter _ ps).
  assert (Hplain : forall m, m ∈ drmFormatModifier <$> ok -> exists p, p ∈ ps /\ drmFormatModifier p = m /\
     drmFormatModifierPlaneCount p = 1 /\
     has_all (drmFormatModifierTilingFeatures p) (need_features linear) = true /\
     (m = DRM_FORMAT_MOD_LINEAR <-> linear = true) /\
     (linear = false -> modifier_fits_height m h = true) /\
     (forallb has_storage ok = true -> has_storage p = true) /\
     (forallb has_color ok = true -> has_color p = true)).
  { intros m (p & -> & Hp)%list_elem_of_fmap. pose proof Hp as [Hok Hin]%list_elem_of_filter.
    destruct (candidate_ok_facts _ _ _ Hok) as (_ & H1 & H2 & H3 & H4).
    exists p. split_and!; try done; intros ?; by eapply forallb_elem. }
  destruct (source_rm && bool_decide (drmFormatModifier <$> ok = []) && negb linear) eqn:Erm.
  2:{ split; [exact Hplain|]. split; [done|]. intros E. done. }
  apply andb_true_iff in Erm as [[Hs Hnil%bool_decide_eq_true]%andb_true_iff Hl%negb_true_iff].
  subst source_rm linear. destruct (list_find _ ps) as [[i p]|] eqn:Ef.
  - apply list_find_Some in Ef as (Hi & Hp & _).
    destruct (rm_linear_ok_facts _ _ Hp) as (H1 & H2 & H3). cbn [c_mods c_storage c_color c_linear]. split_and!.
    + intros m ->%list_elem_of_singleton. exists p. split_and!; try done.
      * by eapply list_elem_of_lookup_2.
      * intros _. by apply need_color.
    + done.
    + intros _. split; [done|]. intros q Hq. destruct (candidate_ok false h q) eqn:E; [|done].
      assert (Hin : q ∈ ok) by (by apply list_elem_of_filter).
      apply fmap_nil_inv in Hnil. rewrite Hnil in Hin. by apply elem_of_nil in Hin.
  - split; [exact Hplain|]. split; [done|]. done.
Qed.

(** ** Memory types *)

Lemma first_type_Some types i ok t :
  first_type types i ok = Some t ->
  i <= t < i + Z.of_nat (length types) /\
  (exists fl, types !! Z.to_nat (t - i) = Some fl /\ ok t fl = true) /\
  (forall j fl, (j < Z.to_nat (t - i))%nat -> types !! j = Some fl -> ok (i + Z.of_nat j) fl = false).
Proof.
  revert i. induction types as [|fl types IH]; intros i; simpl; [done|].
  destruct (ok i fl) eqn:E.
  - intros [= <-]. rewrite Z.sub_diag. split_and!; [lia|lia|by exists fl|lia].
  - intros (H1 & (fl' & H2 & H3) & H4)%IH.
    replace (Z.to_nat (t - i)) with (S (Z.to_nat (t - (i + 1)))) by lia.
    split_and!; [lia|lia|by exists fl'|]. intros [|j] fl0 Hj Hl; simpl in Hl.
    + injection Hl as <-. by rewrite Z.add_0_r.
    + replace (i + Z.of_nat (S j)) with (i + 1 + Z.of_nat j) by lia. apply (H4 j); [lia|done].
Qed.

Lemma first_type_None types i ok :
  first_type types i ok = None ->
  forall j fl, types !! j = Some fl -> ok (i + Z.of_nat j) fl = false.
Proof.
  revert i. induction types as [|fl types IH]; intros i; simpl; [done|].
  destruct (ok i fl) eqn:E; [done|]. intros H [|j] fl0 Hl; simpl in Hl.
  - injection Hl as <-. by rewrite Z.add_0_r.
  - replace (i + Z.of_nat (S j)) with (i + 1 + Z.of_nat j) by lia. by apply IH.
Qed.

Lemma type_matches_facts bits want i fl :
  type_matches bits want i fl = true -> Z.testbit bits i = true /\ has_all fl want = true.
Proof. unfold type_matches. by intros [? ?]%andb_true_iff. Qed.

(** A type acceptable to the image in [bits] whose flags are in [types]. *)
Definition is_type (types : list Z) (bits t want : Z) : Prop :=
  Z.testbit bits t = true /\ exists fl, types !! Z.to_nat t = Some fl /\ has_all fl want = true.

Lemma first_type_is types bits want t :
  first_type types 0 (type_matches bits want) = Some t ->
  0 <= t < Z.of_nat (length types) /\ is_type types bits t want.
Proof.
  intros (H1 & (fl & H2 & H3) & _)%first_type_Some. rewrite Z.sub_0_r in H2.
  apply type_matches_facts in H3 as [? ?]. split; [lia|]. split; [done|]. by exists fl.
Qed.

(** memory placement: the chosen type is one the image accepts; a buffer
    the CPU reads often is placed in HOST_VISIBLE|HOST_COHERENT|HOST_CACHED
    memory or not at all; a block-linear image is DEVICE_LOCAL; a LINEAR one
    falls back to DEVICE_LOCAL only when no acceptable type is host-coherent.
    It fails exactly when no acceptable type exists. *)
Theorem memory_type_sound (linear cpu_read_often : bool) (bits : Z) (types : list Z) :
  (cpu_read_often = true -> linear = true) ->
  match memory_type linear cpu_read_often bits types with
  | Some t => 0 <= t < Z.of_nat (length types) /\
      (linear = false -> is_type types bits t MEM_DEVICE_LOCAL) /\
      (cpu_read_often = true -> is_type types bits t (host_flags true)) /\
      (linear = true ->
        is_type types bits t (host_flags false) \/
        (is_type types bits t MEM_DEVICE_LOCAL /\
         forall j, ~ is_type types bits (Z.of_nat j) (host_flags cpu_read_often)))
  | None => (linear = true -> forall j, ~ is_type types bits (Z.of_nat j) (host_flags cpu_read_often)) /\
      (cpu_read_often = false -> forall j, ~ is_type types bits (Z.of_nat j) MEM_DEVICE_LOCAL)
  end.
Proof.
  intros Hc.
  assert (Hno : forall want, first_type types 0 (type_matches bits want) = None ->
    forall j, ~ is_type types bits (Z.of_nat j) want).
  { intros want H j (Hb & fl & Hl & Hf). rewrite Nat2Z.id in Hl.
    pose proof (first_type_None _ _ _ H j fl Hl) as Hm. unfold type_matches in Hm.
    rewrite Z.add_0_l, Hb, Hf in Hm. done. }
  assert (Hweak : forall t, is_type types bits t (host_flags cpu_read_often) -> is_type types bits t (host_flags false)).
  { intros t (Hb & fl & Hl & Hf). split; [done|]. exists fl. split; [done|].
    unfold host_flags in *. rewrite has_all_lor in Hf. rewrite has_all_lor. split; [apply Hf|].
    unfold has_all. by rewrite Z.land_0_r. }
  unfold memory_type. destruct linear.
  - destruct (first_type types 0 (type_matches bits (host_flags cpu_read_often))) as [t|] eqn:E.
    + apply first_type_is in E as [Ht Hi]. split_and!; try done; [lia|lia| |].
      * intros ->. done.
      * intros _. left. by apply Hweak.
    + destruct cpu_read_often; [split; [intros _; by apply Hno|done]|].
      destruct (first_type types 0 (type_matches bits MEM_DEVICE_LOCAL)) as [t|] eqn:E'.
      * apply first_type_is in E' as [Ht Hi]. split_and!; try done; [lia|lia|].
        intros _. right. split; [done|]. by apply Hno.
      * split; intros _; by apply Hno.
  - destruct cpu_read_often; [naive_solver|].
    destruct (first_type types 0 (type_matches bits MEM_DEVICE_LOCAL)) as [t|] eqn:E'.
    + apply first_type_is in E' as [Ht Hi]. split_and!; try done; lia.
    + split; [done|]. intros _. by apply Hno.
Qed.

Lemma memory_type_sound_witness :
  memory_type true true 14 [1; 6; 14; 14] = Some 2 /\ is_type [1; 6; 14; 14] 14 2 (host_flags true).
Proof.
  split; [reflexivity|].
  pose proof (memory_type_sound true true 14 [1; 6; 14; 14] ltac:(reflexivity)) as H.
  change (memory_type true true 14 [1; 6; 14; 14]) with (Some 2) in H.
  destruct H as (_ & _ & H & _). apply H. reflexivity.
Defined.

(** ** Plane placement *)

Lemma place_plane_spec offset fin r o e :
  is_u32 offset -> 0 <= fin < 2 ^ 63 -> 0 <= req_alignment r < 2 ^ 62 -> 0 <= req_size r < 2 ^ 62 ->
  place_plane offset fin r = Some (o, e) ->
  offset <= o /\ fin <= o <= UINT32_MAX /\ (req_alignment r <> 0 -> (req_alignment r | o)) /\
  e = o + req_size r.
Proof.
  intros Ho Hf Ha Hs. unfold place_plane, is_u32 in *.
  set (a := if req_alignment r =? 0 then 1 else req_alignment r).
  assert (Hap : 0 < a < 2 ^ 62 /\ (req_alignment r <> 0 -> a = req_alignment r))
    by (unfold a; destruct (Z.eqb_spec (req_alignment r) 0); split; lia).
  clearbody a. destruct Hap as [Hap Hae].
  set (o0 := if fin <? offset then offset else fin).
  assert (Ho0 : offset <= o0 /\ fin <= o0 < 2 ^ 63) by (unfold o0; destruct (Z.ltb_spec fin offset); lia).
  clearbody o0. replace (o0 + a - 1) with (o0 + (a - 1)) by lia.
  rewrite (u64_id (o0 + (a - 1))) by (unfold is_u64; lia).
  pose proof (align_up_bounds o0 a ltac:(lia)) as Hb.
  rewrite (u64_id (_ / a * a)) by (unfold is_u64; lia).
  destruct (Z.ltb_spec UINT32_MAX ((o0 + (a - 1)) / a * a)) as [|Hle]; [done|]. intros [= <- <-].
  unfold UINT32_MAX in *. split_and!; try lia.
  - intros Hne. rewrite <- (Hae Hne). apply Z.divide_factor_r.
  - apply u64_id. unfold is_u64. lia.
Qed.

(** the planes of a two-plane buffer are placed where a disjoint image
    could bind them: no offset moves down, each is aligned to its plane's
    requirement and fits 32 bits, the second plane starts after the first
    one's required size, and the end is the second plane's end. *)
Theorem place_planes_sound (offset0 offset1 : Z) (r0 r1 : VkMemoryRequirements) (o0 o1 fin : Z) :
  is_u32 offset0 -> is_u32 offset1 ->
  0 <= req_alignment r0 < 2 ^ 62 -> 0 <= req_size r0 < 2 ^ 62 ->
  0 <= req_alignment r1 < 2 ^ 62 -> 0 <= req_size r1 < 2 ^ 62 ->
  place_planes offset0 offset1 r0 r1 = Some (o0, o1, fin) ->
  offset0 <= o0 <= UINT32_MAX /\ offset1 <= o1 <= UINT32_MAX /\
  (req_alignment r0 <> 0 -> (req_alignment r0 | o0)) /\ (req_alignment r1 <> 0 -> (req_alignment r1 | o1)) /\
  o0 + req_size r0 <= o1 /\ fin = o1 + req_size r1.
Proof.
  intros H0 H1 Ha0 Hs0 Ha1 Hs1. unfold place_planes.
  intros ([o0' e0] & E0 & ([o1' e1] & E1 & [= <- <- <-])%bind_Some)%bind_Some.
  apply place_plane_spec in E0 as (A1 & A2 & A3 & ->); [|done|lia|done|done].
  unfold UINT32_MAX in *.
  apply place_plane_spec in E1 as (B1 & B2 & B3 & ->); [|done|lia|done|done].
  unfold UINT32_MAX in *. split_and!; (done || lia).
Qed.

Lemma place_planes_sound_witness :
  place_planes 0 2073600 (mk_reqs 2097152 65536 1) (mk_reqs 1048576 65536 1) = Some (0, 2097152, 3145728) /\
  0 + 2097152 <= 2097152.
Proof.
  split; [reflexivity|].
  refine (proj1 (proj2 (proj2 (proj2 (proj2 (place_planes_sound 0 2073600
    (mk_reqs 2097152 65536 1) (mk_reqs 1048576 65536 1) 0 2097152 3145728 _ _ _ _ _ _ _))))));
    first [reflexivity | unfold is_u32; simpl; lia].
Defined.

End GrallocFormat.
