(* ===== verification/GrallocDevice.v ===== *)
(** * The allocator's Vulkan device ([nvidia_gbm_wrapper.c]: [vk_init_locked],
      [vk_get])

    One Vulkan device per process, created lazily through the driver's
    loader interface, with a sticky outcome.  What the environment answers
    during one attempt (the dynamic linker, the driver) is a [platform]; an
    attempt may see any of them.  The temporary arrays of the enumeration are
    lists; the mutex around [vk_get] makes a call one step. *)

From Stdlib Require Import ZArith Lia.
From stdpp Require Import base option sets strings gmap list.
From S2P Require Import Prelude Vulkan.

Set Default Goal Selector "!".
#[local] Open Scope Z_scope.

Module GrallocDevice.
Import Vk.

Definition NVG_VENDOR_NVIDIA : Z := 0x10de.
Definition NVG_ICD_INTERFACE_VERSION : Z := 5.
Definition VK_QUEUE_GRAPHICS_BIT : Z := 1.
Definition ENODEV' : Z := - ENODEV.
Definition ENOMEM' : Z := - ENOMEM.

Definition nvg_device_exts : list string := [
  "VK_KHR_external_memory_fd"; "VK_EXT_external_memory_dma_buf";
  "VK_EXT_image_drm_format_modifier"; "VK_KHR_image_format_list"]%string.
Definition FORMAT_FEATURE_FLAGS_2 : string := "VK_KHR_format_feature_flags2".
Definition PHYSICAL_DEVICE_DRM : string := "VK_EXT_physical_device_drm".

(** The entry points [INST_FN] and [DEV_FN]/[DEV_FN2] look up, in order. *)
Definition instance_fns : list string := [
  "vkEnumeratePhysicalDevices"; "vkGetPhysicalDeviceProperties"; "vkGetPhysicalDeviceProperties2";
  "vkEnumerateDeviceExtensionProperties"; "vkGetPhysicalDeviceQueueFamilyProperties";
  "vkGetPhysicalDeviceMemoryProperties"; "vkCreateDevice"; "vkGetDeviceProcAddr"; "vkDestroyInstance";
  "vkGetPhysicalDeviceFormatProperties2"; "vkGetPhysicalDeviceImageFormatProperties2"]%string.
Definition device_fns : list string := [
  "vkCreateImage"; "vkDestroyImage"; "vkGetImageMemoryRequirements"; "vkGetImageMemoryRequirements2";
  "vkGetImageSubresourceLayout"; "vkGetImageDrmFormatModifierPropertiesEXT"; "vkAllocateMemory";
  "vkFreeMemory"; "vkBindImageMemory"; "vkGetMemoryFdKHR"; "vkGetDeviceQueue";
  "vkGetMemoryFdPropertiesKHR"; "vkCreateBuffer"; "vkDestroyBuffer"; "vkGetBufferMemoryRequirements";
  "vkBindBufferMemory"; "vkMapMemory"; "vkUnmapMemory"; "vkFlushMappedMemoryRanges";
  "vkInvalidateMappedMemoryRanges"; "vkCreateCommandPool"; "vkAllocateCommandBuffers";
  "vkResetCommandBuffer"; "vkBeginCommandBuffer"; "vkEndCommandBuffer"; "vkCmdPipelineBarrier";
  "vkCmdCopyImageToBuffer"; "vkCmdCopyBufferToImage"; "vkQueueSubmit"; "vkCreateFence";
  "vkWaitForFences"; "vkResetFences"]%string.

(** [struct nvg_pd_info] with what the queries fill in.  [exts] is [None]
    when one of the two extension queries or the array's allocation fails. *)
Record nvg_pd_info := mk_pd {
  pd : Z;
  vendorID : Z;
  deviceName : string;
  exts : option (list string);
  hasRender : bool;
  renderMajor : Z;
  renderMinor : Z;
}.

(** What the outside answers during one attempt. *)
Record platform := mk_platform {
  p_dlopen : bool;
  p_negotiate_sym : bool;
  p_gipa_sym : bool;
  p_negotiate : Z * Z;              (** result, version *)
  p_create_instance_fn : bool;
  p_create_instance : Z * Z;        (** result, handle *)
  p_inst_fn : string -> bool;
  p_enum_count : Z * Z;             (** result, count *)
  p_calloc : bool;
  p_enum : Z * list nvg_pd_info;    (** result, the devices *)
  p_queue_families : Z -> list Z;   (** queueFlags of each family *)
  p_create_device : Z * Z;
  p_dev_fn : string -> bool;
  p_memprops : Z -> list Z;         (** propertyFlags of each memory type *)
  p_queue : Z;
}.

Record nvg_vk := mk_vk {
  instance : Z;
  device : Z;
  vk_pd : Z;
  vk_name : string;
  qf : Z;
  queue : Z;
  memprops : list Z;
  has_DestroyInstance : bool;
  has_device_fns : bool;            (** every [DEV_FN] pointer is set *)
}.
Definition zero_vk : nvg_vk := mk_vk 0 0 0 "" 0 0 [] false false.

(** The process-wide state; [inits] counts the attempts made. *)
Record world := mk_world {
  g_vk : nvg_vk;
  g_vk_state : Z;
  inits : nat;
  tr : trace;
}.
Definition start : world := mk_world zero_vk 0 0 [].

Definition emit (w : world) (ev : event) : world := mk_world (g_vk w) (g_vk_state w) (inits w) (tr w ++ [ev]).
Definition set_vk (w : world) (v : nvg_vk) : world := mk_world v (g_vk_state w) (inits w) (tr w).

Definition has_ext (l : list string) (nm : string) : bool := bool_decide (nm ∈ l).

(** [major]/[minor] of a [dev_t]. *)
Definition dev_major (d : Z) : Z := Z.lor (Z.land (Z.shiftr d 8) 0xfff) (Z.land (Z.shiftr d 32) 0xfffff000).
Definition dev_minor (d : Z) : Z := Z.lor (Z.land d 0xff) (Z.land (Z.shiftr d 12) 0xffffff00).

(** The loop over the physical devices: the NVIDIA ones, at most 16; [None]
    when an extension query fails. *)
Fixpoint nvidia_devices (infos : list nvg_pd_info) (nv : list nvg_pd_info) : option (list nvg_pd_info) :=
  match infos with
  | [] => Some nv
  | pi :: infos =>
      if negb (vendorID pi =? NVG_VENDOR_NVIDIA) then nvidia_devices infos nv
      else match exts pi with
           | None => None
           | Some _ => nvidia_devices infos (if (length nv <? 16)%nat then nv ++ [pi] else nv)
           end
  end.

Definition pd_exts (pi : nvg_pd_info) : list string := default [] (exts pi).
Definition has_drm (pi : nvg_pd_info) : bool := has_ext (pd_exts pi) PHYSICAL_DEVICE_DRM.

Definition render_node_is (rdev : Z) (pi : nvg_pd_info) : bool :=
  negb (rdev =? 0) && has_drm pi && hasRender pi && (u64 (renderMajor pi) =? dev_major rdev)
  && (u64 (renderMinor pi) =? dev_minor rdev).

(** The last device whose render node is [rdev], else the only one. *)
Definition pick_device (rdev : Z) (nv : list nvg_pd_info) : option nvg_pd_info :=
  match last_with (render_node_is rdev) nv with
  | Some pi => Some pi
  | None => match nv with [pi] => Some pi | _ => None end
  end.

(** The first graphics family among at most 32. *)
Fixpoint first_graphics (qfs : list Z) (i : Z) : option Z :=
  match qfs with
  | [] => None
  | fl :: qfs => if has_any fl VK_QUEUE_GRAPHICS_BIT then Some i else first_graphics qfs (i + 1)
  end.
Definition graphics_family (qfs : list Z) : option Z := first_graphics (take 32 qfs) 0.

(** The part after the instance exists; the result is [ret] at [out:]. *)
Definition init_device (P : platform) (rdev : Z) (w : world) : Z * world :=
  match list_find (fun n => p_inst_fn P n = false) instance_fns with
  | Some _ => (ENODEV', w)
  | None =>
  let v := g_vk w in
  let w := set_vk w (mk_vk (instance v) (device v) (vk_pd v) (vk_name v) (qf v) (queue v) (memprops v)
                       true (has_device_fns v)) in
  let '(r, pd_count) := p_enum_count P in
  if negb (r =? VK_SUCCESS) || (pd_count =? 0) then (ENODEV', w)
  else if negb (p_calloc P) then (ENOMEM', w)
  else
  let '(r, infos) := p_enum P in
  if negb (r =? VK_SUCCESS) then (ENODEV', w)
  else
  match nvidia_devices infos [] with
  | None => (ENODEV', w)
  | Some nv =>
  match pick_device rdev nv with
  | None => (ENODEV', w)
  | Some pick =>
  let v := g_vk w in
  let w := set_vk w (mk_vk (instance v) (device v) (pd pick) (deviceName pick) (qf v) (queue v)
                       (memprops v) true (has_device_fns v)) in
  if negb (forallb (has_ext (pd_exts pick)) nvg_device_exts)
     || negb (has_ext (pd_exts pick) FORMAT_FEATURE_FLAGS_2) then (ENODEV', w)
  else
  match graphics_family (p_queue_families P (pd pick)) with
  | None => (ENODEV', w)
  | Some q =>
  let '(r, dh) := p_create_device P in
  let ok := r =? VK_SUCCESS in
  let w := emit w (Created KDevice ok dh) in
  let v := g_vk w in
  let w := set_vk w (mk_vk (instance v) (if ok then dh else VK_NULL_HANDLE) (vk_pd v) (vk_name v) q
                       (queue v) (memprops v) true (has_device_fns v)) in
  if negb ok then (ENODEV', w)
  else
  let v := g_vk w in
  let all := bool_decide (list_find (fun n => p_dev_fn P n = false) device_fns = None) in
  let w := set_vk w (mk_vk (instance v) (device v) (vk_pd v) (vk_name v) (qf v)
                       (if all then p_queue P else queue v) (p_memprops P (pd pick)) true all) in
  if all then (0, w) else (ENODEV', w)
  end end end end.

(** [out:]: a failed attempt destroys the instance, unless the device exists
    or the destroy function was never looked up. *)
Definition init_out (rw : Z * world) : Z * world :=
  let '(ret, w) := rw in
  let v := g_vk w in
  if negb (ret =? 0) && (device v =? VK_NULL_HANDLE) && negb (instance v =? VK_NULL_HANDLE)
     && has_DestroyInstance v
  then (ret, set_vk (emit w (Destroyed KInstance (instance v)))
          (mk_vk VK_NULL_HANDLE (device v) (vk_pd v) (vk_name v) (qf v) (queue v) (memprops v) true
             (has_device_fns v)))
  else (ret, w).

Definition vk_init_locked (P : platform) (rdev : Z) (w : world) : Z * world :=
  if negb (p_dlopen P) then (ENODEV', w)
  else if negb (p_negotiate_sym P) || negb (p_gipa_sym P) then (ENODEV', w)
  else if negb ((p_negotiate P).1 =? VK_SUCCESS) || ((p_negotiate P).2 <? NVG_ICD_INTERFACE_VERSION)
  then (ENODEV', w)
  else if negb (p_create_instance_fn P) then (ENODEV', w)
  else
    let '(r, ih) := p_create_instance P in
    let ok := r =? VK_SUCCESS in
    let w := emit w (Created KInstance ok ih) in
    let v := g_vk w in
    let w := set_vk w (mk_vk (if ok then ih else VK_NULL_HANDLE) (device v) (vk_pd v) (vk_name v) (qf v)
                         (queue v) (memprops v) (has_DestroyInstance v) (has_device_fns v)) in
    if negb ok then (ENODEV', w)
    else init_out (init_device P rdev w).

(** [Some vk] when the device is ready, [None] otherwise. *)
Definition vk_get (P : platform) (rdev : Z) (w : world) : option nvg_vk * world :=
  let w :=
    if g_vk_state w =? 0 then
      let '(ret, w) := vk_init_locked P rdev w in
      mk_world (g_vk w) (if ret =? 0 then 1 else -1) (S (inits w)) (tr w)
    else w in
  (if g_vk_state w <? 0 then None else Some (g_vk w), w).

(** ** Device choice *)

Definition is_nvidia (pi : nvg_pd_info) : bool := vendorID pi =? NVG_VENDOR_NVIDIA.

Lemma nvidia_devices_spec infos nv nv' :
  nvidia_devices infos nv = Some nv' -> (length nv <= 16)%nat ->
  nv' = take 16 (nv ++ filter (fun pi => is_nvidia pi = true) infos).
Proof.
  revert nv. induction infos as [|pi infos IH]; intros nv; simpl.
  { intros [= <-] Hl. rewrite app_nil_r. by rewrite take_ge. }
  destruct (vendorID pi =? NVG_VENDOR_NVIDIA) eqn:Ev; simpl.
  2:{ intros H Hl. rewrite filter_cons_False by (unfold is_nvidia; congruence). by apply IH. }
  rewrite filter_cons_True by done.
  destruct (exts pi); [|done]. intros H Hl. destruct (Nat.ltb_spec (length nv) 16) as [Hlt|Hge].
  - apply IH in H; [|rewrite length_app; simpl; lia]. by rewrite <- app_assoc in H.
  - apply IH in H; [|done]. assert (length nv = 16)%nat as E by lia.
    rewrite H. rewrite <- E at 1. rewrite take_app_length. rewrite <- E at 1. by rewrite take_app_length.
Qed.

Lemma pick_device_spec rdev nv pick :
  pick_device rdev nv = Some pick -> pick ∈ nv /\ (render_node_is rdev pick = true \/ nv = [pick]).
Proof.
  unfold pick_device. destruct (last_with _ nv) as [pi|] eqn:E.
  - intros [= <-]. apply last_with_Some in E as [? ?]. by split; [|left].
  - destruct nv as [|pi [|? ?]]; try done. intros [= <-]. split; [set_solver|by right].
Qed.

Lemma first_graphics_spec qfs i q :
  first_graphics qfs i = Some q ->
  i <= q /\ exists fl, qfs !! Z.to_nat (q - i) = Some fl /\ has_any fl VK_QUEUE_GRAPHICS_BIT = true.
Proof.
  revert i. induction qfs as [|fl qfs IH]; intros i; simpl; [done|].
  destruct (has_any fl VK_QUEUE_GRAPHICS_BIT) eqn:E.
  - intros [= <-]. split; [lia|]. exists fl. by rewrite Z.sub_diag.
  - intros (Hle & fl' & Hl & Hg)%IH. split; [lia|]. exists fl'.
    by replace (Z.to_nat (q - i)) with (S (Z.to_nat (q - (i + 1)))) by lia.
Qed.

(** ** What a ready device guarantees *)

Record ready (P : platform) (rdev : Z) (v : nvg_vk) : Prop := {
  rd_pick : exists infos pick, p_enum P = (VK_SUCCESS, infos) /\ pick ∈ infos /\ vk_pd v = pd pick /\
    vendorID pick = NVG_VENDOR_NVIDIA /\
    (forall x, x ∈ nvg_device_exts -> x ∈ pd_exts pick) /\ FORMAT_FEATURE_FLAGS_2 ∈ pd_exts pick /\
    (render_node_is rdev pick = true \/ filter (fun pi => is_nvidia pi = true) infos = [pick]);
  rd_qf : 0 <= qf v /\ exists fl, p_queue_families P (vk_pd v) !! Z.to_nat (qf v) = Some fl /\
    has_any fl VK_QUEUE_GRAPHICS_BIT = true;
  rd_device : p_create_device P = (VK_SUCCESS, device v);
  rd_instance : p_create_instance P = (VK_SUCCESS, instance v);
  rd_fns : (forall n, n ∈ device_fns -> p_dev_fn P n = true) /\ (forall n, n ∈ instance_fns -> p_inst_fn P n = true);
  rd_memprops : memprops v = p_memprops P (vk_pd v);
}.

Lemma list_find_None_all (f : string -> bool) l :
  list_find (fun n => f n = false) l = None -> forall n, n ∈ l -> f n = true.
Proof.
  intros H%list_find_None n Hn. rewrite Forall_forall in H.
  destruct (f n) eqn:E; [done|]. by destruct (H n Hn).
Qed.

Lemma init_device_ready P rdev w w' :
  init_device P rdev w = (0, w') -> p_create_instance P = (VK_SUCCESS, instance (g_vk w)) ->
  ready P rdev (g_vk w') /\ tr w' = tr w ++ [Created KDevice true (device (g_vk w'))].
Proof.
  unfold init_device. destruct (list_find _ instance_fns) eqn:Hi; [done|].
  destruct (p_enum_count P) as [r0 n]. destruct (_ || (n =? 0)); [done|].
  destruct (p_calloc P); [|done]. cbn [negb].
  destruct (p_enum P) as [r1 infos] eqn:Ee. destruct (Z.eqb_spec r1 VK_SUCCESS) as [->|]; [|done]. cbn [negb].
  destruct (nvidia_devices infos []) as [nv|] eqn:En; [|done].
  destruct (pick_device rdev nv) as [pick|] eqn:Ep; [|done].
  destruct (negb _ || _) eqn:Ex; [done|].
  destruct (graphics_family _) as [q|] eqn:Eq; [|done].
  destruct (p_create_device P) as [r2 dh] eqn:Ed.
  destruct (Z.eqb_spec r2 VK_SUCCESS) as [->|]; [|done]. cbn [negb].
  case_bool_decide as Hd; [|done]. intros [= <-] Hin. cbn [set_vk emit g_vk tr device]. split; [|done].
  apply nvidia_devices_spec in En; [|simpl; lia]. simpl in En.
  apply pick_device_spec in Ep as [Hpick Hwhy].
  assert (Hf : pick ∈ filter (fun pi => is_nvidia pi = true) infos).
  { rewrite En in Hpick. eapply elem_of_submseteq; [exact Hpick|]. apply sublist_submseteq, sublist_take. }
  apply list_elem_of_filter in Hf as [Hv Hinf].
  apply orb_false_iff in Ex as [Hx1%negb_false_iff Hx2%negb_false_iff].
  split; cbn [vk_pd qf device instance memprops]; try done.
  - exists infos, pick. split_and!; try done.
    + by apply Z.eqb_eq.
    + intros x Hx. rewrite forallb_forall in Hx1.
      specialize (Hx1 x (proj1 (list_elem_of_In _ _) Hx)). by apply bool_decide_eq_true in Hx1.
    + by apply bool_decide_eq_true in Hx2.
    + destruct Hwhy as [?| ->]; [by left|right].
      destruct (filter _ infos) as [|a [|b l]]; simpl in En; congruence.
  - apply first_graphics_spec in Eq as (Hle & fl & Hl & Hg). split; [done|]. exists fl.
    rewrite Z.sub_0_r in Hl. split; [|done]. by apply lookup_take_Some in Hl as [? _].
  - split; by apply list_find_None_all.
Qed.

Lemma init_ready P rdev w w' :
  vk_init_locked P rdev w = (0, w') ->
  ready P rdev (g_vk w') /\
  tr w' = tr w ++ [Created KInstance true (instance (g_vk w')); Created KDevice true (device (g_vk w'))].
Proof.
  unfold vk_init_locked. repeat (case_match; [done|]).
  destruct (p_create_instance P) as [r ih] eqn:Ei. destruct (Z.eqb_spec r VK_SUCCESS) as [->|]; [|done]. cbn [negb].
  destruct (init_device P rdev _) as [ret w1] eqn:E. unfold init_out.
  intros Heq. assert (ret = 0) as -> by (by case_match; injection Heq).
  injection Heq as <-. destruct (init_device_ready _ _ _ _ E) as [R Ht]; [done|]. split; [done|].
  pose proof (rd_instance _ _ _ R) as Hh. rewrite Ei in Hh. injection Hh as <-.
  rewrite Ht. simpl. by rewrite <- app_assoc.
Qed.

(** ** A failed attempt *)

(** What [init_device] does to the instance: nothing; the destroy function is
    known unless an instance entry point is missing. *)
Lemma init_device_shape P rdev w ret w' :
  init_device P rdev w = (ret, w') ->
  instance (g_vk w') = instance (g_vk w) /\ inits w' = inits w /\
  (forall k h, k <> KDevice -> balance k h (tr w') = balance k h (tr w)) /\
  (has_DestroyInstance (g_vk w') = true \/ exists n, n ∈ instance_fns /\ p_inst_fn P n = false).
Proof.
  unfold init_device. destruct (list_find _ instance_fns) as [[i n]|] eqn:Hi.
  { intros [= <- <-]. split_and!; [done|done|done|]. right.
    apply list_find_Some in Hi as (Hn & Hf & _). exists n. split; [by eapply list_elem_of_lookup_2|done]. }
  assert (Hdev : forall ok dh k h, k <> KDevice ->
    balance k h (tr w ++ [Created KDevice ok dh]) = balance k h (tr w)).
  { intros ok dh k h Hk. rewrite balance_snoc. unfold ev_delta. rewrite decide_False by naive_solver. lia. }
  destruct (p_enum_count P) as [r0 n]. destruct (_ || (n =? 0)); [intros [= <- <-]; by eauto 10|].
  destruct (p_calloc P); [|intros [= <- <-]; by eauto 10]. cbn [negb].
  destruct (p_enum P) as [r1 infos]. destruct (r1 =? VK_SUCCESS); [|intros [= <- <-]; by eauto 10]. cbn [negb].
  destruct (nvidia_devices infos []) as [nv|]; [|intros [= <- <-]; by eauto 10].
  destruct (pick_device rdev nv) as [pick|]; [|intros [= <- <-]; by eauto 10].
  destruct (negb _ || _); [intros [= <- <-]; by eauto 10|].
  destruct (graphics_family _) as [q|]; [|intros [= <- <-]; by eauto 10].
  destruct (p_create_device P) as [r2 dh].
  destruct (r2 =? VK_SUCCESS); cbn [negb]; [|intros [= <- <-]; cbn; by eauto 10].
  case_bool_decide; intros [= <- <-]; cbn; by eauto 10.
Qed.

Lemma init_failed P rdev w ret w' :
  vk_init_locked P rdev w = (ret, w') -> ret <> 0 ->
  instance (g_vk w) = 0 -> (forall h, h <> 0 -> balance KInstance h (tr w) = 0) ->
  (forall h, h <> 0 -> balance KInstance h (tr w') = if decide (instance (g_vk w') = h) then 1 else 0) /\
  (instance (g_vk w') <> 0 -> device (g_vk w') <> 0 \/ exists n, n ∈ instance_fns /\ p_inst_fn P n = false).
Proof.
  intros H Hret Hz Hb. unfold vk_init_locked in H.
  assert (Hsame : forall h, h <> 0 -> balance KInstance h (tr w) = if decide (instance (g_vk w) = h) then 1 else 0).
  { intros h Hh. rewrite Hb, decide_False by (done || congruence). done. }
  repeat (case_match; simplify_eq; [by split|]).
  destruct (p_create_instance P) as [r ih]. destruct (Z.eqb_spec r VK_SUCCESS) as [->|Hr]; cbn [negb] in H.
  2:{ injection H as <- <-. cbn [set_vk emit g_vk instance tr]. split; [|done]. intros h Hh.
      rewrite balance_snoc, delta_failed, Hb by done. rewrite decide_False; [done|]. by apply not_eq_sym. }
  match type of H with init_out (init_device P rdev ?x) = _ => set (w0 := x) in * end.
  destruct (init_device P rdev w0) as [ret0 w1] eqn:E.
  destruct (init_device_shape _ _ _ _ _ E) as (Hi & _ & Hbal & Hd). cbn [w0 set_vk g_vk instance emit] in Hi.
  assert (Hb1 : forall h, h <> 0 -> balance KInstance h (tr w1) = if decide (instance (g_vk w1) = h) then 1 else 0).
  { intros h Hh. rewrite Hbal by done. unfold w0. cbn [set_vk emit tr]. rewrite balance_snoc, delta_created, Hb by done.
    rewrite Hi. unfold one. repeat case_decide; naive_solver lia. }
  unfold init_out in H. destruct (_ && _) eqn:Ec.
  - injection H as <- <-. cbn [set_vk emit g_vk instance device tr]. split; [|done].
    intros h Hh. rewrite balance_snoc, delta_destroyed, Hb1 by done. unfold one, VK_NULL_HANDLE.
    repeat case_decide; naive_solver lia.
  - injection H as <- <-. split; [done|]. intros Hne.
    change VK_NULL_HANDLE with 0 in Ec. rewrite (proj2 (Z.eqb_neq ret0 0) Hret) in Ec. cbn [negb andb] in Ec.
    rewrite (proj2 (Z.eqb_neq _ _) Hne) in Ec. cbn [negb] in Ec. rewrite andb_true_r in Ec.
    destruct Hd as [Hd|]; [|by right]. rewrite Hd, andb_true_r in Ec. left. by apply Z.eqb_neq.
Qed.

(** Device setup creates and destroys instances and devices only. *)
Definition setup_event (e : event) : Prop :=
  match e with
  | Created k _ _ | Destroyed k _ => k = KInstance \/ k = KDevice
  | _ => False
  end.
Definition grows (w w' : world) : Prop := exists t, tr w' = tr w ++ t /\ Forall setup_event t.

Lemma grows_refl w : grows w w.
Proof. exists []. by rewrite app_nil_r. Qed.
Lemma grows_snoc w w' w'' e : grows w w' -> tr w'' = tr w' ++ [e] -> setup_event e -> grows w w''.
Proof.
  intros (t & E & F) E' He. exists (t ++ [e]). rewrite E', E, app_assoc. split; [done|].
  apply Forall_app. by split; [|constructor].
Qed.

Lemma init_device_grows P rdev w : grows w (init_device P rdev w).2.
Proof.
  unfold init_device. repeat case_match;
    cbn [snd]; try (by exists []; rewrite app_nil_r); eexists; (split; [reflexivity|]); repeat constructor; by right.
Qed.

Lemma vk_get_grows P rdev w : grows w (vk_get P rdev w).2.
Proof.
  unfold vk_get. destruct (g_vk_state w =? 0); [|apply grows_refl].
  destruct (vk_init_locked P rdev w) as [ret w'] eqn:E. cbn [snd].
  cut (grows w w'); [by intros (t & ? & ?); exists t|].
  revert E. unfold vk_init_locked. repeat (case_match; [intros [= _ <-]; apply grows_refl|]).
  destruct (p_create_instance P) as [r ih]. destruct (r =? VK_SUCCESS); cbn [negb].
  2:{ intros [= _ <-]. eapply grows_snoc; [apply grows_refl|reflexivity|by left]. }
  match goal with |- context [init_device P rdev ?x] => set (w0 := x) end.
  pose proof (init_device_grows P rdev w0) as G. destruct (init_device P rdev w0) as [ret0 w1]. cbn [snd] in G.
  assert (G1 : grows w w1).
  { destruct G as (t & E & F). exists (Created KInstance true ih :: t). rewrite E. unfold w0. cbn [set_vk emit tr].
    rewrite <- app_assoc. split; [done|]. constructor; [by left|done]. }
  unfold init_out. case_match; intros [= _ <-]; [|done].
  eapply grows_snoc; [exact G1|reflexivity|by left].
Qed.

Lemma vk_get_balance P rdev w k h :
  k <> KInstance -> k <> KDevice -> balance k h (tr (vk_get P rdev w).2) = balance k h (tr w).
Proof.
  intros Hi Hd. destruct (vk_get_grows P rdev w) as (t & -> & F). rewrite balance_app.
  cut (balance k h t = 0); [lia|]. induction F as [|e t He F IH]; [done|].
  change (e :: t) with ([e] ++ t). rewrite balance_app, IH. unfold balance. simpl.
  destruct e as [k' ok h'|k' h'| |]; try done; simpl; rewrite decide_False; first [lia|intros [-> _]; by destruct He].
Qed.

(** ** Sequences of calls *)

Fixpoint vk_gets (l : list (platform * Z)) (w : world) : list (option nvg_vk) * world :=
  match l with
  | [] => ([], w)
  | (P, rdev) :: l =>
      let '(r, w) := vk_get P rdev w in
      let '(rs, w) := vk_gets l w in (r :: rs, w)
  end.

(** Once tried, nothing changes any more. *)
Lemma vk_get_tried P rdev w :
  g_vk_state w <> 0 -> vk_get P rdev w = (if g_vk_state w <? 0 then None else Some (g_vk w), w).
Proof. intros H. unfold vk_get. by rewrite (proj2 (Z.eqb_neq _ _) H). Qed.

Lemma vk_get_state P rdev w : g_vk_state (vk_get P rdev w).2 <> 0.
Proof.
  unfold vk_get. destruct (Z.eqb_spec (g_vk_state w) 0) as [E|E]; [|done].
  destruct (vk_init_locked P rdev w) as [ret w']. simpl. by destruct (ret =? 0).
Qed.

Lemma vk_gets_tried l w :
  g_vk_state w <> 0 ->
  vk_gets l w = (replicate (length l) (if g_vk_state w <? 0 then None else Some (g_vk w)), w).
Proof.
  intros H. induction l as [|[P rdev] l IH]; [done|]. cbn [vk_gets].
  rewrite vk_get_tried by done. by rewrite IH.
Qed.

Lemma init_inits P rdev w : inits (vk_init_locked P rdev w).2 = inits w.
Proof.
  unfold vk_init_locked. repeat (case_match; [done|]).
  destruct (p_create_instance P) as [r ih]. destruct (r =? VK_SUCCESS); [cbn [negb]|done].
  unfold init_out. destruct (init_device P rdev _) as [ret w1] eqn:E.
  destruct (init_device_shape _ _ _ _ _ E) as (_ & Hi & _). by case_match.
Qed.

(** device setup is tried once per process and its outcome is sticky:
    whatever the platform answers at each call, [vk_get] attempts the setup
    exactly once, on its first call; every call returns the same device or
    every call fails; a device that is returned satisfies [ready] for the
    platform and render node of that first call (an NVIDIA GPU that is the
    requested one or the only one, with all required extensions, a graphics
    queue family, and every entry point). *)
Theorem vk_get_sticky (P : platform) (rdev : Z) (l : list (platform * Z)) :
  exists r w, vk_gets ((P, rdev) :: l) start = (replicate (S (length l)) r, w) /\
    inits w = 1%nat /\ (forall v, r = Some v -> ready P rdev v /\
      tr w = [Created KInstance true (instance v); Created KDevice true (device v)]).
Proof.
  cbn [vk_gets]. pose proof (vk_get_state P rdev start) as Hs.
  destruct (vk_get P rdev start) as [r w] eqn:E. simpl in Hs.
  rewrite (vk_gets_tried l w Hs). exists r, w.
  unfold vk_get in E. cbn [start g_vk_state Z.eqb] in E.
  pose proof (init_inits P rdev start) as Hin.
  destruct (vk_init_locked P rdev start) as [ret w1] eqn:Ei. simpl in Hin. injection E as <- <-. cbn in *.
  split_and!; [done|by rewrite Hin|]. intros v. destruct (Z.eqb_spec ret 0) as [->|Hr]; simpl; [|done].
  intros [= <-]. apply init_ready in Ei as [? ?]. done.
Qed.

(** a failed setup cleans up: at most one instance is outstanding
    afterwards, and only if the device had been created (an entry point of
    it is missing) or an instance-level entry point is missing. *)
Theorem vk_failed_cleanup (P : platform) (rdev : Z) (w : world) :
  vk_get P rdev start = (None, w) ->
  (forall h, h <> 0 -> balance KInstance h (tr w) = if decide (instance (g_vk w) = h) then 1 else 0) /\
  (instance (g_vk w) <> 0 ->
     device (g_vk w) <> 0 \/ exists n, n ∈ instance_fns /\ p_inst_fn P n = false).
Proof.
  unfold vk_get. cbn [start g_vk_state Z.eqb].
  destruct (vk_init_locked P rdev start) as [ret w1] eqn:Ei. simpl.
  destruct (Z.eqb_spec ret 0) as [->|Hr]; simpl; [done|]. intros [= <-]. simpl.
  eapply init_failed; [exact Ei|done|done|done].
Qed.

(** A platform whose GPU lacks the DRM modifier extension. *)
Definition poor_platform : platform :=
  mk_platform true true true (0, 5) true (0, 101) (fun _ => true) (0, 1) true
    (0, [mk_pd 7 NVG_VENDOR_NVIDIA "GPU" (Some ["VK_KHR_external_memory_fd"%string]) false 0 0])
    (fun _ => [1]) (0, 102) (fun _ => true) (fun _ => [1]) 103.

Lemma vk_failed_cleanup_witness :
  vk_get poor_platform 0 start = (None, (vk_get poor_platform 0 start).2) /\
  balance KInstance 101 (tr (vk_get poor_platform 0 start).2) = 0.
Proof.
  split; [reflexivity|].
  destruct (vk_failed_cleanup poor_platform 0 (vk_get poor_platform 0 start).2) as [H _]; [reflexivity|].
  rewrite H by discriminate. reflexivity.
Defined.

(** A driver without [vkGetPhysicalDeviceImageFormatProperties2]: the
    instance created before is never destroyed, because the destroy function
    is stored only after every lookup has succeeded. *)
Definition old_platform : platform :=
  mk_platform true true true (0, 5) true (0, 101)
    (fun n => negb (bool_decide (n = "vkGetPhysicalDeviceImageFormatProperties2"%string)))
    (0, 1) true (0, []) (fun _ => []) (0, 102) (fun _ => true) (fun _ => []) 103.

Lemma instance_leaked_without_entry_point :
  (vk_get old_platform 0 start).1 = None /\ balance KInstance 101 (tr (vk_get old_platform 0 start).2) = 1.
Proof. split; reflexivity. Qed.

End GrallocDevice.
