(* ===== verification/GrallocAlloc.v ===== *)
(** * Allocation and plane layout ([nvidia_gbm_wrapper.c]: [nvg_alloc_impl],
      [nvg_alloc], [nvg_alloc_flags], [nvg_plane_layout])

    The effectful half of the allocator: the decisions of [GrallocFormat] run
    against the driver.  The driver is a record of functions of the calls
    made so far, so every behaviour over time is covered; creating and
    destroying calls go to the trace, queries do not. *)

From Stdlib Require Import ZArith Lia.
From stdpp Require Import base option sets strings gmap list.
From S2P Require Import Prelude Vulkan GrallocFormat GrallocDevice.

Set Default Goal Selector "!".
#[local] Open Scope Z_scope.

Module GrallocAlloc.
Import Vk.
Import GrallocFormat.
Import GrallocDevice.

(** [VkImageCreateInfo] with its modifier list or explicit plane layouts. *)
Record image_info := mk_image {
  ii_format : Z;
  ii_width : Z;
  ii_height : Z;
  ii_usage : Z;
  ii_mutable : bool;
  ii_disjoint : bool;
  ii_mods : list Z;
  ii_planes : list (Z * Z);     (** offset, rowPitch *)
}.

Record driver := mk_driver {
  d_platform : trace -> platform;
  d_modifiers : trace -> Z -> list VkDrmFormatModifierProperties2EXT;
  d_image_query : trace -> Z -> Z -> bool -> Z -> image_query;
      (** format, usage, mutable, modifier *)
  d_create_image : trace -> image_info -> Z * Z;
  d_image_reqs : trace -> Z -> VkMemoryRequirements;
  d_plane_reqs : trace -> Z -> Z -> VkMemoryRequirements;
  d_allocate : trace -> Z -> Z -> Z * Z;      (** size, type *)
  d_bind_image : trace -> Z -> Z -> Z;
  d_image_modifier : trace -> image_info -> Z -> Z * Z;
  d_subresource : trace -> Z -> VkSubresourceLayout;
  d_get_fd : trace -> Z -> Z * Z;
}.

(** What the Vulkan specification says of the queries the allocator relies
    on: an image created from a modifier list has one of them; a row pitch is
    a [VkDeviceSize]. *)
Class DriverLaws (D : driver) : Prop := {
  law_modifier t i h r m : d_image_modifier D t i h = (r, m) -> r = VK_SUCCESS -> ii_mods i <> [] -> m ∈ ii_mods i;
  law_pitch t h : is_u64 (l_rowPitch (d_subresource D t h));
}.

Record alloc_args := mk_args {
  a_gbm : option Z;             (** the device's [rdev]; [None] = NULL *)
  a_width : Z;
  a_height : Z;
  a_drm_format : Z;
  a_force_linear : bool;
  a_needs_map_stride : bool;
  a_out_fd : Z;
  a_out_stride : Z;
  a_out_modifier : Z;
  a_out_map_stride : Z;
}.

Definition set_out (a : alloc_args) (fd stride modifier map_stride : Z) : alloc_args :=
  mk_args (a_gbm a) (a_width a) (a_height a) (a_drm_format a) (a_force_linear a) (a_needs_map_stride a)
    fd stride modifier map_stride.

Definition GBM_ALLOC_FLAG_CPU_READ_OFTEN : Z := 1.

Definition out_of_memory (r : Z) : bool :=
  (r =? VK_ERROR_OUT_OF_HOST_MEMORY) || (r =? VK_ERROR_OUT_OF_DEVICE_MEMORY).

Definition emitM (ev : event) : M world () := modS (fun w => emit w ev).
Definition ask {A} (f : trace -> A) : M world A := fun w => (f (tr w), w).
Definition whenM (b : bool) (m : M world ()) : M world () := if b then m else mret tt.

Section Alloc.
(** [source_rm]: built with NVG_SOURCE_RM. *)
Context (D : driver) (source_rm : bool).

Definition vk_getM (rdev : Z) : M world (option nvg_vk) :=
  fun w => vk_get (d_platform D (tr w)) rdev w.

Definition CreateImage (i : image_info) : M world (Z * Z) :=
  '(r, h) ← ask (fun t => d_create_image D t i);
  _ ← emitM (Created KImage (r =? VK_SUCCESS) h);
  mret (r, h).

Definition AllocateMemory (size type : Z) : M world (Z * Z) :=
  '(r, h) ← ask (fun t => d_allocate D t size type);
  _ ← emitM (Created KMemory (r =? VK_SUCCESS) h);
  mret (r, h).

Definition GetMemoryFdKHR (mem : Z) : M world (Z * Z) :=
  '(r, fd) ← ask (fun t => d_get_fd D t mem);
  _ ← emitM (Created KFd ((r =? VK_SUCCESS) && (0 <=? fd)) fd);
  mret (r, fd).

(** [out:] of [nvg_alloc_impl]. *)
Definition alloc_out (ret image mem fd : Z) (a : alloc_args) : M world (Z * alloc_args) :=
  _ ← whenM (0 <=? fd) (emitM (Destroyed KFd fd));
  _ ← whenM (negb (image =? VK_NULL_HANDLE)) (emitM (Destroyed KImage image));
  _ ← whenM (negb (mem =? VK_NULL_HANDLE)) (emitM (Destroyed KMemory mem));
  mret (ret, a).

(** The image, its memory, the checks and the export. *)
Definition alloc_image (vk : nvg_vk) (f : nvg_format) (a : alloc_args) (flags : Z) (c : candidates)
  (mods : list Z) : M world (Z * alloc_args) :=
  let linear := c_linear c in
  let mappable := a_force_linear a || a_needs_map_stride a in
  let i := mk_image (vkf f) (a_width a) (a_height a) (image_usage c)
             (negb (srgb f =? VK_FORMAT_UNDEFINED)) false mods [] in
  '(r, image) ← CreateImage i;
  if negb (r =? VK_SUCCESS) then
    alloc_out (if out_of_memory r then - ENOMEM else - EINVAL) VK_NULL_HANDLE VK_NULL_HANDLE (-1) a
  else
  reqs ← ask (fun t => d_image_reqs D t image);
  let cpu_read_often := linear && has_any flags GBM_ALLOC_FLAG_CPU_READ_OFTEN in
  match memory_type linear cpu_read_often (req_memoryTypeBits reqs) (memprops vk) with
  | None => alloc_out (- EINVAL) image VK_NULL_HANDLE (-1) a
  | Some type =>
  '(r, mem) ← AllocateMemory (req_size reqs) type;
  if negb (r =? VK_SUCCESS) then alloc_out (- ENOMEM) image VK_NULL_HANDLE (-1) a
  else
  r ← ask (fun t => d_bind_image D t image mem);
  if negb (r =? VK_SUCCESS) then alloc_out (- EINVAL) image mem (-1) a
  else
  '(r, chosen) ← ask (fun t => d_image_modifier D t i image);
  if negb (r =? VK_SUCCESS) then alloc_out (- EINVAL) image mem (-1) a
  else
  layout ← ask (fun t => d_subresource D t image);
  if layout_unusable mappable (a_width a) (bpp f) layout then alloc_out (- EINVAL) image mem (-1) a
  else
  '(r, fd) ← GetMemoryFdKHR mem;
  if negb (r =? VK_SUCCESS) || (fd <? 0) then alloc_out (- EINVAL) image mem (-1) a
  else
  let stride := u32 (l_rowPitch layout) in
  alloc_out 0 image mem (-1)
    (set_out a fd stride chosen (if negb linear && mappable then stride else 0))
  end.

Definition nvg_alloc_impl (a : alloc_args) (flags : Z) : M world (Z * alloc_args) :=
  match a_gbm a with
  | None => mret (- EINVAL, a)
  | Some rdev =>
  let linear := a_force_linear a in
  let a := set_out a (-1) (a_out_stride a) (a_out_modifier a) (a_out_map_stride a) in
  match find_format (a_drm_format a) with
  | None => mret (- EINVAL, a)
  | Some f =>
  if (a_width a =? 0) || (a_height a =? 0) then mret (- EINVAL, a)
  else
  vk ← vk_getM rdev;
  match vk with
  | None => mret (- ENODEV, a)
  | Some vk =>
  mprops ← ask (fun t => d_modifiers D t (vkf f));
  let c := modifier_candidates source_rm linear (a_height a) mprops in
  if bool_decide (c_mods c = []) then mret (- EINVAL, a)
  else
  query ← ask (fun t => d_image_query D t (vkf f) (image_usage c) (negb (srgb f =? VK_FORMAT_UNDEFINED)));
  let mods := accepted_mods query (a_width a) (a_height a) (c_mods c) in
  if bool_decide (mods = []) then mret (- EINVAL, a)
  else alloc_image vk f a flags c mods
  end end end.

Definition nvg_alloc (a : alloc_args) : M world (Z * alloc_args) := nvg_alloc_impl a 0.

Definition nvg_alloc_flags (a : alloc_args) (flags : Z) : M world (Z * alloc_args) :=
  if negb (Z.land flags (Z.lnot GBM_ALLOC_FLAG_CPU_READ_OFTEN) =? 0) then mret (- EINVAL, a)
  else nvg_alloc_impl a flags.

(** [nvg_plane_layout]: the result, the two offsets and the total size (as
    they were on failure). *)
Definition plane_format (drm_format : Z) : option Z :=
  if drm_format =? DRM_FORMAT_NV12 then Some VK_FORMAT_G8_B8R8_2PLANE_420_UNORM
  else if drm_format =? DRM_FORMAT_P010 then Some VK_FORMAT_G10X6_B10X6R10X6_2PLANE_420_UNORM_3PACK16
  else None.

(** The last 2-plane LINEAR entry's features. *)
Definition disjoint_features (mprops : list VkDrmFormatModifierProperties2EXT) : Z :=
  foldl (fun feat p =>
    if (drmFormatModifier p =? DRM_FORMAT_MOD_LINEAR) && (drmFormatModifierPlaneCount p =? 2)
    then drmFormatModifierTilingFeatures p else feat) 0 (take NVG_MAX_MODS mprops).

Definition image_error (r : Z) : Z := if out_of_memory r then - ENOMEM else - EINVAL.

Definition nvg_plane_layout (gbm : option Z) (drm_format width height num_planes stride0 stride1
  offset0 offset1 total : Z) : M world (Z * (Z * Z * Z)) :=
  let same := (offset0, offset1, total) in
  match plane_format drm_format with
  | None => mret (- EINVAL, same)
  | Some vf =>
  match gbm with
  | None => mret (- EINVAL, same)
  | Some rdev =>
  if negb (num_planes =? 2) || (width =? 0) || (height =? 0) then mret (- EINVAL, same)
  else
  vk ← vk_getM rdev;
  match vk with
  | None => mret (- ENODEV, same)
  | Some vk =>
  mprops ← ask (fun t => d_modifiers D t vf);
  if negb (has_any (disjoint_features mprops) FEATURE_DISJOINT) then mret (- EINVAL, same)
  else
  '(r, image) ← CreateImage (mk_image vf width height USAGE_SAMPLED false true [] [(0, stride0); (0, stride1)]);
  if negb (r =? VK_SUCCESS) then mret (image_error r, same)
  else
  r0 ← ask (fun t => d_plane_reqs D t image 0);
  r1 ← ask (fun t => d_plane_reqs D t image 1);
  _ ← emitM (Destroyed KImage image);
  match place_planes offset0 offset1 r0 r1 with
  | None => mret (- EINVAL, same)
  | Some (o0, o1, fin) =>
  '(r, image) ← CreateImage (mk_image vf width height USAGE_SAMPLED false false [] [(o0, stride0); (o1, stride1)]);
  if negb (r =? VK_SUCCESS) then mret (image_error r, same)
  else
  reqs ← ask (fun t => d_image_reqs D t image);
  _ ← emitM (Destroyed KImage image);
  let fin := if fin <? req_size reqs then req_size reqs else fin in
  mret (0, (u32 o0, u32 o1, fin))
  end end end end.

End Alloc.

(** ** Resources *)

(** From [w] to [w'] no Vulkan image or memory and no descriptor is gained
    or lost, except the descriptor [fd] if there is one. *)
Definition clean (w w' : world) (fd : option Z) : Prop :=
  (forall h, h <> VK_NULL_HANDLE -> balance KImage h (tr w') = balance KImage h (tr w)) /\
  (forall h, h <> VK_NULL_HANDLE -> balance KMemory h (tr w') = balance KMemory h (tr w)) /\
  (forall h, 0 <= h -> balance KFd h (tr w') = balance KFd h (tr w) + (if decide (fd = Some h) then 1 else 0)).

Lemma clean_refl w : clean w w None.
Proof. split_and!; intros; try done. rewrite decide_False by done. lia. Qed.

Lemma clean_trans w1 w2 w3 fd : clean w1 w2 None -> clean w2 w3 fd -> clean w1 w3 fd.
Proof.
  intros (A1 & A2 & A3) (B1 & B2 & B3). split_and!; intros h Hh.
  - by rewrite B1, A1.
  - by rewrite B2, A2.
  - rewrite B3, A3 by done. rewrite decide_False by done. lia.
Qed.

(** Run a monadic definition to its trace. *)
Ltac run_m :=
  unfold CreateImage, AllocateMemory, GetMemoryFdKHR, alloc_out, whenM, emitM, ask, modS, mbind, M_bind, mret, M_ret;
  cbn [fst snd].
(** Compare the resource balances of two explicit traces. *)
Ltac settle1 := bal_simpl; unfold VK_NULL_HANDLE in *; repeat case_decide; simplify_eq; try lia.
Ltac settle := split_and!; intros ?h ?Hh; cbn [emit tr set_vk]; settle1.

Lemma vk_getM_clean D rdev w : clean w (vk_getM D rdev w).2 None.
Proof.
  split_and!; intros h _; unfold vk_getM; rewrite vk_get_balance by done; [done|done|].
  rewrite decide_False by done. lia.
Qed.

Lemma alloc_image_clean D vk f a flags c mods w ret a' w' :
  alloc_image D vk f a flags c mods w = (ret, a', w') ->
  (ret = 0 /\ 0 <= a_out_fd a' /\ clean w w' (Some (a_out_fd a'))) \/
  (ret < 0 /\ a' = a /\ clean w w' None).
Proof.
  unfold alloc_image. run_m.
  destruct (d_create_image D _ _) as [r image]. cbn [fst snd]. destruct (r =? VK_SUCCESS) eqn:E1; cbn [negb].
  2:{ intros [= <- <- <-]. right. split; [unfold out_of_memory; by repeat case_match|].
      split; [done|]. settle. }
  destruct (memory_type _ _ _ _) as [type|].
  2:{ destruct (Z.eqb_spec image VK_NULL_HANDLE); cbn [negb]; intros [= <- <- <-]; right;
      (split; [done|]); (split; [done|]); settle. }
  destruct (d_allocate D _ _ _) as [r2 mem]. cbn [fst snd]. destruct (r2 =? VK_SUCCESS) eqn:E2; cbn [negb].
  2:{ destruct (Z.eqb_spec image VK_NULL_HANDLE); cbn [negb]; intros [= <- <- <-]; right;
      (split; [done|]); (split; [done|]); settle. }
  assert (Hfail : forall w2 ret0, (forall k h, balance k h (tr w2) =
      balance k h (tr w) + one k KImage h image + one k KMemory h mem) ->
    ret0 < 0 -> forall ret a' w', alloc_out ret0 image mem (-1) a w2 = (ret, a', w') ->
    ret < 0 /\ a' = a /\ clean w w' None).
  { intros w2 ret0 Ht Hr ret1 a1 w1. run_m. cbn [Z.leb Z.compare].
    destruct (Z.eqb_spec image VK_NULL_HANDLE), (Z.eqb_spec mem VK_NULL_HANDLE); cbn [negb];
      intros [= <- <- <-]; (split; [done|]); (split; [done|]); unfold clean; cbn [emit tr];
      (split_and!; intros h Hh; autorewrite with nvdb; rewrite Ht; settle1). }
  assert (Hbal : forall k h, balance k h ((tr w ++ [Created KImage true image]) ++ [Created KMemory true mem]) =
      balance k h (tr w) + one k KImage h image + one k KMemory h mem) by (intros; by autorewrite with nvdb).
  destruct (negb (d_bind_image D _ _ _ =? VK_SUCCESS)); [intros H; right; by eapply Hfail; [| |exact H]|].
  destruct (d_image_modifier D _ _ _) as [r3 chosen]. cbn [fst snd].
  destruct (negb (r3 =? VK_SUCCESS)); [intros H; right; by eapply Hfail; [| |exact H]|].
  destruct (layout_unusable _ _ _ _); [intros H; right; by eapply Hfail; [| |exact H]|].
  destruct (d_get_fd D _ _) as [r4 fd]. cbn [fst snd].
  assert (Hbal' : forall k h, balance k h (((tr w ++ [Created KImage true image]) ++ [Created KMemory true mem])
      ++ [Created KFd false fd]) = balance k h (tr w) + one k KImage h image + one k KMemory h mem)
    by (intros; autorewrite with nvdb; lia).
  destruct (Z.eqb_spec r4 VK_SUCCESS) as [->|H4]; cbn [negb andb orb].
  2:{ intros H. right. by eapply Hfail; [| |exact H]. }
  destruct (Z.leb_spec 0 fd) as [Hfd|Hfd].
  2:{ rewrite (proj2 (Z.ltb_lt fd 0)) by lia. intros H. right. by eapply Hfail; [| |exact H]. }
  rewrite (proj2 (Z.ltb_ge fd 0)) by lia. intros H. left.
  destruct (Z.eqb_spec image VK_NULL_HANDLE), (Z.eqb_spec mem VK_NULL_HANDLE); cbn [negb] in H;
    injection H as <- <- <-; (split; [done|]); (split; [done|]); cbn [a_out_fd set_out]; settle.
Qed.


(** Every outcome of an allocation. *)
Lemma nvg_alloc_impl_cases D source_rm a flags w ret a' w' :
  nvg_alloc_impl D source_rm a flags w = (ret, a', w') ->
  let a1 := set_out a (-1) (a_out_stride a) (a_out_modifier a) (a_out_map_stride a) in
  (ret < 0 /\ clean w w' None /\ (a' = a /\ a_gbm a = None \/ a' = a1)) \/
  exists rdev f vk w1 mods,
    a_gbm a = Some rdev /\ find_format (a_drm_format a) = Some f /\
    a_width a <> 0 /\ a_height a <> 0 /\ vk_getM D rdev w = (Some vk, w1) /\
    let c := modifier_candidates source_rm (a_force_linear a) (a_height a) (d_modifiers D (tr w1) (vkf f)) in
    mods = accepted_mods (d_image_query D (tr w1) (vkf f) (image_usage c) (negb (srgb f =? VK_FORMAT_UNDEFINED)))
             (a_width a) (a_height a) (c_mods c) /\ mods <> [] /\
    alloc_image D vk f a1 flags c mods w1 = (ret, a', w').
Proof.
  unfold nvg_alloc_impl. destruct (a_gbm a) as [rdev|].
  2:{ intros [= <- <- <-]. left. split; [done|]. split; [apply clean_refl|by left]. }
  cbn [set_out a_drm_format a_width a_height]. destruct (find_format _) as [f|].
  2:{ intros [= <- <- <-]. left. split; [done|]. split; [apply clean_refl|by right]. }
  destruct ((a_width a =? 0) || (a_height a =? 0)) eqn:Ez.
  { intros [= <- <- <-]. left. split; [done|]. split; [apply clean_refl|by right]. }
  bool_props. pose proof (vk_getM_clean D rdev w) as Hc. rewrite bind_run.
  destruct (vk_getM D rdev w) as [[vk|] w1] eqn:Ev; cbn [fst snd] in *.
  2:{ intros [= <- <- <-]. left. split; [done|]. split; [done|by right]. }
  rewrite bind_run. unfold ask at 1. cbn [fst snd]. set (c := modifier_candidates _ _ _ _).
  case_bool_decide.
  { intros [= <- <- <-]. left. split; [done|]. split; [done|by right]. }
  rewrite bind_run. unfold ask at 1. cbn [fst snd]. set (mods := accepted_mods _ _ _ _).
  case_bool_decide.
  { intros [= <- <- <-]. left. split; [done|]. split; [done|by right]. }
  intros Hi. right. exists rdev, f, vk, w1, mods. by split_and!.
Qed.

(** C22: allocation never leaks: whatever the driver answers at each call, a
    failed allocation leaves no image, memory or descriptor behind and
    reports [out_fd = -1]; a successful one leaves exactly one descriptor
    more, the one it returns. *)
Theorem alloc_no_leak (D : driver) (source_rm : bool) (a : alloc_args) (flags : Z) (w : world) :
  let '(ret, a', w') := nvg_alloc_impl D source_rm a flags w in
  (ret = 0 /\ 0 <= a_out_fd a' /\ clean w w' (Some (a_out_fd a'))) \/
  (ret < 0 /\ (a_gbm a <> None -> a_out_fd a' = -1) /\ clean w w' None).
Proof.
  destruct (nvg_alloc_impl D source_rm a flags w) as [[ret a'] w'] eqn:E.
  apply nvg_alloc_impl_cases in E as [(Hr & Hc & Ha)|(rdev & f & vk & w1 & mods & Hg & _ & _ & _ & Hv & _ & _ & Hi)].
  { right. split; [done|]. split; [|done]. intros Hg. by destruct Ha as [[-> ?]| ->]. }
  pose proof (vk_getM_clean D rdev w) as Hc. rewrite Hv in Hc. simpl in Hc.
  apply alloc_image_clean in Hi as [(-> & Hfd & Hcl)|(Hr & -> & Hcl)].
  - left. split; [done|]. split; [done|]. by eapply clean_trans.
  - right. split; [done|]. split; [done|]. by eapply clean_trans.
Qed.

Lemma alloc_out_run ret image mem fd a w : (alloc_out ret image mem fd a w).1 = (ret, a).
Proof. run_m. by repeat case_match. Qed.

Lemma alloc_out_ret ret image mem fd a w r a' w' :
  alloc_out ret image mem fd a w = (r, a', w') -> r = ret /\ a' = a.
Proof. intros E. pose proof (alloc_out_run ret image mem fd a w) as H. rewrite E in H. by simplify_eq/=. Qed.

(** What a successful image allocation has checked. *)
Lemma alloc_image_success D `{DriverLaws D} vk f a flags c mods w a' w' :
  alloc_image D vk f a flags c mods w = (0, a', w') -> mods <> [] ->
  exists fd layout chosen type bits, 0 <= fd /\ chosen ∈ mods /\ is_u64 (l_rowPitch layout) /\
    let mappable := a_force_linear a || a_needs_map_stride a in
    layout_unusable mappable (a_width a) (bpp f) layout = false /\
    memory_type (c_linear c) (c_linear c && has_any flags GBM_ALLOC_FLAG_CPU_READ_OFTEN) bits (memprops vk)
      = Some type /\
    a' = set_out a fd (u32 (l_rowPitch layout)) chosen
           (if negb (c_linear c) && mappable then u32 (l_rowPitch layout) else 0).
Proof.
  unfold alloc_image. intros E Hm. rewrite bind_run in E.
  unfold CreateImage in E at 1. unfold AllocateMemory, GetMemoryFdKHR in E.
  unfold ask, emitM, modS, mbind, M_bind, mret, M_ret in E. cbn [fst snd] in E.
  destruct (d_create_image D _ _) as [r image]. cbn [fst snd] in E. destruct (negb (r =? VK_SUCCESS)).
  { apply alloc_out_ret in E as [E _]. unfold out_of_memory in E. by repeat case_match. }
  destruct (memory_type _ _ _ _) as [type|] eqn:Et; [|by apply alloc_out_ret in E as [? _]].
  destruct (d_allocate D _ _ _) as [r2 mem]. cbn [fst snd] in E.
  destruct (negb (r2 =? VK_SUCCESS)); [by apply alloc_out_ret in E as [? _]|].
  destruct (negb (d_bind_image D _ _ _ =? VK_SUCCESS)); [by apply alloc_out_ret in E as [? _]|].
  destruct (d_image_modifier D _ _ _) as [r3 chosen] eqn:Em. cbn [fst snd] in E.
  destruct (Z.eqb_spec r3 VK_SUCCESS) as [->|]; [|by apply alloc_out_ret in E as [? _]]. cbn [negb] in E.
  destruct (layout_unusable _ _ _ _) eqn:El; [by apply alloc_out_ret in E as [? _]|].
  destruct (d_get_fd D _ _) as [r4 fd]. cbn [fst snd] in E.
  destruct (negb (r4 =? VK_SUCCESS) || (fd <? 0)) eqn:Ef; [by apply alloc_out_ret in E as [? _]|].
  apply alloc_out_ret in E as [_ ->]. bool_props.
  eexists fd, _, chosen, type, _. split; [done|]. split; [by apply (law_modifier _ _ _ _ _ Em)|].
  split; [apply law_pitch|]. split; [exact El|]. split; [exact Et|]. done.
Qed.

Lemma accepted_sub query w h mods m : m ∈ accepted_mods query w h mods -> m ∈ mods /\ query_ok w h (query m) = true.
Proof. unfold accepted_mods. by intros [? ?]%list_elem_of_filter. Qed.

(** The layout contract of a successful allocation. *)
Definition alloc_result_ok (source_rm : bool) (a a' : alloc_args) (f : nvg_format) : Prop :=
  let mappable := a_force_linear a || a_needs_map_stride a in
  0 < a_out_stride a' <= UINT32_MAX /\
  (mappable = true -> a_out_stride a' mod bpp f = 0 /\ a_width a * bpp f <= a_out_stride a') /\
  (a_force_linear a = true -> a_out_modifier a' = DRM_FORMAT_MOD_LINEAR) /\
  (source_rm = false -> a_force_linear a = false -> a_out_modifier a' <> DRM_FORMAT_MOD_LINEAR) /\
  a_out_map_stride a' =
    (if (a_out_modifier a' =? DRM_FORMAT_MOD_LINEAR) || negb mappable then 0 else a_out_stride a').

(** the layout rule: a successful allocation is of a whitelisted format;
    its modifier is LINEAR when [force_linear] asks for it and, in proprietary
    mode, never LINEAR otherwise; the stride is a non-zero 32-bit value, and
    for a CPU-mappable buffer a whole number of pixels covering the width;
    [out_map_stride] is the stride exactly for mappable block-linear buffers. *)
Theorem alloc_layout_rule (D : driver) (source_rm : bool) (a a' : alloc_args) (flags : Z) (w w' : world) :
  DriverLaws D -> is_u32 (a_width a) ->
  nvg_alloc_impl D source_rm a flags w = (0, a', w') ->
  exists f, find_format (a_drm_format a) = Some f /\ alloc_result_ok source_rm a a' f.
Proof.
  intros L Hw E.
  apply nvg_alloc_impl_cases in E as [(Hr & _)|(rdev & f & vk & w1 & mods & _ & Hf & _ & _ & _ & Hmods & Hne & Hi)]; [lia|].
  exists f. split; [done|]. set (c := modifier_candidates _ _ _ _) in *.
  apply alloc_image_success in Hi as (fd & layout & chosen & ty & bits & _ & Hch & Hp & Hl & _ & ->); [|done|done].
  destruct (bpp_pos _ _ Hf). destruct (candidates_sound source_rm (a_force_linear a) (a_height a)
    (d_modifiers D (tr w1) (vkf f))) as (Hin & Hsame & Hsub). fold c in Hin, Hsame, Hsub.
  rewrite Hmods in Hch. apply accepted_sub in Hch as [Hch _].
  destruct (Hin chosen Hch) as (p & _ & _ & _ & _ & Hlin & _).
  unfold layout_unusable in Hl. cbn [a_force_linear a_needs_map_stride a_width set_out] in *.
  apply orb_false_iff in Hl as [[[_ Hz]%orb_false_iff Hmax]%orb_false_iff Hmap]. bool_props.
  unfold is_u64, UINT32_MAX, is_u32 in *.
  assert (Hs : u32 (l_rowPitch layout) = l_rowPitch layout) by (apply u32_id; unfold is_u32; lia).
  unfold alloc_result_ok. cbn [a_out_stride a_out_modifier a_out_map_stride set_out]. rewrite Hs.
  unfold UINT32_MAX. split_and!; [lia|lia| | | |].
  - intros Hm. rewrite Hm in Hmap. cbn [andb] in Hmap. bool_props.
    rewrite u64_id in H2 by (unfold is_u64; nia). done.
  - intros Hfl. apply Hlin. destruct (decide (c_linear c = a_force_linear a)) as [->|Hx]; [done|].
    by destruct (Hsub Hx) as [? _]; congruence.
  - intros Hrm Hfl Hx. apply Hlin in Hx. rewrite Hsame in Hx by done. congruence.
  - destruct (Z.eqb_spec chosen DRM_FORMAT_MOD_LINEAR) as [Hx|Hx].
    + apply Hlin in Hx. by rewrite Hx.
    + assert (c_linear c = false) as -> by (destruct (c_linear c); naive_solver). cbn [negb andb orb].
      by destruct (a_force_linear a || a_needs_map_stride a).
Qed.

(** ** Plane layout *)

Definition reqs_ok (r : VkMemoryRequirements) : Prop :=
  0 <= req_alignment r < 2 ^ 62 /\ 0 <= req_size r < 2 ^ 62.

(** The offsets suit the plane requirements of the image queried at [t], and
    the size the requirement of the one queried at [t']. *)
Definition plane_result_ok (D : driver) (off0 off1 o0 o1 tot : Z) : Prop :=
  exists t h t' h', let r0 := d_plane_reqs D t h 0 in let r1 := d_plane_reqs D t h 1 in
    off0 <= o0 <= UINT32_MAX /\ off1 <= o1 <= UINT32_MAX /\
    (req_alignment r0 <> 0 -> (req_alignment r0 | o0)) /\
    (req_alignment r1 <> 0 -> (req_alignment r1 | o1)) /\
    o0 + req_size r0 <= o1 /\ o1 + req_size r1 <= tot /\ req_size (d_image_reqs D t' h') <= tot.

(** the plane layout handed to minigbm is bindable and nothing leaks: on
    success the second plane starts after the first plane's required size,
    both offsets are aligned to their plane's requirement and did not move
    down, and the total size holds the last plane and the whole image; on
    failure offsets and size are untouched.  In both cases every query image
    is destroyed. *)
Theorem plane_layout_sound (D : driver) (gbm : option Z) (fmt width height n s0 s1 off0 off1 total : Z)
  (w : world) :
  (forall t h p, reqs_ok (d_plane_reqs D t h p)) -> is_u32 off0 -> is_u32 off1 ->
  let '(ret, (o0, o1, tot), w') := nvg_plane_layout D gbm fmt width height n s0 s1 off0 off1 total w in
  clean w w' None /\
  ((ret < 0 /\ o0 = off0 /\ o1 = off1 /\ tot = total) \/
   (ret = 0 /\ plane_result_ok D off0 off1 o0 o1 tot)).
Proof.
  intros HD H0 H1.
  destruct (nvg_plane_layout D gbm fmt width height n s0 s1 off0 off1 total w) as [[ret [[o0 o1] tot]] w'] eqn:E.
  unfold nvg_plane_layout in E. cbn beta zeta in E.
  destruct (plane_format fmt) as [vf|]; [|injection E as <- <- <- <- <-; split; [apply clean_refl|by left]].
  destruct gbm as [rdev|]; [|injection E as <- <- <- <- <-; split; [apply clean_refl|by left]].
  destruct (_ || _); [injection E as <- <- <- <- <-; split; [apply clean_refl|by left]|].
  rewrite bind_run in E. pose proof (vk_getM_clean D rdev w) as Hc.
  destruct (vk_getM D rdev w) as [[vk|] w1]; cbn [fst snd] in *;
    [|injection E as <- <- <- <- <-; split; [done|by left]].
  unfold CreateImage, ask, emitM, modS, mbind, M_bind, mret, M_ret in E. cbn [fst snd] in E.
  destruct (negb (has_any _ _)); [injection E as <- <- <- <- <-; split; [done|by left]|].
  assert (Herr : forall r, image_error r < 0) by (intros r; unfold image_error; by destruct (out_of_memory r)).
  destruct (d_create_image D _ _) as [r image]. cbn [fst snd] in E.
  destruct (r =? VK_SUCCESS) eqn:Er; cbn [negb] in E.
  2:{ injection E as <- <- <- <- <-. split; [|by left]. eapply clean_trans; [exact Hc|]. settle. }
  destruct (place_planes _ _ _ _) as [[[p0 p1] fin]|] eqn:Ep; cbn [fst snd] in E.
  2:{ injection E as <- <- <- <- <-. split; [|by left]. eapply clean_trans; [exact Hc|]. settle. }
  apply place_planes_sound in Ep as (A0 & A1 & A2 & A3 & A4 & ->);
    [|done|done|apply HD|apply HD|apply HD|apply HD].
  destruct (d_create_image D _ _) as [r' image']. cbn [fst snd] in E.
  destruct (r' =? VK_SUCCESS) eqn:Er'; cbn [negb] in E.
  2:{ injection E as <- <- <- <- <-. split; [|by left]. eapply clean_trans; [exact Hc|]. settle. }
  injection E as <- <- <- <- <-. split; [eapply clean_trans; [exact Hc|]; settle|]. right. split; [done|].
  unfold UINT32_MAX, is_u32 in *. rewrite !u32_id by (unfold is_u32; lia).
  cbn [emit tr] in *. match type of A2 with context [d_plane_reqs D ?t ?h 0] =>
    match goal with |- context [d_image_reqs D ?t' ?h'] =>
      exists t, h, t', h'; destruct (Z.ltb_spec (p1 + req_size (d_plane_reqs D t h 1)) (req_size (d_image_reqs D t' h')))
    end
  end; unfold UINT32_MAX; cbv zeta; split_and!; (done || lia).
Qed.

(** ** A concrete driver *)

(** An NVIDIA driver with LINEAR and one block-linear modifier for every
    format, 256-byte row alignment, one host-cached and one device-local
    memory type; handles and descriptors are numbered by the trace. *)
Definition demo_platform : platform :=
  mk_platform true true true (0, 5) true (0, 101) (fun _ => true) (0, 1) true
    (0, [mk_pd 7 NVG_VENDOR_NVIDIA "GPU" (Some (FORMAT_FEATURE_FLAGS_2 :: nvg_device_exts)) true 226 128])
    (fun _ => [1]) (0, 102) (fun _ => true) (fun _ => [1; 14]) 103.

Definition demo_block_linear : Z := 0x0300000000606010.
Definition demo_features : Z := 0xc083.

Definition demo_driver : driver := mk_driver
  (fun _ => demo_platform)
  (fun _ _ => [mk_modprops 0 1 demo_features; mk_modprops 0 2 FEATURE_DISJOINT;
               mk_modprops demo_block_linear 1 demo_features])
  (fun _ _ _ _ _ => mk_query VK_SUCCESS EXTMEM_EXPORTABLE 32768 32768)
  (fun t _ => (VK_SUCCESS, 1000 + Z.of_nat (length t)))
  (fun _ _ => mk_reqs 3145728 65536 3)
  (fun _ _ _ => mk_reqs 2097152 65536 3)
  (fun t _ _ => (VK_SUCCESS, 2000 + Z.of_nat (length t)))
  (fun _ _ _ => VK_SUCCESS)
  (fun _ i _ => (VK_SUCCESS, default 0 (head (ii_mods i))))
  (fun _ _ => mk_layout 0 1024 0)
  (fun t _ => (VK_SUCCESS, 30 + Z.of_nat (length t))).

#[export] Instance demo_laws : DriverLaws demo_driver.
Proof.
  split.
  - intros t i h r m [= <- <-] _ Hne. simpl. destruct (ii_mods i) as [|x l]; [done|]. simpl. set_solver.
  - intros t h. simpl. unfold is_u64. lia.
Qed.

Definition demo_args (linear : bool) : alloc_args :=
  mk_args (Some 57984) 200 100 DRM_FORMAT_ABGR8888 linear true 0 0 0 0.

Lemma alloc_layout_rule_witness :
  exists a' w', nvg_alloc_impl demo_driver false (demo_args false) 0 start = (0, a', w') /\
    a_out_modifier a' = demo_block_linear /\
    exists f, find_format DRM_FORMAT_ABGR8888 = Some f /\ alloc_result_ok false (demo_args false) a' f.
Proof.
  destruct (nvg_alloc_impl demo_driver false (demo_args false) 0 start) as [[ret a'] w'] eqn:E.
  pose proof E as E'. vm_compute in E'. injection E' as <- <- <-. eexists _, _. split; [reflexivity|].
  split; [reflexivity|].
  eapply (alloc_layout_rule demo_driver false (demo_args false)); [apply demo_laws|vm_compute; split; congruence|exact E].
Defined.

Lemma plane_layout_sound_witness :
  (nvg_plane_layout demo_driver (Some 57984) DRM_FORMAT_NV12 1920 1080 2 1920 1920 0 2073600 0 start).1
    = (0, (0, 2097152, 4194304)) /\
  plane_result_ok demo_driver 0 2073600 0 2097152 4194304.
Proof.
  pose proof (plane_layout_sound demo_driver (Some 57984) DRM_FORMAT_NV12 1920 1080 2 1920 1920 0 2073600 0 start) as H.
  destruct (nvg_plane_layout demo_driver _ _ _ _ _ _ _ _ _ _ start) as [[ret [[o0 o1] tot]] w'] eqn:E.
  pose proof E as E'. vm_compute in E'. injection E' as <- <- <- <- _.
  split; [reflexivity|]. destruct H as [_ [(Hr & _)|[_ Hp]]].
  - intros t h p. split; vm_compute; split; congruence.
  - vm_compute; split; congruence.
  - vm_compute; split; congruence.
  - discriminate Hr.
  - exact Hp.
Defined.

End GrallocAlloc.
