(* ===== verification/GrallocMap.v ===== *)
(** * Imported buffers and CPU locks ([nvidia_gbm_wrapper.c]: [nvg_import],
      [nvg_free], [nvg_map*], [nvg_unmap*] and the staging copies)

    A LINEAR buffer is locked by [mmap] bracketed with dma-buf syncs; a
    block-linear one by a GPU copy into a cached linear staging buffer, which
    is copied back at unlock when the lock could write.  The model keeps the
    buffers and mappings this library handed out (by address), the process's
    copy context, the trace of resource calls, and the bytes: of the image, of
    the staging memory as the GPU sees it and as the CPU sees it (the two
    differ for non-coherent memory until a flush or an invalidate).

    The kernel's and the driver's answers are functions of the trace.  The
    mutexes [g_vk_lock] and [g_xfer_lock] bracket whole operations, so an
    operation is one step.  [dma_buf_sync] retries while it is interrupted;
    the kernel interrupts it any finite number of times. *)

From Stdlib Require Import ZArith Lia.
From stdpp Require Import base option sets strings gmap list.
From S2P Require Import Prelude Vulkan GrallocFormat GrallocDevice GrallocAlloc.

Set Default Goal Selector "!".
#[local] Open Scope Z_scope.

Module GrallocMap.
Import Vk.
Import GrallocFormat.
Import GrallocDevice.

Definition GBM_MAP_FLAG_READ : Z := 1.
Definition GBM_MAP_FLAG_WRITE : Z := 2.
Definition NVG_MAP_RW : Z := Z.lor GBM_MAP_FLAG_READ GBM_MAP_FLAG_WRITE.
Definition DMA_BUF_SYNC_READ : Z := 1.
Definition DMA_BUF_SYNC_WRITE : Z := 2.
Definition DMA_BUF_SYNC_START : Z := 0.
Definition DMA_BUF_SYNC_END : Z := 4.
Definition MAP_FAILED : Z := -1.
Definition NULL : Z := 0.

Record nvg_bo := mk_bo {
  b_fd : Z;
  b_size : Z;
  b_modifier : Z;
  b_width : Z;
  b_height : Z;
  b_stride : Z;
  b_drm_format : Z;
  b_rdev : Z;
  b_img : Z;
  b_img_mem : Z;
  b_stg : Z;
  b_stg_mem : Z;
  b_stg_ptr : Z;
  b_stg_size : Z;
  b_stg_coherent : bool;
  b_locked : bool;
}.

(** The staging members ([tiled_setup_locked], [tiled_release_locked]). *)
Definition with_tiled (b : nvg_bo) (img img_mem stg stg_mem ptr size : Z) (coherent : bool) : nvg_bo :=
  mk_bo (b_fd b) (b_size b) (b_modifier b) (b_width b) (b_height b) (b_stride b) (b_drm_format b) (b_rdev b)
    img img_mem stg stg_mem ptr size coherent (b_locked b).
Definition with_locked (b : nvg_bo) (l : bool) : nvg_bo :=
  mk_bo (b_fd b) (b_size b) (b_modifier b) (b_width b) (b_height b) (b_stride b) (b_drm_format b) (b_rdev b)
    (b_img b) (b_img_mem b) (b_stg b) (b_stg_mem b) (b_stg_ptr b) (b_stg_size b) (b_stg_coherent b) l.

Record nvg_map := mk_map {
  m_bo : Z;          (** the buffer it maps and its row stride (the model's own notes) *)
  m_stride : Z;
  m_addr : Z;
  m_size : Z;
  m_tiled : bool;
  m_flags : Z;
}.

(** The bytes behind a buffer: the image by row and byte (row [y], byte [x]
    of a LINEAR buffer is its byte [y * stride + x]), and for a block-linear
    one the staging memory by offset as the GPU and as the CPU see it. *)
Record bytes := mk_bytes {
  image : Z -> Z -> Z;
  gpu_view : Z -> Z;
  cpu_view : Z -> Z;
}.

Record mworld := mk_mw {
  base : world;                   (** device setup and trace *)
  bos : gmap Z nvg_bo;
  maps : gmap Z nvg_map;
  mem : Z -> bytes;               (** the bytes behind each buffer *)
  heap_next : Z;
  g_xfer_state : Z;
  errno : Z;
}.

(** What the kernel and the driver answer. *)
Record os := mk_os {
  o_platform : trace -> platform;
  o_lseek : trace -> Z -> Z;
  o_alloc : trace -> bool;
  o_dup : trace -> Z -> Z;
  o_create_pool : trace -> Z * Z;
  o_alloc_cb : trace -> Z;
  o_create_fence : trace -> Z * Z;
  o_create_image : trace -> nvg_bo -> Z * Z;
  o_image_reqs : trace -> Z -> VkMemoryRequirements;
  o_fd_types : trace -> Z -> Z * Z;
  o_allocate : trace -> Z -> Z -> Z * Z;
  o_bind_image : trace -> Z -> Z -> Z;
  o_create_buffer : trace -> Z -> Z * Z;
  o_buffer_reqs : trace -> Z -> VkMemoryRequirements;
  o_bind_buffer : trace -> Z -> Z -> Z;
  o_map_memory : trace -> Z -> Z * Z;
  o_record : trace -> Z;          (** reset and begin of the command buffer *)
  o_submit : trace -> Z;          (** end and submit *)
  o_wait : trace -> Z;
  o_reset_fence : trace -> Z;
  o_flush : trace -> Z;
  o_invalidate : trace -> Z;
  o_garbage : trace -> Z -> Z -> Z;    (** bytes left by a copy that did not complete *)
  o_mmap : trace -> Z -> Z -> Z;  (** address, or MAP_FAILED *)
  o_mmap_errno : trace -> Z;
  o_sync : trace -> Z -> Z -> nat * Z;  (** interrupted tries, then errno or 0 *)
}.

(** Documented behaviour: a call that succeeds returns a valid handle. *)
Class OsLaws (K : os) : Prop := {
  os_image t b r h : o_create_image K t b = (r, h) -> r = VK_SUCCESS -> h <> VK_NULL_HANDLE;
  os_memory t s y r h : o_allocate K t s y = (r, h) -> r = VK_SUCCESS -> h <> VK_NULL_HANDLE;
  os_buffer t s r h : o_create_buffer K t s = (r, h) -> r = VK_SUCCESS -> h <> VK_NULL_HANDLE;
}.

(** ** Small steps *)

Definition with_base (w : mworld) (b : world) : mworld :=
  mk_mw b (bos w) (maps w) (mem w) (heap_next w) (g_xfer_state w) (errno w).
Definition ev (e : event) : M mworld () := modS (fun w => with_base w (emit (base w) e)).
Definition ask {A} (f : trace -> A) : M mworld A := fun w => (f (tr (base w)), w).
Definition set_errno (e : Z) : M mworld () :=
  modS (fun w => mk_mw (base w) (bos w) (maps w) (mem w) (heap_next w) (g_xfer_state w) e).
Definition set_xfer (s : Z) : M mworld () :=
  modS (fun w => mk_mw (base w) (bos w) (maps w) (mem w) (heap_next w) s (errno w)).
Definition put_bo (p : Z) (b : nvg_bo) : M mworld () :=
  modS (fun w => mk_mw (base w) (<[p := b]> (bos w)) (maps w) (mem w) (heap_next w) (g_xfer_state w) (errno w)).
Definition del_bo (p : Z) : M mworld () :=
  modS (fun w => mk_mw (base w) (delete p (bos w)) (maps w) (mem w) (heap_next w) (g_xfer_state w) (errno w)).
Definition put_map (p : Z) (m : nvg_map) : M mworld () :=
  modS (fun w => mk_mw (base w) (bos w) (<[p := m]> (maps w)) (mem w) (heap_next w) (g_xfer_state w) (errno w)).
Definition del_map (p : Z) : M mworld () :=
  modS (fun w => mk_mw (base w) (bos w) (delete p (maps w)) (mem w) (heap_next w) (g_xfer_state w) (errno w)).
Definition put_bytes (p : Z) (m : bytes) : M mworld () :=
  modS (fun w => mk_mw (base w) (bos w) (maps w) (fun q => if decide (q = p) then m else mem w q) (heap_next w) (g_xfer_state w) (errno w)).
Definition whenM (b : bool) (m : M mworld ()) : M mworld () := if b then m else mret tt.

Section Ops.
Context (K : os).

(** [calloc]/[malloc] of one object: its address, 0 when out of memory. *)
Definition alloc : M mworld Z :=
  ok ← ask (o_alloc K);
  w ← getS;
  let p := if ok : bool then heap_next w else NULL in
  _ ← modS (fun w => mk_mw (base w) (bos w) (maps w) (mem w) (heap_next w + 1) (g_xfer_state w) (errno w));
  _ ← ev (Created KHeap ok p);
  mret p.
Definition free (p : Z) : M mworld () := ev (Destroyed KHeap p).

Definition vk_getM (rdev : Z) : M mworld (option nvg_vk) :=
  fun w => let r := vk_get (o_platform K (tr (base w))) rdev (base w) in (r.1, with_base w r.2).

Definition create (k : kind) (f : trace -> Z * Z) : M mworld (Z * Z) :=
  '(r, h) ← ask f;
  _ ← ev (Created k (r =? VK_SUCCESS) h);
  mret (r, h).

(** [fcntl(fd, F_DUPFD_CLOEXEC, 0)] *)
Definition dup (fd : Z) : M mworld Z :=
  n ← ask (fun t => o_dup K t fd);
  _ ← ev (Created KFd (0 <=? n) n);
  mret n.

(** ** Import and free *)

(** 0 stands for NULL; [size_max] is the process's [SIZE_MAX]. *)
Definition nvg_import (size_max : Z) (gbm : option Z) (buf_fd width height stride modifier drm_format : Z) :
  M mworld Z :=
  size ← ask (fun t => o_lseek K t buf_fd);
  if size <=? 0 then mret NULL
  else if size_max <? size then (_ ← set_errno EFBIG; mret NULL)
  else
    p ← alloc;
    if p =? NULL then mret NULL
    else
      fd ← dup buf_fd;
      if fd <? 0 then (_ ← free p; mret NULL)
      else
        _ ← put_bo p (mk_bo fd size modifier width height stride drm_format (default 0 gbm)
                        0 0 0 0 0 0 false false);
        mret p.

(** The staging buffer, its memory, the image and its memory go. *)
Definition tiled_release_locked (b : nvg_bo) : M mworld nvg_bo :=
  _ ← whenM (negb (b_stg b =? VK_NULL_HANDLE)) (ev (Destroyed KBuffer (b_stg b)));
  _ ← whenM (negb (b_stg_mem b =? VK_NULL_HANDLE)) (ev (Destroyed KMemory (b_stg_mem b)));
  _ ← whenM (negb (b_img b =? VK_NULL_HANDLE)) (ev (Destroyed KImage (b_img b)));
  _ ← whenM (negb (b_img_mem b =? VK_NULL_HANDLE)) (ev (Destroyed KMemory (b_img_mem b)));
  mret (with_locked (with_tiled b 0 0 0 0 NULL (b_stg_size b) (b_stg_coherent b)) false).

Definition nvg_free (p : Z) : M mworld () :=
  w ← getS;
  match bos w !! p with
  | None => mret tt
  | Some b =>
      b ← (if negb (b_img b =? VK_NULL_HANDLE) || negb (b_stg b =? VK_NULL_HANDLE)
           then tiled_release_locked b else mret b);
      _ ← ev (Destroyed KFd (b_fd b));
      _ ← free p;
      del_bo p
  end.

(** ** dma-buf synchronisation *)

Definition dma_buf_dir (flags : Z) : Z :=
  Z.lor (if has_any flags GBM_MAP_FLAG_READ then DMA_BUF_SYNC_READ else 0)
        (if has_any flags GBM_MAP_FLAG_WRITE then DMA_BUF_SYNC_WRITE else 0).

(** [do r = ioctl(...) while (r < 0 && (errno == EINTR || errno == EAGAIN))] *)
Fixpoint sync_loop (interrupted : nat) (fd flags e : Z) : M mworld Z :=
  _ ← ev (Called "DMA_BUF_IOCTL_SYNC" [fd; flags]);
  match interrupted with
  | S n => sync_loop n fd flags e
  | O => mret (if e =? 0 then 0 else - e)
  end.
Definition dma_buf_sync (fd flags : Z) : M mworld Z :=
  '(n, e) ← ask (fun t => o_sync K t fd flags);
  sync_loop n fd flags e.

(** ** The copy context and the staging buffer *)

Definition xfer_ready_locked : M mworld bool :=
  w ← getS;
  if 0 <? g_xfer_state w then mret true
  else if g_xfer_state w <? 0 then mret false
  else
    '(r, _) ← create KPool (o_create_pool K);
    r ← (if r =? VK_SUCCESS then ask (o_alloc_cb K) else mret r);
    r ← (if r =? VK_SUCCESS then ('(r, _) ← create KFence (o_create_fence K); mret r) else mret r);
    if negb (r =? VK_SUCCESS) then (_ ← set_xfer (-1); mret false)
    else (_ ← set_xfer 1; mret true).

Definition cached_flags : Z := Z.lor MEM_HOST_VISIBLE MEM_HOST_CACHED.

(** System memory the CPU caches; coherent preferred. *)
Definition staging_match (bits want i fl : Z) : bool :=
  type_matches bits want i fl && negb (has_any fl MEM_DEVICE_LOCAL).
Definition staging_type (bits : Z) (types : list Z) : option Z :=
  match first_type types 0 (staging_match bits (Z.lor cached_flags MEM_HOST_COHERENT)) with
  | Some t => Some t
  | None => first_type types 0 (staging_match bits cached_flags)
  end.

Definition setup_fail (b : nvg_bo) : M mworld (bool * nvg_bo) :=
  b ← tiled_release_locked b; mret (false, b).

(** The staging half of [tiled_setup_locked], once the image is bound. *)
Definition setup_staging (vk : nvg_vk) (b : nvg_bo) : M mworld (bool * nvg_bo) :=
  let size := u64 (b_stride b * b_height b) in
  '(r, stg) ← create KBuffer (fun t => o_create_buffer K t size);
  if negb (r =? VK_SUCCESS)
  then setup_fail (with_tiled b (b_img b) (b_img_mem b) VK_NULL_HANDLE (b_stg_mem b) (b_stg_ptr b) size (b_stg_coherent b))
  else
  let b := with_tiled b (b_img b) (b_img_mem b) stg (b_stg_mem b) (b_stg_ptr b) size (b_stg_coherent b) in
  breq ← ask (fun t => o_buffer_reqs K t stg);
  match staging_type (req_memoryTypeBits breq) (memprops vk) with
  | None => setup_fail b
  | Some type =>
  let coherent := has_any (default 0 (memprops vk !! Z.to_nat type)) MEM_HOST_COHERENT in
  '(r, stg_mem) ← create KMemory (fun t => o_allocate K t (req_size breq) type);
  if negb (r =? VK_SUCCESS)
  then setup_fail (with_tiled b (b_img b) (b_img_mem b) stg VK_NULL_HANDLE (b_stg_ptr b) size coherent)
  else
  let b := with_tiled b (b_img b) (b_img_mem b) stg stg_mem (b_stg_ptr b) size coherent in
  r ← ask (fun t => o_bind_buffer K t stg stg_mem);
  if negb (r =? VK_SUCCESS) then setup_fail b
  else
  '(r, ptr) ← ask (fun t => o_map_memory K t stg_mem);
  if negb (r =? VK_SUCCESS) then setup_fail b
  else mret (true, with_tiled b (b_img b) (b_img_mem b) stg stg_mem ptr size coherent)
  end.

Definition tiled_setup_locked (vk : nvg_vk) (b : nvg_bo) : M mworld (bool * nvg_bo) :=
  '(r, img) ← create KImage (fun t => o_create_image K t b);
  if negb (r =? VK_SUCCESS)
  then setup_fail (with_tiled b VK_NULL_HANDLE (b_img_mem b) (b_stg b) (b_stg_mem b) (b_stg_ptr b) (b_stg_size b) (b_stg_coherent b))
  else
  let b := with_tiled b img (b_img_mem b) (b_stg b) (b_stg_mem b) (b_stg_ptr b) (b_stg_size b) (b_stg_coherent b) in
  req ← ask (fun t => o_image_reqs K t img);
  '(r, fdbits) ← ask (fun t => o_fd_types K t (b_fd b));
  let type := if r =? VK_SUCCESS
              then first_type (memprops vk) 0 (fun i _ => Z.testbit (Z.land (req_memoryTypeBits req) fdbits) i)
              else None in
  match type with
  | None => setup_fail b
  | Some type =>
  if b_size b <? req_size req then setup_fail b
  else
  dupfd ← dup (b_fd b);
  if dupfd <? 0 then setup_fail b
  else
  '(r, img_mem) ← create KMemory (fun t => o_allocate K t (req_size req) type);
  if negb (r =? VK_SUCCESS)
  then (_ ← ev (Destroyed KFd dupfd);
        setup_fail (with_tiled b img VK_NULL_HANDLE (b_stg b) (b_stg_mem b) (b_stg_ptr b) (b_stg_size b) (b_stg_coherent b)))
  else
  _ ← ev (Moved KFd dupfd);
  let b := with_tiled b img img_mem (b_stg b) (b_stg_mem b) (b_stg_ptr b) (b_stg_size b) (b_stg_coherent b) in
  r ← ask (fun t => o_bind_image K t img img_mem);
  if negb (r =? VK_SUCCESS) then setup_fail b
  else setup_staging vk b
  end.

(** ** The copies *)

(** [bufferRowLength] is in pixels: the row pitch in bytes. *)
Definition copy_pitch (b : nvg_bo) (f : nvg_format) : Z := b_stride b / bpp f * bpp f.
Definition in_row (b : nvg_bo) (f : nvg_format) (y x : Z) : bool :=
  (0 <=? y) && (y <? b_height b) && (0 <=? x) && (x <? b_width b * bpp f).

Definition copy_to_staging (b : nvg_bo) (f : nvg_format) (m : bytes) : bytes :=
  let g o := let y := o / copy_pitch b f in let x := o mod copy_pitch b f in
             if in_row b f y x then image m y x else gpu_view m o in
  mk_bytes (image m) g (if b_stg_coherent b then g else cpu_view m).

Definition copy_to_image (b : nvg_bo) (f : nvg_format) (m : bytes) : bytes :=
  mk_bytes (fun y x => if in_row b f y x then gpu_view m (y * copy_pitch b f + x) else image m y x)
    (gpu_view m) (cpu_view m).

(** A copy that was submitted but did not complete leaves anything in its
    destination. *)
Definition torn_copy (b : nvg_bo) (to_staging : bool) (g : Z -> Z -> Z) (m : bytes) : bytes :=
  if to_staging then mk_bytes (image m) (g 0) (if b_stg_coherent b then g 0 else cpu_view m)
  else mk_bytes g (gpu_view m) (cpu_view m).

Definition tiled_copy_locked (p : Z) (b : nvg_bo) (f : nvg_format) (to_staging : bool) : M mworld bool :=
  r ← ask (o_record K);
  if negb (r =? VK_SUCCESS) then mret false
  else
  r ← ask (o_submit K);
  if negb (r =? VK_SUCCESS) then mret false
  else
  _ ← ev (Called (if to_staging then "CopyImageToBuffer" else "CopyBufferToImage")
            (if to_staging then [b_img b; b_stg b] else [b_stg b; b_img b]));
  r ← ask (o_wait K);
  w ← getS;
  if negb (r =? VK_SUCCESS)
  then (g ← ask (o_garbage K);
        _ ← put_bytes p (torn_copy b to_staging g (mem w p));
        _ ← set_xfer (-1); mret false)
  else
  _ ← put_bytes p ((if to_staging then copy_to_staging else copy_to_image) b f (mem w p));
  r ← ask (o_reset_fence K);
  if negb (r =? VK_SUCCESS) then (_ ← set_xfer (-1); mret false)
  else mret true.

(** Non-coherent memory: what the GPU wrote becomes visible to the CPU, and
    what the CPU wrote to the GPU. *)
Definition invalidate_bytes (m : bytes) : bytes := mk_bytes (image m) (gpu_view m) (gpu_view m).
Definition flush_bytes (m : bytes) : bytes := mk_bytes (image m) (cpu_view m) (cpu_view m).

(** ** Locks *)

(** [fail:] of [nvg_map_tiled]. *)
Definition map_fail (m err : Z) : M mworld (Z * Z) :=
  _ ← free m; _ ← set_errno err; mret (MAP_FAILED, NULL).

(** The address and the mapping ([MAP_FAILED] and NULL on failure); [p] is
    the buffer's address. *)
Definition nvg_map_tiled (p : Z) (b : nvg_bo) (flags : Z) : M mworld (Z * Z) :=
  match find_format (b_drm_format b) with
  | None => _ ← set_errno EINVAL; mret (MAP_FAILED, NULL)
  | Some f =>
  if negb (b_stride b mod bpp f =? 0) || (b_stride b <? u32 (b_width b * bpp f))
  then (_ ← set_errno EINVAL; mret (MAP_FAILED, NULL))
  else
  vk ← vk_getM (b_rdev b);
  match vk with
  | None => _ ← set_errno ENODEV; mret (MAP_FAILED, NULL)
  | Some vk =>
  m ← alloc;
  if m =? NULL then (_ ← set_errno ENOMEM; mret (MAP_FAILED, NULL))
  else
  if b_locked b then map_fail m EBUSY
  else
  ready ← xfer_ready_locked;
  if negb ready then map_fail m EIO
  else
  '(ok, b) ← (if b_img b =? VK_NULL_HANDLE
              then ('(ok, b) ← tiled_setup_locked vk b; _ ← put_bo p b; mret (ok, b))
              else mret (true, b));
  if negb ok then map_fail m EIO
  else
  ok ← tiled_copy_locked p b f true;
  if negb ok then map_fail m EIO
  else
  ok ← (if b_stg_coherent b then mret true
        else (r ← ask (o_invalidate K);
              w ← getS;
              _ ← whenM (r =? VK_SUCCESS) (put_bytes p (invalidate_bytes (mem w p)));
              mret (r =? VK_SUCCESS)));
  if negb ok then map_fail m EIO
  else
  _ ← put_bo p (with_locked b true);
  _ ← put_map m (mk_map p (b_stride b) (b_stg_ptr b) (b_stg_size b) true flags);
  mret (b_stg_ptr b, m)
  end end.

Definition nvg_unmap_tiled (p : Z) (b : nvg_bo) (q : Z) (m : nvg_map) (flags : Z) : M mworld () :=
  if negb (has_any (Z.lor (m_flags m) flags) GBM_MAP_FLAG_WRITE) then
    _ ← put_bo p (with_locked b false);
    _ ← del_map q;
    free q
  else
    w ← getS;
    let f := find_format (b_drm_format b) in
    let ok : bool := b_locked b && bool_decide (is_Some f) && (0 <? g_xfer_state w) in
    ok ← (if ok && negb (b_stg_coherent b)
          then (r ← ask (o_flush K);
                w ← getS;
                _ ← whenM (r =? VK_SUCCESS) (put_bytes p (flush_bytes (mem w p)));
                mret (r =? VK_SUCCESS))
          else mret ok);
    _ ← (match f with
         | Some f => if ok : bool then tiled_copy_locked p b f false else mret false
         | None => mret false
         end);
    _ ← put_bo p (with_locked b false);
    _ ← del_map q;
    free q.

Definition nvg_map_impl (p : Z) (flags : Z) : M mworld (Z * Z) :=
  w ← getS;
  match bos w !! p with
  | None => _ ← set_errno EINVAL; mret (MAP_FAILED, NULL)
  | Some b =>
  if negb (b_modifier b =? DRM_FORMAT_MOD_LINEAR) then nvg_map_tiled p b flags
  else
  m ← alloc;
  if m =? NULL then (_ ← set_errno ENOMEM; mret (MAP_FAILED, NULL))
  else
  a ← ask (fun t => o_mmap K t (b_fd b) (b_size b));
  _ ← ev (Created KMapping (negb (a =? MAP_FAILED)) a);
  if a =? MAP_FAILED
  then (e ← ask (o_mmap_errno K); _ ← free m; _ ← set_errno e; mret (MAP_FAILED, NULL))
  else
  sr ← dma_buf_sync (b_fd b) (Z.lor DMA_BUF_SYNC_START (dma_buf_dir flags));
  if negb (sr =? 0)
  then (_ ← ev (Destroyed KMapping a); _ ← free m; _ ← set_errno (- sr); mret (MAP_FAILED, NULL))
  else
  _ ← put_map m (mk_map p (b_stride b) a (b_size b) false flags);
  mret (a, m)
  end.

Definition nvg_unmap_impl (p q : Z) (flags : Z) : M mworld () :=
  w ← getS;
  match bos w !! p, maps w !! q with
  | Some b, Some m =>
      if m_tiled m then nvg_unmap_tiled p b q m flags
      else
        _ ← dma_buf_sync (b_fd b) (Z.lor DMA_BUF_SYNC_END (dma_buf_dir (Z.lor (m_flags m) flags)));
        _ ← ev (Destroyed KMapping (m_addr m));
        _ ← del_map q;
        free q
  | _, _ => mret tt
  end.

Definition nvg_map_op (p : Z) : M mworld (Z * Z) := nvg_map_impl p NVG_MAP_RW.
Definition nvg_unmap (p q : Z) : M mworld () := nvg_unmap_impl p q NVG_MAP_RW.

Definition nvg_map_flags (p flags : Z) : M mworld (Z * Z) :=
  if (flags =? 0) || negb (Z.land flags (Z.lnot NVG_MAP_RW) =? 0)
  then (_ ← set_errno EINVAL; mret (MAP_FAILED, NULL))
  else nvg_map_impl p flags.

Definition nvg_unmap_flags (p q flags : Z) : M mworld () := nvg_unmap_impl p q (Z.land flags NVG_MAP_RW).

End Ops.

(** ** What each live object holds *)

(** Handles that stand for a resource. *)
Definition valid (k : kind) (h : Z) : Prop :=
  match k with
  | KImage | KMemory | KBuffer => h <> VK_NULL_HANDLE
  | KFd => 0 <= h
  | KMapping => h <> MAP_FAILED
  | KHeap => h <> NULL
  | _ => False
  end.

Definition holds1 (h h' : Z) : Z := if decide (h' = h) then 1 else 0.

Definition bo_res (k : kind) (h : Z) (p : Z) (b : nvg_bo) : Z :=
  match k with
  | KImage => holds1 h (b_img b)
  | KMemory => holds1 h (b_img_mem b) + holds1 h (b_stg_mem b)
  | KBuffer => holds1 h (b_stg b)
  | KFd => holds1 h (b_fd b)
  | KHeap => holds1 h p
  | _ => 0
  end.

Definition map_res (k : kind) (h : Z) (q : Z) (m : nvg_map) : Z :=
  match k with
  | KMapping => if m_tiled m then 0 else holds1 h (m_addr m)
  | KHeap => holds1 h q
  | _ => 0
  end.

(** What an import fixes. *)
Definition geom (b : nvg_bo) : Z * Z * Z * Z * Z * Z * Z * Z :=
  (b_fd b, b_size b, b_modifier b, b_width b, b_height b, b_stride b, b_drm_format b, b_rdev b).

(** Staging handles come all together or not at all. *)
Definition no_tiled (b : nvg_bo) : Prop := b_img b = 0 /\ b_img_mem b = 0 /\ b_stg b = 0 /\ b_stg_mem b = 0.
Definition all_tiled (b : nvg_bo) : Prop := b_img b <> 0 /\ b_img_mem b <> 0 /\ b_stg b <> 0 /\ b_stg_mem b <> 0.
Definition tiled_ok (b : nvg_bo) : Prop := all_tiled b /\ b_stg_size b = u64 (b_stride b * b_height b).
Definition bo_wf (b : nvg_bo) : Prop := 0 <= b_fd b /\ (no_tiled b \/ tiled_ok b).

Definition held (w : mworld) (k : kind) (h : Z) : Z := total (bo_res k h) (bos w) + total (map_res k h) (maps w).

(** The part of the world a step on one buffer's Vulkan objects leaves. *)
Definition frame (w w' : mworld) : Prop :=
  bos w' = bos w /\ maps w' = maps w /\ heap_next w' = heap_next w.

Lemma frame_refl w : frame w w.
Proof. done. Qed.
Lemma frame_trans w1 w2 w3 : frame w1 w2 -> frame w2 w3 -> frame w1 w3.
Proof. unfold frame. intuition congruence. Qed.

(** Resources gained from [w] to [w'] are what [b'] holds more than [b]. *)
Definition delta (b b' : nvg_bo) (w w' : mworld) : Prop :=
  forall k h, valid k h ->
    balance k h (tr (base w')) = balance k h (tr (base w)) + bo_res k h 0 b' - bo_res k h 0 b.

Lemma delta_trans b1 b2 b3 w1 w2 w3 : delta b1 b2 w1 w2 -> delta b2 b3 w2 w3 -> delta b1 b3 w1 w3.
Proof. intros H1 H2 k h Hv. rewrite H2, H1 by done. lia. Qed.

Ltac run_m :=
  unfold create, dup, alloc, free, whenM, ev, ask, set_errno, set_xfer, put_bo, del_bo, put_map, del_map,
    put_bytes, getS, modS, mbind, M_bind, mret, M_ret;
  cbn [fst snd].

Ltac settle :=
  let k := fresh "k" in let h := fresh "h" in let Hv := fresh "Hv" in
  intros k h Hv; cbn [base with_base tr emit];
  destruct k; cbn [valid] in Hv; try done; bal_simpl;
  unfold bo_res, map_res, holds1, VK_NULL_HANDLE, NULL, MAP_FAILED, no_tiled, all_tiled in *;
  cbn [b_img b_img_mem b_stg b_stg_mem b_fd with_tiled with_locked] in *;
  repeat case_decide; simplify_eq; try lia.

Lemma release_spec b w :
  let '(b', w') := tiled_release_locked b w in
  frame w w' /\ delta b b' w w' /\ no_tiled b' /\ geom b' = geom b.
Proof.
  unfold tiled_release_locked. run_m.
  destruct (Z.eqb_spec (b_stg b) VK_NULL_HANDLE), (Z.eqb_spec (b_stg_mem b) VK_NULL_HANDLE),
    (Z.eqb_spec (b_img b) VK_NULL_HANDLE), (Z.eqb_spec (b_img_mem b) VK_NULL_HANDLE);
    cbn [negb fst snd]; (split; [done|]; split; [settle|done]).
Qed.

Lemma create_run k f w :
  create k f w = (f (tr (base w)), with_base w (emit (base w)
    (Created k ((f (tr (base w))).1 =? VK_SUCCESS) (f (tr (base w))).2))).
Proof. unfold create. run_m. by destruct (f (tr (base w))). Qed.

Lemma dup_run K fd w :
  dup K fd w = (o_dup K (tr (base w)) fd, with_base w (emit (base w)
    (Created KFd (0 <=? o_dup K (tr (base w)) fd) (o_dup K (tr (base w)) fd)))).
Proof. reflexivity. Qed.

Lemma ask_run {A} (f : trace -> A) w : ask f w = (f (tr (base w)), w).
Proof. reflexivity. Qed.

Lemma ev_run e w : ev e w = (tt, with_base w (emit (base w) e)).
Proof. reflexivity. Qed.

(** Step through a bind. *)
Ltac step := rewrite bind_run; rewrite ?create_run, ?dup_run, ?ask_run, ?ev_run; cbn [fst snd].

Section Setup.
Context (K : os) `{HK : !OsLaws K}.

(** The outcome of a setup step that started from [b0] in [w0]. *)
Definition setup_ok (b0 : nvg_bo) (w0 : mworld) (r : bool * nvg_bo * mworld) : Prop :=
  let '(ok, b', w') := r in
  frame w0 w' /\ delta b0 b' w0 w' /\ geom b' = geom b0 /\ (if ok then tiled_ok b' else no_tiled b').

Lemma setup_fail_ok b0 w0 b w :
  frame w0 w -> delta b0 b w0 w -> geom b = geom b0 -> setup_ok b0 w0 (setup_fail b w).
Proof.
  intros Hf Hd Hfd. unfold setup_fail. rewrite bind_run. pose proof (release_spec b w) as H.
  destruct (tiled_release_locked b w) as [b' w']. cbn [fst snd]. destruct H as (F & D & N & E).
  unfold setup_ok. cbn. split; [by eapply frame_trans|]. split; [by eapply delta_trans|].
  split; [congruence|done].
Qed.

Lemma setup_staging_ok vk b0 w0 b w :
  frame w0 w -> delta b0 b w0 w -> geom b = geom b0 ->
  b_img b <> 0 -> b_img_mem b <> 0 -> b_stg b = 0 -> b_stg_mem b = 0 ->
  setup_ok b0 w0 (setup_staging K vk b w).
Proof.
  intros Hf Hd Hfd Hi Him Hs Hsm. unfold setup_staging. cbn zeta. set (size := u64 _).
  step.
  destruct (o_create_buffer K _ _) as [r stg] eqn:Eb. cbn [fst snd].
  destruct (Z.eqb_spec r VK_SUCCESS) as [Hr|Hr]; cbn [negb].
  2:{ apply setup_fail_ok; [done| |done]. eapply delta_trans; [exact Hd|]. settle. }
  assert (Hstg : stg <> 0) by (by eapply os_buffer).
  set (b1 := with_tiled b _ _ stg _ _ _ _).
  assert (Hd1 : delta b0 b1 w0 (with_base w (emit (base w) (Created KBuffer true stg)))).
  { eapply delta_trans; [exact Hd|]. unfold b1. settle. }
  step. destruct (staging_type _ _) as [type|]; [|by apply setup_fail_ok]. step.
  destruct (o_allocate K _ _ _) as [r2 smem] eqn:Em. cbn [fst snd].
  destruct (Z.eqb_spec r2 VK_SUCCESS) as [Hr2|Hr2]; cbn [negb].
  2:{ apply setup_fail_ok; [done| |done]. eapply delta_trans; [exact Hd1|]. unfold b1. settle. }
  assert (Hsmem : smem <> 0) by (by eapply os_memory).
  set (coh := has_any _ _). set (b2 := with_tiled b1 _ _ stg smem _ _ _). set (w2 := with_base _ _).
  assert (Hd2 : delta b0 b2 w0 w2).
  { eapply delta_trans; [exact Hd1|]. unfold b2, b1, w2. settle. }
  step. destruct (negb (o_bind_buffer K _ _ _ =? VK_SUCCESS)); [by apply setup_fail_ok|].
  step. destruct (o_map_memory K _ _) as [r3 ptr]. cbn [fst snd].
  destruct (negb (r3 =? VK_SUCCESS)); [by apply setup_fail_ok|].
  split; [done|]. split; [|by split; [done|split; [split_and!|]]].
  intros k h Hv. rewrite (Hd2 k h Hv). by destruct k.
Qed.

Lemma tiled_setup_ok vk b w : no_tiled b -> setup_ok b w (tiled_setup_locked K vk b w).
Proof.
  intros (Hi & Him & Hs & Hsm). unfold tiled_setup_locked.
  step.
  destruct (o_create_image K _ _) as [r img] eqn:Ei. cbn [fst snd].
  destruct (Z.eqb_spec r VK_SUCCESS) as [Hr|Hr]; cbn [negb].
  2:{ apply setup_fail_ok; [done| |done]. settle. }
  assert (Himg : img <> 0) by (by eapply os_image).
  set (b1 := with_tiled b img _ _ _ _ _ _). set (w1 := with_base _ _).
  assert (Hd1 : delta b b1 w w1) by (unfold b1, w1; settle).
  assert (Hf1 : frame w w1) by done.
  step. step. destruct (o_fd_types K _ _) as [r1 bits].
  destruct (if r1 =? VK_SUCCESS then _ else _) as [type|]; [|by apply setup_fail_ok].
  destruct (b_size b1 <? _); [by apply setup_fail_ok|].
  step. set (dupfd := o_dup K _ _).
  destruct (Z.leb_spec 0 dupfd) as [Hfd|Hfd].
  2:{ rewrite (proj2 (Z.ltb_lt _ _)) by lia. apply setup_fail_ok; [done| |done].
      eapply delta_trans; [exact Hd1|]. settle. }
  rewrite (proj2 (Z.ltb_ge _ _)) by lia. step.
  destruct (o_allocate K _ _ _) as [r2 imem] eqn:Em. cbn [fst snd].
  destruct (Z.eqb_spec r2 VK_SUCCESS) as [Hr2|Hr2]; cbn [negb].
  2:{ step. apply setup_fail_ok; [done| |done]. eapply delta_trans; [exact Hd1|]. unfold b1. settle. }
  step. assert (Himem : imem <> 0) by (by eapply os_memory).
  set (b2 := with_tiled b1 _ imem _ _ _ _ _). set (w2 := with_base _ _).
  assert (Hd2 : delta b b2 w w2).
  { eapply delta_trans; [exact Hd1|]. unfold b2, b1, w2. settle. }
  assert (Hf2 : frame w w2) by done. step.
  destruct (negb (o_bind_image K _ _ _ =? VK_SUCCESS)); [by apply setup_fail_ok|].
  by apply setup_staging_ok.
Qed.

End Setup.


(** ** Steps that touch no buffer, mapping or counted resource *)

Definition quiet (w w' : mworld) : Prop :=
  frame w w' /\ forall k h, valid k h -> balance k h (tr (base w')) = balance k h (tr (base w)).

Lemma quiet_refl w : quiet w w.
Proof. done. Qed.
Lemma quiet_trans w1 w2 w3 : quiet w1 w2 -> quiet w2 w3 -> quiet w1 w3.
Proof.
  intros [F1 B1] [F2 B2]. split; [by eapply frame_trans|]. intros k h Hv. rewrite B2, B1 by done. done.
Qed.

Definition quietM {A} (m : M mworld A) : Prop := forall w, quiet w (m w).2.

Lemma quiet_ret {A} (a : A) : quietM (mret a).
Proof. done. Qed.
Lemma quiet_bind {A B} (m : M mworld A) (f : A -> M mworld B) :
  quietM m -> (forall a, quietM (f a)) -> quietM (m ≫= f).
Proof. intros Hm Hf w. rewrite bind_run. eapply quiet_trans; [apply Hm|apply Hf]. Qed.
Lemma quiet_if {A} (c : bool) (m n : M mworld A) : quietM m -> quietM n -> quietM (if c then m else n).
Proof. by destruct c. Qed.
Lemma quiet_getS : quietM getS.
Proof. done. Qed.
Lemma quiet_ask {A} (f : trace -> A) : quietM (ask f).
Proof. done. Qed.
Lemma quiet_errno e : quietM (set_errno e).
Proof. done. Qed.
Lemma quiet_xfer e : quietM (set_xfer e).
Proof. done. Qed.
Lemma quiet_put_bytes p m : quietM (put_bytes p m).
Proof. done. Qed.
Lemma quiet_called s l : quietM (ev (Called s l)).
Proof. intros w. split; [done|]. intros k h _. simpl. rewrite balance_snoc, delta_called. lia. Qed.
Lemma quiet_create k f : (forall h, ~ valid k h) -> quietM (create k f).
Proof.
  intros Hk w. rewrite create_run. split; [done|]. intros k' h' Hv. simpl. rewrite balance_snoc.
  unfold ev_delta. rewrite decide_False; [lia|]. intros (-> & _). by eapply Hk.
Qed.
Lemma quiet_vk_getM K rdev : quietM (vk_getM K rdev).
Proof.
  intros w. split; [done|]. intros k h Hv. unfold vk_getM. cbn [snd base with_base].
  apply vk_get_balance; by intros ->.
Qed.

Create HintDb quietdb.
#[local] Hint Resolve quiet_ret quiet_bind quiet_if quiet_getS quiet_ask quiet_errno quiet_xfer
  quiet_put_bytes quiet_called quiet_vk_getM : quietdb.

(** Prove that a computation is quiet, splitting its conditionals. *)
Ltac quiet_m :=
  unfold whenM; repeat first
    [ match goal with |- forall _, _ => intro end
    | match goal with |- quietM (create _ _) => apply quiet_create; intros ? [] end
    | match goal with |- quietM (let '(_, _) := ?x in _) => destruct x end
    | match goal with |- quietM (match ?x with Some _ => _ | None => _ end) => destruct x end
    | apply quiet_bind | apply quiet_if | solve [eauto with quietdb] ].

Lemma quiet_sync K fd flags : quietM (dma_buf_sync K fd flags).
Proof.
  unfold dma_buf_sync. apply quiet_bind; [apply quiet_ask|]. intros [n e].
  induction n as [|n IH]; simpl; quiet_m.
Qed.

Lemma quiet_xfer_ready K : quietM (xfer_ready_locked K).
Proof. unfold xfer_ready_locked. quiet_m. Qed.

Lemma quiet_copy K p b f to : quietM (tiled_copy_locked K p b f to).
Proof. unfold tiled_copy_locked. quiet_m. Qed.

#[local] Hint Resolve quiet_sync quiet_xfer_ready quiet_copy : quietdb.

(** ** The invariant with resources in flight *)

(** [x] counts what the running operation holds and no object owns yet. *)
Record inv_with (x : kind -> Z -> Z) (w : mworld) : Prop := {
  iw_bal k h : valid k h -> balance k h (tr (base w)) = held w k h + x k h;
  iw_bo p b : bos w !! p = Some b -> bo_wf b;
  iw_heap p : is_Some (bos w !! p) \/ is_Some (maps w !! p) -> 0 < p < heap_next w;
  iw_next : 0 < heap_next w;
}.

Definition none : kind -> Z -> Z := fun _ _ => 0.
(** One handle of kind [k] on top of [x]. *)
Definition plus (k : kind) (h : Z) (x : kind -> Z -> Z) : kind -> Z -> Z := fun k' h' => x k' h' + one k' k h' h.

Definition fresh (p : Z) (w : mworld) : Prop :=
  0 < p < heap_next w /\ bos w !! p = None /\ maps w !! p = None.

Lemma inv_step x x' w w' :
  inv_with x w -> frame w w' ->
  (forall k h, valid k h -> balance k h (tr (base w')) = balance k h (tr (base w)) + x' k h - x k h) ->
  inv_with x' w'.
Proof.
  intros [B O H N] (Eb & Em & Eh) D. split; [|rewrite Eb; done|rewrite Eb, Em, Eh; done|by rewrite Eh].
  intros k h Hv. unfold held in *. rewrite Eb, Em, D, B by done. lia.
Qed.

Lemma inv_quiet x w w' : quiet w w' -> inv_with x w -> inv_with x w'.
Proof. intros [F B] I. eapply inv_step; [done..|]. intros k h Hv. rewrite B by done. lia. Qed.

Lemma fresh_frame p w w' : frame w w' -> fresh p w -> fresh p w'.
Proof. unfold fresh. by intros (-> & -> & ->). Qed.

Lemma inv_alloc K x w (Q : Z -> mworld -> Prop) :
  inv_with x w ->
  (forall w', frame (mk_mw (base w) (bos w) (maps w) (mem w) (heap_next w + 1) (g_xfer_state w) (errno w)) w' ->
     inv_with x w' -> Q NULL w') ->
  (forall p w', bos w' = bos w -> maps w' = maps w -> 0 < p -> fresh p w' -> inv_with (plus KHeap p x) w' -> Q p w') ->
  wp (alloc K) Q w.
Proof.
  intros [B O H N] HN HP. unfold wp, alloc. run_m. destruct (o_alloc K (tr (base w))).
  - apply HP; [done..| |]; [split; [cbn; lia|]|].
    + cbn. split; apply eq_None_not_Some; intros Hs; [specialize (H _ (or_introl Hs))|specialize (H _ (or_intror Hs))]; lia.
    + split; cbn [bos maps heap_next with_base]; [|done|intros q Hq; specialize (H q Hq); lia|lia].
      intros k h Hv. cbn [base with_base tr emit]. unfold plus, held in *. rewrite balance_snoc, delta_created, B by done.
      cbn. lia.
  - apply HN; [done|]. split; cbn [bos maps heap_next with_base]; [|done|intros q Hq; specialize (H q Hq); lia|lia].
    intros k h Hv. cbn [base with_base tr emit]. rewrite balance_snoc, delta_failed, B by done. unfold held. cbn. lia.
Qed.

Lemma inv_destroyed k h x w : inv_with (plus k h x) w -> inv_with x (ev (Destroyed k h) w).2.
Proof.
  intros I. eapply inv_step; [exact I|done|]. intros k' h' Hv. rewrite ev_run. cbn [snd base with_base tr emit].
  rewrite balance_snoc, delta_destroyed. unfold plus. lia.
Qed.

(** A buffer changes and exchanges resources with the running operation. *)
Lemma inv_put_bo x x' p b b' w :
  inv_with x w -> bos w !! p = Some b -> bo_wf b' ->
  (forall k h, valid k h -> bo_res k h p b' + x' k h = bo_res k h p b + x k h) ->
  inv_with x' (put_bo p b' w).2.
Proof.
  intros [B O H N] Hb Hwf Hres. split; cbn.
  - intros k h Hv. unfold held in *. cbn. rewrite (total_insert _ _ _ _ _ Hb), B by done. specialize (Hres k h Hv). lia.
  - intros q b0 [[<- <-]|[? ?]]%lookup_insert_Some; eauto.
  - intros q Hq. apply H. destruct Hq as [[b0 [[<- <-]|[? ?]]%lookup_insert_Some]|?]; eauto.
  - done.
Qed.

Lemma inv_new_bo x x' p b w :
  inv_with x w -> fresh p w -> bo_wf b ->
  (forall k h, valid k h -> bo_res k h p b + x' k h = x k h) -> inv_with x' (put_bo p b w).2.
Proof.
  intros [B O H N] (Hp & Hb & _) Hwf Hres. split; cbn.
  - intros k h Hv. unfold held in *. cbn. rewrite total_insert_new, B by done. specialize (Hres k h Hv). lia.
  - intros q b0 [[<- <-]|[? ?]]%lookup_insert_Some; eauto.
  - intros q [[b0 [[<- <-]|[? ?]]%lookup_insert_Some]|?]; eauto.
  - done.
Qed.

Lemma inv_del_bo x x' p b w :
  inv_with x w -> bos w !! p = Some b ->
  (forall k h, valid k h -> x' k h = bo_res k h p b + x k h) -> inv_with x' (del_bo p w).2.
Proof.
  intros [B O H N] Hb Hres. split; cbn.
  - intros k h Hv. unfold held in *. cbn. rewrite (total_delete _ _ _ _ Hb), B, Hres by done. lia.
  - intros q b0 [? ?]%lookup_delete_Some; eauto.
  - intros q [[b0 [? ?]%lookup_delete_Some]|?]; eauto.
  - done.
Qed.

Lemma inv_new_map x x' q m w :
  inv_with x w -> fresh q w ->
  (forall k h, valid k h -> map_res k h q m + x' k h = x k h) -> inv_with x' (put_map q m w).2.
Proof.
  intros [B O H N] (Hp & _ & Hb) Hres. split; cbn.
  - intros k h Hv. unfold held in *. cbn. rewrite total_insert_new, B by done. specialize (Hres k h Hv). lia.
  - done.
  - intros p [?|[b0 [[<- <-]|[? ?]]%lookup_insert_Some]]; eauto.
  - done.
Qed.

Lemma inv_del_map x x' q m w :
  inv_with x w -> maps w !! q = Some m ->
  (forall k h, valid k h -> x' k h = map_res k h q m + x k h) -> inv_with x' (del_map q w).2.
Proof.
  intros [B O H N] Hb Hres. split; cbn.
  - intros k h Hv. unfold held in *. cbn. rewrite (total_delete _ _ _ _ Hb), B, Hres by done. lia.
  - done.
  - intros p [?|[b0 [? ?]%lookup_delete_Some]]; eauto.
  - done.
Qed.

Lemma wp_quiet {A} (m : M mworld A) (Q : A -> mworld -> Prop) w :
  quietM m -> (forall a w', quiet w w' -> Q a w') -> wp m Q w.
Proof. intros Hm H. apply H, Hm. Qed.

(** Resource equations between an object and the running operation. *)
Ltac res :=
  let k := fresh "k" in let h := fresh "h" in let Hv := fresh "Hv" in
  intros k h Hv; unfold plus, none, bo_res, map_res, holds1, no_tiled in *;
  destruct k; bal_simpl; cbn [valid b_img b_img_mem b_stg b_stg_mem b_fd with_tiled with_locked m_tiled m_addr] in *;
  unfold VK_NULL_HANDLE, NULL, MAP_FAILED in *;
  repeat case_decide; destruct_and?; simplify_eq; try done; try lia.

Section Keep.
Context (K : os) `{HK : !OsLaws K}.

Lemma import_inv size_max gbm fd wd ht st md fmt w :
  inv_with none w -> wp (nvg_import K size_max gbm fd wd ht st md fmt) (fun _ => inv_with none) w.
Proof.
  intros I. unfold nvg_import. apply wp_bind. unfold wp at 1. rewrite ask_run. cbn [fst snd].
  set (size := o_lseek K _ _). destruct (size <=? 0); [by apply wp_ret|].
  destruct (size_max <? size); [by apply (inv_quiet _ w)|].
  apply wp_bind. apply (inv_alloc K none w); [done| |].
  { intros w' _ I'. by apply wp_ret. }
  intros p w' _ _ Hp Hf I'. rewrite (proj2 (Z.eqb_neq p NULL)) by (unfold NULL; lia).
  apply wp_bind. unfold wp at 1. rewrite dup_run. cbn [fst snd]. set (n := o_dup K _ _). set (w1 := with_base _ _).
  assert (F1 : frame w' w1) by done.
  destruct (Z.leb_spec 0 n) as [Hn|Hn].
  - rewrite (proj2 (Z.ltb_ge n 0)) by lia.
    assert (I1 : inv_with (plus KFd n (plus KHeap p none)) w1).
    { eapply inv_step; [exact I'|done|]. intros k h Hv. unfold w1. cbn [base with_base tr emit].
      rewrite balance_snoc, delta_created. unfold plus. lia. }
    eapply (inv_new_bo _ none); [exact I1|by eapply fresh_frame| |res].
    split; [done|]. left. done.
  - rewrite (proj2 (Z.ltb_lt n 0)) by lia. apply inv_destroyed. eapply inv_step; [exact I'|done|].
    intros k h Hv. unfold w1. cbn [base with_base tr emit]. rewrite balance_snoc, delta_failed. lia.
Qed.

Lemma free_inv p w : inv_with none w -> wp (nvg_free p) (fun _ => inv_with none) w.
Proof.
  intros I. unfold nvg_free. apply wp_bind. unfold wp at 1. cbn [getS fst snd].
  destruct (bos w !! p) as [b|] eqn:Hb; [|by apply wp_ret].
  pose proof (iw_bo _ _ I _ _ Hb) as [Hfd Hwf].
  set (rel := if negb _ || negb _ then _ else _).
  assert (Hrel : exists b' w', rel w = (b', w') /\ frame w w' /\ delta b b' w w' /\ no_tiled b' /\ b_fd b' = b_fd b).
  { unfold rel. pose proof (release_spec b w) as R. destruct (tiled_release_locked b w) as [b' w'] eqn:E.
    destruct (negb _ || negb _) eqn:C; [destruct R as (? & ? & ? & [= ?]); by exists b', w'|]. exists b, w. unfold delta.
    bool_props. split_and!; [done..|intros; lia| |done]. by destruct Hwf as [?|((? & _) & _)]. }
  destruct Hrel as (b' & w' & E & F & D & N & Efd).
  apply wp_bind. unfold wp at 1. rewrite E. cbn [fst snd].
  set (x1 := fun k h => bo_res k h 0 b' - bo_res k h 0 b).
  assert (I1 : inv_with x1 w').
  { eapply inv_step; [exact I|done|]. intros k h Hv. rewrite (D k h Hv). unfold x1, none. lia. }
  eapply (inv_del_bo (fun k h => x1 k h - one k KFd h (b_fd b) - one k KHeap h p)).
  - eapply inv_step; [exact I1|done|]. intros k h Hv. unfold free. rewrite !ev_run. cbn [snd base with_base tr emit].
    rewrite !balance_snoc, !delta_destroyed, Efd. lia.
  - cbn. destruct F as (-> & _). exact Hb.
  - unfold x1. destruct b'. res.
Qed.

(** A lock attempt that fails gives back the mapping record. *)
Lemma map_fail_inv m err w :
  inv_with (plus KHeap m none) w -> wp (map_fail m err) (fun _ => inv_with none) w.
Proof. intros I. apply (inv_quiet _ (free m w).2); [done|]. by apply inv_destroyed. Qed.

(** A lock attempt in progress: record [m] allocated, buffer [p] is [b]. *)
Definition mapping_of (p : Z) (b : nvg_bo) (m : Z) (w : mworld) : Prop :=
  inv_with (plus KHeap m none) w /\ bos w !! p = Some b /\ fresh m w.

Lemma mapping_quiet p b m w w' : quiet w w' -> mapping_of p b m w -> mapping_of p b m w'.
Proof.
  intros Q (I & B & F). split; [by eapply inv_quiet|]. destruct Q as [Q _].
  split; [by destruct Q as (-> & _)|by eapply fresh_frame].
Qed.

Lemma map_setup_inv vk p b m w :
  mapping_of p b m w ->
  wp (if b_img b =? VK_NULL_HANDLE
      then ('(ok, b) ← tiled_setup_locked K vk b; _ ← put_bo p b; mret (ok, b))
      else mret (true, b))
     (fun r w' => mapping_of p r.2 m w' /\ (r.1 = true -> tiled_ok r.2)) w.
Proof.
  intros (I & B & F). pose proof (iw_bo _ _ I _ _ B) as [Hfd Hwf].
  destruct (Z.eqb_spec (b_img b) VK_NULL_HANDLE) as [E|E].
  2:{ apply wp_ret. split; [done|]. by destruct Hwf as [(? & _)|]. }
  assert (N : no_tiled b) by (by destruct Hwf as [|((? & _) & _)]).
  apply wp_bind. unfold wp at 1. pose proof (tiled_setup_ok K vk b w N) as S.
  destruct (tiled_setup_locked K vk b w) as [[ok b'] w'] eqn:Es. destruct S as (Fr & D & G & T).
  assert (Efd : b_fd b' = b_fd b) by (by injection G). cbn [fst snd].
  apply wp_bind, wp_ret. cbn [fst snd].
  assert (B' : bos w' !! p = Some b) by (by destruct Fr as (-> & _)).
  split; [|by intros ->]. split; [|split].
  - eapply (inv_put_bo (fun k h => plus KHeap m none k h + bo_res k h 0 b' - bo_res k h 0 b)); [|done| |].
    + eapply inv_step; [exact I|done|]. intros k h Hv. rewrite (D k h Hv). lia.
    + split; [lia|]. destruct ok; [by right|by left].
    + intros k h Hv. destruct k; cbn [bo_res]; lia.
  - cbn. by rewrite lookup_insert_eq.
  - destruct F as (H1 & H2 & H3). destruct Fr as (E1 & E2 & E3). split; cbn; [by rewrite E3|].
    rewrite lookup_insert_ne, E1, E2 by congruence. done.
Qed.

Lemma locked_wf b l : bo_wf b -> bo_wf (with_locked b l).
Proof. done. Qed.

Lemma map_tiled_inv p b flags w :
  inv_with none w -> bos w !! p = Some b -> wp (nvg_map_tiled K p b flags) (fun _ => inv_with none) w.
Proof.
  intros I B. unfold nvg_map_tiled. destruct (find_format _) as [f|]; [|by apply (inv_quiet _ w)].
  destruct (_ || _); [by apply (inv_quiet _ w)|].
  apply wp_bind, wp_quiet; [auto with quietdb|]. intros vk w1 Q1.
  assert (I1 : inv_with none w1) by (by eapply inv_quiet).
  assert (B1 : bos w1 !! p = Some b) by (by destruct Q1 as [(-> & _) _]).
  destruct vk as [vk|]; [|by apply (inv_quiet _ w1)].
  apply wp_bind, (inv_alloc K none w1); [done| |].
  { intros w2 _ I2. by apply (inv_quiet _ w2). }
  intros m w2 E2 _ Hm Hf I2. rewrite (proj2 (Z.eqb_neq m NULL)) by (unfold NULL; lia).
  assert (P2 : mapping_of p b m w2) by (split_and!; [done|by rewrite E2|done]).
  destruct (b_locked b); [apply map_fail_inv, P2|].
  apply wp_bind, wp_quiet; [auto with quietdb|]. intros ready w3 Q3.
  apply (mapping_quiet _ _ _ _ w3) in P2; [|done]. destruct ready; cbn [negb]; [|apply map_fail_inv, P2].
  apply wp_bind. eapply wp_mono; [by apply map_setup_inv|]. intros [ok b4] w4 [P4 T4]. cbn [fst snd] in *.
  destruct ok; cbn [negb]; [|apply map_fail_inv, P4].
  apply wp_bind, wp_quiet; [auto with quietdb|]. intros ok w5 Q5.
  apply (mapping_quiet _ _ _ _ w5) in P4; [|done]. destruct ok; cbn [negb]; [|apply map_fail_inv, P4].
  apply wp_bind, wp_quiet; [quiet_m|]. intros ok w6 Q6.
  apply (mapping_quiet _ _ _ _ w6) in P4; [|done]. destruct ok; cbn [negb]; [|apply map_fail_inv, P4].
  destruct P4 as (I6 & B6 & F6). apply wp_bind, wp_bind, wp_ret.
  eapply inv_new_map with (x := plus KHeap m none).
  - eapply inv_put_bo; [exact I6|exact B6|by eapply locked_wf, iw_bo|res].
  - destruct F6 as (H1 & H2 & H3). split; [done|]. cbn. by rewrite lookup_insert_ne by congruence.
  - res.
Qed.

Lemma unmap_end_inv p b q m w :
  inv_with none w -> bos w !! p = Some b -> maps w !! q = Some m -> m_tiled m = true ->
  wp (_ ← put_bo p (with_locked b false); _ ← del_map q; free q) (fun _ => inv_with none) w.
Proof.
  intros I B E T. apply wp_bind. unfold wp at 1. apply wp_bind. unfold wp at 1. apply inv_destroyed.
  eapply inv_del_map; [|cbn; exact E|].
  - eapply (inv_put_bo none none); [exact I|exact B|by eapply locked_wf, iw_bo|res].
  - destruct m; cbn [m_tiled] in T; subst; res.
Qed.

Lemma unmap_tiled_inv p b q m flags w :
  inv_with none w -> bos w !! p = Some b -> maps w !! q = Some m -> m_tiled m = true ->
  wp (nvg_unmap_tiled K p b q m flags) (fun _ => inv_with none) w.
Proof.
  intros I B E T. unfold nvg_unmap_tiled. destruct (negb _); [by eapply unmap_end_inv|].
  apply wp_bind. unfold wp at 1. cbn [getS fst snd].
  apply wp_bind, wp_quiet; [quiet_m|]. intros ok w1 Q1.
  apply wp_bind, wp_quiet; [quiet_m|]. intros ok2 w2 Q2.
  pose proof (quiet_trans _ _ _ Q1 Q2) as Q. pose proof Q as [(E1 & E2 & _) _].
  eapply unmap_end_inv; [by eapply inv_quiet|by rewrite E1|by rewrite E2|done].
Qed.

Lemma map_inv p flags w : inv_with none w -> wp (nvg_map_impl K p flags) (fun _ => inv_with none) w.
Proof.
  intros I. unfold nvg_map_impl. apply wp_bind. unfold wp at 1. cbn [getS fst snd].
  destruct (bos w !! p) as [b|] eqn:B; [|by apply (inv_quiet _ w)].
  destruct (negb _); [by apply map_tiled_inv|].
  apply wp_bind, (inv_alloc K none w); [done| |].
  { intros w2 _ I2. by apply (inv_quiet _ w2). }
  intros m w2 E2 _ Hm Hf I2. rewrite (proj2 (Z.eqb_neq m NULL)) by (unfold NULL; lia).
  apply wp_bind. unfold wp at 1. rewrite ask_run. cbn [fst snd]. set (a := o_mmap K _ _ _).
  apply wp_bind. unfold wp at 1. rewrite ev_run. cbn [fst snd]. set (w3 := with_base w2 _).
  destruct (Z.eqb_spec a MAP_FAILED) as [Ea|Ea]; cbn [negb] in *.
  - apply wp_bind. unfold wp at 1. rewrite ask_run. cbn [fst snd]. apply map_fail_inv.
    eapply inv_step; [exact I2|done|]. intros k h Hv. unfold w3. cbn [base with_base tr emit].
    rewrite balance_snoc, delta_failed. lia.
  - assert (I3 : inv_with (plus KMapping a (plus KHeap m none)) w3).
    { eapply inv_step; [exact I2|done|]. intros k h Hv. unfold w3. cbn [base with_base tr emit].
      rewrite balance_snoc, delta_created. unfold plus. lia. }
    apply wp_bind, wp_quiet; [auto with quietdb|]. intros sr w4 Q4.
    assert (I4 : inv_with (plus KMapping a (plus KHeap m none)) w4) by (by eapply inv_quiet).
    destruct (negb _); [apply wp_bind; unfold wp at 1; apply map_fail_inv, inv_destroyed, I4|].
    apply wp_bind, wp_ret. eapply inv_new_map; [exact I4| |res].
    eapply fresh_frame; [apply Q4|]. by apply (fresh_frame m w2).
Qed.

Lemma unmap_inv p q flags w : inv_with none w -> wp (nvg_unmap_impl K p q flags) (fun _ => inv_with none) w.
Proof.
  intros I. unfold nvg_unmap_impl. apply wp_bind. unfold wp at 1. cbn [getS fst snd].
  destruct (bos w !! p) as [b|] eqn:B; [|by apply wp_ret].
  destruct (maps w !! q) as [m|] eqn:E; [|by apply wp_ret].
  destruct (m_tiled m) eqn:T; [by eapply unmap_tiled_inv|].
  apply wp_bind, wp_quiet; [auto with quietdb|]. intros sr w1 Q1.
  assert (I1 : inv_with none w1) by (by eapply inv_quiet).
  apply wp_bind. unfold wp at 1. apply wp_bind. unfold wp at 1. apply inv_destroyed.
  eapply (inv_del_map (fun k h => none k h - one k KMapping h (m_addr m))).
  - eapply inv_step; [exact I1|done|]. intros k h Hv. rewrite ev_run. cbn [snd base with_base tr emit].
    rewrite balance_snoc, delta_destroyed. lia.
  - cbn. destruct Q1 as [(_ & -> & _) _]. exact E.
  - destruct m; cbn [m_tiled] in T; subst; res.
Qed.

End Keep.

(** ** Sequences of client calls *)

(** The calls minigbm's glue makes; a pointer that is not (or no longer) live
    stands for NULL. *)
Inductive client_op :=
  | Import (gbm : option Z) (buf_fd width height stride modifier drm_format : Z)
  | Free (p : Z)
  | Map (p : Z)
  | Unmap (p q : Z)
  | MapFlags (p flags : Z)
  | UnmapFlags (p q flags : Z)
  | CpuWrite (q : Z) (v : Z -> Z).

(** A store through a LINEAR mapping lands in the buffer: it is a shared,
    writable [mmap] whatever the lock's flags are. *)
Definition linear_store (m : nvg_map) (v : Z -> Z) (i : Z -> Z -> Z) : Z -> Z -> Z :=
  fun y x =>
    let o := y * m_stride m + x in
    if (0 <=? x) && (x <? m_stride m) && (0 <=? o) && (o <? m_size m) then v o else i y x.

(** The CPU stores through the address of mapping [q].  A block-linear lock
    maps the staging memory, which coherent memory shows to the GPU at once. *)
Definition cpu_write (q : Z) (v : Z -> Z) : M mworld () :=
  w ← getS;
  match maps w !! q with
  | None => mret tt
  | Some m =>
      let o := mem w (m_bo m) in
      if m_tiled m
      then match bos w !! m_bo m with
           | Some b => put_bytes (m_bo m) (mk_bytes (image o) (if b_stg_coherent b then v else gpu_view o) v)
           | None => mret tt
           end
      else put_bytes (m_bo m) (mk_bytes (linear_store m v (image o)) (gpu_view o) (cpu_view o))
  end.

Definition run_op (K : os) (size_max : Z) (o : client_op) : M mworld () :=
  match o with
  | Import gbm fd wd ht st md fmt => _ ← nvg_import K size_max gbm fd wd ht st md fmt; mret tt
  | Free p => nvg_free p
  | Map p => _ ← nvg_map_op K p; mret tt
  | Unmap p q => nvg_unmap K p q
  | MapFlags p flags => _ ← nvg_map_flags K p flags; mret tt
  | UnmapFlags p q flags => nvg_unmap_flags K p q flags
  | CpuWrite q v => cpu_write q v
  end.

Fixpoint run_ops (K : os) (size_max : Z) (l : list client_op) (w : mworld) : mworld :=
  match l with
  | [] => w
  | o :: l => run_ops K size_max l (run_op K size_max o w).2
  end.

(** A fresh process; the buffers' bytes are anything. *)
Definition mstart (m : Z -> bytes) : mworld := mk_mw start ∅ ∅ m 1 0 0.

Lemma quiet_cpu_write q v : quietM (cpu_write q v).
Proof. unfold cpu_write. quiet_m. Qed.

Lemma inv_start m : inv_with none (mstart m).
Proof.
  split; [|done| |done].
  - intros k h _. unfold held, mstart. cbn [base bos maps start tr]. by rewrite !total_empty, balance_nil.
  - intros p [[? H]|[? H]]; cbn in H; by rewrite lookup_empty in H.
Qed.

Lemma run_op_inv K `{!OsLaws K} size_max o w : inv_with none w -> inv_with none (run_op K size_max o w).2.
Proof.
  intros I. destruct o; cbn [run_op].
  - by apply import_inv.
  - by apply free_inv.
  - by apply map_inv.
  - by apply unmap_inv.
  - unfold nvg_map_flags. destruct (_ || _); [by apply (inv_quiet _ w)|]. by apply map_inv.
  - by apply unmap_inv.
  - eapply inv_quiet; [apply quiet_cpu_write|done].
Qed.

Lemma run_ops_inv K `{!OsLaws K} size_max l w : inv_with none w -> inv_with none (run_ops K size_max l w).
Proof. revert w. induction l as [|o l IH]; intros w I; [done|]. by apply IH, run_op_inv. Qed.

(** C8: every resource is owned by exactly one live object: after any
    sequence of imports, frees, locks and unlocks (failures of the kernel and
    of the driver at any call included), each file descriptor, image, memory,
    buffer, CPU mapping and record that was created and not destroyed is
    accounted for by a live buffer or mapping, exactly as many times as it is
    outstanding; a buffer has all four staging objects or none; and when the
    client has freed its buffers and unmapped its mappings nothing is left. *)
Theorem buffers_own_exactly (K : os) (laws : OsLaws K) (size_max : Z) (m : Z -> bytes) (l : list client_op) :
  let w := run_ops K size_max l (mstart m) in
  (forall k h, valid k h -> balance k h (tr (base w)) = held w k h) /\
  (forall p b, bos w !! p = Some b -> no_tiled b \/ all_tiled b) /\
  (bos w = ∅ -> maps w = ∅ -> forall k h, valid k h -> balance k h (tr (base w)) = 0).
Proof.
  intros w. destruct (run_ops_inv K size_max l _ (inv_start m)) as [B O _ _]. fold w in B, O.
  assert (B' : forall k h, valid k h -> balance k h (tr (base w)) = held w k h).
  { intros k h Hv. rewrite B by done. unfold none. lia. }
  split; [done|]. split.
  - intros p b Hb. destruct (O p b Hb) as [_ [?|[? _]]]; auto.
  - intros E1 E2 k h Hv. rewrite B' by done. unfold held. by rewrite E1, E2, !total_empty.
Qed.

Definition demo_os : os := mk_os
  (fun _ => GrallocAlloc.demo_platform)
  (fun _ _ => 1048576) (fun _ => true) (fun t _ => 10 + Z.of_nat (length t))
  (fun t => (0, 700)) (fun _ => 0) (fun t => (0, 701))
  (fun t _ => (0, 1000 + Z.of_nat (length t))) (fun _ _ => mk_reqs 524288 4096 3) (fun _ _ => (0, 3))
  (fun t _ _ => (0, 2000 + Z.of_nat (length t))) (fun _ _ _ => 0)
  (fun t _ => (0, 3000 + Z.of_nat (length t))) (fun _ _ => mk_reqs 102400 256 3) (fun _ _ _ => 0)
  (fun _ _ => (0, 65536)) (fun _ => 0) (fun _ => 0) (fun _ => 0) (fun _ => 0) (fun _ => 0) (fun _ => 0)
  (fun _ _ _ => 0) (fun t _ _ => 131072) (fun _ => 0) (fun _ _ _ => (1%nat, 0)).

#[export] Instance demo_os_laws : OsLaws demo_os.
Proof. split; intros *; cbn; unfold VK_NULL_HANDLE; intros [= <- <-] _; lia. Qed.

Definition demo_bytes : Z -> bytes := fun _ => mk_bytes (fun y x => y * 1000 + x) (fun _ => 0) (fun _ => 0).

(** A block-linear buffer (1) and a linear one (2), each locked and unlocked,
    then freed. *)
Definition demo_session : list client_op :=
  [Import (Some 57984) 5 200 100 1024 GrallocAlloc.demo_block_linear DRM_FORMAT_ABGR8888;
   Import (Some 57984) 6 200 100 1024 0 DRM_FORMAT_ABGR8888;
   Map 1; MapFlags 2 GBM_MAP_FLAG_READ; MapFlags 1 GBM_MAP_FLAG_READ; UnmapFlags 2 4 GBM_MAP_FLAG_READ;
   Unmap 1 3; Free 2; Free 1].

Lemma buffers_own_exactly_witness :
  let w := run_ops demo_os (2 ^ 64 - 1) demo_session (mstart demo_bytes) in
  (length (tr (base w)) = 36)%nat /\ forall k h, valid k h -> balance k h (tr (base w)) = 0.
Proof.
  destruct (buffers_own_exactly demo_os demo_os_laws (2 ^ 64 - 1) demo_bytes demo_session) as (_ & _ & H).
  split; [vm_compute; reflexivity|]. apply H; vm_compute; reflexivity.
Defined.

(** ** Read-only locks *)

Definition is_write_back (e : event) : bool :=
  match e with Called s _ => bool_decide (s = "CopyBufferToImage"%string) | _ => false end.
Definition write_backs (w : mworld) : nat := countb is_write_back (tr (base w)).

Definition read_only_op (o : client_op) : Prop :=
  match o with
  | Map _ | Unmap _ _ => False
  | MapFlags _ flags | UnmapFlags _ _ flags => has_any flags GBM_MAP_FLAG_WRITE = false
  | _ => True
  end.

Definition read_only_map (m : nvg_map) : Prop := has_any (m_flags m) GBM_MAP_FLAG_WRITE = false.

Section Keeps.
Context (P : nvg_map -> Prop).

Definition all_maps (w : mworld) : Prop := forall q m, maps w !! q = Some m -> P m.

(** No image byte changes, nothing is copied back, every mapping stays as
    [P] says. *)
Definition keeps (w w' : mworld) : Prop :=
  (forall p, image (mem w' p) = image (mem w p)) /\ write_backs w' = write_backs w /\
  (all_maps w -> all_maps w').
Definition keepsM {A} (m : M mworld A) : Prop := forall w, keeps w (m w).2.

Lemma keeps_trans w1 w2 w3 : keeps w1 w2 -> keeps w2 w3 -> keeps w1 w3.
Proof. intros (I1 & B1 & R1) (I2 & B2 & R2). split_and!; [intros p; by rewrite I2|congruence|auto]. Qed.
Lemma keeps_ret {A} (a : A) : keepsM (mret a).
Proof. done. Qed.
Lemma keeps_bind {A B} (m : M mworld A) (f : A -> M mworld B) :
  keepsM m -> (forall a, keepsM (f a)) -> keepsM (m ≫= f).
Proof. intros Hm Hf w. rewrite bind_run. eapply keeps_trans; [apply Hm|apply Hf]. Qed.
Lemma keeps_if {A} (c : bool) (m n : M mworld A) : keepsM m -> keepsM n -> keepsM (if c then m else n).
Proof. by destruct c. Qed.
Lemma keeps_getS_bind {B} (f : mworld -> M mworld B) :
  (forall w, keeps w (f w w).2) -> keepsM (getS ≫= f).
Proof. intros H w. rewrite bind_run. apply H. Qed.
Lemma keeps_ask {A} (f : trace -> A) : keepsM (ask f).
Proof. done. Qed.
Lemma keeps_errno e : keepsM (set_errno e).
Proof. done. Qed.
Lemma keeps_xfer e : keepsM (set_xfer e).
Proof. done. Qed.
Lemma keeps_put_bo p b : keepsM (put_bo p b).
Proof. done. Qed.
Lemma keeps_del_bo p : keepsM (del_bo p).
Proof. done. Qed.
Lemma keeps_ev e : is_write_back e = false -> keepsM (ev e).
Proof.
  intros He w. split; [done|]. split; [|done]. unfold write_backs. rewrite ev_run. cbn [snd base with_base tr emit].
  rewrite countb_app. cbn. rewrite He. lia.
Qed.
Lemma keeps_free p : keepsM (free p).
Proof. by apply keeps_ev. Qed.
Lemma keeps_create k f : keepsM (create k f).
Proof.
  intros w. rewrite create_run. exact (keeps_ev (Created k _ _) eq_refl w).
Qed.
Lemma keeps_dup K fd : keepsM (dup K fd).
Proof. intros w. rewrite dup_run. exact (keeps_ev (Created KFd _ _) eq_refl w). Qed.
Lemma keeps_put_map q m : P m -> keepsM (put_map q m).
Proof.
  intros Hm w. split; [done|]. split; [done|]. intros R q' m'. cbn. intros [[<- <-]|[? ?]]%lookup_insert_Some; eauto.
Qed.
Lemma keeps_del_map q : keepsM (del_map q).
Proof. intros w. split; [done|]. split; [done|]. intros R q' m'. cbn. intros [? ?]%lookup_delete_Some. eauto. Qed.
Lemma keeps_put_bytes p m w : image m = image (mem w p) -> keeps w (put_bytes p m w).2.
Proof. intros Hm. split; [|done]. intros q. cbn. case_decide; [|done]. by subst. Qed.
Lemma keeps_alloc K : keepsM (alloc K).
Proof. intros w. unfold alloc. run_m. exact (keeps_ev (Created KHeap _ _) eq_refl w). Qed.

(** Device setup copies nothing back. *)
Lemma keeps_vk_getM K rdev : keepsM (vk_getM K rdev).
Proof.
  intros w. split; [done|]. split; [|done]. unfold write_backs, vk_getM. cbn [snd base with_base].
  destruct (vk_get_grows (o_platform K (tr (base w))) rdev (base w)) as (t & -> & F). rewrite countb_app.
  cut (countb is_write_back t = 0)%nat; [lia|]. induction F as [|e t He F IH]; [done|]. simpl. rewrite IH.
  by destruct e.
Qed.

Create HintDb keepdb.
#[local] Hint Resolve keeps_ret keeps_ask keeps_errno keeps_xfer keeps_put_bo keeps_del_bo keeps_free keeps_create
  keeps_dup keeps_put_map keeps_del_map keeps_alloc keeps_vk_getM : keepdb.

(** Prove that a computation keeps images and mappings, splitting its
    conditionals. *)
Ltac keep_m :=
  unfold whenM, setup_fail; repeat first
    [ match goal with |- forall _, _ => intro end
    | solve [eauto with keepdb]
    | match goal with |- keepsM (ev _) => by apply keeps_ev end
    | match goal with |- keepsM (let '(_, _) := ?x in _) => destruct x end
    | match goal with |- keepsM (match ?x with Some _ => _ | None => _ end) => destruct x end
    | apply keeps_if | apply keeps_bind ].

Lemma keeps_release b : keepsM (tiled_release_locked b).
Proof. unfold tiled_release_locked. keep_m. Qed.
#[local] Hint Resolve keeps_release : keepdb.
Lemma keeps_setup K vk b : keepsM (tiled_setup_locked K vk b).
Proof. unfold tiled_setup_locked, setup_staging. keep_m. Qed.
Lemma keeps_sync K fd flags : keepsM (dma_buf_sync K fd flags).
Proof.
  unfold dma_buf_sync. apply keeps_bind; [apply keeps_ask|]. intros [n e].
  induction n as [|n IH]; simpl; keep_m.
Qed.
#[local] Hint Resolve keeps_setup keeps_sync : keepdb.

Lemma keeps_bind_at {A B} (m : M mworld A) (f : A -> M mworld B) w :
  keeps w (m w).2 -> (forall a, keepsM (f a)) -> keeps w ((m ≫= f) w).2.
Proof. intros Hm Hf. rewrite bind_run. eapply keeps_trans; [exact Hm|apply Hf]. Qed.

Lemma keeps_read_back K p b f : keepsM (tiled_copy_locked K p b f true).
Proof.
  unfold tiled_copy_locked. apply keeps_bind; [auto with keepdb|]. intros r. apply keeps_if; [auto with keepdb|].
  apply keeps_bind; [auto with keepdb|]. intros r1. apply keeps_if; [auto with keepdb|].
  apply keeps_bind; [by apply keeps_ev|]. intros _. apply keeps_bind; [auto with keepdb|]. intros r2.
  apply keeps_getS_bind. intros w. destruct (negb (r2 =? VK_SUCCESS)).
  - rewrite bind_run, ask_run. cbn [fst snd]. apply keeps_bind_at; [by apply keeps_put_bytes|]. keep_m.
  - apply keeps_bind_at; [by apply keeps_put_bytes|]. keep_m.
Qed.
#[local] Hint Resolve keeps_read_back : keepdb.

Lemma keeps_invalidate K p : keepsM (r ← ask (o_invalidate K);
              w ← getS;
              _ ← whenM (r =? VK_SUCCESS) (put_bytes p (invalidate_bytes (mem w p)));
              mret (r =? VK_SUCCESS)).
Proof.
  apply keeps_bind; [auto with keepdb|]. intros r. apply keeps_getS_bind. intros w.
  apply keeps_bind_at; [|auto with keepdb]. unfold whenM. destruct (_ =? _); [by apply keeps_put_bytes|done].
Qed.
Lemma keeps_xfer_ready K : keepsM (xfer_ready_locked K).
Proof.
  unfold xfer_ready_locked. apply keeps_getS_bind. intros w. case_match; [done|]. case_match; [done|].
  revert w H H0. intros w _ _. match goal with |- keeps w (?m w).2 => cut (keepsM m); [by intros ?|] end. keep_m.
Qed.
#[local] Hint Resolve keeps_invalidate keeps_xfer_ready : keepdb.

Lemma keeps_map_tiled K p b flags :
  (forall s a z, P (mk_map p s a z true flags)) -> keepsM (nvg_map_tiled K p b flags).
Proof. intros Hf. unfold nvg_map_tiled, map_fail. keep_m. Qed.

Lemma keeps_map K p flags w :
  (forall b s a z, bos w !! p = Some b -> P (mk_map p s a z (negb (b_modifier b =? DRM_FORMAT_MOD_LINEAR)) flags)) ->
  keeps w (nvg_map_impl K p flags w).2.
Proof.
  intros Hf. unfold nvg_map_impl. rewrite bind_run. cbn [getS fst snd].
  destruct (bos w !! p) as [b|] eqn:E; [|done]. specialize (Hf b).
  destruct (negb _); [apply keeps_map_tiled; auto|].
  match goal with |- keeps w (?m w).2 => cut (keepsM m); [by intros ?|] end. keep_m.
Qed.

Lemma keeps_unmap K p q flags w :
  has_any flags GBM_MAP_FLAG_WRITE = false -> (forall m, maps w !! q = Some m -> read_only_map m) ->
  keeps w (nvg_unmap_impl K p q flags w).2.
Proof.
  intros Hf R. unfold nvg_unmap_impl. rewrite bind_run. cbn [getS fst snd].
  destruct (bos w !! p) as [b|]; [|done]. destruct (maps w !! q) as [m|] eqn:E; [|done].
  destruct (m_tiled m).
  - unfold nvg_unmap_tiled.
    assert (has_any (Z.lor (m_flags m) flags) GBM_MAP_FLAG_WRITE = false) as ->.
    { by rewrite has_any_lor, (R m eq_refl), Hf. }
    cbn [negb]. match goal with |- keeps w (?m w).2 => cut (keepsM m); [by intros ?|] end. keep_m.
  - match goal with |- keeps w (?m w).2 => cut (keepsM m); [by intros ?|] end. keep_m.
Qed.

Definition is_store (o : client_op) : bool := match o with CpuWrite _ _ => true | _ => false end.

(** The library's own operations; the mappings they make satisfy [P]. *)
Lemma keeps_op K size_max o w :
  read_only_op o -> is_store o = false -> (forall q m, maps w !! q = Some m -> read_only_map m) ->
  (forall p b s a z f, bos w !! p = Some b -> has_any f GBM_MAP_FLAG_WRITE = false ->
     P (mk_map p s a z (negb (b_modifier b =? DRM_FORMAT_MOD_LINEAR)) f)) ->
  keeps w (run_op K size_max o w).2.
Proof.
  intros Ho Hs R HP. destruct o; cbn [run_op read_only_op] in *; try done.
  - match goal with |- keeps w (?m w).2 => cut (keepsM m); [by intros ?|] end. unfold nvg_import. keep_m.
  - unfold nvg_free. rewrite bind_run. cbn [getS fst snd]. destruct (bos w !! p) as [b|]; [|done].
    match goal with |- keeps w (?m w).2 => cut (keepsM m); [by intros ?|] end. keep_m.
  - unfold nvg_map_flags. apply keeps_bind_at; [|auto with keepdb].
    destruct (_ || _); [match goal with |- keeps w (?m w).2 => cut (keepsM m); [by intros ?|] end; keep_m|].
    apply keeps_map. eauto.
  - apply keeps_unmap; [|eauto]. unfold has_any in *. apply negb_false_iff in Ho. apply negb_false_iff.
    rewrite <- Z.land_assoc, (Z.land_comm NVG_MAP_RW), Z.land_assoc. apply Z.eqb_eq in Ho. by rewrite Ho.
Qed.

End Keeps.

(** What read-only sequences keep: mappings stay read-only, and while buffer
    [p] is block-linear its mappings are staging mappings. *)
Definition tiled_map (p : Z) (m : nvg_map) : Prop := m_bo m = p -> m_tiled m = true.
Definition block_linear_at (p : Z) (w : mworld) : Prop :=
  forall b, bos w !! p = Some b -> b_modifier b <> DRM_FORMAT_MOD_LINEAR.

Lemma read_only_step K size_max o w :
  read_only_op o -> all_maps read_only_map w ->
  let w' := (run_op K size_max o w).2 in
  all_maps read_only_map w' /\ write_backs w' = write_backs w /\
  (is_store o = false -> forall p, image (mem w' p) = image (mem w p)) /\
  (forall p, block_linear_at p w -> all_maps (tiled_map p) w ->
     all_maps (tiled_map p) w' /\ image (mem w' p) = image (mem w p)).
Proof.
  intros Ho R w'. destruct (is_store o) eqn:Es.
  - destruct o; try done. unfold w'. cbn [run_op]. unfold cpu_write. rewrite bind_run. cbn [getS fst snd].
    destruct (maps w !! q) as [m|] eqn:Em; [|done]. destruct (m_tiled m) eqn:Et.
    + destruct (bos w !! m_bo m); [|done]. split; [done|]. split; [done|]. split; [done|]. intros p _ T. split; [done|].
      cbn. case_decide; [|done]. by subst.
    + split; [done|]. split; [done|]. split; [done|]. intros p _ T. split; [done|]. cbn. case_decide as Hp; [|done].
      specialize (T q m Em (eq_sym Hp)). congruence.
  - assert (K1 : keeps read_only_map w w') by (by apply keeps_op).
    destruct K1 as (I1 & W1 & R1). split_and!; [by apply R1|done|done|]. intros p B T. split; [|done].
    assert (K2 : keeps (tiled_map p) w w') by (apply keeps_op; [done|done|done|]; intros p' b s a z f Hb _ E; cbn in *; subst p';
      apply B in Hb; by rewrite (proj2 (Z.eqb_neq _ _) Hb)).
    by apply K2.
Qed.

Lemma all_maps_start P m : all_maps P (mstart m).
Proof. intros q b H. cbn in H. by rewrite lookup_empty in H. Qed.

Lemma run_ops_app K size_max l k w : run_ops K size_max (l ++ k) w = run_ops K size_max k (run_ops K size_max l w).
Proof. revert w. induction l as [|o l IH]; intros w; [done|]. apply IH. Qed.

(** C20: a read-only lock never writes the buffer: over any sequence of
    imports, frees, and locks and unlocks without the WRITE flag, with the CPU
    storing anything through the lock pointers, no copy from a staging buffer
    to an image is ever submitted; no operation of the library changes a byte
    of any buffer; and a block-linear buffer keeps every byte whatever the CPU
    stores.  (A LINEAR buffer is mapped shared and writable, so the CPU's own
    stores do reach it: [linear_store_reaches].) *)
Theorem read_only_locks_keep_images (K : os) (size_max : Z) (m : Z -> bytes) (l : list client_op) :
  Forall read_only_op l ->
  let at_step i := run_ops K size_max (take i l) (mstart m) in
  let w := run_ops K size_max l (mstart m) in
  write_backs w = 0%nat /\
  (forall i o, l !! i = Some o -> is_store o = false ->
     forall p, image (mem (at_step (S i)) p) = image (mem (at_step i) p)) /\
  (forall p, (forall i, block_linear_at p (at_step i)) -> image (mem w p) = image (m p)).
Proof.
  intros Hl at_step w.
  assert (Step : forall i o, l !! i = Some o -> at_step (S i) = (run_op K size_max o (at_step i)).2).
  { intros i o E. unfold at_step. by rewrite (take_S_r _ _ _ E), run_ops_app. }
  assert (R : forall i, all_maps read_only_map (at_step i) /\ write_backs (at_step i) = 0%nat).
  { induction i as [|i [IR IW]]; [split; [apply all_maps_start|done]|].
    destruct (l !! i) as [o|] eqn:E.
    - rewrite (Step i o E). pose proof (proj1 (Forall_lookup _ l) Hl i o E) as Ho.
      destruct (read_only_step K size_max o _ Ho IR) as (R1 & W1 & _). split; [done|]. by rewrite W1.
    - apply lookup_ge_None in E. unfold at_step in *. rewrite take_ge in * by lia. done. }
  assert (Ew : w = at_step (length l)) by (unfold at_step; by rewrite take_ge by lia).
  split; [by rewrite Ew; apply R|]. split.
  - intros i o E Es p. rewrite (Step i o E). pose proof (proj1 (Forall_lookup _ l) Hl i o E) as Ho.
    destruct (read_only_step K size_max o _ Ho (proj1 (R i))) as (_ & _ & I & _). by apply I.
  - intros p B. rewrite Ew. generalize (length l). intros n.
    cut (all_maps (tiled_map p) (at_step n) /\ image (mem (at_step n) p) = image (m p)); [by intros []|].
    induction n as [|n [IT II]]; [split; [apply all_maps_start|done]|].
    destruct (l !! n) as [o|] eqn:E.
    + rewrite (Step n o E). pose proof (proj1 (Forall_lookup _ l) Hl n o E) as Ho.
      destruct (read_only_step K size_max o _ Ho (proj1 (R n))) as (_ & _ & _ & T).
      destruct (T p (B n) IT) as [T1 T2]. split; [done|]. by rewrite T2.
    + apply lookup_ge_None in E. unfold at_step in *. rewrite take_ge in * by lia. done.
Qed.

Definition demo_reader : list client_op :=
  [Import (Some 57984) 5 200 100 1024 GrallocAlloc.demo_block_linear DRM_FORMAT_ABGR8888;
   MapFlags 1 GBM_MAP_FLAG_READ; CpuWrite 2 (fun o => 7); UnmapFlags 1 2 GBM_MAP_FLAG_READ].

Lemma read_only_locks_keep_images_witness :
  let w := run_ops demo_os (2 ^ 64 - 1) demo_reader (mstart demo_bytes) in
  cpu_view (mem w 1) 0 = 7 /\ maps w = ∅ /\ image (mem w 1) 3 4 = 3004.
Proof.
  destruct (read_only_locks_keep_images demo_os (2 ^ 64 - 1) demo_bytes demo_reader) as (_ & _ & H).
  { repeat constructor. }
  split_and!; [vm_compute; reflexivity|vm_compute; reflexivity|]. cbv zeta in H.
  rewrite (H 1); [reflexivity|]. intros i.
  do 4 (destruct i as [|i]; [intros b; vm_compute; (discriminate || (intros [= <-]; discriminate))|]).
  intros b. rewrite take_ge by (cbn; lia). vm_compute. intros [= <-]; discriminate.
Defined.

(** Through a read-only lock of a LINEAR buffer the CPU's stores reach it. *)
Lemma linear_store_reaches :
  let w := run_ops demo_os (2 ^ 64 - 1)
    [Import (Some 57984) 6 200 100 1024 0 DRM_FORMAT_ABGR8888; MapFlags 1 GBM_MAP_FLAG_READ; CpuWrite 2 (fun o => 7);
     UnmapFlags 1 2 GBM_MAP_FLAG_READ] (mstart demo_bytes) in
  maps w = ∅ /\ image (mem w 1) 3 4 = 7.
Proof. split; vm_compute; reflexivity. Qed.

End GrallocMap.
