(* ===== verification/GrallocLock.v ===== *)
(** * What a CPU lock shows and what an unlock commits
      ([nvidia_gbm_wrapper.c]: [nvg_map_tiled], [nvg_unmap_tiled])

    The bytes of a block-linear lock: which staging offsets hold which image
    bytes after a map, and what the image holds after an unmap, with the
    flushes of non-coherent memory and every failing call. *)

From Stdlib Require Import ZArith Lia.
From stdpp Require Import base option sets strings gmap list.
From S2P Require Import Prelude Vulkan GrallocFormat GrallocDevice GrallocAlloc GrallocMap.

Set Default Goal Selector "!".
#[local] Open Scope Z_scope.

Module GrallocLock.
Import Vk.
Import GrallocFormat.
Import GrallocDevice.
Import GrallocMap.

(** ** Steps that leave the bytes and the copy context alone *)

Definition still (w w' : mworld) : Prop :=
  mem w' = mem w /\ g_xfer_state w' = g_xfer_state w /\ bos w' = bos w /\ maps w' = maps w.
Definition stillM {A} (m : M mworld A) : Prop := forall w, still w (m w).2.

Lemma still_trans w1 w2 w3 : still w1 w2 -> still w2 w3 -> still w1 w3.
Proof. unfold still. intuition congruence. Qed.
Lemma still_ret {A} (a : A) : stillM (mret a).
Proof. done. Qed.
Lemma still_bind {A B} (m : M mworld A) (f : A -> M mworld B) :
  stillM m -> (forall a, stillM (f a)) -> stillM (m ≫= f).
Proof. intros Hm Hf w. rewrite bind_run. eapply still_trans; [apply Hm|apply Hf]. Qed.
Lemma still_if {A} (c : bool) (m n : M mworld A) : stillM m -> stillM n -> stillM (if c then m else n).
Proof. by destruct c. Qed.
Lemma still_ask {A} (f : trace -> A) : stillM (ask f).
Proof. done. Qed.
Lemma still_ev e : stillM (ev e).
Proof. done. Qed.
Lemma still_create k f : stillM (create k f).
Proof. intros w. by rewrite create_run. Qed.
Lemma still_dup K fd : stillM (dup K fd).
Proof. done. Qed.
Lemma still_alloc K : stillM (alloc K).
Proof. done. Qed.
Lemma still_vk_getM K rdev : stillM (vk_getM K rdev).
Proof. done. Qed.

Create HintDb stilldb.
#[local] Hint Resolve still_ret still_ask still_ev still_create still_dup still_alloc still_vk_getM : stilldb.

Ltac still_m :=
  unfold whenM, setup_fail; repeat first
    [ match goal with |- forall _, _ => intro end
    | solve [eauto with stilldb]
    | match goal with |- stillM (let '(_, _) := ?x in _) => destruct x end
    | match goal with |- stillM (match ?x with Some _ => _ | None => _ end) => destruct x end
    | apply still_if | apply still_bind ].

Lemma still_release b : stillM (tiled_release_locked b).
Proof. unfold tiled_release_locked. still_m. Qed.
#[local] Hint Resolve still_release : stilldb.
Lemma still_setup K vk b : stillM (tiled_setup_locked K vk b).
Proof. unfold tiled_setup_locked, setup_staging. still_m. Qed.

Lemma xfer_ready_spec K w :
  wp (xfer_ready_locked K) (fun ok w' => mem w' = mem w /\ bos w' = bos w /\ maps w' = maps w /\
    (ok = true -> 0 < g_xfer_state w')) w.
Proof.
  unfold xfer_ready_locked. apply wp_bind. unfold wp at 1. cbn [getS fst snd].
  destruct (Z.ltb_spec 0 (g_xfer_state w)); [by apply wp_ret|].
  destruct (Z.ltb_spec (g_xfer_state w) 0); [by apply wp_ret|].
  apply wp_bind. unfold wp at 1. rewrite create_run. destruct (o_create_pool K _) as [r1 ?]. cbn [fst snd].
  apply wp_bind. set (m := if r1 =? VK_SUCCESS then _ else _). set (w1 := with_base _ _).
  assert (S1 : still w1 (m w1).2) by (unfold m; by destruct (r1 =? VK_SUCCESS)).
  unfold wp at 1. destruct (m w1) as [r2 w2]. cbn [fst snd] in *.
  apply wp_bind. clear m. set (m := if r2 =? VK_SUCCESS then _ else _).
  assert (S2 : stillM m) by (unfold m; still_m). specialize (S2 w2).
  unfold wp at 1. destruct (m w2) as [r3 w3]. cbn [fst snd] in *.
  pose proof (still_trans _ _ _ S1 S2) as (E1 & _ & E2 & E3).
  destruct (negb _); apply wp_bind; unfold wp at 1; apply wp_ret; cbn; split_and!; done.
Qed.

(** ** The copies *)

(** A copy that reports success did the whole copy; one that fails before the
    submission changed nothing; any other failure poisons the context. *)
Lemma copy_spec K p b f to w :
  wp (tiled_copy_locked K p b f to) (fun ok w' =>
    bos w' = bos w /\ maps w' = maps w /\
    (ok = true -> g_xfer_state w' = g_xfer_state w /\
       mem w' p = (if to then copy_to_staging else copy_to_image) b f (mem w p)) /\
    (ok = false -> g_xfer_state w' = -1 \/ (mem w' = mem w /\ g_xfer_state w' = g_xfer_state w)) /\
    ((forall t, o_record K t = 0 /\ o_submit K t = 0 /\ o_wait K t = 0 /\ o_reset_fence K t = 0) -> ok = true)) w.
Proof.
  unfold wp, tiled_copy_locked. run_m. unfold VK_SUCCESS.
  destruct (Z.eqb_spec (o_record K (tr (base w))) 0) as [E1|E1]; cbn [negb fst snd].
  2:{ split_and!; try done; [by right|]. intros H. by destruct (H (tr (base w))). }
  destruct (Z.eqb_spec (o_submit K (tr (base w))) 0) as [E2|E2]; cbn [negb fst snd].
  2:{ split_and!; try done; [by right|]. intros H. by destruct (H (tr (base w))) as (_ & ? & _). }
  match goal with |- context [o_wait K ?t] => destruct (Z.eqb_spec (o_wait K t) 0) as [E3|E3] end; cbn [negb fst snd].
  2:{ split_and!; try done; [by left|]. intros H. by edestruct H as (_ & _ & ? & _). }
  match goal with |- context [o_reset_fence K ?t] => destruct (Z.eqb_spec (o_reset_fence K t) 0) as [E4|E4] end;
    cbn [negb fst snd].
  2:{ split_and!; try done; [by left|]. intros H. by edestruct H as (_ & _ & _ & ?). }
  split_and!; try done. intros _. split; [done|]. cbn. by rewrite decide_True.
Qed.

(** Staging offset of an image byte. *)
Lemma pitch_exact b f : 0 < bpp f -> b_stride b mod bpp f = 0 -> copy_pitch b f = b_stride b.
Proof. intros Hp Hm. unfold copy_pitch. pose proof (Z.div_mod (b_stride b) (bpp f)). lia. Qed.

Lemma in_row_iff b f y x :
  in_row b f y x = true <-> 0 <= y < b_height b /\ 0 <= x < b_width b * bpp f.
Proof. unfold in_row. rewrite !andb_true_iff, !Z.leb_le, !Z.ltb_lt. lia. Qed.

Lemma staging_offset s y x : 0 <= x < s -> (y * s + x) / s = y /\ (y * s + x) mod s = x.
Proof.
  intros H. rewrite Z.add_comm, Z.div_add, Z.mod_add by lia. by rewrite Z.div_small, Z.mod_small by lia.
Qed.

Lemma copied_row b f m y x :
  copy_pitch b f = b_stride b -> b_width b * bpp f <= b_stride b -> in_row b f y x = true ->
  gpu_view (copy_to_staging b f m) (y * b_stride b + x) = image m y x.
Proof.
  intros Hp Hw Hr. unfold copy_to_staging. cbn [gpu_view]. rewrite Hp.
  destruct (staging_offset (b_stride b) y x) as [-> ->]; [apply in_row_iff in Hr; lia|]. by rewrite Hr.
Qed.

(** ** A successful lock *)

(** Buffer [p] is locked through mapping [q], and the staging memory shows
    the image. *)
Record lock_state (p : Z) (b : nvg_bo) (f : nvg_format) (flags : Z) (w : mworld) (q : Z) (w1 : mworld) (b1 : nvg_bo) :
  Prop := {
  ls_bo : bos w1 !! p = Some b1;
  ls_locked : b_locked b1 = true;
  ls_geom : geom b1 = geom b;
  ls_tiled : tiled_ok b1;
  ls_map : maps w1 !! q = Some (mk_map p (b_stride b1) (b_stg_ptr b1) (b_stg_size b1) true flags);
  ls_image : image (mem w1 p) = image (mem w p);
  ls_cpu y x : in_row b f y x = true -> cpu_view (mem w1 p) (y * b_stride b + x) = image (mem w p) y x;
  ls_coherent : b_stg_coherent b1 = true -> gpu_view (mem w1 p) = cpu_view (mem w1 p);
  ls_xfer : 0 < g_xfer_state w1;
}.

Lemma geom_in_row b b' f : geom b' = geom b -> in_row b' f = in_row b f.
Proof. unfold in_row. by intros [= _ _ _ -> -> _ _ _]. Qed.
Lemma geom_pitch b b' f : geom b' = geom b -> copy_pitch b' f = copy_pitch b f.
Proof. unfold copy_pitch. by intros [= _ _ _ _ _ -> _ _]. Qed.
Lemma geom_stride b b' : geom b' = geom b -> b_stride b' = b_stride b.
Proof. by intros [= _ _ _ _ _ -> _ _]. Qed.
Lemma geom_width b b' : geom b' = geom b -> b_width b' = b_width b.
Proof. by intros [= _ _ _ -> _ _ _ _]. Qed.
Lemma geom_height b b' : geom b' = geom b -> b_height b' = b_height b.
Proof. by intros [= _ _ _ _ -> _ _ _]. Qed.

Section Lock.
Context (K : os) `{HK : !OsLaws K}.

Lemma map_setup_spec vk p b w :
  bo_wf b -> bos w !! p = Some b ->
  wp (if b_img b =? VK_NULL_HANDLE
      then ('(ok, b) ← tiled_setup_locked K vk b; _ ← put_bo p b; mret (ok, b))
      else mret (true, b))
     (fun r w' => r.1 = true -> mem w' = mem w /\ g_xfer_state w' = g_xfer_state w /\ bos w' !! p = Some r.2 /\
                  geom r.2 = geom b /\ tiled_ok r.2) w.
Proof.
  intros [_ Hwf] B. destruct (Z.eqb_spec (b_img b) VK_NULL_HANDLE) as [E|E].
  2:{ apply wp_ret. intros _. split_and!; try done. by destruct Hwf as [(? & _)|]. }
  assert (N : no_tiled b) by (by destruct Hwf as [|((? & _) & _)]).
  apply wp_bind. unfold wp at 1. pose proof (tiled_setup_ok K vk b w N) as S.
  pose proof (still_setup K vk b w) as (M & X & _).
  destruct (tiled_setup_locked K vk b w) as [[ok b'] w']. destruct S as (_ & _ & G & T). cbn [fst snd] in *.
  apply wp_bind, wp_ret. cbn [fst snd]. intros ->. split_and!; try done. cbn. by rewrite lookup_insert_eq.
Qed.

Lemma invalidate_spec p b w :
  wp (if b_stg_coherent b then mret true
      else (r ← ask (o_invalidate K);
            w ← getS;
            _ ← whenM (r =? VK_SUCCESS) (put_bytes p (invalidate_bytes (mem w p)));
            mret (r =? VK_SUCCESS)))
    (fun ok w' => bos w' = bos w /\ g_xfer_state w' = g_xfer_state w /\ (ok = true ->
       mem w' p = if b_stg_coherent b then mem w p else invalidate_bytes (mem w p))) w.
Proof.
  destruct (b_stg_coherent b); [by apply wp_ret|]. unfold wp. run_m.
  destruct (_ =? _); cbn; split_and!; try done. intros _. by rewrite decide_True.
Qed.

Lemma map_tiled_spec p b f flags w :
  bos w !! p = Some b -> bo_wf b -> find_format (b_drm_format b) = Some f -> b_width b * bpp f < 2 ^ 32 ->
  0 <= b_width b ->
  wp (nvg_map_tiled K p b flags) (fun r w1 => r.2 <> NULL ->
    b_stride b mod bpp f = 0 /\ b_width b * bpp f <= b_stride b /\
    exists b1, r.1 = b_stg_ptr b1 /\ lock_state p b f flags w r.2 w1 b1) w.
Proof.
  intros B Wf Hf Hw Hw0. unfold nvg_map_tiled. rewrite Hf. pose proof (bpp_pos _ _ Hf) as Hb.
  destruct (_ || _) eqn:C; [done|]. bool_props. rewrite u32_id in * by (unfold is_u32; nia).
  apply wp_bind. unfold wp at 1. pose proof (still_vk_getM K (b_rdev b) w) as S1.
  destruct (vk_getM K (b_rdev b) w) as [[vk|] w1]; cbn [fst snd] in *; [|done].
  apply wp_bind. unfold wp at 1. pose proof (still_trans _ _ _ S1 (still_alloc K w1)) as S2.
  destruct (alloc K w1) as [m w2]. cbn [fst snd] in *. destruct (m =? NULL); [done|].
  destruct (b_locked b); [done|].
  destruct S2 as (M2 & _ & B2 & _). apply wp_bind. eapply wp_mono; [apply xfer_ready_spec|].
  intros ready w3 (M3 & B3 & _ & X3). destruct ready; cbn [negb]; [|done]. specialize (X3 eq_refl).
  apply wp_bind. eapply wp_mono; [apply map_setup_spec; [done|by rewrite B3, B2]|].
  intros [ok b4] w4 H4. cbn [fst snd] in *. destruct ok; cbn [negb]; [|done].
  destruct (H4 eq_refl) as (M4 & X4 & B4 & G4 & T4). clear H4.
  apply wp_bind. eapply wp_mono; [apply copy_spec|]. intros ok w5 (B5 & _ & H5 & _). destruct ok; cbn [negb]; [|done].
  destruct (H5 eq_refl) as [X5 M5]. clear H5.
  apply wp_bind. eapply wp_mono; [apply invalidate_spec|]. intros ok w6 (B6 & X6 & H6). destruct ok; cbn [negb]; [|done].
  specialize (H6 eq_refl). apply wp_bind. unfold wp at 1. apply wp_bind. unfold wp at 1. apply wp_ret. intros _.
  split; [done|]. split; [lia|]. exists (with_locked b4 true). split; [done|].
  assert (Em : mem w4 p = mem w p) by congruence. rewrite Em in M5.
  assert (Ep : copy_pitch b4 f = b_stride b4).
  { rewrite (geom_pitch _ _ _ G4), (geom_stride _ _ G4). apply pitch_exact; [lia|done]. }
  assert (Hv : forall y x, in_row b f y x = true ->
    gpu_view (mem w5 p) (y * b_stride b + x) = image (mem w p) y x).
  { intros y x Hr. rewrite M5, <- (geom_stride _ _ G4). apply copied_row; [done| |].
    - rewrite (geom_width _ _ G4), (geom_stride _ _ G4). lia.
    - by rewrite (geom_in_row _ _ _ G4). }
  split; cbn [put_map put_bo modS snd bos maps mem g_xfer_state]; try done.
  - by rewrite lookup_insert_eq.
  - by rewrite lookup_insert_eq.
  - rewrite H6, M5. by destruct (b_stg_coherent b4).
  - intros y x Hr. rewrite <- (Hv y x Hr), H6, M5. unfold copy_to_staging.
    destruct (b_stg_coherent b4) eqn:Ec; cbn [invalidate_bytes cpu_view gpu_view]; by rewrite ?Ec.
  - cbn [with_locked b_stg_coherent]. intros Ec. rewrite H6, Ec, M5. unfold copy_to_staging. cbn. by rewrite Ec.
  - lia.
Qed.

(** ** An unlock *)

(** The image after an unlock that committed the staging bytes [v]. *)
Definition committed (p : Z) (b : nvg_bo) (f : nvg_format) (v : Z -> Z) (w w3 : mworld) : Prop :=
  forall y x, image (mem w3 p) y x = if in_row b f y x then v (y * b_stride b + x) else image (mem w p) y x.

(** Every call of the copy path succeeds. *)
Definition copies_succeed : Prop :=
  forall t, o_flush K t = 0 /\ o_record K t = 0 /\ o_submit K t = 0 /\ o_wait K t = 0 /\ o_reset_fence K t = 0.

Lemma flush_spec p (c : bool) w :
  wp (if true && negb c
      then (r ← ask (o_flush K);
            w ← getS;
            _ ← whenM (r =? VK_SUCCESS) (put_bytes p (flush_bytes (mem w p)));
            mret (r =? VK_SUCCESS))
      else mret true)
    (fun ok w' => bos w' = bos w /\ maps w' = maps w /\ g_xfer_state w' = g_xfer_state w /\
       (ok = true -> mem w' p = if c then mem w p else flush_bytes (mem w p)) /\
       (ok = false -> mem w' = mem w) /\ (copies_succeed -> ok = true)) w.
Proof.
  destruct c; cbn [negb andb]; [by apply wp_ret|]. unfold wp. run_m. unfold VK_SUCCESS.
  destruct (Z.eqb_spec (o_flush K (tr (base w))) 0) as [E|E]; cbn; split_and!; try done.
  - intros _. by rewrite decide_True.
  - intros H. by destruct (H (tr (base w))).
Qed.

Lemma unmap_tiled_spec p b f q m flags v w :
  b_locked b = true -> find_format (b_drm_format b) = Some f -> 0 < g_xfer_state w -> copy_pitch b f = b_stride b ->
  cpu_view (mem w p) = v -> (b_stg_coherent b = true -> gpu_view (mem w p) = v) ->
  wp (nvg_unmap_tiled K p b q m flags) (fun _ w3 =>
    maps w3 !! q = None /\ bos w3 !! p = Some (with_locked b false) /\
    if has_any (Z.lor (m_flags m) flags) GBM_MAP_FLAG_WRITE
    then (image (mem w3 p) = image (mem w p) \/ committed p b f v w w3 \/ g_xfer_state w3 = -1) /\
         (copies_succeed -> committed p b f v w w3)
    else image (mem w3 p) = image (mem w p)) w.
Proof.
  intros Hl Hf Hx Hp Hc Hg. unfold nvg_unmap_tiled. destruct (has_any _ _); cbn [negb].
  2:{ unfold wp. run_m. cbn [maps bos mem with_base g_xfer_state]. by rewrite lookup_delete_eq, lookup_insert_eq. }
  apply wp_bind. unfold wp at 1. cbn [getS fst snd]. rewrite Hl, Hf, bool_decide_true by done.
  rewrite (proj2 (Z.ltb_lt _ _) Hx). cbn [andb].
  apply wp_bind. eapply wp_mono; [apply flush_spec|]. intros ok w1 (B1 & M1 & X1 & T1 & F1 & S1).
  apply wp_bind. destruct ok.
  2:{ apply wp_ret. unfold wp. run_m. cbn [maps bos mem with_base g_xfer_state]. rewrite lookup_delete_eq, lookup_insert_eq, (F1 eq_refl).
      split_and!; auto. intros H. by specialize (S1 H). }
  specialize (T1 eq_refl). eapply wp_mono; [apply copy_spec|].
  intros ok w2 (B2 & M2 & T2 & F2 & S2). unfold wp. run_m. cbn [maps bos mem with_base g_xfer_state]. rewrite lookup_delete_eq, lookup_insert_eq.
  assert (Ev : gpu_view (mem w1 p) = v) by (rewrite T1; destruct (b_stg_coherent b); [auto|done]).
  assert (Ei : image (mem w1 p) = image (mem w p)) by (rewrite T1; by destruct (b_stg_coherent b)).
  assert (D : ok = true -> committed p b f v w w2).
  { intros H. destruct (T2 H) as [_ E2]. intros y x. rewrite E2. unfold copy_to_image. cbn [image].
    by rewrite Hp, Ev, Ei. }
  split_and!; [done|done| |].
  - destruct ok; [auto|]. destruct (F2 eq_refl) as [?|[E _]]; [auto|]. left. by rewrite E.
  - intros H. apply D, S2. intros t. by destruct (H t).
Qed.

End Lock.

(** C7: the CPU lock of a block-linear buffer is a faithful window on it, for
    a buffer whose rows are below 2^32 bytes ([width * bpp]; every image the
    driver creates is, a forged handle need not be, see
    [wrapped_width_is_mapped]).  After a lock that succeeds, the byte at row
    [y], column byte [x] of the image is at offset [y * stride + x] of the
    mapping, inside the mapping, and the image is unchanged.  Whatever the CPU
    then stores through the mapping ([v]), the unlock ends the mapping and
    unlocks the buffer, and
    - without WRITE in either call the image stays as it was;
    - with WRITE, the image rows become exactly the stored bytes and the rest
      is unchanged, or the image is left as it was, or the copy context is
      marked unusable; and the stored bytes are committed whenever every
      driver call succeeds. *)
Theorem lock_roundtrip (K : os) (laws : OsLaws K) (p : Z) (b : nvg_bo) (f : nvg_format) (flags a q : Z) (w w1 : mworld) :
  bos w !! p = Some b -> bo_wf b -> b_modifier b <> DRM_FORMAT_MOD_LINEAR ->
  find_format (b_drm_format b) = Some f ->
  is_u32 (b_width b) -> is_u32 (b_height b) -> is_u32 (b_stride b) -> b_width b * bpp f < 2 ^ 32 ->
  nvg_map_impl K p flags w = ((a, q), w1) -> q <> NULL ->
  (exists m, maps w1 !! q = Some m /\ m_addr m = a /\
     forall y x, in_row b f y x = true ->
       0 <= y * b_stride b + x < m_size m /\ cpu_view (mem w1 p) (y * b_stride b + x) = image (mem w p) y x) /\
  image (mem w1 p) = image (mem w p) /\
  forall v uflags,
    let w3 := (nvg_unmap_impl K p q uflags (cpu_write q v w1).2).2 in
    maps w3 !! q = None /\ (exists b3, bos w3 !! p = Some b3 /\ b_locked b3 = false) /\
    if has_any (Z.lor flags uflags) GBM_MAP_FLAG_WRITE
    then (image (mem w3 p) = image (mem w p) \/ committed p b f v w w3 \/ g_xfer_state w3 = -1) /\
         (copies_succeed K -> committed p b f v w w3)
    else image (mem w3 p) = image (mem w p).
Proof.
  intros B Wf Hm Hf Hw Hh Hs Hwb E Hq. unfold nvg_map_impl in E. rewrite bind_run in E. cbn [getS fst snd] in E.
  rewrite B, (proj2 (Z.eqb_neq _ _) Hm) in E. cbn [negb] in E.
  pose proof (map_tiled_spec K p b f flags w B Wf Hf Hwb (proj1 Hw)) as H. unfold wp in H. rewrite E in H.
  cbn [fst snd] in H. destruct (H Hq) as (Hmod & Hrow & b1 & Ea & L). clear H E.
  destruct L as [LB LL LG LT LM LI LC LCo LX].
  assert (Hsz : b_stg_size b1 = b_stride b * b_height b).
  { destruct LT as [_ ->]. rewrite (geom_stride _ _ LG), (geom_height _ _ LG). apply u64_id.
    unfold is_u32, is_u64 in *. nia. }
  split; [|split; [done|]].
  - eexists. split; [exact LM|]. split; [done|]. intros y x Hr. split; [|by apply LC].
    cbn [m_size]. rewrite Hsz. apply in_row_iff in Hr. nia.
  - intros v uflags.
    set (w2 := (cpu_write q v w1).2).
    assert (E2 : w2 = (put_bytes p (mk_bytes (image (mem w1 p)) (if b_stg_coherent b1 then v else gpu_view (mem w1 p)) v) w1).2).
    { unfold w2, cpu_write. rewrite bind_run. cbn [getS fst snd]. rewrite LM. cbn [m_tiled m_bo]. by rewrite LB. }
    assert (Ei2 : image (mem w2 p) = image (mem w p)) by (rewrite E2; cbn; by rewrite decide_True).
    pose proof (unmap_tiled_spec K p b1 f q (mk_map p (b_stride b1) (b_stg_ptr b1) (b_stg_size b1) true flags) uflags v w2) as U.
    unfold nvg_unmap_impl. rewrite bind_run. cbn [getS fst snd].
    assert (B2 : bos w2 = bos w1) by (by rewrite E2). assert (M2 : maps w2 = maps w1) by (by rewrite E2).
    rewrite B2, M2, LB, LM. cbn [m_tiled]. unfold wp in U. cbn [m_flags] in U.
    destruct U as (U1 & U2 & U3).
    + done.
    + by injection LG as _ _ _ _ _ _ -> _.
    + rewrite E2. exact LX.
    + rewrite (geom_pitch _ _ _ LG), (geom_stride _ _ LG). apply pitch_exact; [|done].
      by apply (bpp_pos _ _ Hf).
    + rewrite E2. cbn. by rewrite decide_True.
    + intros Hc. rewrite E2. cbn. by rewrite decide_True, Hc.
    + split; [exact U1|]. split; [by eexists|]. unfold committed in *.
      rewrite (geom_stride _ _ LG), (geom_in_row _ _ f LG), Ei2 in U3. exact U3.
Qed.

Definition demo_w : mworld := run_ops demo_os (2 ^ 64 - 1) (take 1 demo_session) (mstart demo_bytes).
Definition demo_b : nvg_bo :=
  mk_bo 11 1048576 GrallocAlloc.demo_block_linear 200 100 1024 DRM_FORMAT_ABGR8888 57984 0 0 0 0 0 0 false false.

Lemma lock_roundtrip_witness :
  let w1 := (nvg_map_impl demo_os 1 NVG_MAP_RW demo_w).2 in
  let w3 := (nvg_unmap_impl demo_os 1 2 0 (cpu_write 2 (fun o => o) w1).2).2 in
  cpu_view (mem w1 1) (3 * 1024 + 5) = 3005 /\ image (mem w3 1) 3 5 = 3 * 1024 + 5.
Proof.
  cbv zeta. set (w1 := (nvg_map_impl demo_os 1 NVG_MAP_RW demo_w).2).
  assert (E : nvg_map_impl demo_os 1 NVG_MAP_RW demo_w = ((65536, 2), w1)).
  { rewrite (surjective_pairing (nvg_map_impl _ _ _ _)). f_equal. }
  destruct (lock_roundtrip demo_os demo_os_laws 1 demo_b
    (mk_format DRM_FORMAT_ABGR8888 VK_FORMAT_R8G8B8A8_UNORM VK_FORMAT_R8G8B8A8_SRGB 4 "ABGR8888")
    NVG_MAP_RW 65536 2 demo_w w1) as ((m & _ & _ & H1) & _ & H2); try exact E.
  1: vm_compute; reflexivity.
  1: { split; [vm_compute; discriminate|left]. vm_compute. auto. }
  1: vm_compute; discriminate.
  1: reflexivity.
  1-3: vm_compute; split; congruence.
  1: vm_compute; reflexivity.
  1: vm_compute; discriminate.
  split; [exact (proj2 (H1 3 5 eq_refl))|].
  destruct (H2 (fun o => o) 0) as (_ & _ & _ & Hc). rewrite Hc; [reflexivity|]. intros t. split_and!; reflexivity.
Defined.

(** The row guard [stride < width * bpp] is computed in 32 bits: a handle
    that claims 2^30 pixels of 4 bytes on a 4-byte stride passes it, and the
    lock succeeds with a 4-byte mapping for rows of 2^32 bytes. *)
Lemma wrapped_width_is_mapped :
  let w := run_ops demo_os (2 ^ 64 - 1)
    [Import (Some 57984) 5 (2 ^ 30) 1 4 GrallocAlloc.demo_block_linear DRM_FORMAT_ABGR8888; Map 1] (mstart demo_bytes) in
  exists m, maps w !! 2 = Some m /\ m_size m = 4.
Proof. eexists. split; [vm_compute; reflexivity|reflexivity]. Qed.

End GrallocLock.
