(* ===== verification/VtestAlloc.v ===== *)
(** * The host-side allocator ([virglrenderer-vtest/vtest_gpu_alloc.c])

    The vtest server's answer to an allocation request: a GPU image exported
    as a dma-buf, or a memfd turned into a udmabuf.  The Vulkan loader and the
    kernel are records of functions of the calls made so far.  The mutex
    brackets a whole call, so a call is one step.  A call through a function
    pointer that was never found ends the process: [None]. *)

From Stdlib Require Import ZArith Lia String.
From stdpp Require Import base option sets strings gmap list.
From S2P Require Import Prelude Vulkan GrallocFormat.

Set Default Goal Selector "!".
#[local] Open Scope Z_scope.

Module VtestAlloc.
Import Vk.
Import GrallocFormat.

Definition drm_format_to_vk (drm_format : Z) : Z :=
  if drm_format =? DRM_FORMAT_R8 then VK_FORMAT_R8_UNORM
  else if drm_format =? DRM_FORMAT_RGB565 then VK_FORMAT_R5G6B5_UNORM_PACK16
  else if (drm_format =? DRM_FORMAT_XRGB8888) || (drm_format =? DRM_FORMAT_ARGB8888) then VK_FORMAT_B8G8R8A8_UNORM
  else if (drm_format =? DRM_FORMAT_XBGR8888) || (drm_format =? DRM_FORMAT_ABGR8888) then VK_FORMAT_R8G8B8A8_UNORM
  else if drm_format =? DRM_FORMAT_ABGR2101010 then VK_FORMAT_A2B10G10R10_UNORM_PACK32
  else if drm_format =? DRM_FORMAT_ABGR16161616F then VK_FORMAT_R16G16B16A16_SFLOAT
  else VK_FORMAT_UNDEFINED.

Definition drm_format_bpp (drm_format : Z) : Z :=
  if drm_format =? DRM_FORMAT_R8 then 1
  else if drm_format =? DRM_FORMAT_RGB565 then 2
  else if drm_format =? DRM_FORMAT_ABGR16161616F then 8
  else 4.

(** ** State *)

(** A cached modifier list. *)
Record cache_entry := mk_entry { ce_format : Z; ce_modifiers : list Z }.

Record alloc_vk := mk_avk {
  v_instance : Z;
  v_physical_device : Z;
  v_device : Z;
  v_mem_props : list Z;
  v_cache : list cache_entry;
  v_GetMemoryFdKHR : bool;                    (** found, not NULL *)
  v_GetPhysicalDeviceFormatProperties2 : bool;
  v_GetImageDrmFormatModifierPropertiesEXT : bool;
}.

Record vworld := mk_vw { vk : alloc_vk; alloc_vk_failed : bool; vtr : trace }.

Definition vstart : vworld := mk_vw (mk_avk 0 0 0 [] [] false false false) false [].

(** A physical device as the loader lists it. *)
Record gpu := mk_gpu { g_handle : Z; g_discrete : bool; g_exts : list string; g_name : string }.

Record image_info := mk_vimage { vi_format : Z; vi_width : Z; vi_height : Z; vi_mods : list Z }.

Record host := mk_host {
  h_dlopen : bool;
  h_get_proc : bool;
  h_CreateInstance : bool;
  h_create_instance : trace -> Z * Z;
  h_enumerate : trace -> Z * list gpu;
  h_want : option string;                        (** VTEST_ALLOC_GPU *)
  h_mem_props : Z -> list Z;
  h_create_device : trace -> Z -> Z * Z;
  h_fns : trace -> bool * bool * bool;           (** the three checked entry points *)
  h_mod_count : trace -> Z -> Z;                 (** first query *)
  h_calloc : trace -> bool;
  h_mod_list : trace -> Z -> list VkDrmFormatModifierProperties2EXT;  (** second query *)
  h_create_image : trace -> image_info -> Z * Z;
  h_image_reqs : trace -> Z -> VkMemoryRequirements;
  h_allocate : trace -> Z -> Z -> Z * Z;
  h_bind : trace -> Z -> Z -> Z;
  h_image_modifier : trace -> Z -> Z * Z;
  h_subresource : trace -> Z -> VkSubresourceLayout;
  h_get_fd : trace -> Z -> Z * Z;
  (** the kernel, for the CPU path; an errno instead of a descriptor is negative *)
  h_memfd : trace -> Z;
  h_ftruncate : trace -> Z -> Z;                 (** 0 or -errno *)
  h_udmabuf_open : trace -> Z;
  h_udmabuf_create : trace -> Z -> Z;
}.

Definition DEV_EXT_DMA_BUF : string := "VK_EXT_external_memory_dma_buf".
Definition DEV_EXT_MODIFIER : string := "VK_EXT_image_drm_format_modifier".

(** ** Choosing the GPU *)

Definition capable (g : gpu) : bool :=
  bool_decide (DEV_EXT_DMA_BUF ∈ take 512 (g_exts g)) && bool_decide (DEV_EXT_MODIFIER ∈ take 512 (g_exts g)).

(** [strstr(props.deviceName, want)] *)
Definition name_matches (want : option string) (name : string) : bool :=
  match want with Some s => bool_decide (is_Some (index 0 s name)) | None => false end.

Definition score (want : option string) (g : gpu) : Z :=
  (if g_discrete g then 2 else 0) + (if name_matches want (g_name g) then 10 else 0).

(** [best], [best_score]: a later device replaces only with a better score. *)
Definition consider (want : option string) (best : option gpu * Z) (g : gpu) : option gpu * Z :=
  if negb (capable g) then best
  else if best.2 <? score want g then (Some g, score want g)
  else best.

Definition best_gpu (want : option string) (l : list gpu) : option gpu :=
  (foldl (consider want) (None, -1) (take 16 l)).1.

(** ** Setup *)

Definition set_avk (w : vworld) (v : alloc_vk) : vworld := mk_vw v (alloc_vk_failed w) (vtr w).
Definition set_failed (w : vworld) (b : bool) : vworld := mk_vw (vk w) b (vtr w).
Definition vev (e : event) : M vworld () := modS (fun w => mk_vw (vk w) (alloc_vk_failed w) (vtr w ++ [e])).
Definition vask {A} (f : trace -> A) : M vworld A := fun w => (f (vtr w), w).
Definition modvk (f : alloc_vk -> alloc_vk) : M vworld () := modS (fun w => set_avk w (f (vk w))).
Definition whenV (b : bool) (m : M vworld ()) : M vworld () := if b then m else mret tt.

Section Host.
Context (H : host).

Definition vcreate (k : kind) (f : trace -> Z * Z) : M vworld (Z * Z) :=
  '(r, h) ← vask f;
  _ ← vev (Created k (r =? VK_SUCCESS) h);
  mret (r, h).

Definition alloc_vk_init_locked : M vworld Z :=
  w ← getS;
  if negb (v_device (vk w) =? VK_NULL_HANDLE) then mret 0
  else if alloc_vk_failed w then mret (- ENODEV)
  else
  _ ← modS (fun w => set_failed w true);
  if negb (h_dlopen H) || negb (h_get_proc H) || negb (h_CreateInstance H) then mret (- ENODEV)
  else
  '(r, i) ← vcreate KInstance (h_create_instance H);
  _ ← modvk (fun v => mk_avk i (v_physical_device v) (v_device v) (v_mem_props v) (v_cache v)
                       (v_GetMemoryFdKHR v) (v_GetPhysicalDeviceFormatProperties2 v)
                       (v_GetImageDrmFormatModifierPropertiesEXT v));
  if negb (r =? VK_SUCCESS) then mret (- ENODEV)
  else
  '(r, gpus) ← vask (h_enumerate H);
  if (r <? 0) || bool_decide (gpus = []) then mret (- ENODEV)
  else
  match best_gpu (h_want H) gpus with
  | None => mret (- ENODEV)
  | Some g =>
      '(r, d) ← vcreate KDevice (fun t => h_create_device H t (g_handle g));
      let d := if r =? VK_SUCCESS then d else VK_NULL_HANDLE in
      fns ← vask (h_fns H);
      let fns := if r =? VK_SUCCESS then fns else (false, false, false) in
      let '(f1, f2, f3) := fns in
      _ ← modvk (fun v => mk_avk (v_instance v) (g_handle g) d (h_mem_props H (g_handle g)) (v_cache v) f1 f2 f3);
      if negb (r =? VK_SUCCESS) then mret (- ENODEV)
      else if negb (f1 && f2 && f3) then mret (- ENODEV)
      else _ ← modS (fun w => set_failed w false); mret 0
  end.

(** ** Modifier candidates and their cache *)

Definition need : Z := Z.lor FEATURE_COLOR_ATTACHMENT FEATURE_SAMPLED_IMAGE.
Definition wanted_modifier (p : VkDrmFormatModifierProperties2EXT) : bool :=
  (drmFormatModifierPlaneCount p =? 1) && has_all (drmFormatModifierTilingFeatures p) need
  && negb (drmFormatModifier p =? 0).

(** The loop stops at 64 candidates. *)
Fixpoint collect (l : list VkDrmFormatModifierProperties2EXT) (mods : list Z) : list Z :=
  match l with
  | [] => mods
  | p :: l =>
      if (64 <=? length mods)%nat then mods
      else collect l (if wanted_modifier p then mods ++ [drmFormatModifier p] else mods)
  end.

Definition find_cached (c : list cache_entry) (format : Z) : option cache_entry :=
  snd <$> list_find (fun e => ce_format e = format) c.

(** The outer [option] is the process ending at a NULL call; the inner one is
    [goto out]. *)
Definition tiled_modifiers (format : Z) : M vworld (option (option (list Z))) :=
  w ← getS;
  match find_cached (v_cache (vk w)) format with
  | Some e => mret (Some (Some (ce_modifiers e)))
  | None =>
      if (8 <=? length (v_cache (vk w)))%nat then mret (Some None)
      else if negb (v_GetPhysicalDeviceFormatProperties2 (vk w)) then mret None
      else
      capacity ← vask (fun t => h_mod_count H t format);
      if 4096 <? capacity then mret (Some None)
      else
      ok ← vask (h_calloc H);
      if negb (capacity =? 0) && negb ok then mret (Some None)
      else
      l ← vask (fun t => h_mod_list H t format);
      let mods := collect (take (Z.to_nat capacity) l) [] in
      _ ← modvk (fun v => mk_avk (v_instance v) (v_physical_device v) (v_device v) (v_mem_props v)
                            (v_cache v ++ [mk_entry format mods]) (v_GetMemoryFdKHR v)
                            (v_GetPhysicalDeviceFormatProperties2 v) (v_GetImageDrmFormatModifierPropertiesEXT v));
      mret (Some (Some mods))
  end.

(** ** GPU images *)

Record outs := mk_outs { o_stride : Z; o_modifier : Z; o_size : Z; o_fd : Z }.

(** [ffs(bits) - 1] on 32 bits, -1 for 0. *)
Definition ffs_minus1 (bits : Z) : Z := default (-1) (first_type (replicate 32 0) 0 (fun i _ => Z.testbit bits i)).

Definition want_flags (linear : bool) : Z :=
  if linear then Z.lor MEM_HOST_VISIBLE MEM_HOST_CACHED else MEM_DEVICE_LOCAL.

Definition vtest_mem_type (linear : bool) (bits : Z) (types : list Z) : Z :=
  match first_type types 0 (type_matches bits (want_flags linear)) with
  | Some t => t
  | None => ffs_minus1 bits
  end.

(** [out:] *)
Definition image_out (ret image memory : Z) (o : option outs) : M vworld (option (Z * option outs)) :=
  _ ← whenV (negb (image =? VK_NULL_HANDLE)) (vev (Destroyed KImage image));
  _ ← whenV (negb (memory =? VK_NULL_HANDLE)) (vev (Destroyed KMemory memory));
  mret (Some (ret, o)).

Definition create_image (v : alloc_vk) (linear : bool) (i : image_info) : M vworld (option (Z * option outs)) :=
  '(r, image) ← vcreate KImage (fun t => h_create_image H t i);
  if negb (r =? VK_SUCCESS) then image_out (- EINVAL) image VK_NULL_HANDLE None
  else
  reqs ← vask (fun t => h_image_reqs H t image);
  let type := vtest_mem_type linear (req_memoryTypeBits reqs) (v_mem_props v) in
  if req_memoryTypeBits reqs =? 0 then image_out (- EINVAL) image VK_NULL_HANDLE None
  else
  '(r, memory) ← vcreate KMemory (fun t => h_allocate H t (req_size reqs) type);
  if negb (r =? VK_SUCCESS) then image_out (- EINVAL) image VK_NULL_HANDLE None
  else
  r ← vask (fun t => h_bind H t image memory);
  if negb (r =? VK_SUCCESS) then image_out (- EINVAL) image memory None
  else if negb (v_GetImageDrmFormatModifierPropertiesEXT v) then mret None
  else
  '(r, chosen) ← vask (fun t => h_image_modifier H t image);
  if negb (r =? VK_SUCCESS) then image_out (- EINVAL) image memory None
  else
  layout ← vask (fun t => h_subresource H t image);
  if negb (v_GetMemoryFdKHR v) then mret None
  else
  '(r, fd) ← vask (fun t => h_get_fd H t memory);
  _ ← vev (Created KFd ((r =? VK_SUCCESS) && (0 <=? fd)) fd);
  if negb (r =? VK_SUCCESS) || (fd <? 0) then image_out (- EINVAL) image memory None
  else image_out 0 image memory (Some (mk_outs (u32 (l_rowPitch layout)) chosen (req_size reqs) fd)).

Definition vtest_gpu_alloc_image (width height drm_format : Z) (linear : bool) : M vworld (option (Z * option outs)) :=
  if (width =? 0) || (height =? 0) then mret (Some (- EINVAL, None))
  else
  let format := drm_format_to_vk drm_format in
  if format =? VK_FORMAT_UNDEFINED then mret (Some (- EINVAL, None))
  else
  ret ← alloc_vk_init_locked;
  if negb (ret =? 0) then mret (Some (ret, None))
  else
  c ← (if linear then mret (Some (Some [DRM_FORMAT_MOD_LINEAR])) else tiled_modifiers format);
  match c with
  | None => mret None
  | Some None | Some (Some []) => image_out (- EINVAL) VK_NULL_HANDLE VK_NULL_HANDLE None
  | Some (Some mods) =>
      w ← getS;
      create_image (vk w) linear (mk_vimage format width height mods)
  end.

Definition vtest_gpu_alloc_gpu (width height drm_format : Z) : M vworld (option (Z * option outs)) :=
  vtest_gpu_alloc_image width height drm_format false.

(** ** CPU buffers *)

Definition cpu_bpp (drm_format : Z) : Z := if drm_format =? DRM_FORMAT_NV12 then 1 else drm_format_bpp drm_format.
Definition cpu_stride (width drm_format : Z) : Z := u32 (alloc_align (u64 (width * cpu_bpp drm_format)) 256).
Definition cpu_size (stride height drm_format : Z) : Z :=
  if drm_format =? DRM_FORMAT_NV12
  then alloc_align (u64 (u64 (stride * height) + u64 (stride * (u32 (height + 1) / 2)))) 4096
  else alloc_align (u64 (stride * height)) 4096.

Definition vtest_gpu_alloc_cpu (width height drm_format : Z) : M vworld (Z * option outs) :=
  if (width =? 0) || (height =? 0) || (UINT32_MAX - 255 <? u64 (width * cpu_bpp drm_format)) then mret (- EINVAL, None)
  else
  let stride := cpu_stride width drm_format in
  let size := cpu_size stride height drm_format in
  memfd ← vask (h_memfd H);
  _ ← vev (Created KFd (0 <=? memfd) memfd);
  if memfd <? 0 then mret (memfd, None)
  else
  r ← vask (fun t => h_ftruncate H t size);
  if r <? 0 then (_ ← vev (Destroyed KFd memfd); mret (r, None))
  else
  ufd ← vask (h_udmabuf_open H);
  _ ← vev (Created KFd (0 <=? ufd) ufd);
  if ufd <? 0 then (_ ← vev (Destroyed KFd memfd); mret (ufd, None))
  else
  dmabuf ← vask (fun t => h_udmabuf_create H t size);
  _ ← vev (Created KFd (0 <=? dmabuf) dmabuf);
  _ ← vev (Destroyed KFd ufd);
  _ ← vev (Destroyed KFd memfd);
  if dmabuf <? 0 then mret (dmabuf, None)
  else mret (0, Some (mk_outs stride DRM_FORMAT_MOD_LINEAR size dmabuf)).

End Host.

(** ** The GPU that allocates *)

(** The device [best_gpu] keeps after a prefix of the list. *)
Definition best_so_far (want : option string) (l : list gpu) (b : option gpu * Z) : Prop :=
  match b.1 with
  | None => b.2 = -1 /\ forall g, g ∈ l -> capable g = false
  | Some g => b.2 = score want g /\ exists i, l !! i = Some g /\ capable g = true /\
      forall j g', l !! j = Some g' -> capable g' = true ->
        score want g' <= score want g /\ ((j < i)%nat -> score want g' < score want g)
  end.

Lemma score_nonneg want g : 0 <= score want g.
Proof. unfold score. destruct (g_discrete g), (name_matches _ _); lia. Qed.

Lemma foldl_best want l : best_so_far want l (foldl (consider want) (None, -1) l).
Proof.
  induction l as [|g l IH] using rev_ind; [split; [done|set_solver]|].
  rewrite foldl_app. simpl. set (b := foldl _ _ _) in *. unfold consider.
  pose proof (score_nonneg want g) as Hs.
  destruct (capable g) eqn:Hc; cbn [negb].
  - destruct (Z.ltb_spec b.2 (score want g)) as [Hlt|Hge].
    + cbn. split; [done|]. exists (length l). split; [by rewrite lookup_app_r, Nat.sub_diag|]. split; [done|].
      assert (Hl : forall g', g' ∈ l -> capable g' = true -> score want g' < score want g).
      { intros g' Hg' Hc'. unfold best_so_far in IH. destruct b.1 as [g0|].
        - destruct IH as (E & i & _ & _ & Hi). apply list_elem_of_lookup_1 in Hg' as [j Hj].
          destruct (Hi j g' Hj Hc') as [? _]. lia.
        - destruct IH as [_ IH]. by rewrite IH in Hc'. }
      intros j g' [Hj|[Hj1 Hj2]]%lookup_app_Some Hc'.
      * specialize (Hl g' (list_elem_of_lookup_2 _ _ _ Hj) Hc'). lia.
      * apply list_lookup_singleton_Some in Hj2 as [Hj2 <-]. split; [lia|lia].
    + unfold best_so_far in *. destruct b.1 as [g0|]; [|lia].
      destruct IH as (E & i & Hi & Hc0 & Hall). split; [done|]. exists i.
      split; [by apply lookup_app_l_Some|]. split; [done|].
      intros j g' [Hj|[Hj1 Hj2]]%lookup_app_Some Hc'; [by apply (Hall j)|].
      apply list_lookup_singleton_Some in Hj2 as [Hj2 <-]. apply lookup_lt_Some in Hi. lia.
  - unfold best_so_far in *. destruct b.1 as [g0|].
    + destruct IH as (E & i & Hi & Hc0 & Hall). split; [done|]. exists i.
      split; [by apply lookup_app_l_Some|]. split; [done|].
      intros j g' [Hj|[Hj1 Hj2]]%lookup_app_Some Hc'; [by apply (Hall j)|].
      apply list_lookup_singleton_Some in Hj2 as [_ <-]. congruence.
    + destruct IH as [E IH]. split; [done|]. intros g' [Hg'| ->%list_elem_of_singleton]%elem_of_app; auto.
Qed.

(** the allocating GPU: among the first 16 devices the loader lists,
    the chosen one supports dma-buf export with format modifiers and no other
    such device scores higher (named by VTEST_ALLOC_GPU before discrete before
    the rest); of equals the first is chosen; none is chosen only when no
    listed device is capable. *)
Theorem vtest_best_gpu (want : option string) (l : list gpu) :
  match best_gpu want l with
  | Some g => exists i, take 16 l !! i = Some g /\ capable g = true /\
      forall j g', take 16 l !! j = Some g' -> capable g' = true ->
        score want g' <= score want g /\ ((j < i)%nat -> score want g' < score want g)
  | None => forall g, g ∈ take 16 l -> capable g = false
  end.
Proof.
  pose proof (foldl_best want (take 16 l)) as H. unfold best_gpu. unfold best_so_far in H.
  destruct (foldl _ _ _).1; apply H.
Qed.

(** ** Sizes of CPU buffers *)

Lemma u64_small x : 0 <= x < 2 ^ 64 -> u64 x = x.
Proof. apply u64_id. Qed.

Lemma cpu_bpp_range f : 1 <= cpu_bpp f <= 8.
Proof. unfold cpu_bpp, drm_format_bpp. repeat case_match; lia. Qed.

Lemma cpu_stride_spec width f :
  is_u32 width -> width * cpu_bpp f <= UINT32_MAX - 255 ->
  let s := cpu_stride width f in
  s mod 256 = 0 /\ width * cpu_bpp f <= s < width * cpu_bpp f + 256 /\ s <= UINT32_MAX.
Proof.
  intros Hw Hmax s. pose proof (cpu_bpp_range f). unfold UINT32_MAX, is_u32 in *.
  set (v := width * cpu_bpp f) in *. assert (0 <= v) by (unfold v; nia).
  assert (Es : s = (v + (256 - 1)) / 256 * 256).
  { unfold s, cpu_stride. fold v. rewrite (u64_small v) by lia. change 256 with (2 ^ 8).
    rewrite alloc_align_spec by lia. change (2 ^ 8) with 256. apply u32_id. unfold is_u32.
    pose proof (align_up_bounds v 256). lia. }
  pose proof (align_up_bounds v 256 ltac:(lia)). rewrite Es. split; [apply Z.mod_mul; lia|]. lia.
Qed.

(** Bytes the planes of the buffer need. *)
Definition planes_bytes (stride height f : Z) : Z :=
  if f =? DRM_FORMAT_NV12 then stride * height + stride * ((height + 1) / 2) else stride * height.

Lemma cpu_size_spec stride height f :
  0 <= stride <= UINT32_MAX - 255 -> is_u32 height -> (f = DRM_FORMAT_NV12 -> height < 2 ^ 31) ->
  let n := cpu_size stride height f in
  n mod 4096 = 0 /\ planes_bytes stride height f <= n < planes_bytes stride height f + 4096 /\ n < 2 ^ 64.
Proof.
  intros Hs Hh Hnv n. unfold UINT32_MAX, is_u32 in *.
  assert (Hsmall : 0 <= planes_bytes stride height f < 2 ^ 64 - 4096).
  { unfold planes_bytes. destruct (Z.eqb_spec f DRM_FORMAT_NV12) as [E|E]; [|nia].
    specialize (Hnv E). assert (0 <= (height + 1) / 2 <= 2 ^ 30) by (split; [apply Z.div_pos|apply Z.div_le_upper_bound]; lia).
    nia. }
  set (v := planes_bytes stride height f) in *.
  assert (En : n = alloc_align v 4096).
  { unfold n, cpu_size, v, planes_bytes in *. destruct (Z.eqb_spec f DRM_FORMAT_NV12) as [E|E].
    - specialize (Hnv E). assert (0 <= (height + 1) / 2) by (apply Z.div_pos; lia).
      rewrite (u32_id (height + 1)) by (unfold is_u32; lia).
      assert (0 <= stride * height) by nia. assert (0 <= stride * ((height + 1) / 2)) by nia.
      by rewrite (u64_small (stride * height)), (u64_small (stride * _)), u64_small by lia.
    - by rewrite u64_small by nia. }
  rewrite En. change 4096 with (2 ^ 12) in *. rewrite alloc_align_spec by lia.
  pose proof (align_up_bounds v (2 ^ 12) ltac:(lia)). split; [apply Z.mod_mul; lia|]. lia.
Qed.

(** ** Resources *)

Lemma vcreate_run k f w :
  vcreate k f w = (f (vtr w), mk_vw (vk w) (alloc_vk_failed w)
    (vtr w ++ [Created k ((f (vtr w)).1 =? VK_SUCCESS) (f (vtr w)).2])).
Proof. unfold vcreate. cbv [mbind M_bind vask vev modS mret M_ret]. cbn. by destruct (f (vtr w)). Qed.
Lemma vask_run {A} (f : trace -> A) w : vask f w = (f (vtr w), w).
Proof. reflexivity. Qed.
Lemma vev_run e w : vev e w = (tt, mk_vw (vk w) (alloc_vk_failed w) (vtr w ++ [e])).
Proof. reflexivity. Qed.
Ltac vstep := rewrite bind_run; rewrite ?vcreate_run, ?vask_run, ?vev_run; cbn [fst snd vtr vk alloc_vk_failed].

(** Handles that stand for a resource of a call. *)
Definition counted (k : kind) (h : Z) : Prop :=
  match k with KImage | KMemory => h <> VK_NULL_HANDLE | KFd => 0 <= h | _ => False end.

(** The descriptor an outcome hands to the caller. *)
Definition given (k : kind) (h : Z) (o : option outs) : Z :=
  match k, o with KFd, Some o => if decide (o_fd o = h) then 1 else 0 | _, _ => 0 end.

(** From [w] to [w'] exactly the outcome's descriptor was gained. *)
Definition gained (w w' : vworld) (o : option outs) : Prop :=
  forall k h, counted k h -> balance k h (vtr w') = balance k h (vtr w) + given k h o.

Ltac vsettle :=
  let k := fresh "k" in let h := fresh "h" in let Hv := fresh "Hv" in
  intros k h Hv; unfold mret, M_ret; cbn [vtr vk alloc_vk_failed snd fst];
  destruct k; cbn [counted] in Hv; try done; bal_simpl; unfold given, VK_NULL_HANDLE in *; cbn [o_fd] in *;
  repeat case_decide; simplify_eq; try lia.

Lemma cpu_alloc_spec H width height f w :
  wp (vtest_gpu_alloc_cpu H width height f) (fun r w' =>
    vk w' = vk w /\ gained w w' r.2 /\
    match r.2 with
    | None => r.1 < 0
    | Some out => r.1 = 0 /\ 0 <= o_fd out /\ u64 (width * cpu_bpp f) <= UINT32_MAX - 255 /\
        o_stride out = cpu_stride width f /\ o_size out = cpu_size (cpu_stride width f) height f
    end) w.
Proof.
  unfold wp, vtest_gpu_alloc_cpu. destruct (_ || _) eqn:C; [split; [done|]; split; [vsettle|done]|]. bool_props.
  cbv zeta. set (s := cpu_stride width f). set (n := cpu_size s height f).
  vstep. vstep. destruct (Z.ltb_spec (h_memfd H (vtr w)) 0) as [M|M].
  { rewrite (proj2 (Z.leb_gt _ _)) by lia. split; [done|]. split; [vsettle|done]. }
  rewrite (proj2 (Z.leb_le _ _)) by lia. set (memfd := h_memfd H (vtr w)) in *.
  vstep. set (t1 := vtr w ++ [Created KFd true memfd]) in *.
  destruct (Z.ltb_spec (h_ftruncate H t1 n) 0) as [T|T].
  { vstep. split; [done|]. split; [unfold t1; vsettle|done]. }
  vstep. vstep. set (ufd := h_udmabuf_open H t1) in *.
  destruct (Z.ltb_spec ufd 0) as [U|U].
  { rewrite (proj2 (Z.leb_gt _ _)) by lia. vstep. split; [done|]. split; [unfold t1; vsettle|done]. }
  rewrite (proj2 (Z.leb_le 0 ufd)) by lia. vstep. vstep. vstep. vstep. set (fd := h_udmabuf_create H _ n) in *.
  destruct (Z.ltb_spec fd 0) as [D|D].
  { rewrite (proj2 (Z.leb_gt _ _)) by lia. split; [done|]. split; [unfold t1; vsettle|done]. }
  rewrite (proj2 (Z.leb_le 0 fd)) by lia. split; [done|]. split; [unfold t1; vsettle|].
  cbn [fst snd mret M_ret o_stride o_size o_fd]. split_and!; (done || lia).
Qed.

(** a CPU buffer: on success the row stride is the row's bytes rounded up
    to 256, the size is the planes' bytes rounded up to a page (for NV12 the
    half-height UV plane included, for heights below 2^31), and the dma-buf is
    the only descriptor left open; on failure a negative error is returned and
    no descriptor is left open. *)
Theorem vtest_cpu_alloc_sound (H : host) (width height f : Z) (w w' : vworld) (ret : Z) (o : option outs) :
  is_u32 width -> is_u32 height -> (f = DRM_FORMAT_NV12 -> height < 2 ^ 31) ->
  vtest_gpu_alloc_cpu H width height f w = ((ret, o), w') ->
  gained w w' o /\
  match o with
  | None => ret < 0
  | Some out => ret = 0 /\ 0 <= o_fd out /\
      o_stride out mod 256 = 0 /\ width * cpu_bpp f <= o_stride out < width * cpu_bpp f + 256 /\
      o_stride out < 2 ^ 32 /\ o_size out mod 4096 = 0 /\
      planes_bytes (o_stride out) height f <= o_size out < planes_bytes (o_stride out) height f + 4096
  end.
Proof.
  intros Hw Hh Hnv E. pose proof (cpu_alloc_spec H width height f w) as S. unfold wp in S. rewrite E in S.
  cbn [fst snd] in S. destruct S as (_ & G & S). split; [done|]. destruct o as [out|]; [|done].
  destruct S as (E0 & Efd & Hg & Es & En). pose proof (cpu_bpp_range f).
  rewrite u64_small in Hg by (unfold is_u32 in Hw; nia).
  pose proof (cpu_stride_spec width f Hw Hg) as (S1 & S2 & S3). cbv zeta in *. rewrite <- Es in *.
  assert (Hs0 : 0 <= o_stride out <= UINT32_MAX - 255).
  { unfold is_u32, UINT32_MAX in *. split; [nia|]. apply Z.mod_divide in S1 as [q Hq]; [|lia]. lia. }
  destruct (cpu_size_spec _ height f Hs0 Hh Hnv) as (N1 & N2 & N3). rewrite <- En in *.
  unfold UINT32_MAX in *. lia.
Qed.

(** ** Sequences of requests *)

Inductive request := GpuRequest (width height drm_format : Z) | CpuRequest (width height drm_format : Z).

(** The answers, or [None] when the process ends at a NULL call. *)
Definition serve (H : host) (r : request) : M vworld (option (Z * option outs)) :=
  match r with
  | GpuRequest w h f => vtest_gpu_alloc_gpu H w h f
  | CpuRequest w h f => x ← vtest_gpu_alloc_cpu H w h f; mret (Some x)
  end.

Fixpoint serve_all (H : host) (l : list request) : M vworld (option (list (Z * option outs))) :=
  match l with
  | [] => mret (Some [])
  | r :: l =>
      a ← serve H r;
      match a with
      | None => mret None
      | Some x => rest ← serve_all H l; mret (cons x <$> rest)
      end
  end.

(** Documented behaviour: a failed [vkCreateImage] leaves VK_NULL_HANDLE. *)
Definition null_on_failure (H : host) : Prop :=
  forall t i r h, h_create_image H t i = (r, h) -> r <> VK_SUCCESS -> h = VK_NULL_HANDLE.
(** The three entry points exist. *)
Definition all_entry_points (H : host) : Prop := forall t, h_fns H t = (true, true, true).
(** The modifiers a device lists never change. *)
Definition immutable_modifiers (H : host) : Prop :=
  forall t f, h_mod_count H t f = h_mod_count H [] f /\ h_mod_list H t f = h_mod_list H [] f.

Definition fns_found (v : alloc_vk) : Prop :=
  v_GetMemoryFdKHR v = true /\ v_GetPhysicalDeviceFormatProperties2 v = true /\
  v_GetImageDrmFormatModifierPropertiesEXT v = true.

(** What an uncached query selects. *)
Definition query_modifiers (H : host) (format : Z) : list Z :=
  collect (take (Z.to_nat (h_mod_count H [] format)) (h_mod_list H [] format)) [].

Definition vk_formats : list Z :=
  [VK_FORMAT_R8_UNORM; VK_FORMAT_R5G6B5_UNORM_PACK16; VK_FORMAT_B8G8R8A8_UNORM; VK_FORMAT_R8G8B8A8_UNORM;
   VK_FORMAT_A2B10G10R10_UNORM_PACK32; VK_FORMAT_R16G16B16A16_SFLOAT].

Record cache_ok (H : host) (c : list cache_entry) : Prop := {
  c_nodup : NoDup (ce_format <$> c);
  c_formats e : e ∈ c -> ce_format e ∈ vk_formats;
  c_exact e : e ∈ c -> ce_modifiers e = query_modifiers H (ce_format e);
}.

Lemma drm_format_vk_formats f : drm_format_to_vk f <> VK_FORMAT_UNDEFINED -> drm_format_to_vk f ∈ vk_formats.
Proof. unfold drm_format_to_vk. repeat case_match; intros ?; try done; unfold vk_formats; set_solver. Qed.

Lemma cache_length H c : cache_ok H c -> (length c <= 6)%nat.
Proof.
  intros [N F _]. rewrite <- (length_fmap ce_format c). change 6%nat with (length vk_formats).
  apply submseteq_length, NoDup_submseteq; [done|]. intros x (e & -> & He)%list_elem_of_fmap. auto.
Qed.

Lemma find_cached_Some c f e : find_cached c f = Some e -> e ∈ c /\ ce_format e = f.
Proof.
  unfold find_cached. intros ([i e'] & Hl & ->)%fmap_Some. apply list_find_Some in Hl as (Hi & He & _).
  split; [by eapply list_elem_of_lookup_2|done].
Qed.
Lemma find_cached_None c f : find_cached c f = None -> forall e, e ∈ c -> ce_format e <> f.
Proof.
  unfold find_cached. intros Hn%fmap_None e He Hf. apply list_find_None in Hn.
  by apply (proj1 (Forall_forall _ _) Hn e He).
Qed.

(** Setup touches instances, devices and the entry points only. *)
Lemma init_spec H w :
  all_entry_points H ->
  wp (alloc_vk_init_locked H) (fun r w' =>
    (forall k h, counted k h -> balance k h (vtr w') = balance k h (vtr w)) /\
    v_cache (vk w') = v_cache (vk w) /\ (r = 0 \/ r = - ENODEV) /\
    ((v_device (vk w) <> 0 -> fns_found (vk w)) ->
      (r = 0 -> fns_found (vk w')) /\ (v_device (vk w') <> 0 -> fns_found (vk w')))) w.
Proof.
  intros Hf. unfold wp, alloc_vk_init_locked. vstep. unfold getS. cbn [fst snd].
  destruct (Z.eqb_spec (v_device (vk w)) VK_NULL_HANDLE) as [E|E]; cbn [negb]; [|naive_solver].
  destruct (alloc_vk_failed w); [naive_solver|]. vstep. unfold modS. cbn [fst snd set_failed vk vtr alloc_vk_failed].
  destruct (_ || _); [naive_solver|]. vstep. destruct (h_create_instance H _) as [r i]. cbn [fst snd].
  vstep. unfold modvk, modS. cbn [fst snd set_avk vk vtr alloc_vk_failed].
  assert (Hb : forall ok h, forall k' h', counted k' h' ->
    balance k' h' (vtr w ++ [Created KInstance ok h]) = balance k' h' (vtr w)).
  { intros ok h k' h' Hc. rewrite balance_snoc. unfold ev_delta. rewrite decide_False; [lia|]. by intros [<- _]. }
  destruct (r =? VK_SUCCESS); cbn [negb]; [|split; [apply Hb|]; naive_solver].
  vstep. destruct (h_enumerate H _) as [r1 gpus]. destruct (_ || _); [split; [apply Hb|]; naive_solver|].
  destruct (best_gpu _ _) as [g|]; [|split; [apply Hb|]; naive_solver].
  vstep. set (t1 := vtr w ++ [Created KInstance true i]). destruct (h_create_device H _ _) as [r2 d]. cbn [fst snd]. vstep. rewrite Hf.
  assert (Hb2 : forall ok h, forall k' h', counted k' h' ->
    balance k' h' (t1 ++ [Created KDevice ok h]) = balance k' h' (vtr w)).
  { intros ok h k' h' Hc. rewrite balance_snoc. unfold ev_delta. rewrite decide_False; [|by intros [<- _]].
    unfold t1. rewrite Hb by done. lia. }
  destruct (r2 =? VK_SUCCESS); vstep; unfold modvk, modS; cbn; (split; [apply Hb2|]);
    (split; [done|]); (split; [auto|]); intros _; split; done.
Qed.

Lemma cache_add H c f :
  cache_ok H c -> (forall e, e ∈ c -> ce_format e <> f) -> f ∈ vk_formats ->
  cache_ok H (c ++ [mk_entry f (query_modifiers H f)]).
Proof.
  intros [N F X] Hn Hf. split.
  - rewrite fmap_app. apply NoDup_app. split; [done|]. split; [|by apply NoDup_singleton].
    intros x (e & -> & He)%list_elem_of_fmap Hx%list_elem_of_singleton. by apply (Hn e He).
  - intros e [He| ->%list_elem_of_singleton]%elem_of_app; auto.
  - intros e [He| ->%list_elem_of_singleton]%elem_of_app; auto.
Qed.

(** The lookup: cached or fresh, the same list. *)
Lemma modifiers_spec H f w :
  immutable_modifiers H -> cache_ok H (v_cache (vk w)) -> f ∈ vk_formats ->
  wp (tiled_modifiers H f) (fun r w' =>
    vtr w' = vtr w /\ cache_ok H (v_cache (vk w')) /\ v_device (vk w') = v_device (vk w) /\
    (fns_found (vk w) -> fns_found (vk w')) /\
    match r with
    | Some (Some mods) => mods = query_modifiers H f
    | Some None => 4096 < h_mod_count H [] f \/ h_calloc H (vtr w) = false
    | None => v_GetPhysicalDeviceFormatProperties2 (vk w) = false
    end) w.
Proof.
  intros Him Hc Hf. unfold wp, tiled_modifiers. vstep. unfold getS. cbn [fst snd].
  destruct (find_cached _ _) as [e|] eqn:Efc.
  { apply find_cached_Some in Efc as [He <-]. cbn. split_and!; [done|done|done|done|by apply (c_exact H (v_cache (vk w)))]. }
  pose proof (find_cached_None _ _ Efc) as Hn. pose proof (cache_length _ _ Hc).
  rewrite (proj2 (Nat.leb_gt _ _)) by lia.
  destruct (v_GetPhysicalDeviceFormatProperties2 (vk w)) eqn:Ef; cbn [negb]; [|done].
  vstep. destruct (Him (vtr w) f) as [E1 E2]. rewrite E1.
  destruct (Z.ltb_spec 4096 (h_mod_count H [] f)) as [Hm|Hm]; [cbn; auto 10|].
  vstep. destruct (negb (h_mod_count H [] f =? 0) && negb (h_calloc H (vtr w))) eqn:Ea.
  { bool_props. cbn. auto 10. }
  vstep. rewrite E2. vstep. unfold modvk, modS. cbn. split; [done|].
  split; [by apply cache_add|naive_solver].
Qed.

(** The image's life: nothing but the exported descriptor survives. *)
Lemma image_out_spec w0 ret image memory o w :
  (forall k h, counted k h -> balance k h (vtr w) =
     balance k h (vtr w0) + given k h o + one k KImage h image + one k KMemory h memory) ->
  wp (image_out ret image memory o) (fun r w' => vk w' = vk w /\ r = Some (ret, o) /\ gained w0 w' o) w.
Proof.
  intros Hb. unfold wp, image_out, whenV. rewrite !bind_run.
  destruct (Z.eqb_spec image VK_NULL_HANDLE) as [Ei|Ei], (Z.eqb_spec memory VK_NULL_HANDLE) as [Em|Em];
    cbn [negb]; (split; [done|]; split; [done|]);
    intros k h Hv; specialize (Hb k h Hv); cbn [vev modS mret M_ret fst snd vtr];
    rewrite ?balance_snoc, ?delta_destroyed, Hb; destruct k; cbn [counted] in Hv; try done; bal_simpl;
    repeat case_decide; simplify_eq; lia.
Qed.

Ltac image_done w :=
  eapply wp_mono; [apply (image_out_spec w)|];
  [vsettle | intros ? ? (? & -> & ?); split; [done|]; eexists _, _; split; [done|]; split; [done|]].

Lemma create_image_spec H v linear i w :
  null_on_failure H -> fns_found v ->
  wp (create_image H v linear i) (fun r w' =>
    vk w' = vk w /\ exists ret o, r = Some (ret, o) /\ gained w w' o /\
      match o with None => ret = - EINVAL | Some out => ret = 0 /\ 0 <= o_fd out end) w.
Proof.
  intros Hnf (F1 & F2 & F3). unfold create_image. rewrite F1, F3. cbn [negb].
  apply wp_bind. unfold wp at 1. rewrite vcreate_run.
  destruct (h_create_image H (vtr w) i) as [r image] eqn:Ei. cbn [fst snd].
  destruct (Z.eqb_spec r VK_SUCCESS) as [Er|Er]; cbn [negb].
  2:{ rewrite (Hnf _ _ _ _ Ei Er). image_done w; done. }
  apply wp_bind. unfold wp at 1. rewrite vask_run. cbn [fst snd vtr]. set (reqs := h_image_reqs H _ _).
  destruct (_ =? 0); [image_done w; done|].
  apply wp_bind. unfold wp at 1. rewrite vcreate_run. cbn [fst snd vtr vk alloc_vk_failed].
  destruct (h_allocate H _ _ _) as [r1 memory]. cbn [fst snd].
  destruct (r1 =? VK_SUCCESS); cbn [negb]; [|image_done w; done].
  apply wp_bind. unfold wp at 1. rewrite vask_run. cbn [fst snd vtr].
  destruct (negb _); [image_done w; done|].
  apply wp_bind. unfold wp at 1. rewrite vask_run. cbn [fst snd vtr].
  destruct (h_image_modifier H _ _) as [r2 chosen]. destruct (negb _); [image_done w; done|].
  apply wp_bind. unfold wp at 1. rewrite vask_run. cbn [fst snd vtr].
  apply wp_bind. unfold wp at 1. rewrite vask_run. cbn [fst snd vtr].
  destruct (h_get_fd H _ _) as [r3 fd]. apply wp_bind. unfold wp at 1. rewrite vev_run. cbn [fst snd vtr vk alloc_vk_failed].
  destruct (r3 =? VK_SUCCESS); cbn [negb andb orb]; [|image_done w; done].
  destruct (Z.ltb_spec fd 0) as [Hfd|Hfd].
  - rewrite (proj2 (Z.leb_gt _ _)) by lia. image_done w; done.
  - rewrite (proj2 (Z.leb_le _ _)) by lia. image_done w; done.
Qed.

Definition vinv (H : host) (w : vworld) : Prop :=
  cache_ok H (v_cache (vk w)) /\ (v_device (vk w) <> 0 -> fns_found (vk w)).

Lemma vinv_start H : vinv H vstart.
Proof. split; [split; [constructor|set_solver..]|done]. Qed.

Section Serve.
Context (H : host) (Hnf : null_on_failure H) (Hfn : all_entry_points H) (Him : immutable_modifiers H).

Definition answered (w : vworld) (a : option (Z * option outs)) (w' : vworld) : Prop :=
  vinv H w' /\ exists ret o, a = Some (ret, o) /\ gained w w' o /\
    match o with None => ret < 0 | Some out => ret = 0 /\ 0 <= o_fd out end.

Lemma gpu_spec width height f w : vinv H w -> wp (vtest_gpu_alloc_gpu H width height f) (answered w) w.
Proof.
  intros [C F]. unfold vtest_gpu_alloc_gpu, vtest_gpu_alloc_image.
  destruct (_ || _); [split; [done|]; eexists _, _; split; [done|]; split; [vsettle|done]|].
  destruct (Z.eqb_spec (drm_format_to_vk f) VK_FORMAT_UNDEFINED) as [E|E].
  { split; [done|]. eexists _, _. split; [done|]. split; [vsettle|done]. }
  apply drm_format_vk_formats in E. cbv zeta. set (fmt := drm_format_to_vk f) in *.
  apply wp_bind. eapply wp_mono; [by apply init_spec|]. intros r w1 (B1 & C1 & R1 & F1). destruct (F1 F) as [F1a F1b].
  assert (V1 : vinv H w1) by (split; [by rewrite C1|done]).
  assert (G1 : forall w2, vtr w2 = vtr w1 -> gained w w2 None).
  { intros w2 E2 k h Hv. rewrite E2, B1 by done. destruct k; cbn; lia. }
  destruct (Z.eqb_spec r 0) as [Er|Er]; cbn [negb].
  2:{ split; [done|]. eexists _, _. split; [done|]. split; [by apply G1|]. destruct R1 as [?| ->]; [done|].
      unfold ENODEV. lia. }
  apply wp_bind. eapply wp_mono; [apply modifiers_spec; [done|apply V1|done]|].
  intros c w2 (T2 & C2 & D2 & F2 & M2). specialize (F2 (F1a Er)).
  assert (V2 : vinv H w2) by (by split).
  destruct c as [[mods|]|].
  - destruct mods as [|m0 mods].
    + eapply wp_mono; [apply (image_out_spec w)|].
      { intros k h Hv. rewrite (G1 w2 T2 k h Hv). destruct k; cbn [counted] in Hv; try done; bal_simpl;
          unfold given, VK_NULL_HANDLE in *; repeat case_decide; simplify_eq; lia. }
      intros a w3 (E3 & -> & G3). split; [by unfold vinv; rewrite E3|]. eexists _, _. split; [done|]. split; done.
    + apply wp_bind. unfold wp at 1. cbn [getS fst snd]. eapply wp_mono; [by apply create_image_spec|].
      intros a w3 (E3 & ret & o & -> & G3 & P3). split; [by unfold vinv; rewrite E3|]. exists ret, o. split; [done|].
      split.
      * intros k h Hv. rewrite (G3 k h Hv), (G1 w2 T2 k h Hv). destruct k, o; cbn; lia.
      * destruct o; [done|]. rewrite P3. unfold EINVAL. lia.
  - eapply wp_mono; [apply (image_out_spec w)|].
    { intros k h Hv. rewrite (G1 w2 T2 k h Hv). destruct k; cbn [counted] in Hv; try done; bal_simpl;
        unfold given, VK_NULL_HANDLE in *; repeat case_decide; simplify_eq; lia. }
    intros a w3 (E3 & -> & G3). split; [by unfold vinv; rewrite E3|]. eexists _, _. split; [done|]. split; done.
  - destruct (F1a Er) as (_ & X & _). congruence.
Qed.

Lemma serve_spec r w : vinv H w -> wp (serve H r) (answered w) w.
Proof.
  intros V. destruct r as [x y f|x y f]; cbn [serve]; [by apply gpu_spec|].
  apply wp_bind. eapply wp_mono; [apply cpu_alloc_spec|]. intros [ret o] w' (E & G & P). apply wp_ret.
  split; [by unfold vinv; rewrite E|]. exists ret, o. split; [done|]. split; [done|].
  cbn in P. destruct o; [|done]. naive_solver.
Qed.

(** How often descriptor [fd] was handed out. *)
Definition handed (fd : Z) (l : list (Z * option outs)) : Z := sumZ ((fun a => given KFd fd a.2) <$> l).

Lemma serve_all_spec l w :
  vinv H w ->
  wp (serve_all H l) (fun a w' => vinv H w' /\ exists rs, a = Some rs /\ length rs = length l /\
    (forall x, x ∈ rs -> match x.2 with None => x.1 < 0 | Some out => x.1 = 0 /\ 0 <= o_fd out end) /\
    (forall k h, counted k h -> balance k h (vtr w') = balance k h (vtr w) +
       (if decide (k = KFd) then handed h rs else 0))) w.
Proof.
  revert w. induction l as [|r l IH]; intros w V; cbn [serve_all].
  { split; [done|]. exists []. split_and!; [done|done|set_solver|]. intros k h _. case_decide; cbn; lia. }
  apply wp_bind. eapply wp_mono; [by apply serve_spec|]. intros a w1 (V1 & ret & o & -> & G & P).
  apply wp_bind. eapply wp_mono; [by apply IH|]. intros b w2 (V2 & rs & -> & L & A & B). apply wp_ret.
  split; [done|]. exists ((ret, o) :: rs). split; [done|]. split; [cbn; by rewrite L|]. split.
  - intros x [->|?]%elem_of_cons; [done|by apply A].
  - intros k h Hv. rewrite (B k h Hv), (G k h Hv). unfold handed. rewrite fmap_cons. cbn [snd].
    destruct k; cbn [counted] in Hv; try done; destruct o; unfold given, sumZ; cbn [foldr]; repeat case_decide; cbn [foldr]; try done; lia.
Qed.

End Serve.

(** serving requests leaks nothing and never ends the process: for a
    driver whose entry points all exist, every sequence of GPU and CPU
    requests is answered, each answer is an error below zero or 0 with a
    descriptor, and afterwards no image and no memory is outstanding and the
    open descriptors are exactly those handed out. *)
Theorem vtest_serves_without_leak (H : host) (l : list request) :
  null_on_failure H -> all_entry_points H -> immutable_modifiers H ->
  exists rs w, serve_all H l vstart = (Some rs, w) /\ length rs = length l /\
    (forall x, x ∈ rs -> match x.2 with None => x.1 < 0 | Some out => x.1 = 0 /\ 0 <= o_fd out end) /\
    (forall h, h <> 0 -> balance KImage h (vtr w) = 0 /\ balance KMemory h (vtr w) = 0) /\
    (forall fd, 0 <= fd -> balance KFd fd (vtr w) = handed fd rs).
Proof.
  intros Hnf Hfn Him. pose proof (serve_all_spec H Hnf Hfn Him l vstart (vinv_start H)) as S. unfold wp in S.
  destruct (serve_all H l vstart) as [a w]. destruct S as (_ & rs & E & L & A & B). cbn [fst snd] in *. subst a.
  exists rs, w. split_and!; try done.
  - intros h Hh. split; by rewrite B.
  - intros fd Hfd. by rewrite B.
Qed.

(** the modifier cache is invisible: in every state reached by serving
    requests, looking a format's modifiers up (cached or not) gives exactly
    the list an uncached query selects, and fails only when that query itself
    is refused (more than 4096 entries, or no memory); the eight-entry limit
    is never the reason, because at most six formats are ever cached. *)
Theorem vtest_cache_invisible (H : host) (l : list request) (f : Z) :
  null_on_failure H -> all_entry_points H -> immutable_modifiers H ->
  drm_format_to_vk f <> VK_FORMAT_UNDEFINED ->
  let w := (serve_all H l vstart).2 in
  (length (v_cache (vk w)) <= 6)%nat /\
  match (tiled_modifiers H (drm_format_to_vk f) w).1 with
  | Some (Some mods) => mods = query_modifiers H (drm_format_to_vk f)
  | Some None => 4096 < h_mod_count H [] (drm_format_to_vk f) \/ h_calloc H (vtr w) = false
  | None => v_GetPhysicalDeviceFormatProperties2 (vk w) = false
  end.
Proof.
  intros Hnf Hfn Him Hf w. destruct (serve_all_spec H Hnf Hfn Him l vstart (vinv_start H)) as [[C _] _]. fold w in C.
  split; [by eapply cache_length|]. apply drm_format_vk_formats in Hf.
  destruct (modifiers_spec H (drm_format_to_vk f) w Him C Hf) as (_ & _ & _ & _ & M). exact M.
Qed.

(** ** Witnesses *)

Definition demo_gpu : gpu := mk_gpu 7 true [DEV_EXT_DMA_BUF; DEV_EXT_MODIFIER] "NVIDIA".

(** A working host; [fns] and [image] vary below. *)
Definition host_with (fns : bool * bool * bool) (image : Z * Z) : host := mk_host true true true
  (fun _ => (0, 101)) (fun _ => (0, [demo_gpu])) None (fun _ => [1; 14]) (fun _ _ => (0, 102)) (fun _ => fns)
  (fun _ _ => 2) (fun _ => true)
  (fun _ _ => [mk_modprops 0 1 0x83; mk_modprops 0x0300000000606010 1 0x83])
  (fun t _ => (image.1, image.2)) (fun _ _ => mk_reqs 3145728 65536 3)
  (fun t _ _ => (0, 2000 + Z.of_nat (length t))) (fun _ _ _ => 0) (fun _ _ => (0, 0x0300000000606010))
  (fun _ _ => mk_layout 0 1024 0) (fun t _ => (0, 30 + Z.of_nat (length t)))
  (fun t => 50 + Z.of_nat (length t)) (fun _ _ => 0) (fun t => 50 + Z.of_nat (length t))
  (fun t _ => 50 + Z.of_nat (length t)).
Definition demo_host : host := host_with (true, true, true) (0, 1000).

Definition demo_requests : list request :=
  [GpuRequest 200 100 DRM_FORMAT_ABGR8888; CpuRequest 1920 1080 DRM_FORMAT_NV12; GpuRequest 64 64 DRM_FORMAT_XBGR8888].

Lemma vtest_cpu_alloc_sound_witness :
  exists out, vtest_gpu_alloc_cpu demo_host 1920 1080 DRM_FORMAT_NV12 vstart =
      ((0, Some out), (vtest_gpu_alloc_cpu demo_host 1920 1080 DRM_FORMAT_NV12 vstart).2) /\
    o_stride out = 2048 /\ 2048 * 1080 + 2048 * 540 <= o_size out.
Proof.
  destruct (vtest_cpu_alloc_sound demo_host 1920 1080 DRM_FORMAT_NV12 vstart
    (vtest_gpu_alloc_cpu demo_host 1920 1080 DRM_FORMAT_NV12 vstart).2 0 (Some (mk_outs 2048 0 3317760 52)))
    as (_ & _ & _ & _ & _ & _ & _ & H & _).
  1-2: vm_compute; split; congruence.
  1: intros _; vm_compute; reflexivity.
  1: vm_compute; reflexivity.
  exists (mk_outs 2048 0 3317760 52). split_and!; [vm_compute; reflexivity|reflexivity|exact H].
Defined.

Lemma demo_host_ok : null_on_failure demo_host /\ all_entry_points demo_host /\ immutable_modifiers demo_host.
Proof. split_and!; [|by intros t|by intros t f]. intros t i r h. cbn. by intros [= <- <-]. Qed.

Lemma vtest_serves_without_leak_witness :
  exists rs w, serve_all demo_host demo_requests vstart = (Some rs, w) /\ length rs = 3%nat /\
    (forall fd, 0 <= fd -> balance KFd fd (vtr w) = handed fd rs) /\
    forallb (fun a => a.1 =? 0) rs = true.
Proof.
  destruct (vtest_serves_without_leak demo_host demo_requests) as (rs & w & E & L & _ & _ & B); [apply demo_host_ok..|].
  exists rs, w. split; [done|]. split; [done|]. split; [done|].
  assert (Some rs = (serve_all demo_host demo_requests vstart).1) as Er by (by rewrite E).
  vm_compute in Er. injection Er as ->. reflexivity.
Defined.

Lemma vtest_cache_invisible_witness :
  let w := (serve_all demo_host demo_requests vstart).2 in
  length (v_cache (vk w)) = 1%nat /\
  (tiled_modifiers demo_host (drm_format_to_vk DRM_FORMAT_ABGR8888) w).1 = Some (Some [0x0300000000606010]).
Proof.
  destruct (vtest_cache_invisible demo_host demo_requests DRM_FORMAT_ABGR8888) as [_ H]; [apply demo_host_ok..|done|].
  split; [vm_compute; reflexivity|]. revert H.
  destruct (tiled_modifiers demo_host _ _) as [[[mods|]|] w'] eqn:E; cbn [fst].
  - intros ->. vm_compute. reflexivity.
  - exfalso. vm_compute in E. discriminate.
  - exfalso. vm_compute in E. discriminate.
Defined.

(** A driver without one of the checked entry points: the first request is
    refused, but the device stays set, so the second one takes the setup for
    done and calls through NULL. *)
Lemma missing_entry_point_is_called :
  let H := host_with (true, false, true) (0, 1000) in
  (serve H (GpuRequest 64 64 DRM_FORMAT_ABGR8888) vstart).1 = Some (- ENODEV, None) /\
  (serve_all H [GpuRequest 64 64 DRM_FORMAT_ABGR8888; GpuRequest 64 64 DRM_FORMAT_ABGR8888] vstart).1 = None.
Proof. split; vm_compute; reflexivity. Qed.

(** A driver that leaves something in the handle of a failed vkCreateImage: it
    is destroyed although no image was created. *)
Lemma failed_image_is_destroyed :
  let H := host_with (true, true, true) (-1, 1000) in
  balance KImage 1000 (vtr (serve H (GpuRequest 64 64 DRM_FORMAT_ABGR8888) vstart).2) = -1.
Proof. vm_compute. reflexivity. Qed.

(** NV12 of the maximal height: [height + 1] wraps, and the size leaves out
    the UV plane. *)
Lemma nv12_height_wraps : cpu_size 256 UINT32_MAX DRM_FORMAT_NV12 = cpu_size 256 UINT32_MAX DRM_FORMAT_R8.
Proof. vm_compute. reflexivity. Qed.

End VtestAlloc.
