(* ===== verification/VtestWrapper.v ===== *)
(** * The guest-side allocator wrapper ([minigbm-vtest/vtest_wrapper.c])

    The guest's gbm backend: every allocation is a request over a unix socket
    to the host's vtest server, answered by nine words and, on success, one
    descriptor.  Modelled: the socket loops with interrupted, short and failing
    system calls, the connection handshake and the single reconnect, the
    response checks, and the buffers a client imports and maps.

    The kernel's answers are functions of the calls made so far.  An
    interrupted call is repeated; the kernel interrupts it any finite number
    of times.  Bytes are [Z] in 0..255, words little-endian (the wire format is
    the host's memory image; both ends are little-endian machines). *)

From Stdlib Require Import ZArith Lia.
From stdpp Require Import base option sets strings gmap list.
From S2P Require Import Prelude Vulkan GrallocFormat GrallocAlloc VtestAlloc.

Set Default Goal Selector "!".
#[local] Open Scope Z_scope.

Module VtestWrapper.
Import Vk.
Import GrallocAlloc(alloc_args, mk_args, a_gbm, a_width, a_height, a_drm_format, a_force_linear,
  a_needs_map_stride, a_out_fd, a_out_stride, a_out_modifier, a_out_map_stride, set_out).

Definition VCMD_CREATE_RENDERER : Z := 8.
Definition VCMD_RESOURCE_ALLOC_GPU : Z := 41.
Definition VCMD_ALLOC_GPU_FLAG_MAPPABLE : Z := 1.
Definition VCMD_ALLOC_GPU_FLAG_SCANOUT : Z := 2.
Definition VCMD_RESOURCE_ALLOC_GPU_RESP_SIZE : Z := 7.
Definition DEFAULT_SOCKET : string := "/dev/venus/venus.sock".
Definition MAP_FAILED : Z := -1.
Definition NULL : Z := 0.

(** ** Words on the wire *)

Definition le32 (w : Z) : list Z := [w mod 256; w / 2 ^ 8 mod 256; w / 2 ^ 16 mod 256; w / 2 ^ 24 mod 256].
Definition words_bytes (l : list Z) : list Z := concat (le32 <$> l).
Fixpoint bytes_words (l : list Z) : list Z :=
  match l with
  | a :: b :: c :: d :: l => (a + b * 2 ^ 8 + c * 2 ^ 16 + d * 2 ^ 24) :: bytes_words l
  | _ => []
  end.

(** ** State *)

Record vtest_bo := mk_vbo { vb_fd : Z; vb_size : Z; vb_map : Z }.

Record gworld := mk_gw {
  sock : Z;                  (** [dev->sock] *)
  vbos : gmap Z vtest_bo;    (** imported buffers by address *)
  gnext : Z;
  gtr : trace;
}.
Definition gstart : gworld := mk_gw (-1) ∅ 1 [].

(** A received control message: is it a well-formed SCM_RIGHTS, and its
    descriptors. *)
Record cmsg := mk_cmsg { c_rights : bool; c_fds : list Z }.

Record kernel := mk_kernel {
  k_prop : trace -> string;                               (** mesa.vtest.socket.name *)
  k_socket : trace -> Z;
  k_connect : trace -> Z -> Z;
  k_setsockopt : trace -> Z -> Z -> Z;
  k_send : trace -> Z -> nat -> nat * Z;                  (** interrupted tries, then the result *)
  k_read : trace -> Z -> nat -> nat * list Z;             (** no bytes: end of file or an error *)
  k_recvmsg : trace -> Z -> nat * option (list cmsg * bool);  (** messages, truncated *)
  k_calloc : trace -> bool;
  k_lseek : trace -> Z -> Z;
  k_dup : trace -> Z -> Z;
  k_mmap : trace -> Z -> Z -> Z;
}.

(** Documented behaviour: no more bytes than asked for, and bytes; received
    descriptors are valid; a mapping that succeeds is not at address 0. *)
Class KernelLaws (K : kernel) : Prop := {
  kl_send t fd n : (k_send K t fd n).2 <= Z.of_nat n;
  kl_read t fd n : (length (k_read K t fd n).2 <= n)%nat;
  kl_bytes t fd n : Forall (fun b => 0 <= b < 256) (k_read K t fd n).2;
  kl_rights t fd n cs b c : k_recvmsg K t fd = (n, Some (cs, b)) -> c ∈ cs -> Forall (fun x => 0 <= x) (c_fds c);
  kl_mmap t fd n : k_mmap K t fd n <> NULL;
}.

Definition gev (e : event) : M gworld () := modS (fun w => mk_gw (sock w) (vbos w) (gnext w) (gtr w ++ [e])).
Definition gask {A} (f : trace -> A) : M gworld A := fun w => (f (gtr w), w).
Definition set_sock (s : Z) : M gworld () := modS (fun w => mk_gw s (vbos w) (gnext w) (gtr w)).
Definition put_vbo (p : Z) (b : vtest_bo) : M gworld () :=
  modS (fun w => mk_gw (sock w) (<[p := b]> (vbos w)) (gnext w) (gtr w)).
Definition del_vbo (p : Z) : M gworld () :=
  modS (fun w => mk_gw (sock w) (delete p (vbos w)) (gnext w) (gtr w)).
Definition close (fd : Z) : M gworld () := gev (Destroyed KFd fd).
Definition whenG (b : bool) (m : M gworld ()) : M gworld () := if b then m else mret tt.

(** [n] tries that were interrupted, then one that moved [bytes]. *)
Fixpoint tries (what : string) (n : nat) (fd : Z) (bytes : list Z) : M gworld () :=
  match n with
  | O => gev (Called what (fd :: bytes))
  | S n => _ ← gev (Called what [fd]); tries what n fd bytes
  end.

Section Kernel.
Context (K : kernel).

(** ** Socket plumbing *)

(** Every pass moves at least one byte, so [length buf] passes are enough. *)
Fixpoint write_loop (fuel : nat) (fd : Z) (buf : list Z) : M gworld Z :=
  match buf, fuel with
  | [], _ => mret 0
  | _, O => mret (-1)
  | _, S fuel =>
      '(eintr, n) ← gask (fun t => k_send K t fd (length buf));
      _ ← tries "send" eintr fd (take (Z.to_nat n) buf);
      if n <=? 0 then mret (-1)
      else write_loop fuel fd (drop (Z.to_nat n) buf)
  end.
Definition sock_write_all (fd : Z) (buf : list Z) : M gworld Z := write_loop (length buf) fd buf.

(** [None] is -1; otherwise the bytes read. *)
Fixpoint read_loop (fuel : nat) (fd : Z) (len : nat) (acc : list Z) : M gworld (option (list Z)) :=
  match len, fuel with
  | O, _ => mret (Some acc)
  | _, O => mret None
  | _, S fuel =>
      '(eintr, bytes) ← gask (fun t => k_read K t fd len);
      _ ← tries "read" eintr fd bytes;
      if bool_decide (bytes = []) then mret None
      else read_loop fuel fd (len - length bytes) (acc ++ bytes)
  end.
Definition sock_read_all (fd : Z) (len : nat) : M gworld (option (list Z)) := read_loop len fd len [].

(** The descriptors of the SCM_RIGHTS messages, in order. *)
Definition rights (l : list cmsg) : list Z := concat (c_fds <$> filter (fun c => c_rights c = true) l).

(** The kernel installs each descriptor it delivers. *)
Fixpoint arrive (l : list Z) : M gworld () :=
  match l with
  | [] => mret tt
  | fd :: l => _ ← gev (Created KFd true fd); arrive l
  end.
Fixpoint close_all (l : list Z) : M gworld () :=
  match l with
  | [] => mret tt
  | fd :: l => _ ← close fd; close_all l
  end.

(** The first descriptor is kept, the others are closed; unless there was
    exactly one and nothing was cut off, it is closed too. *)
Definition sock_recv_fd (s : Z) : M gworld Z :=
  '(eintr, m) ← gask (fun t => k_recvmsg K t s);
  _ ← tries "recvmsg" eintr s [];
  match m with
  | None => mret (-1)
  | Some (cs, truncated) =>
      let fds := rights cs in
      _ ← arrive fds;
      let received := default (-1) (head fds) in
      _ ← close_all (tail fds);
      if negb (length fds =? 1)%nat || truncated
      then (_ ← whenG (0 <=? received) (close received); mret (-1))
      else mret received
  end.

Definition renderer_name : list Z := [103; 114; 97; 108; 108; 111; 99; 0].   (** "gralloc" *)
Definition handshake : list (list Z) :=
  [words_bytes [Z.of_nat (length renderer_name); VCMD_CREATE_RENDERER]; renderer_name].

(** Close the new socket and fail. *)
Definition connect_fail (s : Z) : M gworld Z := _ ← close s; mret (-1).

Definition vtest_connect : M gworld Z :=
  prop ← gask (k_prop K);
  let path := if bool_decide (prop = "")%string then DEFAULT_SOCKET else prop in
  s ← gask (k_socket K);
  _ ← gev (Created KFd (0 <=? s) s);
  if s <? 0 then mret (-1)
  else
  r ← gask (fun t => k_connect K t s);
  _ ← gev (Called ("connect:" ++ path) [s; r]);
  if negb (r =? 0) then connect_fail s
  else
  r1 ← gask (fun t => k_setsockopt K t s 0);
  r2 ← (if r1 =? 0 then gask (fun t => k_setsockopt K t s 1) else mret r1);
  if negb (r2 =? 0) then connect_fail s
  else
  r ← sock_write_all s (words_bytes [Z.of_nat (length renderer_name); VCMD_CREATE_RENDERER]);
  if negb (r =? 0) then connect_fail s
  else
  r ← sock_write_all s renderer_name;
  if negb (r =? 0) then connect_fail s
  else mret s.

(** ** Formats, devices *)

Definition vtest_get_gbm_format (f : Z) : Z :=
  if (f =? DRM_FORMAT_R8) || (f =? DRM_FORMAT_RGB565) || (f =? DRM_FORMAT_XRGB8888) || (f =? DRM_FORMAT_ARGB8888)
     || (f =? DRM_FORMAT_XBGR8888) || (f =? DRM_FORMAT_ABGR8888) || (f =? DRM_FORMAT_ABGR2101010)
     || (f =? DRM_FORMAT_ABGR16161616F) || (f =? DRM_FORMAT_NV12)
  then f else 0.

Definition vtest_dev_destroy : M gworld () :=
  w ← getS;
  whenG (0 <=? sock w) (close (sock w)).

(** ** Allocation *)

Definition alloc_flags (a : alloc_args) (scanout : bool) : Z :=
  Z.lor (if a_force_linear a || a_needs_map_stride a || (a_drm_format a =? DRM_FORMAT_NV12)
         then VCMD_ALLOC_GPU_FLAG_MAPPABLE else 0)
        (if scanout then VCMD_ALLOC_GPU_FLAG_SCANOUT else 0).

Definition alloc_request (a : alloc_args) (scanout : bool) : list Z :=
  words_bytes [4; VCMD_RESOURCE_ALLOC_GPU; a_width a; a_height a; a_drm_format a; alloc_flags a scanout].

Definition resp_bytes : nat := 36.   (** nine words *)

Definition drop_sock (s : Z) : M gworld () := _ ← close s; set_sock (-1).

(** The attempts left; [None]: no response. *)
Fixpoint attempt (n : nat) (req : list Z) : M gworld (option (list Z)) :=
  match n with
  | O => mret None
  | S n =>
      w ← getS;
      _ ← (if sock w <? 0 then (s ← vtest_connect; set_sock s) else mret tt);
      w ← getS;
      if sock w <? 0 then mret None
      else
      r ← sock_write_all (sock w) req;
      resp ← (if r =? 0 then sock_read_all (sock w) resp_bytes else mret None);
      match resp with
      | Some b => mret (Some b)
      | None => _ ← drop_sock (sock w); attempt n req
      end
  end.

Definition vtest_alloc (a : alloc_args) (scanout : bool) : M gworld (Z * alloc_args) :=
  resp ← attempt 2 (alloc_request a scanout);
  match resp with
  | None => mret (- ENODEV, a)
  | Some b =>
      let d := bytes_words b in
      let word i := default 0 (d !! (i : nat)) in
      w ← getS;
      if negb (word 0%nat =? VCMD_RESOURCE_ALLOC_GPU_RESP_SIZE) || negb (word 1%nat =? VCMD_RESOURCE_ALLOC_GPU)
      then (_ ← drop_sock (sock w); mret (- EPROTO, a))
      else if negb (word 2%nat =? 0) then mret (- i32 (word 2%nat), a)
      else
      fd ← sock_recv_fd (sock w);
      if fd <? 0 then (_ ← drop_sock (sock w); mret (- EIO, a))
      else mret (0, set_out a fd (word 3%nat) (Z.lor (word 5%nat) (Z.shiftl (word 6%nat) 32)) (word 4%nat))
  end.

(** ** Imported buffers *)

Definition galloc : M gworld Z :=
  ok ← gask (k_calloc K);
  w ← getS;
  let p := if ok : bool then gnext w else NULL in
  _ ← modS (fun w => mk_gw (sock w) (vbos w) (gnext w + 1) (gtr w));
  _ ← gev (Created KHeap ok p);
  mret p.
Definition gfree (p : Z) : M gworld () := gev (Destroyed KHeap p).

Definition vtest_import (buf_fd : Z) : M gworld Z :=
  p ← galloc;
  if p =? NULL then mret NULL
  else
  size ← gask (fun t => k_lseek K t buf_fd);
  if size <=? 0 then (_ ← gfree p; mret NULL)
  else
  fd ← gask (fun t => k_dup K t buf_fd);
  _ ← gev (Created KFd (0 <=? fd) fd);
  if fd <? 0 then (_ ← gfree p; mret NULL)
  else (_ ← put_vbo p (mk_vbo fd size NULL); mret p).

Definition vtest_free (p : Z) : M gworld () :=
  w ← getS;
  match vbos w !! p with
  | None => mret tt
  | Some b =>
      _ ← whenG (negb (vb_map b =? NULL)) (gev (Destroyed KMapping (vb_map b)));
      _ ← close (vb_fd b);
      _ ← gfree p;
      del_vbo p
  end.

(** The address and [map_data]; both NULL on failure. *)
Definition vtest_map (p : Z) : M gworld (Z * Z) :=
  w ← getS;
  match vbos w !! p with
  | None => mret (NULL, NULL)
  | Some b =>
      if negb (vb_map b =? NULL) then mret (vb_map b, vb_map b)
      else
      a ← gask (fun t => k_mmap K t (vb_fd b) (vb_size b));
      _ ← gev (Created KMapping (negb (a =? MAP_FAILED)) a);
      if a =? MAP_FAILED then mret (NULL, NULL)
      else (_ ← put_vbo p (mk_vbo (vb_fd b) (vb_size b) a); mret (a, a))
  end.

(** The mapping stays until the buffer is freed. *)
Definition vtest_unmap (p : Z) : M gworld () := mret tt.

End Kernel.

(** ** What went over the wire *)

Definition payload (what : string) (e : event) : list Z :=
  match e with
  | Called s (_ :: bytes) => if bool_decide (s = what) then bytes else []
  | _ => []
  end.
Definition wire (what : string) (t : trace) : list Z := concat (payload what <$> t).

Lemma wire_app what t u : wire what (t ++ u) = wire what t ++ wire what u.
Proof. unfold wire. by rewrite fmap_app, concat_app. Qed.

Definition add_tr (w : gworld) (t : trace) : gworld := mk_gw (sock w) (vbos w) (gnext w) (gtr w ++ t).

Lemma add_tr_app w t u : add_tr (add_tr w t) u = add_tr w (t ++ u).
Proof. unfold add_tr. cbn. by rewrite app_assoc. Qed.
Lemma add_tr_nil w : add_tr w [] = w.
Proof. unfold add_tr. rewrite app_nil_r. by destruct w. Qed.

(** Calls that move bytes and no descriptors. *)
Definition is_io (e : event) : Prop :=
  match e with Called s _ => s = "send"%string \/ s = "read"%string \/ s = "recvmsg"%string | _ => False end.
Definition io (t : trace) : Prop := Forall is_io t.

Definition is_connect (e : event) : bool :=
  match e with Called s _ => String.prefix "connect:" s | _ => false end.
Definition connects (t : trace) : nat := countb is_connect t.

Lemma io_balance t k h : io t -> balance k h t = 0.
Proof.
  induction 1 as [|e t He F IH]; [done|]. change (e :: t) with ([e] ++ t). rewrite balance_app, IH.
  destruct e; try done.
Qed.
Lemma io_connects t : io t -> connects t = 0%nat.
Proof.
  unfold connects. induction 1 as [|e t He F IH]; [done|]. cbn. rewrite IH. destruct e; try done.
  cbn in He. destruct He as [->|[->| ->]]; done.
Qed.

Lemma tries_run what n fd bytes w :
  tries what n fd bytes w = (tt, add_tr w (replicate n (Called what [fd]) ++ [Called what (fd :: bytes)])).
Proof.
  revert w. induction n as [|n IH]; intros w; cbn [tries]; [done|].
  rewrite bind_run. cbn [gev modS fst snd]. rewrite IH. f_equal. unfold add_tr. cbn. by rewrite <- app_assoc.
Qed.

Lemma wire_tries what what' n fd bytes :
  wire what' (replicate n (Called what [fd]) ++ [Called what (fd :: bytes)]) =
  if bool_decide (what = what') then bytes else [].
Proof.
  induction n as [|n IH]; cbn.
  - unfold wire. cbn. rewrite app_nil_r. done.
  - unfold wire in *. cbn. rewrite IH. by destruct (bool_decide (what = what')).
Qed.

Lemma io_tries what n fd bytes :
  what = "send"%string \/ what = "read"%string \/ what = "recvmsg"%string ->
  io (replicate n (Called what [fd]) ++ [Called what (fd :: bytes)]).
Proof. intros H. apply Forall_app. split; [by apply Forall_replicate|]. by constructor. Qed.

(** ** The socket loops *)

Section Loops.
Context (K : kernel) `{HK : !KernelLaws K}.

Lemma write_loop_spec fuel fd buf w :
  (length buf <= fuel)%nat ->
  exists r t, write_loop K fuel fd buf w = (r, add_tr w t) /\ io t /\ wire "read" t = [] /\
    ((r = 0 /\ wire "send" t = buf) \/
     (r = -1 /\ exists n, (n < length buf)%nat /\ wire "send" t = take n buf)).
Proof.
  revert buf w. induction fuel as [|fuel IH]; intros buf w Hl.
  { destruct buf; [|cbn in Hl; lia]. exists 0, []. rewrite add_tr_nil. split_and!; [done|constructor|done|by left]. }
  destruct buf as [|b0 buf0]; [exists 0, []; rewrite add_tr_nil; split_and!; [done|constructor|done|by left]|].
  set (buf := b0 :: buf0) in *. change (write_loop K (S fuel) fd buf w) with
    ((mbind (M:=M gworld) (fun '(eintr, n) => _ ← tries "send" eintr fd (take (Z.to_nat n) buf);
      if n <=? 0 then mret (-1) else write_loop K fuel fd (drop (Z.to_nat n) buf))
      (gask (fun t => k_send K t fd (length buf)))) w).
  rewrite bind_run. cbn [gask fst snd]. pose proof (kl_send (gtr w) fd (length buf)) as Hn.
  destruct (k_send K (gtr w) fd (length buf)) as [e n]. cbn [snd] in Hn. rewrite bind_run, tries_run. cbn [fst snd].
  set (t0 := replicate e _ ++ _).
  assert (Io0 : io t0) by (apply io_tries; auto).
  assert (W0 : wire "send" t0 = take (Z.to_nat n) buf) by (unfold t0; by rewrite wire_tries).
  assert (R0 : wire "read" t0 = []) by (unfold t0; by rewrite wire_tries).
  destruct (Z.leb_spec n 0) as [Hz|Hz].
  - exists (-1), t0. split_and!; try done. right. split; [done|]. exists 0%nat. split; [cbn; lia|].
    rewrite W0. by replace (Z.to_nat n) with 0%nat by lia.
  - destruct (IH (drop (Z.to_nat n) buf) (add_tr w t0)) as (r & t & E & Io & Rd & Hr).
    { rewrite length_drop. lia. }
    exists r, (t0 ++ t). rewrite E, add_tr_app. split; [done|]. split; [by apply Forall_app|].
    rewrite !wire_app, R0, Rd, W0. split; [done|]. destruct Hr as [[-> ->]|(-> & m & Hm & ->)].
    + left. split; [done|]. apply take_drop.
    + right. split; [done|]. exists (Z.to_nat n + m)%nat. rewrite length_drop in Hm. split; [lia|].
      by rewrite take_take_drop.
Qed.

Lemma read_loop_spec fuel fd len acc w :
  (len <= fuel)%nat ->
  exists r t, read_loop K fuel fd len acc w = (r, add_tr w t) /\ io t /\ wire "send" t = [] /\
    match r with
    | None => (length (wire "read" t) < len)%nat
    | Some b => exists b', b = acc ++ b' /\ length b' = len /\ wire "read" t = b' /\ Forall (fun x => 0 <= x < 256) b'
    end.
Proof.
  revert len acc w. induction fuel as [|fuel IH]; intros len acc w Hl.
  { destruct len; [|lia]. exists (Some acc), []. rewrite add_tr_nil. split_and!; [done|constructor|done|].
    exists []. by rewrite app_nil_r. }
  destruct len as [|len0].
  { exists (Some acc), []. rewrite add_tr_nil. split_and!; [done|constructor|done|]. exists []. by rewrite app_nil_r. }
  set (len := S len0) in *. change (read_loop K (S fuel) fd len acc w) with
    ((mbind (M:=M gworld) (fun '(eintr, bytes) => _ ← tries "read" eintr fd bytes;
      if bool_decide (bytes = []) then mret None else read_loop K fuel fd (len - length bytes) (acc ++ bytes))
      (gask (fun t => k_read K t fd len))) w).
  rewrite bind_run. cbn [gask fst snd]. pose proof (kl_read (gtr w) fd len) as Hn. pose proof (kl_bytes (gtr w) fd len) as Hb.
  destruct (k_read K (gtr w) fd len) as [e bytes]. cbn [snd] in Hn, Hb. rewrite bind_run, tries_run. cbn [fst snd].
  set (t0 := replicate e _ ++ _).
  assert (Io0 : io t0) by (apply io_tries; auto).
  assert (W0 : wire "send" t0 = []) by (unfold t0; by rewrite wire_tries).
  assert (R0 : wire "read" t0 = bytes) by (unfold t0; by rewrite wire_tries).
  case_bool_decide as Hz; [exists None, t0; split_and!; [done..|rewrite R0, Hz; cbn; lia]|].
  destruct (IH (len - length bytes)%nat (acc ++ bytes) (add_tr w t0)) as (r & t & E & Io & Rd & Hr).
  { destruct bytes; [done|]. cbn. lia. }
  exists r, (t0 ++ t). rewrite E, add_tr_app. split; [done|]. split; [by apply Forall_app|].
  rewrite !wire_app, W0, Rd. split; [done|].
  destruct r as [b|]; [|rewrite length_app, R0; lia].
  destruct Hr as (b' & -> & Hlen & Hw & Hf). exists (bytes ++ b'). rewrite app_assoc, length_app, R0, Hw.
  split_and!; [done|lia|done|by apply Forall_app].
Qed.

End Loops.

(** the socket loops end whatever short transfers, interruptions and
    errors the kernel answers with.  A send that succeeds put exactly the
    buffer's bytes on the wire, each once and in order; one that fails a proper
    prefix of them.  A receive that succeeds returns exactly the requested
    number of bytes, the ones delivered, in order; one that fails got fewer. *)
Theorem sock_loops_exact (K : kernel) (laws : KernelLaws K) (fd : Z) (buf : list Z) (len : nat) (w : gworld) :
  (exists r t, sock_write_all K fd buf w = (r, add_tr w t) /\
    ((r = 0 /\ wire "send" t = buf) \/
     (r = -1 /\ exists n, (n < length buf)%nat /\ wire "send" t = take n buf))) /\
  (exists r t, sock_read_all K fd len w = (r, add_tr w t) /\
    match r with
    | Some b => length b = len /\ wire "read" t = b
    | None => (length (wire "read" t) < len)%nat
    end).
Proof.
  split.
  - destruct (write_loop_spec K (length buf) fd buf w) as (r & t & ? & ? & ? & ?); [done|]. by exists r, t.
  - destruct (read_loop_spec K len fd len [] w) as (r & t & E & _ & _ & H); [done|]. exists r, t. split; [done|].
    destruct r as [b|]; [|done]. by destruct H as (b' & -> & ? & ? & _).
Qed.

(** ** Words *)

Lemma le32_length w : length (le32 w) = 4%nat.
Proof. done. Qed.

Lemma bytes_words_cons w l : is_u32 w -> bytes_words (le32 w ++ l) = w :: bytes_words l.
Proof.
  intros Hw. cbn -[Z.mul Z.pow Z.div Z.modulo]. f_equal. unfold is_u32 in Hw.
  change (2 ^ 8) with 256. change (2 ^ 16) with 65536. change (2 ^ 24) with 16777216.
  pose proof (Z.div_mod w 256 ltac:(lia)).
  pose proof (Z.div_mod (w / 256) 256 ltac:(lia)) as H1. rewrite Z.div_div in H1 by lia.
  pose proof (Z.div_mod (w / 65536) 256 ltac:(lia)) as H2. rewrite Z.div_div in H2 by lia.
  change (256 * 256) with 65536 in *. change (65536 * 256) with 16777216 in *.
  rewrite (Z.mod_small (w / 16777216)) by (split; [apply Z.div_pos; lia|apply Z.div_lt_upper_bound; lia]). lia.
Qed.

(** Decoding the bytes of any list of 32-bit words gives the words back. *)
Lemma words_roundtrip (l : list Z) : Forall is_u32 l -> bytes_words (words_bytes l) = l.
Proof.
  unfold words_bytes. induction 1 as [|w l Hw F IH]; [done|]. rewrite fmap_cons. cbn [concat].
  by rewrite bytes_words_cons, IH.
Qed.

Definition is_byte (x : Z) : Prop := 0 <= x < 256.

(** Four bytes per word, and back. *)
Lemma bytes_words_inv n b :
  length b = (4 * n)%nat -> Forall is_byte b ->
  length (bytes_words b) = n /\ Forall is_u32 (bytes_words b) /\ words_bytes (bytes_words b) = b.
Proof.
  revert b. induction n as [|n IH]; intros b Hl Hb.
  { destruct b; [|done]. by split_and!. }
  destruct b as [|x [|y [|z [|u b]]]]; cbn in Hl; try lia.
  apply Forall_cons in Hb as [Hx Hb]. apply Forall_cons in Hb as [Hy Hb]. apply Forall_cons in Hb as [Hz Hb].
  apply Forall_cons in Hb as [Hu Hb]. destruct (IH b) as (L & F & E); [lia|done|]. unfold is_byte in *.
  change (bytes_words (x :: y :: z :: u :: b)) with ((x + y * 2 ^ 8 + z * 2 ^ 16 + u * 2 ^ 24) :: bytes_words b).
  change (2 ^ 8) with 256. change (2 ^ 16) with 65536. change (2 ^ 24) with 16777216.
  set (v := x + y * 256 + z * 65536 + u * 16777216).
  split; [cbn; by rewrite L|]. split; [constructor; [unfold is_u32, v; lia|done]|].
  unfold words_bytes in *. rewrite fmap_cons. cbn [concat]. rewrite E. unfold le32.
  change (2 ^ 8) with 256. change (2 ^ 16) with 65536. change (2 ^ 24) with 16777216.
  assert (v mod 256 = x) as ->.
  { replace v with (x + (y + z * 256 + u * 65536) * 256) by (unfold v; lia). rewrite Z.mod_add by lia. apply Z.mod_small; lia. }
  assert (v / 256 = y + (z + u * 256) * 256) as ->.
  { replace v with (x + (y + z * 256 + u * 65536) * 256) by (unfold v; lia). rewrite Z.div_add, Z.div_small by lia. lia. }
  assert (v / 65536 = z + u * 256) as ->.
  { replace v with (x + y * 256 + (z + u * 256) * 65536) by (unfold v; lia). rewrite Z.div_add, Z.div_small by lia. lia. }
  assert (v / 16777216 = u) as ->.
  { replace v with (x + y * 256 + z * 65536 + u * 16777216) by (unfold v; lia). rewrite Z.div_add, Z.div_small by lia. lia. }
  rewrite !Z.mod_add, !Z.mod_small by lia. done.
Qed.

(** the request on the wire: the server decodes six words, the command,
    the size and format asked for, and flags in which MAPPABLE is set exactly
    for a buffer that must be linear or CPU-mappable (NV12 always), SCANOUT
    exactly for a scanout buffer. *)
Theorem vtest_request_decodes (a : alloc_args) (scanout : bool) :
  is_u32 (a_width a) -> is_u32 (a_height a) -> is_u32 (a_drm_format a) ->
  exists flags, bytes_words (alloc_request a scanout) =
      [4; VCMD_RESOURCE_ALLOC_GPU; a_width a; a_height a; a_drm_format a; flags] /\
    (has_any flags VCMD_ALLOC_GPU_FLAG_MAPPABLE = true <->
       a_force_linear a = true \/ a_needs_map_stride a = true \/ a_drm_format a = DRM_FORMAT_NV12) /\
    has_any flags VCMD_ALLOC_GPU_FLAG_SCANOUT = scanout.
Proof.
  intros Hw Hh Hf. exists (alloc_flags a scanout). unfold alloc_request. rewrite words_roundtrip.
  - split; [done|]. unfold alloc_flags.
    destruct (a_force_linear a), (a_needs_map_stride a), (Z.eqb_spec (a_drm_format a) DRM_FORMAT_NV12), scanout;
      split; vm_compute; naive_solver.
  - assert (is_u32 (alloc_flags a scanout)) by (unfold alloc_flags; repeat case_match; by split).
    repeat apply Forall_cons_2; try done; by split.
Qed.

(** ** Who owns the descriptors *)

Definition owns (s h : Z) : Z := if decide (s = h) then 1 else 0.

(** Descriptors outstanding and not held as the device's socket. *)
Definition loose (w : gworld) (h : Z) : Z := balance KFd h (gtr w) - owns (sock w) h.

Lemma owns_neg s h : s < 0 -> 0 <= h -> owns s h = 0.
Proof. intros Hs Hh. unfold owns. rewrite decide_False; [done|lia]. Qed.

(** A step of the socket code: the trace grows by [t], buffers stay. *)
Record grown (w w' : gworld) (t : trace) : Prop := {
  gr_tr : gtr w' = gtr w ++ t;
  gr_bos : vbos w' = vbos w;
  gr_next : gnext w' = gnext w;
}.

Lemma grown_add w t : grown w (add_tr w t) t.
Proof. done. Qed.
Lemma grown_trans w1 w2 w3 t u : grown w1 w2 t -> grown w2 w3 u -> grown w1 w3 (t ++ u).
Proof. intros [A1 A2 A3] [B1 B2 B3]. split; [by rewrite B1, A1, app_assoc|congruence..]. Qed.

Section Session.
Context (K : kernel) `{HK : !KernelLaws K}.

Lemma connects_app t u : connects (t ++ u) = (connects t + connects u)%nat.
Proof. apply countb_app. Qed.

Lemma bal_fd_created (t : trace) h n : balance KFd h (t ++ [Created KFd true n]) = balance KFd h t + owns n h.
Proof. bal_simpl. done. Qed.
Lemma bal_fd_destroyed (t : trace) h n : balance KFd h (t ++ [Destroyed KFd n]) = balance KFd h t - owns n h.
Proof. bal_simpl. unfold owns. lia. Qed.

(** What [vtest_connect] leaves: its new socket or nothing. *)
Definition connect_post (w : gworld) (r : Z) (w' : gworld) : Prop :=
  exists t, w' = add_tr w t /\ (r = -1 \/ 0 <= r) /\ (connects t <= 1)%nat /\
    (forall h, 0 <= h -> balance KFd h t = owns r h) /\
    (0 <= r -> wire "send" t = concat handshake) /\ wire "read" t = [].

Lemma connect_fail_post w s t :
  0 <= s -> (connects t <= 1)%nat -> (forall h, 0 <= h -> balance KFd h t = owns s h) -> wire "read" t = [] ->
  wp (connect_fail s) (connect_post w) (add_tr w t).
Proof.
  intros Hs Hc Hb Hr. unfold connect_fail. exists (t ++ [Destroyed KFd s]).
  split; [cbn; by rewrite <- add_tr_app|]. split; [by left|]. rewrite connects_app.
  split; [cbn; lia|]. split; [|split; [done|by rewrite wire_app, Hr]].
  intros h Hh. rewrite bal_fd_destroyed, Hb by done. rewrite (owns_neg (-1)) by lia. lia.
Qed.

(** The renderer message on a connected socket. *)
Lemma handshake_spec w s t1 :
  0 <= s -> (connects t1 <= 1)%nat -> (forall h, 0 <= h -> balance KFd h t1 = owns s h) ->
  wire "read" t1 = [] -> wire "send" t1 = [] ->
  wp (r ← sock_write_all K s (words_bytes [Z.of_nat (length renderer_name); VCMD_CREATE_RENDERER]);
      if negb (r =? 0) then connect_fail s
      else
      r ← sock_write_all K s renderer_name;
      if negb (r =? 0) then connect_fail s
      else mret s) (connect_post w) (add_tr w t1).
Proof.
  intros Hs C1 B1 R1 S1. apply wp_bind. unfold wp at 1.
  destruct (write_loop_spec K _ s (words_bytes [Z.of_nat (length renderer_name); VCMD_CREATE_RENDERER]) (add_tr w t1)
    (le_n _)) as (r2 & t2 & E2 & Io2 & R2 & H2). unfold sock_write_all. rewrite E2. cbn [fst snd]. rewrite add_tr_app.
  assert (B2 : forall h, 0 <= h -> balance KFd h (t1 ++ t2) = owns s h).
  { intros h Hh. rewrite balance_app, B1, io_balance by done. lia. }
  assert (C2 : (connects (t1 ++ t2) <= 1)%nat) by (rewrite connects_app, (io_connects t2) by done; lia).
  assert (R2' : wire "read" (t1 ++ t2) = []) by (by rewrite wire_app, R2, R1).
  destruct (negb (r2 =? 0)) eqn:Er2; [by apply connect_fail_post|].
  apply wp_bind. unfold wp at 1.
  destruct (write_loop_spec K _ s renderer_name (add_tr w (t1 ++ t2)) (le_n _)) as (r3 & t3 & E3 & Io3 & R3 & H3).
  rewrite E3. cbn [fst snd]. rewrite add_tr_app.
  assert (B3 : forall h, 0 <= h -> balance KFd h ((t1 ++ t2) ++ t3) = owns s h).
  { intros h Hh. rewrite balance_app, B2, io_balance by done. lia. }
  assert (C3 : (connects ((t1 ++ t2) ++ t3) <= 1)%nat) by (rewrite connects_app, (io_connects t3) by done; lia).
  assert (R3' : wire "read" ((t1 ++ t2) ++ t3) = []) by (by rewrite wire_app, R3, R2').
  destruct (negb (r3 =? 0)) eqn:Er3; [by apply connect_fail_post|]. bool_props.
  exists ((t1 ++ t2) ++ t3). split_and!; auto. intros _. rewrite !wire_app, S1.
  destruct H2 as [[_ ->]|[? _]]; [|lia]. destruct H3 as [[_ ->]|[? _]]; [|lia]. done.
Qed.

Lemma connect_spec w : wp (vtest_connect K) (connect_post w) w.
Proof.
  unfold vtest_connect. apply wp_bind. unfold wp at 1. cbn [gask fst snd]. set (path := if bool_decide _ then _ else _).
  apply wp_bind. unfold wp at 1. cbn [gask fst snd]. set (s := k_socket K _).
  apply wp_bind. unfold wp at 1. change ((gev (Created KFd (0 <=? s) s) w).2) with (add_tr w [Created KFd (0 <=? s) s]).
  destruct (Z.ltb_spec s 0) as [Hs|Hs].
  { rewrite (proj2 (Z.leb_gt _ _)) by lia. exists [Created KFd false s]. split_and!; try done; [by left|cbn; lia|].
    intros h Hh. change [Created KFd false s] with ([] ++ [Created KFd false s]).
    rewrite balance_snoc, delta_failed. change (0 + 0 = owns (-1) h). by rewrite owns_neg by lia. }
  rewrite (proj2 (Z.leb_le 0 s)) by lia. set (t0 := [Created KFd true s]).
  assert (B0 : forall h, 0 <= h -> balance KFd h t0 = owns s h).
  { intros h _. unfold t0. change [Created KFd true s] with ([] ++ [Created KFd true s]). by rewrite bal_fd_created. }
  apply wp_bind. unfold wp at 1. cbn [gask fst snd]. set (r := k_connect K _ s).
  apply wp_bind. unfold wp at 1.
  change ((gev (Called ("connect:" ++ path) [s; r]) (add_tr w t0)).2)
    with (add_tr (add_tr w t0) [Called ("connect:" ++ path) [s; r]]).
  rewrite add_tr_app. set (t1 := t0 ++ _).
  assert (B1 : forall h, 0 <= h -> balance KFd h t1 = owns s h).
  { intros h Hh. unfold t1. rewrite balance_snoc, delta_called, B0 by done. lia. }
  assert (C1 : (connects t1 <= 1)%nat).
  { unfold t1. rewrite connects_app. unfold connects, t0. cbn -[String.prefix]. case_match; lia. }
  assert (W1 : forall x, x = "send"%string \/ x = "read"%string -> wire x t1 = []).
  { intros x Hx. unfold t1. rewrite wire_app. unfold wire, t0, payload. cbn [fmap list_fmap concat app].
    rewrite bool_decide_false; [done|]. destruct Hx as [-> | ->]; done. }
  destruct (negb (r =? 0)); [apply connect_fail_post; auto|].
  apply wp_bind. unfold wp at 1. cbn [gask fst snd]. apply wp_bind.
  set (m := if _ =? 0 then _ else _). assert (Em : (m (add_tr w t1)).2 = add_tr w t1) by (unfold m; by case_match).
  unfold wp at 1. rewrite Em. destruct (negb _); [apply connect_fail_post; auto|]. apply handshake_spec; auto.
Qed.

Lemma arrive_run l w : arrive l w = (tt, add_tr w ((fun fd => Created KFd true fd) <$> l)).
Proof.
  revert w. induction l as [|fd l IH]; intros w; cbn [arrive]; [by rewrite add_tr_nil|].
  rewrite bind_run. change ((gev (Created KFd true fd) w).2) with (add_tr w [Created KFd true fd]).
  by rewrite IH, add_tr_app.
Qed.
Lemma close_all_run l w : close_all l w = (tt, add_tr w ((fun fd => Destroyed KFd fd) <$> l)).
Proof.
  revert w. induction l as [|fd l IH]; intros w; cbn [close_all]; [by rewrite add_tr_nil|].
  rewrite bind_run. change ((close fd w).2) with (add_tr w [Destroyed KFd fd]). by rewrite IH, add_tr_app.
Qed.

(** Received, closed: nothing is left of [l]. *)
Lemma bal_arrive_close h l :
  balance KFd h ((fun fd => Created KFd true fd) <$> l) + balance KFd h ((fun fd => Destroyed KFd fd) <$> l) = 0.
Proof.
  induction l as [|fd l IH]; [done|]. rewrite !fmap_cons.
  change (?a :: ?l) with ([a] ++ l) at 1. rewrite balance_app.
  change (Destroyed KFd fd :: ?l) with ([Destroyed KFd fd] ++ l). rewrite balance_app.
  change [Created KFd true fd] with ([] ++ [Created KFd true fd]).
  change [Destroyed KFd fd] with ([] ++ [Destroyed KFd fd]). rewrite bal_fd_created, bal_fd_destroyed, balance_nil. lia.
Qed.

Lemma rights_nonneg t s n cs b x : k_recvmsg K t s = (n, Some (cs, b)) -> x ∈ rights cs -> 0 <= x.
Proof.
  intros E Hx. unfold rights in Hx. apply list_elem_of_In, in_concat in Hx as (l & Hl & Hx).
  apply list_elem_of_In in Hl. apply list_elem_of_fmap in Hl as (c & -> & Hc). apply list_elem_of_filter in Hc as [_ Hc].
  pose proof (kl_rights t s n cs b c E Hc) as F. rewrite Forall_forall in F. apply F. by apply list_elem_of_In.
Qed.

(** Descriptors come and go without a byte moving. *)
Lemma silent_spec t : silent t -> connects t = 0%nat /\ forall x, wire x t = [].
Proof.
  unfold connects, wire. induction 1 as [|e t He F [IH1 IH2]]; [done|]. split.
  - cbn. rewrite IH1. by destruct e.
  - intros x. rewrite fmap_cons. cbn [concat]. rewrite IH2. by destruct e.
Qed.

Definition recv_post (w : gworld) (r : Z) (w' : gworld) : Prop :=
  exists t, w' = add_tr w t /\ connects t = 0%nat /\ wire "send" t = [] /\ wire "read" t = [] /\
    (r = -1 \/ 0 <= r) /\ (forall h, 0 <= h -> balance KFd h t = owns r h).

Lemma recv_fd_spec s w : wp (sock_recv_fd K s) (recv_post w) w.
Proof.
  unfold sock_recv_fd. apply wp_bind. unfold wp at 1. cbn [gask fst snd].
  destruct (k_recvmsg K (gtr w) s) as [n m] eqn:E. apply wp_bind. unfold wp at 1. rewrite tries_run. cbn [fst snd].
  set (t0 := replicate n _ ++ _). assert (I0 : io t0) by (apply io_tries; auto).
  assert (W0 : wire "send" t0 = [] /\ wire "read" t0 = []) by (unfold t0; by rewrite !wire_tries).
  destruct W0 as [Ws Wr].
  destruct m as [[cs trunc]|].
  2:{ exists t0. split_and!; auto; [by apply io_connects|]. intros h Hh. rewrite io_balance by done.
      change (0 = owns (-1) h). by rewrite owns_neg by lia. }
  apply wp_bind. unfold wp at 1. rewrite arrive_run. cbn [fst snd]. rewrite add_tr_app.
  apply wp_bind. unfold wp at 1. rewrite close_all_run. cbn [fst snd]. rewrite add_tr_app, <- app_assoc.
  set (fds := rights cs).
  set (u := ((fun fd => Created KFd true fd) <$> fds) ++ ((fun fd => Destroyed KFd fd) <$> tail fds)).
  assert (Hu : silent u).
  { apply Forall_app. split; apply Forall_fmap, Forall_forall; done. }
  assert (Bu : forall h, balance KFd h u = match fds with [] => 0 | fd :: _ => owns fd h end).
  { intros h. unfold u. rewrite balance_app. destruct fds as [|fd l]; [done|]. cbn [tail]. rewrite fmap_cons.
    change (?a :: ?l) with ([a] ++ l) at 1. rewrite balance_app. pose proof (bal_arrive_close h l).
    change [Created KFd true fd] with ([] ++ [Created KFd true fd]). rewrite bal_fd_created, balance_nil. lia. }
  assert (Hp : forall x, x ∈ fds -> 0 <= x) by (intros x Hx; by eapply rights_nonneg).
  assert (F : forall v r, silent v -> (r = -1 \/ 0 <= r) -> (forall h, 0 <= h -> balance KFd h (u ++ v) = owns r h) ->
    recv_post w r (add_tr w (t0 ++ u ++ v))).
  { intros v r Hv Hr Hb. destruct (silent_spec (u ++ v)) as [Cv Wv]; [by apply Forall_app|].
    exists (t0 ++ u ++ v). split; [done|]. rewrite connects_app, (io_connects t0), Cv, !(wire_app _ t0) by done.
    split_and!; try done.
    - by rewrite Ws, Wv.
    - by rewrite Wr, Wv.
    - intros h Hh. rewrite balance_app, io_balance, Hb by done. lia. }
  destruct (negb (length fds =? 1)%nat || trunc) eqn:C.
  - apply wp_bind. unfold wp at 1. unfold whenG. destruct fds as [|fd l] eqn:Ef.
    + change (0 <=? default (-1) (head [])) with false. cbn [fst snd mret M_ret]. rewrite <- (app_nil_r u). apply (F [] (-1)); [constructor|by left|].
      intros h Hh. rewrite app_nil_r, Bu. by rewrite (owns_neg (-1)) by lia.
    + change (default (-1) (head (fd :: l))) with fd. rewrite (proj2 (Z.leb_le 0 fd)) by (apply Hp; set_solver).
      change ((close fd (add_tr w (t0 ++ u))).2) with (add_tr (add_tr w (t0 ++ u)) [Destroyed KFd fd]).
      rewrite add_tr_app, <- app_assoc. apply (F _ (-1)); [by constructor|by left|].
      intros h Hh. rewrite bal_fd_destroyed, Bu, (owns_neg (-1)) by lia. lia.
  - apply wp_ret. bool_props. destruct fds as [|fd [|]] eqn:Ef; [done| |done].
    change (default (-1) (head [fd])) with fd. rewrite <- (app_nil_r u). apply (F [] fd); [constructor|right; apply Hp; set_solver|].
    intros h Hh. by rewrite app_nil_r, Bu.
Qed.

(** ** One request *)

Lemma loose_io w w' t : grown w w' t -> sock w' = sock w -> io t -> forall h, loose w' h = loose w h.
Proof. intros [E _ _] Es Hio h. unfold loose. rewrite E, Es, balance_app, (io_balance t) by done. lia. Qed.

(** Make sure there is a socket. *)
Lemma connected_spec w :
  wp (if sock w <? 0 then (s ← vtest_connect K; set_sock s) else mret tt) (fun _ w' =>
    exists t, grown w w' t /\ (connects t <= 1)%nat /\ (forall h, 0 <= h -> loose w' h = loose w h) /\
      wire "read" t = []) w.
Proof.
  destruct (Z.ltb_spec (sock w) 0) as [Hs|Hs].
  - apply wp_bind. eapply wp_mono; [apply connect_spec|]. intros r w' (t & -> & Hr & Hc & Hb & Hsd & Hrd).
    exists t. split; [done|]. split; [done|]. split; [|done]. intros h Hh. unfold loose.
    change (balance KFd h (gtr w ++ t) - owns r h = balance KFd h (gtr w) - owns (sock w) h).
    rewrite balance_app, Hb, (owns_neg (sock w)) by done. lia.
  - apply wp_ret. exists []. split; [by split; [rewrite app_nil_r|..]|]. split_and!; try done. cbn. lia.
Qed.

Lemma drop_sock_spec w :
  wp (drop_sock (sock w)) (fun _ w' => exists t, grown w w' t /\ connects t = 0%nat /\ sock w' = -1 /\
    forall h, 0 <= h -> loose w' h = loose w h) w.
Proof.
  exists [Destroyed KFd (sock w)]. split; [done|]. split; [done|]. split; [done|].
  intros h Hh. unfold loose.
  change (balance KFd h (gtr w ++ [Destroyed KFd (sock w)]) - owns (-1) h = balance KFd h (gtr w) - owns (sock w) h).
  rewrite bal_fd_destroyed, (owns_neg (-1)) by lia. lia.
Qed.

Definition attempt_post (n : nat) (req : list Z) (w : gworld) (r : option (list Z)) (w' : gworld) : Prop :=
  exists t, grown w w' t /\ (connects t <= n)%nat /\ (forall h, 0 <= h -> loose w' h = loose w h) /\
    match r with
    | Some b => 0 <= sock w' /\ length b = resp_bytes /\ Forall is_byte b /\
        (exists pre, wire "send" t = pre ++ req) /\ (exists pre, wire "read" t = pre ++ b)
    | None => sock w' < 0 \/ (n = 0%nat /\ w' = w)
    end.

(** The request goes out and the response comes in. *)
Lemma exchange_spec req w :
  wp (r ← sock_write_all K (sock w) req;
      if r =? 0 then sock_read_all K (sock w) resp_bytes else mret None) (fun r w' =>
    exists t, w' = add_tr w t /\ io t /\
      match r with
      | Some b => length b = resp_bytes /\ Forall is_byte b /\ wire "send" t = req /\ wire "read" t = b
      | None => True
      end) w.
Proof.
  apply wp_bind. unfold wp at 1.
  destruct (write_loop_spec K (length req) (sock w) req w (le_n _)) as (r & t & E & Io & R & H).
  unfold sock_write_all. rewrite E. cbn [fst snd].
  destruct (Z.eqb_spec r 0) as [->|Hr]; [|by apply wp_ret; exists t].
  destruct H as [[_ Hs]|[? _]]; [|lia]. unfold wp, sock_read_all.
  destruct (read_loop_spec K resp_bytes (sock w) resp_bytes [] (add_tr w t) (le_n _)) as (b & u & Eb & Iob & Sb & Hb).
  rewrite Eb. cbn [fst snd]. exists (t ++ u). rewrite add_tr_app. split; [done|]. split; [by apply Forall_app|].
  destruct b as [b|]; [|done]. destruct Hb as (b' & -> & Hl & Hw & Hf). rewrite !wire_app, Hs, Sb, R, Hw, app_nil_r.
  done.
Qed.

Lemma attempt_spec n req w : wp (attempt K n req) (attempt_post n req w) w.
Proof.
  revert w. induction n as [|n IH]; intros w; cbn [attempt].
  { exists []. split; [split; [by rewrite app_nil_r|done..]|]. split; [done|]. split; [done|]. by right. }
  apply wp_bind. unfold wp at 1. cbn [getS fst snd].
  apply wp_bind. eapply wp_mono; [apply connected_spec|]. intros _ w1 (t1 & G1 & C1 & L1 & R1).
  apply wp_bind. unfold wp at 1. cbn [getS fst snd].
  destruct (Z.ltb_spec (sock w1) 0) as [Hs|Hs].
  { apply wp_ret. exists t1. split_and!; auto; lia. }
  pose proof (exchange_spec req w1) as X. unfold wp in X. rewrite bind_run in X.
  apply wp_bind. unfold wp at 1. apply wp_bind. unfold wp at 1.
  destruct (sock_write_all K (sock w1) req w1) as [r1 wx]. cbn [fst snd] in *.
  destruct ((if r1 =? 0 then sock_read_all K (sock w1) resp_bytes else mret None) wx) as [resp w2].
  cbn [fst snd] in *. destruct X as (t2 & E2 & Io2 & P2).
  assert (G2 : grown w1 w2 t2) by (subst; apply grown_add). assert (S2 : sock w2 = sock w1) by (by subst).
  pose proof (loose_io _ _ _ G2 S2 Io2) as L2.
  destruct resp as [b|].
  - apply wp_ret. destruct P2 as (Hl & Hf & Hw & Hr). exists (t1 ++ t2). split; [by eapply grown_trans|].
    rewrite connects_app, (io_connects t2) by done. split; [lia|]. split; [intros h Hh; by rewrite L2, L1|].
    rewrite !wire_app, Hw, Hr. split_and!; eauto. lia.
  - rewrite <- S2. apply wp_bind. eapply wp_mono; [apply drop_sock_spec|]. intros _ w3 (t3 & G3 & C3 & S3 & L3).
    eapply wp_mono; [apply IH|]. intros r w4 (t4 & G4 & C4 & L4 & P4).
    exists (t1 ++ t2 ++ t3 ++ t4). split; [eauto using grown_trans|].
    rewrite !connects_app, (io_connects t2), C3 by done. split; [lia|].
    split; [intros h Hh; by rewrite L4, L3, L2, L1|].
    destruct r as [b|].
    + destruct P4 as (A1 & A2 & A3 & (p1 & A4) & (p2 & A5)). rewrite !wire_app, A4, A5. split_and!; try done.
      * exists (wire "send" t1 ++ wire "send" t2 ++ wire "send" t3 ++ p1). by rewrite <- !app_assoc.
      * exists (wire "read" t1 ++ wire "read" t2 ++ wire "read" t3 ++ p2). by rewrite <- !app_assoc.
    + left. destruct P4 as [?|[_ ->]]; lia.
Qed.

(** The nine words of a response. *)
Lemma response_words b :
  length b = resp_bytes -> Forall is_byte b ->
  exists d0 d1 d2 d3 d4 d5 d6 d7 d8,
    bytes_words b = [d0; d1; d2; d3; d4; d5; d6; d7; d8] /\ b = words_bytes [d0; d1; d2; d3; d4; d5; d6; d7; d8] /\
    Forall is_u32 [d0; d1; d2; d3; d4; d5; d6; d7; d8].
Proof.
  intros Hl Hf. destruct (bytes_words_inv 9 b Hl Hf) as (L & F & E).
  destruct (bytes_words b) as [|d0 [|d1 [|d2 [|d3 [|d4 [|d5 [|d6 [|d7 [|d8 [|]]]]]]]]]]; cbn in L; try lia.
  by exists d0, d1, d2, d3, d4, d5, d6, d7, d8.
Qed.

(** A response accepted, as the caller sees it. *)
Definition accepted (a : alloc_args) (scanout : bool) (a' : alloc_args) (t : trace) : Prop :=
  exists stride map lo hi d5 d6 pre pre',
    wire "send" t = pre ++ alloc_request a scanout /\
    wire "read" t = pre' ++ words_bytes [VCMD_RESOURCE_ALLOC_GPU_RESP_SIZE; VCMD_RESOURCE_ALLOC_GPU; 0;
                                         stride; map; lo; hi; d5; d6] /\
    a' = set_out a (a_out_fd a') stride (lo + hi * 2 ^ 32) map.

Definition alloc_post (a : alloc_args) (scanout : bool) (w : gworld) (r : Z * alloc_args) (w' : gworld) : Prop :=
  exists t, grown w w' t /\ (connects t <= 2)%nat /\
    (forall h, 0 <= h -> loose w' h = loose w h + (if r.1 =? 0 then owns (a_out_fd r.2) h else 0)) /\
    (r.1 = 0 -> 0 <= a_out_fd r.2 /\ accepted a scanout r.2 t) /\ (r.1 <> 0 -> r.2 = a).

Lemma alloc_error a scanout w w' t e :
  e <> 0 -> grown w w' t -> (connects t <= 2)%nat -> (forall h, 0 <= h -> loose w' h = loose w h) ->
  alloc_post a scanout w (e, a) w'.
Proof.
  intros He G C L. exists t. split; [done|]. split; [done|]. cbn [fst snd]. rewrite (proj2 (Z.eqb_neq _ _) He).
  split_and!; try done. intros h Hh. rewrite L by done. lia.
Qed.

Lemma i32_nonzero x : is_u32 x -> x <> 0 -> - i32 x <> 0.
Proof. intros Hx Hz. unfold i32. rewrite u32_id by done. unfold is_u32 in Hx. case_match; bool_props; lia. Qed.

Lemma alloc_spec a scanout w : wp (vtest_alloc K a scanout) (alloc_post a scanout w) w.
Proof.
  unfold vtest_alloc. apply wp_bind. eapply wp_mono; [apply attempt_spec|]. intros resp w1 (t1 & G1 & C1 & L1 & P1).
  destruct resp as [b|]; [|by eapply alloc_error].
  destruct P1 as (Hs & Hl & Hf & (pre & Hw) & (pre' & Hr)).
  destruct (response_words b Hl Hf) as (d0 & d1 & d2 & d3 & d4 & d5 & d6 & d7 & d8 & Ed & Eb & Hu). rewrite Ed.
  cbn [default lookup list_lookup from_option id]. apply wp_bind. unfold wp at 1. cbn [getS fst snd].
  apply Forall_cons in Hu as [_ Hu]. apply Forall_cons in Hu as [_ Hu]. apply Forall_cons in Hu as [H2 Hu].
  apply Forall_cons in Hu as [_ Hu]. apply Forall_cons in Hu as [_ Hu]. apply Forall_cons in Hu as [H5 _].
  destruct (negb _ || negb _) eqn:C.
  { apply wp_bind. eapply wp_mono; [apply drop_sock_spec|]. intros _ w2 (t2 & G2 & C2 & _ & L2). apply wp_ret.
    eapply alloc_error; [done|by eapply grown_trans|rewrite connects_app; lia|intros h Hh; by rewrite L2, L1]. }
  bool_props. subst d0 d1. destruct (Z.eqb_spec d2 0) as [->|Hd2]; cbn [negb].
  2:{ apply wp_ret. eapply alloc_error; [by apply i32_nonzero|done..]. }
  apply wp_bind. eapply wp_mono; [apply recv_fd_spec|]. intros fd w2 (t2 & E2 & C2 & W2s & W2r & Hfd & B2).
  assert (G2 : grown w1 w2 t2) by (subst w2; apply grown_add).
  assert (L2 : forall h, 0 <= h -> loose w2 h = loose w1 h + owns fd h).
  { intros h Hh. unfold loose. subst w2. cbn [add_tr gtr sock]. rewrite balance_app, B2 by done. lia. }
  destruct (Z.ltb_spec fd 0) as [Hn|Hn].
  - replace (sock w1) with (sock w2) by (by subst w2). apply wp_bind. eapply wp_mono; [apply drop_sock_spec|].
    intros _ w3 (t3 & G3 & C3 & _ & L3). apply wp_ret.
    eapply alloc_error; [done|eauto using grown_trans|rewrite !connects_app; lia|].
    intros h Hh. rewrite L3, L2, L1, owns_neg by (done || lia). lia.
  - apply wp_ret. exists (t1 ++ t2). split; [by eapply grown_trans|]. rewrite connects_app. split; [lia|].
    cbn [fst snd Z.eqb set_out a_out_fd]. split; [intros h Hh; rewrite L2, L1 by done; lia|]. split; [|done].
    intros _. split; [done|]. exists d3, d4, d5, d6, d7, d8, pre, pre'.
    rewrite !wire_app, Hw, Hr, W2s, W2r, !app_nil_r, Eb, lor_hi_lo by done. done.
Qed.

End Session.

(** C40: one allocation over the socket.  Whatever the kernel and the server
    answer: at most two connections are made; the descriptors outstanding
    apart from the device's socket grow by exactly the buffer's descriptor on
    success and by none on failure (the old socket is closed whenever it is
    given up); on success the complete request was sent, the last 36 bytes
    received are a well-formed response with status 0, and the outputs are its
    words, the modifier from its two halves; on failure the arguments are
    untouched. *)
Theorem vtest_alloc_sound (K : kernel) (laws : KernelLaws K) (a a' : alloc_args) (scanout : bool) (w w' : gworld) (ret : Z) :
  vtest_alloc K a scanout w = ((ret, a'), w') ->
  exists t, gtr w' = gtr w ++ t /\ (connects t <= 2)%nat /\
    (forall h, 0 <= h -> loose w' h = loose w h + (if ret =? 0 then owns (a_out_fd a') h else 0)) /\
    (ret = 0 -> 0 <= a_out_fd a' /\ accepted a scanout a' t) /\ (ret <> 0 -> a' = a).
Proof.
  intros E. pose proof (alloc_spec K a scanout w) as S. unfold wp in S. rewrite E in S. cbn [fst snd] in S.
  destruct S as (t & [Et _ _] & S). by exists t.
Qed.

(** ** A device's life *)

Fixpoint allocs (K : kernel) (l : list (alloc_args * bool)) : M gworld (list (Z * alloc_args)) :=
  match l with
  | [] => mret []
  | (a, sc) :: l => r ← vtest_alloc K a sc; rs ← allocs K l; mret (r :: rs)
  end.

(** Create, allocate, destroy. *)
Definition session (K : kernel) (l : list (alloc_args * bool)) : M gworld (list (Z * alloc_args)) :=
  rs ← allocs K l; _ ← vtest_dev_destroy; mret rs.

(** How often descriptor [h] was handed to the caller. *)
Definition handed (h : Z) (l : list (Z * alloc_args)) : Z :=
  sumZ ((fun r => if r.1 =? 0 then owns (a_out_fd r.2) h else 0) <$> l).

Lemma allocs_spec K `{!KernelLaws K} l w :
  wp (allocs K l) (fun rs w' => length rs = length l /\
    forall h, 0 <= h -> loose w' h = loose w h + handed h rs) w.
Proof.
  revert w. induction l as [|[a sc] l IH]; intros w; cbn [allocs].
  { apply wp_ret. split; [done|]. intros h _. unfold handed, sumZ. cbn. lia. }
  apply wp_bind. eapply wp_mono; [apply alloc_spec; done|]. intros r w1 (t & _ & _ & L1 & _).
  apply wp_bind. eapply wp_mono; [apply IH|]. intros rs w2 [E2 L2]. apply wp_ret. split; [cbn; by rewrite E2|].
  intros h Hh. rewrite L2, L1 by done. unfold handed, sumZ. cbn. lia.
Qed.

(** a device leaks no descriptor: after any sequence of allocations,
    failed ones and reconnections included, and the destruction of the device,
    the open descriptors are exactly the buffers handed to the caller. *)
Theorem vtest_session_no_leak (K : kernel) (laws : KernelLaws K) (l : list (alloc_args * bool)) :
  exists rs w, session K l gstart = (rs, w) /\ length rs = length l /\
    forall h, 0 <= h -> balance KFd h (gtr w) = handed h rs.
Proof.
  unfold session. pose proof (allocs_spec K l gstart) as S. unfold wp in S.
  rewrite bind_run. destruct (allocs K l gstart) as [rs w]. destruct S as [E L]. cbn [fst snd] in *.
  exists rs. rewrite bind_run. eexists. split; [reflexivity|]. split; [done|]. intros h Hh. specialize (L h Hh).
  unfold loose in L. cbn [gstart sock gtr] in L. rewrite balance_nil, (owns_neg (-1)) in L by lia.
  unfold vtest_dev_destroy, whenG. rewrite bind_run. cbn [getS fst snd].
  destruct (Z.leb_spec 0 (sock w)) as [Hs|Hs].
  - change (balance KFd h (gtr w ++ [Destroyed KFd (sock w)]) = handed h rs). rewrite bal_fd_destroyed. lia.
  - rewrite owns_neg in L by lia. change (balance KFd h (gtr w) = handed h rs). lia.
Qed.

(** ** Imported buffers *)

Inductive buffer_op := BImport (fd : Z) | BMap (p : Z) | BUnmap (p : Z) | BFree (p : Z).

Definition buffer_step (K : kernel) (o : buffer_op) : M gworld () :=
  match o with
  | BImport fd => _ ← vtest_import K fd; mret tt
  | BMap p => _ ← vtest_map K p; mret tt
  | BUnmap p => vtest_unmap p
  | BFree p => vtest_free p
  end.

Fixpoint buffer_steps (K : kernel) (l : list buffer_op) (w : gworld) : gworld :=
  match l with
  | [] => w
  | o :: l => buffer_steps K l (buffer_step K o w).2
  end.

Definition real (k : kind) (h : Z) : Prop :=
  match k with
  | KFd => 0 <= h
  | KMapping => h <> NULL /\ h <> MAP_FAILED
  | KHeap => h <> NULL
  | _ => False
  end.

Definition vbo_res (k : kind) (h p : Z) (b : vtest_bo) : Z :=
  match k with
  | KFd => owns (vb_fd b) h
  | KMapping => owns (vb_map b) h
  | KHeap => owns p h
  | _ => 0
  end.

Record bufs_ok (w : gworld) : Prop := {
  bf_bal k h : real k h -> balance k h (gtr w) = total (vbo_res k h) (vbos w);
  bf_next p b : vbos w !! p = Some b -> 0 < p < gnext w /\ 0 <= vb_fd b;
  bf_pos : 0 < gnext w;
}.

(** Trace events that cancel out, and fresh addresses. *)
Lemma bufs_events w t n :
  bufs_ok w -> 0 <= n -> (forall k h, real k h -> balance k h t = 0) ->
  bufs_ok (mk_gw (sock w) (vbos w) (gnext w + n) (gtr w ++ t)).
Proof.
  intros [B N P] Hn Ht. split; cbn [gtr vbos gnext]; [|intros p b Hb; specialize (N p b Hb); lia|lia].
  intros k h Hv. rewrite balance_app, Ht, B by done. lia.
Qed.

Lemma bufs_new w t b :
  bufs_ok w -> 0 <= vb_fd b -> (forall k h, real k h -> balance k h t = vbo_res k h (gnext w) b) ->
  bufs_ok (mk_gw (sock w) (<[gnext w := b]> (vbos w)) (gnext w + 1) (gtr w ++ t)).
Proof.
  intros [B N P] Hb Ht. assert (Hf : vbos w !! gnext w = None).
  { apply eq_None_not_Some. intros [b0 Hb0]. specialize (N _ _ Hb0). lia. }
  split; cbn [gtr vbos gnext]; [| |lia].
  - intros k h Hv. rewrite balance_app, Ht, B, total_insert_new by done. lia.
  - intros p b0 [[<- <-]|[? H]]%lookup_insert_Some; [lia|]. specialize (N p b0 H). lia.
Qed.

Lemma bufs_put w t p b b' :
  bufs_ok w -> vbos w !! p = Some b -> 0 <= vb_fd b' ->
  (forall k h, real k h -> balance k h t = vbo_res k h p b' - vbo_res k h p b) ->
  bufs_ok (mk_gw (sock w) (<[p := b']> (vbos w)) (gnext w) (gtr w ++ t)).
Proof.
  intros [B N P] Hb Hb' Ht. split; cbn [gtr vbos gnext]; [| |lia].
  - intros k h Hv. rewrite balance_app, Ht, B, (total_insert _ _ _ _ _ Hb) by done. lia.
  - intros q b0 [[<- <-]|[? H]]%lookup_insert_Some; [|by apply N]. destruct (N _ _ Hb). lia.
Qed.

Lemma bufs_del w t p b :
  bufs_ok w -> vbos w !! p = Some b -> (forall k h, real k h -> balance k h t = - vbo_res k h p b) ->
  bufs_ok (mk_gw (sock w) (delete p (vbos w)) (gnext w) (gtr w ++ t)).
Proof.
  intros [B N P] Hb Ht. split; cbn [gtr vbos gnext]; [| |lia].
  - intros k h Hv. rewrite balance_app, Ht, B, (total_delete _ _ _ _ Hb) by done. lia.
  - intros q b0 [? H]%lookup_delete_Some. by apply N.
Qed.

Lemma bal2 k h e1 e2 : balance k h [e1; e2] = ev_delta k h e1 + ev_delta k h e2.
Proof. unfold balance, sumZ. cbn. lia. Qed.
Lemma bal1 k h e : balance k h [e] = ev_delta k h e.
Proof. unfold balance, sumZ. cbn. lia. Qed.
Lemma bal3 k h e1 e2 e3 : balance k h [e1; e2; e3] = ev_delta k h e1 + ev_delta k h e2 + ev_delta k h e3.
Proof. unfold balance, sumZ. cbn. lia. Qed.

(** Settle the resources of a short list of events. *)
Ltac bres :=
  let k := fresh "k" in let h := fresh "h" in let Hv := fresh "Hv" in
  intros k h Hv; cbn [app]; rewrite ?bal3, ?bal2, ?bal1; destruct k; cbn [real] in Hv; try done; bal_simpl;
  unfold vbo_res, owns, NULL, MAP_FAILED in *; cbn [vb_fd vb_map] in *;
  repeat case_decide; destruct_and?; simplify_eq; try lia.

Section Buffers.
Context (K : kernel) `{HK : !KernelLaws K}.

Lemma import_ok fd w : bufs_ok w -> wp (vtest_import K fd) (fun _ => bufs_ok) w.
Proof.
  intros I. pose proof (bf_pos _ I) as P. unfold vtest_import, galloc. apply wp_bind.
  unfold wp at 1. rewrite !bind_run. cbn [gask getS modS gev mret M_ret fst snd sock vbos gnext gtr].
  destruct (k_calloc K (gtr w)).
  2:{ change (NULL =? NULL) with true. apply (bufs_events w [Created KHeap false NULL] 1); [done|lia|bres]. }
  rewrite (proj2 (Z.eqb_neq (gnext w) NULL)) by (unfold NULL; lia).
  apply wp_bind. unfold wp at 1. cbn [gask fst snd gtr]. set (size := k_lseek K _ _).
  destruct (size <=? 0).
  { change (bufs_ok (mk_gw (sock w) (vbos w) (gnext w + 1)
      ((gtr w ++ [Created KHeap true (gnext w)]) ++ [Destroyed KHeap (gnext w)]))).
    rewrite <- app_assoc. apply bufs_events; [done|lia|bres]. }
  apply wp_bind. unfold wp at 1. cbn [gask fst snd gtr]. set (n := k_dup K _ _).
  apply wp_bind. unfold wp at 1. cbn [gev modS fst snd sock vbos gnext gtr].
  destruct (Z.ltb_spec n 0) as [Hn|Hn].
  - rewrite (proj2 (Z.leb_gt _ _)) by lia.
    change (bufs_ok (mk_gw (sock w) (vbos w) (gnext w + 1)
      (((gtr w ++ [Created KHeap true (gnext w)]) ++ [Created KFd false n]) ++ [Destroyed KHeap (gnext w)]))).
    rewrite <- !app_assoc. apply bufs_events; [done|lia|bres].
  - rewrite (proj2 (Z.leb_le _ _)) by lia.
    change (bufs_ok (mk_gw (sock w) (<[gnext w := mk_vbo n size NULL]> (vbos w)) (gnext w + 1)
      ((gtr w ++ [Created KHeap true (gnext w)]) ++ [Created KFd true n]))).
    rewrite <- app_assoc. apply bufs_new; [done|done|bres].
Qed.

Lemma map_ok p w : bufs_ok w -> wp (vtest_map K p) (fun _ => bufs_ok) w.
Proof.
  intros I. unfold vtest_map. apply wp_bind. unfold wp at 1. cbn [getS fst snd].
  destruct (vbos w !! p) as [b|] eqn:Hb; [|done]. destruct (bf_next _ I _ _ Hb) as [_ Hfd].
  destruct (Z.eqb_spec (vb_map b) NULL) as [Hm|Hm]; cbn [negb]; [|done].
  apply wp_bind. unfold wp at 1. cbn [gask fst snd]. pose proof (kl_mmap (gtr w) (vb_fd b) (vb_size b)) as Ha.
  set (a := k_mmap K _ _ _) in *. apply wp_bind. unfold wp at 1. cbn [gev modS fst snd].
  destruct (Z.eqb_spec a MAP_FAILED) as [Ef|Ef]; cbn [negb].
  - change (bufs_ok (mk_gw (sock w) (vbos w) (gnext w) (gtr w ++ [Created KMapping false a]))).
    rewrite <- (Z.add_0_r (gnext w)). apply bufs_events; [done|lia|bres].
  - change (bufs_ok (mk_gw (sock w) (<[p := mk_vbo (vb_fd b) (vb_size b) a]> (vbos w)) (gnext w)
      (gtr w ++ [Created KMapping true a]))).
    apply (bufs_put w _ p b); [done..|bres].
Qed.

Lemma free_ok p w : bufs_ok w -> wp (vtest_free p) (fun _ => bufs_ok) w.
Proof.
  intros I. unfold vtest_free. apply wp_bind. unfold wp at 1. cbn [getS fst snd].
  destruct (vbos w !! p) as [b|] eqn:Hb; [|done]. destruct (bf_next _ I _ _ Hb) as [Hp Hfd]. unfold whenG.
  destruct (Z.eqb_spec (vb_map b) NULL) as [Hm|Hm]; cbn [negb].
  - change (bufs_ok (mk_gw (sock w) (delete p (vbos w)) (gnext w)
      ((gtr w ++ [Destroyed KFd (vb_fd b)]) ++ [Destroyed KHeap p]))).
    rewrite <- app_assoc. apply (bufs_del w _ p b); [done..|bres].
  - change (bufs_ok (mk_gw (sock w) (delete p (vbos w)) (gnext w)
      (((gtr w ++ [Destroyed KMapping (vb_map b)]) ++ [Destroyed KFd (vb_fd b)]) ++ [Destroyed KHeap p]))).
    rewrite <- !app_assoc. apply (bufs_del w _ p b); [done..|bres].
Qed.

Lemma buffer_steps_ok l w : bufs_ok w -> bufs_ok (buffer_steps K l w).
Proof.
  revert w. induction l as [|o l IH]; intros w I; [done|]. cbn [buffer_steps]. apply IH.
  destruct o as [fd|p|p|p]; cbn [buffer_step]; [by apply import_ok|by apply map_ok|done|by apply free_ok].
Qed.

End Buffers.

Lemma bufs_start : bufs_ok gstart.
Proof.
  split; cbn [gstart gtr vbos gnext]; [|intros p b; by rewrite lookup_empty|lia].
  intros k h _. by rewrite balance_nil, total_empty.
Qed.

(** imported buffers own what they hold: after any sequence of imports,
    maps, unmaps and frees, with any failures, each outstanding descriptor,
    mapping and record belongs to a live buffer (one descriptor, at most one
    mapping each, kept across unmaps); a buffer mapped again answers with the
    same address and no new mapping; when all buffers are freed nothing is
    left. *)
Theorem vtest_buffers_own (K : kernel) (laws : KernelLaws K) (l : list buffer_op) :
  let w := buffer_steps K l gstart in
  (forall k h, real k h -> balance k h (gtr w) = total (vbo_res k h) (vbos w)) /\
  (forall p b, vbos w !! p = Some b -> vb_map b <> NULL -> vtest_map K p w = ((vb_map b, vb_map b), w)) /\
  (vbos w = ∅ -> forall k h, real k h -> balance k h (gtr w) = 0).
Proof.
  intros w. destruct (buffer_steps_ok K l gstart bufs_start) as [B _ _]. fold w in B. split; [done|]. split.
  - intros p b Hb Hm. unfold vtest_map. rewrite bind_run. cbn [getS fst snd].
    by rewrite Hb, (proj2 (Z.eqb_neq _ _) Hm).
  - intros E k h Hv. by rewrite B, E, total_empty.
Qed.

(** ** Formats on the two sides *)

(** guest and host agree on formats: a format the guest wrapper offers to
    minigbm is one the host can allocate (NV12 through the CPU path, every
    other as a GPU image), and no other format is offered; for the GPU formats
    the host's Vulkan format is the one the in-guest NVIDIA backend uses for
    the same DRM format, with the same bytes per pixel. *)
Theorem vtest_formats_agree (f : Z) :
  (vtest_get_gbm_format f <> 0 <-> f = DRM_FORMAT_NV12 \/ VtestAlloc.drm_format_to_vk f <> VK_FORMAT_UNDEFINED) /\
  (f <> DRM_FORMAT_NV12 -> vtest_get_gbm_format f = GrallocFormat.nvg_get_gbm_format f) /\
  (forall g, GrallocFormat.find_format f = Some g ->
    VtestAlloc.drm_format_to_vk f = GrallocFormat.vkf g /\ VtestAlloc.drm_format_bpp f = GrallocFormat.bpp g).
Proof.
  destruct (decide (f ∈ [DRM_FORMAT_R8; DRM_FORMAT_RGB565; DRM_FORMAT_XRGB8888; DRM_FORMAT_ARGB8888; DRM_FORMAT_XBGR8888;
    DRM_FORMAT_ABGR8888; DRM_FORMAT_ABGR2101010; DRM_FORMAT_ABGR16161616F; DRM_FORMAT_NV12])) as [Hin|Hout].
  - repeat (apply elem_of_cons in Hin as [->|Hin];
      [split_and!; [split; [intros _; first [by left|right; vm_compute; discriminate]|intros _; vm_compute; discriminate]
        |by vm_compute|by intros g [= <-]]|]).
    by apply elem_of_nil in Hin.
  - assert (Hne : forall x, x ∈ [DRM_FORMAT_R8; DRM_FORMAT_RGB565; DRM_FORMAT_XRGB8888; DRM_FORMAT_ARGB8888;
      DRM_FORMAT_XBGR8888; DRM_FORMAT_ABGR8888; DRM_FORMAT_ABGR2101010; DRM_FORMAT_ABGR16161616F; DRM_FORMAT_NV12] ->
      (f =? x) = false) by (intros x Hx; apply Z.eqb_neq; congruence).
    assert (Hnf : GrallocFormat.find_format f = None).
    { unfold GrallocFormat.find_format, GrallocFormat.nvg_formats. cbn [GrallocFormat.find_in GrallocFormat.drm].
      rewrite !(Z.eqb_sym _ f). by rewrite !Hne by set_solver. }
    assert (Eg : vtest_get_gbm_format f = 0) by (unfold vtest_get_gbm_format; by rewrite !Hne by set_solver).
    assert (Eh : VtestAlloc.drm_format_to_vk f = VK_FORMAT_UNDEFINED)
      by (unfold VtestAlloc.drm_format_to_vk; by rewrite !Hne by set_solver).
    rewrite Hnf, Eg, Eh. unfold GrallocFormat.nvg_get_gbm_format. rewrite Hnf. split_and!; [|done|done].
    split; [done|]. intros [->|?]; [|done]. destruct Hout. set_solver.
Qed.

(** ** Witnesses *)

Definition demo_response : list Z :=
  words_bytes [VCMD_RESOURCE_ALLOC_GPU_RESP_SIZE; VCMD_RESOURCE_ALLOC_GPU; 0; 1024; 0; 0x606010; 0x03000000; 0; 0].

(** Sends 10 bytes and reads 20 at a time, each after an interruption. *)
Definition demo_kernel : kernel := mk_kernel
  (fun _ => ""%string) (fun t => 40 + Z.of_nat (length t)) (fun _ _ => 0) (fun _ _ _ => 0)
  (fun _ _ n => (1%nat, Z.min 10 (Z.of_nat n)))
  (fun t _ n => (1%nat, take (min n 20) (drop (length (wire "read" t) mod 36) demo_response)))
  (fun t _ => (1%nat, Some ([mk_cmsg false []; mk_cmsg true [60 + Z.of_nat (length t)]], false)))
  (fun _ => true) (fun _ _ => 1048576) (fun t _ => 10 + Z.of_nat (length t)) (fun _ _ _ => 131072).

#[export] Instance demo_kernel_laws : KernelLaws demo_kernel.
Proof.
  split.
  - intros t fd n. cbn. lia.
  - intros t fd n. cbn [demo_kernel k_read snd]. rewrite length_take. lia.
  - intros t fd n. cbn [demo_kernel k_read snd]. apply Forall_take, Forall_drop.
    apply (bool_decide_unpack _). vm_compute. exact I.
  - intros t fd n cs b c. cbn. intros [= _ <- _] Hc.
    apply elem_of_cons in Hc as [->|Hc]; [constructor|]. apply elem_of_cons in Hc as [->|Hc]; [|by apply elem_of_nil in Hc].
    constructor; [lia|constructor].
  - intros t fd n. cbn. unfold NULL. lia.
Qed.

Definition demo_alloc : alloc_args := mk_args (Some 0) 200 100 DRM_FORMAT_ABGR8888 false false (-1) 0 0 0.

Lemma sock_loops_exact_witness :
  exists t, sock_write_all demo_kernel 5 demo_response gstart = (0, add_tr gstart t) /\ wire "send" t = demo_response.
Proof.
  destruct (sock_loops_exact demo_kernel demo_kernel_laws 5 demo_response 36 gstart) as [(r & t & E & H) _].
  exists t. assert (r = 0) as ->.
  { apply (f_equal fst) in E. cbn [fst] in E. rewrite <- E. vm_compute. reflexivity. }
  split; [exact E|]. destruct H as [[_ H]|[H _]]; [exact H|discriminate].
Defined.

Lemma vtest_request_decodes_witness :
  bytes_words (alloc_request demo_alloc true) = [4; 41; 200; 100; DRM_FORMAT_ABGR8888; 2].
Proof.
  destruct (vtest_request_decodes demo_alloc true) as (fl & E & M & S); [vm_compute; split; congruence..|].
  rewrite E. vm_compute in E. injection E as <-. reflexivity.
Defined.

Lemma vtest_alloc_sound_witness :
  let r := vtest_alloc demo_kernel demo_alloc false gstart in
  r.1.1 = 0 /\ a_out_modifier r.1.2 = 0x0300000000606010 /\
  exists t, accepted demo_alloc false r.1.2 t.
Proof.
  cbv zeta. assert (E0 : (vtest_alloc demo_kernel demo_alloc false gstart).1.1 = 0) by (vm_compute; reflexivity).
  assert (Em : a_out_modifier (vtest_alloc demo_kernel demo_alloc false gstart).1.2 = 0x0300000000606010)
    by (vm_compute; reflexivity).
  destruct (vtest_alloc demo_kernel demo_alloc false gstart) as [[ret a'] w'] eqn:E. cbn [fst snd] in *.
  destruct (vtest_alloc_sound demo_kernel demo_kernel_laws demo_alloc a' false gstart w' ret E) as (t & _ & _ & _ & H & _).
  split; [exact E0|]. split; [exact Em|]. exists t. apply H. exact E0.
Defined.

Lemma vtest_session_no_leak_witness :
  exists rs w, session demo_kernel [(demo_alloc, false); (demo_alloc, true)] gstart = (rs, w) /\ length rs = 2%nat /\
    forall h, 0 <= h -> balance KFd h (gtr w) = handed h rs.
Proof. exact (vtest_session_no_leak demo_kernel demo_kernel_laws [(demo_alloc, false); (demo_alloc, true)]). Defined.

Lemma vtest_buffers_own_witness :
  let w := buffer_steps demo_kernel [BImport 5; BMap 1; BUnmap 1; BMap 1; BFree 1] gstart in
  length (gtr w) = 6%nat /\ forall k h, real k h -> balance k h (gtr w) = 0.
Proof.
  destruct (vtest_buffers_own demo_kernel demo_kernel_laws [BImport 5; BMap 1; BUnmap 1; BMap 1; BFree 1]) as (_ & _ & H).
  split; [vm_compute; reflexivity|]. apply H. vm_compute. reflexivity.
Defined.

(** A failed [mmap] answers NULL, where minigbm's contract (see
    [nvg_map_impl]) is MAP_FAILED. *)
Lemma failed_map_is_null K p b w :
  vbos w !! p = Some b -> vb_map b = NULL -> k_mmap K (gtr w) (vb_fd b) (vb_size b) = MAP_FAILED ->
  (vtest_map K p w).1 = (NULL, NULL).
Proof.
  intros Hb Hm Hf. unfold vtest_map. rewrite bind_run. cbn [getS fst snd]. rewrite Hb, Hm. cbn [negb Z.eqb NULL].
  rewrite bind_run. cbn [gask fst snd]. rewrite Hf. reflexivity.
Qed.

End VtestWrapper.
