(* ===== verification/CrosHandle.v ===== *)
(** * minigbm buffer handles ([hal/include/minigbm/cros_gralloc_handle.h])

    What the Vulkan HAL and the EGL platform check before they read a
    native_handle_t as minigbm's struct; both perform the same checks. *)

From Stdlib Require Import ZArith Lia.
From stdpp Require Import base option.
From S2P Require Import Prelude.

Set Default Goal Selector "!".
#[local] Open Scope Z_scope.

Module Cros.

Definition DRV_MAX_FDS : Z := 5.
Definition CROS_GRALLOC_MAGIC : Z := 0xABCDDCBA.
Definition NATIVE_HANDLE_SIZE : Z := 12.
Definition CROS_GRALLOC_HANDLE_NUM_INTS_TOTAL : Z := 35.

Record cros_gralloc_handle := mk_handle {
  hd_version : Z;
  hd_numFds : Z;
  hd_numInts : Z;
  hd_fd0 : Z;
  hd_stride0 : Z;
  hd_offset0 : Z;
  hd_width : Z;
  hd_height : Z;
  hd_format : Z;
  hd_modifier : Z;
  hd_magic : Z;
  hd_num_planes : Z;
}.

(** true: not a minigbm handle. *)
Definition cros_gralloc_handle_mismatch (h : option cros_gralloc_handle) : bool :=
  match h with
  | None => true
  | Some h =>
      negb (hd_version h =? NATIVE_HANDLE_SIZE) || (hd_numFds h <? 1) || (DRV_MAX_FDS <? hd_numFds h)
      || (hd_numInts h <? 0) || negb (hd_numFds h + hd_numInts h =? CROS_GRALLOC_HANDLE_NUM_INTS_TOTAL)
      || negb (hd_magic h =? CROS_GRALLOC_MAGIC)
  end.

End Cros.
