(* ===== verification/EglWindow.v ===== *)
(** * EGL window surfaces ([egl/src/window.c], [egl/src/gralloc.c])

    A window surface owns one dequeued buffer of its ANativeWindow (the back
    buffer), a cache of up to eight imported buffers with a reference and a
    driver color buffer each, and, between calls, no fence descriptor.  A swap
    queues the back buffer with an acquire fence and dequeues the next one,
    waits for its release fence on the GPU, and only then attaches it.  The
    platform may be destroyed before the surface ([OPlatformDestroyed]).

    The window's and the driver's answers are functions of the calls made so
    far.  Buffers and handles are addresses; the contents of a gralloc handle
    come with the buffer. *)

From Stdlib Require Import ZArith Lia.
From stdpp Require Import base option sets strings gmap list.
From S2P Require Import Prelude Vulkan CrosHandle.

Set Default Goal Selector "!".
#[local] Open Scope Z_scope.

Module EglWindow.
Import Vk Cros.

Definition NVN_MAX_SLOTS : nat := 8.
Definition EGL_SUCCESS : Z := 0x3000.
Definition EGL_BAD_ALLOC : Z := 0x3003.
Definition EGL_BAD_ATTRIBUTE : Z := 0x3004.
Definition EGL_BAD_CONFIG : Z := 0x3005.
Definition EGL_BAD_MATCH : Z := 0x3009.
Definition EGL_BAD_NATIVE_WINDOW : Z := 0x300B.
Definition EGL_WINDOW_BIT : Z := 4.
Definition EGL_RENDER_BUFFER : Z := 0x3086.
Definition EGL_SINGLE_BUFFER : Z := 0x3085.
Definition EGL_BACK_BUFFER : Z := 0x3084.
Definition EGL_BUFFER_AGE_KHR : Z := 0x313D.
Definition EGL_WIDTH : Z := 0x3057.
Definition EGL_HEIGHT : Z := 0x3056.
Definition EGL_TRUE : Z := 1.
Definition GL_BACK : Z := 0x0405.
Definition NULL : Z := 0.

(** ** gralloc buffers ([gralloc.c]) *)

Definition NVN_ANDROID_NATIVE_BUFFER_MAGIC : Z := 95 * 2 ^ 24 + 98 * 2 ^ 16 + 102 * 2 ^ 8 + 114.   (** '_bfr' *)
Definition NVN_ANDROID_NATIVE_WINDOW_MAGIC : Z := 95 * 2 ^ 24 + 119 * 2 ^ 16 + 110 * 2 ^ 8 + 100.  (** '_wnd' *)

(** An ANativeWindowBuffer: its address, the address and contents of its
    handle, its size; [sizeof(ANativeWindowBuffer)] is its version. *)
Record abuffer := mk_abuf {
  ab_ptr : Z;
  ab_magic : Z;
  ab_version_ok : bool;
  ab_handle : Z;
  ab_gralloc : option cros_gralloc_handle;
  ab_width : Z;
  ab_height : Z;
}.

Record nvn_dmabuf := mk_dmabuf {
  db_fd : Z; db_width : Z; db_height : Z; db_fourcc : Z; db_stride : Z; db_offset : Z; db_modifier : Z;
}.

Definition nvn_gralloc_decode (b : abuffer) : option nvn_dmabuf :=
  if (ab_ptr b =? NULL) || negb (ab_magic b =? NVN_ANDROID_NATIVE_BUFFER_MAGIC) || negb (ab_version_ok b) then None
  else if cros_gralloc_handle_mismatch (ab_gralloc b) then None
  else match ab_gralloc b with
  | None => None
  | Some g =>
      if negb (hd_num_planes g =? 1) || (hd_fd0 g <? 0) then None
      else if hd_modifier g =? DRM_FORMAT_MOD_INVALID then None
      else if (ab_width b <=? 0) || (ab_height b <=? 0) || (hd_width g <? u32 (ab_width b)) || (hd_height g <? u32 (ab_height b))
      then None
      else Some (mk_dmabuf (hd_fd0 g) (ab_width b) (ab_height b) (hd_format g) (hd_stride0 g) (hd_offset0 g) (hd_modifier g))
  end.

Definition nvn_hal_format_for_fourcc (fourcc : Z) : Z :=
  if fourcc =? DRM_FORMAT_ABGR8888 then 1
  else if fourcc =? DRM_FORMAT_XBGR8888 then 2
  else if fourcc =? DRM_FORMAT_RGB565 then 4
  else if fourcc =? DRM_FORMAT_ARGB8888 then 5
  else if fourcc =? DRM_FORMAT_ABGR16161616F then 0x16
  else if fourcc =? DRM_FORMAT_ABGR2101010 then 0x2B
  else 0.

(** ** State ([nvn.h]) *)

Record nvn_slot := mk_slot {
  sl_anwb : Z;
  sl_handle : Z;
  sl_cb : Z;
  sl_width : Z;
  sl_height : Z;
  sl_fourcc : Z;
  sl_modifier : Z;
  sl_age : Z;
  sl_used : Z;
}.
Definition empty_slot : nvn_slot := mk_slot 0 0 0 0 0 0 0 0 0.
Definition set_age (s : nvn_slot) (a : Z) : nvn_slot :=
  mk_slot (sl_anwb s) (sl_handle s) (sl_cb s) (sl_width s) (sl_height s) (sl_fourcc s) (sl_modifier s) a (sl_used s).
Definition set_used (s : nvn_slot) (u : Z) : nvn_slot :=
  mk_slot (sl_anwb s) (sl_handle s) (sl_cb s) (sl_width s) (sl_height s) (sl_fourcc s) (sl_modifier s) (sl_age s) u.

(** [back] is the index of the slot it points into. *)
Record surface := mk_surface {
  ps_window : Z;
  ps_slots : list nvn_slot;
  ps_back : option nat;
  ps_stamp : Z;
  ps_lost : bool;
}.

Record eworld := mk_ew {
  priv : option surface;      (** [psurf->priv] *)
  internal_surface : Z;
  destroyed : bool;           (** [plat->destroyed] *)
  egl_error : Z;
  etr : trace;
}.

(** The window, the driver and the process. *)
Record egl_env := mk_env {
  e_y_inverted : Z;                                   (** EGL_SURFACE_Y_INVERTED_NVX *)
  e_alloc : trace -> bool;
  e_set_usage : trace -> Z;
  e_dequeue : trace -> Z * option abuffer * Z;        (** result, buffer, release fence *)
  e_queue : trace -> Z -> Z;
  e_import : trace -> nvn_dmabuf -> Z;
  e_create_surface : trace -> Z;
  e_set_color : trace -> Z -> bool;
  e_create_sync : trace -> option Z -> Z;             (** from a descriptor, or for the work so far *)
  e_dup_fence : trace -> Z -> Z;
  e_wait_sync : trace -> Z -> bool;
  e_swap : trace -> bool;
  e_dup : trace -> Z -> Z;
  e_poll : trace -> Z -> nat * bool;                  (** interruptions, then success *)
  e_current : trace -> bool;
  e_driver_error : trace -> Z;
  e_set_interval : trace -> Z -> Z;
}.

Definition eev (e : event) : M eworld () :=
  modS (fun w => mk_ew (priv w) (internal_surface w) (destroyed w) (egl_error w) (etr w ++ [e])).
Definition eask {A} (f : trace -> A) : M eworld A := fun w => (f (etr w), w).
Definition nvn_error (e : Z) : M eworld () :=
  modS (fun w => mk_ew (priv w) (internal_surface w) (destroyed w) e (etr w)).
Definition put_priv (p : option surface) : M eworld () :=
  modS (fun w => mk_ew p (internal_surface w) (destroyed w) (egl_error w) (etr w)).
Definition put_internal (i : Z) : M eworld () :=
  modS (fun w => mk_ew (priv w) i (destroyed w) (egl_error w) (etr w)).
Definition whenE (b : bool) (m : M eworld ()) : M eworld () := if b then m else mret tt.
Definition close (fd : Z) : M eworld () := eev (Destroyed KFd fd).

(** [win->cancelBuffer(win, b, fence)]: the window owns both again. *)
Definition cancelBuffer (b fence : Z) : M eworld () :=
  _ ← eev (Moved KOwned b);
  whenE (0 <=? fence) (eev (Moved KFd fence)).

Section Env.
Context (E : egl_env).

(** The buffer, when the call succeeds with one, and the fence it wrote. *)
Definition dequeueBuffer : M eworld (option abuffer * Z) :=
  '(r, b, fence) ← eask (e_dequeue E);
  _ ← whenE (0 <=? fence) (eev (Created KFd true fence));
  match b with
  | Some b =>
      if (r =? 0) && negb (ab_ptr b =? NULL) then
        _ ← eev (Created KOwned true (ab_ptr b));
        _ ← eev (Called "dequeueBuffer" [ab_ptr b; fence]);
        mret (Some b, fence)
      else mret (None, fence)
  | None => mret (None, fence)
  end.

(** ** Slots *)

(** [poll] until it is not interrupted; the result is not used by the callers. *)
Fixpoint polls (n : nat) (fd : Z) (ok : bool) : M eworld () :=
  match n with
  | S n => polls n fd ok
  | O => eev (Called "poll" [fd; if ok then 1 else 0])
  end.
Definition cpu_wait (fd : Z) : M eworld () :=
  '(n, ok) ← eask (fun t => e_poll E t fd);
  polls n fd ok.

Definition slot_release (s : nvn_slot) : M eworld nvn_slot :=
  w ← getS;
  _ ← whenE (negb (sl_cb s =? NULL) && negb (destroyed w)) (eev (Destroyed KColor (sl_cb s)));
  _ ← whenE (negb (sl_anwb s =? NULL)) (eev (Destroyed KRef (sl_anwb s)));
  mret empty_slot.

Definition same_buffer (b : abuffer) (s : nvn_slot) : bool :=
  (sl_anwb s =? ab_ptr b) && (sl_handle s =? ab_handle b) && (sl_width s =? ab_width b) && (sl_height s =? ab_height b).

Fixpoint find_slot (b : abuffer) (i : nat) (l : list nvn_slot) : option nat :=
  match l with
  | [] => None
  | s :: l => if same_buffer b s then Some i else find_slot b (S i) l
  end.

Definition is_back (back : option nat) (i : nat) : bool := bool_decide (back = Some i).

(** A buffer of a new size: the others of another size go. *)
Fixpoint drop_old (back : option nat) (d : nvn_dmabuf) (i : nat) (l : list nvn_slot) : M eworld (list nvn_slot) :=
  match l with
  | [] => mret []
  | s :: l =>
      s ← (if negb (sl_anwb s =? NULL) && negb (is_back back i)
              && (negb (sl_width s =? db_width d) || negb (sl_height s =? db_height d))
           then slot_release s else mret s);
      l ← drop_old back d (S i) l;
      mret (s :: l)
  end.

(** The first empty slot, or the least recently used one that is not the
    back buffer. *)
Fixpoint pick_victim (back : option nat) (i : nat) (l : list nvn_slot) (best : option (nat * Z)) : option nat :=
  match l with
  | [] => fst <$> best
  | s :: l =>
      if sl_anwb s =? NULL then Some i
      else pick_victim back (S i) l
             (if negb (is_back back i)
                 && match best with None => true | Some (_, u) => sl_used s <? u end
              then Some (i, sl_used s) else best)
  end.

Fixpoint release_all (l : list nvn_slot) : M eworld () :=
  match l with
  | [] => mret tt
  | s :: l => _ ← (if negb (sl_anwb s =? NULL) then (_ ← slot_release s; mret tt) else mret tt); release_all l
  end.

(** The surface (its slots and stamp change) and the slot of [b]. *)
Definition slot_for (ps : surface) (b : abuffer) : M eworld (surface * option nat) :=
  match find_slot b 0 (ps_slots ps) with
  | Some i =>
      let stamp := u64 (ps_stamp ps + 1) in
      mret (mk_surface (ps_window ps) (alter (fun s => set_used s stamp) i (ps_slots ps)) (ps_back ps) stamp (ps_lost ps), Some i)
  | None =>
  match nvn_gralloc_decode b with
  | None => _ ← nvn_error EGL_BAD_NATIVE_WINDOW; mret (ps, None)
  | Some d =>
  l ← drop_old (ps_back ps) d 0 (ps_slots ps);
  match pick_victim (ps_back ps) 0 l None with
  | None => mret (ps, None)
  | Some v =>
      s ← (if negb (sl_anwb (default empty_slot (l !! v)) =? NULL)
           then slot_release (default empty_slot (l !! v)) else mret (default empty_slot (l !! v)));
      let l := <[v := s]> l in
      cb ← eask (fun t => e_import E t d);
      _ ← eev (Created KColor (negb (cb =? NULL)) cb);
      if cb =? NULL
      then (_ ← nvn_error EGL_BAD_NATIVE_WINDOW;
            mret (mk_surface (ps_window ps) l (ps_back ps) (ps_stamp ps) (ps_lost ps), None))
      else
      _ ← eev (Created KRef true (ab_ptr b));
      let stamp := u64 (ps_stamp ps + 1) in
      let s := mk_slot (ab_ptr b) (ab_handle b) cb (db_width d) (db_height d) (db_fourcc d) (db_modifier d) 0 stamp in
      mret (mk_surface (ps_window ps) (<[v := s]> l) (ps_back ps) stamp (ps_lost ps), Some v)
  end end end.

(** ** Fences *)

Definition make_fence : M eworld Z :=
  s ← eask (fun t => e_create_sync E t None);
  _ ← eev (Created KSync (negb (s =? NULL)) s);
  if s =? NULL then (_ ← nvn_error EGL_BAD_ALLOC; mret (-1))
  else
  _ ← eev (Called "glFlush" []);
  fd ← eask (fun t => e_dup_fence E t s);
  _ ← eev (Created KFd (0 <=? fd) fd);
  _ ← eev (Destroyed KSync s);
  _ ← whenE (fd <? 0) (nvn_error EGL_BAD_ALLOC);
  mret fd.

Definition gpu_wait (fd : Z) : M eworld bool :=
  s ← eask (fun t => e_create_sync E t (Some fd));
  _ ← eev (Created KSync (negb (s =? NULL)) s);
  if s =? NULL then (_ ← close fd; _ ← nvn_error EGL_BAD_ALLOC; mret false)
  else
  _ ← eev (Moved KFd fd);
  ok ← eask (fun t => e_wait_sync E t s);
  _ ← eev (Called "WaitSync" [if ok : bool then 1 else 0]);
  _ ← eev (Destroyed KSync s);
  _ ← whenE (negb ok) (nvn_error EGL_BAD_ALLOC);
  mret ok.

(** ** Creating and destroying a surface *)

(** The driver's attributes: the application's less the platform's own. *)
Fixpoint driver_attribs (attribs : list (Z * Z)) : option (list (Z * Z)) :=
  match attribs with
  | [] => Some [(e_y_inverted E, EGL_TRUE)]
  | (a, v) :: l =>
      if a =? e_y_inverted E then None
      else if a =? EGL_RENDER_BUFFER then
        if (v =? EGL_SINGLE_BUFFER) || (v =? EGL_BACK_BUFFER) then driver_attribs l else None
      else cons (a, v) <$> driver_attribs l
  end.

(** A window as the application passes it. *)
Record window := mk_window { wn_ptr : Z; wn_magic : Z }.

(** [fail:] once [ps] exists: the dequeued buffer goes back with its fence,
    or the fence alone is closed. *)
Definition create_fail (ps : surface) (b : option abuffer) (fence : Z) : M eworld Z :=
  fence ← (match b with Some b => _ ← cancelBuffer (ab_ptr b) fence; mret (-1) | None => mret fence end);
  _ ← release_all (ps_slots ps);
  _ ← whenE (negb (ps_window ps =? NULL)) (eev (Destroyed KWin (ps_window ps)));
  _ ← whenE (0 <=? fence) (close fence);
  _ ← put_priv None;
  mret NULL.

(** From [slot_for] on. *)
Definition create_attached (ps : surface) (b : abuffer) : M eworld Z :=
  '(ps, s) ← slot_for ps b;
  match s with
  | None => create_fail ps (Some b) (-1)
  | Some i =>
  let ps := mk_surface (ps_window ps) (ps_slots ps) (Some i) (ps_stamp ps) (ps_lost ps) in
  internal ← eask (e_create_surface E);
  _ ← eev (Called "attach" [ab_ptr b]);
  if internal =? NULL
  then (e ← eask (e_driver_error E);
        _ ← nvn_error (if e =? EGL_SUCCESS then EGL_BAD_ALLOC else e);
        create_fail ps (Some b) (-1))
  else
  _ ← put_priv (Some ps);
  _ ← put_internal internal;
  mret internal
  end.

(** From [ps->window = win] on. *)
Definition create_on_window (ps : surface) : M eworld Z :=
  _ ← eev (Created KWin true (ps_window ps));
  _ ← put_priv (Some ps);
  r ← eask (e_set_usage E);
  _ ← eev (Called "setUsage" [r]);
  if negb (r =? 0) then (_ ← nvn_error EGL_BAD_NATIVE_WINDOW; create_fail ps None (-1))
  else
  '(b, fence) ← dequeueBuffer;
  match b with
  | None => _ ← nvn_error EGL_BAD_NATIVE_WINDOW; create_fail ps None fence
  | Some b =>
  _ ← whenE (0 <=? fence) (_ ← cpu_wait fence; close fence);
  create_attached ps b
  end.

(** [taken]: another surface of the display has this window; [config]: the
    surface mask of the configuration, if it exists.  The result is the
    driver's surface, 0 = EGL_NO_SURFACE. *)
Definition nvnCreateWindowSurface (win : option window) (taken : bool) (config : option Z) (attribs : list (Z * Z)) :
  M eworld Z :=
  match win with
  | None => _ ← nvn_error EGL_BAD_NATIVE_WINDOW; mret NULL
  | Some win =>
  if negb (wn_magic win =? NVN_ANDROID_NATIVE_WINDOW_MAGIC)
  then (_ ← nvn_error EGL_BAD_NATIVE_WINDOW; mret NULL)
  else if taken then (_ ← nvn_error EGL_BAD_ALLOC; mret NULL)
  else match config with
  | None => _ ← nvn_error EGL_BAD_CONFIG; mret NULL
  | Some mask =>
  if negb (has_any mask EGL_WINDOW_BIT) then (_ ← nvn_error EGL_BAD_MATCH; mret NULL)
  else
  ok ← eask (e_alloc E);
  let ps := mk_surface NULL (replicate NVN_MAX_SLOTS empty_slot) None 0 false in
  if negb ok then (_ ← nvn_error EGL_BAD_ALLOC; create_fail ps None (-1))
  else
  match driver_attribs attribs with
  | None => _ ← nvn_error EGL_BAD_ATTRIBUTE; create_fail ps None (-1)
  | Some drv => create_on_window (mk_surface (wn_ptr win) (ps_slots ps) None 0 false)
  end end end.

Definition nvnDestroySurface : M eworld () :=
  w ← getS;
  match priv w with
  | None => mret tt
  | Some ps =>
  let owned : bool := bool_decide (is_Some (ps_back ps)) && negb (ps_lost ps) in
  fence ← (if negb (destroyed w) then
             current ← eask (e_current E);
             fence ← (if owned && current then make_fence else mret (-1));
             _ ← whenE (negb (internal_surface w =? NULL)) (eev (Called "eglDestroySurface" [internal_surface w]));
             mret fence
           else mret (-1));
  _ ← (match ps_back ps with
       | Some i => if negb (ps_lost ps)
                   then cancelBuffer (sl_anwb (default empty_slot (ps_slots ps !! i))) fence
                   else whenE (0 <=? fence) (close fence)
       | None => whenE (0 <=? fence) (close fence)
       end);
  _ ← release_all (ps_slots ps);
  _ ← eev (Destroyed KWin (ps_window ps));
  put_priv None
  end.

(** ** Presenting *)

(** Every presented slot ages by one, the queued one becomes 1. *)
Definition age_one (s : nvn_slot) : nvn_slot :=
  if negb (sl_anwb s =? NULL) && (0 <? sl_age s) then set_age s (sl_age s + 1) else s.
Definition ages_after (back : nat) (l : list nvn_slot) : list nvn_slot := alter (fun s => set_age s 1) back (age_one <$> l).

(** The surface after a failure that lost its back buffer. *)
Definition lost_surface (ps : surface) : surface := mk_surface (ps_window ps) (ps_slots ps) None (ps_stamp ps) true.

(** Wait first, attach second. *)
Definition wait_and_attach (fence cb : Z) (b : abuffer) : M eworld bool :=
  waited ← (if 0 <=? fence then
              wait_fd ← eask (fun t => e_dup E t fence);
              _ ← eev (Created KFd (0 <=? wait_fd) wait_fd);
              if wait_fd <? 0 then (_ ← nvn_error EGL_BAD_ALLOC; mret false) else gpu_wait wait_fd
            else mret true);
  if negb waited then mret false
  else
  attached ← eask (fun t => e_set_color E t cb);
  _ ← eev (Called "attach" [ab_ptr b]);
  _ ← whenE (negb attached) (nvn_error EGL_BAD_ALLOC);
  mret attached.

(** From [dequeueBuffer] on. *)
Definition next_buffer (ps : surface) : M eworld bool :=
  '(b, fence) ← dequeueBuffer;
  match b with
  | None => _ ← put_priv (Some (lost_surface ps)); _ ← nvn_error EGL_BAD_NATIVE_WINDOW; mret false
  | Some b =>
  '(ps, s) ← slot_for ps b;
  attached ← (match s with
              | Some j => wait_and_attach fence (sl_cb (default empty_slot (ps_slots ps !! j))) b
              | None => mret false
              end);
  if negb attached
  then (_ ← cancelBuffer (ab_ptr b) fence; _ ← put_priv (Some (lost_surface ps)); mret false)
  else
  _ ← whenE (0 <=? fence) (close fence);
  _ ← put_priv (Some (mk_surface (ps_window ps) (ps_slots ps) s (ps_stamp ps) (ps_lost ps)));
  mret true
  end.

Definition nvnSwapBuffers : M eworld bool :=
  w ← getS;
  match priv w with
  | None => mret false
  | Some ps =>
  match ps_back ps with
  | None => _ ← nvn_error EGL_BAD_NATIVE_WINDOW; mret false
  | Some i =>
  if ps_lost ps then (_ ← nvn_error EGL_BAD_NATIVE_WINDOW; mret false)
  else
  ok ← eask (e_swap E);
  _ ← eev (Called "eglSwapBuffers" [internal_surface w]);
  if negb ok then (e ← eask (e_driver_error E); _ ← nvn_error e; mret false)
  else
  fd ← make_fence;
  if fd <? 0 then mret false
  else
  let anwb := sl_anwb (default empty_slot (ps_slots ps !! i)) in
  r ← eask (fun t => e_queue E t anwb);
  _ ← eev (Moved KFd fd);
  if negb (r =? 0) then (_ ← nvn_error EGL_BAD_NATIVE_WINDOW; mret false)
  else
  _ ← eev (Moved KOwned anwb);
  _ ← eev (Called "queueBuffer" [anwb]);
  next_buffer (mk_surface (ps_window ps) (ages_after i (ps_slots ps)) (ps_back ps) (ps_stamp ps) (ps_lost ps))
  end end.

(** The interval is clamped to the window's range. *)
Definition nvnSwapInterval (min_interval max_interval interval : Z) : M eworld bool :=
  let interval := if interval <? min_interval then min_interval else interval in
  let interval := if max_interval <? interval then max_interval else interval in
  r ← eask (fun t => e_set_interval E t interval);
  _ ← eev (Called "setSwapInterval" [interval; r]);
  if negb (r =? 0) then (_ ← nvn_error EGL_BAD_NATIVE_WINDOW; mret false)
  else mret true.

(** [None]: EPL_QUERY_RESULT_UNKNOWN. *)
Definition nvnQuerySurface (ps : surface) (attrib : Z) : option Z :=
  let s := i ← ps_back ps; ps_slots ps !! i in
  if attrib =? EGL_BUFFER_AGE_KHR then Some (match s with Some s => sl_age s | None => 0 end)
  else if (attrib =? EGL_WIDTH) || (attrib =? EGL_HEIGHT) then
    match s with
    | None => None
    | Some s => Some (if attrib =? EGL_WIDTH then sl_width s else sl_height s)
    end
  else None.

End Env.

(** ** Accounting *)

Definition owns (x h : Z) : Z := if decide (x = h) then 1 else 0.

(** Handles that stand for something counted. *)
Definition counted (k : kind) (h : Z) : Prop :=
  match k with
  | KColor | KSync | KRef | KWin | KOwned => h <> NULL
  | KFd => 0 <= h
  | _ => False
  end.

Section Flags.
(** [des]: the platform is destroyed: the color buffers went with the driver.
    [fok]: the window keeps the fences of failed dequeues.  [pok]: [poll]
    succeeds. *)
Context (des : bool) (fok pok : Prop).

(** What is accounted for. *)
Definition counts (k : kind) (h : Z) : Prop :=
  match k with
  | KColor => h <> NULL /\ des = false
  | KSync | KRef | KWin | KOwned => h <> NULL
  | KFd => 0 <= h /\ fok
  | _ => False
  end.
(** What a cached slot holds: a reference and a color buffer. *)
Definition slot_res (k : kind) (h : Z) (s : nvn_slot) : Z :=
  match k with KRef => owns (sl_anwb s) h | KColor => owns (sl_cb s) h | _ => 0 end.
Definition slots_res (k : kind) (h : Z) (l : list nvn_slot) : Z := sumZ (slot_res k h <$> l).

Definition slot_ok (s : nvn_slot) : Prop :=
  s = empty_slot \/ (sl_anwb s <> NULL /\ sl_cb s <> NULL /\ 0 <= sl_age s).

(** A step that adds [t] to the trace and leaves the surface record. *)
Record ext (w w' : eworld) (t : trace) : Prop := {
  x_tr : etr w' = etr w ++ t;
  x_priv : priv w' = priv w;
  x_int : internal_surface w' = internal_surface w;
  x_des : destroyed w' = destroyed w;
}.

Lemma ext_refl w : ext w w [].
Proof. split; [by rewrite app_nil_r|done..]. Qed.
Lemma ext_trans w1 w2 w3 t u : ext w1 w2 t -> ext w2 w3 u -> ext w1 w3 (t ++ u).
Proof. intros [A1 A2 A3 A4] [B1 B2 B3 B4]. split; [by rewrite B1, A1, app_assoc|congruence..]. Qed.
Lemma ext_ev e w : ext w (eev e w).2 [e].
Proof. done. Qed.
Lemma ext_error e w : ext w (nvn_error e w).2 [].
Proof. split; [by rewrite app_nil_r|done..]. Qed.

Lemma silent_app t u : silent t -> silent u -> silent (t ++ u).
Proof. intros. by apply Forall_app. Qed.

Lemma slots_res_cons k h s l : slots_res k h (s :: l) = slot_res k h s + slots_res k h l.
Proof. done. Qed.
Lemma slots_res_insert k h i s l s0 :
  l !! i = Some s0 -> slots_res k h (<[i := s]> l) = slots_res k h l - slot_res k h s0 + slot_res k h s.
Proof.
  revert i. induction l as [|x l IH]; intros i Hi; [done|]. destruct i as [|i]; cbn in Hi.
  - injection Hi as ->. cbn [insert list_insert]. rewrite !slots_res_cons. lia.
  - change (<[S i := s]> (x :: l)) with (x :: <[i := s]> l). rewrite !slots_res_cons, IH by done. lia.
Qed.
Lemma slots_res_ext k h l l' :
  Forall2 (fun s s' => sl_anwb s' = sl_anwb s /\ sl_cb s' = sl_cb s) l l' -> slots_res k h l' = slots_res k h l.
Proof.
  induction 1 as [|s s' l l' [E1 E2] F IH]; [done|]. rewrite !slots_res_cons, IH. f_equal.
  unfold slot_res. by rewrite E1, E2.
Qed.
Lemma empty_res k h : counts k h -> slot_res k h empty_slot = 0.
Proof.
  intros Hc. unfold slot_res, owns, empty_slot. destruct k; cbn in *; unfold NULL in *; try done; destruct_and?; rewrite decide_False; congruence.
Qed.

(** Resources exchanged with the slots. *)
Definition settles (t : trace) (l l' : list nvn_slot) : Prop :=
  forall k h, counts k h -> balance k h t = slots_res k h l' - slots_res k h l.

Lemma bal_ev k h e : balance k h [e] = ev_delta k h e.
Proof. unfold balance, sumZ. cbn. lia. Qed.

(** ** Slots *)

Lemma release_slot_spec s w :
  destroyed w = des -> slot_ok s ->
  wp (slot_release s) (fun s' w' => s' = empty_slot /\ exists t, ext w w' t /\ silent t /\
    forall k h, counts k h -> balance k h t = - slot_res k h s) w.
Proof.
  intros Hd Hs. unfold slot_release. apply wp_bind. unfold wp at 1. cbn [getS fst snd]. rewrite Hd.
  destruct Hs as [->|(Ha & Hc & _)].
  - cbn. split; [done|]. exists []. split; [apply ext_refl|]. split; [constructor|].
    intros k h Hk. by rewrite empty_res.
  - rewrite (proj2 (Z.eqb_neq _ _) Hc), (proj2 (Z.eqb_neq _ _) Ha). destruct des eqn:Edes; cbn [negb andb whenE].
    + split; [done|]. exists [Destroyed KRef (sl_anwb s)]. split; [apply ext_ev|]. split; [by repeat constructor|].
      intros k h Hk. rewrite bal_ev, delta_destroyed. unfold slot_res, owns.
      destruct k; cbn in Hk; try done; destruct_and?; try congruence; bal_simpl; lia.
    + split; [done|]. exists ([Destroyed KColor (sl_cb s)] ++ [Destroyed KRef (sl_anwb s)]).
      split; [eapply ext_trans; apply ext_ev|]. split; [by repeat constructor|].
      intros k h Hk. rewrite balance_app, !bal_ev, !delta_destroyed. unfold slot_res, owns.
      destruct k; cbn in Hk; try done; bal_simpl; lia.
Qed.

(** How a slot changes: only its stamp, or it is emptied, or it is new. *)
Definition slot_step (s s' : nvn_slot) : Prop :=
  s' = set_used s (sl_used s') \/ s' = empty_slot \/ (sl_anwb s' <> NULL /\ sl_cb s' <> NULL /\ sl_age s' = 0).
Lemma slot_step_refl s : slot_step s s.
Proof. left. by destruct s. Qed.

Lemma drop_old_spec back d i l w :
  destroyed w = des -> Forall slot_ok l ->
  wp (drop_old back d i l) (fun l' w' => exists t, ext w w' t /\ silent t /\ settles t l l' /\
    length l' = length l /\ Forall slot_ok l' /\
    (forall j s, l !! j = Some s -> l' !! j = Some s \/ (l' !! j = Some empty_slot /\ back <> Some (i + j)%nat))) w.
Proof.
  revert i w. induction l as [|s l IH]; intros i w Hd Hl; cbn [drop_old].
  { apply wp_ret. exists []. split_and!; [apply ext_refl|constructor|by intros k h _|done|done|done]. }
  apply Forall_cons in Hl as [Hs Hl]. apply wp_bind.
  set (c := negb (sl_anwb s =? NULL) && _ && _).
  assert (R : wp (if c then slot_release s else mret s) (fun s' w' => exists t, ext w w' t /\ silent t /\
    (forall k h, counts k h -> balance k h t = slot_res k h s' - slot_res k h s) /\ slot_ok s' /\
    (s' = s \/ (s' = empty_slot /\ back <> Some i))) w).
  { destruct c eqn:Ec.
    - eapply wp_mono; [by apply release_slot_spec|]. intros s' w' (-> & t & X & Si & B). exists t.
      split; [done|]. split; [done|]. split; [intros k h Hk; rewrite B, empty_res by done; lia|]. split; [by left|].
      right. split; [done|]. unfold c, is_back in Ec. bool_props. done.
    - apply wp_ret. exists []. split_and!; [apply ext_refl|constructor|intros k h _; rewrite balance_nil; lia|done|by left]. }
  eapply wp_mono; [exact R|]. intros s' w1 (t1 & X1 & S1 & B1 & O1 & P1).
  apply wp_bind. eapply wp_mono; [apply (IH (S i)); [by rewrite (x_des _ _ _ X1)|done]|].
  intros l' w2 (t2 & X2 & S2 & B2 & L2 & O2 & P2). apply wp_ret. exists (t1 ++ t2).
  split; [by eapply ext_trans|]. split; [by apply silent_app|]. split; [|split; [cbn; by rewrite L2|split; [by constructor|]]].
  - intros k h Hk. rewrite balance_app, B1, (B2 k h), !slots_res_cons by done. lia.
  - intros [|j] s0 Hj; cbn in Hj |- *.
    + injection Hj as <-. rewrite Nat.add_0_r. destruct P1 as [->|[-> ?]]; auto.
    + destruct (P2 j s0 Hj) as [?|[? Hb]]; [by left|right]. split; [done|]. by rewrite <- Nat.add_succ_comm.
Qed.

Lemma pick_victim_spec back i l best :
  match pick_victim back i l best with
  | Some v => (exists u, best = Some (v, u)) \/
      ((i <= v)%nat /\ exists s, l !! (v - i)%nat = Some s /\ (sl_anwb s = NULL \/ back <> Some v))
  | None => best = None /\ forall j s, l !! j = Some s -> back = Some (i + j)%nat
  end.
Proof.
  revert i best. induction l as [|s l IH]; intros i best; cbn [pick_victim].
  { destruct best as [[v u]|]; cbn; [left; by exists u|]. by split. }
  destruct (Z.eqb_spec (sl_anwb s) NULL) as [Hs|Hs].
  { right. split; [done|]. exists s. rewrite Nat.sub_diag. cbn. auto. }
  set (best' := if _ && _ then _ else best). specialize (IH (S i) best').
  destruct (pick_victim back (S i) l best') as [v|].
  - destruct IH as [[u Hu]|(Hv & s' & Hl & Hs')].
    + unfold best' in Hu. destruct (_ && _) eqn:C; [|left; eauto]. injection Hu as <- _. right. split; [done|].
      exists s. rewrite Nat.sub_diag. split; [done|]. right. unfold is_back in C. by bool_props.
    + right. split; [lia|]. exists s'. by replace (v - i)%nat with (S (v - S i)) by lia.
  - destruct IH as [Hb Hl]. unfold best' in Hb. destruct (_ && _) eqn:C; [done|]. split; [done|].
    rewrite Hb, andb_true_r in C. unfold is_back in C. bool_props.
    intros [|j] s' Hj; cbn in Hj; [by rewrite Nat.add_0_r|]. rewrite (Hl j s' Hj). f_equal. lia.
Qed.

(** With at least two slots there is always a victim, and it is not the back
    buffer. *)
Lemma victim_exists back l :
  (2 <= length l)%nat -> (forall i s, back = Some i -> l !! i = Some s -> sl_anwb s <> NULL) ->
  exists v s, pick_victim back 0 l None = Some v /\ l !! v = Some s /\ back <> Some v.
Proof.
  intros Hl Hb. pose proof (pick_victim_spec back 0 l None) as P. destruct (pick_victim back 0 l None) as [v|].
  - destruct P as [[u ?]|(_ & s & Hs & Hv)]; [done|]. rewrite Nat.sub_0_r in Hs. exists v, s. split_and!; [done|done|].
    destruct Hv as [Hv|Hv]; [|done]. intros ->. by apply (Hb v s).
  - destruct P as [_ P]. destruct l as [|a [|b l]]; cbn in Hl; try lia.
    pose proof (P 0%nat a eq_refl) as H0. rewrite (P 1%nat b eq_refl) in H0. discriminate.
Qed.

Lemma find_slot_spec b i l :
  match find_slot b i l with
  | Some j => (i <= j)%nat /\ exists s, l !! (j - i)%nat = Some s /\ sl_anwb s = ab_ptr b
  | None => True
  end.
Proof.
  revert i. induction l as [|s l IH]; intros i; cbn [find_slot]; [done|].
  destruct (same_buffer b s) eqn:C.
  - split; [done|]. exists s. rewrite Nat.sub_diag. split; [done|]. unfold same_buffer in C. by bool_props.
  - specialize (IH (S i)). destruct (find_slot b (S i) l) as [j|]; [|done]. destruct IH as (Hj & s' & Hl & Hs).
    split; [lia|]. exists s'. by replace (j - i)%nat with (S (j - S i)) by lia.
Qed.

(** A surface between calls. *)
Record surf_ok (ps : surface) : Prop := {
  so_len : length (ps_slots ps) = NVN_MAX_SLOTS;
  so_slots : Forall slot_ok (ps_slots ps);
  so_back i : ps_back ps = Some i -> exists s, ps_slots ps !! i = Some s /\ sl_anwb s <> NULL;
  so_lost : ps_lost ps = true -> ps_back ps = None;
}.

(** What [slot_for] does to a surface. *)
Record slotted (b : abuffer) (ps ps' : surface) (r : option nat) : Prop := {
  sd_window : ps_window ps' = ps_window ps;
  sd_back : ps_back ps' = ps_back ps;
  sd_lost : ps_lost ps' = ps_lost ps;
  sd_ok : surf_ok ps';
  sd_step : Forall2 slot_step (ps_slots ps) (ps_slots ps');
  sd_keep i s : ps_back ps = Some i -> ps_slots ps !! i = Some s ->
    exists s', ps_slots ps' !! i = Some s' /\ s' = set_used s (sl_used s');
  sd_slot j : r = Some j -> exists s, ps_slots ps' !! j = Some s /\ sl_anwb s = ab_ptr b /\ sl_anwb s <> NULL;
}.

Lemma decode_ptr b d : nvn_gralloc_decode b = Some d -> ab_ptr b <> NULL.
Proof. unfold nvn_gralloc_decode. destruct (_ || _) eqn:C; [done|]. bool_props. by intros _. Qed.

Lemma set_used_ok s u : slot_ok s -> sl_anwb s <> NULL -> slot_ok (set_used s u).
Proof. intros [->|H] Hn; [done|]. by right. Qed.

Lemma hit_slotted b ps i u :
  surf_ok ps -> find_slot b 0 (ps_slots ps) = Some i -> ab_ptr b <> NULL ->
  slotted b ps (mk_surface (ps_window ps) (alter (fun s => set_used s u) i (ps_slots ps)) (ps_back ps) u (ps_lost ps)) (Some i) /\
  forall k h, slots_res k h (alter (fun s => set_used s u) i (ps_slots ps)) = slots_res k h (ps_slots ps).
Proof.
  intros [L O B Lo] Hf Hb. pose proof (find_slot_spec b 0 (ps_slots ps)) as P. rewrite Hf in P.
  destruct P as (_ & s & Hs & Ha). rewrite Nat.sub_0_r in Hs.
  assert (Hlk : forall j, alter (fun s => set_used s u) i (ps_slots ps) !! j =
    if decide (i = j) then (fun s => set_used s u) <$> ps_slots ps !! j else ps_slots ps !! j).
  { intros j. case_decide; [subst; by rewrite list_lookup_alter_eq|by rewrite list_lookup_alter_ne]. }
  split.
  - split; cbn [ps_window ps_back ps_lost ps_slots]; try done.
    + split; cbn [ps_window ps_back ps_lost ps_slots]; [by rewrite length_alter| | |done].
      * apply Forall_alter; [done|]. intros x Hx Hok. apply set_used_ok; [done|]. congruence.
      * intros j Hj. destruct (B j Hj) as (x & Hx & Hn). rewrite Hlk, Hx. case_decide; [|by exists x].
        exists (set_used x u). done.
    + apply Forall2_same_length_lookup. split; [by rewrite length_alter|]. intros j x y Hx. rewrite Hlk, Hx.
      case_decide; intros [= <-]; [by left|apply slot_step_refl].
    + intros j x Hj Hx. rewrite Hlk, Hx. case_decide; [by exists (set_used x u)|]. exists x. split; [done|]. by destruct x.
    + intros j [= <-]. rewrite Hlk, decide_True, Hs by done. exists (set_used s u). split; [done|]. cbn. by rewrite Ha.
  - intros k h. apply slots_res_ext. apply Forall2_same_length_lookup. split; [by rewrite length_alter|].
    intros j x y Hx. rewrite Hlk, Hx. case_decide; by intros [= <-].
Qed.

(** Old sizes dropped, slot [v] replaced by [x]. *)
Lemma replaced_slotted b ps l v x stamp r :
  surf_ok ps -> length l = length (ps_slots ps) -> Forall slot_ok l ->
  (forall j s, ps_slots ps !! j = Some s -> l !! j = Some s \/ (l !! j = Some empty_slot /\ ps_back ps <> Some j)) ->
  (v < length l)%nat -> ps_back ps <> Some v ->
  (x = empty_slot /\ r = None \/ sl_anwb x = ab_ptr b /\ sl_anwb x <> NULL /\ sl_cb x <> NULL /\ sl_age x = 0 /\ r = Some v) ->
  slotted b ps (mk_surface (ps_window ps) (<[v := x]> l) (ps_back ps) stamp (ps_lost ps)) r.
Proof.
  intros [L O B Lo] Hlen Ho Hl Hv Hnb Hx.
  assert (Hkeep : forall i s, ps_back ps = Some i -> ps_slots ps !! i = Some s -> <[v := x]> l !! i = Some s).
  { intros i s Hi Hs. rewrite list_lookup_insert_ne by congruence. destruct (Hl i s Hs) as [?|[_ ?]]; [done|congruence]. }
  assert (Hxok : slot_ok x) by (destruct Hx as [[-> _]|(_ & ? & ? & ? & _)]; [by left|right; split_and!; [done|done|lia]]).
  split; cbn [ps_window ps_back ps_lost ps_slots]; try done.
  - split; cbn [ps_window ps_back ps_lost ps_slots]; [by rewrite length_insert, Hlen| | |done].
    + by apply Forall_insert.
    + intros i Hi. destruct (B i Hi) as (s & Hs & Hn). exists s. split; [by apply Hkeep|done].
  - apply Forall2_same_length_lookup. split; [by rewrite length_insert|]. intros j s s' Hs Hs'.
    apply list_lookup_insert_Some in Hs' as [(<- & <- & _)|[Hj Hs']].
    + right. destruct Hx as [[-> _]|(? & ? & ? & ? & _)]; auto.
    + destruct (Hl j s Hs) as [E|[E _]]; rewrite E in Hs'; injection Hs' as <-; [apply slot_step_refl|by right; left].
  - intros i s Hi Hs. exists s. split; [by apply Hkeep|]. by destruct s.
  - intros j Hj. destruct Hx as [[_ ->]|(? & ? & ? & ? & ->)]; [done|]. injection Hj as <-. exists x.
    split; [by rewrite list_lookup_insert_eq|done].
Qed.

(** ** The order of waits and attaches *)

(** A buffer whose release fence has not been waited for is pending; an
    attach while one is pending is the error. *)
Definition safe_step (st : bool * bool) (e : event) : bool * bool :=
  match e with
  | Called "dequeueBuffer" [_; fence] => (0 <=? fence, st.2)
  | Called "poll" [_; ok] => (st.1 && negb (ok =? 1), st.2)
  | Called "WaitSync" [ok] => (st.1 && negb (ok =? 1), st.2)
  | Called "attach" _ => (st.1, st.2 && negb st.1)
  | _ => st
  end.
Definition run_safe (t : trace) (st : bool * bool) : bool * bool := foldl safe_step st t.

Lemma run_safe_app t u st : run_safe (t ++ u) st = run_safe u (run_safe t st).
Proof. apply foldl_app. Qed.
Lemma run_safe_silent t st : silent t -> run_safe t st = st.
Proof. unfold run_safe. intros H. revert st. induction H as [|e t He F IH]; intros st; [done|]. cbn. by destruct e. Qed.

(** ** Presented buffers, the most recent first *)

Definition queued (e : event) : option Z := match e with Called "queueBuffer" [b] => Some b | _ => None end.
Definition presented (t : trace) : list Z := reverse (omap queued t).

Definition noq (t : trace) : Prop := omap queued t = [].

Lemma presented_app t u : presented (t ++ u) = presented u ++ presented t.
Proof. unfold presented. by rewrite omap_app, reverse_app. Qed.
Lemma presented_noq t u : noq u -> presented (t ++ u) = presented t.
Proof. intros H. rewrite presented_app. unfold presented at 1. by rewrite H. Qed.
Lemma noq_app t u : noq t -> noq u -> noq (t ++ u).
Proof. unfold noq. intros. by rewrite omap_app, H, H0. Qed.
Lemma noq_silent t : silent t -> noq t.
Proof. unfold noq. induction 1 as [|e t He F IH]; [done|]. by destruct e. Qed.

(** Neither waits nor attaches nor presents. *)
Definition quiet (t : trace) : Prop := noq t /\ forall st, run_safe t st = st.
Lemma quiet_silent t : silent t -> quiet t.
Proof. intros H. split; [by apply noq_silent|]. intros st. by apply run_safe_silent. Qed.
Lemma quiet_app t u : quiet t -> quiet u -> quiet (t ++ u).
Proof. intros [A1 A2] [B1 B2]. split; [by apply noq_app|]. intros st. by rewrite run_safe_app, A2, B2. Qed.

(** A slot of age [a] holds the buffer presented [a] swaps ago, and no two
    presented slots have the same age. *)
Definition ages_ok (l : list nvn_slot) (t : trace) : Prop :=
  (forall i s, l !! i = Some s -> 0 < sl_age s -> presented t !! Z.to_nat (sl_age s - 1) = Some (sl_anwb s)) /\
  (forall i j s s', l !! i = Some s -> l !! j = Some s' -> i <> j -> 0 < sl_age s -> sl_age s <> sl_age s').

Lemma ages_step l l' t u : Forall2 slot_step l l' -> noq u -> ages_ok l t -> ages_ok l' (t ++ u).
Proof.
  intros F N [A D].
  assert (H : forall i s', l' !! i = Some s' -> 0 < sl_age s' -> exists s, l !! i = Some s /\ sl_age s' = sl_age s /\ sl_anwb s' = sl_anwb s).
  { intros i s' Hs' Ha. destruct (Forall2_lookup_r _ _ _ _ _ F Hs') as (s & Hs & [E|[E|(_ & _ & E)]]).
    - exists s. rewrite E. done.
    - rewrite E in Ha. cbn in Ha. lia.
    - lia. }
  split.
  - intros i s' Hs' Ha. destruct (H i s' Hs' Ha) as (s & Hs & E1 & E2). rewrite presented_noq, E1, E2 by done.
    apply (A i s Hs). lia.
  - intros i j s1 s2 H1 H2 Hij Ha E. destruct (H i s1 H1 Ha) as (x & Hx & E1 & _).
    destruct (H j s2 H2 ltac:(lia)) as (y & Hy & E2 & _). apply (D i j x y Hx Hy Hij); lia.
Qed.

Lemma age_one_spec x :
  slot_ok x -> 0 < sl_age (age_one x) ->
  0 < sl_age x /\ sl_anwb (age_one x) = sl_anwb x /\ sl_age (age_one x) = sl_age x + 1.
Proof.
  intros [->|(Hn & _ & _)]; [done|]. unfold age_one. rewrite (proj2 (Z.eqb_neq _ _) Hn). cbn [negb andb].
  destruct (Z.ltb_spec 0 (sl_age x)); cbn; lia || done.
Qed.

Lemma ages_lookup i l j :
  ages_after i l !! j = if decide (i = j) then (fun s => set_age s 1) <$> (age_one <$> l !! j) else age_one <$> l !! j.
Proof.
  unfold ages_after. case_decide; [subst; by rewrite list_lookup_alter_eq, list_lookup_fmap|].
  by rewrite list_lookup_alter_ne, list_lookup_fmap.
Qed.

(** A slot after queueing slot [i]: the queued one, of age 1, or another,
    one swap older. *)
Lemma ages_after_inv i l j s' :
  Forall slot_ok l -> ages_after i l !! j = Some s' -> 0 < sl_age s' ->
  exists s, l !! j = Some s /\ sl_anwb s' = sl_anwb s /\
    ((i = j /\ sl_age s' = 1) \/ (i <> j /\ 0 < sl_age s /\ sl_age s' = sl_age s + 1)).
Proof.
  intros F Hj Ha. rewrite ages_lookup in Hj. destruct (l !! j) as [s|] eqn:Hs; [|by case_decide].
  exists s. split; [done|]. rewrite Forall_forall in F. pose proof (F s (list_elem_of_lookup_2 _ _ _ Hs)) as Ho.
  case_decide as Hij; injection Hj as <-.
  - split; [unfold age_one; by case_match|]. by left.
  - destruct (age_one_spec s Ho Ha) as (? & ? & ?). split; [done|]. right. split; [done|lia].
Qed.

Lemma ages_queue l t i s u :
  Forall slot_ok l -> l !! i = Some s -> presented u = [sl_anwb s] -> ages_ok l t -> ages_ok (ages_after i l) (t ++ u).
Proof.
  intros F Hi Hu [A D]. split.
  - intros j s' Hj Ha. destruct (ages_after_inv _ _ _ _ F Hj Ha) as (x & Hx & -> & [[<- ->]|(Hne & Hp & ->)]).
    + rewrite presented_app, Hu. by simplify_eq.
    + rewrite presented_app, Hu. replace (Z.to_nat (sl_age x + 1 - 1)) with (S (Z.to_nat (sl_age x - 1))) by lia.
      cbn. by apply (A j).
  - intros j j' s1 s2 H1 H2 Hij Ha Heq.
    destruct (ages_after_inv _ _ _ _ F H1 Ha) as (x & Hx & _ & Cx).
    destruct (ages_after_inv _ _ _ _ F H2 ltac:(lia)) as (y & Hy & _ & Cy).
    destruct Cx as [[<- ?]|(? & ? & ?)], Cy as [[<- ?]|(? & ? & ?)]; try (congruence || lia).
    apply (D j j' x y Hx Hy Hij); lia.
Qed.

Section Swap.
Context (E : egl_env).

(** A window and a driver that answer every call of a swap. *)
Record cooperative : Prop := {
  co_swap t : e_swap E t = true;
  co_sync t fd : e_create_sync E t fd <> NULL;
  co_fence t s : 0 <= e_dup_fence E t s;
  co_queue t b : e_queue E t b = 0;
  co_dequeue t : exists b d f, e_dequeue E t = (0, Some b, f) /\ nvn_gralloc_decode b = Some d;
  co_import t d : e_import E t d <> NULL;
  co_dup t fd : 0 <= e_dup E t fd;
  co_wait t s : e_wait_sync E t s = true;
  co_color t cb : e_set_color E t cb = true;
}.

Lemma slot_for_spec ps b w :
  surf_ok ps -> destroyed w = des -> ab_ptr b <> NULL ->
  wp (slot_for E ps b) (fun r w' => slotted b ps r.1 r.2 /\ exists t, ext w w' t /\ silent t /\
    settles t (ps_slots ps) (ps_slots r.1) /\ (cooperative -> is_Some (nvn_gralloc_decode b) -> is_Some r.2)) w.
Proof.
  intros Hps Hd Hb. unfold slot_for. destruct (find_slot b 0 (ps_slots ps)) as [i|] eqn:Hf.
  { destruct (hit_slotted b ps i (u64 (ps_stamp ps + 1)) Hps Hf Hb) as [H1 H2]. apply wp_ret. split; [done|].
    exists []. split; [apply ext_refl|]. split; [constructor|]. split; [|done].
    intros k h _. cbn [fst ps_slots]. rewrite H2, balance_nil. lia. }
  destruct (nvn_gralloc_decode b) as [d|].
  2:{ unfold wp. rewrite bind_run. cbn [mret M_ret fst snd]. split.
      - split; try done; [apply Forall_Forall2_diag, Forall_forall; intros; apply slot_step_refl|].
        intros i s _ Hs. exists s. split; [done|]. by destruct s.
      - exists []. split; [apply ext_error|]. split; [constructor|].
        split; [intros k h _; rewrite balance_nil; lia|]. by intros _ [? ?]. }
  apply wp_bind. eapply wp_mono; [apply drop_old_spec; [done|apply Hps]|].
  intros l w1 (t1 & X1 & S1 & B1 & L1 & O1 & P1). cbn [Nat.add] in P1.
  assert (Hlen : length l = NVN_MAX_SLOTS) by (by rewrite L1, (so_len _ Hps)).
  destruct (victim_exists (ps_back ps) l) as (v & s & Ev & Hs & Hv).
  { rewrite Hlen. unfold NVN_MAX_SLOTS. lia. }
  { intros i s Hi Hs. destruct (so_back _ Hps i Hi) as (s0 & Hs0 & Hn).
    destruct (P1 i s0 Hs0) as [E1|[_ ?]]; [congruence|done]. }
  rewrite Ev, Hs. change (default empty_slot (Some s)) with s.
  assert (Hso : slot_ok s) by (rewrite Forall_forall in O1; apply O1; by eapply list_elem_of_lookup_2).
  assert (Hvl : (v < length l)%nat) by (by eapply lookup_lt_Some).
  apply wp_bind.
  assert (R : wp (if negb (sl_anwb s =? NULL) then slot_release s else mret s) (fun s' w' => s' = empty_slot /\
    exists t, ext w1 w' t /\ silent t /\ forall k h, counts k h -> balance k h t = - slot_res k h s) w1).
  { destruct (Z.eqb_spec (sl_anwb s) NULL) as [Ez|Ez]; cbn [negb].
    - apply wp_ret. destruct Hso as [->|[? _]]; [|done]. split; [done|]. exists [].
      split; [apply ext_refl|]. split; [constructor|]. intros k h Hk. by rewrite empty_res.
    - apply release_slot_spec; [by rewrite (x_des _ _ _ X1)|done]. }
  eapply wp_mono; [exact R|]. intros s' w2 (-> & t2 & X2 & S2 & B2).
  apply wp_bind. unfold wp at 1. cbn [eask fst snd]. set (cb := e_import E _ d).
  apply wp_bind. unfold wp at 1. set (w3 := (eev _ w2).2).
  assert (X3 : ext w w3 (t1 ++ t2 ++ [Created KColor (negb (cb =? NULL)) cb])).
  { eapply ext_trans; [done|]. eapply ext_trans; [done|apply ext_ev]. }
  destruct (Z.eqb_spec cb NULL) as [Ec|Ec]; cbn [negb] in X3.
  - unfold wp. rewrite bind_run. cbn [mret M_ret fst snd]. split; [apply replaced_slotted; auto|].
    exists ((t1 ++ t2 ++ [Created KColor false cb]) ++ []). split; [eapply ext_trans; [done|apply ext_error]|].
    split; [repeat apply silent_app; try done; by repeat constructor|]. split; [|intros Co; by destruct (co_import Co _ _ Ec)].
    intros k h Hk. cbn [ps_slots]. rewrite !balance_app, balance_nil, (B1 k h), (B2 k h), bal_ev, delta_failed by done.
    rewrite (slots_res_insert k h v _ l s Hs), empty_res by done. lia.
  - apply wp_bind. unfold wp at 1. apply wp_ret. cbn [fst snd].
    split; [rewrite list_insert_insert_eq; apply replaced_slotted; auto; right; by split_and!|].
    exists ((t1 ++ t2 ++ [Created KColor true cb]) ++ [Created KRef true (ab_ptr b)]).
    split; [eapply ext_trans; [done|apply ext_ev]|]. split; [repeat apply silent_app; try done; by repeat constructor|].
    split; [|done]. intros k h Hk. cbn [ps_slots]. rewrite !balance_app, (B1 k h), (B2 k h), !bal_ev, !delta_created by done.
    rewrite list_insert_insert_eq, (slots_res_insert k h v _ l s Hs). unfold slot_res at 3, owns. cbn [sl_anwb sl_cb].
    destruct k; cbn in Hk; try done; bal_simpl; lia.
Qed.

(** A descriptor the running call holds; a negative one is none. *)
Definition fres (fd : Z) (k : kind) (h : Z) : Z := match k with KFd => owns fd h | _ => 0 end.

Lemma fres_neg fd k h : counts k h -> fd < 0 -> fres fd k h = 0.
Proof. intros Hk Hf. unfold fres, owns. destruct k; try done. cbn in Hk. rewrite decide_False; [done|lia]. Qed.

Lemma bal_fd_new k h fd : counts k h -> balance k h [Created KFd (0 <=? fd) fd] = fres fd k h.
Proof.
  intros Hk. rewrite bal_ev. destruct (Z.leb_spec 0 fd) as [Hf|Hf].
  - rewrite delta_created. unfold fres, owns. destruct k; cbn in Hk; try done; by bal_simpl.
  - by rewrite delta_failed, fres_neg.
Qed.
Lemma bal_fd_gone k h fd e : counts k h -> e = Destroyed KFd fd \/ e = Moved KFd fd -> balance k h [e] = - fres fd k h.
Proof.
  intros Hk He. rewrite bal_ev. destruct He as [-> | ->]; rewrite ?delta_destroyed, ?delta_moved; unfold fres, owns;
    destruct k; cbn in Hk; try done; by bal_simpl.
Qed.
Lemma bal_sync k h s : balance k h [Created KSync true s] + balance k h [Destroyed KSync s] = 0.
Proof. rewrite !bal_ev, delta_created, delta_destroyed. lia. Qed.

Lemma make_fence_spec w :
  wp (make_fence E) (fun fd w' => (cooperative -> 0 <= fd) /\ exists t, ext w w' t /\ quiet t /\
    forall k h, counts k h -> balance k h t = fres fd k h) w.
Proof.
  unfold make_fence. apply wp_bind. unfold wp at 1. cbn [eask fst snd]. set (s := e_create_sync E _ _).
  apply wp_bind. unfold wp at 1. destruct (Z.eqb_spec s NULL) as [Es|Es]; cbn [negb].
  { apply wp_bind. unfold wp at 1. apply wp_ret. split; [intros Co; by destruct (co_sync Co _ _ Es)|].
    exists ([Created KSync false s] ++ []).
    split; [eapply ext_trans; [apply ext_ev|apply ext_error]|]. split; [done|].
    intros k h Hk. rewrite balance_app, bal_ev, delta_failed, balance_nil, fres_neg by (done || lia). done. }
  apply wp_bind. unfold wp at 1. apply wp_bind. unfold wp at 1. cbn [eask fst snd]. set (fd := e_dup_fence E _ s).
  apply wp_bind. unfold wp at 1. apply wp_bind. unfold wp at 1. apply wp_bind.
  assert (R : forall w0, ext w0 (whenE (fd <? 0) (nvn_error EGL_BAD_ALLOC) w0).2 []).
  { intros w0. unfold whenE. destruct (fd <? 0); [apply ext_error|apply ext_refl]. }
  unfold wp at 1. apply wp_ret.
  split; [intros Co; apply (co_fence Co)|].
  exists ([Created KSync true s] ++ [Called "glFlush" []] ++ [Created KFd (0 <=? fd) fd] ++ [Destroyed KSync s] ++ []).
  split; [do 4 (eapply ext_trans; [apply ext_ev|]); apply R|].
  split; [done|]. intros k h Hk. rewrite !balance_app, bal_fd_new, balance_nil, (bal_ev k h (Called _ _)), delta_called by done.
  pose proof (bal_sync k h s). lia.
Qed.

(** The fence is consumed, and a success means it was waited for. *)
Lemma gpu_wait_spec fd w :
  wp (gpu_wait E fd) (fun ok w' => exists t, ext w w' t /\ noq t /\
    (forall st, (run_safe t st).2 = st.2 /\ (ok = true -> run_safe t st = (false, st.2))) /\
    (forall k h, counts k h -> balance k h t = - fres fd k h) /\ (cooperative -> ok = true)) w.
Proof.
  unfold gpu_wait. apply wp_bind. unfold wp at 1. cbn [eask fst snd]. set (s := e_create_sync E _ _).
  apply wp_bind. unfold wp at 1. destruct (Z.eqb_spec s NULL) as [Es|Es]; cbn [negb].
  { apply wp_bind. unfold wp at 1. apply wp_bind. unfold wp at 1. apply wp_ret.
    exists ([Created KSync false s] ++ [Destroyed KFd fd] ++ []).
    split; [eapply ext_trans; [apply ext_ev|]; eapply ext_trans; [apply ext_ev|apply ext_error]|].
    split; [done|]. split; [intros st; done|]. split; [|intros Co; by destruct (co_sync Co _ _ Es)]. intros k h Hk.
    rewrite !balance_app, balance_nil, (bal_fd_gone k h fd (Destroyed KFd fd)), bal_ev, delta_failed by auto. lia. }
  apply wp_bind. unfold wp at 1. apply wp_bind. unfold wp at 1. cbn [eask fst snd]. set (ok := e_wait_sync E _ s).
  apply wp_bind. unfold wp at 1. apply wp_bind. unfold wp at 1. apply wp_bind.
  assert (R : forall w0, ext w0 (whenE (negb ok) (nvn_error EGL_BAD_ALLOC) w0).2 []).
  { intros w0. unfold whenE. destruct (negb ok); [apply ext_error|apply ext_refl]. }
  unfold wp at 1. apply wp_ret.
  exists ([Created KSync true s] ++ [Moved KFd fd] ++ [Called "WaitSync" [if ok then 1 else 0]] ++ [Destroyed KSync s] ++ []).
  split; [eapply ext_trans; [apply ext_ev|]; eapply ext_trans; [apply ext_ev|]; eapply ext_trans; [apply ext_ev|];
    eapply ext_trans; [apply ext_ev|apply R]|].
  split; [done|]. split; [|split; [|intros Co; apply (co_wait Co)]].
  - intros [p q]. cbn. split; [done|]. intros ->. cbn. by rewrite andb_false_r.
  - intros k h Hk. rewrite !balance_app, balance_nil, (bal_fd_gone k h fd (Moved KFd fd)) by auto.
    pose proof (bal_sync k h s). rewrite (bal_ev k h (Called _ _)), delta_called. lia.
Qed.

(** Attaching: never before the wait. *)
Lemma wait_and_attach_spec fence cb b w :
  wp (wait_and_attach E fence cb b) (fun ok w' => exists t, ext w w' t /\ noq t /\
    (forall q, (run_safe t (0 <=? fence, q)).2 = q /\ (ok = true -> run_safe t (0 <=? fence, q) = (false, q))) /\
    (forall k h, counts k h -> balance k h t = 0) /\ (cooperative -> ok = true)) w.
Proof.
  unfold wait_and_attach. apply wp_bind. eapply wp_mono with (Q := fun ok w' => exists t, ext w w' t /\ noq t /\
    (forall q, (run_safe t (0 <=? fence, q)).2 = q /\ (ok = true -> run_safe t (0 <=? fence, q) = (false, q))) /\
    (forall k h, counts k h -> balance k h t = 0) /\ (cooperative -> ok = true)).
  { destruct (Z.leb_spec 0 fence) as [Hf|Hf].
    - apply wp_bind. unfold wp at 1. cbn [eask fst snd]. set (n := e_dup E _ fence). apply wp_bind. unfold wp at 1.
      destruct (Z.ltb_spec n 0) as [Hn|Hn].
      + apply wp_bind. unfold wp at 1. apply wp_ret. exists ([Created KFd (0 <=? n) n] ++ []).
        split; [eapply ext_trans; [apply ext_ev|apply ext_error]|]. split; [done|]. split; [done|].
        split; [|intros Co; pose proof (co_dup Co (etr w) fence); lia].
        intros k h Hk. by rewrite balance_app, bal_fd_new, balance_nil, fres_neg.
      + eapply wp_mono; [apply gpu_wait_spec|]. intros ok w' (t & X & N & S & B & Co).
        exists ([Created KFd (0 <=? n) n] ++ t). split; [eapply ext_trans; [apply ext_ev|done]|].
        split; [by apply noq_app|]. split; [intros q; exact (S (true, q))|]. split; [|done].
        intros k h Hk. rewrite balance_app, bal_fd_new, B by done. lia.
    - apply wp_ret. exists []. split; [apply ext_refl|]. done. }
  intros ok w1 (t1 & X1 & N1 & S1 & B1 & Co1). destruct ok; cbn [negb]; [|apply wp_ret; by exists t1].
  apply wp_bind. unfold wp at 1. cbn [eask fst snd]. set (att := e_set_color E _ cb).
  apply wp_bind. unfold wp at 1. apply wp_bind.
  assert (R : forall w0, ext w0 (whenE (negb att) (nvn_error EGL_BAD_ALLOC) w0).2 []).
  { intros w0. unfold whenE. destruct (negb att); [apply ext_error|apply ext_refl]. }
  unfold wp at 1. apply wp_ret. exists (t1 ++ [Called "attach" [ab_ptr b]] ++ []).
  split; [eapply ext_trans; [done|]; eapply ext_trans; [apply ext_ev|apply R]|].
  split; [by apply noq_app|]. split; [|split; [|intros Co; apply (co_color Co)]].
  - intros q. rewrite run_safe_app. destruct (S1 q) as [_ ->]; [|done]. cbn. rewrite andb_true_r. done.
  - intros k h Hk. rewrite !balance_app, B1, (bal_ev k h (Called "attach" [ab_ptr b])), delta_called, balance_nil by done. lia.
Qed.

(** ** What the platform promises *)

(** A dequeue that fails: an error, or no buffer. *)
Definition dequeue_failed (r : Z) (b : option abuffer) : bool :=
  negb (r =? 0) || match b with Some b => ab_ptr b =? NULL | None => true end.
Definition fences_come_with_buffers : Prop :=
  forall t r b f, e_dequeue E t = (r, b, f) -> dequeue_failed r b = true -> f < 0.
(** An infinite [poll] that is not interrupted returns for its descriptor. *)
Definition polls_succeed : Prop := forall t fd, (e_poll E t fd).2 = true.
Context (Hfok : fok -> fences_come_with_buffers) (Hpok : pok -> polls_succeed).

(** A buffer of the window the running call holds. *)
Definition ores (b : Z) (k : kind) (h : Z) : Z := match k with KOwned => owns b h | _ => 0 end.

Lemma bal_owned_new k h b : balance k h [Created KOwned true b] = ores b k h.
Proof. rewrite bal_ev, delta_created. unfold ores, owns. by destruct k; bal_simpl. Qed.
Lemma bal_owned_gone k h b : balance k h [Moved KOwned b] = - ores b k h.
Proof. rewrite bal_ev, delta_moved. unfold ores, owns. by destruct k; bal_simpl. Qed.
Lemma bal_called k h f a : balance k h [Called f a] = 0.
Proof. by rewrite bal_ev, delta_called. Qed.

Lemma cond_fd_spec (mk : Z -> event) c fd w :
  (forall k h, counts k h -> balance k h [mk fd] = c * fres fd k h) -> silent [mk fd] ->
  wp (whenE (0 <=? fd) (eev (mk fd))) (fun _ w' => exists t, ext w w' t /\ silent t /\
    forall k h, counts k h -> balance k h t = c * fres fd k h) w.
Proof.
  intros B S. unfold wp. destruct (Z.leb_spec 0 fd) as [Hf|Hf]; cbn [whenE].
  - exists [mk fd]. split; [apply ext_ev|]. auto.
  - exists []. split; [apply ext_refl|]. split; [constructor|]. intros k h Hk. rewrite fres_neg by done. rewrite balance_nil. lia.
Qed.

Lemma close_spec fd w :
  wp (whenE (0 <=? fd) (close fd)) (fun _ w' => exists t, ext w w' t /\ silent t /\
    forall k h, counts k h -> balance k h t = - fres fd k h) w.
Proof.
  eapply wp_mono; [apply (cond_fd_spec (Destroyed KFd) (-1)); [|by repeat constructor]|].
  - intros k h Hk. rewrite (bal_fd_gone k h fd) by auto. lia.
  - intros _ w' (t & X & S & B). exists t. split; [done|]. split; [done|]. intros k h Hk. rewrite B by done. lia.
Qed.

Lemma cancel_spec b fd w :
  wp (cancelBuffer b fd) (fun _ w' => exists t, ext w w' t /\ silent t /\
    forall k h, counts k h -> balance k h t = - ores b k h - fres fd k h) w.
Proof.
  unfold cancelBuffer. apply wp_bind. unfold wp at 1.
  eapply wp_mono; [apply (cond_fd_spec (Moved KFd) (-1)); [|by repeat constructor]|].
  - intros k h Hk. rewrite (bal_fd_gone k h fd) by auto. lia.
  - intros _ w' (t & X & S & B). exists ([Moved KOwned b] ++ t). split; [eapply ext_trans; [apply ext_ev|done]|].
    split; [by constructor|]. intros k h Hk. rewrite balance_app, B, bal_owned_gone by done. lia.
Qed.

(** The dequeued buffer is pending exactly when it comes with a fence. *)
Lemma dequeue_spec w :
  wp (dequeueBuffer E) (fun r w' => exists t, ext w w' t /\ noq t /\
    match r.1 with
    | Some b => ab_ptr b <> NULL /\ (forall st, run_safe t st = (0 <=? r.2, st.2)) /\
        forall k h, counts k h -> balance k h t = ores (ab_ptr b) k h + fres r.2 k h
    | None => (forall st, run_safe t st = st) /\ forall k h, counts k h -> balance k h t = fres r.2 k h /\ fres r.2 k h = 0
    end /\ (cooperative -> is_Some (b ← r.1; nvn_gralloc_decode b))) w.
Proof.
  unfold dequeueBuffer. apply wp_bind. unfold wp at 1, eask. cbn [fst snd].
  destruct (e_dequeue E (etr w)) as [[r b] f] eqn:Ed. apply wp_bind.
  eapply wp_mono; [apply (cond_fd_spec (Created KFd true) 1); [|by repeat constructor]|].
  { intros k h Hk. rewrite bal_ev, delta_created. unfold fres, owns. destruct k; cbn in Hk; try done; bal_simpl; lia. }
  intros _ w1 (t1 & X1 & S1 & B1).
  assert (Hfail : dequeue_failed r b = true -> wp (mret (None, f) : M eworld (option abuffer * Z)) (fun r w' => exists t, ext w w' t /\ noq t /\
    match r.1 with
    | Some b => ab_ptr b <> NULL /\ (forall st, run_safe t st = (0 <=? r.2, st.2)) /\
        forall k h, counts k h -> balance k h t = ores (ab_ptr b) k h + fres r.2 k h
    | None => (forall st, run_safe t st = st) /\ forall k h, counts k h -> balance k h t = fres r.2 k h /\ fres r.2 k h = 0
    end /\ (cooperative -> is_Some (b ← r.1; nvn_gralloc_decode b))) w1).
  { intros Hr. apply wp_ret. exists t1. cbn [fst snd].
    split_and!; [done|by apply noq_silent|intros st; by apply run_safe_silent| |].
    - intros k h Hk. split; [rewrite B1 by done; lia|]. unfold fres. destruct k; try done. destruct Hk as [H0 Hq].
      pose proof (Hfok Hq _ _ _ _ Ed Hr). unfold owns. rewrite decide_False; [done|lia].
    - intros Co. destruct (co_dequeue Co (etr w)) as (b0 & d0 & f0 & E1 & Hd0). rewrite Ed in E1. injection E1 as -> -> _.
      unfold dequeue_failed in Hr. cbn in Hr. apply decode_ptr in Hd0. by rewrite (proj2 (Z.eqb_neq _ _) Hd0) in Hr. }
  destruct b as [b|]; [|apply Hfail; unfold dequeue_failed; by rewrite orb_true_r].
  destruct ((r =? 0) && negb (ab_ptr b =? NULL)) eqn:Er.
  2: { apply Hfail. unfold dequeue_failed. by destruct (r =? 0), (ab_ptr b =? NULL). }
  apply andb_true_iff in Er as [->%Z.eqb_eq Hb%negb_true_iff%Z.eqb_neq].
  apply wp_bind. unfold wp at 1. apply wp_bind. unfold wp at 1. apply wp_ret. cbn [fst snd].
  exists (t1 ++ [Created KOwned true (ab_ptr b)] ++ [Called "dequeueBuffer" [ab_ptr b; f]]).
  split; [eapply ext_trans; [done|]; eapply ext_trans; apply ext_ev|]. split; [apply noq_app; [by apply noq_silent|done]|].
  split; [|intros Co; destruct (co_dequeue Co (etr w)) as (b0 & d0 & f0 & E1 & E2); rewrite Ed in E1;
    injection E1 as -> _; cbn; by rewrite E2].
  split; [done|]. split; [intros st; by rewrite run_safe_app, (run_safe_silent t1)|].
  intros k h Hk. rewrite !balance_app, B1, bal_owned_new, bal_called by done. lia.
Qed.

(** ** The invariant *)

(** What a surface holds. *)
Definition back_anwb (ps : surface) : Z := match ps_back ps with Some i => sl_anwb (default empty_slot (ps_slots ps !! i)) | None => NULL end.
Definition wres (win : Z) (k : kind) (h : Z) : Z := match k with KWin => owns win h | _ => 0 end.
Definition held (p : option surface) (k : kind) (h : Z) : Z :=
  match p with
  | None => 0
  | Some ps => slots_res k h (ps_slots ps) + ores (back_anwb ps) k h + wres (ps_window ps) k h
  end.

Record winv (w : eworld) : Prop := {
  wi_alive : destroyed w = des;
  wi_surf ps : priv w = Some ps -> surf_ok ps /\ ages_ok (ps_slots ps) (etr w);
  wi_bal k h : counts k h -> balance k h (etr w) = held (priv w) k h;
  wi_safe : pok -> (run_safe (etr w) (false, true)).2 = true;
}.

(** What a stretch of a call that ends with the surface [p] does. *)
Record moves (w w' : eworld) (p p' : option surface) (t : trace) : Prop := {
  mv_tr : etr w' = etr w ++ t;
  mv_priv : priv w' = p';
  mv_des : destroyed w' = destroyed w;
  mv_bal k h : counts k h -> balance k h t = held p' k h - held p k h;
  mv_safe : pok -> forall q, (run_safe t (q, true)).2 = true;
  mv_surf ps : p' = Some ps -> surf_ok ps /\ ages_ok (ps_slots ps) (etr w');
}.

Lemma winv_moves w w' p' t : winv w -> moves w w' (priv w) p' t -> winv w'.
Proof.
  intros [I1 I2 I3 I4] [M1 M2 M3 M4 M5 M6]. split; [congruence| | |].
  - intros ps. rewrite M2. apply M6.
  - intros k h Hk. rewrite M1, M2, balance_app, I3, M4 by done. lia.
  - intros Hp. specialize (I4 Hp). rewrite M1, run_safe_app. destruct (run_safe (etr w) (false, true)) as [q b] eqn:R. cbn in I4. subst b. by apply M5.
Qed.

Lemma release_all_spec l w :
  destroyed w = des -> Forall slot_ok l ->
  wp (release_all l) (fun _ w' => exists t, ext w w' t /\ silent t /\
    forall k h, counts k h -> balance k h t = - slots_res k h l) w.
Proof.
  revert w. induction l as [|s l IH]; intros w Hd Hl; cbn [release_all].
  { apply wp_ret. exists []. split; [apply ext_refl|]. split; [constructor|]. done. }
  apply Forall_cons in Hl as [Hs Hl]. apply wp_bind.
  eapply wp_mono with (Q := fun _ w' => exists t, ext w w' t /\ silent t /\
    forall k h, counts k h -> balance k h t = - slot_res k h s).
  { destruct (Z.eqb_spec (sl_anwb s) NULL) as [Ez|Ez]; cbn [negb].
    - apply wp_ret. destruct Hs as [->|[? _]]; [|done]. exists [].
      split; [apply ext_refl|]. split; [constructor|]. intros k h Hk. by rewrite empty_res.
    - apply wp_bind. eapply wp_mono; [by apply release_slot_spec|]. intros s' w' (_ & t & X & S & B). apply wp_ret. by exists t. }
  intros _ w1 (t1 & X1 & S1 & B1). eapply wp_mono; [apply IH; [by rewrite (x_des _ _ _ X1)|done]|].
  intros _ w2 (t2 & X2 & S2 & B2). exists (t1 ++ t2). split; [by eapply ext_trans|]. split; [by apply silent_app|].
  intros k h Hk. rewrite balance_app, B1, B2, slots_res_cons by done. lia.
Qed.

Lemma ores_null k h : counts k h -> ores NULL k h = 0.
Proof. intros Hk. unfold ores, owns. destruct k; try done. cbn in Hk. rewrite decide_False; [done|]. congruence. Qed.
Lemma held_lost ps k h :
  counts k h -> held (Some (lost_surface ps)) k h = slots_res k h (ps_slots ps) + wres (ps_window ps) k h.
Proof. intros Hk. unfold held, back_anwb. cbn [lost_surface ps_back ps_slots ps_window]. rewrite ores_null by done. lia. Qed.
(** The surface with slot [i] as its back buffer. *)
Lemma held_back ps i s k h :
  ps_slots ps !! i = Some s ->
  held (Some (mk_surface (ps_window ps) (ps_slots ps) (Some i) (ps_stamp ps) (ps_lost ps))) k h
  = slots_res k h (ps_slots ps) + ores (sl_anwb s) k h + wres (ps_window ps) k h.
Proof. intros Hs. unfold held, back_anwb. cbn [ps_back ps_slots ps_window]. by rewrite Hs. Qed.
Lemma with_back_ok ps i s :
  surf_ok ps -> ps_lost ps = false -> ps_slots ps !! i = Some s -> sl_anwb s <> NULL ->
  surf_ok (mk_surface (ps_window ps) (ps_slots ps) (Some i) (ps_stamp ps) (ps_lost ps)).
Proof.
  intros [O1 O2 O3 O4] Hl Hs Hn. split; cbn [ps_slots ps_back ps_lost]; [done|done| |by rewrite Hl].
  intros ? [= <-]. by exists s.
Qed.
Lemma lost_ok ps : surf_ok ps -> surf_ok (lost_surface ps).
Proof. by intros [? ? ? ?]. Qed.

Lemma moves_put w w1 p p' t :
  ext w w1 t -> (forall k h, counts k h -> balance k h t = held p' k h - held p k h) ->
  (pok -> forall q, (run_safe t (q, true)).2 = true) ->
  (forall ps, p' = Some ps -> surf_ok ps /\ ages_ok (ps_slots ps) (etr w ++ t)) ->
  moves w (put_priv p' w1).2 p p' t.
Proof. intros [X1 X2 X3 X4] B S A. split; try done. intros ps Hp. cbn. rewrite X1. auto. Qed.
Lemma moves_error w w' p p' t e : moves w w' p p' t -> moves w (nvn_error e w').2 p p' t.
Proof. by intros [? ? ? ? ? ?]. Qed.

(** A step before the surface changes. *)
Lemma moves_ext w w1 w2 p p1 p2 t1 t2 :
  ext w w1 t1 -> (forall k h, counts k h -> balance k h t1 = held p1 k h - held p k h) ->
  (pok -> forall q, (run_safe t1 (q, true)).2 = true) -> moves w1 w2 p1 p2 t2 -> moves w w2 p p2 (t1 ++ t2).
Proof.
  intros [X1 X2 X3 X4] B S [M1 M2 M3 M4 M5 M6]. split; [by rewrite M1, X1, app_assoc|done|congruence| | |done].
  - intros k h Hk. rewrite balance_app, B, M4 by done. lia.
  - intros Hp q. rewrite run_safe_app. specialize (S Hp q). destruct (run_safe t1 (q, true)) as [q' b]. cbn in S. subst b. by apply M5.
Qed.

(** A surface with a back buffer to draw to. *)
Definition ready (p : option surface) : Prop := exists ps, p = Some ps /\ is_Some (ps_back ps) /\ ps_lost ps = false.

Lemma next_buffer_spec ps w :
  surf_ok ps -> ps_lost ps = false -> destroyed w = des -> ages_ok (ps_slots ps) (etr w) ->
  wp (next_buffer E ps) (fun r w' => exists p' t, moves w w' (Some (lost_surface ps)) p' t /\ noq t /\
    (cooperative -> r = true /\ ready p')) w.
Proof.
  intros Hps Hlost Hd Hages. unfold next_buffer. apply wp_bind. eapply wp_mono; [apply dequeue_spec|].
  intros [[b|] fence] w1 (t1 & X1 & N1 & R1 & Co1); cbn [fst snd] in R1, Co1.
  2:{ destruct R1 as (S1 & B1). apply wp_bind. unfold wp at 1. apply wp_bind. unfold wp at 1. apply wp_ret.
      exists (Some (lost_surface ps)), t1. split; [|split; [done|intros Co; by destruct (Co1 Co)]].
      apply moves_error, moves_put; [done| | |].
      - intros k h Hk. destruct (B1 k h Hk) as [-> ->]. lia.
      - intros _ q. by rewrite S1.
      - intros ? [= <-]. split; [by apply lost_ok|]. eapply ages_step; [|done|done].
        apply Forall_Forall2_diag, Forall_forall. intros; apply slot_step_refl. }
  destruct R1 as (Hb & S1 & B1). apply wp_bind.
  eapply wp_mono; [apply slot_for_spec; [done|by rewrite (x_des _ _ _ X1)|done]|].
  intros [ps' s] w2 (SD & t2 & X2 & S2 & B2 & Co2). cbn [fst snd] in SD, B2, Co2. apply wp_bind.
  eapply wp_mono with (Q := fun ok w' => exists t, ext w2 w' t /\ noq t /\ (ok = true -> is_Some s) /\
    (forall q, (run_safe t (0 <=? fence, q)).2 = q) /\ (forall k h, counts k h -> balance k h t = 0) /\ (cooperative -> ok = true)).
  { destruct s as [j|].
    - eapply wp_mono; [apply wait_and_attach_spec|]. intros ok w' (t & X & N & S & B & Co). exists t.
      split_and!; [done|done|done|apply S|done|done].
    - apply wp_ret. exists []. split; [apply ext_refl|]. split_and!; try done.
      intros Co. by destruct (Co2 Co (Co1 Co)). }
  intros ok w3 (t3 & X3 & N3 & Hs & S3 & B3 & Co3).
  set (t := (t1 ++ t2) ++ t3). assert (X : ext w w3 t) by (repeat (eapply ext_trans; try done)).
  assert (N : noq t) by (repeat apply noq_app; try done; by apply noq_silent).
  assert (S : forall q u, silent u -> (run_safe (t ++ u) (q, true)).2 = true).
  { intros q u Hu. unfold t. by rewrite !run_safe_app, S1, (run_safe_silent t2), (run_safe_silent u), S3. }
  assert (A : forall u, silent u -> ages_ok (ps_slots ps') (etr w ++ t ++ u)).
  { intros u Hu. eapply ages_step; [apply SD|apply noq_app; [done|by apply noq_silent]|done]. }
  assert (B : forall k h, counts k h -> balance k h t = ores (ab_ptr b) k h + fres fence k h + slots_res k h (ps_slots ps') - slots_res k h (ps_slots ps)).
  { intros k h Hk. unfold t. rewrite !balance_app, B1, (B2 k h), B3 by done. lia. }
  destruct ok; cbn [negb].
  - destruct (Hs eq_refl) as [j ->]. destruct (sd_slot _ _ _ _ SD j eq_refl) as (sl & Hj & Ha & Hn).
    apply wp_bind. eapply wp_mono; [apply close_spec|]. intros _ w4 (t4 & X4 & S4 & B4).
    apply wp_bind. unfold wp at 1. apply wp_ret.
    exists (Some (mk_surface (ps_window ps') (ps_slots ps') (Some j) (ps_stamp ps') (ps_lost ps'))), (t ++ t4).
    assert (Hl' : ps_lost ps' = false) by (by rewrite (sd_lost _ _ _ _ SD)).
    split; [|split; [apply noq_app; [done|by apply noq_silent]|intros _; split; [done|by eexists]]].
    apply moves_put; [by eapply ext_trans| | |].
    + intros k h Hk. rewrite balance_app, B, B4, held_lost, (held_back ps' j sl) by done.
      rewrite Ha, (sd_window _ _ _ _ SD). lia.
    + intros _ q. by apply S.
    + intros ? [= <-]. cbn [ps_slots]. split; [|by apply A]. eapply with_back_ok; [apply SD|done..].
  - apply wp_bind. eapply wp_mono; [apply cancel_spec|]. intros _ w4 (t4 & X4 & S4 & B4).
    apply wp_bind. unfold wp at 1. apply wp_ret. exists (Some (lost_surface ps')), (t ++ t4).
    split; [|split; [apply noq_app; [done|by apply noq_silent]|intros Co; by specialize (Co3 Co)]].
    apply moves_put; [by eapply ext_trans| | |].
    + intros k h Hk. rewrite balance_app, B, B4, !held_lost by done. rewrite (sd_window _ _ _ _ SD). lia.
    + intros _ q. by apply S.
    + intros ? [= <-]. split; [apply lost_ok, (sd_ok _ _ _ _ SD)|by apply A].
Qed.

(** ** Every operation keeps it *)

Lemma age_one_keeps s : sl_anwb (age_one s) = sl_anwb s /\ sl_cb (age_one s) = sl_cb s.
Proof. unfold age_one. by case_match. Qed.
Lemma age_one_ok s : slot_ok s -> slot_ok (age_one s).
Proof.
  intros [->|(Hn & Hc & Ha)]; [by left|]. unfold age_one. right. destruct (_ && _) eqn:C; cbn; [|done].
  split_and!; [done|done|lia].
Qed.

Lemma aged_ok ps i s :
  surf_ok ps -> ps_slots ps !! i = Some s -> sl_anwb s <> NULL ->
  surf_ok (mk_surface (ps_window ps) (ages_after i (ps_slots ps)) (ps_back ps) (ps_stamp ps) (ps_lost ps)) /\
  forall k h, slots_res k h (ages_after i (ps_slots ps)) = slots_res k h (ps_slots ps).
Proof.
  intros [O1 O2 O3 O4] Hi Hn.
  assert (K : forall j x, ps_slots ps !! j = Some x -> exists y, ages_after i (ps_slots ps) !! j = Some y /\
    sl_anwb y = sl_anwb x /\ sl_cb y = sl_cb x).
  { intros j x Hx. rewrite ages_lookup, Hx. destruct (age_one_keeps x). case_decide; eexists; split; done. }
  split.
  - split; cbn [ps_slots ps_back ps_lost]; [unfold ages_after; by rewrite length_alter, length_fmap| | |done].
    + apply Forall_lookup. intros j y Hy. rewrite ages_lookup in Hy. destruct (ps_slots ps !! j) as [x|] eqn:Hx; [|by case_decide].
      pose proof (age_one_ok x (proj1 (Forall_lookup _ _) O2 _ _ Hx)) as Hok. case_decide; injection Hy as <-; [|done].
      subst j. rewrite Hi in Hx. injection Hx as <-. destruct (age_one_keeps s) as [E1 E2]. right. cbn. rewrite E1, E2.
      destruct (proj1 (Forall_lookup _ _) O2 _ _ Hi) as [->|(? & ? & ?)]; [done|]. split_and!; [done|done|lia].
    + intros j Hj. destruct (O3 j Hj) as (x & Hx & Hnx). destruct (K j x Hx) as (y & Hy & Ey & _). exists y. split; [done|congruence].
  - intros k h. apply slots_res_ext, Forall2_same_length_lookup. split; [unfold ages_after; by rewrite length_alter, length_fmap|].
    intros j x y Hx Hy. destruct (K j x Hx) as (y' & Hy' & ? & ?). by simplify_eq.
Qed.

Lemma still_winv w w' t :
  winv w -> ext w w' t -> quiet t -> (forall k h, counts k h -> balance k h t = 0) -> winv w'.
Proof.
  intros [I1 I2 I3 I4] [X1 X2 X3 X4] [N S] B. split; [congruence| | |].
  - intros ps. rewrite X2. intros Hps. destruct (I2 ps Hps) as [O A]. split; [done|]. rewrite X1. eapply ages_step; [|done|done].
    apply Forall_Forall2_diag, Forall_forall. intros; apply slot_step_refl.
  - intros k h Hk. rewrite X1, X2, balance_app, I3, B by done. lia.
  - intros Hp. rewrite X1, run_safe_app, S. by apply I4.
Qed.
Lemma winv_error w e : winv w -> winv (nvn_error e w).2.
Proof. intros I. eapply still_winv; [done|apply ext_error|done|done]. Qed.
Lemma winv_call w f a : winv w -> quiet [Called f a] -> winv (eev (Called f a) w).2.
Proof. intros I Q. eapply still_winv; [done|apply ext_ev|done|]. intros k h _. apply bal_called. Qed.

(** Queueing the back buffer and moving on to the next one. *)
Lemma queue_next ps i s fd w :
  winv w -> priv w = Some ps -> ps_back ps = Some i -> ps_lost ps = false ->
  ps_slots ps !! i = Some s -> sl_anwb s <> NULL ->
  forall w1 t1, ext w w1 t1 -> quiet t1 -> (forall k h, counts k h -> balance k h t1 = fres fd k h) ->
  wp (_ ← eev (Moved KFd fd); _ ← eev (Moved KOwned (sl_anwb s)); _ ← eev (Called "queueBuffer" [sl_anwb s]);
      next_buffer E (mk_surface (ps_window ps) (ages_after i (ps_slots ps)) (ps_back ps) (ps_stamp ps) (ps_lost ps)))
    (fun r w' => winv w' /\ (cooperative -> r = true /\ ready (priv w') /\ presented (etr w') = sl_anwb s :: presented (etr w))) w1.
Proof.
  intros I Hp Hb Hl Hi Hn w1 t1 X1 [N1 S1] B1. destruct (wi_surf _ I ps Hp) as [Hps A].
  destruct (aged_ok ps i s Hps Hi Hn) as [Hok Hres].
  set (q := [Moved KFd fd] ++ [Moved KOwned (sl_anwb s)] ++ [Called "queueBuffer" [sl_anwb s]]).
  assert (Hq : presented (t1 ++ q) = [sl_anwb s]).
  { rewrite presented_app. unfold presented at 2. rewrite N1. done. }
  do 3 (apply wp_bind; unfold wp at 1). set (w2 := (eev _ (eev _ (eev _ w1).2).2).2).
  assert (X : ext w w2 (t1 ++ q)).
  { eapply ext_trans; [done|]. do 2 (eapply ext_trans; [apply ext_ev|]). apply ext_ev. }
  eapply wp_mono; [apply next_buffer_spec; cbn [ps_slots ps_lost]; [done|done|rewrite (x_des _ _ _ X); apply I|]|].
  { rewrite (x_tr _ _ _ X). apply (ages_queue _ _ _ s); [apply Hps|done|exact Hq|done]. }
  intros r w' (p' & t2 & M & N2 & Co2). split.
  2:{ intros Co. destruct (Co2 Co) as [-> R]. split; [done|]. split; [by rewrite (mv_priv _ _ _ _ _ M)|].
      by rewrite (mv_tr _ _ _ _ _ M), (x_tr _ _ _ X), presented_noq, presented_app, Hq. }
  eapply (winv_moves w w' p'); [done|]. eapply moves_ext; [exact X| | |exact M].
  - intros k h Hk. unfold q. rewrite !balance_app, B1, bal_owned_gone, bal_called, (bal_fd_gone k h fd), Hp by auto.
    rewrite held_lost by done. cbn [ps_slots ps_window]. rewrite Hres. unfold held, back_anwb. rewrite Hb, Hi.
    change (default empty_slot (Some s)) with s. lia.
  - intros _ p. rewrite run_safe_app, S1. done.
Qed.

(** The back buffer after [nvnSwapBuffers] succeeded was presented. *)
Lemma swap_winv w :
  winv w -> wp (nvnSwapBuffers E) (fun r w' => winv w' /\ (cooperative -> ready (priv w) ->
    r = true /\ ready (priv w') /\ presented (etr w') = default NULL (back_anwb <$> priv w) :: presented (etr w))) w.
Proof.
  intros I. unfold nvnSwapBuffers. apply wp_bind. unfold wp at 1. cbn [getS fst snd].
  destruct (priv w) as [ps|] eqn:Hp; [|apply wp_ret; split; [done|]; by intros _ (? & ? & _)].
  destruct (wi_surf _ I ps Hp) as [Hps A].
  destruct (ps_back ps) as [i|] eqn:Hb.
  2:{ apply wp_bind. unfold wp at 1. apply wp_ret. split; [by apply winv_error|].
      intros _ (? & [= <-] & [? Hs] & _). by rewrite Hb in Hs. }
  destruct (ps_lost ps) eqn:Hl; [by rewrite (so_lost _ Hps Hl) in Hb|].
  apply wp_bind. unfold wp at 1. cbn [eask fst snd]. apply wp_bind. unfold wp at 1.
  set (w1 := (eev _ w).2). assert (I1 : winv w1) by (by apply winv_call).
  destruct (e_swap E (etr w)) eqn:Hsw; cbn [negb].
  2:{ apply wp_bind. unfold wp at 1. apply wp_bind. unfold wp at 1. apply wp_ret. split; [by apply winv_error|].
      intros Co. by rewrite (co_swap Co) in Hsw. }
  apply wp_bind. eapply wp_mono; [apply make_fence_spec|]. intros fd w2 (Co2 & t2 & X2 & Q2 & B2).
  destruct (Z.ltb_spec fd 0) as [Hfd|Hfd].
  { apply wp_ret. split; [|intros Co; specialize (Co2 Co); lia].
    eapply still_winv; [exact I1|done|done|]. intros k h Hk. by rewrite B2, fres_neg. }
  destruct (so_back _ Hps i Hb) as (s & Hi & Hn). rewrite Hi. change (default empty_slot (Some s)) with s.
  apply wp_bind. unfold wp at 1. cbn [eask fst snd].
  destruct (Z.eqb_spec (e_queue E (etr w2) (sl_anwb s)) 0) as [Hq|Hq]; cbn [negb].
  - pose proof (queue_next ps i s fd w1 I1 Hp Hb Hl Hi Hn w2 t2 X2 Q2 B2) as R. rewrite Hb, Hl in R.
    eapply wp_mono; [exact R|]. intros r w' [Iw Cw]. split; [done|]. intros Co _.
    destruct (Cw Co) as (-> & Rw & ->). split; [done|]. split; [done|]. cbn. unfold back_anwb. rewrite Hb, Hi.
    f_equal. exact (presented_noq (etr w) [Called "eglSwapBuffers" [internal_surface w]] eq_refl).
  - apply wp_bind. unfold wp at 1. apply wp_bind. unfold wp at 1. apply wp_ret.
    split; [|intros Co; by rewrite (co_queue Co) in Hq].
    apply winv_error. eapply (still_winv w1); [done|eapply ext_trans; [done|apply ext_ev]|by apply quiet_app|].
    intros k h Hk. rewrite balance_app, B2, (bal_fd_gone k h fd) by auto. lia.
Qed.

Lemma wres_gone k h win : balance k h [Destroyed KWin win] = - wres win k h.
Proof. rewrite bal_ev, delta_destroyed. unfold wres, owns. by destruct k; bal_simpl. Qed.

Lemma destroy_winv w : winv w -> wp (nvnDestroySurface E) (fun _ w' => winv w' /\ priv w' = None) w.
Proof.
  intros I. unfold nvnDestroySurface. apply wp_bind. unfold wp at 1. cbn [getS fst snd].
  destruct (priv w) as [ps|] eqn:Hp; [|by apply wp_ret]. rewrite (wi_alive _ I). cbn [negb].
  destruct (wi_surf _ I ps Hp) as [Hps _]. apply wp_bind.
  eapply wp_mono with (Q := fun fd w' => exists t, ext w w' t /\ quiet t /\
    forall k h, counts k h -> balance k h t = fres fd k h).
  { destruct des eqn:Edes; cbn [negb].
    { apply wp_ret. exists []. split; [apply ext_refl|]. split; [done|]. intros k h Hk. by rewrite fres_neg. }
    apply wp_bind. unfold wp at 1. cbn [eask fst snd]. apply wp_bind.
    eapply wp_mono with (Q := fun fd w' => exists t, ext w w' t /\ quiet t /\
      forall k h, counts k h -> balance k h t = fres fd k h).
    { destruct (_ && _); [eapply wp_mono; [apply make_fence_spec|]; by intros fd w' (_ & ?)|]. apply wp_ret. exists []. split; [apply ext_refl|]. split; [done|].
      intros k h Hk. by rewrite fres_neg. }
    intros fd w1 (t1 & X1 & Q1 & B1). apply wp_bind. unfold wp at 1, whenE.
    destruct (internal_surface w =? NULL); cbn [negb]; apply wp_ret; [by exists t1|].
    eexists. split; [eapply ext_trans; [done|apply ext_ev]|]. split; [by apply quiet_app|].
    intros k h Hk. rewrite balance_app, B1, bal_called by done. lia. }
  intros fd w1 (t1 & X1 & [N1 S1] & B1). apply wp_bind.
  eapply wp_mono with (Q := fun _ w' => exists t, ext w1 w' t /\ silent t /\
    forall k h, counts k h -> balance k h t = - ores (back_anwb ps) k h - fres fd k h).
  { destruct (ps_back ps) as [i|] eqn:Hb.
    - destruct (ps_lost ps) eqn:Hl; [by rewrite (so_lost _ Hps Hl) in Hb|]. unfold back_anwb. rewrite Hb. apply cancel_spec.
    - eapply wp_mono; [apply close_spec|]. intros _ w' (t & X & S & B). exists t. split; [done|]. split; [done|].
      intros k h Hk. unfold back_anwb. rewrite Hb, ores_null, B by done. lia. }
  intros _ w2 (t2 & X2 & S2 & B2). apply wp_bind.
  eapply wp_mono; [apply release_all_spec; [rewrite (x_des _ _ _ X2), (x_des _ _ _ X1); apply I|apply Hps]|].
  intros _ w3 (t3 & X3 & S3 & B3). apply wp_bind. unfold wp at 1. unfold wp. split; [|done].
  eapply winv_moves; [done|]. apply moves_put.
  - eapply ext_trans; [exact X1|]. eapply ext_trans; [exact X2|]. eapply ext_trans; [exact X3|apply ext_ev].
  - intros k h Hk. rewrite !balance_app, B1, B2, B3, wres_gone, Hp by done. cbn [held]. lia.
  - intros _ q. rewrite !run_safe_app, S1, (run_safe_silent t2), (run_safe_silent t3) by done. done.
  - done.
Qed.

Lemma interval_winv lo hi i w : winv w -> wp (nvnSwapInterval E lo hi i) (fun _ w' => winv w') w.
Proof.
  intros I. unfold nvnSwapInterval. apply wp_bind. unfold wp at 1. cbn [eask fst snd]. apply wp_bind. unfold wp at 1.
  assert (I1 : forall a, winv (eev (Called "setSwapInterval" a) w).2) by (intros; by apply winv_call).
  destruct (_ =? 0); cbn [negb]; [apply wp_ret, I1|]. apply wp_bind. unfold wp at 1. apply wp_ret. apply winv_error, I1.
Qed.

(** [t] was added, whatever happened to the surface. *)
Record runs (w w' : eworld) (t : trace) : Prop := {
  ru_tr : etr w' = etr w ++ t;
  ru_des : destroyed w' = destroyed w;
}.
Lemma runs_ext w w' t : ext w w' t -> runs w w' t.
Proof. by intros [? ? ? ?]. Qed.
Lemma runs_trans w1 w2 w3 t u : runs w1 w2 t -> runs w2 w3 u -> runs w1 w3 (t ++ u).
Proof. intros [A1 A2] [B1 B2]. split; [by rewrite B1, A1, app_assoc|congruence]. Qed.

(** A failed creation gives everything back. *)
Lemma create_fail_spec ps b fence w :
  destroyed w = des -> Forall slot_ok (ps_slots ps) ->
  wp (create_fail ps b fence) (fun r w' => r = NULL /\ priv w' = None /\ exists t, runs w w' t /\ silent t /\
    forall k h, counts k h -> balance k h t =
      - slots_res k h (ps_slots ps) - ores (match b with Some b => ab_ptr b | None => NULL end) k h
      - fres fence k h - wres (ps_window ps) k h) w.
Proof.
  intros Hd Hs. unfold create_fail. apply wp_bind.
  eapply wp_mono with (Q := fun fd w' => exists t, ext w w' t /\ silent t /\
    forall k h, counts k h -> balance k h t =
      fres fd k h - ores (match b with Some b => ab_ptr b | None => NULL end) k h - fres fence k h).
  { destruct b as [b|].
    - apply wp_bind. eapply wp_mono; [apply cancel_spec|]. intros _ w1 (t & X & S & B). apply wp_ret. exists t.
      split; [done|]. split; [done|]. intros k h Hk. rewrite B, (fres_neg (-1)) by done. lia.
    - apply wp_ret. exists []. split; [apply ext_refl|]. split; [constructor|]. intros k h Hk.
      rewrite ores_null, balance_nil by done. lia. }
  intros fd w1 (t1 & X1 & S1 & B1). apply wp_bind.
  eapply wp_mono; [apply release_all_spec; [by rewrite (x_des _ _ _ X1)|done]|].
  intros _ w2 (t2 & X2 & S2 & B2). apply wp_bind.
  eapply wp_mono with (Q := fun _ w' => exists t, ext w2 w' t /\ silent t /\
    forall k h, counts k h -> balance k h t = - wres (ps_window ps) k h).
  { unfold wp. destruct (Z.eqb_spec (ps_window ps) NULL) as [Ez|Ez]; cbn [negb whenE].
    - exists []. split; [apply ext_refl|]. split; [constructor|]. intros k h Hk. rewrite Ez. unfold wres, owns.
      destruct k; try done. cbn in Hk. rewrite decide_False; [done|congruence].
    - eexists. split; [apply ext_ev|]. split; [by repeat constructor|]. intros k h Hk. apply wres_gone. }
  intros _ w3 (t3 & X3 & S3 & B3). apply wp_bind. eapply wp_mono; [apply close_spec|].
  intros _ w4 (t4 & X4 & S4 & B4). apply wp_bind. unfold wp at 1. apply wp_ret. split; [done|]. split; [done|].
  exists (t1 ++ t2 ++ t3 ++ t4). split.
  - assert (X : ext w w4 (t1 ++ t2 ++ t3 ++ t4)) by (repeat (eapply ext_trans; [done|]); done). by destruct X.
  - split; [by repeat apply silent_app|]. intros k h Hk. rewrite !balance_app, B1, B2, B3, B4 by done. lia.
Qed.

(** The running creation: the window and, after the dequeue, the buffer. *)
Lemma create_lost w0 ps b fence w t0 :
  winv w0 -> priv w0 = None -> runs w0 w t0 -> Forall slot_ok (ps_slots ps) ->
  (forall k h, counts k h -> balance k h t0 = slots_res k h (ps_slots ps)
     + ores (match b with Some b => ab_ptr b | None => NULL end) k h + fres fence k h + wres (ps_window ps) k h) ->
  (pok -> forall q, (run_safe t0 (q, true)).2 = true) ->
  wp (create_fail ps b fence) (fun _ w' => winv w') w.
Proof.
  intros I Hp [T D] Hs B S. eapply wp_mono; [apply create_fail_spec; [rewrite D; apply I|done]|].
  intros _ w' (_ & Hn & t & [T' D'] & Si & B'). apply (winv_moves w0 w' None (t0 ++ t)); [done|]. rewrite Hp. split.
  - by rewrite T', T, app_assoc.
  - done.
  - congruence.
  - intros k h Hk. rewrite balance_app, B, B' by done. cbn [held]. lia.
  - intros Hpo q. rewrite run_safe_app, (run_safe_silent t) by done. by apply S.
  - done.
Qed.

Lemma cpu_wait_spec fd w :
  wp (cpu_wait E fd) (fun _ w' => exists x, ext w w' [Called "poll" [fd; x]] /\ (pok -> x = 1)) w.
Proof.
  unfold cpu_wait. apply wp_bind. unfold wp at 1, eask. cbn [fst snd].
  assert (L : pok -> (e_poll E (etr w) fd).2 = true) by (intros Hp; apply (Hpok Hp)).
  destruct (e_poll E (etr w) fd) as [n ok]. cbn in L. induction n as [|n IH]; [|exact IH].
  exists (if ok then 1 else 0). split; [apply (ext_ev (Called "poll" [fd; if ok then 1 else 0]) w)|]. intros Hp. by rewrite (L Hp).
Qed.

(** The first buffer's fence is waited for on the CPU. *)
Lemma first_wait_spec fence w :
  wp (whenE (0 <=? fence) (_ ← cpu_wait E fence; close fence)) (fun _ w' => exists t, ext w w' t /\ noq t /\
    (pok -> forall q, run_safe t (0 <=? fence, q) = (false, q)) /\
    forall k h, counts k h -> balance k h t = - fres fence k h) w.
Proof.
  destruct (Z.leb_spec 0 fence) as [Hf|Hf]; cbn [whenE].
  - apply wp_bind. eapply wp_mono; [apply cpu_wait_spec|]. intros u0 w1 (x & X1 & Hx).
    exists ([Called "poll" [fence; x]] ++ [Destroyed KFd fence]).
    split; [eapply ext_trans; [exact X1|apply ext_ev]|]. split; [done|]. split; [intros Hp q; by rewrite (Hx Hp)|].
    intros k h Hk. rewrite balance_app, bal_called, (bal_fd_gone k h fence) by auto. lia.
  - apply wp_ret. exists []. split; [apply ext_refl|]. split; [done|]. split; [done|].
    intros k h Hk. by rewrite fres_neg.
Qed.

Definition fresh_slots : list nvn_slot := replicate NVN_MAX_SLOTS empty_slot.
Lemma fresh_ok : Forall slot_ok fresh_slots.
Proof. apply Forall_replicate. by left. Qed.
Lemma fresh_res k h : counts k h -> slots_res k h fresh_slots = 0.
Proof.
  intros Hk. unfold fresh_slots. induction NVN_MAX_SLOTS as [|n IH]; [done|]. cbn [replicate].
  by rewrite slots_res_cons, IH, empty_res.
Qed.
Lemma fresh_surf_ok win : surf_ok (mk_surface win fresh_slots None 0 false).
Proof. split; [apply length_replicate|apply fresh_ok|done|done]. Qed.
Lemma fresh_ages t : ages_ok fresh_slots t.
Proof.
  assert (H0 : forall i s, fresh_slots !! i = Some s -> sl_age s = 0).
  { intros i s Hi. apply lookup_replicate in Hi as [-> _]. done. }
  split; intros i; [intros s Hi Ha|intros j s s' Hi Hj Hij Ha]; rewrite (H0 i s Hi) in Ha; lia.
Qed.

(** What is outstanding once the window is referenced and the first buffer
    is dequeued, waited for and cached. *)
Lemma create_rest w0 ps b w t0 :
  winv w0 -> priv w0 = None -> runs w0 w t0 -> noq t0 -> ps_slots ps = fresh_slots -> ps_back ps = None -> ps_lost ps = false ->
  ab_ptr b <> NULL ->
  (forall k h, counts k h -> balance k h t0 = ores (ab_ptr b) k h + wres (ps_window ps) k h) ->
  (pok -> forall q, run_safe t0 (q, true) = (false, true)) ->
  wp (create_attached E ps b) (fun _ w' => winv w') w.
Proof.
  intros I Hp R N0 Hs Hb Hl Hn B S. unfold create_attached. apply wp_bind.
  assert (Hok : surf_ok ps).
  { split; rewrite ?Hs, ?Hb, ?Hl; [apply length_replicate|apply fresh_ok|done|done]. }
  eapply wp_mono; [apply slot_for_spec; [done|rewrite (ru_des _ _ _ R); apply I|done]|].
  intros [ps' s] w2 (SD & t2 & X2 & S2 & B2 & _). cbn [fst snd] in SD, B2.
  pose proof (runs_trans _ _ _ _ _ R (runs_ext _ _ _ X2)) as R2.
  assert (B' : forall k h, counts k h -> balance k h (t0 ++ t2) = slots_res k h (ps_slots ps') + ores (ab_ptr b) k h + wres (ps_window ps') k h).
  { intros k h Hk. rewrite balance_app, B, (B2 k h), Hs, fresh_res, (sd_window _ _ _ _ SD) by done. lia. }
  destruct s as [i|].
  2:{ eapply create_lost; [exact I|done|exact R2|apply (so_slots _ (sd_ok _ _ _ _ SD))| |].
      - intros k h Hk. rewrite B', fres_neg by done. lia.
      - intros Hpo q. by rewrite run_safe_app, (S Hpo), (run_safe_silent t2). }
  cbn zeta. set (ps2 := mk_surface _ _ (Some i) _ _). destruct (sd_slot _ _ _ _ SD i eq_refl) as (sl & Hi & Ha & Hna).
  apply wp_bind. unfold wp at 1. cbn [eask fst snd]. set (internal := e_create_surface E _).
  apply wp_bind. unfold wp at 1. set (w3 := (eev _ w2).2).
  assert (R3 : runs w0 w3 ((t0 ++ t2) ++ [Called "attach" [ab_ptr b]])) by (eapply runs_trans; [done|apply runs_ext, ext_ev]).
  assert (S3 : pok -> forall q, (run_safe ((t0 ++ t2) ++ [Called "attach" [ab_ptr b]]) (q, true)).2 = true).
  { intros Hpo q. by rewrite !run_safe_app, (S Hpo), (run_safe_silent t2). }
  destruct (internal =? NULL).
  - apply wp_bind. unfold wp at 1. cbn [eask fst snd]. apply wp_bind. unfold wp at 1.
    eapply create_lost; [exact I|done| |apply (so_slots _ (sd_ok _ _ _ _ SD))| |exact S3].
    + destruct R3. by split.
    + intros k h Hk. rewrite balance_app, bal_called, B', fres_neg by done. cbn [ps2 ps_slots ps_window]. lia.
  - apply wp_bind. unfold wp at 1. apply wp_bind. unfold wp at 1. apply wp_ret.
    eapply (winv_moves w0 _ (Some ps2)); [done|]. rewrite Hp. destruct R3 as [T3 D3]. split.
    + exact T3.
    + done.
    + exact D3.
    + intros k h Hk. rewrite balance_app, bal_called, B' by done. unfold ps2. rewrite (held_back ps' i sl), Ha by done. cbn [held]. lia.
    + exact S3.
    + intros ? [= <-]. split; [eapply with_back_ok; [apply SD| |done|done]; by rewrite (sd_lost _ _ _ _ SD)|].
      cbn [ps2 ps_slots]. change (etr _) with (etr w3). rewrite T3. eapply ages_step; [apply SD| |rewrite Hs; apply fresh_ages].
      repeat apply noq_app; try done. by apply noq_silent.
Qed.

Lemma create_on_window_winv win w :
  winv w -> priv w = None -> wp (create_on_window E (mk_surface win fresh_slots None 0 false)) (fun _ w' => winv w') w.
Proof.
  intros I Hp. set (ps := mk_surface win fresh_slots None 0 false). unfold create_on_window. change (ps_window ps) with win.
  apply wp_bind. unfold wp at 1. apply wp_bind. unfold wp at 1. apply wp_bind. unfold wp at 1. cbn [eask fst snd].
  set (r := e_set_usage E _). apply wp_bind. unfold wp at 1.
  set (w2 := (eev (Called "setUsage" [r]) _).2). set (t2 := [Created KWin true (win)] ++ [Called "setUsage" [r]]).
  assert (R2 : runs w w2 t2) by (split; [unfold t2; cbn; by rewrite <- app_assoc|done]).
  assert (B2 : forall k h, balance k h t2 = wres (win) k h).
  { intros k h. unfold t2. rewrite balance_app, bal_called, bal_ev, delta_created. unfold wres, owns. destruct k; bal_simpl; lia. }
  assert (Late : forall w3 t e fence, ext w2 w3 t -> (forall st, run_safe t st = st) ->
    (forall k h, counts k h -> balance k h t = fres fence k h) ->
    wp (_ ← nvn_error e; create_fail ps None fence) (fun _ w' => winv w') w3).
  { intros w3 t e fence X S B. apply wp_bind. unfold wp at 1. eapply (create_lost w _ _ _ _ ((t2 ++ t) ++ [])); [exact I|done| |apply fresh_ok| |].
    - eapply runs_trans; [eapply runs_trans; [exact R2|by apply runs_ext]|apply runs_ext, ext_error].
    - intros k h Hk. rewrite !balance_app, B2, B, balance_nil, ores_null, fresh_res by done. change (ps_window ps) with win. change (ps_slots ps) with fresh_slots. rewrite ?fresh_res by done. lia.
    - intros _ q. by rewrite !run_safe_app, S. }
  destruct (negb _); [apply (Late w2 []); [apply ext_refl|done|]; intros k h Hk; by rewrite fres_neg|].
  apply wp_bind. eapply wp_mono; [apply dequeue_spec|]. intros [[b|] fence] w3 (t3 & X3 & N3 & D3 & _); cbn [fst snd] in D3.
  2:{ destruct D3 as (S3 & B3). apply (Late w3 t3); [done|done|]. intros k h Hk. by apply B3. }
  destruct D3 as (Hn & S3 & B3). apply wp_bind. eapply wp_mono; [apply first_wait_spec|].
  intros _ w4 (t4 & X4 & N4 & S4 & B4). eapply (create_rest w ps b w4 ((t2 ++ t3) ++ t4)); try done.
  - eapply runs_trans; [eapply runs_trans; [exact R2|by apply runs_ext]|by apply runs_ext].
  - repeat apply noq_app; done.
  - intros k h Hk. rewrite !balance_app, B2, B3, B4 by done. change (ps_window ps) with win. change (ps_slots ps) with fresh_slots. rewrite ?fresh_res by done. lia.
  - intros Hpo q. by rewrite !run_safe_app, S3, (S4 Hpo).
Qed.


Lemma create_winv win taken config attribs w :
  winv w -> priv w = None -> wp (nvnCreateWindowSurface E win taken config attribs) (fun _ w' => winv w') w.
Proof.
  intros I Hp. unfold nvnCreateWindowSurface.
  assert (Err : forall e, wp (_ ← nvn_error e; mret NULL : M eworld Z) (fun _ w' => winv w') w).
  { intros e. apply wp_bind. unfold wp at 1. apply wp_ret. by apply winv_error. }
  destruct win as [win|]; [|apply Err]. destruct (negb _); [apply Err|]. destruct taken; [apply Err|].
  destruct config as [mask|]; [|apply Err]. destruct (negb _); [apply Err|]. clear Err.
  apply wp_bind. unfold wp at 1. cbn [eask fst snd]. fold fresh_slots.
  assert (Early : forall e, wp (_ ← nvn_error e; create_fail (mk_surface NULL fresh_slots None 0 false) None (-1)) (fun _ w' => winv w') w).
  { intros e. apply wp_bind. unfold wp at 1. eapply create_lost; [exact I|done|apply runs_ext, ext_error|apply fresh_ok| |done].
    intros k h Hk. rewrite fresh_res, ores_null, fres_neg by done. unfold wres, owns. cbn [ps_window].
    destruct k; try done. cbn in Hk. rewrite decide_False; [done|congruence]. }
  destruct (negb _); [apply Early|]. destruct (driver_attribs E attribs) as [drv|]; [|apply Early]. clear Early.
  by apply create_on_window_winv.
Qed.

(** [n] successful swaps in a row. *)
Fixpoint swaps (n : nat) (w : eworld) : list bool * eworld :=
  match n with
  | O => ([], w)
  | S n => let '(r, w) := nvnSwapBuffers E w in let '(l, w) := swaps n w in (r :: l, w)
  end.
Lemma swaps_present n w :
  cooperative -> winv w -> ready (priv w) ->
  (swaps n w).1 = replicate n true /\ ready (priv (swaps n w).2) /\
  length (presented (etr (swaps n w).2)) = (n + length (presented (etr w)))%nat.
Proof.
  intros Co. revert w. induction n as [|n IH]; intros w I R; [done|]. cbn [swaps].
  destruct (swap_winv w I) as [I' S]. destruct (S Co R) as (Er & R' & Hp).
  destruct (nvnSwapBuffers E w) as [r w1]. cbn [fst snd] in *. destruct (IH w1 I' R') as (El & Rl & Hl).
  destruct (swaps n w1) as [l w2]. cbn [fst snd] in *. subst r l. rewrite Hl, Hp. split_and!; [done|done|cbn; lia].
Qed.

End Swap.
End Flags.

(** ** A surface's life *)

(** What happens to one EGLSurface; it is created once at a time and used only
    while it exists.  [OPlatformDestroyed]: the base library tears the platform
    down, with the driver's displays and their color buffers. *)
Inductive egl_op :=
  | OCreate (win : option window) (taken : bool) (config : option Z) (attribs : list (Z * Z))
  | OSwap
  | OInterval (lo hi interval : Z)
  | ODestroy
  | OPlatformDestroyed.

Section Life.
Context (E : egl_env).

Definition run_op (o : egl_op) (w : eworld) : eworld :=
  match o, priv w with
  | OCreate win taken config attribs, None => (nvnCreateWindowSurface E win taken config attribs w).2
  | OSwap, Some _ => (nvnSwapBuffers E w).2
  | OInterval lo hi i, Some _ => (nvnSwapInterval E lo hi i w).2
  | ODestroy, _ => (nvnDestroySurface E w).2
  | OPlatformDestroyed, p => mk_ew p (internal_surface w) true (egl_error w) (etr w)
  | _, _ => w
  end.
Definition run_ops (l : list egl_op) (w : eworld) : eworld := foldl (flip run_op) w l.
Definition w_init : eworld := mk_ew None NULL false EGL_SUCCESS [].


(** Both promises are premises of the parts of the invariant that need them. *)
#[local] Abbreviation alive_inv des := (winv des (fences_come_with_buffers E) (polls_succeed E)).

Lemma init_winv : alive_inv false w_init.
Proof. by split. Qed.

Lemma platform_winv des w : alive_inv des w -> alive_inv true (mk_ew (priv w) (internal_surface w) true (egl_error w) (etr w)).
Proof.
  intros [I1 I2 I3 I4]. split; [done|done| |done]. intros k h Hk. apply I3. destruct k; cbn in Hk |- *; try done. by destruct Hk.
Qed.

Lemma run_op_winv o des w : alive_inv des w -> exists des', alive_inv des' (run_op o w).
Proof.
  intros I. unfold run_op. destruct o, (priv w) as [ps|] eqn:Hp; try (by exists des).
  - exists des. by apply create_winv.
  - exists des. apply (swap_winv des _ _ E (fun H => H) w I).
  - exists des. by apply interval_winv.
  - exists des. apply (destroy_winv des _ _ E w I).
  - exists des. apply (destroy_winv des _ _ E w I).
  - exists true. rewrite <- Hp. by eapply platform_winv.
  - exists true. rewrite <- Hp. by eapply platform_winv.
Qed.
Lemma run_ops_winv l : alive_inv (destroyed (run_ops l w_init)) (run_ops l w_init).
Proof.
  assert (H : exists des, alive_inv des (run_ops l w_init)).
  { assert (H' : forall l des w, alive_inv des w -> exists des', alive_inv des' (run_ops l w)); [|by eapply H', init_winv].
    clear l. induction l as [|o l IH]; intros des w I; [by exists des|]. destruct (run_op_winv o des w I) as [des' I']. by eapply IH. }
  destruct H as [des I]. by rewrite (wi_alive _ _ _ _ I).
Qed.
End Life.


(** A wait that succeeded. *)
Definition waits (e : event) : bool :=
  match e with Called "poll" [_; ok] => ok =? 1 | Called "WaitSync" [ok] => ok =? 1 | _ => false end.
Definition dequeues (e : event) : bool := match e with Called "dequeueBuffer" [_; _] => true | _ => false end.

Lemma safe_step_pending e q : waits e = false -> dequeues e = false -> (safe_step (true, q) e).1 = true.
Proof.
  intros Hw Hd. destruct e as [| | |f l]; try done. unfold safe_step, waits, dequeues in *.
  repeat (case_match; try done); cbn [fst snd andb]; by rewrite Hw.
Qed.
Lemma run_safe_pending t q :
  Forall (fun e => waits e = false /\ dequeues e = false) t -> (run_safe t (true, q)).1 = true.
Proof.
  revert q. induction t as [|e t IH]; intros q F; [done|]. apply Forall_cons in F as [[Hw Hd] F].
  change (run_safe (e :: t) (true, q)) with (run_safe t (safe_step (true, q) e)).
  pose proof (safe_step_pending e q Hw Hd) as P. destruct (safe_step (true, q) e) as [p q']. cbn in P. subst p. by apply IH.
Qed.
Lemma safe_step_bad e p : (safe_step (p, false) e).2 = false.
Proof. unfold safe_step. repeat (case_match; try done). Qed.
Lemma run_safe_bad t p : (run_safe t (p, false)).2 = false.
Proof.
  revert p. induction t as [|e t IH]; intros p; [done|]. change (run_safe (e :: t) (p, false)) with (run_safe t (safe_step (p, false) e)).
  pose proof (safe_step_bad e p) as P. destruct (safe_step (p, false) e) as [p' q]. cbn in P. subst q. apply IH.
Qed.

(** ** Properties *)

(** C38: whatever an application does with a surface, whenever the platform is
    destroyed, and however the window, [poll] and the driver answer, what is
    outstanding is exactly what the surface record holds: a reference and a
    color buffer per cached slot, the window, the back buffer, and no sync;
    destroying the surface leaves nothing.  Two exceptions, stated as premises:
    once the platform is destroyed nothing is claimed of color buffers (they
    went with the driver's display), and that no fence descriptor is
    outstanding supposes that a failed dequeueBuffer hands out none (a swap
    would not close it: [failed_dequeue_leaks]). *)
Theorem window_ownership (E : egl_env) (l : list egl_op) k h :
  let w := run_ops E l w_init in
  counted k h -> (k = KColor -> destroyed w = false) -> (k = KFd -> fences_come_with_buffers E) ->
  balance k h (etr w) = held (priv w) k h /\
  balance k h (etr (nvnDestroySurface E w).2) = 0.
Proof.
  intros w Hk Hd Hf. pose proof (run_ops_winv E l) as I. fold w in I.
  assert (Hc : counts (destroyed w) (fences_come_with_buffers E) k h) by (destruct k; cbn in *; auto).
  split; [by apply (wi_bal _ _ _ _ I)|]. destruct (destroy_winv _ _ _ E w I) as [I' Hp]. rewrite (wi_bal _ _ _ _ I') by done. by rewrite Hp.
Qed.

(** when [poll] succeeds, a buffer that came with a release fence is attached
    to the driver's surface only after a successful wait for the fence: between
    the dequeue and the attach there is one. *)
Theorem attach_after_wait (E : egl_env) (Hpoll : polls_succeed E) (l : list egl_op) t1 b fence t2 a t3 :
  etr (run_ops E l w_init) = t1 ++ Called "dequeueBuffer" [b; fence] :: t2 ++ Called "attach" a :: t3 ->
  0 <= fence -> Forall (fun e => dequeues e = false) t2 -> Exists (fun e => waits e = true) t2.
Proof.
  intros Ht Hf Hd. destruct (decide (Forall (fun e => waits e = false) t2)) as [Hw|Hw].
  2:{ apply not_Forall_Exists in Hw; [|apply _]. eapply Exists_impl; [exact Hw|]. intros e He. cbn in He |- *. by apply not_false_is_true. }
  exfalso. pose proof (wi_safe _ _ _ _ (run_ops_winv E l) Hpoll) as S. rewrite Ht, run_safe_app in S.
  destruct (run_safe t1 (false, true)) as [p q].
  change (run_safe (Called "dequeueBuffer" [b; fence] :: ?u) (p, q)) with (run_safe u (0 <=? fence, q)) in S.
  rewrite (proj2 (Z.leb_le _ _) Hf), run_safe_app in S.
  assert (P : (run_safe t2 (true, q)).1 = true).
  { apply run_safe_pending. rewrite Forall_forall in Hw, Hd |- *. auto. }
  destruct (run_safe t2 (true, q)) as [p' q']. cbn in P. subst p'.
  change (run_safe (Called "attach" a :: t3) (true, q')) with (run_safe t3 (true, q' && false)) in S.
  by rewrite andb_false_r, run_safe_bad in S.
Qed.

(** the buffer age the surface reports is true: an age a > 0 means the
    back buffer is the one presented a swaps ago, and no two cached buffers
    have the same age. *)
Theorem buffer_age_exact (E : egl_env) (l : list egl_op) ps age :
  priv (run_ops E l w_init) = Some ps -> nvnQuerySurface ps EGL_BUFFER_AGE_KHR = Some age ->
  0 <= age /\
  (0 < age -> presented (etr (run_ops E l w_init)) !! Z.to_nat (age - 1) = Some (back_anwb ps)) /\
  (forall i j s s', ps_slots ps !! i = Some s -> ps_slots ps !! j = Some s' -> i <> j -> 0 < sl_age s -> sl_age s <> sl_age s').
Proof.
  intros Hp Hq. destruct (wi_surf _ _ _ _ (run_ops_winv E l) ps Hp) as [Hok [A D]]. split_and!; [| |done];
    unfold nvnQuerySurface, back_anwb in *; cbn in Hq; destruct (ps_back ps) as [i|] eqn:Hb; cbn in Hq.
  - destruct (so_back _ Hok i Hb) as (s & Hi & Hn). rewrite Hi in Hq. injection Hq as <-.
    pose proof (proj1 (Forall_lookup _ _) (so_slots _ Hok) i s Hi) as [->|(_ & _ & ?)]; done.
  - by injection Hq as <-.
  - destruct (so_back _ Hok i Hb) as (s & Hi & Hn). rewrite Hi in Hq |- *. injection Hq as <-. intros Ha. by apply (A i s).
  - injection Hq as <-. lia.
Qed.

(** With a window and a driver that answer, a surface that has a back
    buffer presents every frame: any number of swaps all succeed, each queues
    one buffer, and the surface has a back buffer again. *)
Theorem swaps_progress (E : egl_env) (l : list egl_op) n :
  cooperative E -> ready (priv (run_ops E l w_init)) ->
  let w := run_ops E l w_init in
  (swaps E n w).1 = replicate n true /\ ready (priv (swaps E n w).2) /\
  length (presented (etr (swaps E n w).2)) = (n + length (presented (etr w)))%nat.
Proof. intros Co R. exact (swaps_present _ _ _ E (fun H => H) n _ Co (run_ops_winv E l) R). Qed.

(** ** Witnesses *)

(** Three buffers in turn; from the second on with a release fence. *)
Definition demo_handle : cros_gralloc_handle :=
  mk_handle 12 1 34 9 5120 0 1280 720 DRM_FORMAT_ABGR8888 0x0300000000606014 CROS_GRALLOC_MAGIC 1.
Definition demo_buffer (i : nat) : abuffer :=
  mk_abuf (100 + Z.of_nat (i mod 3)) NVN_ANDROID_NATIVE_BUFFER_MAGIC true (200 + Z.of_nat (i mod 3)) (Some demo_handle) 1280 720.
Definition demo_env_with (poll_ok : bool) : egl_env :=
  mk_env 0x333D (fun _ => true) (fun _ => 0)
    (fun t => let n := length (filter dequeues t) in (0, Some (demo_buffer n), if (n =? 0)%nat then 21 else 20 + Z.of_nat n))
    (fun _ _ => 0) (fun t _ => 300 + Z.of_nat (length t)) (fun _ => 7) (fun _ _ => true)
    (fun t _ => 500 + Z.of_nat (length t)) (fun _ _ => 11) (fun _ _ => true) (fun _ => true) (fun _ _ => 12)
    (fun _ _ => (2%nat, poll_ok)) (fun _ => true) (fun _ => EGL_SUCCESS) (fun _ _ => 0).
Definition demo_env : egl_env := demo_env_with true.

Lemma demo_decodes n : exists d, nvn_gralloc_decode (demo_buffer n) = Some d.
Proof.
  unfold nvn_gralloc_decode, demo_buffer. cbn [ab_ptr ab_magic ab_version_ok ab_gralloc ab_width ab_height].
  rewrite (proj2 (Z.eqb_neq _ NULL)) by (unfold NULL; lia). by eexists.
Qed.
Lemma demo_fences : fences_come_with_buffers demo_env.
Proof. intros t r b f [= <- <- <-]. unfold dequeue_failed. cbn. by rewrite (proj2 (Z.eqb_neq _ NULL)) by (unfold NULL; lia). Qed.
Lemma demo_cooperative : cooperative demo_env.
Proof.
  split; try done; try (intros; cbn; unfold NULL; lia).
  intros t. destruct (demo_decodes (length (filter dequeues t))) as [d Hd]. by eexists _, d, _.
Qed.

Definition demo_start : list egl_op := [OCreate (Some (mk_window 40 NVN_ANDROID_NATIVE_WINDOW_MAGIC)) false (Some EGL_WINDOW_BIT) []].
Definition demo_ops : list egl_op := demo_start ++ [OInterval 0 1 5; OSwap; OSwap; OSwap; OSwap].

Lemma window_ownership_witness :
  (counted KColor 307 /\ balance KColor 307 (etr (run_ops demo_env demo_ops w_init)) = 1) /\
  balance KColor 307 (etr (nvnDestroySurface demo_env (run_ops demo_env demo_ops w_init)).2) = 0 /\
  balance KFd 21 (etr (run_ops demo_env demo_ops w_init)) = 0.
Proof.
  split; [split; [done|]|split].
  - rewrite (proj1 (window_ownership demo_env demo_ops KColor 307 ltac:(done) ltac:(intros _; vm_compute; reflexivity) ltac:(done))). by vm_compute.
  - apply (window_ownership demo_env demo_ops KColor 307 ltac:(done) ltac:(intros _; vm_compute; reflexivity) ltac:(done)).
  - rewrite (proj1 (window_ownership demo_env demo_ops KFd 21 ltac:(done) ltac:(done) ltac:(intros _; exact demo_fences))). by vm_compute.
Defined.

Definition demo_trace : trace := Eval vm_compute in etr (run_ops demo_env demo_ops w_init).
Lemma attach_after_wait_witness : Exists (fun e => waits e = true) (take 4 (drop 5 demo_trace)).
Proof.
  apply (attach_after_wait demo_env (fun _ _ => eq_refl) demo_ops (take 4 demo_trace) 100 21 (take 4 (drop 5 demo_trace)) [100] (drop 10 demo_trace)).
  - vm_compute. reflexivity.
  - lia.
  - by repeat constructor.
Defined.

Definition demo_surface : surface := Eval vm_compute in default (mk_surface 0 [] None 0 true) (priv (run_ops demo_env demo_ops w_init)).
Lemma buffer_age_exact_witness :
  nvnQuerySurface demo_surface EGL_BUFFER_AGE_KHR = Some 3 /\
  presented (etr (run_ops demo_env demo_ops w_init)) !! Z.to_nat (3 - 1) = Some (back_anwb demo_surface).
Proof.
  split; [vm_compute; reflexivity|].
  apply (proj1 (proj2 (buffer_age_exact demo_env demo_ops demo_surface 3 ltac:(vm_compute; reflexivity) ltac:(vm_compute; reflexivity)))).
  lia.
Defined.

Lemma swaps_progress_witness :
  ready (priv (run_ops demo_env demo_start w_init)) /\
  (swaps demo_env 60 (run_ops demo_env demo_start w_init)).1 = replicate 60 true.
Proof.
  assert (R : ready (priv (run_ops demo_env demo_start w_init))).
  { eexists. split; [vm_compute; reflexivity|]. split; [by eexists|done]. }
  split; [exact R|]. exact (proj1 (swaps_progress demo_env demo_start 60 demo_cooperative R)).
Defined.

(** ** A failed wait for the first buffer *)

(** [cpu_wait]'s result is not looked at: when [poll] fails the first buffer
    is attached although its release fence was not waited for. *)
Lemma failed_poll_attaches : (run_safe (etr (run_ops (demo_env_with false) demo_start w_init)) (false, true)).2 = false.
Proof. vm_compute. reflexivity. Qed.

(** ** A fence handed out by a failed dequeue *)

(** A window that fails from its second dequeue on and still writes a fence:
    a swap does not close it, a creation would. *)
Definition demo_fenced : egl_env :=
  mk_env 0x333D (fun _ => true) (fun _ => 0)
    (fun t => if (length (filter dequeues t) =? 0)%nat then (0, Some (demo_buffer 0), -1) else (-1, None, 25))
    (fun _ _ => 0) (fun t _ => 300 + Z.of_nat (length t)) (fun _ => 7) (fun _ _ => true)
    (fun t _ => 500 + Z.of_nat (length t)) (fun _ _ => 11) (fun _ _ => true) (fun _ => true) (fun _ _ => 12)
    (fun _ _ => (2%nat, true)) (fun _ => true) (fun _ => EGL_SUCCESS) (fun _ _ => 0).
Lemma failed_dequeue_leaks :
  balance KFd 25 (etr (run_ops demo_fenced (demo_start ++ [OSwap; ODestroy]) w_init)) = 1.
Proof. vm_compute. reflexivity. Qed.

End EglWindow.
