(* ===== verification/Anb.v ===== *)
(** * Android native buffers in the Vulkan HAL ([hal/src/anb.c])

    VK_ANDROID_native_buffer on top of the ICD's dma-buf and sync_fd support:
    the gralloc usage of swapchain images, the import of a gralloc buffer as
    an image with dedicated memory, the table of imported images, the native
    fence of vkAcquireImageANDROID and the pool of exportable fences behind
    vkQueueSignalReleaseImageANDROID.

    The ICD's and the kernel's answers are functions of the calls so far. *)

From Stdlib Require Import ZArith Lia.
From stdpp Require Import base option sets strings gmap list.
From S2P Require Import Prelude HashTable Vulkan GrallocFormat CrosHandle.

Set Default Goal Selector "!".
#[local] Open Scope Z_scope.

Module Anb.
Import Vk Cros.

Definition VK_NOT_READY : Z := 1.
Definition VK_ERROR_INITIALIZATION_FAILED : Z := -3.
Definition VK_ERROR_DEVICE_LOST : Z := -4.
Definition VK_ERROR_FEATURE_NOT_PRESENT : Z := -8.
Definition VK_ERROR_TOO_MANY_OBJECTS : Z := -10.
Definition VK_ERROR_FORMAT_NOT_SUPPORTED : Z := -11.
Definition VK_ERROR_INVALID_EXTERNAL_HANDLE : Z := -1000072003.
Definition VK_IMAGE_TYPE_2D : Z := 1.
Definition USAGE_INPUT_ATTACHMENT : Z := 0x80.
Definition EXTMEM_IMPORTABLE : Z := 0x4.
Definition SWAPCHAIN_USAGE_SHARED : Z := 0x1.
Definition EMFILE : Z := 24.
Definition DRM_FORMAT_XBGR16161616F : Z := fourcc 88 66 52 72.
Definition DRM_FORMAT_XBGR2101010 : Z := fourcc 88 66 51 48.

Definition GRALLOC_USAGE_HW_TEXTURE : Z := 0x100.
Definition GRALLOC_USAGE_HW_RENDER : Z := 0x200.
Definition GRALLOC_USAGE_HW_COMPOSER : Z := 0x800.
Definition GRALLOC1_CONSUMER_USAGE_GPU_TEXTURE : Z := 2 ^ 8.
Definition GRALLOC1_CONSUMER_USAGE_HWCOMPOSER : Z := 2 ^ 11.
Definition GRALLOC1_PRODUCER_USAGE_GPU_RENDER_TARGET : Z := 2 ^ 9.

(** ** Formats and usage *)

Definition anb_formats : list (Z * (Z * Z)) :=
  [ (VK_FORMAT_R8G8B8A8_UNORM, (DRM_FORMAT_ABGR8888, DRM_FORMAT_XBGR8888));
    (VK_FORMAT_R8G8B8A8_SRGB, (DRM_FORMAT_ABGR8888, DRM_FORMAT_XBGR8888));
    (VK_FORMAT_B8G8R8A8_UNORM, (DRM_FORMAT_ARGB8888, DRM_FORMAT_XRGB8888));
    (VK_FORMAT_B8G8R8A8_SRGB, (DRM_FORMAT_ARGB8888, DRM_FORMAT_XRGB8888));
    (VK_FORMAT_R5G6B5_UNORM_PACK16, (DRM_FORMAT_RGB565, DRM_FORMAT_RGB565));
    (VK_FORMAT_R16G16B16A16_SFLOAT, (DRM_FORMAT_ABGR16161616F, DRM_FORMAT_XBGR16161616F));
    (VK_FORMAT_A2B10G10R10_UNORM_PACK32, (DRM_FORMAT_ABGR2101010, DRM_FORMAT_XBGR2101010));
    (VK_FORMAT_R8_UNORM, (DRM_FORMAT_R8, DRM_FORMAT_R8)) ].

(** The table's entry instead of its index. *)
Definition anb_format_index (f : Z) : option (Z * Z) :=
  '(_, e) ← list_find (fun e => fst e = f) anb_formats; Some (snd e).

Definition nvhal_anb_format_known (f : Z) : bool := bool_decide (is_Some (anb_format_index f)).

Definition render_usage : Z := Z.lor USAGE_TRANSFER_DST USAGE_COLOR_ATTACHMENT.
Definition texture_usage : Z :=
  Z.lor (Z.lor (Z.lor USAGE_TRANSFER_SRC USAGE_SAMPLED) USAGE_STORAGE) USAGE_INPUT_ATTACHMENT.

Definition usage_check (format usage : Z) : Z :=
  if negb (nvhal_anb_format_known format) then VK_ERROR_FORMAT_NOT_SUPPORTED
  else if negb (Z.ldiff usage (Z.lor render_usage texture_usage) =? 0) || negb (has_any usage (Z.lor render_usage texture_usage))
  then VK_ERROR_FORMAT_NOT_SUPPORTED
  else VK_SUCCESS.

(** The device as this file reads it. *)
Record nvhal_device := mk_device {
  anb_enabled : bool;
  acquire_wait_fence : bool;
  acquire_wait_semaphore : bool;
  mem_types : list Z;          (** propertyFlags *)
}.

(** [d]: the device, if the handle is one of this HAL. *)
Definition anb_device (d : option nvhal_device) : option nvhal_device :=
  match d with Some d => if anb_enabled d then Some d else None | None => None end.

Definition nvhal_GetSwapchainGrallocUsageANDROID (d : option nvhal_device) (format usage : Z) : Z * option Z :=
  match anb_device d with
  | None => (VK_ERROR_INITIALIZATION_FAILED, None)
  | Some _ =>
      let r := usage_check format usage in
      if negb (r =? VK_SUCCESS) then (r, None)
      else
      let u := GRALLOC_USAGE_HW_COMPOSER in
      let u := if has_any usage render_usage then Z.lor u GRALLOC_USAGE_HW_RENDER else u in
      let u := if has_any usage texture_usage then Z.lor u GRALLOC_USAGE_HW_TEXTURE else u in
      (VK_SUCCESS, Some u)
  end.

(** The consumer's and the producer's usage. *)
Definition nvhal_GetSwapchainGrallocUsage2ANDROID (d : option nvhal_device) (format usage swapchain_usage : Z) :
  Z * option (Z * Z) :=
  match anb_device d with
  | None => (VK_ERROR_INITIALIZATION_FAILED, None)
  | Some _ =>
      if has_any swapchain_usage SWAPCHAIN_USAGE_SHARED then (VK_ERROR_FORMAT_NOT_SUPPORTED, None)
      else
      let r := usage_check format usage in
      if negb (r =? VK_SUCCESS) then (r, None)
      else
      let producer := if has_any usage render_usage then GRALLOC1_PRODUCER_USAGE_GPU_RENDER_TARGET else 0 in
      let consumer := if has_any usage texture_usage
                      then Z.lor GRALLOC1_CONSUMER_USAGE_HWCOMPOSER GRALLOC1_CONSUMER_USAGE_GPU_TEXTURE
                      else GRALLOC1_CONSUMER_USAGE_HWCOMPOSER in
      (VK_SUCCESS, Some (consumer, producer))
  end.

(** ** State *)

Record aworld := mk_aw {
  anb_images : list (Z * Z);     (** image, imported memory; the length is [anb_count] *)
  anb_cap : Z;
  fence_pool : list Z;           (** the last one is taken first; the length is [fence_count] *)
  fence_cap : Z;
  atr : trace;
}.

Inductive chained :=
  | SNativeBuffer
  | SSwapchainImage
  | SFormatList (formats : list Z)
  | SStencilUsage (usage : Z)
  | SOther (sType : Z).

Record VkImageCreateInfo := mk_ci {
  ci_format : Z; ci_imageType : Z; ci_mipLevels : Z; ci_arrayLayers : Z;
  ci_width : Z; ci_height : Z; ci_depth : Z; ci_usage : Z; ci_flags : Z;
  ci_pNext : list chained;
}.

(** The image create-info for the ICD: DRM modifier tiling with the explicit
    layout of plane 0. *)
Record icd_info := mk_ici {
  ii_ci : VkImageCreateInfo; ii_usage : Z; ii_kept : list chained; ii_modifier : Z; ii_stride : Z; ii_offset : Z;
}.
Definition with_usage (i : icd_info) (u : Z) : icd_info :=
  mk_ici (ii_ci i) u (ii_kept i) (ii_modifier i) (ii_stride i) (ii_offset i).

(** The ICD, the kernel and the allocator. *)
Record icd := mk_icd {
  i_format_props : trace -> icd_info -> option (list Z) -> Z * Z;   (** result, external memory features *)
  i_create_image : trace -> icd_info -> Z * Z;                      (** result, handle *)
  i_dup : trace -> Z -> Z * Z;                                      (** descriptor, errno *)
  i_seek_end : trace -> Z -> Z;
  i_seek_set : trace -> Z -> Z;
  i_fd_props : trace -> Z -> Z * Z;                                 (** result, memoryTypeBits *)
  i_requirements : trace -> Z -> Z * Z;                             (** size, memoryTypeBits *)
  i_allocate : trace -> Z * Z;
  i_bind : trace -> Z;
  i_realloc : trace -> bool;
  i_malloc : trace -> bool;
  i_poll : trace -> nat * (Z * bool);       (** interruptions, then the result and POLLERR or POLLNVAL *)
  i_import_semaphore : trace -> Z -> Z;
  i_import_fence : trace -> Z -> Z;
  i_create_fence : trace -> Z * Z;
  i_fence_status : trace -> Z -> Z;
  i_reset_fence : trace -> Z -> Z;
  i_submit : trace -> Z -> Z;
  i_fence_fd : trace -> Z -> Z * Z;                                 (** result, descriptor *)
  i_wait_fence : trace -> Z -> Z;
}.

Definition aev (e : event) : M aworld () :=
  modS (fun w => mk_aw (anb_images w) (anb_cap w) (fence_pool w) (fence_cap w) (atr w ++ [e])).
Definition aask {A} (f : trace -> A) : M aworld A := fun w => (f (atr w), w).
Definition put_images (l : list (Z * Z)) (cap : Z) : M aworld () :=
  modS (fun w => mk_aw l cap (fence_pool w) (fence_cap w) (atr w)).
Definition put_pool (l : list Z) (cap : Z) : M aworld () :=
  modS (fun w => mk_aw (anb_images w) (anb_cap w) l cap (atr w)).
Definition whenA (b : bool) (m : M aworld ()) : M aworld () := if b then m else mret tt.

Section Icd.
Context (K : icd).

(** ** The table of imported images *)

Definition anb_track (img mem : Z) : M aworld bool :=
  w ← getS;
  let n := Z.of_nat (length (anb_images w)) in
  cap ← (if n =? anb_cap w then
           ok ← aask (i_realloc K);
           mret (if ok : bool then Some (if anb_cap w =? 0 then 8 else u32 (anb_cap w * 2)) else None)
         else mret (Some (anb_cap w)));
  match cap with
  | None => mret false
  | Some cap => _ ← put_images (anb_images w ++ [(img, mem)]) cap; mret true
  end.

(** The last entry moves into the hole, as in the linear maps of [util.c]. *)
Definition anb_untrack (img : Z) : M aworld Z :=
  w ← getS;
  match list_find (fun e => fst e = img) (anb_images w) with
  | Some (i, (_, mem)) => _ ← put_images (LinearMap.swap_remove (anb_images w) i) (anb_cap w); mret mem
  | None => mret VK_NULL_HANDLE
  end.

(** ** Import *)

Definition nvhal_cros_handle (h : option cros_gralloc_handle) : Z + cros_gralloc_handle :=
  match h with
  | None => inl VK_ERROR_INVALID_EXTERNAL_HANDLE
  | Some h =>
      if negb (hd_version h =? NATIVE_HANDLE_SIZE) || (hd_numFds h <? 1) || (DRV_MAX_FDS <? hd_numFds h)
         || (hd_numInts h <? 0) || negb (hd_numFds h + hd_numInts h =? CROS_GRALLOC_HANDLE_NUM_INTS_TOTAL)
      then inl VK_ERROR_INVALID_EXTERNAL_HANDLE
      else if negb (hd_magic h =? CROS_GRALLOC_MAGIC) then inl VK_ERROR_INVALID_EXTERNAL_HANDLE
      else inr h
  end.

Fixpoint first_format_list (l : list chained) : option (list Z) :=
  match l with
  | [] => None
  | SFormatList f :: _ => Some f
  | _ :: l => first_format_list l
  end.

Definition nvhal_modifier_usage_ok (i : icd_info) (usage : Z) : M aworld Z :=
  '(r, features) ← aask (fun t => i_format_props K t (with_usage i usage) (first_format_list (ii_kept i)));
  mret (if (r =? VK_SUCCESS) && negb (has_any features EXTMEM_IMPORTABLE) then VK_ERROR_FORMAT_NOT_SUPPORTED else r).

(** The checks before the ICD is asked; an error, or the kept structures. *)
Fixpoint keep_chain (l kept : list chained) : option (list chained) :=
  match l with
  | [] => Some kept
  | SNativeBuffer :: l | SSwapchainImage :: l => keep_chain l kept
  | SFormatList f :: l => keep_chain l (SFormatList f :: kept)
  | SStencilUsage u :: l => keep_chain l (SStencilUsage u :: kept)
  | SOther _ :: _ => None
  end.

Definition fits_buffer (ci : VkImageCreateInfo) (g : cros_gralloc_handle) : bool :=
  negb (negb (ci_imageType ci =? VK_IMAGE_TYPE_2D) || negb (ci_mipLevels ci =? 1) || negb (ci_arrayLayers ci =? 1)
        || negb (ci_depth ci =? 1) || (hd_width g <? ci_width ci) || (hd_height g <? ci_height ci)).

Definition import_checks (ci : VkImageCreateInfo) (g : cros_gralloc_handle) : Z + list chained :=
  if negb (hd_num_planes g =? 1) || (hd_fd0 g <? 0) then inl VK_ERROR_FORMAT_NOT_SUPPORTED
  else if hd_modifier g =? DRM_FORMAT_MOD_INVALID then inl VK_ERROR_INVALID_EXTERNAL_HANDLE
  else match anb_format_index (ci_format ci) with
  | None => inl VK_ERROR_FORMAT_NOT_SUPPORTED
  | Some (f0, f1) =>
  if negb (f0 =? hd_format g) && negb (f1 =? hd_format g) then inl VK_ERROR_FORMAT_NOT_SUPPORTED
  else if negb (fits_buffer ci g) then inl VK_ERROR_INVALID_EXTERNAL_HANDLE
  else match keep_chain (ci_pNext ci) [] with
  | None => inl VK_ERROR_FEATURE_NOT_PRESENT
  | Some kept => inr kept
  end end.

(** The usage the ICD accepts: INPUT_ATTACHMENT may be dropped on LINEAR. *)
Definition accepted_usage (i : icd_info) : M aworld (Z + icd_info) :=
  r ← nvhal_modifier_usage_ok i (ii_usage i);
  let less := Z.ldiff (ii_usage i) USAGE_INPUT_ATTACHMENT in
  if r =? VK_SUCCESS then mret (inr i)
  else if (ii_modifier i =? DRM_FORMAT_MOD_LINEAR) && has_any (ii_usage i) USAGE_INPUT_ATTACHMENT
  then (r' ← nvhal_modifier_usage_ok i less;
        mret (if r' =? VK_SUCCESS then inr (with_usage i less) else inl r))
  else mret (inl r).

Definition import_memory_type (d : nvhal_device) (bits : Z) : option Z :=
  match GrallocFormat.first_type (mem_types d) 0 (fun i fl => Z.testbit bits i && has_any fl MEM_DEVICE_LOCAL) with
  | Some t => Some t
  | None => GrallocFormat.first_type (mem_types d) 0 (fun i _ => Z.testbit bits i)
  end.

(** [fail:] of [nvhal_anb_import]. *)
Definition import_fail (r img mem fd : Z) : M aworld (Z + Z * Z) :=
  _ ← aev (Destroyed KImage img);
  _ ← whenA (negb (mem =? VK_NULL_HANDLE)) (aev (Destroyed KMemory mem));
  _ ← whenA (0 <=? fd) (aev (Destroyed KFd fd));
  mret (inl r).

(** From the duplicated descriptor to the bound image. *)
Definition import_memory (d : nvhal_device) (img fd : Z) : M aworld (Z + Z * Z) :=
  buf_size ← aask (fun t => i_seek_end K t fd);
  rewound ← (if buf_size <? 0 then mret (-1) else aask (fun t => i_seek_set K t fd));
  if (buf_size <? 0) || (rewound <? 0) then import_fail VK_ERROR_INVALID_EXTERNAL_HANDLE img VK_NULL_HANDLE fd
  else
  '(r, fd_bits) ← aask (fun t => i_fd_props K t fd);
  if negb (r =? VK_SUCCESS) then import_fail r img VK_NULL_HANDLE fd
  else
  '(need, img_bits) ← aask (fun t => i_requirements K t img);
  if buf_size <? need then import_fail VK_ERROR_INVALID_EXTERNAL_HANDLE img VK_NULL_HANDLE fd
  else
  match import_memory_type d (Z.land fd_bits img_bits) with
  | None => import_fail VK_ERROR_INVALID_EXTERNAL_HANDLE img VK_NULL_HANDLE fd
  | Some type =>
  '(r, mem) ← aask (i_allocate K);
  _ ← aev (Called "vkAllocateMemory" [img; fd; need; type]);
  _ ← aev (Created KMemory (r =? VK_SUCCESS) mem);
  if negb (r =? VK_SUCCESS) then import_fail r img VK_NULL_HANDLE fd
  else
  _ ← aev (Moved KFd fd);
  r ← aask (i_bind K);
  _ ← aev (Called "vkBindImageMemory2" [img; mem; r]);
  if negb (r =? VK_SUCCESS) then import_fail r img mem (-1)
  else mret (inr (img, mem))
  end.

Definition nvhal_anb_import (d : nvhal_device) (ci : VkImageCreateInfo) (nb : option cros_gralloc_handle) :
  M aworld (Z + Z * Z) :=
  match nvhal_cros_handle nb with
  | inl r => mret (inl r)
  | inr g =>
  match import_checks ci g with
  | inl r => mret (inl r)
  | inr kept =>
  ici ← accepted_usage (mk_ici ci (ci_usage ci) kept (hd_modifier g) (hd_stride0 g) (hd_offset0 g));
  match ici with
  | inl r => mret (inl r)
  | inr ici =>
  '(r, img) ← aask (fun t => i_create_image K t ici);
  _ ← aev (Called "vkCreateImage" [ii_usage ici; ii_modifier ici; ii_stride ici; ii_offset ici]);
  _ ← aev (Created KImage (r =? VK_SUCCESS) img);
  if negb (r =? VK_SUCCESS) then mret (inl r)
  else
  '(fd, errno) ← aask (fun t => i_dup K t (hd_fd0 g));
  _ ← aev (Created KFd (0 <=? fd) fd);
  if fd <? 0
  then import_fail (if errno =? EMFILE then VK_ERROR_TOO_MANY_OBJECTS else VK_ERROR_OUT_OF_HOST_MEMORY) img VK_NULL_HANDLE fd
  else import_memory d img fd
  end end end.

Definition anb_create_image (d : nvhal_device) (ci : VkImageCreateInfo) (nb : option cros_gralloc_handle) : M aworld (Z + Z) :=
  r ← nvhal_anb_import d ci nb;
  match r with
  | inl r => mret (inl r)
  | inr (img, mem) =>
      ok ← anb_track img mem;
      if negb ok then
        _ ← aev (Destroyed KImage img);
        _ ← aev (Destroyed KMemory mem);
        mret (inl VK_ERROR_OUT_OF_HOST_MEMORY)
      else mret (inr img)
  end.

(** [nvhal_DestroyImage] for an image that is not a wrapper of [ahb.c] or
    [astc.c]. *)
Definition anb_destroy_image (img : Z) : M aworld () :=
  w ← getS;
  mem ← (if negb (img =? VK_NULL_HANDLE) && negb (bool_decide (anb_images w = [])) then anb_untrack img else mret VK_NULL_HANDLE);
  _ ← aev (Destroyed KImage img);
  whenA (negb (mem =? VK_NULL_HANDLE)) (aev (Destroyed KMemory mem)).

(** ** Acquire *)

Definition aclose (fd : Z) : M aworld () := aev (Destroyed KFd fd).

Fixpoint apolls (n : nat) (fd r : Z) : M aworld () :=
  match n with
  | S n => apolls n fd r
  | O => aev (Called "poll" [fd; r])
  end.

(** The CPU wait for drivers that mishandle sync_fd payloads; the
    descriptor is closed whatever comes of it. *)
Definition native_wait (fd : Z) : M aworld bool :=
  '(n, (r, bad)) ← aask (i_poll K);
  let ok := (r =? 1) && negb bad in
  _ ← apolls n fd (if ok : bool then 1 else 0);
  _ ← aclose fd;
  mret ok.

(** The descriptors to import: for the semaphore and for the fence. *)
Definition acquire_split (fd semaphore fence : Z) : M aworld (Z + Z * Z) :=
  if fd <? 0 then mret (inr (-1, -1))
  else if negb (semaphore =? VK_NULL_HANDLE) && negb (fence =? VK_NULL_HANDLE) then
    '(fence_fd, errno) ← aask (fun t => i_dup K t fd);
    _ ← aev (Created KFd (0 <=? fence_fd) fence_fd);
    if fence_fd <? 0
    then (_ ← aclose fd; mret (inl (if errno =? EMFILE then VK_ERROR_TOO_MANY_OBJECTS else VK_ERROR_OUT_OF_HOST_MEMORY)))
    else mret (inr (fd, fence_fd))
  else if negb (semaphore =? VK_NULL_HANDLE) then mret (inr (fd, -1))
  else if negb (fence =? VK_NULL_HANDLE) then mret (inr (-1, fd))
  else (_ ← aclose fd; mret (inr (-1, -1))).

(** Both imports; a descriptor the ICD did not take is closed. *)
Definition acquire_import (semaphore fence sem_fd fence_fd : Z) : M aworld Z :=
  '(r, sem_fd) ← (if negb (semaphore =? VK_NULL_HANDLE) then
                    r ← aask (fun t => i_import_semaphore K t sem_fd);
                    _ ← aev (Called "vkImportSemaphoreFdKHR" [semaphore; sem_fd; r]);
                    if r =? VK_SUCCESS
                    then (_ ← whenA (0 <=? sem_fd) (aev (Moved KFd sem_fd)); mret (r, -1))
                    else mret (r, sem_fd)
                  else mret (VK_SUCCESS, sem_fd));
  '(r, fence_fd) ← (if (r =? VK_SUCCESS) && negb (fence =? VK_NULL_HANDLE) then
                      r ← aask (fun t => i_import_fence K t fence_fd);
                      _ ← aev (Called "vkImportFenceFdKHR" [fence; fence_fd; r]);
                      if r =? VK_SUCCESS
                      then (_ ← whenA (0 <=? fence_fd) (aev (Moved KFd fence_fd)); mret (r, -1))
                      else mret (r, fence_fd)
                    else mret (r, fence_fd));
  _ ← whenA (0 <=? sem_fd) (aclose sem_fd);
  _ ← whenA (0 <=? fence_fd) (aclose fence_fd);
  mret r.

Definition nvhal_AcquireImageANDROID (d : option nvhal_device) (nativeFenceFd semaphore fence : Z) : M aworld Z :=
  match anb_device d with
  | None => _ ← whenA (0 <=? nativeFenceFd) (aclose nativeFenceFd); mret VK_ERROR_INITIALIZATION_FAILED
  | Some d =>
  waited ← (if (0 <=? nativeFenceFd)
               && ((negb (fence =? VK_NULL_HANDLE) && acquire_wait_fence d)
                   || (negb (semaphore =? VK_NULL_HANDLE) && acquire_wait_semaphore d))
            then (ok ← native_wait nativeFenceFd; mret (if ok : bool then Some (-1) else None))
            else mret (Some nativeFenceFd));
  match waited with
  | None => mret VK_ERROR_DEVICE_LOST
  | Some nativeFenceFd =>
  fds ← acquire_split nativeFenceFd semaphore fence;
  match fds with
  | inl r => mret r
  | inr (sem_fd, fence_fd) => acquire_import semaphore fence sem_fd fence_fd
  end end end.

(** ** Release *)

Definition reset_fence (f : Z) : M aworld Z :=
  r ← aask (fun t => i_reset_fence K t f);
  _ ← aev (Called "vkResetFences" [f; r]);
  mret r.

Definition pool_get : M aworld (Z + Z) :=
  w ← getS;
  f ← (match last (fence_pool w) with
       | Some f => _ ← put_pool (take (length (fence_pool w) - 1) (fence_pool w)) (fence_cap w); mret f
       | None => mret VK_NULL_HANDLE
       end);
  if f =? VK_NULL_HANDLE then
    '(r, f) ← aask (i_create_fence K);
    _ ← aev (Created KFence (r =? VK_SUCCESS) f);
    mret (if r =? VK_SUCCESS then inr f else inl r)
  else
  s ← aask (fun t => i_fence_status K t f);
  if s =? VK_SUCCESS then
    r ← reset_fence f;
    if negb (r =? VK_SUCCESS) then (_ ← aev (Destroyed KFence f); mret (inl r)) else mret (inr f)
  else if negb (s =? VK_NOT_READY) then mret (inl s)
  else mret (inr f).

Definition pool_put (f : Z) : M aworld () :=
  w ← getS;
  let n := Z.of_nat (length (fence_pool w)) in
  cap ← (if n =? fence_cap w then
           ok ← aask (i_realloc K);
           mret (if ok : bool then Some (if fence_cap w =? 0 then 4 else u32 (fence_cap w * 2)) else None)
         else mret (Some (fence_cap w)));
  match cap with
  | Some cap => put_pool (fence_pool w ++ [f]) cap
  | None => aev (Destroyed KFence f)
  end.

(** [r] and the descriptor for the loader. *)
Definition signal_release (f : Z) : M aworld (Z * Z) :=
  r ← aask (fun t => i_submit K t f);
  _ ← aev (Called "vkQueueSubmit" [f; r]);
  if negb (r =? VK_SUCCESS) then (_ ← pool_put f; mret (r, -1))
  else
  '(r, fd) ← aask (fun t => i_fence_fd K t f);
  _ ← aev (Called "vkGetFenceFdKHR" [f; r]);
  if negb (r =? VK_SUCCESS) then
    wr ← aask (fun t => i_wait_fence K t f);
    _ ← aev (Called "vkWaitForFences" [f; wr]);
    _ ← (if wr =? VK_SUCCESS then
           rr ← reset_fence f;
           if rr =? VK_SUCCESS then pool_put f else mret tt
         else mret tt);
    mret (r, -1)
  else
  _ ← aev (Created KFd (0 <=? fd) fd);
  _ ← pool_put f;
  mret (r, fd).

(** [d]: the queue's device; the wait semaphores only go into the submit. *)
Definition nvhal_QueueSignalReleaseImageANDROID (d : option nvhal_device) (waitCount : Z) : M aworld (Z * Z) :=
  match d with
  | None => mret (VK_ERROR_INITIALIZATION_FAILED, -1)
  | Some d =>
  if negb (anb_enabled d) then mret (VK_ERROR_INITIALIZATION_FAILED, -1)
  else
  ok ← (if 16 <? waitCount then aask (i_malloc K) else mret true);
  if negb ok then mret (VK_ERROR_OUT_OF_HOST_MEMORY, -1)
  else
  f ← pool_get;
  match f with
  | inl r => mret (r, -1)
  | inr f => signal_release f
  end end.

(** ** Teardown *)

Fixpoint destroy_each (k : kind) (l : list Z) : M aworld () :=
  match l with
  | [] => mret tt
  | h :: l => _ ← aev (Destroyed k h); destroy_each k l
  end.

Definition nvhal_anb_device_teardown : M aworld () :=
  w ← getS;
  _ ← destroy_each KMemory (snd <$> anb_images w);
  _ ← destroy_each KFence (fence_pool w);
  _ ← put_images [] 0;
  put_pool [] 0.

End Icd.
(** ** Fences as the Vulkan specification describes them *)

Inductive fstate := FNone | Unsignalled | Pending | Signalled.
#[export] Instance fstate_eq_dec : EqDecision fstate.
Proof. solve_decision. Defined.

(** Exporting a sync_fd has copy transference and resets the fence. *)
Definition fstep (f : Z) (st : fstate) (e : event) : fstate :=
  match e with
  | Created KFence true g => if g =? f then Unsignalled else st
  | Called "vkQueueSubmit" [g; r] => if (g =? f) && (r =? VK_SUCCESS) then Pending else st
  | Called "vkGetFenceFdKHR" [g; r] => if (g =? f) && (r =? VK_SUCCESS) then Unsignalled else st
  | Called "vkWaitForFences" [g; r] => if (g =? f) && (r =? VK_SUCCESS) then Signalled else st
  | Called "vkResetFences" [g; r] => if (g =? f) && (r =? VK_SUCCESS) then Unsignalled else st
  | _ => st
  end.
Definition fence_state (t : trace) (f : Z) : fstate := foldl (fstep f) FNone t.

(** A fence is submitted only unsignalled, and neither reset nor destroyed
    while a submission is pending on it. *)
Definition use_ok (t : trace) (e : event) : bool :=
  match e with
  | Called "vkQueueSubmit" [f; _] => bool_decide (fence_state t f = Unsignalled)
  | Called "vkResetFences" [f; _] => bool_decide (fence_state t f <> Pending)
  | Destroyed KFence f => bool_decide (fence_state t f <> Pending)
  | _ => true
  end.
Definition fences_ok (t : trace) : Prop := forall t1 e t2, t = t1 ++ e :: t2 -> use_ok t1 e = true.

(** An event that is not about a fence. *)
Definition not_fence (e : event) : bool :=
  match e with
  | Created KFence _ _ | Destroyed KFence _ | Moved KFence _ => false
  | Called f _ => negb (bool_decide (f ∈ ["vkQueueSubmit"; "vkGetFenceFdKHR"; "vkWaitForFences"; "vkResetFences"]))
  | _ => true
  end.

Lemma fence_state_snoc t e f : fence_state (t ++ [e]) f = fstep f (fence_state t f) e.
Proof. unfold fence_state. by rewrite foldl_app. Qed.

Lemma fstep_other f st e : not_fence e = true -> fstep f st e = st.
Proof.
  destruct e as [[] []| | |c l]; try done. cbn [not_fence]. intros H%negb_true_iff%bool_decide_eq_false. unfold fstep.
  repeat (case_match; try done); exfalso; apply H; set_solver.
Qed.
Lemma use_other t e : not_fence e = true -> use_ok t e = true.
Proof.
  destruct e as [| []| |c l]; try done. cbn [not_fence]. intros H%negb_true_iff%bool_decide_eq_false. unfold use_ok.
  repeat (case_match; try done); exfalso; apply H; set_solver.
Qed.
Lemma fences_ok_snoc t e : fences_ok t -> use_ok t e = true -> fences_ok (t ++ [e]).
Proof.
  intros H He t1 e' t2 E. destruct t2 as [|x t2 _] using rev_ind.
  - apply app_inj_tail in E as [<- <-]. done.
  - rewrite app_comm_cons, app_assoc in E. apply app_inj_tail in E as [-> _]. by eapply H.
Qed.

(** ** Accounting *)

Definition cnt (k : kind) (h : Z) (l : list (kind * Z)) : Z := Z.of_nat (countb (fun x => bool_decide (x = (k, h))) l).
Lemma cnt_cons k h x l : cnt k h (x :: l) = (if decide (x = (k, h)) then 1 else 0) + cnt k h l.
Proof. unfold cnt. cbn [countb]. case_decide; [rewrite bool_decide_true by done|rewrite bool_decide_false by done]; lia. Qed.
Lemma cnt_nil k h : cnt k h [] = 0.
Proof. done. Qed.
Lemma cnt_app k h l l' : cnt k h (l ++ l') = cnt k h l + cnt k h l'.
Proof. unfold cnt. rewrite countb_app. lia. Qed.
Lemma cnt_nonneg k h l : 0 <= cnt k h l.
Proof. unfold cnt. lia. Qed.

(** What the device's tables hold. *)
Definition image_res (l : list (Z * Z)) : list (kind * Z) :=
  ((fun e => (KImage, fst e)) <$> l) ++ ((fun e => (KMemory, snd e)) <$> l).
Definition fence_res (l : list Z) : list (kind * Z) := (fun f => (KFence, f)) <$> l.
Definition tables (w : aworld) : list (kind * Z) := image_res (anb_images w) ++ fence_res (fence_pool w).

Lemma cnt_perm k h l l' : l ≡ₚ l' -> cnt k h l = cnt k h l'.
Proof. induction 1; rewrite ?cnt_cons; lia. Qed.
Lemma image_res_cons k h e l :
  cnt k h (image_res (e :: l)) = cnt k h [(KImage, e.1); (KMemory, e.2)] + cnt k h (image_res l).
Proof. unfold image_res. cbn [fmap list_fmap app]. rewrite !cnt_cons, !cnt_app, !cnt_cons, cnt_nil. lia. Qed.
Lemma image_res_app k h l l' : cnt k h (image_res (l ++ l')) = cnt k h (image_res l) + cnt k h (image_res l').
Proof. unfold image_res. rewrite !fmap_app, !cnt_app. lia. Qed.
Lemma image_res_perm k h l l' : l ≡ₚ l' -> cnt k h (image_res l) = cnt k h (image_res l').
Proof. intros P. unfold image_res. rewrite !cnt_app, !(cnt_perm k h _ _ (fmap_Permutation _ _ _ P)). done. Qed.
Lemma image_res_fence h l : cnt KFence h (image_res l) = 0.
Proof. induction l as [|e l IH]; [done|]. rewrite image_res_cons, IH, !cnt_cons, !decide_False by (by intros [= ?]). done. Qed.
Lemma fence_res_other k h l : k <> KFence -> cnt k h (fence_res l) = 0.
Proof. intros Hk. induction l as [|f l IH]; [done|]. change (fence_res (f :: l)) with ((KFence, f) :: fence_res l). rewrite cnt_cons, decide_False, IH; [done|]. intros [= ? _]. done. Qed.

Lemma cnt_fmap_other {A} k h (f : A -> kind * Z) l : (forall x, (f x).1 <> k) -> cnt k h (f <$> l) = 0.
Proof.
  intros Hf. induction l as [|x l IH]; [done|]. cbn [fmap list_fmap]. rewrite cnt_cons, decide_False, IH; [done|].
  intros E. apply (Hf x). by rewrite E.
Qed.
Lemma fence_cnt_in f l : f ∈ l -> 1 <= cnt KFence f (fence_res l).
Proof.
  induction l as [|g l IH]; intros H; [by apply elem_of_nil in H|].
  change (fence_res (g :: l)) with ((KFence, g) :: fence_res l). rewrite cnt_cons.
  pose proof (cnt_nonneg KFence f (fence_res l)). apply elem_of_cons in H as [->|H]; [rewrite decide_True by done; lia|].
  specialize (IH H). case_decide; lia.
Qed.
Lemma fd_cnt_tables fd w : cnt KFd fd (tables w) = 0.
Proof. unfold tables, image_res, fence_res. by rewrite !cnt_app, !cnt_fmap_other. Qed.

Lemma snoc_last {A} (l : list A) x : last l = Some x -> l = take (length l - 1) l ++ [x].
Proof.
  destruct l as [|y l _] using rev_ind; [done|]. rewrite last_snoc. intros [= ->]. rewrite length_app. cbn [length].
  by rewrite Nat.add_sub, take_app_length.
Qed.

(** Handles that stand for something counted. *)
Definition acounted (k : kind) (h : Z) : Prop :=
  match k with
  | KImage | KMemory | KRef | KHeap => h <> VK_NULL_HANDLE
  | KFd => 0 <= h
  | _ => False
  end.

(** The fence calls that may not fail for no fence to be lost: the status of a
    fence is always to be had, and a fence whose export fails can be waited for
    and reset.  (A lost device or a driver out of memory may answer otherwise;
    nothing is asked of the reset of a fence from the pool.) *)
Record fences_answer (K : icd) : Prop := {
  fa_status t f : i_fence_status K t f = VK_SUCCESS \/ i_fence_status K t f = VK_NOT_READY;
  fa_export t f : (i_fence_fd K t f).1 <> VK_SUCCESS -> forall t', i_wait_fence K t' f = VK_SUCCESS /\ i_reset_fence K t' f = VK_SUCCESS;
}.

(** A new fence is not one that exists. *)
Class IcdLaws (K : icd) : Prop := {
  law_fresh t f : i_create_fence K t = (VK_SUCCESS, f) -> f <> VK_NULL_HANDLE /\ balance KFence f t = 0;
}.

Definition cap_ok (n : nat) (len : nat) (cap : Z) : Prop := (len <= n)%nat /\ (Z.of_nat n < 2 ^ 31 -> Z.of_nat len <= cap).

(** *** Teardown *)

Lemma destroy_each_run k l w :
  destroy_each k l w = (tt, mk_aw (anb_images w) (anb_cap w) (fence_pool w) (fence_cap w) (atr w ++ (Destroyed k <$> l))).
Proof.
  revert w. induction l as [|h l IH]; intros w; cbn [destroy_each]; [by rewrite app_nil_r; destruct w|].
  rewrite bind_run. rewrite IH. cbn. by rewrite <- app_assoc.
Qed.
Lemma teardown_trace w :
  atr (nvhal_anb_device_teardown w).2 = atr w ++ (Destroyed KMemory <$> (snd <$> anb_images w)) ++ (Destroyed KFence <$> fence_pool w).
Proof.
  unfold nvhal_anb_device_teardown. rewrite bind_run. cbn [getS fst snd]. rewrite bind_run, destroy_each_run. cbn [fst snd].
  rewrite bind_run, destroy_each_run. cbn. by rewrite <- app_assoc.
Qed.
Lemma destroyed_balance k k' h l : balance k h (Destroyed k' <$> l) = - cnt k h (pair k' <$> l).
Proof.
  induction l as [|x l IH]; [done|]. change (Destroyed k' <$> x :: l) with ([Destroyed k' x] ++ (Destroyed k' <$> l)).
  rewrite balance_app, IH. cbn [fmap list_fmap]. rewrite cnt_cons. unfold balance at 1, sumZ. cbn [fmap list_fmap foldr].
  rewrite delta_destroyed. unfold one. repeat case_decide; try lia; naive_solver.
Qed.
Lemma destroyed_ok t l : fences_ok t -> (forall f, f ∈ l -> fence_state t f <> Pending) -> fences_ok (t ++ (Destroyed KFence <$> l)).
Proof.
  revert t. induction l as [|f l IH]; intros t H Hl; [by rewrite app_nil_r|]. cbn [fmap list_fmap].
  change (t ++ Destroyed KFence f :: ?u) with (t ++ [Destroyed KFence f] ++ u). rewrite app_assoc. apply IH.
  - apply fences_ok_snoc; [done|]. apply bool_decide_eq_true, Hl. set_solver.
  - intros g Hg. rewrite fence_state_snoc. apply Hl. set_solver.
Qed.
Lemma quiet_ok t u : fences_ok t -> Forall (fun e => not_fence e = true) u -> fences_ok (t ++ u) /\ forall f, fence_state (t ++ u) f = fence_state t f.
Proof.
  revert t. induction u as [|e u IH]; intros t H F; [by rewrite app_nil_r|]. apply Forall_cons in F as [He F].
  change (e :: u) with ([e] ++ u). rewrite app_assoc. destruct (IH (t ++ [e])) as [H1 H2].
  - apply fences_ok_snoc; [done|by apply use_other].
  - done.
  - split; [done|]. intros f. by rewrite H2, fence_state_snoc, fstep_other.
Qed.

Section Inv.
Context (K : icd) `{!IcdLaws K}.

(** The running call holds [X]; at most [n] entries were added so far. *)
Record ainv (n : nat) (X : list (kind * Z)) (w : aworld) : Prop := {
  ai_bal k h : acounted k h -> balance k h (atr w) = cnt k h (tables w) + cnt k h X;
  ai_fence h : h <> VK_NULL_HANDLE ->
    cnt KFence h (tables w) + cnt KFence h X <= 1 /\ cnt KFence h (tables w) + cnt KFence h X <= balance KFence h (atr w) /\
    (fences_answer K -> balance KFence h (atr w) = cnt KFence h (tables w) + cnt KFence h X) /\
    (1 <= cnt KFence h (tables w) -> fence_state (atr w) h = Unsignalled);
  ai_ok : fences_ok (atr w);
  ai_images : cap_ok n (length (anb_images w)) (anb_cap w);
  ai_pool : cap_ok n (length (fence_pool w)) (fence_cap w);
  ai_null : Forall (fun f => f <> VK_NULL_HANDLE) (fence_pool w);
}.

Lemma ainv_more n m X w : (n <= m)%nat -> ainv n X w -> ainv m X w.
Proof. intros H [A B C [D1 D2] [E1 E2] N]. split; try done; split; lia. Qed.

(** Only the counts of [X] matter. *)
Lemma ainv_ext n X Y w :
  (forall k h, acounted k h \/ k = KFence /\ h <> VK_NULL_HANDLE -> cnt k h X = cnt k h Y) -> ainv n X w -> ainv n Y w.
Proof.
  intros H [A B C D E N]. split; try done.
  - intros k h Hk. rewrite A, H by auto. done.
  - intros h Hh. rewrite <- H by auto. by apply B.
Qed.
Lemma ainv_skip n k h X w : ~ acounted k h -> (k = KFence -> h = VK_NULL_HANDLE) -> ainv n ((k, h) :: X) w <-> ainv n X w.
Proof.
  intros H1 H2. split; apply ainv_ext; intros k' h' H; rewrite cnt_cons, decide_False; try done; intros [= <- <-]; destruct H as [?|[-> ?]]; auto.
Qed.

(** An event that is no resource's and no fence's. *)
Lemma ainv_ev n X w e :
  not_fence e = true -> (forall k h, ev_delta k h e = 0) -> ainv n X w -> ainv n X (aev e w).2.
Proof.
  intros Hf Hz [A B C D E N]. split; cbn [aev modS snd atr anb_images anb_cap fence_pool fence_cap]; try done.
  - intros k h Hk. rewrite balance_snoc, Hz, A by done. change (tables _) with (tables w). lia.
  - intros h Hh. destruct (B h Hh) as (B1 & B2 & B3 & B4). rewrite balance_snoc, Hz, fence_state_snoc, fstep_other, Z.add_0_r by done. done.
  - apply fences_ok_snoc; [done|]. by apply use_other.
Qed.

(** A resource comes to the running call. *)
Lemma ainv_new n X w k h (ok : bool) :
  k <> KFence -> ainv n X w -> ainv n (if ok then (k, h) :: X else X) (aev (Created k ok h) w).2.
Proof.
  intros Hk [A B C D E N].
  assert (Hn : not_fence (Created k ok h) = true) by (by destruct k).
  split; cbn [aev modS snd atr anb_images anb_cap fence_pool fence_cap]; try done.
  - intros k' h' Hk'. rewrite balance_snoc, A by done. change (tables _) with (tables w). destruct ok.
    + rewrite delta_created, cnt_cons. unfold one. repeat case_decide; try lia; naive_solver.
    + rewrite delta_failed. lia.
  - intros h' Hh. destruct (B h' Hh) as (B1 & B2 & B3 & B4). change (tables _) with (tables w).
    assert (Hd : ev_delta KFence h' (Created k ok h) = 0).
    { destruct ok; [rewrite delta_created, one_other by done; done|by rewrite delta_failed]. }
    assert (Hc : cnt KFence h' (if ok then (k, h) :: X else X) = cnt KFence h' X).
    { destruct ok; [|done]. rewrite cnt_cons, decide_False; [lia|]. intros [= ? _]. done. }
    rewrite balance_snoc, Hd, Hc, fence_state_snoc, fstep_other, Z.add_0_r by done. done.
  - apply fences_ok_snoc; [done|]. by apply use_other.
Qed.

(** A resource leaves it. *)
Lemma ainv_gone n X w k h e :
  k <> KFence -> e = Destroyed k h \/ e = Moved k h -> ainv n ((k, h) :: X) w -> ainv n X (aev e w).2.
Proof.
  intros Hk He [A B C D E N].
  assert (Hn : not_fence e = true) by (destruct He as [-> | ->], k; done).
  assert (Hd : forall k' h', ev_delta k' h' e = - one k' k h' h).
  { intros k' h'. destruct He as [-> | ->]; [apply delta_destroyed|apply delta_moved]. }
  split; cbn [aev modS snd atr anb_images anb_cap fence_pool fence_cap]; try done.
  - intros k' h' Hk'. rewrite balance_snoc, A, Hd, cnt_cons by done. change (tables _) with (tables w). unfold one.
    repeat case_decide; try lia; naive_solver.
  - intros h' Hh. destruct (B h' Hh) as (B1 & B2 & B3 & B4). change (tables _) with (tables w).
    rewrite cnt_cons, decide_False, Z.add_0_l in B1, B2, B3; [|by intros [= ? _]|by intros [= ? _]|by intros [= ? _]].
    rewrite balance_snoc, Hd, one_other, fence_state_snoc, fstep_other, Z.add_0_r by done. done.
  - apply fences_ok_snoc; [done|]. by apply use_other.
Qed.

(** The conditional forms: a negative descriptor or a null handle is
    nothing. *)
Lemma ainv_fd_new n X w fd : ainv n X w -> ainv n ((KFd, fd) :: X) (aev (Created KFd (0 <=? fd) fd) w).2.
Proof.
  intros I. pose proof (ainv_new n X w KFd fd (0 <=? fd) ltac:(done) I) as J. destruct (Z.leb_spec 0 fd); [done|].
  apply ainv_skip; [cbn; lia|done|done].
Qed.
Lemma ainv_fd_gone n X w fd e :
  e = Destroyed KFd fd \/ e = Moved KFd fd -> ainv n ((KFd, fd) :: X) w -> ainv n X (whenA (0 <=? fd) (aev e) w).2.
Proof.
  intros He I. destruct (Z.leb_spec 0 fd); cbn [whenA]; [by apply (ainv_gone n X w KFd fd)|].
  apply ainv_skip in I; [done|cbn; lia|done].
Qed.
Lemma ainv_mem_gone n X w m :
  ainv n ((KMemory, m) :: X) w -> ainv n X (whenA (negb (m =? VK_NULL_HANDLE)) (aev (Destroyed KMemory m)) w).2.
Proof.
  intros I. destruct (Z.eqb_spec m VK_NULL_HANDLE); cbn [negb whenA]; [|by apply (ainv_gone n X w KMemory m); [|left|]].
  apply ainv_skip in I; [done|by intros ?|done].
Qed.
Lemma ainv_call n X w f a : not_fence (Called f a) = true -> ainv n X w -> ainv n X (aev (Called f a) w).2.
Proof. intros H. by apply ainv_ev. Qed.
Lemma ainv_swap n x y X w : ainv n (x :: y :: X) w -> ainv n (y :: x :: X) w.
Proof. apply ainv_ext. intros. rewrite !cnt_cons. lia. Qed.

(** *** Import *)

Lemma usage_ok_world i u w : (nvhal_modifier_usage_ok K i u w).2 = w.
Proof. unfold nvhal_modifier_usage_ok. rewrite bind_run. unfold aask. by destruct (i_format_props _ _ _ _). Qed.
Lemma accepted_usage_world i w : (accepted_usage K i w).2 = w.
Proof.
  unfold accepted_usage. rewrite bind_run, usage_ok_world. destruct (_ =? _); [done|]. destruct (_ && _); [|done].
  by rewrite bind_run, usage_ok_world.
Qed.

Definition import_post (n : nat) (X : list (kind * Z)) (r : Z + Z * Z) (w : aworld) : Prop :=
  match r with inl _ => ainv n X w | inr (img, mem) => ainv n ((KImage, img) :: (KMemory, mem) :: X) w end.

Lemma import_fail_spec n X r img mem fd w :
  ainv n ((KImage, img) :: (KMemory, mem) :: (KFd, fd) :: X) w -> wp (import_fail r img mem fd) (import_post n X) w.
Proof.
  intros I. unfold import_fail. apply wp_bind. unfold wp at 1. apply wp_bind. unfold wp at 1. apply wp_bind. unfold wp at 1.
  apply wp_ret. apply ainv_fd_gone; [by left|]. apply ainv_mem_gone. eapply ainv_gone; [|by left|]; done.
Qed.
(** Before the memory exists. *)
Lemma import_fail_early n X r img fd w :
  ainv n ((KImage, img) :: (KFd, fd) :: X) w -> wp (import_fail r img VK_NULL_HANDLE fd) (import_post n X) w.
Proof. intros I. apply import_fail_spec. apply ainv_swap, ainv_skip; [by intros ?|done|done]. Qed.

Lemma import_memory_spec d n X img fd w :
  ainv n ((KImage, img) :: (KFd, fd) :: X) w -> wp (import_memory K d img fd) (import_post n X) w.
Proof.
  intros I. unfold import_memory. apply wp_bind. unfold wp at 1. cbn [aask fst snd]. set (size := i_seek_end K _ fd).
  apply wp_bind. eapply wp_mono with (Q := fun _ w' => w' = w).
  { destruct (size <? 0); done. }
  intros re w' ->. destruct (_ || _); [by apply import_fail_early|]. clear re.
  apply wp_bind. unfold wp at 1, aask. cbn [fst snd]. destruct (i_fd_props K _ fd) as [r bits].
  destruct (negb _); [by apply import_fail_early|]. apply wp_bind. unfold wp at 1. cbn [fst snd].
  destruct (i_requirements K _ img) as [need ibits]. destruct (_ <? _); [by apply import_fail_early|].
  destruct (import_memory_type _ _) as [type|]; [|by apply import_fail_early].
  apply wp_bind. unfold wp at 1. cbn [fst snd]. destruct (i_allocate K _) as [r2 mem].
  apply wp_bind. unfold wp at 1. apply wp_bind. unfold wp at 1.
  set (w1 := (aev (Called _ _) w).2). assert (I1 : ainv n ((KImage, img) :: (KFd, fd) :: X) w1) by (by apply ainv_call).
  pose proof (ainv_new n _ w1 KMemory mem (r2 =? VK_SUCCESS) ltac:(done) I1) as I2.
  destruct (Z.eqb_spec r2 VK_SUCCESS) as [->|Hr]; cbn [negb]; [|by apply import_fail_early].
  apply wp_bind. unfold wp at 1. apply wp_bind. unfold wp at 1. cbn [fst snd]. set (r3 := i_bind K _).
  apply wp_bind. unfold wp at 1.
  assert (I3 : forall e, e = Called "vkBindImageMemory2" [img; mem; r3] -> ainv n ((KImage, img) :: (KMemory, mem) :: X)
    (aev e (aev (Moved KFd fd) (aev (Created KMemory true mem) w1).2).2).2).
  { intros e ->. apply ainv_call; [done|]. apply (ainv_gone n _ _ KFd fd); [done|by right|].
    eapply ainv_ext; [|exact I2]. intros. rewrite !cnt_cons. lia. }
  specialize (I3 _ eq_refl). destruct (negb _); [|by apply wp_ret].
  apply import_fail_spec. eapply ainv_ext; [|exact I3]. intros k h [Hk|[-> ?]]; rewrite !cnt_cons; [|done].
  rewrite (decide_False (P := (KFd, -1) = (k, h))); [lia|]. intros [= <- <-]. cbn in Hk. lia.
Qed.

Lemma anb_import_spec d ci nb n X w : ainv n X w -> wp (nvhal_anb_import K d ci nb) (import_post n X) w.
Proof.
  intros I. unfold nvhal_anb_import. destruct (nvhal_cros_handle nb) as [r|g]; [by apply wp_ret|].
  destruct (import_checks ci g) as [r|kept]; [by apply wp_ret|].
  apply wp_bind. unfold wp at 1. rewrite accepted_usage_world. destruct (_ : Z + icd_info) as [r|ici]; [by apply wp_ret|].
  apply wp_bind. unfold wp at 1, aask. cbn [fst snd]. destruct (i_create_image K _ ici) as [r img].
  apply wp_bind. unfold wp at 1. apply wp_bind. unfold wp at 1.
  set (w1 := (aev (Called _ _) w).2). assert (I1 : ainv n X w1) by (by apply ainv_call).
  pose proof (ainv_new n _ w1 KImage img (r =? VK_SUCCESS) ltac:(done) I1) as I2.
  destruct (r =? VK_SUCCESS); cbn [negb]; [|by apply wp_ret].
  apply wp_bind. unfold wp at 1. cbn [fst snd]. destruct (i_dup K _ (hd_fd0 g)) as [fd errno].
  apply wp_bind. unfold wp at 1. set (w2 := (aev (Created KImage true img) w1).2).
  assert (I3 : ainv n ((KImage, img) :: (KFd, fd) :: X) (aev (Created KFd (0 <=? fd) fd) w2).2).
  { apply ainv_swap. by apply ainv_fd_new. }
  destruct (fd <? 0); [by apply import_fail_early|by apply import_memory_spec].
Qed.

(** *** The image table *)

Lemma cap_push n len cap : cap_ok n len cap -> Z.of_nat len <> cap -> cap_ok (S n) (S len) cap.
Proof. intros [H1 H2] H. split; lia. Qed.
Lemma cap_grow n len cap first :
  0 < first -> cap_ok n len cap -> Z.of_nat len = cap -> cap_ok (S n) (S len) (if cap =? 0 then first else u32 (cap * 2)).
Proof.
  intros Hf [H1 H2] H. split; [lia|]. intros Hn. destruct (Z.eqb_spec cap 0); [lia|].
  rewrite u32_id; [lia|]. split; lia.
Qed.

(** The tables change and what leaves or enters them is the call's. *)
Lemma ainv_images n n' X Y l cap w :
  (forall k h, cnt k h (image_res (anb_images w)) + cnt k h X = cnt k h (image_res l) + cnt k h Y) ->
  (n <= n')%nat -> cap_ok n' (length l) cap -> ainv n X w -> ainv n' Y (put_images l cap w).2.
Proof.
  intros H Hn Hc [A B C D [E1 E2] N]. split; cbn [put_images modS snd atr anb_images anb_cap fence_pool fence_cap]; try done.
  - intros k h Hk. rewrite A by done. unfold tables. cbn [anb_images fence_pool]. rewrite !cnt_app. specialize (H k h). lia.
  - intros h Hh. specialize (B h Hh). specialize (H KFence h). unfold tables in *. cbn [anb_images fence_pool]. rewrite !cnt_app in *.
    rewrite !image_res_fence in *. replace (cnt KFence h Y) with (cnt KFence h X) by lia. done.
  - split; lia.
Qed.

Lemma anb_track_spec n X img mem w :
  ainv n ((KImage, img) :: (KMemory, mem) :: X) w ->
  wp (anb_track K img mem) (fun ok w' => ainv (S n) (if ok then X else (KImage, img) :: (KMemory, mem) :: X) w') w.
Proof.
  intros I. unfold anb_track. apply wp_bind. unfold wp at 1. cbn [getS fst snd]. apply wp_bind.
  eapply wp_mono with (Q := fun cap w' => w' = w /\ forall c, cap = Some c -> cap_ok (S n) (S (length (anb_images w))) c).
  { destruct (Z.eqb_spec (Z.of_nat (length (anb_images w))) (anb_cap w)) as [E|E].
    - apply wp_bind. unfold wp at 1. cbn [aask fst snd]. apply wp_ret. split; [done|]. intros c Hc.
      destruct (i_realloc K _); [|done]. injection Hc as <-. apply (cap_grow n); [lia|apply I|done].
    - apply wp_ret. split; [done|]. intros c [= <-]. apply cap_push; [apply I|done]. }
  intros [c|] w' [-> Hc].
  - apply wp_bind. unfold wp at 1. apply wp_ret. eapply (ainv_images n); [|lia|rewrite length_app; cbn; rewrite Nat.add_1_r; by apply Hc|exact I].
    intros k h. rewrite image_res_app, image_res_cons, !cnt_cons, cnt_nil. cbn [fst snd]. change (image_res []) with (@nil (kind * Z)).
    rewrite cnt_nil. lia.
  - apply wp_ret. by apply (ainv_more n); [lia|].
Qed.

Lemma anb_untrack_spec n X img w :
  ainv n X w -> wp (anb_untrack img) (fun mem w' =>
    ((exists i, anb_images w !! i = Some (img, mem)) /\ ainv n ((KImage, img) :: (KMemory, mem) :: X) w') \/
    (mem = VK_NULL_HANDLE /\ (forall m, (img, m) ∉ anb_images w) /\ w' = w)) w.
Proof.
  intros I. unfold anb_untrack. apply wp_bind. unfold wp at 1. cbn [getS fst snd].
  destruct (list_find _ _) as [[i [img' mem]]|] eqn:Hf.
  - apply list_find_Some in Hf as (Hi & Hp & _). cbn in Hp. subst img'.
    apply wp_bind. unfold wp at 1. apply wp_ret. left. split; [by exists i|]. eapply (ainv_images n); [|done| |exact I].
    + intros k h. rewrite (image_res_perm k h _ _ (LinearMap.swap_remove_perm _ _ _ Hi)), image_res_cons, !cnt_cons, cnt_nil. cbn [fst snd]. lia.
    + destruct (ai_images _ _ _ I) as [D1 D2]. pose proof (LinearMap.swap_remove_length _ _ _ Hi). split; lia.
  - apply wp_ret. right. split; [done|]. split; [|done]. intros m Hm. apply list_find_None in Hf.
    rewrite Forall_forall in Hf. by apply (Hf _ Hm).
Qed.

Lemma anb_create_spec d ci nb n X w :
  ainv n X w -> wp (anb_create_image K d ci nb) (fun _ w' => ainv (S n) X w') w.
Proof.
  intros I. unfold anb_create_image. apply wp_bind. eapply wp_mono; [by apply (anb_import_spec d ci nb n X)|].
  intros [r|[img mem]] w1 I1; [apply wp_ret; by apply (ainv_more n); [lia|]|].
  apply wp_bind. eapply wp_mono; [by apply anb_track_spec|]. intros ok w2 I2. destruct ok; cbn [negb]; [by apply wp_ret|].
  apply wp_bind. unfold wp at 1. apply wp_bind. unfold wp at 1. apply wp_ret.
  apply (ainv_gone (S n) X _ KMemory mem); [done|by left|]. by apply (ainv_gone (S n) _ _ KImage img); [|left|].
Qed.

Lemma anb_destroy_spec n X img w :
  ainv n X w -> (exists m, (img, m) ∈ anb_images w) -> wp (anb_destroy_image img) (fun _ w' => ainv n X w') w.
Proof.
  intros I [m Hm]. unfold anb_destroy_image. apply wp_bind. unfold wp at 1. cbn [getS fst snd]. apply wp_bind.
  rewrite bool_decide_false by (intros E; rewrite E in Hm; by apply elem_of_nil in Hm). cbn [negb]. rewrite andb_true_r.
  destruct (Z.eqb_spec img VK_NULL_HANDLE) as [Ez|Ez]; cbn [negb].
  - apply wp_ret. apply wp_bind. unfold wp at 1. apply (ainv_gone n X w KImage img); [done|by left|].
    apply ainv_skip; [by intros ?|done|done].
  - eapply wp_mono; [by apply anb_untrack_spec|]. intros mem w1 [[_ I1]|(_ & Hn & _)]; [|by destruct (Hn m)].
    apply wp_bind. unfold wp at 1. apply ainv_mem_gone. by apply (ainv_gone n _ _ KImage img); [|left|].
Qed.

(** *** Acquire *)

Definition adds (w w' : aworld) (t : trace) : Prop := atr w' = atr w ++ t.
Lemma adds_trans w1 w2 w3 t u : adds w1 w2 t -> adds w2 w3 u -> adds w1 w3 (t ++ u).
Proof. unfold adds. intros -> ->. by rewrite app_assoc. Qed.
Lemma adds_ev e w : adds w (aev e w).2 [e].
Proof. done. Qed.
Lemma adds_when b e w : exists t, adds w (whenA b (aev e) w).2 t.
Proof. destruct b; [by exists [e]|]. exists []. unfold adds. cbn. by rewrite app_nil_r. Qed.

Lemma apolls_run n fd r w : apolls n fd r w = aev (Called "poll" [fd; r]) w.
Proof. by induction n. Qed.

Lemma native_wait_spec n fd w :
  ainv n [(KFd, fd)] w -> wp (native_wait K fd) (fun ok w' => ainv n [] w' /\ exists t, adds w w' t /\ (ok = true -> Called "poll" [fd; 1] ∈ t)) w.
Proof.
  intros I. unfold native_wait. apply wp_bind. unfold wp at 1, aask. cbn [fst snd]. destruct (i_poll K _) as [m [r bad]].
  apply wp_bind. unfold wp at 1. rewrite apolls_run. apply wp_bind. unfold wp at 1. apply wp_ret. split.
  - apply (ainv_gone n [] _ KFd fd); [done|by left|]. by apply ainv_call.
  - eexists. split; [eapply adds_trans; apply adds_ev|]. intros ->. set_solver.
Qed.

(** A descriptor that stands for the native fence: the fence itself, a
    duplicate, or "already signalled" when it is. *)
Definition carries (native : Z) (t : trace) (fd : Z) : Prop :=
  (fd = -1 /\ (native < 0 \/ Called "poll" [native; 1] ∈ t)) \/
  (0 <= native /\ (fd = native \/ exists t', (i_dup K t' native).1 = fd)).

Lemma acquire_split_spec n fd sem fence w :
  ainv n [(KFd, fd)] w ->
  wp (acquire_split K fd sem fence) (fun r w' => (exists t, adds w w' t) /\
    match r with
    | inl r => ainv n [] w' /\ r <> VK_SUCCESS
    | inr (s, f) => ainv n [(KFd, s); (KFd, f)] w' /\
        (sem <> VK_NULL_HANDLE -> carries fd [] s) /\ (fence <> VK_NULL_HANDLE -> carries fd [] f)
    end) w.
Proof.
  intros I. unfold acquire_split.
  assert (Z1 : forall X w, ainv n ((KFd, -1) :: X) w <-> ainv n X w) by (intros; apply ainv_skip; [cbn; lia|done]).
  assert (Hnil : exists t, adds w w t) by (exists []; unfold adds; by rewrite app_nil_r).
  destruct (Z.ltb_spec fd 0) as [Hf|Hf].
  { apply wp_ret. split; [done|]. split; [|split; intros; left; split; [done|by left|done|by left]].
    rewrite !Z1. apply ainv_skip in I; [done|cbn; lia|done]. }
  destruct (Z.eqb_spec sem VK_NULL_HANDLE) as [Hs|Hs], (Z.eqb_spec fence VK_NULL_HANDLE) as [Hc|Hc]; cbn [negb andb].
  - apply wp_bind. unfold wp at 1. apply wp_ret. split; [eexists; apply adds_ev|]. split; [|done]. rewrite !Z1.
    by apply (ainv_gone n [] w KFd fd); [|left|].
  - apply wp_ret. split; [done|]. split; [by rewrite Z1|]. split; [done|]. intros _. right. auto.
  - apply wp_ret. split; [done|]. split; [by apply ainv_swap; rewrite Z1|]. split; [|done]. intros _. right. auto.
  - apply wp_bind. unfold wp at 1, aask. cbn [fst snd]. destruct (i_dup K (atr w) fd) as [fd2 errno] eqn:Ed.
    apply wp_bind. unfold wp at 1. pose proof (ainv_fd_new n _ w fd2 I) as I1.
    destruct (Z.ltb_spec fd2 0) as [H2|H2].
    + apply wp_bind. unfold wp at 1. apply wp_ret. split; [eexists; eapply adds_trans; apply adds_ev|].
      split; [|destruct (_ =? _); done]. apply (ainv_gone n [] _ KFd fd); [done|by left|].
      apply ainv_skip in I1; [done|cbn; lia|done].
    + apply wp_ret. split; [eexists; apply adds_ev|]. split; [by apply ainv_swap|].
      split; intros _; right; [by auto|]. split; [done|]. right. exists (atr w). by rewrite Ed.
Qed.

(** One import: the descriptor goes to the ICD or stays. *)
Lemma import_one n X fd (r : Z) (name : string) (sem : Z) w :
  not_fence (Called name [sem; fd; r]) = true -> ainv n ((KFd, fd) :: X) w ->
  wp (_ ← aev (Called name [sem; fd; r]);
      if r =? VK_SUCCESS then (_ ← whenA (0 <=? fd) (aev (Moved KFd fd)); mret (r, -1)) else mret (r, fd))
    (fun '(r', fd') w' => r' = r /\ ainv n ((KFd, fd') :: X) w' /\ exists t, adds w w' t /\ Called name [sem; fd; r] ∈ t) w.
Proof.
  intros Hn I. apply wp_bind. unfold wp at 1. set (w1 := (aev _ w).2).
  assert (I1 : ainv n ((KFd, fd) :: X) w1) by (by apply ainv_call). destruct (r =? VK_SUCCESS).
  - apply wp_bind. unfold wp at 1. apply wp_ret. split; [done|]. split.
    + apply ainv_skip; [cbn; lia|done|]. by apply ainv_fd_gone; [right|].
    + destruct (adds_when (0 <=? fd) (Moved KFd fd) w1) as [t Ht]. eexists. split; [eapply adds_trans; [apply adds_ev|done]|]. set_solver.
  - apply wp_ret. split; [done|]. split; [done|]. eexists. split; [apply adds_ev|]. set_solver.
Qed.

Definition imported (name : string) (h fd : Z) (t : trace) : Prop := Called name [h; fd; VK_SUCCESS] ∈ t.

Lemma acquire_import_spec n sem fence s f w :
  ainv n [(KFd, s); (KFd, f)] w ->
  wp (acquire_import K sem fence s f) (fun r w' => ainv n [] w' /\ exists t, adds w w' t /\ (r = VK_SUCCESS ->
    (sem <> VK_NULL_HANDLE -> imported "vkImportSemaphoreFdKHR" sem s t) /\
    (fence <> VK_NULL_HANDLE -> imported "vkImportFenceFdKHR" fence f t))) w.
Proof.
  intros I. unfold acquire_import. apply wp_bind.
  eapply wp_mono with (Q := fun '(r, s') w' => ainv n [(KFd, s'); (KFd, f)] w' /\ exists t, adds w w' t /\
    (r = VK_SUCCESS -> sem <> VK_NULL_HANDLE -> imported "vkImportSemaphoreFdKHR" sem s t)).
  { destruct (Z.eqb_spec sem VK_NULL_HANDLE) as [Hs|Hs]; cbn [negb].
    - apply wp_ret. split; [done|]. exists []. split; [unfold adds; by rewrite app_nil_r|done].
    - apply wp_bind. unfold wp at 1. cbn [aask fst snd]. eapply wp_mono; [by apply import_one|].
      intros [r s'] w' (-> & I' & t & Ht & Hin). split; [done|]. exists t. split; [done|]. unfold imported. congruence. }
  intros [r s'] w1 (I1 & t1 & T1 & H1). apply wp_bind.
  eapply wp_mono with (Q := fun '(r', f') w' => ainv n [(KFd, f'); (KFd, s')] w' /\ exists t, adds w1 w' t /\
    (r' = VK_SUCCESS -> r = VK_SUCCESS /\ (fence <> VK_NULL_HANDLE -> imported "vkImportFenceFdKHR" fence f t))).
  { destruct (Z.eqb_spec r VK_SUCCESS) as [Hr|Hr], (Z.eqb_spec fence VK_NULL_HANDLE) as [Hc|Hc]; cbn [negb andb].
    2:{ apply wp_bind. unfold wp at 1. cbn [aask fst snd]. eapply wp_mono; [apply import_one; [done|by apply ainv_swap]|].
        intros [r' f'] w' (-> & I' & t & Ht & Hin). split; [done|]. exists t. split; [done|]. unfold imported.
        intros E. rewrite E in Hin. done. }
    all: apply wp_ret; split; [by apply ainv_swap|]; exists []; split; [unfold adds; by rewrite app_nil_r|]; done. }
  intros [r' f'] w2 (I2 & t2 & T2 & H2). apply wp_bind. unfold wp at 1. apply wp_bind. unfold wp at 1. apply wp_ret. split.
  - apply ainv_fd_gone; [by left|]. apply ainv_fd_gone; [by left|]. by apply ainv_swap.
  - destruct (adds_when (0 <=? s') (Destroyed KFd s') w2) as [t3 T3].
    destruct (adds_when (0 <=? f') (Destroyed KFd f') (whenA (0 <=? s') (aclose s') w2).2) as [t4 T4].
    exists (t1 ++ t2 ++ t3 ++ t4). split; [repeat (eapply adds_trans; [done|]); done|].
    intros Hr. destruct (H2 Hr) as [-> Hf]. unfold imported in *. split; intros ?; apply elem_of_app; [left|right; apply elem_of_app; left]; auto.
Qed.

Lemma carries_more native t u fd : carries native t fd -> carries native (u ++ t) fd.
Proof. intros [[? [?|?]]|?]; [by left; auto|left; split; [done|]; right; set_solver|by right]. Qed.

(** A successful acquire: both payloads stand for the native fence. *)
Definition acquired (native sem fence : Z) (t : trace) : Prop :=
  (sem <> VK_NULL_HANDLE -> exists fd, imported "vkImportSemaphoreFdKHR" sem fd t /\ carries native t fd) /\
  (fence <> VK_NULL_HANDLE -> exists fd, imported "vkImportFenceFdKHR" fence fd t /\ carries native t fd).

Lemma acquire_spec d native sem fence n w :
  ainv n [(KFd, native)] w ->
  wp (nvhal_AcquireImageANDROID K d native sem fence) (fun r w' => ainv n [] w' /\ exists t, adds w w' t /\
    (r = VK_SUCCESS -> acquired native sem fence t)) w.
Proof.
  intros I. unfold nvhal_AcquireImageANDROID. destruct (anb_device d) as [dd|].
  2:{ apply wp_bind. unfold wp at 1. apply wp_ret. split; [by apply ainv_fd_gone; [left|]|].
      destruct (adds_when (0 <=? native) (Destroyed KFd native) w) as [t Ht]. exists t. done. }
  apply wp_bind. eapply wp_mono with (Q := fun r w' => exists t, adds w w' t /\
    match r with
    | Some fd => ainv n [(KFd, fd)] w' /\ (fd = native \/ fd = -1 /\ Called "poll" [native; 1] ∈ t)
    | None => ainv n [] w'
    end).
  { destruct (_ && _).
    - apply wp_bind. eapply wp_mono; [by apply native_wait_spec|]. intros ok w1 (I1 & t & T & H). apply wp_ret. exists t.
      split; [done|]. destruct ok; [|done]. split; [by apply ainv_skip; [cbn; lia|..]|]. right. auto.
    - apply wp_ret. exists []. split; [unfold adds; by rewrite app_nil_r|]. auto. }
  intros [fd|] w1 (t1 & T1 & H1); [|apply wp_ret; split; [done|]; by exists t1]. destruct H1 as [I1 Hfd].
  apply wp_bind. eapply wp_mono; [by apply acquire_split_spec|]. intros [r|[s f]] w2 [[t2 T2] H2].
  { apply wp_ret. split; [apply H2|]. exists (t1 ++ t2). split; [by eapply adds_trans|]. by destruct H2. }
  destruct H2 as (I2 & Cs & Cf). eapply wp_mono; [by apply acquire_import_spec|]. intros r w3 (I3 & t3 & T3 & H3).
  split; [done|]. exists (t1 ++ t2 ++ t3). split; [repeat (eapply adds_trans; [done|]); done|]. intros Hr.
  destruct (H3 Hr) as [Is If].
  assert (C : forall x, carries fd [] x -> carries native (t1 ++ t2 ++ t3) x).
  { intros x Hx. destruct Hfd as [->|[-> Hp]].
    - apply (carries_more native [] (t1 ++ t2 ++ t3)) in Hx. by rewrite app_nil_r in Hx.
    - destruct Hx as [[-> _]|[Hx _]]; [|lia]. left. split; [done|]. right. set_solver. }
  unfold imported in *. split; intros Hn; [exists s|exists f]; split; auto; set_solver.
Qed.

(** *** The fence pool *)

Lemma fence_cnt_tables h w : cnt KFence h (tables w) = cnt KFence h (fence_res (fence_pool w)).
Proof. unfold tables. by rewrite cnt_app, image_res_fence. Qed.

(** The fences change hands between the pool and the call. *)
Lemma ainv_pool n n' X Y l cap w :
  (forall k h, cnt k h (fence_res (fence_pool w)) + cnt k h X = cnt k h (fence_res l) + cnt k h Y) ->
  (forall h, h <> VK_NULL_HANDLE -> 1 <= cnt KFence h (fence_res l) -> fence_state (atr w) h = Unsignalled) ->
  (n <= n')%nat -> cap_ok n' (length l) cap -> Forall (fun f => f <> VK_NULL_HANDLE) l ->
  ainv n X w -> ainv n' Y (put_pool l cap w).2.
Proof.
  intros H Hs Hn Hc Hnz [A B C [D1 D2] E N]. split; cbn [put_pool modS snd atr anb_images anb_cap fence_pool fence_cap]; try done.
  - intros k h Hk. rewrite A by done. unfold tables. cbn [anb_images fence_pool]. rewrite !cnt_app. specialize (H k h). lia.
  - intros h Hh. specialize (B h Hh). specialize (H KFence h). rewrite !fence_cnt_tables in *. cbn [fence_pool].
    destruct B as (B1 & B2 & B3 & B4). split_and!; [lia|lia| |by apply Hs]. intros He. rewrite (B3 He). lia.
  - split; lia.
Qed.

(** A call on the fence [f] the running call holds. *)
Lemma ainv_fence_call n X w f c a :
  use_ok (atr w) (Called c a) = true -> (forall h st, h <> f -> fstep h st (Called c a) = st) -> f <> VK_NULL_HANDLE ->
  ainv n ((KFence, f) :: X) w -> ainv n ((KFence, f) :: X) (aev (Called c a) w).2.
Proof.
  intros Hu Hf Hz [A B C D E N]. split; cbn [aev modS snd atr anb_images anb_cap fence_pool fence_cap]; try done.
  - intros k h Hk. rewrite balance_snoc, delta_called, A by done. change (tables _) with (tables w). lia.
  - intros h Hh. destruct (B h Hh) as (B1 & B2 & B3 & B4). change (tables _) with (tables w).
    rewrite balance_snoc, delta_called, Z.add_0_r, fence_state_snoc. split_and!; [done|done|done|].
    intros H1. rewrite Hf; [by apply B4|]. intros ->. rewrite cnt_cons, decide_True in B1 by done.
    pose proof (cnt_nonneg KFence f X). lia.
  - by apply fences_ok_snoc.
Qed.

Lemma ainv_fence_destroy n X w f :
  fence_state (atr w) f <> Pending -> f <> VK_NULL_HANDLE ->
  ainv n ((KFence, f) :: X) w -> ainv n X (aev (Destroyed KFence f) w).2.
Proof.
  intros Hp Hz [A B C D E N]. split; cbn [aev modS snd atr anb_images anb_cap fence_pool fence_cap]; try done.
  - intros k h Hk. assert (k <> KFence) by (by intros ->).
    rewrite balance_snoc, delta_destroyed, one_other, A, cnt_cons, decide_False; [|by intros [= ? _]|done|done].
    change (tables _) with (tables w). lia.
  - intros h Hh. destruct (B h Hh) as (B1 & B2 & B3 & B4). change (tables _) with (tables w).
    rewrite balance_snoc, delta_destroyed, one_same, fence_state_snoc. cbn [fstep]. rewrite cnt_cons in B1, B2, B3.
    assert (Hd : (if decide ((KFence, f) = (KFence, h)) then 1 else 0) = if decide (f = h) then 1 else 0)
      by (repeat case_decide; naive_solver). rewrite Hd in *.
    pose proof (cnt_nonneg KFence h (tables w)). split_and!; [case_decide; lia|case_decide; lia| |done].
    intros He. specialize (B3 He). case_decide; lia.
  - apply fences_ok_snoc; [done|]. cbn. by apply bool_decide_eq_true.
Qed.

(** Only a failing fence call loses a fence. *)
Lemma ainv_fence_lost n X w f : ~ fences_answer K -> f <> VK_NULL_HANDLE -> ainv n ((KFence, f) :: X) w -> ainv n X w.
Proof.
  intros Hh Hz [A B C D E N]. split; try done.
  - intros k h Hk. rewrite A, cnt_cons, decide_False by (done || by intros [= <- _]). done.
  - intros h Hn. destruct (B h Hn) as (B1 & B2 & B3 & B4). rewrite cnt_cons in B1, B2. split_and!; [case_decide; lia|case_decide; lia| |done].
    by intros ?.
Qed.

Lemma ainv_fence_new n X w f (ok : bool) :
  (ok = true -> f <> VK_NULL_HANDLE /\ balance KFence f (atr w) = 0) -> ainv n X w ->
  ainv n (if ok then (KFence, f) :: X else X) (aev (Created KFence ok f) w).2.
Proof.
  intros Hf [A B C D E N]. split; cbn [aev modS snd atr anb_images anb_cap fence_pool fence_cap]; try done.
  - intros k h Hk. assert (k <> KFence) by (by intros ->). rewrite balance_snoc, A by done. change (tables _) with (tables w).
    destruct ok; [rewrite delta_created, one_other, cnt_cons, decide_False; [lia|by intros [= ? _]|done]|rewrite delta_failed; lia].
  - intros h Hh. destruct (B h Hh) as (B1 & B2 & B3 & B4). change (tables _) with (tables w). destruct ok.
    + destruct (Hf eq_refl) as [Hn Hz]. rewrite balance_snoc, delta_created, one_same, cnt_cons, fence_state_snoc.
      assert (Hd : (if decide ((KFence, f) = (KFence, h)) then 1 else 0) = if decide (f = h) then 1 else 0)
        by (repeat case_decide; naive_solver). rewrite Hd. cbn [fstep]. pose proof (cnt_nonneg KFence h (tables w)).
      pose proof (cnt_nonneg KFence h X). destruct (decide (f = h)) as [<-|Efh].
      * split_and!; [lia|lia|intros He; specialize (B3 He); lia|]. intros H1. lia.
      * rewrite (proj2 (Z.eqb_neq f h)) by done. split_and!; [lia|lia|intros He; specialize (B3 He); lia|done].
    + rewrite balance_snoc, delta_failed, Z.add_0_r, fence_state_snoc. done.
  - apply fences_ok_snoc; done.
Qed.

Lemma fence_res_app k h l l' : cnt k h (fence_res (l ++ l')) = cnt k h (fence_res l) + cnt k h (fence_res l').
Proof. unfold fence_res. by rewrite fmap_app, cnt_app. Qed.

(** The fence the call holds, unsignalled and with nothing pending. *)
Definition holds_free (n : nat) (f : Z) (w : aworld) : Prop :=
  ainv n [(KFence, f)] w /\ f <> VK_NULL_HANDLE /\ fence_state (atr w) f = Unsignalled.

Lemma reset_spec n f w :
  ainv n [(KFence, f)] w -> f <> VK_NULL_HANDLE -> fence_state (atr w) f <> Pending ->
  wp (reset_fence K f) (fun r w' => ainv n [(KFence, f)] w' /\ fence_state (atr w') f <> Pending /\
    (r = VK_SUCCESS -> fence_state (atr w') f = Unsignalled) /\ exists t, r = i_reset_fence K t f) w.
Proof.
  intros I Hz Hp. unfold reset_fence. apply wp_bind. unfold wp at 1. cbn [aask fst snd]. set (r := i_reset_fence K _ f).
  apply wp_bind. unfold wp at 1. apply wp_ret.
  assert (Es : fence_state (atr (aev (Called "vkResetFences" [f; r]) w).2) f = if r =? VK_SUCCESS then Unsignalled else fence_state (atr w) f).
  { cbn [aev modS snd atr]. rewrite fence_state_snoc. cbn [fstep]. by rewrite Z.eqb_refl. }
  split_and!.
  - apply ainv_fence_call; [cbn; by apply bool_decide_eq_true| |done|done]. intros h st Hh. cbn. by rewrite (proj2 (Z.eqb_neq f h)).
  - rewrite Es. by destruct (r =? VK_SUCCESS).
  - intros Hr. rewrite Es, Hr. done.
  - by eexists.
Qed.

Lemma pool_pop n w f :
  last (fence_pool w) = Some f -> ainv n [] w ->
  let w' := (put_pool (take (length (fence_pool w) - 1) (fence_pool w)) (fence_cap w) w).2 in
  ainv n [(KFence, f)] w' /\ (f <> VK_NULL_HANDLE -> fence_state (atr w') f = Unsignalled).
Proof.
  intros Hl I. apply snoc_last in Hl. set (l := take _ _) in *. cbn zeta.
  assert (Hc : forall k h, cnt k h (fence_res (fence_pool w)) = cnt k h (fence_res l) + cnt k h [(KFence, f)]).
  { intros k h. rewrite Hl. by rewrite fence_res_app. }
  assert (Hu : forall h, h <> VK_NULL_HANDLE -> 1 <= cnt KFence h (fence_res (fence_pool w)) -> fence_state (atr w) h = Unsignalled).
  { intros h Hh H1. destruct (ai_fence _ _ _ I h Hh) as (_ & _ & _ & B4). apply B4. by rewrite fence_cnt_tables. }
  split.
  - eapply (ainv_pool n); [| |done| |apply Forall_take, I|exact I].
    + intros k h. rewrite Hc, cnt_nil. lia.
    + intros h Hh H1. apply Hu; [done|]. rewrite Hc. pose proof (cnt_nonneg KFence h [(KFence, f)]). lia.
    + destruct (ai_pool _ _ _ I) as [E1 E2]. assert (length (fence_pool w) = S (length l)) as Hlen.
      { rewrite Hl at 1. rewrite length_app. cbn. lia. } split; lia.
  - intros Hz. apply (Hu f Hz). rewrite Hc, cnt_cons, decide_True by done. pose proof (cnt_nonneg KFence f (fence_res l)).
    rewrite cnt_nil. lia.
Qed.

Lemma pool_get_spec n w :
  ainv n [] w -> wp (pool_get K) (fun r w' => match r with inl _ => ainv n [] w' | inr f => holds_free n f w' end) w.
Proof.
  intros I. unfold pool_get. apply wp_bind. unfold wp at 1. cbn [getS fst snd]. apply wp_bind.
  eapply wp_mono with (Q := fun f w' => (f = VK_NULL_HANDLE /\ ainv n [] w') \/ holds_free n f w').
  { destruct (last (fence_pool w)) as [f|] eqn:Hl; [|apply wp_ret; by left]. apply wp_bind. unfold wp at 1. apply wp_ret.
    destruct (pool_pop n w f Hl I) as [I1 S1]. destruct (decide (f = VK_NULL_HANDLE)) as [->|Hf].
    - left. split; [done|]. apply ainv_skip in I1; [done|by intros ?|done].
    - right. split; [done|]. auto. }
  intros f w1 H1. destruct (Z.eqb_spec f VK_NULL_HANDLE) as [Hf|Hf].
  - destruct H1 as [[_ I1]|(_ & ? & _)]; [|done]. apply wp_bind. unfold wp at 1, aask. cbn [fst snd].
    destruct (i_create_fence K (atr w1)) as [r g] eqn:Ec. apply wp_bind. unfold wp at 1. apply wp_ret.
    assert (Hg : r = VK_SUCCESS -> g <> VK_NULL_HANDLE /\ balance KFence g (atr w1) = 0) by (intros ->; by apply law_fresh).
    pose proof (ainv_fence_new n [] w1 g (r =? VK_SUCCESS)) as In. destruct (Z.eqb_spec r VK_SUCCESS) as [Hr|Hr].
    + split; [apply In; auto|]. split; [by apply Hg|]. cbn [aev modS snd atr]. rewrite fence_state_snoc. cbn. by rewrite Z.eqb_refl.
    + by apply In.
  - destruct H1 as [[? _]|(I1 & _ & S1)]; [done|]. apply wp_bind. unfold wp at 1. cbn [aask fst snd].
    set (s := i_fence_status K _ f). destruct (Z.eqb_spec s VK_SUCCESS) as [Hs|Hs].
    + apply wp_bind. eapply wp_mono; [apply reset_spec; [done|done|congruence]|]. intros r w2 (I2 & P2 & U2 & _).
      destruct (Z.eqb_spec r VK_SUCCESS) as [Hr|Hr]; cbn [negb]; [apply wp_ret; split; [done|]; auto|].
      apply wp_bind. unfold wp at 1. apply wp_ret. by apply (ainv_fence_destroy n []).
    + destruct (Z.eqb_spec s VK_NOT_READY) as [Hn|Hn]; cbn [negb]; apply wp_ret; [split; auto|].
      apply (ainv_fence_lost n [] w1 f); [|done|done]. intros He. by destruct (fa_status _ He (atr w1) f).
Qed.

Lemma pool_put_spec n X f w :
  ainv n ((KFence, f) :: X) w -> f <> VK_NULL_HANDLE -> fence_state (atr w) f = Unsignalled ->
  wp (pool_put K f) (fun _ w' => ainv (S n) X w') w.
Proof.
  intros I Hz Hu. unfold pool_put. apply wp_bind. unfold wp at 1. cbn [getS fst snd]. apply wp_bind.
  eapply wp_mono with (Q := fun cap w' => w' = w /\ forall c, cap = Some c -> cap_ok (S n) (S (length (fence_pool w))) c).
  { destruct (Z.eqb_spec (Z.of_nat (length (fence_pool w))) (fence_cap w)) as [E|E].
    - apply wp_bind. unfold wp at 1. cbn [aask fst snd]. apply wp_ret. split; [done|]. intros c Hc.
      destruct (i_realloc K _); [|done]. injection Hc as <-. apply (cap_grow n); [lia|apply I|done].
    - apply wp_ret. split; [done|]. intros c [= <-]. apply cap_push; [apply I|done]. }
  intros [c|] w' [-> Hc].
  - unfold wp. eapply (ainv_pool n); [| |lia|rewrite length_app; cbn; rewrite Nat.add_1_r; by apply Hc| |exact I].
    3:{ apply Forall_app. split; [apply I|by apply Forall_singleton]. }
    + intros k h. rewrite fence_res_app, !cnt_cons. change (fence_res [f]) with [(KFence, f)]. rewrite cnt_cons, cnt_nil. lia.
    + intros h Hh H1. destruct (decide (h = f)) as [->|Hne]; [done|].
      destruct (ai_fence _ _ _ I h Hh) as (_ & _ & _ & B4). apply B4. rewrite fence_cnt_tables.
      rewrite fence_res_app in H1. change (fence_res [f]) with [(KFence, f)] in H1. rewrite cnt_cons, decide_False, cnt_nil in H1; [lia|].
      intros [= ->]. done.
  - unfold wp. apply (ainv_more n); [lia|]. apply (ainv_fence_destroy n X); [congruence|done|done].
Qed.

(** *** Release *)

Lemma fence_call_state c a w f :
  fence_state (atr (aev (Called c a) w).2) f = fstep f (fence_state (atr w) f) (Called c a).
Proof. apply fence_state_snoc. Qed.

Lemma signal_release_spec n f w :
  holds_free n f w -> wp (signal_release K f) (fun r w' => ainv (S n) [(KFd, r.2)] w') w.
Proof.
  intros (I & Hz & Hu). unfold signal_release. apply wp_bind. unfold wp at 1. cbn [aask fst snd]. set (r := i_submit K _ f).
  apply wp_bind. unfold wp at 1. set (w1 := (aev _ w).2).
  assert (Z1 : forall X w', ainv (S n) X w' -> ainv (S n) ((KFd, -1) :: X) w') by (intros; apply ainv_skip; [cbn; lia|done|done]).
  assert (Ho : forall c q h st, h <> f -> In c ["vkQueueSubmit"; "vkGetFenceFdKHR"; "vkWaitForFences"; "vkResetFences"] ->
    fstep h st (Called c [f; q]) = st).
  { intros c q h st Hne Hc. cbn in Hc. destruct Hc as [<-|[<-|[<-|[<-|[]]]]]; cbn; by rewrite (proj2 (Z.eqb_neq f h)). }
  assert (I1 : ainv n [(KFence, f)] w1).
  { apply ainv_fence_call; [cbn; by apply bool_decide_eq_true|intros; apply Ho; cbn; auto|done|done]. }
  assert (S1 : fence_state (atr w1) f = if r =? VK_SUCCESS then Pending else Unsignalled).
  { unfold w1. rewrite fence_call_state. cbn [fstep]. by rewrite Z.eqb_refl, Hu. }
  destruct (Z.eqb_spec r VK_SUCCESS) as [Hr|Hr]; cbn [negb].
  2:{ apply wp_bind. eapply wp_mono; [by apply (pool_put_spec n [])|]. intros ? w2 I2. apply wp_ret. by apply Z1. }
  apply wp_bind. unfold wp at 1, aask. cbn [fst snd]. destruct (i_fence_fd K (atr w1) f) as [r2 fd] eqn:Ef.
  apply wp_bind. unfold wp at 1. set (w2 := (aev _ w1).2).
  assert (I2 : ainv n [(KFence, f)] w2) by (apply ainv_fence_call; [done|intros; apply Ho; cbn; auto|done|done]).
  assert (S2 : fence_state (atr w2) f = if r2 =? VK_SUCCESS then Unsignalled else Pending).
  { unfold w2. rewrite fence_call_state. cbn [fstep]. by rewrite Z.eqb_refl, S1. }
  destruct (Z.eqb_spec r2 VK_SUCCESS) as [Hr2|Hr2]; cbn [negb].
  - apply wp_bind. unfold wp at 1. apply wp_bind. set (w3 := (aev _ w2).2).
    assert (I3 : ainv n [(KFence, f); (KFd, fd)] w3) by (by apply ainv_swap, ainv_fd_new).
    assert (S3 : fence_state (atr w3) f = Unsignalled).
    { unfold w3. cbn [aev modS snd atr]. by rewrite fence_state_snoc, fstep_other. }
    eapply wp_mono; [by apply (pool_put_spec n [(KFd, fd)])|]. intros ? w4 I4. by apply wp_ret.
  - apply wp_bind. unfold wp at 1. cbn [fst snd]. set (wr := i_wait_fence K _ f). apply wp_bind. unfold wp at 1. set (w3 := (aev _ w2).2).
    assert (I3 : ainv n [(KFence, f)] w3) by (apply ainv_fence_call; [done|intros; apply Ho; cbn; auto|done|done]).
    assert (S3 : fence_state (atr w3) f = if wr =? VK_SUCCESS then Signalled else Pending).
    { unfold w3. rewrite fence_call_state. cbn [fstep]. by rewrite Z.eqb_refl, S2. }
    assert (L : forall w', ~ fences_answer K -> ainv n [(KFence, f)] w' -> ainv (S n) [] w').
    { intros w' Hh I'. apply (ainv_more n); [lia|]. by apply (ainv_fence_lost n [] w' f). }
    apply wp_bind. eapply wp_mono with (Q := fun _ w' => ainv (S n) [] w'); [|intros ? w4 I4; apply wp_ret; by apply Z1].
    destruct (Z.eqb_spec wr VK_SUCCESS) as [Hw|Hw].
    + apply wp_bind. eapply wp_mono; [apply reset_spec; [done|done|congruence]|]. intros rr w4 (I4 & P4 & U4 & He4).
      destruct (Z.eqb_spec rr VK_SUCCESS) as [E|E]; [by apply (pool_put_spec n []); auto|apply wp_ret; apply L; [|done]]. intros Hh. destruct He4 as [t Ht]. apply E. rewrite Ht. apply (fa_export _ Hh (atr w1) f).
      by rewrite Ef.
    + apply wp_ret. apply L; [|done]. intros Hh. apply Hw. apply (fa_export _ Hh (atr w1) f). by rewrite Ef.
Qed.

Lemma release_image_spec d waits n w :
  ainv n [] w -> wp (nvhal_QueueSignalReleaseImageANDROID K d waits) (fun r w' => ainv (S n) [(KFd, r.2)] w') w.
Proof.
  intros I. unfold nvhal_QueueSignalReleaseImageANDROID.
  assert (F : forall e w', ainv n [] w' -> wp (mret (e, -1) : M aworld (Z * Z)) (fun r w' => ainv (S n) [(KFd, r.2)] w') w').
  { intros e w' I'. apply wp_ret. apply ainv_skip; [cbn; lia|done|]. by apply (ainv_more n); [lia|]. }
  destruct d as [d|]; [|by apply F]. destruct (negb _); [by apply F|]. apply wp_bind.
  eapply wp_mono with (Q := fun _ w' => w' = w); [by destruct (16 <? waits)|]. intros ok w' ->. destruct (negb ok); [by apply F|].
  apply wp_bind. eapply wp_mono; [by apply pool_get_spec|]. intros [r|f] w1 I1; [by apply F|by apply signal_release_spec].
Qed.

(** ** A device's life *)

(** What the loader does with a device: images of a swapchain are created
    and destroyed, acquired with a native fence and released for one. *)
Inductive anb_op :=
  | OCreate (ci : VkImageCreateInfo) (nb : option cros_gralloc_handle)
  | ODestroy (img : Z)
  | OAcquire (native semaphore fence : Z)
  | ORelease (waitCount : Z).

Definition run_op (d : nvhal_device) (o : anb_op) (w : aworld) : aworld :=
  match o with
  | OCreate ci nb => if anb_enabled d then (anb_create_image K d ci nb w).2 else w
  | ODestroy img => if decide (img ∈ fst <$> anb_images w) then (anb_destroy_image img w).2 else w
  | OAcquire native semaphore fence =>
      (nvhal_AcquireImageANDROID K (Some d) native semaphore fence (aev (Created KFd (0 <=? native) native) w).2).2
  | ORelease waits =>
      let '((r, fd), w) := nvhal_QueueSignalReleaseImageANDROID K (Some d) waits w in (whenA (0 <=? fd) (aev (Moved KFd fd)) w).2
  end.
Definition run_ops (d : nvhal_device) (l : list anb_op) (w : aworld) : aworld := foldl (flip (run_op d)) w l.
Definition aw_init : aworld := mk_aw [] 0 [] 0 [].

Lemma ainv_init : ainv 0 [] aw_init.
Proof.
  split; try done.
  intros t1 e t2 E. by destruct t1.
Qed.

Lemma run_op_ainv d o n w : ainv n [] w -> ainv (S n) [] (run_op d o w).
Proof.
  intros I. assert (I' : ainv (S n) [] w) by (apply (ainv_more n); [lia|done]). destruct o as [ci nb|img|native sem fence|waits]; cbn [run_op].
  - destruct (anb_enabled d); [by apply anb_create_spec|done].
  - destruct (decide _) as [Hin|]; [|done]. apply list_elem_of_fmap in Hin as ([img' m] & -> & Hm). apply anb_destroy_spec; [done|by exists m].
  - apply acquire_spec. by apply ainv_fd_new.
  - pose proof (release_image_spec (Some d) waits n w I) as R. unfold wp in R.
    destruct (nvhal_QueueSignalReleaseImageANDROID K (Some d) waits w) as [[r fd] w']. cbn in R. by apply ainv_fd_gone; [right|].
Qed.
Lemma run_ops_ainv d l n w : ainv n [] w -> ainv (n + length l) [] (run_ops d l w).
Proof.
  revert n w. induction l as [|o l IH]; intros n w I; [by rewrite Nat.add_0_r|]. cbn [length]. rewrite <- Nat.add_succ_comm.
  apply (IH (S n)). by apply run_op_ainv.
Qed.
Lemma reach_ainv d l : ainv (length l) [] (run_ops d l aw_init).
Proof. apply (run_ops_ainv d l 0), ainv_init. Qed.

(** ** What a successful import created *)

(** An allowed type, device-local when an allowed one is. *)
Definition good_type (d : nvhal_device) (bits type : Z) : Prop :=
  Z.testbit bits type = true /\
  exists fl, mem_types d !! Z.to_nat type = Some fl /\ (has_any fl MEM_DEVICE_LOCAL = true \/
    forall j fl', mem_types d !! j = Some fl' -> Z.testbit bits (Z.of_nat j) = true -> has_any fl' MEM_DEVICE_LOCAL = false).

Lemma import_memory_type_good d bits type : import_memory_type d bits = Some type -> good_type d bits type.
Proof.
  unfold import_memory_type. destruct (GrallocFormat.first_type _ _ _) as [t|] eqn:E1.
  - intros [= <-]. apply GrallocFormat.first_type_Some in E1 as (_ & (fl & Hfl & H) & _). rewrite Z.sub_0_r in Hfl.
    apply andb_true_iff in H as [H1 H2]. split; [done|]. exists fl. auto.
  - intros E2. apply GrallocFormat.first_type_Some in E2 as (_ & (fl & Hfl & H) & _). rewrite Z.sub_0_r in Hfl. split; [done|].
    exists fl. split; [done|]. right. intros j fl' Hj Hb. pose proof (GrallocFormat.first_type_None _ _ _ E1 j fl' Hj) as N.
    cbv beta in N. rewrite Z.add_0_l, Hb in N. done.
Qed.

Lemma import_fail_not r img mem fd w x : (import_fail r img mem fd w).1 = inr x -> False.
Proof. unfold import_fail. rewrite !bind_run. done. Qed.

(** The memory bound to [img]: at least what it needs, of a type both the
    buffer and the image allow. *)
Record memory_for (d : nvhal_device) (img fd need type : Z) (t : trace) : Prop := {
  mf_need : need = (i_requirements K t img).1;
  mf_size : need <= i_seek_end K t fd;
  mf_type : good_type d (Z.land (i_fd_props K t fd).2 (i_requirements K t img).2) type;
}.

Lemma import_memory_inv d img fd w img' mem w' :
  import_memory K d img fd w = (inr (img', mem), w') ->
  img' = img /\ exists need type, memory_for d img fd need type (atr w) /\
    w' = mk_aw (anb_images w) (anb_cap w) (fence_pool w) (fence_cap w)
           (atr w ++ [Called "vkAllocateMemory" [img; fd; need; type]; Created KMemory true mem; Moved KFd fd;
                      Called "vkBindImageMemory2" [img; mem; VK_SUCCESS]]).
Proof.
  assert (Fl : forall r m f v, import_fail r img m f v = (inr (img', mem), w') -> False).
  { intros r m f v E. apply (import_fail_not r img m f v (img', mem)). by rewrite E. }
  unfold import_memory. rewrite bind_run. unfold aask. cbn [fst snd]. set (size := i_seek_end K (atr w) fd). rewrite bind_run.
  assert (Hw : ((if size <? 0 then (mret (-1) : M aworld Z) else fun v : aworld => (i_seek_set K (atr v) fd, v)) w).2 = w) by (by destruct (size <? 0)).
  rewrite Hw. destruct (_ || _); [by intros ?%Fl|]. rewrite bind_run. cbn [fst snd].
  destruct (i_fd_props K (atr w) fd) as [r fdb] eqn:Efd. destruct (negb _); [by intros ?%Fl|]. rewrite bind_run. cbn [fst snd].
  destruct (i_requirements K (atr w) img) as [need ib] eqn:Er. destruct (Z.ltb_spec size need) as [Hs|Hs]; [by intros ?%Fl|].
  destruct (import_memory_type _ _) as [type|] eqn:Et; [|by intros ?%Fl]. rewrite bind_run. cbn [fst snd].
  destruct (i_allocate K (atr w)) as [r2 m]. rewrite !bind_run. destruct (Z.eqb_spec r2 VK_SUCCESS) as [->|]; cbn [negb]; [|by intros ?%Fl].
  rewrite bind_run. rewrite bind_run. cbn [fst snd]. set (r3 := i_bind K _). rewrite bind_run.
  destruct (Z.eqb_spec r3 VK_SUCCESS) as [E3|]; cbn [negb]; [|by intros ?%Fl]. rewrite E3. intros [= <- <- <-]. split; [done|].
  exists need, type. split; [|cbn; by rewrite <- !app_assoc].
  split; [by rewrite Er|done|rewrite Efd, Er; by apply import_memory_type_good].
Qed.

(** The imported image is one the ICD created. *)
Lemma import_image d ci nb w img mem :
  (nvhal_anb_import K d ci nb w).1 = inr (img, mem) -> exists t i, i_create_image K t i = (VK_SUCCESS, img).
Proof.
  unfold nvhal_anb_import. destruct (nvhal_cros_handle nb) as [|g]; [done|]. destruct (import_checks ci g) as [|kept]; [done|].
  rewrite bind_run, accepted_usage_world. destruct (accepted_usage K _ w).1 as [|i]; [done|].
  rewrite bind_run. unfold aask. cbn [fst snd]. destruct (i_create_image K (atr w) i) as [r h] eqn:E. rewrite !bind_run.
  destruct (Z.eqb_spec r VK_SUCCESS) as [->|Hr]; cbn [negb]; [|done]. rewrite bind_run. cbn [fst snd].
  destruct (i_dup K _ (hd_fd0 g)) as [fd errno]. rewrite bind_run. destruct (fd <? 0); [by intros ?%import_fail_not|].
  destruct (import_memory K d h fd _) as [x w'] eqn:Em. cbn [fst]. intros ->. apply import_memory_inv in Em as (-> & _). eauto.
Qed.

(** A failed import returns an error. *)
Definition errs {A} (x : Z + A) (_ : aworld) : Prop := forall e, x = inl e -> e <> VK_SUCCESS.

Lemma import_fail_errs r img mem fd w : r <> VK_SUCCESS -> wp (import_fail r img mem fd) errs w.
Proof. by intros H e [= <-]. Qed.

Lemma import_memory_errs d img fd w : wp (import_memory K d img fd) errs w.
Proof.
  unfold import_memory. apply wp_bind. unfold wp at 1, aask. cbn [fst snd]. apply wp_bind.
  eapply (wp_mono _ (fun _ _ => True)); [done|]. intros rw w1 _. destruct (_ || _); [by apply import_fail_errs|].
  apply wp_bind. unfold wp at 1. cbn [fst snd]. destruct (i_fd_props K _ _) as [r bits].
  destruct (Z.eqb_spec r VK_SUCCESS); cbn [negb]; [|by apply import_fail_errs].
  apply wp_bind. unfold wp at 1. cbn [fst snd]. destruct (i_requirements K _ _) as [need ibits].
  destruct (_ <? need); [by apply import_fail_errs|]. destruct (import_memory_type _ _); [|by apply import_fail_errs].
  apply wp_bind. unfold wp at 1. cbn [fst snd]. destruct (i_allocate K _) as [r' mem].
  apply wp_bind. unfold wp at 1. apply wp_bind. unfold wp at 1.
  destruct (Z.eqb_spec r' VK_SUCCESS); cbn [negb]; [|by apply import_fail_errs].
  apply wp_bind. unfold wp at 1. apply wp_bind. unfold wp at 1. cbn [fst snd]. apply wp_bind. unfold wp at 1.
  match goal with |- context [i_bind K ?t] => destruct (Z.eqb_spec (i_bind K t) VK_SUCCESS) end; cbn [negb]; [by apply wp_ret|by apply import_fail_errs].
Qed.

Lemma accepted_usage_errs i w : wp (accepted_usage K i) errs w.
Proof.
  unfold accepted_usage. apply wp_bind. unfold wp at 1. destruct (Z.eqb_spec (nvhal_modifier_usage_ok K i (ii_usage i) w).1 VK_SUCCESS); [by apply wp_ret|].
  destruct (_ && _); [|apply wp_ret; by intros e [= <-]]. apply wp_bind. unfold wp at 1. apply wp_ret. case_match; [done|by intros e [= <-]].
Qed.

Lemma import_errs d ci nb w : wp (nvhal_anb_import K d ci nb) errs w.
Proof.
  unfold nvhal_anb_import. destruct (nvhal_cros_handle nb) as [r|g] eqn:E.
  { apply wp_ret. intros e [= <-] ->. unfold nvhal_cros_handle in E. by repeat case_match. }
  destruct (import_checks ci g) as [r|kept] eqn:E2.
  { apply wp_ret. intros e [= <-] ->. unfold import_checks in E2. by repeat case_match. }
  apply wp_bind. eapply wp_mono; [apply accepted_usage_errs|]. intros [r|i] w1 H; [apply wp_ret; intros e [= <-]; by apply H|].
  apply wp_bind. unfold wp at 1, aask. cbn [fst snd]. destruct (i_create_image K _ i) as [r img]. apply wp_bind. unfold wp at 1.
  apply wp_bind. unfold wp at 1. destruct (Z.eqb_spec r VK_SUCCESS); cbn [negb]; [|apply wp_ret; by intros e [= <-]].
  apply wp_bind. unfold wp at 1. cbn [fst snd]. destruct (i_dup K _ _) as [fd errno]. apply wp_bind. unfold wp at 1.
  destruct (fd <? 0); [apply import_fail_errs; by destruct (errno =? EMFILE)|apply import_memory_errs].
Qed.

(** The buffer an image may be imported from. *)
Record importable (ci : VkImageCreateInfo) (g : cros_gralloc_handle) : Prop := {
  im_handle : cros_gralloc_handle_mismatch (Some g) = false;
  im_plane : hd_num_planes g = 1 /\ 0 <= hd_fd0 g;
  im_modifier : hd_modifier g <> DRM_FORMAT_MOD_INVALID;
  im_format : exists f0 f1, anb_format_index (ci_format ci) = Some (f0, f1) /\ (hd_format g = f0 \/ hd_format g = f1);
  im_fits : ci_imageType ci = VK_IMAGE_TYPE_2D /\ ci_mipLevels ci = 1 /\ ci_arrayLayers ci = 1 /\ ci_depth ci = 1 /\
    ci_width ci <= hd_width g /\ ci_height ci <= hd_height g;
  im_chain : Forall (fun c => match c with SOther _ => False | _ => True end) (ci_pNext ci);
}.

Lemma keep_chain_known l kept kept' :
  keep_chain l kept = Some kept' -> Forall (fun c => match c with SOther _ => False | _ => True end) l.
Proof.
  revert kept. induction l as [|c l IH]; intros kept H; [done|]. destruct c; cbn in H; try done; constructor; eauto.
Qed.

(** The HAL and the EGL platform accept the same handles. *)
Lemma cros_checks_agree h g : nvhal_cros_handle h = inr g <-> h = Some g /\ cros_gralloc_handle_mismatch h = false.
Proof.
  unfold nvhal_cros_handle, cros_gralloc_handle_mismatch. destruct h as [h|]; [|naive_solver].
  destruct (_ || negb (hd_numFds h + _ =? _)); cbn [orb]; [naive_solver|]. destruct (negb _); naive_solver.
Qed.

Lemma import_checks_importable ci g kept :
  cros_gralloc_handle_mismatch (Some g) = false -> import_checks ci g = inr kept -> importable ci g.
Proof.
  intros Hg. unfold import_checks. destruct (_ || _) eqn:C1; [done|]. destruct (Z.eqb_spec (hd_modifier g) DRM_FORMAT_MOD_INVALID) as [|C2]; [done|].
  destruct (anb_format_index _) as [[f0 f1]|] eqn:C3; [|done]. destruct (_ && _) eqn:C4; [done|].
  destruct (fits_buffer ci g) eqn:C5; cbn [negb]; [|done]. destruct (keep_chain _ _) eqn:C6; [|done]. intros _.
  unfold fits_buffer in C5. apply negb_true_iff in C5. bool_props.
  split; [done|split; lia|done| |split_and!; lia|by eapply keep_chain_known].
  exists f0, f1. split; [done|]. apply andb_false_iff in C4 as [C4|C4]; apply negb_false_iff, Z.eqb_eq in C4; auto.
Qed.

Lemma accepted_usage_inv i w i' :
  (accepted_usage K i w).1 = inr i' ->
  i' = with_usage i (ii_usage i') /\ (ii_usage i' = ii_usage i \/
    ii_modifier i = DRM_FORMAT_MOD_LINEAR /\ ii_usage i' = Z.ldiff (ii_usage i) USAGE_INPUT_ATTACHMENT).
Proof.
  unfold accepted_usage. rewrite bind_run, usage_ok_world. destruct (_ =? VK_SUCCESS); [intros [= <-]; split; [by destruct i|by left]|].
  destruct (_ && _) eqn:C; [|done]. rewrite bind_run, usage_ok_world. apply andb_true_iff in C as [C _]. apply Z.eqb_eq in C.
  cbn [mret M_ret fst]. destruct (_ =? VK_SUCCESS); [|done]. intros [= <-]. split; [done|]. right. done.
Qed.

End Inv.
(** ** Properties *)

(** C36: after any sequence of calls, whatever the driver answers, the images,
    imported memories and descriptors outstanding are exactly those of the
    device's image table, no descriptor stays open, and every fence of the pool
    exists, once.  No other fence exists, provided that vkGetFenceStatus never
    fails and that vkWaitForFences and vkResetFences succeed on a fence whose
    export failed ([fences_answer]; a fence is lost otherwise:
    [lost_fence_leaks]).  For less than 2^31 calls the tables never overflow
    their arrays.  The teardown frees all imported memory and every fence of the
    pool, so all fences under that same condition. *)
Theorem anb_session_exact (K : icd) `{!IcdLaws K} (d : nvhal_device) (l : list anb_op) :
  let w := run_ops K d l aw_init in
  let w' := (nvhal_anb_device_teardown w).2 in
  (forall k h, acounted k h -> balance k h (atr w) = cnt k h (tables w)) /\
  (forall f, f <> VK_NULL_HANDLE -> cnt KFence f (tables w) <= 1 /\ cnt KFence f (tables w) <= balance KFence f (atr w)) /\
  (fences_answer K -> forall f, f <> VK_NULL_HANDLE -> balance KFence f (atr w) = cnt KFence f (tables w)) /\
  (Z.of_nat (length l) < 2 ^ 31 ->
    Z.of_nat (length (anb_images w)) <= anb_cap w /\ Z.of_nat (length (fence_pool w)) <= fence_cap w) /\
  (forall m, m <> VK_NULL_HANDLE -> balance KMemory m (atr w') = 0) /\
  (forall f, f <> VK_NULL_HANDLE -> balance KFence f (atr w') = balance KFence f (atr w) - cnt KFence f (tables w)) /\
  (fences_answer K -> forall f, f <> VK_NULL_HANDLE -> balance KFence f (atr w') = 0).
Proof.
  cbn zeta. pose proof (reach_ainv K d l) as I. set (w := run_ops K d l aw_init) in *.
  assert (F : fences_answer K -> forall f, f <> VK_NULL_HANDLE -> balance KFence f (atr w) = cnt KFence f (tables w)).
  { intros He f Hf. destruct (ai_fence _ _ _ _ I f Hf) as (_ & _ & B & _). rewrite (B He), cnt_nil. lia. }
  assert (D : forall f, f <> VK_NULL_HANDLE ->
    balance KFence f (atr (nvhal_anb_device_teardown w).2) = balance KFence f (atr w) - cnt KFence f (tables w)).
  { intros f Hf. rewrite teardown_trace, !balance_app, !destroyed_balance, fence_cnt_tables, (cnt_fmap_other KFence f (pair KMemory)) by done.
    unfold fence_res. change (fun f0 : Z => (KFence, f0)) with (@pair kind Z KFence). lia. }
  split_and!; [| |done| | | |].
  - intros k h Hk. rewrite (ai_bal _ _ _ _ I), cnt_nil by done. lia.
  - intros f Hf. destruct (ai_fence _ _ _ _ I f Hf) as (B1 & B2 & _). rewrite cnt_nil in *. lia.
  - intros Hn. split; [by apply (ai_images _ _ _ _ I)|by apply (ai_pool _ _ _ _ I)].
  - intros m Hm. rewrite teardown_trace, !balance_app, !destroyed_balance, (ai_bal _ _ _ _ I) by done.
    unfold tables, image_res, fence_res. rewrite !cnt_app, cnt_nil, <- list_fmap_compose.
    rewrite (cnt_fmap_other KMemory m (fun f => (KFence, f))), (cnt_fmap_other KMemory m (pair KFence)) by done.
    rewrite (cnt_fmap_other KMemory m (fun e : Z * Z => (KImage, e.1))) by done. unfold compose. lia.
  - exact D.
  - intros He f Hf. rewrite D, (F He) by done. lia.
Qed.

(** C37: the release fences are used as the Vulkan specification demands, for
    every driver behaviour: a fence is submitted only when it is unsignalled
    and has no submission pending, and it is neither reset nor destroyed while
    one is, also at teardown. *)
Theorem release_fences_free (K : icd) `{!IcdLaws K} (d : nvhal_device) (l : list anb_op) :
  fences_ok (atr (nvhal_anb_device_teardown (run_ops K d l aw_init)).2).
Proof.
  pose proof (reach_ainv K d l) as I. set (w := run_ops K d l aw_init) in *. rewrite teardown_trace, app_assoc.
  destruct (quiet_ok (atr w) (Destroyed KMemory <$> (snd <$> anb_images w))) as [Q1 Q2]; [apply I| |].
  { apply Forall_fmap, Forall_forall. done. }
  apply destroyed_ok; [done|]. intros f Hf. rewrite Q2. pose proof (proj1 (Forall_forall _ _) (ai_null _ _ _ _ I) f Hf) as Hz.
  destruct (ai_fence _ _ _ _ I f Hz) as (_ & _ & _ & B). rewrite B; [done|]. rewrite fence_cnt_tables. by apply fence_cnt_in.
Qed.

(** vkAcquireImageANDROID owns the native fence on every path: afterwards
    no descriptor is open; and when it succeeds, the semaphore and the fence
    got a payload that stands for the native fence: the fence itself, a
    duplicate, or "already signalled" after the fence was waited for. *)
Theorem acquire_owns_native_fence (K : icd) `{!IcdLaws K} (d : nvhal_device) (l : list anb_op) (native sem fence : Z) :
  let w := (aev (Created KFd (0 <=? native) native) (run_ops K d l aw_init)).2 in
  let '(r, w') := nvhal_AcquireImageANDROID K (Some d) native sem fence w in
  (forall fd, 0 <= fd -> balance KFd fd (atr w') = 0) /\
  exists t, atr w' = atr w ++ t /\ (r = VK_SUCCESS -> acquired K native sem fence t).
Proof.
  cbn zeta. pose proof (reach_ainv K d l) as I.
  pose proof (acquire_spec K (Some d) native sem fence _ _ (ainv_fd_new K _ _ _ native I)) as A. unfold wp in A.
  destruct (nvhal_AcquireImageANDROID _ _ _ _ _ _) as [r w']. cbn [fst snd] in A. destruct A as [I' A]. split; [|exact A].
  intros fd Hfd. rewrite (ai_bal _ _ _ _ I' KFd fd Hfd), cnt_nil, fd_cnt_tables. done.
Qed.

(** an import succeeds only for a single-plane minigbm buffer whose fourcc
    is one of the VkFormat's and whose size holds the image; the ICD then gets
    exactly one image with the buffer's modifier, stride and offset and the
    requested usage (INPUT_ATTACHMENT may be dropped on LINEAR), bound to
    memory imported from a duplicate of the buffer's descriptor, at least as
    large as the image needs, of a type that both allow. *)
Theorem anb_import_sound (K : icd) (d : nvhal_device) ci nb w img mem w' :
  nvhal_anb_import K d ci nb w = (inr (img, mem), w') ->
  exists g usage fd need type, nb = Some g /\ importable ci g /\
    (usage = ci_usage ci \/ hd_modifier g = DRM_FORMAT_MOD_LINEAR /\ usage = Z.ldiff (ci_usage ci) USAGE_INPUT_ATTACHMENT) /\
    let t1 := [Called "vkCreateImage" [usage; hd_modifier g; hd_stride0 g; hd_offset0 g]; Created KImage true img; Created KFd true fd] in
    memory_for K d img fd need type (atr w ++ t1) /\
    atr w' = atr w ++ t1 ++ [Called "vkAllocateMemory" [img; fd; need; type]; Created KMemory true mem; Moved KFd fd;
                             Called "vkBindImageMemory2" [img; mem; VK_SUCCESS]].
Proof.
  unfold nvhal_anb_import. destruct (nvhal_cros_handle nb) as [|g] eqn:C1; [done|]. apply cros_checks_agree in C1 as [-> Hg].
  destruct (import_checks ci g) as [|kept] eqn:C2; [done|]. pose proof (import_checks_importable ci g kept Hg C2) as Him.
  rewrite bind_run, accepted_usage_world. set (i0 := mk_ici _ _ _ _ _ _). pose proof (accepted_usage_inv K i0 w) as Hu.
  destruct (accepted_usage K i0 w).1 as [|i]; [done|]. destruct (Hu i eq_refl) as [Hi Hus]. clear Hu.
  rewrite bind_run. unfold aask. cbn [fst snd]. destruct (i_create_image K (atr w) i) as [r h]. rewrite !bind_run.
  destruct (Z.eqb_spec r VK_SUCCESS) as [Hr|Hr]; cbn [negb]; [|done]. rewrite bind_run. cbn [fst snd].
  destruct (i_dup K _ (hd_fd0 g)) as [fd errno]. rewrite bind_run. destruct (Z.ltb_spec fd 0) as [Hf|Hf].
  { intros E. exfalso. eapply (import_fail_not _ _ _ _ _ (img, mem)). by rewrite E. }
  intros E. apply import_memory_inv in E as (-> & need & type & Hm & ->). exists g, (ii_usage i), fd, need, type.
  split; [done|]. split; [done|]. split; [exact Hus|]. cbn zeta.
  assert (Et : atr (aev (Created KFd (0 <=? fd) fd) (aev (Created KImage true h)
      (aev (Called "vkCreateImage" [ii_usage i; ii_modifier i; ii_stride i; ii_offset i]) w).2).2).2
    = atr w ++ [Called "vkCreateImage" [ii_usage i; hd_modifier g; hd_stride0 g; hd_offset0 g]; Created KImage true h; Created KFd true fd]).
  { cbn. rewrite (proj2 (Z.leb_le 0 fd) Hf), <- !app_assoc, Hi. done. }
  rewrite Et in Hm. split; [exact Hm|]. cbn [atr]. rewrite Et, <- app_assoc. done.
Qed.

(** ** Witnesses *)

(** A driver that accepts everything; fences get new handles. *)
Definition handle_of (k : kind) (e : event) : Z :=
  match e with Created k' _ h | Destroyed k' h | Moved k' h => if decide (k' = k) then h else 0 | _ => 0 end.
Definition fresh_handle (k : kind) (t : trace) : Z := 1 + foldr (fun e m => Z.max (handle_of k e) m) 0 t.

Lemma fresh_unused k t f : fresh_handle k t <= f -> balance k f t = 0.
Proof.
  unfold fresh_handle. induction t as [|e t IH]; intros H; [done|]. cbn [foldr] in H. change (e :: t) with ([e] ++ t).
  rewrite balance_app, IH by lia. assert (ev_delta k f e = 0) as E; [|unfold balance, sumZ; cbn [fmap list_fmap foldr]; lia].
  destruct e as [k' ok h|k' h|k' h|]; cbn in *; try done; repeat case_decide; try done; naive_solver lia.
Qed.
Lemma fresh_pos k t : 0 < fresh_handle k t.
Proof. unfold fresh_handle. assert (0 <= foldr (fun e m => Z.max (handle_of k e) m) 0 t); [|lia]. induction t; cbn [foldr]; lia. Qed.

Definition demo_icd_with (status : Z) : icd :=
  mk_icd (fun _ _ _ => (0, EXTMEM_IMPORTABLE)) (fun t _ => (0, 100 + Z.of_nat (length t))) (fun t _ => (30, 0))
    (fun _ _ => 8294400) (fun _ _ => 0) (fun _ _ => (0, 3)) (fun _ _ => (8290304, 2)) (fun t => (0, 200 + Z.of_nat (length t)))
    (fun _ => 0) (fun _ => true) (fun _ => true) (fun _ => (1%nat, (1, false))) (fun _ _ => 0) (fun _ _ => 0)
    (fun t => (0, fresh_handle KFence t)) (fun _ _ => status) (fun _ _ => 0) (fun _ _ => 0) (fun _ _ => (0, 31)) (fun _ _ => 0).
Definition demo_icd : icd := demo_icd_with VK_NOT_READY.

#[export] Instance demo_icd_laws s : IcdLaws (demo_icd_with s).
Proof.
  split. intros t f [= <-]. split; [pose proof (fresh_pos KFence t); unfold VK_NULL_HANDLE; lia|by apply fresh_unused].
Qed.
Lemma demo_fences_answer : fences_answer demo_icd.
Proof. split; intros; [by right|done]. Qed.

Definition demo_dev : nvhal_device := mk_device true false true [0; MEM_DEVICE_LOCAL].
Definition demo_buf : cros_gralloc_handle :=
  mk_handle 12 1 34 9 7680 0 1920 1080 DRM_FORMAT_ABGR8888 0x0300000000606014 CROS_GRALLOC_MAGIC 1.
Definition demo_ci : VkImageCreateInfo := mk_ci VK_FORMAT_R8G8B8A8_UNORM 1 1 1 1920 1080 1 0x10 0 [SNativeBuffer].
Definition demo_calls : list anb_op :=
  [OCreate demo_ci (Some demo_buf); OAcquire 20 0 50; ORelease 1; OAcquire 21 51 0; OAcquire (-1) 51 50; ORelease 20].

Lemma anb_session_exact_witness :
  balance KMemory 203 (atr (run_ops demo_icd demo_dev demo_calls aw_init)) = 1 /\
  balance KMemory 203 (atr (nvhal_anb_device_teardown (run_ops demo_icd demo_dev demo_calls aw_init)).2) = 0 /\
  balance KFence 1 (atr (run_ops demo_icd demo_dev demo_calls aw_init)) = 1.
Proof.
  destruct (anb_session_exact demo_icd demo_dev demo_calls) as (B & _ & F & _ & M & _). split_and!.
  - rewrite B by done. vm_compute. reflexivity.
  - by apply M.
  - rewrite (F demo_fences_answer) by done. vm_compute. reflexivity.
Defined.

Lemma release_fences_free_witness :
  fences_ok (atr (nvhal_anb_device_teardown (run_ops demo_icd demo_dev demo_calls aw_init)).2).
Proof. exact (release_fences_free demo_icd demo_dev demo_calls). Defined.

Lemma acquire_owns_native_fence_witness :
  let w := (aev (Created KFd true 22) (run_ops demo_icd demo_dev demo_calls aw_init)).2 in
  (nvhal_AcquireImageANDROID demo_icd (Some demo_dev) 22 51 50 w).1 = VK_SUCCESS /\
  forall fd, 0 <= fd -> balance KFd fd (atr (nvhal_AcquireImageANDROID demo_icd (Some demo_dev) 22 51 50 w).2) = 0.
Proof.
  cbn zeta. pose proof (acquire_owns_native_fence demo_icd demo_dev demo_calls 22 51 50) as A. cbn zeta in A.
  change (0 <=? 22) with true in A. split; [vm_compute; reflexivity|].
  destruct (nvhal_AcquireImageANDROID _ _ _ _ _ _) as [r w']. exact (proj1 A).
Defined.

Lemma anb_import_sound_witness :
  exists img mem, (nvhal_anb_import demo_icd demo_dev demo_ci (Some demo_buf) aw_init).1 = inr (img, mem) /\ importable demo_ci demo_buf.
Proof.
  destruct (nvhal_anb_import demo_icd demo_dev demo_ci (Some demo_buf) aw_init) as [[r|[img mem]] w'] eqn:E.
  - exfalso. vm_compute in E. discriminate E.
  - exists img, mem. split; [reflexivity|].
    destruct (anb_import_sound demo_icd demo_dev demo_ci (Some demo_buf) aw_init img mem w' E) as (g & _ & _ & _ & _ & [= <-] & H & _).
    exact H.
Defined.

(** ** A pooled fence of a lost device *)

(** [pool_get] takes the fence out of the pool, and when its status is an
    error (the device was lost) it is neither destroyed nor put back: also the
    teardown leaves it. *)
Lemma lost_fence_leaks :
  balance KFence 1 (atr (nvhal_anb_device_teardown
    (run_ops (demo_icd_with VK_ERROR_DEVICE_LOST) demo_dev [ORelease 1; ORelease 1] aw_init)).2) = 1.
Proof. vm_compute. reflexivity. Qed.

End Anb.
