(* ===== verification/AhbBuffer.v ===== *)
(** * AHardwareBuffer formats, descriptions and queries ([hal/src/ahb.c])

    What the HAL reads off an AHardwareBuffer before it imports it, the format
    and usage equivalences, the DRM modifiers the gralloc would choose, and the
    queries an application asks first: vkGetAndroidHardwareBufferPropertiesANDROID,
    vkGetPhysicalDeviceImageFormatProperties2 and
    vkGetPhysicalDeviceExternalBufferProperties.

    libnativewindow's and the kernel's answers are functions of the calls so
    far, the ICD's format queries are functions of the query. *)

From Stdlib Require Import ZArith Lia.
From stdpp Require Import base option sets strings gmap list.
From S2P Require Import Prelude HashTable Vulkan ImgXlate GrallocFormat CrosHandle Anb.

Set Default Goal Selector "!".
#[local] Open Scope Z_scope.

Module AhbBuffer.
Import Vk Cros Anb.

Definition VK_FORMAT_R8G8B8_UNORM : Z := 23.
Definition VK_FORMAT_D16_UNORM : Z := 124.
Definition VK_FORMAT_X8_D24_UNORM_PACK32 : Z := 125.
Definition VK_FORMAT_D32_SFLOAT : Z := 126.
Definition VK_FORMAT_S8_UINT : Z := 127.
Definition VK_FORMAT_D24_UNORM_S8_UINT : Z := 129.
Definition VK_FORMAT_D32_SFLOAT_S8_UINT : Z := 130.

Definition AHB_R8G8B8A8_UNORM : Z := 1.
Definition AHB_R8G8B8X8_UNORM : Z := 2.
Definition AHB_R8G8B8_UNORM : Z := 3.
Definition AHB_R5G6B5_UNORM : Z := 4.
Definition NVHAL_AHB_FORMAT_B8G8R8A8_UNORM : Z := 5.
Definition AHB_R16G16B16A16_FLOAT : Z := 0x16.
Definition AHB_BLOB : Z := 0x21.
Definition AHB_R10G10B10A2_UNORM : Z := 0x2b.
Definition AHB_D16_UNORM : Z := 0x30.
Definition AHB_D24_UNORM : Z := 0x31.
Definition AHB_D24_UNORM_S8_UINT : Z := 0x32.
Definition AHB_D32_FLOAT : Z := 0x33.
Definition AHB_D32_FLOAT_S8_UINT : Z := 0x34.
Definition AHB_S8_UINT : Z := 0x35.
Definition AHB_R8_UNORM : Z := 0x38.

Definition AHB_USAGE_GPU_SAMPLED_IMAGE : Z := 2 ^ 8.
Definition AHB_USAGE_GPU_FRAMEBUFFER : Z := 2 ^ 9.
Definition AHB_USAGE_PROTECTED_CONTENT : Z := 2 ^ 14.
Definition AHB_USAGE_GPU_DATA_BUFFER : Z := 2 ^ 24.
Definition AHB_USAGE_GPU_CUBE_MAP : Z := 2 ^ 25.

Definition USAGE_DEPTH_STENCIL_ATTACHMENT : Z := 0x20.
Definition CREATE_SPARSE_BINDING : Z := 0x1.
Definition CREATE_SPARSE_RESIDENCY : Z := 0x2.
Definition CREATE_SPARSE_ALIASED : Z := 0x4.
Definition CREATE_MUTABLE_FORMAT : Z := 0x8.
Definition CREATE_CUBE_COMPATIBLE : Z := 0x10.
Definition CREATE_DISJOINT : Z := 0x200.
Definition CREATE_PROTECTED : Z := 0x800.
Definition FEATURE_MIDPOINT_CHROMA_SAMPLES : Z := 0x20000.
Definition FEATURE_COSITED_CHROMA_SAMPLES : Z := 0x800000.
Definition HANDLE_TYPE_DMA_BUF : Z := 0x200.
Definition HANDLE_TYPE_AHB : Z := 0x400.
Definition VK_IMAGE_TILING_OPTIMAL : Z := 0.
Definition VK_IMAGE_TILING_LINEAR : Z := 1.
Definition VK_IMAGE_TILING_DRM_FORMAT_MODIFIER : Z := 1000158000.
Definition UNSUPPORTED_CREATE : Z :=
  Z.lor (Z.lor CREATE_SPARSE_BINDING CREATE_SPARSE_RESIDENCY) (Z.lor CREATE_SPARSE_ALIASED CREATE_DISJOINT).

(** ** Formats *)

Definition ahb_to_vk (f : Z) : Z :=
  if (f =? AHB_R8G8B8A8_UNORM) || (f =? AHB_R8G8B8X8_UNORM) then VK_FORMAT_R8G8B8A8_UNORM
  else if f =? AHB_R8G8B8_UNORM then VK_FORMAT_R8G8B8_UNORM
  else if f =? AHB_R5G6B5_UNORM then VK_FORMAT_R5G6B5_UNORM_PACK16
  else if f =? AHB_R16G16B16A16_FLOAT then VK_FORMAT_R16G16B16A16_SFLOAT
  else if f =? AHB_R10G10B10A2_UNORM then VK_FORMAT_A2B10G10R10_UNORM_PACK32
  else if f =? AHB_D16_UNORM then VK_FORMAT_D16_UNORM
  else if f =? AHB_D24_UNORM then VK_FORMAT_X8_D24_UNORM_PACK32
  else if f =? AHB_D24_UNORM_S8_UINT then VK_FORMAT_D24_UNORM_S8_UINT
  else if f =? AHB_D32_FLOAT then VK_FORMAT_D32_SFLOAT
  else if f =? AHB_D32_FLOAT_S8_UINT then VK_FORMAT_D32_SFLOAT_S8_UINT
  else if f =? AHB_S8_UINT then VK_FORMAT_S8_UINT
  else if f =? AHB_R8_UNORM then VK_FORMAT_R8_UNORM
  else if f =? NVHAL_AHB_FORMAT_B8G8R8A8_UNORM then VK_FORMAT_B8G8R8A8_UNORM
  else VK_FORMAT_UNDEFINED.

(** DRM format, VkFormat, AHB format. *)
Definition gralloc_formats : list (Z * Z * Z) :=
  [ (DRM_FORMAT_ABGR8888, VK_FORMAT_R8G8B8A8_UNORM, AHB_R8G8B8A8_UNORM);
    (DRM_FORMAT_XBGR8888, VK_FORMAT_R8G8B8A8_UNORM, AHB_R8G8B8X8_UNORM);
    (DRM_FORMAT_ARGB8888, VK_FORMAT_B8G8R8A8_UNORM, NVHAL_AHB_FORMAT_B8G8R8A8_UNORM);
    (DRM_FORMAT_XRGB8888, VK_FORMAT_B8G8R8A8_UNORM, NVHAL_AHB_FORMAT_B8G8R8A8_UNORM);
    (DRM_FORMAT_RGB565, VK_FORMAT_R5G6B5_UNORM_PACK16, AHB_R5G6B5_UNORM);
    (DRM_FORMAT_ABGR2101010, VK_FORMAT_A2B10G10R10_UNORM_PACK32, AHB_R10G10B10A2_UNORM);
    (DRM_FORMAT_ABGR16161616F, VK_FORMAT_R16G16B16A16_SFLOAT, AHB_R16G16B16A16_FLOAT);
    (DRM_FORMAT_R8, VK_FORMAT_R8_UNORM, AHB_R8_UNORM) ].

Definition fourcc_to_vk (f : Z) : Z :=
  match list_find (fun e => e.1.1 = f) gralloc_formats with Some (_, e) => e.1.2 | None => VK_FORMAT_UNDEFINED end.

Definition yuv_formats : list (Z * Z) :=
  [ (DRM_FORMAT_NV12, VK_FORMAT_G8_B8R8_2PLANE_420_UNORM);
    (DRM_FORMAT_P010, VK_FORMAT_G10X6_B10X6R10X6_2PLANE_420_UNORM_3PACK16) ].

Definition yuv_fourcc_to_vk (f : Z) : Z :=
  match list_find (fun e => fst e = f) yuv_formats with Some (_, e) => snd e | None => VK_FORMAT_UNDEFINED end.
Definition yuv_vk (f : Z) : bool := bool_decide (f ∈ snd <$> yuv_formats).

Definition vk_to_ahb (f : Z) : Z :=
  match list_find (fun e => e.1.2 = f) gralloc_formats with Some (_, e) => e.2 | None => 0 end.

Definition external_format_ok (f : Z) : bool := negb (vk_to_ahb f =? 0) || yuv_vk f.

Definition vk_to_ahb_usage (flags usage : Z) : Z :=
  let u := 0 in
  let u := if has_any usage (Z.lor USAGE_SAMPLED USAGE_INPUT_ATTACHMENT) then Z.lor u AHB_USAGE_GPU_SAMPLED_IMAGE else u in
  let u := if has_any usage (Z.lor USAGE_COLOR_ATTACHMENT USAGE_DEPTH_STENCIL_ATTACHMENT) then Z.lor u AHB_USAGE_GPU_FRAMEBUFFER else u in
  let u := if has_any usage USAGE_STORAGE then Z.lor u AHB_USAGE_GPU_DATA_BUFFER else u in
  let u := if has_any flags CREATE_CUBE_COMPATIBLE then Z.lor u AHB_USAGE_GPU_CUBE_MAP else u in
  let u := if has_any flags CREATE_PROTECTED then Z.lor u AHB_USAGE_PROTECTED_CONTENT else u in
  if u =? 0 then AHB_USAGE_GPU_SAMPLED_IMAGE else u.

(** ** Buffers *)

Record AHardwareBuffer_Desc := mk_desc {
  d_width : Z; d_height : Z; d_layers : Z; d_format : Z; d_usage : Z;
}.

(** minigbm's handle with what [Cros] leaves out: plane 1, the descriptor of
    the metadata region ([fds[num_planes]], -1 when there is none) and its
    size. *)
Record gralloc_handle := mk_gh {
  gh : cros_gralloc_handle; gh_fd1 : Z; gh_stride1 : Z; gh_offset1 : Z; gh_md_fd : Z; gh_reserved : Z;
}.

(** libnativewindow and the kernel. *)
Record buffers := mk_buffers {
  b_describe : trace -> Z -> AHardwareBuffer_Desc;
  b_native_handle : trace -> Z -> option gralloc_handle;
  b_lseek_end : trace -> Z -> Z;
  b_lseek_set : trace -> Z -> Z;
  b_fstat : trace -> Z -> option (Z * Z);         (** device and inode *)
  b_metadata : trace -> Z -> Z -> option (Z -> Z); (** mmap of a descriptor and size: the bytes *)
}.

Record gbuf := mk_gbuf {
  g_desc : AHardwareBuffer_Desc; g_h : gralloc_handle; g_fd : Z; g_size : Z; g_format : Z;
  g_blob : bool; g_yuv : bool; g_planes : Z; g_strides : list Z; g_offsets : list Z;
}.

Section Buffers.
Context (B : buffers) (t : trace).

(** Plane [p]: byte stride, offset and rows. *)
Definition yuv_plane_fits (size : Z) (pl : Z * Z * Z) : bool :=
  let '(stride, offset, rows) := pl in
  negb ((stride =? 0) || (size <? u64 (offset + u64 (stride * rows)))).

Definition yuv_planes (desc : AHardwareBuffer_Desc) (h : gralloc_handle) : list (Z * Z * Z) :=
  [ (hd_stride0 (gh h), hd_offset0 (gh h), d_height desc);
    (gh_stride1 h, gh_offset1 h, u32 (d_height desc + 1) / 2) ].

Definition same_dmabuf (fd0 fd1 : Z) : bool :=
  match b_fstat B t fd0, b_fstat B t fd1 with
  | Some s0, Some s1 => negb (fd1 <? 0) && bool_decide (s0 = s1)
  | _, _ => false
  end.

Definition gbuf_yuv (desc : AHardwareBuffer_Desc) (h : gralloc_handle) (size : Z) : Z + gbuf :=
  let g := gh h in
  let yf := yuv_fourcc_to_vk (hd_format g) in
  if (yf =? VK_FORMAT_UNDEFINED) || negb (hd_num_planes g =? 2) then inl VK_ERROR_INVALID_EXTERNAL_HANDLE
  else if negb (hd_modifier g =? DRM_FORMAT_MOD_LINEAR) then inl VK_ERROR_INVALID_EXTERNAL_HANDLE
  else if negb (same_dmabuf (hd_fd0 g) (gh_fd1 h)) then inl VK_ERROR_INVALID_EXTERNAL_HANDLE
  else if negb (forallb (yuv_plane_fits size) (yuv_planes desc h)) then inl VK_ERROR_INVALID_EXTERNAL_HANDLE
  else inr (mk_gbuf desc h (hd_fd0 g) size yf false true 2 [hd_stride0 g; gh_stride1 h] [hd_offset0 g; gh_offset1 h]).

Definition gbuf_get (buf : Z) : Z + gbuf :=
  if buf =? 0 then inl VK_ERROR_INVALID_EXTERNAL_HANDLE
  else
  let desc := b_describe B t buf in
  match b_native_handle B t buf with
  | None => inl VK_ERROR_INVALID_EXTERNAL_HANDLE
  | Some h =>
  match nvhal_cros_handle (Some (gh h)) with
  | inl r => inl r
  | inr g =>
  let fd := hd_fd0 g in
  let sz := if 0 <=? fd then b_lseek_end B t fd else -1 in
  if (sz <? 0) || (b_lseek_set B t fd <? 0) then inl VK_ERROR_INVALID_EXTERNAL_HANDLE
  else if d_format desc =? AHB_BLOB then inr (mk_gbuf desc h fd sz VK_FORMAT_UNDEFINED true false 0 [0; 0] [0; 0])
  else if negb (hd_num_planes g =? 1) then gbuf_yuv desc h sz
  else if hd_modifier g =? DRM_FORMAT_MOD_INVALID then inl VK_ERROR_INVALID_EXTERNAL_HANDLE
  else
  let fv := fourcc_to_vk (hd_format g) in
  let av := ahb_to_vk (d_format desc) in
  if fv =? VK_FORMAT_UNDEFINED then inl VK_ERROR_INVALID_EXTERNAL_HANDLE
  else if negb (av =? VK_FORMAT_UNDEFINED) && negb (av =? fv) then inl VK_ERROR_INVALID_EXTERNAL_HANDLE
  else inr (mk_gbuf desc h fd sz fv false false 1 [hd_stride0 g; 0] [hd_offset0 g; 0])
  end end.

(** The layout of a non-BLOB buffer, for the ICD: offset and row pitch of each
    memory plane. *)
Definition g_layout (b : gbuf) : list (Z * Z) := take (Z.to_nat (g_planes b)) (zip (g_offsets b) (g_strides b)).

End Buffers.

(** ** DRM modifiers *)

Section Modifiers.
(** [vkGetPhysicalDeviceFormatProperties2]: the modifiers of a format. *)
Context (modifiers : Z -> list VkDrmFormatModifierProperties2EXT).

(** The fixed array of 64 entries. *)
Definition listed (f : Z) : list VkDrmFormatModifierProperties2EXT := take 64 (modifiers f).

Definition modifiers_need (f : Z) (linear : bool) : Z :=
  if yuv_vk f then FEATURE_SAMPLED_IMAGE
  else Z.lor (Z.lor (Z.lor FEATURE_SAMPLED_IMAGE FEATURE_TRANSFER_SRC) FEATURE_TRANSFER_DST)
             (if linear then 0 else FEATURE_COLOR_ATTACHMENT).

Definition gralloc_picks (f : Z) (linear : bool) (m : VkDrmFormatModifierProperties2EXT) : bool :=
  let planes := if yuv_vk f then 2 else 1 in
  let lin' := if planes =? 2 then true else linear in
  negb ((drmFormatModifier m =? DRM_FORMAT_MOD_INVALID)
        || negb (Bool.eqb (drmFormatModifier m =? DRM_FORMAT_MOD_LINEAR) lin')
        || negb (drmFormatModifierPlaneCount m =? planes)
        || negb (has_all (drmFormatModifierTilingFeatures m) (modifiers_need f linear))).

Definition gralloc_modifiers (f : Z) (linear : bool) (cap : nat) : list Z :=
  take cap (drmFormatModifier <$> filter (fun m => gralloc_picks f linear m = true) (listed f)).

Definition modifier_features (f modifier : Z) : Z :=
  match list_find (fun m => drmFormatModifier m = modifier) (listed f) with
  | Some (_, m) => drmFormatModifierTilingFeatures m
  | None => 0
  end.

End Modifiers.

(** ** vkGetAndroidHardwareBufferPropertiesANDROID *)

Definition YCBCR_709 : Z := 2.
Definition YCBCR_601 : Z := 3.
Definition YCBCR_2020 : Z := 4.
Definition RGB_IDENTITY : Z := 0.
Definition RANGE_FULL : Z := 0.
Definition RANGE_NARROW : Z := 1.
Definition NVHAL_CROS_MD_DATASPACE_OFFSET : Z := 1028.

Definition ahb_format_props (modifiers : Z -> list VkDrmFormatModifierProperties2EXT) (b : gbuf) : Z + Z * Z * Z :=
  if g_blob b then inl VK_ERROR_INVALID_EXTERNAL_HANDLE
  else
  let f := modifier_features modifiers (g_format b) (hd_modifier (gh (g_h b))) in
  if f =? 0 then inl VK_ERROR_INVALID_EXTERNAL_HANDLE
  else if g_yuv b then
    if negb (has_any f FEATURE_SAMPLED_IMAGE)
       || negb (has_any f (Z.lor FEATURE_MIDPOINT_CHROMA_SAMPLES FEATURE_COSITED_CHROMA_SAMPLES))
    then inl VK_ERROR_INVALID_EXTERNAL_HANDLE
    else inr (VK_FORMAT_UNDEFINED, g_format b, f)
  else inr (g_format b, g_format b, f).

(** The model and the range of a dataspace. *)
Definition dataspace_ycbcr (u : Z) : Z * Z :=
  let standard := Z.land u (Z.shiftl 63 16) in
  let rng := Z.land u (Z.shiftl 7 27) in
  if u =? 0x101 then (YCBCR_601, RANGE_FULL)
  else if (u =? 0x102) || (u =? 0x103) then (YCBCR_601, RANGE_NARROW)
  else if u =? 0x104 then (YCBCR_709, RANGE_NARROW)
  else
  let st := Z.shiftr standard 16 in
  (if st =? 1 then YCBCR_709
   else if (st =? 2) || (st =? 3) || (st =? 4) || (st =? 5) then YCBCR_601
   else if (st =? 6) || (st =? 7) then YCBCR_2020
   else YCBCR_709,
   if rng =? Z.shiftl 1 27 then RANGE_FULL else RANGE_NARROW).

(** A little-endian 32-bit value. *)
Definition le32 (m : Z -> Z) (o : Z) : Z :=
  m o + m (o + 1) * 2 ^ 8 + m (o + 2) * 2 ^ 16 + m (o + 3) * 2 ^ 24.

Definition yuv_suggest (B : buffers) (t : trace) (b : gbuf) : Z * Z :=
  let h := g_h b in
  let fd := if hd_num_planes (gh h) <? DRV_MAX_FDS then gh_md_fd h else -1 in
  if (0 <=? fd) && (NVHAL_CROS_MD_DATASPACE_OFFSET + 4 <=? gh_reserved h) then
    match b_metadata B t fd (gh_reserved h) with
    | None => (YCBCR_709, RANGE_NARROW)
    | Some m => dataspace_ycbcr (le32 m NVHAL_CROS_MD_DATASPACE_OFFSET)
    end
  else dataspace_ycbcr 0.

(** The structures of the output chain the function fills. *)
Inductive ahb_out := OutFormat | OutFormat2 | OutResolve | OutOther.
Record format_props := mk_fp { fp_format : Z; fp_external : Z; fp_features : Z; fp_model : Z; fp_range : Z }.

Definition fill_out (B : buffers) (t : trace) (b : gbuf) (x : Z * Z * Z) (o : ahb_out) : option format_props :=
  let '(fmt, ext, feat) := x in
  let '(model, range) := if g_yuv b then yuv_suggest B t b else (RGB_IDENTITY, RANGE_FULL) in
  match o with
  | OutFormat => Some (mk_fp fmt ext (Z.land feat 0x7fffffff) model range)
  | OutFormat2 => Some (mk_fp fmt ext feat model range)
  | OutResolve => Some (mk_fp VK_FORMAT_UNDEFINED 0 0 0 0)
  | OutOther => None
  end.

Definition wants_format (o : ahb_out) : bool := match o with OutFormat | OutFormat2 => true | _ => false end.

(** The result, or allocationSize, memoryTypeBits and the filled chain. *)
Definition nvhal_GetAndroidHardwareBufferPropertiesANDROID (B : buffers) (K : icd)
    (modifiers : Z -> list VkDrmFormatModifierProperties2EXT) (enabled : bool) (t : trace) (buffer : Z) (chain : list ahb_out) :
  Z + Z * Z * list (option format_props) :=
  if negb enabled then inl VK_ERROR_INITIALIZATION_FAILED
  else
  match gbuf_get B t buffer with
  | inl r => inl r
  | inr b =>
  if negb (has_any (d_usage (g_desc b)) (Z.lor (Z.lor AHB_USAGE_GPU_SAMPLED_IMAGE AHB_USAGE_GPU_FRAMEBUFFER) AHB_USAGE_GPU_DATA_BUFFER))
  then inl VK_ERROR_INVALID_EXTERNAL_HANDLE
  else
  let '(r, bits) := i_fd_props K t (g_fd b) in
  if negb (r =? VK_SUCCESS)
  then inl (if r =? VK_ERROR_OUT_OF_HOST_MEMORY then r else VK_ERROR_INVALID_EXTERNAL_HANDLE)
  else
  match (if existsb wants_format chain then ahb_format_props modifiers b else inr (VK_FORMAT_UNDEFINED, 0, 0)) with
  | inl r => inl r
  | inr x => inr (g_size b, bits, fill_out B t b x <$> chain)
  end end.

(** ** vkGetPhysicalDeviceImageFormatProperties2 *)

Record image_query := mk_iq {
  iq_format : Z; iq_type : Z; iq_tiling : Z; iq_usage : Z; iq_flags : Z;
  iq_handle_type : option Z;      (** VkPhysicalDeviceExternalImageFormatInfo *)
  iq_modifier_info : bool;        (** VkPhysicalDeviceImageDrmFormatModifierInfoEXT is chained *)
  iq_before : list Z;             (** the structures chained before the external info *)
  iq_modifier : option Z;         (** what the HAL asks the ICD for *)
}.
Record image_props := mk_ip { ip_width : Z; ip_height : Z; ip_depth : Z; ip_mips : Z; ip_layers : Z; ip_samples : Z; ip_size : Z }.

Definition query_modifier (q : image_query) (m usage : Z) : image_query :=
  mk_iq (iq_format q) (iq_type q) VK_IMAGE_TILING_DRM_FORMAT_MODIFIER usage (iq_flags q) (Some HANDLE_TYPE_DMA_BUF) true
    (iq_before q) (Some m).

Section Query.
Context (stype_size : Z -> Z).
Context (modifiers : Z -> list VkDrmFormatModifierProperties2EXT).
Context (icd_props : image_query -> Z * image_props).

Definition acc_init : image_props := mk_ip UINT32_MAX UINT32_MAX UINT32_MAX UINT32_MAX UINT32_MAX UINT32_MAX (2 ^ 64 - 1).
Definition acc_min (acc x : image_props) : image_props :=
  mk_ip (if ip_width x <? ip_width acc then ip_width x else ip_width acc)
        (if ip_height x <? ip_height acc then ip_height x else ip_height acc)
        (if ip_depth x <? ip_depth acc then ip_depth x else ip_depth acc)
        (ip_mips acc) (ip_layers acc) (Z.land (ip_samples acc) (ip_samples x))
        (if ip_size x <? ip_size acc then ip_size x else ip_size acc).

(** One modifier: the query, and again without INPUT_ATTACHMENT on LINEAR. *)
Definition ask_modifier (q : image_query) (m : Z) : Z * image_props :=
  if negb (Chain.fits 1024 0 (stype_size <$> iq_before q)) then (VK_ERROR_FORMAT_NOT_SUPPORTED, acc_init)
  else
  let '(r, x) := icd_props (query_modifier q m (iq_usage q)) in
  if (r =? VK_ERROR_FORMAT_NOT_SUPPORTED) && (m =? DRM_FORMAT_MOD_LINEAR) && has_any (iq_usage q) USAGE_INPUT_ATTACHMENT
  then icd_props (query_modifier q m (Z.ldiff (iq_usage q) USAGE_INPUT_ATTACHMENT))
  else (r, x).

Fixpoint ask_each (q : image_query) (ms : list Z) (acc : image_props) : Z * image_props :=
  match ms with
  | [] => (VK_SUCCESS, acc)
  | m :: ms =>
      let '(r, x) := ask_modifier q m in
      if negb (r =? VK_SUCCESS) then (r, acc) else ask_each q ms (acc_min acc x)
  end.

(** The modifiers to ask about. *)
Definition query_modifiers (q : image_query) : list Z :=
  if iq_modifier_info q || (negb (iq_tiling q =? VK_IMAGE_TILING_OPTIMAL) && negb (iq_tiling q =? VK_IMAGE_TILING_LINEAR)) then []
  else if vk_to_ahb (iq_format q) =? 0 then []
  else if negb (iq_type q =? VK_IMAGE_TYPE_2D) || has_any (iq_flags q) UNSUPPORTED_CREATE then []
  else gralloc_modifiers modifiers (iq_format q) (iq_tiling q =? VK_IMAGE_TILING_LINEAR) 32.

(** The AHB query of [gpdifp2]: the result, the limits and the buffer usage. *)
Definition gpdifp2_ahb (available : bool) (q : image_query) : Z * image_props * Z :=
  let zero := mk_ip 0 0 0 0 0 0 0 in
  if negb available then (VK_ERROR_FORMAT_NOT_SUPPORTED, zero, 0)
  else
  let ms := query_modifiers q in
  let '(r, acc) := if bool_decide (ms = []) then (VK_ERROR_FORMAT_NOT_SUPPORTED, zero) else ask_each q ms acc_init in
  if r =? VK_SUCCESS
  then (r, mk_ip (ip_width acc) (ip_height acc) (ip_depth acc) 1 1 (Z.land (ip_samples acc) 1) (ip_size acc),
        vk_to_ahb_usage (iq_flags q) (iq_usage q))
  else (r, zero, 0).

Definition gpdifp2 (available : bool) (q : image_query) : Z * image_props * Z :=
  if bool_decide (iq_handle_type q = Some HANDLE_TYPE_AHB) then gpdifp2_ahb available q
  else let '(r, x) := icd_props q in (r, x, if r =? VK_SUCCESS then vk_to_ahb_usage (iq_flags q) (iq_usage q) else 0).

End Query.

(** ** vkGetPhysicalDeviceExternalBufferProperties *)

Record ext_mem := mk_em { em_features : Z; em_export_from : Z; em_compatible : Z }.

(** [icd_props]: the ICD's answer for a handle type. *)
Definition gpdebp (icd_props : Z -> ext_mem) (available : bool) (handleType : Z) : ext_mem :=
  if negb (handleType =? HANDLE_TYPE_AHB) then icd_props handleType
  else
  let e := icd_props HANDLE_TYPE_DMA_BUF in
  if available && has_any (em_features e) EXTMEM_IMPORTABLE
  then mk_em EXTMEM_IMPORTABLE HANDLE_TYPE_AHB HANDLE_TYPE_AHB else mk_em 0 0 0.

(** ** vkCreateBuffer and vkCreateSamplerYcbcrConversion *)

Definition nvhal_buffer_ci_is_ahb (types : option Z) : bool := match types with Some t => has_any t HANDLE_TYPE_AHB | None => false end.

(** [before]: the structures chained before the one that is replaced; [types]:
    the handle types of VkExternalMemoryBufferCreateInfo, 24 bytes. *)
Definition nvhal_buffer_ci_translate (stype_size : Z -> Z) (before : list Z) (types : Z) (storage_size : Z) : Z + Z :=
  if Chain.fits (storage_size - 24) 0 (stype_size <$> before)
  then inr (Z.lor (Z.ldiff types HANDLE_TYPE_AHB) HANDLE_TYPE_DMA_BUF) else inl VK_ERROR_FEATURE_NOT_PRESENT.

(** [create]: the ICD's, for the handle types. *)
Definition nvhal_CreateBuffer (stype_size : Z -> Z) (create : option Z -> Z + Z) (before : list Z) (types : option Z) : Z + Z :=
  match types with
  | Some t =>
      if negb (nvhal_buffer_ci_is_ahb types) then create types
      else match nvhal_buffer_ci_translate stype_size before t 1024 with inl r => inl r | inr t' => create (Some t') end
  | None => create None
  end.

(** [external]: VkExternalFormatANDROID; [create]: the ICD's, for the format
    without that structure, or with it in the chain ([false]). *)
Definition create_ycbcr (stype_size : Z -> Z) (create : Z -> bool -> Z + Z) (before : list Z) (external : option Z) (format : Z) : Z + Z :=
  match external with
  | None => create format false
  | Some x =>
      if negb (x =? 0) && (negb (format =? VK_FORMAT_UNDEFINED) || negb (external_format_ok (u32 x))) then inl VK_ERROR_OUT_OF_HOST_MEMORY
      else if negb (Chain.fits 1024 0 (stype_size <$> before)) then inl VK_ERROR_OUT_OF_HOST_MEMORY
      else create (if x =? 0 then format else u32 x) true
  end.

(** ** Properties of the tables *)

Lemma yuv_fourcc_known f : yuv_fourcc_to_vk f <> VK_FORMAT_UNDEFINED -> yuv_vk (yuv_fourcc_to_vk f) = true.
Proof.
  unfold yuv_fourcc_to_vk, yuv_vk. destruct (list_find _ _) as [[i e]|] eqn:E; [|done]. intros _. apply bool_decide_eq_true.
  apply list_find_Some in E as (Hi & _). apply list_elem_of_fmap_2. by eapply list_elem_of_lookup_2.
Qed.

Lemma gralloc_format_cases (P : Z -> Z -> Z -> Prop) :
  Forall (fun e : Z * Z * Z => P e.1.1 e.1.2 e.2) gralloc_formats -> forall e, e ∈ gralloc_formats -> P e.1.1 e.1.2 e.2.
Proof. intros F e He. rewrite Forall_forall in F. by apply F. Qed.

Lemma fourcc_exportable f : fourcc_to_vk f <> VK_FORMAT_UNDEFINED -> vk_to_ahb (fourcc_to_vk f) <> 0.
Proof.
  unfold fourcc_to_vk. destruct (list_find _ _) as [[i e]|] eqn:E; [|done]. intros _. apply list_find_Some in E as (Hi & _).
  apply (gralloc_format_cases (fun _ v _ => vk_to_ahb v <> 0)); [|by eapply list_elem_of_lookup_2].
  apply (bool_decide_unpack _). vm_compute. exact I.
Qed.

(** An export allocates an AHB format that stands for the image's format, and
    a buffer of that format in any DRM layout of the table is accepted back. *)
Lemma ahb_formats_roundtrip f : vk_to_ahb f <> 0 -> ahb_to_vk (vk_to_ahb f) = f.
Proof.
  unfold vk_to_ahb at 1 2. destruct (list_find _ _) as [[i e]|] eqn:E; [|done]. intros _. apply list_find_Some in E as (Hi & <- & _).
  apply (gralloc_format_cases (fun _ v a => ahb_to_vk a = v)); [|by eapply list_elem_of_lookup_2].
  apply (bool_decide_unpack _). vm_compute. exact I.
Qed.

Lemma usage_nonzero flags usage : vk_to_ahb_usage flags usage <> 0.
Proof. unfold vk_to_ahb_usage. cbn zeta. destruct (_ =? 0) eqn:E; [done|]. by apply Z.eqb_neq. Qed.

(** ** Properties of a description *)

Lemma yuv_fits_exact size stride offset rows :
  is_u32 stride -> is_u32 offset -> is_u32 rows -> yuv_plane_fits size (stride, offset, rows) = true ->
  0 < stride /\ offset + stride * rows <= size.
Proof.
  intros Hs Ho Hr. unfold yuv_plane_fits. intros H. bool_props. unfold is_u32 in *.
  assert (0 <= stride * rows <= (2 ^ 32 - 1) * (2 ^ 32 - 1)) by nia.
  rewrite (u64_id (stride * rows)) in * by (split; lia). rewrite u64_id in * by (split; lia). lia.
Qed.

(** The 32-bit members of a handle and a description. *)
Definition desc_u32 (d : AHardwareBuffer_Desc) (h : gralloc_handle) : Prop :=
  is_u32 (d_height d) /\ is_u32 (hd_stride0 (gh h)) /\ is_u32 (hd_offset0 (gh h)) /\ is_u32 (gh_stride1 h) /\ is_u32 (gh_offset1 h).

(** Rows of the chroma plane, as the code computes them: half of the height,
    rounded up, but none for the largest height of 32 bits, where the sum wraps. *)
Definition chroma_rows (b : gbuf) : Z := u32 (d_height (g_desc b) + 1) / 2.

Lemma chroma_rows_half b : is_u32 (d_height (g_desc b)) -> d_height (g_desc b) < 2 ^ 32 - 1 -> chroma_rows b = (d_height (g_desc b) + 1) / 2.
Proof. unfold chroma_rows, is_u32. intros U H. by rewrite u32_id by (unfold is_u32; lia). Qed.
Lemma chroma_rows_wrap b : d_height (g_desc b) = 2 ^ 32 - 1 -> chroma_rows b = 0.
Proof. unfold chroma_rows. by intros ->. Qed.

Record yuv_layout (B : buffers) (t : trace) (b : gbuf) : Prop := {
  yl_format : (hd_format (gh (g_h b)), g_format b) ∈ yuv_formats;
  yl_linear : hd_modifier (gh (g_h b)) = DRM_FORMAT_MOD_LINEAR;
  yl_one_buffer : exists s, b_fstat B t (hd_fd0 (gh (g_h b))) = Some s /\ b_fstat B t (gh_fd1 (g_h b)) = Some s;
  yl_planes : exists s0 s1 o0 o1, g_layout b = [(o0, s0); (o1, s1)] /\
    0 < s0 /\ o0 + s0 * d_height (g_desc b) <= g_size b /\
    0 < s1 /\ o1 + s1 * chroma_rows b <= g_size b;
  yl_rows : d_height (g_desc b) < 2 ^ 32 - 1 -> chroma_rows b = (d_height (g_desc b) + 1) / 2;
}.

Lemma gbuf_yuv_sound B t desc h size b :
  gbuf_yuv B t desc h size = inr b -> desc_u32 desc h ->
  yuv_layout B t b /\ g_format b <> VK_FORMAT_UNDEFINED /\ external_format_ok (g_format b) = true /\
  g_yuv b = true /\ g_planes b = 2 /\ g_desc b = desc /\ g_h b = h /\ g_fd b = hd_fd0 (gh h) /\ g_size b = size /\ g_blob b = false.
Proof.
  unfold gbuf_yuv. intros H (U1 & U2 & U3 & U4 & U5). repeat (case_match; try discriminate H). simplify_eq. cbn. bool_props.
  unfold same_dmabuf in *. match goal with H : forallb _ _ = true |- _ => cbn [forallb yuv_planes] in H end. bool_props.
  split_and!; try done.
  - split; cbn; [|done| | |intros ?; by apply chroma_rows_half].
    + match goal with H : yuv_fourcc_to_vk _ <> _ |- _ => revert H; unfold yuv_fourcc_to_vk end.
      destruct (list_find _ _) as [[i e]|] eqn:E; [|done]. intros _. apply list_find_Some in E as (Hi & <- & _).
      rewrite <- surjective_pairing. by eapply list_elem_of_lookup_2.
    + repeat (case_match; try done). bool_props. subst. eauto.
    + exists (hd_stride0 (gh h)), (gh_stride1 h), (hd_offset0 (gh h)), (gh_offset1 h). split; [done|].
      assert (Hrows : is_u32 (u32 (d_height desc + 1) / 2)).
      { pose proof (u32_range (d_height desc + 1)) as R. unfold is_u32 in *. split; [apply Z.div_pos; lia|]. apply Z.div_lt_upper_bound; lia. }
      match goal with H : yuv_plane_fits _ (hd_stride0 _, _, _) = true |- _ => apply yuv_fits_exact in H as [? ?]; [|done..] end.
      match goal with H : yuv_plane_fits _ (gh_stride1 _, _, _) = true |- _ => apply yuv_fits_exact in H as [? ?]; [|done..] end.
      by split_and!.
  - unfold external_format_ok. by rewrite yuv_fourcc_known, orb_true_r.
Qed.

(** The format of a described buffer is an external format of the HAL. *)
Lemma gbuf_external B t buf b : gbuf_get B t buf = inr b -> g_blob b = false -> external_format_ok (g_format b) = true.
Proof.
  unfold gbuf_get, gbuf_yuv. intros H Hb. repeat (case_match; try discriminate H); injection H as <-; cbn [g_format g_blob] in *; try discriminate Hb; bool_props.
  all: unfold external_format_ok; first
    [rewrite yuv_fourcc_known by done; apply orb_true_r|rewrite (proj2 (Z.eqb_neq _ _)); [done|by apply fourcc_exportable]].
Qed.

(** C39: a description of a non-BLOB buffer, whose handle and description have
    32-bit members, is one the rest of the HAL can rely on: its format is one
    the HAL also accepts as an external format; with one plane its DRM modifier
    is explicit, its format is its DRM format's, and the AHB format, when it
    has an equivalent in Vulkan, stands for the same; with two planes it is a
    LINEAR NV12 or P010 buffer whose planes are in one dma-buf, and which has
    room for the rows of both without overflow (of the chroma plane, for half
    of the height rounded up; the height 2^32 - 1, where the code's sum of rows
    wraps to none, is the exception: [chroma_rows]). *)
Theorem gbuf_sound B t buf b :
  gbuf_get B t buf = inr b -> g_blob b = false -> desc_u32 (g_desc b) (g_h b) ->
  b_native_handle B t buf = Some (g_h b) /\ g_desc b = b_describe B t buf /\ g_size b = b_lseek_end B t (g_fd b) /\ 0 <= g_size b /\
  external_format_ok (g_format b) = true /\
  ((g_planes b = 1 /\ g_yuv b = false /\ hd_modifier (gh (g_h b)) <> DRM_FORMAT_MOD_INVALID /\
    g_format b = fourcc_to_vk (hd_format (gh (g_h b))) /\
    (ahb_to_vk (d_format (g_desc b)) = VK_FORMAT_UNDEFINED \/ ahb_to_vk (d_format (g_desc b)) = g_format b) /\
    g_layout b = [(hd_offset0 (gh (g_h b)), hd_stride0 (gh (g_h b)))])
   \/ (g_planes b = 2 /\ g_yuv b = true /\ yuv_layout B t b)).
Proof.
  unfold gbuf_get. intros H Hb U. case_match; [done|]. destruct (b_native_handle B t buf) as [h|] eqn:Eh; [|done].
  destruct (nvhal_cros_handle (Some (gh h))) as [r|g] eqn:Eg; [done|].
  assert (g = gh h) as -> by (unfold nvhal_cros_handle in Eg; repeat (case_match; try done); by simplify_eq).
  destruct (Z.leb_spec 0 (hd_fd0 (gh h))) as [Hfd|Hfd]; [|done].
  destruct (_ || _) eqn:Esz; [done|]. apply orb_false_iff in Esz as [Esz _]. apply Z.ltb_ge in Esz.
  destruct (d_format _ =? AHB_BLOB) eqn:Ebl; [by simplify_eq|].
  destruct (negb (hd_num_planes _ =? 1)) eqn:Epl.
  - assert (Ed : g_desc b = b_describe B t buf /\ g_h b = h).
    { unfold gbuf_yuv in H. repeat (case_match; try discriminate H). by simplify_eq. }
    destruct Ed as [Ed Eh']. rewrite Ed, Eh' in U. destruct (gbuf_yuv_sound B t _ h _ b H U) as (L & Hn & Hx & Hy & Hp & -> & E2 & E3 & E4 & _).
    rewrite E2, E3, E4. split_and!; try done. by right.
  - destruct (hd_modifier (gh h) =? DRM_FORMAT_MOD_INVALID) eqn:Em; [done|].
    destruct (fourcc_to_vk _ =? VK_FORMAT_UNDEFINED) eqn:Ef; [done|].
    destruct (_ && _) eqn:Ea; [done|]. simplify_eq. cbn. bool_props. split_and!; try done.
    + unfold external_format_ok. pose proof (fourcc_exportable _ Ef) as Hx. by rewrite (proj2 (Z.eqb_neq _ _) Hx).
    + left. split_and!; try done. apply andb_false_iff in Ea as [Ea|Ea]; bool_props; auto.
Qed.

(** ** Properties of the query *)

Definition limit_le (x y : image_props) : Prop :=
  ip_width x <= ip_width y /\ ip_height x <= ip_height y /\ ip_depth x <= ip_depth y /\ ip_size x <= ip_size y /\
  Z.land (ip_samples x) (ip_samples y) = ip_samples x.

Lemma limit_refl x : limit_le x x.
Proof. unfold limit_le. rewrite Z.land_diag. split_and!; lia. Qed.
Lemma limit_trans x y z : limit_le x y -> limit_le y z -> limit_le x z.
Proof.
  intros (A1 & A2 & A3 & A4 & A5) (B1 & B2 & B3 & B4 & B5). split_and!; try lia. rewrite <- A5 at 1. rewrite <- Z.land_assoc, B5. done.
Qed.
Lemma acc_min_le acc x : limit_le (acc_min acc x) acc /\ limit_le (acc_min acc x) x.
Proof.
  unfold acc_min, limit_le. cbn. split; split_and!;
    try (match goal with |- context [?a <? ?b] => destruct (Z.ltb_spec a b); lia end).
  - by rewrite (Z.land_comm (ip_samples acc)), <- Z.land_assoc, Z.land_diag.
  - by rewrite <- Z.land_assoc, Z.land_diag.
Qed.

Section QueryProofs.
Context (stype_size : Z -> Z) (modifiers : Z -> list VkDrmFormatModifierProperties2EXT) (icd_props : image_query -> Z * image_props).
#[local] Abbreviation ask := (ask_modifier stype_size icd_props).

Lemma ask_each_spec q ms acc :
  let '(r, x) := ask_each stype_size icd_props q ms acc in
  (r = VK_SUCCESS <-> forall m, m ∈ ms -> (ask q m).1 = VK_SUCCESS) /\
  (r = VK_SUCCESS -> limit_le x acc /\ (forall m, m ∈ ms -> limit_le x (ask q m).2) /\
     (ip_width x = ip_width acc \/ exists m, m ∈ ms /\ ip_width x = ip_width (ask q m).2) /\
     (ip_height x = ip_height acc \/ exists m, m ∈ ms /\ ip_height x = ip_height (ask q m).2)).
Proof.
  revert acc. induction ms as [|m ms IH]; intros acc; cbn [ask_each].
  - split; [by split; [set_solver|]|]. intros _. split_and!; [apply limit_refl|set_solver|by left|by left].
  - destruct (ask q m) as [r x] eqn:E. destruct (Z.eqb_spec r VK_SUCCESS) as [->|Hr]; cbn [negb].
    + specialize (IH (acc_min acc x)). destruct (ask_each _ _ q ms _) as [r' y]. destruct IH as [I1 I2]. split.
      * rewrite I1. split; [intros H m' [->|Hm]%elem_of_cons; [by rewrite E|auto]|intros H m' Hm; apply H; set_solver].
      * intros Hs. destruct (I2 Hs) as (J1 & J2 & J3 & J4). destruct (acc_min_le acc x) as [M1 M2]. split_and!.
        -- by eapply limit_trans.
        -- intros m' [->|Hm]%elem_of_cons; [rewrite E; by eapply limit_trans|auto].
        -- destruct J3 as [J3|(m' & ? & ?)]; [|right; exists m'; split; [set_solver|done]].
           rewrite J3. cbn. destruct (_ <? _); [right; exists m; split; [set_solver|by rewrite E]|by left].
        -- destruct J4 as [J4|(m' & ? & ?)]; [|right; exists m'; split; [set_solver|done]].
           rewrite J4. cbn. destruct (_ <? _); [right; exists m; split; [set_solver|by rewrite E]|by left].
    + split; [split; [done|]|done]. intros H. specialize (H m ltac:(set_solver)). by rewrite E in H.
Qed.

(** The AHB image query succeeds exactly when the format can back an AHB,
    the gralloc has a modifier for it and the ICD accepts every modifier the
    gralloc might pick, and then reports limits that hold for each of them,
    attained in width and height by one, with one level, layer and sample and
    a non-empty buffer usage; a failed query reports zero. *)
Theorem ahb_query_exact (q : image_query) (available : bool) :
  iq_handle_type q = Some HANDLE_TYPE_AHB ->
  (forall m, ip_width (ask q m).2 <= UINT32_MAX /\ ip_height (ask q m).2 <= UINT32_MAX) ->
  let '(r, x, usage) := gpdifp2 stype_size modifiers icd_props available q in
  let ms := query_modifiers modifiers q in
  (r = VK_SUCCESS <-> available = true /\ ms <> [] /\ forall m, m ∈ ms -> (ask q m).1 = VK_SUCCESS) /\
  (r = VK_SUCCESS ->
     (forall m, m ∈ ms -> limit_le x (ask q m).2) /\
     (exists m, m ∈ ms /\ ip_width x = ip_width (ask q m).2) /\ (exists m, m ∈ ms /\ ip_height x = ip_height (ask q m).2) /\
     ip_mips x = 1 /\ ip_layers x = 1 /\ Z.land (ip_samples x) 1 = ip_samples x /\ usage <> 0 /\ vk_to_ahb (iq_format q) <> 0) /\
  (r <> VK_SUCCESS -> x = mk_ip 0 0 0 0 0 0 0 /\ usage = 0).
Proof.
  intros Hq Hu. unfold gpdifp2, gpdifp2_ahb. rewrite bool_decide_true by done. destruct available; cbn [negb].
  2: { split_and!; [split; [done|by intros [? _]]|done|done]. }
  set (ms := query_modifiers modifiers q). destruct (bool_decide (ms = [])) eqn:Ems.
  { apply bool_decide_eq_true in Ems. rewrite (proj2 (Z.eqb_neq _ _)) by done.
    split_and!; [split; [done|by intros (_ & ? & _)]|done|done]. }
  apply bool_decide_eq_false in Ems. pose proof (ask_each_spec q ms acc_init) as A.
  destruct (ask_each _ _ q ms acc_init) as [r acc]. destruct A as [A1 A2].
  destruct (Z.eqb_spec r VK_SUCCESS) as [->|Hr].
  2: { split_and!; [rewrite A1; split; [intros ?; split_and!; done|by intros (_ & _ & ?)]|done|done]. }
  destruct (A2 eq_refl) as (_ & L & W & H). split_and!; [rewrite A1; split; [intros ?; split_and!; done|by intros (_ & _ & ?)]| |done].
  intros _. destruct ms as [|m0 ms'] eqn:E0; [done|]. rewrite <- E0 in *.
  assert (Hm0 : m0 ∈ ms) by (rewrite E0; set_solver). split_and!; try done.
  - intros m Hm. destruct (L m Hm) as (L1 & L2 & L3 & L4 & L5). unfold limit_le. cbn. split_and!; try done.
    rewrite Z.land_comm, Z.land_assoc, (Z.land_comm _ (ip_samples acc)), L5. done.
  - destruct W as [W|W]; [|done]. exists m0. split; [done|]. cbn. destruct (L m0 Hm0) as (L1 & _). pose proof (Hu m0) as [? _].
    cbn in W. lia.
  - destruct H as [H|H]; [|done]. exists m0. split; [done|]. cbn. destruct (L m0 Hm0) as (_ & L1 & _). pose proof (Hu m0) as [_ ?].
    cbn in H. lia.
  - cbn. by rewrite <- Z.land_assoc, Z.land_diag.
  - apply usage_nonzero.
  - unfold ms, query_modifiers in E0. repeat (case_match; try discriminate E0). by apply Z.eqb_neq.
Qed.

End QueryProofs.

(** ** Witnesses *)

(** Buffer 7: NV12 1920x1080 on one dma-buf; buffer 8: RGBA8 1920x1080 block
    linear. *)
Definition demo_nv12 : gralloc_handle :=
  mk_gh (mk_handle 12 3 32 9 2048 0 1920 1080 DRM_FORMAT_NV12 DRM_FORMAT_MOD_LINEAR CROS_GRALLOC_MAGIC 2) 10 2048 2228224 11 4096.
Definition demo_rgba : gralloc_handle := mk_gh demo_buf 0 0 0 (-1) 0.
Definition demo_buffers : buffers :=
  mk_buffers (fun _ b => if b =? 7 then mk_desc 1920 1080 1 0x23 0x100 else mk_desc 1920 1080 1 AHB_R8G8B8A8_UNORM 0x300)
    (fun _ b => Some (if b =? 7 then demo_nv12 else demo_rgba)) (fun _ _ => 8294400) (fun _ _ => 0) (fun _ _ => Some (1, 2))
    (fun _ _ _ => Some (fun o => if o =? 1029 then 1 else 1)).

Lemma gbuf_sound_witness :
  exists b, gbuf_get demo_buffers [] 7 = inr b /\ g_layout b = [(0, 2048); (2228224, 2048)] /\ yuv_layout demo_buffers [] b.
Proof.
  destruct (gbuf_get demo_buffers [] 7) as [r|b] eqn:E; [vm_compute in E; discriminate E|].
  assert (Hb : g_blob b = false /\ g_desc b = b_describe demo_buffers [] 7 /\ g_h b = demo_nv12 /\ g_layout b = [(0, 2048); (2228224, 2048)] /\ g_planes b = 2).
  { vm_compute in E. injection E as <-. split_and!; reflexivity. }
  destruct Hb as (Hb & Hd & Hh & Hl & Hp). exists b. split; [reflexivity|]. split; [exact Hl|].
  destruct (gbuf_sound demo_buffers [] 7 b E Hb) as (_ & _ & _ & _ & _ & [[H _]|(_ & _ & H)]).
  - rewrite Hd, Hh. repeat split; vm_compute; done.
  - lia.
  - exact H.
Defined.

Definition demo_modifiers (f : Z) : list VkDrmFormatModifierProperties2EXT :=
  [mk_modprops DRM_FORMAT_MOD_LINEAR 1 0xc001; mk_modprops 0x0300000000606014 1 0xc081; mk_modprops 0x0300000000606015 1 0xc081].
Definition demo_query : image_query :=
  mk_iq VK_FORMAT_R8G8B8A8_UNORM VK_IMAGE_TYPE_2D VK_IMAGE_TILING_OPTIMAL USAGE_COLOR_ATTACHMENT 0 (Some HANDLE_TYPE_AHB) false [] None.
Definition demo_props (q : image_query) : Z * image_props :=
  (VK_SUCCESS, if bool_decide (iq_modifier q = Some 0x0300000000606014) then mk_ip 16384 8192 1 1 1 1 (2 ^ 40) else mk_ip 8192 16384 1 1 1 3 (2 ^ 40)).

Lemma ahb_query_exact_witness :
  let '(r, x, usage) := gpdifp2 (fun _ => 24) demo_modifiers demo_props true demo_query in
  r = VK_SUCCESS /\ usage = AHB_USAGE_GPU_FRAMEBUFFER /\ (exists m, ip_width x = ip_width (ask_modifier (fun _ => 24) demo_props demo_query m).2).
Proof.
  pose proof (ahb_query_exact (fun _ => 24) demo_modifiers demo_props demo_query true eq_refl) as W.
  destruct (gpdifp2 (fun _ => 24) demo_modifiers demo_props true demo_query) as [[r x] usage] eqn:E.
  assert (Hr : r = VK_SUCCESS /\ usage = AHB_USAGE_GPU_FRAMEBUFFER) by (vm_compute in E; injection E as <- _ <-; split; reflexivity).
  destruct Hr as [Hr Hu]. split; [exact Hr|]. split; [exact Hu|]. destruct W as (_ & W & _).
  - intros m. unfold ask_modifier, demo_props. cbn [Chain.fits fmap list_fmap iq_before demo_query negb].
    destruct (bool_decide _); cbn; unfold UINT32_MAX; lia.
  - destruct (W Hr) as (_ & (m & _ & Hw) & _). exists m. exact Hw.
Defined.

End AhbBuffer.
