(* ===== verification/Ahb.v ===== *)
(** * Wrapper images and AHB-backed memory ([hal/src/ahb.c], dispatchers of [hal/src/anb.c])

    An image whose layout is known only with its buffer is a wrapper record of
    the HAL: vkCreateImage with the AHB handle type, or for a swapchain.  Its
    ICD image is created ("realised") when memory is allocated for it, or when
    it is bound to a swapchain's buffer.  Modelled: creation and parsing,
    realisation, AHB import and export, memory and its AHB reference, binds,
    the object state kept until realisation, requirement probes, destruction
    and teardown.

    One device; each entry point is one step.  The records live in a heap of
    their own ([recs]), the table of wrappers holds their addresses ([regs]):
    what is freed leaves the heap, and a use of a record that is not there is
    counted in [faults].  Both tables are finite maps: what [HashTable]
    proves of the table the code uses.  [app] lists the objects the ICD gave
    the application directly; no code reads it or [faults].  Images the ASTC emulation
    takes are in [Astc]. *)

From Stdlib Require Import ZArith Lia.
From stdpp Require Import base option sets strings gmap list.
From S2P Require Import Prelude HashTable Vulkan ImgXlate GrallocFormat CrosHandle Anb AhbBuffer.

Set Default Goal Selector "!".
#[local] Open Scope Z_scope.

Module Ahb.
Import Vk Cros Anb AhbBuffer.

Definition VK_ERROR_EXTENSION_NOT_PRESENT : Z := -7.
Definition VK_ERROR_INVALID_PLANE_LAYOUT : Z := -1000158000.
Definition VK_SHARING_MODE_CONCURRENT : Z := 1.
Definition VK_IMAGE_LAYOUT_UNDEFINED : Z := 0.
Definition VK_OBJECT_TYPE_IMAGE : Z := 10.

(** ** State *)

Inductive nvhal_wrapper_kind := WRAP_AHB | WRAP_SWAPCHAIN.
#[export] Instance wrapper_kind_eq_dec : EqDecision nvhal_wrapper_kind.
Proof. solve_decision. Defined.

(** The pNext chain of an image's create-info. *)
Inductive ci_struct :=
  | CNativeBuffer (handle : option cros_gralloc_handle)
  | CSwapchain (swapchain : Z)
  | CExternalMemory (handleTypes : Z)
  | CExternalFormat (externalFormat : Z)
  | CFormatList (formats : list Z)
  | CStencilUsage (usage : Z)
  | CDedicatedNV
  | COther (sType : Z).

Record image_ci := mk_image_ci {
  c_flags : Z; c_imageType : Z; c_format : Z; c_width : Z; c_height : Z; c_depth : Z; c_mips : Z; c_layers : Z;
  c_samples : Z; c_tiling : Z; c_usage : Z; c_sharing : Z; c_families : list Z; c_layout : Z; c_chain : list ci_struct;
}.

(** The application's create-info as a wrapper keeps it. *)
Definition kept_ci (ci : image_ci) (format : Z) (families : list Z) : image_ci :=
  mk_image_ci (c_flags ci) (c_imageType ci) format (c_width ci) (c_height ci) (c_depth ci) (c_mips ci) (c_layers ci)
    (c_samples ci) (c_tiling ci) (c_usage ci) (c_sharing ci) families (c_layout ci) [].
Definition with_icd (ci : image_ci) (flags tiling usage layout : Z) : image_ci :=
  mk_image_ci flags (c_imageType ci) (c_format ci) (c_width ci) (c_height ci) (c_depth ci) (c_mips ci) (c_layers ci)
    (c_samples ci) tiling usage (c_sharing ci) (c_families ci) layout [].

(** [name]: the bytes; [pd]: slot and data. *)
Record nvhal_image := mk_img {
  w_kind : nvhal_wrapper_kind; w_real : Z; w_memory : Z; w_swapchain : Z; w_ci : image_ci; w_view_formats : list Z;
  w_stencil : option Z; w_external : bool; w_modifier : Z; w_name : option (list Z); w_name_marker : bool; w_pd : list (Z * Z);
}.

(** [m_image]: the record's address, 0 when it died first. *)
Record ahb_mem := mk_mem { m_buffer : Z; m_image : Z }.

Record hworld := mk_hw {
  recs : gmap Z nvhal_image;
  regs : gset Z;
  wrapper_count : Z;
  ahb_mems : gmap Z ahb_mem;
  app : list (kind * Z);
  faults : Z;
  aw : aworld;
}.
Definition htr (w : hworld) : trace := atr (aw w).

Record hdev := mk_hdev { d_anb : nvhal_device; ahb_enabled : bool; has_utils : bool; has_marker : bool; has_private : bool }.

(** ** Requests to the ICD *)

Inductive layout := LExplicit (modifier : Z) (planes : list (Z * Z)) | LList (modifiers : list Z) | LNone.
Record icd_ci := mk_icd_ci { k_ci : image_ci; k_formats : list Z; k_stencil : option Z; k_layout : layout; k_dma_buf : bool }.

Inductive ai_struct :=
  | AImport (buffer : Z)
  | AExport (handleTypes : Z)
  | ADedicated (image buffer : Z)
  | ADedicatedNV (image buffer : Z)
  | AFlags (flags : Z)
  | APriority (priority : Z)
  | ACapture (address : Z)
  | AOther (sType : Z).
Record alloc_info := mk_ai { a_size : Z; a_type : Z; a_chain : list ai_struct }.

(** An import of a dma-buf, or the application's own allocation. *)
Inductive mem_request :=
  | MImport (image buffer fd size type : Z) (extra : list ai_struct)
  | MPlain (ai : alloc_info).

(** The ICD, libnativewindow, the kernel and the allocator.  [h_new]: the
    address of a new record, 0 on failure; [h_malloc], [h_hash_put]: by call
    site. *)
Record hicd := mk_hicd {
  h_anb : icd;
  h_buf : buffers;
  h_modifiers : Z -> list VkDrmFormatModifierProperties2EXT;
  h_new : trace -> Z;
  h_malloc : trace -> string -> bool;
  h_hash_put : trace -> string -> bool;
  h_create : trace -> icd_ci -> Z * Z;
  h_requirements : trace -> Z -> option Z -> VkMemoryRequirements;  (** image, plane *)
  h_allocate : trace -> mem_request -> Z * Z;
  h_ahb_allocate : trace -> AHardwareBuffer_Desc -> Z * Z;          (** result, buffer *)
  h_bind : trace -> list (Z * Z * Z) -> Z;
  h_set_private : trace -> Z -> Z -> Z -> Z;                        (** object, slot, data *)
}.

Definition set_aw (a : aworld) (w : hworld) : hworld := mk_hw (recs w) (regs w) (wrapper_count w) (ahb_mems w) (app w) (faults w) a.
Definition liftA {A} (m : M aworld A) : M hworld A := fun w => let r := m (aw w) in (r.1, set_aw r.2 w).
Definition hev (e : event) : M hworld () := liftA (aev e).
Definition hask {A} (f : trace -> A) : M hworld A := fun w => (f (htr w), w).
Definition whenH (b : bool) (m : M hworld ()) : M hworld () := if b then m else mret tt.
Definition put_rec (p : Z) (r : nvhal_image) : M hworld () :=
  modS (fun w => mk_hw (<[p := r]> (recs w)) (regs w) (wrapper_count w) (ahb_mems w) (app w) (faults w) (aw w)).
Definition put_app (l : list (kind * Z)) : M hworld () :=
  modS (fun w => mk_hw (recs w) (regs w) (wrapper_count w) (ahb_mems w) l (faults w) (aw w)).
Definition put_mems (m : gmap Z ahb_mem) : M hworld () :=
  modS (fun w => mk_hw (recs w) (regs w) (wrapper_count w) m (app w) (faults w) (aw w)).
(** [nvhal_hash_put(&wrappers, ...)] and the count. *)
Definition register (p : Z) : M hworld () :=
  modS (fun w => mk_hw (recs w) ({[p]} ∪ regs w) (wrapper_count w + 1) (ahb_mems w) (app w) (faults w) (aw w)).
Definition unregister (p : Z) : M hworld () :=
  modS (fun w => mk_hw (recs w) (regs w ∖ {[p]}) (wrapper_count w - 1) (ahb_mems w) (app w) (faults w) (aw w)).

(** [free] of a record. *)
Definition wrapper_free (p : Z) : M hworld () :=
  _ ← hev (Destroyed KHeap p);
  modS (fun w => mk_hw (delete p (recs w)) (regs w) (wrapper_count w) (ahb_mems w) (app w) (faults w) (aw w)).

(** A read or write through a pointer to a record that is not allocated. *)
Definition use_after_free : M hworld () :=
  modS (fun w => mk_hw (recs w) (regs w) (wrapper_count w) (ahb_mems w) (app w) (faults w + 1) (aw w)).

Definition nvhal_no_wrappers (w : hworld) : bool := wrapper_count w =? 0.
Definition wrapper (w : hworld) (image : Z) : option nvhal_image :=
  if (image =? VK_NULL_HANDLE) || nvhal_no_wrappers w then None
  else if decide (image ∈ regs w) then recs w !! image else None.

(** The image for the ICD and [*hit]. *)
Definition nvhal_image_xl (w : hworld) (image : Z) : Z * bool :=
  match wrapper w image with None => (image, false) | Some r => (w_real r, true) end.
Definition nvhal_image_wrapper_kind (w : hworld) (image : Z) : option nvhal_wrapper_kind := w_kind <$> wrapper w image.
Definition nvhal_image_real_format (w : hworld) (image : Z) : Z :=
  match wrapper w image with Some r => c_format (w_ci r) | None => VK_FORMAT_UNDEFINED end.
Definition nvhal_image_wrapper_handle (w : hworld) (handle : Z) : bool := bool_decide (is_Some (wrapper w handle)).

(** The first occurrence of [x] goes. *)
Fixpoint remove_one (x : kind * Z) (l : list (kind * Z)) : list (kind * Z) :=
  match l with
  | [] => []
  | y :: l => if decide (y = x) then l else y :: remove_one x l
  end.

Section Hal.
Context (K : hicd) (d : hdev).

(** ** Create-infos *)

Definition external_types (l : list ci_struct) : option Z :=
  head (omap (fun s => match s with CExternalMemory t => Some t | _ => None end) l).
Definition external_format (l : list ci_struct) : option Z :=
  head (omap (fun s => match s with CExternalFormat f => Some f | _ => None end) l).

Definition nvhal_ci_is_ahb (ci : image_ci) : bool :=
  match external_types (c_chain ci) with Some t => has_any t HANDLE_TYPE_AHB | None => false end.

Record parsed := mk_parsed { p_ext : Z; p_formats : list Z; p_stencil : option Z }.

Fixpoint parse_chain (t : trace) (l : list ci_struct) (x : parsed) : Z + parsed :=
  match l with
  | [] => inr x
  | CExternalMemory h :: l => if h =? HANDLE_TYPE_AHB then parse_chain t l x else inl VK_ERROR_FEATURE_NOT_PRESENT
  | CExternalFormat f :: l => parse_chain t l (mk_parsed (u32 f) (p_formats x) (p_stencil x))
  | CFormatList [] :: l => parse_chain t l x
  | CFormatList fs :: l =>
      if h_malloc K t "view formats" then parse_chain t l (mk_parsed (p_ext x) fs (p_stencil x)) else inl VK_ERROR_OUT_OF_HOST_MEMORY
  | CStencilUsage u :: l => parse_chain t l (mk_parsed (p_ext x) (p_formats x) (Some u))
  | CDedicatedNV :: l => parse_chain t l x
  | (CNativeBuffer _ | CSwapchain _ | COther _) :: _ => inl VK_ERROR_FEATURE_NOT_PRESENT
  end.

Definition single_2d (ci : image_ci) : bool :=
  negb (negb (c_imageType ci =? VK_IMAGE_TYPE_2D) || negb (c_depth ci =? 1) || negb (c_mips ci =? 1) || negb (c_layers ci =? 1)
        || negb (c_samples ci =? 1) || has_any (c_flags ci) UNSUPPORTED_CREATE).

(** The queue families a wrapper keeps. *)
Definition kept_families (t : trace) (ci : image_ci) : Z + list Z :=
  if (c_sharing ci =? VK_SHARING_MODE_CONCURRENT) && negb (bool_decide (c_families ci = []))
  then (if h_malloc K t "queue families" then inr (c_families ci) else inl VK_ERROR_OUT_OF_HOST_MEMORY)
  else inr [].

Definition parse_ci (t : trace) (ci : image_ci) : Z + nvhal_image :=
  match parse_chain t (c_chain ci) (mk_parsed VK_FORMAT_UNDEFINED [] None) with
  | inl r => inl r
  | inr x =>
  let ext := negb (p_ext x =? VK_FORMAT_UNDEFINED) in
  let format := if ext then p_ext x else c_format ci in
  if ext && (negb (c_format ci =? VK_FORMAT_UNDEFINED) || negb (external_format_ok (p_ext x))) then inl VK_ERROR_FORMAT_NOT_SUPPORTED
  else if negb (external_format_ok format) then inl VK_ERROR_FORMAT_NOT_SUPPORTED
  else if negb (c_tiling ci =? VK_IMAGE_TILING_OPTIMAL) && negb (c_tiling ci =? VK_IMAGE_TILING_LINEAR) then inl VK_ERROR_FORMAT_NOT_SUPPORTED
  else if negb (single_2d ci) then inl VK_ERROR_FORMAT_NOT_SUPPORTED
  else if has_any (c_flags ci) CREATE_MUTABLE_FORMAT && bool_decide (p_formats x = []) then inl VK_ERROR_FORMAT_NOT_SUPPORTED
  else match kept_families t ci with
  | inl r => inl r
  | inr fams =>
      inr (mk_img WRAP_AHB VK_NULL_HANDLE VK_NULL_HANDLE 0 (kept_ci ci format fams) (p_formats x) (p_stencil x) ext 0 None false [])
  end end.

Definition build_icd_ci (r : nvhal_image) (l : layout) : icd_ci :=
  mk_icd_ci (with_icd (w_ci r) (c_flags (w_ci r)) VK_IMAGE_TILING_DRM_FORMAT_MODIFIER (c_usage (w_ci r)) VK_IMAGE_LAYOUT_UNDEFINED)
    (w_view_formats r) (w_stencil r) l true.
Definition sc_icd_ci (r : nvhal_image) : icd_ci := mk_icd_ci (w_ci r) (w_view_formats r) (w_stencil r) LNone false.
Definition icd_usage (c : icd_ci) (flags usage : Z) : icd_ci :=
  mk_icd_ci (with_icd (k_ci c) flags (c_tiling (k_ci c)) usage (c_layout (k_ci c))) (k_formats c) (k_stencil c) (k_layout c) (k_dma_buf c).

(** The chain [build_icd_ci] and [sc_icd_ci] make of them. *)
Definition kept_chain (c : icd_ci) : list chained :=
  match k_stencil c with Some u => [SStencilUsage u] | None => [] end
  ++ match k_formats c with [] => [] | fs => [SFormatList fs] end.
Definition anb_ci (ci : image_ci) (chain : list chained) : VkImageCreateInfo :=
  mk_ci (c_format ci) (c_imageType ci) (c_mips ci) (c_layers ci) (c_width ci) (c_height ci) (c_depth ci) (c_usage ci) (c_flags ci) chain.
(** As [nvhal_modifier_usage_ok] reads it. *)
Definition usage_info (c : icd_ci) (modifier : Z) : icd_info :=
  mk_ici (anb_ci (k_ci c) (kept_chain c)) (c_usage (k_ci c)) (kept_chain c) modifier 0 0.

(** The result and the create-info with its usage. *)
Definition effective_usage (c : icd_ci) (modifier : Z) : M hworld (Z * icd_ci) :=
  let u := c_usage (k_ci c) in
  let less := Z.ldiff u USAGE_INPUT_ATTACHMENT in
  r ← liftA (nvhal_modifier_usage_ok (h_anb K) (usage_info c modifier) u);
  if negb (r =? VK_SUCCESS) && (modifier =? DRM_FORMAT_MOD_LINEAR) && has_any u USAGE_INPUT_ATTACHMENT
  then (r' ← liftA (nvhal_modifier_usage_ok (h_anb K) (usage_info c modifier) less);
        mret (if r' =? VK_SUCCESS then (VK_SUCCESS, icd_usage c (c_flags (k_ci c)) less) else (r, c)))
  else mret (r, c).

(** ** Realisation *)

Definition replay_name (r : nvhal_image) (real : Z) : M hworld () :=
  match w_name r with
  | None => mret tt
  | Some name =>
      if negb (w_name_marker r) && has_utils d then hev (Called "vkSetDebugUtilsObjectNameEXT" (real :: name))
      else if w_name_marker r && has_marker d then hev (Called "vkDebugMarkerSetObjectNameEXT" (real :: name))
      else mret tt
  end.
Fixpoint replay_pd (l : list (Z * Z)) (real : Z) : M hworld () :=
  match l with
  | [] => mret tt
  | (slot, data) :: l => _ ← hev (Called "vkSetPrivateData" [real; slot; data]); replay_pd l real
  end.
Definition replay_object_state (r : nvhal_image) (real : Z) : M hworld () :=
  _ ← replay_name r real;
  whenH (has_private d) (replay_pd (w_pd r) real).

(** The ICD's create call. *)
Definition icd_create (c : icd_ci) : M hworld (Z * Z) :=
  '(r, img) ← hask (fun t => h_create K t c);
  _ ← hev (Created KImage (r =? VK_SUCCESS) img);
  mret (r, img).

(** One plane of a layout against the ICD's requirement for it. *)
Definition plane_bindable (size off prev_end : Z) (req : VkMemoryRequirements) : bool :=
  negb ((req_alignment req =? 0) || negb (off mod req_alignment req =? 0) || (size <? u64 (off + req_size req)) || (off <? prev_end)).

Fixpoint planes_bindable (size prev_end : Z) (l : list (Z * VkMemoryRequirements)) : bool :=
  match l with
  | [] => true
  | (off, req) :: l => plane_bindable size off prev_end req && planes_bindable size (u64 (off + req_size req)) l
  end.

Definition yuv_layout_bindable (r : nvhal_image) (b : gbuf) (usage : Z) : M hworld Z :=
  if negb (has_any (modifier_features (h_modifiers K) (g_format b) DRM_FORMAT_MOD_LINEAR) FEATURE_DISJOINT)
  then mret VK_ERROR_INVALID_EXTERNAL_HANDLE
  else
  let c := build_icd_ci r (LExplicit DRM_FORMAT_MOD_LINEAR ((fun s => (0, s)) <$> (g_layout b).*2)) in
  '(rc, img) ← icd_create (icd_usage c (Z.lor (c_flags (k_ci c)) CREATE_DISJOINT) usage);
  if negb (rc =? VK_SUCCESS) then mret VK_ERROR_INVALID_EXTERNAL_HANDLE
  else
  reqs ← hask (fun t => (fun p => h_requirements K t img (Some p)) <$> seqZ 0 (g_planes b));
  _ ← hev (Destroyed KImage img);
  mret (if planes_bindable (g_size b) 0 (zip (g_layout b).*1 reqs) then VK_SUCCESS else VK_ERROR_INVALID_EXTERNAL_HANDLE).

Definition ahb_matches (r : nvhal_image) (b : gbuf) : bool :=
  negb (g_blob b || negb (g_format b =? c_format (w_ci r)) || negb (c_width (w_ci r) =? d_width (g_desc b))
        || negb (c_height (w_ci r) =? d_height (g_desc b)) || negb (d_layers (g_desc b) =? c_layers (w_ci r))).

Definition realise (r : nvhal_image) (b : gbuf) : M hworld (Z + Z) :=
  if negb (ahb_matches r b) then mret (inl VK_ERROR_INVALID_EXTERNAL_HANDLE)
  else
  let m := hd_modifier (gh (g_h b)) in
  '(ru, c) ← effective_usage (build_icd_ci r (LExplicit m (g_layout b))) m;
  if negb (ru =? VK_SUCCESS)
  then mret (inl (if ru =? VK_ERROR_FORMAT_NOT_SUPPORTED then VK_ERROR_INVALID_EXTERNAL_HANDLE else ru))
  else
  rb ← (if 1 <? g_planes b then yuv_layout_bindable r b (c_usage (k_ci c)) else mret VK_SUCCESS);
  if negb (rb =? VK_SUCCESS) then mret (inl rb)
  else
  '(rc, img) ← icd_create c;
  mret (if negb (rc =? VK_SUCCESS)
        then inl (if rc =? VK_ERROR_INVALID_PLANE_LAYOUT then VK_ERROR_INVALID_EXTERNAL_HANDLE else rc)
        else inr img).


(** ** vkCreateImage and vkDestroyImage *)

(** A parsed record becomes a wrapper; its address is the handle. *)
Definition add_wrapper (p : Z) (parse : Z + nvhal_image) : M hworld (Z + Z) :=
  match parse with
  | inl r => _ ← hev (Destroyed KHeap p); mret (inl r)
  | inr r =>
      _ ← put_rec p r;
      ok ← hask (fun t => h_hash_put K t "wrappers");
      if negb ok then (_ ← wrapper_free p; mret (inl VK_ERROR_OUT_OF_HOST_MEMORY))
      else (_ ← register p; mret (inr p))
  end.

(** [None]: [*handled] is false. *)
Definition nvhal_ahb_CreateImage (ci : image_ci) : M hworld (option (Z + Z)) :=
  let is_ahb := nvhal_ci_is_ahb ci in
  let ext := match external_format (c_chain ci) with Some f => negb (f =? 0) | None => false end in
  if negb is_ahb && negb ext then mret None
  else if negb (ahb_enabled d) then mret (Some (inl VK_ERROR_EXTENSION_NOT_PRESENT))
  else if negb is_ahb then mret (Some (inl VK_ERROR_FORMAT_NOT_SUPPORTED))
  else
  p ← hask (h_new K);
  if p =? 0 then mret (Some (inl VK_ERROR_OUT_OF_HOST_MEMORY))
  else
  _ ← hev (Created KHeap true p);
  x ← hask (fun t => parse_ci t ci);
  r ← add_wrapper p x;
  mret (Some r).

Definition with_mem (m : ahb_mem) (image : Z) : ahb_mem := mk_mem (m_buffer m) image.

(** false: not a wrapper. *)
Definition nvhal_ahb_DestroyImage (image : Z) : M hworld bool :=
  w ← getS;
  if (image =? VK_NULL_HANDLE) || nvhal_no_wrappers w || negb (bool_decide (image ∈ regs w)) then mret false
  else
  _ ← unregister image;
  match recs w !! image with
  | None => _ ← use_after_free; mret true
  | Some r =>
      _ ← (if bool_decide (w_kind r = WRAP_AHB) && negb (w_memory r =? VK_NULL_HANDLE) then
             match ahb_mems w !! w_memory r with
             | Some m => if m_image m =? image then put_mems (<[w_memory r := with_mem m 0]> (ahb_mems w)) else mret tt
             | None => mret tt
             end
           else mret tt);
      _ ← whenH (negb (w_real r =? VK_NULL_HANDLE)) (hev (Destroyed KImage (w_real r)));
      _ ← whenH (bool_decide (w_kind r = WRAP_SWAPCHAIN) && negb (w_memory r =? VK_NULL_HANDLE)) (hev (Destroyed KMemory (w_memory r)));
      _ ← wrapper_free image;
      mret true
  end.

(** ** Swapchain-bound images *)

Fixpoint sc_chain (t : trace) (l : list ci_struct) (x : parsed) : Z + parsed :=
  match l with
  | [] => inr x
  | CSwapchain _ :: l => sc_chain t l x
  | CFormatList fs :: l =>
      if bool_decide (fs = []) || negb (bool_decide (p_formats x = [])) then sc_chain t l x
      else if h_malloc K t "view formats" then sc_chain t l (mk_parsed (p_ext x) fs (p_stencil x))
      else inl VK_ERROR_OUT_OF_HOST_MEMORY
  | CStencilUsage u :: l => sc_chain t l (mk_parsed (p_ext x) (p_formats x) (Some u))
  | (CNativeBuffer _ | CExternalMemory _ | CExternalFormat _ | CDedicatedNV | COther _) :: _ => inl VK_ERROR_FEATURE_NOT_PRESENT
  end.

Definition sc_parse (t : trace) (ci : image_ci) (swapchain : Z) : Z + nvhal_image :=
  match sc_chain t (c_chain ci) (mk_parsed VK_FORMAT_UNDEFINED [] None) with
  | inl r => inl r
  | inr x =>
  match kept_families t ci with
  | inl r => inl r
  | inr fams =>
      inr (mk_img WRAP_SWAPCHAIN VK_NULL_HANDLE VK_NULL_HANDLE swapchain (kept_ci ci (c_format ci) fams) (p_formats x) (p_stencil x)
             false 0 None false [])
  end end.

Definition nvhal_sc_CreateImage (ci : image_ci) (swapchain : Z) : M hworld (Z + Z) :=
  if negb (anb_enabled (d_anb d)) then mret (inl VK_ERROR_EXTENSION_NOT_PRESENT)
  else if negb (nvhal_anb_format_known (c_format ci)) || negb (single_2d ci) then mret (inl VK_ERROR_FORMAT_NOT_SUPPORTED)
  else
  p ← hask (h_new K);
  if p =? 0 then mret (inl VK_ERROR_OUT_OF_HOST_MEMORY)
  else
  _ ← hev (Created KHeap true p);
  x ← hask (fun t => sc_parse t ci swapchain);
  add_wrapper p x.

Definition bound (r : nvhal_image) (real memory modifier : Z) : nvhal_image :=
  mk_img (w_kind r) real memory (w_swapchain r) (w_ci r) (w_view_formats r) (w_stencil r) (w_external r) modifier
    (w_name r) (w_name_marker r) (w_pd r).

Definition nvhal_sc_bind (image : Z) (nb : option cros_gralloc_handle) : M hworld Z :=
  w ← getS;
  match wrapper w image with
  | None => mret VK_ERROR_INVALID_EXTERNAL_HANDLE
  | Some r =>
  if negb (bool_decide (w_kind r = WRAP_SWAPCHAIN)) then mret VK_ERROR_INVALID_EXTERNAL_HANDLE
  else if negb (w_real r =? VK_NULL_HANDLE) then mret VK_ERROR_INVALID_EXTERNAL_HANDLE
  else
  x ← liftA (nvhal_anb_import (h_anb K) (d_anb d) (anb_ci (w_ci r) (kept_chain (sc_icd_ci r))) nb);
  match x with
  | inl e => mret e
  | inr (img, mem) =>
      _ ← replay_object_state r img;
      _ ← put_rec image (bound r img mem (w_modifier r));
      mret VK_SUCCESS
  end end.

(** ** Memory *)

Definition import_dmabuf (b : gbuf) (image buffer type size : Z) (extra : list ai_struct) : M hworld (Z + Z) :=
  '(fd, errno) ← hask (fun t => i_dup (h_anb K) t (g_fd b));
  _ ← hev (Created KFd (0 <=? fd) fd);
  if fd <? 0 then mret (inl (if errno =? EMFILE then VK_ERROR_TOO_MANY_OBJECTS else VK_ERROR_OUT_OF_HOST_MEMORY))
  else
  '(r, mem) ← hask (fun t => h_allocate K t (MImport image buffer fd size type extra));
  _ ← hev (Called "vkAllocateMemory" [image; buffer; fd; size; type]);
  _ ← hev (Created KMemory (r =? VK_SUCCESS) mem);
  if negb (r =? VK_SUCCESS) then (_ ← hev (Destroyed KFd fd); mret (inl r))
  else (_ ← hev (Moved KFd fd); mret (inr mem)).

(** The structures an import carries along, the last one first. *)
Fixpoint extra_chain (l extra : list ai_struct) : option (list ai_struct) :=
  match l with
  | [] => Some extra
  | (AImport _ | AExport _ | ADedicated _ _ | ADedicatedNV _ _) :: l => extra_chain l extra
  | (AFlags _ | APriority _ | ACapture _) as s :: l => extra_chain l (s :: extra)
  | AOther _ :: _ => None
  end.

(** The last structure of a type in the chain. *)
Definition a_import (l : list ai_struct) : option Z := last (omap (fun s => match s with AImport b => Some b | _ => None end) l).
Definition a_export (l : list ai_struct) : option Z := last (omap (fun s => match s with AExport h => Some h | _ => None end) l).
Definition a_ded (l : list ai_struct) : option (Z * Z) := last (omap (fun s => match s with ADedicated i b => Some (i, b) | _ => None end) l).
Definition a_dednv (l : list ai_struct) : option (Z * Z) := last (omap (fun s => match s with ADedicatedNV i b => Some (i, b) | _ => None end) l).

Definition exports_ahb (l : list ai_struct) : bool := match a_export l with Some h => has_any h HANDLE_TYPE_AHB | None => false end.

(** The wrapper the allocation is dedicated to, with its handle. *)
Definition ded_wrapper (w : hworld) (l : list ai_struct) : option (Z * nvhal_image) :=
  match (match a_ded l with Some (i, _) => pair i <$> wrapper w i | None => None end) with
  | Some x => Some x
  | None => match a_dednv l with Some (i, _) => pair i <$> wrapper w i | None => None end
  end.
Definition ded_buffer (l : list ai_struct) : Z :=
  match a_ded l with Some (_, b) => b | None => match a_dednv l with Some (_, b) => b | None => VK_NULL_HANDLE end end.

(** The buffer: allocated for an export ([true]: owned), or the imported one. *)
Definition alloc_buffer (ai : alloc_info) (dw : option (Z * nvhal_image)) : M hworld (Z + Z * bool) :=
  if exports_ahb (a_chain ai) then
    match dw with
    | None => mret (inl VK_ERROR_OUT_OF_DEVICE_MEMORY)
    | Some (_, r) =>
        let ci := w_ci r in
        if vk_to_ahb (c_format ci) =? 0 then mret (inl VK_ERROR_OUT_OF_DEVICE_MEMORY)
        else
        '(rc, buf) ← hask (fun t => h_ahb_allocate K t
            (mk_desc (c_width ci) (c_height ci) (c_layers ci) (vk_to_ahb (c_format ci)) (vk_to_ahb_usage (c_flags ci) (c_usage ci))));
        if negb (rc =? 0) || (buf =? 0) then mret (inl VK_ERROR_OUT_OF_DEVICE_MEMORY)
        else (_ ← hev (Created KRef true buf); mret (inr (buf, true)))
    end
  else mret (inr (default 0 (a_import (a_chain ai)), false)).

(** The dedicated image: realised, its memory imported and its state replayed. *)
Definition alloc_image (ai : alloc_info) (p : Z) (r : nvhal_image) (b : gbuf) (fd_bits : Z) (extra : list ai_struct) : M hworld (Z + Z) :=
  if negb (w_real r =? VK_NULL_HANDLE) then mret (inl VK_ERROR_INVALID_EXTERNAL_HANDLE)
  else
  x ← realise r b;
  match x with
  | inl e => mret (inl e)
  | inr real =>
      _ ← put_rec p (bound r (w_real r) (w_memory r) (hd_modifier (gh (g_h b))));
      req ← hask (fun t => h_requirements K t real None);
      y ← (if (g_size b <? req_size req) || negb (Z.testbit (Z.land fd_bits (req_memoryTypeBits req)) (a_type ai))
           then mret (inl VK_ERROR_INVALID_EXTERNAL_HANDLE)
           else import_dmabuf b real VK_NULL_HANDLE (a_type ai) (req_size req) extra);
      match y with
      | inl e => _ ← hev (Destroyed KImage real); mret (inl e)
      | inr mem =>
          let r' := bound r real mem (hd_modifier (gh (g_h b))) in
          _ ← replay_object_state r' real;
          _ ← put_rec p r';
          mret (inr mem)
      end
  end.

(** A BLOB, without an image. *)
Definition alloc_blob (ai : alloc_info) (b : gbuf) (fd_bits : Z) (extra : list ai_struct) : M hworld (Z + Z) :=
  if negb (g_blob b) then mret (inl VK_ERROR_INVALID_EXTERNAL_HANDLE)
  else if negb (Z.testbit fd_bits (a_type ai)) then mret (inl VK_ERROR_INVALID_EXTERNAL_HANDLE)
  else import_dmabuf b VK_NULL_HANDLE (ded_buffer (a_chain ai)) (a_type ai) (a_size ai) extra.

(** "unrealise": the memory could not be recorded. *)
Definition unrealise (p : Z) : M hworld () :=
  w ← getS;
  match recs w !! p with
  | None => use_after_free
  | Some r => _ ← put_rec p (bound r VK_NULL_HANDLE VK_NULL_HANDLE (w_modifier r)); hev (Destroyed KImage (w_real r))
  end.

(** The record of the memory and its reference to the buffer. *)
Definition record_memory (dw : option (Z * nvhal_image)) (buf mem : Z) (owned : bool) : M hworld (Z + Z) :=
  m_ok ← hask (fun t => h_malloc K t "ahb_mem");
  put_ok ← (if m_ok : bool then hask (fun t => h_hash_put K t "ahb_mems") else mret false);
  if negb put_ok then
    _ ← (match dw with Some (p, _) => unrealise p | None => mret tt end);
    _ ← hev (Destroyed KMemory mem);
    mret (inl VK_ERROR_OUT_OF_HOST_MEMORY)
  else
    w ← getS;
    _ ← put_mems (<[mem := mk_mem buf (match dw with Some (p, _) => p | None => 0 end)]> (ahb_mems w));
    _ ← whenH (negb owned) (hev (Created KRef true buf));
    mret (inr mem).

(** From the buffer to the recorded memory. *)
Definition alloc_from (ai : alloc_info) (dw : option (Z * nvhal_image)) (buf : Z) (owned : bool) (extra : list ai_struct) : M hworld (Z + Z) :=
  g ← hask (fun t => gbuf_get (h_buf K) t buf);
  match g with
  | inl r => mret (inl r)
  | inr b =>
  if bool_decide (is_Some (a_import (a_chain ai))) && negb (a_size ai =? g_size b) then mret (inl VK_ERROR_INVALID_EXTERNAL_HANDLE)
  else
  '(r, fd_bits) ← hask (fun t => i_fd_props (h_anb K) t (g_fd b));
  if negb (r =? VK_SUCCESS) then mret (inl r)
  else
  x ← (match dw with Some (p, r) => alloc_image ai p r b fd_bits extra | None => alloc_blob ai b fd_bits extra end);
  match x with
  | inl r => mret (inl r)
  | inr mem => record_memory dw buf mem owned
  end end.

(** The application's own allocation. *)
Definition plain_allocate (ai : alloc_info) : M hworld (Z + Z) :=
  '(r, mem) ← hask (fun t => h_allocate K t (MPlain ai));
  _ ← hev (Created KMemory (r =? VK_SUCCESS) mem);
  if negb (r =? VK_SUCCESS) then mret (inl r)
  else (w ← getS; _ ← put_app ((KMemory, mem) :: app w); mret (inr mem)).

(** For a device of the HAL and an image the ASTC emulation does not have; the
    memory-type experiment of [gputime.c] is off. *)
Definition nvhal_AllocateMemory (ai : alloc_info) : M hworld (Z + Z) :=
  w ← getS;
  let imp := a_import (a_chain ai) in
  let exp_ahb := exports_ahb (a_chain ai) in
  let dw := ded_wrapper w (a_chain ai) in
  if bool_decide (imp = None) && negb exp_ahb && bool_decide (dw = None) then plain_allocate ai
  else if (bool_decide (is_Some imp) || exp_ahb) && negb (ahb_enabled d) then mret (inl VK_ERROR_INVALID_EXTERNAL_HANDLE)
  else if match dw with Some (_, r) => bool_decide (w_kind r = WRAP_SWAPCHAIN) | None => false end
  then mret (inl VK_ERROR_INVALID_EXTERNAL_HANDLE)
  else if bool_decide (imp = None) && negb exp_ahb then mret (inl VK_ERROR_INVALID_EXTERNAL_HANDLE)
  else if bool_decide (is_Some imp) && exp_ahb then mret (inl VK_ERROR_INVALID_EXTERNAL_HANDLE)
  else if exp_ahb && negb (Z.ldiff (default 0 (a_export (a_chain ai))) HANDLE_TYPE_AHB =? 0) then mret (inl VK_ERROR_INVALID_EXTERNAL_HANDLE)
  else match extra_chain (a_chain ai) [] with
  | None => mret (inl VK_ERROR_INVALID_EXTERNAL_HANDLE)
  | Some extra =>
  x ← alloc_buffer ai dw;
  match x with
  | inl r => mret (inl r)
  | inr (buf, owned) =>
      y ← alloc_from ai dw buf owned extra;
      match y with
      | inr mem => mret (inr mem)
      | inl r => _ ← whenH owned (hev (Destroyed KRef buf)); mret (inl r)
      end
  end end.

Definition nvhal_FreeMemory (memory : Z) : M hworld () :=
  w ← getS;
  let m := if memory =? VK_NULL_HANDLE then None else ahb_mems w !! memory in
  _ ← put_mems (if memory =? VK_NULL_HANDLE then ahb_mems w else delete memory (ahb_mems w));
  _ ← hev (Destroyed KMemory memory);
  match m with
  | None => put_app (remove_one (KMemory, memory) (app w))
  | Some m =>
      _ ← (if m_image m =? 0 then mret tt
           else match recs w !! m_image m with
           | None => use_after_free
           | Some r => put_rec (m_image m) (bound r (w_real r) VK_NULL_HANDLE (w_modifier r))
           end);
      hev (Destroyed KRef (m_buffer m))
  end.

(** The reference is the application's from then on. *)
Definition nvhal_GetMemoryAndroidHardwareBufferANDROID (memory : Z) : M hworld (Z + Z) :=
  if negb (ahb_enabled d) then mret (inl VK_ERROR_INITIALIZATION_FAILED)
  else
  w ← getS;
  match ahb_mems w !! memory with
  | None => mret (inl VK_ERROR_INVALID_EXTERNAL_HANDLE)
  | Some m =>
      _ ← hev (Created KRef true (m_buffer m));
      _ ← hev (Moved KRef (m_buffer m));
      mret (inr (m_buffer m))
  end.

(** ** Binds *)

(** The structures chained to a bind; pNext of VkBindImageMemoryInfo. *)
Inductive b_struct :=
  | BNativeBuffer (handle : option cros_gralloc_handle)
  | BSwapchain (imageIndex : Z)
  | BDeviceGroup (splitRegions : Z) (indices : list Z)
  | BStatus
  | BOther (sType : Z).
Record bind_info := mk_bind { b_image : Z; b_memory : Z; b_offset : Z; b_chain : list b_struct }.
Definition bind_to (b : bind_info) (image : Z) : bind_info := mk_bind image (b_memory b) (b_offset b) (b_chain b).

(** One bind: an error, or the bind for the ICD. *)
Definition translate_bind (w : hworld) (b : bind_info) : Z + bind_info :=
  match wrapper w (b_image b) with
  | None => inr b
  | Some r =>
      if bool_decide (w_kind r = WRAP_SWAPCHAIN) then inl VK_ERROR_INVALID_EXTERNAL_HANDLE
      else if (w_real r =? VK_NULL_HANDLE) || negb (w_memory r =? b_memory b) || negb (b_offset b =? 0)
      then inl VK_ERROR_INVALID_EXTERNAL_HANDLE
      else inr (bind_to b (w_real r))
  end.

(** [copied]: a copy of the array was made, on the stack or, for more than
    [stack_n] binds, on the heap. *)
Fixpoint translate_binds_from (w : hworld) (n stack_n : Z) (copied : bool) (l : list bind_info) : Z + list bind_info :=
  match l with
  | [] => inr []
  | b :: l =>
      match translate_bind w b with
      | inl r => inl r
      | inr b' =>
          let hit := bool_decide (is_Some (wrapper w (b_image b))) in
          if hit && negb copied && (stack_n <? n) && negb (h_malloc K (htr w) "binds") then inl VK_ERROR_OUT_OF_HOST_MEMORY
          else match translate_binds_from w n stack_n (copied || hit) l with
          | inl r => inl r
          | inr l' => inr (b' :: l')
          end
      end
  end.
Definition nvhal_ahb_translate_binds (w : hworld) (stack_n : Z) (l : list bind_info) : Z + list bind_info :=
  if nvhal_no_wrappers w then inr l else translate_binds_from w (Z.of_nat (length l)) stack_n false l.

Definition forward_binds (name : string) (l : list bind_info) : M hworld Z :=
  r ← hask (fun t => h_bind K t ((fun b => (b_image b, b_memory b, b_offset b)) <$> l));
  _ ← hev (Called name (r :: (l ≫= fun b => [b_image b; b_memory b; b_offset b])));
  mret r.

Definition nvhal_BindImageMemory (image memory offset : Z) : M hworld Z :=
  w ← getS;
  match nvhal_ahb_translate_binds w 1 [mk_bind image memory offset []] with
  | inl r => mret r
  | inr l => forward_binds "vkBindImageMemory" l
  end.

(** *** vkBindImageMemory2 *)

(** The last native buffer and swapchain structure of the checks, the first
    native buffer of the bind. *)
Definition b_native (b : bind_info) : option (option cros_gralloc_handle) :=
  last (omap (fun s => match s with BNativeBuffer h => Some h | _ => None end) (b_chain b)).
Definition b_first_native (b : bind_info) : option (option cros_gralloc_handle) :=
  head (omap (fun s => match s with BNativeBuffer h => Some h | _ => None end) (b_chain b)).
Definition b_swapchain (b : bind_info) : option Z :=
  last (omap (fun s => match s with BSwapchain i => Some i | _ => None end) (b_chain b)).

Definition sc_struct_ok (s : b_struct) : bool :=
  match s with
  | BNativeBuffer _ | BSwapchain _ | BStatus => true
  | BDeviceGroup split idx => (split =? 0) && (Z.of_nat (length idx) <=? 1) && (bool_decide (idx = []) || bool_decide (head idx = Some 0))
  | BOther _ => false
  end.

Definition is_swapchain_bound (w : hworld) (b : bind_info) : bool :=
  bool_decide (nvhal_image_wrapper_kind w (b_image b) = Some WRAP_SWAPCHAIN).

Definition check_bind (w : hworld) (b : bind_info) : bool :=
  if negb (is_swapchain_bound w b) then bool_decide (b_native b = None) && bool_decide (b_swapchain b = None)
  else negb (bool_decide (b_native b = None) || bool_decide (b_swapchain b = None) || negb (b_memory b =? VK_NULL_HANDLE))
       && forallb sc_struct_ok (b_chain b).

(** The binds of swapchain images, each tried; the first error is the result. *)
Fixpoint sc_binds (l : list bind_info) (r : Z) : M hworld Z :=
  match l with
  | [] => mret r
  | b :: l =>
      w ← getS;
      if negb (is_swapchain_bound w b) then sc_binds l r
      else
      ri ← nvhal_sc_bind (b_image b) (default None (b_first_native b));
      _ ← whenH (existsb (fun s => match s with BStatus => true | _ => false end) (b_chain b)) (hev (Called "VkBindMemoryStatus" [b_image b; ri]));
      sc_binds l (if negb (ri =? VK_SUCCESS) && (r =? VK_SUCCESS) then ri else r)
  end.

Definition bind2 (infos : list bind_info) : M hworld Z :=
  w ← getS;
  if negb (forallb (check_bind w) infos) then mret VK_ERROR_INVALID_EXTERNAL_HANDLE
  else
  let rest := filter (fun b => is_swapchain_bound w b = false) infos in
  r ← sc_binds infos VK_SUCCESS;
  if negb (r =? VK_SUCCESS) then mret r
  else if bool_decide (rest = []) then mret VK_SUCCESS
  else if (Z.of_nat (length rest) <? Z.of_nat (length infos)) && (8 <? Z.of_nat (length rest)) && negb (h_malloc K (htr w) "rest")
  then mret VK_ERROR_OUT_OF_HOST_MEMORY
  else
  w ← getS;
  match nvhal_ahb_translate_binds w 8 rest with
  | inl r => mret r
  | inr l => forward_binds "vkBindImageMemory2" l
  end.

(** ** Dispatch *)

(** vkCreateImage on the ICD itself. *)
Definition plain_create (ci : image_ci) : M hworld (Z + Z) :=
  '(r, img) ← icd_create (mk_icd_ci ci [] None LNone false);
  if negb (r =? VK_SUCCESS) then mret (inl r)
  else (w ← getS; _ ← put_app ((KImage, img) :: app w); mret (inr img)).

Definition ci_native (ci : image_ci) : option (option cros_gralloc_handle) :=
  head (omap (fun s => match s with CNativeBuffer h => Some h | _ => None end) (c_chain ci)).
Definition ci_swapchain (ci : image_ci) : option Z :=
  head (omap (fun s => match s with CSwapchain sc => Some sc | _ => None end) (c_chain ci)).

(** The chain as [anb.c] classifies it. *)
Definition to_chained (s : ci_struct) : chained :=
  match s with
  | CNativeBuffer _ => SNativeBuffer
  | CSwapchain _ => SSwapchainImage
  | CFormatList fs => SFormatList fs
  | CStencilUsage u => SStencilUsage u
  | CExternalMemory _ => SOther 1000072001
  | CExternalFormat _ => SOther 1000129005
  | CDedicatedNV => SOther 1000026000
  | COther t => SOther t
  end.

(** The first swapchain structure goes ([nvhal_chain_replace] with no room
    problem). *)
Fixpoint drop_swapchain (l : list ci_struct) : list ci_struct :=
  match l with
  | [] => []
  | CSwapchain _ :: l => l
  | s :: l => s :: drop_swapchain l
  end.
Definition with_chain (ci : image_ci) (l : list ci_struct) : image_ci :=
  mk_image_ci (c_flags ci) (c_imageType ci) (c_format ci) (c_width ci) (c_height ci) (c_depth ci) (c_mips ci) (c_layers ci)
    (c_samples ci) (c_tiling ci) (c_usage ci) (c_sharing ci) (c_families ci) (c_layout ci) l.

(** For a device of the HAL and a format the ASTC emulation does not take;
    [fuel]: how many null swapchain structures may be chained. *)
Fixpoint nvhal_CreateImage (fuel : nat) (ci : image_ci) : M hworld (Z + Z) :=
  match ci_native ci, ci_swapchain ci with
  | None, Some sc =>
      if negb (sc =? VK_NULL_HANDLE) then nvhal_sc_CreateImage ci sc
      else match fuel with
      | O => mret (inl VK_ERROR_FEATURE_NOT_PRESENT)
      | S fuel => nvhal_CreateImage fuel (with_chain ci (drop_swapchain (c_chain ci)))
      end
  | None, None =>
      x ← nvhal_ahb_CreateImage ci;
      match x with
      | Some r => mret r
      | None => plain_create ci
      end
  | Some nb, _ =>
      if negb (anb_enabled (d_anb d)) then mret (inl VK_ERROR_EXTENSION_NOT_PRESENT)
      else liftA (anb_create_image (h_anb K) (d_anb d) (anb_ci ci (to_chained <$> c_chain ci)) nb)
  end.

Definition nvhal_DestroyImage (image : Z) : M hworld () :=
  done ← nvhal_ahb_DestroyImage image;
  if done : bool then mret tt
  else
  w ← getS;
  _ ← liftA (anb_destroy_image image);
  put_app (if bool_decide (image ∈ fst <$> anb_images (aw w)) then app w else remove_one (KImage, image) (app w)).

(** ** Object state *)

Definition set_pd_list (malloc_ok : bool) (l : list (Z * Z)) (slot data : Z) : list (Z * Z) :=
  if bool_decide (slot ∈ l.*1) then (fun e => if fst e =? slot then (fst e, data) else e) <$> l
  else if malloc_ok then l ++ [(slot, data)] else l.

Definition with_pd (r : nvhal_image) (l : list (Z * Z)) : nvhal_image :=
  mk_img (w_kind r) (w_real r) (w_memory r) (w_swapchain r) (w_ci r) (w_view_formats r) (w_stencil r) (w_external r)
    (w_modifier r) (w_name r) (w_name_marker r) l.
Definition with_name (r : nvhal_image) (n : option (list Z)) : nvhal_image :=
  mk_img (w_kind r) (w_real r) (w_memory r) (w_swapchain r) (w_ci r) (w_view_formats r) (w_stencil r) (w_external r)
    (w_modifier r) n (w_name_marker r) (w_pd r).

Definition nvhal_ahb_set_private_data (handle slot data : Z) : M hworld bool :=
  w ← getS;
  match wrapper w handle with
  | None => mret false
  | Some r => _ ← put_rec handle (with_pd r (set_pd_list (h_malloc K (htr w) "private data") (w_pd r) slot data)); mret true
  end.

(** [*data], when it is a wrapper. *)
Definition nvhal_ahb_get_private_data (w : hworld) (handle slot : Z) : option Z :=
  r ← wrapper w handle; Some (default 0 (snd <$> last_with (fun e => fst e =? slot) (w_pd r))).

Definition nvhal_ahb_set_object_name (handle : Z) (name : option (list Z)) : M hworld bool :=
  w ← getS;
  match wrapper w handle with
  | None => mret false
  | Some r => _ ← put_rec handle (with_name r (if h_malloc K (htr w) "name" then name else None)); mret true
  end.

(** The ICD's vkSetPrivateData. *)
Definition icd_set_private (image slot data : Z) : M hworld Z :=
  r ← hask (fun t => h_set_private K t image slot data);
  _ ← hev (Called "vkSetPrivateData" [image; slot; data]);
  mret r.

(** vkSetPrivateData and vkGetPrivateData of an image ([set_pd], [get_pd] of
    [imgxlate.c]); [get]: the ICD's answer. *)
Definition set_pd (handle slot data : Z) : M hworld Z :=
  w ← getS;
  if nvhal_no_wrappers w || negb (nvhal_image_wrapper_handle w handle) then icd_set_private handle slot data
  else
  _ ← nvhal_ahb_set_private_data handle slot data;
  let '(real, _) := nvhal_image_xl w handle in
  if real =? VK_NULL_HANDLE then mret VK_SUCCESS else icd_set_private real slot data.

Definition get_pd (get : trace -> Z -> Z -> Z) (w : hworld) (handle slot : Z) : Z :=
  if nvhal_no_wrappers w || negb (nvhal_image_wrapper_handle w handle) then get (htr w) handle slot
  else
  let '(real, _) := nvhal_image_xl w handle in
  if real =? VK_NULL_HANDLE then default 0 (nvhal_ahb_get_private_data w handle slot) else get (htr w) real slot.

(** vkDestroyPrivateDataSlot; [s]: the values of the loader's objects. *)
Definition xl_DestroyPrivateDataSlot (slot : Z) (s : LoaderPd.lpds) : M hworld LoaderPd.lpds :=
  _ ← hev (Called "vkDestroyPrivateDataSlot" [slot]);
  mret (if negb (slot =? VK_NULL_HANDLE) then LoaderPd.loader_pd_forget_slot s slot else s).

(** vkSetDebugUtilsObjectNameEXT and vkDebugMarkerSetObjectNameEXT of an
    image. *)
Definition xl_SetDebugUtilsObjectNameEXT (handle : Z) (name : option (list Z)) : M hworld () :=
  w ← getS;
  if nvhal_no_wrappers w || negb (nvhal_image_wrapper_handle w handle)
  then hev (Called "vkSetDebugUtilsObjectNameEXT" (handle :: default [] name))
  else
  _ ← nvhal_ahb_set_object_name handle name;
  let '(real, _) := nvhal_image_xl w handle in
  whenH (negb (real =? VK_NULL_HANDLE)) (hev (Called "vkSetDebugUtilsObjectNameEXT" (real :: default [] name))).

Definition xl_DebugMarkerSetObjectNameEXT (handle : Z) (name : option (list Z)) : M hworld () :=
  w ← getS;
  if nvhal_no_wrappers w || negb (nvhal_image_wrapper_handle w handle)
  then hev (Called "vkDebugMarkerSetObjectNameEXT" (handle :: default [] name))
  else
  let '(real, _) := nvhal_image_xl w handle in
  if real =? VK_NULL_HANDLE then (_ ← nvhal_ahb_set_object_name handle name; mret tt)
  else hev (Called "vkDebugMarkerSetObjectNameEXT" (real :: default [] name)).

(** ** Requirements without a buffer *)

Definition zero_reqs : VkMemoryRequirements := mk_reqs 0 0 0.

(** A probe image, asked and destroyed. *)
Definition probe (c : icd_ci) : M hworld VkMemoryRequirements :=
  '(r, img) ← icd_create c;
  if negb (r =? VK_SUCCESS) then mret zero_reqs
  else
  q ← hask (fun t => h_requirements K t img None);
  _ ← hev (Destroyed KImage img);
  mret q.

Definition probe_requirements (r : nvhal_image) : M hworld VkMemoryRequirements :=
  let ms := gralloc_modifiers (h_modifiers K) (c_format (w_ci r)) (c_tiling (w_ci r) =? VK_IMAGE_TILING_LINEAR) 32 in
  match ms with
  | [] => mret zero_reqs
  | m :: _ => '(_, c) ← effective_usage (build_icd_ci r (LList ms)) m; probe c
  end.
Definition sc_probe_requirements (r : nvhal_image) : M hworld VkMemoryRequirements := probe (sc_icd_ci r).

Definition nvhal_ahb_image_requirements (image : Z) : M hworld VkMemoryRequirements :=
  w ← getS;
  match wrapper w image with
  | None => mret zero_reqs
  | Some r => if bool_decide (w_kind r = WRAP_SWAPCHAIN) then sc_probe_requirements r else probe_requirements r
  end.

Definition nvhal_ahb_ci_requirements (ci : image_ci) : M hworld VkMemoryRequirements :=
  x ← hask (fun t => parse_ci t ci);
  match x with inl _ => mret zero_reqs | inr r => probe_requirements r end.

(** ** Teardown *)

(** A leaked swapchain-bound image's ICD objects are the HAL's; the record is
    dropped, not freed. *)
Definition wrapper_drop (p : Z) : M hworld () :=
  w ← getS;
  match recs w !! p with
  | None => use_after_free
  | Some r =>
      if negb (bool_decide (w_kind r = WRAP_SWAPCHAIN)) || (w_memory r =? VK_NULL_HANDLE) then mret tt
      else
      _ ← whenH (negb (w_real r =? VK_NULL_HANDLE)) (hev (Destroyed KImage (w_real r)));
      _ ← hev (Destroyed KMemory (w_memory r));
      put_rec p (bound r (w_real r) VK_NULL_HANDLE (w_modifier r))
  end.

Definition nvhal_ahb_device_teardown : M hworld () :=
  w ← getS;
  if nvhal_no_wrappers w && bool_decide (ahb_mems w = ∅) then mret tt
  else
  _ ← foldM (fun _ p => wrapper_drop p) (elements (regs w)) tt;
  _ ← modS (fun w => mk_hw (recs w) ∅ (wrapper_count w - Z.of_nat (size (regs w))) (ahb_mems w) (app w) (faults w) (aw w));
  _ ← foldM (fun _ x => hev (Destroyed KRef (m_buffer x.2))) (map_to_list (ahb_mems w)) tt;
  put_mems ∅.
End Hal.
End Ahb.
