(* ===== verification/AhbSession.v ===== *)
(** * Ownership in the wrapper-image layer

    Any sequence of calls of [Ahb] keeps exact accounts: what the ICD, the
    kernel and libnativewindow gave and was not given back is what the records,
    the memory table, the table of [Anb] and the application hold; the links
    between records and memory objects never dangle. *)

From Stdlib Require Import ZArith Lia.
From stdpp Require Import base option sets strings gmap list.
From S2P Require Import Prelude HashTable Vulkan ImgXlate GrallocFormat CrosHandle Anb AhbBuffer Ahb.

Set Default Goal Selector "!".
#[local] Open Scope Z_scope.

Module AhbSession.
Import Vk Cros Anb AhbBuffer Ahb.

(** ** Holdings *)

(** What a record and a memory object hold. *)
Definition rec_res (p : Z) (r : nvhal_image) : list (kind * Z) :=
  (KHeap, p) :: (KImage, w_real r) :: (if decide (w_kind r = WRAP_SWAPCHAIN) then [(KMemory, w_memory r)] else []).
Definition mem_res (h : Z) (m : ahb_mem) : list (kind * Z) := [(KMemory, h); (KRef, m_buffer m)].

Definition holdings (w : hworld) : list (kind * Z) :=
  (map_to_list (recs w) ≫= fun x => rec_res x.1 x.2) ++ (map_to_list (ahb_mems w) ≫= fun x => mem_res x.1 x.2) ++ app w.

Definition held (w : hworld) (k : kind) (h : Z) : Z :=
  total (fun p r => cnt k h (rec_res p r)) (recs w) + total (fun p m => cnt k h (mem_res p m)) (ahb_mems w) + cnt k h (app w).

Lemma cnt_bind {A} k h (f : A -> list (kind * Z)) l : cnt k h (l ≫= f) = sumZ ((fun x => cnt k h (f x)) <$> l).
Proof. unfold sumZ. induction l as [|x l IH]; [done|]. cbn [mbind list_bind fmap list_fmap foldr]. rewrite cnt_app, IH. done. Qed.

Lemma cnt_holdings k h w : cnt k h (holdings w) = held w k h.
Proof. unfold holdings, held, total. rewrite !cnt_app, !cnt_bind. lia. Qed.

(** ** The invariant *)

Record rec_ok (w : hworld) (p : Z) (r : nvhal_image) : Prop := {
  ro_handle : p <> 0;
  ro_none : w_real r = VK_NULL_HANDLE -> w_memory r = VK_NULL_HANDLE;
  ro_link : w_kind r = WRAP_AHB -> w_memory r <> VK_NULL_HANDLE ->
    exists m, ahb_mems w !! w_memory r = Some m /\ m_image m = p;
}.
Record mem_ok (w : hworld) (h : Z) (m : ahb_mem) : Prop := {
  mo_handle : h <> VK_NULL_HANDLE;
  mo_buffer : m_buffer m <> 0;
  mo_link : m_image m <> 0 -> exists r, recs w !! m_image m = Some r /\ w_kind r = WRAP_AHB /\ w_memory r = h;
}.

(** The tables. *)
Record wf (w : hworld) : Prop := {
  wf_regs : dom (recs w) = regs w;
  wf_count : wrapper_count w = Z.of_nat (size (regs w));
  wf_recs p r : recs w !! p = Some r -> rec_ok w p r;
  wf_mems h m : ahb_mems w !! h = Some m -> mem_ok w h m;
  wf_safe : faults w = 0;
  wf_app : Forall (fun x => x.1 = KImage \/ x.1 = KMemory) (app w);
}.

(** A driver of the Vulkan specification: a new object is not one that exists;
    and an allocator. *)
Class HicdLaws (K : hicd) : Prop := {
  hl_anb :: IcdLaws (h_anb K);
  hl_new t : h_new K t <> 0 -> balance KHeap (h_new K t) t = 0;
  hl_image t c img : h_create K t c = (VK_SUCCESS, img) -> img <> VK_NULL_HANDLE;
  hl_anb_image t c img : i_create_image (h_anb K) t c = (VK_SUCCESS, img) -> img <> VK_NULL_HANDLE;
  hl_memory t q mem : h_allocate K t q = (VK_SUCCESS, mem) -> mem <> VK_NULL_HANDLE /\ balance KMemory mem t = 0;
}.

Section Inv.
Context (K : hicd) `{!HicdLaws K} (d : hdev).

(** The running call holds [X]; [n] bounds the entries added to the ANB
    tables. *)
Record inv (n : nat) (X : list (kind * Z)) (w : hworld) : Prop := {
  iv_acc : ainv (h_anb K) n (X ++ holdings w) (aw w);
  iv_wf : wf w;
}.

Lemma inv_more n m X w : (n <= m)%nat -> inv n X w -> inv m X w.
Proof. intros H [A B]. split; [by eapply ainv_more|done]. Qed.

Lemma inv_ext n X Y w : (forall k h, acounted k h \/ k = KFence /\ h <> VK_NULL_HANDLE -> cnt k h X = cnt k h Y) -> inv n X w -> inv n Y w.
Proof.
  intros H [A B]. split; [|done]. eapply ainv_ext; [|exact A]. intros k h Hk. rewrite !cnt_app, H by done. done.
Qed.

(** The tables change; what leaves or enters them is the call's. *)
Lemma inv_change n X Y w w' :
  aw w' = aw w -> (forall k h, acounted k h \/ k = KFence /\ h <> VK_NULL_HANDLE -> cnt k h X + held w k h = cnt k h Y + held w' k h) -> wf w' -> inv n X w -> inv n Y w'.
Proof.
  intros E H Hw [A B]. split; [|done]. rewrite E. eapply ainv_ext; [|exact A].
  intros k h Hk. rewrite !cnt_app, !cnt_holdings. by apply H.
Qed.

(** *** Events *)

Lemma wf_set_aw a w : wf w -> wf (set_aw a w).
Proof. intros [W1 W2 W3 W4 W5 W6]. split; try done; intros ?? H; [by destruct (W3 _ _ H)|by destruct (W4 _ _ H)]. Qed.

Lemma inv_event n X Y w e :
  (ainv (h_anb K) n (X ++ holdings w) (aw w) -> ainv (h_anb K) n (Y ++ holdings w) (aev e (aw w)).2) ->
  inv n X w -> inv n Y (hev e w).2.
Proof. intros H [A B]. split; [by apply H|by apply wf_set_aw]. Qed.
(** A call of [Anb]. *)
Lemma inv_lift {A} n m X (Y : A -> list (kind * Z)) (f : M aworld A) w :
  (ainv (h_anb K) n (X ++ holdings w) (aw w) -> wp f (fun a w' => ainv (h_anb K) m (Y a ++ holdings w) w') (aw w)) ->
  inv n X w -> wp (liftA f) (fun a w' => inv m (Y a) w' /\ exists a', w' = set_aw a' w) w.
Proof.
  intros H [A1 B]. unfold wp, liftA in *. cbn [fst snd]. split; [|by eexists]. split; [by apply H|by apply wf_set_aw].
Qed.
Lemma inv_new n X w k h (ok : bool) : k <> KFence -> inv n X w -> inv n (if ok then (k, h) :: X else X) (hev (Created k ok h) w).2.
Proof.
  intros Hk. apply inv_event. intros A. pose proof (ainv_new (h_anb K) n _ _ k h ok Hk A) as A'. by destruct ok.
Qed.
Lemma inv_gone n X w k h e : k <> KFence -> e = Destroyed k h \/ e = Moved k h -> inv n ((k, h) :: X) w -> inv n X (hev e w).2.
Proof. intros Hk He. apply inv_event. intros A. by apply (ainv_gone (h_anb K) n _ _ k h e). Qed.
Lemma inv_call n X w f a : not_fence (Called f a) = true -> inv n X w -> inv n X (hev (Called f a) w).2.
Proof.
  intros Hf. apply inv_event. intros A. by apply ainv_call.
Qed.
Lemma inv_swap n x y X w : inv n (x :: y :: X) w -> inv n (y :: x :: X) w.
Proof. apply inv_ext. intros. rewrite !cnt_cons. lia. Qed.
Lemma inv_skip n k h X w : ~ acounted k h -> k <> KFence -> inv n ((k, h) :: X) w <-> inv n X w.
Proof.
  intros H1 H2. split; apply inv_ext; intros k' h' H; rewrite cnt_cons, decide_False; try done; intros [= <- <-]; by destruct H as [?|[-> ?]].
Qed.

Lemma inv_fd_new n X w fd : inv n X w -> inv n ((KFd, fd) :: X) (hev (Created KFd (0 <=? fd) fd) w).2.
Proof.
  intros I. pose proof (inv_new n X w KFd fd (0 <=? fd) ltac:(done) I) as J. destruct (Z.leb_spec 0 fd); [done|].
  apply inv_skip; [cbn; lia|done|done].
Qed.

(** A null handle is nothing. *)
Lemma inv_when_gone n X w k h : k = KImage \/ k = KMemory -> inv n ((k, h) :: X) w -> inv n X (whenH (negb (h =? VK_NULL_HANDLE)) (hev (Destroyed k h)) w).2.
Proof.
  intros Hk I. destruct (Z.eqb_spec h VK_NULL_HANDLE) as [->|Hh]; cbn [negb whenH].
  - apply inv_skip in I; [done| |]; destruct Hk as [-> | ->]; try done; by intros ?.
  - by apply (inv_gone n X w k h); [destruct Hk; congruence|left|].
Qed.


(** Only the trace and the ANB tables changed. *)
Definition quiet (w w' : hworld) : Prop := exists a, w' = set_aw a w.
Lemma hquiet_refl w : quiet w w.
Proof. exists (aw w). by destruct w. Qed.
Lemma hquiet_trans w1 w2 w3 : quiet w1 w2 -> quiet w2 w3 -> quiet w1 w3.
Proof. intros [a ->] [b ->]. by exists b. Qed.
Lemma quiet_hev e w : quiet w (hev e w).2.
Proof. by eexists. Qed.
Lemma quiet_when b e w : quiet w (whenH b (hev e) w).2.
Proof. destruct b; [apply quiet_hev|apply hquiet_refl]. Qed.

(** *** A record changes *)

Lemma held_put_rec w p r r' k h :
  recs w !! p = Some r -> held (put_rec p r' w).2 k h = held w k h - cnt k h (rec_res p r) + cnt k h (rec_res p r').
Proof. intros H. unfold held. cbn [put_rec modS snd recs ahb_mems app]. rewrite (total_insert _ _ _ _ _ H). lia. Qed.

Lemma wf_put_rec w p r r' :
  wf w -> recs w !! p = Some r -> rec_ok w p r' ->
  (forall h m, ahb_mems w !! h = Some m -> m_image m = p -> w_kind r' = WRAP_AHB /\ w_memory r' = h) -> wf (put_rec p r' w).2.
Proof.
  intros [W1 W2 W3 W4 W5 W6] Hp Hr Hm. split; cbn [put_rec modS snd recs regs wrapper_count ahb_mems faults]; try done.
  - rewrite dom_insert_L, W1. assert (p ∈ regs w) by (rewrite <- W1; by eapply elem_of_dom_2). set_solver.
  - intros q x [[<- <-]|[Hne Hq]]%lookup_insert_Some; [by destruct Hr|]. by destruct (W3 q x Hq).
  - intros h m Hh. destruct (W4 h m Hh) as [M1 M2 M3]. split; cbn; try done. intros Hi. destruct (decide (m_image m = p)) as [E|E].
    + exists r'. rewrite E, lookup_insert_eq. split; [done|]. by apply Hm with m.
    + rewrite lookup_insert_ne by done. by apply M3.
Qed.

Lemma inv_put_rec n X Y w p r r' :
  recs w !! p = Some r -> rec_ok w p r' ->
  (forall h m, ahb_mems w !! h = Some m -> m_image m = p -> w_kind r' = WRAP_AHB /\ w_memory r' = h) ->
  (forall k h, acounted k h \/ k = KFence /\ h <> VK_NULL_HANDLE ->
    cnt k h X + cnt k h (rec_res p r) = cnt k h Y + cnt k h (rec_res p r')) ->
  inv n X w -> inv n Y (put_rec p r' w).2.
Proof.
  intros Hp Hr Hm Hc I. apply (inv_change n X Y w); [done| | |exact I].
  - intros k h Hk. rewrite (held_put_rec w p r r' k h Hp). specialize (Hc k h Hk). lia.
  - eapply wf_put_rec; [apply I|done|done|done].
Qed.

(** What is not about ownership can change freely. *)
Lemma inv_put_state n X w p r r' :
  recs w !! p = Some r -> w_kind r' = w_kind r -> w_real r' = w_real r -> w_memory r' = w_memory r ->
  inv n X w -> inv n X (put_rec p r' w).2.
Proof.
  intros Hp Ek Er Em I. destruct (wf_recs _ (iv_wf _ _ _ I) p r Hp) as [R1 R2 R3]. apply (inv_put_rec n X X w p r r' Hp).
  - split; rewrite ?Ek, ?Er, ?Em; done.
  - intros h m Hh Hi. destruct (wf_mems _ (iv_wf _ _ _ I) h m Hh) as [_ _ M]. destruct M as (r1 & Hr1 & ? & ?); [congruence|].
    rewrite Ek, Em. rewrite Hi in Hr1. rewrite Hp in Hr1. by injection Hr1 as <-.
  - intros k h _. unfold rec_res. by rewrite Ek, Er, Em.
  - done.
Qed.

Lemma Forall_remove_one (P : kind * Z -> Prop) x l : Forall P l -> Forall P (remove_one x l).
Proof. induction 1 as [|y l Hy Hl IH]; [constructor|]. cbn. case_decide; [done|by constructor]. Qed.

Lemma wf_put_app l w : wf w -> Forall (fun x => x.1 = KImage \/ x.1 = KMemory) l -> wf (put_app l w).2.
Proof. intros [W1 W2 W3 W4 W5 W6] Hl. split; try done; intros ?? H; [by destruct (W3 _ _ H)|by destruct (W4 _ _ H)]. Qed.

(** *** Requests *)

Lemma effective_usage_world c m w : (effective_usage K c m w).2 = w.
Proof.
  assert (L : forall A (f : M aworld A), (f (aw w)).2 = aw w -> (liftA f w).2 = w).
  { intros A f E. unfold liftA. cbn. rewrite E. by destruct w. }
  unfold effective_usage. rewrite bind_run, L by apply usage_ok_world.
  destruct (negb _ && _ && _); [|done]. rewrite bind_run, L by apply usage_ok_world. done.
Qed.

Lemma icd_create_spec c n X w : inv n X w ->
  wp (icd_create K c) (fun x w' => inv n (if x.1 =? VK_SUCCESS then (KImage, x.2) :: X else X) w' /\ quiet w w' /\
    (x.1 = VK_SUCCESS -> x.2 <> VK_NULL_HANDLE)) w.
Proof.
  intros I. unfold icd_create. apply wp_bind. unfold wp at 1, hask. cbn [fst snd]. destruct (h_create K (htr w) c) as [r img] eqn:E.
  apply wp_bind. unfold wp at 1. apply wp_ret. cbn [fst snd]. split_and!.
  - by apply (inv_new n X w KImage img (r =? VK_SUCCESS)).
  - apply quiet_hev.
  - intros ->. by eapply hl_image.
Qed.

Lemma bindable_spec r b u n X w : inv n X w -> wp (yuv_layout_bindable K r b u) (fun _ w' => inv n X w' /\ quiet w w') w.
Proof.
  intros I. unfold yuv_layout_bindable. destruct (negb _); [apply wp_ret; split; [done|apply hquiet_refl]|].
  apply wp_bind. eapply wp_mono; [by apply icd_create_spec|]. intros [rc img] w1 (I1 & Q1 & _). cbn [fst snd] in *.
  destruct (rc =? VK_SUCCESS); cbn [negb]; [|by apply wp_ret].
  apply wp_bind. unfold wp at 1, hask. cbn [fst snd]. apply wp_bind. unfold wp at 1. apply wp_ret. split.
  - by apply (inv_gone n X w1 KImage img); [|left|].
  - eapply hquiet_trans; [exact Q1|apply quiet_hev].
Qed.

Lemma realise_spec r b n X w : inv n X w ->
  wp (realise K r b) (fun x w' => quiet w w' /\
    match x with inl _ => inv n X w' | inr img => inv n ((KImage, img) :: X) w' /\ img <> VK_NULL_HANDLE end) w.
Proof.
  intros I. unfold realise. destruct (negb _); [by apply wp_ret; split; [apply hquiet_refl|]|].
  apply wp_bind. unfold wp at 1. rewrite effective_usage_world. destruct (_ : Z * icd_ci) as [ru c].
  destruct (negb _); [by apply wp_ret; split; [apply hquiet_refl|]|].
  apply wp_bind. eapply wp_mono with (Q := fun _ w' => inv n X w' /\ quiet w w').
  { destruct (_ <? _); [by apply bindable_spec|]. apply wp_ret. split; [done|apply hquiet_refl]. }
  intros rb w1 [I1 Q1]. destruct (negb _); [by apply wp_ret|].
  apply wp_bind. eapply wp_mono; [by apply icd_create_spec|]. intros [rc img] w2 (I2 & Q2 & Hn). cbn [fst snd] in *.
  apply wp_ret. split; [by eapply hquiet_trans|]. destruct (Z.eqb_spec rc VK_SUCCESS); cbn [negb]; [|done]. auto.
Qed.

Lemma replay_pd_spec l real n X w : inv n X w -> wp (replay_pd l real) (fun _ w' => inv n X w' /\ quiet w w') w.
Proof.
  revert w. induction l as [|[slot data] l IH]; intros w I; cbn [replay_pd]; [apply wp_ret; split; [done|apply hquiet_refl]|].
  apply wp_bind. unfold wp at 1. eapply wp_mono; [apply IH; by apply inv_call|]. intros ? w' [I' Q']. split; [done|].
  eapply hquiet_trans; [apply quiet_hev|exact Q'].
Qed.
Lemma replay_spec r real n X w : inv n X w -> wp (replay_object_state d r real) (fun _ w' => inv n X w' /\ quiet w w') w.
Proof.
  intros I. unfold replay_object_state. apply wp_bind. eapply wp_mono with (Q := fun _ w' => inv n X w' /\ quiet w w').
  - unfold replay_name. destruct (w_name r) as [name|]; [|apply wp_ret; split; [done|apply hquiet_refl]].
    destruct (_ && has_utils d); [split; [by apply inv_call|apply quiet_hev]|].
    destruct (_ && _); [split; [by apply inv_call|apply quiet_hev]|]. apply wp_ret. split; [done|apply hquiet_refl].
  - intros ? w1 [I1 Q1]. destruct (has_private d); cbn [whenH]; [|by apply wp_ret].
    eapply wp_mono; [by apply replay_pd_spec|]. intros ? w2 [I2 Q2]. split; [done|by eapply hquiet_trans].
Qed.

(** *** Memory *)

Lemma held_mem w h m : ahb_mems w !! h = Some m -> 1 <= held w KMemory h.
Proof.
  intros H. unfold held.
  pose proof (total_nonneg (fun p r => cnt KMemory h (rec_res p r)) (recs w) ltac:(intros; apply cnt_nonneg)).
  pose proof (total_ge (fun p m => cnt KMemory h (mem_res p m)) (ahb_mems w) h m ltac:(intros; apply cnt_nonneg) H) as G.
  unfold mem_res in G at 1. rewrite cnt_cons, decide_True in G by done. pose proof (cnt_nonneg KMemory h (app w)).
  pose proof (cnt_nonneg KMemory h [(KRef, m_buffer m)]). lia.
Qed.
Lemma fresh_memory n X w h : inv n X w -> h <> VK_NULL_HANDLE -> balance KMemory h (htr w) = 0 -> ahb_mems w !! h = None.
Proof.
  intros [A _] Hh Hb. destruct (ahb_mems w !! h) as [m|] eqn:E; [|done]. exfalso. pose proof (held_mem w h m E) as G.
  unfold htr in Hb. rewrite (ai_bal _ _ _ _ A KMemory h Hh), cnt_app, cnt_holdings in Hb.
  pose proof (cnt_nonneg KMemory h (tables (aw w))). pose proof (cnt_nonneg KMemory h X). lia.
Qed.
Lemma quiet_mems w w' : quiet w w' -> ahb_mems w' = ahb_mems w.
Proof. by intros [a ->]. Qed.
Lemma quiet_recs w w' : quiet w w' -> recs w' = recs w.
Proof. by intros [a ->]. Qed.

Lemma import_dmabuf_spec b image buffer type size extra n X w : inv n X w ->
  wp (import_dmabuf K b image buffer type size extra) (fun x w' => quiet w w' /\
    match x with inl _ => inv n X w' | inr mem => inv n ((KMemory, mem) :: X) w' /\ mem <> VK_NULL_HANDLE /\ ahb_mems w !! mem = None end) w.
Proof.
  intros I. unfold import_dmabuf. apply wp_bind. unfold wp at 1, hask. cbn [fst snd]. destruct (i_dup _ _ _) as [fd errno].
  apply wp_bind. unfold wp at 1. set (w1 := (hev _ w).2). assert (I1 : inv n ((KFd, fd) :: X) w1) by (by apply inv_fd_new).
  assert (Q1 : quiet w w1) by apply quiet_hev.
  destruct (Z.ltb_spec fd 0) as [Hfd|Hfd].
  { apply wp_ret. split; [done|]. apply inv_skip in I1; [done|cbn; lia|done]. }
  apply wp_bind. unfold wp at 1. cbn [fst snd]. destruct (h_allocate K _ _) as [r mem] eqn:E.
  apply wp_bind. unfold wp at 1. set (w2 := (hev _ w1).2). assert (I2 : inv n ((KFd, fd) :: X) w2) by (by apply inv_call).
  assert (Q2 : quiet w w2) by (eapply hquiet_trans; [exact Q1|apply quiet_hev]).
  apply wp_bind. unfold wp at 1. pose proof (inv_new n _ w2 KMemory mem (r =? VK_SUCCESS) ltac:(done) I2) as I3.
  set (w3 := (hev _ w2).2) in *. assert (Q3 : quiet w w3) by (eapply hquiet_trans; [exact Q2|apply quiet_hev]).
  destruct (Z.eqb_spec r VK_SUCCESS) as [->|Hr]; cbn [negb].
  - apply wp_bind. unfold wp at 1. apply wp_ret. split; [eapply hquiet_trans; [exact Q3|apply quiet_hev]|].
    destruct (hl_memory _ _ _ E) as [Hm Hb]. split_and!; [|done|].
    + apply (inv_gone n _ w3 KFd fd); [done|by right|]. by apply inv_swap.
    + rewrite <- (quiet_mems _ _ Q1). by eapply fresh_memory.
  - apply wp_bind. unfold wp at 1. apply wp_ret. split; [eapply hquiet_trans; [exact Q3|apply quiet_hev]|].
    by apply (inv_gone n _ w3 KFd fd); [|left|].
Qed.

(** [alloc_image] leaves the record realised, its memory not yet in the
    table. *)
Lemma alloc_image_spec ai p r b bits extra n X w :
  recs w !! p = Some r -> w_kind r = WRAP_AHB -> inv n X w ->
  wp (alloc_image K d ai p r b bits extra) (fun x w' =>
    match x with
    | inl _ => inv n X w'
    | inr mem => exists w1 r1 real m, recs w1 !! p = Some r1 /\ w_kind r1 = WRAP_AHB /\ w_real r1 = VK_NULL_HANDLE /\
        inv n ((KImage, real) :: (KMemory, mem) :: X) w1 /\ real <> VK_NULL_HANDLE /\ mem <> VK_NULL_HANDLE /\
        ahb_mems w1 !! mem = None /\ w' = (put_rec p (bound r1 real mem m) w1).2
    end) w.
Proof.
  intros Hp Hk I. unfold alloc_image. destruct (Z.eqb_spec (w_real r) VK_NULL_HANDLE) as [Hr|]; cbn [negb]; [|by apply wp_ret].
  apply wp_bind. eapply wp_mono; [by apply realise_spec|]. intros [e|real] w1 [Q1 I1]; [by apply wp_ret|]. destruct I1 as [I1 Hreal].
  apply wp_bind. unfold wp at 1. set (m := hd_modifier _). set (w2 := (put_rec p _ w1).2).
  assert (Hp1 : recs w1 !! p = Some r) by (by rewrite (quiet_recs _ _ Q1)).
  assert (I2 : inv n ((KImage, real) :: X) w2) by (eapply inv_put_state; [exact Hp1|done|done|done|done]).
  set (r2 := bound r (w_real r) (w_memory r) m) in *.
  assert (Hp2 : recs w2 !! p = Some r2) by (cbn; by rewrite lookup_insert_eq).
  apply wp_bind. unfold wp at 1, hask. cbn [fst snd]. set (req := h_requirements _ _ _ _).
  apply wp_bind. eapply wp_mono with (Q := fun y w3 => quiet w2 w3 /\
    match y with inl _ => inv n ((KImage, real) :: X) w3
    | inr mem => inv n ((KMemory, mem) :: (KImage, real) :: X) w3 /\ mem <> VK_NULL_HANDLE /\ ahb_mems w2 !! mem = None end).
  { destruct (_ || _); [apply wp_ret; split; [apply hquiet_refl|done]|]. by apply import_dmabuf_spec. }
  intros [e|mem] w3 [Q3 I3].
  - apply wp_bind. unfold wp at 1. apply wp_ret. by apply (inv_gone n X w3 KImage real); [|left|].
  - destruct I3 as (I3 & Hm & Hno). apply wp_bind. eapply wp_mono; [by apply replay_spec|]. intros ? w4 [I4 Q4].
    apply wp_bind. unfold wp at 1. apply wp_ret. pose proof (hquiet_trans _ _ _ Q3 Q4) as Q.
    exists w4, r2, real, m. split_and!; try done.
    + by rewrite (quiet_recs _ _ Q).
    + by apply inv_swap.
    + by rewrite (quiet_mems _ _ Q).
Qed.

Lemma put_rec_twice p r r' w : (put_rec p r' (put_rec p r w).2).2 = (put_rec p r' w).2.
Proof. unfold put_rec, modS. cbn. by rewrite insert_insert_eq. Qed.

(** The record [p] gets its image and memory, and the memory its entry. *)
Definition linked (w : hworld) (p : Z) (r : nvhal_image) (mem buf : Z) : hworld :=
  (put_mems (<[mem := mk_mem buf p]> (ahb_mems w)) (put_rec p r w).2).2.

Lemma inv_linked n X w p r1 real mem m buf :
  recs w !! p = Some r1 -> w_kind r1 = WRAP_AHB -> w_real r1 = VK_NULL_HANDLE ->
  real <> VK_NULL_HANDLE -> mem <> VK_NULL_HANDLE -> buf <> 0 -> ahb_mems w !! mem = None ->
  inv n ((KImage, real) :: (KMemory, mem) :: (KRef, buf) :: X) w -> inv n X (linked w p (bound r1 real mem m) mem buf).
Proof.
  intros Hp Hk Hr Hreal Hmem Hbuf Hno I. destruct (wf_recs _ (iv_wf _ _ _ I) p r1 Hp) as [R1 R2 R3]. specialize (R2 Hr).
  eapply (inv_change n _ X w); [done| | |exact I].
  - intros k h Hkh. unfold held, linked. cbn [put_rec put_mems modS snd recs ahb_mems app].
    rewrite (total_insert _ _ _ _ _ Hp), total_insert_new by done. unfold rec_res, mem_res, bound. cbn [w_real w_kind w_memory m_buffer].
    rewrite Hk, Hr, !(decide_False (P := WRAP_AHB = _)) by done. rewrite !cnt_cons, !cnt_nil.
    rewrite (decide_False (P := (KImage, VK_NULL_HANDLE) = (k, h))); [lia|]. intros [= <- <-]. by destruct Hkh as [?|[? ?]].
  - destruct (iv_wf _ _ _ I) as [W1 W2 W3 W4 W5 W6]. split; cbn [linked put_rec put_mems modS snd recs regs wrapper_count ahb_mems faults]; try done.
    + rewrite dom_insert_L, W1. assert (p ∈ regs w) by (rewrite <- W1; by eapply elem_of_dom_2). set_solver.
    + intros q x [[<- <-]|[Hne Hq]]%lookup_insert_Some.
      * split; cbn; [done|done|]. intros _ _. exists (mk_mem buf p). by rewrite lookup_insert_eq.
      * destruct (W3 q x Hq) as [A1 A2 A3]. split; cbn; [done|done|]. intros Ek Em. destruct (A3 Ek Em) as (m' & Hm' & <-).
        exists m'. rewrite lookup_insert_ne; [done|]. intros E. rewrite <- E, Hno in Hm'. done.
    + intros h m' [[<- <-]|[Hne Hh]]%lookup_insert_Some.
      * split; cbn; [done|done|]. intros _. exists (bound r1 real mem m). by rewrite lookup_insert_eq.
      * destruct (W4 h m' Hh) as [M1 M2 M3]. split; cbn; [done|done|]. intros Hi. destruct (M3 Hi) as (r & Hr' & Hk' & Hm').
        exists r. rewrite lookup_insert_ne; [done|]. intros E. rewrite <- E, Hp in Hr'. injection Hr' as <-. congruence.
Qed.

Lemma inv_add_mem n X w mem buf :
  mem <> VK_NULL_HANDLE -> buf <> 0 -> ahb_mems w !! mem = None ->
  inv n ((KMemory, mem) :: (KRef, buf) :: X) w -> inv n X (put_mems (<[mem := mk_mem buf 0]> (ahb_mems w)) w).2.
Proof.
  intros Hm Hb Hno I. eapply (inv_change n _ X w); [done| | |exact I].
  - intros k h _. unfold held. cbn [put_mems modS snd recs ahb_mems app]. rewrite total_insert_new by done. unfold mem_res.
    cbn [m_buffer]. rewrite !cnt_cons, cnt_nil. lia.
  - destruct (iv_wf _ _ _ I) as [W1 W2 W3 W4 W5 W6]. split; cbn [put_mems modS snd recs regs wrapper_count ahb_mems faults]; try done.
    + intros q x Hq. destruct (W3 q x Hq) as [A1 A2 A3]. split; cbn; try done. intros Ek Em. destruct (A3 Ek Em) as (m' & Hm' & Hi).
      exists m'. rewrite lookup_insert_ne; [done|]. intros E. rewrite <- E, Hno in Hm'. done.
    + intros h m' [[<- <-]|[Hne Hh]]%lookup_insert_Some; [by split|]. by destruct (W4 h m' Hh).
Qed.

(** What the call holds: the reference of an export. *)
Definition own (owned : bool) (buf : Z) (X : list (kind * Z)) : list (kind * Z) := if owned then (KRef, buf) :: X else X.

Definition ready (dw : option (Z * nvhal_image)) (n : nat) (X : list (kind * Z)) (mem : Z) (w : hworld) : Prop :=
  match dw with
  | None => inv n ((KMemory, mem) :: X) w /\ mem <> VK_NULL_HANDLE /\ ahb_mems w !! mem = None
  | Some (p, _) => exists w1 r1 real m, recs w1 !! p = Some r1 /\ w_kind r1 = WRAP_AHB /\ w_real r1 = VK_NULL_HANDLE /\
      inv n ((KImage, real) :: (KMemory, mem) :: X) w1 /\ real <> VK_NULL_HANDLE /\ mem <> VK_NULL_HANDLE /\
      ahb_mems w1 !! mem = None /\ w = (put_rec p (bound r1 real mem m) w1).2
  end.

Lemma record_fail dw n X mem w : ready dw n X mem w ->
  wp (match dw with Some (p, _) => unrealise p | None => mret tt end) (fun _ w' => inv n ((KMemory, mem) :: X) w') w.
Proof.
  destruct dw as [[p r0]|]; cbn [ready]; [|by intros (? & ? & ?); apply wp_ret].
  intros (w1 & r1 & real & m & Hp & Hk & Hr & I & Hreal & Hm & Hno & ->).
  unfold unrealise. apply wp_bind. unfold wp at 1. cbn [getS fst snd]. cbn [put_rec modS snd recs]. rewrite lookup_insert_eq.
  apply wp_bind. unfold wp at 1. set (r' := bound r1 real mem m). set (r2 := bound r' _ _ _).
  change (mk_hw _ _ _ _ _ _ _) with (put_rec p r' w1).2. rewrite put_rec_twice. unfold wp.
  apply (inv_gone n _ _ KImage real); [done|by left|]. destruct (wf_recs _ (iv_wf _ _ _ I) p r1 Hp) as [R1 R2 R3].
  eapply inv_put_state; [exact Hp|done|by rewrite Hr|by rewrite R2|done].
Qed.

Lemma record_memory_spec dw buf mem owned n X w : buf <> 0 -> ready dw n (own owned buf X) mem w ->
  wp (record_memory K dw buf mem owned) (fun y w' => match y with inl _ => inv n (own owned buf X) w' | inr _ => inv n X w' end) w.
Proof.
  intros Hb R. unfold record_memory. apply wp_bind. unfold wp at 1, hask. cbn [fst snd].
  apply wp_bind. eapply wp_mono with (Q := fun _ w' => w' = w); [by destruct (h_malloc K _ _)|]. intros ok ? ->.
  destruct ok; cbn [negb].
  - apply wp_bind. unfold wp at 1. cbn [getS fst snd]. apply wp_bind. unfold wp at 1. apply wp_bind. unfold wp at 1. apply wp_ret.
    destruct dw as [[p r0]|]; cbn [ready] in R.
    + destruct R as (w1 & r1 & real & m & Hp & Hk & Hr & I & Hreal & Hm & Hno & ->). destruct owned; cbn [negb whenH own] in *.
      * by apply (inv_linked n X w1 p r1 real mem m buf).
      * apply (inv_linked n X (hev (Created KRef true buf) w1).2 p r1 real mem m buf); try done.
        pose proof (inv_new n _ w1 KRef buf true ltac:(done) I) as J. eapply inv_ext; [|exact J]. intros. rewrite !cnt_cons. lia.
    + destruct R as (I & Hm & Hno). destruct owned; cbn [negb whenH own] in *; [by apply inv_add_mem|].
      apply (inv_add_mem n X (hev (Created KRef true buf) w).2); try done. apply inv_swap. by apply (inv_new n _ w KRef buf true).
  - apply wp_bind. eapply wp_mono; [by apply record_fail|]. intros ? w1 I1. apply wp_bind. unfold wp at 1. apply wp_ret.
    by apply (inv_gone n _ w1 KMemory mem); [|left|].
Qed.

Definition dw_ok (w : hworld) (dw : option (Z * nvhal_image)) : Prop :=
  match dw with Some (p, r) => recs w !! p = Some r /\ w_kind r = WRAP_AHB | None => True end.

Lemma gbuf_get_buf B t buf b : gbuf_get B t buf = inr b -> buf <> 0.
Proof. unfold gbuf_get. destruct (Z.eqb_spec buf 0); [done|]. done. Qed.

Lemma alloc_from_spec ai dw buf owned extra n X w : dw_ok w dw -> inv n (own owned buf X) w ->
  wp (alloc_from K d ai dw buf owned extra) (fun y w' => match y with inl _ => inv n (own owned buf X) w' | inr _ => inv n X w' end) w.
Proof.
  intros D I. unfold alloc_from. apply wp_bind. unfold wp at 1, hask. cbn [fst snd].
  destruct (gbuf_get _ _ buf) as [e|b] eqn:Eg; [by apply wp_ret|]. apply gbuf_get_buf in Eg.
  destruct (_ && _); [by apply wp_ret|]. apply wp_bind. unfold wp at 1. cbn [fst snd]. destruct (i_fd_props _ _ _) as [rf bits].
  destruct (negb _); [by apply wp_ret|].
  apply wp_bind. eapply wp_mono with (Q := fun x w' => match x with inl _ => inv n (own owned buf X) w' | inr mem => ready dw n (own owned buf X) mem w' end).
  - destruct dw as [[p r]|]; [by destruct D; apply alloc_image_spec|]. unfold alloc_blob.
    destruct (negb _); [by apply wp_ret|]. destruct (negb _); [by apply wp_ret|].
    eapply wp_mono; [by apply import_dmabuf_spec|]. intros [e|mem] w1 [Q H]; [done|]. cbn. destruct H as (? & ? & ?).
    by rewrite (quiet_mems _ _ Q).
  - intros [e|mem] w1 R; [by apply wp_ret|]. by apply record_memory_spec.
Qed.

Lemma wrapper_rec w i r : wrapper w i = Some r -> recs w !! i = Some r /\ i ∈ regs w /\ i <> VK_NULL_HANDLE.
Proof.
  unfold wrapper. destruct (Z.eqb_spec i VK_NULL_HANDLE); [done|]. cbn [orb]. destruct (nvhal_no_wrappers w); [done|].
  destruct (decide _); [|done]. done.
Qed.
Lemma ded_wrapper_wrapper w l p r : ded_wrapper w l = Some (p, r) -> wrapper w p = Some r.
Proof.
  unfold ded_wrapper. intros H.
  assert (A : forall i, pair i <$> wrapper w i = Some (p, r) -> wrapper w p = Some r).
  { intros i Hi. destruct (wrapper w i) eqn:Ew; by simplify_eq/=. }
  destruct (a_ded l) as [[i ?]|]; [destruct (pair i <$> wrapper w i) as [y|] eqn:E; [injection H as ->; by eapply A|]|].
  all: destruct (a_dednv l) as [[j ?]|]; [by eapply A|done].
Qed.
Lemma ded_wrapper_rec w l p r : ded_wrapper w l = Some (p, r) -> recs w !! p = Some r.
Proof. intros H%ded_wrapper_wrapper. by apply wrapper_rec. Qed.

Lemma allocate_spec ai n w : inv n [] w -> wp (nvhal_AllocateMemory K d ai) (fun _ w' => inv n [] w') w.
Proof.
  intros I. unfold nvhal_AllocateMemory. apply wp_bind. unfold wp at 1. cbn [getS fst snd].
  destruct (_ && _ && _).
  { unfold plain_allocate. apply wp_bind. unfold wp at 1, hask. cbn [fst snd]. destruct (h_allocate K _ _) as [r mem].
    apply wp_bind. unfold wp at 1. pose proof (inv_new n [] w KMemory mem (r =? VK_SUCCESS) ltac:(done) I) as I1.
    destruct (r =? VK_SUCCESS); cbn [negb]; [|by apply wp_ret]. apply wp_bind. unfold wp at 1. cbn [getS fst snd].
    apply wp_bind. unfold wp at 1. apply wp_ret. eapply (inv_change n _ []); [| | |exact I1].
    - done.
    - intros k h _. unfold held. cbn [put_app modS snd recs ahb_mems app]. rewrite !cnt_cons, cnt_nil. lia.
    - apply wf_put_app; [apply I1|]. constructor; [by right|apply I1]. }
  destruct (_ && negb (ahb_enabled d)); [by apply wp_ret|].
  assert (D : forall p r, ded_wrapper w (a_chain ai) = Some (p, r) -> recs w !! p = Some r) by apply ded_wrapper_rec.
  set (dw := ded_wrapper w (a_chain ai)) in *. destruct (match dw with Some _ => _ | None => _ end) eqn:Ed; [by apply wp_ret|].
  assert (Dw : dw_ok w dw).
  { destruct dw as [[p r]|]; [|done]. split; [by apply D|]. apply bool_decide_eq_false in Ed. by destruct (w_kind r). }
  do 3 (destruct (_ && _); [by apply wp_ret|]). destruct (extra_chain _ _) as [extra|]; [|by apply wp_ret].
  apply wp_bind. eapply wp_mono with (Q := fun x w' => quiet w w' /\ match x with inl _ => inv n [] w' | inr (buf, owned) => inv n (own owned buf []) w' end).
  { unfold alloc_buffer. destruct (exports_ahb _); [|apply wp_ret; split; [apply hquiet_refl|done]].
    destruct dw as [[p r]|]; [|apply wp_ret; split; [apply hquiet_refl|done]].
    destruct (_ =? 0); [apply wp_ret; split; [apply hquiet_refl|done]|]. apply wp_bind. unfold wp at 1, hask. cbn [fst snd].
    destruct (h_ahb_allocate K _ _) as [rc buf]. destruct (_ || _); [apply wp_ret; split; [apply hquiet_refl|done]|].
    apply wp_bind. unfold wp at 1. apply wp_ret. split; [apply quiet_hev|]. by apply (inv_new n [] w KRef buf true). }
  intros [e|[buf owned]] w1 [Q1 I1]; [by apply wp_ret|]. apply wp_bind.
  eapply wp_mono; [apply (alloc_from_spec ai dw buf owned extra n []); [|done]|].
  { destruct dw as [[p r]|]; [|done]. cbn. by rewrite (quiet_recs _ _ Q1). }
  intros [e|mem] w2 I2; [|by apply wp_ret]. apply wp_bind. unfold wp at 1. apply wp_ret. destruct owned; cbn [whenH own] in *; [|done].
  by apply (inv_gone n [] w2 KRef buf); [|left|].
Qed.

Lemma cnt_remove_one k h x l : x ∈ l -> cnt k h l = (if decide (x = (k, h)) then 1 else 0) + cnt k h (remove_one x l).
Proof.
  induction l as [|y l IH]; intros Hx; [by apply elem_of_nil in Hx|]. cbn [remove_one]. rewrite cnt_cons.
  destruct (decide (y = x)) as [->|Hne]; [done|]. rewrite cnt_cons, IH by set_solver. lia.
Qed.
Lemma remove_one_none x l : x ∉ l -> remove_one x l = l.
Proof. induction l as [|y l IH]; intros Hx; [done|]. cbn. rewrite decide_False by set_solver. by rewrite IH by set_solver. Qed.

(** The application gives an object of its own back. *)
Lemma inv_app_gone n w k h : k = KImage \/ k = KMemory -> h = VK_NULL_HANDLE \/ (k, h) ∈ app w ->
  inv n [] w -> inv n [(k, h)] (put_app (remove_one (k, h) (app w)) w).2.
Proof.
  intros Hk H I. apply (inv_change n [] _ w); [done| |apply wf_put_app; [apply I|apply Forall_remove_one, I]|exact I]. intros k' h' Hkh.
  unfold held. cbn [put_app modS snd recs ahb_mems app]. rewrite cnt_cons, cnt_nil.
  destruct (decide ((k, h) ∈ app w)) as [Hin|Hin].
  - rewrite (cnt_remove_one k' h' _ _ Hin). lia.
  - destruct H as [->|H]; [|done]. rewrite remove_one_none, decide_False; [lia| |done]. intros [= <- <-].
    destruct Hkh as [Ha|[-> _]]; [|by destruct Hk]. by destruct Hk as [-> | ->].
Qed.

Definition unlinked (w : hworld) (h : Z) (m : ahb_mem) : hworld :=
  let w1 := (put_mems (delete h (ahb_mems w)) w).2 in
  match recs w !! m_image m with
  | Some r => if m_image m =? 0 then w1 else (put_rec (m_image m) (bound r (w_real r) VK_NULL_HANDLE (w_modifier r)) w1).2
  | None => w1
  end.

Lemma inv_unlinked n w h m : ahb_mems w !! h = Some m -> inv n [] w -> inv n [(KMemory, h); (KRef, m_buffer m)] (unlinked w h m).
Proof.
  intros Hm I. destruct (iv_wf _ _ _ I) as [W1 W2 W3 W4 W5 W6]. destruct (W4 h m Hm) as [M1 M2 M3].
  assert (Hlink : forall q x, recs w !! q = Some x -> w_kind x = WRAP_AHB -> w_memory x = h -> q = m_image m).
  { intros q x Hq Hk Hh. destruct (W3 q x Hq) as [A1 A2 A3]. destruct (A3 Hk ltac:(congruence)) as (m' & Hm' & <-). congruence. }
  assert (Hsame : forall q x, recs w !! q = Some x -> q <> m_image m -> rec_ok (put_mems (delete h (ahb_mems w)) w).2 q x).
  { intros q x Hq Hne. destruct (W3 q x Hq) as [A1 A2 A3]. split; cbn; [done|done|]. intros Hk Hh.
    destruct (A3 Hk Hh) as (m' & Hm' & Hi). exists m'. rewrite lookup_delete_ne; [done|]. intros E. apply Hne. by apply (Hlink q x). }
  unfold unlinked. destruct (Z.eqb_spec (m_image m) 0) as [E0|E0].
  - destruct (recs w !! m_image m) as [r|] eqn:Er; [by destruct (W3 _ _ Er)|]. eapply (inv_change n [] _ w); [done| | |exact I].
    + intros k h' _. unfold held. cbn [put_mems modS snd recs ahb_mems app]. rewrite (total_delete _ _ _ _ Hm). unfold mem_res. rewrite cnt_nil. lia.
    + split; cbn [put_mems modS snd recs regs wrapper_count ahb_mems faults]; try done.
      * intros q x Hq. apply Hsame; [done|]. intros ->. by rewrite Er in Hq.
      * intros h' m' [Hne Hh]%lookup_delete_Some. by destruct (W4 h' m' Hh).
  - destruct (M3 E0) as (r & Hr & Hk & Hh). rewrite Hr. eapply (inv_change n [] _ w); [done| | |exact I].
    + intros k h' _. unfold held. cbn [put_rec put_mems modS snd recs ahb_mems app].
      rewrite (total_delete _ _ _ _ Hm), (total_insert _ _ _ _ _ Hr). unfold rec_res, mem_res, bound. cbn [w_kind w_real w_memory].
      rewrite Hk, !(decide_False (P := WRAP_AHB = _)) by done. rewrite cnt_nil. lia.
    + split; cbn [put_rec put_mems modS snd recs regs wrapper_count ahb_mems faults]; try done.
      * rewrite dom_insert_L, W1. assert (m_image m ∈ regs w) by (rewrite <- W1; by eapply elem_of_dom_2). set_solver.
      * intros q x [[<- <-]|[Hne Hq]]%lookup_insert_Some; [by split|]. by destruct (Hsame q x Hq ltac:(done)).
      * intros h' m' [Hne Hh']%lookup_delete_Some. destruct (W4 h' m' Hh') as [N1 N2 N3]. split; cbn; try done. intros Hi.
        destruct (N3 Hi) as (x & Hx & Hkx & Hmx). exists x. rewrite lookup_insert_ne; [done|]. intros E. congruence.
Qed.

Lemma hfree_spec h n w : h = VK_NULL_HANDLE \/ is_Some (ahb_mems w !! h) \/ (KMemory, h) ∈ app w -> inv n [] w ->
  wp (nvhal_FreeMemory h) (fun _ w' => inv n [] w') w.
Proof.
  intros Hh I. unfold nvhal_FreeMemory. apply wp_bind. unfold wp at 1. cbn [getS fst snd].
  apply wp_bind. unfold wp at 1. apply wp_bind. unfold wp at 1.
  destruct (if h =? VK_NULL_HANDLE then None else ahb_mems w !! h) as [m|] eqn:Em.
  - destruct (Z.eqb_spec h VK_NULL_HANDLE) as [|Hne]; [done|]. pose proof (inv_unlinked n w h m Em I) as J.
    apply wp_bind. eapply wp_mono with (Q := fun _ w' => w' = (hev (Destroyed KMemory h) (unlinked w h m)).2).
    + unfold unlinked. destruct (iv_wf _ _ _ I) as [_ _ W3 W4 _ _]. destruct (W4 h m Em) as [M1 M2 M3].
      destruct (Z.eqb_spec (m_image m) 0) as [E0|E0].
      * apply wp_ret. destruct (recs w !! m_image m) as [r|]; done.
      * destruct (M3 E0) as (r & Hr & _). rewrite Hr. done.
    + intros ? ? ->. unfold wp. apply (inv_gone n [] _ KRef (m_buffer m)); [done|by left|].
      by apply (inv_gone n _ _ KMemory h); [|left|].
  - assert (Hm : (if h =? VK_NULL_HANDLE then ahb_mems w else delete h (ahb_mems w)) = ahb_mems w).
    { destruct (h =? VK_NULL_HANDLE); [done|]. by apply delete_id. }
    rewrite Hm. unfold wp. assert (E : (put_mems (ahb_mems w) w).2 = w) by (by destruct w). rewrite E.
    apply (inv_gone n [] (put_app (remove_one (KMemory, h) (app w)) w).2 KMemory h); [done|by left|].
    apply inv_app_gone; [by right| |done]. destruct Hh as [?|[[m Hx]|?]]; [by left| |by right].
    destruct (Z.eqb_spec h VK_NULL_HANDLE); [by left|]. by rewrite Hx in Em.
Qed.

Lemma get_buffer_spec h n w : inv n [] w -> wp (nvhal_GetMemoryAndroidHardwareBufferANDROID d h) (fun _ w' => inv n [] w') w.
Proof.
  intros I. unfold nvhal_GetMemoryAndroidHardwareBufferANDROID. destruct (negb _); [by apply wp_ret|].
  apply wp_bind. unfold wp at 1. cbn [getS fst snd]. destruct (ahb_mems w !! h) as [m|]; [|by apply wp_ret].
  apply wp_bind. unfold wp at 1. apply wp_bind. unfold wp at 1. apply wp_ret.
  apply (inv_gone n [] _ KRef (m_buffer m)); [done|by right|]. by apply (inv_new n [] w KRef (m_buffer m) true).
Qed.

(** *** Creation and destruction *)

Lemma fresh_record n X w p : inv n X w -> p <> 0 -> balance KHeap p (htr w) = 0 -> recs w !! p = None.
Proof.
  intros [A _] Hp Hb. destruct (recs w !! p) as [r|] eqn:E; [|done]. exfalso.
  unfold htr in Hb. rewrite (ai_bal _ _ _ _ A KHeap p Hp), cnt_app, cnt_holdings in Hb. unfold held in Hb.
  pose proof (total_nonneg (fun q m => cnt KHeap p (mem_res q m)) (ahb_mems w) ltac:(intros; apply cnt_nonneg)).
  pose proof (total_ge (fun q r => cnt KHeap p (rec_res q r)) (recs w) p r ltac:(intros; apply cnt_nonneg) E) as G.
  unfold rec_res in G at 1. rewrite cnt_cons, decide_True in G by done.
  match type of G with context [cnt KHeap p ?l] => pose proof (cnt_nonneg KHeap p l) end.
  pose proof (cnt_nonneg KHeap p (tables (aw w))). pose proof (cnt_nonneg KHeap p X). pose proof (cnt_nonneg KHeap p (app w)). lia.
Qed.

Definition new_rec (r : nvhal_image) : Prop := w_real r = VK_NULL_HANDLE /\ w_memory r = VK_NULL_HANDLE.

Lemma inv_registered n w p r : p <> 0 -> recs w !! p = None -> new_rec r ->
  inv n [(KHeap, p)] w -> inv n [] (register p (put_rec p r w).2).2.
Proof.
  intros Hp Hno [Hr Hm] I. eapply (inv_change n _ [] w); [done| | |exact I].
  - intros k h Hk. unfold held. cbn [register put_rec modS snd recs ahb_mems app]. rewrite total_insert_new by done.
    unfold rec_res. rewrite Hr, Hm, !cnt_cons, !cnt_nil.
    assert (Z0 : cnt k h (if decide (w_kind r = WRAP_SWAPCHAIN) then [(KMemory, VK_NULL_HANDLE)] else []) = 0).
    { case_decide; [|done]. rewrite cnt_cons, decide_False; [done|]. intros [= <- <-]. by destruct Hk as [?|[? ?]]. }
    rewrite Z0, (decide_False (P := (KImage, VK_NULL_HANDLE) = (k, h))); [lia|]. intros [= <- <-]. by destruct Hk as [?|[? ?]].
  - destruct (iv_wf _ _ _ I) as [W1 W2 W3 W4 W5 W6]. split; cbn [register put_rec modS snd recs regs wrapper_count ahb_mems faults]; try done.
    + rewrite dom_insert_L, W1. done.
    + rewrite size_union, size_singleton, W2; [lia|]. apply disjoint_singleton_l. rewrite <- W1. by apply not_elem_of_dom.
    + intros q x [[<- <-]|[Hne Hq]]%lookup_insert_Some; [split; [done|done|congruence]|]. by destruct (W3 q x Hq).
    + intros h m Hh. destruct (W4 h m Hh) as [M1 M2 M3]. split; cbn; try done. intros Hi. destruct (M3 Hi) as (x & Hx & Hkx & Hmx).
      exists x. rewrite lookup_insert_ne; [done|]. intros E. by rewrite <- E, Hno in Hx.
Qed.

Lemma add_wrapper_spec p x n w : p <> 0 -> recs w !! p = None -> (forall r, x = inr r -> new_rec r) ->
  inv n [(KHeap, p)] w -> wp (add_wrapper K p x) (fun _ w' => inv n [] w') w.
Proof.
  intros Hp Hno Hx I. unfold add_wrapper. destruct x as [e|r].
  - apply wp_bind. unfold wp at 1. apply wp_ret. by apply (inv_gone n [] w KHeap p); [|left|].
  - apply wp_bind. unfold wp at 1. apply wp_bind. unfold wp at 1, hask. cbn [fst snd]. destruct (h_hash_put K _ _); cbn [negb].
    + apply wp_bind. unfold wp at 1. apply wp_ret. apply inv_registered; auto.
    + apply wp_bind. unfold wp at 1. apply wp_ret. unfold wrapper_free. rewrite bind_run.
      assert (E : forall w0, recs w0 !! p = None -> (put_rec p r w0).2 = mk_hw (<[p := r]> (recs w0)) (regs w0) (wrapper_count w0) (ahb_mems w0) (app w0) (faults w0) (aw w0)) by done.
      assert (F : (modS (fun w => mk_hw (delete p (recs w)) (regs w) (wrapper_count w) (ahb_mems w) (app w) (faults w) (aw w))
        (hev (Destroyed KHeap p) (put_rec p r w).2).2).2 = (hev (Destroyed KHeap p) w).2).
      { unfold hev, liftA, modS, put_rec, set_aw. cbn. by rewrite delete_insert_id. }
      rewrite F. by apply (inv_gone n [] w KHeap p); [|left|].
Qed.

Lemma parse_new t ci r : parse_ci K t ci = inr r -> new_rec r.
Proof. unfold parse_ci. intros H. repeat (case_match; try discriminate H); by injection H as <-. Qed.
Lemma sc_parse_new t ci sc r : sc_parse K t ci sc = inr r -> new_rec r.
Proof. unfold sc_parse. intros H. repeat (case_match; try discriminate H); by injection H as <-. Qed.

Lemma heap_new n w : inv n [] w -> h_new K (htr w) <> 0 ->
  inv n [(KHeap, h_new K (htr w))] (hev (Created KHeap true (h_new K (htr w))) w).2 /\ recs w !! h_new K (htr w) = None.
Proof.
  intros I Hp. split; [by apply (inv_new n [] w KHeap _ true)|]. eapply fresh_record; [exact I|done|by apply hl_new].
Qed.

Lemma ahb_create_spec ci n w : inv n [] w -> wp (nvhal_ahb_CreateImage K d ci) (fun _ w' => inv n [] w') w.
Proof.
  intros I. unfold nvhal_ahb_CreateImage. do 3 (destruct (_ : bool); [by apply wp_ret|]).
  apply wp_bind. unfold wp at 1, hask. cbn [fst snd]. destruct (Z.eqb_spec (h_new K (htr w)) 0) as [|Hp]; [by apply wp_ret|].
  destruct (heap_new n w I Hp) as [I1 Hno]. apply wp_bind. unfold wp at 1. apply wp_bind. unfold wp at 1. cbn [fst snd].
  apply wp_bind. eapply wp_mono; [apply add_wrapper_spec; [done|done|by intros r H; eapply parse_new|done]|]. intros ? w' I'. by apply wp_ret.
Qed.

Lemma sc_create_spec ci sc n w : inv n [] w -> wp (nvhal_sc_CreateImage K d ci sc) (fun _ w' => inv n [] w') w.
Proof.
  intros I. unfold nvhal_sc_CreateImage. do 2 (destruct (_ : bool); [by apply wp_ret|]).
  apply wp_bind. unfold wp at 1, hask. cbn [fst snd]. destruct (Z.eqb_spec (h_new K (htr w)) 0) as [|Hp]; [by apply wp_ret|].
  destruct (heap_new n w I Hp) as [I1 Hno]. apply wp_bind. unfold wp at 1. apply wp_bind. unfold wp at 1. cbn [fst snd].
  apply add_wrapper_spec; [done|done|by intros r H; eapply sc_parse_new|done].
Qed.

(** The tables without the record [p]. *)
Definition removed (w : hworld) (p : Z) (mems : gmap Z ahb_mem) : hworld :=
  mk_hw (delete p (recs w)) (regs w ∖ {[p]}) (wrapper_count w - 1) mems (app w) (faults w) (aw w).

Lemma inv_removed n w p r mems : recs w !! p = Some r -> inv n [] w ->
  (mems = ahb_mems w /\ (w_kind r = WRAP_AHB -> w_memory r = VK_NULL_HANDLE) \/
   w_kind r = WRAP_AHB /\ exists m, ahb_mems w !! w_memory r = Some m /\ m_image m = p /\ mems = <[w_memory r := with_mem m 0]> (ahb_mems w)) ->
  inv n (rec_res p r) (removed w p mems).
Proof.
  intros Hp I Hm. destruct (iv_wf _ _ _ I) as [W1 W2 W3 W4 W5 W6]. destruct (W3 p r Hp) as [R1 R2 R3].
  assert (Hreg : p ∈ regs w) by (rewrite <- W1; by eapply elem_of_dom_2).
  eapply (inv_change n [] _ w); [done| | |exact I].
  - intros k h _. unfold held. cbn [removed recs ahb_mems app]. rewrite (total_delete _ _ _ _ Hp), cnt_nil.
    assert (E : total (fun p m => cnt k h (mem_res p m)) mems = total (fun p m => cnt k h (mem_res p m)) (ahb_mems w)).
    { destruct Hm as [[-> _]|(_ & m & Hm & _ & ->)]; [done|]. rewrite (total_insert _ _ _ _ _ Hm). unfold mem_res. cbn. lia. }
    rewrite E. lia.
  - assert (Hmem : forall h m', mems !! h = Some m' -> m_image m' <> p /\ exists m, ahb_mems w !! h = Some m /\ m_buffer m' = m_buffer m /\ (m_image m' = 0 \/ m_image m' = m_image m)).
    { intros h m' Hh. destruct Hm as [[-> Hnull]|(Hk & m & Hmm & Hi & ->)].
      - split; [|by exists m'; eauto]. intros Hi. destruct (W4 h m' Hh) as [M1 _ M3]. destruct M3 as (x & Hx & Hkx & Hmx); [congruence|].
        rewrite Hi, Hp in Hx. injection Hx as <-. rewrite (Hnull Hkx) in Hmx. congruence.
      - apply lookup_insert_Some in Hh as [[<- <-]|[Hne Hh]].
        + split; [cbn; congruence|]. exists m. cbn. auto.
        + split; [|by exists m'; eauto]. intros Hi'. destruct (W4 h m' Hh) as [_ _ M3]. destruct M3 as (x & Hx & _ & Hmx); [congruence|].
          rewrite Hi', Hp in Hx. injection Hx as <-. congruence. }
    split; cbn [removed recs regs wrapper_count ahb_mems faults].
    + rewrite dom_delete_L. by rewrite W1.
    + rewrite size_difference by set_solver. rewrite size_singleton, W2.
      assert (size (regs w) <> 0)%nat by (intros E; apply size_empty_inv in E; set_solver). lia.
    + intros q x [Hne Hq]%lookup_delete_Some. destruct (W3 q x Hq) as [A1 A2 A3]. split; cbn; try done. intros Hk Hh.
      destruct (A3 Hk Hh) as (m' & Hm' & Hi). destruct Hm as [[-> _]|(_ & m & Hmm & Hi' & ->)]; [by exists m'|].
      exists m'. rewrite lookup_insert_ne; [done|]. intros E. rewrite <- E in Hm'. congruence.
    + intros h m' Hh. destruct (Hmem h m' Hh) as (Hne & m & Hmm & Hb & Hi). destruct (W4 h m Hmm) as [M1 M2 M3].
      split; cbn; [done|congruence|]. intros Hz. destruct Hi as [?|Hi]; [done|]. rewrite Hi in *. destruct (M3 Hz) as (x & Hx & ?).
      exists x. by rewrite lookup_delete_ne.
    + done.
    + done.
Qed.

Lemma no_wrappers_empty w : wf w -> nvhal_no_wrappers w = true <-> regs w = ∅.
Proof.
  intros [_ W _ _ _ _]. unfold nvhal_no_wrappers. rewrite Z.eqb_eq, W. split; [|intros ->; by rewrite size_empty].
  intros H. apply leibniz_equiv, size_empty_inv. lia.
Qed.
(** With the count right, the lookup is the table's. *)
Lemma wrapper_lookup w i : wf w -> wrapper w i = recs w !! i.
Proof.
  intros W. unfold wrapper. destruct (Z.eqb_spec i VK_NULL_HANDLE) as [->|]; cbn [orb].
  - destruct (recs w !! VK_NULL_HANDLE) as [r|] eqn:E; [by destruct (wf_recs w W _ _ E)|done].
  - destruct (nvhal_no_wrappers w) eqn:E.
    + apply no_wrappers_empty in E; [|done]. symmetry. apply not_elem_of_dom. rewrite (wf_regs w W), E. set_solver.
    + destruct (decide (i ∈ regs w)) as [|Hn]; [done|]. symmetry. apply not_elem_of_dom. by rewrite (wf_regs w W).
Qed.

Lemma ahb_destroy_spec image n w : inv n [] w ->
  wp (nvhal_ahb_DestroyImage image) (fun done w' => inv n [] w' /\ (done = false -> w' = w /\ wrapper w image = None)) w.
Proof.
  intros I. unfold nvhal_ahb_DestroyImage. apply wp_bind. unfold wp at 1. cbn [getS fst snd].
  destruct (_ || _) eqn:E.
  { apply wp_ret. split; [done|]. intros _. split; [done|]. rewrite wrapper_lookup by apply I. apply not_elem_of_dom.
    destruct (iv_wf _ _ _ I) as [W1 W2 W3 W4 W5 W6]. rewrite W1. intros Hin. apply orb_true_iff in E as [E|E]; [apply orb_true_iff in E as [E|E]|].
    - apply Z.eqb_eq in E as ->. rewrite <- W1 in Hin. apply elem_of_dom in Hin as [r Hr]. by destruct (W3 _ _ Hr).
    - apply no_wrappers_empty in E; [|apply I]. rewrite E in Hin. set_solver.
    - bool_props. done. }
  bool_props. assert (Hin : image ∈ regs w) by done.
  assert (Hreg : image ∈ dom (recs w)) by (by rewrite (wf_regs _ (iv_wf _ _ _ I))). apply elem_of_dom in Hreg as [r Hr].
  apply wp_bind. unfold wp at 1. rewrite Hr. destruct (wf_recs _ (iv_wf _ _ _ I) image r Hr) as [R1 R2 R3].
  apply wp_bind. eapply wp_mono with (Q := fun _ w1 => exists mems, w1 = mk_hw (recs w) (regs w ∖ {[image]}) (wrapper_count w - 1) mems (app w) (faults w) (aw w) /\
      inv n (rec_res image r) (removed w image mems)).
  { destruct (bool_decide (w_kind r = WRAP_AHB)) eqn:Ek; cbn [andb].
    - apply bool_decide_eq_true in Ek. destruct (Z.eqb_spec (w_memory r) VK_NULL_HANDLE) as [Em|Em]; cbn [negb].
      + apply wp_ret. exists (ahb_mems w). split; [done|]. eapply inv_removed; [done|done|]. by left.
      + destruct (R3 Ek Em) as (m & Hm & Hi). rewrite Hm, Hi, Z.eqb_refl. eexists. split; [done|].
        eapply inv_removed; [done|done|]. right. split; [done|]. by exists m.
    - apply bool_decide_eq_false in Ek. apply wp_ret. exists (ahb_mems w). split; [done|]. eapply inv_removed; [done|done|]. by left. }
  intros ? w1 (mems & -> & J). apply wp_bind. unfold wp at 1. apply wp_bind. unfold wp at 1. apply wp_bind. unfold wp at 1. apply wp_ret.
  split; [|done]. unfold rec_res in J. apply inv_swap in J. apply (inv_when_gone n _ _ KImage (w_real r)) in J; [|by left].
  set (w2 := (whenH _ _ (removed w image mems)).2) in J.
  assert (J2 : inv n [(KHeap, image)] (whenH (bool_decide (w_kind r = WRAP_SWAPCHAIN) && negb (w_memory r =? VK_NULL_HANDLE)) (hev (Destroyed KMemory (w_memory r))) w2).2).
  { destruct (decide (w_kind r = WRAP_SWAPCHAIN)) as [Ek|Ek].
    - rewrite bool_decide_true by done. cbn [andb]. apply inv_when_gone; [by right|]. eapply inv_ext; [|exact J]. intros. rewrite !cnt_cons. lia.
    - rewrite bool_decide_false by done. cbn [andb whenH]. done. }
  pose proof (inv_gone n [] _ KHeap image (Destroyed KHeap image) ltac:(done) ltac:(by left) J2) as J3. subst w2. clear J J2. unfold wrapper_free. rewrite bind_run.
  destruct (negb (w_real r =? VK_NULL_HANDLE)), (bool_decide (w_kind r = WRAP_SWAPCHAIN) && negb (w_memory r =? VK_NULL_HANDLE)); exact J3.
Qed.

Lemma sc_bind_spec image nb n w : inv n [] w -> wp (nvhal_sc_bind K d image nb) (fun _ w' => inv n [] w') w.
Proof.
  intros I. unfold nvhal_sc_bind. apply wp_bind. unfold wp at 1. cbn [getS fst snd].
  destruct (wrapper w image) as [r|] eqn:Ew; [|by apply wp_ret]. apply wrapper_rec in Ew as (Hp & _ & Hz).
  destruct (bool_decide (w_kind r = WRAP_SWAPCHAIN)) eqn:Ek; cbn [negb]; [|by apply wp_ret]. apply bool_decide_eq_true in Ek.
  destruct (Z.eqb_spec (w_real r) VK_NULL_HANDLE) as [Er|]; cbn [negb]; [|by apply wp_ret].
  set (f := nvhal_anb_import _ _ _ _).
  pose proof (inv_lift n n [] (fun x => match x with inl _ => [] | inr (img, mem) => [(KImage, img); (KMemory, mem)] end) f w) as L.
  apply wp_bind. unfold wp at 1. destruct L as [J [a' Ea]]; [|done|].
  { intros A. eapply wp_mono; [apply anb_import_spec; exact A|]. intros [e|[img mem]] w' P; exact P. }
  assert (Himg : forall img mem, (liftA f w).1 = inr (img, mem) -> img <> VK_NULL_HANDLE).
  { intros img mem E. apply import_image in E as (t & i & E). by eapply hl_anb_image. }
  destruct (liftA f w) as [[e|[img mem]] w1]; cbn [fst snd] in *; [by apply wp_ret|]. specialize (Himg img mem eq_refl).
  apply wp_bind. eapply wp_mono; [by apply replay_spec|]. intros ? w2 [I2 Q2]. apply wp_bind. unfold wp at 1. apply wp_ret.
  destruct (wf_recs _ (iv_wf _ _ _ I) image r Hp) as [R1 R2 R3].
  assert (Hp2 : recs w2 !! image = Some r) by (rewrite (quiet_recs _ _ Q2); by subst w1).
  eapply (inv_put_rec n _ [] w2 image r); [exact Hp2| | | |exact I2].
  - split; cbn; [done|done|]. intros E. by rewrite Ek in E.
  - intros h m Hh Hi. destruct (wf_mems _ (iv_wf _ _ _ I2) h m Hh) as [_ _ M]. destruct M as (x & Hx & Hkx & _); [congruence|].
    rewrite Hi, Hp2 in Hx. injection Hx as <-. by rewrite Ek in Hkx.
  - intros k h Hk. unfold rec_res. cbn [bound w_kind w_real w_memory]. rewrite Ek, !decide_True, Er, (R2 Er) by done.
    rewrite !cnt_cons, !cnt_nil. rewrite (decide_False (P := (KImage, VK_NULL_HANDLE) = (k, h))), (decide_False (P := (KMemory, VK_NULL_HANDLE) = (k, h))); [lia| |];
      intros [= <- <-]; by destruct Hk as [?|[? ?]].
Qed.

(** *** Dispatch *)

Lemma plain_create_spec ci n w : inv n [] w -> wp (plain_create K ci) (fun _ w' => inv n [] w') w.
Proof.
  intros I. unfold plain_create. apply wp_bind. eapply wp_mono; [by apply icd_create_spec|]. intros [r img] w1 (I1 & _ & _). cbn [fst snd] in *.
  destruct (r =? VK_SUCCESS); cbn [negb]; [|by apply wp_ret]. apply wp_bind. unfold wp at 1. cbn [getS fst snd].
  apply wp_bind. unfold wp at 1. apply wp_ret. eapply (inv_change n _ []); [| | |exact I1].
  - done.
  - intros k h _. unfold held. cbn [put_app modS snd recs ahb_mems app]. rewrite !cnt_cons, cnt_nil. lia.
  - apply wf_put_app; [apply I1|]. constructor; [by left|apply I1].
Qed.

Lemma create_spec fuel ci n w : inv n [] w -> wp (nvhal_CreateImage K d fuel ci) (fun _ w' => inv (S n) [] w') w.
Proof.
  intros I. assert (M : forall A (m : M hworld A), wp m (fun _ w' => inv n [] w') w -> wp m (fun _ w' => inv (S n) [] w') w).
  { intros A m H. eapply wp_mono; [exact H|]. intros ? w' I'. apply (inv_more n); [lia|done]. }
  revert ci. induction fuel as [|fuel IH]; intros ci; cbn [nvhal_CreateImage]; destruct (ci_native ci) as [nb|].
  1,3: destruct (negb _); [by apply M, wp_ret|];
    pose proof (inv_lift n (S n) [] (fun _ => []) (anb_create_image (h_anb K) (d_anb d) (anb_ci ci (to_chained <$> c_chain ci)) nb) w
      (fun A => anb_create_spec (h_anb K) (d_anb d) _ nb n _ _ A) I) as L;
    eapply wp_mono; [exact L|]; intros ? w' [I' _]; exact I'.
  - destruct (ci_swapchain ci) as [sc|]; [destruct (negb _); [by apply M, sc_create_spec|by apply M, wp_ret]|].
    apply M, wp_bind. eapply wp_mono; [by apply ahb_create_spec|]. intros [r|] w1 I1; [by apply wp_ret|by apply plain_create_spec].
  - destruct (ci_swapchain ci) as [sc|]; [destruct (negb _); [by apply M, sc_create_spec|by apply IH]|].
    apply M, wp_bind. eapply wp_mono; [by apply ahb_create_spec|]. intros [r|] w1 I1; [by apply wp_ret|by apply plain_create_spec].
Qed.

(** What the application may destroy. *)
Definition has_image (w : hworld) (image : Z) : Prop :=
  image = VK_NULL_HANDLE \/ image ∈ regs w \/ image ∈ fst <$> anb_images (aw w) \/ (KImage, image) ∈ app w.
Definition has_memory (w : hworld) (h : Z) : Prop := h = VK_NULL_HANDLE \/ is_Some (ahb_mems w !! h) \/ (KMemory, h) ∈ app w.

Lemma destroy_plain img a : img ∉ fst <$> anb_images a -> (anb_destroy_image img a).2 = (aev (Destroyed KImage img) a).2.
Proof.
  intros H. unfold anb_destroy_image. rewrite bind_run. cbn [getS fst snd]. rewrite bind_run.
  assert (E : (if negb (img =? VK_NULL_HANDLE) && negb (bool_decide (anb_images a = [])) then anb_untrack img else (mret VK_NULL_HANDLE : M aworld Z)) a = (VK_NULL_HANDLE, a)).
  { destruct (_ && _); [|done]. unfold anb_untrack. rewrite bind_run. cbn [getS fst snd].
    destruct (list_find _ _) as [[i [x m]]|] eqn:Ef; [|done]. exfalso. apply list_find_Some in Ef as (Hi & Hx & _). cbn in Hx. subst x.
    apply H. apply list_elem_of_fmap. exists (img, m). split; [done|]. by eapply list_elem_of_lookup_2. }
  rewrite E. cbn [fst snd]. rewrite bind_run. done.
Qed.

Lemma destroy_spec image n w : has_image w image -> inv n [] w -> wp (nvhal_DestroyImage image) (fun _ w' => inv n [] w') w.
Proof.
  intros Hi I. unfold nvhal_DestroyImage. apply wp_bind. eapply wp_mono; [by apply ahb_destroy_spec|].
  intros [] w1 [I1 Hf]; [by apply wp_ret|]. destruct (Hf eq_refl) as [-> Hw]. apply wp_bind. unfold wp at 1. cbn [getS fst snd].
  apply wp_bind. destruct (decide (image ∈ fst <$> anb_images (aw w))) as [Ha|Ha].
  - rewrite bool_decide_true by done. apply list_elem_of_fmap in Ha as ([x m] & Hx & Hm). cbn in Hx. subst x.
    pose proof (inv_lift n n [] (fun _ => []) (anb_destroy_image image) w
      (fun A => anb_destroy_spec (h_anb K) n _ image _ A (ex_intro _ m Hm)) I) as L.
    eapply wp_mono; [exact L|]. intros ? w' [I' [a' ->]]. exact I'.
  - rewrite bool_decide_false by done. unfold wp at 1, liftA. cbn [fst snd]. rewrite (destroy_plain image (aw w) Ha).
    unfold wp. apply (inv_gone n [] (put_app (remove_one (KImage, image) (app w)) w).2 KImage image); [done|by left|].
    apply inv_app_gone; [by left| |done]. destruct Hi as [?|[Hr|[?|?]]]; [by left| |done|by right].
    rewrite wrapper_lookup in Hw by apply I. apply not_elem_of_dom in Hw. by rewrite (wf_regs _ (iv_wf _ _ _ I)) in Hw.
Qed.

(** *** Binds, probes and object state *)

Lemma forward_spec name l n w : not_fence (Called name []) = true -> inv n [] w -> wp (forward_binds K name l) (fun _ w' => inv n [] w') w.
Proof.
  intros Hn I. unfold forward_binds. apply wp_bind. unfold wp at 1, hask. cbn [fst snd]. apply wp_bind. unfold wp at 1. apply wp_ret.
  by apply inv_call.
Qed.
Lemma bind_spec image mem off n w : inv n [] w -> wp (nvhal_BindImageMemory K image mem off) (fun _ w' => inv n [] w') w.
Proof.
  intros I. unfold nvhal_BindImageMemory. apply wp_bind. unfold wp at 1. cbn [getS fst snd].
  destruct (nvhal_ahb_translate_binds _ _ _ _) as [r|l]; [by apply wp_ret|by apply forward_spec].
Qed.
Lemma sc_binds_spec l r n w : inv n [] w -> wp (sc_binds K d l r) (fun _ w' => inv n [] w') w.
Proof.
  revert r w. induction l as [|b l IH]; intros r w I; cbn [sc_binds]; [by apply wp_ret|].
  apply wp_bind. unfold wp at 1. cbn [getS fst snd]. destruct (negb _); [by apply IH|].
  apply wp_bind. eapply wp_mono; [by apply sc_bind_spec|]. intros ri w1 I1. apply wp_bind. unfold wp at 1.
  apply IH. destruct (existsb _ _); cbn [whenH]; [by apply inv_call|done].
Qed.
Lemma bind2_spec l n w : inv n [] w -> wp (bind2 K d l) (fun _ w' => inv n [] w') w.
Proof.
  intros I. unfold bind2. apply wp_bind. unfold wp at 1. cbn [getS fst snd]. destruct (negb _); [by apply wp_ret|].
  apply wp_bind. eapply wp_mono; [by apply sc_binds_spec|]. intros r w1 I1. do 3 (destruct (_ : bool); [by apply wp_ret|]).
  apply wp_bind. unfold wp at 1. cbn [getS fst snd]. destruct (nvhal_ahb_translate_binds _ _ _ _) as [e|l']; [by apply wp_ret|by apply forward_spec].
Qed.

Lemma probe_spec c n w : inv n [] w -> wp (probe K c) (fun _ w' => inv n [] w') w.
Proof.
  intros I. unfold probe. apply wp_bind. eapply wp_mono; [by apply icd_create_spec|]. intros [r img] w1 (I1 & _ & _). cbn [fst snd] in *.
  destruct (r =? VK_SUCCESS); cbn [negb]; [|by apply wp_ret]. apply wp_bind. unfold wp at 1, hask. cbn [fst snd].
  apply wp_bind. unfold wp at 1. apply wp_ret. by apply (inv_gone n [] w1 KImage img); [|left|].
Qed.
Lemma probe_requirements_spec r n w : inv n [] w -> wp (probe_requirements K r) (fun _ w' => inv n [] w') w.
Proof.
  intros I. unfold probe_requirements. destruct (gralloc_modifiers _ _ _ _) as [|m ms]; [by apply wp_ret|].
  apply wp_bind. unfold wp at 1. rewrite effective_usage_world. destruct (_ : Z * icd_ci) as [? c]. by apply probe_spec.
Qed.
Lemma requirements_spec image n w : inv n [] w -> wp (nvhal_ahb_image_requirements K image) (fun _ w' => inv n [] w') w.
Proof.
  intros I. unfold nvhal_ahb_image_requirements. apply wp_bind. unfold wp at 1. cbn [getS fst snd].
  destruct (wrapper w image) as [r|]; [|by apply wp_ret]. destruct (bool_decide _); [by apply probe_spec|by apply probe_requirements_spec].
Qed.
Lemma ci_requirements_spec ci n w : inv n [] w -> wp (nvhal_ahb_ci_requirements K ci) (fun _ w' => inv n [] w') w.
Proof.
  intros I. unfold nvhal_ahb_ci_requirements. apply wp_bind. unfold wp at 1, hask. cbn [fst snd].
  destruct (parse_ci K _ ci) as [e|r]; [by apply wp_ret|by apply probe_requirements_spec].
Qed.

Lemma put_state_spec (f : nvhal_image -> nvhal_image) h n w :
  (forall r, w_kind (f r) = w_kind r /\ w_real (f r) = w_real r /\ w_memory (f r) = w_memory r) -> inv n [] w ->
  wp (match wrapper w h with None => mret false | Some r => _ ← put_rec h (f r); mret true end) (fun _ w' => inv n [] w') w.
Proof.
  intros Hf I. destruct (wrapper w h) as [r|] eqn:E; [|by apply wp_ret]. apply wrapper_rec in E as (Hp & _).
  apply wp_bind. unfold wp at 1. apply wp_ret. destruct (Hf r) as (? & ? & ?). by eapply inv_put_state.
Qed.
Lemma icd_set_private_spec i slot data n w : inv n [] w -> wp (icd_set_private K i slot data) (fun _ w' => inv n [] w') w.
Proof. intros I. unfold icd_set_private. apply wp_bind. unfold wp at 1, hask. apply wp_bind. unfold wp at 1. apply wp_ret. by apply inv_call. Qed.
Lemma set_pd_spec h slot data n w : inv n [] w -> wp (set_pd K h slot data) (fun _ w' => inv n [] w') w.
Proof.
  intros I. unfold set_pd. apply wp_bind. unfold wp at 1. cbn [getS fst snd].
  destruct (_ || _); [by apply icd_set_private_spec|].
  apply wp_bind. eapply wp_mono with (Q := fun _ w' => inv n [] w').
  { unfold nvhal_ahb_set_private_data. apply wp_bind. unfold wp at 1. cbn [getS fst snd].
    by apply (put_state_spec (fun r => with_pd r (set_pd_list (h_malloc K (htr w) "private data") (w_pd r) slot data))). }
  intros ? w1 I1. destruct (nvhal_image_xl w h) as [real hit]. destruct (_ =? _); [by apply wp_ret|by apply icd_set_private_spec].
Qed.
Lemma object_name_spec h name n w : inv n [] w -> wp (nvhal_ahb_set_object_name K h name) (fun _ w' => inv n [] w') w.
Proof.
  intros I. unfold nvhal_ahb_set_object_name. apply wp_bind. unfold wp at 1. cbn [getS fst snd].
  by apply (put_state_spec (fun r => with_name r (if h_malloc K (htr w) "name" then name else None))).
Qed.
Lemma utils_name_spec h name n w : inv n [] w -> wp (xl_SetDebugUtilsObjectNameEXT K h name) (fun _ w' => inv n [] w') w.
Proof.
  intros I. unfold xl_SetDebugUtilsObjectNameEXT. apply wp_bind. unfold wp at 1. cbn [getS fst snd].
  destruct (_ || _); [by apply inv_call|]. apply wp_bind. eapply wp_mono; [by apply object_name_spec|]. intros ? w1 I1.
  destruct (nvhal_image_xl w h) as [real hit]. destruct (negb _); cbn [whenH]; [by apply inv_call|by apply wp_ret].
Qed.
Lemma marker_name_spec h name n w : inv n [] w -> wp (xl_DebugMarkerSetObjectNameEXT K h name) (fun _ w' => inv n [] w') w.
Proof.
  intros I. unfold xl_DebugMarkerSetObjectNameEXT. apply wp_bind. unfold wp at 1. cbn [getS fst snd].
  destruct (_ || _); [by apply inv_call|]. destruct (nvhal_image_xl w h) as [real hit]. destruct (_ =? _); [|by apply inv_call].
  apply wp_bind. eapply wp_mono; [by apply object_name_spec|]. intros ? w1 I1. by apply wp_ret.
Qed.

(** *** Sessions *)

(** The calls of an application; it destroys and frees what it has. *)
Inductive hop :=
  | HCreateImage (ci : image_ci)
  | HDestroyImage (image : Z)
  | HAllocate (ai : alloc_info)
  | HFree (memory : Z)
  | HGetBuffer (memory : Z)
  | HBind (image memory offset : Z)
  | HBind2 (infos : list bind_info)
  | HSetPrivateData (image slot data : Z)
  | HSetName (image : Z) (name : option (list Z))
  | HMarkerName (image : Z) (name : option (list Z))
  | HImageRequirements (image : Z)
  | HCiRequirements (ci : image_ci).

#[export] Instance has_image_dec w i : Decision (has_image w i) := _.
#[export] Instance has_memory_dec w h : Decision (has_memory w h) := _.

Definition run_hop (o : hop) (w : hworld) : hworld :=
  match o with
  | HCreateImage ci => (nvhal_CreateImage K d (length (c_chain ci)) ci w).2
  | HDestroyImage i => if decide (has_image w i) then (nvhal_DestroyImage i w).2 else w
  | HAllocate ai => (nvhal_AllocateMemory K d ai w).2
  | HFree h => if decide (has_memory w h) then (nvhal_FreeMemory h w).2 else w
  | HGetBuffer h => (nvhal_GetMemoryAndroidHardwareBufferANDROID d h w).2
  | HBind i m o => (nvhal_BindImageMemory K i m o w).2
  | HBind2 l => (bind2 K d l w).2
  | HSetPrivateData i s x => (set_pd K i s x w).2
  | HSetName i nm => (xl_SetDebugUtilsObjectNameEXT K i nm w).2
  | HMarkerName i nm => (xl_DebugMarkerSetObjectNameEXT K i nm w).2
  | HImageRequirements i => (nvhal_ahb_image_requirements K i w).2
  | HCiRequirements ci => (nvhal_ahb_ci_requirements K ci w).2
  end.
Definition run_hops (l : list hop) (w : hworld) : hworld := foldl (flip run_hop) w l.
Definition hw_init : hworld := mk_hw ∅ ∅ 0 ∅ [] 0 aw_init.

Lemma hinv_init : inv 0 [] hw_init.
Proof.
  split.
  - change ([] ++ holdings hw_init) with (@nil (kind * Z)). apply ainv_init.
  - split; try done.
Qed.

Lemma run_hop_inv o n w : inv n [] w -> inv (S n) [] (run_hop o w).
Proof.
  intros I. assert (Hm : forall w', inv n [] w' -> inv (S n) [] w') by (intros w'; apply inv_more; lia).
  destruct o; cbn [run_hop].
  - by apply create_spec.
  - destruct (decide _); [by apply Hm, destroy_spec|by apply Hm].
  - by apply Hm, allocate_spec.
  - destruct (decide _) as [H|]; [by apply Hm, hfree_spec|by apply Hm].
  - by apply Hm, get_buffer_spec.
  - by apply Hm, bind_spec.
  - by apply Hm, bind2_spec.
  - by apply Hm, set_pd_spec.
  - by apply Hm, utils_name_spec.
  - by apply Hm, marker_name_spec.
  - by apply Hm, requirements_spec.
  - by apply Hm, ci_requirements_spec.
Qed.
Lemma run_hops_inv l n w : inv n [] w -> inv (n + length l) [] (run_hops l w).
Proof.
  revert n w. induction l as [|o l IH]; intros n w I; [by rewrite Nat.add_0_r|]. cbn [length]. rewrite <- Nat.add_succ_comm.
  apply (IH (S n)). by apply run_hop_inv.
Qed.
Lemma session_inv l : inv (length l) [] (run_hops l hw_init).
Proof. apply (run_hops_inv l 0), hinv_init. Qed.

End Inv.

(** ** Teardown *)

(** What the teardown destroys of a leaked record. *)
Definition drop_res (r : nvhal_image) : list (kind * Z) :=
  if decide (w_kind r = WRAP_SWAPCHAIN /\ w_memory r <> VK_NULL_HANDLE) then [(KImage, w_real r); (KMemory, w_memory r)] else [].
Definition drop_of (w : hworld) (k : kind) (h p : Z) : Z :=
  match recs w !! p with Some r => cnt k h (drop_res r) | None => 0 end.

(** The tables stay but for the records of [l]. *)
Record dropped (w w' : hworld) (l : list Z) : Prop := {
  dr_regs : regs w' = regs w; dr_count : wrapper_count w' = wrapper_count w; dr_mems : ahb_mems w' = ahb_mems w;
  dr_app : app w' = app w; dr_faults : faults w' = faults w; dr_tables : tables (aw w') = tables (aw w);
  dr_recs p : p ∉ l -> recs w' !! p = recs w !! p;
  dr_bal k h : acounted k h -> balance k h (htr w') = balance k h (htr w) - sumZ (drop_of w k h <$> l);
}.

Lemma dropped_refl w : dropped w w [].
Proof. split; try done. intros. unfold sumZ. cbn. lia. Qed.
Lemma dropped_trans w1 w2 w3 p l :
  dropped w1 w2 [p] -> dropped w2 w3 l -> p ∉ l -> dropped w1 w3 (p :: l).
Proof.
  intros [A1 A2 A3 A4 A5 A6 A7 A8] [B1 B2 B3 B4 B5 B6 B7 B8] Hp. split; try congruence.
  - intros q Hq. rewrite B7, A7 by set_solver. done.
  - intros k h Hk. rewrite B8, A8 by done. cbn [fmap list_fmap]. unfold sumZ. cbn [foldr].
    assert (E : drop_of w2 k h <$> l = drop_of w1 k h <$> l).
    { apply list_fmap_ext. intros i q Hq. unfold drop_of. rewrite A7; [done|]. apply list_elem_of_lookup_2 in Hq. set_solver. }
    rewrite E. lia.
Qed.

Lemma pair_one k h k' h' : (if decide ((k', h') = (k, h)) then 1 else 0) = one k k' h h'.
Proof. unfold one. repeat case_decide; try done; naive_solver. Qed.

Lemma decide_one_null k h : acounted k h -> one k KImage h VK_NULL_HANDLE = 0.
Proof. intros Hk. unfold one. rewrite decide_False; [done|]. intros [<- <-]. by destruct Hk. Qed.

Lemma wrapper_drop_run p r w : recs w !! p = Some r -> dropped w (wrapper_drop p w).2 [p].
Proof.
  intros Hp. unfold wrapper_drop. rewrite bind_run. cbn [getS fst snd]. rewrite Hp.
  assert (S0 : forall k h, drop_of w k h <$> [p] = [cnt k h (drop_res r)]) by (intros; cbn; unfold drop_of; by rewrite Hp).
  destruct (bool_decide (w_kind r = WRAP_SWAPCHAIN)) eqn:Ek; cbn [negb orb].
  - apply bool_decide_eq_true in Ek. destruct (Z.eqb_spec (w_memory r) VK_NULL_HANDLE) as [Em|Em].
    + split; try done. intros k h Hk. rewrite S0, ret_run. unfold drop_res, sumZ. rewrite decide_False by naive_solver. rewrite cnt_nil. cbn [snd foldr]. lia.
    + rewrite !bind_run. split; cbn [negb whenH hev liftA mret M_ret put_rec modS set_aw aev fst snd recs regs wrapper_count ahb_mems app faults aw]; try done.
      * by destruct (negb _).
      * by destruct (negb _).
      * by destruct (negb _).
      * by destruct (negb _).
      * by destruct (negb _).
      * by destruct (negb _).
      * intros q Hq. rewrite lookup_insert_ne by set_solver. by destruct (negb _).
      * intros k h Hk.
        assert (E1 : sumZ (drop_of w k h <$> [p]) = one k KImage h (w_real r) + one k KMemory h (w_memory r)).
        { rewrite S0. unfold drop_res, sumZ. rewrite decide_True by done. rewrite !cnt_cons, cnt_nil, !pair_one. cbn [foldr]. lia. }
        rewrite E1. unfold htr.
        destruct (Z.eqb_spec (w_real r) VK_NULL_HANDLE) as [E|E]; cbn [negb whenH hev liftA mret M_ret put_rec modS set_aw aev aw atr fst snd]; autorewrite with nvdb; [|lia].
        rewrite E. rewrite (decide_one_null k h) by done. lia.
  - apply bool_decide_eq_false in Ek. split; try done. intros k h Hk. rewrite S0, ret_run. unfold drop_res, sumZ. rewrite decide_False by naive_solver. rewrite cnt_nil. cbn [snd foldr]. lia.
Qed.

Lemma drops_run l w : NoDup l -> (forall p, p ∈ l -> is_Some (recs w !! p)) ->
  dropped w (foldM (fun _ p => wrapper_drop p) l tt w).2 l.
Proof.
  revert w. induction l as [|p l IH]; intros w Hnd Hl; [apply dropped_refl|]. apply NoDup_cons in Hnd as [Hp Hnd].
  cbn [foldM]. rewrite bind_run. destruct (Hl p ltac:(set_solver)) as [r Hr]. pose proof (wrapper_drop_run p r w Hr) as D.
  destruct (wrapper_drop p w).1. eapply dropped_trans; [exact D| |done]. apply IH; [done|]. intros q Hq. rewrite (dr_recs _ _ _ D) by set_solver.
  apply Hl. set_solver.
Qed.

Lemma sum_dom {A} (f : Z -> A -> Z) (m : gmap Z A) :
  sumZ ((fun p => match m !! p with Some x => f p x | None => 0 end) <$> elements (dom m)) = total f m.
Proof.
  unfold total. assert (P : elements (dom m) ≡ₚ (map_to_list m).*1).
  { apply NoDup_Permutation; [apply NoDup_elements|apply NoDup_fst_map_to_list|]. intros p. rewrite elem_of_elements, elem_of_dom, list_elem_of_fmap. split.
    - intros [x Hx]. exists (p, x). split; [done|]. by apply elem_of_map_to_list.
    - intros ([q x] & -> & Hx). apply elem_of_map_to_list in Hx. by exists x. }
  rewrite (sumZ_perm _ _ (fmap_Permutation _ _ _ P)), <- list_fmap_compose. f_equal. apply list_fmap_ext. intros i [p x] Hi.
  apply list_elem_of_lookup_2, elem_of_map_to_list in Hi. cbn. by rewrite Hi.
Qed.

Lemma releases_run (l : list (Z * ahb_mem)) w :
  let w' := (foldM (fun _ x => hev (Destroyed KRef (m_buffer x.2))) l tt w).2 in
  quiet w w' /\ tables (aw w') = tables (aw w) /\
  forall k h, balance k h (htr w') = balance k h (htr w) - sumZ ((fun x => cnt k h [(KRef, m_buffer x.2)]) <$> l).
Proof.
  cbn zeta. revert w. induction l as [|x l IH]; intros w; cbn [foldM].
  - split; [apply hquiet_refl|]. split; [done|]. intros. unfold sumZ. cbn. lia.
  - rewrite bind_run. destruct (IH (hev (Destroyed KRef (m_buffer x.2)) w).2) as (Q & T & B). split; [eapply hquiet_trans; [apply quiet_hev|exact Q]|].
    split; [exact T|]. intros k h. rewrite B. cbn [fmap list_fmap]. unfold sumZ at 2. cbn [foldr]. fold (sumZ ((fun x => cnt k h [(KRef, m_buffer x.2)]) <$> l)).
    unfold htr. cbn [hev liftA set_aw aev modS aw atr fst snd]. rewrite balance_snoc, delta_destroyed, cnt_cons, cnt_nil, pair_one. lia.
Qed.

Lemma teardown_run w : wf w -> let w' := (nvhal_ahb_device_teardown w).2 in
  faults w' = 0 /\ regs w' = ∅ /\ ahb_mems w' = ∅ /\ wrapper_count w' = 0 /\ tables (aw w') = tables (aw w) /\
  forall k h, acounted k h -> balance k h (htr w') = balance k h (htr w) - total (fun _ r => cnt k h (drop_res r)) (recs w)
    - total (fun _ m => cnt k h [(KRef, m_buffer m)]) (ahb_mems w).
Proof.
  intros W w'. subst w'. unfold nvhal_ahb_device_teardown. rewrite bind_run. cbn [getS fst snd].
  destruct (nvhal_no_wrappers w) eqn:En; cbn [andb]; [destruct (bool_decide (ahb_mems w = ∅)) eqn:Em|].
  1: { apply bool_decide_eq_true in Em. apply no_wrappers_empty in En as Er; [|done].
       assert (Er' : recs w = ∅) by (apply dom_empty_inv_L; by rewrite (wf_regs w W)).
       cbn. split_and!; try done; [apply (wf_safe w W)|by apply Z.eqb_eq|]. intros k h Hk. rewrite Er', Em, !total_empty. lia. }
  all: rewrite bind_run; set (w1 := (foldM _ (elements (regs w)) tt w).2);
    assert (D : dropped w w1 (elements (regs w))) by
      (apply drops_run; [apply NoDup_elements|]; intros p Hp; apply elem_of_elements in Hp; rewrite <- (wf_regs w W) in Hp; by apply elem_of_dom);
    destruct D as [D1 D2 D3 D4 D5 D6 D7 D8]; rewrite bind_run; cbn [modS fst snd]; set (w2 := mk_hw _ _ _ _ _ _ _);
    rewrite bind_run; destruct (releases_run (map_to_list (ahb_mems w)) w2) as ([a Q] & T & B); set (w3 := (foldM _ _ tt w2).2) in *;
    cbn [put_mems modS snd]; unfold htr in *; cbn [faults regs ahb_mems wrapper_count aw];
    (split_and!; [rewrite Q; cbn; rewrite D5; apply (wf_safe w W)|by rewrite Q|done|rewrite Q; cbn; rewrite D1, D2, (wf_count w W); lia|rewrite T; exact D6|]);
    intros k h Hk; rewrite B; unfold w2; cbn [aw]; rewrite D8 by done;
    rewrite <- (wf_regs w W); unfold drop_of; rewrite (sum_dom (fun _ r => cnt k h (drop_res r)) (recs w)); done.
Qed.

(** ** What is held, by kind *)

Lemma app_other w k h : wf w -> k <> KImage -> k <> KMemory -> cnt k h (app w) = 0.
Proof.
  intros W H1 H2. induction (wf_app w W) as [|[k' h'] l Hx Hl IH]; [done|]. rewrite cnt_cons, decide_False, IH; [done|].
  intros [= -> ->]. cbn in Hx. by destruct Hx.
Qed.
Lemma held_other w fd : wf w -> held w KFd fd = 0.
Proof.
  intros W. unfold held. rewrite !total_zero, app_other by done || (intros; unfold rec_res, mem_res; rewrite !cnt_cons, !decide_False by done;
    try case_decide; rewrite ?cnt_cons, ?cnt_nil, ?decide_False by done; done). done.
Qed.
Lemma ref_tables b w : cnt KRef b (tables w) = 0.
Proof. unfold tables, image_res, fence_res. by rewrite !cnt_app, !cnt_fmap_other. Qed.
Lemma held_ref w b : wf w -> held w KRef b = total (fun _ m => cnt KRef b [(KRef, m_buffer m)]) (ahb_mems w).
Proof.
  intros W. unfold held. rewrite app_other by done. rewrite (total_zero (fun p r => cnt KRef b (rec_res p r))).
  - rewrite Z.add_0_l, Z.add_0_r. apply total_ext. intros h m _. unfold mem_res. rewrite cnt_cons, decide_False by done. lia.
  - intros p r. unfold rec_res. rewrite !cnt_cons, !decide_False by done. case_decide; [rewrite cnt_cons, decide_False by done|]; done.
Qed.
Lemma held_memory w h : h <> VK_NULL_HANDLE ->
  held w KMemory h = total (fun _ r => cnt KMemory h (drop_res r)) (recs w) + (if decide (is_Some (ahb_mems w !! h)) then 1 else 0) + cnt KMemory h (app w).
Proof.
  intros Hh. unfold held. rewrite <- total_key.
  rewrite (total_ext _ (fun _ r => cnt KMemory h (drop_res r)) (recs w)).
  - rewrite (total_ext _ (fun k _ => if decide (k = h) then 1 else 0) (ahb_mems w)); [done|].
    intros p m _. unfold mem_res. rewrite !cnt_cons, cnt_nil, (decide_False (P := (KRef, _) = _)) by done.
    repeat case_decide; try lia; naive_solver.
  - intros p r _. unfold rec_res, drop_res. rewrite !cnt_cons, !decide_False by done.
    destruct (decide (w_kind r = WRAP_SWAPCHAIN)) as [Ek|Ek]; [|by rewrite decide_False by naive_solver].
    destruct (decide (w_memory r = VK_NULL_HANDLE)) as [Em|Em].
    + rewrite decide_False by naive_solver. rewrite Em, !cnt_cons, !decide_False by congruence. done.
    + rewrite decide_True by done. by rewrite !cnt_cons, (decide_False (P := (KImage, _) = _)) by done.
Qed.

(** ** Properties *)

(** C29: whatever the driver, the kernel, libnativewindow and the allocator
    answer, after any sequence of calls the images, memory objects, buffer
    references, descriptors and wrapper records outstanding are exactly those
    of the records, the memory table, the ANB table and the application; an
    AHB memory object and its image refer to each other or not at all; no freed
    record was used; and the teardown releases every buffer reference and
    frees the memory and images of leaked swapchain-bound images. *)
Theorem ahb_session_exact (K : hicd) `{!HicdLaws K} (d : hdev) (l : list hop) :
  let w := run_hops K d l hw_init in
  let w' := (nvhal_ahb_device_teardown w).2 in
  (forall k h, acounted k h -> balance k h (htr w) = cnt k h (tables (aw w)) + held w k h) /\
  (forall fd, 0 <= fd -> balance KFd fd (htr w) = 0) /\
  wf w /\
  (forall b, b <> 0 -> balance KRef b (htr w') = 0) /\
  (forall h, h <> VK_NULL_HANDLE -> balance KMemory h (htr w') =
     cnt KMemory h (tables (aw w)) + cnt KMemory h (app w) + (if decide (is_Some (ahb_mems w !! h)) then 1 else 0)) /\
  faults w' = 0 /\ regs w' = ∅ /\ ahb_mems w' = ∅ /\ wrapper_count w' = 0.
Proof.
  intros w w'. pose proof (session_inv K d l) as I. fold w in I. destruct (teardown_run w (iv_wf _ _ _ _ I)) as (T1 & T2 & T3 & T4 & T5 & T6).
  fold w' in T1, T2, T3, T4, T5, T6.
  assert (B : forall k h, acounted k h -> balance k h (htr w) = cnt k h (tables (aw w)) + held w k h).
  { intros k h Hk. unfold htr. rewrite (ai_bal _ _ _ _ (iv_acc _ _ _ _ I) k h Hk).
    change ([] ++ holdings w) with (holdings w). by rewrite cnt_holdings. }
  split; [exact B|]. split; [|split; [apply I|split; [|split; [|done]]]].
  - intros fd Hfd. by rewrite B, fd_cnt_tables, held_other by (done || apply I).
  - intros b Hb. rewrite T6, B, ref_tables, held_ref by (done || apply I). rewrite (total_zero (fun _ r => cnt KRef b (drop_res r))); [lia|].
    intros _ r. unfold drop_res. case_decide; [by rewrite !cnt_cons, !decide_False by done|done].
  - intros h Hh. rewrite T6, B by done. rewrite (total_zero (fun _ m => cnt KMemory h [(KRef, m_buffer m)])).
    2: { intros _ m. by rewrite cnt_cons, decide_False by done. }
    rewrite (held_memory w h Hh). lia.
Qed.

(** ** Witnesses *)

(** A driver that accepts everything; buffer 7 is NV12, any other RGBA8. *)
Definition demo_requirements (t : trace) (img : Z) (plane : option Z) : VkMemoryRequirements :=
  match plane with Some _ => mk_reqs 1048576 4096 2 | None => mk_reqs 8290304 4096 2 end.
Definition demo_hicd : hicd :=
  mk_hicd demo_icd demo_buffers demo_modifiers (fresh_handle KHeap) (fun _ _ => true) (fun _ _ => true)
    (fun t _ => (VK_SUCCESS, 100 + fresh_handle KImage t)) demo_requirements
    (fun t _ => (VK_SUCCESS, fresh_handle KMemory t)) (fun _ _ => (0, 8)) (fun _ _ => VK_SUCCESS) (fun _ _ _ _ => VK_SUCCESS).

#[export] Instance demo_hicd_laws : HicdLaws demo_hicd.
Proof.
  split.
  - exact (demo_icd_laws VK_NOT_READY).
  - intros t _. by apply fresh_unused.
  - intros t c img [= <-]. pose proof (fresh_pos KImage t). unfold VK_NULL_HANDLE. lia.
  - intros t c img [= <-]. unfold VK_NULL_HANDLE. lia.
  - intros t q mem [= <-]. split; [pose proof (fresh_pos KMemory t); unfold VK_NULL_HANDLE; lia|by apply fresh_unused].
Qed.

Definition demo_hdev : hdev := mk_hdev demo_dev true true true true.
Definition demo_image : image_ci :=
  mk_image_ci 0 VK_IMAGE_TYPE_2D VK_FORMAT_R8G8B8A8_UNORM 1920 1080 1 1 1 1 VK_IMAGE_TILING_OPTIMAL 0x10 0 [] 0
    [CExternalMemory HANDLE_TYPE_AHB].
(** Import of buffer 8 for image 1. *)
Definition demo_import : alloc_info := mk_ai 8294400 1 [AImport 8; ADedicated 1 0].
Definition demo_session : list hop := [HCreateImage demo_image; HSetPrivateData 1 5 6; HAllocate demo_import; HGetBuffer 1; HBind 1 1 0].

(** With an image and its memory alive: one image, one memory object and one
    buffer reference; the teardown gives the reference back. *)
Lemma ahb_session_exact_witness :
  let w := run_hops demo_hicd demo_hdev demo_session hw_init in
  balance KRef 8 (htr w) = 1 /\ balance KMemory 1 (htr w) = 1 /\ balance KHeap 1 (htr w) = 1 /\
  balance KRef 8 (htr (nvhal_ahb_device_teardown w).2) = 0.
Proof.
  cbn zeta. destruct (ahb_session_exact demo_hicd demo_hdev demo_session) as (B & _ & _ & R & _). split_and!.
  - rewrite B by done. vm_compute. reflexivity.
  - rewrite B by done. vm_compute. reflexivity.
  - rewrite B by done. vm_compute. reflexivity.
  - apply R. done.
Defined.

End AhbSession.
