(* ===== verification/AhbProps.v ===== *)
(** * What the wrapper-image layer promises ([hal/src/ahb.c], [bind2] of [hal/src/anb.c])

    A dedicated AHB allocation realises its image on exactly the buffer's
    layout; binds reach the ICD on the realised images only; and the states in
    which the layer does not do what its comments or Vulkan say. *)

From Stdlib Require Import ZArith Lia.
From stdpp Require Import base option sets strings gmap list.
From S2P Require Import Prelude HashTable Vulkan ImgXlate GrallocFormat CrosHandle Anb AhbBuffer Ahb AhbSession.

Set Default Goal Selector "!".
#[local] Open Scope Z_scope.

Module AhbProps.
Import Vk Cros Anb AhbBuffer Ahb AhbSession.

(** ** Realisation *)

(** Planes at [l]'s offsets: aligned as the ICD requires, in order, inside the
    buffer. *)
Fixpoint placed (size prev_end : Z) (l : list (Z * VkMemoryRequirements)) : Prop :=
  match l with
  | [] => True
  | (off, req) :: l =>
      prev_end <= off /\ (req_alignment req | off) /\ off + req_size req <= size /\ placed size (off + req_size req) l
  end.

(** No plane's end is beyond 64 bits. *)
Definition ends_u64 (l : list (Z * VkMemoryRequirements)) : Prop :=
  Forall (fun x => 0 <= x.1 + req_size x.2 < 2 ^ 64) l.

Lemma planes_bindable_placed size prev_end l : ends_u64 l -> planes_bindable size prev_end l = true -> placed size prev_end l.
Proof.
  intros U. revert prev_end. induction U as [|[off req] l Hx Hl IH]; intros prev_end H; [done|]. cbn [planes_bindable placed fst snd] in *.
  apply andb_true_iff in H as [H1 H2]. unfold plane_bindable in H1. apply negb_true_iff in H1.
  repeat (apply orb_false_iff in H1 as [H1 ?]). rewrite u64_id in * by (unfold is_u64; lia).
  repeat match goal with H : (_ <? _) = false |- _ => apply Z.ltb_ge in H end.
  repeat match goal with H : negb _ = false |- _ => apply negb_false_iff, Z.eqb_eq in H end. apply Z.eqb_neq in H1.
  split_and!; [lia| |lia|by apply IH]. by apply Z.mod_divide.
Qed.

(** The create-info [c] is the application's, on buffer [b]: the extents and
    format agree, the layout is the buffer's, the usage is the application's
    but for input attachments of LINEAR images. *)
Record realises (r : nvhal_image) (b : gbuf) (c : icd_ci) : Prop := {
  rl_format : c_format (w_ci r) = g_format b;
  rl_extent : c_width (w_ci r) = d_width (g_desc b) /\ c_height (w_ci r) = d_height (g_desc b) /\ c_layers (w_ci r) = d_layers (g_desc b);
  rl_layout : k_layout c = LExplicit (hd_modifier (gh (g_h b))) (g_layout b);
  rl_formats : k_formats c = w_view_formats r /\ k_stencil c = w_stencil r /\ k_dma_buf c = true;
  rl_ci : exists usage, k_ci c = with_icd (w_ci r) (c_flags (w_ci r)) VK_IMAGE_TILING_DRM_FORMAT_MODIFIER usage VK_IMAGE_LAYOUT_UNDEFINED /\
    (usage = c_usage (w_ci r) \/
     hd_modifier (gh (g_h b)) = DRM_FORMAT_MOD_LINEAR /\ usage = Z.ldiff (c_usage (w_ci r)) USAGE_INPUT_ATTACHMENT);
}.

Section Alloc.
Context (K : hicd) (d : hdev).

Lemma effective_usage_keeps c m w r c' : (effective_usage K c m w).1 = (r, c') -> r = VK_SUCCESS ->
  c' = c \/ m = DRM_FORMAT_MOD_LINEAR /\ c' = icd_usage c (c_flags (k_ci c)) (Z.ldiff (c_usage (k_ci c)) USAGE_INPUT_ATTACHMENT).
Proof.
  unfold effective_usage. rewrite bind_run. destruct (negb _ && _ && _) eqn:E.
  - rewrite bind_run, ret_run. cbn [fst]. intros Hr Hs. case_match; simplify_eq; [right|by left].
    by apply andb_true_iff in E as [[_ ?%Z.eqb_eq]%andb_true_iff _].
  - rewrite ret_run. cbn [fst]. intros Hr Hs. simplify_eq. by left.
Qed.

Lemma matches_realises r b c usage : ahb_matches r b = true ->
  c = build_icd_ci r (LExplicit (hd_modifier (gh (g_h b))) (g_layout b)) \/ 
  hd_modifier (gh (g_h b)) = DRM_FORMAT_MOD_LINEAR /\ usage = Z.ldiff (c_usage (w_ci r)) USAGE_INPUT_ATTACHMENT /\
    c = icd_usage (build_icd_ci r (LExplicit (hd_modifier (gh (g_h b))) (g_layout b))) (c_flags (w_ci r)) usage ->
  g_blob b = false /\ realises r b c.
Proof.
  intros Hm Hc. unfold ahb_matches in Hm. apply negb_true_iff in Hm. repeat (apply orb_false_iff in Hm as [Hm ?]).
  repeat match goal with H : negb _ = false |- _ => apply negb_false_iff, Z.eqb_eq in H end. split; [done|].
  destruct Hc as [->|(Hl & -> & ->)]; (split; [done|done|done|done|]); eexists; (split; [reflexivity|]); auto.
Qed.

(** The disjoint LINEAR image whose planes the driver is asked about. *)
Definition disjoint_ci (r : nvhal_image) (b : gbuf) (usage : Z) : icd_ci :=
  let c := build_icd_ci r (LExplicit DRM_FORMAT_MOD_LINEAR ((fun s => (0, s)) <$> (g_layout b).*2)) in
  icd_usage c (Z.lor (c_flags (k_ci c)) CREATE_DISJOINT) usage.
Definition plane_needs (t : trace) (b : gbuf) (img : Z) : list (Z * VkMemoryRequirements) :=
  zip (g_layout b).*1 ((fun p => h_requirements K t img (Some p)) <$> seqZ 0 (g_planes b)).
Definition bindable_at (r : nvhal_image) (b : gbuf) (usage : Z) : Prop := exists t t' img,
  h_create K t (disjoint_ci r b usage) = (VK_SUCCESS, img) /\ planes_bindable (g_size b) 0 (plane_needs t' b img) = true.

(** What a successful realisation asked of the ICD. *)
Definition realised (r : nvhal_image) (b : gbuf) (real : Z) : Prop :=
  g_blob b = false /\ exists c t, realises r b c /\ h_create K t c = (VK_SUCCESS, real) /\
    (1 < g_planes b -> bindable_at r b (c_usage (k_ci c))).

Lemma icd_create_sound c w : wp (icd_create K c) (fun x w' => quiet w w' /\ exists t, h_create K t c = x) w.
Proof.
  unfold icd_create. apply wp_bind. unfold wp at 1, hask. cbn [fst snd]. destruct (h_create K (htr w) c) as [r img] eqn:E.
  apply wp_bind. unfold wp at 1. apply wp_ret. split; [apply quiet_hev|eauto].
Qed.

Lemma bindable_sound r b u w : wp (yuv_layout_bindable K r b u) (fun x w' => quiet w w' /\ (x = VK_SUCCESS -> bindable_at r b u)) w.
Proof.
  unfold yuv_layout_bindable. destruct (negb _); [apply wp_ret; split; [apply hquiet_refl|done]|].
  apply wp_bind. eapply wp_mono; [apply icd_create_sound|]. intros [rc img] w1 [Q [t Ht]].
  destruct (Z.eqb_spec rc VK_SUCCESS) as [->|]; cbn [negb]; [|by apply wp_ret]. apply wp_bind. unfold wp at 1, hask. cbn [fst snd].
  apply wp_bind. unfold wp at 1. apply wp_ret. split; [eapply hquiet_trans; [exact Q|apply quiet_hev]|].
  destruct (planes_bindable _ _ _) eqn:E; [|done]. intros _. eexists t, _, _. split; [exact Ht|exact E].
Qed.

Lemma realise_sound r b w : wp (realise K r b) (fun x w' => quiet w w' /\ forall real, x = inr real -> realised r b real) w.
Proof.
  unfold realise. destruct (ahb_matches r b) eqn:Em; cbn [negb]; [|apply wp_ret; split; [apply hquiet_refl|done]].
  apply wp_bind. unfold wp at 1. rewrite effective_usage_world. destruct (effective_usage _ _ _ w).1 as [ru c] eqn:Eu.
  destruct (ru =? VK_SUCCESS) eqn:Er; cbn [negb]; [|apply wp_ret; split; [apply hquiet_refl|done]]. apply Z.eqb_eq in Er as ->.
  assert (HR : g_blob b = false /\ realises r b c).
  { eapply matches_realises; [done|]. eapply effective_usage_keeps in Eu; [|done]. destruct Eu as [->|[? ->]]; eauto. }
  destruct HR as [Hb HR]. apply wp_bind.
  eapply (wp_mono _ (fun x w' => quiet w w' /\ (x = VK_SUCCESS -> 1 < g_planes b -> bindable_at r b (c_usage (k_ci c))))).
  { destruct (Z.ltb_spec 1 (g_planes b)) as [Hp|Hp]; [|apply wp_ret; split; [apply hquiet_refl|lia]].
    eapply wp_mono; [apply bindable_sound|]. intros x w1 [Q B]. auto. }
  intros rb w1 [Q HB]. destruct (rb =? VK_SUCCESS) eqn:Er; cbn [negb]; [|by apply wp_ret]. apply Z.eqb_eq in Er as ->.
  apply wp_bind. eapply wp_mono; [apply icd_create_sound|]. intros [rc img] w2 [Q2 [t Ec]]. apply wp_ret.
  split; [by eapply hquiet_trans|]. intros real. destruct (rc =? VK_SUCCESS) eqn:Er; cbn [negb]; [|by destruct (rc =? _)].
  apply Z.eqb_eq in Er as ->. intros [= ->]. split; [done|]. exists c, t. split_and!; [done|done|auto].
Qed.

(** ** Allocation *)

(** The tables of wrappers are the same. *)
Definition same_regs (w w' : hworld) : Prop := regs w' = regs w /\ wrapper_count w' = wrapper_count w.
Lemma same_regs_quiet w w' : quiet w w' -> same_regs w w'.
Proof. by intros [a ->]. Qed.
Lemma same_regs_trans w1 w2 w3 : same_regs w1 w2 -> same_regs w2 w3 -> same_regs w1 w3.
Proof. unfold same_regs. intros [-> ->] [-> ->]. done. Qed.

(** Memory object [mem] is [b]'s dma-buf, imported for the image [real]. *)
Definition imported (ai : alloc_info) (b : gbuf) (real mem bits : Z) (extra : list ai_struct) : Prop :=
  exists t1 t2 t3 fd errno,
    let req := h_requirements K t1 real None in
    req_size req <= g_size b /\ Z.testbit bits (a_type ai) = true /\ Z.testbit (req_memoryTypeBits req) (a_type ai) = true /\
    i_dup (h_anb K) t2 (g_fd b) = (fd, errno) /\ 0 <= fd /\
    h_allocate K t3 (MImport real VK_NULL_HANDLE fd (req_size req) (a_type ai) extra) = (VK_SUCCESS, mem).

Lemma import_dmabuf_sound b image buffer type size extra w :
  wp (import_dmabuf K b image buffer type size extra) (fun x w' => quiet w w' /\ forall mem, x = inr mem ->
    exists t2 t3 fd errno, i_dup (h_anb K) t2 (g_fd b) = (fd, errno) /\ 0 <= fd /\
      h_allocate K t3 (MImport image buffer fd size type extra) = (VK_SUCCESS, mem)) w.
Proof.
  unfold import_dmabuf. apply wp_bind. unfold wp at 1, hask. cbn [fst snd]. destruct (i_dup _ _ _) as [fd errno] eqn:Ed.
  apply wp_bind. unfold wp at 1. set (w1 := (hev _ w).2). assert (Q1 : quiet w w1) by apply quiet_hev.
  destruct (Z.ltb_spec fd 0) as [Hf|Hf]; [by apply wp_ret|]. apply wp_bind. unfold wp at 1. cbn [fst snd].
  destruct (h_allocate K (htr w1) _) as [r mem] eqn:Ea. apply wp_bind. unfold wp at 1. apply wp_bind. unfold wp at 1.
  set (w3 := (hev _ (hev _ w1).2).2). assert (Q3 : quiet w w3) by (eapply hquiet_trans; [exact Q1|eapply hquiet_trans; apply quiet_hev]).
  destruct (r =? VK_SUCCESS) eqn:Er; cbn [negb]; apply wp_bind; unfold wp at 1; apply wp_ret;
    (split; [eapply hquiet_trans; [exact Q3|apply quiet_hev]|]); [|done].
  apply Z.eqb_eq in Er as ->. intros ? [= ->]. eauto 10.
Qed.

Lemma replay_quiet r real w : wp (replay_object_state d r real) (fun _ w' => quiet w w') w.
Proof.
  unfold replay_object_state. apply wp_bind. eapply (wp_mono _ (fun _ w' => quiet w w')).
  { unfold replay_name. repeat case_match; apply quiet_hev || apply hquiet_refl. }
  intros _ w1 Q1. unfold whenH. destruct (has_private d); [|exact Q1]. revert w1 Q1.
  induction (w_pd r) as [|[s x] l IH]; intros w1 Q1; [exact Q1|]. cbn [replay_pd]. apply wp_bind. unfold wp at 1.
  apply IH. eapply hquiet_trans; [exact Q1|apply quiet_hev].
Qed.

Lemma alloc_image_sound ai p r b bits extra w :
  wp (alloc_image K d ai p r b bits extra) (fun x w' => same_regs w w' /\ forall mem, x = inr mem ->
    w_real r = VK_NULL_HANDLE /\ exists real, realised r b real /\ imported ai b real mem bits extra /\
      recs w' !! p = Some (bound r real mem (hd_modifier (gh (g_h b))))) w.
Proof.
  unfold alloc_image. destruct (w_real r =? VK_NULL_HANDLE) eqn:Er; cbn [negb]; [|by apply wp_ret]. apply Z.eqb_eq in Er.
  apply wp_bind. eapply wp_mono; [apply realise_sound|]. intros [e|real] w1 [Q1 R]; [apply wp_ret; split; [by apply same_regs_quiet|done]|].
  specialize (R real eq_refl). apply wp_bind. unfold wp at 1. set (w2 := (put_rec _ _ w1).2).
  assert (S2 : same_regs w w2) by (apply same_regs_quiet in Q1; exact Q1).
  apply wp_bind. unfold wp at 1, hask. cbn [fst snd]. set (req := h_requirements _ _ _ _). apply wp_bind.
  eapply (wp_mono _ (fun x w' => same_regs w w' /\ forall mem, x = inr mem -> imported ai b real mem bits extra)).
  { destruct (_ || _) eqn:Ec; [by apply wp_ret|]. apply orb_false_iff in Ec as [Hs%Z.ltb_ge Hb%negb_false_iff].
    rewrite Z.land_spec in Hb. apply andb_true_iff in Hb as [Hb1 Hb2].
    eapply wp_mono; [apply import_dmabuf_sound|]. intros x w3 [Q3 I]. split; [eapply same_regs_trans; [exact S2|by apply same_regs_quiet]|].
    intros mem Hm. destruct (I mem Hm) as (t2 & t3 & fd & errno & H). destruct H as (? & ? & ?). exists (htr w2), t2, t3, fd, errno.
    cbn zeta. by split_and!. }
  intros [e|mem] w3 [S3 I]; [apply wp_bind; unfold wp at 1; apply wp_ret; split; [exact S3|done]|].
  apply wp_bind. eapply wp_mono; [apply replay_quiet|]. intros u w4 Q4. apply wp_bind. unfold wp at 1. apply wp_ret. split.
  - eapply same_regs_trans; [exact S3|]. apply same_regs_quiet in Q4. exact Q4.
  - intros ? [= <-]. split; [done|]. exists real. split_and!; [done|by apply I|]. apply lookup_insert_eq.
Qed.

(** The buffer of the allocation: the application's, of the size it gave, or
    one made for the image. *)
Definition buffer_of (ai : alloc_info) (r : nvhal_image) (b : gbuf) (buf : Z) : Prop :=
  a_import (a_chain ai) = Some buf /\ a_size ai = g_size b \/
  a_import (a_chain ai) = None /\ exists t, h_ahb_allocate K t (mk_desc (c_width (w_ci r)) (c_height (w_ci r)) (c_layers (w_ci r))
    (vk_to_ahb (c_format (w_ci r))) (vk_to_ahb_usage (c_flags (w_ci r)) (c_usage (w_ci r)))) = (0, buf).

Lemma record_memory_sound p r buf mem owned w :
  wp (record_memory K (Some (p, r)) buf mem owned) (fun x w' => same_regs w w' /\ forall m, x = inr m ->
    m = mem /\ recs w' = recs w /\ ahb_mems w' !! mem = Some (mk_mem buf p)) w.
Proof.
  unfold record_memory. apply wp_bind. unfold wp at 1, hask. cbn [fst snd]. apply wp_bind.
  eapply (wp_mono _ (fun _ w' => w' = w)); [by destruct (h_malloc _ _ _)|]. intros ok w0 ->. destruct ok; cbn [negb].
  - apply wp_bind. unfold wp at 1. apply wp_bind. unfold wp at 1. apply wp_bind. unfold wp at 1. apply wp_ret.
    destruct owned; cbn [whenH negb]; (split; [done|]); intros m [= <-]; (split_and!; [done|done|apply lookup_insert_eq]).
  - apply wp_bind. unfold unrealise. apply wp_bind. unfold wp at 1. cbn [getS fst snd].
    destruct (recs w !! p); [apply wp_bind|]; unfold wp at 1; [unfold wp at 1|]; apply wp_bind; unfold wp at 1; apply wp_ret; (split; [done|done]).
Qed.

Definition allocated (ai : alloc_info) (p : Z) (r : nvhal_image) (buf : Z) (extra : list ai_struct) (mem : Z) (w' : hworld) (b : gbuf) (real : Z) : Prop :=
  (exists t, gbuf_get (h_buf K) t buf = inr b) /\ realised r b real /\
  (exists bits t, i_fd_props (h_anb K) t (g_fd b) = (VK_SUCCESS, bits) /\ imported ai b real mem bits extra) /\
  recs w' !! p = Some (bound r real mem (hd_modifier (gh (g_h b)))) /\ ahb_mems w' !! mem = Some (mk_mem buf p).

Lemma alloc_from_sound ai p r buf owned extra w :
  wp (alloc_from K d ai (Some (p, r)) buf owned extra) (fun x w' => same_regs w w' /\ forall mem, x = inr mem ->
    exists b real, allocated ai p r buf extra mem w' b real /\ (is_Some (a_import (a_chain ai)) -> a_size ai = g_size b)) w.
Proof.
  unfold alloc_from. apply wp_bind. unfold wp at 1, hask. cbn [fst snd]. destruct (gbuf_get _ _ _) as [e|b] eqn:Eg; [by apply wp_ret|].
  destruct (_ && _) eqn:Es; [by apply wp_ret|]. apply wp_bind. unfold wp at 1. cbn [fst snd]. destruct (i_fd_props _ _ _) as [rp bits] eqn:Ep.
  destruct (rp =? VK_SUCCESS) eqn:Er; cbn [negb]; [|by apply wp_ret]. apply Z.eqb_eq in Er as ->.
  apply wp_bind. eapply wp_mono; [apply alloc_image_sound|]. intros [e|mem] w1 [S1 A]; [by apply wp_ret|].
  destruct (A mem eq_refl) as (_ & real & R & I & Hp). eapply wp_mono; [apply record_memory_sound|]. intros x w2 [S2 B].
  split; [by eapply same_regs_trans|]. intros m Hm. destruct (B m Hm) as (-> & Hr & Hh). exists b, real. split.
  - split_and!; [eauto|done|eauto|by rewrite Hr|done].
  - intros Hi. apply andb_false_iff in Es as [Es|Es]; [by apply bool_decide_eq_false in Es|]. by apply negb_false_iff, Z.eqb_eq in Es.
Qed.

Lemma alloc_buffer_sound ai p r w :
  wp (alloc_buffer K ai (Some (p, r))) (fun x w' => same_regs w w' /\ forall buf owned, x = inr (buf, owned) ->
    if exports_ahb (a_chain ai) then exists t, h_ahb_allocate K t (mk_desc (c_width (w_ci r)) (c_height (w_ci r)) (c_layers (w_ci r))
      (vk_to_ahb (c_format (w_ci r))) (vk_to_ahb_usage (c_flags (w_ci r)) (c_usage (w_ci r)))) = (0, buf)
    else buf = default 0 (a_import (a_chain ai))) w.
Proof.
  unfold alloc_buffer. destruct (exports_ahb _); [|apply wp_ret; split; [done|by intros ?? [= <- _]]].
  cbn zeta. destruct (_ =? 0); [by apply wp_ret|]. apply wp_bind. unfold wp at 1, hask. cbn [fst snd].
  destruct (h_ahb_allocate _ _ _) as [rc buf] eqn:Ea. destruct (negb (rc =? 0) || _) eqn:Er; [by apply wp_ret|].
  apply wp_bind. unfold wp at 1. apply wp_ret. split; [done|]. intros ?? [= <- _].
  apply orb_false_iff in Er as [Er%negb_false_iff%Z.eqb_eq _]. subst rc. eauto.
Qed.

Lemma allocate_sound ai p r w : ded_wrapper w (a_chain ai) = Some (p, r) ->
  wp (nvhal_AllocateMemory K d ai) (fun x w' => same_regs w w' /\ forall mem, x = inr mem ->
    w_kind r = WRAP_AHB /\ exists buf extra b real, allocated ai p r buf extra mem w' b real /\ buffer_of ai r b buf) w.
Proof.
  intros Hd. unfold nvhal_AllocateMemory. apply wp_bind. unfold wp at 1. cbn [getS fst snd]. cbn zeta. rewrite Hd.
  destruct (bool_decide (Some (p, r) = None)) eqn:Ed; [by apply bool_decide_eq_true in Ed|]. rewrite andb_false_r.
  destruct (_ && negb (ahb_enabled d)); [by apply wp_ret|].
  destruct (bool_decide (w_kind r = WRAP_SWAPCHAIN)) eqn:Ek; [by apply wp_ret|]. apply bool_decide_eq_false in Ek.
  assert (Hk : w_kind r = WRAP_AHB) by (by destruct (w_kind r)).
  destruct (bool_decide (a_import _ = None) && _) eqn:E1; [by apply wp_ret|].
  destruct (bool_decide (is_Some (a_import _)) && _) eqn:E2; [by apply wp_ret|].
  destruct (_ && negb (_ =? 0)); [by apply wp_ret|]. destruct (extra_chain _ _) as [extra|]; [|by apply wp_ret].
  apply wp_bind. eapply wp_mono; [apply alloc_buffer_sound|]. intros [e|[buf owned]] w1 [S1 B]; [by apply wp_ret|].
  specialize (B buf owned eq_refl). apply wp_bind. eapply wp_mono; [apply alloc_from_sound|].
  intros [e|mem] w2 [S2 A]; [apply wp_bind; unfold wp at 1; apply wp_ret; destruct owned; (split; [by eapply same_regs_trans|done])|].
  apply wp_ret. split; [by eapply same_regs_trans|]. intros ? [= <-]. split; [done|].
  destruct (A mem eq_refl) as (b & real & Ha & Hs). exists buf, extra, b, real. split; [done|]. unfold buffer_of.
  destruct (a_import (a_chain ai)) as [i|] eqn:Ei.
  - left. rewrite bool_decide_true in E2 by eauto. cbn [andb] in E2. rewrite E2 in B. cbn in B. subst i. eauto.
  - right. rewrite bool_decide_true in E1 by done. cbn [andb] in E1. apply negb_false_iff in E1. by rewrite E1 in B.
Qed.

End Alloc.

(** ** Binds *)

(** The binds the layer accepts and the ones the ICD gets for them. *)
Definition bindable (w : hworld) (b : bind_info) : bool :=
  match wrapper w (b_image b) with
  | None => true
  | Some r => bool_decide (w_kind r = WRAP_AHB /\ w_real r <> VK_NULL_HANDLE /\ w_memory r = b_memory b /\ b_offset b = 0)
  end.
Definition target (w : hworld) (b : bind_info) : bind_info :=
  match wrapper w (b_image b) with None => b | Some r => bind_to b (w_real r) end.

Lemma translate_bind_exact w b :
  translate_bind w b = if bindable w b then inr (target w b) else inl VK_ERROR_INVALID_EXTERNAL_HANDLE.
Proof.
  unfold translate_bind, bindable, target. destruct (wrapper w (b_image b)) as [r|]; [|done].
  destruct (w_kind r) eqn:Ek.
  - rewrite (bool_decide_false (WRAP_AHB = WRAP_SWAPCHAIN)) by done.
    destruct (Z.eqb_spec (w_real r) VK_NULL_HANDLE); cbn [orb]; [by rewrite bool_decide_false by naive_solver|].
    destruct (Z.eqb_spec (w_memory r) (b_memory b)); cbn [orb negb]; [|by rewrite bool_decide_false by naive_solver].
    destruct (Z.eqb_spec (b_offset b) 0); cbn [orb negb]; [by rewrite bool_decide_true by done|by rewrite bool_decide_false by naive_solver].
  - rewrite bool_decide_true by done. by rewrite bool_decide_false by naive_solver.
Qed.

Lemma translate_from_exact K w n stack_n copied l :
  translate_binds_from K w n stack_n copied l =
    (if forallb (bindable w) l then inr (target w <$> l) else inl VK_ERROR_INVALID_EXTERNAL_HANDLE) \/
  translate_binds_from K w n stack_n copied l = inl VK_ERROR_OUT_OF_HOST_MEMORY /\ h_malloc K (htr w) "binds" = false /\ stack_n < n.
Proof.
  revert copied. induction l as [|b l IH]; intros copied; [by left|]. cbn [translate_binds_from forallb fmap list_fmap].
  rewrite translate_bind_exact. destruct (bindable w b); cbn [andb]; [|by left]. cbn zeta.
  destruct (_ && negb (h_malloc _ _ _)) eqn:E.
  - right. apply andb_true_iff in E as [[_ ?%Z.ltb_lt]%andb_true_iff ?%negb_true_iff]. done.
  - destruct (IH (copied || bool_decide (is_Some (wrapper w (b_image b))))) as [->|(-> & ? & ?)]; [left|by right].
    by destruct (forallb _ l).
Qed.

Lemma translate_exact K w stack_n l :
  nvhal_ahb_translate_binds K w stack_n l =
    (if forallb (bindable w) l then inr (target w <$> l) else inl VK_ERROR_INVALID_EXTERNAL_HANDLE) \/
  nvhal_ahb_translate_binds K w stack_n l = inl VK_ERROR_OUT_OF_HOST_MEMORY /\ h_malloc K (htr w) "binds" = false /\ stack_n < Z.of_nat (length l).
Proof.
  unfold nvhal_ahb_translate_binds. destruct (nvhal_no_wrappers w) eqn:En; [|apply translate_from_exact]. left.
  assert (Hn : forall i, wrapper w i = None) by (intros i; unfold wrapper; by rewrite En, orb_true_r).
  assert (Hb : forallb (bindable w) l = true) by (apply forallb_forall; intros b _; unfold bindable; by rewrite Hn).
  rewrite Hb. f_equal. symmetry. rewrite <- (list_fmap_id l) at 2. apply list_fmap_ext. intros i b _. unfold target. by rewrite Hn.
Qed.

(** Some swapchain-bound images are realised, nothing else changes. *)
Definition realised_more (w w' : hworld) : Prop :=
  same_regs w w' /\ forall p, recs w' !! p = recs w !! p \/
    exists r real mem, recs w !! p = Some r /\ w_kind r = WRAP_SWAPCHAIN /\ w_real r = VK_NULL_HANDLE /\
      real <> VK_NULL_HANDLE /\ recs w' !! p = Some (bound r real mem (w_modifier r)).

Lemma realised_more_quiet w w' : quiet w w' -> realised_more w w'.
Proof. intros Q. split; [by apply same_regs_quiet|]. intros p. left. by rewrite (quiet_recs _ _ Q). Qed.
Lemma realised_more_trans w1 w2 w3 : realised_more w1 w2 -> realised_more w2 w3 -> realised_more w1 w3.
Proof.
  intros [S1 R1] [S2 R2]. split; [by eapply same_regs_trans|]. intros p. destruct (R1 p) as [E1|(r & real & mem & H1 & H2 & H3 & H4 & H5)].
  - rewrite <- E1. apply R2.
  - right. exists r, real, mem. split_and!; try done. destruct (R2 p) as [->|(r' & real' & mem' & H1' & _ & H3' & _)]; [done|].
    rewrite H5 in H1'. injection H1' as <-. done.
Qed.

(** What the wrapper of an image is afterwards. *)
Lemma wrapper_more w w' i : realised_more w w' -> wrapper w' i = wrapper w i \/
  exists r real mem, wrapper w i = Some r /\ w_kind r = WRAP_SWAPCHAIN /\ real <> VK_NULL_HANDLE /\ wrapper w' i = Some (bound r real mem (w_modifier r)).
Proof.
  intros [[Sr Sc] R]. unfold wrapper, nvhal_no_wrappers. rewrite Sr, Sc. destruct (_ || _); [by left|].
  destruct (decide (i ∈ regs w)); [|by left]. destruct (R i) as [->|(r & real & mem & H)]; [by left|right]. exists r, real, mem. tauto.
Qed.
Lemma swapchain_more w w' b : realised_more w w' -> is_swapchain_bound w' b = is_swapchain_bound w b.
Proof.
  intros R. unfold is_swapchain_bound, nvhal_image_wrapper_kind.
  destruct (wrapper_more w w' (b_image b) R) as [->|(r & real & mem & -> & Hk & _ & ->)]; done.
Qed.

Definition is_realised (w : hworld) (b : bind_info) : Prop := exists r, wrapper w (b_image b) = Some r /\ w_real r <> VK_NULL_HANDLE.
Lemma is_realised_more w w' b : realised_more w w' -> is_realised w b -> is_realised w' b.
Proof.
  intros R (r & Hr & Hn). destruct (wrapper_more w w' (b_image b) R) as [E|(r' & real & mem & Er & _ & Hn' & E)].
  - exists r. by rewrite E.
  - eexists. split; [exact E|done].
Qed.

Section Binds.
Context (K : hicd) `{!HicdLaws K} (d : hdev).

Lemma sc_bind_more b nb w : wp (nvhal_sc_bind K d (b_image b) nb) (fun x w' => realised_more w w' /\ (x = VK_SUCCESS -> is_realised w' b)) w.
Proof.
  assert (R0 : forall w, realised_more w w) by (intros; apply realised_more_quiet, hquiet_refl).
  unfold nvhal_sc_bind. apply wp_bind. unfold wp at 1. cbn [getS fst snd].
  destruct (wrapper w (b_image b)) as [r|] eqn:Ew; [|by apply wp_ret]. pose proof Ew as (Hp & Hi & Hz)%wrapper_rec.
  destruct (bool_decide (w_kind r = WRAP_SWAPCHAIN)) eqn:Ek; cbn [negb]; [|by apply wp_ret]. apply bool_decide_eq_true in Ek.
  destruct (Z.eqb_spec (w_real r) VK_NULL_HANDLE) as [Er|]; cbn [negb]; [|by apply wp_ret].
  set (f := nvhal_anb_import _ _ _ _). apply wp_bind. unfold wp at 1.
  assert (Q : quiet w (liftA f w).2) by (eexists; reflexivity).
  assert (Himg : forall img mem, (liftA f w).1 = inr (img, mem) -> img <> VK_NULL_HANDLE).
  { intros img mem E. apply import_image in E as (t & i & E). by eapply hl_anb_image. }
  assert (He : forall e, (liftA f w).1 = inl e -> e <> VK_SUCCESS) by apply import_errs.
  destruct (liftA f w) as [[e|[img mem]] w1]; cbn [fst snd] in *; [apply wp_ret; split; [by apply realised_more_quiet|]|].
  { intros ->. by destruct (He _ eq_refl). }
  apply wp_bind. eapply wp_mono; [apply replay_quiet|]. intros u w2 Q2. apply wp_bind. unfold wp at 1. apply wp_ret.
  assert (R : realised_more w (put_rec (b_image b) (bound r img mem (w_modifier r)) w2).2).
  { assert (QQ : quiet w w2) by (by eapply hquiet_trans). apply same_regs_quiet in QQ as SQ. split; [exact SQ|]. intros p. cbn [recs put_rec modS snd].
    rewrite (quiet_recs _ _ QQ). destruct (decide (p = b_image b)) as [->|Hne].
    - right. exists r, img, mem. rewrite lookup_insert_eq. split_and!; try done. by eapply Himg.
    - left. by rewrite lookup_insert_ne by congruence. }
  split; [exact R|]. intros _. destruct (wrapper_more _ _ (b_image b) R) as [E|(r' & real & m & Er' & _ & Hn & E)].
  - exfalso. pose proof E as E'. rewrite Ew in E'. apply wrapper_rec in E' as (E' & _). cbn [recs put_rec modS snd] in E'.
    rewrite lookup_insert_eq in E'. apply (f_equal (fmap w_real)) in E'. cbn in E'. rewrite Er in E'. injection E' as E'. by apply (Himg img mem).
  - eexists. split; [exact E|done].
Qed.

Lemma sc_binds_more l r w : wp (sc_binds K d l r) (fun x w' => realised_more w w' /\
  (x = VK_SUCCESS -> r = VK_SUCCESS /\ forall b, b ∈ l -> is_swapchain_bound w b = true -> is_realised w' b)) w.
Proof.
  revert r w. induction l as [|b l IH]; intros r w.
  { apply wp_ret. split; [apply realised_more_quiet, hquiet_refl|]. intros ->. split; [done|]. by intros b ?%elem_of_nil. }
  cbn [sc_binds]. apply wp_bind. unfold wp at 1. cbn [getS fst snd]. destruct (is_swapchain_bound w b) eqn:Eb; cbn [negb].
  - apply wp_bind. eapply wp_mono; [apply sc_bind_more|]. intros ri w1 [R1 H1]. apply wp_bind. unfold wp at 1.
    match goal with |- wp _ _ ?x => set (w2 := x) end.
    assert (R2 : realised_more w1 w2) by (apply realised_more_quiet, quiet_when).
    eapply wp_mono; [apply IH|]. intros x w3 [R3 H3]. assert (R13 : realised_more w w3) by (do 2 (eapply realised_more_trans; [eassumption|]); done).
    split; [done|]. intros Hx. destruct (H3 Hx) as [Hr HA].
    assert (Hri : ri = VK_SUCCESS /\ r = VK_SUCCESS).
    { destruct (Z.eqb_spec ri VK_SUCCESS) as [->|Hne]; [done|]. cbn [negb andb] in Hr. by destruct (Z.eqb_spec r VK_SUCCESS). }
    destruct Hri as [-> ->]. split; [done|]. intros b' [->|Hb']%elem_of_cons Hs.
    + apply (is_realised_more w2 w3); [done|]. apply (is_realised_more w1 w2); auto.
    + apply HA; [done|]. by rewrite (swapchain_more w1 w2), (swapchain_more w w1).
  - eapply wp_mono; [apply IH|]. intros x w3 [R3 H3]. split; [done|]. intros Hx. destruct (H3 Hx) as [-> HA]. split; [done|].
    intros b' [->|Hb']%elem_of_cons Hs; [congruence|auto].
Qed.

(** The binds of a call that are for the ICD, unchanged by the swapchain binds. *)
Lemma bindable_more w w' b : realised_more w w' -> is_swapchain_bound w b = false -> wrapper w' (b_image b) = wrapper w (b_image b).
Proof.
  intros R Hb. destruct (wrapper_more w w' (b_image b) R) as [->|(r & real & mem & Hr & Hk & _)]; [done|].
  unfold is_swapchain_bound, nvhal_image_wrapper_kind in Hb. rewrite Hr in Hb. cbn in Hb. rewrite Hk in Hb. by apply bool_decide_eq_false in Hb.
Qed.

(** The ICD's call. *)
Definition bind_call (w : hworld) (l : list bind_info) : event :=
  Called "vkBindImageMemory2" (VK_SUCCESS :: ((target w <$> l) ≫= fun b => [b_image b; b_memory b; b_offset b])).

Lemma bind2_run l w : wp (bind2 K d l) (fun x w' =>
  (forallb (check_bind w) l = false -> x = VK_ERROR_INVALID_EXTERNAL_HANDLE /\ w' = w) /\ realised_more w w' /\
  (x = VK_SUCCESS -> 
    let rest := filter (fun b => is_swapchain_bound w b = false) l in
    (forall b, b ∈ l -> is_swapchain_bound w b = true -> is_realised w' b) /\ forallb (bindable w) rest = true /\
    (rest <> [] -> exists t, htr w' = t ++ [bind_call w rest]))) w.
Proof.
  unfold bind2. apply wp_bind. unfold wp at 1. cbn [getS fst snd]. assert (R0 : realised_more w w) by apply realised_more_quiet, hquiet_refl.
  destruct (forallb (check_bind w) l) eqn:Ec; cbn [negb]; [|by apply wp_ret]. cbn zeta. set (rest := filter _ l).
  assert (Hrest : forall b, b ∈ rest -> is_swapchain_bound w b = false) by (by intros b [? _]%list_elem_of_filter).
  apply wp_bind. eapply wp_mono; [apply sc_binds_more|]. intros x w1 [R1 H1].
  destruct (Z.eqb_spec x VK_SUCCESS) as [->|Hx]; cbn [negb]; [|apply wp_ret; split_and!; done]. destruct (H1 eq_refl) as [_ HA].
  destruct (bool_decide (rest = [])) eqn:Er.
  { apply bool_decide_eq_true in Er. apply wp_ret. rewrite Er. split_and!; done. }
  destruct (_ && negb _); [by apply wp_ret|]. apply wp_bind. unfold wp at 1. cbn [getS fst snd].
  assert (Hw : forall b, b ∈ rest -> wrapper w1 (b_image b) = wrapper w (b_image b)) by (intros b Hb; apply bindable_more; auto).
  destruct (translate_exact K w1 8 rest) as [->|(-> & _)]; [|by apply wp_ret].
  assert (Hbind : forallb (bindable w1) rest = forallb (bindable w) rest).
  { clear -Hw. clearbody rest. induction rest as [|b l' IH]; [done|]. cbn [forallb]. rewrite IH by (intros; apply Hw; by right).
    unfold bindable at 1 3. by rewrite Hw by left. }
  assert (Htarget : target w1 <$> rest = target w <$> rest).
  { apply list_fmap_ext. intros i b Hb%list_elem_of_lookup_2. unfold target. by rewrite Hw. }
  rewrite Hbind, Htarget. destruct (forallb (bindable w) rest) eqn:Eb; [|by apply wp_ret].
  unfold forward_binds. apply wp_bind. unfold wp at 1, hask. cbn [fst snd]. apply wp_bind. unfold wp at 1. apply wp_ret. split_and!.
  - done.
  - eapply realised_more_trans; [exact R1|apply realised_more_quiet, quiet_hev].
  - intros Hs. split_and!; [|done|].
    + intros b Hb Hsb. eapply is_realised_more; [apply realised_more_quiet, quiet_hev|]. auto.
    + intros _. exists (htr w1). unfold bind_call. rewrite Hs. reflexivity.
Qed.

End Binds.

(** ** External formats *)

Lemma external_format_u32 f : external_format_ok f = true -> u32 f = f /\ f <> VK_FORMAT_UNDEFINED.
Proof.
  unfold external_format_ok, vk_to_ahb, yuv_vk. intros H. apply orb_true_iff in H as [H|H%bool_decide_eq_true].
  - destruct (list_find _ _) as [[i e]|] eqn:E; [|done]. apply list_find_Some in E as (Hi & <- & _). apply list_elem_of_lookup_2 in Hi.
    unfold gralloc_formats in Hi. set_unfold in Hi. destruct_or!; subst; done.
  - cbn in H. set_unfold in H. destruct_or!; subst; done.
Qed.

(** A create-info for a buffer of an external format. *)
Definition external_ci (ci : image_ci) (ext : Z) (b : gbuf) : Prop :=
  c_chain ci = [CExternalMemory HANDLE_TYPE_AHB; CExternalFormat ext] /\ c_format ci = VK_FORMAT_UNDEFINED /\
  c_tiling ci = VK_IMAGE_TILING_OPTIMAL /\ single_2d ci = true /\ has_any (c_flags ci) CREATE_MUTABLE_FORMAT = false /\ c_families ci = [] /\
  c_width ci = d_width (g_desc b) /\ c_height ci = d_height (g_desc b) /\ c_layers ci = d_layers (g_desc b).

(** the external format vkGetAndroidHardwareBufferPropertiesANDROID gives for
    a buffer is one vkCreateImage and vkCreateSamplerYcbcrConversion take back,
    with format UNDEFINED: both mean the buffer's own format by it, and an image
    created so matches the buffer it is then realised on. *)
Theorem external_format_roundtrip (K : hicd) (modifiers : Z -> list VkDrmFormatModifierProperties2EXT) (stype_size : Z -> Z)
    (create : Z -> bool -> Z + Z) (t t' : trace) buf b fmt ext feat (ci : image_ci) :
  gbuf_get (h_buf K) t buf = inr b -> ahb_format_props modifiers b = inr (fmt, ext, feat) -> external_ci ci ext b ->
  (exists r, parse_ci K t' ci = inr r /\ ahb_matches r b = true) /\
  create_ycbcr stype_size create [] (Some ext) VK_FORMAT_UNDEFINED = create (g_format b) true.
Proof.
  intros Hg Hf (H1 & H2 & H3 & H4 & H5 & H6 & H7 & H8 & H9).
  assert (Hb : g_blob b = false) by (unfold ahb_format_props in Hf; by destruct (g_blob b)).
  assert (ext = g_format b) as -> by (unfold ahb_format_props in Hf; repeat case_match; try done; congruence).
  pose proof (gbuf_external _ _ _ _ Hg Hb) as Ho. destruct (external_format_u32 _ Ho) as [Hu Hn]. apply Z.eqb_neq in Hn as Hn'. split.
  - unfold parse_ci. rewrite H1. cbn [parse_chain]. rewrite Z.eqb_refl. cbn [p_formats p_stencil p_ext]. rewrite Hu, Hn', H2, H3, H4, H5, Ho. cbn [negb andb orb Z.eqb].
    unfold kept_families. rewrite H6, andb_false_r. rewrite ?Ho, !Z.eqb_refl. cbn [negb andb orb]. eexists. split; [reflexivity|]. unfold ahb_matches, kept_ci. cbn [w_ci c_format c_width c_height c_layers].
    by rewrite Hb, H7, H8, H9, !Z.eqb_refl.
  - unfold create_ycbcr. change VK_FORMAT_UNDEFINED with 0 in Hn'. by rewrite Hu, Hn', Ho.
Qed.

(** VkBindImageMemory2 of any mix of images.  A bind of the wrong kind of
    image fails the call with nothing done; whatever happens, only
    swapchain-bound images without memory change.  When the call succeeds,
    every swapchain-bound image has its ICD image, every bind of an AHB image
    was to its own memory at offset 0, and the ICD's last call has exactly the
    other binds, in order, on the ICD images. *)
Theorem bind2_exact (K : hicd) `{!HicdLaws K} (d : hdev) (l : list bind_info) w :
  let '(x, w') := bind2 K d l w in
  (forallb (check_bind w) l = false -> x = VK_ERROR_INVALID_EXTERNAL_HANDLE /\ w' = w) /\
  realised_more w w' /\
  (x = VK_SUCCESS ->
    let rest := filter (fun b => is_swapchain_bound w b = false) l in
    (forall b, b ∈ l -> is_swapchain_bound w b = true -> is_realised w' b) /\ forallb (bindable w) rest = true /\
    (rest <> [] -> exists t, htr w' = t ++ [bind_call w rest])).
Proof. pose proof (bind2_run K d l w) as H. unfold wp in H. destruct (bind2 K d l w). exact H. Qed.

(** The planes of a buffer of several. *)
Definition planes_placed (K : hicd) (r : nvhal_image) (b : gbuf) : Prop := exists usage t t' img,
  h_create K t (disjoint_ci r b usage) = (VK_SUCCESS, img) /\
  (ends_u64 (plane_needs K t' b img) -> placed (g_size b) 0 (plane_needs K t' b img)).

(** C30: a successful AHB allocation for an image has created the ICD image
    with the application's create-info and exactly the buffer's format, extent,
    modifier, plane offsets and pitches (the usage possibly without input
    attachment, on a LINEAR buffer only); its memory is the buffer's dma-buf,
    large enough, of a type both allow; for a YUV buffer the driver was asked
    what the planes of a disjoint image of this layout need, and by that answer
    the planes are aligned, disjoint and inside the buffer (if no plane the
    driver reports ends beyond 64 bits).  vkBindImageMemory of the image is
    passed to the driver, on the ICD image, for exactly this memory at offset
    0; with any other memory or offset it is refused without a call. *)
Theorem ahb_allocate_sound (K : hicd) `{!HicdLaws K} (d : hdev) (ai : alloc_info) w mem w' p r :
  nvhal_AllocateMemory K d ai w = (inr mem, w') -> ded_wrapper w (a_chain ai) = Some (p, r) ->
  exists buf extra b real,
    allocated K ai p r buf extra mem w' b real /\ buffer_of K ai r b buf /\ (1 < g_planes b -> planes_placed K r b) /\
    wrapper w' p = Some (bound r real mem (hd_modifier (gh (g_h b)))) /\
    (nvhal_BindImageMemory K p mem 0 w').1 = h_bind K (htr w') [(real, mem, 0)] /\
    (forall m off, m <> mem \/ off <> 0 -> nvhal_BindImageMemory K p m off w' = (VK_ERROR_INVALID_EXTERNAL_HANDLE, w')).
Proof.
  intros H Hd. pose proof (allocate_sound K d ai p r w Hd) as W. unfold wp in W. rewrite H in W. cbn [fst snd] in W.
  destruct W as [[Sr Sc] W]. destruct (W mem eq_refl) as (Hk & buf & extra & b & real & A & B). exists buf, extra, b, real.
  destruct A as (Hg & (Hb & (c & t & HR & Hc & HP)) & HI & Hrec & Hmem).
  assert (Hw : wrapper w' p = Some (bound r real mem (hd_modifier (gh (g_h b))))).
  { pose proof (ded_wrapper_wrapper w _ _ _ Hd) as Hx.
    unfold wrapper, nvhal_no_wrappers in *. rewrite Sc, Sr, Hrec. by repeat case_match. }
  assert (Hn : nvhal_no_wrappers w' = false) by (unfold wrapper in Hw; destruct (nvhal_no_wrappers w'); [by rewrite orb_true_r in Hw|done]).
  assert (Hreal : (real =? VK_NULL_HANDLE) = false) by (apply Z.eqb_neq; by eapply hl_image).
  split_and!; [by repeat split; eauto 10|done| |done| |].
  - intros Hp. destruct (HP Hp) as (t1 & t2 & img & Hi & HB). exists (c_usage (k_ci c)), t1, t2, img. split; [done|]. intros U. by apply planes_bindable_placed.
  - unfold nvhal_BindImageMemory. rewrite bind_run. cbn [getS fst snd]. unfold nvhal_ahb_translate_binds. rewrite Hn.
    cbn [translate_binds_from length]. unfold translate_bind. cbn [b_image b_memory b_offset b_chain]. rewrite Hw.
    cbn [w_kind w_real w_memory bound]. rewrite Hk, Hreal, Z.eqb_refl. rewrite (bool_decide_false (WRAP_AHB = WRAP_SWAPCHAIN)) by done. reflexivity.
  - intros m off Hmo. unfold nvhal_BindImageMemory. rewrite bind_run. cbn [getS fst snd]. unfold nvhal_ahb_translate_binds. rewrite Hn.
    cbn [translate_binds_from length]. unfold translate_bind. cbn [b_image b_memory b_offset b_chain]. rewrite Hw.
    cbn [w_kind w_real w_memory bound]. rewrite Hk, Hreal. cbn [orb bool_decide]. rewrite bool_decide_false by done.
    destruct (negb (mem =? m) || negb (off =? 0)) eqn:E; [done|]. apply orb_false_iff in E as [E1%negb_false_iff%Z.eqb_eq E2%negb_false_iff%Z.eqb_eq]. naive_solver.
Qed.

(** ** Witnesses *)

(** Image 1 with buffer 8 imported for it: realised on the buffer's block-linear
    modifier, bound at offset 0 only. *)
Lemma ahb_allocate_sound_witness :
  let w := run_hops demo_hicd demo_hdev [HCreateImage demo_image] hw_init in
  let w' := (nvhal_AllocateMemory demo_hicd demo_hdev demo_import w).2 in
  (exists r b c, ahb_mems w' !! 1 = Some (mk_mem 8 1) /\ wrapper w 1 = Some r /\ realises r b c /\ g_size b = 8294400) /\
  nvhal_BindImageMemory demo_hicd 1 1 4096 w' = (VK_ERROR_INVALID_EXTERNAL_HANDLE, w').
Proof.
  cbn zeta. set (w := run_hops _ _ _ hw_init). destruct (wrapper w 1) as [r|] eqn:Er; [|vm_compute in Er; discriminate Er].
  destruct (nvhal_AllocateMemory demo_hicd demo_hdev demo_import w) as [[e|mem] w'] eqn:Ea; [vm_compute in Ea; discriminate Ea|].
  assert (Hm : mem = 1 /\ ahb_mems w' !! 1 = Some (mk_mem 8 1)) by (vm_compute in Ea; injection Ea as <- <-; split; reflexivity).
  destruct Hm as [-> Hm].
  destruct (ahb_allocate_sound demo_hicd demo_hdev demo_import w 1 w' 1 r Ea) as (buf & extra & b & real & A & B & _ & _ & _ & C).
  - unfold ded_wrapper. change (a_ded (a_chain demo_import)) with (Some (1, 0)). cbn beta match. rewrite Er. reflexivity.
  - split; [|apply C; right; discriminate]. destruct A as (_ & (_ & (c & _ & R & _)) & _). exists r, b, c.
    split; [exact Hm|]. split; [reflexivity|]. split; [exact R|].
    destruct B as [[_ B]|[B _]]; [symmetry; exact B|vm_compute in B; discriminate B].
Defined.

Definition demo_external_image : image_ci :=
  mk_image_ci 0 VK_IMAGE_TYPE_2D VK_FORMAT_UNDEFINED 1920 1080 1 1 1 1 VK_IMAGE_TILING_OPTIMAL 0x4 0 [] 0
    [CExternalMemory HANDLE_TYPE_AHB; CExternalFormat VK_FORMAT_R8G8B8A8_UNORM].
Lemma external_format_roundtrip_witness :
  exists b r, gbuf_get demo_buffers [] 8 = inr b /\ parse_ci demo_hicd [] demo_external_image = inr r /\ ahb_matches r b = true.
Proof.
  destruct (gbuf_get demo_buffers [] 8) as [e|b] eqn:E; [vm_compute in E; discriminate E|]. exists b.
  destruct (ahb_format_props demo_modifiers b) as [e|[[fmt ext] feat]] eqn:Ef; [vm_compute in E; injection E as <-; vm_compute in Ef; discriminate Ef|].
  destruct (external_format_roundtrip demo_hicd demo_modifiers (fun _ => 0) (fun _ _ => inl 0) [] [] 8 b fmt ext feat demo_external_image E Ef) as [(r & Hr & Hm) _].
  - vm_compute in E. injection E as <-. vm_compute in Ef. injection Ef as <- <- <-. repeat split.
  - exists r. split; [reflexivity|]. split; [exact Hr|exact Hm].
Defined.

(** Two swapchain-bound images (1, 2) and an AHB image (3) in one call. *)
Definition demo_sc_image : image_ci :=
  mk_image_ci 0 VK_IMAGE_TYPE_2D VK_FORMAT_R8G8B8A8_UNORM 1920 1080 1 1 1 1 VK_IMAGE_TILING_OPTIMAL 0x10 0 [] 0 [CSwapchain 77].
Definition demo_sc_bind (image : Z) : bind_info := mk_bind image VK_NULL_HANDLE 0 [BNativeBuffer (Some demo_buf); BSwapchain 0].
Definition demo_mixed : list hop :=
  [HCreateImage demo_sc_image; HCreateImage demo_sc_image; HCreateImage demo_image; HAllocate (mk_ai 8294400 1 [AImport 8; ADedicated 3 0])].
Lemma bind2_exact_witness :
  let w := run_hops demo_hicd demo_hdev demo_mixed hw_init in
  let w' := (bind2 demo_hicd demo_hdev [demo_sc_bind 1; mk_bind 3 1 0 []; demo_sc_bind 2] w).2 in
  is_realised w' (demo_sc_bind 2) /\ exists t, htr w' = t ++ [bind_call w [mk_bind 3 1 0 []]].
Proof.
  cbn zeta. set (w := run_hops _ _ _ hw_init). set (l := [_; _; _]).
  pose proof (bind2_exact demo_hicd demo_hdev l w) as H. destruct (bind2 demo_hicd demo_hdev l w) as [x w'] eqn:E.
  assert (Hx : x = VK_SUCCESS) by (vm_compute in E; injection E as <- _; reflexivity). destruct H as (_ & _ & H).
  destruct (H Hx) as (A & _ & B). split.
  - apply A; [by right; right; left|vm_compute; reflexivity].
  - assert (Hr : filter (fun b => is_swapchain_bound w b = false) l = [mk_bind 3 1 0 []]) by (vm_compute; reflexivity).
    rewrite Hr in B. apply B. discriminate.
Defined.

(** ** Defects *)

Definition calls_of (name : string) (t : trace) : list (list Z) :=
  omap (fun e => match e with Called n a => if bool_decide (n = name) then Some a else None | _ => None end) t.

(** A name given with VK_EXT_debug_marker before the image has memory: the flag
    that says so is never set, and the ICD gets no marker name. *)
Lemma marker_name_lost :
  let l := [HCreateImage demo_image; HMarkerName 1 (Some [65]); HAllocate demo_import] in
  let ask d := calls_of "vkDebugMarkerSetObjectNameEXT" (htr (run_hops demo_hicd d l hw_init)) in
  ask demo_hdev = [] /\ ask (mk_hdev demo_dev true false true true) = [].
Proof. vm_compute. done. Qed.

(** Memory freed before it was bound leaves its image realised: it can neither
    get memory again nor be bound. *)
Lemma freed_memory_image_stuck :
  let w := run_hops demo_hicd demo_hdev [HCreateImage demo_image; HAllocate demo_import; HFree 1] hw_init in
  (nvhal_AllocateMemory demo_hicd demo_hdev demo_import w).1 = inl VK_ERROR_INVALID_EXTERNAL_HANDLE /\
  balance KMemory 1 (htr w) = 0.
Proof. vm_compute. done. Qed.

(** The AHB bind of a call is refused after the call has realised a
    swapchain-bound image. *)
Lemma bind2_checks_late :
  let w := run_hops demo_hicd demo_hdev demo_mixed hw_init in
  let '(x, w') := bind2 demo_hicd demo_hdev [demo_sc_bind 1; mk_bind 3 1 4096 []] w in
  x = VK_ERROR_INVALID_EXTERNAL_HANDLE /\ (w_real <$> wrapper w 1) = Some VK_NULL_HANDLE /\ (w_real <$> wrapper w' 1) <> Some VK_NULL_HANDLE.
Proof. vm_compute. done. Qed.

(** The value of a destroyed slot stays with an image without memory: it is
    read, and given to the ICD when the image gets memory. *)
Lemma destroyed_slot_kept :
  let w := run_hops demo_hicd demo_hdev [HCreateImage demo_image; HSetPrivateData 1 5 6] hw_init in
  let '(s, w1) := xl_DestroyPrivateDataSlot 5 (LoaderPd.mk_lpds [] 0) w in
  get_pd (fun _ _ _ => 0) w1 1 5 = 6 /\
  calls_of "vkSetPrivateData" (htr (nvhal_AllocateMemory demo_hicd demo_hdev demo_import w1).2) = [[101; 5; 6]].
Proof. vm_compute. done. Qed.

End AhbProps.
