(* ===== verification/ImgCommands.v ===== *)
(** * Commands that name images ([hal/src/imgxlate.c])

    Every command that can carry a VkImage is intercepted: the handle of a
    wrapper ([Ahb]) becomes that of its ICD image, on a copy of the
    application's structures, on the stack or on the heap; a command naming a
    wrapper without an ICD image is dropped.  Modelled: the translation of one
    image and of an array of structures, and the commands built on them.

    The heap is the list of blocks in use; [x_faults] counts frees of others.
    The ICD's calls are logged in [x_sent].  The images here are none of the ASTC
    emulation's ([Astc]): its hooks do not take the command. *)

From Stdlib Require Import ZArith Lia.
From stdpp Require Import base option strings gmap list.
From S2P Require Import Prelude HashTable Vulkan ImgXlate GrallocFormat CrosHandle Anb AhbBuffer Ahb AhbSession.

Set Default Goal Selector "!".
#[local] Open Scope Z_scope.

Module ImgCommands.
Import Vk Anb AhbBuffer Ahb AhbSession.

Definition VK_ERROR_UNKNOWN : Z := -13.

(** ** Structures *)

(** [b_rest], [d_rest], ...: the members that are not translated. *)
Record barrier := mk_b { b_image : Z; b_rest : Z }.
Record dep := mk_dep { d_rest : Z; d_barriers : list barrier }.
Record sparse := mk_sparse { s_rest : Z; s_opaque : list barrier; s_image : list barrier }.
(** A descriptor of an image type has a view: image and format. *)
Record resource := mk_res { r_image_type : bool; r_view : option (Z * Z) }.

Inductive icd_call :=
  | KImages (name : string) (images : list Z)
  | KBarriers (name : string) (l : list barrier)
  | KDeps (name : string) (l : list dep)
  | KSparse (l : list sparse)
  | KWrite (l : list resource).

Record xstate := mk_x { x_blocks : list Z; x_next : Z; x_sent : list icd_call; x_faults : Z }.

(** Where an array is. *)
Inductive place := Src | Stack | Heap (p : Z).

Section Xl.
(** The wrappers, the allocator's and the ICD's answers. *)
Context (w : hworld) (mem : xstate -> bool) (answer : icd_call -> Z).

(** 0: no memory. *)
Definition malloc : M xstate Z := fun s =>
  if mem s then (x_next s, mk_x (x_next s :: x_blocks s) (x_next s + 1) (x_sent s) (x_faults s))
  else (0, mk_x (x_blocks s) (x_next s + 1) (x_sent s) (x_faults s)).
Fixpoint drop_block (p : Z) (l : list Z) : list Z := match l with [] => [] | q :: l => if q =? p then l else q :: drop_block p l end.
Definition free (p : Z) : M xstate () := modS (fun s =>
  if p =? 0 then s
  else mk_x (drop_block p (x_blocks s)) (x_next s) (x_sent s) (x_faults s + (if bool_decide (p ∈ x_blocks s) then 0 else 1))).
Definition send (c : icd_call) : M xstate Z := fun s => (answer c, mk_x (x_blocks s) (x_next s) (x_sent s ++ [c]) (x_faults s)).

(** ** Images *)

(** The image, whether it was a wrapper, and [*bad]. *)
Definition xl1 (img : Z) (bad : bool) : Z * bool * bool :=
  if nvhal_no_wrappers w || (img =? VK_NULL_HANDLE) then (img, false, bad)
  else let '(r, hit) := nvhal_image_xl w img in
       if hit then (r, true, bad || (r =? VK_NULL_HANDLE)) else (img, false, bad).

Section Arr.
Context {A : Type} (get : A -> Z) (put : Z -> A -> A).

(** From element [i] on; [dst]: the copy, when there is one. *)
Fixpoint arr_loop (fits : bool) (src rest : list A) (i : nat) (dst : option (place * list A)) (bad : bool) : M xstate (list A * place * bool) :=
  match rest with
  | [] => mret (match dst with Some (p, l) => (l, p, bad) | None => (src, Src, bad) end)
  | x :: rest =>
      let '(img, hit, bad) := xl1 (get x) bad in
      if negb hit then arr_loop fits src rest (S i) dst bad
      else
      match dst with
      | Some (p, l) => arr_loop fits src rest (S i) (Some (p, alter (put img) i l)) bad
      | None =>
          if fits then arr_loop fits src rest (S i) (Some (Stack, alter (put img) i src)) bad
          else
          p ← malloc;
          if p =? 0 then mret (src, Src, true)
          else arr_loop fits src rest (S i) (Some (Heap p, alter (put img) i src)) bad
      end
  end.

(** [stack]: how many elements the caller's stack array has. *)
Definition xl_arr (src : list A) (stack : Z) (bad : bool) : M xstate (list A * place * bool) :=
  if bool_decide (src = []) || nvhal_no_wrappers w then mret (src, Src, bad)
  else arr_loop (Z.of_nat (length src) <=? stack) src src 0 None bad.
End Arr.

Definition xl_free (p : place) : M xstate () := match p with Heap p => free p | _ => mret tt end.

Definition set_image (i : Z) (b : barrier) : barrier := mk_b i (b_rest b).

(** ** Commands with one or two images *)

(** [xl1] on each, in order. *)
Fixpoint xl_images (l : list Z) (bad : bool) : list Z * bool :=
  match l with
  | [] => ([], bad)
  | i :: l => let '(i', _, bad) := xl1 i bad in let '(l', bad) := xl_images l bad in (i' :: l', bad)
  end.
(** [tracked]: the command buffer was allocated through the HAL. *)
Definition cmd_images (tracked : bool) (name : string) (l : list Z) : M xstate Z :=
  if negb tracked then mret 0
  else let '(l', bad) := xl_images l false in if bad then mret 0 else send (KImages name l').

Definition xl_CmdBlitImage tracked (src dst : Z) := cmd_images tracked "vkCmdBlitImage" [src; dst].
Definition xl_CmdCopyImage tracked (src dst : Z) := cmd_images tracked "vkCmdCopyImage" [src; dst].
Definition xl_CmdResolveImage tracked (src dst : Z) := cmd_images tracked "vkCmdResolveImage" [src; dst].
Definition xl_CmdCopyBufferToImage tracked (dst : Z) := cmd_images tracked "vkCmdCopyBufferToImage" [dst].
Definition xl_CmdCopyImageToBuffer tracked (src : Z) := cmd_images tracked "vkCmdCopyImageToBuffer" [src].
Definition xl_CmdClearColorImage tracked (img : Z) := cmd_images tracked "vkCmdClearColorImage" [img].
Definition xl_CmdClearDepthStencilImage tracked (img : Z) := cmd_images tracked "vkCmdClearDepthStencilImage" [img].
Definition xl_CmdCopyMemoryToImageIndirectNV tracked (dst : Z) := cmd_images tracked "vkCmdCopyMemoryToImageIndirectNV" [dst].
(** The structure commands: [*2], [*2KHR] (CMD_INFO2). *)
Definition cmd_info2 tracked (name : string) (image1 image2 : Z) := cmd_images tracked name [image1; image2].
(** vkCopyImageToImage and the like (HOST_COPY). *)
Definition host_copy (name : string) (image1 image2 : Z) : M xstate Z :=
  let '(l', bad) := xl_images [image1; image2] false in
  if bad then mret VK_ERROR_UNKNOWN else send (KImages name l').

(** ** Barriers *)

Definition cmd_barriers (tracked : bool) (name : string) (l : list barrier) : M xstate Z :=
  if negb tracked then mret 0
  else
  '(t, pl, bad) ← xl_arr b_image set_image l 16 false;
  _ ← (if bad : bool then mret 0 else send (KBarriers name t));
  _ ← xl_free pl;
  mret 0.
Definition xl_CmdPipelineBarrier tracked := cmd_barriers tracked "vkCmdPipelineBarrier".
Definition xl_CmdWaitEvents tracked := cmd_barriers tracked "vkCmdWaitEvents".

(** vkCmdPipelineBarrier2 and vkCmdSetEvent2. *)
Definition cmd_dep (tracked : bool) (name : string) (info : dep) : M xstate Z :=
  if negb tracked then mret 0
  else
  '(t, pl, bad) ← xl_arr b_image set_image (d_barriers info) 16 false;
  _ ← (if bad : bool then mret 0 else send (KDeps name [mk_dep (d_rest info) t]));
  _ ← xl_free pl;
  mret 0.

(** [copy] and [arrs] of vkCmdWaitEvents2: their addresses, the dependencies as
    translated so far, the heap arrays. *)
Record copies (B : Type) := mk_copies { c_copy : Z; c_arrs : Z; c_list : list B; c_blocks : list Z }.
#[global] Arguments mk_copies {_} _ _ _ _.
#[global] Arguments c_copy {_} _.
#[global] Arguments c_arrs {_} _.
#[global] Arguments c_list {_} _.
#[global] Arguments c_blocks {_} _.

(** The loop from dependency [i] on: what was copied, and [bad]. *)
Fixpoint wait_loop (rest : list dep) (i : nat) (deps : list dep) (c : option (copies dep)) : M xstate (option (copies dep) * bool) :=
  match rest with
  | [] => mret (c, false)
  | x :: rest =>
      '(a, pl, bad) ← xl_arr b_image set_image (d_barriers x) 0 false;
      match pl with
      | Heap p =>
          match c with
          | Some k =>
              let k' := mk_copies (c_copy k) (c_arrs k) (alter (fun y => mk_dep (d_rest y) a) i (c_list k)) (c_blocks k ++ [p]) in
              if bad : bool then mret (Some k', true) else wait_loop rest (S i) deps (Some k')
          | None =>
              copy ← malloc;
              arrs ← malloc;
              if (copy =? 0) || (arrs =? 0) then (_ ← free p; mret (Some (mk_copies copy arrs deps []), true))
              else
              let k' := mk_copies copy arrs (alter (fun y => mk_dep (d_rest y) a) i deps) [p] in
              if bad : bool then mret (Some k', true) else wait_loop rest (S i) deps (Some k')
          end
      | _ => if bad : bool then mret (c, true) else wait_loop rest (S i) deps c
      end
  end.
Definition free_all (l : list Z) : M xstate () := foldM (fun _ p => free p) l tt.

(** Without emulated images. *)
Definition wait_events2 (tracked : bool) (deps : list dep) : M xstate Z :=
  if negb tracked then mret 0
  else if nvhal_no_wrappers w then send (KDeps "vkCmdWaitEvents2" deps)
  else
  '(c, bad) ← wait_loop deps 0 deps None;
  _ ← (if bad : bool then mret 0 else send (KDeps "vkCmdWaitEvents2" (match c with Some k => c_list k | None => deps end)));
  _ ← (match c with Some k => free_all (c_blocks k ++ [c_arrs k; c_copy k]) | None => mret tt end);
  mret 0.

(** vkTransitionImageLayout; vkGetImageOpaqueCaptureDataEXT. *)
Definition transition (l : list barrier) : M xstate Z :=
  '(t, pl, bad) ← xl_arr b_image set_image l 8 false;
  r ← (if bad : bool then mret VK_ERROR_UNKNOWN else send (KBarriers "vkTransitionImageLayout" t));
  _ ← xl_free pl;
  mret r.
Definition xl_GetImageOpaqueCaptureDataEXT (l : list Z) : M xstate Z :=
  '(t, pl, bad) ← xl_arr id (fun i _ => i) l 16 false;
  r ← (if bad : bool then mret VK_ERROR_UNKNOWN else send (KImages "vkGetImageOpaqueCaptureDataEXT" t));
  _ ← xl_free pl;
  mret r.

(** ** Sparse binds *)

(** An array copied to the heap is owned by the call's list, or freed when there
    is none. *)
Definition own_array (k : copies sparse) (pl : place) (f : sparse -> sparse) (i : nat) : M xstate (copies sparse) :=
  match pl with
  | Heap p =>
      let l := if c_copy k =? 0 then c_list k else alter f i (c_list k) in
      if c_arrs k =? 0 then (_ ← free p; mret (mk_copies (c_copy k) (c_arrs k) l (c_blocks k)))
      else mret (mk_copies (c_copy k) (c_arrs k) l (c_blocks k ++ [p]))
  | _ => mret k
  end.

Fixpoint sparse_loop (rest : list sparse) (i : nat) (bi : list sparse) (c : option (copies sparse)) (r : Z) :
    M xstate (option (copies sparse) * bool * Z) :=
  match rest with
  | [] => mret (c, false, r)
  | x :: rest =>
      '(o, po, bad) ← xl_arr b_image set_image (s_opaque x) 0 false;
      '(m, pm, bad) ← xl_arr b_image set_image (s_image x) 0 bad;
      match po, pm with
      | Src, Src => if bad : bool then mret (c, true, r) else sparse_loop rest (S i) bi c r
      | _, _ =>
          '(k, bad, r) ← (match c with
            | Some k => mret (k, bad : bool, r)
            | None =>
                copy ← malloc;
                owned ← malloc;
                mret (mk_copies copy owned bi [], bad || (copy =? 0) || (owned =? 0),
                      if (copy =? 0) || (owned =? 0) then VK_ERROR_OUT_OF_HOST_MEMORY else r)
            end);
          k ← own_array k po (fun y => mk_sparse (s_rest y) o (s_image y)) i;
          k ← own_array k pm (fun y => mk_sparse (s_rest y) (s_opaque y) m) i;
          if bad : bool then mret (Some k, true, r) else sparse_loop rest (S i) bi (Some k) r
      end
  end.

Definition bind_sparse_wrappers (bi : list sparse) : M xstate Z :=
  if nvhal_no_wrappers w then send (KSparse bi)
  else
  '(c, bad, r) ← sparse_loop bi 0 bi None VK_SUCCESS;
  r ← (if bad : bool then mret (if r =? VK_SUCCESS then VK_ERROR_UNKNOWN else r)
       else send (KSparse (match c with Some k => c_list k | None => bi end)));
  _ ← (match c with Some k => free_all (c_blocks k ++ [c_arrs k; c_copy k]) | None => mret tt end);
  mret r.

(** ** Descriptors *)

(** The view on the ICD image; an external format becomes the image's. *)
Definition with_image (i : Z) (v : Z * Z) (y : resource) : resource :=
  mk_res (r_image_type y) (Some (i, if v.2 =? VK_FORMAT_UNDEFINED then nvhal_image_real_format w v.1 else v.2)).

Fixpoint write_loop (rest : list resource) (i : nat) (res : list resource) (c : option (copies resource)) : M xstate (option (copies resource) * bool) :=
  match rest with
  | [] => mret (c, false)
  | x :: rest =>
      match (if r_image_type x then r_view x else None) with
      | None => write_loop rest (S i) res c
      | Some v =>
          let '(img, hit, bad) := xl1 v.1 false in
          if negb hit then write_loop rest (S i) res c
          else
          match c with
          | Some k =>
              let k' := mk_copies (c_copy k) (c_arrs k) (alter (with_image img v) i (c_list k)) [] in
              if bad : bool then mret (Some k', true) else write_loop rest (S i) res (Some k')
          | None =>
              copy ← malloc;
              ic ← malloc;
              if (copy =? 0) || (ic =? 0) then mret (Some (mk_copies copy ic res []), true)
              else
              let k' := mk_copies copy ic (alter (with_image img v) i res) [] in
              if bad : bool then mret (Some k', true) else write_loop rest (S i) res (Some k')
          end
      end
  end.

Definition xl_WriteResourceDescriptorsEXT (res : list resource) : M xstate Z :=
  if nvhal_no_wrappers w then send (KWrite res)
  else
  '(c, bad) ← write_loop res 0 res None;
  r ← (if bad : bool then mret VK_ERROR_UNKNOWN else send (KWrite (match c with Some k => c_list k | None => res end)));
  _ ← (match c with Some k => free_all [c_copy k; c_arrs k] | None => mret tt end);
  mret r.

(** ** Any of them *)

Inductive command :=
  | Images (name : string) (l : list Z)
  | HostCopy (name : string) (image1 image2 : Z)
  | Barriers (name : string) (l : list barrier)
  | Dep (name : string) (info : dep)
  | WaitEvents2 (deps : list dep)
  | Transition (l : list barrier)
  | OpaqueCapture (l : list Z)
  | BindSparse (bi : list sparse)
  | WriteDescriptors (res : list resource).

Definition xl_run (tracked : bool) (c : command) : M xstate Z :=
  match c with
  | Images name l => cmd_images tracked name l
  | HostCopy name a b => host_copy name a b
  | Barriers name l => cmd_barriers tracked name l
  | Dep name info => cmd_dep tracked name info
  | WaitEvents2 deps => wait_events2 tracked deps
  | Transition l => transition l
  | OpaqueCapture l => xl_GetImageOpaqueCaptureDataEXT l
  | BindSparse bi => bind_sparse_wrappers bi
  | WriteDescriptors res => xl_WriteResourceDescriptorsEXT res
  end.

(** ** What a command means to the ICD *)

Definition target (i : Z) : Z := (nvhal_image_xl w i).1.
Definition is_wrapper (i : Z) : bool := (nvhal_image_xl w i).2.
Definition unreal (i : Z) : bool := is_wrapper i && (target i =? VK_NULL_HANDLE).

Definition retarget_b (b : barrier) : barrier := set_image (target (b_image b)) b.
Definition retarget_dep (x : dep) : dep := mk_dep (d_rest x) (retarget_b <$> d_barriers x).
Definition retarget_sparse (x : sparse) : sparse := mk_sparse (s_rest x) (retarget_b <$> s_opaque x) (retarget_b <$> s_image x).
Definition res_view (x : resource) : option (Z * Z) := if r_image_type x then r_view x else None.
Definition retarget_res (x : resource) : resource :=
  match res_view x with Some v => if is_wrapper v.1 then with_image (target v.1) v x else x | None => x end.

Definition retarget (c : command) : icd_call :=
  match c with
  | Images name l => KImages name (target <$> l)
  | HostCopy name a b => KImages name [target a; target b]
  | Barriers name l => KBarriers name (retarget_b <$> l)
  | Dep name info => KDeps name [retarget_dep info]
  | WaitEvents2 deps => KDeps "vkCmdWaitEvents2" (retarget_dep <$> deps)
  | Transition l => KBarriers "vkTransitionImageLayout" (retarget_b <$> l)
  | OpaqueCapture l => KImages "vkGetImageOpaqueCaptureDataEXT" (target <$> l)
  | BindSparse bi => KSparse (retarget_sparse <$> bi)
  | WriteDescriptors res => KWrite (retarget_res <$> res)
  end.

(** The images of a command. *)
Definition images (c : command) : list Z :=
  match c with
  | Images _ l => l
  | HostCopy _ a b => [a; b]
  | Barriers _ l | Transition l => b_image <$> l
  | Dep _ info => b_image <$> d_barriers info
  | WaitEvents2 deps => deps ≫= fun x => b_image <$> d_barriers x
  | OpaqueCapture l => l
  | BindSparse bi => bi ≫= fun x => (b_image <$> s_opaque x) ++ (b_image <$> s_image x)
  | WriteDescriptors res => omap (fun x => fst <$> res_view x) res
  end.

(** A command that returns a VkResult. *)
Definition has_result (c : command) : bool :=
  match c with Images _ _ | Barriers _ _ | Dep _ _ | WaitEvents2 _ => false | _ => true end.

(** ** Memory *)

(** The call holds the blocks [l] besides those of [s0]; the ICD has had [q]. *)
Record holds (s0 : xstate) (q : list icd_call) (l : list Z) (s : xstate) : Prop := {
  ho_blocks : x_blocks s ≡ₚ l ++ x_blocks s0;
  ho_sent : x_sent s = q;
  ho_faults : x_faults s = x_faults s0;
  ho_next : 0 < x_next s;
}.
Definition nomem : Prop := exists s, mem s = false.

Lemma holds_perm s0 q l l' s : l ≡ₚ l' -> holds s0 q l s -> holds s0 q l' s.
Proof. intros E [A B C D]. split; [by rewrite <- E|done..]. Qed.

Lemma malloc_spec s0 q l s : holds s0 q l s ->
  wp malloc (fun p s' => p = 0 /\ nomem /\ holds s0 q l s' \/ p <> 0 /\ holds s0 q (p :: l) s') s.
Proof.
  intros [A B C D]. unfold wp, malloc. destruct (mem s) eqn:E; cbn [fst snd].
  - right. split; [lia|]. split; cbn; [by rewrite A|done|done|lia].
  - left. split; [done|]. split; [by exists s|]. split; cbn; [done..|lia].
Qed.

(** The two arrays of a copy. *)
Lemma malloc2_spec s0 q l s : holds s0 q l s ->
  wp malloc (fun a => wp malloc (fun b s' => holds s0 q (filter (fun p => p <> 0) [b; a] ++ l) s' /\ (a = 0 \/ b = 0 -> nomem))) s.
Proof.
  intros H. eapply wp_mono; [by apply malloc_spec|].
  intros a s1 [(-> & Hn & H1)|[Ha H1]]; (eapply wp_mono; [by apply malloc_spec|]); intros b s2 [(-> & Hn' & H2)|[Hb H2]]; rewrite !filter_cons, filter_nil;
    repeat case_decide; try done; (split; [done|]); naive_solver.
Qed.

Lemma drop_block_perm p l l' : l ≡ₚ p :: l' -> drop_block p l ≡ₚ l'.
Proof.
  intros E. assert (Hp : p ∈ l) by (rewrite E; by left). apply (Permutation_cons_inv (a := p)). rewrite <- E. clear E l'.
  induction l as [|x l IH]; [by apply elem_of_nil in Hp|]. cbn. destruct (Z.eqb_spec x p) as [->|Hne]; [done|].
  apply elem_of_cons in Hp as [->|Hp]; [done|]. rewrite Permutation_swap. by rewrite IH.
Qed.
Lemma free_spec s0 q p l s : p <> 0 -> holds s0 q (p :: l) s -> holds s0 q l (free p s).2.
Proof.
  intros Hp [A B C D]. unfold free, modS. cbn [snd]. destruct (Z.eqb_spec p 0); [done|]. split; cbn; [by apply drop_block_perm|done| |done].
  rewrite bool_decide_true, C by (rewrite A; by left). lia.
Qed.
Lemma free_all_spec s0 q ps l s : holds s0 q (filter (fun p => p <> 0) ps ++ l) s -> holds s0 q l (free_all ps s).2.
Proof.
  revert s. unfold free_all. induction ps as [|p ps IH]; intros s H; [exact H|]. cbn [foldM]. rewrite bind_run. apply IH.
  rewrite filter_cons in H. destruct (decide (p <> 0)) as [Hp|Hp]; [by apply free_spec|]. assert (p = 0) as -> by lia. exact H.
Qed.

(** ** Translation *)

Lemma xl1_spec i bad : xl1 i bad = (target i, is_wrapper i, bad || unreal i).
Proof.
  unfold xl1, unreal, is_wrapper, target, nvhal_image_xl, wrapper. destruct (nvhal_no_wrappers w), (Z.eqb_spec i VK_NULL_HANDLE); cbn; [by rewrite orb_false_r..|].
  destruct (if decide (i ∈ regs w) then _ else _); cbn; [done|by rewrite orb_false_r].
Qed.
Lemma not_wrapper i : is_wrapper i = false -> target i = i.
Proof. unfold is_wrapper, target, nvhal_image_xl. by destruct (wrapper w i). Qed.
Lemma no_wrappers_none : nvhal_no_wrappers w = true -> forall i, is_wrapper i = false.
Proof. intros H i. unfold is_wrapper, nvhal_image_xl, wrapper. by rewrite H, orb_true_r. Qed.
Lemma unreal_wrapper i : is_wrapper i = false -> unreal i = false.
Proof. unfold unreal. by intros ->. Qed.

Definition place_blocks (p : place) : list Z := match p with Heap b => [b] | _ => [] end.
Definition place_ok (fits : bool) (p : place) : Prop := match p with Heap b => b <> 0 | Stack => fits = true | Src => True end.

Section ArrSpec.
Context {A : Type} (get : A -> Z) (put : Z -> A -> A) (put_get : forall x, put (get x) x = x).
Definition tr (x : A) : A := put (target (get x)) x.

Lemma tr_id x : is_wrapper (get x) = false -> tr x = x.
Proof. intros H. unfold tr. rewrite not_wrapper by done. apply put_get. Qed.
Lemma tr_all_id l : Forall (fun x => is_wrapper (get x) = false) l -> tr <$> l = l.
Proof. induction 1 as [|x l Hx Hl IH]; [done|]. cbn. by rewrite IH, tr_id. Qed.

(** What a translated array is. *)
Definition arr_post (s0 : xstate) (q : list icd_call) (l : list Z) (fits : bool) (src : list A) (bad : bool) (r : list A * place * bool) (s : xstate) : Prop :=
  let '(t, pl, bad') := r in
  holds s0 q (place_blocks pl ++ l) s /\ place_ok fits pl /\
  (bad' = bad || existsb (fun x => unreal (get x)) src /\ t = tr <$> src /\ (pl = Src -> Forall (fun x => is_wrapper (get x) = false) src) \/
   bad' = true /\ nomem /\ pl = Src).

Lemma alter_at {B} (f : B -> B) (l1 : list B) x l2 : alter f (length l1) (l1 ++ x :: l2) = l1 ++ f x :: l2.
Proof. induction l1 as [|y l1 IH]; [done|]. cbn [length Datatypes.app]. cbn. by f_equal. Qed.

Definition dst_ok (fits : bool) (dn rest : list A) (dst : option (place * list A)) : Prop :=
  match dst with
  | None => Forall (fun x => is_wrapper (get x) = false) dn
  | Some (p, ls) => ls = (tr <$> dn) ++ rest /\ p <> Src /\ place_ok fits p
  end.
Definition dst_blocks (dst : option (place * list A)) : list Z := from_option (fun x => place_blocks x.1) [] dst.

Lemma arr_loop_spec s0 q l fits src rest : forall dn dst bad0 bad s,
  src = dn ++ rest -> bad = bad0 || existsb (fun x => unreal (get x)) dn -> dst_ok fits dn rest dst -> holds s0 q (dst_blocks dst ++ l) s ->
  wp (arr_loop get put fits src rest (length dn) dst bad) (arr_post s0 q l fits src bad0) s.
Proof.
  induction rest as [|x rest IH]; intros dn dst bad0 bad s Es Eb Hd Hs.
  { rewrite app_nil_r in Es. subst dn bad. cbn [arr_loop]. apply wp_ret. destruct dst as [[p ls]|]; cbn in *.
    - destruct Hd as (-> & Hp & Hk). rewrite app_nil_r. split_and!; [done|done|]. left. by split_and!.
    - split_and!; [done|done|]. left. split_and!; [done|by rewrite tr_all_id|done]. }
  cbn [arr_loop]. rewrite xl1_spec.
  assert (Eb' : bad || unreal (get x) = bad0 || existsb (fun x => unreal (get x)) (dn ++ [x])).
  { rewrite existsb_app, Eb. cbn. by rewrite orb_false_r, orb_assoc. }
  assert (Es' : src = (dn ++ [x]) ++ rest) by (by rewrite <- app_assoc).
  assert (El : S (length dn) = length (dn ++ [x])) by (rewrite length_app; cbn; lia).
  assert (G : forall p ls s', p <> Src -> place_ok fits p -> ls = (tr <$> dn) ++ x :: rest -> holds s0 q (place_blocks p ++ l) s' ->
    wp (arr_loop get put fits src rest (S (length dn)) (Some (p, alter (put (target (get x))) (length dn) ls)) (bad || unreal (get x))) (arr_post s0 q l fits src bad0) s').
  { intros p ls s' Hp Hk -> Hs'. rewrite El. apply IH; [done|done| |done]. split_and!; [|done|done].
    rewrite <- (length_fmap tr dn), alter_at, fmap_app, <- app_assoc. done. }
  destruct (is_wrapper (get x)) eqn:Ew; cbn [negb].
  - destruct dst as [[p ls]|]; cbn in Hd, Hs.
    + destruct Hd as (-> & Hp & Hk). by apply G.
    + assert (Esd : src = (tr <$> dn) ++ x :: rest) by (by rewrite tr_all_id). destruct fits eqn:Ef; [by apply G|].
      apply wp_bind. eapply wp_mono; [by apply malloc_spec|]. intros b s' [(-> & Hn & Hs')|[Hb Hs']].
      * apply wp_ret. split_and!; [done|done|]. by right.
      * destruct (Z.eqb_spec b 0) as [|_]; [done|]. by apply G.
  - rewrite El. apply IH; [done|done| |done]. destruct dst as [[p ls]|]; cbn in *.
    + destruct Hd as (-> & Hp & Hk). split_and!; [|done|done]. rewrite fmap_app, <- app_assoc. cbn. by rewrite tr_id.
    + apply Forall_app. by split; [|apply Forall_singleton].
Qed.

Lemma xl_arr_spec s0 q l src stack bad s : holds s0 q l s -> wp (xl_arr get put src stack bad) (arr_post s0 q l (Z.of_nat (length src) <=? stack) src bad) s.
Proof.
  intros Hs. unfold xl_arr. destruct (_ || _) eqn:E.
  - apply wp_ret. split_and!; [done|done|]. left. assert (F : Forall (fun x => is_wrapper (get x) = false) src).
    { apply orb_true_iff in E as [->%bool_decide_eq_true|E]; [constructor|]. apply Forall_true. intros x. by apply no_wrappers_none. }
    split_and!; [|by rewrite tr_all_id|done]. clear -F. induction F as [|x l Hx Hl IH]; cbn; [by rewrite orb_false_r|]. by rewrite unreal_wrapper.
  - apply (arr_loop_spec s0 q l _ src src [] None bad); [done|cbn; by rewrite orb_false_r|constructor|done].
Qed.
End ArrSpec.

(** ** Commands *)

Lemma send_spec s0 q l c s : holds s0 q l s -> wp (send c) (fun r s' => r = answer c /\ holds s0 (q ++ [c]) l s') s.
Proof. intros [A B C D]. split; [done|]. split; cbn; [done|by rewrite B|done|done]. Qed.
Lemma xl_free_spec s0 q pl l s : place_ok true pl -> holds s0 q (place_blocks pl ++ l) s -> wp (xl_free pl) (fun _ s' => holds s0 q l s') s.
Proof. destruct pl; [done|done|]. intros Hp Hs. by apply (free_spec s0 q p l s). Qed.

(** The ICD gets the command with its images, or nothing; the heap is as
    before. *)
Definition cmd_post (c : command) (s : xstate) (r : Z) (s' : xstate) : Prop :=
  x_blocks s' ≡ₚ x_blocks s /\ x_faults s' = x_faults s /\
  (x_sent s' = x_sent s ++ [retarget c] /\ existsb unreal (images c) = false /\ (has_result c = true -> r = answer (retarget c)) \/
   x_sent s' = x_sent s /\ (existsb unreal (images c) = true \/ nomem) /\ (has_result c = true -> r <> VK_SUCCESS)).

Lemma post_sent c s r s' : holds s (x_sent s ++ [retarget c]) [] s' -> existsb unreal (images c) = false -> (has_result c = true -> r = answer (retarget c)) ->
  cmd_post c s r s'.
Proof. intros [A B C D] H1 H2. split_and!; [done|done|]. by left. Qed.
Lemma post_dropped c s r s' : holds s (x_sent s) [] s' -> existsb unreal (images c) = true \/ nomem -> (has_result c = true -> r <> VK_SUCCESS) ->
  cmd_post c s r s'.
Proof. intros [A B C D] H1 H2. split_and!; [done|done|]. by right. Qed.
Lemma holds_init s : 0 < x_next s -> holds s (x_sent s) [] s.
Proof. by split. Qed.

Lemma xl_images_spec l bad : xl_images l bad = (target <$> l, bad || existsb unreal l).
Proof.
  revert bad. induction l as [|i l IH]; intros bad; [by rewrite orb_false_r|]. cbn [xl_images]. rewrite xl1_spec, IH. cbn. by rewrite orb_assoc.
Qed.
Lemma images_spec c name l s : images c = l -> retarget c = KImages name (target <$> l) -> 0 < x_next s ->
  forall e, e <> VK_SUCCESS \/ has_result c = false ->
  wp (let '(l', bad) := xl_images l false in if bad then mret e else send (KImages name l')) (cmd_post c s) s.
Proof.
  intros Hi Hc Hn e He. rewrite xl_images_spec. cbn [orb]. destruct (existsb unreal l) eqn:E.
  - apply wp_ret, post_dropped; [by apply holds_init|by left; rewrite Hi|]. destruct He as [?| ->]; done.
  - eapply wp_mono; [apply send_spec, holds_init, Hn|]. rewrite <- Hc. intros r s' [-> Hs]. apply post_sent; [done|by rewrite Hi|done].
Qed.

(** A command with one array. *)
Lemma arr_spec {A} (get : A -> Z) (put : Z -> A -> A) (pg : forall x, put (get x) x = x) c l stack (k : list A -> icd_call) (e : Z) (f : Z -> Z) s :
  images c = get <$> l -> retarget c = k (tr get put <$> l) -> 0 < x_next s -> (has_result c = true -> f e <> VK_SUCCESS /\ forall r, f r = r) ->
  wp ('(t, pl, bad) ← xl_arr get put l stack false; r ← (if bad : bool then mret e else send (k t)); _ ← xl_free pl; mret (f r)) (cmd_post c s) s.
Proof.
  intros Hi Hc Hn Hf. apply wp_bind. eapply wp_mono; [by apply (xl_arr_spec get put pg s (x_sent s) []), holds_init|].
  intros [[t pl] bad] s1 (H1 & Hp0 & H2). rewrite app_nil_r in H1. assert (Hp : place_ok true pl) by (by destruct pl).
  assert (E : existsb unreal (images c) = existsb (fun x => unreal (get x)) l).
  { rewrite Hi. clear. induction l as [|x l IH]; [done|]. cbn. by rewrite IH. }
  apply wp_bind. destruct bad.
  - apply wp_ret, wp_bind. eapply wp_mono; [apply (xl_free_spec s (x_sent s) pl []); [done|by rewrite app_nil_r]|]. intros u s2 H3. apply wp_ret.
    apply post_dropped; [done| |intros Hr; by apply Hf]. destruct H2 as [(Hb & _)|(_ & ? & _)]; [left; by rewrite E|by right].
  - destruct H2 as [(H2 & -> & _)|[? _]]; [|done]. cbn [orb] in H2. eapply wp_mono; [by apply send_spec|]. rewrite <- Hc. intros r s2 [-> H3].
    apply wp_bind. eapply wp_mono; [apply (xl_free_spec s (x_sent s ++ [retarget c]) pl []); [done|by rewrite app_nil_r]|]. intros u s3 H4. apply wp_ret.
    apply post_sent; [done|by rewrite E|]. intros Hr. by apply Hf.
Qed.

Lemma set_image_id b : set_image (b_image b) b = b.
Proof. by destruct b. Qed.

(** *** vkCmdWaitEvents2 *)

Definition copies_blocks {B} (c : option (copies B)) : list Z := from_option (fun k => filter (fun p => p <> 0) (c_blocks k ++ [c_arrs k; c_copy k])) [] c.
Definition result {B} (l : list B) (c : option (copies B)) : list B := from_option c_list l c.
(** The copy after the elements [dn]. *)
Definition copied {B} (f : B -> B) (dn rest : list B) (c : option (copies B)) : Prop :=
  result (dn ++ rest) c = (f <$> dn) ++ rest /\ match c with Some k => c_copy k <> 0 /\ c_arrs k <> 0 | None => True end.

Lemma copied_same {B} (f : B -> B) dn x rest c : copied f dn (x :: rest) c -> f x = x -> copied f (dn ++ [x]) rest c.
Proof. intros [H ?] E. split; [|done]. rewrite <- app_assoc. cbn [Datatypes.app]. rewrite H, fmap_app, <- app_assoc. cbn. by rewrite E. Qed.
Lemma copied_next {B} (f g : B -> B) dn x rest k p : copied f dn (x :: rest) (Some k) -> g x = f x ->
  copied f (dn ++ [x]) rest (Some (mk_copies (c_copy k) (c_arrs k) (alter g (length dn) (c_list k)) p)).
Proof.
  intros [H ?] E. split; [|done]. cbn in *. rewrite H, <- (length_fmap f dn), alter_at, fmap_app, <- app_assoc. cbn. by rewrite E.
Qed.
Lemma copied_first {B} (f g : B -> B) dn x rest copy arrs p : copied f dn (x :: rest) None -> copy <> 0 -> arrs <> 0 -> g x = f x ->
  copied f (dn ++ [x]) rest (Some (mk_copies copy arrs (alter g (length dn) (dn ++ x :: rest)) p)).
Proof. intros [H _] H1 H2 E. apply (copied_next f g dn x rest (mk_copies copy arrs (dn ++ x :: rest) [])); [|done]. by split. Qed.

Lemma blocks_next {B} (k : copies B) (l : list B) p : p <> 0 -> copies_blocks (Some (mk_copies (c_copy k) (c_arrs k) l (c_blocks k ++ [p]))) ≡ₚ p :: copies_blocks (Some k).
Proof.
  intros Hp. cbn. rewrite <- app_assoc, !filter_app. cbn [Datatypes.app]. rewrite filter_cons, decide_True by done. by rewrite Permutation_middle.
Qed.

Definition dep_unreal (x : dep) : bool := existsb (fun b => unreal (b_image b)) (d_barriers x).
Lemma dep_same x : Forall (fun b => is_wrapper (b_image b) = false) (d_barriers x) -> retarget_dep x = x.
Proof. intros H. unfold retarget_dep. change retarget_b with (tr b_image set_image). rewrite tr_all_id; [by destruct x|apply set_image_id|done]. Qed.

Definition loop_post {B} (s0 : xstate) (q : list icd_call) (f : B -> B) (u : B -> bool) (l : list B) (c : option (copies B)) (bad : bool) (s : xstate) : Prop :=
  holds s0 q (copies_blocks c) s /\
  if bad then existsb u l = true \/ nomem else result l c = f <$> l /\ existsb u l = false.

Lemma wait_loop_spec s0 q rest : forall dn c s, copied retarget_dep dn rest c -> existsb dep_unreal dn = false -> holds s0 q (copies_blocks c) s ->
  wp (wait_loop rest (length dn) (dn ++ rest) c) (fun '(c', bad) => loop_post s0 q retarget_dep dep_unreal (dn ++ rest) c' bad) s.
Proof.
  induction rest as [|x rest IH]; intros dn c s Hc Hu Hs.
  { apply wp_ret. destruct Hc as [Hc _]. rewrite !app_nil_r in Hc. rewrite !app_nil_r. split; [done|]. by split. }
  cbn [wait_loop]. apply wp_bind. eapply wp_mono; [by apply (xl_arr_spec b_image set_image set_image_id s0 q (copies_blocks c))|].
  intros [[a pl] bad] s1 (H1 & Hp & H2). assert (El : S (length dn) = length (dn ++ [x])) by (rewrite length_app; cbn; lia).
  assert (Es : dn ++ x :: rest = (dn ++ [x]) ++ rest) by (by rewrite <- app_assoc).
  assert (Bad : forall c' s', bad = true -> holds s0 q (copies_blocks c') s' -> loop_post s0 q retarget_dep dep_unreal (dn ++ x :: rest) c' true s').
  { intros c' s' -> Hs'. split; [done|]. destruct H2 as [(E & _)|(_ & ? & _)]; [left|by right]. rewrite existsb_app. cbn. unfold dep_unreal at 2.
    cbn [orb] in E. rewrite <- E. by rewrite orb_true_r. }
  assert (Next : forall c' s', bad = false -> copied retarget_dep (dn ++ [x]) rest c' -> holds s0 q (copies_blocks c') s' ->
    wp (wait_loop rest (S (length dn)) (dn ++ x :: rest) c') (fun '(c', bad) => loop_post s0 q retarget_dep dep_unreal (dn ++ x :: rest) c' bad) s').
  { intros c' s' -> Hc' Hs'. rewrite Es, El. apply IH; [done| |done]. destruct H2 as [(E & _)|[? _]]; [|done].
    cbn [orb] in E. rewrite existsb_app, Hu. cbn. unfold dep_unreal. by rewrite <- E. }
  destruct pl as [| |p]; cbn [place_blocks Datatypes.app place_ok] in *.
  - destruct bad; [apply wp_ret; by apply Bad|]. apply Next; [done| |done]. apply copied_same; [done|]. apply dep_same. destruct H2 as [(_ & _ & H)|[? _]]; [by apply H|done].
  - destruct bad; [apply wp_ret; by apply Bad|]. apply Next; [done| |done]. apply copied_same; [done|]. apply dep_same.
    apply Z.leb_le in Hp. destruct (d_barriers x); [constructor|cbn in Hp; lia].
  - destruct H2 as [H2|(_ & _ & ?)]; [|done]. destruct H2 as (Eb & -> & _). destruct c as [k|].
    + pose proof (blocks_next k (alter (fun y => mk_dep (d_rest y) (tr b_image set_image <$> d_barriers x)) (length dn) (c_list k)) p Hp) as Hb.
      destruct bad; [apply wp_ret; apply Bad; [done|]|apply Next; [done| |]]; try (by eapply holds_perm; [symmetry; exact Hb|]). by apply copied_next.
    + apply wp_bind. eapply wp_mono; [by apply malloc2_spec|]. intros copy s2 H3. apply wp_bind. eapply wp_mono; [exact H3|]. intros arrs s3 [H4 Hn].
      destruct ((copy =? 0) || (arrs =? 0)) eqn:E0.
      * apply wp_bind. unfold wp at 1. apply wp_ret. split; [|right; apply Hn; apply orb_true_iff in E0 as [?%Z.eqb_eq|?%Z.eqb_eq]; auto].
        apply (free_spec s0 q p); [done|]. eapply holds_perm; [|exact H4]. cbn [copies_blocks from_option c_blocks c_arrs c_copy Datatypes.app]. by rewrite Permutation_app_comm.
      * apply orb_false_iff in E0 as [Hc1%Z.eqb_neq Ha1%Z.eqb_neq].
        assert (Hb : holds s0 q (copies_blocks (Some (mk_copies copy arrs (alter (fun y => mk_dep (d_rest y) (tr b_image set_image <$> d_barriers x)) (length dn) (dn ++ x :: rest)) [p]))) s3).
        { eapply holds_perm; [|exact H4]. cbn [copies_blocks from_option c_blocks c_arrs c_copy Datatypes.app]. rewrite (filter_cons _ p), decide_True by done. by rewrite Permutation_app_comm. }
        destruct bad; [apply wp_ret; by apply Bad|]. apply Next; [done| |done]. by apply copied_first.
Qed.

(** The end of a command with copies. *)
Lemma copies_finish {B} c (l : list B) f u (ps : copies B -> list Z) (k : list B -> icd_call) k' bad e (g : Z -> Z) s s1 :
  loop_post s (x_sent s) f u l k' bad s1 -> (forall y, k' = Some y -> filter (fun p => p <> 0) (ps y) ≡ₚ filter (fun p => p <> 0) (c_blocks y ++ [c_arrs y; c_copy y])) ->
  existsb unreal (images c) = existsb u l -> retarget c = k (f <$> l) -> (has_result c = true -> g e <> VK_SUCCESS /\ forall r, g r = r) ->
  wp (r ← (if bad : bool then mret e else send (k (match k' with Some y => c_list y | None => l end)));
      _ ← (match k' with Some y => free_all (ps y) | None => mret tt end); mret (g r)) (cmd_post c s) s1.
Proof.
  intros [H1 H2] Hps Hu Hc Hg.
  assert (F : forall q s2, holds s q (copies_blocks k') s2 -> wp (match k' with Some y => free_all (ps y) | None => mret tt end) (fun _ s3 => holds s q [] s3) s2).
  { intros q s2 H. destruct k' as [y|]; [|exact H]. apply (free_all_spec s q (ps y) []). rewrite app_nil_r. eapply holds_perm; [symmetry; by apply Hps|exact H]. }
  apply wp_bind. destruct bad.
  - apply wp_ret, wp_bind. eapply wp_mono; [by apply F|]. intros u0 s2 H3. apply wp_ret. apply post_dropped; [done|by rewrite Hu|intros Hr; by apply Hg].
  - destruct H2 as [H2 H4]. change (match k' with Some y => c_list y | None => l end) with (result l k'). rewrite H2, <- Hc.
    eapply wp_mono; [by apply send_spec|]. intros r s2 [-> H3]. apply wp_bind. eapply wp_mono; [by apply F|]. intros u0 s3 H5. apply wp_ret.
    apply post_sent; [done|by rewrite Hu|intros Hr; by apply Hg].
Qed.

Lemma existsb_bind {B} (f : B -> list Z) (l : list B) : existsb unreal (l ≫= f) = existsb (fun x => existsb unreal (f x)) l.
Proof. induction l as [|x l IH]; [done|]. cbn. by rewrite existsb_app, IH. Qed.
Lemma existsb_fmap {B} (f : B -> Z) (l : list B) : existsb unreal (f <$> l) = existsb (fun x => unreal (f x)) l.
Proof. induction l as [|x l IH]; [done|]. cbn. by rewrite IH. Qed.
Lemma existsb_same {B} (f g : B -> bool) (l : list B) : (forall x, f x = g x) -> existsb f l = existsb g l.
Proof. intros E. induction l as [|x l IH]; [done|]. cbn. by rewrite E, IH. Qed.

Lemma wait_events2_spec deps s : 0 < x_next s -> wp (wait_events2 true deps) (cmd_post (WaitEvents2 deps) s) s.
Proof.
  intros Hn. unfold wait_events2. cbn [negb].
  assert (Hu : existsb unreal (images (WaitEvents2 deps)) = existsb dep_unreal deps).
  { cbn [images]. rewrite existsb_bind. apply existsb_same. intros x. by rewrite existsb_fmap. }
  destruct (nvhal_no_wrappers w) eqn:E.
  - pose proof (no_wrappers_none E) as Hw. eapply wp_mono; [by apply send_spec, holds_init|]. intros r s' [-> Hs].
    assert (Er : retarget (WaitEvents2 deps) = KDeps "vkCmdWaitEvents2" deps).
    { cbn. f_equal. rewrite <- (list_fmap_id deps) at 2. apply list_fmap_ext. intros i x _. apply dep_same, Forall_true. auto. }
    apply post_sent; [by rewrite Er| |done]. rewrite Hu. clear -Hw. induction deps as [|x l IH]; [done|]. cbn. rewrite IH, orb_false_r.
    unfold dep_unreal. induction (d_barriers x) as [|b m IHm]; [done|]. cbn. by rewrite IHm, unreal_wrapper.
  - apply wp_bind. eapply wp_mono; [apply (wait_loop_spec s (x_sent s) deps [] None); [done|done|by apply holds_init]|].
    intros [c bad] s1 H. apply (copies_finish (WaitEvents2 deps) deps retarget_dep dep_unreal (fun y => c_blocks y ++ [c_arrs y; c_copy y])
      (KDeps "vkCmdWaitEvents2") c bad 0 (fun _ => 0) s s1); done.
Qed.

(** *** vkWriteResourceDescriptorsEXT *)

Definition res_unreal (x : resource) : bool := match res_view x with Some v => unreal v.1 | None => false end.

Lemma xwrite_loop_spec s0 q rest : forall dn c s, copied retarget_res dn rest c -> existsb res_unreal dn = false ->
  match c with Some k => c_blocks k = [] | None => True end -> holds s0 q (copies_blocks c) s ->
  wp (write_loop rest (length dn) (dn ++ rest) c) (fun '(c', bad) s' => loop_post s0 q retarget_res res_unreal (dn ++ rest) c' bad s' /\
    match c' with Some k => c_blocks k = [] | None => True end) s.
Proof.
  induction rest as [|x rest IH]; intros dn c s Hc Hu Hk Hs.
  { apply wp_ret. split; [|done]. destruct Hc as [Hc _]. rewrite !app_nil_r in Hc. rewrite !app_nil_r. split; [done|]. by split. }
  assert (El : S (length dn) = length (dn ++ [x])) by (rewrite length_app; cbn; lia).
  assert (Es : dn ++ x :: rest = (dn ++ [x]) ++ rest) by (by rewrite <- app_assoc).
  assert (Next : forall c' s', res_unreal x = false -> copied retarget_res (dn ++ [x]) rest c' -> match c' with Some k => c_blocks k = [] | None => True end ->
    holds s0 q (copies_blocks c') s' ->
    wp (write_loop rest (S (length dn)) (dn ++ x :: rest) c') (fun '(c', bad) s' => loop_post s0 q retarget_res res_unreal (dn ++ x :: rest) c' bad s' /\
      match c' with Some k => c_blocks k = [] | None => True end) s').
  { intros c' s' Hx Hc' Hk' Hs'. rewrite Es, El. apply IH; [done| |done|done]. rewrite existsb_app, Hu. cbn. by rewrite Hx. }
  assert (Bad : forall k s', res_unreal x = true -> c_blocks k = [] -> holds s0 q (copies_blocks (Some k)) s' ->
    wp (mret (Some k, true)) (fun '(c', bad) s' => loop_post s0 q retarget_res res_unreal (dn ++ x :: rest) c' bad s' /\
      match c' with Some k => c_blocks k = [] | None => True end) s').
  { intros k s' Hx Hkk Hs'. apply wp_ret. split; [|done]. split; [done|]. left. rewrite existsb_app. cbn. by rewrite Hx, orb_true_r. }
  cbn [write_loop]. fold (res_view x). destruct (res_view x) as [v|] eqn:Ev.
  2: { apply Next; [by unfold res_unreal; rewrite Ev| |done|done]. apply copied_same; [done|]. unfold retarget_res. by rewrite Ev. }
  assert (Hux : res_unreal x = unreal v.1) by (unfold res_unreal; by rewrite Ev). rewrite xl1_spec. cbn [orb]. rewrite <- Hux.
  destruct (is_wrapper v.1) eqn:Ew; cbn [negb].
  2: { apply Next; [by rewrite Hux, unreal_wrapper| |done|done]. apply copied_same; [done|]. unfold retarget_res. by rewrite Ev, Ew. }
  assert (Hr : with_image (target v.1) v x = retarget_res x) by (unfold retarget_res; by rewrite Ev, Ew). destruct c as [k|].
  - assert (Hs' : holds s0 q (copies_blocks (Some (mk_copies (c_copy k) (c_arrs k) (alter (with_image (target v.1) v) (length dn) (c_list k)) []))) s)
      by (cbn in *; by rewrite Hk in Hs).
    cbn zeta. destruct (res_unreal x) eqn:Ex; [by apply Bad|]. apply Next; [done|by apply copied_next|done|done].
  - apply wp_bind. eapply wp_mono; [by apply malloc2_spec|]. intros copy s2 H3. apply wp_bind. eapply wp_mono; [exact H3|]. intros arrs s3 [H4 Hn].
    change (filter (fun p => p <> 0) [arrs; copy] ++ copies_blocks None) with (filter (fun p => p <> 0) [arrs; copy] ++ []) in H4. rewrite app_nil_r in H4.
    destruct ((copy =? 0) || (arrs =? 0)) eqn:E0.
    + apply wp_ret. split; [|done]. split; [exact H4|]. right. apply Hn. apply orb_true_iff in E0 as [?%Z.eqb_eq|?%Z.eqb_eq]; auto.
    + apply orb_false_iff in E0 as [Hc1%Z.eqb_neq Ha1%Z.eqb_neq]. cbn zeta. destruct (res_unreal x) eqn:Ex; [by apply Bad|].
      apply Next; [done|by apply copied_first|done|done].
Qed.

Lemma write_spec res s : 0 < x_next s -> wp (xl_WriteResourceDescriptorsEXT res) (cmd_post (WriteDescriptors res) s) s.
Proof.
  intros Hn. unfold xl_WriteResourceDescriptorsEXT.
  assert (Hu : existsb unreal (images (WriteDescriptors res)) = existsb res_unreal res).
  { cbn [images]. clear. induction res as [|x l IH]; [done|]. cbn. unfold res_unreal at 1. destruct (res_view x) as [v|]; cbn; by rewrite IH. }
  destruct (nvhal_no_wrappers w) eqn:E.
  - pose proof (no_wrappers_none E) as Hw. eapply wp_mono; [by apply send_spec, holds_init|]. intros r s' [-> Hs].
    assert (Er : retarget (WriteDescriptors res) = KWrite res).
    { cbn. f_equal. rewrite <- (list_fmap_id res) at 2. apply list_fmap_ext. intros i x _. unfold retarget_res. destruct (res_view x); [by rewrite Hw|done]. }
    apply post_sent; [by rewrite Er| |intros _; by rewrite Er]. rewrite Hu. clear -Hw. induction res as [|x l IH]; [done|]. cbn. rewrite IH, orb_false_r.
    unfold res_unreal. destruct (res_view x); [by rewrite unreal_wrapper|done].
  - apply wp_bind. eapply wp_mono; [apply (xwrite_loop_spec s (x_sent s) res [] None); [done|done|done|by apply holds_init]|].
    intros [c bad] s1 [H Hk]. apply (copies_finish (WriteDescriptors res) res retarget_res res_unreal (fun y => [c_copy y; c_arrs y])
      KWrite c bad VK_ERROR_UNKNOWN (fun r => r) s s1); try done. intros y ->. rewrite Hk. cbn [Datatypes.app].
    rewrite (Permutation_swap (c_arrs y)). done.
Qed.

(** *** vkQueueBindSparse *)

Definition sparse_unreal (x : sparse) : bool :=
  existsb (fun b => unreal (b_image b)) (s_opaque x) || existsb (fun b => unreal (b_image b)) (s_image x).

(** What [own_array] does to element [i]. *)
Definition upd (pl : place) (f : sparse -> sparse) : sparse -> sparse := match pl with Heap _ => f | _ => id end.

Lemma own_array_spec s0 q k pl f i dn x rest fits l s : c_list k = dn ++ x :: rest -> i = length dn -> place_ok fits pl ->
  holds s0 q (place_blocks pl ++ l ++ copies_blocks (Some k)) s ->
  wp (own_array k pl f i) (fun k' s' => holds s0 q (l ++ copies_blocks (Some k')) s' /\ c_copy k' = c_copy k /\ c_arrs k' = c_arrs k /\
    c_list k' = dn ++ (if c_copy k =? 0 then x else upd pl f x) :: rest) s.
Proof.
  intros Hl -> Hp Hs. unfold own_array. destruct pl as [| |p]; cbn [place_blocks place_ok Datatypes.app upd id] in *.
  1, 2: apply wp_ret; split_and!; try done; by destruct (c_copy k =? 0).
  assert (L : (if c_copy k =? 0 then c_list k else alter f (length dn) (c_list k)) = dn ++ (if c_copy k =? 0 then x else f x) :: rest).
  { rewrite Hl, alter_at. by destruct (c_copy k =? 0). }
  cbn zeta. destruct (Z.eqb_spec (c_arrs k) 0) as [E|E].
  - apply wp_bind. unfold wp at 1. apply wp_ret. split_and!; [|done|done|exact L]. by apply (free_spec s0 q p).
  - apply wp_ret. split_and!; [|done|done|exact L]. eapply holds_perm; [|exact Hs]. rewrite blocks_next by done. by rewrite <- Permutation_middle.
Qed.

Lemma own_both s0 q k po pm fo fm i dn x rest fits fits' s : c_list k = dn ++ x :: rest -> i = length dn -> place_ok fits po -> place_ok fits' pm ->
  holds s0 q ((place_blocks pm ++ place_blocks po) ++ copies_blocks (Some k)) s ->
  wp (own_array k po fo i) (fun k1 => wp (own_array k1 pm fm i) (fun k2 s' => holds s0 q (copies_blocks (Some k2)) s' /\
    c_copy k2 = c_copy k /\ c_arrs k2 = c_arrs k /\ (c_copy k <> 0 -> c_list k2 = dn ++ upd pm fm (upd po fo x) :: rest))) s.
Proof.
  intros Hl Hi Ho Hm Hs. eapply wp_mono.
  { apply (own_array_spec s0 q k po fo i dn x rest fits (place_blocks pm)); [done|done|done|]. eapply holds_perm; [|exact Hs].
    rewrite (Permutation_app_comm (place_blocks pm)). by rewrite <- app_assoc. }
  intros k1 s1 (H1 & E1 & E2 & E3). eapply wp_mono; [by apply (own_array_spec s0 q k1 pm fm i dn _ rest fits' [] s1 E3 Hi)|].
  intros k2 s2 (H2 & E4 & E5 & E6). split_and!; [done|congruence|congruence|]. intros Hz. rewrite E6, E1. by rewrite !(proj2 (Z.eqb_neq _ _) Hz).
Qed.

(** An array that was not copied is as it was. *)
Lemma arr_same src pl : place_ok (Z.of_nat (length src) <=? 0) pl -> (pl = Src -> Forall (fun b => is_wrapper (b_image b) = false) src) ->
  (forall p, pl <> Heap p) -> retarget_b <$> src = src.
Proof.
  intros Hp Hf Hh. change retarget_b with (tr b_image set_image). apply tr_all_id; [apply set_image_id|].
  destruct pl as [| |p]; [by apply Hf| |by destruct (Hh p)]. cbn in Hp. apply Z.leb_le in Hp. destruct src; [constructor|cbn in Hp; lia].
Qed.

Lemma sparse_alloc s0 q c bad r (bi : list sparse) l s : match c with Some k => c_copy k <> 0 /\ c_arrs k <> 0 | None => True end -> holds s0 q (l ++ copies_blocks c) s ->
  wp (match c with
      | Some k => mret (k, bad, r)
      | None => copy ← malloc; owned ← malloc;
          mret (mk_copies copy owned bi [], bad || (copy =? 0) || (owned =? 0), if (copy =? 0) || (owned =? 0) then VK_ERROR_OUT_OF_HOST_MEMORY else r)
      end) (fun '(k, bad', _) s' => holds s0 q (l ++ copies_blocks (Some k)) s' /\ c_list k = result bi c /\
        (bad' = bad /\ c_copy k <> 0 /\ c_arrs k <> 0 \/ bad' = true /\ nomem)) s.
Proof.
  intros Hc Hs. destruct c as [k|]; [apply wp_ret; split_and!; [done|done|]; by left|]. apply wp_bind. eapply wp_mono; [by apply malloc2_spec|].
  intros a s1 H1. apply wp_bind. eapply wp_mono; [exact H1|]. intros b s2 [H2 Hn]. apply wp_ret.
  split_and!; [|done|].
  - eapply holds_perm; [|exact H2]. cbn [copies_blocks from_option c_blocks c_arrs c_copy Datatypes.app]. rewrite app_nil_r. by rewrite Permutation_app_comm.
  - cbn [c_copy c_arrs]. destruct (Z.eqb_spec a 0) as [Ea|Ea]; [right; rewrite orb_true_r; cbn; auto|].
    destruct (Z.eqb_spec b 0) as [Eb|Eb]; [right; rewrite orb_true_r; auto|]. left. by rewrite !orb_false_r.
Qed.

Lemma sparse_loop_spec s0 q rest : forall dn c r s, copied retarget_sparse dn rest c -> existsb sparse_unreal dn = false -> holds s0 q (copies_blocks c) s ->
  wp (sparse_loop rest (length dn) (dn ++ rest) c r) (fun '(c', bad, _) => loop_post s0 q retarget_sparse sparse_unreal (dn ++ rest) c' bad) s.
Proof.
  induction rest as [|x rest IH]; intros dn c r s Hc Hu Hs.
  { apply wp_ret. destruct Hc as [Hc _]. rewrite !app_nil_r in Hc. rewrite !app_nil_r. split; [done|]. by split. }
  assert (El : S (length dn) = length (dn ++ [x])) by (rewrite length_app; cbn; lia).
  assert (Es : dn ++ x :: rest = (dn ++ [x]) ++ rest) by (by rewrite <- app_assoc).
  cbn [sparse_loop]. apply wp_bind. eapply wp_mono; [by apply (xl_arr_spec b_image set_image set_image_id s0 q (copies_blocks c))|].
  intros [[o po] bad1] s1 (H1 & Hpo & Ho). apply wp_bind.
  eapply wp_mono; [by apply (xl_arr_spec b_image set_image set_image_id s0 q (place_blocks po ++ copies_blocks c))|].
  intros [[m pm] bad] s2 (H2 & Hpm & Hm).
  (* either the arrays are translated and [bad] is exact, or there was no memory *)
  assert (X : bad = true /\ (sparse_unreal x = true \/ nomem) \/ bad = false /\ sparse_unreal x = false /\
    (o = retarget_b <$> s_opaque x /\ (po = Src -> Forall (fun b => is_wrapper (b_image b) = false) (s_opaque x))) /\
    (m = retarget_b <$> s_image x /\ (pm = Src -> Forall (fun b => is_wrapper (b_image b) = false) (s_image x)))).
  { unfold sparse_unreal. destruct Hm as [(Em & -> & Fm)|(-> & ? & _)]; [|left; auto]. destruct Ho as [(Eo & -> & Fo)|(-> & ? & _)]; [|left; split; [done|auto]].
    cbn [orb] in Eo. rewrite <- Eo, <- Em. destruct bad; [left; auto|right; auto]. }
  clear Ho Hm.
  assert (Bad : forall c' s', bad = true -> holds s0 q (copies_blocks c') s' -> loop_post s0 q retarget_sparse sparse_unreal (dn ++ x :: rest) c' true s').
  { intros c' s' -> Hs'. split; [done|]. destruct X as [[_ [E|?]]|[? _]]; [left|by right|done]. rewrite existsb_app. cbn. by rewrite E, orb_true_r. }
  assert (Next : forall c' r' s', bad = false -> copied retarget_sparse (dn ++ [x]) rest c' -> holds s0 q (copies_blocks c') s' ->
    wp (sparse_loop rest (S (length dn)) (dn ++ x :: rest) c' r') (fun '(c', bad, _) => loop_post s0 q retarget_sparse sparse_unreal (dn ++ x :: rest) c' bad) s').
  { intros c' r' s' -> Hc' Hs'. rewrite Es, El. apply IH; [done| |done]. destruct X as [[? _]|(_ & E & _)]; [done|]. rewrite existsb_app, Hu. cbn. by rewrite E. }
  assert (Y : bad = false -> upd pm (fun y => mk_sparse (s_rest y) (s_opaque y) m) (upd po (fun y => mk_sparse (s_rest y) o (s_image y)) x) = retarget_sparse x).
  { intros ->. destruct X as [[? _]|(_ & _ & [-> Fo] & [-> Fm])]; [done|]. unfold retarget_sparse.
    assert (So : (forall p, po <> Heap p) -> retarget_b <$> s_opaque x = s_opaque x) by (intros; by eapply arr_same).
    assert (Sm : (forall p, pm <> Heap p) -> retarget_b <$> s_image x = s_image x) by (intros; by eapply arr_same).
    destruct x as [xr xo xm]; cbn [s_opaque s_image s_rest] in *. destruct po, pm; cbn [upd id s_rest s_opaque s_image]; rewrite ?So, ?Sm by done; done. }
  assert (G : wp ('(k, bad, r) ← (match c with
            | Some k => mret (k, bad, r)
            | None => copy ← malloc; owned ← malloc;
                mret (mk_copies copy owned (dn ++ x :: rest) [], bad || (copy =? 0) || (owned =? 0),
                      if (copy =? 0) || (owned =? 0) then VK_ERROR_OUT_OF_HOST_MEMORY else r)
            end);
          k ← own_array k po (fun y => mk_sparse (s_rest y) o (s_image y)) (length dn);
          k ← own_array k pm (fun y => mk_sparse (s_rest y) (s_opaque y) m) (length dn);
          if bad : bool then mret (Some k, true, r) else sparse_loop rest (S (length dn)) (dn ++ x :: rest) (Some k) r)
      (fun '(c', bad, _) => loop_post s0 q retarget_sparse sparse_unreal (dn ++ x :: rest) c' bad) s2).
  { destruct Hc as [Hc1 Hc2]. apply wp_bind. rewrite app_assoc in H2. eapply wp_mono; [by apply sparse_alloc|]. intros [[k bad'] r'] s3 (H3 & Hk & Hb).
    assert (Hkl : c_list k = (retarget_sparse <$> dn) ++ x :: rest) by (by rewrite Hk).
    apply wp_bind. eapply wp_mono.
    { eapply own_both; [exact Hkl|by rewrite length_fmap|exact Hpo|exact Hpm|exact H3]. }
    intros k1 s4 H4. apply wp_bind. eapply wp_mono; [exact H4|]. intros k2 s5 (H5 & E1 & E2 & E3). destruct Hb as [(-> & Hz & Hz')|[-> Hn]].
    - destruct bad; [apply wp_ret; by apply Bad|]. apply Next; [done| |exact H5]. split; [|by rewrite E1, E2].
      cbn [result from_option]. rewrite E3, Y by done. by rewrite fmap_app, <- app_assoc.
    - apply wp_ret. split; [done|by right]. }
  destruct po, pm; try exact G. cbn [place_blocks Datatypes.app] in H2. destruct bad; [apply wp_ret; by apply Bad|]. apply Next; [done| |done].
  apply copied_same; [done|]. specialize (Y eq_refl). cbn [upd id] in Y. by symmetry.
Qed.

Lemma sparse_same x : (forall i, is_wrapper i = false) -> retarget_sparse x = x /\ sparse_unreal x = false.
Proof.
  intros Hw. assert (T : forall l, retarget_b <$> l = l /\ existsb (fun b => unreal (b_image b)) l = false).
  { induction l as [|b l [IH1 IH2]]; [done|]. cbn. rewrite IH1, IH2, unreal_wrapper by done. split; [|done]. f_equal.
    apply (tr_id b_image set_image set_image_id). done. }
  unfold retarget_sparse, sparse_unreal. rewrite !(proj1 (T _)), !(proj2 (T _)). by destruct x.
Qed.

Lemma sparse_spec bi s : 0 < x_next s -> wp (bind_sparse_wrappers bi) (cmd_post (BindSparse bi) s) s.
Proof.
  intros Hn. unfold bind_sparse_wrappers.
  assert (Hu : existsb unreal (images (BindSparse bi)) = existsb sparse_unreal bi).
  { cbn [images]. rewrite existsb_bind. apply existsb_same. intros x. by rewrite existsb_app, !existsb_fmap. }
  destruct (nvhal_no_wrappers w) eqn:E.
  - pose proof (no_wrappers_none E) as Hw. eapply wp_mono; [by apply send_spec, holds_init|]. intros r s' [-> Hs].
    assert (Er : retarget (BindSparse bi) = KSparse bi).
    { cbn. f_equal. rewrite <- (list_fmap_id bi) at 2. apply list_fmap_ext. intros i x _. by apply sparse_same. }
    apply post_sent; [by rewrite Er| |intros _; by rewrite Er]. rewrite Hu. clear -Hw. induction bi as [|x l IH]; [done|]. cbn. by rewrite IH, (proj2 (sparse_same x Hw)).
  - apply wp_bind. eapply wp_mono; [apply (sparse_loop_spec s (x_sent s) bi [] None); [done|done|by apply holds_init]|].
    intros [[c bad] r] s1 H. apply (copies_finish (BindSparse bi) bi retarget_sparse sparse_unreal (fun y => c_blocks y ++ [c_arrs y; c_copy y])
      KSparse c bad (if r =? VK_SUCCESS then VK_ERROR_UNKNOWN else r) (fun r => r) s s1); try done.
    intros _. split; [|done]. by destruct (Z.eqb_spec r VK_SUCCESS).
Qed.

Lemma run_spec c s : 0 < x_next s -> wp (xl_run true c) (cmd_post c s) s.
Proof.
  intros Hn. destruct c as [name l|name a b|name l|name info|deps|l|l|bi|res]; cbn [xl_run].
  - apply (images_spec (Images name l) name l); [done|done|done|by right].
  - apply (images_spec (HostCopy name a b) name [a; b]); [done|done|done|by left].
  - apply (arr_spec b_image set_image set_image_id (Barriers name l) l 16 (KBarriers name) 0 (fun _ => 0)); done.
  - apply (arr_spec b_image set_image set_image_id (Dep name info) (d_barriers info) 16 (fun t => KDeps name [mk_dep (d_rest info) t]) 0 (fun _ => 0)); done.
  - by apply wait_events2_spec.
  - by apply (arr_spec b_image set_image set_image_id (Transition l) l 8 (KBarriers "vkTransitionImageLayout") VK_ERROR_UNKNOWN (fun r => r)).
  - apply (arr_spec id (fun i _ => i) (fun x => eq_refl) (OpaqueCapture l) l 16 (KImages "vkGetImageOpaqueCaptureDataEXT") VK_ERROR_UNKNOWN (fun r => r)); try done.
    by rewrite list_fmap_id.
  - by apply sparse_spec.
  - by apply write_spec.
Qed.

End Xl.

(** ** Properties *)


(** ** Witness *)

(** Image 1 is a wrapper realised as 101, image 2 a wrapper without memory. *)
Definition demo_world : hworld :=
  run_hops demo_hicd demo_hdev [HCreateImage demo_image; HCreateImage demo_image; HAllocate demo_import] hw_init.
Definition demo_deps (i : Z) : command := WaitEvents2 [mk_dep 0 [mk_b 50 7]; mk_dep 1 [mk_b 1 8; mk_b i 9]].


End ImgCommands.
