(* ===== verification/CmdTable.v ===== *)
(** * The command-buffer table and its per-thread cache ([hal/src/imgxlate.c], lines 22-117)

    Every intercepted vkCmd* looks its command buffer up.  The result is cached
    per thread, valid for one generation of the table; entries are malloc'd,
    freed when a command buffer or its pool or device goes, and written outside
    the table's lock.  Modelled as interleaved steps: a step is what one thread
    does between two points where another can run (a table operation under its
    lock, an access to the generation counter, a write to an entry).

    Vulkan lets the application use a command buffer, or a pool, from one thread
    at a time.  A thread's program counter claims the command buffers it works on,
    and a call starts only on unclaimed ones.

    The table itself is a finite map: what [HashTable] proves of the code's.
    [live], [given] and [faults] are not read by the code. *)

From Stdlib Require Import ZArith Lia.
From stdpp Require Import base option gmap list.
From S2P Require Import Prelude.

Set Default Goal Selector "!".
#[local] Open Scope Z_scope.

Module CmdTable.

(** ** State *)

Record nvhal_cmd := mk_cmd { e_dev : Z; e_pool : Z; e_family : Z; e_cs : Z; e_gt : Z }.

(** [cmd_cache] of a thread. *)
Record cmd_cache := mk_cache { c_cb : Z; c_e : option Z; c_gen : Z }.

(** What a sweep removes. *)
Inductive sweep := cmd_of_pool (pool : Z) | cmd_of_dev (dev : Z).
Definition selects (x : sweep) (dev pool : Z) : bool := match x with cmd_of_pool p => pool =? p | cmd_of_dev d => dev =? d end.

(** Where [nvhal_cmd_track] is with the first command buffer of [todo]: to look
    it up, to allocate its entry, the entry [p] in the table, the entry
    written. *)
Inductive stage := TLook | TNew | TPut (p : Z) | TInit.

(** [PLoaded]: [nvhal_cmd_get] read generation [g] and missed its cache;
    [PUsing]: it returned [e] and the caller works on it.  [PFree], [PSweep] and
    [PSwept] are past the generation's increment; what they claim is the
    application's until the ICD's call. *)
Inductive pc :=
  | PLoaded (cb g : Z)
  | PUsing (cb : Z) (e : option Z)
  | PFree (all todo : list Z)
  | PSweep (x : sweep) (dying : list Z)
  | PSwept (dying : list Z)
  | PTrack (dev pool : Z) (dn : list Z) (st : stage) (todo : list Z).

(** [heap]: [None] is an entry not yet written; [pcs]: absent threads are
    outside the HAL; [live]: the application's command buffers with their device
    and pool; [given], [released]: the per-entry objects allocated and freed. *)
Record cstate := mk_st {
  cmds : gmap Z Z;
  heap : gmap Z (option nvhal_cmd);
  cmd_gen : Z;
  caches : gmap nat cmd_cache;
  pcs : gmap nat pc;
  live : gmap Z (Z * Z);
  given : list Z;
  released : list Z;
  faults : Z;
}.
Definition st_init : cstate := mk_st ∅ ∅ 1 ∅ ∅ ∅ [] [] 0.

Definition set_pc (t : nat) (p : pc) (s : cstate) : cstate :=
  mk_st (cmds s) (heap s) (cmd_gen s) (caches s) (<[t := p]> (pcs s)) (live s) (given s) (released s) (faults s).
Definition leave (t : nat) (s : cstate) : cstate :=
  mk_st (cmds s) (heap s) (cmd_gen s) (caches s) (delete t (pcs s)) (live s) (given s) (released s) (faults s).
Definition set_cache (t : nat) (c : cmd_cache) (s : cstate) : cstate :=
  mk_st (cmds s) (heap s) (cmd_gen s) (<[t := c]> (caches s)) (pcs s) (live s) (given s) (released s) (faults s).
(** [atomic_fetch_add(&cmd_gen, 1)]; 2^64 of them do not happen. *)
Definition bump (s : cstate) : cstate :=
  mk_st (cmds s) (heap s) (cmd_gen s + 1) (caches s) (pcs s) (live s) (given s) (released s) (faults s).
Definition set_cmds (m : gmap Z Z) (s : cstate) : cstate :=
  mk_st m (heap s) (cmd_gen s) (caches s) (pcs s) (live s) (given s) (released s) (faults s).
Definition set_live (m : gmap Z (Z * Z)) (s : cstate) : cstate :=
  mk_st (cmds s) (heap s) (cmd_gen s) (caches s) (pcs s) m (given s) (released s) (faults s).
Definition set_heap (m : gmap Z (option nvhal_cmd)) (s : cstate) : cstate :=
  mk_st (cmds s) m (cmd_gen s) (caches s) (pcs s) (live s) (given s) (released s) (faults s).
Definition give (v : Z) (s : cstate) : cstate :=
  mk_st (cmds s) (heap s) (cmd_gen s) (caches s) (pcs s) (live s) (v :: given s) (released s) (faults s).
Definition release (l : list Z) (s : cstate) : cstate :=
  mk_st (cmds s) (heap s) (cmd_gen s) (caches s) (pcs s) (live s) (given s) (l ++ released s) (faults s).
Definition fault (s : cstate) : cstate :=
  mk_st (cmds s) (heap s) (cmd_gen s) (caches s) (pcs s) (live s) (given s) (released s) (faults s + 1).

(** ** Operations *)

Definition nonnull (l : list Z) : list Z := filter (fun v => v <> 0) l.
Definition subs (e : nvhal_cmd) : list Z := nonnull [e_cs e; e_gt e].

(** An entry is freed with its objects; freeing one that is not allocated, or
    one not yet written, is a fault. *)
Definition cmd_free (p : Z) (s : cstate) : cstate :=
  match heap s !! p with
  | Some (Some e) => set_heap (delete p (heap s)) (release (subs e) s)
  | Some None => set_heap (delete p (heap s)) (fault s)
  | None => fault s
  end.

(** A write through the pointer [p]. *)
Definition write_cmd (p : Z) (e : nvhal_cmd) (s : cstate) : cstate :=
  match heap s !! p with
  | Some _ => set_heap (<[p := Some e]> (heap s)) s
  | None => fault s
  end.

(** The threads' claims. *)
Definition claims (p : pc) : list Z :=
  match p with
  | PLoaded cb _ | PUsing cb _ => [cb]
  | PFree all _ => all
  | PSweep _ dying | PSwept dying => dying
  | PTrack _ _ dn _ todo => dn ++ todo
  end.
Definition unclaimed (s : cstate) (cb : Z) : bool := bool_decide (map_Forall (fun _ p => cb ∉ claims p) (pcs s)).
Definition idle (s : cstate) (t : nat) : bool := bool_decide (pcs s !! t = None).
Definition is_live (s : cstate) (cb : Z) : bool := bool_decide (is_Some (live s !! cb)).

(** [nvhal_cmd_get], up to the cache test. *)
Definition get_load (t : nat) (cb : Z) (s : cstate) : cstate :=
  let g := cmd_gen s in
  match caches s !! t with
  | Some c => if (c_cb c =? cb) && (c_gen c =? g) then set_pc t (PUsing cb (c_e c)) s else set_pc t (PLoaded cb g) s
  | None => set_pc t (PLoaded cb g) s
  end.
(** The rest of it. *)
Definition get_lookup (t : nat) (cb g : Z) (s : cstate) : cstate :=
  let e := cmds s !! cb in
  set_pc t (PUsing cb e) (set_cache t (mk_cache cb e g) s).

(** The caller's work on the entry: the compute-state shadow is allocated when
    it is not there, the timing state replaced. *)
Definition use_cs (p v : Z) (s : cstate) : cstate :=
  match heap s !! p with
  | Some (Some e) => if e_cs e =? 0 then give v (write_cmd p (mk_cmd (e_dev e) (e_pool e) (e_family e) v (e_gt e)) s) else s
  | _ => fault s
  end.
Definition use_gt (p v : Z) (s : cstate) : cstate :=
  match heap s !! p with
  | Some (Some e) => give v (write_cmd p (mk_cmd (e_dev e) (e_pool e) (e_family e) (e_cs e) v) (release (nonnull [e_gt e]) s))
  | _ => fault s
  end.

(** The entry [q] of [cb] leaves the table and is freed. *)
Definition remove (cb q : Z) (s : cstate) : cstate := cmd_free q (set_cmds (delete cb (cmds s)) s).

(** One command buffer of vkFreeCommandBuffers. *)
Definition free_one (cb : Z) (s : cstate) : cstate :=
  if cb =? 0 then s
  else match cmds s !! cb with
  | Some p => remove cb p s
  | None => s
  end.

(** The predicate of a sweep on entry [p]; [garbage]: what it finds in one not
    yet written. *)
Definition sweeps (x : sweep) (garbage : Z -> bool) (s : cstate) (p : Z) : bool :=
  match heap s !! p with
  | Some (Some e) => selects x (e_dev e) (e_pool e)
  | _ => garbage p
  end.
Definition sweep_all (x : sweep) (garbage : Z -> bool) (s : cstate) : cstate :=
  let gone := filter (fun y => sweeps x garbage s y.2 = true) (map_to_list (cmds s)) in
  foldl (fun s y => remove y.1 y.2 s) s gone.

Definition drop_live (l : list Z) (s : cstate) : cstate := set_live (filter (fun y => y.1 ∉ l) (live s)) s.

Section Steps.
(** [nvhal_pool_family] *)
Context (pool_family : Z -> Z).

(** [nvhal_cmd_track]: the table's answer for the first of [todo]. *)
Definition track_look (t : nat) (dev pool : Z) (dn : list Z) (cb : Z) (todo : list Z) (s : cstate) : cstate :=
  match cmds s !! cb with
  | None => set_pc t (PTrack dev pool dn TNew (cb :: todo)) s
  | Some p =>
      let s := match heap s !! p with
               | Some (Some e) => write_cmd p (mk_cmd dev pool (pool_family pool) 0 0) (release (subs e) s)
               | _ => fault s
               end in
      set_pc t (PTrack dev pool (dn ++ [cb]) TLook todo) (bump s)
  end.
(** A new entry at [p], 0 when there is no memory. *)
Definition track_put (t : nat) (dev pool : Z) (dn : list Z) (cb : Z) (todo : list Z) (p : Z) (put_ok : bool) (s : cstate) : cstate :=
  if (p =? 0) || negb put_ok then set_pc t (PTrack dev pool (dn ++ [cb]) TLook todo) s
  else set_pc t (PTrack dev pool dn (TPut p) (cb :: todo)) (set_heap (<[p := None]> (heap s)) (set_cmds (<[cb := p]> (cmds s)) s)).

(** ** Steps *)

Inductive action :=
  | AGet (t : nat) (cb : Z)
  | ALookup (t : nat)
  | AUseCs (t : nat) (v : Z)
  | AUseGt (t : nat) (v : Z)
  | ADone (t : nat)
  | AFree (t : nat) (cbs : list Z)
  | AFreeOne (t : nat)
  | AFreeIcd (t : nat)
  | ASweepStart (t : nat) (x : sweep)
  | ASweep (t : nat) (garbage : Z -> bool)
  | ASweepIcd (t : nat)
  | ATrack (t : nat) (dev pool : Z) (cbs : list Z)
  | ATrackNext (t : nat) (p : Z) (put_ok : bool).

(** No call that allocates from, or removes, what [x] selects runs. *)
Definition pool_free (s : cstate) (x : sweep) : bool :=
  bool_decide (map_Forall (fun _ p => match p with PTrack d pool _ _ _ => negb (selects x d pool) | _ => true end = true) (pcs s)).
Definition not_swept (s : cstate) (dev pool : Z) : bool :=
  bool_decide (map_Forall (fun _ p => match p with PSweep x _ => negb (selects x dev pool) | _ => true end = true) (pcs s)).

Definition when (b : bool) (s : cstate) : option cstate := if b then Some s else None.

(** [None]: thread [t] is not there, or the application may not make the call. *)
Definition cstep (a : action) (s : cstate) : option cstate :=
  match a with
  | AGet t cb => when (idle s t && is_live s cb && unclaimed s cb) (get_load t cb s)
  | ALookup t => match pcs s !! t with Some (PLoaded cb g) => Some (get_lookup t cb g s) | _ => None end
  | AUseCs t v => match pcs s !! t with Some (PUsing _ (Some p)) => when (negb (v =? 0)) (use_cs p v s) | _ => None end
  | AUseGt t v => match pcs s !! t with Some (PUsing _ (Some p)) => when (negb (v =? 0)) (use_gt p v s) | _ => None end
  | ADone t => match pcs s !! t with Some (PUsing _ _) => Some (leave t s) | _ => None end
  | AFree t cbs =>
      when (idle s t && bool_decide (NoDup (nonnull cbs)) && forallb (fun cb => (cb =? 0) || is_live s cb && unclaimed s cb) cbs)
        (set_pc t (PFree (nonnull cbs) cbs) (bump s))
  | AFreeOne t =>
      match pcs s !! t with Some (PFree all (cb :: todo)) => Some (set_pc t (PFree all todo) (free_one cb s)) | _ => None end
  | AFreeIcd t => match pcs s !! t with Some (PFree all []) => Some (leave t (drop_live all s)) | _ => None end
  | ASweepStart t x =>
      let dying := (filter (fun y => selects x y.2.1 y.2.2 = true) (map_to_list (live s))).*1 in
      when (idle s t && forallb (unclaimed s) dying && pool_free s x) (set_pc t (PSweep x dying) (bump s))
  | ASweep t garbage =>
      match pcs s !! t with Some (PSweep x dying) => Some (set_pc t (PSwept dying) (sweep_all x garbage s)) | _ => None end
  | ASweepIcd t => match pcs s !! t with Some (PSwept dying) => Some (leave t (drop_live dying s)) | _ => None end
  | ATrack t dev pool cbs =>
      when (idle s t && bool_decide (NoDup cbs) && forallb (fun cb => negb (is_live s cb) && unclaimed s cb) cbs && not_swept s dev pool)
        (set_pc t (PTrack dev pool [] TLook cbs) s)
  | ATrackNext t p put_ok =>
      match pcs s !! t with
      | Some (PTrack dev pool dn st todo) =>
          match st, todo with
          | TLook, cb :: todo => Some (track_look t dev pool dn cb todo s)
          | TLook, [] => Some (leave t (set_live (list_to_map ((fun cb => (cb, (dev, pool))) <$> dn) ∪ live s) s))
          | TNew, cb :: todo => when (bool_decide (heap s !! p = None)) (track_put t dev pool dn cb todo p put_ok s)
          | TPut p, cb :: todo =>
              Some (set_pc t (PTrack dev pool dn TInit (cb :: todo)) (write_cmd p (mk_cmd dev pool (pool_family pool) 0 0) s))
          | TInit, cb :: todo => Some (set_pc t (PTrack dev pool (dn ++ [cb]) TLook todo) (bump s))
          | _, [] => None
          end
      | _ => None
      end
  end.

Definition run_actions (l : list action) (s : cstate) : option cstate := foldl (fun o a => o ≫= cstep a) (Some s) l.

(** No sweep finds a match in an entry not yet written. *)
Definition tame (s : cstate) (a : action) : Prop :=
  match a with ASweep _ g => forall p, heap s !! p = Some None -> g p = false | _ => True end.
Inductive reach : cstate -> Prop :=
  | reach_init : reach st_init
  | reach_step s a s' : reach s -> tame s a -> cstep a s = Some s' -> reach s'.

(** ** Invariant *)

Definition holds_entry (h : gmap Z (option nvhal_cmd)) (p dev pool : Z) : Prop :=
  exists e, h !! p = Some (Some e) /\ e_dev e = dev /\ e_pool e = pool.

(** The claims of the calls that remove entries. *)
Definition removes (p : pc) : list Z :=
  match p with PFree all _ => all | PSweep _ dying | PSwept dying => dying | _ => [] end.

(** The entry [q] of [cb] is one a tracking call has made. *)
Definition track_entry (h : gmap Z (option nvhal_cmd)) (p : pc) (cb q : Z) : Prop :=
  match p with
  | PTrack d pool dn st todo =>
      cb ∈ dn /\ holds_entry h q d pool \/
      head todo = Some cb /\ (st = TPut q /\ h !! q = Some None \/ st = TInit /\ holds_entry h q d pool)
  | _ => False
  end.

Definition live_entry (s : cstate) (cb q : Z) : Prop := exists d pool, live s !! cb = Some (d, pool) /\ holds_entry (heap s) q d pool.

Definition pc_ok (s : cstate) (p : pc) : Prop :=
  match p with
  | PLoaded cb g => is_Some (live s !! cb) /\ g <= cmd_gen s
  | PUsing cb e => is_Some (live s !! cb) /\ cmds s !! cb = e
  | PFree all todo => (forall cb, cb ∈ all -> cb <> 0 /\ is_Some (live s !! cb)) /\ (forall cb, cb ∈ all -> cb ∉ todo -> cmds s !! cb = None) /\
      (forall cb, cb ∈ todo -> cb <> 0 -> cb ∈ all)
  | PSweep x dying => (forall cb, cb ∈ dying -> exists d pool, live s !! cb = Some (d, pool) /\ selects x d pool = true) /\
      (forall cb d pool, live s !! cb = Some (d, pool) -> selects x d pool = true -> cb ∈ dying)
  | PSwept dying => (forall cb, cb ∈ dying -> is_Some (live s !! cb) /\ cmds s !! cb = None)
  | PTrack d pool dn st todo => NoDup (dn ++ todo) /\ (forall cb, cb ∈ dn ++ todo -> live s !! cb = None) /\
      match st, todo with TNew, cb :: _ => cmds s !! cb = None | TPut p, cb :: _ => cmds s !! cb = Some p /\ heap s !! p = Some None | _, _ => True end
  end.

(** A command buffer in the application's hands. *)
Definition settled (s : cstate) (cb : Z) : Prop := is_Some (live s !! cb) /\ forall t p, pcs s !! t = Some p -> cb ∉ removes p.

Definition occ (v : Z) (l : list Z) : Z := Z.of_nat (count_occ Z.eq_dec l v).
Definition subs_of (x : option nvhal_cmd) : list Z := from_option subs [] x.

Record inv (s : cstate) : Prop := {
  i_entry cb q : cmds s !! cb = Some q -> live_entry s cb q \/ exists t p, pcs s !! t = Some p /\ track_entry (heap s) p cb q;
  i_inj cb cb' q : cmds s !! cb = Some q -> cmds s !! cb' = Some q -> cb = cb';
  i_heap q x : heap s !! q = Some x -> exists cb, cmds s !! cb = Some q;
  i_disj t t' p p' cb : pcs s !! t = Some p -> pcs s !! t' = Some p' -> cb ∈ claims p -> cb ∈ claims p' -> t = t';
  i_pc t p : pcs s !! t = Some p -> pc_ok s p;
  i_cross t t' x l d pool dn st todo : pcs s !! t = Some (PSweep x l) -> pcs s !! t' = Some (PTrack d pool dn st todo) -> selects x d pool = false;
  i_cache t c : caches s !! t = Some c -> c_gen c <= cmd_gen s /\ (c_gen c = cmd_gen s -> settled s (c_cb c) /\ cmds s !! c_cb c = c_e c);
  i_count v : occ v (given s) = occ v (released s) + total (fun _ x => occ v (subs_of x)) (heap s);
  i_safe : faults s = 0;
}.

Lemma removes_claims p cb : cb ∈ removes p -> cb ∈ claims p.
Proof. by destruct p; cbn; try (intros ?%elem_of_nil). Qed.
Lemma occ_app v l l' : occ v (l ++ l') = occ v l + occ v l'.
Proof. unfold occ. rewrite count_occ_app. lia. Qed.
Lemma occ_cons v x l : occ v (x :: l) = (if Z.eq_dec x v then 1 else 0) + occ v l.
Proof. unfold occ. cbn [count_occ]. destruct (Z.eq_dec x v); lia. Qed.

Lemma cinv_init : inv st_init.
Proof. split; try done. Qed.

(** *** Program counters *)

Lemma inv_set_pc t p' s : inv s ->
  (forall t' p cb, t' <> t -> pcs s !! t' = Some p -> cb ∈ claims p -> cb ∉ claims p') ->
  pc_ok s p' ->
  (forall u c, caches s !! u = Some c -> c_gen c = cmd_gen s -> c_cb c ∉ removes p') ->
  (forall p cb q, pcs s !! t = Some p -> cmds s !! cb = Some q -> track_entry (heap s) p cb q -> track_entry (heap s) p' cb q) ->
  (forall x l t' d pool dn st todo, p' = PSweep x l -> t' <> t -> pcs s !! t' = Some (PTrack d pool dn st todo) -> selects x d pool = false) ->
  (forall d pool dn st todo t' x l, p' = PTrack d pool dn st todo -> t' <> t -> pcs s !! t' = Some (PSweep x l) -> selects x d pool = false) ->
  inv (set_pc t p' s).
Proof.
  intros [I1 I2 I3 I4 I5 I6 I7 I8 I9] Hc Hp Hk Ht Hx Hy. split; cbn [set_pc cmds heap cmd_gen caches pcs live given released faults]; try done.
  - intros cb q H. destruct (I1 cb q H) as [?|(u & p & Hu & Hq)]; [by left|right]. destruct (decide (u = t)) as [->|Hne].
    + exists t, p'. rewrite lookup_insert_eq. split; [done|]. by eapply Ht.
    + exists u, p. by rewrite lookup_insert_ne.
  - intros u u' p q cb. rewrite !lookup_insert_Some. intros [[<- <-]|[Hn Hu]] [[<- <-]|[Hn' Hu']] H H'; try done.
    + by destruct (Hc u' q cb ltac:(done) Hu' H').
    + by destruct (Hc u p cb ltac:(done) Hu H).
    + by eapply I4.
  - intros u p. rewrite lookup_insert_Some. intros [[<- <-]|[? Hu]]; [exact Hp|exact (I5 u p Hu)].
  - intros u u' x l d pool dn st todo. rewrite !lookup_insert_Some. intros [[<- E]|[? Hu]] [[? E']|[? Hu']].
    + by subst.
    + by eapply Hx.
    + subst. by eapply Hy.
    + by eapply I6.
  - intros u c Hu. destruct (I7 u c Hu) as [Hle Hs]. split; [done|]. intros He. destruct (Hs He) as [[Hl Hr] Hq]. split; [|done].
    split; [done|]. cbn [pcs set_pc]. intros u' p. rewrite lookup_insert_Some. intros [[<- <-]|[? Hu']]; [by eapply Hk|by eapply Hr].
Qed.

(** A thread with no entries of its own leaves. *)
Lemma inv_leave t s : inv s -> (forall p cb q, pcs s !! t = Some p -> cmds s !! cb = Some q -> track_entry (heap s) p cb q -> live_entry s cb q) -> inv (leave t s).
Proof.
  intros [I1 I2 I3 I4 I5 I6 I7 I8 I9] Ht. split; cbn [leave cmds heap cmd_gen caches pcs live given released faults]; try done.
  - intros cb q H. destruct (I1 cb q H) as [?|(u & p & Hu & Hq)]; [by left|]. destruct (decide (u = t)) as [->|Hne].
    + left. by eapply Ht.
    + right. exists u, p. by rewrite lookup_delete_ne.
  - intros u u' p q cb. rewrite !lookup_delete_Some. intros [? ?] [? ?]. eauto.
  - intros u p. rewrite lookup_delete_Some. intros [? Hu]. exact (I5 u p Hu).
  - intros u u' x l d pool dn st todo. rewrite !lookup_delete_Some. intros [? ?] [? ?]. eauto.
  - intros u c Hu. destruct (I7 u c Hu) as [Hle Hs]. split; [done|]. intros He. destruct (Hs He) as [[Hl Hr] Hq]. split; [|done].
    split; [done|]. cbn [pcs leave]. intros u' p. rewrite lookup_delete_Some. intros [? ?]. eauto.
Qed.

(** After the increment no cache is valid. *)
Lemma inv_bump s : inv s -> inv (bump s) /\ forall u c, caches s !! u = Some c -> c_gen c < cmd_gen s + 1.
Proof.
  intros [I1 I2 I3 I4 I5 I6 I7 I8 I9]. split; [|intros u c Hu; destruct (I7 u c Hu); lia].
  split; cbn [bump cmds heap cmd_gen caches pcs live given released faults]; try done.
  - intros u p Hu. specialize (I5 u p Hu). destruct p; try exact I5. destruct I5. split; [done|cbn; lia].
  - intros u c Hu. destruct (I7 u c Hu). split; [lia|lia].
Qed.

(** *** Entries *)

Lemma track_entry_claims h p cb q : track_entry h p cb q -> cb ∈ claims p.
Proof.
  destruct p as [| | | | |d pool dn st todo]; cbn; [done..|]. rewrite elem_of_app. intros [[? _]|[H _]]; [by left|right].
  destruct todo; [done|]. injection H as ->. by left.
Qed.
Lemma live_entry_of s cb q : inv s -> cmds s !! cb = Some q -> is_Some (live s !! cb) -> live_entry s cb q.
Proof.
  intros I Hq Hl. destruct (i_entry s I cb q Hq) as [?|(t & p & Hp & Ht)]; [done|]. pose proof (track_entry_claims _ _ _ _ Ht) as Hc.
  pose proof (i_pc s I t p Hp) as P. destruct p as [| | | | |d pool dn st todo]; [done..|]. destruct P as (_ & P & _).
  rewrite (P cb Hc) in Hl. by destruct Hl.
Qed.

(** [s'] is [s] but for the tables and what was released. *)
Definition same_frame (s s' : cstate) : Prop :=
  pcs s' = pcs s /\ live s' = live s /\ caches s' = caches s /\ cmd_gen s' = cmd_gen s /\ given s' = given s.

Lemma holds_other h q q' d pool : q' <> q -> holds_entry h q' d pool -> holds_entry (delete q h) q' d pool.
Proof. intros Hne (e & He & H). exists e. by rewrite lookup_delete_ne. Qed.
Lemma track_other h p q cb q' : q' <> q -> track_entry h p cb q' -> track_entry (delete q h) p cb q'.
Proof.
  intros Hne. destruct p as [| | | | |d pool dn st todo]; cbn; [done..|]. rewrite lookup_delete_ne by done.
  intros [[? ?]|(? & [?|[? ?]])]; [left|right|right]; eauto using holds_other.
Qed.

Lemma remove_run cb q s e : heap s !! q = Some (Some e) -> remove cb q s =
  mk_st (delete cb (cmds s)) (delete q (heap s)) (cmd_gen s) (caches s) (pcs s) (live s) (given s) (subs e ++ released s) (faults s).
Proof. intros H. unfold remove, cmd_free. cbn [set_cmds heap]. by rewrite H. Qed.

Lemma inv_remove cb q t p s : inv s -> cmds s !! cb = Some q -> pcs s !! t = Some p -> cb ∈ removes p -> is_Some (live s !! cb) ->
  inv (remove cb q s) /\ same_frame s (remove cb q s) /\ cmds (remove cb q s) = delete cb (cmds s).
Proof.
  intros I Hq Hp Hr Hl. pose proof (live_entry_of s cb q I Hq Hl) as (d & pool & Hlv & e & He & _).
  rewrite (remove_run cb q s e He). split; [|done]. destruct I as [I1 I2 I3 I4 I5 I6 I7 I8 I9].
  assert (Hne : forall cb' q', cb <> cb' -> cmds s !! cb' = Some q' -> q' <> q) by (intros cb' q' Hn Hc ->; by apply Hn, (I2 cb cb' q)).
  split; cbn [cmds heap cmd_gen caches pcs live given released faults]; try done.
  - intros cb' q' [Hn Hc]%lookup_delete_Some. pose proof (Hne cb' q' Hn Hc) as Hqq. destruct (I1 cb' q' Hc) as [(d' & pool' & Hl' & H')|(u & p' & Hu & H')].
    + left. exists d', pool'. split; [done|]. by apply holds_other.
    + right. exists u, p'. split; [done|]. by apply track_other.
  - intros cb1 cb2 q'. rewrite !lookup_delete_Some. intros [_ ?] [_ ?]. eauto.
  - intros q' x [Hn Hx]%lookup_delete_Some. destruct (I3 q' x Hx) as [cb' Hc]. exists cb'. apply lookup_delete_Some. split; [|done]. intros <-. congruence.
  - intros u p' Hu. specialize (I5 u p' Hu). destruct p' as [cb' g|cb' e'|all todo|x dying|dying|d' pool' dn st todo]; try exact I5.
    + destruct I5 as [H1 H2]. split; [done|]. cbn [cmds]. rewrite lookup_delete_ne; [done|]. intros <-.
      assert (u = t) as -> by (eapply I4; [exact Hu|exact Hp|by left|by apply removes_claims]). rewrite Hp in Hu. injection Hu as ->. by apply elem_of_nil in Hr.
    + destruct I5 as (H1 & H2 & H3). split_and!; try done. intros cb' ??. cbn [cmds]. rewrite lookup_delete_None. auto.
    + intros cb' Hcb. destruct (I5 cb' Hcb). split; [done|]. cbn [cmds]. rewrite lookup_delete_None. auto.
    + destruct I5 as (H1 & H2 & H3). split_and!; [done|done|]. cbn [cmds heap]. destruct st, todo as [|cb' todo]; try done.
      * rewrite lookup_delete_None. auto.
      * destruct H3 as [H3 H4]. assert (cb <> cb').
        { intros <-. rewrite H2 in Hlv; [done|]. apply elem_of_app. right. by left. }
        rewrite !lookup_delete_ne; [done|by apply not_eq_sym, (Hne cb')|done].
  - intros u c Hu. destruct (I7 u c Hu) as [Hle Hs]. split; [done|]. intros Hg. destruct (Hs Hg) as [[S1 S2] S3]. split; [done|].
    rewrite lookup_delete_ne; [done|]. intros Hcc. apply (S2 t p Hp). by rewrite <- Hcc.
  - intros v. rewrite occ_app, (total_delete _ _ q (Some e) He), (I8 v). cbn [subs_of from_option]. lia.
Qed.

Lemma same_frame_trans s1 s2 s3 : same_frame s1 s2 -> same_frame s2 s3 -> same_frame s1 s3.
Proof. unfold same_frame. intros (-> & -> & -> & -> & ->) H. exact H. Qed.

Lemma inv_removes l t p s : inv s -> pcs s !! t = Some p -> NoDup l.*1 ->
  (forall y, y ∈ l -> cmds s !! y.1 = Some y.2 /\ y.1 ∈ removes p /\ is_Some (live s !! y.1)) ->
  let s' := foldl (fun s y => remove y.1 y.2 s) s l in
  inv s' /\ same_frame s s' /\ forall cb q, cmds s' !! cb = Some q -> cmds s !! cb = Some q /\ (cb, q) ∉ l.
Proof.
  revert s. induction l as [|[cb q] l IH]; intros s I Hp Hnd Hl.
  { cbn. split_and!; try done. intros cb q ?. split; [done|]. apply not_elem_of_nil. }
  cbn [foldl fst snd]. apply NoDup_cons in Hnd as [Hn Hnd]. destruct (Hl (cb, q) ltac:(by left)) as (H1 & H2 & H3). cbn [fst snd] in *.
  destruct (inv_remove cb q t p s I H1 Hp H2 H3) as (I1 & F1 & E1). pose proof F1 as (Fp & Fl & _).
  destruct (IH (remove cb q s)) as (I2 & F2 & E2); [done|by rewrite Fp|done| |].
  { intros y Hy. destruct (Hl y ltac:(by right)) as (A & B & C). rewrite E1, Fl. split_and!; [|done|done].
    rewrite lookup_delete_ne; [done|]. intros ->. apply Hn, (list_elem_of_fmap_2 fst _ _ Hy). }
  split_and!; [done|by eapply same_frame_trans|]. intros cb' q' H. destruct (E2 cb' q' H) as [Hc Hnl]. rewrite E1 in Hc.
  apply lookup_delete_Some in Hc as [Hne Hc]. split; [done|]. apply not_elem_of_cons. split; [|done]. congruence.
Qed.

(** The application's command buffers of [l] go. *)
Lemma inv_drop_live l s : inv s -> (forall cb, cb ∈ l -> cmds s !! cb = None) ->
  (forall t p cb, pcs s !! t = Some p -> cb ∈ claims p -> cb ∉ l) ->
  (forall u c, caches s !! u = Some c -> c_gen c = cmd_gen s -> c_cb c ∉ l) -> inv (drop_live l s).
Proof.
  intros [I1 I2 I3 I4 I5 I6 I7 I8 I9] Hc Hl Hk.
  assert (K : forall cb, cb ∉ l -> filter (fun y => y.1 ∉ l) (live s) !! cb = live s !! cb).
  { intros cb Hn. destruct (live s !! cb) as [x|] eqn:E; [by apply map_lookup_filter_Some|]. apply map_lookup_filter_None. by left. }
  split; cbn [drop_live set_live cmds heap cmd_gen caches pcs live given released faults]; try done.
  - intros cb q H. destruct (I1 cb q H) as [(d & pool & ? & ?)|?]; [|by right]. left. exists d, pool. cbn [live]. split; [|done].
    rewrite K; [done|]. intros ?%Hc. congruence.
  - intros t p Hp. specialize (I5 t p Hp). specialize (Hl t p). destruct p as [cb g|cb e|all todo|x dying|dying|d pool dn st todo]; cbn in *.
    + rewrite K by (apply Hl; [done|by left]). done.
    + rewrite K by (apply Hl; [done|by left]). done.
    + destruct I5 as (H1 & H2 & H3). split_and!; [|done|done]. intros cb Hcb. rewrite K by eauto. auto.
    + destruct I5 as (H1 & H2). split; [intros cb Hcb; rewrite K by eauto; auto|]. intros cb d pool [? _]%map_lookup_filter_Some. eauto.
    + intros cb Hcb. rewrite K by eauto. auto.
    + destruct I5 as (H1 & H2 & H3). split_and!; [done| |done]. intros cb Hcb. rewrite K by eauto. auto.
  - intros u c Hu. destruct (I7 u c Hu) as [Hle Hs]. split; [done|]. intros Hg. destruct (Hs Hg) as [[S1 S2] S3]. split; [|done]. split; [|done].
    cbn [drop_live set_live live]. rewrite K by eauto. done.
Qed.

Lemma inv_set_cache t cb g s : inv s -> g <= cmd_gen s -> (g = cmd_gen s -> settled s cb) -> inv (set_cache t (mk_cache cb (cmds s !! cb) g) s).
Proof.
  intros [I1 I2 I3 I4 I5 I6 I7 I8 I9] Hg Hs. split; cbn [set_cache cmds heap cmd_gen caches pcs live given released faults]; try done.
  intros u c. rewrite lookup_insert_Some. intros [[<- <-]|[_ Hu]]; [|exact (I7 u c Hu)]. cbn. split; [done|]. intros H. split; [by apply Hs|done].
Qed.

(** An entry is rewritten in place. *)
Definition rewrite_entry (q : Z) (e : nvhal_cmd) (gl rl : list Z) (s : cstate) : cstate :=
  mk_st (cmds s) (<[q := Some e]> (heap s)) (cmd_gen s) (caches s) (pcs s) (live s) (gl ++ given s) (rl ++ released s) (faults s).

Lemma holds_write h q e e' q' d pool : h !! q = Some (Some e) -> e_dev e' = e_dev e -> e_pool e' = e_pool e ->
  holds_entry h q' d pool -> holds_entry (<[q := Some e']> h) q' d pool.
Proof.
  intros Hq Hd Hp (x & Hx & <- & <-). destruct (decide (q' = q)) as [->|Hne].
  - rewrite Hq in Hx. injection Hx as <-. exists e'. by rewrite lookup_insert_eq.
  - exists x. by rewrite lookup_insert_ne.
Qed.
Lemma none_write (h : gmap Z (option nvhal_cmd)) q (e e' : nvhal_cmd) q' : h !! q = Some (Some e) -> h !! q' = Some None -> <[q := Some e']> h !! q' = Some None.
Proof. intros Hq Hn. rewrite lookup_insert_ne; [done|]. congruence. Qed.
Lemma track_write h q e e' p cb q' : h !! q = Some (Some e) -> e_dev e' = e_dev e -> e_pool e' = e_pool e ->
  track_entry h p cb q' -> track_entry (<[q := Some e']> h) p cb q'.
Proof.
  intros Hq Hd Hp. destruct p as [| | | | |d pool dn st todo]; cbn; [done..|].
  intros [[? ?]|(? & [[? ?]|[? ?]])]; [left|right|right]; eauto using holds_write, none_write.
Qed.

Lemma inv_rewrite q e e' gl rl s : inv s -> heap s !! q = Some (Some e) -> e_dev e' = e_dev e -> e_pool e' = e_pool e ->
  (forall v, occ v gl + occ v (subs e) = occ v rl + occ v (subs e')) -> inv (rewrite_entry q e' gl rl s).
Proof.
  intros [I1 I2 I3 I4 I5 I6 I7 I8 I9] Hq Hd Hp Ho. split; cbn [rewrite_entry cmds heap cmd_gen caches pcs live given released faults]; try done.
  - intros cb q' H. destruct (I1 cb q' H) as [(d & pool & ? & ?)|(t & p & ? & ?)].
    + left. exists d, pool. split; [done|]. by eapply holds_write.
    + right. exists t, p. split; [done|]. by eapply track_write.
  - intros q' x. rewrite lookup_insert_Some. intros [[<- _]|[_ Hx]]; [by eapply I3|by eapply I3].
  - intros t p Ht. specialize (I5 t p Ht). destruct p as [cb g|cb x|all todo|x dying|dying|d pool dn st todo]; try exact I5. destruct I5 as (H1 & H2 & H3).
    split_and!; [done|done|]. destruct st, todo; try done. destruct H3. split; [done|]. by eapply none_write.
  - intros v. rewrite !occ_app, (total_insert _ _ q _ (Some e)), (I8 v) by done. specialize (Ho v). cbn [subs_of from_option]. lia.
Qed.

Lemma use_cs_inv q v s e : v <> 0 -> heap s !! q = Some (Some e) -> inv s -> inv (use_cs q v s).
Proof.
  intros Hv He I. unfold use_cs, write_cmd. rewrite He. destruct (Z.eqb_spec (e_cs e) 0) as [E0|]; [|done].
  apply (inv_rewrite q e (mk_cmd (e_dev e) (e_pool e) (e_family e) v (e_gt e)) [v] [] s I He); [done|done|].
  intros x. unfold subs, nonnull. cbn [e_cs e_gt]. rewrite E0, !filter_cons. rewrite (decide_False (P := 0 <> 0)) by lia. rewrite (decide_True (P := v <> 0)) by done.
  rewrite !occ_cons. unfold occ at 1 3. cbn. lia.
Qed.
Lemma use_gt_inv q v s e : v <> 0 -> heap s !! q = Some (Some e) -> inv s -> inv (use_gt q v s).
Proof.
  intros Hv He I. unfold use_gt, write_cmd. cbn [release heap]. rewrite He.
  apply (inv_rewrite q e (mk_cmd (e_dev e) (e_pool e) (e_family e) (e_cs e) v) [v] (nonnull [e_gt e]) s I He); [done|done|].
  intros x. unfold subs, nonnull. cbn [e_cs e_gt]. rewrite !filter_cons, !filter_nil, (decide_True (P := v <> 0)) by done.
  repeat case_decide; rewrite ?occ_cons; unfold occ; cbn [count_occ]; lia.
Qed.

(** *** Tracking *)

Lemma entry_heap s cb q : inv s -> cmds s !! cb = Some q -> is_Some (heap s !! q).
Proof.
  intros I H. destruct (i_entry s I cb q H) as [(d & pool & _ & e & He & _)|(t & p & _ & Ht)]; [eauto|].
  destruct p; try done. destruct Ht as [(_ & e & He & _)|(_ & [(_ & He)|(_ & e & He & _)])]; eauto.
Qed.

(** A command buffer to be looked up has no entry. *)
Lemma track_fresh t d pool dn cb todo s : inv s -> pcs s !! t = Some (PTrack d pool dn TLook (cb :: todo)) -> cmds s !! cb = None.
Proof.
  intros I Hp. destruct (cmds s !! cb) as [q|] eqn:E; [exfalso|done].
  assert (Hcb : cb ∈ dn ++ cb :: todo) by (apply elem_of_app; right; by left).
  destruct (i_pc s I t _ Hp) as (Hnd & Hl & _). destruct (i_entry s I cb q E) as [(d' & pool' & H & _)|(u & p & Hu & Ht)]; [by rewrite Hl in H|].
  assert (u = t) as -> by (eapply (i_disj s I u t); [done..|by eapply track_entry_claims|exact Hcb]).
  rewrite Hp in Hu. injection Hu as <-. destruct Ht as [[Hin _]|[_ [[? _]|[? _]]]]; [|done|done].
  apply NoDup_app in Hnd as (_ & Hnd & _). apply (Hnd cb Hin). by left.
Qed.

(** A tracking call moves on with the same command buffers. *)
Lemma stage_frame t d pool dn st st' todo s : inv s -> pcs s !! t = Some (PTrack d pool dn st todo) ->
  let m := <[t := PTrack d pool dn st' todo]> (pcs s) in
  (forall u u' p p' cb, m !! u = Some p -> m !! u' = Some p' -> cb ∈ claims p -> cb ∈ claims p' -> u = u') /\
  (forall u u' x l d pool dn st todo, m !! u = Some (PSweep x l) -> m !! u' = Some (PTrack d pool dn st todo) -> selects x d pool = false) /\
  (forall cb, (forall u p, pcs s !! u = Some p -> cb ∉ removes p) -> forall u p, m !! u = Some p -> cb ∉ removes p).
Proof.
  intros I Ht m. split_and!.
  - assert (T : forall u p, m !! u = Some p -> exists p0, pcs s !! u = Some p0 /\ claims p = claims p0).
    { intros v p' [[<- <-]|[_ ?]]%lookup_insert_Some; [eexists; by split|eauto]. }
    intros u u' p p' cb (x & Hx & ->)%T (y & Hy & ->)%T. by eapply (i_disj s I).
  - intros u u' x l d' pool' dn' s' l'. unfold m. rewrite !lookup_insert_Some. intros [[<- ?]|[? Hu]] [[<- E]|[? Hu']]; try done; [|by eapply (i_cross s I)].
    injection E as <- <- <- <- <-. by eapply (i_cross s I u t).
  - intros cb H u p [[<- <-]|[_ ?]]%lookup_insert_Some; [apply not_elem_of_nil|eauto].
Qed.

Lemma inv_track_put t d pool dn cb todo p s : inv s -> pcs s !! t = Some (PTrack d pool dn TNew (cb :: todo)) -> heap s !! p = None ->
  inv (set_pc t (PTrack d pool dn (TPut p) (cb :: todo)) (set_heap (<[p := None]> (heap s)) (set_cmds (<[cb := p]> (cmds s)) s))).
Proof.
  intros I Ht Hp. destruct (stage_frame t d pool dn TNew (TPut p) (cb :: todo) s I Ht) as (F1 & F2 & F3). assert (Hcb : cb ∈ dn ++ cb :: todo) by (apply elem_of_app; right; by left).
  destruct (i_pc s I t _ Ht) as (Hnd & Hl & Hn). pose proof (Hl cb Hcb) as Hlcb.
  assert (Hq : forall cb' q, cmds s !! cb' = Some q -> q <> p).
  { intros cb' q H ->. apply (entry_heap s cb' p I) in H as [? H]. congruence. }
  assert (Ho : forall u p' cb', u <> t -> pcs s !! u = Some p' -> cb' ∈ claims p' -> cb' <> cb).
  { intros u p' cb' Hne Hu Hc ->. apply Hne. by eapply (i_disj s I u t). }
  destruct I as [I1 I2 I3 I4 I5 I6 I7 I8 I9]. split; cbn [set_pc set_heap set_cmds cmds heap cmd_gen caches pcs live given released faults].
  - intros cb' q. rewrite lookup_insert_Some. intros [[<- <-]|[Hne Hc]].
    { right. eexists t, _. rewrite lookup_insert_eq. split; [done|]. right. cbn. rewrite lookup_insert_eq. auto. }
    assert (Hpq : p <> q) by (by apply not_eq_sym, (Hq cb')).
    assert (Hh : forall d pool, holds_entry (heap s) q d pool -> holds_entry (<[p := None]> (heap s)) q d pool).
    { intros d' pool' (e & He & ?). exists e. by rewrite lookup_insert_ne. }
    destruct (I1 cb' q Hc) as [(d' & pool' & ? & ?)|(u & p' & Hu & H)]; [left; exists d', pool'; split; [done|by apply Hh]|right].
    destruct (decide (u = t)) as [->|Hut].
    + eexists t, _. rewrite lookup_insert_eq. split; [done|]. rewrite Ht in Hu. injection Hu as <-. destruct H as [[? ?]|[[= <-] _]]; [left; auto|done].
    + exists u, p'. rewrite lookup_insert_ne by done. split; [done|]. destruct p'; cbn; try done. rewrite lookup_insert_ne by done.
      destruct H as [[? ?]|[? [?|[? ?]]]]; [left|right|right]; auto.
  - intros cb1 cb2 q. rewrite !lookup_insert_Some. intros [[<- <-]|[? H1]] [[<- ?]|[? H2]]; try done; [by destruct (Hq _ _ H2)|subst q; by destruct (Hq _ _ H1)|eauto].
  - intros q x. rewrite lookup_insert_Some. intros [[<- _]|[Hne Hx]]; [exists cb; apply lookup_insert_eq|]. destruct (I3 q x Hx) as [cb' Hc]. exists cb'.
    rewrite lookup_insert_ne; [done|]. intros <-. congruence.
  - exact F1.
  - intros u p'. rewrite lookup_insert_Some. intros [[<- <-]|[Hut Hu]].
    { split; [done|]. split; [done|]. cbn. rewrite !lookup_insert_eq. done. }
    specialize (I5 u p' Hu). assert (Hco : forall cb', cb' ∈ claims p' -> cb' <> cb) by (intros cb' Hc; by eapply (Ho u)).
    assert (Hkc : forall cb', cb' ∈ claims p' -> <[cb := p]> (cmds s) !! cb' = cmds s !! cb') by (intros cb' Hc; rewrite lookup_insert_ne; [done|]; by apply not_eq_sym, Hco).
    destruct p' as [cb' g|cb' e|all l|x dying|dying|d' pool' dn' st l]; try exact I5.
    + destruct I5. split; [done|]. cbn [cmds set_pc set_heap set_cmds]. by rewrite Hkc by left.
    + destruct I5 as (H1 & H2 & H3). split_and!; [done| |done]. intros cb' ??. cbn [cmds set_pc set_heap set_cmds]. rewrite Hkc by done. auto.
    + intros cb' Hc. cbn [cmds live set_pc set_heap set_cmds]. rewrite Hkc by done. auto.
    + destruct I5 as (H1 & H2 & H3). split_and!; [done|done|]. cbn [cmds heap set_pc set_heap set_cmds].
      assert (Hhd : forall c l', l = c :: l' -> <[cb := p]> (cmds s) !! c = cmds s !! c) by (intros c l' ->; apply Hkc; cbn; apply elem_of_app; right; by left).
      destruct st, l as [|c l]; try done; rewrite (Hhd c l eq_refl); [done|]. destruct H3. split; [done|]. rewrite lookup_insert_ne; [done|]. congruence.
  - exact F2.
  - intros u c Hu. destruct (I7 u c Hu) as [Hle Hs]. split; [done|]. intros Hg. destruct (Hs Hg) as [[S1 S2] S3]. split.
    + split; [done|]. exact (F3 _ S2).
    + rewrite lookup_insert_ne; [done|]. intros E. rewrite <- E, Hlcb in S1. by destruct S1.
  - intros v. rewrite total_insert_new by done. rewrite (I8 v). change (occ v (subs_of None)) with 0. lia.
  - done.
Qed.

Lemma inv_track_write t d pool dn cb todo p s : inv s -> pcs s !! t = Some (PTrack d pool dn (TPut p) (cb :: todo)) ->
  inv (set_pc t (PTrack d pool dn TInit (cb :: todo)) (write_cmd p (mk_cmd d pool (pool_family pool) 0 0) s)).
Proof.
  intros I Ht. destruct (stage_frame t d pool dn (TPut p) TInit (cb :: todo) s I Ht) as (F1 & F2 & F3).
  destruct (i_pc s I t _ Ht) as (Hnd & Hl & Hc & Hh). unfold write_cmd. rewrite Hh. set (e := mk_cmd _ _ _ _ _).
  assert (He : holds_entry (<[p := Some e]> (heap s)) p d pool) by (exists e; by rewrite lookup_insert_eq).
  assert (Ho : forall cb' q, cb' <> cb -> cmds s !! cb' = Some q -> p <> q) by (intros cb' q Hne Hq <-; by apply Hne, (i_inj s I cb' cb p)).
  assert (Hk : forall q d pool, p <> q -> holds_entry (heap s) q d pool -> holds_entry (<[p := Some e]> (heap s)) q d pool).
  { intros q d' pool' Hne (x & Hx & ?). exists x. by rewrite lookup_insert_ne. }
  assert (Hd : forall u p' cb', u <> t -> pcs s !! u = Some p' -> cb' ∈ claims p' -> cb' <> cb).
  { intros u p' cb' Hne Hu Hcl ->. apply Hne. eapply (i_disj s I u t); [done..|]. cbn. apply elem_of_app. right. by left. }
  destruct I as [I1 I2 I3 I4 I5 I6 I7 I8 I9]. split; cbn [set_pc set_heap cmds heap cmd_gen caches pcs live given released faults]; try done.
  - intros cb' q Hq. destruct (decide (cb' = cb)) as [->|Hne].
    { right. eexists t, _. rewrite lookup_insert_eq. split; [done|]. right. rewrite Hc in Hq. injection Hq as <-. auto. }
    pose proof (Ho cb' q Hne Hq) as Hpq.
    destruct (I1 cb' q Hq) as [(d' & pool' & ? & ?)|(u & p' & Hu & H)]; [left; exists d', pool'; split; [done|by apply Hk]|right].
    destruct (decide (u = t)) as [->|Hut].
    + eexists t, _. rewrite lookup_insert_eq. split; [done|]. rewrite Ht in Hu. injection Hu as <-. destruct H as [[? ?]|[[= <-] _]]; [left; auto|done].
    + exists u, p'. rewrite lookup_insert_ne by done. split; [done|]. destruct p'; cbn; try done. rewrite lookup_insert_ne by done.
      destruct H as [[? ?]|[? [?|[? ?]]]]; [left|right|right]; auto.
  - intros q x. rewrite lookup_insert_Some. intros [[<- _]|[_ Hx]]; [by exists cb|by eapply I3].
  - intros u p'. rewrite lookup_insert_Some. intros [[<- <-]|[Hut Hu]]; [done|]. specialize (I5 u p' Hu).
    destruct p' as [cb' g|cb' x|all l|x dying|dying|d' pool' dn' st l]; try exact I5. destruct I5 as (H1 & H2 & H3). split_and!; [done|done|].
    destruct st, l as [|c l]; try done. destruct H3 as [H3 H4]. split; [done|]. cbn [heap set_pc set_heap]. rewrite lookup_insert_ne; [done|].
    apply (Ho c); [|done]. eapply (Hd u); [done|exact Hu|]. cbn. apply elem_of_app. right. by left.
  - intros u c Hu. destruct (I7 u c Hu) as [Hle Hs]. split; [done|]. intros Hg. destruct (Hs Hg) as [[S1 S2] S3]. split; [|done].
    split; [done|]. exact (F3 _ S2).
  - intros v. rewrite (total_insert _ _ p _ None), (I8 v) by done. change (occ v (subs_of None)) with 0. change (occ v (subs_of (Some e))) with 0. lia.
Qed.

Lemma inv_track_end t d pool dn s : inv s -> pcs s !! t = Some (PTrack d pool dn TLook []) ->
  inv (leave t (set_live (list_to_map ((fun cb => (cb, (d, pool))) <$> dn) ∪ live s) s)).
Proof.
  intros I Ht. destruct (i_pc s I t _ Ht) as (Hnd & Hl & _). rewrite app_nil_r in *. set (l' := _ ∪ live s).
  assert (L1 : forall cb, cb ∈ dn -> l' !! cb = Some (d, pool)).
  { intros cb Hcb. apply lookup_union_Some_l, elem_of_list_to_map_1.
    - rewrite <- list_fmap_compose, list_fmap_id. done.
    - apply list_elem_of_fmap. eauto. }
  assert (L2 : forall cb, cb ∉ dn -> l' !! cb = live s !! cb).
  { intros cb Hcb. apply lookup_union_r, not_elem_of_list_to_map_1. by rewrite <- list_fmap_compose, list_fmap_id. }
  assert (L3 : forall cb, is_Some (live s !! cb) -> l' !! cb = live s !! cb).
  { intros cb [x Hx]. apply L2. intros Hcb. rewrite Hl in Hx; [done|]. exact Hcb. }
  assert (Hd : forall u p cb, u <> t -> pcs s !! u = Some p -> cb ∈ claims p -> cb ∉ dn).
  { intros u p cb Hne Hu Hc Hcb. apply Hne. eapply (i_disj s I u t); [done..|]. cbn. by rewrite app_nil_r. }
  destruct I as [I1 I2 I3 I4 I5 I6 I7 I8 I9]. split; cbn [leave set_live cmds heap cmd_gen caches pcs live given released faults]; try done.
  - intros cb q Hq. destruct (I1 cb q Hq) as [(d' & pool' & H & ?)|(u & p & Hu & H)].
    { left. exists d', pool'. split; [|done]. cbn [live leave set_live]. by rewrite L3 by eauto. }
    destruct (decide (u = t)) as [->|Hne]; [left|right; exists u, p; by rewrite lookup_delete_ne]. rewrite Ht in Hu. injection Hu as <-.
    destruct H as [[H ?]|[? _]]; [|done]. exists d, pool. split; [|done]. by apply L1.
  - intros u u' p p' cb. rewrite !lookup_delete_Some. intros [_ ?] [_ ?]. eauto.
  - intros u p [Hne Hu]%lookup_delete_Some. specialize (I5 u p Hu). pose proof (fun cb => Hd u p cb ltac:(done) Hu) as Hc.
    destruct p as [cb g|cb e|all todo|x dying|dying|d' pool' dn' st todo]; cbn in *.
    + destruct I5 as [H ?]. by rewrite L3.
    + destruct I5 as [H ?]. by rewrite L3.
    + destruct I5 as (H1 & H2 & H3). split_and!; [|done|done]. intros cb Hcb. destruct (H1 cb Hcb). rewrite L3; auto.
    + destruct I5 as (H1 & H2). split.
      * intros cb Hcb. destruct (H1 cb Hcb) as (d' & pool' & H & ?). exists d', pool'. rewrite L3; eauto.
      * intros cb d' pool' H Hs. destruct (decide (cb ∈ dn)) as [Hin|Hin]; [|rewrite L2 in H by done; eauto].
        rewrite (L1 cb Hin) in H. injection H as <- <-. by rewrite (I6 u t x dying d pool dn TLook [] Hu Ht) in Hs.
    + intros cb Hcb. destruct (I5 cb Hcb). rewrite L3; auto.
    + destruct I5 as (H1 & H2 & H3). split_and!; [done| |done]. intros cb Hcb. rewrite L2; auto.
  - intros u u' x l d' pool' dn' st todo. rewrite !lookup_delete_Some. intros [_ ?] [_ ?]. eauto.
  - intros u c Hu. destruct (I7 u c Hu) as [Hle Hs]. split; [done|]. intros Hg. destruct (Hs Hg) as [[S1 S2] S3]. split; [|done].
    split; [cbn [live leave set_live]; by rewrite L3|]. intros u' p. cbn [pcs leave set_live]. rewrite lookup_delete_Some. intros [_ ?]. eauto.
Qed.

(** *** Steps *)

Lemma unclaimed_spec s cb : unclaimed s cb = true -> forall t p, pcs s !! t = Some p -> cb ∉ claims p.
Proof. unfold unclaimed. intros H%bool_decide_eq_true t p Hp. exact (H t p Hp). Qed.

(** A call starts. *)
Lemma cinv_start t p' s : inv s -> pcs s !! t = None -> (forall cb, cb ∈ claims p' -> unclaimed s cb = true) -> pc_ok s p' ->
  (forall u c, caches s !! u = Some c -> c_gen c = cmd_gen s -> c_cb c ∉ removes p') ->
  (forall x l, p' = PSweep x l -> pool_free s x = true) ->
  (forall d pool dn st todo, p' = PTrack d pool dn st todo -> not_swept s d pool = true) -> inv (set_pc t p' s).
Proof.
  intros I Ht Hu Hp Hk Hx Hy. apply inv_set_pc; [done| |done|done|congruence| |].
  - intros t' p cb _ Hp' Hc Hc'. by apply (unclaimed_spec s cb (Hu cb Hc') t' p).
  - intros x l t' d pool dn st todo E _ H. specialize (Hx x l E). apply bool_decide_eq_true in Hx. specialize (Hx t' _ H). by apply negb_true_iff in Hx.
  - intros d pool dn st todo t' x l E _ H. specialize (Hy _ _ _ _ _ E). apply bool_decide_eq_true in Hy. specialize (Hy t' _ H). by apply negb_true_iff in Hy.
Qed.

(** A thread goes on with the command buffers it has. *)
Lemma inv_continue t p p' s : inv s -> pcs s !! t = Some p -> claims p' = claims p -> (forall cb, cb ∈ removes p' -> cb ∈ removes p) -> pc_ok s p' ->
  (forall cb q, cmds s !! cb = Some q -> track_entry (heap s) p cb q -> track_entry (heap s) p' cb q) ->
  (forall x l, p' <> PSweep x l) -> (forall d pool dn st todo, p' = PTrack d pool dn st todo -> exists dn st todo, p = PTrack d pool dn st todo) ->
  inv (set_pc t p' s).
Proof.
  intros I Ht Hc Hr Hp He Hx Hy. apply inv_set_pc; [done| |done| | | |].
  - intros t' q cb Hne Hq H. rewrite Hc. intros H'. apply Hne. by eapply (i_disj s I t' t).
  - intros u c Hu Hg H. destruct (i_cache s I u c Hu) as [_ Hs]. destruct (Hs Hg) as [[_ S] _]. apply (S t p Ht). auto.
  - intros q cb x Hq. rewrite Ht in Hq. injection Hq as <-. auto.
  - intros x l t' d pool dn st todo E. by destruct (Hx x l).
  - intros d pool dn st todo t' x l E _ H. destruct (Hy _ _ _ _ _ E) as (? & ? & ? & ->). by eapply (i_cross s I t' t).
Qed.

Lemma when_Some b s s' : when b s = Some s' -> b = true /\ s' = s.
Proof. destruct b; [|done]. by intros [= ->]. Qed.

Lemma get_load_inv t cb s : inv s -> idle s t && is_live s cb && unclaimed s cb = true -> inv (get_load t cb s).
Proof.
  intros I Hg. unfold idle, is_live in Hg. bool_props. assert (L : forall p', claims p' = [cb] -> removes p' = [] -> (forall x l, p' <> PSweep x l) ->
    (forall d pool dn st todo, p' <> PTrack d pool dn st todo) -> pc_ok s p' -> inv (set_pc t p' s)).
  { intros p' Hc Hr Hx Hy Hp. apply cinv_start; [done|done| |done| | |].
    - intros x. rewrite Hc, list_elem_of_singleton. by intros ->.
    - intros u c _ _. rewrite Hr. apply not_elem_of_nil.
    - intros x l E. by destruct (Hx x l).
    - intros d pool dn st todo E. by destruct (Hy d pool dn st todo). }
  unfold get_load. cbn zeta. destruct (caches s !! t) as [c|] eqn:Ec; [destruct (_ && _) eqn:Eh|]; (apply L; [done|done|done|done|]); try (split; [done|lia]).
  bool_props. destruct (i_cache s I t c Ec) as [_ Hs]. destruct (Hs ltac:(done)) as [_ Hq]. subst cb. by split.
Qed.

Lemma get_lookup_inv t cb g s : inv s -> pcs s !! t = Some (PLoaded cb g) -> inv (get_lookup t cb g s).
Proof.
  intros I Ht. destruct (i_pc s I t _ Ht) as [Hl Hg]. unfold get_lookup. cbn zeta.
  apply (inv_continue t (PLoaded cb g)); try done. apply inv_set_cache; [done|done|]. intros _. split; [done|]. intros u p Hu Hr.
  assert (u = t) as -> by (eapply (i_disj s I u t); [done..|by apply removes_claims|by left]). rewrite Ht in Hu. injection Hu as <-. by apply elem_of_nil in Hr.
Qed.

Lemma using_entry t cb q s : inv s -> pcs s !! t = Some (PUsing cb (Some q)) -> cmds s !! cb = Some q /\ live_entry s cb q.
Proof. intros I Ht. destruct (i_pc s I t _ Ht) as [Hl Hq]. split; [done|]. by apply live_entry_of. Qed.

Lemma free_one_inv t all cb todo s : inv s -> pcs s !! t = Some (PFree all (cb :: todo)) -> inv (set_pc t (PFree all todo) (free_one cb s)).
Proof.
  intros I Ht. destruct (i_pc s I t _ Ht) as (H1 & H2 & H3).
  assert (C : forall s', inv s' -> same_frame s s' -> (forall cb', cb' <> cb -> cmds s !! cb' = None -> cmds s' !! cb' = None) ->
    (cb <> 0 -> cmds s' !! cb = None) -> inv (set_pc t (PFree all todo) s')).
  { intros s' I' (Fp & Fl & _) Ho Hc. apply (inv_continue t (PFree all (cb :: todo))); try done; [by rewrite Fp|].
    split_and!; [by rewrite Fl| |intros; apply H3; [by right|done]]. intros cb' Ha Hn. destruct (decide (cb' = cb)) as [->|Hne].
    - apply Hc. by apply H1.
    - apply Ho; [done|]. apply H2; [done|]. by apply not_elem_of_cons. }
  unfold free_one. destruct (Z.eqb_spec cb 0) as [->|Hz]; [by apply C|]. destruct (cmds s !! cb) as [q|] eqn:Eq; [|by apply C].
  assert (Hin : cb ∈ all) by (apply H3; [by left|done]).
  destruct (inv_remove cb q t _ s I Eq Ht Hin ltac:(by apply H1)) as (I' & F & E). apply C; [exact I'|exact F| |].
  - intros cb' Hne Hn. rewrite E. by rewrite lookup_delete_ne.
  - intros _. rewrite E. apply lookup_delete_eq.
Qed.

(** The ICD's call: the command buffers of a removing call are gone. *)
Lemma icd_inv t p l s : inv s -> pcs s !! t = Some p -> removes p = l -> (forall h cb q, ~ track_entry h p cb q) ->
  (forall cb, cb ∈ l -> cmds s !! cb = None) -> inv (leave t (drop_live l s)).
Proof.
  intros I Ht <- Hnt Hn. change (inv (drop_live (removes p) (leave t s))). apply inv_drop_live.
  - apply inv_leave; [done|]. intros p' cb q Hp Hq H. rewrite Ht in Hp. injection Hp as <-. by apply Hnt in H.
  - done.
  - intros u p' cb. cbn [pcs leave]. intros [Hne Hu]%lookup_delete_Some Hc Hr. apply Hne. symmetry. eapply (i_disj s I u t); [done..|by apply removes_claims].
  - intros u c Hu Hg. destruct (i_cache s I u c Hu) as [_ Hs]. destruct (Hs Hg) as [[_ S] _]. by apply (S t p).
Qed.

Lemma sweep_inv t x dying garbage s : inv s -> pcs s !! t = Some (PSweep x dying) -> (forall p, heap s !! p = Some None -> garbage p = false) ->
  inv (set_pc t (PSwept dying) (sweep_all x garbage s)).
Proof.
  intros I Ht Hg. destruct (i_pc s I t _ Ht) as (H1 & H2). unfold sweep_all. cbn zeta. set (gone := filter _ _).
  assert (G : forall cb q, (cb, q) ∈ gone <-> cmds s !! cb = Some q /\ sweeps x garbage s q = true).
  { intros cb q. unfold gone. rewrite list_elem_of_filter, elem_of_map_to_list. cbn. tauto. }
  destruct (inv_removes gone t (PSweep x dying) s I Ht) as (I' & F & E).
  - eapply sublist_NoDup; [apply (NoDup_fst_map_to_list (cmds s))|]. apply fmap_sublist, sublist_filter.
  - intros [cb q] [Hq Hs]%G. cbn [fst snd]. split; [done|]. assert (Hin : cb ∈ dying); [|split; [done|by destruct (H1 cb Hin) as (? & ? & -> & _)]].
    unfold sweeps in Hs. destruct (i_entry s I cb q Hq) as [(d & pool & Hl & e & He & <- & <-)|(u & p & Hu & Hte)].
    + rewrite He in Hs. by eapply H2.
    + exfalso. destruct p as [| | | | |d pool dn st todo]; try done. pose proof (i_cross s I t u x dying d pool dn st todo Ht Hu) as Hx.
      destruct Hte as [(_ & e & He & <- & <-)|(_ & [(_ & He)|(_ & e & He & <- & <-)])]; rewrite He in Hs; [congruence|by rewrite Hg in Hs|congruence].
  - pose proof F as (Fp & Fl & _). apply (inv_continue t (PSweep x dying)); try done; [by rewrite Fp|]. intros cb Hcb. destruct (H1 cb Hcb) as (d & pool & Hl & Hs).
    split; [rewrite Fl; eauto|]. destruct (cmds _ !! cb) as [q|] eqn:Eq; [exfalso|done]. destruct (E cb q Eq) as [Hq Hng]. apply Hng, G. split; [done|].
    destruct (live_entry_of s cb q I Hq) as (d' & pool' & Hl' & e & He & <- & <-); [eauto|]. rewrite Hl in Hl'. injection Hl' as -> ->. unfold sweeps. by rewrite He.
Qed.

Lemma track_next_inv t p ok d pool dn st todo s s' : inv s -> pcs s !! t = Some (PTrack d pool dn st todo) ->
  cstep (ATrackNext t p ok) s = Some s' -> inv s'.
Proof.
  intros I Ht. cbn [cstep]. rewrite Ht. destruct (i_pc s I t _ Ht) as (Hnd & Hl & Hst).
  (* the call goes on to the next command buffer *)
  assert (N : forall s1 cb todo', todo = cb :: todo' -> inv s1 -> pcs s1 = pcs s -> live s1 = live s ->
    (forall c q, cmds s1 !! c = Some q -> track_entry (heap s1) (PTrack d pool dn st todo) c q -> c ∈ dn ++ [cb] /\ holds_entry (heap s1) q d pool) ->
    inv (set_pc t (PTrack d pool (dn ++ [cb]) TLook todo') s1)).
  { intros s1 cb todo' E I1 Ep El He. apply (inv_continue t (PTrack d pool dn st todo)); [done|by rewrite Ep| |done| | |done|].
    - cbn. by rewrite E, <- app_assoc.
    - rewrite <- (app_assoc dn [cb] todo') || cbn. split; [|split; [|done]]; rewrite <- app_assoc; cbn [app]; rewrite <- E; [done|by rewrite El].
    - intros c q Hc H. left. by apply (He c q).
    - intros ????? [= <- <- <- <- <-]. eauto. }
  destruct st, todo as [|cb todo]; try done.
  - intros [= <-]. by apply inv_track_end.
  - intros [= <-]. unfold track_look. rewrite (track_fresh t d pool dn cb todo s I Ht).
    apply (inv_continue t (PTrack d pool dn TLook (cb :: todo))); try done.
    + split_and!; [done|done|]. by eapply track_fresh.
    + intros c q _ [?|[_ [[? _]|[? _]]]]; [by left|done|done].
    + intros ????? [= <- <- <- <- <-]. eauto.
  - intros [Hp%bool_decide_eq_true ->]%when_Some. unfold track_put. destruct (_ || _); [|by apply inv_track_put].
    apply (N s cb todo); try done. intros c q _ [[? ?]|[_ [[? _]|[? _]]]]; [|done|done]. split; [|done]. apply elem_of_app. by left.
  - intros [= <-]. by apply inv_track_write.
  - intros [= <-]. apply (N (bump s) cb todo); try done; [by apply inv_bump|]. intros c q _ [[? ?]|([= ->] & [[? _]|[_ ?]])]; [|done|]; (split; [|done]); apply elem_of_app; [by left|right; by left].
Qed.

(** Every step keeps the invariant. *)
Lemma step_inv a s s' : inv s -> tame s a -> cstep a s = Some s' -> inv s'.
Proof.
  intros I Ha. destruct a as [t cb|t|t v|t v|t|t cbs|t|t|t x|t g|t|t d pool cbs|t p ok]; cbn [cstep].
  - intros [Hg ->]%when_Some. by apply get_load_inv.
  - destruct (pcs s !! t) as [[cb g| | | | |]|] eqn:Ht; try done. intros [= <-]. by apply get_lookup_inv.
  - destruct (pcs s !! t) as [[|cb [q|]| | | |]|] eqn:Ht; try done. intros [Hv ->]%when_Some. bool_props.
    destruct (using_entry t cb q s I Ht) as (_ & d & pool & _ & e & He & _). by eapply use_cs_inv.
  - destruct (pcs s !! t) as [[|cb [q|]| | | |]|] eqn:Ht; try done. intros [Hv ->]%when_Some. bool_props.
    destruct (using_entry t cb q s I Ht) as (_ & d & pool & _ & e & He & _). by eapply use_gt_inv.
  - destruct (pcs s !! t) as [[|cb e| | | |]|] eqn:Ht; try done. intros [= <-]. apply inv_leave; [done|]. intros p cb' q Hp. rewrite Ht in Hp. by injection Hp as <-.
  - intros [Hg ->]%when_Some. unfold idle in Hg. bool_props. destruct (inv_bump s I) as [I' Hb].
    assert (Hf : forall cb, cb ∈ nonnull cbs -> cb <> 0 /\ is_Some (live s !! cb) /\ unclaimed s cb = true).
    { intros cb [Hz Hc]%list_elem_of_filter. split; [done|]. match goal with H : forallb _ cbs = true |- _ => rewrite forallb_forall in H; specialize (H cb) end.
      rewrite <- list_elem_of_In in *. destruct (Z.eqb_spec cb 0) as [?|_]; [done|]. cbn [orb] in *. unfold is_live in *.
      match goal with H : _ -> _ |- _ => specialize (H Hc) end. by bool_props. }
    apply (cinv_start t _ (bump s)); try done.
    + intros cb Hc. by apply Hf.
    + split_and!; [intros cb Hc; destruct (Hf cb Hc) as (? & ? & _); done| |intros cb ??; by apply list_elem_of_filter].
      intros cb [_ Hc]%list_elem_of_filter Hn. done.
    + intros u c Hu Hg. specialize (Hb u c Hu). cbn in Hg. lia.
  - destruct (pcs s !! t) as [[| |all [|cb todo]| | |]|] eqn:Ht; try done. intros [= <-]. by apply free_one_inv.
  - destruct (pcs s !! t) as [[| |all [|cb todo]| | |]|] eqn:Ht; try done. intros [= <-]. eapply (icd_inv t _ all); [done|exact Ht|done|intros ???; cbn; tauto|].
    destruct (i_pc s I t _ Ht) as (_ & H & _). intros cb Hc. apply H; [done|]. apply not_elem_of_nil.
  - cbn zeta. set (dying := (filter _ _).*1). intros [Hg ->]%when_Some. unfold idle in Hg. bool_props. destruct (inv_bump s I) as [I' Hb].
    assert (D : forall cb, cb ∈ dying <-> exists d pool, live s !! cb = Some (d, pool) /\ selects x d pool = true).
    { intros cb. unfold dying. rewrite list_elem_of_fmap. split.
      - intros ([cb' [d pool]] & -> & [Hs Hl%elem_of_map_to_list]%list_elem_of_filter). eauto.
      - intros (d & pool & Hl & Hs). exists (cb, (d, pool)). split; [done|]. apply list_elem_of_filter. split; [done|]. by apply elem_of_map_to_list. }
    apply (cinv_start t _ (bump s)); try done.
    + intros cb Hc. match goal with H : forallb _ dying = true |- _ => rewrite forallb_forall in H; apply (H cb) end. by apply list_elem_of_In.
    + split; [intros cb Hc; by apply D|]. intros cb d pool ??. apply D. eauto.
    + intros u c Hu Hg. specialize (Hb u c Hu). cbn in Hg. lia.
    + by intros ?? [= <- <-].
  - destruct (pcs s !! t) as [[| | |x dying| |]|] eqn:Ht; try done. intros [= <-]. by apply sweep_inv.
  - destruct (pcs s !! t) as [[| | | |dying|]|] eqn:Ht; try done. intros [= <-]. eapply (icd_inv t _ dying); [done|exact Ht|done|intros ???; cbn; tauto|].
    intros cb Hc. by apply (i_pc s I t _ Ht).
  - intros [Hg ->]%when_Some. unfold idle in Hg. bool_props.
    assert (Hf : forall cb, cb ∈ cbs -> live s !! cb = None /\ unclaimed s cb = true).
    { intros cb Hc%list_elem_of_In. match goal with H : forallb _ cbs = true |- _ => rewrite forallb_forall in H; specialize (H cb Hc) end.
      unfold is_live in *. bool_props. split; [|done]. by apply eq_None_not_Some. }
    apply cinv_start; try done.
    + intros cb Hc. by apply Hf.
    + split_and!; [done| |by destruct cbs]. intros cb Hc. by apply Hf.
    + intros ?? _ _. apply not_elem_of_nil.
    + by intros ????? [= <- <- <- <- <-].
  - destruct (pcs s !! t) as [[| | | | |d pool dn st todo]|] eqn:Ht; try done. intros H. eapply (track_next_inv t p ok); [done|exact Ht|]. cbn [cstep]. by rewrite Ht.
Qed.

Lemma reach_inv s : reach s -> inv s.
Proof. induction 1; [apply cinv_init|by eapply step_inv]. Qed.

(** A sweep in the run reads, in an entry another thread has put into the table
    but not yet written, what it looks for: the defect shown below. *)
Definition raced (l : list action) : Prop :=
  exists before t g after s p, l = before ++ ASweep t g :: after /\ run_actions before st_init = Some s /\
    heap s !! p = Some None /\ g p = true.

Definition no_garbage (a : action) : Prop := match a with ASweep _ g => forall p, g p = false | _ => True end.
Lemma not_raced l : Forall no_garbage l -> ~ raced l.
Proof.
  intros F (b & t & g & c & s & p & -> & _ & _ & G). apply Forall_app in F as [_ [H _]%Forall_cons]. cbn in H. by rewrite H in G.
Qed.

Lemma tame_or_raced s a : tame s a \/ exists t g p, a = ASweep t g /\ heap s !! p = Some None /\ g p = true.
Proof.
  destruct a as [| | | | | | | | |t g| | |]; try by left.
  destruct (decide (map_Forall (fun p x => x <> None \/ g p = false) (heap s))) as [H|H].
  - left. intros p Hp. by destruct (H p None Hp).
  - right. apply map_not_Forall in H as (p & x & Hp & Hx); [|apply _]. exists t, g, p. destruct x; [by destruct Hx; left|].
    split; [done|]. split; [done|]. destruct (g p); [done|by destruct Hx; right].
Qed.

Lemma run_snoc l a s : run_actions (l ++ [a]) s = run_actions l s ≫= cstep a.
Proof. unfold run_actions. by rewrite foldl_snoc. Qed.

(** Every run of the threads is a run of the invariant, or has that race. *)
Lemma run_reach l s : run_actions l st_init = Some s -> raced l \/ reach s.
Proof.
  revert s. induction l as [|a l IH] using rev_ind; intros s H; [injection H as <-; right; constructor|].
  rewrite run_snoc in H. destruct (run_actions l st_init) as [s1|] eqn:E; [|done]. destruct (IH s1 eq_refl) as [R|R].
  - left. destruct R as (b & t & g & c & s0 & p & -> & R). exists b, t, g, (c ++ [a]), s0, p. by rewrite <- app_assoc.
  - destruct (tame_or_raced s1 a) as [T|(t & g & p & -> & T)]; [right; by eapply reach_step|left].
    by exists l, t, g, [], s1, p.
Qed.

End Steps.

(** ** Properties *)


(** ** Witnesses *)

(** Two pools; thread 2 allocates and records from pool 11 while thread 1
    destroys pool 10; its cached entry stays the table's. *)
Definition demo_run : list action :=
  let track t p := [ATrackNext t p true; ATrackNext t p true; ATrackNext t p true; ATrackNext t p true] in
  [ATrack 1 5 10 [100; 101]] ++ track 1%nat 1 ++ track 1%nat 2 ++ [ATrackNext 1 0 true] ++
  [AGet 1 100; ALookup 1; AUseCs 1 900; ADone 1; AGet 1 100; AUseGt 1 901; ADone 1] ++
  [ASweepStart 1 (cmd_of_pool 10); ATrack 2 5 11 [200]; ASweep 1 (fun _ => false)] ++ track 2%nat 3 ++
  [ASweepIcd 1; ATrackNext 2 0 true; AGet 2 200; ALookup 2; ADone 2; AGet 2 200].


(** ** A defect *)

(** A new entry is in the table before it is written.  A vkDestroyCommandPool of
    another pool that finds its pool in the fresh memory frees the entry; the
    tracking thread then writes it. *)
Lemma sweep_of_unwritten_entry :
  exists s, run_actions (fun _ => 0)
    [ATrack 1 5 10 [100]; ATrackNext 1 1 true; ATrackNext 1 1 true; ASweepStart 2 (cmd_of_pool 11); ASweep 2 (fun p => p =? 1); ATrackNext 1 1 true]
    st_init = Some s /\ faults s = 2 /\ heap s = ∅.
Proof. eexists. split; [vm_compute; reflexivity|]. done. Qed.

End CmdTable.
