(* ===== verification/GtWindow.v ===== *)
(** * GPU timing: the window of measurements ([nvidia-prolapse/hal/src/gputime.c])

    What the opt-in GPU timing keeps between two reports: the aggregation
    table of [stat_add] (open addressing over [GT_TAB] slots, never deleted
    from), the busy intervals of the harvested command buffers, the counters,
    and [report], which reads all of it and starts a new window.

    Times are GPU ticks, as they are in the C structures (the fields called
    [ns] hold ticks; [report] multiplies by the tick period when it prints).
    [report] is modelled up to the text it prints: its result has the tick
    counts and the table lines in print order, not the formatted doubles.
    [qsort] is any sorted permutation in the theorems and stdpp's merge sort
    in the executable definition.  The mutex [g->mu] brackets each operation,
    so an operation is one step. *)

From Stdlib Require Import ZArith Lia.
From stdpp Require Import base option sets strings gmap list sorting.
From S2P Require Import Prelude.

Set Default Goal Selector "!".
#[local] Open Scope Z_scope.

Module GtWindow.

Definition GT_QP_SIZE : Z := 4096.
Definition GT_MAXPOOLS : Z := 8.
Definition GT_TAB : Z := 8192.
Definition GT_TOP : nat := 45.
Definition GT_NOQ : Z := UINT32_MAX.

(** ** Data *)

Inductive gt_kind := GK_RP | GK_DRAW | GK_CLEAR_ATT | GK_DISPATCH | GK_XFER | GK_EXEC.
#[export] Instance gt_kind_eq : EqDecision gt_kind.
Proof. solve_decision. Defined.
Definition kind_code (k : gt_kind) : Z :=
  match k with GK_RP => 0 | GK_DRAW => 1 | GK_CLEAR_ATT => 2 | GK_DISPATCH => 3 | GK_XFER => 4 | GK_EXEC => 5 end.

(** [struct gt_rec]; [op] and the three census fields are [uint8_t]. *)
Record gt_rec := mk_rec {
  qs : Z; qe : Z; kind : gt_kind; op : Z; w : Z; h : Z; z : Z;
  draws : Z; pipe : Z; rp : Z; ssbo_n : Z; ssbo_sys : Z; ssbo_type : Z;
}.

(** [struct gt_stat]; a slot with key 0 is free. *)
Record gt_stat := mk_stat {
  s_key : Z; s_kind : gt_kind; s_op : Z; s_w : Z; s_h : Z; s_z : Z; s_pipe : Z; s_rp : Z;
  s_ns : Z; s_n : Z; s_max : Z; s_draws : Z; s_ssbo_n : Z; s_ssbo_sys : Z; s_ssbo_type : Z;
}.
Definition free_slot : gt_stat := mk_stat 0 GK_RP 0 0 0 0 0 0 0 0 0 0 0 0 0.

(** The fields of [struct nvhal_gt_dev] under [mu]. *)
Record window := mk_win {
  window_ns : Z; win_t0 : Z; frames : Z; submits : Z; cbs : Z; dropped : Z; overflows : Z;
  tab : list gt_stat; ntab : Z; iv : list (Z * Z); capiv : Z;
}.

Definition set_tab (g : window) (t : list gt_stat) (n : Z) : window :=
  mk_win (window_ns g) (win_t0 g) (frames g) (submits g) (cbs g) (dropped g) (overflows g) t n (iv g) (capiv g).
Definition drop_one (g : window) : window :=
  mk_win (window_ns g) (win_t0 g) (frames g) (submits g) (cbs g) (u64 (dropped g + 1)) (overflows g) (tab g) (ntab g) (iv g) (capiv g).

(** ** Aggregation *)

Definition mix (h v : Z) : Z := Z.lxor h (u64 (v + 0x9e3779b97f4a7c15 + u64 (Z.shiftl h 6) + Z.shiftr h 2)).

Definition raw_key (r : gt_rec) : Z :=
  let key := mix 0 (kind_code (kind r)) in
  match kind r with
  | GK_RP => mix (mix (mix (mix (mix key (rp r)) (w r)) (h r)) (pipe r)) (op r)
  | GK_DRAW | GK_CLEAR_ATT | GK_DISPATCH => mix key (pipe r)
  | GK_XFER => mix key (op r)
  | GK_EXEC => key
  end.
Definition rec_key (r : gt_rec) : Z := if raw_key r =? 0 then 1 else raw_key r.

Definition home (key : Z) : Z := Z.land (u32 (Z.lxor key (Z.shiftr key 29))) (GT_TAB - 1).

(** A slot that has the key already. *)
Definition bump (s : gt_stat) (r : gt_rec) (ns : Z) : gt_stat :=
  let bigger := s_max s <? ns in
  mk_stat (s_key s) (s_kind s) (s_op s)
    (if bigger then w r else s_w s) (if bigger then h r else s_h s) (if bigger then z r else s_z s)
    (s_pipe s) (s_rp s) (u64 (s_ns s + ns)) (u64 (s_n s + 1)) (if bigger then ns else s_max s)
    (u64 (s_draws s + draws r)) (s_ssbo_n s) (s_ssbo_sys s) (s_ssbo_type s).
Definition fresh (key : Z) (r : gt_rec) (ns : Z) : gt_stat :=
  mk_stat key (kind r) (op r) (w r) (h r) (z r) (pipe r) (rp r) ns 1 ns (draws r) (ssbo_n r) (ssbo_sys r) (ssbo_type r).

(** [for (probe = 0; probe < GT_TAB; probe++, i = (i + 1) & (GT_TAB - 1))],
    [fuel] iterations left. *)
Fixpoint probe (fuel : nat) (g : window) (key : Z) (r : gt_rec) (ns i : Z) : window :=
  match fuel with
  | O => drop_one g
  | S fuel =>
      let s := nth (Z.to_nat i) (tab g) free_slot in
      if s_key s =? key then set_tab g (<[Z.to_nat i := bump s r ns]> (tab g)) (ntab g)
      else if s_key s =? 0 then
        if GT_TAB * 3 / 4 <=? ntab g then drop_one g
        else set_tab g (<[Z.to_nat i := fresh key r ns]> (tab g)) (u32 (ntab g + 1))
      else probe fuel g key r ns (Z.land (i + 1) (GT_TAB - 1))
  end.

Definition stat_add (g : window) (r : gt_rec) (ns : Z) : window :=
  probe (Z.to_nat GT_TAB) g (rec_key r) r ns (home (rec_key r)).

(** ** Busy time *)

(** [cmp_iv]: by the start only. *)
Definition iv_le (x y : Z * Z) : Prop := x.1 <= y.1.
#[export] Instance iv_le_dec x y : Decision (iv_le x y).
Proof. unfold iv_le. apply _. Defined.

(** The loop of [report] over the sorted intervals: [(busy, hi)]. *)
Fixpoint sweep (l : list (Z * Z)) (a b busy hi : Z) : Z * Z :=
  match l with
  | [] => (u64 (busy + u64 (b - a)), hi)
  | (ia, ib) :: l =>
      let hi := if hi <? ib then ib else hi in
      if b <? ia then sweep l ia ib (u64 (busy + u64 (b - a))) hi
      else if b <? ib then sweep l a ib busy hi
      else sweep l a b busy hi
  end.
(** [(busy, hi - lo)] in ticks. *)
Definition busy_span (sorted : list (Z * Z)) : Z * Z :=
  match sorted with
  | [] => (0, 0)
  | (a, b) :: l => let '(busy, hi) := sweep l a b 0 b in (busy, u64 (hi - a))
  end.

(** ** The report *)

(** [cmp_stat]: descending time. *)
Definition stat_ge (x y : gt_stat) : Prop := s_ns y <= s_ns x.
#[export] Instance stat_ge_dec x y : Decision (stat_ge x y).
Proof. unfold stat_ge. apply _. Defined.

Definition is_draw (s : gt_stat) : bool := match s_kind s with GK_DRAW | GK_CLEAR_ATT => true | _ => false end.
Definition occupied (t : list gt_stat) : list gt_stat := filter (fun s => s_key s <> 0) t.

Record printed := mk_printed {
  p_wall : Z; p_frames : Z; p_submits : Z; p_cbs : Z; p_busy : Z; p_span : Z;
  p_top : Z; p_draw : Z; p_dropped : Z; p_overflows : Z; p_templ : Z; p_lines : list gt_stat;
}.

(** [sort_iv] and [sort_st]: what [qsort] makes of the two arrays; [malloc_ok]:
    whether the copy of the table could be allocated. *)
Definition report_with (sort_iv : list (Z * Z) -> list (Z * Z)) (sort_st : list gt_stat -> list gt_stat)
  (malloc_ok : bool) (templ t : Z) (g : window) : printed * window :=
  let '(busy, span) := busy_span (sort_iv (iv g)) in
  let occ := occupied (tab g) in
  let ticks p := sumZ (s_ns <$> filter (fun s => is_draw s = p) occ) in
  (mk_printed (u64 (t - win_t0 g)) (frames g) (submits g) (cbs g) busy span (ticks false) (ticks true)
     (dropped g) (overflows g) templ (if malloc_ok then take GT_TOP (sort_st occ) else []),
   mk_win (window_ns g) t 0 0 0 0 0 (replicate (length (tab g)) free_slot) 0 [] (capiv g)).
Definition report : bool -> Z -> Z -> window -> printed * window :=
  report_with (merge_sort iv_le) (merge_sort stat_ge).

(** [nvhal_gt_frame] at the time [now]. *)
Definition nvhal_gt_frame (now : Z) (g : window) : window :=
  mk_win (window_ns g) (if win_t0 g =? 0 then now else win_t0 g) (u64 (frames g + 1)) (submits g) (cbs g) (dropped g)
    (overflows g) (tab g) (ntab g) (iv g) (capiv g).

Definition count_submit (g : window) : window :=
  mk_win (window_ns g) (win_t0 g) (frames g) (u64 (submits g + 1)) (cbs g) (dropped g) (overflows g) (tab g) (ntab g) (iv g) (capiv g).
Definition count_overflow (g : window) : window :=
  mk_win (window_ns g) (win_t0 g) (frames g) (submits g) (cbs g) (dropped g) (u64 (overflows g + 1)) (tab g) (ntab g) (iv g) (capiv g).

(** What [nvhal_gt_device_init] makes ([calloc], the window's length set). *)
Definition new_window (ns : Z) : window :=
  mk_win ns 0 0 0 0 0 0 (replicate (Z.to_nat GT_TAB) free_slot) 0 [] 0.

(** The interval of one command buffer: the array doubles from 1024 when it is
    full ([realloc_ok]: whether that succeeds). *)
Definition add_interval (realloc_ok : bool) (lo hi : Z) (g : window) : window :=
  if lo <? hi then
    let n := Z.of_nat (length (iv g)) in
    let cap := if (n =? capiv g) && realloc_ok then (if capiv g =? 0 then 1024 else u32 (capiv g * 2)) else capiv g in
    mk_win (window_ns g) (win_t0 g) (frames g) (submits g) (cbs g) (dropped g) (overflows g) (tab g) (ntab g)
      (if n <? cap then iv g ++ [(lo, hi)] else iv g) cap
  else g.

(** ** The table *)

Definition slot (g : window) (i : nat) : gt_stat := nth i (tab g) free_slot.
Definition key_at (g : window) (i : Z) : Z := s_key (slot g (Z.to_nat i)).
(** The slot of the [d]-th probe. *)
Definition nth_probe (key d : Z) : Z := (home key + d) mod GT_TAB.

(** No slot with the key, and no free slot, among the first [d] probes. *)
Definition path (g : window) (key d : Z) : Prop :=
  forall d', 0 <= d' < d -> key_at g (nth_probe key d') <> 0 /\ key_at g (nth_probe key d') <> key.

Definition used (t : list gt_stat) : nat := countb (fun s => negb (s_key s =? 0)) t.

Record table_ok (g : window) : Prop := {
  ok_length : length (tab g) = Z.to_nat GT_TAB;
  ok_count : ntab g = Z.of_nat (used (tab g));
  ok_load : ntab g <= GT_TAB * 3 / 4;
  ok_path i : 0 <= i < GT_TAB -> key_at g i <> 0 ->
    exists d, 0 <= d < GT_TAB /\ nth_probe (key_at g i) d = i /\ path g (key_at g i) d;
}.

Lemma home_range key : 0 <= home key < GT_TAB.
Proof.
  unfold home. rewrite (land_pow2_mask _ GT_TAB 13) by (unfold GT_TAB; lia). apply Z.mod_pos_bound. unfold GT_TAB. lia.
Qed.
Lemma nth_probe_range key d : 0 <= nth_probe key d < GT_TAB.
Proof. apply Z.mod_pos_bound. unfold GT_TAB. lia. Qed.
Lemma nth_probe_next key d : Z.land (nth_probe key d + 1) (GT_TAB - 1) = nth_probe key (d + 1).
Proof.
  rewrite (land_pow2_mask _ GT_TAB 13) by (unfold GT_TAB; lia). unfold nth_probe. rewrite Zplus_mod_idemp_l. f_equal. lia.
Qed.
Lemma nth_probe_onto key i : 0 <= i < GT_TAB -> exists d, 0 <= d < GT_TAB /\ nth_probe key d = i.
Proof.
  intros Hi. pose proof (home_range key). exists ((i - home key) mod GT_TAB).
  split; [apply Z.mod_pos_bound; unfold GT_TAB; lia|]. unfold nth_probe. rewrite Zplus_mod_idemp_r.
  replace (home key + (i - home key)) with i by lia. by apply Z.mod_small.
Qed.
Lemma rec_key_nonzero r : rec_key r <> 0.
Proof. unfold rec_key. destruct (Z.eqb_spec (raw_key r) 0); lia. Qed.

Lemma free_slot_exists g : table_ok g -> exists i, 0 <= i < GT_TAB /\ key_at g i = 0.
Proof.
  intros [L C Lo _]. destruct (countb_lt_exists (fun s => negb (s_key s =? 0)) (tab g)) as (i & s & Hi & Hs).
  { unfold used in C. rewrite L. assert (GT_TAB * 3 / 4 < GT_TAB) by done. lia. }
  apply negb_false_iff, Z.eqb_eq in Hs. pose proof (lookup_lt_Some _ _ _ Hi). exists (Z.of_nat i).
  split; [unfold GT_TAB in *; lia|]. unfold key_at, slot. rewrite Nat2Z.id. rewrite (nth_lookup_Some _ _ _ s) by done. done.
Qed.

(** A key that is not on its path up to a free slot is nowhere. *)
Lemma absent_key g key d :
  table_ok g -> key <> 0 -> 0 <= d < GT_TAB -> path g key d -> key_at g (nth_probe key d) = 0 ->
  forall i, 0 <= i < GT_TAB -> key_at g i <> key.
Proof.
  intros T Hk Hd P Hz i Hi E. assert (Hi0 : key_at g i <> 0) by congruence.
  destruct (ok_path g T i Hi Hi0) as (d2 & Hd2 & Ei & P2). rewrite E in *.
  destruct (Z.lt_trichotomy d d2) as [?|[->|?]].
  - destruct (P2 d); [lia|]. congruence.
  - congruence.
  - destruct (P d2); [lia|]. congruence.
Qed.

(** The three ways an addition ends. *)
Inductive added (g : window) (key : Z) (r : gt_rec) (ns : Z) : window -> Prop :=
  | added_found i : 0 <= i < GT_TAB -> key_at g i = key ->
      added g key r ns (set_tab g (<[Z.to_nat i := bump (slot g (Z.to_nat i)) r ns]> (tab g)) (ntab g))
  | added_new d : 0 <= d < GT_TAB -> path g key d -> key_at g (nth_probe key d) = 0 -> ntab g < GT_TAB * 3 / 4 ->
      (forall i, 0 <= i < GT_TAB -> key_at g i <> key) ->
      added g key r ns (set_tab g (<[Z.to_nat (nth_probe key d) := fresh key r ns]> (tab g)) (ntab g + 1))
  | added_full : GT_TAB * 3 / 4 <= ntab g -> (forall i, 0 <= i < GT_TAB -> key_at g i <> key) ->
      added g key r ns (drop_one g).

Lemma probe_added fuel g key r ns d :
  table_ok g -> key <> 0 -> 0 <= d -> d + Z.of_nat fuel = GT_TAB -> path g key d ->
  added g key r ns (probe fuel g key r ns (nth_probe key d)).
Proof.
  intros T Hk. revert d. induction fuel as [|fuel IH]; intros d Hd Hf P.
  - exfalso. destruct (free_slot_exists g T) as (i & Hi & Hz). destruct (nth_probe_onto key i Hi) as (d' & Hd' & <-).
    destruct (P d'); [lia|done].
  - cbn [probe]. fold (slot g (Z.to_nat (nth_probe key d))). fold (key_at g (nth_probe key d)).
    pose proof (nth_probe_range key d). destruct (Z.eqb_spec (key_at g (nth_probe key d)) key) as [E|E].
    { by apply added_found. }
    destruct (Z.eqb_spec (key_at g (nth_probe key d)) 0) as [Z0|Z0].
    + assert (A := absent_key g key d T Hk ltac:(lia) P Z0).
      pose proof (ok_load g T). pose proof (ok_count g T). destruct (Z.leb_spec (GT_TAB * 3 / 4) (ntab g)); [by apply added_full|].
      rewrite u32_id by (assert (GT_TAB * 3 / 4 = 6144) by done; unfold is_u32; lia). apply added_new; [lia|done..].
    + rewrite nth_probe_next. apply IH; [lia|lia|]. intros d' Hd'. destruct (decide (d' = d)) as [->|?]; [done|]. apply P. lia.
Qed.

Lemma stat_add_added g r ns : table_ok g -> added g (rec_key r) r ns (stat_add g r ns).
Proof.
  intros T. unfold stat_add.
  assert (E : home (rec_key r) = nth_probe (rec_key r) 0)
    by (unfold nth_probe; rewrite Z.add_0_r, Z.mod_small by apply home_range; done).
  rewrite E. apply probe_added; [done|apply rec_key_nonzero|lia|unfold GT_TAB; lia|]. intros d' Hd'. lia.
Qed.

Lemma slot_insert g i s n j :
  length (tab g) = Z.to_nat GT_TAB -> 0 <= i < GT_TAB -> 0 <= j < GT_TAB ->
  slot (set_tab g (<[Z.to_nat i := s]> (tab g)) n) (Z.to_nat j) = if decide (i = j) then s else slot g (Z.to_nat j).
Proof.
  intros L Hi Hj. unfold slot, set_tab. cbn [tab]. rewrite !nth_lookup. destruct (decide (i = j)) as [->|Hne].
  - rewrite list_lookup_insert_eq by (rewrite L; lia). done.
  - rewrite list_lookup_insert_ne by lia. done.
Qed.

(** Writing a slot of the same key, or a free slot at the end of the path. *)
Lemma table_ok_insert g i s n :
  table_ok g -> 0 <= i < GT_TAB -> s_key s <> 0 -> n <= GT_TAB * 3 / 4 ->
  (key_at g i = s_key s /\ n = ntab g \/
   key_at g i = 0 /\ n = ntab g + 1 /\ exists d, 0 <= d < GT_TAB /\ nth_probe (s_key s) d = i /\ path g (s_key s) d) ->
  table_ok (set_tab g (<[Z.to_nat i := s]> (tab g)) n).
Proof.
  intros T Hi Hs Hn Hc. destruct T as [L C Lo P]. set (g' := set_tab _ _ _).
  assert (K : forall j, 0 <= j < GT_TAB -> key_at g' j = if decide (i = j) then s_key s else key_at g j).
  { intros j Hj. unfold key_at, g'. rewrite slot_insert by done. by destruct (decide (i = j)). }
  assert (Hl : tab g !! Z.to_nat i = Some (slot g (Z.to_nat i))).
  { destruct (lookup_lt_is_Some_2 (tab g) (Z.to_nat i)) as [x Hx]; [rewrite L; lia|].
    rewrite Hx. f_equal. unfold slot. rewrite nth_lookup, Hx. done. }
  assert (Kp : forall k d, k <> 0 -> path g k d -> (forall d', 0 <= d' < d -> nth_probe k d' = i -> s_key s <> k) -> path g' k d).
  { intros k d Hk Pk Hik d' Hd'. rewrite K by apply nth_probe_range. destruct (decide (i = nth_probe k d')) as [E|E].
    - split; [done|]. by apply (Hik d').
    - by apply Pk. }
  constructor; cbn [g' set_tab tab ntab].
  - by rewrite length_insert.
  - unfold used. pose proof (countb_insert (fun s => negb (s_key s =? 0)) (tab g) (Z.to_nat i) (slot g (Z.to_nat i)) s Hl) as Cn.
    unfold used in C. fold (key_at g i) in Cn. cbn beta in Cn. change (s_key (slot g (Z.to_nat i))) with (key_at g i) in Cn.
    destruct Hc as [[E ->]|(E & -> & _)]; rewrite E in Cn; destruct (Z.eqb_spec (s_key s) 0); simpl in Cn; try done; lia.
  - done.
  - intros j Hj. rewrite K by done. intros Hj0. destruct (decide (i = j)) as [<-|Hne].
    + destruct Hc as [[E _]|(E & _ & d & Hd & Ed & Pd)].
      * rewrite <- E in *. destruct (P i Hi) as (d & Hd & Ed & Pd); [done|]. exists d. split; [done|split; [done|]].
        apply Kp; [done|done|]. intros d' Hd' E'. destruct (Pd d' Hd'). congruence.
      * exists d. split; [done|split; [done|]]. apply Kp; [done|done|]. intros d' Hd' E'. exfalso. destruct (Pd d' Hd') as [Z0 _].
        rewrite E' in Z0. done.
    + destruct (P j Hj Hj0) as (d & Hd & Ed & Pd). exists d. split; [done|split; [done|]]. apply Kp; [done|done|].
      intros d' Hd' E'. destruct (Pd d' Hd') as [Z0 Zk]. rewrite E' in *.
      destruct Hc as [[E _]|(E & _)]; congruence.
Qed.

(** *** What a window of additions leaves in the table *)

Definition adds (g : window) (l : list (gt_rec * Z)) : window := foldl (fun g x => stat_add g x.1 x.2) g l.
Definition recs_of (key : Z) (l : list (gt_rec * Z)) : list (gt_rec * Z) := filter (fun x => rec_key x.1 = key) l.
Definition keys (g : window) : list Z := s_key <$> occupied (tab g).
(** The fold of all the measurements of one key. *)
Definition agg (l : list (gt_rec * Z)) : option gt_stat :=
  match l with
  | [] => None
  | x :: l => Some (foldl (fun s y => bump s y.1 y.2) (fresh (rec_key x.1) x.1 x.2) l)
  end.

Lemma agg_snoc l x :
  agg (l ++ [x]) = Some (match agg l with Some s => bump s x.1 x.2 | None => fresh (rec_key x.1) x.1 x.2 end).
Proof. destruct l as [|y l]; [done|]. cbn [agg app]. by rewrite foldl_snoc. Qed.

Definition measured (x : gt_rec * Z) : Prop := is_u64 x.2 /\ is_u32 (draws x.1).

Record totals (l : list (gt_rec * Z)) (s : gt_stat) : Prop := {
  tot_ns : s_ns s = u64 (sumZ (snd <$> l));
  tot_n : s_n s = u64 (Z.of_nat (length l));
  tot_draws : s_draws s = u64 (sumZ ((fun x => draws x.1) <$> l));
  tot_max x : x ∈ l -> x.2 <= s_max s;
  tot_at : exists x, x ∈ l /\ x.2 = s_max s /\ (w x.1, h x.1, z x.1) = (s_w s, s_h s, s_z s);
}.

Lemma u64_add_l a b : u64 (u64 a + b) = u64 (a + b).
Proof. apply Zplus_mod_idemp_l. Qed.

Lemma agg_totals l s : Forall measured l -> agg l = Some s -> totals l s.
Proof.
  revert s. induction l as [|x l IH] using rev_ind; intros s F E; [done|]. rewrite agg_snoc in E. injection E as <-.
  apply Forall_app in F as [F [[Hx Hd] _]%Forall_cons]. destruct (agg l) as [t|] eqn:El.
  - destruct (IH t F eq_refl) as [A B C D (y & Hy & Ey & Ew)]. constructor; cbn [bump s_ns s_n s_draws s_max s_w s_h s_z].
    + rewrite A, fmap_app, sumZ_app, u64_add_l. cbn [fmap list_fmap sumZ foldr]. f_equal. lia.
    + rewrite B, length_app, u64_add_l. simpl. f_equal. lia.
    + rewrite C, fmap_app, sumZ_app, u64_add_l. cbn [fmap list_fmap sumZ foldr]. f_equal. lia.
    + intros q [Hq| ->%list_elem_of_singleton]%elem_of_app; destruct (Z.ltb_spec (s_max t) x.2); try lia; specialize (D q Hq); lia.
    + destruct (Z.ltb_spec (s_max t) x.2); [exists x; split; [set_solver|done]|]. exists y. split; [set_solver|done].
  - destruct l as [|? ?]; [|done]. unfold is_u32 in Hd. constructor; cbn [fresh s_ns s_n s_draws s_max s_w s_h s_z app length fmap list_fmap sumZ foldr].
    + rewrite Z.add_0_r. by rewrite u64_id.
    + done.
    + rewrite Z.add_0_r. rewrite u64_id by (unfold is_u64; lia). done.
    + intros q ->%list_elem_of_singleton. lia.
    + exists x. split; [set_solver|done].
Qed.

Lemma slot_lookup g i : length (tab g) = Z.to_nat GT_TAB -> 0 <= i < GT_TAB -> tab g !! Z.to_nat i = Some (slot g (Z.to_nat i)).
Proof.
  intros L Hi. unfold slot. rewrite nth_lookup. destruct (lookup_lt_is_Some_2 (tab g) (Z.to_nat i)) as [x ->]; [rewrite L; lia|done].
Qed.
Lemma lookup_slot g i s : length (tab g) = Z.to_nat GT_TAB -> tab g !! i = Some s ->
  exists j, 0 <= j < GT_TAB /\ i = Z.to_nat j /\ s = slot g i.
Proof.
  intros L E. pose proof (lookup_lt_Some _ _ _ E). exists (Z.of_nat i). rewrite Nat2Z.id.
  split; [lia|]. split; [done|]. unfold slot. by rewrite nth_lookup, E.
Qed.
Lemma keys_spec g k : length (tab g) = Z.to_nat GT_TAB -> k ∈ keys g <-> k <> 0 /\ exists i, 0 <= i < GT_TAB /\ key_at g i = k.
Proof.
  intros L. unfold keys, occupied. rewrite list_elem_of_fmap. setoid_rewrite list_elem_of_filter. split.
  - intros (s & -> & Hs & [i E]%list_elem_of_lookup). split; [done|]. destruct (lookup_slot g i s L E) as (j & Hj & -> & ->). by exists j.
  - intros [Hk (i & Hi & E)]. exists (slot g (Z.to_nat i)). split; [done|]. split; [by unfold key_at in E; rewrite E|].
    apply list_elem_of_lookup. exists (Z.to_nat i). by apply slot_lookup.
Qed.
Lemma table_unique g i j : table_ok g -> 0 <= i < GT_TAB -> 0 <= j < GT_TAB -> key_at g i <> 0 -> key_at g i = key_at g j -> i = j.
Proof.
  intros T Hi Hj H0 E. destruct (ok_path g T i Hi H0) as (d & Hd & Ed & P). destruct (ok_path g T j Hj) as (d2 & Hd2 & Ed2 & P2); [congruence|].
  rewrite <- E in *. destruct (Z.lt_trichotomy d d2) as [?|[->|?]].
  - destruct (P2 d) as [_ N]; [lia|]. rewrite Ed in N. done.
  - congruence.
  - destruct (P d2) as [_ N]; [lia|]. rewrite Ed2 in N. congruence.
Qed.

(** After the additions [l] to an empty table; [d0] was the drop count. *)
Record window_inv (l : list (gt_rec * Z)) (d0 : Z) (g : window) : Prop := {
  wi_table : table_ok g;
  wi_agg i : 0 <= i < GT_TAB -> key_at g i <> 0 -> agg (recs_of (key_at g i) l) = Some (slot g (Z.to_nat i));
  wi_full x : x ∈ l -> rec_key x.1 ∉ keys g -> GT_TAB * 3 / 4 <= ntab g;
  wi_drop : dropped g = u64 (d0 + Z.of_nat (countb (fun x => negb (bool_decide (rec_key x.1 ∈ keys g))) l));
}.

Lemma recs_of_snoc k l x : recs_of k (l ++ [x]) = recs_of k l ++ (if decide (rec_key x.1 = k) then [x] else []).
Proof. unfold recs_of. by rewrite filter_app. Qed.
Lemma recs_of_nil k l : recs_of k l = [] <-> forall x, x ∈ l -> rec_key x.1 <> k.
Proof.
  unfold recs_of. split.
  - intros E x Hx Ek. assert (x ∈ filter (fun x => rec_key x.1 = k) l) as H by (by apply list_elem_of_filter). rewrite E in H. set_solver.
  - intros H. induction l as [|x l IH]; [done|]. rewrite filter_cons_False by (apply H; set_solver). apply IH. set_solver.
Qed.

(** Writing one slot for the measurement [x]. *)
Lemma window_inv_write l d0 g x i s n :
  window_inv l d0 g -> 0 <= i < GT_TAB -> s_key s = rec_key x.1 -> agg (recs_of (rec_key x.1) (l ++ [x])) = Some s ->
  table_ok (set_tab g (<[Z.to_nat i := s]> (tab g)) n) -> ntab g <= n ->
  (key_at g i = rec_key x.1 \/ key_at g i = 0 /\ recs_of (rec_key x.1) l = []) ->
  window_inv (l ++ [x]) d0 (set_tab g (<[Z.to_nat i := s]> (tab g)) n).
Proof.
  intros [T A F D] Hi Es Ea T' Hn Hc. pose proof (rec_key_nonzero x.1) as Hk. pose proof (ok_length g T) as L.
  set (g' := set_tab _ _ _) in *. pose proof (ok_length g' T') as L'.
  assert (K : forall j, 0 <= j < GT_TAB -> slot g' (Z.to_nat j) = if decide (i = j) then s else slot g (Z.to_nat j))
    by (intros j Hj; by apply slot_insert).
  assert (Hkeys : forall k, k ∈ keys g' <-> k ∈ keys g \/ k = rec_key x.1).
  { intros k. rewrite !keys_spec by done. unfold key_at in *. split.
    - intros [H0 (j & Hj & E)]. rewrite K in E by done. destruct (decide (i = j)); [right; congruence|left]. eauto.
    - intros [[H0 (j & Hj & E)]| ->]; [|split; [done|]; exists i; rewrite K by done; rewrite decide_True by done; done].
      split; [done|]. exists j. split; [done|]. rewrite K by done. destruct (decide (i = j)) as [<-|]; [|done].
      destruct Hc as [?|[? _]]; congruence. }
  constructor; [done|..].
  - intros j Hj Hj0. unfold key_at in *. rewrite K in * by done. destruct (decide (i = j)) as [<-|Hne]; [by rewrite Es|].
    rewrite recs_of_snoc. rewrite decide_False.
    + rewrite app_nil_r. by apply A.
    + intros E. destruct Hc as [Ei|[_ En]].
      * apply Hne. apply (table_unique g); try done; unfold key_at; congruence.
      * specialize (A j Hj Hj0). rewrite <- E, En in A. done.
  - intros y [Hy| ->%list_elem_of_singleton]%elem_of_app; rewrite Hkeys; [|tauto]. intros Ny. apply (F y) in Hy; [|tauto]. cbn. lia.
  - change (dropped g') with (dropped g). rewrite D. do 2 f_equal. rewrite countb_app. cbn [countb].
    rewrite (bool_decide_eq_true_2 (rec_key x.1 ∈ keys g')) by (apply Hkeys; tauto). cbn [negb]. rewrite !Nat.add_0_r. f_equal.
    apply countb_ext. intros y Hy. f_equal. apply bool_decide_ext. rewrite Hkeys. split; [tauto|]. intros [?|E]; [done|].
    destruct Hc as [Ei|[_ En]].
    + apply keys_spec; [done|]. split; [congruence|]. exists i. split; [done|congruence].
    + apply recs_of_nil with (x := y) in En; done.
Qed.

Lemma window_inv_add l d0 g x : window_inv l d0 g -> window_inv (l ++ [x]) d0 (stat_add g x.1 x.2).
Proof.
  intros I. pose proof (wi_table _ _ _ I) as T. pose proof (ok_length g T) as L. pose proof (rec_key_nonzero x.1) as Hk.
  destruct (stat_add_added g x.1 x.2 T) as [i Hi E|d Hd P Z0 Hn Ha|Hn Ha].
  - apply window_inv_write; try done; [by rewrite recs_of_snoc, decide_True, agg_snoc, <- E, (wi_agg _ _ _ I) by (done || congruence)| |by left].
    pose proof (ok_load g T). apply table_ok_insert; try done; [cbn; unfold key_at in E; congruence|by left].
  - assert (En : recs_of (rec_key x.1) l = []).
    { apply recs_of_nil. intros y Hy Ey. assert (GT_TAB * 3 / 4 <= ntab g); [|lia]. apply (wi_full _ _ _ I y Hy).
      rewrite keys_spec, Ey by done. intros [_ (i & Hi & E)]. by apply (Ha i). }
    pose proof (nth_probe_range (rec_key x.1) d).
    apply window_inv_write; try done; [by rewrite recs_of_snoc, En, decide_True by done| |lia|by right].
    apply table_ok_insert; try done; [lia|]. right. split; [done|]. split; [done|]. by exists d.
  - destruct I as [_ A F D]. assert (Nk : rec_key x.1 ∉ keys g).
    { rewrite keys_spec by done. intros [_ (i & Hi & E)]. by apply (Ha i). }
    constructor; cbn [drop_one ntab]; [by destruct T; constructor|..].
    + intros i Hi H0. rewrite recs_of_snoc, decide_False by (intros E; by apply (Ha i)). rewrite app_nil_r. by apply A.
    + intros y [Hy| ->%list_elem_of_singleton]%elem_of_app; [by apply F|done].
    + cbn [drop_one dropped]. rewrite D, u64_add_l, countb_app. cbn [countb]. change (keys (drop_one g)) with (keys g).
      rewrite (bool_decide_eq_false_2 (rec_key x.1 ∈ keys g)) by done. cbn [negb]. f_equal. lia.
Qed.

(** A table nothing was added to yet. *)
Definition blank (g : window) : Prop := tab g = replicate (Z.to_nat GT_TAB) free_slot /\ ntab g = 0.

Lemma key_at_blank g i : blank g -> key_at g i = 0.
Proof. intros [E _]. unfold key_at, slot. rewrite E, nth_lookup. destruct (_ !! _) eqn:El; [|done]. by apply lookup_replicate in El as [-> _]. Qed.
Lemma blank_ok g : blank g -> table_ok g.
Proof.
  intros B. pose proof B as [E En]. constructor.
  - by rewrite E, length_replicate.
  - rewrite E, En. unfold used. by rewrite countb_replicate.
  - rewrite En. done.
  - intros i Hi H0. by rewrite (key_at_blank g i B) in H0.
Qed.
Lemma window_inv_blank g : blank g -> is_u64 (dropped g) -> window_inv [] (dropped g) g.
Proof.
  intros B D. constructor.
  - by apply blank_ok.
  - intros i Hi H0. by rewrite (key_at_blank g i B) in H0.
  - set_solver.
  - cbn [countb]. rewrite Z.add_0_r. by rewrite u64_id.
Qed.
Lemma window_inv_adds l g : blank g -> is_u64 (dropped g) -> window_inv l (dropped g) (adds g l).
Proof.
  intros B D. induction l as [|x l IH] using rev_ind; [by apply window_inv_blank|].
  unfold adds. rewrite foldl_snoc. by apply window_inv_add.
Qed.

(** Within one kind of region the key tells pipelines (and transfer kinds)
    apart; only the key 0, which is stored as 1, is shared. *)
Lemma mix_inj k v v' : is_u64 v -> is_u64 v' -> mix k v = mix k v' -> v = v'.
Proof.
  intros Hv Hv' E. apply (f_equal (Z.lxor k)) in E. unfold mix in E. rewrite <- !Z.lxor_assoc, Z.lxor_nilpotent, !Z.lxor_0_l in E.
  unfold u64 at 1 3 in E. set (c := 0x9e3779b97f4a7c15 + u64 (Z.shiftl k 6) + Z.shiftr k 2) in *.
  replace (v + _ + _ + _) with (v + c) in E by (unfold c; lia). replace (v' + _ + _ + _) with (v' + c) in E by (unfold c; lia).
  assert ((v + c - c) mod 2 ^ 64 = (v' + c - c) mod 2 ^ 64) as E2 by (rewrite Zminus_mod, E, <- Zminus_mod; done).
  replace (v + c - c) with v in E2 by lia. replace (v' + c - c) with v' in E2 by lia.
  by rewrite !Z.mod_small in E2.
Qed.
Lemma same_kind_key r r' :
  kind r = kind r' -> is_u64 (pipe r) -> is_u64 (pipe r') -> is_u64 (op r) -> is_u64 (op r') -> raw_key r = raw_key r' ->
  match kind r with GK_DRAW | GK_CLEAR_ATT | GK_DISPATCH => pipe r = pipe r' | GK_XFER => op r = op r' | _ => True end.
Proof. unfold raw_key. intros <- ????. destruct (kind r); try done; by apply mix_inj. Qed.

(** C26: the table of a window holds, for each key it has room for, the
    exact total of every measurement of that key: after any sequence of
    measurements added to an empty table no key is in two slots, at most three
    quarters of the slots are used, each used slot has the number, the sum, the
    draws and the maximum of all the measurements of its key (the dimensions
    are those of a measurement with the maximum), a key is left out only when
    the table is full to its limit, and [dropped] counts exactly the
    measurements of the keys left out.  The sums are those of 64-bit counters. *)
Theorem stat_window_exact (g : window) (l : list (gt_rec * Z)) :
  blank g -> is_u64 (dropped g) -> Forall measured l ->
  let g' := adds g l in
  (forall i j s t, tab g' !! i = Some s -> tab g' !! j = Some t -> s_key s <> 0 -> s_key s = s_key t -> i = j) /\
  Z.of_nat (used (tab g')) <= 6144 /\
  (forall s, s ∈ tab g' -> s_key s <> 0 -> totals (recs_of (s_key s) l) s) /\
  (forall x, x ∈ l -> rec_key x.1 ∉ keys g' -> Z.of_nat (used (tab g')) = 6144) /\
  dropped g' = u64 (dropped g + Z.of_nat (countb (fun x => negb (bool_decide (rec_key x.1 ∈ keys g'))) l)).
Proof.
  intros B D F. destruct (window_inv_adds l g B D) as [T A Fu Dr]. cbv zeta. pose proof (ok_length _ T) as L.
  assert (H6 : GT_TAB * 3 / 4 = 6144) by done. pose proof (ok_load _ T) as Lo. pose proof (ok_count _ T) as Co. split_and!.
  - intros i j s t Ei Ej H0 E. destruct (lookup_slot _ _ _ L Ei) as (i' & Hi & -> & ->). destruct (lookup_slot _ _ _ L Ej) as (j' & Hj & -> & ->).
    f_equal. by apply (table_unique (adds g l)).
  - lia.
  - intros s [i E]%list_elem_of_lookup H0. destruct (lookup_slot _ _ _ L E) as (i' & Hi & -> & ->).
    apply agg_totals; [apply Forall_forall; intros y [_ Hy]%list_elem_of_filter; by eapply Forall_forall in F|]. by apply A.
  - intros x Hx Nx. pose proof (Fu x Hx Nx). lia.
  - done.
Qed.

(** Two draws with one pipeline and a copy. *)
Definition demo_rec (k : gt_kind) (p o : Z) : gt_rec := mk_rec 0 1 k o 8 8 1 0 p 0 0 0 0.
Definition demo_adds : list (gt_rec * Z) := [(demo_rec GK_DRAW 7 0, 10); (demo_rec GK_XFER 0 4, 5); (demo_rec GK_DRAW 7 0, 30)].
Lemma stat_window_exact_witness :
  exists s, s ∈ tab (adds (new_window 3) demo_adds) /\ s_ns s = 40 /\ s_n s = 2 /\ 30 <= s_max s.
Proof.
  destruct (stat_window_exact (new_window 3) demo_adds) as (_ & _ & T & _).
  - split; reflexivity.
  - by vm_compute.
  - repeat constructor; by vm_compute.
  - set (s := slot (adds (new_window 3) demo_adds) (Z.to_nat (home (rec_key (demo_rec GK_DRAW 7 0))))).
    exists s. assert (E : s_key s = rec_key (demo_rec GK_DRAW 7 0)) by (by vm_compute).
    assert (Hs : s ∈ tab (adds (new_window 3) demo_adds)).
    { apply list_elem_of_lookup. exists (Z.to_nat (home (rec_key (demo_rec GK_DRAW 7 0)))). by vm_compute. }
    destruct (T s Hs) as [A B _ C _]; [by rewrite E; vm_compute|]. rewrite E in *. split; [done|].
    split; [by rewrite A; vm_compute|]. split; [by rewrite B; vm_compute|]. by apply (C (demo_rec GK_DRAW 7 0, 30)); vm_compute; repeat constructor.
Defined.

(** ** Busy time is the length of the union *)

Definition covered (l : list (Z * Z)) (t : Z) : bool := existsb (fun x => (x.1 <=? t) && (t <? x.2)) l.
(** How many ticks of [lo, hi) satisfy the test. *)
Definition ticks_in (p : Z -> bool) (lo hi : Z) : Z := Z.of_nat (countb p (seqZ lo (hi - lo))).

Lemma covered_spec l t : covered l t = true <-> exists x, x ∈ l /\ x.1 <= t < x.2.
Proof.
  unfold covered. rewrite existsb_exists. setoid_rewrite <- list_elem_of_In. split; intros (x & Hx & H); exists x; (split; [done|]); bool_props; [lia|].
  apply andb_true_iff. split; [apply Z.leb_le|apply Z.ltb_lt]; lia.
Qed.
Lemma ticks_split p lo m hi : lo <= m <= hi -> ticks_in p lo hi = ticks_in p lo m + ticks_in p m hi.
Proof.
  intros H. unfold ticks_in. replace (hi - lo) with ((m - lo) + (hi - m)) by lia. rewrite seqZ_app by lia.
  rewrite countb_app, Nat2Z.inj_add. do 3 f_equal. f_equal. lia.
Qed.
Lemma ticks_ext p q lo hi : (forall t, lo <= t < hi -> p t = q t) -> ticks_in p lo hi = ticks_in q lo hi.
Proof. intros H. unfold ticks_in. f_equal. apply countb_ext. intros t Ht%elem_of_seqZ. apply H. lia. Qed.
Lemma countb_const {A} (b : bool) (l : list A) : countb (fun _ => b) l = if b then length l else 0%nat.
Proof. induction l as [|x l IH]; simpl; destruct b; lia. Qed.
Lemma ticks_all p lo hi : lo <= hi -> (forall t, lo <= t < hi -> p t = true) -> ticks_in p lo hi = hi - lo.
Proof.
  intros H E. rewrite (ticks_ext p (fun _ => true)) by done. unfold ticks_in. rewrite countb_const, length_seqZ. lia.
Qed.
Lemma ticks_none p lo hi : (forall t, lo <= t < hi -> p t = false) -> ticks_in p lo hi = 0.
Proof. intros E. rewrite (ticks_ext p (fun _ => false)) by done. unfold ticks_in. by rewrite countb_const. Qed.

Definition ends (l : list (Z * Z)) (hi : Z) : Z := foldr (fun x m => Z.max x.2 m) hi l.
Lemma ends_le l hi : hi <= ends l hi /\ forall x, x ∈ l -> x.2 <= ends l hi.
Proof.
  unfold ends. induction l as [|y l [IH1 IH2]]; simpl; [split; [lia|set_solver]|].
  split; [lia|]. intros x [->|Hx]%elem_of_cons; [lia|]. specialize (IH2 x Hx). lia.
Qed.
Lemma ends_max l a b : ends l (Z.max a b) = Z.max a (ends l b).
Proof. unfold ends. induction l as [|x l IH]; simpl; lia. Qed.

Definition interval (x : Z * Z) : Prop := 0 <= x.1 <= x.2 /\ x.2 < 2 ^ 64.

(** [a, b) is the run being extended; the run and the rest end by [H]. *)
Lemma sweep_exact l a b busy hi H :
  Sorted iv_le l -> Forall interval l -> Forall (fun x => a <= x.1 /\ x.2 <= H) l ->
  0 <= a <= b -> b <= H -> 0 <= busy -> busy + (H - a) < 2 ^ 64 ->
  sweep l a b busy hi = (busy + ticks_in (covered ((a, b) :: l)) a H, ends l hi).
Proof.
  revert a b busy hi. induction l as [|[ia ib] l IH]; intros a b busy hi S F G Ha Hb H0 Hw; cbn [sweep].
  - unfold ends. simpl foldr. rewrite (u64_id (b - a)), u64_id by (unfold is_u64; lia). f_equal. f_equal.
    rewrite (ticks_split _ a b H) by lia. rewrite (ticks_all _ a b), ticks_none; [lia| |lia|].
    + intros t Ht. apply not_true_iff_false. rewrite covered_spec. intros (x & ->%list_elem_of_singleton & ?). simpl in *. lia.
    + intros t Ht. apply covered_spec. exists (a, b). split; [set_solver|done].
  - apply Forall_cons in F as [[Fi Fu] F]. apply Forall_cons in G as [[Ga Gh] G]. cbn [fst snd] in *.
    assert (Sl : Forall (fun x => ia <= x.1) l) by (apply Sorted_StronglySorted in S; [by apply StronglySorted_inv in S as [_ S]|by intros x y z0; unfold iv_le; lia]).
    apply Sorted_inv in S as [S _].
    assert (Eh : (if hi <? ib then ib else hi) = Z.max ib hi) by (destruct (Z.ltb_spec hi ib); lia). rewrite Eh. clear Eh.
    assert (Ee : ends l (Z.max ib hi) = ends ((ia, ib) :: l) hi) by (rewrite ends_max; done).
    assert (Gl : forall c, c <= ia -> Forall (fun x => c <= x.1 /\ x.2 <= H) l).
    { intros c Hc. apply Forall_forall. intros x Hx. rewrite Forall_forall in G, Sl. specialize (G x Hx). specialize (Sl x Hx). simpl in *. lia. }
    assert (Cm : forall t b', (b' = b \/ b' = ib) -> (a <= t < b' <-> a <= t < b \/ ia <= t < ib) ->
       covered ((a, b) :: (ia, ib) :: l) t = covered ((a, b') :: l) t).
    { intros t b' _ Hb'. apply eq_true_iff_eq. rewrite !covered_spec. setoid_rewrite elem_of_cons. setoid_rewrite elem_of_cons.
      split; intros (x & Hx & Ht).
      - destruct Hx as [->|[->|Hx]]; [exists (a, b')|exists (a, b')|exists x; tauto]; simpl in *; split; try tauto; lia.
      - destruct Hx as [->|Hx]; [|exists x; tauto]. simpl in Ht. apply Hb' in Ht as [Ht|Ht]; [exists (a, b)|exists (ia, ib)]; simpl; tauto. }
    destruct (Z.ltb_spec b ia) as [Hlt|Hge]; [|destruct (Z.ltb_spec b ib) as [Hl2|Hg2]].
    + rewrite (u64_id (b - a)), u64_id by (unfold is_u64; lia). rewrite (IH ia ib _ _) by (done || lia || by apply Gl; lia). f_equal; [|done].
      rewrite (ticks_split _ a b H), (ticks_split _ b ia H) by lia.
      rewrite (ticks_all _ a b), (ticks_none _ b ia); [| |lia|].
      * rewrite (ticks_ext (covered ((a, b) :: _)) (covered ((ia, ib) :: l)) ia H); [lia|]. intros t Ht.
        unfold covered. cbn [existsb fst snd]. replace (t <? b) with false by (symmetry; apply Z.ltb_ge; lia). by rewrite andb_false_r.
      * intros t Ht. apply not_true_iff_false. rewrite covered_spec. intros (x & Hx & ?). rewrite Forall_forall in Sl.
        apply elem_of_cons in Hx as [->|[->|Hx]%elem_of_cons]; simpl in *; [lia|lia|]. specialize (Sl x Hx). lia.
      * intros t Ht. apply covered_spec. exists (a, b). split; [set_solver|done].
    + rewrite (IH a ib _ _) by (done || lia || by apply Gl; lia). f_equal; [|done]. f_equal. symmetry. apply ticks_ext.
      intros t Ht. apply Cm; [tauto|lia].
    + rewrite (IH a b _ _) by (done || lia || by apply Gl; lia). f_equal; [|done]. f_equal. symmetry. apply ticks_ext.
      intros t Ht. apply Cm; [tauto|lia].
Qed.

Lemma covered_perm l l' t : l ≡ₚ l' -> covered l t = covered l' t.
Proof. intros P. apply eq_true_iff_eq. rewrite !covered_spec. by setoid_rewrite P. Qed.

(** The least start and the greatest end. *)
Definition bounds_of (l : list (Z * Z)) (lo hi : Z) : Prop :=
  (exists x, x ∈ l /\ x.1 = lo) /\ (exists x, x ∈ l /\ x.2 = hi) /\ forall x, x ∈ l -> lo <= x.1 /\ x.2 <= hi.

Lemma ends_at l a b : exists x, x ∈ (a, b) :: l /\ x.2 = ends l b.
Proof.
  unfold ends. induction l as [|y l (x & Hx & E)]; simpl; [by exists (a, b); split; [set_solver|]|].
  destruct (Z.max_spec y.2 (foldr (fun x m => Z.max x.2 m) b l)) as [[_ ->]|[_ ->]]; [exists x|exists y]; (split; [set_solver|done]).
Qed.

Lemma busy_span_exact l sorted :
  sorted ≡ₚ l -> Sorted iv_le sorted -> Forall interval l -> l <> [] ->
  exists lo hi, bounds_of l lo hi /\ busy_span sorted = (ticks_in (covered l) lo hi, hi - lo).
Proof.
  intros P S F N. rewrite <- P in F. destruct sorted as [|[a b] r]; [exfalso; apply N; by apply Permutation_nil|].
  apply Forall_cons in F as [[Fa Fb] F]. cbn [fst snd] in *. set (H := ends r b). destruct (ends_le r b) as [Hb Hr].
  assert (Sa : Forall (fun x => a <= x.1) r).
  { apply Sorted_StronglySorted in S; [by apply StronglySorted_inv in S as [_ S]|by intros x y z0; unfold iv_le; lia]. }
  apply Sorted_inv in S as [S _].
  assert (HH : H < 2 ^ 64).
  { destruct (ends_at r a b) as (x & Hx & E). fold H in E. rewrite <- E. apply elem_of_cons in Hx as [->|Hx]; [done|].
    rewrite Forall_forall in F. by apply F. }
  exists a, H. split.
  - unfold bounds_of. setoid_rewrite <- P. split; [by exists (a, b); split; [set_solver|]|]. split; [apply ends_at|].
    intros x [->|Hx]%elem_of_cons; [done|]. rewrite Forall_forall in Sa. auto.
  - cbn [busy_span]. rewrite (sweep_exact r a b 0 b H); try done; [|apply Forall_forall; intros x Hx; rewrite Forall_forall in Sa; auto|lia].
    rewrite Z.add_0_l. rewrite (ticks_ext _ (covered l)) by (intros; by apply covered_perm). f_equal. apply u64_id. unfold is_u64. fold H. lia.
Qed.

Lemma sumZ_split {A} (f : A -> Z) (p : A -> bool) l :
  sumZ (f <$> filter (fun x => p x = false) l) + sumZ (f <$> filter (fun x => p x = true) l) = sumZ (f <$> l).
Proof.
  induction l as [|x l IH]; [done|]. rewrite !filter_cons. change (f <$> x :: l) with (f x :: (f <$> l)).
  destruct (p x) eqn:E; [rewrite decide_False, decide_True by congruence|rewrite decide_True, decide_False by congruence].
  - change (f <$> x :: ?k) with (f x :: (f <$> k)). cbn [sumZ foldr]. fold (sumZ (f <$> filter (fun x => p x = true) l)). fold (sumZ (f <$> l)). lia.
  - change (f <$> x :: ?k) with (f x :: (f <$> k)). cbn [sumZ foldr]. fold (sumZ (f <$> filter (fun x => p x = false) l)). fold (sumZ (f <$> l)). lia.
Qed.

#[export] Instance iv_le_total : Total iv_le.
Proof. intros x y. unfold iv_le. lia. Qed.
#[export] Instance stat_ge_total : Total stat_ge.
Proof. intros x y. unfold stat_ge. lia. Qed.
#[export] Instance stat_ge_trans : Transitive stat_ge.
Proof. intros x y z0. unfold stat_ge. lia. Qed.

(** [qsort] orders the array by the comparison. *)
Definition sorts {A} (R : A -> A -> Prop) (sort : list A -> list A) : Prop := forall l, sort l ≡ₚ l /\ Sorted R (sort l).

(** C25: a report says what the window measured: whatever order [qsort] gives
    to equal elements, "busy" is the number of ticks at which at least one of
    the harvested command buffers was running (the length of the union of
    their intervals, overlaps counted once) and "span" the distance from the
    first start to the last end; the region and draw times add up to the whole
    table; the lines printed are at most 45 slots in descending order of time
    and no slot left out has more time than one printed; and the next window
    starts with an empty table, no intervals and all counters at zero. *)
Theorem report_exact (sort_iv : list (Z * Z) -> list (Z * Z)) (sort_st : list gt_stat -> list gt_stat)
  (malloc_ok : bool) (templ t : Z) (g : window) :
  sorts iv_le sort_iv -> sorts stat_ge sort_st -> length (tab g) = Z.to_nat GT_TAB -> Forall interval (iv g) ->
  let p := (report_with sort_iv sort_st malloc_ok templ t g).1 in
  let g' := (report_with sort_iv sort_st malloc_ok templ t g).2 in
  (iv g = [] -> p_busy p = 0 /\ p_span p = 0) /\
  (iv g <> [] -> exists lo hi, bounds_of (iv g) lo hi /\ p_busy p = ticks_in (covered (iv g)) lo hi /\ p_span p = hi - lo) /\
  p_top p + p_draw p = sumZ (s_ns <$> occupied (tab g)) /\
  Sorted stat_ge (p_lines p) /\ (length (p_lines p) <= 45)%nat /\
  (malloc_ok = true -> exists rest, p_lines p ++ rest ≡ₚ occupied (tab g) /\
     (length (p_lines p) < 45 -> rest = [])%nat /\ forall x y, x ∈ p_lines p -> y ∈ rest -> s_ns y <= s_ns x) /\
  blank g' /\ iv g' = [] /\ (frames g', submits g', cbs g', dropped g', overflows g', win_t0 g') = (0, 0, 0, 0, 0, t).
Proof.
  intros Hi Hs L F. cbv zeta. unfold report_with. destruct (busy_span (sort_iv (iv g))) as [busy span] eqn:E.
  cbn [fst snd p_busy p_span p_top p_draw p_lines iv frames submits cbs dropped overflows win_t0].
  set (st := sort_st (occupied (tab g))). destruct (Hs (occupied (tab g))) as [Ps Ss]. fold st in Ps, Ss.
  assert (Sp : Sorted stat_ge (take GT_TOP st) /\ forall x y, x ∈ take GT_TOP st -> y ∈ drop GT_TOP st -> s_ns y <= s_ns x).
  { rewrite <- (take_drop GT_TOP st) in Ss. apply Sorted_StronglySorted in Ss; [|apply _]. split.
    - apply StronglySorted_Sorted. by apply StronglySorted_app_1_l in Ss.
    - intros x y Hx Hy. by apply (StronglySorted_app_1_elem_of _ _ _ x y Ss). }
  split; [|split; [|split; [|split; [|split; [|split; [|split; [|done]]]]]]].
  - intros Ei. destruct (Hi (iv g)) as [P _]. rewrite Ei in P. rewrite Ei in E. apply Permutation_nil_r in P. rewrite P in E. by injection E as <- <-.
  - intros N. destruct (Hi (iv g)) as [P S]. destruct (busy_span_exact _ _ P S F N) as (lo & hi & B & E2). rewrite E2 in E. injection E as <- <-. eauto.
  - apply sumZ_split.
  - destruct malloc_ok; [tauto|constructor].
  - destruct malloc_ok; [rewrite length_take; unfold GT_TOP; lia|simpl; lia].
  - intros ->. exists (drop GT_TOP st). rewrite take_drop. split; [done|]. split; [|tauto].
    rewrite length_take. intros Hl. apply drop_ge. unfold GT_TOP in *. lia.
  - split; [|done]. cbn [tab]. by rewrite L.
Qed.

Lemma report_exact_witness :
  let g := mk_win 3 1 2 0 0 0 0 (replicate (Z.to_nat GT_TAB) free_slot) 0 [(40, 50); (0, 10); (5, 20)] 1024 in
  let p := (report true 0 9 g).1 in
  p_busy p = 30 /\ exists lo hi, bounds_of (iv g) lo hi /\ p_busy p = ticks_in (covered (iv g)) lo hi /\ p_span p = hi - lo.
Proof.
  intros g p. split; [by vm_compute|].
  pose proof (report_exact (merge_sort iv_le) (merge_sort stat_ge) true 0 9 g) as R.
  destruct R as (_ & R & _); [..|by apply R].
  - intros l. split; [apply merge_sort_Permutation|apply (Sorted_merge_sort iv_le)].
  - intros l. split; [apply merge_sort_Permutation|apply (Sorted_merge_sort stat_ge)].
  - by vm_compute.
  - repeat constructor; by vm_compute.
Defined.

End GtWindow.
