(* ===== verification/GtObjects.v ===== *)
(** * GPU timing: what it knows of the application's objects ([nvidia-prolapse/hal/src/gputime.c])

    Memory placement (which memory type a storage buffer was bound to, which
    buffers a descriptor set has, the census taken at a dispatch), shader and
    pipeline identity (content hashes carried from modules and libraries to
    pipelines), and the memory-type experiment ([nvhal_exp_mem_init],
    [nvhal_exp_mem_remap]).

    Each [nvhal_hash] is the finite map it implements (see [HashTable.v]); an
    insertion can fail for lack of memory, which is an argument.  Addresses
    have 64 bits, so a value is kept whole in the table's pointer.  The SPIR-V
    dump files are not modelled. *)

From Stdlib Require Import ZArith Lia.
From stdpp Require Import base option sets strings gmap list.
From S2P Require Import Prelude.

Set Default Goal Selector "!".
#[local] Open Scope Z_scope.

Module GtObjects.

Definition VK_SUCCESS : Z := 0.
Definition DEVICE_LOCAL : Z := 1.
Definition HOST_VISIBLE : Z := 2.
Definition HOST_CACHED : Z := 8.
Definition VK_MAX_MEMORY_TYPES : Z := 32.
Definition STORAGE_BUFFER : Z := 7.
Definition STORAGE_BUFFER_DYNAMIC : Z := 9.

(** ** State *)

(** [struct gt_pipe]: the hashes of the vertex, fragment, compute and other
    stage, and whether it is a compute pipeline. *)
Record gt_pipe := mk_pipe { hs : list Z; is_compute : bool }.

Record objects := mk_objs {
  gt_mem : gmap Z Z;                   (** memory -> placement *)
  gt_buf : gmap Z Z;                   (** buffer -> placement *)
  gt_sets : gmap Z (list (Z * Z));     (** descriptor set -> (binding, buffer), at most 16 *)
  gt_modules : gmap Z Z;               (** shader module -> hash *)
  gt_pipes : gmap Z gt_pipe;
  gt_templ_updates : Z;
}.
Definition no_objects : objects := mk_objs ∅ ∅ ∅ ∅ ∅ 0.

Definition set_mem (o : objects) m := mk_objs m (gt_buf o) (gt_sets o) (gt_modules o) (gt_pipes o) (gt_templ_updates o).
Definition set_buf (o : objects) m := mk_objs (gt_mem o) m (gt_sets o) (gt_modules o) (gt_pipes o) (gt_templ_updates o).
Definition set_sets (o : objects) m := mk_objs (gt_mem o) (gt_buf o) m (gt_modules o) (gt_pipes o) (gt_templ_updates o).
Definition set_modules (o : objects) m := mk_objs (gt_mem o) (gt_buf o) (gt_sets o) m (gt_pipes o) (gt_templ_updates o).
Definition set_pipes (o : objects) m := mk_objs (gt_mem o) (gt_buf o) (gt_sets o) (gt_modules o) m (gt_templ_updates o).

Definition hash_put {A} (ok : bool) (k : Z) (v : A) (m : gmap Z A) : gmap Z A := if ok then <[k := v]> m else m.

(** ** Memory placement *)

(** Type index + 1 in bits 0-7, property flags from bit 8. *)
Definition placement (idx flags : Z) : Z := Z.lor (idx + 1) (Z.shiftl flags 8).
Definition placed_type (v : Z) : Z := (Z.land v 0xff - 1) mod 256.
Definition placed_flags (v : Z) : Z := Z.shiftr v 8.

(** [types]: the property flags of the device's memory types; [r], [out]: what
    the next layer returned. *)
Definition gt_AllocateMemory (types : list Z) (put_ok : bool) (r out idx : Z) (o : objects) : objects :=
  if r =? VK_SUCCESS then
    match types !! Z.to_nat idx with
    | Some flags => set_mem o (hash_put put_ok out (placement idx flags) (gt_mem o))
    | None => o
    end
  else o.
Definition gt_FreeMemory (m : Z) (o : objects) : objects := if m =? 0 then o else set_mem o (delete m (gt_mem o)).
Definition buf_bound (put_ok : bool) (b m : Z) (o : objects) : objects :=
  match gt_mem o !! m with
  | Some v => set_buf o (hash_put put_ok b v (gt_buf o))
  | None => set_buf o (delete b (gt_buf o))
  end.
Definition gt_BindBufferMemory (put_ok : bool) (r b m : Z) (o : objects) : objects :=
  if r =? VK_SUCCESS then buf_bound put_ok b m o else o.
(** [bind2], for [gt_BindBufferMemory2] and its KHR alias. *)
Definition bind2 (put_ok : bool) (r : Z) (l : list (Z * Z)) (o : objects) : objects :=
  if r =? VK_SUCCESS then foldl (fun o x => buf_bound put_ok x.1 x.2 o) o l else o.

(** ** Descriptor sets *)

Record set_write := mk_write { w_type : Z; w_set : Z; w_binding : Z; w_elem : Z; w_bufs : list Z }.

Fixpoint binding_index (l : list (Z * Z)) (binding : Z) : nat :=
  match l with
  | [] => 0%nat
  | x :: l => if x.1 =? binding then 0%nat else S (binding_index l binding)
  end.
(** One descriptor: the entry of its binding, or a new one while there is room. *)
Definition write_one (l : list (Z * Z)) (binding buf : Z) : list (Z * Z) :=
  let j := binding_index l binding in
  if (j =? length l)%nat then if (length l =? 16)%nat then l else l ++ [(binding, buf)]
  else <[j := (binding, buf)]> l.
Definition write_entries (w : set_write) (l : list (Z * Z)) : list (Z * Z) :=
  foldl (fun l x => write_one l (u32 (w_binding w + w_elem w + Z.of_nat x.1)) x.2) l (imap pair (w_bufs w)).
(** [ok]: whether a record for a new set can be allocated and inserted. *)
Definition update_one (ok : bool) (o : objects) (w : set_write) : objects :=
  if negb ((w_type w =? STORAGE_BUFFER) || (w_type w =? STORAGE_BUFFER_DYNAMIC)) then o
  else match gt_sets o !! w_set w with
       | Some l => set_sets o (<[w_set w := write_entries w l]> (gt_sets o))
       | None => if ok then set_sets o (<[w_set w := write_entries w []]> (gt_sets o)) else o
       end.
Definition gt_UpdateDescriptorSets (ok : bool) (l : list set_write) (o : objects) : objects := foldl (update_one ok) o l.
(** Also the KHR alias: counted, not decoded. *)
Definition gt_UpdateDescriptorSetWithTemplate (o : objects) : objects :=
  mk_objs (gt_mem o) (gt_buf o) (gt_sets o) (gt_modules o) (gt_pipes o) (u64 (gt_templ_updates o + 1)).

(** [ssbo_census]: [(ssbo_n, ssbo_sys, ssbo_type)] from zero. *)
Record census := mk_census { c_n : Z; c_sys : Z; c_type : Z }.
Definition census_one (o : objects) (c : census) (buf : Z) : census :=
  let v := default 0 (gt_buf o !! buf) in
  let n := if c_n c <? 255 then c_n c + 1 else c_n c in
  if negb (v =? 0) && negb (has_any (placed_flags v) DEVICE_LOCAL) then
    mk_census n (if c_sys c <? 255 then c_sys c + 1 else c_sys c) (if c_sys c =? 0 then placed_type v else c_type c)
  else mk_census n (c_sys c) (c_type c).
Definition census_set (o : objects) (c : census) (set : Z) : census :=
  if set =? 0 then c else foldl (census_one o) c (default [] (gt_sets o !! set)).*2.
Definition ssbo_census (o : objects) (cset : list Z) : census := foldl (census_set o) (mk_census 0 0 0) cset.

(** ** Shader and pipeline identity *)

Definition fnv1a (p : list Z) : Z :=
  let h := foldl (fun h b => u64 (Z.lxor h b * 0x100000001b3)) 0xcbf29ce484222325 p in
  if h =? 0 then 1 else h.

(** A stage: its kind, its module, and the code of the first module chained to
    it ([VkShaderModuleCreateInfo] in pNext). *)
Record stage := mk_stage { st_stage : Z; st_module : Z; st_code : option (list Z) }.
Definition stage_hash (o : objects) (s : stage) : Z :=
  if negb (st_module s =? 0) then default 0 (gt_modules o !! st_module s)
  else match st_code s with Some p => fnv1a p | None => 0 end.
Definition stage_slot (s : Z) : nat :=
  if s =? 1 then 0%nat else if s =? 16 then 1%nat else if s =? 32 then 2%nat else 3%nat.

(** [if (!gp->h[k]) gp->h[k] = lib->h[k]] for the four slots. *)
Definition from_library (h lib : list Z) : list Z := zip_with (fun x y => if x =? 0 then y else x) h lib.
(** [libs]: the pipelines of the chained library structures, in order. *)
Definition pipe_hashes (o : objects) (stages : list stage) (libs : list Z) : list Z :=
  foldl (fun h l => match gt_pipes o !! l with Some p => from_library h (hs p) | None => h end)
    (foldl (fun h s => <[stage_slot (st_stage s) := stage_hash o s]> h) [0; 0; 0; 0] stages) libs.
Definition pipe_record (calloc_ok put_ok : bool) (p : Z) (compute : bool) (stages : list stage) (libs : list Z) (o : objects) : objects :=
  if p =? 0 then o
  else if negb calloc_ok then o
  else let gp := mk_pipe (pipe_hashes o stages libs) compute in
       set_pipes o (hash_put put_ok p gp (delete p (gt_pipes o))).

Inductive label := NoPipeline | Unknown (p : Z) | Compute (p cs : Z) | Graphics (p vs fs : Z) (more : bool).
Definition pipe_label (o : objects) (p : Z) : label :=
  if p =? 0 then NoPipeline
  else match gt_pipes o !! p with
       | None => Unknown p
       | Some gp => if is_compute gp then Compute p (nth 2 (hs gp) 0)
                    else Graphics p (nth 0 (hs gp) 0) (nth 1 (hs gp) 0) (negb (nth 3 (hs gp) 0 =? 0))
       end.

Definition gt_CreateShaderModule (put_ok : bool) (r out : Z) (code : list Z) (o : objects) : objects :=
  if r =? VK_SUCCESS then set_modules o (hash_put put_ok out (fnv1a code) (gt_modules o)) else o.
Definition gt_DestroyShaderModule (m : Z) (o : objects) : objects := if m =? 0 then o else set_modules o (delete m (gt_modules o)).
(** One pipeline's create info: its stages and libraries. *)
Record pipe_ci := mk_pci { ci_stages : list stage; ci_libs : list Z }.
Definition gt_CreateGraphicsPipelines (calloc_ok put_ok : bool) (r : Z) (l : list (Z * pipe_ci)) (o : objects) : objects :=
  if 0 <=? r then foldl (fun o x => pipe_record calloc_ok put_ok x.1 false (ci_stages x.2) (ci_libs x.2) o) o l else o.
Definition gt_CreateComputePipelines (calloc_ok put_ok : bool) (r : Z) (l : list (Z * (stage * list Z))) (o : objects) : objects :=
  if 0 <=? r then foldl (fun o x => pipe_record calloc_ok put_ok x.1 true [x.2.1] x.2.2 o) o l else o.
Definition gt_DestroyPipeline (p : Z) (o : objects) : objects := if p =? 0 then o else set_pipes o (delete p (gt_pipes o)).

(** ** The memory-type experiment *)

Fixpoint index_of_flags (l : list Z) (f : Z) (i : Z) : option Z :=
  match l with [] => None | x :: l => if x =? f then Some i else index_of_flags l f (i + 1) end.
(** What [d->mem_remap[i]] becomes: the type to take + 1, or 0. *)
Definition remap_of (types : list Z) (f : Z) : Z :=
  if negb (has_any f HOST_VISIBLE) || has_any f (Z.lor HOST_CACHED DEVICE_LOCAL) then 0
  else match index_of_flags types (Z.lor f DEVICE_LOCAL) 0 with Some j => (j + 1) mod 256 | None => 0 end.
(** [enabled]: the property is a positive number. *)
Definition nvhal_exp_mem_init (enabled : bool) (types : list Z) : list Z :=
  if enabled then (remap_of types <$> types) ++ replicate (Z.to_nat VK_MAX_MEMORY_TYPES - length types) 0
  else replicate (Z.to_nat VK_MAX_MEMORY_TYPES) 0.

Definition sT_FLAGS : Z := 1000060000.
Definition sT_DEDICATED : Z := 1000127001.
Definition sT_PRIORITY : Z := 1000238001.
Definition sT_OPAQUE : Z := 1000257003.
(** The chain by its structure types. *)
Record alloc_info := mk_ai { ai_size : Z; ai_type : Z; ai_chain : list Z }.
Definition plain_struct (s : Z) : bool := (s =? sT_FLAGS) || (s =? sT_PRIORITY) || (s =? sT_DEDICATED) || (s =? sT_OPAQUE).
Definition nvhal_exp_mem_remap (remap : list Z) (ai : alloc_info) : alloc_info :=
  let m := nth (Z.to_nat (ai_type ai)) remap 0 in
  if (VK_MAX_MEMORY_TYPES <=? ai_type ai) || (m =? 0) then ai
  else if forallb plain_struct (ai_chain ai) then mk_ai (ai_size ai) (m - 1) (ai_chain ai) else ai.

(** ** Placements *)

Lemma lor_low k a b : 0 <= k -> 0 <= a < 2 ^ k -> Z.lor a (Z.shiftl b k) = a + b * 2 ^ k.
Proof.
  intros Hk Ha. rewrite Z.shiftl_mul_pow2, Z.lor_comm by done. pose proof (Z.add_lor_land (b * 2 ^ k) a) as E.
  rewrite (land_low_zero _ _ k) in E by (done || apply Z.mod_mul; lia). lia.
Qed.
Lemma placement_value idx flags : 0 <= idx < 255 -> placement idx flags = idx + 1 + flags * 256.
Proof. intros H. unfold placement. by rewrite lor_low by lia. Qed.
Lemma placement_type idx flags : 0 <= idx < 255 -> placed_type (placement idx flags) = idx.
Proof.
  intros H. unfold placed_type. rewrite placement_value by done. change 255 with (2 ^ 8 - 1). rewrite land_mask by done.
  change (2 ^ 8) with 256. rewrite Z.mod_add, (Z.mod_small (idx + 1)) by lia. rewrite Z.mod_small; lia.
Qed.
Lemma placement_flags idx flags : 0 <= idx < 255 -> placed_flags (placement idx flags) = flags.
Proof.
  intros H. unfold placed_flags. rewrite placement_value, Z.shiftr_div_pow2 by done. change (2 ^ 8) with 256.
  rewrite Z.div_add, Z.div_small by lia. lia.
Qed.
Lemma placement_nonzero idx flags : 0 <= idx < 255 -> 0 <= flags -> placement idx flags <> 0.
Proof. intros H F. rewrite placement_value by done. lia. Qed.

(** ** The tables follow the application *)

(** The calls that concern memory and descriptor sets. *)
Inductive call :=
  | CAlloc (r out idx : Z) | CFree (m : Z) | CBind (r b m : Z) | CBind2 (r : Z) (l : list (Z * Z))
  | CUpdate (l : list set_write) | CTemplate.
Definition run_call (types : list Z) (o : objects) (c : call) : objects :=
  match c with
  | CAlloc r out idx => gt_AllocateMemory types true r out idx o
  | CFree m => gt_FreeMemory m o
  | CBind r b m => gt_BindBufferMemory true r b m o
  | CBind2 r l => bind2 true r l o
  | CUpdate l => gt_UpdateDescriptorSets true l o
  | CTemplate => gt_UpdateDescriptorSetWithTemplate o
  end.
Definition run_calls (types : list Z) (l : list call) : objects := foldl (run_call types) no_objects l.

(** The truth: the type each live memory was allocated from, and the type of
    the memory each buffer was last bound to. *)
Record truth := mk_truth { mem_type : gmap Z Z; buf_type : gmap Z Z }.
Definition true_bind (t : truth) (x : Z * Z) : truth :=
  mk_truth (mem_type t) (match mem_type t !! x.2 with Some i => <[x.1 := i]> (buf_type t) | None => delete x.1 (buf_type t) end).
Definition true_call (types : list Z) (t : truth) (c : call) : truth :=
  match c with
  | CAlloc r out idx =>
      if (r =? VK_SUCCESS) && bool_decide (Z.to_nat idx < length types)%nat then mk_truth (<[out := idx]> (mem_type t)) (buf_type t) else t
  | CFree m => if m =? 0 then t else mk_truth (delete m (mem_type t)) (buf_type t)
  | CBind r b m => if r =? VK_SUCCESS then true_bind t (b, m) else t
  | CBind2 r l => if r =? VK_SUCCESS then foldl true_bind t l else t
  | CUpdate _ | CTemplate => t
  end.
Definition true_calls (types : list Z) (l : list call) : truth := foldl (true_call types) (mk_truth ∅ ∅) l.

Section Census.
Context (types : list Z) (Htypes : (length types <= 32)%nat) (Hflags : Forall (fun f => 0 <= f) types).

Definition type_flags (idx : Z) : Z := nth (Z.to_nat idx) types 0.
Definition place (idx : Z) : Z := placement idx (type_flags idx).

Record follows (o : objects) (t : truth) : Prop := {
  fo_mem : gt_mem o = place <$> mem_type t;
  fo_buf : gt_buf o = place <$> buf_type t;
  fo_mem_idx : map_Forall (fun _ i => 0 <= i < 32) (mem_type t);
  fo_buf_idx : map_Forall (fun _ i => 0 <= i < 32) (buf_type t);
  fo_sets : map_Forall (fun _ l => NoDup l.*1 /\ (length l <= 16)%nat) (gt_sets o);
}.

Lemma buf_bound_follows o t b m : follows o t -> follows (buf_bound true b m o) (true_bind t (b, m)).
Proof.
  intros [A B C D S]. unfold buf_bound, true_bind. cbn [fst snd]. rewrite A, lookup_fmap. destruct (mem_type t !! m) as [i|] eqn:E; cbn.
  - constructor; cbn; try done; [by rewrite B, fmap_insert|]. apply map_Forall_insert_2; [by apply (C m)|done].
  - constructor; cbn; try done; [by rewrite B, fmap_delete|]. by apply map_Forall_delete.
Qed.

Lemma binding_index_spec l b :
  (binding_index l b <= length l)%nat /\
  (binding_index l b = length l -> b ∉ l.*1) /\
  (binding_index l b <> length l -> exists v, l !! binding_index l b = Some (b, v)).
Proof.
  induction l as [|[b' v] l (A & B & C)]; cbn [binding_index length fst]; [split_and!; [done|set_solver|done]|].
  destruct (Z.eqb_spec b' b) as [->|N]; [split_and!; [lia|lia|by exists v]|].
  split_and!; [lia| |].
  - intros E. rewrite fmap_cons. apply not_elem_of_cons. split; [simpl; congruence|]. apply B. lia.
  - intros E. apply C. lia.
Qed.
Lemma write_one_ok l b v : NoDup l.*1 -> (length l <= 16)%nat -> NoDup (write_one l b v).*1 /\ (length (write_one l b v) <= 16)%nat.
Proof.
  intros N L. unfold write_one. destruct (binding_index_spec l b) as (A & B & C).
  destruct (Nat.eqb_spec (binding_index l b) (length l)) as [E|E]; [destruct (Nat.eqb_spec (length l) 16); [done|]|].
  - rewrite fmap_app, length_app. simpl. split; [|lia]. apply NoDup_app. split; [done|]. split; [set_solver|apply NoDup_singleton].
  - destruct (C E) as [v' Ev]. rewrite length_insert. split; [|done]. rewrite list_fmap_insert. rewrite list_insert_id; [done|].
    by rewrite list_lookup_fmap, Ev.
Qed.
Lemma write_entries_ok w l : NoDup l.*1 -> (length l <= 16)%nat -> NoDup (write_entries w l).*1 /\ (length (write_entries w l) <= 16)%nat.
Proof.
  unfold write_entries. generalize (imap pair (w_bufs w)). intros k. revert l. induction k as [|x k IH]; intros l N L; [done|].
  cbn [foldl]. destruct (write_one_ok l (u32 (w_binding w + w_elem w + Z.of_nat x.1)) x.2 N L). by apply IH.
Qed.

Lemma update_one_follows o t w : follows o t -> follows (update_one true o w) t.
Proof.
  intros F. pose proof F as [A B C D S]. unfold update_one. destruct (negb _); [done|].
  destruct (gt_sets o !! w_set w) as [l|] eqn:E; constructor; cbn; try done; apply map_Forall_insert_2; try done; apply write_entries_ok.
  - by apply (S (w_set w)).
  - by apply (S (w_set w)).
  - constructor.
  - simpl. lia.
Qed.

Definition call_ok (c : call) : Prop := match c with CAlloc _ _ idx => 0 <= idx | _ => True end.

Lemma run_call_follows o t c : call_ok c -> follows o t -> follows (run_call types o c) (true_call types t c).
Proof.
  intros Hc F. pose proof F as [A B C D S]. destruct c as [r out idx|m|r b m|r l|l|]; cbn [run_call true_call].
  - unfold gt_AllocateMemory. destruct (r =? VK_SUCCESS); [|done]. cbn [andb]. destruct (types !! Z.to_nat idx) as [fl|] eqn:E.
    + pose proof (lookup_lt_Some _ _ _ E). rewrite bool_decide_eq_true_2 by done. constructor; cbn; try done.
      * rewrite A, fmap_insert. f_equal. unfold place, type_flags. by rewrite (nth_lookup_Some _ _ _ fl).
      * apply map_Forall_insert_2; [cbn in Hc; lia|done].
    + rewrite bool_decide_eq_false_2; [done|]. apply lookup_ge_None in E. lia.
  - unfold gt_FreeMemory. destruct (m =? 0); [done|].
    constructor; cbn; try done; [by rewrite A, fmap_delete|by apply map_Forall_delete].
  - unfold gt_BindBufferMemory. destruct (r =? VK_SUCCESS); [|done]. by apply buf_bound_follows.
  - unfold bind2. destruct (r =? VK_SUCCESS); [|done]. clear A B C D S Hc. revert o t F. induction l as [|[b m] l IH]; intros o t F; [done|].
    cbn [foldl]. apply IH. by apply buf_bound_follows.
  - unfold gt_UpdateDescriptorSets. clear A B C D S Hc. revert o F. induction l as [|w l IH]; intros o F; [done|].
    cbn [foldl]. apply IH. by apply update_one_follows.
  - by constructor.
Qed.
Lemma run_calls_follow l : Forall call_ok l -> follows (run_calls types l) (true_calls types l).
Proof.
  unfold run_calls, true_calls. assert (F0 : follows no_objects (mk_truth ∅ ∅)) by (constructor; cbn [mem_type buf_type gt_mem gt_buf gt_sets no_objects]; first [by rewrite fmap_empty|apply map_Forall_empty]).
  revert F0. generalize no_objects, (mk_truth ∅ ∅). induction l as [|c l IH]; intros o t F Hl; [done|].
  apply Forall_cons in Hl as [Hc Hl]. cbn [foldl]. apply IH; [by apply run_call_follows|done].
Qed.

(** The storage buffers of the bound sets, in the order of the sets. *)
Definition bound_buffers (o : objects) (cset : list Z) : list Z :=
  concat ((fun set => if set =? 0 then [] else (default [] (gt_sets o !! set)).*2) <$> cset).
(** Bound to memory of a known type that is not device local. *)
Definition in_system (t : truth) (b : Z) : bool :=
  match buf_type t !! b with Some i => negb (has_any (type_flags i) DEVICE_LOCAL) | None => false end.
Definition first_system (t : truth) (l : list Z) : option Z := list_find (fun b => in_system t b = true) l ≫= fun x => buf_type t !! x.2.

Lemma census_flat o l c : foldl (census_set o) c l = foldl (census_one o) c (bound_buffers o l).
Proof.
  revert c. unfold bound_buffers. induction l as [|s l IH]; intros c; [done|]. cbn [foldl fmap list_fmap concat]. rewrite foldl_app, IH. f_equal.
  unfold census_set. by destruct (s =? 0).
Qed.

Lemma type_flags_nonneg i : 0 <= type_flags i.
Proof.
  unfold type_flags. rewrite nth_lookup. destruct (types !! Z.to_nat i) as [f|] eqn:E; [|done].
  rewrite Forall_forall in Hflags. apply Hflags. by eapply list_elem_of_lookup_2.
Qed.
Lemma census_one_spec o t c b :
  follows o t ->
  census_one o c b =
    mk_census (if c_n c <? 255 then c_n c + 1 else c_n c)
      (if in_system t b then if c_sys c <? 255 then c_sys c + 1 else c_sys c else c_sys c)
      (if in_system t b && (c_sys c =? 0) then default 0 (buf_type t !! b) else c_type c).
Proof.
  intros [A B C D S]. unfold census_one, in_system. rewrite B, lookup_fmap. destruct (buf_type t !! b) as [i|] eqn:E; [|done].
  change (default 0 (place <$> Some i)) with (place i). change (default 0 (Some i)) with i.
  pose proof (D b i E) as Hi. cbn beta in Hi. pose proof (type_flags_nonneg i). unfold place.
  rewrite placement_flags, placement_type by lia. rewrite (proj2 (Z.eqb_neq _ 0)) by (apply placement_nonzero; lia). cbn [negb andb].
  destruct (negb _); cbn [andb]; [|done]. by destruct (c_sys c =? 0).
Qed.

Lemma census_fold o t l c :
  follows o t -> 0 <= c_n c -> 0 <= c_sys c -> c_n c + Z.of_nat (length l) <= 255 -> c_sys c + Z.of_nat (length l) <= 255 ->
  let r := foldl (census_one o) c l in
  c_n r = c_n c + Z.of_nat (length l) /\ c_sys r = c_sys c + Z.of_nat (countb (in_system t) l) /\
  c_type r = if c_sys c =? 0 then default (c_type c) (first_system t l) else c_type c.
Proof.
  intros F. revert c. induction l as [|b l IH]; intros c Hn Hs Ln Ls; cbn zeta.
  { cbn. split; [lia|]. split; [lia|]. by destruct (c_sys c =? 0). }
  cbn [foldl countb length] in *. rewrite (census_one_spec o t) by done.
  destruct (Z.ltb_spec (c_n c) 255); [|lia]. destruct (Z.ltb_spec (c_sys c) 255); [|lia].
  destruct (IH (mk_census (c_n c + 1) (if in_system t b then c_sys c + 1 else c_sys c)
              (if in_system t b && (c_sys c =? 0) then default 0 (buf_type t !! b) else c_type c))) as (A & B & C); cbn [c_n c_sys c_type] in *;
    [lia|destruct (in_system t b); lia|lia|destruct (in_system t b); lia|].
  rewrite A, B, C. split; [lia|]. unfold first_system. cbn [list_find]. destruct (in_system t b) eqn:E; cbn [andb].
  - rewrite decide_True by done. cbn [option_bind mbind snd]. split; [lia|]. destruct (Z.eqb_spec (c_sys c + 1) 0); [lia|].
    destruct (c_sys c =? 0); [|done]. unfold in_system in E. by destruct (buf_type t !! b).
  - rewrite decide_False by done. split; [lia|]. destruct (c_sys c =? 0); [|done]. f_equal.
    by destruct (list_find _ l) as [[? ?]|].
Qed.

Lemma bound_buffers_length o t cset : follows o t -> (length (bound_buffers o cset) <= 16 * length cset)%nat.
Proof.
  intros [_ _ _ _ S]. unfold bound_buffers. induction cset as [|s l IH]; [done|]. cbn [fmap list_fmap concat length]. rewrite length_app.
  assert ((length (if (s =? 0)%Z then [] else (default [] (gt_sets o !! s)).*2) <= 16)%nat); [|lia].
  destruct (s =? 0); [simpl; lia|]. rewrite length_fmap. destruct (gt_sets o !! s) as [k|] eqn:E; [|simpl; lia]. by apply (S s k E).
Qed.
End Census.

(** the census at a dispatch counts what the application bound: after
    any sequence of allocations, frees, binds and descriptor updates (the
    tables could be grown), the census over the eight compute sets counts each
    recorded storage buffer once (eight sets of sixteen never reach the 8-bit
    limit), counts as "not device-local" exactly those whose last successful
    bind was to memory of a type without DEVICE_LOCAL that was live at the
    bind, and names the type of the first of them. *)
Theorem census_exact (types : list Z) (l : list call) (cset : list Z) :
  (length types <= 32)%nat -> Forall (fun f => 0 <= f) types -> Forall call_ok l -> length cset = 8%nat ->
  let o := run_calls types l in
  let t := true_calls types l in
  let bufs := bound_buffers o cset in
  c_n (ssbo_census o cset) = Z.of_nat (length bufs) /\
  c_sys (ssbo_census o cset) = Z.of_nat (countb (in_system types t) bufs) /\
  c_type (ssbo_census o cset) = default 0 (first_system types t bufs).
Proof.
  intros Ht Hf Hl Hc. cbv zeta. pose proof (run_calls_follow types Ht Hf l Hl) as F.
  pose proof (bound_buffers_length types Ht _ _ cset F) as L. unfold ssbo_census. rewrite census_flat.
  apply (census_fold types Ht Hf _ _ (bound_buffers (run_calls types l) cset) (mk_census 0 0 0)); cbn; try done; lia.
Qed.

(** Buffer 50 in system memory (type 1), buffer 51 device local. *)
Definition demo_calls : list call :=
  [CAlloc 0 10 1; CAlloc 0 11 0; CBind 0 50 10; CBind2 0 [(51, 11)]; CUpdate [mk_write 7 90 0 0 [50; 51]]; CFree 10].
Lemma census_exact_witness :
  let c := ssbo_census (run_calls [1; 2] demo_calls) [0; 90; 0; 0; 0; 0; 0; 0] in (c_n c, c_sys c, c_type c) = (2, 1, 1).
Proof.
  destruct (census_exact [1; 2] demo_calls [0; 90; 0; 0; 0; 0; 0; 0]) as (A & B & C); cbv zeta.
  - simpl. lia.
  - repeat constructor; lia.
  - repeat constructor; cbn; lia.
  - done.
  - rewrite A, B, C. by vm_compute.
Defined.

(** ** Pipelines and the experiment *)

(** What a slot of a pipeline ends with: the hash of the last stage of that
    slot when it is known, else the first library that knows it. *)
Definition first_known (l : list Z) : Z := default 0 (snd <$> list_find (fun x => x <> 0) l).
Definition own_hash (o : objects) (stages : list stage) (k : nat) : Z :=
  default 0 (last (stage_hash o <$> filter (fun s => stage_slot (st_stage s) = k) stages)).
Definition lib_hashes (o : objects) (libs : list Z) (k : nat) : list Z :=
  (fun l => match gt_pipes o !! l with Some p => nth k (hs p) 0 | None => 0 end) <$> libs.

Definition pipes_ok (o : objects) : Prop := map_Forall (fun _ p => length (hs p) = 4%nat) (gt_pipes o).

Lemma first_known_cons x l : first_known (x :: l) = if x =? 0 then first_known l else x.
Proof.
  unfold first_known. cbn [list_find]. destruct (Z.eqb_spec x 0) as [->|N].
  - rewrite decide_False by tauto. by destruct (list_find _ l) as [[? ?]|].
  - by rewrite decide_True by done.
Qed.
Lemma stage_slot_lt s : (stage_slot s < 4)%nat.
Proof. unfold stage_slot. repeat case_match; lia. Qed.

Lemma own_slots o stages h0 k :
  length h0 = 4%nat -> (k < 4)%nat ->
  let h := foldl (fun h s => <[stage_slot (st_stage s) := stage_hash o s]> h) h0 stages in
  length h = 4%nat /\
  nth k h 0 = default (nth k h0 0) (last (stage_hash o <$> filter (fun s => stage_slot (st_stage s) = k) stages)).
Proof.
  intros L Hk. cbv zeta. induction stages as [|s l [Ll IH]] using rev_ind; [done|]. rewrite foldl_snoc, length_insert. split; [done|].
  rewrite filter_app, fmap_app, nth_lookup. pose proof (stage_slot_lt (st_stage s)). rewrite filter_cons, filter_nil.
  destruct (decide (stage_slot (st_stage s) = k)) as [<-|N].
  - rewrite list_lookup_insert_eq by lia. cbn [fmap list_fmap]. by rewrite last_snoc.
  - rewrite list_lookup_insert_ne, <- nth_lookup by done. cbn [fmap list_fmap]. by rewrite app_nil_r.
Qed.

Definition with_libraries (o : objects) (h libs : list Z) : list Z :=
  foldl (fun h l => match gt_pipes o !! l with Some p => from_library h (hs p) | None => h end) h libs.

Lemma from_library_slots h lib k :
  length h = 4%nat -> length lib = 4%nat -> (k < 4)%nat ->
  length (from_library h lib) = 4%nat /\ nth k (from_library h lib) 0 = if nth k h 0 =? 0 then nth k lib 0 else nth k h 0.
Proof.
  intros L L' Hk. unfold from_library. rewrite length_zip_with. split; [lia|]. rewrite !nth_lookup, lookup_zip_with.
  destruct (lookup_lt_is_Some_2 h k) as [x ->]; [lia|]. destruct (lookup_lt_is_Some_2 lib k) as [y ->]; [lia|]. done.
Qed.
Lemma library_slots o libs h k :
  pipes_ok o -> length h = 4%nat -> (k < 4)%nat ->
  length (with_libraries o h libs) = 4%nat /\ nth k (with_libraries o h libs) 0 = first_known (nth k h 0 :: lib_hashes o libs k).
Proof.
  intros P. revert h. induction libs as [|l libs IH]; intros h L Hk; unfold with_libraries; cbn [foldl lib_hashes fmap list_fmap].
  - rewrite first_known_cons. split; [done|]. by destruct (Z.eqb_spec (nth k h 0) 0).
  - change (list_fmap _ _ _ libs) with (lib_hashes o libs k). rewrite first_known_cons, first_known_cons. destruct (gt_pipes o !! l) as [p|] eqn:E.
    + destruct (from_library_slots h (hs p) k L (P l p E) Hk) as [L' En]. destruct (IH _ L' Hk) as [A B].
      split; [exact A|]. fold (with_libraries o (from_library h (hs p)) libs). rewrite B, first_known_cons, En.
      destruct (Z.eqb_spec (nth k h 0) 0) as [Z0|N]; [done|]. by rewrite (proj2 (Z.eqb_neq _ 0)).
    + destruct (IH _ L Hk) as [A B]. split; [exact A|]. fold (with_libraries o h libs). rewrite B, first_known_cons. by destruct (nth k h 0 =? 0).
Qed.

(** A recorded pipeline is labelled with the hashes of its own stages and, for
    the stages it takes from libraries, with theirs. *)
Lemma pipe_label_exact o p compute stages libs :
  pipes_ok o -> p <> 0 ->
  let o' := pipe_record true true p compute stages libs o in
  let known k := first_known (own_hash o stages k :: lib_hashes o libs k) in
  pipes_ok o' /\
  pipe_label o' p = if compute then Compute p (known 2%nat) else Graphics p (known 0%nat) (known 1%nat) (negb (known 3%nat =? 0)).
Proof.
  intros P Hp. cbv zeta. unfold pipe_record. rewrite (proj2 (Z.eqb_neq p 0)) by done. cbn [negb hash_put].
  assert (N : forall k, (k < 4)%nat -> length (pipe_hashes o stages libs) = 4%nat /\
     nth k (pipe_hashes o stages libs) 0 = first_known (own_hash o stages k :: lib_hashes o libs k)).
  { intros k Hk. destruct (own_slots o stages [0; 0; 0; 0] k) as [L E]; [done|done|].
    destruct (library_slots o libs _ k P L Hk) as [A B]. split; [exact A|]. unfold pipe_hashes. unfold with_libraries in B. rewrite B, E.
    assert (nth k [0; 0; 0; 0] 0 = 0) as -> by (destruct k as [|[|[|[|k]]]]; [done..|lia]). done. }
  split.
  - intros q gp. cbn [gt_pipes set_pipes]. intros [[-> <-]|[_ [_ E]%lookup_delete_Some]]%lookup_insert_Some; [|by apply (P q)].
    by apply (N 0%nat); lia.
  - unfold pipe_label. rewrite (proj2 (Z.eqb_neq p 0)) by done. cbn [gt_pipes set_pipes]. rewrite lookup_insert_eq. cbn [is_compute hs].
    destruct compute; [by rewrite (proj2 (N 2%nat ltac:(lia)))|].
    rewrite (proj2 (N 0%nat ltac:(lia))), (proj2 (N 1%nat ltac:(lia))), (proj2 (N 3%nat ltac:(lia))). done.
Qed.

Lemma index_of_flags_Some l f i j : index_of_flags l f i = Some j -> i <= j < i + Z.of_nat (length l) /\ l !! Z.to_nat (j - i) = Some f.
Proof.
  revert i. induction l as [|x l IH]; intros i; cbn [index_of_flags length]; [done|]. destruct (Z.eqb_spec x f) as [->|N].
  - intros [= ->]. split; [lia|]. by rewrite Z.sub_diag.
  - intros [A B]%IH. split; [lia|]. replace (Z.to_nat (j - i)) with (S (Z.to_nat (j - (i + 1)))) by lia. done.
Qed.
Lemma index_of_flags_None l f i : index_of_flags l f i = None -> f ∉ l.
Proof.
  revert i. induction l as [|x l IH]; intros i; cbn [index_of_flags]; [set_solver|]. destruct (Z.eqb_spec x f) as [->|N]; [done|].
  intros H%IH. set_solver.
Qed.

(** The experiment moves an allocation only to the same memory in the
    BAR: with the experiment on, an allocation keeps its size and its chain;
    its type changes only when the application's type is host visible, neither
    host cached nor device local, the chain has none but the four structures
    that say nothing of imports or exports, and the new type exists and has
    exactly the old flags plus DEVICE_LOCAL; and it does change whenever all of
    that holds.  With the experiment off every allocation is untouched. *)
Theorem remap_exact (types : list Z) (ai : alloc_info) (f : Z) :
  (length types <= 32)%nat -> 0 <= ai_type ai -> types !! Z.to_nat (ai_type ai) = Some f ->
  let plain := has_any f HOST_VISIBLE && negb (has_any f (Z.lor HOST_CACHED DEVICE_LOCAL)) && forallb plain_struct (ai_chain ai) in
  let ai' := nvhal_exp_mem_remap (nvhal_exp_mem_init true types) ai in
  nvhal_exp_mem_remap (nvhal_exp_mem_init false types) ai = ai /\
  ai_size ai' = ai_size ai /\ ai_chain ai' = ai_chain ai /\
  (if plain && bool_decide (Z.lor f DEVICE_LOCAL ∈ types)
   then 0 <= ai_type ai' /\ types !! Z.to_nat (ai_type ai') = Some (Z.lor f DEVICE_LOCAL)
   else ai' = ai).
Proof.
  intros Ht Hi E. pose proof (lookup_lt_Some _ _ _ E) as Hl. cbv zeta.
  assert (H32 : (VK_MAX_MEMORY_TYPES <=? ai_type ai) = false) by (apply Z.leb_gt; unfold VK_MAX_MEMORY_TYPES; lia).
  assert (E1 : nth (Z.to_nat (ai_type ai)) (nvhal_exp_mem_init true types) 0 = remap_of types f).
  { unfold nvhal_exp_mem_init. rewrite nth_lookup, lookup_app_l by (by rewrite length_fmap). by rewrite list_lookup_fmap, E. }
  assert (E0 : nth (Z.to_nat (ai_type ai)) (nvhal_exp_mem_init false types) 0 = 0).
  { unfold nvhal_exp_mem_init. rewrite nth_lookup, lookup_replicate_2 by (unfold VK_MAX_MEMORY_TYPES; lia). done. }
  unfold nvhal_exp_mem_remap. rewrite E0, E1, H32. cbn [orb Z.eqb]. split; [done|]. unfold remap_of.
  destruct (has_any f HOST_VISIBLE); cbn [negb andb orb]; [|done].
  destruct (has_any f (Z.lor HOST_CACHED DEVICE_LOCAL)); cbn [negb andb orb]; [done|].
  destruct (index_of_flags types (Z.lor f DEVICE_LOCAL) 0) as [j|] eqn:Ej.
  - apply index_of_flags_Some in Ej as [Hj El]. rewrite Z.sub_0_r in El. rewrite Z.mod_small by lia. rewrite (proj2 (Z.eqb_neq (j + 1) 0)) by lia.
    rewrite bool_decide_eq_true_2 by (by eapply list_elem_of_lookup_2). destruct (forallb _ _); cbn [andb]; [|done].
    cbn [ai_size ai_type ai_chain]. replace (j + 1 - 1) with j by lia. split_and!; [done..|lia|done].
  - apply index_of_flags_None in Ej. rewrite bool_decide_eq_false_2 by done. by rewrite andb_false_r.
Qed.

Lemma remap_exact_witness : ai_type (nvhal_exp_mem_remap (nvhal_exp_mem_init true [1; 6; 14; 7]) (mk_ai 4096 1 [sT_FLAGS])) = 3 /\
  ai_size (nvhal_exp_mem_remap (nvhal_exp_mem_init true [1; 6; 14; 7]) (mk_ai 4096 1 [sT_FLAGS])) = 4096.
Proof.
  split; [by vm_compute|]. apply (remap_exact [1; 6; 14; 7] (mk_ai 4096 1 [sT_FLAGS]) 6); [simpl; lia|done|done].
Defined.

End GtObjects.
