(* ===== verification/GtRecord.v ===== *)
(** * GPU timing: the recording of one command buffer ([nvidia-prolapse/hal/src/gputime.c])

    [struct nvhal_gt_cb] and the wrappers of the recording commands: each
    passes the command on and writes bottom-of-pipe timestamps into the command
    buffer's query pools around the regions it times.  The state is the record
    of the command buffer ([None]: one the HAL does not track, or whose record
    could not be allocated) and the stream of commands the next layer got for
    it since it was begun.

    Answers of the environment are arguments: [mem], whether the record array
    can grow; [create i], the [i]-th query pool created; [look], the records of
    other command buffers; [o], the object tables; the result of the next
    layer's vkBeginCommandBuffer.  [nrec] is the length of [recs] and [npools]
    that of [qp]; what lies in the record array beyond [nrec] is cleared before
    it is used again and so is not part of the state. *)

From Stdlib Require Import ZArith Lia.
From stdpp Require Import base option sets strings gmap list sorting.
From S2P Require Import Prelude GtWindow GtObjects.
Export GtWindow.GtWindow GtObjects.GtObjects.

Set Default Goal Selector "!".
#[local] Open Scope Z_scope.

Module GtRecord.

(** ** State *)

Record gt_cb := mk_cb {
  primary : bool; active : bool; in_rp : bool; rp_secondary : bool; submitted : bool;
  qp : list Z; nq : Z; last_q : Z; want_q : Z; overflow : bool;
  recs : list gt_rec; caprec : Z; rp_rec : nat;
  gfx : Z; cs : Z; cset : list Z; first_gfx : Z; cb_draws : Z;
}.
Definition npools (c : gt_cb) : Z := Z.of_nat (length (qp c)).

Definition set_queries (c : gt_cb) (n last : Z) (over : bool) : gt_cb :=
  mk_cb (primary c) (active c) (in_rp c) (rp_secondary c) (submitted c) (qp c) n last (want_q c) over (recs c) (caprec c) (rp_rec c)
    (gfx c) (cs c) (cset c) (first_gfx c) (cb_draws c).
Definition set_recs (c : gt_cb) (l : list gt_rec) (cap : Z) : gt_cb :=
  mk_cb (primary c) (active c) (in_rp c) (rp_secondary c) (submitted c) (qp c) (nq c) (last_q c) (want_q c) (overflow c) l cap (rp_rec c)
    (gfx c) (cs c) (cset c) (first_gfx c) (cb_draws c).
Definition set_rp (c : gt_cb) (inside secondary : bool) (r : nat) : gt_cb :=
  mk_cb (primary c) (active c) inside secondary (submitted c) (qp c) (nq c) (last_q c) (want_q c) (overflow c) (recs c) (caprec c) r
    (gfx c) (cs c) (cset c) (first_gfx c) (cb_draws c).
Definition set_bound (c : gt_cb) (g k : Z) (sets : list Z) : gt_cb :=
  mk_cb (primary c) (active c) (in_rp c) (rp_secondary c) (submitted c) (qp c) (nq c) (last_q c) (want_q c) (overflow c) (recs c) (caprec c)
    (rp_rec c) g k sets (first_gfx c) (cb_draws c).
Definition set_drawn (c : gt_cb) (first n : Z) : gt_cb :=
  mk_cb (primary c) (active c) (in_rp c) (rp_secondary c) (submitted c) (qp c) (nq c) (last_q c) (want_q c) (overflow c) (recs c) (caprec c)
    (rp_rec c) (gfx c) (cs c) (cset c) first n.
Definition set_submitted (c : gt_cb) (b : bool) : gt_cb :=
  mk_cb (primary c) (active c) (in_rp c) (rp_secondary c) b (qp c) (nq c) (last_q c) (want_q c) (overflow c) (recs c) (caprec c)
    (rp_rec c) (gfx c) (cs c) (cset c) (first_gfx c) (cb_draws c).
Definition set_pools (c : gt_cb) (a : bool) (l : list Z) : gt_cb :=
  mk_cb (primary c) a (in_rp c) (rp_secondary c) (submitted c) l (nq c) (last_q c) (want_q c) (overflow c) (recs c) (caprec c)
    (rp_rec c) (gfx c) (cs c) (cset c) (first_gfx c) (cb_draws c).
Definition set_want (c : gt_cb) (n : Z) : gt_cb :=
  mk_cb (primary c) (active c) (in_rp c) (rp_secondary c) (submitted c) (qp c) (nq c) (last_q c) n (overflow c) (recs c) (caprec c)
    (rp_rec c) (gfx c) (cs c) (cset c) (first_gfx c) (cb_draws c).

(** ** The application's commands and the stream *)

(** The three names of a command that was promoted. *)
Inductive version := V1 | V2 | V2KHR.
Inductive cmd :=
  | CmdBindPipeline (bp p : Z)
  | CmdBindDescriptorSets (bp first : Z) (sets : list Z)
  | CmdBeginRenderPass (v : version) (rp w h : Z) (secondary : bool)
  | CmdEndRenderPass (v : version)
  | CmdBeginRendering (khr : bool) (w h ncolor : Z) (depth secondary : bool)
  | CmdEndRendering (khr : bool)
  | CmdDraw (name : string)
  | CmdDispatch (name : string) (x y z : Z)
  | CmdDispatchIndirect
  | CmdXfer (name : string)
  | CmdExecuteCommands (sec : list Z).
Definition BIND_POINT_GRAPHICS : Z := 0.
Definition BIND_POINT_COMPUTE : Z := 1.

Inductive icmd := INext (c : cmd) | IReset (pool first count : Z) | IStamp (pool query : Z).

(** The rows of [GT_DRAW], [GT_XFER] and the dispatches. *)
Definition draw_table : list (string * gt_kind) :=
  [("vkCmdDraw", GK_DRAW); ("vkCmdDrawIndexed", GK_DRAW); ("vkCmdDrawIndirect", GK_DRAW); ("vkCmdDrawIndexedIndirect", GK_DRAW);
   ("vkCmdDrawIndirectCount", GK_DRAW); ("vkCmdDrawIndirectCountKHR", GK_DRAW); ("vkCmdDrawIndexedIndirectCount", GK_DRAW);
   ("vkCmdDrawIndexedIndirectCountKHR", GK_DRAW); ("vkCmdDrawMultiEXT", GK_DRAW); ("vkCmdDrawMultiIndexedEXT", GK_DRAW);
   ("vkCmdClearAttachments", GK_CLEAR_ATT)]%string.
Definition xfer_table : list (string * Z) :=
  [("vkCmdCopyBuffer", 0); ("vkCmdCopyImage", 1); ("vkCmdCopyBufferToImage", 2); ("vkCmdCopyImageToBuffer", 3); ("vkCmdBlitImage", 4);
   ("vkCmdResolveImage", 5); ("vkCmdClearColorImage", 6); ("vkCmdClearDepthStencilImage", 7); ("vkCmdFillBuffer", 8);
   ("vkCmdUpdateBuffer", 9); ("vkCmdCopyBuffer2", 0); ("vkCmdCopyBuffer2KHR", 0); ("vkCmdCopyImage2", 1); ("vkCmdCopyImage2KHR", 1);
   ("vkCmdCopyBufferToImage2", 2); ("vkCmdCopyBufferToImage2KHR", 2); ("vkCmdCopyImageToBuffer2", 3); ("vkCmdCopyImageToBuffer2KHR", 3);
   ("vkCmdBlitImage2", 4); ("vkCmdBlitImage2KHR", 4); ("vkCmdResolveImage2", 5); ("vkCmdResolveImage2KHR", 5)]%string.
Definition assoc {A} (l : list (string * A)) (name : string) : option A := snd <$> List.find (fun x => String.eqb x.1 name) l.

(** ** The recorder *)

Record cst := mk_cst { cb : option gt_cb; out : list icmd }.
Definition emit (e : icmd) : M cst () := modS (fun s => mk_cst (cb s) (out s ++ [e])).
Definition put (c : gt_cb) : M cst () := modS (fun s => mk_cst (Some c) (out s)).
Definition getcb : M cst (option gt_cb) := fun s => (cb s, s).

Section Recorder.
Context (level : Z) (o : objects) (look : Z -> option gt_cb) (mem : bool).

Definition ts : M cst Z :=
  x ← getcb;
  match x with
  | None => mret GT_NOQ
  | Some c =>
      if negb (active c) then mret GT_NOQ
      else if npools c * GT_QP_SIZE <=? nq c then _ ← put (set_queries c (nq c) (last_q c) true); mret GT_NOQ
      else let i := nq c in
           _ ← emit (IStamp (nth (Z.to_nat (i / GT_QP_SIZE)) (qp c) 0) (i mod GT_QP_SIZE));
           _ ← put (set_queries c (i + 1) i (overflow c));
           mret i
  end.

(** The new record is the last. *)
Definition push (r : gt_rec) (c : gt_cb) : option gt_cb :=
  if Z.of_nat (length (recs c)) =? caprec c then
    if mem then Some (set_recs c (recs c ++ [r]) (if caprec c =? 0 then 256 else u32 (caprec c * 2))) else None
  else Some (set_recs c (recs c ++ [r]) (caprec c)).

Definition region (kind : gt_kind) (op p x y z : Z) : M cst () :=
  s ← getcb;
  match s with
  | None => mret tt
  | Some c =>
      if negb (active c) || in_rp c then mret tt
      else
      let qs := last_q c in
      qe ← ts;
      if qe =? GT_NOQ then mret tt
      else
      s ← getcb;
      match s with
      | None => mret tt
      | Some c =>
          let n := match kind with GK_DISPATCH => ssbo_census o (cset c) | _ => mk_census 0 0 0 end in
          match push (mk_rec qs qe kind op x y z 0 p 0 (c_n n) (c_sys n) (c_type n)) c with
          | None => mret tt
          | Some c => put c
          end
      end
  end.

(** A draw counted into a render pass record. *)
Definition add_draws (n p : Z) (r : gt_rec) : gt_rec :=
  mk_rec (qs r) (qe r) (kind r) (op r) (w r) (h r) (z r) (u32 (draws r + n)) (if pipe r =? 0 then p else pipe r) (rp r)
    (ssbo_n r) (ssbo_sys r) (ssbo_type r).
Definition with_qe (q : Z) (r : gt_rec) : gt_rec :=
  mk_rec (qs r) q (kind r) (op r) (w r) (h r) (z r) (draws r) (pipe r) (rp r) (ssbo_n r) (ssbo_sys r) (ssbo_type r).

Definition after_draw (kind : gt_kind) : M cst () :=
  s ← getcb;
  match s with
  | None => mret tt
  | Some c =>
      if negb (primary c) then put (set_drawn c (if first_gfx c =? 0 then gfx c else first_gfx c) (u32 (cb_draws c + 1)))
      else if negb (in_rp c) then mret tt
      else
      let p := match kind with GK_DRAW => gfx c | _ => 0 end in
      let c := set_recs c (alter (add_draws 1 p) (rp_rec c) (recs c)) (caprec c) in
      _ ← put c;
      if (level <? 2) || rp_secondary c then mret tt
      else
      let qs := last_q c in
      qe ← ts;
      if qe =? GT_NOQ then mret tt
      else
      s ← getcb;
      match s with
      | None => mret tt
      | Some c => match push (mk_rec qs qe kind 0 0 0 0 0 p 0 0 0 0) c with None => mret tt | Some c => put c end
      end
  end.

Definition rp_pre : M cst Z :=
  s ← getcb;
  match s with
  | None => mret GT_NOQ
  | Some c => if negb (active c) || in_rp c then mret GT_NOQ else ts
  end.
Definition rp_begin (qs rp w h natt : Z) (secondary : bool) : M cst () :=
  s ← getcb;
  match s with
  | None => mret tt
  | Some c =>
      if negb (active c) || (qs =? GT_NOQ) then mret tt
      else match push (mk_rec qs GT_NOQ GK_RP (if 255 <? natt then 255 else natt) w h 0 0 0 rp 0 0 0) c with
           | None => mret tt
           | Some c => put (set_rp c true secondary (length (recs c) - 1))
           end
  end.
Definition rp_end : M cst () :=
  s ← getcb;
  match s with
  | None => mret tt
  | Some c =>
      if negb (active c) || negb (in_rp c) then mret tt
      else
      _ ← put (set_rp c false (rp_secondary c) (rp_rec c));
      qe ← ts;
      s ← getcb;
      match s with
      | None => mret tt
      | Some c => put (set_recs c (alter (with_qe qe) (rp_rec c) (recs c)) (caprec c))
      end
  end.

(** [for (i = 0; i < n && first + i < 8; i++) c->cset[first + i] = sets[i]]. *)
Fixpoint bind_sets (first : nat) (sets l : list Z) : list Z :=
  match sets with
  | [] => l
  | x :: sets => if (first <? 8)%nat then bind_sets (S first) sets (<[first := x]> l) else l
  end.

(** The secondaries of vkCmdExecuteCommands, counted into the render pass. *)
Definition add_secondary (r : gt_rec) (sec : Z) : gt_rec :=
  match look sec with Some e => add_draws (cb_draws e) (first_gfx e) r | None => r end.

Definition gt_CmdExecuteCommands (sec : list Z) : M cst () :=
  _ ← emit (INext (CmdExecuteCommands sec));
  s ← getcb;
  match s with
  | None => mret tt
  | Some c =>
      if negb (active c) then mret tt
      else if in_rp c then put (set_recs c (alter (fun r => foldl add_secondary r sec) (rp_rec c) (recs c)) (caprec c))
      else region GK_EXEC 0 0 (Z.of_nat (length sec)) 0 0
  end.

Definition gt_CmdBindPipeline (bp p : Z) : M cst () :=
  _ ← emit (INext (CmdBindPipeline bp p));
  s ← getcb;
  match s with
  | None => mret tt
  | Some c =>
      if bp =? BIND_POINT_GRAPHICS then put (set_bound c p (cs c) (cset c))
      else if bp =? BIND_POINT_COMPUTE then put (set_bound c (gfx c) p (cset c))
      else mret tt
  end.
Definition gt_CmdBindDescriptorSets (bp first : Z) (sets : list Z) : M cst () :=
  _ ← emit (INext (CmdBindDescriptorSets bp first sets));
  s ← getcb;
  match s with
  | Some c => if bp =? BIND_POINT_COMPUTE then put (set_bound c (gfx c) (cs c) (bind_sets (Z.to_nat first) sets (cset c))) else mret tt
  | None => mret tt
  end.

(** [gt_CmdBeginRenderPass] and [begin_rp2]. *)
Definition gt_CmdBeginRenderPass (v : version) (rp w h : Z) (secondary : bool) : M cst () :=
  qs ← rp_pre;
  _ ← emit (INext (CmdBeginRenderPass v rp w h secondary));
  rp_begin qs rp w h 0 secondary.
Definition gt_CmdEndRenderPass (v : version) : M cst () :=
  _ ← emit (INext (CmdEndRenderPass v)); rp_end.
Definition begin_rendering (khr : bool) (w h ncolor : Z) (depth secondary : bool) : M cst () :=
  qs ← rp_pre;
  _ ← emit (INext (CmdBeginRendering khr w h ncolor depth secondary));
  rp_begin qs 0 w h (u32 (ncolor + if depth then 1 else 0)) secondary.
Definition gt_CmdEndRendering (khr : bool) : M cst () :=
  _ ← emit (INext (CmdEndRendering khr)); rp_end.

Definition gt_CmdDraw (name : string) : M cst () :=
  _ ← emit (INext (CmdDraw name));
  match assoc draw_table name with Some k => after_draw k | None => mret tt end.
Definition cs_of (s : option gt_cb) : Z := match s with Some c => cs c | None => 0 end.
Definition gt_CmdDispatch (name : string) (x y z : Z) : M cst () :=
  _ ← emit (INext (CmdDispatch name x y z)); s ← getcb; region GK_DISPATCH 0 (cs_of s) x y z.
Definition gt_CmdDispatchIndirect : M cst () :=
  _ ← emit (INext CmdDispatchIndirect); s ← getcb; region GK_DISPATCH 0 (cs_of s) 0 0 0.
Definition gt_CmdXfer (name : string) : M cst () :=
  _ ← emit (INext (CmdXfer name));
  match assoc xfer_table name with Some op => region GK_XFER op 0 0 0 0 | None => mret tt end.

Definition gt_cmd (c : cmd) : M cst () :=
  match c with
  | CmdBindPipeline bp p => gt_CmdBindPipeline bp p
  | CmdBindDescriptorSets bp first sets => gt_CmdBindDescriptorSets bp first sets
  | CmdBeginRenderPass v rp w h s => gt_CmdBeginRenderPass v rp w h s
  | CmdEndRenderPass v => gt_CmdEndRenderPass v
  | CmdBeginRendering khr w h n d s => begin_rendering khr w h n d s
  | CmdEndRendering khr => gt_CmdEndRendering khr
  | CmdDraw name => gt_CmdDraw name
  | CmdDispatch name x y z => gt_CmdDispatch name x y z
  | CmdDispatchIndirect => gt_CmdDispatchIndirect
  | CmdXfer name => gt_CmdXfer name
  | CmdExecuteCommands sec => gt_CmdExecuteCommands sec
  end.
End Recorder.

(** ** Begin and end *)

(** [while (c->npools < want)]: until a creation fails. *)
Fixpoint create_pools (fuel : nat) (create : nat -> option Z) (i : nat) (l : list Z) : list Z :=
  match fuel with
  | O => l
  | S fuel => match create i with Some q => create_pools fuel create (S i) (l ++ [q]) | None => l end
  end.
Definition pools_wanted (c : gt_cb) : Z := Z.min ((want_q c + GT_QP_SIZE - 1) / GT_QP_SIZE) GT_MAXPOOLS.
Definition grow_pools (create : nat -> option Z) (c : gt_cb) : list Z :=
  create_pools (Z.to_nat (pools_wanted c - npools c)) create 0 (qp c).

(** After the harvest, once the next layer has begun the command buffer. *)
Definition fresh_recording (c : gt_cb) : gt_cb :=
  mk_cb (primary c) (primary c) false false (submitted c) (qp c) (nq c) GT_NOQ (want_q c) false (recs c) (caprec c) (rp_rec c)
    0 0 (replicate 8 0) 0 0.
Definition begin_recording (create : nat -> option Z) (c : gt_cb) : M cst () :=
  let c := fresh_recording c in
  if negb (active c) then put c
  else
  let l := grow_pools create c in
  if bool_decide (l = []) then put (set_pools c false l)
  else
  _ ← put (set_pools c true l);
  _ ← modS (fun s => mk_cst (cb s) (out s ++ ((fun p => IReset p 0 GT_QP_SIZE) <$> l)));
  _ ← ts;
  mret tt.

(** [gt_EndCommandBuffer]: whether an overflow is counted, and the pools wanted
    by the next recording. *)
Definition end_recording (c : gt_cb) : bool * gt_cb :=
  if active c then
    if overflow c then (true, set_want c (u32 (npools c * GT_QP_SIZE * 2)))
    else (false, if want_q c <? nq c + 64 then set_want c (u32 (nq c + 64)) else c)
  else (false, c).

(** ** The time line of a recording *)

Definition top_kind (k : gt_kind) : bool := match k with GK_DRAW | GK_CLEAR_ATT => false | _ => true end.
Definition is_top (r : gt_rec) : bool := top_kind (kind r).
Definition before (x y : gt_rec) : Prop := qe x <= qs y.
Definition tops (l : list gt_rec) : list gt_rec := filter (fun r => is_top r = true) l.
Definition drawn (l : list gt_rec) : list gt_rec := filter (fun r => is_top r = false) l.

(** A region lies between two stamps already written; only a render pass can
    be without its end. *)
Definition rec_at (last : Z) (r : gt_rec) : Prop :=
  0 <= qs r <= last /\ (qs r < qe r <= last \/ kind r = GK_RP /\ qe r = GT_NOQ).
Definition within (y d : gt_rec) : Prop := kind y = GK_RP /\ qs y <= qs d /\ qe d <= qe y.

Record timeline (l : list gt_rec) (last : Z) : Prop := {
  tl_rec : Forall (rec_at last) l;
  tl_tops : StronglySorted before (tops l);
  tl_drawn : StronglySorted before (drawn l);
  tl_within d : d ∈ drawn l -> exists y, y ∈ l /\ within y d;
}.

Lemma rec_at_mono a b r : a <= b -> rec_at a r -> rec_at b r.
Proof. unfold rec_at. intros ? [? ?]. split; [lia|]. destruct H1; [left; lia|by right]. Qed.
Lemma timeline_mono l a b : a <= b -> timeline l a -> timeline l b.
Proof.
  intros H [A B C D]. constructor; try done. eapply Forall_impl; [exact A|]. intros r. by apply rec_at_mono.
Qed.
Lemma timeline_nil last : timeline [] last.
Proof. constructor; [constructor|constructor|constructor|set_solver]. Qed.

Lemma sorted_snoc {A} (R : A -> A -> Prop) l x : StronglySorted R l -> (forall y, y ∈ l -> R y x) -> StronglySorted R (l ++ [x]).
Proof.
  intros S H. apply StronglySorted_app_2; [|done|repeat constructor]. intros a b Ha ->%list_elem_of_singleton. by apply H.
Qed.

Lemma timeline_top l last x :
  timeline l last -> is_top x = true -> rec_at last x -> (forall y, y ∈ tops l -> before y x) -> timeline (l ++ [x]) last.
Proof.
  intros [A B C D] T R H. unfold tops, drawn in *. constructor.
  - apply Forall_app. split; [done|by constructor].
  - unfold tops. rewrite filter_app, filter_cons_True, filter_nil by done. by apply sorted_snoc.
  - unfold drawn. rewrite filter_app, (filter_cons_False _ x), filter_nil, app_nil_r by congruence. done.
  - intros d. unfold drawn. rewrite filter_app, (filter_cons_False _ x), filter_nil, app_nil_r by congruence.
    intros (y & Hy & W)%D. exists y. set_solver.
Qed.
Lemma timeline_draw l last x y :
  timeline l last -> is_top x = false -> rec_at last x -> (forall d, d ∈ drawn l -> before d x) -> y ∈ l -> within y x -> timeline (l ++ [x]) last.
Proof.
  intros [A B C D] T R H Hy W. constructor.
  - apply Forall_app. split; [done|by constructor].
  - unfold tops in *. rewrite filter_app, (filter_cons_False _ x), filter_nil, app_nil_r by congruence. done.
  - unfold drawn in *. rewrite filter_app, filter_cons_True, filter_nil by done. by apply sorted_snoc.
  - intros d. unfold drawn in *. rewrite filter_app, filter_cons_True, filter_nil by done.
    intros [(y' & Hy' & W')%D| ->%list_elem_of_singleton]%elem_of_app; [exists y'; set_solver|exists y; set_solver].
Qed.

(** The open render pass gets its draws, its pipeline and its end. *)
Definition closes (q : Z) (r r' : gt_rec) : Prop := kind r' = kind r /\ qs r' = qs r /\ qe r' = q.
Lemma timeline_update pre r r' ds last q :
  timeline (pre ++ r :: ds) last -> kind r = GK_RP -> qe r = GT_NOQ -> closes q r r' -> Forall (fun d => is_top d = false) ds ->
  last < GT_NOQ -> (q = GT_NOQ \/ qs r < q <= last /\ forall d, d ∈ drawn (pre ++ r :: ds) -> qe d <= q) ->
  timeline (pre ++ r' :: ds) last.
Proof.
  intros [A B C D] K E (Ek & Eq & Ee) F Hl Hq.
  assert (Tr : is_top r = true) by (unfold is_top; by rewrite K). assert (Tr' : is_top r' = true) by (unfold is_top; by rewrite Ek, K).
  assert (Fd : filter (fun d => is_top d = true) ds = []).
  { clear -F. induction F as [|d ds Hd F IH]; [done|]. by rewrite filter_cons_False by congruence. }
  assert (Ed : drawn (pre ++ r' :: ds) = drawn (pre ++ r :: ds)).
  { unfold drawn. rewrite !filter_app. f_equal. by rewrite !filter_cons_False by congruence. }
  apply Forall_app in A as [Ap Ar]. apply Forall_cons in Ar as [Ar Ad]. constructor.
  - apply Forall_app. split; [done|]. constructor; [|done]. destruct Ar as [Ar _]. split; [by rewrite Eq|]. rewrite Eq, Ee, Ek.
    destruct Hq as [->|[? _]]; [by right|by left].
  - unfold tops in *. rewrite filter_app, filter_cons_True, Fd in B |- * by done.
    apply StronglySorted_app in B as (B1 & B2 & _). apply sorted_snoc; [done|]. intros y Hy. unfold before. rewrite Eq. apply (B1 y r Hy). set_solver.
  - by rewrite Ed.
  - rewrite Ed. intros d Hd. destruct (D d Hd) as (y & Hy & Wk & Ws & We). apply elem_of_app in Hy as [Hy|[->|Hy]%elem_of_cons].
    + exists y. split; [set_solver|done].
    + exists r'. split; [set_solver|]. unfold within. rewrite Ek, Eq, Ee. split; [done|]. split; [done|].
      destruct Hq as [->|[_ Hq]]; [lia|by apply Hq].
    + exists y. split; [set_solver|done].
Qed.

(** ** Invariants *)

Definition rec_range (r : gt_rec) : Prop := is_u32 (draws r).

(** What holds of every record of a command buffer. *)
Record shape (c : gt_cb) : Prop := {
  sh_pools : (length (qp c) <= 8)%nat;
  sh_nq : 0 <= nq c <= npools c * GT_QP_SIZE;
  sh_cap : Z.of_nat (length (recs c)) <= caprec c <= 65536 /\ (caprec c = 0 \/ 256 <= caprec c);
  sh_nrec : Z.of_nat (length (recs c)) <= nq c;
  sh_rp : in_rp c = true -> Z.of_nat (rp_rec c) < caprec c;
  sh_want : 0 < want_q c <= 65536;
  sh_cset : length (cset c) = 8%nat;
  sh_recs : Forall rec_range (recs c);
  sh_draws : is_u32 (cb_draws c);
  sh_active : active c = true -> qp c <> [];
}.

Definition complete (r : gt_rec) : Prop := qe r <> GT_NOQ.
Definition full (c : gt_cb) : Prop := nq c = npools c * GT_QP_SIZE.

(** The open render pass: everything before it is complete, after it only
    draws. *)
Definition open_at (l : list gt_rec) (i : nat) : Prop :=
  exists pre r ds, l = pre ++ r :: ds /\ length pre = i /\ kind r = GK_RP /\ qe r = GT_NOQ /\
    Forall complete pre /\ Forall (fun d => is_top d = false) ds.

(** What holds between a begin that succeeded and the end. *)
Record recording (c : gt_cb) : Prop := {
  re_primary : active c = true -> primary c = true;
  re_idle : active c = false -> in_rp c = false /\ nq c = 0 /\ recs c = [];
  re_last : active c = true -> 1 <= nq c /\ last_q c = nq c - 1 /\ Z.of_nat (length (recs c)) < nq c;
  re_line : timeline (recs c) (nq c - 1);
  re_open : in_rp c = true -> open_at (recs c) (rp_rec c);
  re_closed : in_rp c = false -> Forall complete (recs c) \/ full c;
}.

(** ** The stream *)

Definition nexts (l : list icmd) : list cmd := omap (fun e => match e with INext c => Some c | _ => None end) l.
Definition is_stamp (e : icmd) : bool := match e with IStamp _ _ => true | _ => false end.
Definition is_reset (e : icmd) : bool := match e with IReset _ _ _ => true | _ => false end.
(** The [k]-th timestamp of a recording. *)
Definition stamp_at (pools : list Z) (k : Z) : icmd := IStamp (nth (Z.to_nat (k / GT_QP_SIZE)) pools 0) (k mod GT_QP_SIZE).

(** First a reset of each whole pool, then no reset; the timestamps use the
    queries of the pools one after the other, each once. *)
Definition stream (c : gt_cb) (l : list icmd) : Prop :=
  exists rest, l = (if active c then (fun p => IReset p 0 GT_QP_SIZE) <$> qp c else []) ++ rest /\
    Forall (fun e => is_reset e = false) rest /\
    filter (fun e => is_stamp e = true) rest = stamp_at (qp c) <$> seqZ 0 (nq c).

(** Inside a render pass instance, and with which contents. *)
Definition rp_step (st : option bool) (c : cmd) : option bool :=
  match c with
  | CmdBeginRenderPass _ _ _ _ s | CmdBeginRendering _ _ _ _ _ s => Some s
  | CmdEndRenderPass _ | CmdEndRendering _ => None
  | _ => st
  end.
Definition rp_of (l : list icmd) : option bool := foldl rp_step None (nexts l).
(** The application's side of the bargain: what Vulkan allows where. *)
Definition legal (st : option bool) (c : cmd) : Prop :=
  match c with
  | CmdBeginRenderPass _ _ _ _ _ | CmdBeginRendering _ _ _ _ _ _ | CmdDispatch _ _ _ _ | CmdDispatchIndirect | CmdXfer _ => st = None
  | CmdEndRenderPass _ | CmdEndRendering _ | CmdDraw _ => is_Some st
  | CmdExecuteCommands _ => st <> Some false
  | CmdBindPipeline _ _ | CmdBindDescriptorSets _ _ _ => True
  end.
(** Where a timestamp may be written: never where the contents are secondary
    command buffers, and only outside of render passes below level 2. *)
Definition allowed (level : Z) (st : option bool) : Prop := st <> Some true /\ (level < 2 -> st = None).
Definition stamps_ok (level : Z) (l : list icmd) : Prop :=
  forall pre e post, l = pre ++ e :: post -> is_stamp e = true -> allowed level (rp_of pre).

(** The recorder knows where the application is, unless it ran out of queries. *)
Record tracks (level : Z) (c : gt_cb) (l : list icmd) : Prop := {
  tr_in b : rp_of l = Some b -> in_rp c = true /\ rp_secondary c = b \/ in_rp c = false /\ (full c \/ active c = false);
  tr_out : rp_of l = None -> in_rp c = false;
  tr_stamps : stamps_ok level l;
}.

Lemma nexts_app l k : nexts (l ++ k) = nexts l ++ nexts k.
Proof. apply omap_app. Qed.
Lemma rp_of_next l c : rp_of (l ++ [INext c]) = rp_step (rp_of l) c.
Proof. unfold rp_of. rewrite nexts_app. cbn [nexts omap list_omap]. by rewrite foldl_app. Qed.
Lemma rp_of_stamp l p q : rp_of (l ++ [IStamp p q]) = rp_of l.
Proof. unfold rp_of. rewrite nexts_app. cbn [nexts omap list_omap]. by rewrite app_nil_r. Qed.
Lemma nexts_stamp l p q : nexts (l ++ [IStamp p q]) = nexts l.
Proof. rewrite nexts_app. cbn [nexts omap list_omap]. by rewrite app_nil_r. Qed.
Lemma nexts_next l c : nexts (l ++ [INext c]) = nexts l ++ [c].
Proof. by rewrite nexts_app. Qed.

Lemma stamps_ok_snoc level l e : stamps_ok level l -> (is_stamp e = true -> allowed level (rp_of l)) -> stamps_ok level (l ++ [e]).
Proof.
  intros S H pre x post E Hx. destruct (decide (post = [])) as [->|N].
  - apply app_inj_tail in E as [-> ->]. by apply H.
  - destruct (exists_last N) as (post' & y & ->). rewrite app_comm_cons, app_assoc in E. apply app_inj_tail in E as [-> ->]. by eapply S.
Qed.

Definition inv (c : gt_cb) (l : list icmd) : Prop := shape c /\ recording c /\ stream c l.

Definition stamped (c : gt_cb) : gt_cb := set_queries c (nq c + 1) (nq c) (overflow c).
Definition over (c : gt_cb) : gt_cb := set_queries c (nq c) (last_q c) true.

Lemma stream_next c l x : stream c l -> stream c (l ++ [INext x]).
Proof.
  intros (rest & -> & R & S). exists (rest ++ [INext x]). split; [by rewrite app_assoc|]. split; [apply Forall_app; split; [done|by constructor]|].
  rewrite filter_app, S. cbn. by rewrite app_nil_r.
Qed.
Lemma stream_stamp c l : 0 <= nq c -> stream c l -> stream (stamped c) (l ++ [stamp_at (qp c) (nq c)]).
Proof.
  intros H (rest & -> & R & S). exists (rest ++ [stamp_at (qp c) (nq c)]). split; [by rewrite app_assoc|].
  split; [apply Forall_app; split; [done|by constructor]|]. rewrite filter_app, S. cbn [stamped set_queries nq qp].
  rewrite seqZ_app by lia. by rewrite fmap_app.
Qed.
(** Only the pools and the number of stamps count. *)
Lemma stream_same c c' l : active c' = active c -> qp c' = qp c -> nq c' = nq c -> stream c l -> stream c' l.
Proof. unfold stream. by intros -> -> ->. Qed.

Lemma inv_next c l x : inv c l -> inv c (l ++ [INext x]).
Proof. intros (A & B & C). split; [done|]. split; [done|by apply stream_next]. Qed.
Lemma inv_over c l : inv c l -> inv (over c) l.
Proof. intros (A & B & C). split; [by destruct A|]. split; [by destruct B|done]. Qed.
Lemma inv_stamp c l : inv c l -> active c = true -> ~ full c -> inv (stamped c) (l ++ [stamp_at (qp c) (nq c)]).
Proof.
  intros (A & B & C) Ha Hf. pose proof (sh_nq c A) as Hq. pose proof (sh_nrec c A). unfold full in Hf.
  split; [|split; [|by apply stream_stamp; [lia|]]].
  - destruct A. constructor; cbn [stamped set_queries qp nq recs caprec in_rp rp_rec want_q cset cb_draws]; try done;
      unfold npools in *; cbn [stamped set_queries qp]; lia.
  - destruct B as [P I L T O Cl]. constructor; cbn [stamped set_queries active primary in_rp nq recs last_q rp_rec]; try done.
    + congruence.
    + intros _. destruct (L Ha) as (? & ? & ?). lia.
    + eapply timeline_mono; [|exact T]. lia.
    + intros Hr. left. by destruct (Cl Hr).
Qed.

Lemma push_spec mem x c c' :
  shape c -> Z.of_nat (length (recs c)) < nq c -> rec_range x -> push mem x c = Some c' ->
  exists cap, c' = set_recs c (recs c ++ [x]) cap /\ shape c'.
Proof.
  intros S Hn Hx. pose proof S as [A B [C1 C2] D E F G H I J]. unfold push, npools, GT_QP_SIZE in *.
  assert (K : forall cap, Z.of_nat (length (recs c)) + 1 <= cap -> cap <= 65536 -> 256 <= cap -> caprec c <= cap ->
    shape (set_recs c (recs c ++ [x]) cap)).
  { intros cap H1 H2 H3 H4. constructor; cbn [set_recs qp nq recs caprec in_rp rp_rec want_q cset cb_draws]; try done.
    - rewrite length_app. simpl. lia.
    - rewrite length_app. simpl. lia.
    - intros R. specialize (E R). lia.
    - apply Forall_app. split; [done|by constructor]. }
  destruct (Z.eqb_spec (Z.of_nat (length (recs c))) (caprec c)) as [Ec|Ec].
  - destruct mem; [|done]. intros [= <-]. eexists. split; [done|]. destruct (Z.eqb_spec (caprec c) 0); [apply K; lia|].
    rewrite u32_id by (unfold is_u32; lia). apply K; lia.
  - intros [= <-]. eexists. split; [done|]. apply K; lia.
Qed.
Lemma push_mem x c : is_Some (push true x c).
Proof. unfold push. by destruct (_ =? _). Qed.

(** A region that ends at the last stamp, none being open. *)
Definition ends_now (c : gt_cb) (x : gt_rec) : Prop := qs x < qe x /\ 0 <= qs x /\ qe x = nq c - 1.
(** Everything recorded before the stamp [q]. *)
Definition all_before (l : list gt_rec) (q : Z) : Prop := forall y, y ∈ l -> qe y <= q.

Lemma recording_before c : recording c -> Forall complete (recs c) -> all_before (recs c) (nq c - 1).
Proof.
  intros R F y Hy. pose proof (tl_rec _ _ (re_line c R)) as T. rewrite Forall_forall in T, F.
  destruct (T y Hy) as [_ [?|[_ E]]]; [lia|]. by apply F in Hy.
Qed.

Lemma inv_push_region mem c l x c' :
  inv c l -> active c = true -> in_rp c = false -> Z.of_nat (length (recs c)) + 1 < nq c -> Forall complete (recs c) ->
  is_top x = true -> ends_now c x -> all_before (recs c) (qs x) -> rec_range x -> push mem x c = Some c' -> inv c' l.
Proof.
  intros (A & B & C) Ha Hr Hn Hc Ht (H1 & H2 & H3) Hb Hx E. destruct (push_spec mem x c c' A ltac:(lia) Hx E) as (cap & -> & S).
  split; [done|]. split; [|by apply (stream_same c)]. pose proof (sh_nq c A). pose proof (sh_pools c A). unfold npools, GT_QP_SIZE in *.
  assert (Hq : qe x <> GT_NOQ) by (unfold GT_NOQ, UINT32_MAX; lia).
  destruct B as [P I L T O Cl]. constructor; cbn [set_recs active primary in_rp nq recs last_q rp_rec]; try done; [congruence| | |congruence|].
  - intros _. destruct (L Ha) as (? & ? & ?). rewrite length_app. simpl. lia.
  - apply timeline_top; try done; [split; [lia|left; lia]|]. intros y [_ Hy]%list_elem_of_filter. by apply Hb.
  - intros _. left. apply Forall_app. split; [done|by constructor].
Qed.

Lemma inv_push_open mem c l x c' sec :
  inv c l -> active c = true -> in_rp c = false -> Z.of_nat (length (recs c)) + 1 < nq c -> Forall complete (recs c) ->
  kind x = GK_RP -> qe x = GT_NOQ -> qs x = nq c - 1 -> all_before (recs c) (qs x) -> rec_range x -> push mem x c = Some c' ->
  inv (set_rp c' true sec (length (recs c') - 1)) l.
Proof.
  intros (A & B & C) Ha Hr Hn Hc Hk He Hs Hb Hx E. destruct (push_spec mem x c c' A ltac:(lia) Hx E) as (cap & -> & S).
  pose proof (sh_nq c A). cbn [set_recs recs]. rewrite length_app. simpl length. rewrite Nat.add_sub.
  split; [|split; [|by apply (stream_same c)]].
  - destruct S as [S1 S2 S3 S4 _ S6 S7 S8 S9 S10]. constructor; try done. cbn [set_rp set_recs caprec rp_rec recs] in *. rewrite length_app in S3. simpl in S3. lia.
  - destruct B as [P I L T O Cl]. constructor; cbn [set_rp set_recs active primary in_rp nq recs last_q rp_rec]; try done; [congruence| | |].
    + intros _. destruct (L Ha) as (? & ? & ?). rewrite length_app. simpl. lia.
    + apply timeline_top; [done|unfold is_top; by rewrite Hk|split; [lia|by right]|]. intros y [_ Hy]%list_elem_of_filter. by apply Hb.
    + intros _. exists (recs c), x, []. by repeat split.
Qed.

Lemma inv_push_draw mem c l x c' :
  inv c l -> active c = true -> in_rp c = true -> Z.of_nat (length (recs c)) + 1 < nq c ->
  is_top x = false -> ends_now c x -> (forall y, y ∈ recs c -> qs y <= qs x) -> all_before (drawn (recs c)) (qs x) -> rec_range x ->
  push mem x c = Some c' -> inv c' l.
Proof.
  intros (A & B & C) Ha Hr Hn Ht (H1 & H2 & H3) Hq Hb Hx E. destruct (push_spec mem x c c' A ltac:(lia) Hx E) as (cap & -> & S).
  split; [done|]. split; [|by apply (stream_same c)]. pose proof (sh_nq c A). pose proof (sh_pools c A). unfold npools, GT_QP_SIZE in *.
  destruct B as [P I L T O Cl]. destruct (O Hr) as (pre & r & ds & Er & Hl & Hk & He & Hp & Hd).
  constructor; cbn [set_recs active primary in_rp nq recs last_q rp_rec]; try done; [congruence| | | |congruence].
  - intros _. destruct (L Ha) as (? & ? & ?). rewrite length_app. simpl. lia.
  - apply (timeline_draw _ _ _ r); try done; [split; [lia|left; lia]|rewrite Er; set_solver|].
    split; [done|]. split; [apply Hq; rewrite Er; set_solver|]. rewrite He. unfold GT_NOQ, UINT32_MAX. lia.
  - intros _. exists pre, r, (ds ++ [x]). rewrite Er, <- app_assoc. repeat split; try done. apply Forall_app. split; [done|by constructor].
Qed.

(** The open render pass is changed in place. *)
Lemma inv_update c l f :
  inv c l -> in_rp c = true -> (forall r, closes (qe r) r (f r)) -> (forall r, rec_range r -> rec_range (f r)) ->
  inv (set_recs c (alter f (rp_rec c) (recs c)) (caprec c)) l.
Proof.
  intros (A & B & C) Hr Hf Hrr. split; [|split; [|by apply (stream_same c)]].
  - destruct A. constructor; cbn [set_recs qp nq recs caprec in_rp rp_rec want_q cset cb_draws]; rewrite ?length_alter; try done.
    apply Forall_alter; [done|]. intros x _. apply Hrr.
  - destruct B as [P I L T O Cl]. destruct (O Hr) as (pre & r & ds & Er & Hl & Hk & He & Hp & Hd).
    assert (Ea : alter f (rp_rec c) (recs c) = pre ++ f r :: ds) by (rewrite Er, <- Hl, alter_app_r_alt, Nat.sub_diag by lia; done).
    destruct (Hf r) as (Fk & Fs & Fe). pose proof (sh_nq c A) as Hn. pose proof (sh_pools c A) as Hp8. unfold npools, GT_QP_SIZE in Hn.
    constructor; cbn [set_recs active primary in_rp nq recs last_q rp_rec]; rewrite ?length_alter; try done.
    + intros Ha; destruct (I Ha); congruence.
    + rewrite Ea. rewrite Er in T. apply (timeline_update pre r (f r) ds _ GT_NOQ T Hk He); [by rewrite <- He|done| |by left].
      unfold GT_NOQ, UINT32_MAX. lia.
    + intros _. rewrite Ea. exists pre, (f r), ds. repeat split; try done; congruence.
    + congruence.
Qed.

(** The end of the render pass: its stamp, or [GT_NOQ] when no query is left. *)
Definition ended (c : gt_cb) (q : Z) : gt_cb :=
  set_recs c (alter (with_qe q) (rp_rec c) (recs c)) (caprec c).
Definition left_rp (c : gt_cb) : gt_cb := set_rp c false (rp_secondary c) (rp_rec c).

Lemma inv_end c l :
  inv c l -> active c = true -> in_rp c = true ->
  (full c -> inv (ended (over (left_rp c)) GT_NOQ) l) /\
  (~ full c -> inv (ended (stamped (left_rp c)) (nq c)) (l ++ [stamp_at (qp c) (nq c)])).
Proof.
  intros J Ha Hr. destruct J as (A & B & C).
  pose proof (sh_nq c A) as Hn. pose proof (sh_pools c A) as Hp8. pose proof B as [P I L T O Cl].
  destruct (O Hr) as (pre & r & ds & Er & Hl & Hk & He & Hp & Hd). destruct (L Ha) as (L1 & L2 & L3). pose proof (sh_nrec c A).
  assert (Hq : nq c < GT_NOQ) by (unfold npools, GT_QP_SIZE, GT_NOQ, UINT32_MAX in *; lia).
  assert (Ea : forall q, alter (with_qe q) (rp_rec c) (recs c) = pre ++ with_qe q r :: ds)
    by (intros q; rewrite Er, <- Hl, alter_app_r_alt, Nat.sub_diag by lia; done).
  assert (Sh : forall q n la ov, 0 <= n <= npools c * GT_QP_SIZE -> Z.of_nat (length (recs c)) <= n ->
    shape (ended (set_queries (left_rp c) n la ov) q)).
  { intros q n la ov H1 H2. destruct A. constructor; cbn; rewrite ?length_alter; try done. apply Forall_alter; done. }
  assert (Dr : forall d, d ∈ ds -> complete d).
  { intros d Hd' E. pose proof (tl_rec _ _ T) as Tr. rewrite Forall_forall in Tr, Hd. specialize (Hd d Hd').
    destruct (Tr d) as [_ [?|[K _]]]; [rewrite Er; set_solver|lia|]. unfold is_top in Hd. by rewrite K in Hd. }
  assert (Dq : forall d, d ∈ drawn (pre ++ r :: ds) -> qe d <= nq c - 1).
  { intros d [Hd1 Hd2]%list_elem_of_filter. pose proof (tl_rec _ _ T) as Tr. rewrite Forall_forall, Er in Tr.
    destruct (Tr d Hd2) as [_ [?|[K _]]]; [lia|]. unfold is_top in Hd1. by rewrite K in Hd1. }
  split; intros Hf.
  - split; [by apply Sh|]. split; [|by apply (stream_same c)].
    constructor; cbn [ended over left_rp set_recs set_queries set_rp active primary in_rp nq recs last_q rp_rec]; rewrite ?length_alter; try done.
    + congruence.
    + rewrite Ea. rewrite Er in T. apply (timeline_update pre r _ ds _ GT_NOQ T Hk He); [done|done|lia|by left].
    + intros _. by right.
  - unfold full in Hf. split; [apply (Sh (nq c) (nq c + 1) (nq c) (overflow c)); lia|]. split; [|by apply (stream_same (stamped c)); [..|apply stream_stamp; [lia|]]].
    constructor; cbn [ended stamped left_rp set_recs set_queries set_rp active primary in_rp nq recs last_q rp_rec]; rewrite ?length_alter; try done.
    + congruence.
    + intros _. lia.
    + replace (nq c + 1 - 1) with (nq c) by lia. rewrite Ea. apply (timeline_mono _ _ (nq c)) in T; [|lia]. rewrite Er in T.
      pose proof (tl_rec _ _ (re_line c B)) as Tr. rewrite Er in Tr. apply Forall_app in Tr as [_ [[Hqs _] _]%Forall_cons].
      apply (timeline_update pre r _ ds _ (nq c) T Hk He); [done|done|lia|]. right. split; [lia|]. intros d Hd'. specialize (Dq d Hd'). lia.
    + intros _. left. rewrite Ea. apply Forall_app. split; [done|]. constructor; [unfold complete; cbn; lia|]. by apply Forall_forall.
Qed.

(** ** Commands *)

Lemma wp_getcb s Q : Q (cb s) s -> wp getcb Q s.
Proof. done. Qed.
Lemma wp_put c s (Q : () -> cst -> Prop) : Q tt (mk_cst (Some c) (out s)) -> wp (put c) Q s.
Proof. done. Qed.
Lemma wp_emit e s (Q : () -> cst -> Prop) : Q tt (mk_cst (cb s) (out s ++ [e])) -> wp (emit e) Q s.
Proof. done. Qed.
Ltac wstep :=
  repeat lazymatch goal with
  | |- wp (mbind _ _) _ _ => apply wp_bind
  | |- wp getcb _ _ => apply wp_getcb
  | |- wp (put _) _ _ => apply wp_put
  | |- wp (emit _) _ _ => apply wp_emit
  end; cbn [cb out].

Lemma wp_ts c l Q :
  inv c l -> active c = true ->
  (full c -> Q GT_NOQ (mk_cst (Some (over c)) l)) ->
  (~ full c -> Q (nq c) (mk_cst (Some (stamped c)) (l ++ [stamp_at (qp c) (nq c)]))) ->
  wp ts Q (mk_cst (Some c) l).
Proof.
  intros (A & _ & _) Ha Hf Hs. pose proof (sh_nq c A). unfold ts. wstep. rewrite Ha. cbn [negb].
  destruct (Z.leb_spec (npools c * GT_QP_SIZE) (nq c)).
  - apply Hf. unfold full. lia.
  - apply Hs. unfold full. lia.
Qed.
Section Commands.
Context (level : Z) (o : objects) (look : Z -> option gt_cb) (mem : bool).

(** [v]: the application has kept the rules so far, and memory never ran out. *)
Definition good (v : Prop) (pools : list Z) (cmds : list cmd) (s : cst) : Prop :=
  exists c, cb s = Some c /\ inv c (out s) /\ qp c = pools /\ nexts (out s) = cmds /\ (v -> tracks level c (out s)).

Lemma good_intro (v : Prop) c l pools cmds :
  inv c l -> qp c = pools -> nexts l = cmds -> (v -> tracks level c l) -> good v pools cmds (mk_cst (Some c) l).
Proof. by exists c. Qed.

Lemma tracks_keep c c' l :
  tracks level c l -> in_rp c' = in_rp c -> rp_secondary c' = rp_secondary c -> active c' = active c -> (full c -> full c') -> tracks level c' l.
Proof. intros [A B C] E1 E2 E3 F. constructor; rewrite ?E1, ?E2, ?E3; try done. intros b Hb. destruct (A b Hb) as [?|[? [?|?]]]; auto. Qed.
Lemma tracks_stamp c c' l q p :
  tracks level c l -> active c = true -> ~ full c -> allowed level (rp_of l) -> in_rp c' = in_rp c -> rp_secondary c' = rp_secondary c ->
  tracks level c' (l ++ [IStamp p q]).
Proof.
  intros [A B C] Ha Hf Hl E1 E2. constructor.
  - intros b. rewrite rp_of_stamp, E1, E2. intros Hb. destruct (A b Hb) as [?|[_ [?|?]]]; [auto|done|congruence].
  - by rewrite rp_of_stamp, E1.
  - by apply stamps_ok_snoc.
Qed.
Lemma tracks_next c l x : tracks level c l -> rp_step (rp_of l) x = rp_of l -> tracks level c (l ++ [INext x]).
Proof. intros [A B C] E. constructor; rewrite ?rp_of_next, ?E; try done. by apply stamps_ok_snoc. Qed.

Lemma wp_region (v : Prop) c l k op p x y z :
  inv c l -> (v -> tracks level c l /\ rp_of l <> Some false) -> top_kind k = true ->
  wp (region o mem k op p x y z) (fun _ => good v (qp c) (nexts l)) (mk_cst (Some c) l).
Proof.
  intros J Hv Hk. unfold region. wstep. destruct (active c) eqn:Ha, (in_rp c) eqn:Hr; cbn [negb orb];
    try (apply wp_ret; apply good_intro; [done..|]; intros Hv'; by apply Hv).
  pose proof J as (A & B & C). destruct (re_last c B Ha) as (L1 & L2 & L3). pose proof (sh_nq c A) as Hq. pose proof (sh_pools c A) as Hp.
  unfold npools, GT_QP_SIZE in Hq. wstep. apply wp_ts; [done|done| |].
  - intros Hf. rewrite Z.eqb_refl. apply wp_ret. apply good_intro; [by apply inv_over|done..|].
    intros Hv'. by apply (tracks_keep c); [apply Hv|..].
  - intros Hf. destruct (Z.eqb_spec (nq c) GT_NOQ) as [E|_]; [unfold GT_NOQ, UINT32_MAX in E; lia|]. wstep. cbn [stamped set_queries].
    assert (Js := inv_stamp c l J Ha Hf). assert (Fc : Forall complete (recs c)) by (by destruct (re_closed c B Hr)).
    assert (Al : v -> allowed level (rp_of l)).
    { intros Hv'. destruct (Hv Hv') as [T N]. destruct (rp_of l) as [[]|] eqn:E; [|done|by split].
      exfalso. destruct (tr_in _ _ _ T true E) as [[? _]|[_ [?|?]]]; congruence. }
    destruct (push _ _ _) as [c'|] eqn:E.
    + apply wp_put. cbn [out]. assert (Ec : in_rp c' = in_rp c /\ rp_secondary c' = rp_secondary c /\ qp c' = qp c).
      { unfold push in E. repeat case_match; simplify_eq; done. }
      destruct Ec as (E1 & E2 & E3). apply good_intro; [|done|apply nexts_stamp|].
      { refine (inv_push_region mem (stamped c) _ _ c' Js Ha Hr _ Fc _ _ _ _ E); cbn [stamped set_queries recs nq]; [lia|done| | |done].
        - split; cbn; lia.
        - intros r Hy. cbn [qs]. rewrite L2. by apply (recording_before c). }
      intros Hv'. apply (tracks_stamp c); try done; [by apply Hv|by apply Al].
    + apply wp_ret. apply good_intro; [done|done|apply nexts_stamp|].
      intros Hv'. apply (tracks_stamp c); try done; [by apply Hv|by apply Al].
Qed.

Lemma inv_drawn c l first n : inv c l -> is_u32 n -> inv (set_drawn c first n) l.
Proof. intros (A & B & C) Hn. split; [by destruct A|]. split; [by destruct B|done]. Qed.
Lemma inv_bound c l g k sets : inv c l -> length sets = 8%nat -> inv (set_bound c g k sets) l.
Proof. intros (A & B & C) Hn. split; [by destruct A|]. split; [by destruct B|done]. Qed.
Lemma bind_sets_length first sets l : length (bind_sets first sets l) = length l.
Proof. revert first l. induction sets as [|x sets IH]; intros first l; [done|]. cbn [bind_sets]. destruct (_ <? _)%nat; [|done]. by rewrite IH, length_insert. Qed.
Lemma add_draws_closes n p r : closes (qe r) r (add_draws n p r).
Proof. done. Qed.
Lemma add_draws_range n p r : rec_range r -> rec_range (add_draws n p r).
Proof. intros _. apply u32_range. Qed.

Lemma pushed_same x c c' : push mem x c = Some c' -> in_rp c' = in_rp c /\ rp_secondary c' = rp_secondary c /\ qp c' = qp c /\ active c' = active c /\ (full c -> full c').
Proof. unfold push. intros E. repeat case_match; simplify_eq; done. Qed.

Lemma wp_after_draw (v : Prop) c l k :
  inv c l -> (v -> tracks level c l) -> top_kind k = false ->
  wp (after_draw level mem k) (fun _ => good v (qp c) (nexts l)) (mk_cst (Some c) l).
Proof.
  intros J Hv Hk. unfold after_draw. wstep. pose proof J as (A & B & C). destruct (primary c) eqn:Hp; cbn [negb].
  2: { wstep. apply good_intro; [by apply inv_drawn; [|apply u32_range]|done|done|]. intros Hv'. by apply (tracks_keep c); [apply Hv|..]. }
  destruct (in_rp c) eqn:Hr; cbn [negb]; [|apply wp_ret; by apply good_intro].
  assert (Ha : active c = true) by (destruct (active c) eqn:E; [done|]; destruct (re_idle c B E); congruence).
  set (p := match k with GK_DRAW => gfx c | _ => 0 end). set (c1 := set_recs c (alter (add_draws 1 p) (rp_rec c) (recs c)) (caprec c)).
  assert (J1 : inv c1 l) by (apply inv_update; [done|done|apply add_draws_closes|apply add_draws_range]).
  assert (T1 : v -> tracks level c1 l) by (intros Hv'; by apply (tracks_keep c); [apply Hv|..]).
  wstep. destruct (Z.ltb_spec level 2) as [Hl|Hl]; cbn [orb]; [apply wp_ret; by apply good_intro|].
  destruct (rp_secondary c1) eqn:Hs; [apply wp_ret; by apply good_intro|].
  pose proof J1 as (A1 & B1 & C1). destruct (re_last c1 B1 Ha) as (L1 & L2 & L3). pose proof (sh_nq c1 A1) as Hq. pose proof (sh_pools c1 A1) as Hp8.
  unfold npools, GT_QP_SIZE in Hq. wstep. apply wp_ts; [done|done| |].
  - intros Hf. rewrite Z.eqb_refl. apply wp_ret. apply good_intro; [by apply inv_over|done|done|]. intros Hv'. by apply (tracks_keep c1); [apply T1|..].
  - intros Hf. destruct (Z.eqb_spec (nq c1) GT_NOQ) as [E|_]; [unfold GT_NOQ, UINT32_MAX in E; lia|]. wstep.
    assert (Js := inv_stamp c1 l J1 Ha Hf).
    assert (Al : v -> allowed level (rp_of l)).
    { intros Hv'. destruct (rp_of l) as [b|] eqn:E; [|by pose proof (tr_out _ _ _ (T1 Hv') E) as X; cbn in X; congruence].
      destruct (tr_in _ _ _ (T1 Hv') b E) as [[_ <-]|[X _]]; [|cbn in X; congruence]. rewrite Hs. split; [done|lia]. }
    destruct (push _ _ _) as [c'|] eqn:E.
    + apply wp_put. cbn [out]. destruct (pushed_same _ _ _ E) as (E1 & E2 & E3 & E4 & _).
      apply good_intro; [|done|apply nexts_stamp|].
      { assert (Rq : forall r, r ∈ recs c1 -> 0 <= qs r <= nq c1 - 1).
        { intros r Hin. pose proof (tl_rec _ _ (re_line c1 B1)) as Tr. rewrite Forall_forall in Tr. by destruct (Tr r Hin). }
        refine (inv_push_draw mem (stamped c1) _ _ c' Js Ha Hr _ _ _ _ _ _ E); cbn [stamped set_queries recs nq]; [lia|done| | | |done].
        - split; [|split]; cbn [qs qe stamped set_queries nq]; lia.
        - intros r Hin. cbn [qs]. rewrite L2. by apply Rq.
        - intros r [Hd Hin]%list_elem_of_filter. cbn [qs]. rewrite L2. pose proof (tl_rec _ _ (re_line c1 B1)) as Tr. rewrite Forall_forall in Tr.
          destruct (Tr r Hin) as [_ [?|[K _]]]; [lia|]. unfold is_top in Hd. by rewrite K in Hd. }
      intros Hv'. apply (tracks_stamp c1); try done; [by apply T1|by apply Al].
    + apply wp_ret. apply good_intro; [done|done|apply nexts_stamp|].
      intros Hv'. apply (tracks_stamp c1); try done; [by apply T1|by apply Al].
Qed.

(** The begin of a render pass instance: [x] is the command. *)
Lemma wp_begin (v : Prop) c l x rp w h natt sec :
  inv c l -> (v -> tracks level c l /\ rp_of l = None /\ mem = true) -> rp_step (rp_of l) x = Some sec ->
  wp (qs ← rp_pre; _ ← emit (INext x); rp_begin mem qs rp w h natt sec) (fun _ => good v (qp c) (nexts l ++ [x])) (mk_cst (Some c) l).
Proof.
  intros J Hv Hx. pose proof J as (A & B & C). unfold rp_pre, rp_begin. wstep.
  assert (St : forall c', in_rp c' = false -> (full c' \/ active c' = false) -> (v -> tracks level c l) -> v -> tracks level c' (l ++ [INext x])).
  { intros c' E F T Hv'. constructor.
    - intros b. rewrite rp_of_next, Hx. intros _. right. tauto.
    - by rewrite rp_of_next, Hx.
    - apply stamps_ok_snoc; [by apply T|done]. }
  destruct (in_rp c) eqn:Hr; [rewrite orb_true_r|rewrite orb_false_r; destruct (active c) eqn:Ha; cbn [negb]].
  - apply wp_ret. wstep. rewrite Z.eqb_refl, orb_true_r. apply wp_ret. apply good_intro; [by apply inv_next|done|apply nexts_next|].
    intros Hv'. destruct (Hv Hv') as (T & N & _). by rewrite (tr_out _ _ _ T N) in Hr.
  - destruct (re_last c B Ha) as (L1 & L2 & L3). pose proof (sh_nq c A) as Hq. pose proof (sh_pools c A) as Hp. unfold npools, GT_QP_SIZE in Hq.
    apply wp_ts; [done|done| |].
    + intros Hf. wstep. rewrite Z.eqb_refl, orb_true_r. apply wp_ret. apply good_intro; [by apply inv_next, inv_over|done|apply nexts_next|].
      apply St; [done|by left|]. intros Hv'. by apply Hv.
    + intros Hf. wstep. assert (Js := inv_next _ _ x (inv_stamp c l J Ha Hf)). cbn [stamped set_queries active].
      rewrite Ha. destruct (Z.eqb_spec (nq c) GT_NOQ) as [E|_]; [unfold GT_NOQ, UINT32_MAX in E; lia|]. cbn [negb orb].
      assert (Nx : nexts ((l ++ [stamp_at (qp c) (nq c)]) ++ [INext x]) = nexts l ++ [x]) by (rewrite nexts_next; f_equal; apply nexts_stamp).
      assert (Ts : v -> stamps_ok level ((l ++ [stamp_at (qp c) (nq c)]) ++ [INext x])).
      { intros Hv'. destruct (Hv Hv') as (T & N & _). apply stamps_ok_snoc; [|done]. apply stamps_ok_snoc; [apply T|]. intros _. by rewrite N. }
      destruct (push _ _ _) as [c'|] eqn:E.
      * wstep. destruct (pushed_same _ _ _ E) as (E1 & E2 & E3 & E4 & _). apply good_intro; [|done|done|].
        { assert (Fc : Forall complete (recs c)) by (by destruct (re_closed c B Hr)).
          refine (inv_push_open mem (stamped c) _ _ c' sec Js Ha Hr _ Fc _ _ _ _ _ E); cbn [stamped set_queries recs nq kind qe qs]; [lia|done|done|lia| |done].
          intros r Hin. pose proof (recording_before c B Fc r Hin). lia. }
        intros Hv'. constructor; [| |by apply Ts].
        -- intros b. unfold stamp_at; rewrite rp_of_next, rp_of_stamp, Hx. intros [= <-]. by left.
        -- unfold stamp_at; rewrite rp_of_next, rp_of_stamp, Hx; done.
      * apply wp_ret. apply good_intro; [done|done|done|]. intros Hv'. destruct (Hv Hv') as (_ & _ & ->).
        destruct (push_mem (mk_rec (nq c) GT_NOQ GK_RP (if 255 <? natt then 255 else natt) w h 0 0 0 rp 0 0 0) (stamped c)) as [? E']. cbn [stamped] in E'. congruence.
  - apply wp_ret. wstep. rewrite Ha. cbn [negb orb]. apply wp_ret. apply good_intro; [by apply inv_next|done|apply nexts_next|].
    apply St; [done|by right|]. intros Hv'. by apply Hv.
Qed.

(** The end: [l] has the command already. *)
Lemma wp_end (v : Prop) c l x :
  inv c l -> (v -> tracks level c l) -> rp_step (rp_of l) x = None ->
  wp rp_end (fun _ => good v (qp c) (nexts l ++ [x])) (mk_cst (Some c) (l ++ [INext x])).
Proof.
  intros J Hv Hx. pose proof (inv_next c l x J) as J1. pose proof J1 as (A & B & C). unfold rp_end. wstep.
  assert (So : v -> stamps_ok level (l ++ [INext x])) by (intros Hv'; apply stamps_ok_snoc; [by apply Hv|done]).
  destruct (active c) eqn:Ha; cbn [negb orb]; [destruct (in_rp c) eqn:Hr; cbn [negb]|].
  - destruct (inv_end c _ J1 Ha Hr) as [Ef Es]. wstep.
    assert (W : forall Q : Z -> cst -> Prop,
      (full c -> Q GT_NOQ (mk_cst (Some (over (left_rp c))) (l ++ [INext x]))) ->
      (~ full c -> Q (nq c) (mk_cst (Some (stamped (left_rp c))) ((l ++ [INext x]) ++ [stamp_at (qp c) (nq c)]))) ->
      wp ts Q (mk_cst (Some (left_rp c)) (l ++ [INext x]))).
    { intros Q H1 H2. pose proof (sh_nq c A). unfold ts. wstep. cbn [left_rp set_rp active]. rewrite Ha. cbn [negb].
      destruct (Z.leb_spec (npools (left_rp c) * GT_QP_SIZE) (nq (left_rp c))) as [Hle|Hlt]; cbn [left_rp set_rp npools nq qp] in *.
      - apply H1. unfold full, npools in *. cbn in Hle. lia.
      - apply H2. unfold full, npools in *. cbn in Hlt. lia. }
    apply W.
    + intros Hf. wstep. apply good_intro; [by apply Ef|done|apply nexts_next|]. intros Hv'. constructor; [|done|by apply So].
      intros b. cbn [out]. by rewrite rp_of_next, Hx.
    + intros Hf. wstep. apply good_intro; [by apply Es|done|cbn [out]; rewrite nexts_app, nexts_next; apply app_nil_r|].
      intros Hv'. constructor; [|done|].
      * intros b. cbn [out]. unfold stamp_at. by rewrite rp_of_stamp, rp_of_next, Hx.
      * cbn [out]. apply stamps_ok_snoc; [by apply So|]. intros _. rewrite rp_of_next, Hx. done.
  - apply wp_ret. apply good_intro; [done|done|apply nexts_next|]. intros Hv'. constructor; [|done|by apply So]. intros b. by rewrite rp_of_next, Hx.
  - apply wp_ret. apply good_intro; [done|done|apply nexts_next|]. destruct (re_idle c B Ha) as [E _].
    intros Hv'. constructor; [|done|by apply So]. intros b. by rewrite rp_of_next, Hx.
Qed.

Lemma secondaries_closes secs r r' : closes (qe r) r r' -> closes (qe r) r (foldl (add_secondary look) r' secs).
Proof.
  revert r'. induction secs as [|y secs IH]; intros r' H; [done|]. cbn [foldl]. apply IH. unfold add_secondary. by destruct (look y).
Qed.
Lemma secondaries_range secs r : rec_range r -> rec_range (foldl (add_secondary look) r secs).
Proof.
  revert r. induction secs as [|y secs IH]; intros r H; [done|]. cbn [foldl]. apply IH. unfold add_secondary. destruct (look y); [apply add_draws_range|]; done.
Qed.

(** The commands that begin a render pass. *)
Definition begins_pass (x : cmd) : bool :=
  match x with CmdBeginRenderPass _ _ _ _ _ | CmdBeginRendering _ _ _ _ _ _ => true | _ => false end.

Lemma wp_cmd (v : Prop) c l x :
  inv c l -> (v -> tracks level c l /\ legal (rp_of l) x /\ (begins_pass x = true -> mem = true)) ->
  wp (gt_cmd level o look mem x) (fun _ => good v (qp c) (nexts l ++ [x])) (mk_cst (Some c) l).
Proof.
  intros J Hv. pose proof (inv_next c l x J) as J1. rewrite <- (nexts_next l x).
  assert (Tk : rp_step (rp_of l) x = rp_of l -> v -> tracks level c (l ++ [INext x])).
  { intros E Hv'. apply tracks_next; [by apply Hv|done]. }
  assert (Rg : forall k op p a b d, rp_step (rp_of l) x = rp_of l -> (v -> rp_of l <> Some false) -> top_kind k = true ->
     wp (region o mem k op p a b d) (fun _ => good v (qp c) (nexts (l ++ [INext x]))) (mk_cst (Some c) (l ++ [INext x]))).
  { intros k op p a b d E N K. apply wp_region; [done| |done]. intros Hv'. split; [by apply Tk|]. rewrite rp_of_next, E. by apply N. }
  destruct x as [bp p|bp first sets|ver r w h sec|ver|khr w h n dp sec|khr|name|name a b d| |name|secs]; cbn [gt_cmd].
  - unfold gt_CmdBindPipeline. wstep. pose proof (sh_cset c (proj1 J1)).
    destruct (bp =? BIND_POINT_GRAPHICS); [|destruct (bp =? BIND_POINT_COMPUTE)]; (apply wp_put || apply wp_ret); apply good_intro; try done;
      try (by apply inv_bound); try (intros Hv'; by apply (tracks_keep c); [apply Tk|..]).
  - unfold gt_CmdBindDescriptorSets. wstep. pose proof (sh_cset c (proj1 J1)).
    destruct (bp =? BIND_POINT_COMPUTE); (apply wp_put || apply wp_ret); apply good_intro; try done.
    + apply inv_bound; [done|]. by rewrite bind_sets_length.
    + intros Hv'. by apply (tracks_keep c); [apply Tk|..].
    + by apply Tk.
  - rewrite nexts_next. unfold gt_CmdBeginRenderPass. apply wp_begin; [done| |done]. intros Hv'. destruct (Hv Hv') as (T & L & M). by rewrite (M eq_refl).
  - rewrite nexts_next. unfold gt_CmdEndRenderPass. wstep. apply wp_end; [done|intros Hv'; by apply Hv|done].
  - rewrite nexts_next. unfold begin_rendering. apply wp_begin; [done| |done]. intros Hv'. destruct (Hv Hv') as (T & L & M). by rewrite (M eq_refl).
  - rewrite nexts_next. unfold gt_CmdEndRendering. wstep. apply wp_end; [done|intros Hv'; by apply Hv|done].
  - unfold gt_CmdDraw. wstep. destruct (assoc draw_table name) as [k|] eqn:E; [|apply wp_ret; apply good_intro; try done; by apply Tk].
    apply wp_after_draw; [done|by apply Tk|].
    unfold assoc in E. apply fmap_Some in E as ([n k'] & [Hin _]%find_some & ->). cbn [snd].
    unfold draw_table in Hin. cbn in Hin. repeat destruct Hin as [[= <- <-]|Hin]; done.
  - unfold gt_CmdDispatch. wstep. apply Rg; [done| |done]. intros Hv'. destruct (Hv Hv') as (_ & L & _). cbn in L. by rewrite L.
  - unfold gt_CmdDispatchIndirect. wstep. apply Rg; [done| |done]. intros Hv'. destruct (Hv Hv') as (_ & L & _). cbn in L. by rewrite L.
  - unfold gt_CmdXfer. wstep. destruct (assoc xfer_table name) as [k|] eqn:E; [|apply wp_ret; apply good_intro; try done; by apply Tk].
    apply Rg; [done| |done]. intros Hv'. destruct (Hv Hv') as (_ & L & _). cbn in L. by rewrite L.
  - unfold gt_CmdExecuteCommands. wstep. destruct (active c) eqn:Ha; cbn [negb]; [destruct (in_rp c) eqn:Hr|].
    + wstep. apply good_intro; try done.
      * apply inv_update; [done|done|intros r; by apply secondaries_closes|apply secondaries_range].
      * intros Hv'. by apply (tracks_keep c); [apply Tk|..].
    + apply Rg; [done| |done]. intros Hv'. destruct (Hv Hv') as (_ & L & _). done.
    + apply wp_ret. apply good_intro; try done. by apply Tk.
Qed.

End Commands.

(** ** A whole recording *)

Lemma create_pools_app fuel create i l : exists k, create_pools fuel create i l = l ++ k /\ (length k <= fuel)%nat.
Proof.
  revert i l. induction fuel as [|fuel IH]; intros i l; cbn [create_pools]; [exists []; by rewrite app_nil_r|].
  destruct (create i) as [q|]; [|exists []; rewrite app_nil_r; split; [done|simpl; lia]].
  destruct (IH (S i) (l ++ [q])) as (k & -> & Hk). exists (q :: k). rewrite <- app_assoc. split; [done|]. simpl. lia.
Qed.
Lemma grow_pools_length create c : (length (qp c) <= 8)%nat -> (length (grow_pools create c) <= 8)%nat.
Proof.
  intros H. unfold grow_pools. destruct (create_pools_app (Z.to_nat (pools_wanted c - npools c)) create 0 (qp c)) as (k & -> & Hk).
  rewrite length_app. unfold pools_wanted, npools, GT_MAXPOOLS in Hk. lia.
Qed.

(** A record nothing was recorded into: after the harvest. *)
Definition harvested (c : gt_cb) : Prop := shape c /\ nq c = 0 /\ recs c = [].

Lemma wp_begin_recording level create c :
  harvested c ->
  wp (begin_recording create c)
    (fun _ s => exists c', cb s = Some c' /\ inv c' (out s) /\ nexts (out s) = [] /\ tracks level c' (out s) /\
       qp c' = (if primary c then grow_pools create (fresh_recording c) else qp c)) (mk_cst (Some c) []).
Proof.
  intros (A & Hn & Hr). unfold begin_recording.
  assert (Sh : forall a l, (length (qp c) <= length l <= 8)%nat -> (a = true -> l <> []) -> shape (set_pools (fresh_recording c) a l)).
  { intros a l H1 H2. destruct A as [S1 S2 S3 S4 S5 S6 S7 S8 S9 S10]. constructor; cbn; try done; [lia|unfold npools; cbn; rewrite Hn; unfold GT_QP_SIZE; lia]. }
  assert (Re : forall l, recording (set_pools (fresh_recording c) false l)).
  { intros l. constructor; cbn; try done. - rewrite Hr. apply timeline_nil. - intros _. left. rewrite Hr. constructor. }
  assert (E0 : stamp_at [] <$> seqZ 0 0 = []) by done.
  destruct (primary c) eqn:Hp; cbn [fresh_recording active]; rewrite Hp; cbn [negb].
  2: { wstep. eexists. split; [done|]. unfold inv; split_and!; try done.
       - destruct (Sh false (qp c)) as [S1 S2 S3 S4 S5 S6 S7 S8 S9 S10]; [pose proof (sh_pools c A); lia|done|]. constructor; unfold npools in *; cbn in *; try done. by rewrite Hp.
       - destruct (Re (qp c)). constructor; cbn in *; try done; by rewrite ?Hp.
       - exists []. cbn. rewrite Hp, Hn. done.
       - constructor; try done. intros pre e post E. by destruct pre. }
  change (qp (fresh_recording c)) with (qp c). set (l := grow_pools create (fresh_recording c)).
  assert (Hl : (length (qp c) <= length l <= 8)%nat).
  { split; [|apply (grow_pools_length create (fresh_recording c)), A]. unfold l, grow_pools.
    destruct (create_pools_app (Z.to_nat (pools_wanted (fresh_recording c) - npools (fresh_recording c))) create 0 (qp (fresh_recording c))) as (k & -> & _).
    rewrite length_app. cbn [fresh_recording qp]. lia. }
  fold (fresh_recording c). case_bool_decide as El.
  - wstep. eexists. split; [done|]. unfold inv; split_and!; try done; [by apply Sh| |].
    + exists []. cbn. by rewrite Hn.
    + constructor; try done. intros pre e post E. by destruct pre.
  - wstep. unfold wp at 1. cbn [modS fst snd cb out app]. wstep. set (c1 := set_pools (fresh_recording c) true l).
    set (rs := (fun p => IReset p 0 GT_QP_SIZE) <$> l).
    assert (Nr : nexts rs = []) by (unfold rs; clear; induction l as [|p l IH]; [done|exact IH]).
    assert (S1 : shape c1) by (by apply Sh). unfold ts. wstep. cbn [c1 set_pools fresh_recording active nq last_q overflow]. rewrite Hn. cbn [negb].
    assert (Hq : (npools c1 * GT_QP_SIZE <=? 0) = false).
    { apply Z.leb_gt. unfold npools, c1, GT_QP_SIZE. cbn. destruct l; [done|]. simpl length. lia. }
    rewrite Hq. wstep. apply wp_ret. apply wp_ret. fold c1. cbn [cb out]. eexists. split; [done|].
    assert (St : stamps_ok level (rs ++ [IStamp (nth (Z.to_nat (0 / GT_QP_SIZE)) (qp c1) 0) (0 mod GT_QP_SIZE)])).
    { intros pre e post E Hs. destruct (decide (post = [])) as [->|N].
      - apply app_inj_tail in E as [<- _]. unfold rp_of. by rewrite Nr.
      - destruct (exists_last N) as (post' & y & ->). rewrite app_comm_cons, app_assoc in E. apply app_inj_tail in E as [E _].
        exfalso. assert (Hin : e ∈ rs) by (rewrite E; set_solver). unfold rs in Hin. apply list_elem_of_fmap in Hin as (p & -> & _). done. }
    apply Z.leb_gt in Hq. unfold inv; split_and!.
    + destruct S1 as [T1 T2 T3 T4 T5 T6 T7 T8 T9 T10]. constructor; cbn in *; try done; [unfold npools in *; cbn in *; lia|]. rewrite Hr. simpl. lia.
    + constructor; cbn; try done; rewrite Hr; [intros _; simpl; lia|apply timeline_nil|intros _; left; constructor].
    + exists [stamp_at l 0]. split_and!; [done|repeat constructor|done].
    + cbn [out]. fold rs. rewrite nexts_app, Nr. done.
    + constructor; try done. intros b. cbn [out]. fold rs. rewrite rp_of_stamp. unfold rp_of. by rewrite Nr.
    + done.
Qed.

(** One command with the answers it got. *)
Record played := mk_played { pl_objs : objects; pl_look : Z -> option gt_cb; pl_mem : bool; pl_cmd : cmd }.
Definition play (level : Z) (s : cst) (p : played) : cst := (gt_cmd level (pl_objs p) (pl_look p) (pl_mem p) (pl_cmd p) s).2.
Definition record_all (level : Z) (create : nat -> option Z) (c : gt_cb) (l : list played) : cst :=
  foldl (play level) (begin_recording create c (mk_cst (Some c) [])).2 l.

(** The application keeps the rules of render passes. *)
Fixpoint legal_all (st : option bool) (l : list cmd) : Prop :=
  match l with [] => True | c :: l => legal st c /\ legal_all (rp_step st c) l end.
Lemma legal_all_snoc st l c : legal_all st (l ++ [c]) <-> legal_all st l /\ legal (foldl rp_step st l) c.
Proof. revert st. induction l as [|x l IH]; intros st; cbn [legal_all app foldl]; [tauto|]. rewrite IH. tauto. Qed.

(** The application keeps the rules, and every render pass gets its record. *)
Definition well_played (l : list played) : Prop :=
  legal_all None (pl_cmd <$> l) /\ Forall (fun p => begins_pass (pl_cmd p) = true -> pl_mem p = true) l.

Lemma record_all_good level create c l :
  harvested c ->
  good level (well_played l) (if primary c then grow_pools create (fresh_recording c) else qp c) (pl_cmd <$> l) (record_all level create c l).
Proof.
  intros H. unfold record_all. induction l as [|p l IH] using rev_ind.
  - destruct (wp_begin_recording level create c H) as (c' & E & J & N & T & Q). exists c'. by repeat (split; [done|]).
  - rewrite foldl_snoc. destruct IH as (c' & E & J & Q & N & T). set (s := foldl _ _ l) in *. destruct s as [? lo] eqn:Es. cbn [cb out] in *. subst.
    rewrite fmap_app. cbn [fmap list_fmap]. rewrite <- N, <- Q. unfold play.
    apply (wp_cmd level (pl_objs p) (pl_look p) (pl_mem p) (well_played (l ++ [p])) c' lo (pl_cmd p) J).
    intros [L M]. rewrite fmap_app in L. cbn [fmap list_fmap] in L. apply legal_all_snoc in L as [L1 L2]. apply Forall_app in M as [M1 [M2 _]%Forall_cons].
    split; [by apply T|]. split; [unfold rp_of; by rewrite N|done].
Qed.

Lemma stamp_at_inj pools j k :
  NoDup pools -> 0 <= j < Z.of_nat (length pools) * GT_QP_SIZE -> 0 <= k < Z.of_nat (length pools) * GT_QP_SIZE ->
  stamp_at pools j = stamp_at pools k -> j = k.
Proof.
  unfold stamp_at, GT_QP_SIZE. intros N Hj Hk [= E1 E2]. rewrite (Z.div_mod j 4096), (Z.div_mod k 4096), E2 by lia. f_equal. f_equal.
  assert (0 <= j / 4096 < Z.of_nat (length pools)) by (split; [apply Z.div_pos; lia|apply Z.div_lt_upper_bound; lia]).
  assert (0 <= k / 4096 < Z.of_nat (length pools)) by (split; [apply Z.div_pos; lia|apply Z.div_lt_upper_bound; lia]).
  rewrite !nth_lookup in E1. destruct (lookup_lt_is_Some_2 pools (Z.to_nat (j / 4096))) as [p Hp]; [lia|].
  destruct (lookup_lt_is_Some_2 pools (Z.to_nat (k / 4096))) as [q Hq]; [lia|]. rewrite Hp, Hq in E1. cbn in E1. subst q.
  apply Z2Nat.inj; [lia|lia|]. by eapply NoDup_lookup.
Qed.

(** The stamps of the stream are those of its tail. *)
Lemma stream_stamps c l : stream c l -> filter (fun e => is_stamp e = true) l = stamp_at (qp c) <$> seqZ 0 (nq c).
Proof.
  intros (rest & -> & _ & S). rewrite filter_app, S. destruct (active c); [|done].
  rewrite <- (app_nil_l (stamp_at _ <$> _)) at 2. f_equal.
  clear S. induction (qp c) as [|p k IH]; [done|exact IH].
Qed.

(** C23: the timing is invisible in what is recorded, and its queries are
    used as Vulkan requires: for every sequence of commands recorded after a
    begin, whatever the environment answers, the next layer gets exactly the
    application's commands in their order; the other commands are first one
    reset of each pool of the command buffer (at most 8) and after that only
    timestamps, the [k]-th into query [k mod 4096] of pool [k / 4096], never
    more than the pools hold, so that with distinct pools no query is written
    twice.  When the application keeps the rules of render passes and no
    begin of a render pass fails to allocate its record, no timestamp is
    written inside a render pass whose contents are secondary command buffers,
    and below level 2 none inside any render pass.  (The condition is needed:
    [untracked_pass_stamped].) *)
Theorem gt_stream_valid (level : Z) (create : nat -> option Z) (c0 : gt_cb) (l : list played) :
  harvested c0 ->
  let s := record_all level create c0 l in
  exists c, cb s = Some c /\
    nexts (out s) = pl_cmd <$> l /\
    (exists rest, out s = (if active c then (fun p => IReset p 0 GT_QP_SIZE) <$> qp c else []) ++ rest /\
       Forall (fun e => is_reset e = false) rest) /\
    filter (fun e => is_stamp e = true) (out s) = stamp_at (qp c) <$> seqZ 0 (nq c) /\
    (length (qp c) <= 8)%nat /\ 0 <= nq c <= Z.of_nat (length (qp c)) * 4096 /\
    (NoDup (qp c) -> NoDup (filter (fun e => is_stamp e = true) (out s))) /\
    (well_played l -> stamps_ok level (out s)).
Proof.
  intros H. cbv zeta. destruct (record_all_good level create c0 l H) as (c & E & (A & B & C) & Q & N & T).
  exists c. pose proof (stream_stamps _ _ C) as S. split; [done|]. split; [done|]. split; [by destruct C as (rest & C1 & C2 & _); exists rest|].
  split; [done|]. split; [apply A|]. split; [apply A|]. split; [|intros W; by apply (T W)].
  intros Nd. rewrite S. apply NoDup_fmap_2_strong; [|apply NoDup_seqZ]. intros j k Hj%elem_of_seqZ Hk%elem_of_seqZ. pose proof (sh_nq c A).
  apply stamp_at_inj; [done|unfold npools in *; lia|unfold npools in *; lia].
Qed.

(** What [gt_AllocateCommandBuffers] allocates. *)
Definition new_cb (primary : bool) : gt_cb :=
  mk_cb primary false false false false [] 0 0 GT_QP_SIZE false [] 0 0 0 0 (replicate 8 0) 0 0.
Lemma new_cb_harvested p : harvested (new_cb p).
Proof. split; [|done]. constructor; cbn; try done; unfold GT_QP_SIZE; try lia; try constructor; lia. Qed.

(** A render pass of secondaries, one of inline draws, a copy. *)
Definition demo_cmds : list played :=
  mk_played no_objects (fun _ => None) true <$>
    [CmdBeginRenderPass V1 5 64 64 true; CmdExecuteCommands [9]; CmdEndRenderPass V1;
     CmdBindPipeline 0 7; CmdBeginRendering false 64 64 1 true false; CmdDraw "vkCmdDraw"; CmdDraw "vkCmdDrawIndexed"; CmdEndRendering false;
     CmdXfer "vkCmdCopyBuffer"; CmdDispatch "vkCmdDispatch" 1 2 3].
Definition demo_create (i : nat) : option Z := Some (100 + Z.of_nat i).
Lemma gt_stream_valid_witness :
  stamps_ok 2 (out (record_all 2 demo_create (new_cb true) demo_cmds)).
Proof.
  destruct (gt_stream_valid 2 demo_create (new_cb true) demo_cmds (new_cb_harvested true)) as (c & _ & _ & _ & _ & _ & _ & _ & W).
  apply W. split; [cbn; repeat split; eauto; done|]. by repeat constructor.
Defined.

(** A begin whose record cannot be allocated is not tracked: the timestamp of
    vkCmdExecuteCommands then lands inside a render pass that may hold nothing
    but vkCmdExecuteCommands. *)
Lemma untracked_pass_stamped :
  let s := record_all 1 demo_create (new_cb true)
    [mk_played no_objects (fun _ => None) false (CmdBeginRenderPass V1 5 64 64 true);
     mk_played no_objects (fun _ => None) true (CmdExecuteCommands [9])] in
  legal_all None (nexts (out s)) /\ exists pre p q post, out s = pre ++ IStamp p q :: post /\ rp_of pre = Some true.
Proof.
  split; [by vm_compute|]. eexists [_; _; _; _; _], _, _, []. split; [by vm_compute|]. by vm_compute.
Qed.

End GtRecord.
