(* ===== verification/GtSession.v ===== *)
(** * GPU timing: harvesting and the device ([nvidia-prolapse/hal/src/gputime.c])

    [harvest] reads the timestamps of a recording that was submitted and folds
    them into the window; the operations on command buffers as a whole
    (allocation, begin, end, submission, freeing) keep the records and their
    query pools.  The world is one device with GPU timing on: [gt_any] is its
    [nvhal_gt_dev], so a command buffer the HAL does not know is passed on
    through the same next layer.

    [cmds] is the command-buffer table of [imgxlate.c] (see [CmdTable.v]) with
    the timing record of each entry.  [recording] (between a successful begin
    and the end) and [live] (the query pools created and not destroyed) are not
    in the code: they are what the application and the ICD know. *)

From Stdlib Require Import ZArith Lia.
From stdpp Require Import base option sets strings gmap list sorting.
From S2P Require Import Prelude GtWindow GtObjects GtRecord.
Export GtRecord.GtRecord.

Set Default Goal Selector "!".
#[local] Open Scope Z_scope.

Module GtSession.

Definition VK_NOT_READY : Z := 1.

(** ** Harvest *)

(** What the environment answers to one harvest: the time, the result of
    vkGetQueryPoolResults for each pool, the (timestamp, availability) pair of
    each query, and which allocations succeed. *)
Record answers := mk_ans {
  a_now : Z; a_code : Z -> Z; a_res : Z -> Z * Z; a_malloc : bool; a_realloc : bool; a_lines : bool;
}.

Section Harvest.
Context (a : answers) (c : gt_cb).

(** [res[q * 2 + 1]] after the loop over the pools. *)
Definition availability (q : Z) : Z :=
  let p := q / GT_QP_SIZE in
  if (p <? npools c) && negb ((a_code a p =? VK_SUCCESS) || (a_code a p =? VK_NOT_READY)) then 0 else (a_res a q).2.
Definition AV (q : Z) : bool := negb (q =? GT_NOQ) && (q <? nq c) && negb (availability q =? 0).
Definition TS (q : Z) : Z := (a_res a q).1.

(** The least and the greatest timestamp there is. *)
Definition lo_hi : Z * Z :=
  foldl (fun x q => if AV q then (if TS q <? x.1 then TS q else x.1, if x.2 <? TS q then TS q else x.2) else x)
    (UINT64_MAX, 0) (seqZ 0 (nq c)).

Definition measures (r : gt_rec) : bool := AV (qs r) && AV (qe r) && negb (TS (qe r) <? TS (qs r)).
Definition add_measured (g : window) (r : gt_rec) : window :=
  if measures r then stat_add g r (u64 (TS (qe r) - TS (qs r))) else g.

(** Under the mutex, up to the decision to report. *)
Definition start_window (t : Z) (g : window) : window :=
  mk_win (window_ns g) (if win_t0 g =? 0 then t else win_t0 g) (frames g) (submits g) (u64 (cbs g + 1)) (dropped g) (overflows g)
    (tab g) (ntab g) (iv g) (capiv g).
Definition fold_in (g : window) : window :=
  add_interval (a_realloc a) lo_hi.1 lo_hi.2 (foldl add_measured (start_window (a_now a) g) (recs c)).

Definition cleared : gt_cb := set_submitted (set_recs (set_queries c 0 (last_q c) (overflow c)) [] (caprec c)) false.
Definition harvest (templ : Z) (g : window) : gt_cb * window * option printed :=
  if negb (submitted c) || (nq c =? 0) || bool_decide (recs c = []) || negb (a_malloc a) then (cleared, g, None)
  else
  let g := fold_in g in
  if negb (frames g =? 0) && (window_ns g <=? u64 (a_now a - win_t0 g)) then
    let '(p, g) := report (a_lines a) templ (a_now a) g in (cleared, g, Some p)
  else (cleared, g, None).
End Harvest.

(** ** The world *)

Record world := mk_world {
  cmds : gmap Z (option gt_cb); recording_now : gset Z; streams : gmap Z (list icmd);
  win : window; objs : objects; live : list Z; bad_destroy : bool; reports : list printed;
}.
Definition set_cmds (w : world) m := mk_world m (recording_now w) (streams w) (win w) (objs w) (live w) (bad_destroy w) (reports w).
Definition set_win (w : world) g := mk_world (cmds w) (recording_now w) (streams w) g (objs w) (live w) (bad_destroy w) (reports w).
Definition set_objs (w : world) o := mk_world (cmds w) (recording_now w) (streams w) (win w) o (live w) (bad_destroy w) (reports w).
Definition set_recording (w : world) s := mk_world (cmds w) s (streams w) (win w) (objs w) (live w) (bad_destroy w) (reports w).
Definition set_stream (w : world) cb l := mk_world (cmds w) (recording_now w) (<[cb := l]> (streams w)) (win w) (objs w) (live w) (bad_destroy w) (reports w).
Definition set_live (w : world) l := mk_world (cmds w) (recording_now w) (streams w) (win w) (objs w) l (bad_destroy w) (reports w).
Definition put_cb (w : world) cb x := set_cmds w (<[cb := x]> (cmds w)).

(** [nvhal_cmd_get(cb)->gt]. *)
Definition gt_of (w : world) (cb : Z) : option gt_cb := mjoin (cmds w !! cb).

Definition run_harvest (a : answers) (c : gt_cb) (w : world) : gt_cb * world :=
  let '(c, g, p) := harvest a c (gt_templ_updates (objs w)) (win w) in
  (c, mk_world (cmds w) (recording_now w) (streams w) g (objs w) (live w) (bad_destroy w) (reports w ++ option_list p)).

Fixpoint remove_one (x : Z) (l : list Z) : option (list Z) :=
  match l with
  | [] => None
  | y :: l => if x =? y then Some l else cons y <$> remove_one x l
  end.
Definition DestroyQueryPool (w : world) (q : Z) : world :=
  match remove_one q (live w) with
  | Some l => set_live w l
  | None => mk_world (cmds w) (recording_now w) (streams w) (win w) (objs w) (live w) true (reports w)
  end.

Definition nvhal_gt_cb_free (a : answers) (x : option gt_cb) (w : world) : world :=
  match x with
  | None => w
  | Some c => let '(c, w) := run_harvest a c w in foldl DestroyQueryPool w (qp c)
  end.

(** ** Operations *)

(** [cmd_free] of an entry: vkFreeCommandBuffers, the destruction of its pool,
    or of the device. *)
Definition forget (a : answers) (cb : Z) (w : world) : world :=
  match cmds w !! cb with
  | None => w
  | Some x =>
      let w := set_recording (set_cmds w (delete cb (cmds w))) (recording_now w ∖ {[cb]}) in
      nvhal_gt_cb_free a x w
  end.

(** One command buffer of a successful vkAllocateCommandBuffers: the tracking
    of [nvhal_cmd_track] ([tracked]: a new entry could be made), then the
    wrapper's own record ([calloc_ok]). *)
Definition alloc_one (a : Z -> answers) (prim : bool) (w : world) (x : Z * bool * bool) : world :=
  let '(cb, tracked, calloc_ok) := x in
  let known := bool_decide (is_Some (cmds w !! cb)) in
  let w := forget (a cb) cb w in
  if known || tracked then put_cb w cb (if calloc_ok then Some (new_cb prim) else None) else w.
Definition gt_AllocateCommandBuffers (a : Z -> answers) (r : Z) (prim : bool) (l : list (Z * bool * bool)) (w : world) : world :=
  if r =? VK_SUCCESS then foldl (alloc_one a prim) w l else w.

Definition gt_BeginCommandBuffer (a : answers) (create : nat -> option Z) (r cb : Z) (w : world) : world :=
  let w := set_recording w (recording_now w ∖ {[cb]}) in
  match gt_of w cb with
  | None => w
  | Some c =>
      let '(c, w) := run_harvest a c w in
      if negb (r =? VK_SUCCESS) then put_cb w cb (Some c)
      else
      let s := (begin_recording create c (mk_cst (Some c) [])).2 in
      let created := match GtRecord.cb s with Some c' => drop (length (qp c)) (qp c') | None => [] end in
      let w := set_live (put_cb w cb (GtRecord.cb s)) (live w ++ created) in
      set_recording (set_stream w cb (out s)) (recording_now w ∪ {[cb]})
  end.

(** A recording command ([level]: the device's). *)
Definition gt_Cmd (level : Z) (mem : bool) (cb : Z) (x : cmd) (w : world) : world :=
  let s := (gt_cmd level (objs w) (gt_of w) mem x (mk_cst (gt_of w cb) (default [] (streams w !! cb)))).2 in
  match GtRecord.cb s with
  | Some c => set_stream (put_cb w cb (Some c)) cb (out s)
  | None => set_stream w cb (out s)
  end.

Definition gt_EndCommandBuffer (cb : Z) (w : world) : world :=
  let w := set_recording w (recording_now w ∖ {[cb]}) in
  match gt_of w cb with
  | None => w
  | Some c =>
      let '(over, c) := end_recording c in
      put_cb (if over then set_win w (count_overflow (win w)) else w) cb (Some c)
  end.

Definition mark_submitted (w : world) (cb : Z) : world :=
  match gt_of w cb with Some c => put_cb w cb (Some (set_submitted c true)) | None => w end.
(** [gt_QueueSubmit] and [submit2]: before the next layer is called. *)
Definition gt_QueueSubmit (l : list (list Z)) (w : world) : world :=
  let w := foldl mark_submitted w (concat l) in set_win w (count_submit (win w)).

Definition frame (now : Z) (w : world) : world := set_win w (nvhal_gt_frame now (win w)).

(** ** Setup *)

(** [nvhal_gt_device_init] once the properties are read: [window] in
    nanoseconds; the five query entry points; [stamps]: timestamps on all
    queues. *)
Definition nvhal_gt_device_init (level window : Z) (alloc_ok : bool) (fns : list Z) (stamps : bool) : option world :=
  if level <=? 0 then None
  else if negb alloc_ok then None
  else if existsb (Z.eqb 0) fns || negb stamps then None
  else Some (mk_world ∅ ∅ ∅ (new_window window) no_objects [] false []).

(** [nvhal_gt_wrap]: the entry point handed out for a name and the [next]
    fields afterwards. *)
Inductive entry := Wrapper (name : string) | Plain (fn : Z).
Definition wrapped_names : list string :=
  ["vkAllocateCommandBuffers"; "vkBeginCommandBuffer"; "vkEndCommandBuffer"; "vkQueueSubmit"; "vkQueueSubmit2"; "vkQueueSubmit2KHR";
   "vkCmdBindPipeline"; "vkCmdBeginRenderPass"; "vkCmdBeginRenderPass2"; "vkCmdBeginRenderPass2KHR"; "vkCmdEndRenderPass";
   "vkCmdEndRenderPass2"; "vkCmdEndRenderPass2KHR"; "vkCmdBeginRendering"; "vkCmdBeginRenderingKHR"; "vkCmdEndRendering"; "vkCmdEndRenderingKHR"]%string
  ++ draw_table.*1 ++ ["vkCmdDispatch"; "vkCmdDispatchBase"; "vkCmdDispatchBaseKHR"; "vkCmdDispatchIndirect"]%string ++ xfer_table.*1 ++
  ["vkCmdExecuteCommands"; "vkCreateShaderModule"; "vkDestroyShaderModule"; "vkCreateGraphicsPipelines"; "vkCreateComputePipelines";
   "vkDestroyPipeline"; "vkAllocateMemory"; "vkFreeMemory"; "vkBindBufferMemory"; "vkBindBufferMemory2"; "vkBindBufferMemory2KHR";
   "vkUpdateDescriptorSets"; "vkUpdateDescriptorSetWithTemplate"; "vkUpdateDescriptorSetWithTemplateKHR"; "vkCmdBindDescriptorSets"]%string.
Definition nvhal_gt_wrap (on : bool) (next : gmap string Z) (name : string) (fn : Z) : entry * gmap string Z :=
  if negb on || (fn =? 0) then (Plain fn, next)
  else if bool_decide (name ∈ wrapped_names) then (Wrapper name, <[name := fn]> next)
  else (Plain fn, next).

(** ** What a harvest measures *)

Definition monotone (T : Z -> Z) (n : Z) : Prop := forall i j, 0 <= i -> i <= j -> j < n -> T i <= T j.
Definition ticks (T : Z -> Z) (r : gt_rec) : Z := T (qe r) - T (qs r).

(** Disjoint regions between two stamps last no longer than from one to the other. *)
Lemma sum_disjoint T n a b l :
  monotone T n -> 0 <= a <= b -> b < n -> StronglySorted before l -> Forall (fun r => a <= qs r /\ qs r < qe r /\ qe r <= b) l ->
  sumZ (ticks T <$> l) <= T b - T a.
Proof.
  intros M. revert a. induction l as [|r l IH]; intros a Ha Hb S F.
  - pose proof (M a b ltac:(lia) ltac:(lia) Hb). cbn. lia.
  - apply Forall_cons in F as [(F1 & F2 & F3) F]. apply StronglySorted_inv in S as [S R].
    change (ticks T <$> r :: l) with (ticks T r :: (ticks T <$> l)). cbn [sumZ foldr]. fold (sumZ (ticks T <$> l)).
    assert (IH' : sumZ (ticks T <$> l) <= T b - T (qe r)).
    { apply IH; [lia|lia|done|]. apply Forall_forall. intros x Hx. rewrite Forall_forall in F, R. destruct (F x Hx) as (_ & ? & ?).
      pose proof (R x Hx). unfold before in *. lia. }
    pose proof (M a (qs r) ltac:(lia) ltac:(lia) ltac:(lia)). unfold ticks in *. lia.
Qed.

(** The timestamp the driver has for a query of the recording: the call for its
    pool must not have failed, and the query's availability word is set. *)
Definition stamp_of (a : answers) (c : gt_cb) (q : Z) : option Z :=
  let code := a_code a (q / GT_QP_SIZE) in
  if decide (0 <= q < nq c /\ (code = VK_SUCCESS \/ code = VK_NOT_READY) /\ (a_res a q).2 <> 0) then Some (a_res a q).1 else None.
Definition stamps_of (a : answers) (c : gt_cb) : list Z := omap (stamp_of a c) (seqZ 0 (nq c)).
(** What a region lasted: both ends have a timestamp, and it ends after it began. *)
Definition duration (a : answers) (c : gt_cb) (r : gt_rec) : option Z :=
  s ← stamp_of a c (qs r); e ← stamp_of a c (qe r); if s <=? e then Some (e - s) else None.
Definition measured (a : answers) (c : gt_cb) (l : list gt_rec) : list (gt_rec * Z) :=
  omap (fun r => (r,.) <$> duration a c r) l.
Definition least (l : list Z) : Z := foldr Z.min UINT64_MAX l.
Definition greatest (l : list Z) : Z := foldr Z.max 0 l.

Lemma foldr_max_le b l n : foldr Z.max b l <= n <-> b <= n /\ Forall (fun x => x <= n) l.
Proof. induction l as [|x l IH]; cbn [foldr]; rewrite ?Forall_nil, ?Forall_cons; [tauto|]. rewrite Z.max_lub_iff. tauto. Qed.
Lemma foldr_max_ge b l : b <= foldr Z.max b l /\ Forall (fun x => x <= foldr Z.max b l) l.
Proof. by apply foldr_max_le. Qed.
Lemma foldr_min_le b l x : x ∈ l -> foldr Z.min b l <= x.
Proof. induction l as [|y l IH]; cbn [foldr]; [by intros ?%elem_of_nil|intros [->|H]%elem_of_cons; [|specialize (IH H)]; lia]. Qed.

Section Answered.
Context (a : answers) (c : gt_cb).
Context (Hw : forall q, is_u64 (a_res a q).1) (Hs : shape c).

Lemma AV_stamp q : 0 <= q -> stamp_of a c q = if AV a c q then Some (TS a q) else None.
Proof.
  intros Hq. pose proof (sh_nq c Hs). pose proof (sh_pools c Hs). unfold stamp_of, AV, availability, TS.
  destruct (Z.ltb_spec q (nq c)) as [Hlt|]; [|rewrite andb_false_r; case_decide; [lia|done]].
  assert (0 <= q / GT_QP_SIZE) by (apply Z.div_pos; unfold GT_QP_SIZE; lia).
  assert (q / GT_QP_SIZE < npools c) by (apply Z.div_lt_upper_bound; unfold GT_QP_SIZE in *; lia).
  rewrite (proj2 (Z.ltb_lt _ _)) by done.
  rewrite (proj2 (Z.eqb_neq q GT_NOQ)) by (unfold npools, GT_QP_SIZE, GT_NOQ, UINT32_MAX in *; lia). cbn [andb negb].
  destruct (Z.eqb_spec (a_code a (q / GT_QP_SIZE)) VK_SUCCESS), (Z.eqb_spec (a_code a (q / GT_QP_SIZE)) VK_NOT_READY);
    cbn [orb negb]; try change (0 =? 0) with true; try destruct (Z.eqb_spec (a_res a q).2 0); cbn [negb]; case_decide as Hd; try done; exfalso;
    unfold VK_SUCCESS, VK_NOT_READY in *; lia.
Qed.

Lemma lo_hi_stamps : lo_hi a c = (least (stamps_of a c), greatest (stamps_of a c)).
Proof.
  unfold lo_hi, stamps_of.
  assert (H : forall l x, Forall (fun q => 0 <= q) l ->
    foldl (fun x q => if AV a c q then (if TS a q <? x.1 then TS a q else x.1, if x.2 <? TS a q then TS a q else x.2) else x) x l =
    (foldr Z.min x.1 (omap (stamp_of a c) l), foldr Z.max x.2 (omap (stamp_of a c) l))).
  { assert (Fmin : forall l b y, foldr Z.min (Z.min b y) l = Z.min y (foldr Z.min b l)) by (induction l as [|z l IH]; intros; cbn [foldr]; [lia|rewrite IH; lia]).
    assert (Fmax : forall l b y, foldr Z.max (Z.max b y) l = Z.max y (foldr Z.max b l)) by (induction l as [|z l IH]; intros; cbn [foldr]; [lia|rewrite IH; lia]).
    induction l as [|q l IH]; intros x F; [by destruct x|]. apply Forall_cons in F as [Fq F]. cbn [foldl omap list_omap].
    rewrite IH, (AV_stamp q Fq) by done. destruct (AV a c q); [|done]. cbn [foldr fst snd].
    rewrite <- Fmin, <- Fmax. do 2 f_equal; [destruct (Z.ltb_spec (TS a q) x.1)|destruct (Z.ltb_spec x.2 (TS a q))]; lia. }
  rewrite H; [done|]. apply Forall_forall. intros q Hq%elem_of_seqZ. lia.
Qed.

Lemma stamp_u64 q s : stamp_of a c q = Some s -> is_u64 s.
Proof. unfold stamp_of. case_decide; [|done]. intros [= <-]. apply Hw. Qed.

Lemma add_measured_all g l : Forall (fun r => 0 <= qs r /\ 0 <= qe r) l -> foldl (add_measured a c) g l = adds g (measured a c l).
Proof.
  unfold adds, measured. revert g. induction l as [|r l IH]; intros g F; [done|]. apply Forall_cons in F as [[Fq Fe] F].
  cbn [foldl omap list_omap]. rewrite IH by done. unfold add_measured at 1, measures, duration.
  pose proof (stamp_u64 (qs r)) as Us. pose proof (stamp_u64 (qe r)) as Ue. rewrite (AV_stamp (qs r)), (AV_stamp (qe r)) in * by done.
  destruct (AV a c (qs r)); [|done]. destruct (AV a c (qe r)); [|done]. cbn [andb mbind option_bind].
  specialize (Us _ eq_refl). specialize (Ue _ eq_refl).
  destruct (Z.ltb_spec (TS a (qe r)) (TS a (qs r))), (Z.leb_spec (TS a (qs r)) (TS a (qe r))); try lia; cbn [negb fmap option_fmap option_map]; [done|].
  cbn [foldl fst snd]. by rewrite u64_id by (unfold is_u64 in *; lia).
Qed.

(** ** Timestamps that do not decrease *)

Definition stamps_ordered : Prop :=
  forall i j s t, i <= j -> stamp_of a c i = Some s -> stamp_of a c j = Some t -> s <= t.
Context (Ho : stamps_ordered).

(** A clock that agrees with every timestamp there is. *)
Definition clock (q : Z) : Z := foldr Z.max (least (stamps_of a c)) (omap (stamp_of a c) (seqZ 0 (q + 1))).

Lemma stamp_in q s : stamp_of a c q = Some s -> 0 <= q < nq c /\ s ∈ stamps_of a c.
Proof.
  intros E. assert (Hq : 0 <= q < nq c) by (revert E; unfold stamp_of; case_decide; [tauto|done]).
  split; [done|]. apply list_elem_of_omap. exists q. split; [by apply elem_of_seqZ|done].
Qed.
Lemma clock_stamp q s : stamp_of a c q = Some s -> clock q = s.
Proof.
  intros E. destruct (stamp_in q s E) as [Hq Hin]. unfold clock. apply Z.le_antisymm.
  - apply foldr_max_le. split; [by apply foldr_min_le|]. apply Forall_forall. intros x (i & Hi%elem_of_seqZ & Ei)%list_elem_of_omap.
    apply (Ho i q); [lia|done|done].
  - destruct (foldr_max_ge (least (stamps_of a c)) (omap (stamp_of a c) (seqZ 0 (q + 1)))) as [_ F]. rewrite Forall_forall in F. apply F.
    apply list_elem_of_omap. exists q. split; [apply elem_of_seqZ; lia|done].
Qed.
Lemma clock_monotone : monotone clock (nq c).
Proof.
  intros i j Hi Hj Hn. unfold clock. apply foldr_max_le. split; [apply foldr_max_ge|]. apply Forall_forall.
  intros x (k & Hk%elem_of_seqZ & Ek)%list_elem_of_omap.
  destruct (foldr_max_ge (least (stamps_of a c)) (omap (stamp_of a c) (seqZ 0 (j + 1)))) as [_ F]. rewrite Forall_forall in F. apply F.
  apply list_elem_of_omap. exists k. split; [apply elem_of_seqZ; lia|done].
Qed.
Lemma clock_span : stamps_of a c <> [] -> 1 <= nq c -> least (stamps_of a c) <= clock 0 /\ clock (nq c - 1) <= greatest (stamps_of a c).
Proof.
  intros Hne H1. split; [apply foldr_max_ge|]. unfold clock. replace (nq c - 1 + 1) with (nq c) by lia. fold (stamps_of a c).
  destruct (foldr_max_ge 0 (stamps_of a c)) as [_ F]. apply foldr_max_le. split; [|done].
  destruct (stamps_of a c) as [|x l] eqn:E; [done|]. transitivity x; [apply foldr_min_le; left|]. by apply Forall_cons in F as [? _].
Qed.

Lemma sum_measured l : sumZ ((measured a c l).*2) = sumZ (ticks clock <$> filter (fun r => is_Some (duration a c r)) l).
Proof.
  unfold measured. induction l as [|r l IH]; [done|]. cbn [omap list_omap]. rewrite filter_cons.
  destruct (duration a c r) as [n|] eqn:E; cbn [fmap option_fmap option_map].
  - rewrite decide_True by done. rewrite !fmap_cons. unfold sumZ in *. cbn [foldr snd fst]. rewrite IH. f_equal.
    unfold duration in E. apply bind_Some in E as (s & Es & E). apply bind_Some in E as (e & Ee & E).
    unfold ticks. rewrite (clock_stamp _ _ Es), (clock_stamp _ _ Ee). destruct (s <=? e); [|done]. by injection E as <-.
  - rewrite decide_False by by intros [? ?]. done.
Qed.
Lemma duration_ends r n : duration a c r = Some n -> 0 <= qs r < nq c /\ 0 <= qe r < nq c /\ n = ticks clock r.
Proof.
  unfold duration. intros (s & Es & (e & Ee & E)%bind_Some)%bind_Some. unfold ticks. rewrite (clock_stamp _ _ Es), (clock_stamp _ _ Ee).
  destruct (s <=? e); [|done]. injection E as <-. by destruct (stamp_in _ _ Es), (stamp_in _ _ Ee).
Qed.
End Answered.

Lemma cleared_harvested c : shape c -> harvested (cleared c).
Proof. intros [A B C D E F G H I J]. split; [|done]. constructor; cbn; try done; unfold npools, GT_QP_SIZE in *; cbn; lia. Qed.
Lemma harvest_cleared a c templ g : (harvest a c templ g).1.1 = cleared c.
Proof. unfold harvest. destruct (_ || _); [done|]. cbv zeta. destruct (_ && _); [|done]. by destruct (report _ _ _ _). Qed.
Lemma shape_submitted c b : shape c -> shape (set_submitted c b).
Proof. intros [A B C D E F G H I J]. by constructor. Qed.

Lemma sorted_filter {A} (R : A -> A -> Prop) (P : A -> Prop) `{!forall x, Decision (P x)} l : StronglySorted R l -> StronglySorted R (filter P l).
Proof.
  induction 1 as [|x l S IH F]; [constructor|]. rewrite filter_cons. destruct (decide (P x)); [|done]. constructor; [done|].
  apply Forall_forall. intros y [_ Hy]%list_elem_of_filter. rewrite Forall_forall in F. by apply F.
Qed.

(** Whether a harvest at the time [t] ends the window. *)
Definition due (t : Z) (g : window) : bool := negb (frames g =? 0) && (window_ns g <=? u64 (t - win_t0 g)).


Definition demo_recorded : gt_cb := default (new_cb true) (GtRecord.cb (record_all 2 demo_create (new_cb true) demo_cmds)).
(** A stamp every 10 ticks from 1000; the sixth query has no result yet. *)
Definition demo_clock (q : Z) : Z := 1000 + 10 * (q mod GT_QP_SIZE).
Definition demo_answers : answers := mk_ans 5 (fun _ => VK_NOT_READY) (fun q => (demo_clock q, if q =? 5 then 0 else 1)) true true true.

(** ** The device's invariant *)

Definition pools_of (x : option gt_cb) : list Z := match x with Some c => qp c | None => [] end.
Definition owned (m : gmap Z (option gt_cb)) : list Z := concat ((fun x => pools_of x.2) <$> map_to_list m).

Lemma concat_perm {A} (l l' : list (list A)) : l ≡ₚ l' -> concat l ≡ₚ concat l'.
Proof. induction 1; simpl; [done|by f_equiv|by rewrite !app_assoc, (Permutation_app_comm y x)|by etrans]. Qed.
Lemma owned_insert m k x : m !! k = None -> owned (<[k := x]> m) ≡ₚ pools_of x ++ owned m.
Proof. intros E. unfold owned. rewrite (concat_perm _ _ (fmap_Permutation _ _ _ (map_to_list_insert m k x E))). done. Qed.
Lemma owned_delete m k x : m !! k = Some x -> owned m ≡ₚ pools_of x ++ owned (delete k m).
Proof. intros E. rewrite <- owned_insert by apply lookup_delete_eq. by rewrite insert_delete_id. Qed.
Lemma owned_update m k y : owned (<[k := y]> m) ≡ₚ pools_of y ++ owned (delete k m).
Proof. rewrite <- insert_delete_eq. apply owned_insert, lookup_delete_eq. Qed.

(** Timestamps are 64-bit. *)
Definition answers_ok (a : answers) : Prop := forall q, is_u64 (a_res a q).1.
Definition window_ok (g : window) : Prop := table_ok g /\ Forall interval (iv g).

Record world_ok (w : world) : Prop := {
  wo_shape cb c : gt_of w cb = Some c -> shape c;
  wo_recording cb c : gt_of w cb = Some c -> cb ∈ recording_now w -> inv c (default [] (streams w !! cb));
  wo_live : live w ≡ₚ owned (cmds w);
  wo_bad : bad_destroy w = false;
  wo_window : window_ok (win w);
  wo_known cb : cb ∈ recording_now w -> is_Some (cmds w !! cb);
}.

Lemma stat_add_ok g r ns : table_ok g -> table_ok (stat_add g r ns).
Proof.
  intros T. pose proof (rec_key_nonzero r) as Hk. destruct (stat_add_added g r ns T) as [i Hi E|d Hd P Z0 Hn Ha|Hn Ha].
  - pose proof (ok_load g T). apply table_ok_insert; try done; [cbn; unfold key_at in E; congruence|by left].
  - pose proof (nth_probe_range (rec_key r) d). apply table_ok_insert; try done; [lia|]. right. split; [done|]. split; [done|]. by exists d.
  - by destruct T; constructor.
Qed.
Lemma stat_add_iv g r ns : iv (stat_add g r ns) = iv g.
Proof.
  unfold stat_add. generalize (home (rec_key r)). induction (Z.to_nat GT_TAB) as [|n IH]; intros i; [done|]. cbn [probe].
  repeat case_match; done.
Qed.

Lemma lo_hi_range a c : answers_ok a -> 0 <= (lo_hi a c).1 /\ 0 <= (lo_hi a c).2 < 2 ^ 64.
Proof.
  intros Ha. unfold lo_hi. assert (H0 : 0 <= (UINT64_MAX, 0).1 /\ 0 <= (UINT64_MAX, 0).2 < 2 ^ 64) by (unfold UINT64_MAX; cbn [fst snd]; lia).
  revert H0. generalize (UINT64_MAX, 0). induction (seqZ 0 (nq c)) as [|q l IH]; intros x Hx; [done|]. cbn [foldl]. apply IH.
  pose proof (Ha q) as Hq. unfold is_u64, TS in *. destruct (AV a c q); [|done]. cbn [fst snd].
  split; [destruct (Z.ltb_spec (a_res a q).1 x.1)|destruct (Z.ltb_spec x.2 (a_res a q).1)]; lia.
Qed.

Lemma fold_in_ok a c g : answers_ok a -> window_ok g -> window_ok (fold_in a c g).
Proof.
  intros Ha [T I]. unfold fold_in. destruct (lo_hi_range a c Ha) as [Hl Hh]. set (g1 := foldl _ _ _).
  assert (W1 : window_ok g1).
  { unfold g1. assert (W0 : window_ok (start_window (a_now a) g)) by (split; [by destruct T; constructor|done]).
    revert W0. generalize (start_window (a_now a) g). induction (recs c) as [|r l IH]; intros g0 W0; [done|]. cbn [foldl]. apply IH.
    unfold add_measured. destruct (measures a c r); [|done]. destruct W0. split; [by apply stat_add_ok|by rewrite stat_add_iv]. }
  destruct W1 as [T1 I1]. unfold add_interval. destruct (Z.ltb_spec (lo_hi a c).1 (lo_hi a c).2); [|done].
  split; [by destruct T1; constructor|]. cbn [iv]. destruct (_ <? _); [|done]. apply Forall_app. split; [done|]. constructor; [|done].
  split; cbn [fst snd]; lia.
Qed.
Lemma report_ok lines templ t g : window_ok g -> window_ok (report lines templ t g).2.
Proof.
  intros [T I]. unfold report, report_with. destruct (busy_span _). cbn [snd]. split; [|constructor]. apply blank_ok. split; [|done]. cbn [tab]. by rewrite (ok_length g T).
Qed.
Lemma harvest_window a c templ g : answers_ok a -> window_ok g -> window_ok (harvest a c templ g).1.2.
Proof.
  intros Ha W. unfold harvest. destruct (_ || _); [done|]. cbv zeta. pose proof (fold_in_ok a c g Ha W) as W'.
  destruct (_ && _); [|done]. pose proof (report_ok (a_lines a) templ (a_now a) _ W') as R. by destruct (report _ _ _ _).
Qed.

Lemma run_harvest_spec a c w :
  answers_ok a -> window_ok (win w) -> shape c ->
  let r := run_harvest a c w in
  r.1 = cleared c /\ harvested r.1 /\ window_ok (win r.2) /\
  cmds r.2 = cmds w /\ recording_now r.2 = recording_now w /\ streams r.2 = streams w /\ live r.2 = live w /\ bad_destroy r.2 = bad_destroy w.
Proof.
  intros Ha W S. unfold run_harvest. pose proof (harvest_window a c (gt_templ_updates (objs w)) (win w) Ha W) as H.
  pose proof (harvest_cleared a c (gt_templ_updates (objs w)) (win w)) as E. destruct (harvest _ _ _ _) as [[c' g] p]. cbn [fst snd] in *. subst c'.
  split; [done|]. split; [by apply cleared_harvested|]. done.
Qed.

Lemma remove_one_perm x l k : l ≡ₚ x :: k -> exists l', remove_one x l = Some l' /\ l' ≡ₚ k.
Proof.
  revert k. induction l as [|y l IH]; intros k P; [by apply Permutation_nil_l in P|]. cbn [remove_one].
  destruct (Z.eqb_spec x y) as [->|N]; [exists l; split; [done|by apply Permutation_cons_inv in P]|].
  assert (Hy : y ∈ k) by (assert (Hy : y ∈ x :: k) by (rewrite <- P; set_solver); set_solver).
  apply elem_of_Permutation in Hy as [k' Pk]. rewrite Pk in P.
  destruct (IH k') as (l' & -> & P'); [by apply (Permutation_cons_inv (a := y)); rewrite P; apply Permutation_swap|].
  exists (y :: l'). split; [done|]. by rewrite P', Pk.
Qed.
Lemma destroy_all l w k :
  live w ≡ₚ l ++ k -> bad_destroy w = false ->
  let w' := foldl DestroyQueryPool w l in
  live w' ≡ₚ k /\ bad_destroy w' = false /\ cmds w' = cmds w /\ recording_now w' = recording_now w /\ streams w' = streams w /\ win w' = win w.
Proof.
  revert w. induction l as [|q l IH]; intros w P B; [done|]. cbn [foldl]. destruct (remove_one_perm q (live w) (l ++ k) P) as (l' & E & P').
  unfold DestroyQueryPool at 2 4 6 8 10 12. rewrite E. by apply (IH (set_live w l')).
Qed.

(** Freeing a record whose pools are counted in [live] besides the table's. *)
Lemma cb_free_spec a x w :
  answers_ok a -> window_ok (win w) -> bad_destroy w = false -> live w ≡ₚ pools_of x ++ owned (cmds w) -> (forall c, x = Some c -> shape c) ->
  let w' := nvhal_gt_cb_free a x w in
  live w' ≡ₚ owned (cmds w') /\ bad_destroy w' = false /\ window_ok (win w') /\
  cmds w' = cmds w /\ recording_now w' = recording_now w /\ streams w' = streams w.
Proof.
  intros Ha W B P S. destruct x as [c|]; [|done]. unfold nvhal_gt_cb_free. destruct (run_harvest_spec a c w Ha W (S c eq_refl)) as (E & _ & W' & E1 & E2 & E3 & E4 & E5).
  destruct (run_harvest a c w) as [c' w1]. cbn [fst snd] in *. subst c'. cbn [cleared qp set_submitted set_recs set_queries].
  destruct (destroy_all (qp c) w1 (owned (cmds w1))) as (P1 & B1 & C1 & R1 & S1 & G1); [by rewrite E4, E1|by rewrite E5|].
  cbv zeta. rewrite C1, R1, S1, G1, E1, E2, E3. rewrite E1 in P1. done.
Qed.

Lemma gt_of_insert w cb x cb' : gt_of (put_cb w cb x) cb' = if decide (cb = cb') then x else gt_of w cb'.
Proof.
  unfold gt_of, put_cb, set_cmds. cbn [cmds]. destruct (decide (cb = cb')) as [->|N]; [by rewrite lookup_insert_eq|by rewrite lookup_insert_ne].
Qed.
Lemma gt_of_lookup w cb c : gt_of w cb = Some c -> cmds w !! cb = Some (Some c).
Proof. unfold gt_of. by destruct (cmds w !! cb) as [[?|]|] eqn:E; cbn; intros [= ->]. Qed.

(** Replacing one record by one with the pools [l] more. *)
Lemma put_ok w cb c c' l :
  gt_of w cb = Some c -> qp c' = qp c ++ l -> live w ≡ₚ owned (cmds w) -> live w ++ l ≡ₚ owned (<[cb := Some c']> (cmds w)).
Proof.
  intros E%gt_of_lookup Q P. rewrite owned_update, P, (owned_delete _ _ _ E). cbn [pools_of]. rewrite Q, <- !app_assoc. f_equiv. by rewrite Permutation_app_comm.
Qed.

(** Everything but the entry [cb] as before. *)
Lemma world_ok_put w w' cb x :
  world_ok w -> cmds w' = <[cb := x]> (cmds w) ->
  (forall c, x = Some c -> shape c /\ (cb ∈ recording_now w' -> inv c (default [] (streams w' !! cb)))) ->
  (forall cb', cb' <> cb -> streams w' !! cb' = streams w !! cb') ->
  recording_now w' ⊆ recording_now w ∪ {[cb]} ->
  live w' ≡ₚ owned (cmds w') -> bad_destroy w' = false -> window_ok (win w') -> world_ok w'.
Proof.
  intros [A B C D E K] Ec Hx St Re Li Ba Wi.
  assert (G : forall cb', gt_of w' cb' = if decide (cb = cb') then x else gt_of w cb').
  { intros cb'. unfold gt_of. rewrite Ec. destruct (decide (cb = cb')) as [->|N]; [by rewrite lookup_insert_eq|by rewrite lookup_insert_ne]. }
  constructor; [| |done|done|done|].
  - intros cb' c'. rewrite G. destruct (decide (cb = cb')) as [->|N]; [by intros [? _]%Hx|apply A].
  - intros cb' c'. rewrite G. destruct (decide (cb = cb')) as [<-|N]; [by intros [_ ?]%Hx|]. intros E' H. rewrite St by done. apply B; [done|set_solver].
  - intros cb' H. rewrite Ec. destruct (decide (cb = cb')) as [<-|N]; [by rewrite lookup_insert_eq|]. rewrite lookup_insert_ne by done. apply K. set_solver.
Qed.
(** Nothing of the table changes. *)
Lemma world_ok_same w w' :
  world_ok w -> cmds w' = cmds w -> (forall cb c, cb ∈ recording_now w' -> gt_of w cb = Some c -> streams w' !! cb = streams w !! cb) ->
  recording_now w' ⊆ recording_now w -> live w' = live w -> bad_destroy w' = bad_destroy w -> window_ok (win w') -> world_ok w'.
Proof.
  intros [A B C D E K] Ec St Re El Eb Wi.
  assert (G : forall cb', gt_of w' cb' = gt_of w cb') by (intros cb'; unfold gt_of; by rewrite Ec).
  constructor; try done.
  - intros cb c. rewrite G. apply A.
  - intros cb c. rewrite G. intros Hc H. rewrite (St cb c) by done. apply B; [done|by apply Re].
  - by rewrite El, Ec.
  - congruence.
  - intros cb H. rewrite Ec. by apply K, Re.
Qed.

Lemma forget_ok a cb w : answers_ok a -> world_ok w -> world_ok (forget a cb w) /\ cmds (forget a cb w) = delete cb (cmds w) /\ cb ∉ recording_now (forget a cb w).
Proof.
  intros Ha W. pose proof W as [A B C D E K]. unfold forget. destruct (cmds w !! cb) as [x|] eqn:Ex.
  2: { split; [done|]. split; [by rewrite delete_id|]. intros [? ?]%K. congruence. }
  set (w1 := set_recording _ _).
  destruct (cb_free_spec a x w1 Ha) as (P1 & B1 & W1 & C1 & R1 & S1); [done|done|unfold w1; cbn; rewrite C; by apply owned_delete| |].
  { intros c ->. apply (A cb). unfold gt_of. by rewrite Ex. }
  split; [|split; [by rewrite C1|rewrite R1; set_solver]].
  assert (G : forall cb' c, gt_of (nvhal_gt_cb_free a x w1) cb' = Some c -> cb' <> cb /\ gt_of w cb' = Some c).
  { intros cb' c. unfold gt_of. rewrite C1. cbn [w1 set_recording set_cmds cmds]. destruct (decide (cb' = cb)) as [->|N]; [by rewrite lookup_delete_eq|].
    by rewrite lookup_delete_ne. }
  constructor; try done.
  - intros cb' c [_ H]%G. by eapply A.
  - intros cb' c [N H]%G. rewrite R1, S1. cbn [w1 set_recording set_cmds recording_now streams]. intros Hr. apply B; [done|set_solver].
  - intros cb'. rewrite R1, C1. cbn [w1 set_recording set_cmds recording_now cmds]. intros [H1 H2]%elem_of_difference.
    rewrite lookup_delete_ne by set_solver. by apply K.
Qed.

Lemma alloc_one_ok a prim w x : (forall cb, answers_ok (a cb)) -> world_ok w -> world_ok (alloc_one a prim w x).
Proof.
  intros Ha W. destruct x as [[cb tracked] ok]. unfold alloc_one. destruct (forget_ok (a cb) cb w (Ha cb) W) as (W1 & E1 & N1).
  destruct (_ || _); [|done]. pose proof W1 as [A B C D E K]. apply (world_ok_put (forget (a cb) cb w) _ cb (if ok then Some (new_cb prim) else None)); try done.
  - intros c Hc. destruct ok; [|done]. injection Hc as <-. split; [apply new_cb_harvested|]. intros H. by destruct (N1 H).
  - cbn. set_solver.
  - cbn [put_cb set_cmds live cmds]. rewrite owned_update, E1, delete_delete_eq. rewrite C, E1. by destruct ok.
Qed.

Lemma begin_ok a create r cb w : answers_ok a -> world_ok w -> world_ok (gt_BeginCommandBuffer a create r cb w).
Proof.
  intros Ha W. unfold gt_BeginCommandBuffer. set (w0 := set_recording w _).
  assert (W0 : world_ok w0) by (apply (world_ok_same w); try done; [cbn; set_solver|apply W]).
  destruct (gt_of w0 cb) as [c|] eqn:Ec; [|done]. pose proof W0 as [A B C D E K].
  destruct (run_harvest_spec a c w0 Ha E (A cb c Ec)) as (E0 & H & W' & E1 & E2 & E3 & E4 & E5).
  destruct (run_harvest a c w0) as [c1 w1]. cbn [fst snd] in *. assert (N : cb ∉ recording_now w0) by (cbn; set_solver).
  assert (Q : qp c1 = qp c) by (by subst c1).
  assert (W1 : world_ok w1) by (apply (world_ok_same w0); rewrite ?E1, ?E2, ?E3, ?E4, ?E5; done).
  destruct (r =? VK_SUCCESS); cbn [negb].
  2: { apply (world_ok_put w1 _ cb (Some c1)); try done.
       - intros ? [= <-]. split; [apply H|]. cbn. rewrite E2. intros X. by destruct (N X).
       - cbn. set_solver.
       - cbn. rewrite E4, E1. rewrite <- (app_nil_r (live w0)). eapply (put_ok w0); [exact Ec| |done]. by rewrite app_nil_r.
       - cbn. by rewrite E5. }
  destruct (wp_begin_recording 0 create c1 H) as (c' & Es & J & _ & _ & Qp).
  set (s := (begin_recording create c1 (mk_cst (Some c1) [])).2) in *. rewrite Es.
  assert (Ql : exists l, qp c' = qp c1 ++ l /\ drop (length (qp c1)) (qp c') = l).
  { rewrite Qp. destruct (primary c1); [|exists []; by rewrite app_nil_r, drop_all].
    unfold grow_pools. destruct (create_pools_app (Z.to_nat (pools_wanted (fresh_recording c1) - npools (fresh_recording c1))) create 0 (qp (fresh_recording c1))) as (k & -> & _).
    exists k. by rewrite drop_app_length. }
  destruct Ql as (l & Q1 & Q2). rewrite Q2.
  apply (world_ok_put w1 _ cb (Some c')); try done.
  - intros ? [= <-]. split; [apply J|]. intros _. cbn. by rewrite lookup_insert_eq.
  - intros cb' N'. cbn. by rewrite lookup_insert_ne.
  - cbn. rewrite E4, E1. eapply (put_ok w0); [exact Ec|by rewrite Q1, Q|done].
  - cbn. by rewrite E5.
Qed.

Lemma gt_cmd_none level o look mem x l : gt_cmd level o look mem x (mk_cst None l) = (tt, mk_cst None (l ++ [INext x])).
Proof. destruct x as [| | | | | |name| | |name|]; try reflexivity; cbn [gt_cmd]; unfold gt_CmdDraw, gt_CmdXfer; by destruct (assoc _ name). Qed.

Lemma cmd_ok level mem cb x w : world_ok w -> cb ∈ recording_now w \/ gt_of w cb = None -> world_ok (gt_Cmd level mem cb x w).
Proof.
  intros W Hr. unfold gt_Cmd. pose proof W as [A B C D E K]. destruct (gt_of w cb) as [c|] eqn:Ec.
  - destruct Hr as [Hr|?]; [|done]. pose proof (B cb c Ec Hr) as J.
    destruct (wp_cmd level (objs w) (gt_of w) mem False c (default [] (streams w !! cb)) x J) as (c' & Es & J' & Q & _); [done|].
    set (s := (gt_cmd _ _ _ _ _ _).2) in *. rewrite Es. apply (world_ok_put w _ cb (Some c')); try done.
    + intros ? [= <-]. split; [apply J'|]. intros _. cbn. by rewrite lookup_insert_eq.
    + intros cb' N. cbn. by rewrite lookup_insert_ne.
    + cbn. set_solver.
    + cbn. rewrite <- (app_nil_r (live w)). eapply put_ok; [exact Ec|by rewrite app_nil_r|done].
  - rewrite gt_cmd_none. cbn [snd GtRecord.cb out]. apply (world_ok_same w); try done.
    intros cb' c _ H. cbn. rewrite lookup_insert_ne; [done|]. intros ->. congruence.
Qed.

Lemma end_shape c : shape c -> shape (end_recording c).2 /\ qp (end_recording c).2 = qp c.
Proof.
  intros S. pose proof S as [A B C D E F G H I J]. unfold end_recording. destruct (active c) eqn:Ha; [|done]. specialize (J eq_refl).
  assert (Hn : 1 <= npools c <= 8) by (unfold npools; destruct (qp c); [done|simpl in *; lia]).
  assert (K : forall n, 0 < n <= 65536 -> shape (set_want c n)) by (intros n Hw; constructor; cbn; try done; by rewrite Ha).
  unfold GT_QP_SIZE in *. destruct (overflow c); cbn [snd].
  - split; [|done]. apply K. rewrite u32_id by (unfold is_u32; lia). lia.
  - destruct (_ <? _); [|done]. split; [|done]. apply K. rewrite u32_id by (unfold is_u32; lia). lia.
Qed.
Lemma end_ok cb w : world_ok w -> world_ok (gt_EndCommandBuffer cb w).
Proof.
  intros W. unfold gt_EndCommandBuffer. set (w0 := set_recording w _).
  assert (W0 : world_ok w0) by (apply (world_ok_same w); try done; [cbn; set_solver|apply W]).
  destruct (gt_of w0 cb) as [c|] eqn:Ec; [|done]. pose proof W0 as [A B C D E K].
  destruct (end_shape c (A cb c Ec)) as [Sh Q]. destruct (end_recording c) as [over c'].
  apply (world_ok_put w0 _ cb (Some c')); [done|by destruct over| | | | | |].
  - intros ? [= <-]. split; [done|]. intros H. exfalso. assert (Hn : cb ∉ recording_now w0) by (cbn; set_solver). by destruct over; apply Hn.
  - by destruct over.
  - destruct over; cbn; set_solver.
  - assert (P : live w0 ≡ₚ owned (<[cb := Some c']> (cmds w0))) by (rewrite <- (app_nil_r (live w0)); eapply put_ok; [exact Ec|by rewrite app_nil_r|done]).
    by destruct over.
  - by destruct over.
  - destruct over; [|done]. cbn. destruct E as [T I]. split; [by destruct T; constructor|done].
Qed.

Lemma mark_ok w cb : world_ok w -> world_ok (mark_submitted w cb).
Proof.
  intros W. unfold mark_submitted. destruct (gt_of w cb) as [c|] eqn:Ec; [|done]. pose proof W as [A B C D E K].
  apply (world_ok_put w _ cb (Some (set_submitted c true))); try done.
  - intros ? [= <-]. split; [by apply shape_submitted, (A cb)|]. intros H. destruct (B cb c Ec H) as (J1 & J2 & J3).
    split; [by apply shape_submitted|]. split; [by destruct J2|done].
  - cbn. set_solver.
  - cbn. rewrite <- (app_nil_r (live w)). eapply put_ok; [exact Ec|by rewrite app_nil_r|done].
Qed.
Lemma set_win_ok w g : world_ok w -> window_ok g -> world_ok (set_win w g).
Proof. intros W G. by apply (world_ok_same w). Qed.
Lemma submit_ok l w : world_ok w -> world_ok (gt_QueueSubmit l w).
Proof.
  intros W. unfold gt_QueueSubmit. assert (W' : world_ok (foldl mark_submitted w (concat l))).
  { revert w W. induction (concat l) as [|cb k IH]; intros w W; [done|]. cbn [foldl]. by apply IH, mark_ok. }
  apply set_win_ok; [done|]. destruct (wo_window _ W') as [T I]. split; [by destruct T; constructor|done].
Qed.

(** One call of the application on the device. *)
Inductive step (level : Z) (w : world) : world -> Prop :=
  | step_alloc a r prim l : (forall cb, answers_ok (a cb)) -> step level w (gt_AllocateCommandBuffers a r prim l w)
  | step_begin a create r cb : answers_ok a -> step level w (gt_BeginCommandBuffer a create r cb w)
  | step_cmd mem cb x : cb ∈ recording_now w \/ gt_of w cb = None -> step level w (gt_Cmd level mem cb x w)
  | step_end cb : step level w (gt_EndCommandBuffer cb w)
  | step_submit l : step level w (gt_QueueSubmit l w)
  | step_frame now : step level w (frame now w)
  | step_forget a cb : answers_ok a -> step level w (forget a cb w)
  | step_objects o : step level w (set_objs w o).
Inductive reach (level window : Z) : world -> Prop :=
  | reach_init fns w : nvhal_gt_device_init level window true fns true = Some w -> reach level window w
  | reach_step w w' : reach level window w -> step level w w' -> reach level window w'.

Lemma reach_ok level window w : reach level window w -> world_ok w.
Proof.
  induction 1 as [fns w E|w w' _ W S].
  - unfold nvhal_gt_device_init in E. destruct (level <=? 0); [done|]. destruct (_ || _); [done|]. injection E as <-. constructor; cbn; try done.
    split; [by apply blank_ok|constructor].
  - destruct S as [a r prim l Ha|a create r cb Ha|mem cb x Hr|cb|l|now|a cb Ha|o].
    + unfold gt_AllocateCommandBuffers. destruct (r =? VK_SUCCESS); [|done]. revert w W. induction l as [|x l IH]; intros w W; [done|].
      cbn [foldl]. by apply IH, alloc_one_ok.
    + by apply begin_ok.
    + by apply cmd_ok.
    + by apply end_ok.
    + by apply submit_ok.
    + unfold frame. apply set_win_ok; [done|]. destruct (wo_window _ W) as [T I]. split; [by destruct T; constructor|done].
    + by apply forget_ok.
    + by apply (world_ok_same w); [..|apply W].
Qed.

(** C27: the query pools of the device are exactly those of its command
    buffers: after any sequence of allocations, begins, commands, ends,
    submissions, frames and frees, whatever the ICD and the allocator answer,
    every query pool created and not yet destroyed is held by one record of the
    table, none was destroyed twice or without having been created, no command
    buffer holds more than eight, and once every command buffer is freed none
    is left.  The table of the window stays well formed throughout. *)
Theorem gt_session_exact (level window : Z) (w : world) :
  reach level window w ->
  live w ≡ₚ owned (cmds w) /\ bad_destroy w = false /\
  (forall cb c, gt_of w cb = Some c -> (length (qp c) <= 8)%nat) /\
  ((forall cb c, gt_of w cb <> Some c) -> live w = []) /\
  table_ok (win w) /\ Forall interval (iv (win w)).
Proof.
  intros [A B C D [E F] K]%reach_ok. split; [done|]. split; [done|]. split; [intros cb c H; by apply (A cb c H)|]. split; [|done].
  intros H. assert (Ho : owned (cmds w) = []).
  { unfold owned. assert (G : forall x, x ∈ map_to_list (cmds w) -> pools_of x.2 = []).
    { intros [cb x] Hx%elem_of_map_to_list. destruct x as [c|]; [|done]. exfalso. apply (H cb c). unfold gt_of. by rewrite Hx. }
    induction (map_to_list (cmds w)) as [|x l IH]; [done|]. cbn [fmap list_fmap concat]. rewrite (G x) by set_solver. apply IH. set_solver. }
  rewrite Ho in C. by apply Permutation_nil_r in C.
Qed.

(** C28: every record stays within its C types: in every state the device
    reaches, a record has at most 8 pools and at most as many queries as they
    hold, at most one region per query (so the record array never exceeds 65536
    entries and its doubling cannot overflow), the next number of queries fits
    32 bits, the bound sets are 8, the draw counters are 32-bit values; inside
    a render pass the index of its record is within the allocated array, and
    while the command buffer is being recorded it is a render pass record. *)
Theorem gt_records_typed (level window : Z) (w : world) (cb : Z) (c : gt_cb) :
  reach level window w -> gt_of w cb = Some c ->
  0 <= nq c <= Z.of_nat (length (qp c)) * 4096 /\ nq c <= 32768 /\
  Z.of_nat (length (recs c)) <= nq c /\ Z.of_nat (length (recs c)) <= caprec c <= 65536 /\
  0 < want_q c <= 65536 /\ length (cset c) = 8%nat /\ is_u32 (cb_draws c) /\ Forall (fun r => is_u32 (draws r)) (recs c) /\
  (in_rp c = true -> Z.of_nat (rp_rec c) < caprec c) /\
  (in_rp c = true -> cb ∈ recording_now w -> exists r, recs c !! rp_rec c = Some r /\ kind r = GK_RP /\ qe r = GT_NOQ).
Proof.
  intros W%reach_ok Hc. pose proof (wo_shape _ W cb c Hc) as [A B C D E F G H I J]. unfold npools, GT_QP_SIZE in B.
  split; [done|]. split; [lia|]. split; [done|]. split; [apply C|]. do 4 (split; [done|]). split; [done|].
  intros Hr Hn. destruct (wo_recording _ W cb c Hc Hn) as (_ & R & _). destruct (re_open c R Hr) as (pre & r & ds & Er & Hl & Hk & Hq & _).
  exists r. split; [|done]. rewrite Er, <- Hl. by apply list_lookup_middle.
Qed.

(** A session: a command buffer is allocated, begun, used, ended and
    submitted, begun again (harvested) and freed. *)
Definition session_answers : answers := mk_ans 5 (fun _ => 0) (fun q => (u64 (demo_clock q), 1)) true true true.
Lemma session_answers_ok : answers_ok session_answers.
Proof. intros q. apply u64_range. Qed.
Definition demo_world : world := mk_world ∅ ∅ ∅ (new_window 3) no_objects [] false [].
Definition demo_begun : world :=
  gt_BeginCommandBuffer session_answers demo_create 0 1 (gt_AllocateCommandBuffers (fun _ => session_answers) 0 true [(1, true, true)] demo_world).
Definition demo_again : world :=
  gt_BeginCommandBuffer session_answers demo_create 0 1 (gt_QueueSubmit [[1]] (gt_EndCommandBuffer 1 (gt_Cmd 2 true 1 (CmdXfer "vkCmdCopyBuffer") demo_begun))).
Definition demo_freed : world := forget session_answers 1 demo_again.

Lemma demo_begun_reach : reach 2 3 demo_begun.
Proof.
  apply (reach_step _ _ (gt_AllocateCommandBuffers (fun _ => session_answers) 0 true [(1, true, true)] demo_world)); [|apply step_begin, session_answers_ok].
  apply (reach_step _ _ demo_world); [by apply (reach_init 2 3 [5])|]. apply step_alloc. intros _. apply session_answers_ok.
Qed.
Lemma demo_again_reach : reach 2 3 demo_again.
Proof.
  eapply reach_step; [|apply step_begin, session_answers_ok]. eapply reach_step; [|apply step_submit]. eapply reach_step; [|apply step_end].
  eapply reach_step; [apply demo_begun_reach|]. apply step_cmd. left. cbv [demo_begun]. vm_compute. done.
Qed.

Lemma gt_session_exact_witness : live demo_again = [100] /\ cbs (win demo_again) = 1 /\ live demo_freed = [].
Proof.
  split; [by vm_compute|]. split; [by vm_compute|].
  assert (R : reach 2 3 demo_freed) by (eapply reach_step; [apply demo_again_reach|apply step_forget, session_answers_ok]).
  destruct (gt_session_exact 2 3 demo_freed R) as (_ & _ & _ & H & _). apply H.
  intros cb c. assert (E : cmds demo_freed = ∅) by (by vm_compute). unfold gt_of. by rewrite E, lookup_empty.
Defined.

Lemma gt_records_typed_witness : exists c, gt_of demo_again 1 = Some c /\ caprec c <= 65536.
Proof.
  destruct (gt_of demo_again 1) as [c|] eqn:E; [|by vm_compute in E]. exists c. split; [done|].
  by destruct (gt_records_typed 2 3 demo_again 1 c demo_again_reach E) as (_ & _ & _ & [_ ?] & _).
Defined.

(** A name of the table is wrapped, and its wrapper chains to the entry point
    resolved last for that name; any other name is passed on. *)
Lemma gt_wrap_chains next name fn :
  fn <> 0 ->
  nvhal_gt_wrap true next name fn =
    (if bool_decide (name ∈ wrapped_names) then (Wrapper name, <[name := fn]> next) else (Plain fn, next)) /\
  nvhal_gt_wrap false next name fn = (Plain fn, next).
Proof. intros H. unfold nvhal_gt_wrap. rewrite (proj2 (Z.eqb_neq fn 0)) by done. split; [by case_bool_decide|done]. Qed.
Lemma wrapped_names_distinct : NoDup wrapped_names.
Proof. apply (bool_decide_unpack _). by vm_compute. Qed.

End GtSession.
