(* ===== verification/HalExts.v ===== *)
(** * Extension lists of the Vulkan HAL

    Which extensions the HAL of [hal/src/hal.c] and [hal/src/device.c] shows to
    applications and which it enables on the driver.  The driver's lists come
    from a loop of counting and filling calls; the HAL filters them in place,
    adds the two Android extensions it implements itself, and turns an
    application's list into the driver's, adding what its own code needs.

    The driver is a parameter (its answer at each call), as are the generated
    tables [nvhal_image_ext_hidden] and [nvhal_device_ext_known]. *)

From Stdlib Require Import ZArith Lia.
From stdpp Require Import base option sets strings gmap list.
From S2P Require Import Prelude Vulkan.

Set Default Goal Selector "!".
#[local] Open Scope Z_scope.

Module HalExts.
Import Vk.

Definition VK_INCOMPLETE : Z := 5.
Definition VK_ERROR_INITIALIZATION_FAILED : Z := -3.
Definition VK_ERROR_LAYER_NOT_PRESENT : Z := -6.
Definition VK_ERROR_EXTENSION_NOT_PRESENT : Z := -7.
Definition VK_ERROR_INCOMPATIBLE_DRIVER : Z := -9.

(** [VkExtensionProperties]. *)
Record ext := mk_ext { extensionName : string; specVersion : Z }.
#[export] Instance ext_eq_dec : EqDecision ext.
Proof. solve_decision. Defined.

Definition nvhal_ext_in (exts : list ext) (name : string) : bool := bool_decide (name ∈ (extensionName <$> exts)).

(** The caller's array ([None]: the null pointer) and its count, before and after. *)
Definition nvhal_fill_ext_props (src : list ext) (pCount : Z) (pProps : option (list ext)) : Z * Z * option (list ext) :=
  match pProps with
  | None => (VK_SUCCESS, Z.of_nat (length src), None)
  | Some arr =>
      let c := if pCount <? Z.of_nat (length src) then pCount else Z.of_nat (length src) in
      let k := Z.to_nat c in
      (if c <? Z.of_nat (length src) then VK_INCOMPLETE else VK_SUCCESS, c, Some (take k src ++ drop k arr))
  end.

(** ** Asking the driver *)

(** What the driver answers to its calls, in the order they are made: to a
    counting call (result, count), to a filling call of a given capacity
    (result, entries written), and what [realloc] answers before the latter. *)
Record enum_driver := mk_ed {
  ed_count : nat -> Z * Z;
  ed_realloc : nat -> bool;
  ed_fill : nat -> Z -> Z * list ext;
}.

(** The loop of [icd_instance_exts] and [icd_device_exts]; [room] is the
    number of entries the array is given for a count.  The result is an error,
    or the entries and the array's capacity; [None]: [fuel] passes were not
    enough. *)
Fixpoint enum_loop (D : enum_driver) (room : Z -> Z) (fuel t : nat) : option (Z + list ext * Z) :=
  match fuel with
  | O => None
  | S fuel =>
      let '(r, n) := ed_count D t in
      if negb (r =? VK_SUCCESS) then Some (inl r)
      else if negb (ed_realloc D t) then Some (inl VK_ERROR_OUT_OF_HOST_MEMORY)
      else
        let '(r, p) := ed_fill D (S t) n in
        if r =? VK_INCOMPLETE then enum_loop D room fuel (S (S t))
        else if negb (r =? VK_SUCCESS) then Some (inl r)
        else Some (inr (p, room n))
  end.

Definition icd_device_exts (D : enum_driver) (fuel : nat) : option (Z + list ext * Z) :=
  enum_loop D (fun n => u32 (n + 2)) fuel 0.

(** ** Instance extensions *)

Definition hidden_instance_exts : list string :=
  ["VK_KHR_surface"; "VK_KHR_xcb_surface"; "VK_KHR_xlib_surface"; "VK_KHR_wayland_surface"; "VK_KHR_display";
   "VK_KHR_get_display_properties2"; "VK_EXT_direct_mode_display"; "VK_EXT_display_surface_counter";
   "VK_KHR_get_surface_capabilities2"; "VK_EXT_surface_maintenance1"; "VK_KHR_surface_maintenance1";
   "VK_EXT_swapchain_colorspace"; "VK_KHR_surface_protected_capabilities"; "VK_EXT_headless_surface";
   "VK_NV_display_stereo"]%string.

(** [strncmp(name, "VK_EXT_acquire_", 15)] and [strcmp(name + l - 8, "_display")]. *)
Definition instance_ext_hidden (name : string) : bool :=
  bool_decide (name ∈ hidden_instance_exts) ||
  (String.prefix "VK_EXT_acquire_" name && (8 <? String.length name)%nat &&
   String.eqb (String.substring (String.length name - 8) 8 name) "_display").

(** The driver's list and the part of it the HAL shows; [malloc_ok]: the
    second array could be allocated. *)
Definition icd_instance_exts (D : enum_driver) (malloc_ok : bool) (fuel : nat) : option (Z + list ext * list ext) :=
  match enum_loop D (fun n => if n =? 0 then 1 else n) fuel 0 with
  | None => None
  | Some (inl r) => Some (inl r)
  | Some (inr (p, _)) =>
      if negb malloc_ok then Some (inl VK_ERROR_OUT_OF_HOST_MEMORY)
      else Some (inr (p, filter (fun e => instance_ext_hidden (extensionName e) = false) p))
  end.

Definition hal_EnumerateInstanceExtensionProperties (D : enum_driver) (malloc_ok : bool) (fuel : nat)
    (layer : option (Z * Z * option (list ext))) (pCount : Z) (pProps : option (list ext)) : option (Z * Z * option (list ext)) :=
  match layer with
  | Some answer => Some answer
  | None =>
      match icd_instance_exts D malloc_ok fuel with
      | None => None
      | Some (inl r) => Some (r, pCount, pProps)
      | Some (inr (_, vis)) => Some (nvhal_fill_ext_props vis pCount pProps)
      end
  end.
(** An ICD has no layers. *)
Definition hal_EnumerateInstanceLayerProperties : Z * Z := (VK_SUCCESS, 0).

(** ** Versions *)

Definition VK_MAKE_API_VERSION (variant major minor patch : Z) : Z :=
  Z.lor (Z.lor (Z.lor (Z.shiftl variant 29) (Z.shiftl major 22)) (Z.shiftl minor 12)) patch.
Definition VK_API_VERSION_MAJOR (v : Z) : Z := Z.land (Z.shiftr v 22) 0x7f.
Definition VK_API_VERSION_MINOR (v : Z) : Z := Z.land (Z.shiftr v 12) 0x3ff.
Definition VK_API_VERSION_1_0 : Z := VK_MAKE_API_VERSION 0 1 0 0.
Definition VK_API_VERSION_1_1 : Z := VK_MAKE_API_VERSION 0 1 1 0.
Definition VK_API_VERSION_1_2 : Z := VK_MAKE_API_VERSION 0 1 2 0.
Definition VK_API_VERSION_1_4 : Z := VK_MAKE_API_VERSION 0 1 4 0.

Definition api_minor_ge (v want : Z) : bool :=
  (VK_API_VERSION_MAJOR want <? VK_API_VERSION_MAJOR v) ||
  ((VK_API_VERSION_MAJOR v =? VK_API_VERSION_MAJOR want) && (VK_API_VERSION_MINOR want <=? VK_API_VERSION_MINOR v)).
Definition api_min (a b : Z) : Z :=
  let ma := VK_MAKE_API_VERSION 0 (VK_API_VERSION_MAJOR a) (VK_API_VERSION_MINOR a) 0 in
  let mb := VK_MAKE_API_VERSION 0 (VK_API_VERSION_MAJOR b) (VK_API_VERSION_MINOR b) 0 in
  if ma <? mb then ma else mb.

(** ** The names a new instance is created with *)

Definition legacy_instance_exts : list string :=
  ["VK_KHR_get_physical_device_properties2"; "VK_KHR_external_memory_capabilities";
   "VK_KHR_external_semaphore_capabilities"; "VK_KHR_external_fence_capabilities"]%string.

(** The application's names, each of them shown; [None]: one is not. *)
Fixpoint instance_requested (vis : list ext) (es names : list string) : option (list string) :=
  match es with
  | [] => Some names
  | e :: es => if nvhal_ext_in vis e then instance_requested vis es (names ++ [e]) else None
  end.
Definition add_legacy (all : list ext) (names : list string) (k : string) : list string :=
  if negb (bool_decide (k ∈ names)) && nvhal_ext_in all k then names ++ [k] else names.
Definition instance_names (all vis : list ext) (api : Z) (es : list string) : option (list string) :=
  names ← instance_requested vis es [];
  Some (if api_minor_ge api VK_API_VERSION_1_1 then names else foldl (add_legacy all) names legacy_instance_exts).

(** ** Device extensions *)

Definition hidden_device_exts : list string :=
  ["VK_KHR_swapchain"; "VK_KHR_display_swapchain"; "VK_EXT_display_control"; "VK_KHR_swapchain_mutable_format";
   "VK_EXT_swapchain_maintenance1"; "VK_KHR_swapchain_maintenance1"; "VK_KHR_present_id"; "VK_KHR_present_id2";
   "VK_KHR_present_wait"; "VK_KHR_present_wait2"; "VK_KHR_present_mode_fifo_latest_ready";
   "VK_EXT_present_mode_fifo_latest_ready"; "VK_EXT_present_timing"; "VK_NV_present_metering";
   "VK_NV_internal_nvpresent"; "VK_GOOGLE_display_timing"; "VK_KHR_incremental_present";
   "VK_KHR_shared_presentable_image"; "VK_EXT_hdr_metadata"; "VK_EXT_full_screen_exclusive";
   "VK_NV_acquire_winrt_display"; "VK_NV_low_latency2"]%string.
Definition hidden_device_exts_missing_lib : list string :=
  ["VK_KHR_acceleration_structure"; "VK_KHR_ray_query"; "VK_KHR_ray_tracing_pipeline"; "VK_NV_ray_tracing";
   "VK_NV_cuda_kernel_launch"; "VK_NVX_binary_import"; "VK_NV_optical_flow"]%string.
Definition hidden_device_exts_priority : list string :=
  ["VK_EXT_global_priority"; "VK_KHR_global_priority"; "VK_EXT_global_priority_query"]%string.
Definition device_ext_priority (name : string) : bool := bool_decide (name ∈ hidden_device_exts_priority).
Definition device_ext_missing_lib (name : string) : bool := bool_decide (name ∈ hidden_device_exts_missing_lib).

Definition anb_required_exts : list string :=
  ["VK_KHR_external_memory_fd"; "VK_EXT_external_memory_dma_buf"; "VK_EXT_image_drm_format_modifier";
   "VK_KHR_external_semaphore_fd"; "VK_KHR_external_fence_fd"; "VK_EXT_queue_family_foreign";
   "VK_KHR_image_format_list"]%string.
Definition ahb_required_exts : list string :=
  ["VK_KHR_external_memory_fd"; "VK_EXT_external_memory_dma_buf"; "VK_EXT_image_drm_format_modifier";
   "VK_EXT_queue_family_foreign"; "VK_KHR_image_format_list"]%string.
Definition ahb_supported_exts : list string := ["VK_KHR_format_feature_flags2"]%string.
Definition required_exts_1_0 : list string :=
  ["VK_KHR_external_memory"; "VK_KHR_external_semaphore"; "VK_KHR_external_fence"; "VK_KHR_bind_memory2";
   "VK_KHR_dedicated_allocation"; "VK_KHR_get_memory_requirements2"; "VK_KHR_maintenance1";
   "VK_KHR_sampler_ycbcr_conversion"]%string.
Definition ANB_EXT : string := "VK_ANDROID_native_buffer".
Definition AHB_EXT : string := "VK_ANDROID_external_memory_android_hardware_buffer".
Definition MAINT2_EXT : string := "VK_KHR_maintenance2".
Definition ANB_SPEC : Z := 8.
Definition AHB_SPEC : Z := 5.

(** The first of [req] the driver lacks. *)
Fixpoint list_missing (icd : list ext) (req : list string) : option string :=
  match req with
  | [] => None
  | r :: req => if nvhal_ext_in icd r then list_missing icd req else Some r
  end.
Definition anb_missing (icd : list ext) (legacy : bool) : option string :=
  match list_missing icd anb_required_exts with
  | Some m => Some m
  | None => if legacy then list_missing icd required_exts_1_0 else None
  end.
Definition ahb_missing (icd : list ext) (legacy : bool) : option string :=
  let m := match list_missing icd ahb_required_exts with Some m => Some m | None => list_missing icd ahb_supported_exts end in
  match m with
  | Some m => Some m
  | None => if legacy then list_missing icd required_exts_1_0 else None
  end.

Section Exposure.
Context (nvhal_image_ext_hidden nvhal_device_ext_known : string -> bool).

Definition device_ext_hidden (name : string) : bool :=
  bool_decide (name ∈ hidden_device_exts) || (device_ext_missing_lib name || device_ext_priority name || nvhal_image_ext_hidden name).
Definition device_ext_exposed (name : string) : bool := negb (device_ext_hidden name) && nvhal_device_ext_known name.

(** A store into the array: [None] past its end. *)
Definition store (buf : list ext) (i : nat) (x : ext) : option (list ext) :=
  if (i <? length buf)%nat then Some (<[i := x]> buf) else None.

(** One turn of [if (device_ext_exposed(..)) icd[nv++] = icd[i]]. *)
Definition compact_step (acc : option (list ext * nat)) (i : nat) : option (list ext * nat) :=
  '(buf, nv) ← acc;
  e ← buf !! i;
  if device_ext_exposed (extensionName e) then buf ← store buf nv e; Some (buf, S nv) else Some (buf, nv).
Definition append_ext (acc : option (list ext * nat)) (x : ext) : option (list ext * nat) :=
  '(buf, nv) ← acc; buf ← store buf nv x; Some (buf, S nv).

(** The array [buf] holds the driver's [n] entries and room for two more; the
    result is its first [nv] entries, [None] if a store missed the array. *)
Definition shown_exts (ahb_available : bool) (buf : list ext) (n : nat) : option (list ext) :=
  let icd := take n buf in
  let acc := foldl compact_step (Some (buf, 0%nat)) (seq 0 n) in
  let acc := append_ext acc (mk_ext ANB_EXT ANB_SPEC) in
  let acc := if ahb_available && negb (bool_decide (is_Some (ahb_missing icd false)))
             then append_ext acc (mk_ext AHB_EXT AHB_SPEC) else acc in
  (fun bn => take bn.2 bn.1) <$> acc.

(** What it amounts to. *)
Definition advertised (ahb_available : bool) (icd : list ext) : list ext :=
  filter (fun e => device_ext_exposed (extensionName e) = true) icd ++ [mk_ext ANB_EXT ANB_SPEC] ++
  (if ahb_available && negb (bool_decide (is_Some (ahb_missing icd false))) then [mk_ext AHB_EXT AHB_SPEC] else []).

(** [junk]: what the allocated array holds past the driver's entries. *)
Definition nvhal_EnumerateDeviceExtensionProperties (D : enum_driver) (fuel : nat) (known_pd ahb_available : bool)
    (layer : option (Z * Z * option (list ext))) (junk : nat -> list ext) (pCount : Z) (pProps : option (list ext)) :
    option (Z * Z * option (list ext)) :=
  if negb known_pd then Some (VK_ERROR_INITIALIZATION_FAILED, pCount, pProps)
  else match layer with
  | Some answer => Some answer
  | None =>
      match icd_device_exts D fuel with
      | None => None
      | Some (inl r) => Some (r, pCount, pProps)
      | Some (inr (icd, room)) =>
          let buf := icd ++ junk (Z.to_nat room - length icd)%nat in
          shown ← shown_exts ahb_available buf (length icd);
          Some (nvhal_fill_ext_props shown pCount pProps)
      end
  end.

(** ** The names a new device is created with *)

Definition add_name (names : list string) (name : string) : list string :=
  if bool_decide (name ∈ names) then names else names ++ [name].
Definition add_prereq (acc : list string * bool) (name : string) : list string * bool :=
  if device_ext_hidden name then (acc.1, false) else (add_name acc.1 name, acc.2).

(** The loop over the application's names: the driver's names so far and
    whether the two Android extensions are among them; [None]: refused. *)
Fixpoint device_requested (icd : list ext) (es names : list string) (anb ahb : bool) : option (list string * bool * bool) :=
  match es with
  | [] => Some (names, anb, ahb)
  | e :: es =>
      if String.eqb e ANB_EXT then device_requested icd es names true ahb
      else if String.eqb e AHB_EXT then device_requested icd es names anb true
      else if negb (device_ext_exposed e) || negb (nvhal_ext_in icd e) then None
      else device_requested icd es (add_name names e) anb ahb
  end.

(** The names, whether each Android extension is enabled, and [ok]. *)
Record request := mk_request { rq_names : list string; rq_anb : bool; rq_ahb : bool; rq_ok : bool }.
Definition add_prereqs (legacy : bool) (required : list string) (acc : list string * bool) : list string * bool :=
  let acc := foldl add_prereq acc required in
  if legacy then foldl add_prereq acc required_exts_1_0 else acc.
Definition device_names (icd : list ext) (legacy ahb_available : bool) (es : list string) : option request :=
  '(names, anb, ahb) ← device_requested icd es [] false false;
  if (anb : bool) && bool_decide (is_Some (anb_missing icd legacy)) then None
  else
  let acc := if anb then add_prereqs legacy anb_required_exts (names, true) else (names, true) in
  if (ahb : bool) && (negb ahb_available || bool_decide (is_Some (ahb_missing icd legacy))) then None
  else
  let acc := if ahb then add_prereqs legacy ahb_required_exts acc else acc in
  Some (mk_request acc.1 anb ahb acc.2).

(** The prerequisite of the compressed-format emulation on a 1.0 device. *)
Definition maint2_names (icd : list ext) (maint2 : bool) (rq : request) : request :=
  if negb maint2 then rq
  else if negb (nvhal_ext_in icd MAINT2_EXT) then mk_request (rq_names rq) (rq_anb rq) (rq_ahb rq) false
  else let acc := add_prereq (rq_names rq, rq_ok rq) MAINT2_EXT in mk_request acc.1 (rq_anb rq) (rq_ahb rq) acc.2.

(** How many names the array has room for. *)
Definition names_room (es : list string) : nat :=
  length es + length anb_required_exts + length ahb_required_exts + length required_exts_1_0 + 2.

End Exposure.

(** ** Other facts of the device *)

(** A [pNext] chain as the sTypes on it with their payload. *)
Definition STYPE_GLOBAL_PRIORITY : Z := 1000174000.
Definition queue_global_priority (chain : list (Z * Z)) : option Z :=
  snd <$> head (filter (fun b => b.1 = STYPE_GLOBAL_PRIORITY) chain).

(** [acquire_wait_flags]; [driver_id]: the driver's identity when
    [vkGetPhysicalDeviceProperties2] is there to ask. *)
Definition VK_DRIVER_ID_NVIDIA_PROPRIETARY : Z := 4.
Definition acquire_wait_flags (vendorID apiVersion driverVersion : Z) (driver_id : option Z) : bool * bool :=
  if negb (vendorID =? 0x10de) || (apiVersion <? VK_API_VERSION_1_2) then (false, false)
  else match driver_id with
  | None => (false, false)
  | Some id =>
      if negb (id =? VK_DRIVER_ID_NVIDIA_PROPRIETARY) then (false, false)
      else let branch := Z.shiftr driverVersion 22 in (branch <? 565, branch =? 580)
  end.

(** ** The lists *)

Lemma ext_in_spec exts name : nvhal_ext_in exts name = true <-> name ∈ (extensionName <$> exts).
Proof. apply bool_decide_eq_true. Qed.

Lemma list_missing_None icd req : list_missing icd req = None <-> Forall (fun x => nvhal_ext_in icd x = true) req.
Proof.
  induction req as [|x req IH]; cbn [list_missing]; [done|]. rewrite Forall_cons, <- IH.
  destruct (nvhal_ext_in icd x); naive_solver.
Qed.

Lemma list_missing_Some icd req m : list_missing icd req = Some m -> m ∈ req /\ nvhal_ext_in icd m = false.
Proof.
  induction req as [|x req IH]; cbn [list_missing]; [done|]. destruct (nvhal_ext_in icd x) eqn:E; [set_solver|].
  intros [= <-]. split; [by left|done].
Qed.

(** What each Android extension needs of the driver. *)
Definition anb_needs (legacy : bool) : list string := anb_required_exts ++ (if legacy then required_exts_1_0 else []).
Definition ahb_needs (legacy : bool) : list string :=
  ahb_required_exts ++ ahb_supported_exts ++ (if legacy then required_exts_1_0 else []).
Lemma anb_missing_None icd legacy :
  anb_missing icd legacy = None <-> Forall (fun x => nvhal_ext_in icd x = true) (anb_needs legacy).
Proof.
  unfold anb_missing, anb_needs. rewrite Forall_app, <- list_missing_None.
  destruct (list_missing icd anb_required_exts), legacy; rewrite ?list_missing_None; naive_solver.
Qed.
Lemma ahb_missing_None icd legacy :
  ahb_missing icd legacy = None <-> Forall (fun x => nvhal_ext_in icd x = true) (ahb_needs legacy).
Proof.
  unfold ahb_missing, ahb_needs. rewrite !Forall_app, <- !list_missing_None.
  destruct (list_missing icd ahb_required_exts), (list_missing icd ahb_supported_exts), legacy;
    rewrite ?list_missing_None; naive_solver.
Qed.

Lemma anb_missing_Some icd legacy m : anb_missing icd legacy = Some m -> m ∈ anb_needs legacy /\ nvhal_ext_in icd m = false.
Proof.
  unfold anb_missing, anb_needs. rewrite elem_of_app. destruct (list_missing icd anb_required_exts) eqn:E.
  - intros [= <-]. apply list_missing_Some in E. tauto.
  - destruct legacy; [|done]. intros H%list_missing_Some. tauto.
Qed.
Lemma ahb_missing_Some icd legacy m : ahb_missing icd legacy = Some m -> m ∈ ahb_needs legacy /\ nvhal_ext_in icd m = false.
Proof.
  unfold ahb_missing, ahb_needs. rewrite !elem_of_app. destruct (list_missing icd ahb_required_exts) eqn:E.
  - intros [= <-]. apply list_missing_Some in E. tauto.
  - destruct (list_missing icd ahb_supported_exts) eqn:E2.
    + intros [= <-]. apply list_missing_Some in E2. tauto.
    + destruct legacy; [|done]. intros H%list_missing_Some. tauto.
Qed.

(** ** The enumeration loop *)

(** A driver as Vulkan describes it: at call [t] its list is [L t]; a filling
    call writes as much of it as fits. *)
Definition conforming (D : enum_driver) (L : nat -> list ext) : Prop :=
  forall t, ed_realloc D t = true /\ ed_count D t = (VK_SUCCESS, Z.of_nat (length (L t))) /\
    forall n, 0 <= n -> ed_fill D t n = (if n <? Z.of_nat (length (L t)) then VK_INCOMPLETE else VK_SUCCESS, take (Z.to_nat n) (L t)).

Lemma enum_loop_complete D L room T fuel t :
  conforming D L -> (forall u, (T <= u)%nat -> L u = L T) -> (T + 1 < t + 2 * fuel)%nat -> (0 < fuel)%nat ->
  exists u n, enum_loop D room fuel t = Some (inr (L u, room (Z.of_nat n))) /\ (length (L u) <= n)%nat /\
    exists v, n = length (L v).
Proof.
  intros C St. revert t. induction fuel as [|fuel IH]; intros t Ht Hf; [lia|]. cbn [enum_loop].
  destruct (C t) as (R & E & _). destruct (C (S t)) as (_ & _ & F). rewrite R, E, F by lia. cbn.
  rewrite Nat2Z.id. destruct (Z.ltb_spec (Z.of_nat (length (L t))) (Z.of_nat (length (L (S t))))) as [Hlt|Hge]; cbn.
  - destruct (decide (fuel = 0%nat)) as [->|]; [|by apply IH; lia].
    exfalso. rewrite (St t), (St (S t)) in Hlt by lia. lia.
  - exists (S t), (length (L t)). rewrite firstn_all2 by lia. split; [done|]. split; [lia|by exists t].
Qed.

(** An error is never [VK_SUCCESS]. *)
Lemma enum_loop_error D room fuel t r : enum_loop D room fuel t = Some (inl r) -> r <> VK_SUCCESS.
Proof.
  revert t. induction fuel as [|fuel IH]; intros t; cbn [enum_loop]; [done|].
  destruct (ed_count D t) as [r0 n]. destruct (Z.eqb_spec r0 VK_SUCCESS); cbn [negb]; [|congruence].
  destruct (ed_realloc D t); cbn [negb]; [|by intros [= <-]]. destruct (ed_fill D (S t) n) as [r' p].
  destruct (r' =? VK_INCOMPLETE); [apply IH|]. destruct (Z.eqb_spec r' VK_SUCCESS); cbn [negb]; congruence.
Qed.

Lemma elem_add_names names l x : x ∈ foldl add_name names l <-> x ∈ names \/ x ∈ l.
Proof.
  revert names. induction l as [|y l IH]; intros names; cbn [foldl]; [set_solver|]. rewrite IH. unfold add_name.
  case_bool_decide; set_solver.
Qed.
Lemma nodup_add_names names l : NoDup names -> NoDup (foldl add_name names l).
Proof.
  revert names. induction l as [|y l IH]; intros names H; cbn [foldl]; [done|]. apply IH. unfold add_name.
  case_bool_decide; [done|]. apply NoDup_app. split; [done|]. split; [set_solver|]. apply NoDup_singleton.
Qed.

Section Shown.
Context (hidden known : string -> bool).
Abbreviation exposed := (device_ext_exposed hidden known).
Abbreviation shown_list := (filter (fun e => exposed (extensionName e) = true)).

Lemma store_app (l k : list ext) y x i : i = length l -> store (l ++ y :: k) i x = Some (l ++ x :: k).
Proof.
  intros ->. unfold store. rewrite length_app. cbn [length]. rewrite (proj2 (Nat.ltb_lt _ _)) by lia.
  by rewrite insert_app_r_alt, Nat.sub_diag by lia.
Qed.

(** The array is overwritten from the left: after [i] entries the first [nv]
    are the ones shown, and the rest are as they were. *)
Lemma compact_run buf n i :
  (n <= length buf)%nat -> (i <= n)%nat ->
  exists rest, foldl (compact_step hidden known) (Some (buf, 0%nat)) (seq 0 i) =
    Some (shown_list (take i buf) ++ rest ++ drop i buf, length (shown_list (take i buf))) /\
    (length (shown_list (take i buf)) + length rest = i)%nat.
Proof.
  intros Hn. induction i as [|i IH]; intros Hi; [by exists []|].
  destruct IH as (rest & IH & Hl); [lia|]. rewrite seq_S, foldl_app, IH. cbn [foldl Nat.add].
  destruct (lookup_lt_is_Some_2 buf i) as [x Hx]; [lia|].
  rewrite (take_S_r _ _ _ Hx), filter_app, (drop_S _ _ _ Hx). set (s := shown_list (take i buf)) in *.
  unfold compact_step. cbn [mbind option_bind].
  assert (E : (s ++ rest ++ x :: drop (S i) buf) !! i = Some x).
  { rewrite app_assoc, lookup_app_r, length_app, Hl, Nat.sub_diag by (rewrite length_app; lia). done. }
  rewrite E. cbn [mbind option_bind]. destruct (exposed (extensionName x)) eqn:X.
  - rewrite filter_cons_True, filter_nil by done. destruct rest as [|y rest].
    + cbn [app]. rewrite store_app by done. cbn [mbind option_bind]. exists []. cbn [length] in Hl |- *.
      rewrite length_app. cbn [length app]. rewrite <- app_assoc. split; [|lia]. cbn. do 3 f_equal. lia.
    + cbn [app]. rewrite store_app by done. cbn [mbind option_bind]. exists (rest ++ [x]). cbn [length] in Hl.
      rewrite !length_app. cbn [length app]. rewrite <- !app_assoc. cbn [app]. split; [|lia]. do 3 f_equal. lia.
  - rewrite filter_cons_False, filter_nil, app_nil_r by congruence. exists (rest ++ [x]).
    rewrite length_app, <- app_assoc. cbn [length app]. split; [done|lia].
Qed.

Lemma shown_exts_run avail buf n :
  (n + 2 <= length buf)%nat -> shown_exts hidden known avail buf n = Some (advertised hidden known avail (take n buf)).
Proof.
  intros Hn. unfold shown_exts, advertised. destruct (compact_run buf n n) as (rest & E & Hl); [lia|lia|].
  set (s := shown_list (take n buf)) in *. rewrite E. cbn [append_ext mbind option_bind].
  assert (Hd : (2 <= length (drop n buf))%nat) by (rewrite length_drop; lia).
  destruct (rest ++ drop n buf) as [|y [|z r]] eqn:R.
  1,2: apply (f_equal length) in R; rewrite length_app in R; cbn in R; lia.
  rewrite store_app by done. cbn [mbind option_bind].
  destruct (_ && _); cbn [append_ext mbind option_bind fmap option_fmap option_map].
  - replace (s ++ mk_ext ANB_EXT ANB_SPEC :: z :: r) with ((s ++ [mk_ext ANB_EXT ANB_SPEC]) ++ z :: r) by by rewrite <- app_assoc.
    rewrite store_app by (rewrite length_app; cbn; lia). cbn. rewrite <- app_assoc. cbn [app]. f_equal.
    rewrite take_app. rewrite firstn_all2 by lia. f_equal. replace (S (S (length s)) - length s)%nat with 2%nat by lia. done.
  - f_equal. cbn [fst snd]. rewrite take_app, firstn_all2 by lia. f_equal. by replace (S (length s) - length s)%nat with 1%nat by lia.
Qed.

(** ** Lists of names *)

Lemma add_prereq_run acc l :
  foldl (add_prereq hidden) acc l =
  (foldl add_name acc.1 (filter (fun x => device_ext_hidden hidden x = false) l), acc.2 && forallb (fun x => negb (device_ext_hidden hidden x)) l).
Proof.
  revert acc. induction l as [|y l IH]; intros [ns ok]; cbn [foldl]; [by rewrite andb_true_r|]. rewrite IH. unfold add_prereq.
  cbn [fst snd forallb]. destruct (device_ext_hidden hidden y) eqn:E; cbn [fst snd negb].
  - rewrite filter_cons_False by congruence. by destruct ok.
  - rewrite filter_cons_True by done. done.
Qed.

Definition requestable (icd : list ext) (e : string) : Prop :=
  e = ANB_EXT \/ e = AHB_EXT \/ (exposed e = true /\ nvhal_ext_in icd e = true).
Definition plain (e : string) : Prop := e <> ANB_EXT /\ e <> AHB_EXT.
#[local] Instance plain_dec e : Decision (plain e).
Proof. unfold plain. apply _. Defined.
Lemma anb_not_plain : ~ plain ANB_EXT.
Proof. intros [H _]. by apply H. Qed.
Lemma ahb_not_plain : ~ plain AHB_EXT.
Proof. intros [_ H]. by apply H. Qed.

Lemma device_requested_spec icd es names anb ahb :
  match device_requested hidden known icd es names anb ahb with
  | None => exists e, e ∈ es /\ plain e /\ (exposed e = false \/ nvhal_ext_in icd e = false)
  | Some (ns, a, h) => Forall (requestable icd) es /\ ns = foldl add_name names (filter plain es) /\
      a = anb || bool_decide (ANB_EXT ∈ es) /\ h = ahb || bool_decide (AHB_EXT ∈ es)
  end.
Proof.
  assert (Hsub : forall e es, (exists x, x ∈ es /\ plain x /\ (exposed x = false \/ nvhal_ext_in icd x = false)) ->
    exists x, x ∈ e :: es /\ plain x /\ (exposed x = false \/ nvhal_ext_in icd x = false)).
  { intros e l (x & ? & ?). exists x. split; [by right|done]. }
  assert (Hb : forall (e x : string) l, bool_decide (x ∈ e :: l) = bool_decide (x = e) || bool_decide (x ∈ l)).
  { intros e x l. rewrite <- bool_decide_or. apply bool_decide_ext. by rewrite elem_of_cons. }
  revert names anb ahb. induction es as [|e es IH]; intros names anb ahb; cbn [device_requested].
  { split; [by constructor|]. by rewrite !orb_false_r. }
  destruct (String.eqb_spec e ANB_EXT) as [->|H1].
  { specialize (IH names true ahb). destruct (device_requested _ _ _ _ _ _ _) as [[[ns a] h]|]; [|by apply Hsub].
    destruct IH as (F & -> & -> & ->). rewrite filter_cons_False by apply anb_not_plain. rewrite !Hb.
    rewrite (bool_decide_eq_true_2 (ANB_EXT = ANB_EXT)), (bool_decide_eq_false_2 (AHB_EXT = ANB_EXT)) by done.
    split; [by constructor; [left|]|]. split; [done|]. by rewrite orb_true_r. }
  destruct (String.eqb_spec e AHB_EXT) as [->|H2].
  { specialize (IH names anb true). destruct (device_requested _ _ _ _ _ _ _) as [[[ns a] h]|]; [|by apply Hsub].
    destruct IH as (F & -> & -> & ->). rewrite filter_cons_False by apply ahb_not_plain.
    rewrite !Hb.
    rewrite (bool_decide_eq_true_2 (AHB_EXT = AHB_EXT)), (bool_decide_eq_false_2 (ANB_EXT = AHB_EXT)) by done.
    split; [by constructor; [right; left|]|]. split; [done|]. by rewrite orb_true_r. }
  destruct (exposed e) eqn:E1, (nvhal_ext_in icd e) eqn:E2; cbn [negb orb].
  2,3,4: exists e; split; [by left|]; split; [done|]; by (left + right).
  specialize (IH (add_name names e) anb ahb). destruct (device_requested _ _ _ _ _ _ _) as [[[ns a] h]|]; [|by apply Hsub].
  destruct IH as (F & -> & -> & ->). rewrite filter_cons_True by done. rewrite !Hb, !(bool_decide_eq_false_2 (_ = e)) by congruence.
  split; [by constructor; [right; right|]|]. done.
Qed.

(** What the HAL's own code needs enabled. *)
Definition prereqs (anb ahb legacy maint2 : bool) : list string :=
  (if anb then anb_required_exts ++ (if legacy then required_exts_1_0 else []) else []) ++
  (if ahb then ahb_required_exts ++ (if legacy then required_exts_1_0 else []) else []) ++ (if maint2 then [MAINT2_EXT] else []).

Lemma add_prereqs_run legacy required acc :
  add_prereqs hidden legacy required acc = foldl (add_prereq hidden) acc (required ++ if legacy then required_exts_1_0 else []).
Proof. unfold add_prereqs. destruct legacy; by rewrite ?app_nil_r, ?foldl_app. Qed.

(** The driver's names are the application's followed by the prerequisites. *)
Lemma names_run icd legacy avail es maint2 rq :
  device_names hidden known icd legacy avail es = Some rq ->
  let anb := bool_decide (ANB_EXT ∈ es) in let ahb := bool_decide (AHB_EXT ∈ es) in
  let P := prereqs anb ahb legacy (maint2 && nvhal_ext_in icd MAINT2_EXT) in
  let rq' := maint2_names hidden icd maint2 rq in
  rq_anb rq' = anb /\ rq_ahb rq' = ahb /\
  rq_names rq' = foldl add_name [] (filter plain es ++ filter (fun x => device_ext_hidden hidden x = false) P) /\
  rq_ok rq' = forallb (fun x => negb (device_ext_hidden hidden x)) P && (negb maint2 || nvhal_ext_in icd MAINT2_EXT) /\
  Forall (requestable icd) es /\ (anb = true -> anb_missing icd legacy = None) /\
  (ahb = true -> avail = true /\ ahb_missing icd legacy = None).
Proof.
  intros E anb ahb P rq'. unfold device_names in E. pose proof (device_requested_spec icd es [] false false) as R.
  destruct (device_requested _ _ _ _ _ _ _) as [[[ns a] h]|]; [|done]. destruct R as (F & -> & -> & ->). cbn [orb mbind option_bind] in E.
  fold anb ahb in E. rewrite !add_prereqs_run in E.
  destruct (anb && bool_decide (is_Some (anb_missing icd legacy))) eqn:E1; [done|].
  destruct (ahb && (negb avail || bool_decide (is_Some (ahb_missing icd legacy)))) eqn:E2; [done|]. apply (inj Some) in E. subst rq.
  assert (Hanb : anb = true -> anb_missing icd legacy = None).
  { intros Ha. rewrite Ha in E1. cbn [andb] in E1. apply bool_decide_eq_false in E1. destruct (anb_missing icd legacy); [by destruct E1|done]. }
  assert (Hahb : ahb = true -> avail = true /\ ahb_missing icd legacy = None).
  { intros Ha. rewrite Ha in E2. cbn [andb] in E2. apply orb_false_iff in E2 as [A2 B2]. apply bool_decide_eq_false in B2.
    apply negb_false_iff in A2. destruct (ahb_missing icd legacy); [by destruct B2|done]. }
  set (Q := prereqs anb ahb legacy false).
  assert (EQ : (if ahb then foldl (add_prereq hidden) (if anb then foldl (add_prereq hidden) (foldl add_name [] (filter plain es), true)
        (anb_required_exts ++ (if legacy then required_exts_1_0 else [])) else (foldl add_name [] (filter plain es), true))
        (ahb_required_exts ++ (if legacy then required_exts_1_0 else []))
      else if anb then foldl (add_prereq hidden) (foldl add_name [] (filter plain es), true)
        (anb_required_exts ++ (if legacy then required_exts_1_0 else [])) else (foldl add_name [] (filter plain es), true)) =
    foldl (add_prereq hidden) (foldl add_name [] (filter plain es), true) Q).
  { unfold Q, prereqs. rewrite app_nil_r. destruct anb, ahb; rewrite ?app_nil_l, ?app_nil_r, ?foldl_app; done. }
  subst rq'. rewrite EQ. clear EQ. rewrite add_prereq_run. cbn [fst snd andb].
  assert (EP : P = Q ++ (if maint2 && nvhal_ext_in icd MAINT2_EXT then [MAINT2_EXT] else [])).
  { unfold P, Q, prereqs. by rewrite app_nil_r, <- app_assoc. }
  rewrite EP, filter_app, app_assoc, foldl_app. unfold maint2_names.
  destruct maint2; cbn [negb andb orb].
  2:{ rewrite app_nil_r, filter_nil, andb_true_r, foldl_app. cbn. done. }
  destruct (nvhal_ext_in icd MAINT2_EXT); cbn [negb andb rq_names rq_ok rq_anb rq_ahb].
  - rewrite forallb_app, andb_true_r, foldl_app. unfold add_prereq. cbn [fst snd forallb].
    destruct (device_ext_hidden hidden MAINT2_EXT) eqn:X; cbn [fst snd negb andb].
    + rewrite filter_cons_False by congruence. rewrite andb_false_r. done.
    + rewrite filter_cons_True by done. rewrite filter_nil, andb_true_r. done.
  - rewrite app_nil_r, filter_nil, andb_false_r, foldl_app. done.
Qed.

Lemma forallb_hidden l :
  forallb (fun x => negb (device_ext_hidden hidden x)) l = true <-> Forall (fun x => device_ext_hidden hidden x = false) l.
Proof. induction l as [|x l IH]; cbn; [done|]. rewrite Forall_cons, andb_true_iff, IH, negb_true_iff. done. Qed.

Lemma requestable_plain icd es x :
  Forall (requestable icd) es -> x ∈ filter plain es -> exposed x = true /\ nvhal_ext_in icd x = true.
Proof. intros F [[H1 H2] Hx]%list_elem_of_filter. rewrite Forall_forall in F. destruct (F x Hx) as [?|[?|?]]; done. Qed.

(** Every prerequisite is one the driver has. *)
Lemma prereqs_present icd legacy anb ahb m2 x :
  (anb = true -> anb_missing icd legacy = None) -> (ahb = true -> ahb_missing icd legacy = None) ->
  x ∈ prereqs anb ahb legacy (m2 && nvhal_ext_in icd MAINT2_EXT) -> nvhal_ext_in icd x = true.
Proof.
  intros Ha Hh Hx. unfold prereqs in Hx. rewrite !elem_of_app in Hx. destruct Hx as [Hx|[Hx|Hx]].
  - destruct anb; [|by apply elem_of_nil in Hx]. specialize (Ha eq_refl). apply anb_missing_None in Ha.
    rewrite Forall_forall in Ha. by apply Ha.
  - destruct ahb; [|by apply elem_of_nil in Hx]. specialize (Hh eq_refl). apply ahb_missing_None in Hh.
    rewrite Forall_forall in Hh. apply Hh. unfold ahb_needs. rewrite !elem_of_app in *. tauto.
  - destruct m2, (nvhal_ext_in icd MAINT2_EXT) eqn:E; cbn in Hx; try by apply elem_of_nil in Hx.
    by apply list_elem_of_singleton in Hx as ->.
Qed.

Lemma prereqs_bounded anb ahb legacy m2 x :
  x ∈ prereqs anb ahb legacy m2 -> x ∈ anb_required_exts ++ ahb_required_exts ++ required_exts_1_0 ++ [MAINT2_EXT].
Proof.
  unfold prereqs. rewrite !elem_of_app. intros [Hx|[Hx|Hx]].
  - destruct anb, legacy; rewrite ?elem_of_app, ?elem_of_nil in Hx; tauto.
  - destruct ahb, legacy; rewrite ?elem_of_app, ?elem_of_nil in Hx; tauto.
  - destruct m2; [tauto|by apply elem_of_nil in Hx].
Qed.

(** What [vkCreateDevice] does with the names, as a whole: [None] when it
    answers [VK_ERROR_EXTENSION_NOT_PRESENT]. *)
Definition asked (icd : list ext) (legacy avail : bool) (es : list string) (maint2 : bool) : option request :=
  rq ← device_names hidden known icd legacy avail es;
  let rq := maint2_names hidden icd maint2 rq in
  if rq_ok rq then Some rq else None.

(** The reasons to refuse. *)
Definition refusal (icd : list ext) (legacy avail : bool) (es : list string) (maint2 : bool) : Prop :=
  (exists e, e ∈ es /\ plain e /\ (exposed e = false \/ nvhal_ext_in icd e = false)) \/
  (ANB_EXT ∈ es /\ exists x, x ∈ anb_needs legacy /\ nvhal_ext_in icd x = false) \/
  (AHB_EXT ∈ es /\ (avail = false \/ exists x, x ∈ ahb_needs legacy /\ nvhal_ext_in icd x = false)) \/
  (exists x, x ∈ prereqs (bool_decide (ANB_EXT ∈ es)) (bool_decide (AHB_EXT ∈ es)) legacy maint2 /\ device_ext_hidden hidden x = true) \/
  (maint2 = true /\ nvhal_ext_in icd MAINT2_EXT = false).

(** Each refusal of the loop over the names and of the two checks has its reason. *)
Lemma device_names_refused icd legacy avail es maint2 :
  device_names hidden known icd legacy avail es = None -> refusal icd legacy avail es maint2.
Proof.
  intros E. unfold device_names in E. pose proof (device_requested_spec icd es [] false false) as R.
  destruct (device_requested _ _ _ _ _ _ _) as [[[ns a] h]|]; [|by left]. destruct R as (_ & _ & -> & ->). cbn [orb mbind option_bind] in E. right.
  destruct (bool_decide (ANB_EXT ∈ es) && bool_decide (is_Some (anb_missing icd legacy))) eqn:E1.
  { apply andb_true_iff in E1 as [?%bool_decide_eq_true [m Hm]%bool_decide_eq_true]. left. split; [done|].
    exists m. by apply anb_missing_Some. }
  destruct (bool_decide (AHB_EXT ∈ es) && _) eqn:E2; [|done].
  apply andb_true_iff in E2 as [?%bool_decide_eq_true [?%negb_true_iff|[m Hm]%bool_decide_eq_true]%orb_true_iff].
  - right. left. split; [done|by left].
  - right. left. split; [done|right]. exists m. by apply ahb_missing_Some.
Qed.

(** When none of the first three reasons holds the names are accepted. *)
Lemma no_refusal icd legacy avail es :
  Forall (requestable icd) es -> (ANB_EXT ∈ es -> anb_missing icd legacy = None) ->
  (AHB_EXT ∈ es -> avail = true /\ ahb_missing icd legacy = None) ->
  (forall e, e ∈ es -> plain e -> exposed e = true /\ nvhal_ext_in icd e = true) /\
  (ANB_EXT ∈ es -> forall x, x ∈ anb_needs legacy -> nvhal_ext_in icd x = true) /\
  (AHB_EXT ∈ es -> avail = true /\ forall x, x ∈ ahb_needs legacy -> nvhal_ext_in icd x = true).
Proof.
  rewrite Forall_forall. intros F Ha Hh. split; [|split].
  - intros e He [P1 P2]. by destruct (F e He) as [?|[?|?]].
  - intros H%Ha. apply anb_missing_None in H. by rewrite Forall_forall in H.
  - intros H. destruct (Hh H) as [? M%ahb_missing_None]. split; [done|]. by rewrite Forall_forall in M.
Qed.

(** C18: what [vkCreateDevice] asks of the driver.  It refuses a list of names
    exactly when there is a reason to: a name that is not exposed or that the
    driver lacks, an Android extension one of whose needs is missing, a
    prerequisite that is hidden, or the emulation's prerequisite on a 1.0
    device missing.  Otherwise the names given to the driver are the
    application's own and the prerequisites of what it asked for, each once,
    all of them extensions the driver has and none of them hidden.  In either
    case the names fit the array allocated for them. *)
Theorem device_names_exact icd legacy avail es maint2 :
  (asked icd legacy avail es maint2 = None <-> refusal icd legacy avail es maint2) /\
  (forall rq, asked icd legacy avail es maint2 = Some rq ->
    rq_anb rq = bool_decide (ANB_EXT ∈ es) /\ rq_ahb rq = bool_decide (AHB_EXT ∈ es) /\ NoDup (rq_names rq) /\
    (forall x, x ∈ rq_names rq <-> (x ∈ es /\ plain x) \/ x ∈ prereqs (rq_anb rq) (rq_ahb rq) legacy maint2) /\
    Forall (fun x => device_ext_hidden hidden x = false /\ nvhal_ext_in icd x = true) (rq_names rq)) /\
  (forall rq0, device_names hidden known icd legacy avail es = Some rq0 ->
    (length (rq_names (maint2_names hidden icd maint2 rq0)) <= names_room es)%nat).
Proof.
  unfold asked. destruct (device_names _ _ _ _ _ _) as [rq0|] eqn:E; cbn [mbind option_bind].
  2:{ split; [|done]. split; [|done]. intros _. by apply device_names_refused. }
  destruct (names_run _ _ _ _ maint2 _ E) as (A & B & N & O & F & Ha & Hh). cbv zeta in *.
  set (rq := maint2_names hidden icd maint2 rq0) in *.
  assert (Hin : forall x, x ∈ rq_names rq <-> x ∈ filter plain es \/ x ∈ filter (fun x => device_ext_hidden hidden x = false)
    (prereqs (bool_decide (ANB_EXT ∈ es)) (bool_decide (AHB_EXT ∈ es)) legacy (maint2 && nvhal_ext_in icd MAINT2_EXT))).
  { intros x. rewrite N, elem_add_names, elem_of_app, elem_of_nil. tauto. }
  assert (ND : NoDup (rq_names rq)) by (rewrite N; apply nodup_add_names; constructor).
  assert (Hok : rq_ok rq = true <-> Forall (fun x => device_ext_hidden hidden x = false)
      (prereqs (bool_decide (ANB_EXT ∈ es)) (bool_decide (AHB_EXT ∈ es)) legacy maint2) /\
      (maint2 = true -> nvhal_ext_in icd MAINT2_EXT = true)).
  { rewrite O, andb_true_iff, forallb_hidden. unfold prereqs. destruct maint2, (nvhal_ext_in icd MAINT2_EXT); cbn; naive_solver. }
  destruct (no_refusal icd legacy avail es F) as (F1 & F2 & F3).
  { intros H. apply Ha. by apply bool_decide_eq_true. }
  { intros H. apply Hh. by apply bool_decide_eq_true. }
  split; [|split].
  - destruct (rq_ok rq) eqn:K.
    + split; [done|]. destruct (proj1 Hok eq_refl) as [K1 K2]. rewrite Forall_forall in K1. intros R. exfalso.
      destruct R as [(e & He & P & [X|X])|[(H & x & Hx & X)|[(H & X)|[(x & Hx & X)|[-> X]]]]].
      * by destruct (F1 e He P); congruence.
      * by destruct (F1 e He P); congruence.
      * specialize (F2 H x Hx). congruence.
      * destruct (F3 H) as [F4 F5]. destruct X as [X|(x & Hx & X)]; [congruence|]. specialize (F5 x Hx). congruence.
      * specialize (K1 x Hx). congruence.
      * specialize (K2 eq_refl). congruence.
    + split; [|done]. intros _. match type of Hok with _ <-> ?X => assert (K' : ~ X) by (rewrite <- Hok; done) end.
      destruct (decide (maint2 = true /\ nvhal_ext_in icd MAINT2_EXT = false)) as [X|X]; [by do 4 right|].
      destruct (decide (Forall (fun x => device_ext_hidden hidden x = false)
        (prereqs (bool_decide (ANB_EXT ∈ es)) (bool_decide (AHB_EXT ∈ es)) legacy maint2))) as [Y|Y].
      * destruct K'. split; [done|]. intros Hm. destruct (nvhal_ext_in icd MAINT2_EXT); [done|]. by destruct X.
      * do 3 right. left. apply not_Forall_Exists, Exists_exists in Y; [|apply _]. destruct Y as (x & Hx & Y). exists x.
        split; [done|]. cbn in Y. by destruct (device_ext_hidden hidden x).
  - intros rq1. destruct (rq_ok rq) eqn:K; [|done]. intros [= <-]. rewrite A, B. split; [done|]. split; [done|]. split; [done|].
    destruct (proj1 Hok eq_refl) as [H1 H2]. rewrite Forall_forall in H1.
    assert (M : maint2 && nvhal_ext_in icd MAINT2_EXT = maint2).
    { destruct maint2; [|done]. cbn. by apply H2. }
    rewrite M in *. split.
    + intros x. rewrite Hin, !list_elem_of_filter. specialize (H1 x). naive_solver.
    + apply Forall_forall. intros x [Hx|Hx]%Hin.
      * destruct (requestable_plain _ _ _ F Hx) as [X ?]. split; [|done]. unfold device_ext_exposed in X.
        by apply andb_true_iff in X as [?%negb_true_iff _].
      * apply list_elem_of_filter in Hx as [? Hx]. split; [done|]. rewrite <- M in Hx. apply (prereqs_present _ _ _ _ _ _ Ha (fun e => proj2 (Hh e)) Hx).
  - intros rq1 [= <-]. fold rq. transitivity (length (es ++ anb_required_exts ++ ahb_required_exts ++ required_exts_1_0 ++ [MAINT2_EXT])).
    + apply submseteq_length, NoDup_submseteq; [done|]. intros x [Hx|Hx]%Hin; apply list_elem_of_filter in Hx as [_ Hx];
        rewrite elem_of_app; [by left|right]. by eapply prereqs_bounded.
    + rewrite !length_app. unfold names_room. cbn. lia.
Qed.

Lemma device_names_accepts icd legacy avail es :
  Forall (requestable icd) es -> (ANB_EXT ∈ es -> anb_missing icd legacy = None) ->
  (AHB_EXT ∈ es -> avail = true /\ ahb_missing icd legacy = None) -> is_Some (device_names hidden known icd legacy avail es).
Proof.
  intros F Ha Hh. unfold device_names. pose proof (device_requested_spec icd es [] false false) as R.
  destruct (device_requested _ _ _ _ _ _ _) as [[[ns a] h]|].
  - destruct R as (_ & _ & -> & ->). cbn [orb mbind option_bind].
    assert (E1 : bool_decide (ANB_EXT ∈ es) && bool_decide (is_Some (anb_missing icd legacy)) = false).
    { apply andb_false_iff. destruct (decide (ANB_EXT ∈ es)) as [H|H]; [right|left; by apply bool_decide_eq_false_2]. rewrite Ha by done. done. }
    assert (E2 : bool_decide (AHB_EXT ∈ es) && (negb avail || bool_decide (is_Some (ahb_missing icd legacy))) = false).
    { apply andb_false_iff. destruct (decide (AHB_EXT ∈ es)) as [H|H]; [right|left; by apply bool_decide_eq_false_2]. by destruct (Hh H) as [-> ->]. }
    rewrite E1, E2. by eexists.
  - destruct R as (e & He & [P1 P2] & H). rewrite Forall_forall in F. destruct (F e He) as [?|[?|[? ?]]]; [done|done|]. destruct H; congruence.
Qed.

(** On a 1.1 device without the emulation's prerequisite. *)
Lemma asked_accepts icd avail es :
  Forall (requestable icd) es -> (ANB_EXT ∈ es -> anb_missing icd false = None) ->
  (AHB_EXT ∈ es -> avail = true /\ ahb_missing icd false = None) ->
  Forall (fun x => device_ext_hidden hidden x = false) (anb_required_exts ++ ahb_required_exts) ->
  is_Some (asked icd false avail es false).
Proof.
  intros F Ha Hh [P1 P2]%Forall_app. destruct (device_names_accepts icd false avail es F Ha Hh) as [rq E]. unfold asked. rewrite E. cbn [mbind option_bind].
  destruct (names_run _ _ _ _ false _ E) as (_ & _ & _ & O & _). cbv zeta in O. rewrite O. cbn [negb orb].
  rewrite (proj2 (forallb_hidden _)); [by eexists|]. unfold prereqs. rewrite !Forall_app.
  split; [|split]; [case_match; [|by constructor]..|by constructor]; rewrite app_nil_r; done.
Qed.

Lemma advertised_requestable avail icd x : x ∈ (extensionName <$> advertised hidden known avail icd) -> requestable icd x.
Proof.
  intros (e & -> & He)%list_elem_of_fmap. unfold advertised in He. rewrite !elem_of_app, list_elem_of_filter in He.
  destruct He as [[X He]|[He|He]].
  - right; right. split; [done|]. apply ext_in_spec, list_elem_of_fmap. by exists e.
  - apply list_elem_of_singleton in He as ->. by left.
  - destruct (_ && _); [|by apply elem_of_nil in He]. apply list_elem_of_singleton in He as ->. by right; left.
Qed.

Lemma advertised_ahb avail icd :
  (forall e, e ∈ icd -> extensionName e <> AHB_EXT) -> AHB_EXT ∈ (extensionName <$> advertised hidden known avail icd) ->
  avail = true /\ ahb_missing icd false = None.
Proof.
  intros Hno (e & He & Hin)%list_elem_of_fmap. unfold advertised in Hin. rewrite !elem_of_app, list_elem_of_filter in Hin.
  destruct Hin as [[_ Hin]|[Hin|Hin]].
  - by destruct (Hno e Hin).
  - by apply list_elem_of_singleton in Hin as ->.
  - destruct avail; [|by apply elem_of_nil in Hin]. destruct (ahb_missing icd false) as [m|]; [|done].
    rewrite bool_decide_eq_true_2 in Hin by (by eexists). by apply elem_of_nil in Hin.
Qed.


End Shown.

(** ** Instance extensions *)

Lemma filter_ext_in {A} (P Q : A -> Prop) `{!forall x, Decision (P x)} `{!forall x, Decision (Q x)} (l : list A) :
  (forall x, x ∈ l -> P x <-> Q x) -> filter P l = filter Q l.
Proof.
  induction l as [|x l IH]; intros Hx; [done|]. rewrite !filter_cons, IH by (intros; apply Hx; by right).
  specialize (Hx x ltac:(by left)). repeat case_decide; tauto.
Qed.

Lemma instance_requested_spec vis es names :
  instance_requested vis es names = if forallb (nvhal_ext_in vis) es then Some (names ++ es) else None.
Proof.
  revert names. induction es as [|e es IH]; intros names; cbn [instance_requested forallb]; [by rewrite app_nil_r|].
  destruct (nvhal_ext_in vis e); cbn [andb]; [|done]. rewrite IH. by rewrite <- app_assoc.
Qed.

Lemma add_legacy_run all (names ks : list string) :
  NoDup ks -> foldl (add_legacy all) names ks = names ++ filter (fun k => (k ∉ names) /\ nvhal_ext_in all k = true) ks.
Proof.
  revert names. induction ks as [|k ks IH]; intros names ND; cbn [foldl]; [by rewrite app_nil_r|].
  apply NoDup_cons in ND as [Hk ND]. rewrite IH by done. unfold add_legacy.
  destruct (decide ((k ∉ names) /\ nvhal_ext_in all k = true)) as [[H1 H2]|H].
  - rewrite bool_decide_eq_false_2, H2 by done. cbn [negb andb]. rewrite filter_cons_True by done. rewrite <- app_assoc. f_equal. cbn [app]. f_equal.
    apply filter_ext_in. intros x Hx. rewrite elem_of_app, list_elem_of_singleton. split; [tauto|].
    intros [? ?]. split; [|done]. intros [?| ->]; done.
  - rewrite filter_cons_False by done. destruct (bool_decide (k ∈ names)) eqn:B, (nvhal_ext_in all k) eqn:B2; cbn [negb andb]; try done.
    apply bool_decide_eq_false in B. by destruct H.
Qed.

(** The list of [vkEnumerateInstanceExtensionProperties] is the driver's
    without what needs a window system, and an instance can be created with any
    of its names. *)
Lemma instance_enumerate_exact D L T fuel pCount pProps :
  conforming D L -> (forall u, (T <= u)%nat -> L u = L T) -> (T + 1 < 2 * fuel)%nat ->
  exists u, let vis := filter (fun e => instance_ext_hidden (extensionName e) = false) (L u) in
  hal_EnumerateInstanceExtensionProperties D true fuel None pCount pProps = Some (nvhal_fill_ext_props vis pCount pProps) /\
  forall api es, Forall (fun x => x ∈ (extensionName <$> vis)) es -> is_Some (instance_names (L u) vis api es).
Proof.
  intros C St Hf. unfold hal_EnumerateInstanceExtensionProperties, icd_instance_exts.
  destruct (enum_loop_complete D L (fun n => if n =? 0 then 1 else n) T fuel 0 C St ltac:(lia) ltac:(lia)) as (u & n & -> & _).
  exists u. cbn. split; [done|]. intros api es F. unfold instance_names. rewrite instance_requested_spec.
  rewrite (proj2 (forallb_forall _ _)); [by eexists|]. intros x Hx%list_elem_of_In. rewrite Forall_forall in F. by apply ext_in_spec, F.
Qed.

(** What [vkCreateInstance] asks of the driver: the application's names
    in their order, and on a 1.0 instance the four extensions the HAL builds on
    that the driver has and that are not already there; every one of them is
    the driver's and none needs a window system.  A list is refused only for a
    name that is not shown. *)
Theorem instance_names_exact (all : list ext) api es :
  let vis := filter (fun e => instance_ext_hidden (extensionName e) = false) all in
  match instance_names all vis api es with
  | None => exists e, e ∈ es /\ (instance_ext_hidden e = true \/ nvhal_ext_in all e = false)
  | Some names =>
      names = es ++ (if api_minor_ge api VK_API_VERSION_1_1 then []
                     else filter (fun k => (k ∉ es) /\ nvhal_ext_in all k = true) legacy_instance_exts) /\
      Forall (fun x => instance_ext_hidden x = false /\ nvhal_ext_in all x = true) names /\
      (length names <= length es + length legacy_instance_exts + 1)%nat
  end.
Proof.
  intros vis.
  assert (Hvis : forall x, nvhal_ext_in vis x = true <-> instance_ext_hidden x = false /\ nvhal_ext_in all x = true).
  { intros x. rewrite !ext_in_spec. unfold vis. split.
    - intros (e & -> & [H He]%list_elem_of_filter)%list_elem_of_fmap. split; [done|]. apply list_elem_of_fmap. by exists e.
    - intros [H (e & -> & He)%list_elem_of_fmap]. apply list_elem_of_fmap. exists e. by rewrite list_elem_of_filter. }
  unfold instance_names. rewrite instance_requested_spec. cbn [app].
  destruct (forallb (nvhal_ext_in vis) es) eqn:E; cbn [mbind option_bind].
  - assert (F : Forall (fun x => instance_ext_hidden x = false /\ nvhal_ext_in all x = true) es).
    { apply Forall_forall. intros x Hx. apply Hvis. rewrite forallb_forall in E. apply E. by apply list_elem_of_In. }
    assert (LH : Forall (fun x => instance_ext_hidden x = false) legacy_instance_exts) by (repeat constructor).
    destruct (api_minor_ge api VK_API_VERSION_1_1).
    + rewrite app_nil_r. split; [done|]. split; [done|lia].
    + rewrite add_legacy_run by (apply (bool_decide_unpack _); by vm_compute). split; [done|]. split.
      * apply Forall_app. split; [done|]. apply Forall_forall. intros x [[_ Hx] Hl]%list_elem_of_filter.
        rewrite Forall_forall in LH. split; [by apply LH|done].
      * rewrite length_app. pose proof (length_filter (fun k => (k ∉ es) /\ nvhal_ext_in all k = true) legacy_instance_exts). lia.
  - assert (X : ~ Forall (fun x => nvhal_ext_in vis x = true) es).
    { intros F. apply not_true_iff_false in E. apply E. apply forallb_forall. intros x Hx%list_elem_of_In.
      rewrite Forall_forall in F. by apply F. }
    apply not_Forall_Exists, Exists_exists in X; [|apply _]. destruct X as (e & He & X). exists e. split; [done|].
    cbn in X. specialize (Hvis e). destruct (instance_ext_hidden e), (nvhal_ext_in all e), (nvhal_ext_in vis e); naive_solver.
Qed.

(** ** Witnesses and examples *)

Definition demo_hidden (name : string) : bool := String.eqb name "VK_EXT_shader_tile_image".
Definition demo_known (name : string) : bool := negb (String.eqb name "VK_NV_newer").
Definition demo_exts : list ext :=
  (fun n => mk_ext n 1) <$> (["VK_KHR_swapchain"; "VK_KHR_ray_query"; "VK_NV_newer"]%string ++ anb_required_exts ++
    ahb_supported_exts ++ ["VK_KHR_maintenance1"]%string).
(** The list grows between the first count and the first copy. *)
Definition demo_driver : enum_driver :=
  let L t := if (t <? 1)%nat then take 4 demo_exts else demo_exts in
  mk_ed (fun t => (VK_SUCCESS, Z.of_nat (length (L t)))) (fun _ => true)
    (fun t n => (if n <? Z.of_nat (length (L t)) then VK_INCOMPLETE else VK_SUCCESS, take (Z.to_nat n) (L t))).

Definition demo_list (t : nat) : list ext := if (t <? 1)%nat then take 4 demo_exts else demo_exts.
Definition demo_enumerate (pCount : Z) (pProps : option (list ext)) :=
  nvhal_EnumerateDeviceExtensionProperties demo_hidden demo_known demo_driver 2 true true None
    (fun k => replicate k (mk_ext "" 0)) pCount pProps.


(** A 1.1 device with the swapchain's extension and an emulated format. *)
Example device_names_demo :
  rq_names <$> device_names demo_hidden demo_known demo_exts false true ["VK_KHR_maintenance1"; ANB_EXT; "VK_KHR_maintenance1"]%string =
  Some ("VK_KHR_maintenance1"%string :: anb_required_exts) /\
  device_names demo_hidden demo_known demo_exts false true ["VK_KHR_ray_query"%string] = None /\
  device_names demo_hidden demo_known demo_exts true true [ANB_EXT] = None.
Proof. vm_compute. done. Qed.

End HalExts.
