(* ===== verification/HalProcs.v ===== *)
(** * Entry points the Vulkan HAL hands out

    The tables of intercepted commands ([hal.c], [imgxlate.c], [cmdstate.c]) and
    the two functions that answer an application's queries from them,
    [hal_GetInstanceProcAddr] and [hal_GetDeviceProcAddr]; the tables of driver
    entry points a device fetches for its own wrappers ([nvhal.h], [device.c]).

    A function of the HAL is named by its C name; the driver's functions are
    addresses, 0 the null pointer.  The parts of the tables that depend on the
    Vulkan headers of the build are there or not by a flag. *)

From Stdlib Require Import ZArith Lia.
From stdpp Require Import base option sets strings gmap list.
From S2P Require Import Prelude GtSession.

Set Default Goal Selector "!".
#[local] Open Scope Z_scope.

Module HalProcs.

(** [NVHAL_IC_*]. *)
Inductive ic_kind := IC_ANY | IC_DEVICE | IC_ANB | IC_AHB | IC_AHB_ONLY | IC_WRAP | IC_ASTC.
#[export] Instance ic_kind_eq_dec : EqDecision ic_kind.
Proof. solve_decision. Defined.

(** [struct intercept]; [ic_needs]: the driver's entry point that must exist. *)
Record intercept := mk_ic { ic_name : string; ic_fn : string; ic_kind_of : ic_kind; ic_needs : option string }.
#[export] Instance intercept_eq_dec : EqDecision intercept.
Proof. solve_decision. Defined.

Definition intercepts : list intercept :=
  [mk_ic "vkGetInstanceProcAddr" "hal_GetInstanceProcAddr" IC_ANY None;
   mk_ic "vkDestroyInstance" "hal_DestroyInstance" IC_ANY None;
   mk_ic "vkEnumeratePhysicalDevices" "hal_EnumeratePhysicalDevices" IC_ANY None;
   mk_ic "vkEnumeratePhysicalDeviceGroups" "hal_EnumeratePhysicalDeviceGroups" IC_ANY (Some "vkEnumeratePhysicalDeviceGroups");
   mk_ic "vkEnumeratePhysicalDeviceGroupsKHR" "hal_EnumeratePhysicalDeviceGroupsKHR" IC_ANY (Some "vkEnumeratePhysicalDeviceGroupsKHR");
   mk_ic "vkEnumerateDeviceExtensionProperties" "nvhal_EnumerateDeviceExtensionProperties" IC_ANY None;
   mk_ic "vkCreateDevice" "nvhal_CreateDevice" IC_ANY None;
   mk_ic "vkGetPhysicalDeviceProperties2" "nvhal_GetPhysicalDeviceProperties2" IC_ANY (Some "vkGetPhysicalDeviceProperties2");
   mk_ic "vkGetPhysicalDeviceProperties2KHR" "nvhal_GetPhysicalDeviceProperties2KHR" IC_ANY (Some "vkGetPhysicalDeviceProperties2KHR");
   mk_ic "vkGetPhysicalDeviceImageFormatProperties2" "nvhal_GetPhysicalDeviceImageFormatProperties2" IC_ANY (Some "vkGetPhysicalDeviceImageFormatProperties2");
   mk_ic "vkGetPhysicalDeviceImageFormatProperties2KHR" "nvhal_GetPhysicalDeviceImageFormatProperties2KHR" IC_ANY (Some "vkGetPhysicalDeviceImageFormatProperties2KHR");
   mk_ic "vkGetPhysicalDeviceExternalBufferProperties" "nvhal_GetPhysicalDeviceExternalBufferProperties" IC_ANY (Some "vkGetPhysicalDeviceExternalBufferProperties");
   mk_ic "vkGetPhysicalDeviceExternalBufferPropertiesKHR" "nvhal_GetPhysicalDeviceExternalBufferPropertiesKHR" IC_ANY (Some "vkGetPhysicalDeviceExternalBufferPropertiesKHR");
   mk_ic "vkGetPhysicalDeviceFeatures" "nvhal_GetPhysicalDeviceFeatures" IC_ANY None;
   mk_ic "vkGetPhysicalDeviceFeatures2" "nvhal_GetPhysicalDeviceFeatures2" IC_ANY (Some "vkGetPhysicalDeviceFeatures2");
   mk_ic "vkGetPhysicalDeviceFeatures2KHR" "nvhal_GetPhysicalDeviceFeatures2KHR" IC_ANY (Some "vkGetPhysicalDeviceFeatures2KHR");
   mk_ic "vkGetPhysicalDeviceFormatProperties" "nvhal_GetPhysicalDeviceFormatProperties" IC_ANY None;
   mk_ic "vkGetPhysicalDeviceFormatProperties2" "nvhal_GetPhysicalDeviceFormatProperties2" IC_ANY (Some "vkGetPhysicalDeviceFormatProperties2");
   mk_ic "vkGetPhysicalDeviceFormatProperties2KHR" "nvhal_GetPhysicalDeviceFormatProperties2KHR" IC_ANY (Some "vkGetPhysicalDeviceFormatProperties2KHR");
   mk_ic "vkGetPhysicalDeviceImageFormatProperties" "nvhal_GetPhysicalDeviceImageFormatProperties" IC_ANY None;
   mk_ic "vkGetDeviceProcAddr" "hal_GetDeviceProcAddr" IC_DEVICE None;
   mk_ic "vkDestroyDevice" "nvhal_DestroyDevice" IC_DEVICE None;
   mk_ic "vkGetDeviceQueue" "nvhal_GetDeviceQueue" IC_DEVICE None;
   mk_ic "vkGetDeviceQueue2" "nvhal_GetDeviceQueue2" IC_DEVICE (Some "vkGetDeviceQueue2");
   mk_ic "vkAllocateCommandBuffers" "nvhal_AllocateCommandBuffers" IC_DEVICE None;
   mk_ic "vkCreateImage" "nvhal_CreateImage" IC_DEVICE None;
   mk_ic "vkDestroyImage" "nvhal_DestroyImage" IC_DEVICE None;
   mk_ic "vkBindImageMemory2" "nvhal_BindImageMemory2" IC_DEVICE (Some "vkBindImageMemory2");
   mk_ic "vkBindImageMemory2KHR" "nvhal_BindImageMemory2KHR" IC_DEVICE (Some "vkBindImageMemory2KHR");
   mk_ic "vkGetSwapchainGrallocUsageANDROID" "nvhal_GetSwapchainGrallocUsageANDROID" IC_ANB None;
   mk_ic "vkGetSwapchainGrallocUsage2ANDROID" "nvhal_GetSwapchainGrallocUsage2ANDROID" IC_ANB None;
   mk_ic "vkAcquireImageANDROID" "nvhal_AcquireImageANDROID" IC_ANB None;
   mk_ic "vkQueueSignalReleaseImageANDROID" "nvhal_QueueSignalReleaseImageANDROID" IC_ANB None;
   mk_ic "vkGetAndroidHardwareBufferPropertiesANDROID" "nvhal_GetAndroidHardwareBufferPropertiesANDROID" IC_AHB_ONLY None;
   mk_ic "vkGetMemoryAndroidHardwareBufferANDROID" "nvhal_GetMemoryAndroidHardwareBufferANDROID" IC_AHB_ONLY None;
   mk_ic "vkAllocateMemory" "nvhal_AllocateMemory" IC_WRAP None;
   mk_ic "vkFreeMemory" "nvhal_FreeMemory" IC_AHB None;
   mk_ic "vkBindImageMemory" "nvhal_BindImageMemory" IC_WRAP None;
   mk_ic "vkCreateBuffer" "nvhal_CreateBuffer" IC_AHB None;
   mk_ic "vkCreateSamplerYcbcrConversion" "nvhal_CreateSamplerYcbcrConversion" IC_AHB (Some "vkCreateSamplerYcbcrConversion");
   mk_ic "vkCreateSamplerYcbcrConversionKHR" "nvhal_CreateSamplerYcbcrConversionKHR" IC_AHB (Some "vkCreateSamplerYcbcrConversionKHR")]%string.
Definition xl_core : list (string * string * ic_kind) :=
  [("vkGetImageMemoryRequirements", "xl_GetImageMemoryRequirements", IC_WRAP);
   ("vkGetImageMemoryRequirements2", "xl_GetImageMemoryRequirements2", IC_WRAP);
   ("vkGetImageMemoryRequirements2KHR", "xl_GetImageMemoryRequirements2KHR", IC_WRAP);
   ("vkGetImageSparseMemoryRequirements", "xl_GetImageSparseMemoryRequirements", IC_WRAP);
   ("vkGetImageSparseMemoryRequirements2", "xl_GetImageSparseMemoryRequirements2", IC_WRAP);
   ("vkGetImageSparseMemoryRequirements2KHR", "xl_GetImageSparseMemoryRequirements2KHR", IC_WRAP);
   ("vkGetImageSubresourceLayout", "xl_GetImageSubresourceLayout", IC_WRAP);
   ("vkGetImageSubresourceLayout2", "xl_GetImageSubresourceLayout2", IC_WRAP);
   ("vkGetImageSubresourceLayout2KHR", "xl_GetImageSubresourceLayout2KHR", IC_WRAP);
   ("vkGetImageSubresourceLayout2EXT", "xl_GetImageSubresourceLayout2EXT", IC_WRAP);
   ("vkGetImageDrmFormatModifierPropertiesEXT", "xl_GetImageDrmFormatModifierPropertiesEXT", IC_WRAP);
   ("vkCreateImageView", "xl_CreateImageView", IC_WRAP);
   ("vkGetImageOpaqueCaptureDescriptorDataEXT", "xl_GetImageOpaqueCaptureDescriptorDataEXT", IC_WRAP);
   ("vkCopyImageToImage", "xl_CopyImageToImage", IC_WRAP);
   ("vkCopyImageToImageEXT", "xl_CopyImageToImageEXT", IC_WRAP);
   ("vkCopyImageToMemory", "xl_CopyImageToMemory", IC_WRAP);
   ("vkCopyImageToMemoryEXT", "xl_CopyImageToMemoryEXT", IC_WRAP);
   ("vkCopyMemoryToImage", "xl_CopyMemoryToImage", IC_WRAP);
   ("vkCopyMemoryToImageEXT", "xl_CopyMemoryToImageEXT", IC_WRAP);
   ("vkTransitionImageLayout", "xl_TransitionImageLayout", IC_WRAP);
   ("vkTransitionImageLayoutEXT", "xl_TransitionImageLayoutEXT", IC_WRAP);
   ("vkSetDebugUtilsObjectNameEXT", "xl_SetDebugUtilsObjectNameEXT", IC_WRAP);
   ("vkSetDebugUtilsObjectTagEXT", "xl_SetDebugUtilsObjectTagEXT", IC_WRAP);
   ("vkDebugMarkerSetObjectNameEXT", "xl_DebugMarkerSetObjectNameEXT", IC_WRAP);
   ("vkDebugMarkerSetObjectTagEXT", "xl_DebugMarkerSetObjectTagEXT", IC_WRAP);
   ("vkSetPrivateData", "xl_SetPrivateData", IC_DEVICE);
   ("vkSetPrivateDataEXT", "xl_SetPrivateDataEXT", IC_DEVICE);
   ("vkGetPrivateData", "xl_GetPrivateData", IC_DEVICE);
   ("vkGetPrivateDataEXT", "xl_GetPrivateDataEXT", IC_DEVICE);
   ("vkDestroyPrivateDataSlot", "xl_DestroyPrivateDataSlot", IC_DEVICE);
   ("vkDestroyPrivateDataSlotEXT", "xl_DestroyPrivateDataSlotEXT", IC_DEVICE);
   ("vkGetDeviceImageMemoryRequirements", "xl_GetDeviceImageMemoryRequirements", IC_WRAP);
   ("vkGetDeviceImageMemoryRequirementsKHR", "xl_GetDeviceImageMemoryRequirementsKHR", IC_WRAP);
   ("vkGetDeviceImageSparseMemoryRequirements", "xl_GetDeviceImageSparseMemoryRequirements", IC_WRAP);
   ("vkGetDeviceImageSparseMemoryRequirementsKHR", "xl_GetDeviceImageSparseMemoryRequirementsKHR", IC_WRAP);
   ("vkGetDeviceImageSubresourceLayout", "xl_GetDeviceImageSubresourceLayout", IC_WRAP);
   ("vkGetDeviceImageSubresourceLayoutKHR", "xl_GetDeviceImageSubresourceLayoutKHR", IC_WRAP);
   ("vkGetDeviceBufferMemoryRequirements", "xl_GetDeviceBufferMemoryRequirements", IC_WRAP);
   ("vkGetDeviceBufferMemoryRequirementsKHR", "xl_GetDeviceBufferMemoryRequirementsKHR", IC_WRAP);
   ("vkCmdBlitImage", "xl_CmdBlitImage", IC_WRAP);
   ("vkCmdBlitImage2", "xl_CmdBlitImage2", IC_WRAP);
   ("vkCmdBlitImage2KHR", "xl_CmdBlitImage2KHR", IC_WRAP);
   ("vkCmdCopyImage", "xl_CmdCopyImage", IC_WRAP);
   ("vkCmdCopyImage2", "xl_CmdCopyImage2", IC_WRAP);
   ("vkCmdCopyImage2KHR", "xl_CmdCopyImage2KHR", IC_WRAP);
   ("vkCmdResolveImage", "xl_CmdResolveImage", IC_WRAP);
   ("vkCmdResolveImage2", "xl_CmdResolveImage2", IC_WRAP);
   ("vkCmdResolveImage2KHR", "xl_CmdResolveImage2KHR", IC_WRAP);
   ("vkCmdCopyBufferToImage", "xl_CmdCopyBufferToImage", IC_WRAP);
   ("vkCmdCopyBufferToImage2", "xl_CmdCopyBufferToImage2", IC_WRAP);
   ("vkCmdCopyBufferToImage2KHR", "xl_CmdCopyBufferToImage2KHR", IC_WRAP);
   ("vkCmdCopyImageToBuffer", "xl_CmdCopyImageToBuffer", IC_WRAP);
   ("vkCmdCopyImageToBuffer2", "xl_CmdCopyImageToBuffer2", IC_WRAP);
   ("vkCmdCopyImageToBuffer2KHR", "xl_CmdCopyImageToBuffer2KHR", IC_WRAP);
   ("vkCmdClearColorImage", "xl_CmdClearColorImage", IC_WRAP);
   ("vkCmdClearDepthStencilImage", "xl_CmdClearDepthStencilImage", IC_WRAP);
   ("vkCmdCopyMemoryToImageIndirectNV", "xl_CmdCopyMemoryToImageIndirectNV", IC_WRAP);
   ("vkCmdPipelineBarrier", "xl_CmdPipelineBarrier", IC_WRAP);
   ("vkCmdPipelineBarrier2", "xl_CmdPipelineBarrier2", IC_WRAP);
   ("vkCmdPipelineBarrier2KHR", "xl_CmdPipelineBarrier2KHR", IC_WRAP);
   ("vkCmdWaitEvents", "xl_CmdWaitEvents", IC_WRAP);
   ("vkCmdWaitEvents2", "xl_CmdWaitEvents2", IC_WRAP);
   ("vkCmdWaitEvents2KHR", "xl_CmdWaitEvents2KHR", IC_WRAP);
   ("vkCmdSetEvent2", "xl_CmdSetEvent2", IC_WRAP);
   ("vkCmdSetEvent2KHR", "xl_CmdSetEvent2KHR", IC_WRAP);
   ("vkQueueBindSparse", "xl_QueueBindSparse", IC_WRAP);
   ("vkFreeCommandBuffers", "xl_FreeCommandBuffers", IC_DEVICE);
   ("vkDestroyCommandPool", "xl_DestroyCommandPool", IC_DEVICE)]%string.
Definition xl_VK_KHR_device_address_commands : list (string * string * ic_kind) :=
  [("vkCmdCopyMemoryToImageKHR", "xl_CmdCopyMemoryToImageKHR", IC_WRAP);
   ("vkCmdCopyImageToMemoryKHR", "xl_CmdCopyImageToMemoryKHR", IC_WRAP)]%string.
Definition xl_VK_KHR_copy_memory_indirect : list (string * string * ic_kind) :=
  [("vkCmdCopyMemoryToImageIndirectKHR", "xl_CmdCopyMemoryToImageIndirectKHR", IC_WRAP)]%string.
Definition xl_VK_EXT_descriptor_heap : list (string * string * ic_kind) :=
  [("vkWriteResourceDescriptorsEXT", "xl_WriteResourceDescriptorsEXT", IC_WRAP);
   ("vkGetImageOpaqueCaptureDataEXT", "xl_GetImageOpaqueCaptureDataEXT", IC_WRAP)]%string.
Definition cs_core : list (string * string * ic_kind) :=
  [("vkBeginCommandBuffer", "cs_BeginCommandBuffer", IC_ASTC);
   ("vkCreateCommandPool", "cs_CreateCommandPool", IC_ASTC);
   ("vkCmdBindPipeline", "cs_CmdBindPipeline", IC_ASTC);
   ("vkCmdBindShadersEXT", "cs_CmdBindShadersEXT", IC_ASTC);
   ("vkCmdBindDescriptorSets", "cs_CmdBindDescriptorSets", IC_ASTC);
   ("vkCmdBindDescriptorSets2", "cs_CmdBindDescriptorSets2", IC_ASTC);
   ("vkCmdBindDescriptorSets2KHR", "cs_CmdBindDescriptorSets2KHR", IC_ASTC);
   ("vkCmdPushConstants", "cs_CmdPushConstants", IC_ASTC);
   ("vkCmdPushConstants2", "cs_CmdPushConstants2", IC_ASTC);
   ("vkCmdPushConstants2KHR", "cs_CmdPushConstants2KHR", IC_ASTC);
   ("vkCmdPushDescriptorSet", "cs_CmdPushDescriptorSet", IC_ASTC);
   ("vkCmdPushDescriptorSetKHR", "cs_CmdPushDescriptorSetKHR", IC_ASTC);
   ("vkCmdPushDescriptorSet2", "cs_CmdPushDescriptorSet2", IC_ASTC);
   ("vkCmdPushDescriptorSet2KHR", "cs_CmdPushDescriptorSet2KHR", IC_ASTC);
   ("vkCmdPushDescriptorSetWithTemplate", "cs_CmdPushDescriptorSetWithTemplate", IC_ASTC);
   ("vkCmdPushDescriptorSetWithTemplateKHR", "cs_CmdPushDescriptorSetWithTemplateKHR", IC_ASTC);
   ("vkCmdPushDescriptorSetWithTemplate2", "cs_CmdPushDescriptorSetWithTemplate2", IC_ASTC);
   ("vkCmdPushDescriptorSetWithTemplate2KHR", "cs_CmdPushDescriptorSetWithTemplate2KHR", IC_ASTC);
   ("vkCmdSetDescriptorBufferOffsetsEXT", "cs_CmdSetDescriptorBufferOffsetsEXT", IC_ASTC);
   ("vkCmdSetDescriptorBufferOffsets2EXT", "cs_CmdSetDescriptorBufferOffsets2EXT", IC_ASTC);
   ("vkCmdBindDescriptorBufferEmbeddedSamplersEXT", "cs_CmdBindDescriptorBufferEmbeddedSamplersEXT", IC_ASTC);
   ("vkCmdBindDescriptorBufferEmbeddedSamplers2EXT", "cs_CmdBindDescriptorBufferEmbeddedSamplers2EXT", IC_ASTC);
   ("vkCmdBeginConditionalRenderingEXT", "cs_CmdBeginConditionalRenderingEXT", IC_ASTC);
   ("vkCmdEndConditionalRenderingEXT", "cs_CmdEndConditionalRenderingEXT", IC_ASTC)]%string.
Definition cs_VK_EXT_descriptor_heap : list (string * string * ic_kind) :=
  [("vkCmdBindSamplerHeapEXT", "cs_CmdBindSamplerHeapEXT", IC_ASTC);
   ("vkCmdBindResourceHeapEXT", "cs_CmdBindResourceHeapEXT", IC_ASTC);
   ("vkCmdPushDataEXT", "cs_CmdPushDataEXT", IC_ASTC)]%string.
Definition NVHAL_XL_FNS_CORE : list string :=
  ["vkBindImageMemory"; "vkGetImageMemoryRequirements"; "vkGetImageMemoryRequirements2";
   "vkGetImageMemoryRequirements2KHR"; "vkGetImageSparseMemoryRequirements"; "vkGetImageSparseMemoryRequirements2";
   "vkGetImageSparseMemoryRequirements2KHR"; "vkGetImageSubresourceLayout"; "vkGetImageSubresourceLayout2";
   "vkGetImageSubresourceLayout2KHR"; "vkGetImageSubresourceLayout2EXT"; "vkGetImageDrmFormatModifierPropertiesEXT";
   "vkCreateImageView"; "vkCmdBlitImage"; "vkCmdBlitImage2"; "vkCmdBlitImage2KHR"; "vkCmdClearColorImage";
   "vkCmdClearDepthStencilImage"; "vkCmdCopyBufferToImage"; "vkCmdCopyBufferToImage2"; "vkCmdCopyBufferToImage2KHR";
   "vkCmdCopyImage"; "vkCmdCopyImage2"; "vkCmdCopyImage2KHR"; "vkCmdCopyImageToBuffer"; "vkCmdCopyImageToBuffer2";
   "vkCmdCopyImageToBuffer2KHR"; "vkCmdResolveImage"; "vkCmdResolveImage2"; "vkCmdResolveImage2KHR";
   "vkCmdPipelineBarrier"; "vkCmdPipelineBarrier2"; "vkCmdPipelineBarrier2KHR"; "vkCmdWaitEvents"; "vkCmdWaitEvents2";
   "vkCmdWaitEvents2KHR"; "vkCmdSetEvent2"; "vkCmdSetEvent2KHR"; "vkCopyImageToImage"; "vkCopyImageToImageEXT";
   "vkCopyImageToMemory"; "vkCopyImageToMemoryEXT"; "vkCopyMemoryToImage"; "vkCopyMemoryToImageEXT";
   "vkTransitionImageLayout"; "vkTransitionImageLayoutEXT"; "vkGetImageOpaqueCaptureDescriptorDataEXT";
   "vkCmdCopyMemoryToImageIndirectNV"; "vkQueueBindSparse"; "vkSetDebugUtilsObjectNameEXT";
   "vkSetDebugUtilsObjectTagEXT"; "vkDebugMarkerSetObjectNameEXT"; "vkDebugMarkerSetObjectTagEXT"; "vkSetPrivateData";
   "vkSetPrivateDataEXT"; "vkGetPrivateData"; "vkGetPrivateDataEXT"; "vkDestroyPrivateDataSlot";
   "vkDestroyPrivateDataSlotEXT"; "vkGetDeviceImageMemoryRequirements"; "vkGetDeviceImageMemoryRequirementsKHR";
   "vkGetDeviceImageSparseMemoryRequirements"; "vkGetDeviceImageSparseMemoryRequirementsKHR";
   "vkGetDeviceImageSubresourceLayout"; "vkGetDeviceImageSubresourceLayoutKHR"; "vkGetDeviceBufferMemoryRequirements";
   "vkGetDeviceBufferMemoryRequirementsKHR"; "vkCreateBuffer"; "vkCreateSamplerYcbcrConversion";
   "vkCreateSamplerYcbcrConversionKHR"; "vkFreeCommandBuffers"; "vkDestroyCommandPool"]%string.
Definition NVHAL_XL_FNS_DAC : list string :=
  ["vkCmdCopyMemoryToImageKHR"; "vkCmdCopyImageToMemoryKHR"]%string.
Definition NVHAL_XL_FNS_CMI : list string :=
  ["vkCmdCopyMemoryToImageIndirectKHR"]%string.
Definition NVHAL_XL_FNS_DH : list string :=
  ["vkWriteResourceDescriptorsEXT"; "vkGetImageOpaqueCaptureDataEXT"]%string.
Definition NVHAL_CS_FNS_CORE : list string :=
  ["vkBeginCommandBuffer"; "vkCreateCommandPool"; "vkCmdBindPipeline"; "vkCmdBindDescriptorSets";
   "vkCmdBindDescriptorSets2"; "vkCmdBindDescriptorSets2KHR"; "vkCmdPushConstants"; "vkCmdPushConstants2";
   "vkCmdPushConstants2KHR"; "vkCmdPushDescriptorSet"; "vkCmdPushDescriptorSetKHR"; "vkCmdPushDescriptorSet2";
   "vkCmdPushDescriptorSet2KHR"; "vkCmdPushDescriptorSetWithTemplate"; "vkCmdPushDescriptorSetWithTemplateKHR";
   "vkCmdPushDescriptorSetWithTemplate2"; "vkCmdPushDescriptorSetWithTemplate2KHR";
   "vkCmdSetDescriptorBufferOffsetsEXT"; "vkCmdSetDescriptorBufferOffsets2EXT";
   "vkCmdBindDescriptorBufferEmbeddedSamplersEXT"; "vkCmdBindDescriptorBufferEmbeddedSamplers2EXT";
   "vkCmdBindShadersEXT"; "vkCmdBeginConditionalRenderingEXT"; "vkCmdEndConditionalRenderingEXT"]%string.
Definition NVHAL_CS_FNS_DH : list string :=
  ["vkCmdBindSamplerHeapEXT"; "vkCmdBindResourceHeapEXT"; "vkCmdPushDataEXT"]%string.
Definition NVHAL_ASTC_FNS : list string :=
  ["vkCmdDispatch"; "vkDestroyImageView"; "vkCreateDescriptorSetLayout"; "vkDestroyDescriptorSetLayout";
   "vkCreatePipelineLayout"; "vkDestroyPipelineLayout"; "vkCreateShaderModule"; "vkDestroyShaderModule";
   "vkCreateComputePipelines"; "vkDestroyPipeline"; "vkDestroyBuffer"; "vkGetBufferMemoryRequirements";
   "vkBindBufferMemory"; "vkMapMemory"; "vkUnmapMemory"; "vkCreateBufferView"; "vkDestroyBufferView";
   "vkCreateDescriptorPool"; "vkDestroyDescriptorPool"; "vkAllocateDescriptorSets"; "vkFreeDescriptorSets";
   "vkUpdateDescriptorSets"]%string.

(** Which optional parts the build's headers have. *)
Record headers := mk_headers { h_dac : bool; h_cmi : bool; h_dh : bool }.
#[export] Instance headers_eq_dec : EqDecision headers.
Proof. solve_decision. Defined.
Definition when {A} (b : bool) (l : list A) : list A := if b then l else [].

Section Tables.
Context (h : headers).

Definition nvhal_xl_entries : list (string * string * ic_kind) :=
  xl_core ++ when (h_dac h) xl_VK_KHR_device_address_commands ++ when (h_cmi h) xl_VK_KHR_copy_memory_indirect ++
  when (h_dh h) xl_VK_EXT_descriptor_heap.
Definition nvhal_cs_entries : list (string * string * ic_kind) := cs_core ++ when (h_dh h) cs_VK_EXT_descriptor_heap.
Definition NVHAL_XL_FNS : list string :=
  NVHAL_XL_FNS_CORE ++ when (h_dac h) NVHAL_XL_FNS_DAC ++ when (h_cmi h) NVHAL_XL_FNS_CMI ++ when (h_dh h) NVHAL_XL_FNS_DH.
Definition NVHAL_CS_FNS : list string := NVHAL_CS_FNS_CORE ++ when (h_dh h) NVHAL_CS_FNS_DH.

Definition of_entry (e : string * string * ic_kind) : intercept := mk_ic e.1.1 e.1.2 e.2 (Some e.1.1).
Definition all_intercepts : list intercept := intercepts ++ (of_entry <$> nvhal_xl_entries) ++ (of_entry <$> nvhal_cs_entries).
Definition find_intercept (name : string) : option intercept := List.find (fun ic => String.eqb (ic_name ic) name) all_intercepts.

(** What a query returns: the null pointer, a function of the HAL, a function
    of the driver. *)
Inductive proc := Null | Hook (fn : string) | Icd (p : Z).
#[export] Instance proc_eq_dec : EqDecision proc.
Proof. solve_decision. Defined.
Definition of_icd (p : Z) : proc := if p =? 0 then Null else Icd p.

(** [has_version]: the driver has [vkEnumerateInstanceVersion]. *)
Definition global_proc (has_version : bool) (name : string) : proc :=
  if String.eqb name "vkCreateInstance" then Hook "hal_CreateInstance"
  else if String.eqb name "vkEnumerateInstanceExtensionProperties" then Hook "hal_EnumerateInstanceExtensionProperties"
  else if String.eqb name "vkEnumerateInstanceLayerProperties" then Hook "hal_EnumerateInstanceLayerProperties"
  else if String.eqb name "vkEnumerateInstanceVersion" then if has_version then Hook "hal_EnumerateInstanceVersion" else Null
  else Null.

(** [gipa]: the driver's [vkGetInstanceProcAddr] for a handle, 0 the null one. *)
Definition hal_GetInstanceProcAddr (has_version ahb_available : bool) (gipa : Z -> string -> Z) (instance : Z) (pName : option string) : proc :=
  match pName with
  | None => Null
  | Some name =>
      let g := global_proc has_version name in
      if instance =? 0 then
        if negb (bool_decide (g = Null)) then g
        else if String.eqb name "vkGetInstanceProcAddr" then Hook "hal_GetInstanceProcAddr" else Null
      else if negb (bool_decide (g = Null)) then g
      else match find_intercept name with
      | Some ic =>
          if decide (ic_kind_of ic = IC_AHB_ONLY) then if ahb_available then Hook (ic_fn ic) else Null
          else match ic_needs ic with
          | Some needs => if gipa instance needs =? 0 then Null else Hook (ic_fn ic)
          | None => Hook (ic_fn ic)
          end
      | None => of_icd (gipa instance name)
      end
  end.

(** What [struct nvhal_device] says of the dispatch. *)
Record dev_flags := mk_flags { df_anb : bool; df_ahb : bool; df_astc : bool; df_gt : bool }.

(** [gdpa]: the driver's [vkGetDeviceProcAddr] on the device. *)
Definition device_proc (has_version : bool) (d : dev_flags) (gdpa : string -> Z) (name : string) : proc :=
  let fi := find_intercept name in
  let kind := ic_kind_of <$> fi in
  let fn := default "" (ic_fn <$> fi) in
  let icd := of_icd (gdpa name) in
  if decide (kind = Some IC_ANB) then if df_anb d then Hook fn else Null
  else if decide (kind = Some IC_AHB_ONLY) then if df_ahb d then Hook fn else Null
  else if bool_decide (kind = Some IC_AHB) && negb (df_ahb d) then icd
  else if bool_decide (kind = Some IC_WRAP) && (negb (df_ahb d) && negb (df_anb d) && negb (df_astc d)) then icd
  else if bool_decide (kind = Some IC_ASTC) && negb (df_astc d) then icd
  else if bool_decide (kind = Some IC_DEVICE \/ kind = Some IC_AHB \/ kind = Some IC_WRAP \/ kind = Some IC_ASTC) then
    match fi ≫= ic_needs with
    | Some needs => if gdpa needs =? 0 then Null else Hook fn
    | None => Hook fn
    end
  else if bool_decide (is_Some fi) || negb (bool_decide (global_proc has_version name = Null)) then Null
  else icd.

(** The address behind an answer; [text]: the addresses of the HAL's functions. *)
Definition address (text : string -> Z) (p : proc) : Z := match p with Null => 0 | Hook f => text f | Icd p => p end.

(** [dev]: the device the handle belongs to; [next]: the chained functions the
    timing layer keeps ([GtSession]). *)
Definition hal_GetDeviceProcAddr (has_version : bool) (text : string -> Z) (dev : option (dev_flags * (string -> Z)))
    (next : gmap string Z) (pName : option string) : GtSession.entry * gmap string Z :=
  match pName with
  | None => (GtSession.Plain 0, next)
  | Some name =>
      if String.eqb name "vkGetDeviceProcAddr" then (GtSession.Plain (text "hal_GetDeviceProcAddr"%string), next)
      else match dev with
      | None => (GtSession.Plain 0, next)
      | Some (d, gdpa) =>
          let fn := address text (device_proc has_version d gdpa name) in
          if df_gt d then GtSession.nvhal_gt_wrap true next name fn else (GtSession.Plain fn, next)
      end
  end.

(** The driver's function a wrapper of [imgxlate.c] or [ahb.c] calls
    ([d->xl.field], fetched by [vkCreateDevice]), and one of [cmdstate.c] ([d->cs.field]). *)
Definition xl_field (gipa gdpa : string -> Z) (name : string) : Z :=
  if bool_decide (name ∈ NVHAL_XL_FNS) then if gdpa name =? 0 then gipa name else gdpa name else 0.
Definition cs_field (gdpa : string -> Z) (name : string) : Z :=
  if bool_decide (name ∈ NVHAL_CS_FNS ++ NVHAL_ASTC_FNS) then gdpa name else 0.

End Tables.

(** ** The tables *)

Definition all_headers : list headers :=
  dac ← [false; true]; cmi ← [false; true]; dh ← [false; true]; [mk_headers dac cmi dh].
Lemma all_headers_complete h : h ∈ all_headers.
Proof. destruct h as [[] [] []]; apply (bool_decide_unpack _); vm_compute; done. Qed.
(** A property of the tables holds of every build when it computes on each. *)
Lemma for_headers (P : headers -> bool) : forallb P all_headers = true -> forall h, P h = true.
Proof. intros H h. rewrite forallb_forall in H. apply H, list_elem_of_In, all_headers_complete. Qed.

(** No name is in the tables twice, so the order of the three searches does not matter. *)
Lemma intercept_names_distinct h : NoDup (ic_name <$> all_intercepts h).
Proof.
  apply (proj1 (bool_decide_eq_true _)). revert h.
  apply (for_headers (fun h => bool_decide (NoDup (ic_name <$> all_intercepts h)))). vm_compute. done.
Qed.
(** No intercepted command is a global one. *)
Lemma intercepts_not_global h hv : Forall (fun ic => global_proc hv (ic_name ic) = Null) (all_intercepts h).
Proof.
  apply Forall_forall. intros ic Hic.
  assert (F : forallb (fun ic => bool_decide (global_proc true (ic_name ic) = Null) && bool_decide (global_proc false (ic_name ic) = Null)) (all_intercepts h) = true).
  { clear Hic. apply (for_headers (fun h => forallb (fun ic => bool_decide (global_proc true (ic_name ic) = Null) &&
      bool_decide (global_proc false (ic_name ic) = Null)) (all_intercepts h))). vm_compute. done. }
  rewrite forallb_forall in F. specialize (F ic ltac:(by apply list_elem_of_In)). apply andb_true_iff in F as [A B].
  apply bool_decide_eq_true in A, B. by destruct hv.
Qed.
Lemma find_intercept_spec h name ic : find_intercept h name = Some ic <-> ic ∈ all_intercepts h /\ ic_name ic = name.
Proof.
  unfold find_intercept. split.
  - intros [H E]%List.find_some. split; [by apply list_elem_of_In|]. by apply String.eqb_eq in E.
  - intros [Hin Hn]. pose proof (intercept_names_distinct h) as ND.
    induction (all_intercepts h) as [|x l IH]; [by apply elem_of_nil in Hin|]. cbn [List.find]. rewrite fmap_cons in ND.
    apply NoDup_cons in ND as [Hx ND]. apply elem_of_cons in Hin as [->|Hin].
    + by rewrite Hn, String.eqb_refl.
    + destruct (String.eqb_spec (ic_name x) name) as [E|E]; [|by apply IH]. destruct Hx. apply list_elem_of_fmap. exists ic. by rewrite Hn.
Qed.

(** ** What a device hands out *)

(** Whether a device of these features needs the commands of a kind translated. *)
Definition active (d : dev_flags) (k : ic_kind) : bool :=
  match k with
  | IC_ANY => false | IC_DEVICE => true | IC_ANB => df_anb d | IC_AHB | IC_AHB_ONLY => df_ahb d
  | IC_WRAP => df_ahb d || df_anb d || df_astc d | IC_ASTC => df_astc d
  end.
(** The two extensions the driver knows nothing of. *)
Definition own_command (k : ic_kind) : bool := match k with IC_ANB | IC_AHB_ONLY => true | _ => false end.

Definition lacks (gdpa : string -> Z) (ic : intercept) : bool :=
  match ic_needs ic with Some n => gdpa n =? 0 | None => false end.

Definition handed_out (h : headers) (hv : bool) (d : dev_flags) (gdpa : string -> Z) (name : string) : proc :=
  match find_intercept h name with
  | None => if bool_decide (global_proc hv name = Null) then of_icd (gdpa name) else Null
  | Some ic =>
      let k := ic_kind_of ic in
      if decide (k = IC_ANY) then Null
      else if active d k then
        if negb (own_command k) && lacks gdpa ic then Null else Hook (ic_fn ic)
      else if own_command k then Null else of_icd (gdpa name)
  end.

Lemma device_proc_handed_out h hv d gdpa name : device_proc h hv d gdpa name = handed_out h hv d gdpa name.
Proof.
  unfold device_proc, handed_out. destruct (find_intercept h name) as [ic|] eqn:E; cbn.
  - destruct ic as [n f k nd]. unfold lacks. cbn.
    destruct k; cbn; destruct d as [[] [] [] gt]; cbn; try done; destruct nd as [m|]; try done; cbn; by destruct (gdpa m =? 0).
  - destruct (decide (global_proc hv name = Null)) as [E2|E2].
    + by rewrite (bool_decide_eq_true_2 _ E2).
    + by rewrite (bool_decide_eq_false_2 _ E2).
Qed.

(** C17: what [vkGetDeviceProcAddr] hands out.  A command of the tables is the
    HAL's own function exactly when the device has the feature that needs it
    intercepted (and, for the driver's own commands, the driver has it);
    otherwise it is the driver's function, except that instance-level and
    global commands and the two Android extensions' own commands are then
    absent.  The timing layer changes neither which commands are there nor
    what they end in: a timed command chains to exactly that function. *)
Theorem device_procs_exact h hv text d gdpa next name :
  (forall f, text f <> 0) -> name <> "vkGetDeviceProcAddr"%string ->
  let p := device_proc h hv d gdpa name in
  p = handed_out h hv d gdpa name /\
  exists e next', hal_GetDeviceProcAddr h hv text (Some (d, gdpa)) next (Some name) = (e, next') /\
    match e with
    | GtSession.Plain fn => fn = address text p /\ next' = next
    | GtSession.Wrapper n => n = name /\ p <> Null /\ df_gt d = true /\ next' = <[name := address text p]> next
    end.
Proof.
  intros Ht Hn p. split; [apply device_proc_handed_out|]. unfold hal_GetDeviceProcAddr. rewrite (proj2 (String.eqb_neq _ _) Hn). fold p.
  destruct (df_gt d); [|by eexists _, _]. unfold GtSession.nvhal_gt_wrap. cbn [negb orb].
  destruct (Z.eqb_spec (address text p) 0) as [E|E]; [by eexists _, _|]. case_bool_decide; [|by eexists _, _].
  eexists _, _. split; [done|]. split; [done|]. split; [|done]. intros ->. by apply E.
Qed.

(** The device commands of Vulkan that carry an image: a [VkImage] parameter,
    a structure (also a chained one) that reaches a [VkImage] or a
    [VkImageCreateInfo], or an object handle with its type
    ([tools/vkimage-coverage.py] derives the same notion from the registry).
    The list is written from the specification, not from the tables. *)
Definition image_objects : list string :=
  ["vkCreateImage"; "vkDestroyImage"; "vkBindImageMemory2"; "vkBindImageMemory2KHR";
   "vkSetPrivateData"; "vkSetPrivateDataEXT"; "vkGetPrivateData"; "vkGetPrivateDataEXT"]%string.
Definition image_uses : list string :=
  ["vkAllocateMemory"; "vkBindImageMemory"; "vkCreateImageView"; "vkQueueBindSparse";
   "vkGetImageMemoryRequirements"; "vkGetImageMemoryRequirements2"; "vkGetImageMemoryRequirements2KHR";
   "vkGetImageSparseMemoryRequirements"; "vkGetImageSparseMemoryRequirements2"; "vkGetImageSparseMemoryRequirements2KHR";
   "vkGetImageSubresourceLayout"; "vkGetImageSubresourceLayout2"; "vkGetImageSubresourceLayout2KHR"; "vkGetImageSubresourceLayout2EXT";
   "vkGetDeviceImageMemoryRequirements"; "vkGetDeviceImageMemoryRequirementsKHR"; "vkGetDeviceImageSparseMemoryRequirements";
   "vkGetDeviceImageSparseMemoryRequirementsKHR"; "vkGetDeviceImageSubresourceLayout"; "vkGetDeviceImageSubresourceLayoutKHR";
   "vkGetImageDrmFormatModifierPropertiesEXT"; "vkGetImageOpaqueCaptureDescriptorDataEXT";
   "vkCmdCopyImage"; "vkCmdCopyImage2"; "vkCmdCopyImage2KHR"; "vkCmdBlitImage"; "vkCmdBlitImage2"; "vkCmdBlitImage2KHR";
   "vkCmdResolveImage"; "vkCmdResolveImage2"; "vkCmdResolveImage2KHR";
   "vkCmdCopyBufferToImage"; "vkCmdCopyBufferToImage2"; "vkCmdCopyBufferToImage2KHR";
   "vkCmdCopyImageToBuffer"; "vkCmdCopyImageToBuffer2"; "vkCmdCopyImageToBuffer2KHR";
   "vkCmdClearColorImage"; "vkCmdClearDepthStencilImage"; "vkCmdCopyMemoryToImageIndirectNV";
   "vkCmdPipelineBarrier"; "vkCmdPipelineBarrier2"; "vkCmdPipelineBarrier2KHR"; "vkCmdWaitEvents"; "vkCmdWaitEvents2";
   "vkCmdWaitEvents2KHR"; "vkCmdSetEvent2"; "vkCmdSetEvent2KHR";
   "vkCopyMemoryToImage"; "vkCopyMemoryToImageEXT"; "vkCopyImageToMemory"; "vkCopyImageToMemoryEXT";
   "vkCopyImageToImage"; "vkCopyImageToImageEXT"; "vkTransitionImageLayout"; "vkTransitionImageLayoutEXT";
   "vkSetDebugUtilsObjectNameEXT"; "vkSetDebugUtilsObjectTagEXT"; "vkDebugMarkerSetObjectNameEXT"; "vkDebugMarkerSetObjectTagEXT"]%string.
(** Those of extensions the build's headers may not have. *)
Definition image_uses_optional (h : headers) : list string :=
  when (h_dac h) ["vkCmdCopyMemoryToImageKHR"; "vkCmdCopyImageToMemoryKHR"]%string ++
  when (h_cmi h) ["vkCmdCopyMemoryToImageIndirectKHR"]%string ++
  when (h_dh h) ["vkWriteResourceDescriptorsEXT"; "vkGetImageOpaqueCaptureDataEXT"]%string.

(** Every one of them is in the tables, with the kind its class needs. *)
Lemma image_commands_listed h name :
  (name ∈ image_objects -> exists ic, find_intercept h name = Some ic /\ ic_kind_of ic = IC_DEVICE) /\
  (name ∈ image_uses ++ image_uses_optional h -> exists ic, find_intercept h name = Some ic /\ ic_kind_of ic = IC_WRAP).
Proof.
  assert (F : forall k l h, forallb (fun n => bool_decide (ic_kind_of <$> find_intercept h n = Some k)) (l h) = true ->
    forall n, n ∈ l h -> exists ic, find_intercept h n = Some ic /\ ic_kind_of ic = k).
  { intros k l h' H n Hn. rewrite forallb_forall in H. specialize (H n ltac:(by apply list_elem_of_In)). apply bool_decide_eq_true in H.
    apply fmap_Some in H as (ic & -> & ->). by exists ic. }
  split; revert name.
  - apply (F IC_DEVICE (fun _ => image_objects) h). revert h.
    apply (for_headers (fun h => forallb (fun n => bool_decide (ic_kind_of <$> find_intercept h n = Some IC_DEVICE)) image_objects)).
    vm_compute. done.
  - apply (F IC_WRAP (fun h => image_uses ++ image_uses_optional h) h). revert h.
    apply (for_headers (fun h => forallb (fun n => bool_decide (ic_kind_of <$> find_intercept h n = Some IC_WRAP)) (image_uses ++ image_uses_optional h))).
    vm_compute. done.
Qed.

(** C16: of the commands of Vulkan that carry an image (a list of the
    specification, [image_objects] and [image_uses], in the extensions the HAL
    shows), none is ever the driver's own on a device where an image handle
    can be the HAL's (a wrapper for a hardware buffer or a swapchain, an
    emulated compressed image), and none through [vkGetInstanceProcAddr].  On
    a device with none of these features, image creation, destruction and
    binding and the private data stay the HAL's, and every other one is the
    driver's own. *)
Theorem images_translated h hv ahb_available gipa instance d gdpa name :
  name ∈ image_objects ++ image_uses ++ image_uses_optional h ->
  (forall p, hal_GetInstanceProcAddr h hv ahb_available gipa instance (Some name) <> Icd p) /\
  (df_ahb d || df_anb d || df_astc d = true -> forall p, device_proc h hv d gdpa name <> Icd p) /\
  (df_ahb d || df_anb d || df_astc d = false ->
   if decide (name ∈ image_objects) then forall p, device_proc h hv d gdpa name <> Icd p
   else device_proc h hv d gdpa name = of_icd (gdpa name)).
Proof.
  intros Hn. destruct (image_commands_listed h name) as [L1 L2].
  assert (G : forall ic, find_intercept h name = Some ic ->
    forall p, hal_GetInstanceProcAddr h hv ahb_available gipa instance (Some name) <> Icd p).
  { intros ic E p. pose proof (intercepts_not_global h hv) as N. rewrite Forall_forall in N.
    pose proof E as E'. apply find_intercept_spec in E' as [Hin <-]. specialize (N ic Hin).
    unfold hal_GetInstanceProcAddr. rewrite E, N. by repeat case_match. }
  assert (Dev : forall ic, find_intercept h name = Some ic -> ic_kind_of ic = IC_DEVICE -> forall p, device_proc h hv d gdpa name <> Icd p).
  { intros ic E K p. rewrite device_proc_handed_out. unfold handed_out. rewrite E, K. cbn. by destruct (lacks gdpa ic). }
  destruct (decide (name ∈ image_objects)) as [Ho|Ho].
  - destruct (L1 Ho) as (ic & E & K). split; [by eapply G|]. split; [intros _; by eapply Dev|]. intros _.
    by eapply Dev.
  - apply elem_of_app in Hn as [?|Hn]; [done|]. destruct (L2 Hn) as (ic & E & K). split; [by eapply G|].
    rewrite device_proc_handed_out. unfold handed_out. rewrite E, K. split; intros H.
    + intros p. cbn. rewrite H. by destruct (lacks gdpa ic).
    + cbn. by rewrite H.
Qed.

(** Every wrapper of [imgxlate.c] has its entry in the device's table. *)
Lemma xl_entries_fetched h e : e ∈ nvhal_xl_entries h -> e.1.1 ∈ NVHAL_XL_FNS h.
Proof.
  intros He. assert (F : forallb (fun e => bool_decide (e.1.1 ∈ NVHAL_XL_FNS h)) (nvhal_xl_entries h) = true).
  { refine (for_headers (fun h => forallb (fun e => bool_decide (e.1.1 ∈ NVHAL_XL_FNS h)) (nvhal_xl_entries h)) _ h). vm_compute. done. }
  rewrite forallb_forall in F. specialize (F e ltac:(by apply list_elem_of_In)). by apply bool_decide_eq_true in F.
Qed.

(** A wrapper of [imgxlate.c] never calls a null pointer: whichever query
    handed it out, the function it forwards to was found for the device. *)
Theorem wrappers_forward h hv ahb_available gipa d gdpa instance name fn kind :
  (name, fn, kind) ∈ nvhal_xl_entries h -> instance <> 0 ->
  hal_GetInstanceProcAddr h hv ahb_available gipa instance (Some name) = Hook fn \/ device_proc h hv d gdpa name = Hook fn ->
  xl_field h (gipa instance) gdpa name <> 0.
Proof.
  intros He Hi Hp. assert (E : find_intercept h name = Some (mk_ic name fn kind (Some name))).
  { apply find_intercept_spec. split; [|done]. unfold all_intercepts. rewrite !elem_of_app. right; left.
    apply list_elem_of_fmap. by exists (name, fn, kind). }
  unfold xl_field. rewrite bool_decide_eq_true_2 by (by apply (xl_entries_fetched h (name, fn, kind))).
  assert (Hk : kind = IC_WRAP \/ kind = IC_DEVICE).
  { assert (F : forallb (fun e => bool_decide (e.2 = IC_WRAP \/ e.2 = IC_DEVICE)) (nvhal_xl_entries h) = true).
    { refine (for_headers (fun h => forallb (fun e => bool_decide (e.2 = IC_WRAP \/ e.2 = IC_DEVICE)) (nvhal_xl_entries h)) _ h). vm_compute. done. }
    rewrite forallb_forall in F. specialize (F _ (proj1 (list_elem_of_In _ _) He)). by apply bool_decide_eq_true in F. }
  destruct (Z.eqb_spec (gdpa name) 0) as [Z0|Z0]; [|done]. destruct Hp as [Hp|Hp].
  - unfold hal_GetInstanceProcAddr in Hp. rewrite E in Hp. cbn [ic_kind_of ic_needs ic_fn] in Hp.
    rewrite (proj2 (Z.eqb_neq instance 0)) in Hp by done.
    pose proof (intercepts_not_global h hv) as G. rewrite Forall_forall in G.
    apply find_intercept_spec in E as [E _]. specialize (G _ E). cbn in G. rewrite G in Hp. cbn in Hp.
    rewrite decide_False in Hp by (by destruct Hk as [-> | ->]).
    destruct (Z.eqb_spec (gipa instance name) 0); [done|done].
  - rewrite device_proc_handed_out in Hp. unfold handed_out in Hp. rewrite E in Hp. unfold lacks in Hp. cbn in Hp. rewrite Z0 in Hp. cbn in Hp.
    destruct Hk as [-> | ->]; cbn in Hp; [|done]. by destruct (df_ahb d || df_anb d || df_astc d).
Qed.

(** The wrappers of [cmdstate.c] have no such fallback: one handed out by
    [vkGetInstanceProcAddr] forwards to a null pointer when the driver's
    [vkGetDeviceProcAddr] withholds the command. *)
Lemma shadow_wrapper_null :
  exists h gipa gdpa, hal_GetInstanceProcAddr h true true gipa 1 (Some "vkCmdPushDescriptorSetKHR"%string) = Hook "cs_CmdPushDescriptorSetKHR" /\
    cs_field h gdpa "vkCmdPushDescriptorSetKHR" = 0 /\
    xl_field h (gipa 1) gdpa "vkSetDebugUtilsObjectNameEXT" <> 0.
Proof.
  exists (mk_headers true true true), (fun _ _ => 7), (fun _ => 0). split_and!; vm_compute; done.
Qed.

(** ** Witnesses *)

Definition demo_gdpa (name : string) : Z := if String.eqb name "vkCmdBlitImage2" then 0 else 4096.
Lemma device_procs_exact_witness :
  hal_GetDeviceProcAddr (mk_headers true true true) true (fun _ => 64) (Some (mk_flags true false false true, demo_gdpa)) ∅ (Some "vkAllocateMemory"%string) =
    (GtSession.Wrapper "vkAllocateMemory", {["vkAllocateMemory"%string := 64]}) /\
  device_proc (mk_headers true true true) true (mk_flags true false false true) demo_gdpa "vkAllocateMemory" = Hook "nvhal_AllocateMemory".
Proof.
  destruct (device_procs_exact (mk_headers true true true) true (fun _ => 64) (mk_flags true false false true) demo_gdpa ∅ "vkAllocateMemory"
    ltac:(done) ltac:(done)) as [E _].
  split; [vm_compute; reflexivity|]. rewrite E. vm_compute. reflexivity.
Defined.
Lemma images_translated_witness :
  demo_gdpa "vkCmdCopyImage" = 4096 /\
  device_proc (mk_headers false false false) true (mk_flags true false false false) demo_gdpa "vkCmdCopyImage" <> Icd 4096 /\
  device_proc (mk_headers false false false) true (mk_flags false false false false) demo_gdpa "vkCmdCopyImage" = Icd 4096.
Proof.
  split; [vm_compute; reflexivity|].
  assert (Hn : "vkCmdCopyImage"%string ∈ image_objects ++ image_uses ++ image_uses_optional (mk_headers false false false))
    by (apply (bool_decide_unpack _); vm_compute; exact I).
  split.
  - refine (proj1 (proj2 (images_translated (mk_headers false false false) true true (fun _ _ => 1) 1 (mk_flags true false false false)
      demo_gdpa "vkCmdCopyImage" Hn)) _ 4096). reflexivity.
  - refine (proj2 (proj2 (images_translated (mk_headers false false false) true true (fun _ _ => 1) 1 (mk_flags false false false false)
      demo_gdpa "vkCmdCopyImage" Hn)) _). reflexivity.
Defined.
Lemma wrappers_forward_witness :
  xl_field (mk_headers false false false) (fun _ => 9) (fun _ => 0) "vkSetDebugUtilsObjectNameEXT" <> 0.
Proof.
  apply (wrappers_forward (mk_headers false false false) true true (fun _ _ => 9) (mk_flags false false false false) (fun _ => 0) 1
    "vkSetDebugUtilsObjectNameEXT" "xl_SetDebugUtilsObjectNameEXT" IC_WRAP).
  - apply (bool_decide_unpack _). vm_compute. done.
  - done.
  - left. vm_compute. reflexivity.
Defined.

End HalProcs.
