(* ===== verification/HalLoader.v ===== *)
(** * Instances, devices and queues of the Vulkan HAL

    The state [hal/src/hal.c] and [hal/src/device.c] keep about what they handed
    out: the tables of instances, physical devices, devices and queues (the
    linear maps of [HashTable]), the structures they point to, the loaded
    driver.  The operations are the module's [open] and [close] and the entry
    points that create, destroy and look up these objects; the names they
    compute are those of [HalExts].

    Outside: the loader of libraries, the allocator, the driver.  A call whose
    answer can change from one call to the next is answered by the number of the
    call ([tick]); new objects get an address or handle no live object of their
    kind has ([sy_pick]), so that freed ones may be used again.  The driver's
    entry points for a handle do not change while it lives.  The other files'
    parts of a device (compressed-texture emulation, timing, teardown) appear
    as their result or as an event of the trace. *)

From Stdlib Require Import ZArith Lia.
From stdpp Require Import base option sets strings gmap list.
From S2P Require Import Prelude HashTable Vulkan HalExts HalProcs.

Set Default Goal Selector "!".
#[local] Open Scope Z_scope.

Module HalLoader.
Import Vk HalExts HalProcs.

Definition ENOENT : Z := 2.
Definition HWVULKAN_DISPATCH_MAGIC : Z := 0x01CDC0DE.
Definition NVHAL_ICD_INTERFACE_MAX : Z := 5.
Definition NVHAL_ICD_INTERFACE_MIN : Z := 3.

(** ** The state *)

(** [struct nvhal_instance] and [struct nvhal_device], without the driver's
    entry points, which are functions of the handle. *)
Record inst := mk_inst { is_handle : Z; is_api : Z }.
Record hdev := mk_hdev {
  hd_handle : Z; hd_pd : Z; hd_inst : Z; hd_api : Z; hd_flags : dev_flags; hd_wait : bool * bool;
}.
Inductive block := BInst (i : inst) | BDev (d : hdev).

(** What happened outside, in order. *)
Inductive call :=
  | CCreateInstance (names : list string)
  | CDestroyInstance (h : Z)
  | CCreateDevice (pd : Z) (names : list string)
  | CDestroyDevice (h : Z)
  | CSubmit (queue obj r : Z)
  | CExport (obj r fd : Z)
  | CPoll (fd : Z)
  | CTeardown (what : string) (dev : Z)
  | CTrack (dev : Z) (cmds : list Z).

Record world := mk_world {
  w_tick : nat;
  w_tr : list call;
  w_words : gmap Z Z;   (** first word of the dispatchable objects *)
  w_tmp : Z;   (** allocated arrays not yet freed *)
  w_dl : Z;   (** references to the driver library *)
  w_icd : bool;   (** [icd_dl != NULL] *)
  w_refs : Z;   (** [open_refs] *)
  w_ahb : bool;   (** [nvhal_ahb_available] *)
  w_instances : LinearMap.nvhal_map;   (** VkInstance -> block *)
  w_physdevs : LinearMap.nvhal_map;   (** VkPhysicalDevice -> block *)
  w_devices : LinearMap.nvhal_map;   (** VkDevice -> block *)
  w_queues : LinearMap.nvhal_map;   (** VkQueue -> block *)
  w_heap : gmap Z block;   (** the [calloc]ed [struct nvhal_instance] and [struct nvhal_device] *)
  w_vkinst : gset Z;   (** the driver's live instances *)
  w_vkdev : gset Z;   (** the driver's live devices *)
  w_children : gset (Z * Z);   (** live fences and semaphores with their device *)
  w_fds : gset Z;   (** open descriptors of the HAL *)
  w_null : bool;   (** a null function pointer was called *)
}.
Definition set_tick (x : nat) (w : world) : world :=
  mk_world x (w_tr w) (w_words w) (w_tmp w) (w_dl w) (w_icd w) (w_refs w) (w_ahb w) (w_instances w) (w_physdevs w) (w_devices w) (w_queues w) (w_heap w) (w_vkinst w) (w_vkdev w) (w_children w) (w_fds w) (w_null w).
Definition set_tr (x : list call) (w : world) : world :=
  mk_world (w_tick w) x (w_words w) (w_tmp w) (w_dl w) (w_icd w) (w_refs w) (w_ahb w) (w_instances w) (w_physdevs w) (w_devices w) (w_queues w) (w_heap w) (w_vkinst w) (w_vkdev w) (w_children w) (w_fds w) (w_null w).
Definition set_words (x : gmap Z Z) (w : world) : world :=
  mk_world (w_tick w) (w_tr w) x (w_tmp w) (w_dl w) (w_icd w) (w_refs w) (w_ahb w) (w_instances w) (w_physdevs w) (w_devices w) (w_queues w) (w_heap w) (w_vkinst w) (w_vkdev w) (w_children w) (w_fds w) (w_null w).
Definition set_tmp (x : Z) (w : world) : world :=
  mk_world (w_tick w) (w_tr w) (w_words w) x (w_dl w) (w_icd w) (w_refs w) (w_ahb w) (w_instances w) (w_physdevs w) (w_devices w) (w_queues w) (w_heap w) (w_vkinst w) (w_vkdev w) (w_children w) (w_fds w) (w_null w).
Definition set_dl (x : Z) (w : world) : world :=
  mk_world (w_tick w) (w_tr w) (w_words w) (w_tmp w) x (w_icd w) (w_refs w) (w_ahb w) (w_instances w) (w_physdevs w) (w_devices w) (w_queues w) (w_heap w) (w_vkinst w) (w_vkdev w) (w_children w) (w_fds w) (w_null w).
Definition set_icd (x : bool) (w : world) : world :=
  mk_world (w_tick w) (w_tr w) (w_words w) (w_tmp w) (w_dl w) x (w_refs w) (w_ahb w) (w_instances w) (w_physdevs w) (w_devices w) (w_queues w) (w_heap w) (w_vkinst w) (w_vkdev w) (w_children w) (w_fds w) (w_null w).
Definition set_refs (x : Z) (w : world) : world :=
  mk_world (w_tick w) (w_tr w) (w_words w) (w_tmp w) (w_dl w) (w_icd w) x (w_ahb w) (w_instances w) (w_physdevs w) (w_devices w) (w_queues w) (w_heap w) (w_vkinst w) (w_vkdev w) (w_children w) (w_fds w) (w_null w).
Definition set_ahb (x : bool) (w : world) : world :=
  mk_world (w_tick w) (w_tr w) (w_words w) (w_tmp w) (w_dl w) (w_icd w) (w_refs w) x (w_instances w) (w_physdevs w) (w_devices w) (w_queues w) (w_heap w) (w_vkinst w) (w_vkdev w) (w_children w) (w_fds w) (w_null w).
Definition set_instances (x : LinearMap.nvhal_map) (w : world) : world :=
  mk_world (w_tick w) (w_tr w) (w_words w) (w_tmp w) (w_dl w) (w_icd w) (w_refs w) (w_ahb w) x (w_physdevs w) (w_devices w) (w_queues w) (w_heap w) (w_vkinst w) (w_vkdev w) (w_children w) (w_fds w) (w_null w).
Definition set_physdevs (x : LinearMap.nvhal_map) (w : world) : world :=
  mk_world (w_tick w) (w_tr w) (w_words w) (w_tmp w) (w_dl w) (w_icd w) (w_refs w) (w_ahb w) (w_instances w) x (w_devices w) (w_queues w) (w_heap w) (w_vkinst w) (w_vkdev w) (w_children w) (w_fds w) (w_null w).
Definition set_devices (x : LinearMap.nvhal_map) (w : world) : world :=
  mk_world (w_tick w) (w_tr w) (w_words w) (w_tmp w) (w_dl w) (w_icd w) (w_refs w) (w_ahb w) (w_instances w) (w_physdevs w) x (w_queues w) (w_heap w) (w_vkinst w) (w_vkdev w) (w_children w) (w_fds w) (w_null w).
Definition set_queues (x : LinearMap.nvhal_map) (w : world) : world :=
  mk_world (w_tick w) (w_tr w) (w_words w) (w_tmp w) (w_dl w) (w_icd w) (w_refs w) (w_ahb w) (w_instances w) (w_physdevs w) (w_devices w) x (w_heap w) (w_vkinst w) (w_vkdev w) (w_children w) (w_fds w) (w_null w).
Definition set_heap (x : gmap Z block) (w : world) : world :=
  mk_world (w_tick w) (w_tr w) (w_words w) (w_tmp w) (w_dl w) (w_icd w) (w_refs w) (w_ahb w) (w_instances w) (w_physdevs w) (w_devices w) (w_queues w) x (w_vkinst w) (w_vkdev w) (w_children w) (w_fds w) (w_null w).
Definition set_vkinst (x : gset Z) (w : world) : world :=
  mk_world (w_tick w) (w_tr w) (w_words w) (w_tmp w) (w_dl w) (w_icd w) (w_refs w) (w_ahb w) (w_instances w) (w_physdevs w) (w_devices w) (w_queues w) (w_heap w) x (w_vkdev w) (w_children w) (w_fds w) (w_null w).
Definition set_vkdev (x : gset Z) (w : world) : world :=
  mk_world (w_tick w) (w_tr w) (w_words w) (w_tmp w) (w_dl w) (w_icd w) (w_refs w) (w_ahb w) (w_instances w) (w_physdevs w) (w_devices w) (w_queues w) (w_heap w) (w_vkinst w) x (w_children w) (w_fds w) (w_null w).
Definition set_children (x : gset (Z * Z)) (w : world) : world :=
  mk_world (w_tick w) (w_tr w) (w_words w) (w_tmp w) (w_dl w) (w_icd w) (w_refs w) (w_ahb w) (w_instances w) (w_physdevs w) (w_devices w) (w_queues w) (w_heap w) (w_vkinst w) (w_vkdev w) x (w_fds w) (w_null w).
Definition set_fds (x : gset Z) (w : world) : world :=
  mk_world (w_tick w) (w_tr w) (w_words w) (w_tmp w) (w_dl w) (w_icd w) (w_refs w) (w_ahb w) (w_instances w) (w_physdevs w) (w_devices w) (w_queues w) (w_heap w) (w_vkinst w) (w_vkdev w) (w_children w) x (w_null w).
Definition set_null (x : bool) (w : world) : world :=
  mk_world (w_tick w) (w_tr w) (w_words w) (w_tmp w) (w_dl w) (w_icd w) (w_refs w) (w_ahb w) (w_instances w) (w_physdevs w) (w_devices w) (w_queues w) (w_heap w) (w_vkinst w) (w_vkdev w) (w_children w) (w_fds w) x.
Definition w_init : world := mk_world 0 [] ∅ 0 0 false 0 false (LinearMap.mk_map [] 0) (LinearMap.mk_map [] 0) (LinearMap.mk_map [] 0) (LinearMap.mk_map [] 0) ∅ ∅ ∅ ∅ ∅ false.

(** ** The outside *)

(** What a library that could be loaded is: whether it exports the two
    symbols, the negotiation's result and version. *)
Record library := mk_lib { lib_neg : bool; lib_gipa : bool; lib_result : Z; lib_version : Z }.
(** [VkPhysicalDeviceProperties] and the driver's identity. *)
Record pd_props := mk_props { pp_vendor : Z; pp_api : Z; pp_driver : Z; pp_driver_id : Z }.
(** What the driver's enumeration loops return when they end ([HalExts]). *)
Definition inst_answer := { a : Z + list ext * list ext | exists D ok fuel, icd_instance_exts D ok fuel = Some a }.
Definition dev_answer := { a : Z + list ext * Z | exists D fuel, icd_device_exts D fuel = Some a }.

Record sys := mk_sys {
  sy_pick : nat -> gset Z -> Z;
  sy_alloc : nat -> bool;
  sy_library : nat -> option library;
  sy_ahb : nat -> bool;
  sy_gipa : Z -> string -> Z;
  sy_gdpa : Z -> string -> Z;
  sy_inst_exts : nat -> inst_answer;
  sy_dev_exts : nat -> Z -> dev_answer;
  sy_create_instance : nat -> list string -> Z;
  sy_create_device : nat -> Z -> list string -> Z;
  sy_word : nat -> Z;                       (** the word of a new object *)
  sy_first_word : Z -> Z;                   (** of an object not seen before *)
  sy_pds : nat -> Z * list Z;
  sy_groups : nat -> Z * list (list Z);
  sy_props : Z -> pd_props;
  sy_queue : Z -> Z -> Z -> Z -> Z;         (** device, family, index, flags *)
  sy_cmds : nat -> Z * list Z;
  sy_create_obj : nat -> Z;
  sy_submit : nat -> Z;
  sy_export : nat -> Z * bool;
  sy_poll : nat -> nat * Z;                 (** interruptions, then the answer *)
  sy_astc_ci : nat -> Z * bool * bool;
  sy_astc_init : nat -> Z;
  sy_gt : nat -> bool;
}.

Section Loader.
Context (nvhal_image_ext_hidden nvhal_device_ext_known : string -> bool).
Context (Y : sys).
(** The build for the source-built driver. *)
Context (source_rm : bool).

Definition tick : M world nat := w ← getS; _ ← putS (set_tick (w_tick w + 1) w); mret (w_tick w).
Definition emit (c : call) : M world () := modS (fun w => set_tr (w_tr w ++ [c]) w).
(** The arrays a call allocates and frees again. *)
Definition malloc : M world bool :=
  t ← tick; if sy_alloc Y t then _ ← modS (fun w => set_tmp (w_tmp w + 1) w); mret true else mret false.
Definition free_tmp : M world () := modS (fun w => set_tmp (w_tmp w - 1) w).
(** 0 when out of memory. *)
Definition calloc (b : block) : M world Z :=
  t ← tick; w ← getS;
  if sy_alloc Y t then let a := sy_pick Y t (dom (w_heap w)) in _ ← putS (set_heap (<[a := b]> (w_heap w)) w); mret a
  else mret 0.
Definition free (a : Z) : M world () := modS (fun w => set_heap (delete a (w_heap w)) w).
(** A table's insertion; the allocation it may need has its own answer. *)
Definition put (get : world -> LinearMap.nvhal_map) (set : LinearMap.nvhal_map -> world -> world) (k v : Z) : M world bool :=
  t ← tick; w ← getS;
  let r := LinearMap.nvhal_map_put (sy_alloc Y t) (get w) k v in
  _ ← putS (set r.2 w); mret r.1.

(** ** The dispatchable word *)

Definition word_of (w : world) (obj : Z) : Z := default (sy_first_word Y obj) (w_words w !! obj).
(** [parent]: the object whose loader data a child may already carry, 0 for none. *)
Definition nvhal_dispatch_check (obj parent : Z) : M world () :=
  modS (fun w =>
    let v := word_of w obj in
    if v =? HWVULKAN_DISPATCH_MAGIC then w
    else if negb (parent =? 0) && (v =? word_of w parent) then w
    else set_words (<[obj := HWVULKAN_DISPATCH_MAGIC]> (w_words w)) w).
(** A handle from the driver, its word as the driver left it. *)
Definition fresh_word (obj : Z) : M world () := t ← tick; modS (fun w => set_words (<[obj := sy_word Y t]> (w_words w)) w).

(** ** Lookups *)

Definition nvhal_instance_get (h : Z) : M world Z := w ← getS; mret (LinearMap.nvhal_map_get (w_instances w) h).
Definition nvhal_physdev_instance (pd : Z) : M world Z := w ← getS; mret (LinearMap.nvhal_map_get (w_physdevs w) pd).
Definition nvhal_device_get (h : Z) : M world Z := w ← getS; mret (LinearMap.nvhal_map_get (w_devices w) h).
Definition nvhal_queue_device (q : Z) : M world Z := w ← getS; mret (LinearMap.nvhal_map_get (w_queues w) q).
Definition inst_at (w : world) (a : Z) : inst := match w_heap w !! a with Some (BInst i) => i | _ => mk_inst 0 0 end.
Definition dev_at (w : world) (a : Z) : hdev :=
  match w_heap w !! a with Some (BDev d) => d | _ => mk_hdev 0 0 0 0 (mk_flags false false false false) (false, false) end.

(** ** The module *)

Definition dlclose : M world () := modS (fun w => set_dl (w_dl w - 1) w).
Definition load_icd : M world Z :=
  t ← tick;
  match sy_library Y t with
  | None => mret (- ENOENT)
  | Some l =>
      _ ← modS (fun w => set_dl (w_dl w + 1) w);
      if negb (lib_neg l) || negb (lib_gipa l) then _ ← dlclose; mret (- EINVAL)
      else if negb (lib_result l =? VK_SUCCESS) || (lib_version l <? NVHAL_ICD_INTERFACE_MIN) then _ ← dlclose; mret (- EINVAL)
      else if (sy_gipa Y 0 "vkCreateInstance" =? 0) || (sy_gipa Y 0 "vkEnumerateInstanceExtensionProperties" =? 0) then
        _ ← dlclose; mret (- EINVAL)
      else _ ← modS (set_icd true); mret 0
  end.
Definition nvhal_ahb_load : M world () := t ← tick; modS (fun w => if w_ahb w then w else set_ahb (sy_ahb Y t) w).
Definition hal_open (id : option string) : M world Z :=
  if decide (id = Some "vk0"%string) then
    w ← getS;
    rc ← (if w_icd w then mret 0 else load_icd);
    if rc =? 0 then _ ← modS (fun w => set_refs (u32 (w_refs w + 1)) w); _ ← nvhal_ahb_load; mret 0 else mret rc
  else mret (- ENOENT).
Definition hal_close : M world Z :=
  w ← getS;
  _ ← (if negb (w_refs w =? 0) then
         let n := w_refs w - 1 in
         _ ← modS (set_refs n);
         if (n =? 0) && (LinearMap.n (w_instances w) =? 0)%nat then
           modS (fun w => set_physdevs (LinearMap.nvhal_map_free (w_physdevs w)) (set_instances (LinearMap.nvhal_map_free (w_instances w)) w))
         else mret tt
       else mret tt);
  mret 0.

(** ** Instances *)

Definition destroy_vkinst (h : Z) : M world () :=
  if sy_gipa Y h "vkDestroyInstance" =? 0 then mret tt
  else _ ← emit (CDestroyInstance h); modS (fun w => set_vkinst (w_vkinst w ∖ {[h]}) w).
(** The entry points an instance cannot do without, in the order they are looked at. *)
Definition required_instance_procs : list string :=
  ["vkDestroyInstance"; "vkEnumeratePhysicalDevices"; "vkEnumerateDeviceExtensionProperties"; "vkCreateDevice";
   "vkGetPhysicalDeviceProperties"; "vkGetPhysicalDeviceMemoryProperties"; "vkGetPhysicalDeviceFeatures";
   "vkGetPhysicalDeviceFormatProperties"; "vkGetPhysicalDeviceImageFormatProperties";
   "vkGetPhysicalDeviceQueueFamilyProperties"; "vkGetDeviceProcAddr"]%string.
Definition first_null (fetch : string -> Z) (names : list string) : option string := List.find (fun n => fetch n =? 0) names.

(** Once the driver made [h]: the structure, its entry points, the table. *)
Definition setup_instance (h api : Z) : M world (Z * Z) :=
  s ← calloc (BInst (mk_inst h api));
  if s =? 0 then _ ← destroy_vkinst h; mret (VK_ERROR_OUT_OF_HOST_MEMORY, 0)
  else if bool_decide (is_Some (first_null (sy_gipa Y h) required_instance_procs)) then
    _ ← destroy_vkinst h; _ ← free s; mret (VK_ERROR_INCOMPATIBLE_DRIVER, 0)
  else
  ok ← put w_instances set_instances h s;
  if negb (ok : bool) then _ ← free s; _ ← destroy_vkinst h; mret (VK_ERROR_OUT_OF_HOST_MEMORY, 0)
  else mret (VK_SUCCESS, h).

(** [app_api]: [pApplicationInfo->apiVersion] when there is one. *)
Definition hal_CreateInstance (layers : Z) (es : list string) (app_api : option Z) : M world (Z * Z) :=
  if negb (layers =? 0) then mret (VK_ERROR_LAYER_NOT_PRESENT, 0)
  else
  t ← tick;
  match proj1_sig (sy_inst_exts Y t) with
  | inl r => mret (r, 0)
  | inr (all, vis) =>
      _ ← modS (fun w => set_tmp (w_tmp w + 2) w);
      let api := match app_api with Some v => if v =? 0 then VK_API_VERSION_1_0 else v | None => VK_API_VERSION_1_0 end in
      ok ← malloc;
      if negb (ok : bool) then _ ← free_tmp; _ ← free_tmp; mret (VK_ERROR_OUT_OF_HOST_MEMORY, 0)
      else
      match instance_names all vis api es with
      | None => _ ← free_tmp; _ ← free_tmp; _ ← free_tmp; mret (VK_ERROR_EXTENSION_NOT_PRESENT, 0)
      | Some names =>
          t ← tick;
          _ ← emit (CCreateInstance names);
          let r := sy_create_instance Y t names in
          _ ← free_tmp; _ ← free_tmp; _ ← free_tmp;
          if negb (r =? VK_SUCCESS) then mret (r, 0)
          else
          w ← getS;
          let h := sy_pick Y t (w_vkinst w) in
          _ ← modS (fun w => set_vkinst ({[h]} ∪ w_vkinst w) w);
          _ ← fresh_word h;
          _ ← nvhal_dispatch_check h 0;
          setup_instance h api
      end
  end.

Definition hal_DestroyInstance (h : Z) : M world () :=
  if h =? VK_NULL_HANDLE then mret tt
  else
  w ← getS;
  let r := LinearMap.nvhal_map_del (w_instances w) h in
  let s := r.1 in
  _ ← modS (set_instances r.2);
  _ ← (if s =? 0 then mret tt else modS (fun w => set_physdevs (LinearMap.nvhal_map_del_val (w_physdevs w) s) w));
  if s =? 0 then mret tt
  else
  _ ← (if sy_gipa Y h "vkDestroyInstance" =? 0 then modS (set_null true) else destroy_vkinst h);
  _ ← emit (CTeardown "astc_instance" h);
  free s.

Definition record_physdevs (s : Z) (pds : list Z) : M world () :=
  w ← getS;
  _ ← foldM (fun _ pd => nvhal_dispatch_check pd (is_handle (inst_at w s))) pds tt;
  foldM (fun _ pd => _ ← put w_physdevs set_physdevs pd s; mret tt) pds tt.
Definition hal_EnumeratePhysicalDevices (h : Z) (wanted : bool) : M world Z :=
  s ← nvhal_instance_get h;
  if s =? 0 then mret VK_ERROR_INITIALIZATION_FAILED
  else
  t ← tick;
  let '(r, pds) := sy_pds Y t in
  _ ← (if ((r =? VK_SUCCESS) || (r =? VK_INCOMPLETE)) && wanted then record_physdevs s pds else mret tt);
  mret r.
Definition enumerate_groups (h : Z) (wanted khr : bool) : M world Z :=
  s ← nvhal_instance_get h;
  if s =? 0 then mret VK_ERROR_INITIALIZATION_FAILED
  else
  w ← getS;
  if sy_gipa Y (is_handle (inst_at w s)) (if khr then "vkEnumeratePhysicalDeviceGroupsKHR" else "vkEnumeratePhysicalDeviceGroups") =? 0 then
    _ ← modS (set_null true); mret VK_ERROR_INITIALIZATION_FAILED
  else
  t ← tick;
  let '(r, groups) := sy_groups Y t in
  _ ← (if ((r =? VK_SUCCESS) || (r =? VK_INCOMPLETE)) && wanted then foldM (fun _ pds => record_physdevs s pds) groups tt else mret tt);
  mret r.

(** ** Starting the queues' timelines *)

(** The wait for an exported descriptor: an interrupted [poll] is made again. *)
Fixpoint poll_again (interruptions : nat) (fd : Z) : M world () :=
  _ ← emit (CPoll fd);
  match interruptions with O => mret tt | S n => poll_again n fd end.
Definition close (fd : Z) : M world () := modS (fun w => set_fds (w_fds w ∖ {[fd]}) w).
Definition start_failed (fd r : Z) : M world Z :=
  if fd <? 0 then mret r else _ ← tick; _ ← emit (CPoll fd); _ ← close fd; mret r.
(** [use_fence] chooses between an exportable fence and a semaphore; the calls
    differ in name only. *)
Definition start_one_queue (dev q : Z) (use_fence : bool) : M world Z :=
  t ← tick;
  let r := sy_create_obj Y t in
  if negb (r =? VK_SUCCESS) then start_failed (-1) r
  else
  w ← getS;
  let obj := sy_pick Y t (set_map snd (w_children w)) in
  _ ← modS (fun w => set_children ({[(dev, obj)]} ∪ w_children w) w);
  t ← tick;
  let r := sy_submit Y t in
  _ ← emit (CSubmit q obj r);
  if negb (r =? VK_SUCCESS) then start_failed (-1) r
  else
  t ← tick;
  w ← getS;
  let '(r, valid) := sy_export Y t in
  let fd := if (r =? VK_SUCCESS) && valid then sy_pick Y t (w_fds w) else -1 in
  _ ← emit (CExport obj r fd);
  if negb (r =? VK_SUCCESS) then start_failed (-1) r
  else if fd <? 0 then start_failed (-1) VK_ERROR_INITIALIZATION_FAILED
  else
  _ ← modS (fun w => set_fds ({[fd]} ∪ w_fds w) w);
  t ← tick;
  let '(interruptions, pr) := sy_poll Y t in
  _ ← poll_again interruptions fd;
  if negb (pr =? 1) then start_failed fd VK_ERROR_INITIALIZATION_FAILED
  else
  _ ← close fd;
  _ ← modS (fun w => set_children (w_children w ∖ {[(dev, obj)]}) w);
  mret VK_SUCCESS.

(** [VkDeviceQueueCreateInfo]: family, count, flags, and its chain. *)
Record queue_ci := mk_qci { qc_family : Z; qc_count : nat; qc_flags : Z; qc_chain : list (Z * Z) }.

(** One queue: fetched, then started. *)
Definition start_queue (dev : Z) (use_fence : bool) (q : queue_ci) (k : nat) : M world Z :=
  if negb (qc_flags q =? 0) && (sy_gdpa Y dev "vkGetDeviceQueue2" =? 0) then mret VK_ERROR_INITIALIZATION_FAILED
  else
  let queue := sy_queue Y dev (qc_family q) (Z.of_nat k) (qc_flags q) in
  if queue =? VK_NULL_HANDLE then mret VK_ERROR_INITIALIZATION_FAILED
  else start_one_queue dev queue use_fence.
Fixpoint start_all (dev : Z) (use_fence : bool) (qs : list (queue_ci * nat)) (n_started : nat) : M world (Z * nat) :=
  match qs with
  | [] => mret (VK_SUCCESS, n_started)
  | (q, k) :: qs =>
      r ← start_queue dev use_fence q k;
      if negb (r =? VK_SUCCESS) then mret (r, n_started) else start_all dev use_fence qs (n_started + 1)
  end.
(** The two nested loops, as the list of their turns. *)
Definition queue_turns (cis : list queue_ci) : list (queue_ci * nat) := q ← cis; k ← seq 0 (qc_count q); [(q, k)].
Definition start_queue_timelines (dev : Z) (cis : list queue_ci) (sem_ext fence_ext : bool) : M world (Z * nat) :=
  if source_rm then mret (VK_SUCCESS, 0%nat)
  else if negb sem_ext && negb fence_ext then mret (VK_SUCCESS, 0%nat)
  else
  let fetch := sy_gdpa Y dev in
  let lacks := List.existsb (fun n => fetch n =? 0) in
  if (fetch "vkQueueSubmit" =? 0) ||
     (if fence_ext then lacks ["vkCreateFence"; "vkDestroyFence"; "vkGetFenceFdKHR"]%string
      else lacks ["vkCreateSemaphore"; "vkDestroySemaphore"; "vkGetSemaphoreFdKHR"]%string)
  then mret (VK_ERROR_INITIALIZATION_FAILED, 0%nat)
  else start_all dev fence_ext (queue_turns cis) 0.

(** ** Devices *)

Definition required_device_procs : list string :=
  ["vkGetDeviceProcAddr"; "vkDestroyDevice"; "vkGetDeviceQueue"; "vkAllocateCommandBuffers"; "vkCreateImage"; "vkDestroyImage";
   "vkAllocateMemory"; "vkFreeMemory"; "vkBindImageMemory"; "vkCreateBuffer"; "vkCreateImageView"; "vkFreeCommandBuffers";
   "vkDestroyCommandPool"]%string.
Definition shared_device_procs (legacy : bool) : list string :=
  (if legacy then ["vkBindImageMemory2KHR"; "vkGetImageMemoryRequirements2KHR"] else ["vkBindImageMemory2"; "vkGetImageMemoryRequirements2"])%string ++
  ["vkGetMemoryFdPropertiesKHR"%string].
Definition anb_device_procs : list string :=
  ["vkImportSemaphoreFdKHR"; "vkImportFenceFdKHR"; "vkQueueSubmit"; "vkCreateFence"; "vkDestroyFence"; "vkGetFenceStatus";
   "vkResetFences"; "vkWaitForFences"; "vkGetFenceFdKHR"]%string.
(** The names an instance was given its format queries under. *)
Definition instance_proc (api : Z) (core : string) : string :=
  if api_minor_ge api VK_API_VERSION_1_1 then core else (core ++ "KHR")%string.
(** Whether an entry point the device needs is missing. *)
Definition device_incomplete (i : inst) (dev : Z) (legacy anb ahb : bool) : bool :=
  let lacks := List.existsb (fun n => sy_gdpa Y dev n =? 0) in
  let ilacks n := sy_gipa Y (is_handle i) (instance_proc (is_api i) n) =? 0 in
  lacks required_device_procs ||
  ((anb || ahb) && (lacks (shared_device_procs legacy) || ilacks "vkGetPhysicalDeviceImageFormatProperties2"%string)) ||
  (anb && lacks anb_device_procs) || (ahb && ilacks "vkGetPhysicalDeviceFormatProperties2"%string).

Definition destroy_vkdev (dev : Z) : M world () :=
  if sy_gdpa Y dev "vkDestroyDevice" =? 0 then mret tt
  else _ ← emit (CDestroyDevice dev); modS (fun w => set_vkdev (w_vkdev w ∖ {[dev]}) w).

(** What was decided before the driver is asked: the names and what they mean. *)
Record plan := mk_plan { pl_names : list string; pl_anb : bool; pl_ahb : bool; pl_astc : bool; pl_api : Z; pl_legacy : bool }.

(** The first half of [nvhal_CreateDevice]: an error, or what to ask for. *)
Definition plan_device (s pd : Z) (es : list string) (cis : list queue_ci) : M world (Z + plan) :=
  t ← tick;
  match proj1_sig (sy_dev_exts Y t pd) with
  | inl r => mret (inl r)
  | inr (icd, _) =>
      _ ← modS (fun w => set_tmp (w_tmp w + 1) w);
      w ← getS;
      let api := api_min (is_api (inst_at w s)) (pp_api (sy_props Y pd)) in
      let legacy := api <? VK_API_VERSION_1_1 in
      ok ← malloc;
      if negb (ok : bool) then _ ← free_tmp; mret (inl VK_ERROR_OUT_OF_HOST_MEMORY)
      else
      match device_names nvhal_image_ext_hidden nvhal_device_ext_known icd legacy (w_ahb w) es with
      | None => _ ← free_tmp; _ ← free_tmp; mret (inl VK_ERROR_EXTENSION_NOT_PRESENT)
      | Some rq =>
          t ← tick;
          let '(r, astc, maint2) := sy_astc_ci Y t in
          if negb (r =? VK_SUCCESS) then _ ← free_tmp; _ ← free_tmp; mret (inl r)
          else
          let rq := maint2_names nvhal_image_ext_hidden icd maint2 rq in
          _ ← free_tmp;
          if negb (rq_ok rq) then _ ← free_tmp; mret (inl VK_ERROR_EXTENSION_NOT_PRESENT)
          else if (api <? VK_API_VERSION_1_4) && List.existsb (fun q => bool_decide (is_Some (queue_global_priority (qc_chain q)))) cis then
            _ ← free_tmp; mret (inl VK_ERROR_EXTENSION_NOT_PRESENT)
          else mret (inr (mk_plan (rq_names rq) (rq_anb rq) (rq_ahb rq) astc api legacy))
      end
  end.

Definition make_hdev (w : world) (s pd dev : Z) (p : plan) (gt : bool) : hdev :=
  let props := sy_props Y pd in
  let has_props2 := negb (sy_gipa Y (is_handle (inst_at w s)) "vkGetPhysicalDeviceProperties2" =? 0) in
  mk_hdev dev pd s (pl_api p) (mk_flags (pl_anb p) (pl_ahb p) (pl_astc p) gt)
    (acquire_wait_flags (pp_vendor props) (pp_api props) (pp_driver props) (if has_props2 then Some (pp_driver_id props) else None)).

(** The end of [nvhal_CreateDevice]: the table, or everything undone. *)
Definition finish_device (dev d : Z) (missing : bool) (astc_r start_r : Z) : M world Z :=
  ok ← (if negb missing && (astc_r =? VK_SUCCESS) && (start_r =? VK_SUCCESS) then put w_devices set_devices dev d else mret false);
  if negb (ok : bool) then
    _ ← emit (CTeardown "astc" dev); _ ← emit (CTeardown "gt" dev);
    _ ← destroy_vkdev dev; _ ← free d;
    mret (if missing then VK_ERROR_INITIALIZATION_FAILED else if negb (astc_r =? VK_SUCCESS) then astc_r
          else if negb (start_r =? VK_SUCCESS) then start_r else VK_ERROR_OUT_OF_HOST_MEMORY)
  else mret VK_SUCCESS.

(** The second half, once the driver made [dev]. *)
Definition setup_device (s pd dev : Z) (p : plan) (cis : list queue_ci) : M world Z :=
  w ← getS;
  d ← calloc (BDev (make_hdev w s pd dev p false));
  if d =? 0 then _ ← destroy_vkdev dev; mret VK_ERROR_OUT_OF_HOST_MEMORY
  else
  let missing := device_incomplete (inst_at w s) dev (pl_legacy p) (pl_anb p) (pl_ahb p) in
  t ← tick;
  let astc_r := if negb missing && pl_astc p then sy_astc_init Y t else VK_SUCCESS in
  let ok := negb missing && (astc_r =? VK_SUCCESS) in
  t ← tick;
  _ ← (if ok then modS (fun w => set_heap (<[d := BDev (make_hdev w s pd dev p (sy_gt Y t))]> (w_heap w)) w) else mret tt);
  '(start_r, _) ← (if ok then start_queue_timelines dev cis (bool_decide ("VK_KHR_external_semaphore_fd"%string ∈ pl_names p))
                            (bool_decide ("VK_KHR_external_fence_fd"%string ∈ pl_names p)) else mret (VK_SUCCESS, 0%nat));
  finish_device dev d missing astc_r start_r.

Definition nvhal_CreateDevice (pd : Z) (es : list string) (cis : list queue_ci) : M world (Z * Z) :=
  s ← nvhal_physdev_instance pd;
  if s =? 0 then mret (VK_ERROR_INITIALIZATION_FAILED, 0)
  else
  p ← plan_device s pd es cis;
  match p with
  | inl r => mret (r, 0)
  | inr p =>
      t ← tick;
      _ ← emit (CCreateDevice pd (pl_names p));
      let r := sy_create_device Y t pd (pl_names p) in
      _ ← free_tmp;
      if negb (r =? VK_SUCCESS) then mret (r, 0)
      else
      w ← getS;
      let dev := sy_pick Y t (w_vkdev w) in
      _ ← modS (fun w => set_vkdev ({[dev]} ∪ w_vkdev w) w);
      _ ← fresh_word dev;
      _ ← nvhal_dispatch_check dev 0;
      r ← setup_device s pd dev p cis;
      mret (r, if r =? VK_SUCCESS then dev else 0)
  end.

Definition nvhal_DestroyDevice (dev : Z) : M world () :=
  if dev =? VK_NULL_HANDLE then mret tt
  else
  w ← getS;
  let r := LinearMap.nvhal_map_del (w_devices w) dev in
  let d := r.1 in
  _ ← modS (set_devices r.2);
  _ ← (if d =? 0 then mret tt else modS (fun w => set_queues (LinearMap.nvhal_map_del_val (w_queues w) d) w));
  if d =? 0 then mret tt
  else
  _ ← foldM (fun _ what => emit (CTeardown what dev)) ["anb"; "ahb"; "astc"; "loader_pd"; "cmd"; "gt"]%string tt;
  _ ← (if sy_gdpa Y dev "vkDestroyDevice" =? 0 then modS (set_null true) else destroy_vkdev dev);
  free d.

Definition record_queue (d q : Z) : M world () :=
  w ← getS;
  _ ← nvhal_dispatch_check q (hd_handle (dev_at w d));
  _ ← put w_queues set_queues q d; mret tt.
Definition nvhal_GetDeviceQueue (dev family index : Z) : M world Z :=
  d ← nvhal_device_get dev;
  if d =? 0 then mret VK_NULL_HANDLE
  else
  let q := sy_queue Y dev family index 0 in
  _ ← (if q =? VK_NULL_HANDLE then mret tt else record_queue d q); mret q.
Definition nvhal_GetDeviceQueue2 (dev family index flags : Z) : M world Z :=
  d ← nvhal_device_get dev;
  if (d =? 0) || (sy_gdpa Y dev "vkGetDeviceQueue2" =? 0) then mret VK_NULL_HANDLE
  else
  let q := sy_queue Y dev family index flags in
  _ ← (if q =? VK_NULL_HANDLE then mret tt else record_queue d q); mret q.
(** The loader writes the word of an object it was given. *)
Definition loader_tags (obj v : Z) : M world () := modS (fun w => set_words (<[obj := v]> (w_words w)) w).
Definition nvhal_AllocateCommandBuffers (dev : Z) : M world Z :=
  d ← nvhal_device_get dev;
  if d =? 0 then mret VK_ERROR_INITIALIZATION_FAILED
  else
  t ← tick;
  let '(r, cmds) := sy_cmds Y t in
  _ ← (if r =? VK_SUCCESS then
         _ ← foldM (fun _ c => _ ← fresh_word c; nvhal_dispatch_check c dev) cmds tt; emit (CTrack d cmds)
       else mret tt);
  mret r.

End Loader.

(** [props2]: the driver [f] fills a chain of structures (type, payload) in
    place; the HAL hides its own structure from it. *)
Definition STYPE_PRESENTATION : Z := 1000010002.
Fixpoint split_at_type (ty : Z) (chain : list (Z * Z)) : option (list (Z * Z) * list (Z * Z)) :=
  match chain with
  | [] => None
  | b :: chain => if b.1 =? ty then Some ([], chain)
                  else match split_at_type ty chain with Some (pre, post) => Some (b :: pre, post) | None => None end
  end.
Definition props2 (f : list (Z * Z) -> list (Z * Z)) (chain : list (Z * Z)) : list (Z * Z) :=
  match split_at_type STYPE_PRESENTATION chain with
  | None => f chain
  | Some (pre, post) =>
      let out := f (pre ++ post) in
      take (length pre) out ++ [(STYPE_PRESENTATION, 0)] ++ drop (length pre) out
  end.

End HalLoader.
