(* ===== verification/HalSession.v ===== *)
(** * What the HAL's tables say of the live objects

    The operations of [HalLoader] in any order an application may use them:
    the invariant that ties the tables, the structures and the driver's live
    objects together, and what creating an instance or a device amounts to. *)

From Stdlib Require Import ZArith Lia.
From stdpp Require Import base option sets strings gmap list.
From S2P Require Import Prelude HashTable Vulkan HalExts HalProcs HalLoader.

Set Default Goal Selector "!".
#[local] Open Scope Z_scope.

Module HalSession.
Import Vk HalExts HalProcs HalLoader.

(** ** The invariant *)

(** The tables [gi], [gp], [gd], [gq] stand for: an entry of the instance
    table for each structure of an instance and each live instance of the
    driver, likewise for devices; physical devices and queues only point to
    structures that are there; a device's instance is alive; nothing is left
    over of a call (arrays, descriptors), and the driver is loaded once. *)
Record tables_ok (gi gp gd gq : gmap Z Z) (heap : gmap Z block) (vkinst vkdev : gset Z) : Prop := {
  to_inst h a : gi !! h = Some a <-> exists i, heap !! a = Some (BInst i) /\ is_handle i = h;
  to_dev h a : gd !! h = Some a <-> exists d, heap !! a = Some (BDev d) /\ hd_handle d = h;
  to_pd h a : gp !! h = Some a -> exists i, heap !! a = Some (BInst i);
  to_queue h a : gq !! h = Some a -> exists d, heap !! a = Some (BDev d);
  to_vkinst : dom gi = vkinst;
  to_vkdev : dom gd = vkdev;
  to_parent a d : heap !! a = Some (BDev d) -> exists i, heap !! hd_inst d = Some (BInst i);
  to_null : heap !! 0 = None;
}.
Record rest_ok (tmp dl : Z) (icd : bool) (fds : gset Z) (null : bool) : Prop := {
  ro_tmp : tmp = 0;
  ro_dl : dl = if icd then 1 else 0;
  ro_fds : fds = ∅;
  ro_null : null = false;
}.
Definition hal_inv (w : world) : Prop :=
  (exists gi gp gd gq,
    LinearMap.rep (w_instances w) gi /\ LinearMap.rep (w_physdevs w) gp /\ LinearMap.rep (w_devices w) gd /\ LinearMap.rep (w_queues w) gq /\
    tables_ok gi gp gd gq (w_heap w) (w_vkinst w) (w_vkdev w)) /\
  rest_ok (w_tmp w) (w_dl w) (w_icd w) (w_fds w) (w_null w).

(** ** Tables *)

Lemma tables_init : tables_ok ∅ ∅ ∅ ∅ ∅ ∅ ∅.
Proof.
  constructor; set_solver.
Qed.

Section Tables.
Context (gi gp gd gq : gmap Z Z) (heap : gmap Z block) (vkinst vkdev : gset Z).
Context (T : tables_ok gi gp gd gq heap vkinst vkdev).

Lemma to_dev_block a d : heap !! a = Some (BDev d) -> gd !! hd_handle d = Some a.
Proof. intros H. apply (to_dev _ _ _ _ _ _ _ T). by exists d. Qed.
Lemma to_inst_block a i : heap !! a = Some (BInst i) -> gi !! is_handle i = Some a.
Proof. intros H. apply (to_inst _ _ _ _ _ _ _ T). by exists i. Qed.

(** A new instance. *)
Lemma tables_add_inst h a api :
  h ∉ vkinst -> a ∉ dom heap -> a <> 0 ->
  tables_ok (<[h := a]> gi) gp gd gq (<[a := BInst (mk_inst h api)]> heap) ({[h]} ∪ vkinst) vkdev.
Proof.
  intros Hh Ha Hz. apply not_elem_of_dom in Ha. assert (Hg : gi !! h = None) by (apply not_elem_of_dom; by rewrite (to_vkinst _ _ _ _ _ _ _ T)).
  constructor.
  - intros h' a'. rewrite lookup_insert_Some. split.
    + intros [[<- <-]|[Hne [i [Hi <-]]%(to_inst _ _ _ _ _ _ _ T)]]; [by exists (mk_inst h api); rewrite lookup_insert_eq|].
      exists i. rewrite lookup_insert_ne by congruence. done.
    + intros (i & [[<- [= <-]]|[Hne Hi]]%lookup_insert_Some & E); [by left|]. right. split.
      * intros <-. apply to_inst_block in Hi. congruence.
      * subst h'. by apply to_inst_block.
  - intros h' a'. rewrite (to_dev _ _ _ _ _ _ _ T). split; intros (d & Hd & E); exists d; (split; [|done]).
    + rewrite lookup_insert_ne by congruence. done.
    + apply lookup_insert_Some in Hd as [[? ?]|[? ?]]; done.
  - intros h' a' [i Hi]%(to_pd _ _ _ _ _ _ _ T). exists i. rewrite lookup_insert_ne by congruence. done.
  - intros h' a' [d Hd]%(to_queue _ _ _ _ _ _ _ T). exists d. rewrite lookup_insert_ne by congruence. done.
  - rewrite dom_insert_L, (to_vkinst _ _ _ _ _ _ _ T). done.
  - apply (to_vkdev _ _ _ _ _ _ _ T).
  - intros a' d [[? ?]|[? Hd]]%lookup_insert_Some; [done|]. destruct (to_parent _ _ _ _ _ _ _ T _ _ Hd) as [i Hi]. exists i.
    rewrite lookup_insert_ne by congruence. done.
  - rewrite lookup_insert_ne by done. apply (to_null _ _ _ _ _ _ _ T).
Qed.

(** A new device of an instance that is there. *)
Lemma tables_add_dev a d i :
  hd_handle d ∉ vkdev -> a ∉ dom heap -> a <> 0 -> heap !! hd_inst d = Some (BInst i) ->
  tables_ok gi gp (<[hd_handle d := a]> gd) gq (<[a := BDev d]> heap) vkinst ({[hd_handle d]} ∪ vkdev).
Proof.
  intros Hh Ha Hz Hp. apply not_elem_of_dom in Ha.
  assert (Hg : gd !! hd_handle d = None) by (apply not_elem_of_dom; by rewrite (to_vkdev _ _ _ _ _ _ _ T)).
  constructor.
  - intros h' a'. rewrite (to_inst _ _ _ _ _ _ _ T). split; intros (i' & Hi & E); exists i'; (split; [|done]).
    + rewrite lookup_insert_ne by congruence. done.
    + apply lookup_insert_Some in Hi as [[? ?]|[? ?]]; done.
  - intros h' a'. rewrite lookup_insert_Some. split.
    + intros [[<- <-]|[Hne [d' [Hd <-]]%(to_dev _ _ _ _ _ _ _ T)]]; [by exists d; rewrite lookup_insert_eq|].
      exists d'. rewrite lookup_insert_ne by congruence. done.
    + intros (d' & [[<- [= <-]]|[Hne Hd]]%lookup_insert_Some & E); [by left|]. right. split.
      * intros E2. apply to_dev_block in Hd. congruence.
      * subst h'. by apply to_dev_block.
  - intros h' a' [i' Hi]%(to_pd _ _ _ _ _ _ _ T). exists i'. rewrite lookup_insert_ne by congruence. done.
  - intros h' a' [d' Hd]%(to_queue _ _ _ _ _ _ _ T). exists d'. rewrite lookup_insert_ne by congruence. done.
  - apply (to_vkinst _ _ _ _ _ _ _ T).
  - rewrite dom_insert_L, (to_vkdev _ _ _ _ _ _ _ T). done.
  - intros a' d' [[<- [= <-]]|[? Hd]]%lookup_insert_Some.
    + exists i. rewrite lookup_insert_ne by congruence. done.
    + destruct (to_parent _ _ _ _ _ _ _ T _ _ Hd) as [i' Hi]. exists i'. rewrite lookup_insert_ne by congruence. done.
  - rewrite lookup_insert_ne by done. apply (to_null _ _ _ _ _ _ _ T).
Qed.

(** An instance without devices goes, with its physical devices. *)
Lemma tables_del_inst h a :
  gi !! h = Some a -> (forall b d, heap !! b = Some (BDev d) -> hd_inst d <> a) ->
  tables_ok (delete h gi) (filter (fun kv => kv.2 <> a) gp) gd gq (delete a heap) (vkinst ∖ {[h]}) vkdev.
Proof.
  intros Hg Hnd. pose proof Hg as (i & Hi & Eh)%(to_inst _ _ _ _ _ _ _ T). constructor.
  - intros h' a'. rewrite lookup_delete_Some, (to_inst _ _ _ _ _ _ _ T). split.
    + intros [Hne (i' & Hi' & E)]. exists i'. split; [|done]. rewrite lookup_delete_ne; [done|]. intros <-. congruence.
    + intros (i' & [Hne Hi']%lookup_delete_Some & E). split; [|by exists i']. intros <-. apply to_inst_block in Hi'. congruence.
  - intros h' a'. rewrite (to_dev _ _ _ _ _ _ _ T). split; intros (d & Hd & E); exists d; (split; [|done]).
    + rewrite lookup_delete_ne; [done|]. intros <-. congruence.
    + by apply lookup_delete_Some in Hd as [_ ?].
  - intros h' a' [Hp Hne]%map_lookup_filter_Some. cbn in Hne. destruct (to_pd _ _ _ _ _ _ _ T _ _ Hp) as [i' Hi']. exists i'.
    by rewrite lookup_delete_ne.
  - intros h' a' [d Hd]%(to_queue _ _ _ _ _ _ _ T). exists d. rewrite lookup_delete_ne; [done|]. intros <-. congruence.
  - rewrite dom_delete_L, (to_vkinst _ _ _ _ _ _ _ T). done.
  - apply (to_vkdev _ _ _ _ _ _ _ T).
  - intros b d [_ Hd]%lookup_delete_Some. destruct (to_parent _ _ _ _ _ _ _ T _ _ Hd) as [i' Hi']. exists i'.
    rewrite lookup_delete_ne; [done|]. intros E. by apply (Hnd b d Hd).
  - destruct (decide (a = 0)) as [->|]; [apply lookup_delete_eq|]. rewrite lookup_delete_ne by done. apply (to_null _ _ _ _ _ _ _ T).
Qed.

(** A device goes, with its queues. *)
Lemma tables_del_dev h a :
  gd !! h = Some a ->
  tables_ok gi gp (delete h gd) (filter (fun kv => kv.2 <> a) gq) (delete a heap) vkinst (vkdev ∖ {[h]}).
Proof.
  intros Hg. pose proof Hg as (d & Hd & Eh)%(to_dev _ _ _ _ _ _ _ T). constructor.
  - intros h' a'. rewrite (to_inst _ _ _ _ _ _ _ T). split; intros (i & Hi & E); exists i; (split; [|done]).
    + rewrite lookup_delete_ne; [done|]. intros <-. congruence.
    + by apply lookup_delete_Some in Hi as [_ ?].
  - intros h' a'. rewrite lookup_delete_Some, (to_dev _ _ _ _ _ _ _ T). split.
    + intros [Hne (d' & Hd' & E)]. exists d'. split; [|done]. rewrite lookup_delete_ne; [done|]. intros <-. congruence.
    + intros (d' & [Hne Hd']%lookup_delete_Some & E). split; [|by exists d']. intros <-. apply to_dev_block in Hd'. congruence.
  - intros h' a' [i Hi]%(to_pd _ _ _ _ _ _ _ T). exists i. rewrite lookup_delete_ne; [done|]. intros <-. congruence.
  - intros h' a' [Hq Hne]%map_lookup_filter_Some. cbn in Hne. destruct (to_queue _ _ _ _ _ _ _ T _ _ Hq) as [d' Hd']. exists d'.
    by rewrite lookup_delete_ne.
  - apply (to_vkinst _ _ _ _ _ _ _ T).
  - rewrite dom_delete_L, (to_vkdev _ _ _ _ _ _ _ T). done.
  - intros b d' [_ Hd']%lookup_delete_Some. destruct (to_parent _ _ _ _ _ _ _ T _ _ Hd') as [i Hi]. exists i.
    rewrite lookup_delete_ne; [done|]. intros E. congruence.
  - destruct (decide (a = 0)) as [->|]; [apply lookup_delete_eq|]. rewrite lookup_delete_ne by done. apply (to_null _ _ _ _ _ _ _ T).
Qed.

Lemma tables_put_pd pd a i : heap !! a = Some (BInst i) -> tables_ok gi (<[pd := a]> gp) gd gq heap vkinst vkdev.
Proof.
  intros Hi. destruct T as [T1 T2 T3 T4 T5 T6 T7 T8]. constructor; try done.
  intros h' a' [[<- <-]|[_ H]]%lookup_insert_Some; [by exists i|by eapply T3].
Qed.
Lemma tables_put_queue q a d : heap !! a = Some (BDev d) -> tables_ok gi gp gd (<[q := a]> gq) heap vkinst vkdev.
Proof.
  intros Hd. destruct T as [T1 T2 T3 T4 T5 T6 T7 T8]. constructor; try done.
  intros h' a' [[<- <-]|[_ H]]%lookup_insert_Some; [by exists d|by eapply T4].
Qed.
(** With no instance left there is nothing at all. *)
Lemma tables_no_instance : gi = ∅ -> tables_ok ∅ ∅ gd gq heap vkinst vkdev.
Proof.
  intros E. assert (Hno : forall a i, heap !! a <> Some (BInst i)).
  { intros a i Hi. apply to_inst_block in Hi. by rewrite E in Hi. }
  destruct T as [T1 T2 T3 T4 T5 T6 T7 T8]. constructor; try done.
  - intros h a. split; [done|]. intros (i & Hi & _). by destruct (Hno a i).
  - by rewrite <- T5, E.
Qed.

End Tables.

(** ** Steps that leave the tables alone *)

(** Everything but the words, the history, the number of calls made and the
    driver's fences and semaphores. *)
Definition kept (w : world) :=
  ((w_instances w, w_physdevs w, w_devices w, w_queues w, w_heap w), (w_vkinst w, w_vkdev w, w_tmp w),
   (w_dl w, w_icd w, w_fds w, w_null w), (w_refs w, w_ahb w)).
Lemma kept_inv w w' : kept w' = kept w -> hal_inv w -> hal_inv w'.
Proof. unfold kept, hal_inv. intros [= -> -> -> -> -> -> -> -> -> -> -> -> _ _]. done. Qed.

Lemma tick_run w : tick w = (w_tick w, set_tick (w_tick w + 1) w).
Proof. reflexivity. Qed.
Ltac hrun := repeat first [progress mrun | rewrite tick_run].

(** The temporary arrays are counted. *)
Ltac kept_eq := unfold kept; cbn; repeat f_equal; lia.

Lemma map_put_failed ok m k v m' : LinearMap.nvhal_map_put ok m k v = (false, m') -> m' = m.
Proof. unfold LinearMap.nvhal_map_put. repeat case_match; congruence. Qed.

Section Ops.
Context (hid known : string -> bool) (Y : sys) (source_rm : bool).

Lemma check_run o p w : exists x, nvhal_dispatch_check Y o p w = (tt, set_words x w).
Proof.
  unfold nvhal_dispatch_check, modS. destruct w. cbn. case_match; [by eexists|]. case_match; by eexists.
Qed.
Lemma fresh_run o w :
  fresh_word Y o w = (tt, set_words (<[o := sy_word Y (w_tick w)]> (w_words w)) (set_tick (w_tick w + 1) w)).
Proof. reflexivity. Qed.
Lemma check_root o w : word_of Y (nvhal_dispatch_check Y o 0 w).2 o = HWVULKAN_DISPATCH_MAGIC.
Proof.
  unfold nvhal_dispatch_check, modS. cbn. destruct (Z.eqb_spec (word_of Y w o) HWVULKAN_DISPATCH_MAGIC) as [E|E]; cbn; [done|].
  unfold word_of. cbn. by rewrite lookup_insert_eq.
Qed.
(** A child's word is the magic or what its parent carries. *)
Lemma check_child o p w :
  let w' := (nvhal_dispatch_check Y o p w).2 in
  word_of Y w' o = HWVULKAN_DISPATCH_MAGIC \/ (p <> 0 /\ word_of Y w' o = word_of Y w' p).
Proof.
  intros w'. subst w'. unfold nvhal_dispatch_check, modS. cbn.
  destruct (Z.eqb_spec (word_of Y w o) HWVULKAN_DISPATCH_MAGIC) as [E|E]; cbn; [by left|].
  destruct (Z.eqb_spec p 0) as [Ep|Ep], (Z.eqb_spec (word_of Y w o) (word_of Y w p)) as [E2|E2]; cbn; try (by right).
  all: left; unfold word_of; cbn; by rewrite lookup_insert_eq.
Qed.
Lemma checks_run l p w : exists x, foldM (fun _ o => nvhal_dispatch_check Y o p) l tt w = (tt, set_words x w).
Proof.
  revert w. induction l as [|o l IH]; intros w; cbn [foldM]; [exists (w_words w); by destruct w|].
  rewrite bind_run. destruct (check_run o p w) as [x ->]. cbn [fst snd].
  destruct (IH (set_words x w)) as [y ->]. by exists y.
Qed.

(** One insertion into a table. *)
Lemma put_run (get : world -> LinearMap.nvhal_map) set k v w g :
  (forall t w, get (set_tick t w) = get w) -> LinearMap.rep (get w) g ->
  exists b m, put Y get set k v w = (b, set m (set_tick (w_tick w + 1) w)) /\
    LinearMap.rep m (if b : bool then <[k := v]> g else g) /\ (b = false -> m = get w).
Proof.
  intros Hget R. destruct (LinearMap.lm_put_spec (sy_alloc Y (w_tick w)) _ _ k v R) as (b & m & E & _ & R').
  assert (P : put Y get set k v w = let w1 := set_tick (w_tick w + 1) w in
    let r := LinearMap.nvhal_map_put (sy_alloc Y (w_tick w)) (get w1) k v in (r.1, set r.2 w1)) by reflexivity.
  exists b, m. rewrite P. cbv zeta. rewrite Hget, E. split; [done|]. split; [done|].
  intros ->. by eapply map_put_failed.
Qed.

Context (picks : forall t X, (sy_pick Y t X ∉ X) /\ sy_pick Y t X <> 0).
Context (destroys_inst : forall h, sy_gipa Y h "vkDestroyInstance" <> 0).
Context (destroys_dev : forall d, sy_gdpa Y d "vkDestroyDevice" <> 0).

Lemma destroy_vkinst_run h w :
  destroy_vkinst Y h w = (tt, set_vkinst (w_vkinst w ∖ {[h]}) (set_tr (w_tr w ++ [CDestroyInstance h]) w)).
Proof. unfold destroy_vkinst. by rewrite (proj2 (Z.eqb_neq _ _) (destroys_inst h)). Qed.
Lemma destroy_vkdev_run h w :
  destroy_vkdev Y h w = (tt, set_vkdev (w_vkdev w ∖ {[h]}) (set_tr (w_tr w ++ [CDestroyDevice h]) w)).
Proof. unfold destroy_vkdev. by rewrite (proj2 (Z.eqb_neq _ _) (destroys_dev h)). Qed.

Lemma drop_new (X : gset Z) h : h ∉ X -> ({[h]} ∪ X) ∖ {[h]} = X.
Proof. intros H. apply set_eq. intros x. rewrite elem_of_difference, elem_of_union, elem_of_singleton. destruct (decide (x = h)); naive_solver. Qed.

(** ** Instances *)

(** A failed call leaves everything as it was. *)
Definition fresh_instance (w w' : world) (h api : Z) : Prop :=
  h <> 0 /\ (h ∉ w_vkinst w) /\ w_vkinst w' = {[h]} ∪ w_vkinst w /\ w_vkdev w' = w_vkdev w /\
  w_physdevs w' = w_physdevs w /\ w_devices w' = w_devices w /\ w_queues w' = w_queues w /\
  (exists s, (s ∉ dom (w_heap w)) /\ s <> 0 /\ w_heap w' = <[s := BInst (mk_inst h api)]> (w_heap w) /\
    LinearMap.nvhal_map_get (w_instances w') h = s) /\
  word_of Y w' h = HWVULKAN_DISPATCH_MAGIC /\ Forall (fun n => sy_gipa Y h n <> 0) required_instance_procs.

Lemma first_null_None fetch names : first_null fetch names = None -> Forall (fun n => fetch n <> 0) names.
Proof.
  intros H. apply Forall_forall. intros n Hn E. pose proof (List.find_none _ _ H n ltac:(by apply list_elem_of_In)) as F.
  cbn in F. by apply Z.eqb_neq in F.
Qed.

Lemma calloc_run b w :
  let a := (calloc Y b w).1 in let w' := (calloc Y b w).2 in
  (a = 0 /\ w' = set_tick (w_tick w + 1) w) \/
  (a <> 0 /\ (a ∉ dom (w_heap w)) /\ w' = set_heap (<[a := b]> (w_heap w)) (set_tick (w_tick w + 1) w)).
Proof.
  unfold calloc. rewrite bind_run. cbn [tick getS fst snd]. rewrite bind_run. cbn [getS fst snd].
  change (sy_alloc Y (tick w).1) with (sy_alloc Y (w_tick w)). destruct (sy_alloc Y (w_tick w)); [right|left; done].
  cbv zeta. change (w_heap (tick w).2) with (w_heap w). change ((tick w).1) with (w_tick w).
  destruct (picks (w_tick w) (dom (w_heap w))) as [P1 P2]. mrun. done.
Qed.

Lemma setup_instance_run w0 w h api :
  hal_inv w0 -> h ∉ w_vkinst w0 -> h <> 0 -> kept w = kept (set_vkinst ({[h]} ∪ w_vkinst w0) w0) ->
  word_of Y w h = HWVULKAN_DISPATCH_MAGIC ->
  let '(r, h') := (setup_instance Y h api w).1 in let w' := (setup_instance Y h api w).2 in
  (r <> VK_SUCCESS -> h' = 0 /\ kept w' = kept w0) /\
  (r = VK_SUCCESS -> h' = h /\ fresh_instance w0 w' h api /\ hal_inv w').
Proof.
  intros I Hh Hz K W. unfold setup_instance. rewrite bind_run.
  assert (K2 := K). unfold kept in K2. cbn in K2. injection K2 as E1 E2 E3 E4 E5 E6 E7 E8 E9 E10 E11 E12 E13 E14.
  destruct (calloc_run (BInst (mk_inst h api)) w) as [[-> ->]|(Hs & Hd & Ew)].
  { cbn [Z.eqb]. rewrite bind_run, destroy_vkinst_run. cbn [fst snd mret M_ret]. split; [|done]. intros _. split; [done|].
    unfold kept. cbn. rewrite E6, drop_new by done. congruence. }
  set (s := (calloc Y (BInst (mk_inst h api)) w).1) in *. rewrite Ew. rewrite (proj2 (Z.eqb_neq s 0)) by done.
  case_bool_decide as Hm.
  { rewrite bind_run, destroy_vkinst_run. mrun. split; [|done]. intros _. split; [done|].
    unfold kept. cbn. rewrite E6, drop_new, delete_insert_id by (done || by apply not_elem_of_dom). congruence. }
  destruct I as [(gi & gp & gd & gq & R1 & R2 & R3 & R4 & T) O].
  rewrite bind_run. destruct (put_run w_instances set_instances h s (set_heap (<[s:=BInst (mk_inst h api)]> (w_heap w)) (set_tick (w_tick w + 1) w)) gi)
    as (b & m & Ep & Rm & Em); [done|cbn; by rewrite E1|]. rewrite Ep. cbn [fst snd]. destruct b; cbn [negb].
  - mrun. split; [done|]. intros _. split; [done|]. rewrite E5 in Hd. split.
    + split; [done|]. split; [done|]. split; [cbn; congruence|]. split; [cbn; congruence|]. split; [cbn; congruence|]. split; [cbn; congruence|].
      split; [cbn; congruence|]. split.
      * exists s. split; [done|]. split; [done|]. split; [cbn; congruence|]. cbn [w_instances set_instances].
        destruct Rm as [_ Rm]. pose proof (LinearMap.get_from_spec (LinearMap.e m) h) as G.
        unfold LinearMap.nvhal_map_get. rewrite G, <- Rm, lookup_insert_eq. done.
      * split; [exact W|]. apply first_null_None. destruct (first_null _ _); [|done]. by destruct Hm.
    + split.
      * exists (<[h:=s]> gi), gp, gd, gq. cbn. rewrite E2, E3, E4, E5, E6, E7. split_and!; try done. by apply tables_add_inst.
      * cbn. by rewrite E8, E9, E10, E11, E12.
  - rewrite bind_run, bind_run, destroy_vkinst_run. mrun. split; [|done]. intros _. split; [done|].
    rewrite (Em eq_refl). unfold kept. cbn. rewrite E6, drop_new, delete_insert_id by (done || by apply not_elem_of_dom). congruence.
Qed.


Lemma create_instance_run layers es app_api w :
  hal_inv w ->
  let '(r, h) := (hal_CreateInstance Y layers es app_api w).1 in
  let w' := (hal_CreateInstance Y layers es app_api w).2 in
  (r <> VK_SUCCESS -> h = 0 /\ kept w' = kept w) /\
  (r = VK_SUCCESS -> exists api, fresh_instance w w' h api /\ hal_inv w').
Proof.
  intros I. assert (Htmp : w_tmp w = 0) by apply I.
  unfold hal_CreateInstance. destruct (negb (layers =? 0)); [cbn; split; [|done]; intros _; done|].
  rewrite bind_run. cbn [tick fst snd]. change (tick w) with (w_tick w, set_tick (w_tick w + 1) w). cbn [fst snd].
  destruct (proj1_sig _) as [r|[all vis]] eqn:Ea.
  { cbn. split; [intros _; done|]. intros ->. exfalso. destruct (proj2_sig (sy_inst_exts Y (w_tick w))) as (D & ok & fuel & E).
    rewrite Ea in E. unfold icd_instance_exts in E. destruct (enum_loop _ _ _ _) as [[r|[p room]]|] eqn:EL; [| |done].
    - injection E as ->. by apply enum_loop_error in EL.
    - destruct ok; cbn in E; [done|]. done. }
  set (api := match app_api with Some v => _ | None => _ end).
  unfold malloc, free_tmp. mrun. change (tick ?x) with (w_tick x, set_tick (w_tick x + 1) x). cbn [fst snd].
  match goal with |- context [sy_alloc Y ?t] => destruct (sy_alloc Y t) end; mrun; cbn [negb].
  2:{ mrun. split; [|done]. intros _. split; [done|]. kept_eq. }
  destruct (instance_names all vis api es) as [names|].
  2:{ mrun. split; [|done]. intros _. split; [done|]. kept_eq. }
  unfold emit. mrun. change (tick ?x) with (w_tick x, set_tick (w_tick x + 1) x). cbn [fst snd].
  match goal with |- context [sy_create_instance Y ?t ?n =? VK_SUCCESS] => destruct (Z.eqb_spec (sy_create_instance Y t n) VK_SUCCESS) as [Er|Er] end; cbn [negb].
  2:{ split; [|done]. intros _. split; [done|]. kept_eq. }
  mrun. match goal with |- context [sy_pick Y ?t ?X] => set (h := sy_pick Y t X); destruct (picks t X) as [P1 P2]; fold h in P1, P2 end.
  match goal with |- context [setup_instance Y h api (nvhal_dispatch_check Y h 0 ?W).2] =>
    set (w1 := W) in *; pose proof (check_root h w1) as HW; destruct (check_run h 0 w1) as [x Hx] end.
  pose proof (setup_instance_run w (nvhal_dispatch_check Y h 0 w1).2 h api I) as L.
  destruct (setup_instance Y h api (nvhal_dispatch_check Y h 0 w1).2) as [[r' h'] w'] eqn:Es. cbn [fst snd] in *.
  destruct L as [L1 L2]; [done|done| |done|].
  - rewrite Hx. unfold w1. rewrite fresh_run. kept_eq.
  - split; [done|]. intros E. destruct (L2 E) as (-> & F & I'). by exists api.
Qed.

(** Its devices must be gone before an instance is destroyed. *)
Definition no_devices_of (w : world) (h : Z) : Prop :=
  forall a d, w_heap w !! a = Some (BDev d) -> is_handle (inst_at w (hd_inst d)) <> h.

Lemma tab_get_rep m g k : LinearMap.rep m g -> LinearMap.nvhal_map_get m k = default NULL (g !! k).
Proof. intros [_ ->]. apply LinearMap.get_from_spec. Qed.

Lemma del_absent m g k : LinearMap.rep m g -> g !! k = None -> LinearMap.nvhal_map_del m k = (0, m).
Proof.
  intros [_ ->] Hk. unfold LinearMap.nvhal_map_del. destruct (LinearMap.index_of (LinearMap.e m) k) as [i|] eqn:E; [|done].
  apply LinearMap.index_of_Some in E as [v Hv]. apply not_elem_of_list_to_map in Hk. destruct Hk.
  apply list_elem_of_fmap. exists (k, v). split; [done|]. by eapply list_elem_of_lookup_2.
Qed.

Lemma destroy_instance_run h w :
  hal_inv w -> no_devices_of w h ->
  let w' := (hal_DestroyInstance Y h w).2 in
  hal_inv w' /\ (h = 0 \/ h ∉ w_vkinst w -> kept w' = kept w) /\
  (h <> 0 -> h ∈ w_vkinst w -> exists s i, w_heap w !! s = Some (BInst i) /\ is_handle i = h /\
     w_heap w' = delete s (w_heap w) /\ w_vkinst w' = w_vkinst w ∖ {[h]} /\ w_vkdev w' = w_vkdev w /\
     w_tr w' = w_tr w ++ [CDestroyInstance h; CTeardown "astc_instance" h] /\ LinearMap.nvhal_map_get (w_instances w') h = 0 /\
     forall pd, LinearMap.nvhal_map_get (w_physdevs w') pd <> s).
Proof.
  intros I V w'. subst w'. unfold hal_DestroyInstance. destruct (Z.eqb_spec h VK_NULL_HANDLE) as [->|Hz].
  { cbn. split; [done|]. split; [done|]. done. }
  destruct I as [(gi & gp & gd & gq & R1 & R2 & R3 & R4 & T) O]. mrun.
  destruct (gi !! h) as [s|] eqn:Hg.
  - destruct (LinearMap.lm_del_spec _ _ h R1) as [D1 D2]. rewrite Hg in D1. cbn in D1. rewrite D1.
    pose proof Hg as (i & Hi & Ei)%(to_inst _ _ _ _ _ _ _ T).
    assert (Hs : s <> 0) by (intros ->; by rewrite (to_null _ _ _ _ _ _ _ T) in Hi).
    rewrite (proj2 (Z.eqb_neq s 0)) by done. mrun. rewrite (proj2 (Z.eqb_neq _ _) (destroys_inst h)), destroy_vkinst_run. unfold free, emit. mrun.
    destruct (LinearMap.map_del_val_exact _ _ s R2) as [P1 P2].
    assert (Hnd : forall b d, w_heap w !! b = Some (BDev d) -> hd_inst d <> s).
    { intros b d Hd E. apply (V b d Hd). unfold inst_at. by rewrite E, Hi. }
    split; [|split].
    + split; [|done]. exists (delete h gi), (filter (fun kv => kv.2 <> s) gp), gd, gq. cbn. split_and!; try done. by apply tables_del_inst.
    + intros [?|Hn]; [done|]. destruct Hn. rewrite <- (to_vkinst _ _ _ _ _ _ _ T). by apply elem_of_dom.
    + intros _ _. exists s, i. split_and!; try done.
      * cbn. by rewrite <- app_assoc.
      * cbn. rewrite (tab_get_rep _ _ _ D2), lookup_delete_eq. done.
      * intros pd. change (LinearMap.nvhal_map_get (LinearMap.nvhal_map_del_val (w_physdevs w) s) pd <> s). rewrite P2. destruct (filter _ gp !! pd) as [v|] eqn:E; cbn; [|by intros <-].
        by apply map_lookup_filter_Some in E as [_ ?].
  - rewrite (del_absent _ _ _ R1 Hg). cbn. split; [|split].
    + split; [|done]. by exists gi, gp, gd, gq.
    + intros _. by destruct w.
    + intros _ Hv. rewrite <- (to_vkinst _ _ _ _ _ _ _ T) in Hv. apply elem_of_dom in Hv. rewrite Hg in Hv. by destruct Hv.
Qed.

Lemma inst_lookup w h : hal_inv w -> let s := LinearMap.nvhal_map_get (w_instances w) h in
  s = 0 \/ exists i, w_heap w !! s = Some (BInst i) /\ is_handle i = h.
Proof.
  intros [(gi & gp & gd & gq & R1 & R2 & R3 & R4 & T) O] s. subst s. rewrite (tab_get_rep _ _ _ R1).
  destruct (gi !! h) as [a|] eqn:E; [right|by left]. by apply (to_inst _ _ _ _ _ _ _ T) in E.
Qed.
Lemma dev_lookup w h : hal_inv w -> let d := LinearMap.nvhal_map_get (w_devices w) h in
  d = 0 \/ exists b, w_heap w !! d = Some (BDev b) /\ hd_handle b = h.
Proof.
  intros [(gi & gp & gd & gq & R1 & R2 & R3 & R4 & T) O] s. subst s. rewrite (tab_get_rep _ _ _ R3).
  destruct (gd !! h) as [a|] eqn:E; [right|by left]. by apply (to_dev _ _ _ _ _ _ _ T) in E.
Qed.
Lemma pd_lookup w h : hal_inv w -> let s := LinearMap.nvhal_map_get (w_physdevs w) h in
  s = 0 \/ exists i, w_heap w !! s = Some (BInst i).
Proof.
  intros [(gi & gp & gd & gq & R1 & R2 & R3 & R4 & T) O] s. subst s. rewrite (tab_get_rep _ _ _ R2).
  destruct (gp !! h) as [a|] eqn:E; [right|by left]. by apply (to_pd _ _ _ _ _ _ _ T) in E.
Qed.

(** Recording physical devices and queues. *)
Lemma put_pd_inv pd s w i : hal_inv w -> w_heap w !! s = Some (BInst i) ->
  let w' := (put Y w_physdevs set_physdevs pd s w).2 in hal_inv w' /\ w_heap w' = w_heap w.
Proof.
  intros [(gi & gp & gd & gq & R1 & R2 & R3 & R4 & T) O] Hi w'. subst w'.
  destruct (put_run w_physdevs set_physdevs pd s w gp) as (b & m & E & Rm & _); [done|done|]. rewrite E. cbn. split; [|done].
  split; [|done]. exists gi, (if b then <[pd:=s]> gp else gp), gd, gq. cbn. split_and!; try done. destruct b; [|done]. by eapply tables_put_pd.
Qed.
Lemma put_queue_inv q s w d : hal_inv w -> w_heap w !! s = Some (BDev d) ->
  let w' := (put Y w_queues set_queues q s w).2 in hal_inv w' /\ w_heap w' = w_heap w.
Proof.
  intros [(gi & gp & gd & gq & R1 & R2 & R3 & R4 & T) O] Hi w'. subst w'.
  destruct (put_run w_queues set_queues q s w gq) as (b & m & E & Rm & _); [done|done|]. rewrite E. cbn. split; [|done].
  split; [|done]. exists gi, gp, gd, (if b then <[q:=s]> gq else gq). cbn. split_and!; try done. destruct b; [|done]. by eapply tables_put_queue.
Qed.

Lemma record_physdevs_inv s pds w i : hal_inv w -> w_heap w !! s = Some (BInst i) ->
  let w' := (record_physdevs Y s pds w).2 in hal_inv w' /\ w_heap w' = w_heap w.
Proof.
  intros I Hi w'. subst w'. unfold record_physdevs. mrun. destruct (checks_run pds (is_handle (inst_at w s)) w) as [x ->]. cbn [fst snd].
  assert (I1 : hal_inv (set_words x w)) by (by apply (kept_inv w)). change (w_heap w) with (w_heap (set_words x w)) in Hi |- *.
  revert I1 Hi. generalize (set_words x w). clear. intros w I Hi.
  apply (foldM_inv _ (fun _ v => hal_inv v /\ w_heap v = w_heap w)); [done|]. intros b pd v _ [Iv Ev]. mrun.
  destruct (put_pd_inv pd s v i Iv) as [A B]; [congruence|]. split; [done|congruence].
Qed.

Lemma enumerate_pds_inv h wanted w : hal_inv w -> hal_inv (hal_EnumeratePhysicalDevices Y h wanted w).2.
Proof.
  intros I. unfold hal_EnumeratePhysicalDevices, nvhal_instance_get. mrun. destruct (inst_lookup w h I) as [->|(i & Hi & _)]; [done|].
  case_match; [done|]. hrun. destruct (sy_pds Y (w_tick w)) as [r pds]. cbv iota beta. mrun.
  assert (I1 : hal_inv (set_tick (w_tick w + 1) w)) by (by apply (kept_inv w)).
  destruct (_ && wanted); [|done]. by apply (record_physdevs_inv _ _ _ i).
Qed.
Lemma enumerate_groups_inv h wanted (khr : bool) w : hal_inv w ->
  sy_gipa Y h (if khr then "vkEnumeratePhysicalDeviceGroupsKHR" else "vkEnumeratePhysicalDeviceGroups")%string <> 0 ->
  hal_inv (enumerate_groups Y h wanted khr w).2.
Proof.
  intros I Hf. unfold enumerate_groups, nvhal_instance_get. mrun. destruct (inst_lookup w h I) as [->|(i & Hi & Eh)]; [done|].
  destruct (LinearMap.nvhal_map_get (w_instances w) h =? 0); [done|]. mrun. assert (Eat : inst_at w (LinearMap.nvhal_map_get (w_instances w) h) = i) by (unfold inst_at; by rewrite Hi).
  rewrite Eat, Eh, (proj2 (Z.eqb_neq _ _) Hf).
  hrun. destruct (sy_groups Y (w_tick w)) as [r groups]. cbv iota beta. mrun.
  assert (I1 : hal_inv (set_tick (w_tick w + 1) w)) by (by apply (kept_inv w)).
  destruct (_ && wanted); [|done].
  apply (foldM_inv _ (fun _ v => hal_inv v /\ w_heap v = w_heap w)); [done|]. intros b pds v _ [Iv Ev].
  destruct (record_physdevs_inv (LinearMap.nvhal_map_get (w_instances w) h) pds v i Iv) as [A B]; [congruence|]. split; [done|congruence].
Qed.

(** ** The module *)

(** A failed load leaves no reference to the library. *)
Lemma load_icd_run w : w_icd w = false ->
  let r := (load_icd Y w).1 in let w' := (load_icd Y w).2 in
  (r <> 0 -> kept w' = kept w) /\ (r = 0 -> kept w' = kept (set_icd true (set_dl (w_dl w + 1) w))).
Proof.
  intros Hi. unfold load_icd, dlclose. hrun. destruct (sy_library Y (w_tick w)) as [l|]; [|cbn; split; [done|intros X; by vm_compute in X]]. hrun.
  destruct (negb (lib_neg l) || negb (lib_gipa l)); [hrun; split; [intros _; kept_eq|intros X; by vm_compute in X]|].
  destruct (negb (lib_result l =? VK_SUCCESS) || (lib_version l <? NVHAL_ICD_INTERFACE_MIN)); [hrun; split; [intros _; kept_eq|intros X; by vm_compute in X]|].
  destruct (_ || _); hrun; (split; intros X; [first [by destruct X|kept_eq]|first [by vm_compute in X|done]]).
Qed.
Lemma open_inv id w : hal_inv w -> hal_inv (hal_open Y id w).2.
Proof.
  intros I. unfold hal_open. case_decide; [|done]. hrun.
  assert (L : forall r v, hal_inv v -> hal_inv ((if r =? 0 then _ ← modS (fun w => set_refs (u32 (w_refs w + 1)) w); _ ← nvhal_ahb_load Y; mret 0 else mret r) v).2).
  { intros r v Iv. destruct (r =? 0); [|done]. unfold nvhal_ahb_load. hrun. case_match; exact Iv. }
  destruct (w_icd w) eqn:E; [by apply L|]. apply L. destruct (load_icd_run w E) as [L1 L2].
  destruct (decide ((load_icd Y w).1 = 0)) as [Z0|Z0].
  - destruct I as [T O]. specialize (L2 Z0). eapply kept_inv; [exact L2|]. split; [exact T|].
    destruct O as [O1 O2 O3 O4]. constructor; cbn; try done. by rewrite O2, E.
  - eapply kept_inv; [by apply L1|done].
Qed.
Lemma close_inv w : hal_inv w -> hal_inv (hal_close w).2.
Proof.
  intros I. unfold hal_close. hrun. destruct (w_refs w =? 0); cbn [negb]; [done|]. hrun.
  assert (I1 : hal_inv (set_refs (w_refs w - 1) w)) by exact I.
  destruct ((w_refs w - 1 =? 0) && (LinearMap.n (w_instances w) =? 0)%nat) eqn:E; [|done]. hrun.
  apply andb_true_iff in E as [_ E%Nat.eqb_eq]. unfold LinearMap.n in E. apply length_zero_iff_nil in E.
  destruct I as [(gi & gp & gd & gq & R1 & R2 & R3 & R4 & T) O]. split; [|exact O].
  exists ∅, ∅, gd, gq. assert (Eg : gi = ∅) by (destruct R1 as [_ ->]; by rewrite E).
  split; [apply LinearMap.rep_empty|]. split; [apply LinearMap.rep_empty|]. split; [done|]. split; [done|]. by eapply tables_no_instance.
Qed.

(** ** Timelines *)

(** An empty submission on the queue, its descriptor exported and waited for. *)
Definition started (tr : list call) (q : Z) : Prop :=
  exists pre obj fd post, tr = pre ++ [CSubmit q obj VK_SUCCESS; CExport obj VK_SUCCESS fd; CPoll fd] ++ post /\ 0 <= fd.
Lemma started_app tr tr' q : started tr q -> started (tr ++ tr') q.
Proof. intros (pre & obj & fd & post & -> & H). exists pre, obj, fd, (post ++ tr'). by rewrite <- !app_assoc. Qed.
Lemma started_app_r tr tr' q : started tr' q -> started (tr ++ tr') q.
Proof. intros (pre & obj & fd & post & -> & H). exists (tr ++ pre), obj, fd, post. by rewrite <- !app_assoc. Qed.

Lemma poll_again_run k fd w :
  exists l, poll_again k fd w = (tt, set_tr (w_tr w ++ CPoll fd :: l) w).
Proof.
  revert w. induction k as [|k IH]; intros w; cbn [poll_again]; unfold emit; hrun; [by exists []|].
  destruct (IH (set_tr (w_tr w ++ [CPoll fd]) w)) as [l ->]. exists (CPoll fd :: l). cbn. by rewrite <- app_assoc.
Qed.

(** The new part of the history and the fences left behind. *)
Definition extends (w w' : world) (tr : list call) (left_over : gset (Z * Z)) : Prop :=
  kept w' = kept w /\ w_tr w' = w_tr w ++ tr /\ w_children w' = left_over ∪ w_children w.
Lemma extends_refl w : extends w w [] ∅.
Proof. split; [done|]. rewrite app_nil_r. split; [done|]. by rewrite (left_id_L ∅ (∪)). Qed.

Lemma close_new (X : gset Z) fd : fd ∉ X -> ({[fd]} ∪ X) ∖ {[fd]} = X.
Proof. apply drop_new. Qed.
Lemma drop_child (X : gset (Z * Z)) dev obj : obj ∉ (set_map snd X : gset Z) -> ({[(dev, obj)]} ∪ X) ∖ {[(dev, obj)]} = X.
Proof.
  intros H. apply set_eq. intros x. rewrite elem_of_difference, elem_of_union, elem_of_singleton. split; [naive_solver|].
  intros Hx. split; [by right|]. intros ->. apply H, elem_of_map. by exists (dev, obj).
Qed.

Lemma start_one_run dev q use_fence w :
  let r := (start_one_queue Y dev q use_fence w).1 in
  let w' := (start_one_queue Y dev q use_fence w).2 in
  (r = VK_SUCCESS -> exists tr, extends w w' tr ∅ /\ started tr q) /\
  (r <> VK_SUCCESS -> exists tr obj, extends w w' tr ∅ \/ extends w w' tr {[(dev, obj)]}).
Proof.
  unfold start_one_queue, start_failed, emit, close. hrun.
  destruct (Z.eqb_spec (sy_create_obj Y (w_tick w)) VK_SUCCESS) as [E1|E1]; cbn [negb Z.ltb Z.compare].
  2:{ hrun. split; [done|]. intros _. exists [], 0. left. by apply (extends_refl w). }
  hrun. match goal with |- context [sy_pick Y ?t ?X] => set (obj := sy_pick Y t X); assert (Ho : obj ∉ X) by apply picks end.
  match goal with |- context [sy_submit Y ?t =? VK_SUCCESS] => destruct (Z.eqb_spec (sy_submit Y t) VK_SUCCESS) as [->|E2] end; cbn [negb].
  2:{ hrun. split; [done|]. intros _. eexists _, obj. right. split; [done|]. split; done. }
  hrun. match goal with |- context [sy_export Y ?t] => destruct (sy_export Y t) as [r valid] end. cbv iota beta. hrun.
  match goal with |- context [sy_pick Y ?t (w_fds ?v)] => set (fd0 := sy_pick Y t (w_fds v)); assert (Hf : fd0 ∉ w_fds w) by apply (picks t (w_fds v)) end.
  destruct (Z.eqb_spec r VK_SUCCESS) as [->|E3]; cbn [negb andb].
  2:{ hrun. split; [done|]. intros _. eexists _, obj. right. split; [done|]. split; [cbn; by rewrite <- app_assoc|done]. }
  set (fd := if valid then fd0 else -1). destruct (Z.ltb_spec fd 0) as [E4|E4].
  { hrun. split; [done|]. intros _. eexists _, obj. right. split; [done|]. split; [cbn; by rewrite <- app_assoc|done]. }
  assert (Ef : fd = fd0) by (unfold fd in *; destruct valid; [done|lia]). clearbody fd. subst fd.
  hrun. match goal with |- context [sy_poll Y ?t] => destruct (sy_poll Y t) as [k pr] end. cbv iota beta. hrun.
  match goal with |- context [poll_again k fd0 ?v] => destruct (poll_again_run k fd0 v) as [l ->] end. hrun.
  destruct (Z.eqb_spec pr 1) as [E5|E5]; cbn [negb].
  - hrun. split; [|done]. intros _. eexists. split.
    + split; [unfold kept; cbn; by rewrite close_new|]. split; [cbn; by rewrite <- !app_assoc|]. cbn. rewrite drop_child by done. by rewrite (left_id_L ∅ (∪)).
    + exists [], obj, fd0, l. split; [done|lia].
  - hrun. split; [done|]. intros _. eexists _, obj. right.
    split; [unfold kept; cbn; by rewrite close_new|]. split; [cbn; by rewrite <- !app_assoc|done].
Qed.

Lemma extends_trans w1 w2 w3 tr1 tr2 c1 c2 : extends w1 w2 tr1 c1 -> extends w2 w3 tr2 c2 -> extends w1 w3 (tr1 ++ tr2) (c2 ∪ c1).
Proof.
  intros (A1 & B1 & C1) (A2 & B2 & C2). split; [congruence|]. split; [by rewrite B2, B1, app_assoc|]. by rewrite C2, C1, (assoc_L (∪)).
Qed.

(** The handle of the queue of one turn of the loops. *)
Definition turn_queue (dev : Z) (qk : queue_ci * nat) : Z := sy_queue Y dev (qc_family qk.1) (Z.of_nat qk.2) (qc_flags qk.1).
Definition at_most_one (dev : Z) (c : gset (Z * Z)) : Prop := c = ∅ \/ exists obj, c = {[(dev, obj)]}.

Lemma start_all_run dev use_fence qs n w :
  let r := (start_all Y dev use_fence qs n w).1 in let w' := (start_all Y dev use_fence qs n w).2 in
  exists tr c, extends w w' tr c /\ at_most_one dev c /\
  (r.1 = VK_SUCCESS -> c = ∅ /\ r.2 = (n + length qs)%nat /\
     Forall (fun qk => turn_queue dev qk <> 0 /\ started tr (turn_queue dev qk)) qs).
Proof.
  revert n w. induction qs as [|[q k] qs IH]; intros n w; cbn [start_all].
  { exists [], ∅. hrun. split; [apply extends_refl|]. split; [by left|]. intros _. split; [done|]. split; [cbn; lia|done]. }
  hrun. unfold start_queue. destruct (_ && (sy_gdpa Y dev "vkGetDeviceQueue2" =? 0)).
  { hrun. exists [], ∅. split; [apply extends_refl|]. split; [by left|done]. }
  change (sy_queue Y dev (qc_family q) (Z.of_nat k) (qc_flags q)) with (turn_queue dev (q, k)).
  destruct (Z.eqb_spec (turn_queue dev (q, k)) VK_NULL_HANDLE) as [E|E].
  { hrun. exists [], ∅. split; [apply extends_refl|]. split; [by left|done]. }
  destruct (start_one_run dev (turn_queue dev (q, k)) use_fence w) as [S1 S2].
  destruct (Z.eqb_spec (start_one_queue Y dev (turn_queue dev (q, k)) use_fence w).1 VK_SUCCESS) as [Er|Er]; cbn [negb].
  - destruct (S1 Er) as (tr1 & X1 & St). destruct (IH (n + 1)%nat (start_one_queue Y dev (turn_queue dev (q, k)) use_fence w).2) as (tr2 & c & X2 & A & F).
    exists (tr1 ++ tr2), c. split; [|split; [done|]].
    + pose proof (extends_trans _ _ _ _ _ _ _ X1 X2) as X. by rewrite (right_id_L ∅ (∪)) in X.
    + intros Hr. destruct (F Hr) as (-> & En & Fq). split; [done|]. split; [rewrite En; cbn; lia|]. constructor.
      * split; [done|]. by apply started_app.
      * eapply Forall_impl; [exact Fq|]. intros qk [? ?]. split; [done|]. by apply started_app_r.
  - hrun. destruct (S2 Er) as (tr & obj & [X|X]).
    + exists tr, ∅. split; [done|]. split; [by left|]. done.
    + exists tr, {[(dev, obj)]}. split; [done|]. split; [right; by exists obj|]. done.
Qed.

Lemma start_timelines_run dev cis sem_ext fence_ext w :
  let r := (start_queue_timelines Y source_rm dev cis sem_ext fence_ext w).1 in
  let w' := (start_queue_timelines Y source_rm dev cis sem_ext fence_ext w).2 in
  exists tr c, extends w w' tr c /\ at_most_one dev c /\
  (r.1 = VK_SUCCESS -> c = ∅ /\ (source_rm = false -> sem_ext || fence_ext = true ->
     r.2 = length (queue_turns cis) /\ Forall (fun qk => turn_queue dev qk <> 0 /\ started tr (turn_queue dev qk)) (queue_turns cis))).
Proof.
  unfold start_queue_timelines. destruct source_rm.
  { exists [], ∅. hrun. split; [apply extends_refl|]. split; [by left|]. done. }
  destruct sem_ext, fence_ext; cbn [negb andb].
  4:{ exists [], ∅. hrun. split; [apply extends_refl|]. split; [by left|]. done. }
  all: destruct (_ || _).
  1,3,5: exists [], ∅; hrun; split; [apply extends_refl|]; split; [by left|done].
  all: match goal with |- context [start_all _ ?d ?f _ 0 _] => destruct (start_all_run d f (queue_turns cis) 0 w) as (tr & c & X & A & F) end;
    exists tr, c; split; [done|]; split; [done|]; intros Hr; by destruct (F Hr) as (? & ? & ?).
Qed.

(** ** Devices *)

Definition planned (w : world) (s pd : Z) (es : list string) (p : plan) : Prop :=
  pl_anb p = bool_decide (ANB_EXT ∈ es) /\ pl_ahb p = bool_decide (AHB_EXT ∈ es) /\
  pl_api p = api_min (is_api (inst_at w s)) (pp_api (sy_props Y pd)) /\
  Forall (fun x => device_ext_hidden hid x = false) (pl_names p) /\
  (forall x, x ∈ es -> plain x -> x ∈ pl_names p) /\ (pl_anb p = true -> "VK_KHR_external_fence_fd"%string ∈ pl_names p).

Lemma plan_device_run s pd es cis w :
  let r := (plan_device hid known Y s pd es cis w).1 in
  let w' := (plan_device hid known Y s pd es cis w).2 in
  w_tr w' = w_tr w /\ w_children w' = w_children w /\
  match r with
  | inl e => e <> VK_SUCCESS /\ kept w' = kept w
  | inr p => kept w' = kept (set_tmp (w_tmp w + 1) w) /\ planned w s pd es p
  end.
Proof.
  unfold plan_device, malloc, free_tmp. hrun.
  destruct (proj1_sig (sy_dev_exts Y (w_tick w) pd)) as [e|[icd room]] eqn:Ea.
  { hrun. split; [done|]. split; [done|]. split; [|done]. destruct (proj2_sig (sy_dev_exts Y (w_tick w) pd)) as (D & fuel & E).
    rewrite Ea in E. by apply enum_loop_error in E. }
  hrun. match goal with |- context [sy_alloc Y ?t] => destruct (sy_alloc Y t) end; hrun; cbn [negb].
  2:{ hrun. split; [done|]. split; [done|]. split; [done|]. kept_eq. }
  match goal with |- context [device_names hid known icd ?lg ?av es] => destruct (device_names hid known icd lg av es) as [rq|] eqn:En end.
  2:{ hrun. split; [done|]. split; [done|]. split; [done|]. kept_eq. }
  hrun. match goal with |- context [sy_astc_ci Y ?t] => destruct (sy_astc_ci Y t) as [[r astc] maint2] end. cbv iota beta.
  destruct (Z.eqb_spec r VK_SUCCESS) as [->|Er]; cbn [negb].
  2:{ hrun. split; [done|]. split; [done|]. split; [done|]. kept_eq. }
  hrun. destruct (names_run hid known _ _ _ _ maint2 _ En) as (A & B & N & O & F & Ha & Hh). cbv zeta in *.
  set (rq' := maint2_names hid icd maint2 rq) in *.
  destruct (rq_ok rq') eqn:Ok; cbn [negb].
  2:{ hrun. split; [done|]. split; [done|]. split; [done|]. kept_eq. }
  destruct (_ && List.existsb _ cis).
  { hrun. split; [done|]. split; [done|]. split; [done|]. kept_eq. }
  hrun. split; [done|]. split; [done|]. split; [kept_eq|]. cbn.
  symmetry in O. apply andb_true_iff in O as [O1 _]. apply forallb_hidden in O1. rewrite Forall_forall in O1.
  split; [done|]. split; [done|]. split; [done|]. split; [|split].
  - apply Forall_forall. intros x Hx. cbn [pl_names] in Hx. rewrite N, elem_add_names, elem_of_app, elem_of_nil in Hx.
    destruct Hx as [?|[Hx|Hx]]; [done| |].
    + destruct (requestable_plain hid known _ _ _ F Hx) as [X _]. unfold device_ext_exposed in X.
      by apply andb_true_iff in X as [?%negb_true_iff _].
    + by apply list_elem_of_filter in Hx as [? _].
  - intros x Hx Px. cbn [pl_names]. rewrite N, elem_add_names, elem_of_app, list_elem_of_filter. tauto.
  - intros Hanb. cbn [pl_names pl_anb] in *. rewrite N, elem_add_names, elem_of_app, !list_elem_of_filter. right; right.
    assert (Hin : "VK_KHR_external_fence_fd"%string ∈ prereqs (bool_decide (ANB_EXT ∈ es)) (bool_decide (AHB_EXT ∈ es))
      (api_min (is_api (inst_at w s)) (pp_api (sy_props Y pd)) <? VK_API_VERSION_1_1) (maint2 && nvhal_ext_in icd MAINT2_EXT)).
    { unfold prereqs. rewrite <- A, Hanb, !elem_of_app. left; left. apply (bool_decide_unpack _). by vm_compute. }
    split; [|exact Hin]. by apply O1.
Qed.

(** What a new device is, and that every queue it was created with is started
    when the device may exchange fences with the rest of the system. *)
Definition fresh_device (w w' : world) (s pd dev : Z) (p : plan) (cis : list queue_ci) : Prop :=
  dev <> 0 /\ (dev ∉ w_vkdev w) /\ w_vkdev w' = {[dev]} ∪ w_vkdev w /\ w_vkinst w' = w_vkinst w /\
  w_instances w' = w_instances w /\ w_physdevs w' = w_physdevs w /\ w_queues w' = w_queues w /\ w_children w' = w_children w /\
  (exists d gt, (d ∉ dom (w_heap w)) /\ d <> 0 /\ w_heap w' = <[d := BDev (make_hdev Y w s pd dev p gt)]> (w_heap w) /\
    LinearMap.nvhal_map_get (w_devices w') dev = d) /\
  device_incomplete Y (inst_at w s) dev (pl_legacy p) (pl_anb p) (pl_ahb p) = false /\
  (source_rm = false ->
   "VK_KHR_external_semaphore_fd"%string ∈ pl_names p \/ "VK_KHR_external_fence_fd"%string ∈ pl_names p ->
   Forall (fun qk => turn_queue dev qk <> 0 /\ started (w_tr w') (turn_queue dev qk)) (queue_turns cis)).

Lemma finish_device_run w0 w s pd dev p i d gt missing astc_r start_r :
  hal_inv w0 -> w_heap w0 !! s = Some (BInst i) -> dev ∉ w_vkdev w0 -> dev <> 0 -> d ∉ dom (w_heap w0) -> d <> 0 ->
  kept w = kept (set_heap (<[d := BDev (make_hdev Y w0 s pd dev p gt)]> (w_heap w0)) (set_vkdev ({[dev]} ∪ w_vkdev w0) w0)) ->
  let r := (finish_device Y dev d missing astc_r start_r w).1 in
  let w' := (finish_device Y dev d missing astc_r start_r w).2 in
  w_children w' = w_children w /\ (exists tr, w_tr w' = w_tr w ++ tr) /\
  (r <> VK_SUCCESS -> kept w' = kept w0) /\
  (r = VK_SUCCESS -> missing = false /\ astc_r = VK_SUCCESS /\ start_r = VK_SUCCESS /\ kept (set_devices (w_devices w0) w') = kept w /\
     LinearMap.nvhal_map_get (w_devices w') dev = d /\ hal_inv w').
Proof.
  intros I Hi Hh Hz Hd Hdz K. unfold finish_device.
  assert (K2 := K). unfold kept in K2. cbn in K2. injection K2 as E1 E2 E3 E4 E5 E6 E7 E8 E9 E10 E11 E12 E13 E14.
  assert (Undo : forall v x, x <> VK_SUCCESS -> kept v = kept w -> w_children v = w_children w -> w_tr v = w_tr w ->
    let r := (_ ← emit (CTeardown "astc" dev); _ ← emit (CTeardown "gt" dev); _ ← destroy_vkdev Y dev; _ ← free d; mret x : M world Z) v in
    w_children r.2 = w_children w /\ (exists tr, w_tr r.2 = w_tr w ++ tr) /\ (r.1 <> VK_SUCCESS -> kept r.2 = kept w0) /\ r.1 = x).
  { intros v x Hx Kv Cv Tv. unfold emit, free. hrun. rewrite destroy_vkdev_run. hrun. cbn. rewrite Cv, Tv. split; [done|].
    split; [by eexists; rewrite <- !app_assoc|]. split; [|done]. intros _. rewrite K in Kv. unfold kept in Kv. cbn in Kv.
    injection Kv as F1 F2 F3 F4 F5 F6 F7 F8 F9 F10 F11 F12 F13 F14. unfold kept. cbn.
    rewrite F5, F7, drop_new, delete_insert_id by (done || by apply not_elem_of_dom). congruence. }
  rewrite bind_run.
  destruct (negb missing && (astc_r =? VK_SUCCESS) && (start_r =? VK_SUCCESS)) eqn:Ok.
  - apply andb_true_iff in Ok as [[->%negb_true_iff ->%Z.eqb_eq]%andb_true_iff ->%Z.eqb_eq].
    destruct I as [(gi & gp & gd & gq & R1 & R2 & R3 & R4 & T) O].
    destruct (put_run w_devices set_devices dev d w gd) as (b & m & Ep & Rm & Em); [done|by rewrite E3|]. rewrite Ep. cbn [fst snd].
    destruct b; cbn [negb].
    + hrun. split; [done|]. split; [exists []; cbn; by rewrite app_nil_r|]. split; [done|]. intros _. split; [done|]. split; [done|]. split; [done|].
      split; [unfold kept; cbn; by rewrite E3|]. split; [cbn [w_devices set_devices]; by rewrite (tab_get_rep _ _ _ Rm), lookup_insert_eq|].
      split.
      * exists gi, gp, (<[dev:=d]> gd), gq. cbn. rewrite E1, E2, E4, E5, E6, E7. split_and!; try done.
        by apply (tables_add_dev _ _ _ _ _ _ _ T d (make_hdev Y w0 s pd dev p gt) i).
      * cbn. by rewrite E8, E9, E10, E11, E12.
    + destruct (Undo (set_devices m (set_tick (w_tick w + 1) w)) VK_ERROR_OUT_OF_HOST_MEMORY) as (U1 & U2 & U3 & U4); [done| |done|done|].
      { rewrite (Em eq_refl). done. }
      split; [done|]. split; [done|]. split; [done|]. cbn -[Z.eqb] in U4. done.
  - hrun. cbn [negb]. set (x := if missing then _ else _).
    assert (Hx : x <> VK_SUCCESS).
    { subst x. destruct missing; [done|]. destruct (Z.eqb_spec astc_r VK_SUCCESS); cbn [negb]; [|done].
      destruct (Z.eqb_spec start_r VK_SUCCESS); cbn [negb]; done. }
    destruct (Undo w x Hx eq_refl eq_refl eq_refl) as (U1 & U2 & U3 & U4).
    split; [done|]. split; [done|]. split; [done|]. intros E. by rewrite E in U4.
Qed.

Lemma setup_device_run w0 w s pd dev p cis i :
  hal_inv w0 -> w_heap w0 !! s = Some (BInst i) -> dev ∉ w_vkdev w0 -> dev <> 0 ->
  kept w = kept (set_vkdev ({[dev]} ∪ w_vkdev w0) w0) -> w_children w = w_children w0 ->
  let r := (setup_device Y source_rm s pd dev p cis w).1 in
  let w' := (setup_device Y source_rm s pd dev p cis w).2 in
  (exists tr, w_tr w' = w_tr w ++ tr) /\
  (r <> VK_SUCCESS -> kept w' = kept w0 /\ exists c, at_most_one dev c /\ w_children w' = c ∪ w_children w0) /\
  (r = VK_SUCCESS -> fresh_device w0 w' s pd dev p cis /\ hal_inv w').
Proof.
  intros I Hi Hh Hz K Hc. unfold setup_device. hrun.
  assert (K2 := K). unfold kept in K2. cbn in K2. injection K2 as E1 E2 E3 E4 E5 E6 E7 E8 E9 E10 E11 E12 E13 E14.
  assert (Ei : inst_at w s = inst_at w0 s) by (unfold inst_at; by rewrite E5).
  assert (Ev : forall v gt, w_heap v !! s = w_heap w0 !! s -> make_hdev Y v s pd dev p gt = make_hdev Y w0 s pd dev p gt).
  { intros v gt Ev. unfold make_hdev, inst_at. by rewrite Ev. }
  assert (Em : forall gt, make_hdev Y w s pd dev p gt = make_hdev Y w0 s pd dev p gt) by (intros gt; apply Ev; by rewrite E5).
  destruct (calloc_run (BDev (make_hdev Y w s pd dev p false)) w) as [[-> ->]|(Hs & Hd & Ew)].
  { cbn [Z.eqb]. rewrite bind_run, destroy_vkdev_run. hrun. split; [by eexists|]. split; [|done]. intros _. split.
    - unfold kept. cbn. rewrite E7, drop_new by done. congruence.
    - exists ∅. split; [by left|]. cbn. by rewrite Hc, (left_id_L ∅ (∪)). }
  set (d := (calloc Y (BDev (make_hdev Y w s pd dev p false)) w).1) in *. rewrite Ew. rewrite (proj2 (Z.eqb_neq d 0)) by done. rewrite Ei.
  set (missing := device_incomplete Y (inst_at w0 s) dev (pl_legacy p) (pl_anb p) (pl_ahb p)). hrun.
  match goal with |- context [if negb missing && pl_astc p then ?x else _] => set (astc_r := if negb missing && pl_astc p then x else VK_SUCCESS) end.
  rewrite E5 in Hd. rewrite E5, Em.
  match goal with |- context [sy_gt Y ?t] => set (gt := sy_gt Y t) end.
  destruct (negb missing && (astc_r =? VK_SUCCESS)) eqn:Ok; hrun.
  - match goal with |- context [start_queue_timelines Y source_rm dev cis ?a ?b ?v] =>
      set (sem := a); set (fen := b); set (v1 := v); destruct (start_timelines_run dev cis sem fen v1) as (tr & c & (X1 & X2 & X3) & A & F) end.
    destruct (start_queue_timelines Y source_rm dev cis sem fen v1) as [[start_r n] w2]. cbn [fst snd] in *.
    assert (K3 : kept w2 = kept (set_heap (<[d:=BDev (make_hdev Y w0 s pd dev p gt)]> (w_heap w0)) (set_vkdev ({[dev]} ∪ w_vkdev w0) w0))).
    { rewrite X1. unfold v1, kept. cbn. rewrite insert_insert_eq, Ev; [congruence|]. cbn. apply lookup_insert_ne. intros ->. apply Hd. by apply elem_of_dom. }
    destruct (finish_device_run w0 w2 s pd dev p i d gt missing astc_r start_r I Hi Hh Hz Hd Hs K3) as (G1 & (tr2 & G2) & G3 & G4).
    split; [rewrite G2, X2; unfold v1; cbn; eexists; by rewrite <- app_assoc|]. split.
    + intros Hr. split; [by apply G3|]. exists c. split; [done|]. rewrite G1, X3. unfold v1. cbn. by rewrite Hc.
    + intros Hr. destruct (G4 Hr) as (M1 & M2 & M3 & M4 & M5 & M6). split; [|done].
      unfold kept in M4, K3. cbn in M4, K3. injection K3 as K31 K32 K33 K34 K35 K36 K37 K38 K39 K310 K311 K312 K313 K314.
      injection M4 as N1 N2 N3 N4 N5 N6 N7 N8 N9 N10 N11 N12 N13 N14.
      destruct (F M3) as [-> Fq]. unfold fresh_device. split_and!; try done; try congruence.
      * rewrite G1, X3. unfold v1. cbn. rewrite Hc. by rewrite (left_id_L ∅ (∪)).
      * exists d, gt. split_and!; try done. congruence.
      * intros Hrm Hx. destruct Fq as [_ Fq]; [done| |].
        { apply orb_true_iff. destruct Hx; [left|right]; by apply bool_decide_eq_true. }
        eapply Forall_impl; [exact Fq|]. intros qk [? ?]. split; [done|]. rewrite G2, X2. by apply started_app, started_app_r.
  - match goal with |- context [finish_device Y dev d missing astc_r VK_SUCCESS ?v] => set (v1 := v) end.
    assert (K3 : kept v1 = kept (set_heap (<[d:=BDev (make_hdev Y w0 s pd dev p false)]> (w_heap w0)) (set_vkdev ({[dev]} ∪ w_vkdev w0) w0))).
    { unfold v1, kept. cbn. congruence. }
    destruct (finish_device_run w0 v1 s pd dev p i d false missing astc_r VK_SUCCESS I Hi Hh Hz Hd Hs K3) as (G1 & (tr2 & G2) & G3 & G4).
    split; [by exists tr2|]. split.
    + intros Hr. split; [by apply G3|]. exists ∅. split; [by left|]. rewrite G1. unfold v1. cbn. by rewrite Hc, (left_id_L ∅ (∪)).
    + intros Hr. destruct (G4 Hr) as (M1 & M2 & _). rewrite M1, M2 in Ok. done.
Qed.


Lemma planned_same w w' s pd es p : w_heap w' = w_heap w -> planned w s pd es p -> planned w' s pd es p.
Proof. intros E H. unfold planned, inst_at in *. by rewrite E. Qed.

(** The fences and semaphores of the driver a failed creation leaves: none, or
    the one of a device that is gone. *)
Definition orphans (w w' : world) : Prop :=
  w_children w' = w_children w \/
  exists dev obj, (dev ∉ w_vkdev w') /\ w_children w' = {[(dev, obj)]} ∪ w_children w.

Lemma create_device_run pd es cis w :
  hal_inv w ->
  let r := (nvhal_CreateDevice hid known Y source_rm pd es cis w).1 in
  let w' := (nvhal_CreateDevice hid known Y source_rm pd es cis w).2 in
  (r.1 <> VK_SUCCESS -> r.2 = 0 /\ kept w' = kept w /\ orphans w w') /\
  (r.1 = VK_SUCCESS -> exists s p, LinearMap.nvhal_map_get (w_physdevs w) pd = s /\ s <> 0 /\ planned w s pd es p /\
     CCreateDevice pd (pl_names p) ∈ w_tr w' /\ fresh_device w w' s pd r.2 p cis /\ hal_inv w').
Proof.
  intros I. unfold nvhal_CreateDevice, nvhal_physdev_instance. hrun.
  assert (Same : forall v, w_children v = w_children w -> orphans w v) by (intros v Hv; by left).
  set (s := LinearMap.nvhal_map_get (w_physdevs w) pd).
  destruct (Z.eqb_spec s 0) as [Es|Es]; [hrun; split; [intros _; split; [done|]; split; [done|by apply Same]|done]|].
  destruct (pd_lookup w pd I) as [?|(i & Hi)]; [done|]. fold s in Hi. rewrite bind_run.
  destruct (plan_device_run s pd es cis w) as (T1 & C1 & P).
  destruct (plan_device hid known Y s pd es cis w) as [[e|p] w1]; cbn [fst snd] in *.
  { destruct P as [Pe Pk]. hrun. split; [intros _; split; [done|]; split; [done|by apply Same]|done]. }
  destruct P as [Pk Pp]. unfold emit, free_tmp. hrun.
  assert (K2 := Pk). unfold kept in K2. cbn in K2. injection K2 as E1 E2 E3 E4 E5 E6 E7 E8 E9 E10 E11 E12 E13 E14.
  match goal with |- context [sy_create_device Y ?t ?a ?b =? VK_SUCCESS] => destruct (Z.eqb_spec (sy_create_device Y t a b) VK_SUCCESS) as [Er|Er] end; cbn [negb].
  2:{ hrun. split; [|done]. intros _. split; [done|]. split; [|by apply Same]. unfold kept. cbn.
      rewrite E1, E2, E3, E4, E5, E6, E7, E8, E9, E10, E11, E12, E13, E14. repeat f_equal; lia. }
  hrun. match goal with |- context [sy_pick Y ?t ?X] => set (dev := sy_pick Y t X); destruct (picks t X) as [P1 P2]; fold dev in P1, P2 end.
  cbn [w_vkdev set_tmp set_tr set_tick] in P1. rewrite E7 in P1.
  match goal with |- context [setup_device Y source_rm s pd dev p cis (nvhal_dispatch_check Y dev 0 ?W).2] =>
    set (w2 := W); destruct (check_run dev 0 w2) as [x Hx] end.
  rewrite Hx. cbn [fst snd]. set (w3 := set_words x w2).
  assert (K3 : kept w3 = kept (set_vkdev ({[dev]} ∪ w_vkdev w) w)).
  { unfold w3, w2. rewrite fresh_run. unfold kept. cbn. rewrite E1, E2, E3, E4, E5, E6, E7, E8, E9, E10, E11, E12, E13, E14.
    repeat f_equal; lia. }
  assert (C3 : w_children w3 = w_children w) by (unfold w3, w2; rewrite fresh_run; cbn; exact C1).
  destruct (setup_device_run w w3 s pd dev p cis i I Hi P1 P2 K3 C3) as (Tr & S1 & S2).
  split.
  - intros Hr. destruct (S1 Hr) as (A & c & B & C). split; [by rewrite (proj2 (Z.eqb_neq _ _) Hr)|]. split; [done|].
    destruct B as [-> | [obj ->]]; [left; by rewrite C, (left_id_L ∅ (∪))|right].
    exists dev, obj. split; [|done]. unfold kept in A. injection A as _ _ _ _ _ _ E _. by rewrite E.
  - intros Hr. destruct (S2 Hr) as (A & B). exists s, p. split; [done|]. split; [done|]. split; [done|].
    rewrite Hr. cbn [Z.eqb]. split; [|done].
    destruct Tr as [tr ->]. unfold w3, w2. rewrite fresh_run. cbn. set_solver.
Qed.

(** A device goes with its queues; the other parts' teardowns come first. *)
Definition torn_down (dev : Z) : list call :=
  (fun what => CTeardown what dev) <$> ["anb"; "ahb"; "astc"; "loader_pd"; "cmd"; "gt"]%string.
Lemma emits_run l dev w :
  foldM (fun _ what => emit (CTeardown what dev)) l tt w = (tt, set_tr (w_tr w ++ ((fun what => CTeardown what dev) <$> l)) w).
Proof.
  revert w. induction l as [|x l IH]; intros w; cbn [foldM]; unfold emit; hrun.
  - cbn. rewrite app_nil_r. by destruct w.
  - rewrite IH. cbn. by rewrite <- app_assoc.
Qed.
Lemma destroy_device_run dev w :
  hal_inv w ->
  let w' := (nvhal_DestroyDevice Y dev w).2 in
  hal_inv w' /\ (dev = 0 \/ dev ∉ w_vkdev w -> kept w' = kept w /\ w_tr w' = w_tr w) /\
  (dev <> 0 -> dev ∈ w_vkdev w -> exists d b, w_heap w !! d = Some (BDev b) /\ hd_handle b = dev /\
     w_heap w' = delete d (w_heap w) /\ w_vkdev w' = w_vkdev w ∖ {[dev]} /\ w_vkinst w' = w_vkinst w /\
     w_tr w' = w_tr w ++ torn_down dev ++ [CDestroyDevice dev] /\ LinearMap.nvhal_map_get (w_devices w') dev = 0 /\
     forall q, LinearMap.nvhal_map_get (w_queues w') q <> d).
Proof.
  intros I w'. subst w'. unfold nvhal_DestroyDevice. destruct (Z.eqb_spec dev VK_NULL_HANDLE) as [->|Hz].
  { cbn. split; [done|]. split; [done|]. done. }
  destruct I as [(gi & gp & gd & gq & R1 & R2 & R3 & R4 & T) O]. hrun.
  destruct (gd !! dev) as [d|] eqn:Hg.
  - destruct (LinearMap.lm_del_spec _ _ dev R3) as [D1 D2]. rewrite Hg in D1. cbn in D1. rewrite D1.
    pose proof Hg as (b & Hb & Eb)%(to_dev _ _ _ _ _ _ _ T).
    assert (Hs : d <> 0) by (intros ->; by rewrite (to_null _ _ _ _ _ _ _ T) in Hb).
    rewrite (proj2 (Z.eqb_neq d 0)) by done. hrun. rewrite emits_run. hrun. rewrite (proj2 (Z.eqb_neq _ _) (destroys_dev dev)), destroy_vkdev_run. unfold free. hrun.
    destruct (LinearMap.map_del_val_exact _ _ d R4) as [P1 P2].
    split; [|split].
    + split; [|done]. exists gi, gp, (delete dev gd), (filter (fun kv => kv.2 <> d) gq). cbn. split_and!; try done. by apply tables_del_dev.
    + intros [?|Hn]; [done|]. destruct Hn. rewrite <- (to_vkdev _ _ _ _ _ _ _ T). by apply elem_of_dom.
    + intros _ _. exists d, b. split_and!; try done.
      * cbn. by rewrite <- app_assoc.
      * cbn. rewrite (tab_get_rep _ _ _ D2), lookup_delete_eq. done.
      * intros q. change (LinearMap.nvhal_map_get (LinearMap.nvhal_map_del_val (w_queues w) d) q <> d). rewrite P2.
        destruct (filter _ gq !! q) as [v|] eqn:E; cbn; [|by intros <-]. by apply map_lookup_filter_Some in E as [_ ?].
  - rewrite (del_absent _ _ _ R3 Hg). cbn. split; [|split].
    + split; [|done]. by exists gi, gp, gd, gq.
    + intros _. by destruct w.
    + intros _ Hv. rewrite <- (to_vkdev _ _ _ _ _ _ _ T) in Hv. apply elem_of_dom in Hv. rewrite Hg in Hv. by destruct Hv.
Qed.

(** A queue handed out: known, with a word the loader accepts. *)
Lemma record_queue_run d q w b :
  hal_inv w -> w_heap w !! d = Some (BDev b) ->
  let w' := (record_queue Y d q w).2 in hal_inv w' /\
  (word_of Y w' q = HWVULKAN_DISPATCH_MAGIC \/ (hd_handle b <> 0 /\ word_of Y w' q = word_of Y w' (hd_handle b))).
Proof.
  intros I Hb. unfold record_queue. hrun. assert (E : dev_at w d = b) by (unfold dev_at; by rewrite Hb). rewrite E.
  pose proof (check_child q (hd_handle b) w) as W. destruct (check_run q (hd_handle b) w) as [x Hx]. rewrite Hx in *. cbn [fst snd] in *.
  destruct (put_queue_inv q d (set_words x w) b) as [I' _]; [by apply (kept_inv w)|done|].
  assert (Wo : forall k v s, word_of Y (put Y w_queues set_queues k v s).2 = word_of Y s) by done. rewrite !Wo. split; [|exact W].
  revert I'. unfold put. hrun. done.
Qed.
Lemma get_queue_inv dev family index w : hal_inv w -> hal_inv (nvhal_GetDeviceQueue Y dev family index w).2.
Proof.
  intros I. unfold nvhal_GetDeviceQueue, nvhal_device_get. hrun. destruct (dev_lookup w dev I) as [->|(b & Hb & _)]; [done|].
  destruct (_ =? 0); [done|]. rewrite bind_run. destruct (_ =? _); [done|]. by apply (record_queue_run _ _ _ b).
Qed.
Lemma get_queue2_inv dev family index flags w : hal_inv w -> hal_inv (nvhal_GetDeviceQueue2 Y dev family index flags w).2.
Proof.
  intros I. unfold nvhal_GetDeviceQueue2, nvhal_device_get. hrun. destruct (dev_lookup w dev I) as [->|(b & Hb & _)]; [done|].
  destruct (_ || _); [done|]. rewrite bind_run. destruct (_ =? _); [done|]. by apply (record_queue_run _ _ _ b).
Qed.
Lemma alloc_cmds_inv dev w : hal_inv w -> hal_inv (nvhal_AllocateCommandBuffers Y dev w).2.
Proof.
  intros I. unfold nvhal_AllocateCommandBuffers, nvhal_device_get. hrun. destruct (_ =? 0); [done|]. hrun.
  destruct (sy_cmds Y (w_tick w)) as [r cmds]. cbv iota beta. hrun. assert (I1 : hal_inv (set_tick (w_tick w + 1) w)) by exact I.
  destruct (_ =? _); [|done]. unfold emit. hrun. apply (kept_inv (set_tick (w_tick w + 1) w)); [|done].
  apply (foldM_inv _ (fun _ v => kept v = kept (set_tick (w_tick w + 1) w))); [done|]. intros b c v _ Kv. rewrite bind_run, fresh_run. cbn [fst snd].
  destruct (check_run c dev (set_words (<[c := sy_word Y (w_tick v)]> (w_words v)) (set_tick (w_tick v + 1) v))) as [x ->]. exact Kv.
Qed.

(** ** Sessions *)

(** What an application and the loader may do. *)
Inductive op :=
  | OOpen (id : option string) | OClose
  | OCreateInstance (layers : Z) (es : list string) (app_api : option Z)
  | ODestroyInstance (h : Z)
  | OEnumeratePhysicalDevices (h : Z) (wanted : bool)
  | OEnumerateGroups (h : Z) (wanted khr : bool)
  | OCreateDevice (pd : Z) (es : list string) (cis : list queue_ci)
  | ODestroyDevice (dev : Z)
  | OGetQueue (dev family index : Z) | OGetQueue2 (dev family index flags : Z)
  | OAllocateCommandBuffers (dev : Z)
  | OTag (obj v : Z).
Definition run_op (o : op) : M world () :=
  match o with
  | OOpen id => _ ← hal_open Y id; mret tt
  | OClose => _ ← hal_close; mret tt
  | OCreateInstance l es a => _ ← hal_CreateInstance Y l es a; mret tt
  | ODestroyInstance h => hal_DestroyInstance Y h
  | OEnumeratePhysicalDevices h b => _ ← hal_EnumeratePhysicalDevices Y h b; mret tt
  | OEnumerateGroups h b khr => _ ← enumerate_groups Y h b khr; mret tt
  | OCreateDevice pd es cis => _ ← nvhal_CreateDevice hid known Y source_rm pd es cis; mret tt
  | ODestroyDevice dev => nvhal_DestroyDevice Y dev
  | OGetQueue dev f i => _ ← nvhal_GetDeviceQueue Y dev f i; mret tt
  | OGetQueue2 dev f i fl => _ ← nvhal_GetDeviceQueue2 Y dev f i fl; mret tt
  | OAllocateCommandBuffers dev => _ ← nvhal_AllocateCommandBuffers Y dev; mret tt
  | OTag obj v => loader_tags obj v
  end.

(** Vulkan's rules: an instance is destroyed after its devices, and a command
    is called through the pointer a query returned. *)
Definition allowed (h : headers) (o : op) (w : world) : Prop :=
  match o with
  | ODestroyInstance h => no_devices_of w h
  | OEnumerateGroups i _ khr =>
      let name := if khr then "vkEnumeratePhysicalDeviceGroupsKHR"%string else "vkEnumeratePhysicalDeviceGroups"%string in
      hal_GetInstanceProcAddr h true (w_ahb w) (sy_gipa Y) i (Some name) <> Null
  | _ => True
  end.
Inductive reach (h : headers) : world -> Prop :=
  | reach_init : reach h w_init
  | reach_op o w : reach h w -> allowed h o w -> reach h (run_op o w).2.

Lemma init_inv : hal_inv w_init.
Proof.
  split; [|done]. exists ∅, ∅, ∅, ∅. assert (R : LinearMap.rep (LinearMap.mk_map [] 0) ∅) by apply LinearMap.rep_empty.
  split; [done|]. split; [done|]. split; [done|]. split; [done|]. apply tables_init.
Qed.

(** The pointer a query returned for one of the group commands is not null
    behind: the driver has it. *)
Lemma groups_available h i (khr : bool) ahb :
  let name := (if khr then "vkEnumeratePhysicalDeviceGroupsKHR"%string else "vkEnumeratePhysicalDeviceGroups"%string) in
  hal_GetInstanceProcAddr h true ahb (sy_gipa Y) i (Some name) <> Null -> sy_gipa Y i name <> 0.
Proof.
  intros name H E. apply H. clear H. unfold hal_GetInstanceProcAddr.
  assert (Hf : find_intercept h name = Some (mk_ic name (if khr then "hal_EnumeratePhysicalDeviceGroupsKHR" else "hal_EnumeratePhysicalDeviceGroups") IC_ANY (Some name))).
  { apply find_intercept_spec. split; [|done]. unfold all_intercepts. apply elem_of_app. left. subst name.
    destruct khr; apply (bool_decide_unpack _); vm_compute; done. }
  rewrite Hf. cbn [ic_kind_of ic_needs ic_fn]. rewrite E. subst name. destruct khr; cbn; by destruct (i =? 0).
Qed.

Lemma hal_run_op_inv h o w : hal_inv w -> allowed h o w -> hal_inv (run_op o w).2.
Proof.
  intros I V. destruct o; cbn [run_op]; rewrite ?bind_run; try (cbn [snd mret M_ret]).
  - by apply open_inv.
  - by apply close_inv.
  - pose proof (create_instance_run layers es app_api w I) as L. destruct (hal_CreateInstance Y layers es app_api w) as [[r h'] w']. cbn in *.
    destruct L as [L1 L2]. destruct (decide (r = VK_SUCCESS)) as [E|E]; [by destruct (L2 E) as (? & _ & ?)|]. destruct (L1 E) as [_ K]. by eapply kept_inv.
  - by apply destroy_instance_run.
  - by apply enumerate_pds_inv.
  - apply enumerate_groups_inv; [done|]. by eapply groups_available.
  - destruct (create_device_run pd es cis w I) as [L1 L2]. destruct (decide ((nvhal_CreateDevice hid known Y source_rm pd es cis w).1.1 = VK_SUCCESS)) as [E|E].
    + by destruct (L2 E) as (? & ? & _ & _ & _ & _ & _ & ?).
    + destruct (L1 E) as (_ & K & _). by eapply kept_inv.
  - by apply destroy_device_run.
  - by apply get_queue_inv.
  - by apply get_queue2_inv.
  - by apply alloc_cmds_inv.
  - exact I.
Qed.
Lemma hal_reach_inv h w : reach h w -> hal_inv w.
Proof. induction 1 as [|o w R IH V]; [apply init_inv|by eapply hal_run_op_inv]. Qed.

(** C6: in every state the HAL can be in, whatever the driver, the allocator
    and the application did within Vulkan's rules, its tables are exactly the
    live objects: a handle is known exactly when the driver object lives, the
    structure found for it is live and its own, every structure is found from
    its handle (so none leaks), and no physical device or queue leads to a
    structure that was freed; no array, descriptor or library reference is
    left over, and no null function pointer was called. *)
Theorem loader_tables_exact h w :
  reach h w ->
  (forall k, (LinearMap.nvhal_map_get (w_instances w) k <> 0 <-> k ∈ w_vkinst w) /\ (LinearMap.nvhal_map_get (w_devices w) k <> 0 <-> k ∈ w_vkdev w)) /\
  (forall k a, a <> 0 ->
    (LinearMap.nvhal_map_get (w_instances w) k = a -> exists i, w_heap w !! a = Some (BInst i) /\ is_handle i = k) /\
    (LinearMap.nvhal_map_get (w_physdevs w) k = a -> exists i, w_heap w !! a = Some (BInst i)) /\
    (LinearMap.nvhal_map_get (w_devices w) k = a -> exists d, w_heap w !! a = Some (BDev d) /\ hd_handle d = k) /\
    (LinearMap.nvhal_map_get (w_queues w) k = a -> exists d, w_heap w !! a = Some (BDev d))) /\
  (forall a b, w_heap w !! a = Some b ->
    match b with
    | BInst i => LinearMap.nvhal_map_get (w_instances w) (is_handle i) = a
    | BDev d => LinearMap.nvhal_map_get (w_devices w) (hd_handle d) = a /\ exists i, w_heap w !! hd_inst d = Some (BInst i)
    end) /\
  w_tmp w = 0 /\ w_fds w = ∅ /\ w_null w = false /\ w_dl w = if w_icd w then 1 else 0.
Proof.
  intros [(gi & gp & gd & gq & R1 & R2 & R3 & R4 & T) O]%hal_reach_inv.
  assert (G : forall (g : gmap Z Z) k a, a <> 0 -> default 0 (g !! k) = a -> g !! k = Some a).
  { intros g k a Ha. destruct (g !! k); cbn; [by intros ->|by intros <-]. }
  assert (N : forall a b, w_heap w !! a = Some b -> a <> 0) by (intros a b Hb ->; by rewrite (to_null _ _ _ _ _ _ _ T) in Hb).
  split; [|split; [|split]].
  - intros k. rewrite (tab_get_rep _ _ _ R1), (tab_get_rep _ _ _ R3), <- (to_vkinst _ _ _ _ _ _ _ T), <- (to_vkdev _ _ _ _ _ _ _ T), !elem_of_dom.
    split; split.
    + destruct (gi !! k); [by eexists|done].
    + intros [a Ha]. rewrite Ha. cbn. apply (to_inst _ _ _ _ _ _ _ T) in Ha as (i & Hi & _). by eapply N.
    + destruct (gd !! k); [by eexists|done].
    + intros [a Ha]. rewrite Ha. cbn. apply (to_dev _ _ _ _ _ _ _ T) in Ha as (i & Hi & _). by eapply N.
  - intros k a Ha. rewrite (tab_get_rep _ _ _ R1), (tab_get_rep _ _ _ R2), (tab_get_rep _ _ _ R3), (tab_get_rep _ _ _ R4).
    split; [|split; [|split]]; intros E%G; try done.
    + by apply (to_inst _ _ _ _ _ _ _ T).
    + by apply (to_pd _ _ _ _ _ _ _ T) in E.
    + by apply (to_dev _ _ _ _ _ _ _ T).
    + by apply (to_queue _ _ _ _ _ _ _ T) in E.
  - intros a [i|d] Hb.
    + by rewrite (tab_get_rep _ _ _ R1), (to_inst_block _ _ _ _ _ _ _ T _ _ Hb).
    + rewrite (tab_get_rep _ _ _ R3), (to_dev_block _ _ _ _ _ _ _ T _ _ Hb). split; [done|]. by eapply to_parent.
  - destruct O. done.
Qed.

(** C11: [vkCreateDevice] either makes a device or undoes what it did.  On any
    error the driver's device, if it was made, is destroyed again, the
    structure is freed, and tables, arrays and descriptors are as before; of
    the driver's fences and semaphores at most one is left, of the device that
    was destroyed ([start_failure_orphan] is such a run).  On success the
    device is in the table with the features the application named, the
    driver was given no hidden name and all the application's own, every entry
    point the device needs is there, no fence or semaphore is left, and unless
    the build is for the source-built driver or the device has neither of the
    sync-file extensions (the swapchain's extension brings one) every queue it
    was created with had an empty submission whose exported descriptor was
    waited for. *)
Theorem create_device_exact h w pd es cis :
  reach h w ->
  let '(r, dev) := (nvhal_CreateDevice hid known Y source_rm pd es cis w).1 in
  let w' := (nvhal_CreateDevice hid known Y source_rm pd es cis w).2 in
  (r <> VK_SUCCESS -> dev = 0 /\ kept w' = kept w /\ orphans w w') /\
  (r = VK_SUCCESS -> exists s p, LinearMap.nvhal_map_get (w_physdevs w) pd = s /\ s <> 0 /\ planned w s pd es p /\
     CCreateDevice pd (pl_names p) ∈ w_tr w' /\ fresh_device w w' s pd dev p cis /\
     (source_rm = false -> ANB_EXT ∈ es \/ "VK_KHR_external_semaphore_fd"%string ∈ pl_names p \/ "VK_KHR_external_fence_fd"%string ∈ pl_names p ->
      Forall (fun qk => turn_queue dev qk <> 0 /\ started (w_tr w') (turn_queue dev qk)) (queue_turns cis))).
Proof.
  intros I%hal_reach_inv. destruct (create_device_run pd es cis w I) as [L1 L2].
  destruct (nvhal_CreateDevice hid known Y source_rm pd es cis w) as [[r dev] w']. cbn [fst snd] in *. split.
  - intros Hr. by apply L1.
  - intros Hr. destruct (L2 Hr) as (s & p & A & B & P & C & F & _). exists s, p. split_and!; try done. intros Hrm Hx.
    destruct P as (P1 & _ & _ & _ & _ & P6). destruct F as (_ & _ & _ & _ & _ & _ & _ & _ & _ & _ & F).
    apply (F Hrm). destruct Hx as [Hanb|Hx]; [|done]. right. apply P6. rewrite P1. by apply bool_decide_eq_true.
Qed.

(** C13: on a driver with [vkDestroyInstance] and [vkDestroyDevice],
    [vkCreateInstance] either makes an instance or changes nothing, and
    [vkDestroyInstance] (of an instance whose devices are gone) and
    [vkDestroyDevice] undo exactly one creation: the driver's object is
    destroyed once, its structure freed, its entry removed, and no physical
    device or queue is left that leads to it; an unknown handle is refused.
    The order: an instance's driver object goes first, then the
    compressed-texture state of its physical devices; a device's other parts
    (native buffers, hardware buffers, compressed textures, physical-device
    loader data, command buffers, timing) are torn down first, then the
    driver's object goes. *)
Theorem instance_device_lifecycle h w :
  reach h w ->
  (forall layers es app_api,
    let '(r, i) := (hal_CreateInstance Y layers es app_api w).1 in
    let w' := (hal_CreateInstance Y layers es app_api w).2 in
    (r <> VK_SUCCESS -> i = 0 /\ kept w' = kept w) /\ (r = VK_SUCCESS -> exists api, fresh_instance w w' i api)) /\
  (forall i, no_devices_of w i -> i <> 0 ->
    let w' := (hal_DestroyInstance Y i w).2 in
    if decide (i ∈ w_vkinst w) then exists s b, w_heap w !! s = Some (BInst b) /\ is_handle b = i /\ w_heap w' = delete s (w_heap w) /\
      w_vkinst w' = w_vkinst w ∖ {[i]} /\ w_tr w' = w_tr w ++ [CDestroyInstance i; CTeardown "astc_instance" i] /\
      LinearMap.nvhal_map_get (w_instances w') i = 0 /\ forall pd, LinearMap.nvhal_map_get (w_physdevs w') pd <> s
    else kept w' = kept w) /\
  (forall dev, dev <> 0 ->
    let w' := (nvhal_DestroyDevice Y dev w).2 in
    if decide (dev ∈ w_vkdev w) then exists d b, w_heap w !! d = Some (BDev b) /\ hd_handle b = dev /\ w_heap w' = delete d (w_heap w) /\
      w_vkdev w' = w_vkdev w ∖ {[dev]} /\ w_tr w' = w_tr w ++ torn_down dev ++ [CDestroyDevice dev] /\
      LinearMap.nvhal_map_get (w_devices w') dev = 0 /\ forall q, LinearMap.nvhal_map_get (w_queues w') q <> d
    else kept w' = kept w /\ w_tr w' = w_tr w).
Proof.
  intros I%hal_reach_inv. split; [|split].
  - intros layers es app_api. pose proof (create_instance_run layers es app_api w I) as L.
    destruct (hal_CreateInstance Y layers es app_api w) as [[r i] w']. cbn [fst snd] in *. destruct L as [L1 L2]. split; [done|].
    intros Hr. destruct (L2 Hr) as (api & F & _). by exists api.
  - intros i V Hi w'. destruct (destroy_instance_run i w I V) as (_ & D1 & D2). case_decide; [|by apply D1; right].
    destruct (D2 Hi ltac:(done)) as (s & b & ? & ? & ? & ? & _ & ? & ? & ?). by exists s, b.
  - intros dev Hd w'. destruct (destroy_device_run dev w I) as (_ & D1 & D2). case_decide; [|by apply D1; right].
    destruct (D2 Hd ltac:(done)) as (d & b & ? & ? & ? & ? & _ & ? & ? & ?). by exists d, b.
Qed.

End Ops.

(** ** The presentation properties *)

Lemma split_at_type_spec ty chain pre post :
  split_at_type ty chain = Some (pre, post) ->
  exists b, chain = pre ++ b :: post /\ b.1 = ty /\ Forall (fun c => c.1 <> ty) pre.
Proof.
  revert pre. induction chain as [|b chain IH]; intros pre; cbn [split_at_type]; [done|].
  destruct (Z.eqb_spec b.1 ty) as [E|E].
  - intros [= <- <-]. by exists b.
  - destruct (split_at_type ty chain) as [[p q]|]; [|done]. intros [= <- <-]. destruct (IH p eq_refl) as (c & -> & ? & ?).
    exists c. split; [done|]. split; [done|by constructor].
Qed.
(** The caller's chain keeps its structures in their order, and the driver's
    fill-in does not see the first presentation structure. *)
Lemma props2_keeps_chain f chain :
  (forall c, (f c).*1 = c.*1) -> (props2 f chain).*1 = chain.*1 /\
  forall pre post, split_at_type STYPE_PRESENTATION chain = Some (pre, post) ->
    props2 f chain = take (length pre) (f (pre ++ post)) ++ (STYPE_PRESENTATION, 0) :: drop (length pre) (f (pre ++ post)).
Proof.
  intros Hf. unfold props2. destruct (split_at_type STYPE_PRESENTATION chain) as [[pre post]|] eqn:E; [|by split; [apply Hf|]].
  apply split_at_type_spec in E as (b & -> & Eb & _). split; [|by intros p q [= <- <-]].
  rewrite !fmap_app, !fmap_cons, fmap_nil, fmap_take, fmap_drop, Hf, fmap_app, Eb.
  rewrite take_app_length', drop_app_length' by (by rewrite length_fmap). done.
Qed.

(** ** Witnesses and examples *)

(** The least address above all live ones. *)
Definition demo_pick (t : nat) (X : gset Z) : Z := 1 + foldr Z.max 0 (elements X).
Lemma demo_pick_ok t X : (demo_pick t X ∉ X) /\ demo_pick t X <> 0.
Proof.
  assert (B : forall l, 0 <= foldr Z.max 0 l /\ forall x, x ∈ l -> x <= foldr Z.max 0 l).
  { induction l as [|y l [IH1 IH2]]; cbn [foldr]; [split; [lia|]; by intros x ?%elem_of_nil|]. split; [lia|].
    intros x [->|Hx]%elem_of_cons; [lia|]. specialize (IH2 x Hx). lia. }
  unfold demo_pick. destruct (B (elements X)) as [B1 B2]. split; [|lia]. intros H%elem_of_elements%B2. lia.
Qed.

Definition still (l : list ext) : enum_driver :=
  mk_ed (fun _ => (VK_SUCCESS, Z.of_nat (length l))) (fun _ => true) (fun _ n => (VK_SUCCESS, take (Z.to_nat n) l)).
Definition demo_inst_exts : list ext := (fun n => mk_ext n 1) <$> legacy_instance_exts.
Definition demo_inst_answer : inst_answer :=
  exist _ (inr (demo_inst_exts, demo_inst_exts)) (ex_intro _ (still demo_inst_exts) (ex_intro _ true (ex_intro _ 1%nat eq_refl))).
Definition demo_dev_exts : list ext := (fun n => mk_ext n 1) <$> anb_required_exts.
Definition demo_dev_answer : dev_answer :=
  exist _ (inr (demo_dev_exts, 9)) (ex_intro _ (still demo_dev_exts) (ex_intro _ 1%nat eq_refl)).
(** A driver that always succeeds, with one physical device; [pr]: what
    waiting for a descriptor answers. *)
Definition demo_sys (pr : Z) : sys :=
  mk_sys demo_pick (fun _ => true) (fun _ => Some (mk_lib true true 0 5)) (fun _ => true) (fun _ _ => 4096) (fun _ _ => 8192)
    (fun _ => demo_inst_answer) (fun _ _ => demo_dev_answer) (fun _ _ => 0) (fun _ _ _ => 0) (fun _ => HWVULKAN_DISPATCH_MAGIC) (fun _ => 7)
    (fun _ => (0, [500])) (fun _ => (0, [[500]])) (fun _ => mk_props 0x10de VK_API_VERSION_1_2 0 4) (fun dev fam idx _ => 1000 + 100 * fam + idx)
    (fun _ => (0, [2000])) (fun _ => 0) (fun _ => 0) (fun _ => (0, true)) (fun _ => (1%nat, pr)) (fun _ => (0, false, false)) (fun _ => 0) (fun _ => false).
Definition demo_queues : list queue_ci := [mk_qci 0 2 0 []].
Definition demo_ops : list op :=
  [OOpen (Some "vk0"%string); OCreateInstance 0 [] (Some VK_API_VERSION_1_2); OEnumeratePhysicalDevices 1 true;
   OCreateDevice 500 [ANB_EXT] demo_queues; OGetQueue 1 0 1].
Definition demo_none (_ : string) : bool := false.
Definition demo_all (_ : string) : bool := true.
Definition demo_run (pr : Z) (l : list op) : world := foldl (fun w o => (run_op demo_none demo_all (demo_sys pr) false o w).2) w_init l.
Lemma demo_reach pr l : Forall (fun o => match o with ODestroyInstance _ | OEnumerateGroups _ _ _ => False | _ => True end) l ->
  reach demo_none demo_all (demo_sys pr) false (mk_headers true true true) (demo_run pr l).
Proof.
  unfold demo_run. assert (R : reach demo_none demo_all (demo_sys pr) false (mk_headers true true true) w_init) by constructor.
  revert R. generalize w_init. induction l as [|o l IH]; intros w R F; cbn [foldl]; [done|].
  apply Forall_cons in F as [Fo F]. apply IH; [|done]. apply reach_op; [done|]. by destruct o.
Qed.
Lemma demo_destroys pr h : sy_gipa (demo_sys pr) h "vkDestroyInstance" <> 0 /\ sy_gdpa (demo_sys pr) h "vkDestroyDevice" <> 0.
Proof. done. Qed.

Lemma loader_tables_exact_witness :
  w_tmp (demo_run 1 demo_ops) = 0 /\ w_vkdev (demo_run 1 demo_ops) = {[1]} /\
  LinearMap.nvhal_map_get (w_queues (demo_run 1 demo_ops)) 1001 <> 0.
Proof.
  split; [|split; [by vm_compute|by vm_compute]].
  destruct (loader_tables_exact demo_none demo_all (demo_sys 1) false demo_pick_ok (fun h => proj1 (demo_destroys 1 h)) (fun h => proj2 (demo_destroys 1 h))
    (mk_headers true true true) (demo_run 1 demo_ops)) as (_ & _ & _ & H & _).
  - apply demo_reach. repeat constructor.
  - exact H.
Defined.

Lemma create_device_exact_witness :
  (nvhal_CreateDevice demo_none demo_all (demo_sys 1) false 500 [ANB_EXT] demo_queues (demo_run 1 (take 3 demo_ops))).1 = (VK_SUCCESS, 1) /\
  Forall (fun qk => started (w_tr (nvhal_CreateDevice demo_none demo_all (demo_sys 1) false 500 [ANB_EXT] demo_queues (demo_run 1 (take 3 demo_ops))).2)
    (turn_queue (demo_sys 1) 1 qk)) (queue_turns demo_queues).
Proof.
  assert (E : (nvhal_CreateDevice demo_none demo_all (demo_sys 1) false 500 [ANB_EXT] demo_queues (demo_run 1 (take 3 demo_ops))).1 = (VK_SUCCESS, 1))
    by (vm_compute; reflexivity).
  split; [exact E|].
  pose proof (create_device_exact demo_none demo_all (demo_sys 1) false demo_pick_ok (fun h => proj1 (demo_destroys 1 h)) (fun h => proj2 (demo_destroys 1 h))
    (mk_headers true true true) (demo_run 1 (take 3 demo_ops)) 500 [ANB_EXT] demo_queues) as H.
  rewrite E in H. destruct H as [_ H]; [apply demo_reach; repeat constructor|].
  destruct (H eq_refl) as (s & p & _ & _ & _ & _ & _ & F).
  eapply Forall_impl; [apply F; [reflexivity|left; apply list_elem_of_singleton; reflexivity]|]. intros qk [_ Hq]. exact Hq.
Defined.

Lemma instance_device_lifecycle_witness :
  LinearMap.nvhal_map_get (w_devices (nvhal_DestroyDevice (demo_sys 1) 1 (demo_run 1 demo_ops)).2) 1 = 0.
Proof.
  destruct (instance_device_lifecycle demo_none demo_all (demo_sys 1) false demo_pick_ok (fun h => proj1 (demo_destroys 1 h)) (fun h => proj2 (demo_destroys 1 h))
    (mk_headers true true true) (demo_run 1 demo_ops)) as (_ & _ & H).
  - apply demo_reach. repeat constructor.
  - specialize (H 1 ltac:(lia)). cbv zeta in H. rewrite decide_True in H by (apply (bool_decide_unpack _); vm_compute; exact I).
    destruct H as (d & b & _ & _ & _ & _ & _ & H & _). exact H.
Defined.

(** When waiting for the first descriptor fails, the device is destroyed with
    the fence still on it. *)
Lemma start_failure_orphan :
  let r := nvhal_CreateDevice demo_none demo_all (demo_sys 0) false 500 [ANB_EXT] demo_queues (demo_run 0 (take 3 demo_ops)) in
  r.1 = (VK_ERROR_INITIALIZATION_FAILED, 0) /\ w_vkdev r.2 = ∅ /\ w_children r.2 = {[(1, 1)]} /\ last (w_tr r.2) = Some (CDestroyDevice 1).
Proof. vm_compute. done. Qed.

End HalSession.
