(* ===== verification/RmBackend.v ===== *)
(** * The resource manager behind Mesa's NVK ([driver-source/native/mesa/nv_rm.h])

    [nvkmd_rm.c] implements Mesa's kernel-mode-driver interface on the calls of
    [nv_rm.h], whose other side is written in Rust.  This file holds that
    interface: the calls and their arguments, the state its comments speak of
    (allocations, GPU mappings, VA ranges whose release is deferred, channels,
    the batches a channel accepted, loss of the device) and what a call with a
    given answer does to it ([effect]).  The answers are a parameter, a
    function of the state with the history of all calls; [Contract] is what the
    header promises of them.

    Releases of VA ranges are deferred: at every call any accepted releases may
    be carried out, in any order ([pump]), each of them ending in the callback
    [rm_va_release] of [nvkmd_rm.c]; that is also what another thread's call
    would do.  The device may be lost at any call.

    The world [nworld] adds the state of [nvkmd_rm.c] itself: the heap of VA
    ranges (Mesa's [util_vma_heap], by its reserved ranges), the VA, memory and
    context objects by their addresses, and the number of [calloc] blocks. *)

From Stdlib Require Import ZArith Lia.
From stdpp Require Import base option sets strings gmap list.
From S2P Require Import Prelude.

Set Default Goal Selector "!".
#[local] Open Scope Z_scope.

Module RmBackend.

Definition VK_SUCCESS : Z := 0.
Definition VK_NOT_READY : Z := 1.
Definition VK_TIMEOUT : Z := 2.
Definition VK_ERROR_OUT_OF_HOST_MEMORY : Z := -1.
Definition VK_ERROR_OUT_OF_DEVICE_MEMORY : Z := -2.
Definition VK_ERROR_INITIALIZATION_FAILED : Z := -3.
Definition VK_ERROR_DEVICE_LOST : Z := -4.
Definition VK_ERROR_MEMORY_MAP_FAILED : Z := -5.
Definition VK_ERROR_FEATURE_NOT_PRESENT : Z := -8.
Definition VK_ERROR_INCOMPATIBLE_DRIVER : Z := -9.
Definition VK_ERROR_UNKNOWN : Z := -13.

Definition NV_RM_VA_START : Z := 2 ^ 34.
Definition NV_RM_VA_END : Z := 2 ^ 40.
Definition NV_RM_PLACEMENT_VRAM : Z := 0.
Definition NV_RM_PLACEMENT_GART : Z := 1.
Definition NV_RM_PLACEMENT_VRAM_COMPRESSIBLE : Z := 2.
Definition NV_RM_PLACEMENT_VRAM_POOL_BLOCK : Z := 3.
Definition NV_RM_EXEC_NO_PREFETCH : Z := 1.
Definition NV_RM_EXEC_INCOMPLETE : Z := 2.
Definition NV_RM_SYNC_TIMELINE : Z := 1.
Definition NV_RM_SYNC_SHAREABLE : Z := 2.
Definition NV_RM_SYNC_SHARED : Z := 4.

Record NvRmExec := mk_exec { ex_address : Z; ex_size_B : Z; ex_flags : Z }.
Record NvRmSyncPoint := mk_point { sp_sync : Z; sp_value : Z }.
#[export] Instance NvRmExec_eq_dec : EqDecision NvRmExec.
Proof. solve_decision. Defined.
#[export] Instance NvRmSyncPoint_eq_dec : EqDecision NvRmSyncPoint.
Proof. solve_decision. Defined.

Inductive call :=
  | CAlloc (size alignment placement kind : Z)
  | CImport (drm_fd fd : Z)
  | CFree (memory : Z)
  | CMap (memory : Z)
  | CUnmap (memory : Z)
  | CExport (memory drm_fd : Z)
  | CBind (memory offset size address kind : Z)
  | CUnbind (mapping : Z)
  | CVaFree (mappings : list Z) (address size : Z)
  | CContext (engines : Z) (share : option Z)
  | CContextDestroy (context : Z)
  | CSubmit (context : Z) (pushes : list NvRmExec) (waits signals : list NvRmSyncPoint)
  | CWait (context token timeout : Z)
  | CSync (operation : string) (args : list Z)
  | CSyncWait (points : list NvRmSyncPoint) (flags timeout : Z)
  | COther (operation : string) (args : list Z).

(** The status and what the call wrote through its pointers: an id, address,
    token or descriptor, and the size of an allocation. *)
Record answer := mk_ans { an_status : Z; an_id : Z; an_size : Z }.

(** A mapping: its id, its GPU address and size.  A group: the mappings of one
    VA range and the range. *)
Record group := mk_group { g_maps : list (Z * (Z * Z)); g_addr : Z; g_size : Z }.
Definition g_range (g : group) : Z * Z := (g_addr g, g_size g).

Record batch := mk_batch { bt_context : Z; bt_pushes : list NvRmExec; bt_waits : list NvRmSyncPoint; bt_signals : list NvRmSyncPoint }.

Record rm := mk_rm {
  b_mem : gmap Z Z;            (** allocation -> size *)
  b_cpu : gmap Z Z;            (** allocation -> client CPU references *)
  b_map : gmap Z (Z * Z);      (** live GPU mapping -> address, size *)
  b_pending : list group;      (** accepted VA frees not carried out yet *)
  b_ctx : gset Z;              (** channels *)
  b_batches : list batch;      (** accepted, in order *)
  b_lost : bool;
  b_hist : list (call * answer);
}.

Definition set_mem (s : rm) m := mk_rm m (b_cpu s) (b_map s) (b_pending s) (b_ctx s) (b_batches s) (b_lost s) (b_hist s).
Definition set_cpu (s : rm) m := mk_rm (b_mem s) m (b_map s) (b_pending s) (b_ctx s) (b_batches s) (b_lost s) (b_hist s).
Definition set_map (s : rm) m := mk_rm (b_mem s) (b_cpu s) m (b_pending s) (b_ctx s) (b_batches s) (b_lost s) (b_hist s).
Definition set_pending (s : rm) l := mk_rm (b_mem s) (b_cpu s) (b_map s) l (b_ctx s) (b_batches s) (b_lost s) (b_hist s).
Definition set_ctx (s : rm) x := mk_rm (b_mem s) (b_cpu s) (b_map s) (b_pending s) x (b_batches s) (b_lost s) (b_hist s).
Definition set_batches (s : rm) l := mk_rm (b_mem s) (b_cpu s) (b_map s) (b_pending s) (b_ctx s) l (b_lost s) (b_hist s).
Definition set_lost (s : rm) b := mk_rm (b_mem s) (b_cpu s) (b_map s) (b_pending s) (b_ctx s) (b_batches s) b (b_hist s).
Definition add_hist (s : rm) x := mk_rm (b_mem s) (b_cpu s) (b_map s) (b_pending s) (b_ctx s) (b_batches s) (b_lost s) (b_hist s ++ [x]).

Definition cpu_refs (s : rm) (m : Z) : Z := default 0 (b_cpu s !! m).

(** What a successful call does; the other calls change nothing here. *)
Definition effect (c : call) (a : answer) (s : rm) : rm :=
  if negb (an_status a =? VK_SUCCESS) then s
  else match c with
  | CAlloc _ _ _ _ | CImport _ _ => set_mem s (<[an_id a := an_size a]> (b_mem s))
  | CFree m => set_mem s (delete m (b_mem s))
  | CMap m => set_cpu s (<[m := cpu_refs s m + 1]> (b_cpu s))
  | CUnmap m => set_cpu s (<[m := cpu_refs s m - 1]> (b_cpu s))
  | CBind _ _ size address _ => set_map s (<[an_id a := (address, size)]> (b_map s))
  | CUnbind m => set_map s (delete m (b_map s))
  | CVaFree ids address size =>
      set_pending s (b_pending s ++ [mk_group (omap (fun i => (fun m => (i, m)) <$> b_map s !! i) ids) address size])
  | CContext _ _ => set_ctx s ({[an_id a]} ∪ b_ctx s)
  | CContextDestroy x => set_ctx s (b_ctx s ∖ {[x]})
  | CSubmit x p w g => set_batches s (b_batches s ++ [mk_batch x p w g])
  | _ => s
  end.

(** The other side of the interface, the allocator and Mesa's heap of ranges:
    its reserved ranges, and the answers of [util_vma_heap_alloc] (0: none) and
    [util_vma_heap_alloc_addr]. *)
Record backend := mk_backend {
  bk_answer : rm -> call -> answer;
  bk_reclaim : rm -> list (nat * bool);   (** which deferred releases run now, and whether their unmaps succeed *)
  bk_fault : rm -> bool;                  (** whether the device is lost now *)
  bk_calloc : rm -> string -> bool;
  bk_heap_alloc : list (Z * Z) -> Z -> Z -> Z;          (** reserved ranges, size, alignment *)
  bk_heap_addr : list (Z * Z) -> Z -> Z -> bool;
}.

(** Half-open address ranges. *)
Definition apart (x y : Z * Z) : Prop := x.1 + x.2 <= y.1 \/ y.1 + y.2 <= x.1.
Definition within (x y : Z * Z) : Prop := y.1 <= x.1 /\ x.1 + x.2 <= y.1 + y.2.
Definition va_space : Z * Z := (NV_RM_VA_START, NV_RM_VA_END - NV_RM_VA_START).

Class Contract (B : backend) : Prop := {
  alloc_fresh s c : an_status (bk_answer B s c) = VK_SUCCESS ->
    match c with CAlloc _ _ _ _ | CImport _ _ => b_mem s !! an_id (bk_answer B s c) = None | _ => True end;
  size_u64 s c : is_u64 (an_size (bk_answer B s c));
  bind_fresh s m o n a k : an_status (bk_answer B s (CBind m o n a k)) = VK_SUCCESS ->
    b_map s !! an_id (bk_answer B s (CBind m o n a k)) = None;
  context_fresh s e x : an_status (bk_answer B s (CContext e x)) = VK_SUCCESS ->
    an_id (bk_answer B s (CContext e x)) <> 0 /\ (an_id (bk_answer B s (CContext e x)) ∉ b_ctx s);
  heap_alloc_free R size align : 0 < size -> bk_heap_alloc B R size align <> 0 ->
    within (bk_heap_alloc B R size align, size) va_space /\ bk_heap_alloc B R size align mod align = 0 /\
    Forall (apart (bk_heap_alloc B R size align, size)) R;
  heap_addr_free R address size : 0 < size -> bk_heap_addr B R address size = true ->
    within (address, size) va_space /\ Forall (apart (address, size)) R;
}.

(** ** The objects of [nvkmd_rm.c] *)

(** [struct rm_binding]. *)
Record rm_binding := mk_binding { bd_offset : Z; bd_size : Z; bd_mapping : Z }.
#[export] Instance rm_binding_eq_dec : EqDecision rm_binding.
Proof. solve_decision. Defined.
Record nvkmd_rm_va := mk_va { va_addr : Z; va_size_B : Z; va_kind : Z; va_bindings : list rm_binding }.
(** [enum nvkmd_mem_flags]; the positions of the bits are Mesa's. *)
Record mem_flags := mk_mf { mf_local : bool; mf_gart : bool; mf_can_map : bool; mf_shared : bool; mf_coherent : bool; mf_pool_block : bool }.
Record nvkmd_rm_mem := mk_mem { mm_flags : mem_flags; mm_size_B : Z; mm_alloc : Z; mm_va : Z }.
Record nvkmd_rm_ctx := mk_ctx { cx_channel : Z; cx_pending : list NvRmExec; cx_waits : list NvRmSyncPoint; cx_last_token : Z }.

(** [nw_retained] and [nw_stranded] are bookkeeping of the model: ranges and
    allocations the C code gave up because a release failed.  [nw_vk]: the
    Vulkan device, if there is one, and whether Mesa knows that it is lost. *)
Record nworld := mk_nw {
  nw_rm : rm;
  nw_heap : list (Z * Z);
  nw_vas : gmap Z nvkmd_rm_va;
  nw_mems : gmap Z nvkmd_rm_mem;
  nw_ctxs : gmap Z nvkmd_rm_ctx;
  nw_next : Z;
  nw_blocks : Z;
  nw_retained : list group;
  nw_stranded : list Z;
  nw_vk : option bool;
}.

Definition on_rm (f : rm -> rm) : M nworld () :=
  modS (fun w => mk_nw (f (nw_rm w)) (nw_heap w) (nw_vas w) (nw_mems w) (nw_ctxs w) (nw_next w) (nw_blocks w) (nw_retained w) (nw_stranded w) (nw_vk w)).
Definition put_heap (l : list (Z * Z)) : M nworld () :=
  modS (fun w => mk_nw (nw_rm w) l (nw_vas w) (nw_mems w) (nw_ctxs w) (nw_next w) (nw_blocks w) (nw_retained w) (nw_stranded w) (nw_vk w)).
Definition put_vas (m : gmap Z nvkmd_rm_va) : M nworld () :=
  modS (fun w => mk_nw (nw_rm w) (nw_heap w) m (nw_mems w) (nw_ctxs w) (nw_next w) (nw_blocks w) (nw_retained w) (nw_stranded w) (nw_vk w)).
Definition put_mems (m : gmap Z nvkmd_rm_mem) : M nworld () :=
  modS (fun w => mk_nw (nw_rm w) (nw_heap w) (nw_vas w) m (nw_ctxs w) (nw_next w) (nw_blocks w) (nw_retained w) (nw_stranded w) (nw_vk w)).
Definition put_ctxs (m : gmap Z nvkmd_rm_ctx) : M nworld () :=
  modS (fun w => mk_nw (nw_rm w) (nw_heap w) (nw_vas w) (nw_mems w) m (nw_next w) (nw_blocks w) (nw_retained w) (nw_stranded w) (nw_vk w)).
Definition add_blocks (n : Z) : M nworld () :=
  modS (fun w => mk_nw (nw_rm w) (nw_heap w) (nw_vas w) (nw_mems w) (nw_ctxs w) (nw_next w) (nw_blocks w + n) (nw_retained w) (nw_stranded w) (nw_vk w)).
Definition new_address : M nworld Z :=
  fun w => (nw_next w, mk_nw (nw_rm w) (nw_heap w) (nw_vas w) (nw_mems w) (nw_ctxs w) (nw_next w + 1) (nw_blocks w) (nw_retained w) (nw_stranded w) (nw_vk w)).
Definition retain (g : group) : M nworld () :=
  modS (fun w => mk_nw (nw_rm w) (nw_heap w) (nw_vas w) (nw_mems w) (nw_ctxs w) (nw_next w) (nw_blocks w) (nw_retained w ++ [g]) (nw_stranded w) (nw_vk w)).
Definition strand (id : Z) : M nworld () :=
  modS (fun w => mk_nw (nw_rm w) (nw_heap w) (nw_vas w) (nw_mems w) (nw_ctxs w) (nw_next w) (nw_blocks w) (nw_retained w) (id :: nw_stranded w) (nw_vk w)).
Definition put_vk (v : option bool) : M nworld () :=
  modS (fun w => mk_nw (nw_rm w) (nw_heap w) (nw_vas w) (nw_mems w) (nw_ctxs w) (nw_next w) (nw_blocks w) (nw_retained w) (nw_stranded w) v).

Section Calls.
Context (B : backend).

(** [calloc]: the new object's address, 0 on failure. *)
Definition calloc (what : string) : M nworld Z :=
  w ← getS;
  if bk_calloc B (nw_rm w) what then _ ← add_blocks 1; new_address else mret 0.
Definition free_block : M nworld () := add_blocks (-1).

(** [util_vma_heap_alloc], [util_vma_heap_alloc_addr], [util_vma_heap_free]. *)
Definition util_vma_heap_alloc (size alignment : Z) : M nworld Z :=
  w ← getS;
  let a := bk_heap_alloc B (nw_heap w) size alignment in
  if a =? 0 then mret 0 else _ ← put_heap ((a, size) :: nw_heap w); mret a.
Definition util_vma_heap_alloc_addr (address size : Z) : M nworld bool :=
  w ← getS;
  if bk_heap_addr B (nw_heap w) address size then _ ← put_heap ((address, size) :: nw_heap w); mret true else mret false.
Definition util_vma_heap_free (address size : Z) : M nworld () :=
  w ← getS; put_heap (filter (fun r => r <> (address, size)) (nw_heap w)).

(** The callback of [nv_rm_va_free]. *)
Definition rm_va_release (address size : Z) : M nworld () := util_vma_heap_free address size.

Definition forget_maps (l : list (Z * (Z * Z))) (m : gmap Z (Z * Z)) : gmap Z (Z * Z) := foldr (fun x m => delete x.1 m) m l.

(** One deferred release: unmap, then call back; if an unmap fails the range
    stays reserved and the device is lost. *)
Definition reclaim (x : nat * bool) : M nworld () :=
  w ← getS;
  match b_pending (nw_rm w) !! x.1 with
  | None => mret tt
  | Some g =>
      _ ← on_rm (fun s => set_pending s (delete x.1 (b_pending s)));
      if x.2 then _ ← on_rm (fun s => set_map s (forget_maps (g_maps g) (b_map s))); rm_va_release (g_addr g) (g_size g)
      else _ ← on_rm (fun s => set_lost s true); retain g
  end.
Fixpoint reclaim_all (l : list (nat * bool)) : M nworld () :=
  match l with [] => mret tt | x :: l => _ ← reclaim x; reclaim_all l end.
Definition pump : M nworld () :=
  w ← getS;
  _ ← on_rm (fun s => set_lost s (b_lost s || bk_fault B s));
  reclaim_all (bk_reclaim B (nw_rm w)).

Definition nv_rm (c : call) : M nworld answer :=
  w ← getS;
  let a := bk_answer B (nw_rm w) c in
  _ ← on_rm (fun s => add_hist (effect c a s) (c, a));
  _ ← pump;
  mret a.

Definition nv_rm_is_lost : M nworld bool := w ← getS; mret (b_lost (nw_rm w)).
Definition nv_rm_mark_lost : M nworld () := on_rm (fun s => set_lost s true).

(** [rm_notify_lost]: the hook Mesa calls when it publishes a loss. *)
Definition rm_notify_lost : M nworld () := nv_rm_mark_lost.
(** [vk_device_set_lost] with the notification that the repository adds to it. *)
Definition vk_device_set_lost : M nworld Z :=
  w ← getS;
  if decide (nw_vk w = Some true) then mret VK_ERROR_DEVICE_LOST
  else _ ← put_vk (Some true); _ ← rm_notify_lost; mret VK_ERROR_DEVICE_LOST.

Definition rm_mem_lost : M nworld Z :=
  w ← getS;
  match nw_vk w with
  | Some _ => vk_device_set_lost
  | None => _ ← nv_rm_mark_lost; mret VK_ERROR_DEVICE_LOST
  end.

End Calls.

(** ** Address space

    [space h m os]: the reserved ranges [h] are those of the owners [os]; they
    lie apart from each other in NVK's part of the address space, and the live
    mappings [m] are exactly the owners', each inside its owner's range and
    apart from the owner's others. *)

Definition all_apart (l : list (Z * Z)) : Prop := ForallOrdPairs apart l.
Definition good_group (g : group) : Prop :=
  within (g_range g) va_space /\ 0 < g_size g /\ Forall (fun m => within m.2 (g_range g) /\ 0 < m.2.2) (g_maps g) /\
  all_apart ((g_maps g).*2).
Record space (h : list (Z * Z)) (m : gmap Z (Z * Z)) (os : list group) : Prop := {
  sp_heap : h ≡ₚ g_range <$> os;
  sp_apart : all_apart (g_range <$> os);
  sp_good : Forall good_group os;
  sp_maps : map_to_list m ≡ₚ os ≫= g_maps;
}.

Lemma apart_sym x y : apart x y -> apart y x.
Proof. unfold apart. lia. Qed.
Lemma apart_within x y z : apart x y -> within z x -> apart z y.
Proof. unfold apart, within. lia. Qed.

Lemma all_apart_cons x l : all_apart (x :: l) <-> Forall (apart x) l /\ all_apart l.
Proof.
  split; [intros H; by inversion H|]. intros [? ?]. by constructor.
Qed.
Lemma all_apart_perm l k : l ≡ₚ k -> all_apart l -> all_apart k.
Proof.
  induction 1 as [|x l k Hp IH|x y l|l k j _ IH1 _ IH2]; [done| | |auto].
  - rewrite !all_apart_cons. intros [Hx ?]. split; [by rewrite <- Hp|auto].
  - rewrite !all_apart_cons, !Forall_cons. intros ((? & ?) & ? & ?). split_and!; try done; by apply apart_sym.
Qed.
Lemma all_apart_app l k : all_apart (l ++ k) <-> all_apart l /\ all_apart k /\ Forall (fun x => Forall (apart x) k) l.
Proof.
  induction l as [|x l IH]; simpl; [by split; [intros ?; split_and!; [constructor| |]|intros (? & ? & ?)]|].
  rewrite !all_apart_cons, IH, Forall_cons, Forall_app. tauto.
Qed.

#[export] Instance space_perm h m : Proper (Permutation ==> iff) (space h m).
Proof.
  assert (forall os os', os ≡ₚ os' -> space h m os -> space h m os') as Hp.
  { intros os os' E [H1 H2 H3 H4]. split.
    - by rewrite <- E.
    - eapply all_apart_perm; [|exact H2]. by apply fmap_Permutation.
    - by rewrite <- E.
    - rewrite H4. by apply bind_Permutation. }
  intros os os' E. split; by apply Hp.
Qed.

Lemma space_keys h m os : space h m os -> NoDup (os ≫= g_maps).*1.
Proof. intros [_ _ _ H]. rewrite <- H. apply NoDup_fst_map_to_list. Qed.
Lemma space_lookup h m os id r : space h m os -> (id, r) ∈ os ≫= g_maps <-> m !! id = Some r.
Proof. intros [_ _ _ H]. by rewrite <- H, elem_of_map_to_list. Qed.

Lemma space_nil : space [] ∅ [].
Proof. split; constructor. Qed.

Lemma space_reserve h m os a s :
  space h m os -> within (a, s) va_space -> 0 < s -> Forall (apart (a, s)) h -> space ((a, s) :: h) m (mk_group [] a s :: os).
Proof.
  intros [H1 H2 H3 H4] Hr Hs Ha. split; simpl.
  - by rewrite H1.
  - rewrite all_apart_cons. split; [by rewrite <- H1|done].
  - constructor; [|done]. split_and!; try done; constructor.
  - done.
Qed.

Lemma forget_maps_other l m id : id ∉ l.*1 -> forget_maps l m !! id = m !! id.
Proof.
  induction l as [|x l IH]; [done|]. rewrite fmap_cons, not_elem_of_cons. intros [? ?]. simpl.
  rewrite lookup_delete_ne by done. auto.
Qed.
Lemma forget_maps_perm l k m : NoDup l.*1 -> map_to_list m ≡ₚ l ++ k -> map_to_list (forget_maps l m) ≡ₚ k.
Proof.
  revert k. induction l as [|[i r] l IH]; intros k Hnd H; [done|]. simpl in *. apply NoDup_cons in Hnd as [Hi Hnd].
  specialize (IH ((i, r) :: k) Hnd). rewrite H in IH. specialize (IH (Permutation_middle _ _ _)).
  assert (forget_maps l m !! i = Some r) as Hl by (apply elem_of_map_to_list; rewrite IH; set_solver).
  apply (Permutation_cons_inv (a := (i, r))). rewrite <- IH. rewrite <- map_to_list_insert by apply lookup_delete_eq.
  by rewrite insert_delete_id.
Qed.

Lemma filter_not_head (x : Z * Z) (l : list (Z * Z)) : x ∉ l -> filter (fun r => r <> x) l = l.
Proof. intros H. apply filter_keeps. apply Forall_forall. intros y Hy ->. done. Qed.

Lemma space_release h m g os :
  space h m (g :: os) -> space (filter (fun r => r <> g_range g) h) (forget_maps (g_maps g) m) os.
Proof.
  intros Hsp. pose proof (space_keys _ _ _ Hsp) as Hnd. destruct Hsp as [H1 H2 H3 H4]. simpl in *.
  apply all_apart_cons in H2 as [Ha H2]. apply Forall_cons in H3 as [Hg H3].
  split; try done.
  - rewrite H1. rewrite filter_cons_False by tauto. rewrite filter_not_head; [done|].
    intros Hin. rewrite Forall_forall in Ha. specialize (Ha _ Hin). destruct Hg as (_ & Hs & _).
    unfold apart, g_range in Ha. simpl in Ha. lia.
  - apply forget_maps_perm; [|done]. rewrite fmap_app in Hnd. by apply NoDup_app in Hnd as (? & _ & _).
Qed.

Lemma space_bind h m l a s os id r :
  space h m (mk_group l a s :: os) -> m !! id = None -> within r (a, s) -> 0 < r.2 -> Forall (apart r) l.*2 ->
  space h (<[id := r]> m) (mk_group (l ++ [(id, r)]) a s :: os).
Proof.
  intros [H1 H2 H3 H4] Hid Hw Hr Ha. split; try done.
  - apply Forall_cons in H3 as [(G1 & G2 & G3 & G4) H3]. constructor; [|done]. simpl in *. split_and!; try done; simpl.
    + apply Forall_app. split; [exact G3|]. by apply Forall_singleton.
    + rewrite fmap_app, all_apart_app. split_and!; [done|repeat constructor|].
      eapply Forall_impl; [exact Ha|]. intros y Hy. apply Forall_singleton. by apply apart_sym.
  - rewrite map_to_list_insert, H4 by done. simpl. rewrite <- !app_assoc. simpl. apply Permutation_middle.
Qed.

Lemma space_unbind h m l1 l2 a s os id r :
  space h m (mk_group (l1 ++ (id, r) :: l2) a s :: os) -> space h (delete id m) (mk_group (l1 ++ l2) a s :: os).
Proof.
  intros Hsp. pose proof (space_keys _ _ _ Hsp) as Hnd. destruct Hsp as [H1 H2 H3 H4]. split; try done.
  - apply Forall_cons in H3 as [(G1 & G2 & G3 & G4) H3]. constructor; [|done]. simpl in *. split_and!; try done; simpl.
    + rewrite Forall_app, Forall_cons in G3. apply Forall_app. tauto.
    + rewrite fmap_app, fmap_cons in *. eapply all_apart_perm in G4; [|symmetry; apply Permutation_middle].
      by apply all_apart_cons in G4 as [_ ?].
  - apply (forget_maps_perm [(id, r)]); [apply NoDup_singleton|]. rewrite H4. simpl. rewrite <- !app_assoc. symmetry. apply Permutation_middle.
Qed.

(** No two live mappings overlap. *)
Lemma space_no_alias h m os i j x y : space h m os -> m !! i = Some x -> m !! j = Some y -> i <> j -> apart x y.
Proof.
  intros Hsp Hi Hj Hne. pose proof (space_keys _ _ _ Hsp) as Hnd.
  apply (space_lookup _ _ _ _ _ Hsp) in Hi, Hj. destruct Hsp as [_ H2 H3 _].
  clear h m. revert Hi Hj Hnd. induction os as [|g os IH]; simpl; [set_solver|].
  simpl in H2. apply all_apart_cons in H2 as [Ha H2]. apply Forall_cons in H3 as [(G1 & G2 & G3 & G4) H3].
  rewrite fmap_app, NoDup_app, !elem_of_app. intros Hi Hj (Hnd1 & Hdis & Hnd2).
  assert (Hin : forall z k, (k, z) ∈ g_maps g -> within z (g_range g)).
  { intros z k Hz. rewrite Forall_forall in G3. by apply (G3 (k, z)). }
  assert (Hout : forall z k, (k, z) ∈ os ≫= g_maps -> apart (g_range g) z).
  { intros z k Hz. apply list_elem_of_bind in Hz as (g' & Hz & Hg'). rewrite Forall_forall in H3. destruct (H3 _ Hg') as (_ & _ & G3' & _).
    rewrite Forall_forall in G3'. destruct (G3' _ Hz) as [Hw _]. simpl in Hw. rewrite Forall_forall in Ha.
    apply apart_sym. eapply apart_within; [apply apart_sym, Ha|exact Hw]. by apply list_elem_of_fmap_2. }
  destruct Hi as [Hi|Hi], Hj as [Hj|Hj].
  - clear -G4 Hi Hj Hne Hnd1. induction (g_maps g) as [|[k z] l IH]; [set_solver|].
    rewrite fmap_cons in *. simpl in *. apply all_apart_cons in G4 as [Hz G4]. apply NoDup_cons in Hnd1 as [_ Hnd1]. rewrite Forall_forall in Hz.
    apply elem_of_cons in Hi as [Hi|Hi]; apply elem_of_cons in Hj as [Hj|Hj].
    + congruence.
    + injection Hi as -> ->. apply Hz. by apply (list_elem_of_fmap_2 snd _ (j, y)).
    + injection Hj as -> ->. apply apart_sym, Hz. by apply (list_elem_of_fmap_2 snd _ (i, x)).
    + auto.
  - eapply apart_within; [by eapply Hout|by eapply Hin].
  - apply apart_sym. eapply apart_within; [by eapply Hout|by eapply Hin].
  - auto.
Qed.

End RmBackend.
