(* ===== verification/RmVa.v ===== *)
(** * GPU address space and memory ([driver-source/native/mesa/nvkmd_rm.c])

    VA ranges ([rm_va_alloc], [rm_va_bind], [rm_va_unbind], [rm_va_free]) and
    memory objects ([rm_mem_alloc_kind], [rm_mem_tiled], [rm_mem_import],
    [rm_mem_free], CPU maps), on the interface of [RmBackend].  Mesa's
    [nvkmd_dev_alloc_va], [nvkmd_va_bind_mem] and [nvkmd_va_free] call the entry
    of the device's operation table, which is the function modelled here;
    [nvkmd_mem_init] fills the object's fields.

    The theorems: after any session the reserved ranges, the live GPU mappings
    and the allocations are exactly those of the live objects, of the releases
    still deferred, and of what a lost device could not give back; no two
    mappings overlap and no range is reserved again before it is unmapped; each
    memory object is bound whole at its own range; a failed allocation leaves
    nothing.  Guards compare before they add, so no sum of an offset and a size
    exceeds 2^41. *)

From Stdlib Require Import ZArith Lia.
From stdpp Require Import base option sets strings gmap list.
From S2P Require Import Prelude RmBackend.

Set Default Goal Selector "!".
#[local] Open Scope Z_scope.

Module RmVa.
Import RmBackend.

Definition rm_result (status : Z) : Z := status.
Definition unsupported : Z := VK_ERROR_FEATURE_NOT_PRESENT.
Definition util_is_power_of_two_or_zero64 (x : Z) : bool := Z.land x (u64 (x - 1)) =? 0.
Definition align64 (v a : Z) : Z := alloc_align v a.

Section Va.
Context (B : backend).

(** [fixed]: the address wanted, with [NVKMD_VA_ALLOC_FIXED]. *)
Definition fixed_valid (fixed size alignment : Z) : bool :=
  (NV_RM_VA_START <=? fixed) && (fixed <? NV_RM_VA_END) && (size <=? NV_RM_VA_END - fixed) && (Z.land fixed (alignment - 1) =? 0).
Definition take_address (fixed : option Z) (size alignment : Z) : M nworld Z :=
  match fixed with
  | Some f =>
      if fixed_valid f size alignment then ok ← util_vma_heap_alloc_addr B f size; mret (if ok : bool then f else 0) else mret 0
  | None => util_vma_heap_alloc B size alignment
  end.
Definition rm_va_alloc (sparse : bool) (fixed : option Z) (kind size alignment : Z) : M nworld (Z + Z) :=
  if sparse then mret (inl unsupported)
  else if (size =? 0) || (NV_RM_VA_END - NV_RM_VA_START - 4095 <? size) then mret (inl VK_ERROR_OUT_OF_DEVICE_MEMORY)
  else
  let size := align64 size 4096 in
  let alignment := Z.max alignment 4096 in
  if negb (util_is_power_of_two_or_zero64 alignment) then mret (inl unsupported)
  else
  va ← calloc B "va";
  if va =? 0 then mret (inl VK_ERROR_OUT_OF_HOST_MEMORY)
  else
  address ← take_address fixed size alignment;
  if address =? 0 then _ ← free_block; mret (inl VK_ERROR_OUT_OF_DEVICE_MEMORY)
  else
  w ← getS;
  _ ← put_vas (<[va := mk_va address size kind []]> (nw_vas w));
  mret (inr va).

Definition get_va (p : Z) : M nworld nvkmd_rm_va := w ← getS; mret (default (mk_va 0 0 0 []) (nw_vas w !! p)).
Definition put_bindings (p : Z) (l : list rm_binding) : M nworld () :=
  v ← get_va p; w ← getS; put_vas (<[p := mk_va (va_addr v) (va_size_B v) (va_kind v) l]> (nw_vas w)).

Definition bad_range (offset size limit : Z) : bool := (limit <? offset) || (limit - offset <? size).
Definition partly_covered (offset size : Z) (b : rm_binding) : bool :=
  (bd_offset b <? offset + size) && (offset <? bd_offset b + bd_size b) &&
  ((bd_offset b <? offset) || (offset + size <? bd_offset b + bd_size b)).
Definition covered (offset size : Z) (b : rm_binding) : bool :=
  (offset <=? bd_offset b) && (bd_offset b + bd_size b <=? offset + size).

(** The bindings in the list's order; each that is unmapped leaves the list. *)
Fixpoint unbind_each (p : Z) (offset size : Z) (kept l : list rm_binding) : M nworld Z :=
  match l with
  | [] => mret VK_SUCCESS
  | b :: l =>
      if covered offset size b then
        a ← nv_rm B (CUnbind (bd_mapping b));
        if negb (an_status a =? VK_SUCCESS) then mret (rm_result (an_status a))
        else _ ← put_bindings p (kept ++ l); _ ← free_block; unbind_each p offset size kept l
      else unbind_each p offset size (kept ++ [b]) l
  end.
Definition rm_va_unbind (p offset size : Z) : M nworld Z :=
  v ← get_va p;
  if (size =? 0) || bad_range offset size (va_size_B v) then mret unsupported
  else if existsb (partly_covered offset size) (va_bindings v) then mret unsupported
  else unbind_each p offset size [] (va_bindings v).

Definition rm_va_bind (p offset : Z) (mem : nvkmd_rm_mem) (memory_offset size : Z) : M nworld Z :=
  if bad_range memory_offset size (mm_size_B mem) then mret unsupported
  else
  r ← rm_va_unbind p offset size;
  if negb (r =? VK_SUCCESS) then mret r
  else
  b ← calloc B "binding";
  if b =? 0 then mret VK_ERROR_OUT_OF_HOST_MEMORY
  else
  v ← get_va p;
  a ← nv_rm B (CBind (mm_alloc mem) memory_offset size (va_addr v + offset) (va_kind v));
  if negb (an_status a =? VK_SUCCESS) then _ ← free_block; mret (rm_result (an_status a))
  else _ ← put_bindings p (va_bindings v ++ [mk_binding offset size (an_id a)]); mret VK_SUCCESS.

Definition va_maps (v : nvkmd_rm_va) : list (Z * (Z * Z)) :=
  (fun b => (bd_mapping b, (va_addr v + bd_offset b, bd_size b))) <$> va_bindings v.
Definition va_group (v : nvkmd_rm_va) : group := mk_group (va_maps v) (va_addr v) (va_size_B v).

(** The ids on the stack up to 16; a range whose release was refused, or could
    not be asked for, stays reserved and the device is lost. *)
Definition release_range (v : nvkmd_rm_va) : M nworld bool :=
  let n := length (va_bindings v) in
  ids ← (if (16 <? Z.of_nat n) then calloc B "va ids" else mret 1);
  if ids =? 0 then mret false
  else
  a ← nv_rm B (CVaFree (bd_mapping <$> va_bindings v) (va_addr v) (va_size_B v));
  _ ← (if (16 <? Z.of_nat n) then free_block else mret tt);
  mret (an_status a =? VK_SUCCESS).
Definition rm_va_free (p : Z) : M nworld () :=
  v ← get_va p;
  ok ← release_range v;
  _ ← (if ok : bool then mret tt else _ ← retain (va_group v); _ ← rm_mem_lost; mret tt);
  w ← getS;
  _ ← put_vas (delete p (nw_vas w));
  add_blocks (- (1 + Z.of_nat (length (va_bindings v)))).

(** ** Memory *)

Definition NVKMD_POOL_BLOCK_SIZE : Z := 2 * 2 ^ 20.

Definition pool_block_ok (f : mem_flags) (size kind : Z) : bool :=
  (size =? NVKMD_POOL_BLOCK_SIZE) && (kind =? 0) && negb (mf_gart f || mf_can_map f || mf_shared f).
Definition compressible (generic_kind : Z) (f : mem_flags) (size kind placement : Z) : bool :=
  (kind =? 0) && (placement =? NV_RM_PLACEMENT_VRAM) && negb (mf_can_map f || mf_shared f) && (generic_kind =? 6) &&
  (Z.land size 0xffff =? 0).
(** Placement, size and alignment to ask for; [None]: a pool block that is not one. *)
Definition mem_policy (generic_kind : Z) (f : mem_flags) (size alignment kind : Z) : option (Z * Z * Z) :=
  if mf_pool_block f && negb (pool_block_ok f size kind) then None
  else
  let placement := if mf_pool_block f then NV_RM_PLACEMENT_VRAM_POOL_BLOCK
                   else if mf_gart f then NV_RM_PLACEMENT_GART else NV_RM_PLACEMENT_VRAM in
  let alignment := if mf_pool_block f then NVKMD_POOL_BLOCK_SIZE else alignment in
  let '(size, alignment) := if placement =? NV_RM_PLACEMENT_VRAM then (align64 size 65536, Z.max alignment 65536) else (size, alignment) in
  let placement := if compressible generic_kind f size kind placement then NV_RM_PLACEMENT_VRAM_COMPRESSIBLE else placement in
  Some (placement, size, alignment).

Definition coherent (f : mem_flags) : mem_flags := mk_mf (mf_local f) (mf_gart f) (mf_can_map f) (mf_shared f) true (mf_pool_block f).

(** The allocation goes back; if it cannot, the device is lost. *)
Definition give_back (id : Z) : M nworld Z :=
  a ← nv_rm B (CFree id);
  if an_status a =? VK_SUCCESS then mret VK_SUCCESS else _ ← strand id; rm_mem_lost.
(** [fail_mem] of both functions. *)
Definition fail_mem (id result : Z) : M nworld (Z + Z) :=
  r ← give_back id;
  _ ← free_block;
  mret (inl (if r =? VK_SUCCESS then result else r)).
(** From [nvkmd_mem_init] on: a range of its own for the allocation, bound whole. *)
Definition mem_with_range (p : Z) (flags : mem_flags) (a : answer) (kind alignment : Z) : M nworld (Z + Z) :=
  let m := mk_mem flags (an_size a) (an_id a) 0 in
  va ← rm_va_alloc false None kind (an_size a) alignment;
  match va with
  | inl r => fail_mem (an_id a) r
  | inr va =>
      r ← rm_va_bind va 0 m 0 (an_size a);
      if negb (r =? VK_SUCCESS) then _ ← rm_va_free va; fail_mem (an_id a) r
      else
      w ← getS;
      _ ← put_mems (<[p := mk_mem flags (an_size a) (an_id a) va]> (nw_mems w));
      mret (inr p)
  end.

Definition rm_mem_alloc_kind (generic_kind size alignment : Z) (flags : mem_flags) (kind : Z) : M nworld (Z + Z) :=
  p ← calloc B "mem";
  if p =? 0 then mret (inl VK_ERROR_OUT_OF_HOST_MEMORY)
  else
  match mem_policy generic_kind flags size alignment kind with
  | None => _ ← free_block; mret (inl VK_ERROR_UNKNOWN)
  | Some (placement, size, alignment) =>
      a ← nv_rm B (CAlloc size alignment placement kind);
      if negb (an_status a =? VK_SUCCESS) then _ ← free_block; mret (inl (rm_result (an_status a)))
      else mem_with_range p (coherent flags) a kind alignment
  end.
Definition rm_mem_alloc (generic_kind size alignment : Z) (flags : mem_flags) : M nworld (Z + Z) :=
  rm_mem_alloc_kind generic_kind size alignment flags 0.

(** [tile & ~0x70], [tile >> 4]: a [uint16_t]. *)
Definition tiled_refused (generic_kind kind tile : Z) : bool :=
  negb (kind =? generic_kind) || negb (Z.ldiff tile 0x70 =? 0) || (5 <? Z.shiftr tile 4).
Definition rm_mem_tiled (generic_kind size alignment kind tile : Z) (flags : mem_flags) : M nworld (Z + Z) :=
  if (kind =? 0) && (tile =? 0) then rm_mem_alloc generic_kind size alignment flags
  else if tiled_refused generic_kind kind tile then mret (inl unsupported)
  else if (generic_kind =? 0xfe) && mf_can_map flags && negb (mf_gart flags) then mret (inl VK_ERROR_UNKNOWN)
  else rm_mem_alloc_kind generic_kind size alignment flags kind.

Definition import_flags : mem_flags := mk_mf true false true true true false.
Definition rm_mem_import (drm_fd fd : Z) : M nworld (Z + Z) :=
  p ← calloc B "mem";
  if p =? 0 then mret (inl VK_ERROR_OUT_OF_HOST_MEMORY)
  else
  a ← nv_rm B (CImport drm_fd fd);
  if negb (an_status a =? VK_SUCCESS) then _ ← free_block; mret (inl (rm_result (an_status a)))
  else mem_with_range p import_flags a 0 4096.

Definition get_mem (p : Z) : M nworld nvkmd_rm_mem :=
  w ← getS; mret (default (mk_mem (mk_mf false false false false false false) 0 0 0) (nw_mems w !! p)).
Definition rm_mem_free (p : Z) : M nworld () :=
  m ← get_mem p;
  _ ← rm_va_free (mm_va m);
  _ ← give_back (mm_alloc m);
  w ← getS;
  _ ← put_mems (delete p (nw_mems w));
  free_block.

(** [fixed]: a fixed address or [NVKMD_MEM_MAP_FIXED]. *)
Definition rm_mem_map (p : Z) (fixed : bool) : M nworld (Z + Z) :=
  if fixed then mret (inl unsupported)
  else
  m ← get_mem p;
  a ← nv_rm B (CMap (mm_alloc m));
  let status := an_status a in
  if negb (status =? VK_SUCCESS) then
    lost ← nv_rm_is_lost;
    if (status =? VK_ERROR_DEVICE_LOST) || lost then r ← rm_mem_lost; mret (inl r)
    else mret (inl (if (status =? VK_ERROR_OUT_OF_HOST_MEMORY) || (status =? VK_ERROR_OUT_OF_DEVICE_MEMORY) then status
                    else VK_ERROR_MEMORY_MAP_FAILED))
  else if an_id a =? 0 then
    u ← nv_rm B (CUnmap (mm_alloc m));
    if negb (an_status u =? VK_SUCCESS) then r ← rm_mem_lost; mret (inl r) else mret (inl VK_ERROR_MEMORY_MAP_FAILED)
  else mret (inr (an_id a)).
Definition rm_mem_unmap (p : Z) : M nworld () :=
  m ← get_mem p;
  a ← nv_rm B (CUnmap (mm_alloc m));
  if an_status a =? VK_SUCCESS then mret tt else _ ← rm_mem_lost; mret tt.
Definition rm_mem_overmap : Z := unsupported.
Definition rm_mem_handle (p : Z) : M nworld Z := m ← get_mem p; mret (u32 (mm_alloc m)).
Definition rm_mem_export (p drm_fd : Z) : M nworld (Z + Z) :=
  m ← get_mem p;
  a ← nv_rm B (CExport (mm_alloc m) drm_fd);
  mret (if an_status a =? VK_SUCCESS then inr (an_id a) else inl (rm_result (an_status a))).

End Va.

(** ** The invariant *)

Definition vgroups (m : gmap Z nvkmd_rm_va) : list group := va_group <$> (map_to_list m).*2.
Definition owners (w : nworld) : list group := vgroups (nw_vas w) ++ b_pending (nw_rm w) ++ nw_retained w.
Definition va_blocks (v : nvkmd_rm_va) : Z := 1 + Z.of_nat (length (va_bindings v)).
(** A memory object's own range is bound whole. *)
Definition whole (vas : gmap Z nvkmd_rm_va) (m : nvkmd_rm_mem) : Prop :=
  exists v id, vas !! mm_va m = Some v /\ va_bindings v = [mk_binding 0 (mm_size_B m) id].
Definition below {A} (n : Z) (m : gmap Z A) : Prop := map_Forall (fun p _ => 0 < p < n) m.

(** [k] blocks and the allocations [ids] are in the hands of a running call. *)
Record inv (k : Z) (ids : list Z) (w : nworld) : Prop := {
  i_space : space (nw_heap w) (b_map (nw_rm w)) (owners w);
  i_lost : nw_retained w <> [] \/ nw_stranded w <> [] \/ nw_vk w = Some true -> b_lost (nw_rm w) = true;
  i_next : 0 < nw_next w;
  i_below : below (nw_next w) (nw_vas w) /\ below (nw_next w) (nw_mems w) /\ below (nw_next w) (nw_ctxs w);
  i_blocks : nw_blocks w = k + total (fun _ => va_blocks) (nw_vas w) + total (fun _ _ => 1) (nw_mems w) + total (fun _ _ => 1) (nw_ctxs w);
  i_whole : map_Forall (fun _ => whole (nw_vas w)) (nw_mems w);
  i_own : forall q q' m m', nw_mems w !! q = Some m -> nw_mems w !! q' = Some m' -> mm_va m = mm_va m' -> q = q';
  i_allocs : (map_to_list (b_mem (nw_rm w))).*1 ≡ₚ ids ++ (mm_alloc <$> (map_to_list (nw_mems w)).*2) ++ nw_stranded w;
}.

(** What a backend call leaves alone, after its own effect. *)
Record quiet (w w' : nworld) : Prop := {
  q_vas : nw_vas w' = nw_vas w;
  q_mems : nw_mems w' = nw_mems w;
  q_ctxs : nw_ctxs w' = nw_ctxs w;
  q_next : nw_next w' = nw_next w;
  q_blocks : nw_blocks w' = nw_blocks w;
  q_stranded : nw_stranded w' = nw_stranded w;
  q_vk : nw_vk w' = nw_vk w;
  q_mem : b_mem (nw_rm w') = b_mem (nw_rm w);
  q_cpu : b_cpu (nw_rm w') = b_cpu (nw_rm w);
  q_ctx : b_ctx (nw_rm w') = b_ctx (nw_rm w);
  q_batches : b_batches (nw_rm w') = b_batches (nw_rm w);
  q_lost : b_lost (nw_rm w) = true -> b_lost (nw_rm w') = true;
}.
#[export] Instance quiet_po : PreOrder quiet.
Proof.
  split; [intros w; by split|]. intros w1 w2 w3 [] []. split; try congruence. auto.
Qed.

Lemma below_mono {A} n n' (m : gmap Z A) : n <= n' -> below n m -> below n' m.
Proof. intros Hn H p x Hp. specialize (H p x Hp). cbn in *. lia. Qed.
Lemma vgroups_insert m p v : m !! p = None -> vgroups (<[p := v]> m) ≡ₚ va_group v :: vgroups m.
Proof. intros H. unfold vgroups. by rewrite map_to_list_insert. Qed.
Lemma vgroups_delete m p v : m !! p = Some v -> vgroups m ≡ₚ va_group v :: vgroups (delete p m).
Proof. intros H. rewrite <- vgroups_insert by apply lookup_delete_eq. by rewrite insert_delete_id. Qed.
Lemma vgroups_update m p v v' : m !! p = Some v -> vgroups (<[p := v']> m) ≡ₚ va_group v' :: vgroups (delete p m).
Proof. intros H. rewrite <- insert_delete_eq, vgroups_insert by apply lookup_delete_eq. done. Qed.

Definition with_bindings (v : nvkmd_rm_va) (l : list rm_binding) : nvkmd_rm_va := mk_va (va_addr v) (va_size_B v) (va_kind v) l.

(** What an operation on ranges leaves alone. *)
Record frame (w w' : nworld) : Prop := {
  f_mems : nw_mems w' = nw_mems w;
  f_ctxs : nw_ctxs w' = nw_ctxs w;
  f_mem : b_mem (nw_rm w') = b_mem (nw_rm w);
  f_cpu : b_cpu (nw_rm w') = b_cpu (nw_rm w);
  f_ctx : b_ctx (nw_rm w') = b_ctx (nw_rm w);
  f_batches : b_batches (nw_rm w') = b_batches (nw_rm w);
  f_stranded : nw_stranded w' = nw_stranded w;
  f_next : nw_next w <= nw_next w';
  f_lost : b_lost (nw_rm w) = true -> b_lost (nw_rm w') = true;
  f_vk : is_Some (nw_vk w') <-> is_Some (nw_vk w);
}.
#[export] Instance frame_po : PreOrder frame.
Proof.
  split; [intros w; by split|]. intros w1 w2 w3 [] []. split; try congruence; [lia|auto|tauto].
Qed.
Lemma quiet_frame w w' : quiet w w' -> frame w w'.
Proof. intros []. split; try done; [lia|by rewrite q_vk0]. Qed.

Section Proofs.
Context (B : backend) `{!Contract B}.

Lemma reclaim_ok k ids x w : inv k ids w -> inv k ids (reclaim x w).2 /\ quiet w (reclaim x w).2.
Proof.
  intros H. unfold reclaim. mrun. destruct (b_pending (nw_rm w) !! x.1) as [g|] eqn:E; [|by split].
  assert (Hp : b_pending (nw_rm w) ≡ₚ g :: delete x.1 (b_pending (nw_rm w))) by (by apply delete_Permutation).
  destruct H as [H1 H2 H3 H4 H5 H6 H7 H8].
  assert (Ho : owners w ≡ₚ g :: vgroups (nw_vas w) ++ delete x.1 (b_pending (nw_rm w)) ++ nw_retained w).
  { unfold owners. rewrite Hp at 1. simpl. symmetry. apply Permutation_middle. }
  rewrite Ho in H1.
  destruct x as [n [|]]; cbn in *.
  - split; [|by split]. split; try done; cbn. apply (space_release _ _ _ _ H1).
  - split; [|split; try done]. split; try done; cbn.
    eapply space_perm; [|exact H1]. unfold owners. mrun. cbn. rewrite !app_assoc. symmetry. apply Permutation_cons_append.
Qed.

Lemma reclaim_all_ok k ids l w : inv k ids w -> inv k ids (reclaim_all l w).2 /\ quiet w (reclaim_all l w).2.
Proof.
  revert w. induction l as [|x l IH]; intros w H; [by split|]. simpl. rewrite bind_run.
  destruct (reclaim_ok k ids x w H) as [H1 Q1]. destruct (IH _ H1) as [H2 Q2]. split; [done|]. by etrans.
Qed.
Lemma set_lost_ok k ids w b :
  (b_lost (nw_rm w) = true -> b = true) -> inv k ids w ->
  inv k ids (on_rm (fun s => set_lost s b) w).2 /\ quiet w (on_rm (fun s => set_lost s b) w).2.
Proof. intros Hb [H1 H2 H3 H4 H5 H6 H7 H8]. split; [|by split]. split; try done. cbn. auto. Qed.
Lemma pump_ok k ids w : inv k ids w -> inv k ids (pump B w).2 /\ quiet w (pump B w).2.
Proof.
  intros H. unfold pump. mrun. destruct (set_lost_ok k ids w (b_lost (nw_rm w) || bk_fault B (nw_rm w))) as [H1 Q1]; [by intros ->|done|].
  destruct (reclaim_all_ok _ _ (bk_reclaim B (nw_rm w)) _ H1) as [H2 Q2].
  split; [exact H2|]. etrans; [exact Q1|exact Q2].
Qed.

(** A backend call: its effect on a world that keeps the invariant, then
    whatever the backend does on its own. *)
Definition called (w : nworld) (c : call) : nworld :=
  (on_rm (fun s => add_hist (effect c (bk_answer B (nw_rm w) c) s) (c, bk_answer B (nw_rm w) c)) w).2.
Lemma wp_nv_rm k ids c w (Q : answer -> nworld -> Prop) :
  inv k ids (called w c) ->
  (forall w', inv k ids w' -> quiet (called w c) w' -> Q (bk_answer B (nw_rm w) c) w') -> wp (nv_rm B c) Q w.
Proof.
  intros H HQ. unfold wp, nv_rm. mrun. destruct (pump_ok k ids _ H) as [H1 Q1]. apply HQ; [exact H1|exact Q1].
Qed.

(** Calls without an effect on the invariant. *)
Definition neutral (c : call) : bool :=
  match c with
  | CMap _ | CUnmap _ | CExport _ _ | CContext _ _ | CContextDestroy _ | CSubmit _ _ _ _ | CWait _ _ _ | CSync _ _ | CSyncWait _ _ _ | COther _ _ => true
  | _ => false
  end.
Lemma called_failed k ids w c : an_status (bk_answer B (nw_rm w) c) <> VK_SUCCESS -> inv k ids w -> inv k ids (called w c).
Proof.
  intros Hf [H1 H2 H3 H4 H5 H6 H7 H8]. unfold called, effect. apply Z.eqb_neq in Hf. cbn. rewrite Hf. by split.
Qed.
Lemma called_neutral k ids w c : neutral c = true -> inv k ids w -> inv k ids (called w c).
Proof.
  intros Hn [H1 H2 H3 H4 H5 H6 H7 H8]. unfold called, effect. cbn. destruct (_ =? _); cbn; [|by split]. by destruct c; split.
Qed.
(** The world after a successful [calloc]. *)
Definition alloced (w : nworld) : nworld := (new_address (add_blocks 1 w).2).2.
Lemma alloced_ok k ids w : inv k ids w -> inv (k + 1) ids (alloced w).
Proof.
  intros [H1 H2 H3 H4 H5 H6 H7 H8]. split; try done; cbn; [lia| |lia].
  destruct H4 as (? & ? & ?). split_and!; (eapply below_mono; [|done]; cbn; lia).
Qed.
Lemma wp_calloc what w (Q : Z -> nworld -> Prop) : Q 0 w -> Q (nw_next w) (alloced w) -> wp (calloc B what) Q w.
Proof. intros H0 H1. unfold wp, calloc. mrun. destruct (bk_calloc B (nw_rm w) what); done. Qed.
Lemma free_block_ok k ids w : inv (k + 1) ids w -> inv k ids (free_block w).2.
Proof. intros [H1 H2 H3 H4 H5 H6 H7 H8]. split; try done. cbn. lia. Qed.
Lemma frame_alloced w : frame w (alloced w).
Proof. split; try done. unfold alloced. cbn. lia. Qed.
Lemma frame_same f w :
  (forall s, b_mem (f s) = b_mem s /\ b_cpu (f s) = b_cpu s /\ b_ctx (f s) = b_ctx s /\ b_batches (f s) = b_batches s /\ (b_lost s = true -> b_lost (f s) = true)) ->
  frame w (on_rm f w).2.
Proof. intros H. destruct (H (nw_rm w)) as (? & ? & ? & ? & ?). by split. Qed.

(** ** VA ranges *)

Lemma pow2_spec x : 0 < x < 2 ^ 64 -> util_is_power_of_two_or_zero64 x = true -> exists n, 0 <= n < 64 /\ x = 2 ^ n.
Proof.
  intros Hx H. unfold util_is_power_of_two_or_zero64 in H. apply Z.eqb_eq in H. rewrite u64_id in H by (unfold is_u64; lia).
  assert (Hl : 2 ^ Z.log2 x <= x < 2 ^ Z.succ (Z.log2 x)) by (apply Z.log2_spec; lia).
  assert (Hn : 0 <= Z.log2 x < 64) by (split; [apply Z.log2_nonneg|apply Z.log2_lt_pow2; lia]).
  exists (Z.log2 x). split; [done|]. set (n := Z.log2 x) in *. rewrite Z.pow_succ_r in Hl by lia.
  destruct (decide (x = 2 ^ n)) as [|Hne]; [done|exfalso].
  assert (Hbit : forall y, 2 ^ n <= y < 2 * 2 ^ n -> Z.testbit y n = true).
  { intros y Hy. apply Z.testbit_true; [lia|]. replace (y / 2 ^ n) with 1; [done|].
    apply (Z.div_unique y (2 ^ n) 1 (y - 2 ^ n)); lia. }
  assert (E := f_equal (fun z => Z.testbit z n) H). cbv beta in E.
  rewrite Z.land_spec, Z.bits_0, !Hbit in E by lia. done.
Qed.
Lemma land_pow2 x n : 0 <= n -> Z.land x (2 ^ n - 1) = 0 -> x mod 2 ^ n = 0.
Proof. intros Hn H. by rewrite land_mask in H. Qed.
Lemma align64_page size : 0 <= size < 2 ^ 63 -> align64 size 4096 = (size + 4095) / 4096 * 4096.
Proof. intros H. unfold align64. change 4096 with (2 ^ 12). apply alloc_align_spec; lia. Qed.

Definition reserved (a size : Z) (w : nworld) : nworld := (put_heap ((a, size) :: nw_heap w) w).2.
Lemma take_address_ok fixed size n w :
  0 < size -> 0 <= n ->
  wp (take_address B fixed size (2 ^ n)) (fun a w' =>
    a = 0 /\ w' = w \/
    a <> 0 /\ w' = reserved a size w /\ within (a, size) va_space /\ Forall (apart (a, size)) (nw_heap w) /\
    a mod 2 ^ n = 0 /\ match fixed with Some f => a = f | None => True end) w.
Proof.
  intros Hs Hn. unfold wp, take_address. destruct fixed as [f|].
  - destruct (fixed_valid f size (2 ^ n)) eqn:Ev; [|by left]. unfold util_vma_heap_alloc_addr. mrun.
    destruct (bk_heap_addr B (nw_heap w) f size) eqn:E; [|by left].
    right. unfold fixed_valid in Ev. bool_props. apply heap_addr_free in E as [E1 E2]; [|done]. mrun. cbn.
    assert (Hf : NV_RM_VA_START <= f) by apply E1. split; [unfold NV_RM_VA_START in Hf; lia|]. do 3 (split; [done|]). split; [by apply land_pow2|done].
  - unfold util_vma_heap_alloc. mrun. destruct (Z.eqb_spec (bk_heap_alloc B (nw_heap w) size (2 ^ n)) 0) as [E|E]; [by left|].
    right. destruct (heap_alloc_free _ size _ Hs E) as (? & ? & ?). mrun. cbn. do 5 (split; [done|]). done.
Qed.

Lemma inv_new_range k ids w p a size kind :
  inv (k + 1) ids w -> within (a, size) va_space -> 0 < size -> Forall (apart (a, size)) (nw_heap w) ->
  nw_vas w !! p = None -> 0 < p < nw_next w ->
  inv k ids (put_vas (<[p := mk_va a size kind []]> (nw_vas w)) (reserved a size w)).2.
Proof.
  intros [H1 H2 H3 H4 H5 H6 H7 H8] Hw Hs Ha Hp Hn. split; try done; cbn.
  - unfold owners. cbn. rewrite vgroups_insert by done. by apply space_reserve.
  - destruct H4 as (H4 & ? & ?). split_and!; try done. by apply map_Forall_insert_2.
  - rewrite total_insert_new by done. unfold va_blocks at 1. cbn. lia.
  - eapply map_Forall_impl; [exact H6|]. intros q m (v & id & Hv & Hb). exists v, id. split; [|done].
    rewrite lookup_insert_ne; [done|]. congruence.
Qed.

Definition va_result (w w' : nworld) (fixed : option Z) (kind size alignment : Z) (r : Z + Z) : Prop :=
  match r with
  | inl e => nw_vas w' = nw_vas w /\ e <> VK_SUCCESS
  | inr p => exists a, nw_vas w !! p = None /\ nw_vas w' = <[p := mk_va a (align64 size 4096) kind []]> (nw_vas w) /\
      a mod Z.max alignment 4096 = 0 /\ 0 < size <= align64 size 4096 /\ match fixed with Some f => a = f | None => True end
  end.
Lemma rm_va_alloc_ok k ids w sparse fixed kind size alignment :
  is_u64 size -> is_u64 alignment -> inv k ids w ->
  wp (rm_va_alloc B sparse fixed kind size alignment) (fun r w' =>
    inv k ids w' /\ frame w w' /\ va_result w w' fixed kind size alignment r) w.
Proof.
  intros Hs Ha H. unfold rm_va_alloc. destruct sparse; [by apply wp_ret|].
  destruct ((size =? 0) || _) eqn:E; [by apply wp_ret|]. bool_props.
  assert (Hsz : 0 < size <= 2 ^ 40 - 2 ^ 34 - 4095) by (unfold is_u64, NV_RM_VA_START, NV_RM_VA_END in *; lia).
  destruct (util_is_power_of_two_or_zero64 (Z.max alignment 4096)) eqn:Ep; [|by apply wp_ret]. cbn [negb].
  destruct (pow2_spec (Z.max alignment 4096)) as (n & Hn & En); [unfold is_u64 in *; lia|done|].
  assert (Hal : 0 < size <= align64 size 4096).
  { rewrite align64_page by lia. pose proof (align_up_bounds size 4096 ltac:(lia)) as Hb. change (4096 - 1) with 4095 in Hb. lia. }
  apply wp_bind, wp_calloc; [by apply wp_ret|].
  assert (Hnext : 0 < nw_next w) by apply H. rewrite (proj2 (Z.eqb_neq _ _)) by lia.
  assert (Hfresh : nw_vas w !! nw_next w = None).
  { destruct (nw_vas w !! nw_next w) eqn:Ev; [|done]. apply (i_below _ _ _ H) in Ev. cbn in Ev. lia. }
  rewrite En. apply wp_bind. eapply wp_mono; [apply take_address_ok; lia|].
  intros a w' [(-> & ->)|(Hne & -> & Hw & Hap & Hmod & Hf)].
  - cbn. split; [by apply free_block_ok, alloced_ok|]. split; [|done].
    etrans; [apply frame_alloced|]. by split.
  - rewrite (proj2 (Z.eqb_neq a 0)) by done. unfold wp. mrun. split; [|split].
    + apply (inv_new_range k ids (alloced w)); try done; [by apply alloced_ok|lia|cbn; lia].
    + etrans; [apply frame_alloced|]. by split.
    + exists a. split_and!; try done; [by rewrite En|lia|lia].
Qed.

(** A backend call in the middle of an update: the invariant may hold only of
    the world with the tables as they are going to be. *)
Definition with_c V Ms X n S (w : nworld) : nworld :=
  mk_nw (nw_rm w) (nw_heap w) V Ms X (nw_next w) n (nw_retained w) S (nw_vk w).
Lemma reclaim_all_with V Ms X n S l w : (reclaim_all l (with_c V Ms X n S w)).2 = with_c V Ms X n S (reclaim_all l w).2.
Proof.
  revert w. induction l as [|x l IH]; intros w; [done|]. simpl. rewrite !bind_run, <- IH. do 2 f_equal.
  unfold reclaim. mrun. change (nw_rm (with_c V Ms X n S w)) with (nw_rm w).
  destruct (b_pending (nw_rm w) !! x.1) as [g|]; [|done]. destruct x as [? [|]]; reflexivity.
Qed.
Lemma pump_with V Ms X n S w : (pump B (with_c V Ms X n S w)).2 = with_c V Ms X n S (pump B w).2.
Proof. unfold pump. mrun. apply (reclaim_all_with _ _ _ _ _ _ (on_rm _ w).2). Qed.
Lemma set_quiet b w : (b_lost (nw_rm w) = true -> b = true) -> quiet w (on_rm (fun s => set_lost s b) w).2.
Proof. by split. Qed.
Lemma pump_quiet w : quiet w (pump B w).2.
Proof.
  assert (Hr : forall x w, quiet w (reclaim x w).2).
  { intros [n [|]] w1; unfold reclaim; mrun; cbn [fst snd]; destruct (b_pending (nw_rm w1) !! n); mrun; by split. }
  assert (Ha : forall l w, quiet w (reclaim_all l w).2).
  { induction l as [|x l IH]; intros w1; [done|]. simpl. rewrite bind_run. etrans; [apply Hr|apply IH]. }
  unfold pump. mrun. etrans; [|apply Ha]. apply (set_quiet (b_lost (nw_rm w) || bk_fault B (nw_rm w))). by intros ->.
Qed.
Lemma wp_nv_rm_with V Ms X n S k ids c w (Q : answer -> nworld -> Prop) :
  inv k ids (with_c V Ms X n S (called w c)) ->
  (forall w', inv k ids (with_c V Ms X n S w') -> quiet (called w c) w' -> Q (bk_answer B (nw_rm w) c) w') -> wp (nv_rm B c) Q w.
Proof.
  intros H HQ. unfold wp, nv_rm. mrun. destruct (pump_ok k ids _ H) as [H1 _]. rewrite pump_with in H1.
  apply HQ; [exact H1|]. apply pump_quiet.
Qed.

Lemma wp_get_va p v w (Q : nvkmd_rm_va -> nworld -> Prop) : nw_vas w !! p = Some v -> Q v w -> wp (get_va p) Q w.
Proof. intros H HQ. unfold wp, get_va. mrun. by rewrite H. Qed.
Lemma put_bindings_run p l w v :
  nw_vas w !! p = Some v -> (put_bindings p l w).2 = (put_vas (<[p := with_bindings v l]> (nw_vas w)) w).2.
Proof. intros H. unfold put_bindings, get_va. mrun. by rewrite H. Qed.
Lemma called_frame w c :
  match c with CUnbind _ | CBind _ _ _ _ _ | CVaFree _ _ _ => True | _ => False end -> frame w (called w c).
Proof. intros H. unfold called, effect. apply frame_same. intros s. destruct (_ =? _); [|done]. by destruct c. Qed.
Lemma frame_with w w' V n : frame w w' -> nw_stranded w' = nw_stranded w -> frame w (with_c V (nw_mems w) (nw_ctxs w) n (nw_stranded w) w').
Proof. intros []. by split. Qed.

Lemma put_vas_with V w c w' :
  quiet (called w c) w' -> (put_vas V w').2 = with_c V (nw_mems w) (nw_ctxs w) (nw_blocks w) (nw_stranded w) w'.
Proof. intros []. unfold with_c. cbn in *. congruence. Qed.

(** A range that no memory object has as its own. *)
Definition free_range (w : nworld) (p : Z) : Prop := map_Forall (fun _ m => mm_va m <> p) (nw_mems w).
Definition others (w : nworld) (p : Z) : list group := vgroups (delete p (nw_vas w)) ++ b_pending (nw_rm w) ++ nw_retained w.
Lemma owners_at w p v : nw_vas w !! p = Some v -> owners w ≡ₚ va_group v :: others w p.
Proof. intros H. unfold owners, others. by rewrite (vgroups_delete _ _ _ H). Qed.

(** The list of bindings of one range changes together with the mappings. *)
Lemma inv_bindings k k' ids w p v v' n f :
  inv k ids w -> nw_vas w !! p = Some v -> free_range w p ->
  b_pending (f (nw_rm w)) = b_pending (nw_rm w) -> b_mem (f (nw_rm w)) = b_mem (nw_rm w) -> b_lost (f (nw_rm w)) = b_lost (nw_rm w) ->
  n = nw_blocks w + (k' - k) + (va_blocks v' - va_blocks v) ->
  space (nw_heap w) (b_map (f (nw_rm w))) (va_group v' :: others w p) ->
  inv k' ids (with_c (<[p := v']> (nw_vas w)) (nw_mems w) (nw_ctxs w) n (nw_stranded w) (on_rm f w).2).
Proof.
  intros [H1 H2 H3 H4 H5 H6 H7 H8] Hv Hf Ep Em El -> Hsp. split; try done; cbn.
  - unfold owners. cbn. rewrite (vgroups_update _ _ _ _ Hv), Ep. exact Hsp.
  - by rewrite El.
  - destruct H4 as (H4 & ? & ?). split; [|done]. apply map_Forall_insert_2; [by apply (H4 p v)|done].
  - rewrite (total_insert _ _ _ _ _ Hv), H5. lia.
  - intros q m Hm. destruct (H6 q m Hm) as (v0 & id & Hv0 & Hb). exists v0, id. split; [|done].
    rewrite lookup_insert_ne; [done|]. intros ->. by apply (Hf q m Hm).
  - by rewrite Em.
Qed.

Lemma va_maps_app v l1 l2 : va_maps (with_bindings v (l1 ++ l2)) = va_maps (with_bindings v l1) ++ va_maps (with_bindings v l2).
Proof. apply fmap_app. Qed.
Lemma with_bindings_id v : with_bindings v (va_bindings v) = v.
Proof. by destruct v. Qed.
Lemma with_c_id w : with_c (nw_vas w) (nw_mems w) (nw_ctxs w) (nw_blocks w) (nw_stranded w) w = w.
Proof. by destruct w. Qed.

Lemma unbind_each_ok k ids p offset size kept l w v :
  inv k ids w -> nw_vas w !! p = Some v -> va_bindings v = kept ++ l -> free_range w p ->
  wp (unbind_each B p offset size kept l) (fun r w' => exists l',
    inv k ids w' /\ frame w w' /\ nw_vas w' = <[p := with_bindings v l']> (nw_vas w) /\ sublist l' (kept ++ l) /\
    sublist (kept ++ filter (fun b => covered offset size b = false) l) l' /\
    (r = VK_SUCCESS -> l' = kept ++ filter (fun b => covered offset size b = false) l)) w.
Proof.
  revert kept w v. induction l as [|b l IH]; intros kept w v H Hv Hb Hf; simpl.
  { apply wp_ret. exists kept. rewrite app_nil_r in *. do 2 (split; [done|]). split; [by rewrite <- Hb, with_bindings_id, insert_id|].
    split; [done|]. rewrite filter_nil, app_nil_r. done. }
  destruct (covered offset size b) eqn:Ec.
  - rewrite filter_cons_False by (by rewrite Ec).
    apply wp_bind. set (a := bk_answer B (nw_rm w) (CUnbind (bd_mapping b))).
    destruct (Z.eqb_spec (an_status a) VK_SUCCESS) as [Es|Es].
    + apply (wp_nv_rm_with (<[p := with_bindings v (kept ++ l)]> (nw_vas w)) (nw_mems w) (nw_ctxs w) (nw_blocks w + -1) (nw_stranded w) k ids).
      * apply (inv_bindings k k ids w p v _ (nw_blocks w + -1)); try done.
        -- cbn. unfold effect. fold a. by rewrite Es.
        -- cbn. unfold effect. fold a. by rewrite Es.
        -- cbn. unfold effect. fold a. by rewrite Es.
        -- unfold va_blocks. rewrite Hb. cbn. rewrite !length_app. cbn. lia.
        -- cbn. unfold effect. fold a. rewrite Es. cbn.
           pose proof (i_space _ _ _ H) as Hsp. rewrite (owners_at w p v Hv) in Hsp.
           unfold va_group in *. rewrite <- (with_bindings_id v), Hb in Hsp. rewrite va_maps_app in *.
           apply (space_unbind _ _ _ _ _ _ _ _ _ Hsp).
      * intros w' Hi Q. fold a. rewrite (proj2 (Z.eqb_eq _ _) Es). cbn [negb].
        assert (Hv' : nw_vas w' !! p = Some v) by (by rewrite (q_vas _ _ Q)).
        unfold wp. rewrite bind_run, (put_bindings_run _ _ _ v Hv'), bind_run.
        set (w2 := with_c _ _ _ _ _ w') in Hi.
        assert (E2 : (free_block (put_vas (<[p := with_bindings v (kept ++ l)]> (nw_vas w')) w').2).2 = w2).
        { destruct Q. unfold w2, with_c. cbn in *. congruence. }
        rewrite E2. eapply wp_mono; [apply (IH kept w2 (with_bindings v (kept ++ l))); try done|].
        -- cbn. by rewrite lookup_insert_eq.
        -- intros r w3 (l' & Hi3 & Hf3 & Hv3 & Hl & Hl2 & Hr). exists l'. split; [done|].
           split; [|split; [|split; [|done]]].
           ++ etrans; [|exact Hf3]. apply frame_with; [|by rewrite (q_stranded _ _ Q)].
              etrans; [apply (called_frame w (CUnbind (bd_mapping b))); exact I|]. apply quiet_frame, Q.
           ++ rewrite Hv3. cbn. by rewrite insert_insert_eq.
           ++ etrans; [exact Hl|]. apply sublist_app; [done|]. by apply sublist_cons.
    + apply (wp_nv_rm k ids); [by apply called_failed|]. intros w' Hi Q. fold a. rewrite (proj2 (Z.eqb_neq _ _) Es). cbn [negb].
      apply wp_ret. exists (kept ++ b :: l). split; [done|].
      assert (frame w w') by (etrans; [apply (called_frame w (CUnbind (bd_mapping b))); exact I|by apply quiet_frame]).
      split; [done|]. split; [|split; [done|split]].
      * rewrite (q_vas _ _ Q), <- Hb, with_bindings_id. by rewrite insert_id.
      * apply sublist_app; [done|]. apply sublist_cons, sublist_filter.
      * intros E. unfold rm_result in E. congruence.
  - rewrite filter_cons_True by done. rewrite cons_middle, app_assoc in Hb. eapply wp_mono; [by apply (IH (kept ++ [b]) w v)|].
    intros r w' (l' & ? & ? & ? & Hl & Hl2 & Hr). exists l'. do 3 (split; [done|]). rewrite <- app_assoc in Hl, Hl2. split; [done|]. split; [done|].
    intros E. rewrite (Hr E), <- app_assoc. done.
Qed.

Definition uncovered (offset size : Z) (l : list rm_binding) : list rm_binding := filter (fun b => covered offset size b = false) l.
Definition bd_range (b : rm_binding) : Z * Z := (bd_offset b, bd_size b).

Lemma good_va k ids w p v : inv k ids w -> nw_vas w !! p = Some v -> good_group (va_group v).
Proof.
  intros H Hv. pose proof (sp_good _ _ _ (i_space _ _ _ H)) as Hg. rewrite (owners_at w p v Hv) in Hg. by apply Forall_cons in Hg as [? _].
Qed.
Lemma va_binding_range k ids w p v b :
  inv k ids w -> nw_vas w !! p = Some v -> b ∈ va_bindings v -> within (bd_range b) (0, va_size_B v) /\ 0 < bd_size b.
Proof.
  intros H Hv Hb. destruct (good_va _ _ _ _ _ H Hv) as (_ & _ & Hg & _). rewrite Forall_forall in Hg.
  destruct (Hg (bd_mapping b, (va_addr v + bd_offset b, bd_size b))) as [Hw Hs]; [apply list_elem_of_fmap; by exists b|].
  unfold within in *. cbn in *. split; lia.
Qed.

(** Unbinding: refused, with nothing changed, for an empty or outside range and
    when it would cut a mapping; otherwise exactly the mappings inside go. *)
Definition unbound (v : nvkmd_rm_va) (offset size : Z) (r : Z) (l' : list rm_binding) : Prop :=
  sublist l' (va_bindings v) /\ sublist (uncovered offset size (va_bindings v)) l' /\
  (r = VK_SUCCESS -> 0 < size /\ offset + size <= va_size_B v /\ l' = uncovered offset size (va_bindings v) /\
     Forall (fun b => apart (offset, size) (bd_range b)) l').
Lemma rm_va_unbind_ok k ids p offset size w v :
  0 <= offset -> 0 <= size -> inv k ids w -> nw_vas w !! p = Some v -> free_range w p ->
  wp (rm_va_unbind B p offset size) (fun r w' => exists l',
    inv k ids w' /\ frame w w' /\ nw_vas w' = <[p := with_bindings v l']> (nw_vas w) /\ unbound v offset size r l') w.
Proof.
  intros Ho Hs H Hv Hf. unfold rm_va_unbind. apply wp_bind, (wp_get_va p v); [done|].
  assert (Hstay : exists l', inv k ids w /\ frame w w /\ nw_vas w = <[p := with_bindings v l']> (nw_vas w) /\ unbound v offset size unsupported l').
  { exists (va_bindings v). do 2 (split; [done|]). split; [by rewrite with_bindings_id, insert_id|]. split; [done|]. split; [apply sublist_filter|done]. }
  destruct ((size =? 0) || bad_range offset size (va_size_B v)) eqn:E1; [exact Hstay|].
  destruct (existsb (partly_covered offset size) (va_bindings v)) eqn:E2; [exact Hstay|].
  eapply wp_mono; [by apply (unbind_each_ok k ids p offset size [] (va_bindings v) w v)|].
  intros r w' (l' & Hi & Hfr & Hv' & Hl & Hl2 & Hr). exists l'. do 3 (split; [done|]). split; [done|]. split; [done|].
  intros E. specialize (Hr E). unfold bad_range in E1. bool_props. split; [lia|]. split; [lia|]. split; [exact Hr|].
  rewrite Hr. apply Forall_forall. intros b [Hc Hb]%list_elem_of_filter.
  assert (Hp : partly_covered offset size b = false).
  { apply not_true_is_false. intros Hp. assert (existsb (partly_covered offset size) (va_bindings v) = true); [|congruence].
    apply existsb_exists. exists b. split; [by apply list_elem_of_In|done]. }
  destruct (va_binding_range _ _ _ _ _ _ H Hv Hb) as [Hw Hpos].
  unfold partly_covered, covered, apart, bd_range, within in *. cbn in *.
  apply andb_false_iff in Hc. rewrite !andb_false_iff, orb_false_iff in Hp.
  rewrite !Z.leb_gt in Hc. rewrite !Z.ltb_ge in Hp. lia.
Qed.

(** Binding replaces what the range covers by the new mapping. *)
Definition bound (v : nvkmd_rm_va) (offset size : Z) (r : Z) (l' : list rm_binding) : Prop :=
  sublist (uncovered offset size (va_bindings v)) l' /\
  match decide (r = VK_SUCCESS) with
  | left _ => 0 < size /\ offset + size <= va_size_B v /\ exists id, l' = uncovered offset size (va_bindings v) ++ [mk_binding offset size id]
  | right _ => sublist l' (va_bindings v)
  end.
Lemma bound_fail v offset size r l' :
  r <> VK_SUCCESS -> sublist l' (va_bindings v) -> sublist (uncovered offset size (va_bindings v)) l' -> bound v offset size r l'.
Proof. intros. split; [done|]. by rewrite decide_False. Qed.
Lemma rm_va_bind_ok k ids p offset mem moff size w v :
  0 <= offset -> 0 <= size -> inv k ids w -> nw_vas w !! p = Some v -> free_range w p ->
  wp (rm_va_bind B p offset mem moff size) (fun r w' => exists l',
    inv k ids w' /\ frame w w' /\ nw_vas w' = <[p := with_bindings v l']> (nw_vas w) /\ bound v offset size r l') w.
Proof.
  intros Ho Hs H Hv Hf. unfold rm_va_bind.
  destruct (bad_range moff size (mm_size_B mem)).
  { apply wp_ret. exists (va_bindings v). do 2 (split; [done|]). split; [by rewrite with_bindings_id, insert_id|].
    apply bound_fail; [done|done|apply sublist_filter]. }
  apply wp_bind. eapply wp_mono; [by apply (rm_va_unbind_ok k ids)|].
  intros r w1 (l1 & H1 & F1 & V1 & U1). destruct (Z.eqb_spec r VK_SUCCESS) as [->|Hr]; cbn [negb].
  2:{ apply wp_ret. exists l1. do 3 (split; [done|]). apply bound_fail; [done|apply U1|apply U1]. }
  destruct U1 as (Hsub & Hsup & U1). destruct (U1 eq_refl) as (Hpos & Hend & El1 & Hap).
  assert (Hv1 : nw_vas w1 !! p = Some (with_bindings v l1)) by (by rewrite V1, lookup_insert_eq).
  assert (Hf1 : free_range w1 p) by (unfold free_range; by rewrite (f_mems _ _ F1)).
  apply wp_bind, wp_calloc.
  { apply wp_ret. exists l1. do 3 (split; [done|]). by apply bound_fail. }
  pose proof (i_next _ _ _ H1) as Hnx. rewrite (proj2 (Z.eqb_neq (nw_next w1) 0)) by lia.
  pose proof (alloced_ok _ _ _ H1) as H2. set (w2 := alloced w1) in *.
  apply wp_bind, (wp_get_va p (with_bindings v l1)); [exact Hv1|].
  change (va_addr (with_bindings v l1)) with (va_addr v). change (va_kind (with_bindings v l1)) with (va_kind v).
  set (c := CBind _ _ _ _ _). set (a := bk_answer B (nw_rm w2) c).
  assert (F2 : frame w (called w2 c)).
  { etrans; [exact F1|]. etrans; [apply frame_alloced|]. by apply called_frame. }
  apply wp_bind. destruct (Z.eqb_spec (an_status a) VK_SUCCESS) as [Es|Es].
  - assert (Ee : forall s, effect c a s = set_map s (<[an_id a := (va_addr v + offset, size)]> (b_map s))).
    { intros s. unfold effect. by rewrite Es. }
    apply (wp_nv_rm_with (<[p := with_bindings v (l1 ++ [mk_binding offset size (an_id a)])]> (nw_vas w2)) (nw_mems w2) (nw_ctxs w2) (nw_blocks w2) (nw_stranded w2) k ids).
    + apply (inv_bindings (k + 1) k ids w2 p (with_bindings v l1) _ _ (fun s => add_hist (effect c a s) (c, a))); try done.
      * cbv beta. by rewrite Ee.
      * cbv beta. by rewrite Ee.
      * cbv beta. by rewrite Ee.
      * unfold va_blocks. cbn. rewrite length_app. cbn. lia.
      * cbv beta. rewrite Ee. cbn [b_map set_map add_hist].
        pose proof (i_space _ _ _ H2) as Hsp. rewrite (owners_at w2 p _ Hv1) in Hsp.
        unfold va_group in *. rewrite va_maps_app. apply space_bind; try done.
        -- by apply (bind_fresh (nw_rm w2) _ _ _ _ _ Es).
        -- unfold within. cbn. lia.
        -- cbn. apply Forall_fmap, Forall_fmap. eapply Forall_impl; [exact Hap|]. intros b. unfold apart, bd_range. cbn. lia.
    + intros w' Hi Q. fold c a. rewrite (proj2 (Z.eqb_eq _ _) Es). cbn [negb].
      assert (Hv' : nw_vas w' !! p = Some (with_bindings v l1)) by (by rewrite (q_vas _ _ Q)).
      unfold wp. rewrite bind_run, (put_bindings_run _ _ _ _ Hv'), ret_run. cbn [fst snd].
      rewrite (put_vas_with _ w2 c w' Q), (q_vas _ _ Q).
      exists (l1 ++ [mk_binding offset size (an_id a)]). split; [done|]. split; [|split].
      * replace (nw_mems w2) with (nw_mems w) by (by rewrite <- (f_mems _ _ F2)).
        replace (nw_ctxs w2) with (nw_ctxs w) by (by rewrite <- (f_ctxs _ _ F2)).
        replace (nw_stranded w2) with (nw_stranded w) by (by rewrite <- (f_stranded _ _ F2)).
        apply frame_with; [etrans; [exact F2|by apply quiet_frame]|]. rewrite (q_stranded _ _ Q). apply (f_stranded _ _ F2).
      * cbn. change (nw_vas w2) with (nw_vas w1). by rewrite V1, insert_insert_eq.
      * split; [by apply sublist_inserts_r|]. rewrite decide_True by done. split; [done|]. split; [done|]. exists (an_id a). by rewrite El1.
  - apply (wp_nv_rm (k + 1) ids); [by apply called_failed|]. intros w' Hi Q. fold c a. rewrite (proj2 (Z.eqb_neq _ _) Es). cbn [negb].
    unfold wp. mrun. exists l1. split; [by apply free_block_ok|]. split; [|split].
    + etrans; [exact F2|]. etrans; [by apply quiet_frame|]. by split.
    + cbn. rewrite (q_vas _ _ Q). exact V1.
    + by apply bound_fail.
Qed.

Lemma rm_va_bind_refused p offset mem moff size w v :
  nw_vas w !! p = Some v ->
  bad_range moff size (mm_size_B mem) || (size =? 0) || bad_range offset size (va_size_B v) || existsb (partly_covered offset size) (va_bindings v) = true ->
  rm_va_bind B p offset mem moff size w = (unsupported, w).
Proof.
  intros Hv E. unfold rm_va_bind, rm_va_unbind, get_va. destruct (bad_range moff size (mm_size_B mem)); [done|].
  mrun. rewrite Hv. cbn [default from_option id]. change (id v) with v. cbn [orb] in E.
  destruct ((size =? 0) || bad_range offset size (va_size_B v)) eqn:E1; [reflexivity|]. cbn [orb] in E. rewrite E. reflexivity.
Qed.

(** Losing the device; what is given up is given up to a lost device. *)
Definition lost_world (w : nworld) : nworld :=
  match nw_vk w with
  | Some true => w
  | Some false => (rm_notify_lost (put_vk (Some true) w).2).2
  | None => (nv_rm_mark_lost w).2
  end.
Lemma rm_mem_lost_run w : rm_mem_lost w = (VK_ERROR_DEVICE_LOST, lost_world w).
Proof.
  unfold rm_mem_lost, vk_device_set_lost, lost_world. mrun. destruct (nw_vk w) as [[|]|] eqn:Ev; mrun; try done; rewrite Ev; cbn.
  - by rewrite decide_True.
  - by rewrite decide_False.
Qed.
Lemma rm_mem_lost_ok k ids w :
  inv k ids w -> inv k ids (lost_world w) /\ frame w (lost_world w) /\ b_lost (nw_rm (lost_world w)) = true /\
  nw_vas (lost_world w) = nw_vas w /\ nw_blocks (lost_world w) = nw_blocks w.
Proof.
  intros H. pose proof (i_lost _ _ _ H) as Hl. unfold lost_world.
  destruct (nw_vk w) as [[|]|] eqn:Ev; cbn.
  - do 2 (split; [done|]). split; [|done]. apply Hl. auto.
  - destruct H as [H1 H2 H3 H4 H5 H6 H7 H8]. split; [by split|]. split; [|done]. by split; rewrite ?Ev.
  - destruct H as [H1 H2 H3 H4 H5 H6 H7 H8]. split; [by split|]. split; [|done]. by split.
Qed.
Lemma retain_lost g w : lost_world (retain g w).2 = (retain g (lost_world w)).2.
Proof. unfold lost_world. cbn. destruct (nw_vk w) as [[|]|] eqn:E; cbn; by rewrite ?E. Qed.
Lemma strand_lost i w : lost_world (strand i w).2 = (strand i (lost_world w)).2.
Proof. unfold lost_world. cbn. destruct (nw_vk w) as [[|]|] eqn:E; cbn; by rewrite ?E. Qed.

(** A range leaves the table and its group goes to the deferred releases or to
    what is given up. *)
Lemma inv_give k k' ids w w' p v n :
  inv k ids w -> nw_vas w !! p = Some v -> free_range w p ->
  nw_heap w' = nw_heap w -> b_map (nw_rm w') = b_map (nw_rm w) -> b_mem (nw_rm w') = b_mem (nw_rm w) -> nw_next w' = nw_next w ->
  n = nw_blocks w + (k' - k) - va_blocks v ->
  (nw_retained w' <> [] \/ nw_stranded w <> [] \/ nw_vk w' = Some true -> b_lost (nw_rm w') = true) ->
  b_pending (nw_rm w') ++ nw_retained w' ≡ₚ va_group v :: b_pending (nw_rm w) ++ nw_retained w ->
  inv k' ids (with_c (delete p (nw_vas w)) (nw_mems w) (nw_ctxs w) n (nw_stranded w) w').
Proof.
  intros H Hv Hf Eh Em Eb En -> Hl Hp. destruct H as [H1 H2 H3 H4 H5 H6 H7 H8]. split; try done; cbn.
  - rewrite Eh, Em. unfold owners. cbn. rewrite Hp. eapply space_perm; [|exact H1].
    rewrite (owners_at w p v Hv). unfold others. symmetry. apply Permutation_middle.
  - by rewrite En.
  - rewrite En. destruct H4 as (H4 & ? & ?). split; [|done]. by apply map_Forall_delete.
  - rewrite (total_delete _ _ _ _ Hv), H5. lia.
  - intros q m Hm. destruct (H6 q m Hm) as (v0 & id & Hv0 & Hb). exists v0, id. split; [|done].
    rewrite lookup_delete_ne; [done|]. intros ->. by apply (Hf q m Hm).
  - by rewrite Eb.
Qed.

(** The group that a release covers is the range's. *)
Lemma release_group k ids w p v :
  inv k ids w -> nw_vas w !! p = Some v ->
  omap (fun i => (fun m => (i, m)) <$> b_map (nw_rm w) !! i) (bd_mapping <$> va_bindings v) = va_maps v.
Proof.
  intros H Hv. pose proof (i_space _ _ _ H) as Hsp. rewrite (owners_at w p v Hv) in Hsp.
  assert (Hin : forall b, b ∈ va_bindings v -> b_map (nw_rm w) !! bd_mapping b = Some (va_addr v + bd_offset b, bd_size b)).
  { intros b Hb. apply (space_lookup _ _ _ _ _ Hsp). apply elem_of_app. left. apply list_elem_of_fmap. by exists b. }
  unfold va_maps. clear Hsp. induction (va_bindings v) as [|b l IH]; [done|]. cbn. rewrite (Hin b) by apply elem_of_cons, or_introl, eq_refl. cbn.
  f_equal. apply IH. intros c Hc. apply Hin. by apply elem_of_cons; right.
Qed.

Lemma release_range_ok k ids w p v :
  inv k ids w -> nw_vas w !! p = Some v -> free_range w p ->
  wp (release_range B v) (fun ok w' => frame w w' /\ nw_vas w' = nw_vas w /\
    if ok : bool then inv k ids (with_c (delete p (nw_vas w)) (nw_mems w) (nw_ctxs w) (nw_blocks w' - va_blocks v) (nw_stranded w) w') else inv k ids w') w.
Proof.
  intros H Hv Hf. unfold release_range.
  assert (Hcall : forall k2 w2, inv k2 ids w2 -> nw_vas w2 = nw_vas w -> nw_mems w2 = nw_mems w -> nw_ctxs w2 = nw_ctxs w -> nw_stranded w2 = nw_stranded w -> frame w w2 ->
    wp (nv_rm B (CVaFree (bd_mapping <$> va_bindings v) (va_addr v) (va_size_B v))) (fun a w' => frame w w' /\ nw_vas w' = nw_vas w /\
      nw_blocks w' = nw_blocks w2 /\
      if an_status a =? VK_SUCCESS then inv k ids (with_c (delete p (nw_vas w)) (nw_mems w) (nw_ctxs w) (nw_blocks w2 + (k - k2) - va_blocks v) (nw_stranded w) w')
      else inv k2 ids w') w2).
  { intros k2 w2 H2 E1 E2 E3 E4 F2. set (c := CVaFree _ _ _). set (a := bk_answer B (nw_rm w2) c).
    assert (Fc : forall w', quiet (called w2 c) w' -> frame w w' /\ nw_vas w' = nw_vas w /\ nw_blocks w' = nw_blocks w2).
    { intros w' Q. split; [|by rewrite (q_vas _ _ Q), (q_blocks _ _ Q)].
      etrans; [exact F2|]. etrans; [by apply (called_frame w2 c)|by apply quiet_frame]. }
    destruct (Z.eqb_spec (an_status a) VK_SUCCESS) as [Es|Es].
    - apply (wp_nv_rm_with (delete p (nw_vas w)) (nw_mems w) (nw_ctxs w) (nw_blocks w2 + (k - k2) - va_blocks v) (nw_stranded w) k ids).
      + rewrite <- E1, <- E2, <- E3, <- E4. rewrite <- E1 in Hv. apply (inv_give k2 k ids w2 _ p v); try done.
        * unfold free_range. by rewrite E2.
        * cbn. unfold effect. fold a. by rewrite Es.
        * cbn. unfold effect. fold a. by rewrite Es.
        * cbn. unfold effect. fold a. rewrite Es. apply (i_lost _ _ _ H2).
        * cbn. unfold effect. fold a. rewrite Es. cbn. rewrite (release_group _ _ _ _ _ H2 Hv). fold (va_group v).
          rewrite <- app_assoc. symmetry. apply Permutation_middle.
      + intros w' Hi Q. fold a. rewrite (proj2 (Z.eqb_eq _ _) Es). destruct (Fc _ Q) as (? & ? & ?). done.
    - apply (wp_nv_rm k2 ids); [by apply called_failed|]. intros w' Hi Q. fold a. rewrite (proj2 (Z.eqb_neq _ _) Es).
      destruct (Fc _ Q) as (? & ? & ?). done. }
  destruct (16 <? _).
  - apply wp_bind, wp_calloc; [by apply wp_ret|]. pose proof (i_next _ _ _ H). rewrite (proj2 (Z.eqb_neq (nw_next w) 0)) by lia.
    apply wp_bind. eapply wp_mono; [apply (Hcall (k + 1) (alloced w)); try done; [by apply alloced_ok|apply frame_alloced]|].
    intros a w' (F & V & N & Hi). unfold wp. mrun. cbn [fst snd].
    split; [etrans; [exact F|by split]|]. split; [exact V|]. destruct (an_status a =? VK_SUCCESS); [|by apply free_block_ok].
    cbn. rewrite N. by replace (nw_blocks (alloced w) + -1 - va_blocks v) with (nw_blocks (alloced w) + (k - (k + 1)) - va_blocks v) by lia.
  - apply wp_bind. apply wp_ret. cbn [Z.eqb]. apply wp_bind. eapply wp_mono; [apply (Hcall k w); done|].
    intros a w' (F & V & N & Hi). unfold wp. mrun. split; [exact F|]. split; [exact V|]. destruct (an_status a =? VK_SUCCESS); [|done].
    cbn. rewrite N. by replace (nw_blocks w - va_blocks v) with (nw_blocks w + (k - k) - va_blocks v) by lia.
Qed.

(** Freeing always succeeds: the range leaves the table; what could not be
    given back is given up and the device lost. *)
Lemma rm_va_free_ok k ids w p v :
  inv k ids w -> nw_vas w !! p = Some v -> free_range w p ->
  wp (rm_va_free B p) (fun _ w' => inv k ids w' /\ frame w w' /\ nw_vas w' = delete p (nw_vas w)) w.
Proof.
  intros H Hv Hf. unfold rm_va_free. apply wp_bind, (wp_get_va p v); [done|].
  apply wp_bind. eapply wp_mono; [by apply (release_range_ok k ids w p v)|]. intros ok w1 (F & V & Hi); unfold wp.
  destruct ok; mrun.
  - assert (E : (add_blocks (- (1 + Z.of_nat (length (va_bindings v)))) (put_vas (delete p (nw_vas w1)) w1).2).2 =
                with_c (delete p (nw_vas w)) (nw_mems w) (nw_ctxs w) (nw_blocks w1 - va_blocks v) (nw_stranded w) w1).
    { destruct F. unfold with_c, va_blocks, Z.sub. cbn. congruence. }
    rewrite E. split; [exact Hi|]. split; [|done]. apply frame_with; [exact F|apply F].
  - rewrite rm_mem_lost_run. cbn [snd]. change (mk_nw _ _ _ _ _ _ _ _ _ _) with (retain (va_group v) w1).2. rewrite retain_lost.
    destruct (rm_mem_lost_ok k ids w1 Hi) as (H2 & F2 & L2 & V2 & N2). set (w2 := lost_world w1) in *.
    assert (Ef : (add_blocks (- (1 + Z.of_nat (length (va_bindings v)))) (put_vas (delete p (nw_vas w2)) (retain (va_group v) w2).2).2).2 =
                with_c (delete p (nw_vas w2)) (nw_mems w2) (nw_ctxs w2) (nw_blocks w2 + (k - k) - va_blocks v) (nw_stranded w2) (retain (va_group v) w2).2).
    { unfold with_c, va_blocks. cbn. f_equal. lia. }
    assert (Ev : nw_vas w2 = nw_vas w) by congruence.
    change (nw_vas (retain (va_group v) w2).2) with (nw_vas w2). rewrite Ef.
    split; [|split].
    + apply (inv_give k k ids w2 _ p v); try done; [by rewrite Ev| |].
      * unfold free_range. by rewrite (f_mems _ _ F2), (f_mems _ _ F).
      * cbn. rewrite app_assoc. symmetry. apply Permutation_cons_append.
    + etrans; [exact F|]. etrans; [exact F2|]. by split.
    + cbn. by rewrite Ev.
Qed.

(** ** Memory objects *)

Lemma keys_insert (m : gmap Z Z) i x : m !! i = None -> (map_to_list (<[i := x]> m)).*1 ≡ₚ i :: (map_to_list m).*1.
Proof. intros H. by rewrite map_to_list_insert. Qed.
Lemma keys_delete (m : gmap Z Z) i l : (map_to_list m).*1 ≡ₚ i :: l -> (map_to_list (delete i m)).*1 ≡ₚ l.
Proof.
  intros H. destruct (m !! i) as [x|] eqn:E.
  - apply (Permutation_cons_inv (a := i)). rewrite <- H, <- (keys_insert _ _ x) by apply lookup_delete_eq. by rewrite insert_delete_id.
  - exfalso. assert (Hi : i ∈ (map_to_list m).*1) by (rewrite H; set_solver).
    apply list_elem_of_fmap in Hi as ([j y] & -> & Hi). apply elem_of_map_to_list in Hi. cbn in *. congruence.
Qed.

(** A call that makes an allocation, and one that gives it back. *)
Definition makes (c : call) : Prop := match c with CAlloc _ _ _ _ | CImport _ _ => True | _ => False end.
Lemma called_made k ids w c :
  makes c -> an_status (bk_answer B (nw_rm w) c) = VK_SUCCESS -> inv k ids w -> inv k (an_id (bk_answer B (nw_rm w) c) :: ids) (called w c).
Proof.
  intros Hc Es [H1 H2 H3 H4 H5 H6 H7 H8]. pose proof (alloc_fresh (nw_rm w) c Es) as Hf.
  unfold called, effect. rewrite Es. destruct c; try done; (split; try done; cbn; rewrite keys_insert by done; simpl; by rewrite H8).
Qed.
Lemma called_freed k i ids w :
  an_status (bk_answer B (nw_rm w) (CFree i)) = VK_SUCCESS -> inv k (i :: ids) w -> inv k ids (called w (CFree i)).
Proof.
  intros Es [H1 H2 H3 H4 H5 H6 H7 H8]. unfold called, effect. rewrite Es. split; try done. cbn. by apply keys_delete.
Qed.
Lemma strand_ok k i ids w : b_lost (nw_rm w) = true -> inv k (i :: ids) w -> inv k ids (strand i w).2.
Proof.
  intros Hl [H1 H2 H3 H4 H5 H6 H7 H8]. split; try done. cbn. rewrite H8. simpl. by rewrite app_assoc, Permutation_middle, <- app_assoc.
Qed.

(** What giving an allocation back, or failing to, leaves alone. *)
Definition same_objects (w w' : nworld) : Prop :=
  nw_vas w' = nw_vas w /\ nw_mems w' = nw_mems w /\ nw_ctxs w' = nw_ctxs w /\ b_ctx (nw_rm w') = b_ctx (nw_rm w) /\
  b_batches (nw_rm w') = b_batches (nw_rm w) /\ b_cpu (nw_rm w') = b_cpu (nw_rm w) /\ (b_lost (nw_rm w) = true -> b_lost (nw_rm w') = true).
#[local] Instance same_objects_po : PreOrder same_objects.
Proof. split; [done|]. intros w1 w2 w3 (? & ? & ? & ? & ? & ? & ?) (? & ? & ? & ? & ? & ? & ?). repeat split; try congruence. auto. Qed.
Lemma quiet_objects w w' : quiet w w' -> same_objects w w'.
Proof. by intros []. Qed.
Lemma frame_objects w w' : frame w w' -> nw_vas w' = nw_vas w -> same_objects w w'.
Proof. by intros []. Qed.
Lemma called_objects w c : (match c with CFree _ => True | _ => makes c end) -> same_objects w (called w c).
Proof. intros H. unfold called, effect. destruct (_ =? _); [|done]. by destruct c. Qed.

Lemma give_back_ok k i ids w :
  inv k (i :: ids) w -> wp (give_back B i) (fun r w' => inv k ids w' /\ same_objects w w' /\
    (r = VK_SUCCESS \/ r = VK_ERROR_DEVICE_LOST /\ b_lost (nw_rm w') = true)) w.
Proof.
  intros H. unfold give_back. apply wp_bind. set (a := bk_answer B (nw_rm w) (CFree i)).
  assert (Hc : forall w', quiet (called w (CFree i)) w' -> same_objects w w').
  { intros w' Q. etrans; [by apply (called_objects w (CFree i))|by apply quiet_objects]. }
  destruct (Z.eqb_spec (an_status a) VK_SUCCESS) as [Es|Es].
  - apply (wp_nv_rm k ids); [by apply called_freed|]. intros w' Hi Q. fold a. rewrite (proj2 (Z.eqb_eq _ _) Es). apply wp_ret. auto.
  - apply (wp_nv_rm k (i :: ids)); [by apply called_failed|]. intros w' Hi Q. fold a. unfold wp. rewrite (proj2 (Z.eqb_neq _ _) Es).
    mrun. rewrite rm_mem_lost_run. change (mk_nw _ _ _ _ _ _ _ _ _ _) with (strand i w').2. rewrite strand_lost.
    destruct (rm_mem_lost_ok k (i :: ids) w' Hi) as (H2 & F2 & L2 & V2 & N2).
    split; [by apply strand_ok|]. split; [|by right]. etrans; [by apply Hc|]. apply (frame_objects w' _ F2 V2).
Qed.
Definition gave_up (r : Z) (w : nworld) (e : Z + Z) (w' : nworld) : Prop :=
  same_objects w w' /\ (e = inl r \/ e = inl VK_ERROR_DEVICE_LOST /\ b_lost (nw_rm w') = true).
Lemma fail_mem_ok k i ids r w :
  inv (k + 1) (i :: ids) w -> wp (fail_mem B i r) (fun e w' => inv k ids w' /\ gave_up r w e w') w.
Proof.
  intros H. unfold fail_mem. apply wp_bind. eapply wp_mono; [by apply give_back_ok|]. intros x w' (Hi & S & Hx). unfold wp. mrun.
  split; [by apply free_block_ok|]. split; [exact S|]. destruct Hx as [->|[-> Hl]]; [by left|by right].
Qed.

(** A new memory object: its allocation bound whole at a range of its own; or
    an error, and the objects are what they were. *)
Definition kept (w w' : nworld) : Prop :=
  nw_ctxs w' = nw_ctxs w /\ b_ctx (nw_rm w') = b_ctx (nw_rm w) /\ b_batches (nw_rm w') = b_batches (nw_rm w) /\
  b_cpu (nw_rm w') = b_cpu (nw_rm w) /\ (b_lost (nw_rm w) = true -> b_lost (nw_rm w') = true).
Lemma kept_trans w1 w2 w3 : kept w1 w2 -> kept w2 w3 -> kept w1 w3.
Proof. intros (? & ? & ? & ? & ?) (? & ? & ? & ? & ?). repeat split; try congruence. auto. Qed.
Lemma objects_kept w w' : same_objects w w' -> kept w w'.
Proof. intros (? & ? & ? & ? & ? & ? & ?). by repeat split. Qed.
Lemma frame_kept w w' : frame w w' -> kept w w'.
Proof. intros []. by repeat split. Qed.
Definition mem_result (w w' : nworld) (flags : mem_flags) (kind alignment : Z) (r : Z + Z) : Prop :=
  kept w w' /\
  match r with
  | inl e => same_objects w w' /\ e <> VK_SUCCESS
  | inr p => exists id size va a i, nw_mems w !! p = None /\ nw_vas w !! va = None /\
      nw_mems w' = <[p := mk_mem flags size id va]> (nw_mems w) /\
      nw_vas w' = <[va := mk_va a (align64 size 4096) kind [mk_binding 0 size i]]> (nw_vas w) /\
      a mod Z.max alignment 4096 = 0 /\ 0 < size <= align64 size 4096
  end.

Lemma inv_new_mem k i ids w p m v j :
  inv (k + 1) (i :: ids) w -> nw_vas w !! mm_va m = Some v -> va_bindings v = [mk_binding 0 (mm_size_B m) j] -> free_range w (mm_va m) ->
  mm_alloc m = i -> nw_mems w !! p = None -> 0 < p < nw_next w -> inv k ids (put_mems (<[p := m]> (nw_mems w)) w).2.
Proof.
  intros [H1 H2 H3 H4 H5 H6 H7 H8] Hv Hb Hf Ei Hp Hn. split; try done; cbn.
  - destruct H4 as (? & H4 & ?). split; [done|]. split; [|done]. by apply map_Forall_insert_2.
  - rewrite total_insert_new by done. lia.
  - apply map_Forall_insert_2; [by exists v, j|done].
  - intros q q' m1 m2 [(<- & <-)|(? & E1)]%lookup_insert_Some [(<- & <-)|(? & E2)]%lookup_insert_Some E; try done.
    + exfalso. by apply (Hf q' m2).
    + exfalso. by apply (Hf q m1).
    + by apply (H7 q q' m1 m2).
  - rewrite map_to_list_insert by done. cbn. rewrite Ei, H8. simpl. apply Permutation_middle.
Qed.

Lemma fresh_range k ids w q : inv k ids w -> nw_vas w !! q = None -> free_range w q.
Proof. intros H Hq p m Hm <-. destruct (i_whole _ _ _ H p m Hm) as (v & ? & Hv & _). congruence. Qed.

Lemma mem_with_range_ok k ids w p flags a kind alignment :
  is_u64 (an_size a) -> is_u64 alignment -> inv (k + 1) (an_id a :: ids) w -> nw_mems w !! p = None -> 0 < p < nw_next w ->
  wp (mem_with_range B p flags a kind alignment) (fun r w' => inv k ids w' /\ mem_result w w' flags kind alignment r) w.
Proof.
  intros Hs Ha H Hp Hn. unfold mem_with_range. apply wp_bind. eapply wp_mono; [by apply (rm_va_alloc_ok (k + 1) (an_id a :: ids))|].
  intros [e|va] w1 (H1 & F1 & R1).
  - destruct R1 as [V1 He]. eapply wp_mono; [by apply fail_mem_ok|]. intros r w2 (H2 & S2 & R2). split; [done|].
    assert (S : same_objects w w2) by (etrans; [by apply frame_objects|exact S2]). split; [by apply objects_kept|].
    destruct R2 as [->|[-> _]]; by split.
  - destruct R1 as (ad & Hva & V1 & Hal & Hsz & _).
    assert (Hv1 : nw_vas w1 !! va = Some (mk_va ad (align64 (an_size a) 4096) kind [])) by (by rewrite V1, lookup_insert_eq).
    assert (Hf1 : free_range w1 va).
    { unfold free_range. rewrite (f_mems _ _ F1). by apply (fresh_range _ _ _ _ H). }
    apply wp_bind. eapply wp_mono; [apply (rm_va_bind_ok (k + 1) (an_id a :: ids) va 0 _ 0 (an_size a) w1 (mk_va ad (align64 (an_size a) 4096) kind [])); try done; unfold is_u64 in Hs; lia|].
    intros r w2 (l & H2 & F2 & V2 & R2). rewrite V1, insert_insert_eq in V2.
    assert (Hv2 : nw_vas w2 !! va = Some (with_bindings (mk_va ad (align64 (an_size a) 4096) kind []) l)) by (by rewrite V2, lookup_insert_eq).
    assert (F : frame w w2) by (by etrans).
    assert (Hf2 : free_range w2 va) by (unfold free_range; by rewrite (f_mems _ _ F2)).
    destruct R2 as [_ R2]. destruct (Z.eqb_spec r VK_SUCCESS) as [->|Hr]; cbn [negb].
    + rewrite decide_True in R2 by done. destruct R2 as (_ & _ & i & ->). unfold wp. mrun.
      assert (Hp2 : nw_mems w2 !! p = None) by (by rewrite (f_mems _ _ F)).
      split; [|split; [by apply (frame_kept w w2)|]].
      * apply (inv_new_mem k (an_id a) ids w2 p (mk_mem flags (an_size a) (an_id a) va) _ i H2 Hv2); try done. pose proof (f_next _ _ F). lia.
      * exists (an_id a), (an_size a), va, ad, i. cbn. rewrite (f_mems _ _ F). done.
    + rewrite decide_False in R2 by done. apply wp_bind.
      eapply wp_mono; [exact (rm_va_free_ok (k + 1) (an_id a :: ids) w2 va _ H2 Hv2 Hf2)|]. intros _ w3 (H3 & F3 & V3).
      rewrite V2, delete_insert_id in V3 by done. assert (F' : frame w w3) by (by etrans).
      eapply wp_mono; [by apply fail_mem_ok|]. intros e w4 (H4 & S4 & R4). split; [done|].
      assert (S : same_objects w w4) by (etrans; [by apply frame_objects|exact S4]). split; [by apply objects_kept|].
      destruct R4 as [->|[-> _]]; by split.
Qed.

Lemma mem_result_pre w w1 w' f kd al r : same_objects w w1 -> mem_result w1 w' f kd al r -> mem_result w w' f kd al r.
Proof.
  intros S [Hl H]. split; [eapply kept_trans; [by apply objects_kept|exact Hl]|]. destruct r as [e|p].
  - destruct H as [S' He]. split; [by etrans|done].
  - destruct S as (<- & <- & _). exact H.
Qed.
Lemma alloced_objects w : same_objects w (alloced w).
Proof. done. Qed.
Lemma mem_result_err w w' f kd al e : same_objects w w' -> e <> VK_SUCCESS -> mem_result w w' f kd al (inl e).
Proof. intros S He. split; [by apply objects_kept|done]. Qed.

(** A block for the object, a call that makes an allocation, then the range. *)
Definition made (p : Z) (c : call) (flags : mem_flags) (kind alignment : Z) : M nworld (Z + Z) :=
  a ← nv_rm B c;
  if negb (an_status a =? VK_SUCCESS) then _ ← free_block; mret (inl (rm_result (an_status a)))
  else mem_with_range B p flags a kind alignment.
Lemma made_ok k ids w c flags kind alignment :
  makes c -> is_u64 alignment -> inv k ids w ->
  wp (made (nw_next w) c flags kind alignment) (fun r w' => inv k ids w' /\ mem_result w w' flags kind alignment r) (alloced w).
Proof.
  intros Hc Ha H. pose proof (alloced_ok _ _ _ H) as H1. set (w1 := alloced w) in *.
  assert (S : forall w', quiet (called w1 c) w' -> same_objects w w').
  { intros w' Q. etrans; [apply alloced_objects|]. etrans; [apply (called_objects w1 c); by destruct c|by apply quiet_objects]. }
  pose proof (i_next _ _ _ H) as Hn. pose proof (proj1 (proj2 (i_below _ _ _ H))) as Hb.
  unfold made. apply wp_bind. set (a := bk_answer B (nw_rm w1) c). destruct (Z.eqb_spec (an_status a) VK_SUCCESS) as [Es|Es].
  - apply (wp_nv_rm (k + 1) (an_id a :: ids)); [by apply called_made|]. intros w' Hi Q. fold a. rewrite (proj2 (Z.eqb_eq _ _) Es). cbn [negb].
    eapply wp_mono; [apply (mem_with_range_ok k ids w' (nw_next w)); try done; [apply size_u64| |]|].
    + rewrite (q_mems _ _ Q). unfold called. cbn. destruct (nw_mems w !! nw_next w) as [m|] eqn:E; [|done]. apply Hb in E. cbn in E. lia.
    + rewrite (q_next _ _ Q). cbn. lia.
    + intros r w2 [H2 R]. split; [done|]. eapply mem_result_pre; [by apply S|done].
  - apply (wp_nv_rm (k + 1) ids); [by apply called_failed|]. intros w' Hi Q. fold a. rewrite (proj2 (Z.eqb_neq _ _) Es). cbn [negb].
    unfold wp. mrun. split; [by apply free_block_ok|]. apply mem_result_err; [|exact Es]. by apply (S w').
Qed.

Definition mem_alignment (f : mem_flags) (alignment : Z) : Z :=
  if mf_pool_block f then NVKMD_POOL_BLOCK_SIZE else if mf_gart f then alignment else Z.max alignment 65536.
Lemma mem_policy_alignment g f size alignment kind pl s al :
  mem_policy g f size alignment kind = Some (pl, s, al) -> al = mem_alignment f alignment.
Proof.
  unfold mem_policy, mem_alignment. destruct (mf_pool_block f && _); [done|]. intros H.
  destruct (mf_pool_block f); [by injection H as _ _ <-|]. destruct (mf_gart f); by injection H as _ _ <-.
Qed.
Lemma rm_mem_alloc_kind_ok k ids w g size alignment flags kind :
  is_u64 alignment -> inv k ids w ->
  wp (rm_mem_alloc_kind B g size alignment flags kind) (fun r w' =>
    inv k ids w' /\ mem_result w w' (coherent flags) kind (mem_alignment flags alignment) r) w.
Proof.
  intros Ha H. unfold rm_mem_alloc_kind. apply wp_bind, wp_calloc; [by apply wp_ret|].
  pose proof (i_next _ _ _ H). rewrite (proj2 (Z.eqb_neq (nw_next w) 0)) by lia.
  destruct (mem_policy g flags size alignment kind) as [[[pl s] al]|] eqn:E.
  - apply mem_policy_alignment in E as ->. apply (made_ok k ids w (CAlloc _ _ _ _)); try done.
    unfold mem_alignment, NVKMD_POOL_BLOCK_SIZE, is_u64 in *. destruct (mf_pool_block flags), (mf_gart flags); lia.
  - unfold wp. mrun. split; [by apply free_block_ok, alloced_ok|]. by apply mem_result_err.
Qed.
Lemma rm_mem_import_ok k ids w drm_fd fd :
  inv k ids w -> wp (rm_mem_import B drm_fd fd) (fun r w' => inv k ids w' /\ mem_result w w' import_flags 0 4096 r) w.
Proof.
  intros H. unfold rm_mem_import. apply wp_bind, wp_calloc; [by apply wp_ret|].
  pose proof (i_next _ _ _ H). rewrite (proj2 (Z.eqb_neq (nw_next w) 0)) by lia. by apply (made_ok k ids w (CImport drm_fd fd)).
Qed.

Lemma rm_mem_tiled_ok k ids w g size alignment kind tile flags :
  is_u64 alignment -> inv k ids w ->
  wp (rm_mem_tiled B g size alignment kind tile flags) (fun r w' =>
    inv k ids w' /\ mem_result w w' (coherent flags) kind (mem_alignment flags alignment) r) w.
Proof.
  intros Ha H. unfold rm_mem_tiled. destruct ((kind =? 0) && (tile =? 0)) eqn:E.
  { bool_props. subst. by apply rm_mem_alloc_kind_ok. }
  destruct (tiled_refused g kind tile); [by apply wp_ret|].
  destruct ((g =? _) && _ && _); [by apply wp_ret|]. by apply rm_mem_alloc_kind_ok.
Qed.

(** Computations that do not look at the table of memory objects. *)
Definition blind {A} (c : M nworld A) : Prop := forall Ms w, c (put_mems Ms w).2 = ((c w).1, (put_mems Ms (c w).2).2).
Lemma blind_ret {A} (x : A) : blind (mret x).
Proof. done. Qed.
Lemma blind_bind {A C} (c : M nworld A) (f : A -> M nworld C) : blind c -> (forall x, blind (f x)) -> blind (c ≫= f).
Proof. intros Hc Hf Ms w. rewrite (bind_run c f w), bind_run, Hc. apply Hf. Qed.
Lemma blind_get {A} (f : nworld -> M nworld A) :
  (forall w, blind (f w)) -> (forall Ms w, f (put_mems Ms w).2 = f w) -> blind (getS ≫= f).
Proof.
  intros H1 H2 Ms w. change (f (put_mems Ms w).2 (put_mems Ms w).2 = ((f w w).1, (put_mems Ms (f w w).2).2)). rewrite H2. apply H1.
Qed.
Lemma blind_if {A} (b : bool) (c d : M nworld A) : blind c -> blind d -> blind (if b then c else d).
Proof. by destruct b. Qed.
Lemma blind_mems {A} (c : M nworld A) w : blind c -> nw_mems (c w).2 = nw_mems w.
Proof.
  intros H. specialize (H (nw_mems w) w). replace ((put_mems (nw_mems w) w).2) with w in H by (by destruct w).
  apply (f_equal (fun x => nw_mems x.2)) in H. exact H.
Qed.
Lemma blind_reclaim x : blind (reclaim x).
Proof.
  apply blind_get; [|done]. intros w. destruct (b_pending (nw_rm w) !! x.1) as [g|]; [|done].
  apply blind_bind; [done|]. intros []. by destruct x as [n [|]].
Qed.
Lemma blind_reclaim_all l : blind (reclaim_all l).
Proof. induction l as [|x l IH]; [done|]. apply blind_bind; [apply blind_reclaim|by intros []]. Qed.
Lemma blind_nv_rm c : blind (nv_rm B c).
Proof.
  apply blind_get; [|done]. intros w. apply blind_bind; [done|]. intros []. apply blind_bind; [|done].
  apply blind_get; [|done]. intros w1. apply blind_bind; [done|]. intros []. apply blind_reclaim_all.
Qed.
Lemma blind_calloc what : blind (calloc B what).
Proof. apply blind_get; [|done]. intros w. by destruct (bk_calloc B (nw_rm w) what). Qed.
Lemma blind_mem_lost : blind rm_mem_lost.
Proof. intros Ms w. rewrite !rm_mem_lost_run. unfold lost_world. cbn. destruct (nw_vk w) as [[|]|] eqn:E; cbn; by rewrite ?E. Qed.
Lemma blind_give_back i : blind (give_back B i).
Proof. apply blind_bind; [apply blind_nv_rm|]. intros a. apply blind_if; [done|]. apply blind_bind; [done|]. intros []. apply blind_mem_lost. Qed.
Lemma blind_va_free p : blind (rm_va_free B p).
Proof.
  apply blind_bind; [by apply blind_get|]. intros v. apply blind_bind.
  - apply blind_bind; [apply blind_if; [apply blind_calloc|done]|]. intros ids. apply blind_if; [done|].
    apply blind_bind; [apply blind_nv_rm|]. intros a. apply blind_bind; [by apply blind_if|done].
  - intros ok. apply blind_bind.
    + apply blind_if; [done|]. apply blind_bind; [done|]. intros []. apply blind_bind; [apply blind_mem_lost|done].
    + intros []. by apply blind_get.
Qed.

(** A memory object about to be freed: its block and its allocation in hand. *)
Lemma inv_take_mem k ids w p m :
  inv k ids w -> nw_mems w !! p = Some m ->
  inv (k + 1) (mm_alloc m :: ids) (put_mems (delete p (nw_mems w)) w).2 /\ free_range (put_mems (delete p (nw_mems w)) w).2 (mm_va m).
Proof.
  intros [H1 H2 H3 H4 H5 H6 H7 H8] Hp. split.
  - split; try done; cbn.
    + destruct H4 as (? & H4 & ?). split; [done|]. split; [|done]. by apply map_Forall_delete.
    + rewrite (total_delete _ _ _ _ Hp). lia.
    + by apply map_Forall_delete.
    + intros q q' m1 m2 [_ E1]%lookup_delete_Some [_ E2]%lookup_delete_Some. by apply (H7 q q').
    + rewrite H8. rewrite <- (insert_delete_id _ _ _ Hp) at 1. rewrite map_to_list_insert by apply lookup_delete_eq. cbn.
      symmetry. apply Permutation_middle.
  - intros q m' Hq E. cbn in Hq. apply lookup_delete_Some in Hq as [Hne Hq]. apply Hne. by apply (H7 p q m m').
Qed.
Lemma rm_mem_free_ok k ids w p m :
  inv k ids w -> nw_mems w !! p = Some m ->
  wp (rm_mem_free B p) (fun _ w' => inv k ids w' /\ nw_mems w' = delete p (nw_mems w) /\ nw_vas w' = delete (mm_va m) (nw_vas w) /\
    nw_ctxs w' = nw_ctxs w /\ b_ctx (nw_rm w') = b_ctx (nw_rm w) /\ b_batches (nw_rm w') = b_batches (nw_rm w) /\
    b_cpu (nw_rm w') = b_cpu (nw_rm w) /\ (b_lost (nw_rm w) = true -> b_lost (nw_rm w') = true)) w.
Proof.
  intros H Hp. destruct (inv_take_mem _ _ _ _ _ H Hp) as [H0 Hf]. destruct (i_whole _ _ _ H p m Hp) as (v & j & Hv & _).
  set (c := _ ← rm_va_free B (mm_va m); give_back B (mm_alloc m)).
  assert (Hc : wp c (fun _ w' => inv (k + 1) ids w' /\ nw_vas w' = delete (mm_va m) (nw_vas w) /\
    nw_ctxs w' = nw_ctxs w /\ b_ctx (nw_rm w') = b_ctx (nw_rm w) /\ b_batches (nw_rm w') = b_batches (nw_rm w) /\
    b_cpu (nw_rm w') = b_cpu (nw_rm w) /\ (b_lost (nw_rm w) = true -> b_lost (nw_rm w') = true)) (put_mems (delete p (nw_mems w)) w).2).
  { apply wp_bind. eapply wp_mono; [by apply (rm_va_free_ok (k + 1) (mm_alloc m :: ids) _ (mm_va m) v)|]. intros [] w1 (H1 & F1 & V1).
    eapply wp_mono; [by apply give_back_ok|]. intros r w2 (H2 & (S1 & S2 & S3 & S4 & S5 & S6 & S7) & _).
    destruct F1. cbn in *. split; [done|]. repeat split; try congruence. auto. }
  assert (Bc : blind c) by (apply blind_bind; [apply blind_va_free|intros []; apply blind_give_back]).
  assert (E : rm_mem_free B p w = (_ ← c; w ← getS; _ ← put_mems (delete p (nw_mems w)); free_block) w).
  { unfold rm_mem_free, get_mem, c. mrun. rewrite Hp. cbn [default from_option]. reflexivity. }
  unfold wp. rewrite E. mrun. rewrite (blind_mems _ _ Bc). unfold wp in Hc. rewrite (Bc _ w) in Hc. cbn [fst snd] in Hc.
  set (w1 := (put_mems (delete p (nw_mems w)) (c w).2).2) in *.
  change (mk_nw _ _ _ _ _ _ _ _ _ _) with (free_block w1).2. destruct Hc as (H1 & Hr). split; [by apply free_block_ok|]. split; [done|exact Hr].
Qed.

(** ** CPU maps *)

(** A failed map holds no lease, unless the device is lost. *)
Definition leases (w w' : nworld) (m : Z) (n : Z) : Prop := forall i, cpu_refs (nw_rm w') i = cpu_refs (nw_rm w) i + (if decide (i = m) then n else 0).
Lemma leases_refl w m : leases w w m 0.
Proof. intros i. destruct (decide (i = m)); lia. Qed.
Lemma called_lease w c m d :
  (c = CMap m /\ d = 1 \/ c = CUnmap m /\ d = -1) -> forall w', quiet (called w c) w' ->
  leases w w' m (if an_status (bk_answer B (nw_rm w) c) =? VK_SUCCESS then d else 0) /\ nw_vas w' = nw_vas w /\ nw_mems w' = nw_mems w /\
  (b_lost (nw_rm w) = true -> b_lost (nw_rm w') = true).
Proof.
  intros Hc w' Q. split; [|split; [|split]].
  - intros i. unfold cpu_refs at 1. rewrite (q_cpu _ _ Q). unfold called, effect. cbn.
    destruct (an_status _ =? VK_SUCCESS); [|cbn; change (default 0 (b_cpu (nw_rm w) !! i)) with (cpu_refs (nw_rm w) i); destruct (decide _); lia].
    destruct Hc as [[-> ->]|[-> ->]]; cbn; (destruct (decide (i = m)) as [->|]; [rewrite lookup_insert_eq; cbn; lia|rewrite lookup_insert_ne by done]);
      change (default 0 (b_cpu (nw_rm w) !! i)) with (cpu_refs (nw_rm w) i); lia.
  - rewrite (q_vas _ _ Q). done.
  - rewrite (q_mems _ _ Q). done.
  - intros Hl. apply (q_lost _ _ Q). unfold called, effect. cbn. destruct (an_status _ =? VK_SUCCESS); [|done]. by destruct Hc as [[-> _]|[-> _]].
Qed.

Lemma leases_trans w1 w2 w3 m a b : leases w1 w2 m a -> leases w2 w3 m b -> leases w1 w3 m (a + b).
Proof. intros H1 H2 i. rewrite (H2 i), (H1 i). destruct (decide _); lia. Qed.
Lemma frame_leases w w' m : frame w w' -> leases w w' m 0.
Proof. intros F i. unfold cpu_refs. rewrite (f_cpu _ _ F). destruct (decide _); lia. Qed.
Definition same_tables (w w' : nworld) : Prop :=
  nw_vas w' = nw_vas w /\ nw_mems w' = nw_mems w /\ nw_ctxs w' = nw_ctxs w /\ b_ctx (nw_rm w') = b_ctx (nw_rm w) /\
  b_batches (nw_rm w') = b_batches (nw_rm w) /\ (b_lost (nw_rm w) = true -> b_lost (nw_rm w') = true).
#[local] Instance same_tables_po : PreOrder same_tables.
Proof. split; [done|]. intros w1 w2 w3 (? & ? & ? & ? & ? & ?) (? & ? & ? & ? & ? & ?). repeat split; try congruence. auto. Qed.
Lemma objects_tables w w' : same_objects w w' -> same_tables w w'.
Proof. intros (? & ? & ? & ? & ? & ? & ?). by repeat split. Qed.

(** A [CMap], [CUnmap] or [CExport] call. *)
Definition lease_of (c : call) : Z := match c with CMap _ => 1 | CUnmap _ => -1 | _ => 0 end.
Definition leased (c : call) (m : Z) : Prop := c = CMap m \/ c = CUnmap m \/ exists d, c = CExport m d.
Lemma wp_lease k ids c m w (Q : answer -> nworld -> Prop) :
  leased c m -> inv k ids w ->
  (forall w', inv k ids w' -> same_tables w w' ->
     leases w w' m (if an_status (bk_answer B (nw_rm w) c) =? VK_SUCCESS then lease_of c else 0) -> Q (bk_answer B (nw_rm w) c) w') ->
  wp (nv_rm B c) Q w.
Proof.
  intros Hc H HQ. apply (wp_nv_rm k ids); [apply called_neutral; [by destruct Hc as [->|[->|[d ->]]]|done]|].
  intros w' Hi Q'. apply HQ; [done| |].
  - assert (St : same_tables w (called w c)).
    { unfold called, effect. destruct (_ =? _); [|done]. by destruct Hc as [->|[->|[d ->]]]. }
    etrans; [exact St|]. apply objects_tables, quiet_objects, Q'.
  - destruct Hc as [->|[->|[d ->]]].
    + apply (called_lease w (CMap m) m 1); [by left|done].
    + apply (called_lease w (CUnmap m) m (-1)); [by right|done].
    + intros i. unfold cpu_refs. rewrite (q_cpu _ _ Q'). unfold called, effect. cbn.
      destruct (an_status _ =? VK_SUCCESS); cbn; destruct (decide _); lia.
Qed.
Lemma wp_mem_lost k ids w (Q : Z -> nworld -> Prop) :
  inv k ids w -> (forall w', inv k ids w' -> same_tables w w' -> b_lost (nw_rm w') = true -> (forall m, leases w w' m 0) -> Q VK_ERROR_DEVICE_LOST w') ->
  wp rm_mem_lost Q w.
Proof.
  intros H HQ. unfold wp. rewrite rm_mem_lost_run. destruct (rm_mem_lost_ok k ids w H) as (H2 & F2 & L2 & V2 & N2).
  apply HQ; [done|by apply objects_tables, frame_objects|done|]. intros m. by apply frame_leases.
Qed.
Lemma wp_get_mem p m w (Q : nvkmd_rm_mem -> nworld -> Prop) : nw_mems w !! p = Some m -> Q m w -> wp (get_mem p) Q w.
Proof. intros H HQ. unfold wp, get_mem. mrun. by rewrite H. Qed.

Definition map_result (w w' : nworld) (alloc : Z) (r : Z + Z) : Prop :=
  match r with
  | inr a => a <> 0 /\ leases w w' alloc 1
  | inl e => e <> VK_SUCCESS /\ (leases w w' alloc 0 \/ e = VK_ERROR_DEVICE_LOST /\ b_lost (nw_rm w') = true)
  end.
Lemma rm_mem_map_ok k ids w p m fixed :
  inv k ids w -> nw_mems w !! p = Some m ->
  wp (rm_mem_map B p fixed) (fun r w' => inv k ids w' /\ same_tables w w' /\ map_result w w' (mm_alloc m) r) w.
Proof.
  intros H Hm. unfold rm_mem_map. destruct fixed.
  { apply wp_ret. do 2 (split; [done|]). split; [done|]. left. apply leases_refl. }
  apply wp_bind, (wp_get_mem p m); [done|]. apply wp_bind, (wp_lease k ids _ (mm_alloc m)); [by left|done|].
  intros w1 H1 S1 L1. set (a := bk_answer B (nw_rm w) (CMap (mm_alloc m))) in *.
  destruct (Z.eqb_spec (an_status a) VK_SUCCESS) as [Es|Es]; cbn [negb lease_of] in *.
  - destruct (Z.eqb_spec (an_id a) 0) as [E0|E0].
    + apply wp_bind, (wp_lease k ids _ (mm_alloc m)); [by right; left|done|]. intros w2 H2 S2 L2.
      destruct (an_status _ =? VK_SUCCESS); cbn [negb lease_of] in *.
      * apply wp_ret. split; [done|]. split; [by etrans|]. split; [done|]. left. exact (leases_trans _ _ _ _ 1 (-1) L1 L2).
      * apply wp_bind, (wp_mem_lost k ids); [done|]. intros w3 H3 S3 L3 _. apply wp_ret. split; [done|].
        split; [etrans; [exact S1|by etrans]|]. split; [done|by right].
    + apply wp_ret. do 2 (split; [done|]). by split.
  - unfold wp at 1. unfold nv_rm_is_lost. mrun.
    destruct ((an_status a =? VK_ERROR_DEVICE_LOST) || b_lost (nw_rm w1)).
    + mrun. rewrite rm_mem_lost_run. cbn [fst snd]. destruct (rm_mem_lost_ok k ids w1 H1) as (H2 & F2 & L2 & V2 & N2).
      split; [done|]. split; [etrans; [exact S1|by apply objects_tables, frame_objects]|]. split; [done|by right].
    + mrun. split; [done|]. split; [done|]. split; [|by left]. by destruct (_ || _).
Qed.
Lemma rm_mem_unmap_ok k ids w p m :
  inv k ids w -> nw_mems w !! p = Some m ->
  wp (rm_mem_unmap B p) (fun _ w' => inv k ids w' /\ same_tables w w' /\
    (leases w w' (mm_alloc m) (-1) \/ leases w w' (mm_alloc m) 0 /\ b_lost (nw_rm w') = true)) w.
Proof.
  intros H Hm. unfold rm_mem_unmap. apply wp_bind, (wp_get_mem p m); [done|].
  apply wp_bind, (wp_lease k ids _ (mm_alloc m)); [by right; left|done|]. intros w1 H1 S1 L1.
  destruct (an_status _ =? VK_SUCCESS); cbn [lease_of] in L1.
  - apply wp_ret. split; [done|]. split; [done|by left].
  - apply wp_bind, (wp_mem_lost k ids); [done|]. intros w3 H3 S3 L3 Lm. apply wp_ret. split; [done|].
    split; [by etrans|]. right. split; [|done]. exact (leases_trans _ _ _ _ 0 0 L1 (Lm _)).
Qed.
Lemma rm_mem_export_ok k ids w p m drm_fd :
  inv k ids w -> nw_mems w !! p = Some m ->
  wp (rm_mem_export B p drm_fd) (fun _ w' => inv k ids w' /\ same_tables w w' /\ leases w w' (mm_alloc m) 0) w.
Proof.
  intros H Hm. unfold rm_mem_export. apply wp_bind, (wp_get_mem p m); [done|].
  apply wp_bind, (wp_lease k ids _ (mm_alloc m)); [by right; right; exists drm_fd|done|]. intros w1 H1 S1 L1. apply wp_ret.
  do 2 (split; [done|]). by destruct (an_status _ =? VK_SUCCESS).
Qed.

End Proofs.

End RmVa.
