(* ===== verification/RmCtx.v ===== *)
(** * Contexts of the resource-manager backend ([driver-source/native/mesa/nvkmd_rm.c])

    A context collects pushes and waits and hands them to its channel in
    batches: [rm_ctx_exec], [rm_ctx_wait], [rm_ctx_signal], [rm_ctx_flush],
    [rm_ctx_sync], [rm_ctx_bind], creation and destruction, on [RmBackend] and
    [RmVa].  Mesa's [vk_sync_wait_many] and [vk_sync_signal], used by contexts
    without a channel, are calls that the environment answers.

    A submission is retried while the ring is full, so it takes a bound on the
    retries; [Retrying] is the outcome when the bound is used up, and
    [OutOfBounds] that of a read before the first push, which the check before
    the loop excludes.

    What a context asked for and what its channel accepted are compared as one
    list of [item]s, [stream]: a call appends exactly what it accepted, so every
    wait, push and signal reaches the channel once and in order, whatever fails
    and is retried. *)

From Stdlib Require Import ZArith Lia.
From stdpp Require Import base option sets strings gmap list.
From S2P Require Import Prelude RmBackend RmVa.

Set Default Goal Selector "!".
#[local] Open Scope Z_scope.

Module RmCtx.
Import RmBackend RmVa.

Inductive outcome := Returns (r : Z) | Retrying | OutOfBounds.
#[export] Instance outcome_eq_dec : EqDecision outcome.
Proof. solve_decision. Defined.
Definition succeeds (o : outcome) : bool := match o with Returns r => r =? VK_SUCCESS | _ => false end.

Definition UINT64_MAX : Z := 2 ^ 64 - 1.

(** [struct vk_sync_wait] and [vk_sync_signal], with what the code reads of the
    sync object: whether it is one of this backend's, whether it is a timeline. *)
Record vk_sync_point := mk_sp { vs_rm : bool; vs_timeline : bool; vs_id : Z; vs_value : Z }.
Definition point (s : vk_sync_point) : NvRmSyncPoint := mk_point (vs_id s) (vs_value s).
Record nvkmd_ctx_exec := mk_cx { xe_addr : Z; xe_size_B : Z; xe_no_prefetch : bool; xe_incomplete : bool }.
Record nvkmd_ctx_bind := mk_bind { xb_bind : bool; xb_va : Z; xb_va_offset_B : Z; xb_mem : Z; xb_mem_offset_B : Z; xb_range_B : Z }.

Definition incomplete (e : NvRmExec) : bool := negb (Z.land (ex_flags e) NV_RM_EXEC_INCOMPLETE =? 0).
Definition incomplete_at (l : list NvRmExec) (i : nat) : bool := match l !! i with Some e => incomplete e | None => false end.

(** The two loops that move a boundary back, [l] being [pushes + offset]; the
    second does not stop at 0. *)
Fixpoint back_checked (l : list NvRmExec) (count : nat) : nat :=
  match count with O => O | S n => if incomplete_at l n then back_checked l n else count end.
Fixpoint back (l : list NvRmExec) (count : nat) : option nat :=
  match count with O => None | S n => if incomplete_at l n then back l n else Some count end.
Definition MAX_PUSHES : nat := 1000.
Fixpoint boundaries_ok (fuel : nat) (l : list NvRmExec) : bool :=
  match l, fuel with
  | [], _ => true
  | _, O => false
  | _, S fuel =>
      let count := back_checked l (Nat.min (length l) MAX_PUSHES) in
      if (count =? 0)%nat then false else boundaries_ok fuel (drop count l)
  end.

Section Ctx.
Context (B : backend) (retries : nat).

Definition no_ctx : nvkmd_rm_ctx := mk_ctx 0 [] [] 0.
Definition get_ctx (p : Z) : M nworld nvkmd_rm_ctx := w ← getS; mret (default no_ctx (nw_ctxs w !! p)).
Definition put_ctx (p : Z) (c : nvkmd_rm_ctx) : M nworld () := w ← getS; put_ctxs (<[p := c]> (nw_ctxs w)).

Fixpoint rm_ctx_submit (fuel : nat) (p : Z) (pushes : list NvRmExec) (signals : list NvRmSyncPoint) : M nworld outcome :=
  match fuel with
  | O => mret Retrying
  | S fuel =>
      c ← get_ctx p;
      a ← nv_rm B (CSubmit (cx_channel c) pushes (cx_waits c) signals);
      if an_status a =? VK_NOT_READY then
        r ← nv_rm B (CWait (cx_channel c) (an_id a) UINT64_MAX);
        if negb (an_status r =? VK_SUCCESS) then mret (Returns (rm_result (an_status r)))
        else rm_ctx_submit fuel p pushes signals
      else if negb (an_status a =? VK_SUCCESS) then mret (Returns (rm_result (an_status a)))
      else _ ← put_ctx p (mk_ctx (cx_channel c) (cx_pending c) [] (an_id a)); mret (Returns VK_SUCCESS)
  end.

(** The submission loop from [offset] on, with what is left of the pushes: its
    result and the offset it stops at. *)
Fixpoint send_chunks (n : nat) (p : Z) (offset : nat) (l : list NvRmExec) (signals : list NvRmSyncPoint) : M nworld (outcome * nat) :=
  match l, n with
  | [], _ => mret (Returns VK_SUCCESS, offset)
  | _, O => mret (Retrying, offset)
  | _, S n =>
      match back l (Nat.min (length l) MAX_PUSHES) with
      | None => mret (OutOfBounds, offset)
      | Some count =>
          r ← rm_ctx_submit retries p (take count l) (if (count =? length l)%nat then signals else []);
          if negb (succeeds r) then mret (r, offset)
          else send_chunks n p (offset + count) (drop count l) signals
      end
  end.
Definition is_nil {A} (l : list A) : bool := match l with [] => true | _ => false end.
Definition rm_ctx_flush_signals (p : Z) (signals : list NvRmSyncPoint) : M nworld outcome :=
  c ← get_ctx p;
  let pushes := cx_pending c in
  if negb (boundaries_ok (length pushes) pushes) then mret (Returns unsupported)
  else
  if is_nil pushes then
    (if negb (is_nil signals) || negb (is_nil (cx_waits c)) then rm_ctx_submit retries p [] signals else mret (Returns VK_SUCCESS))
  else
  '(result, offset) ← send_chunks (length pushes) p 0 pushes signals;
  c ← get_ctx p;
  _ ← (if (0 <? offset)%nat then put_ctx p (mk_ctx (cx_channel c) (drop offset pushes) (cx_waits c) (cx_last_token c)) else mret tt);
  mret result.
Definition rm_ctx_flush (p : Z) : M nworld outcome := rm_ctx_flush_signals p [].

Definition rm_ctx_sync (p : Z) : M nworld outcome :=
  r ← rm_ctx_flush p;
  c ← get_ctx p;
  if negb (succeeds r) || (cx_last_token c =? 0) then mret r
  else a ← nv_rm B (CWait (cx_channel c) (cx_last_token c) UINT64_MAX); mret (Returns (rm_result (an_status a))).

Fixpoint add_waits (p : Z) (waits : list vk_sync_point) : M nworld outcome :=
  match waits with
  | [] => mret (Returns VK_SUCCESS)
  | s :: waits =>
      if vs_timeline s && (vs_value s =? 0) then add_waits p waits
      else if negb (vs_rm s) then mret (Returns unsupported)
      else
      c ← get_ctx p;
      _ ← put_ctx p (mk_ctx (cx_channel c) (cx_pending c) (cx_waits c ++ [point s]) (cx_last_token c));
      add_waits p waits
  end.
Definition rm_ctx_wait (p : Z) (waits : list vk_sync_point) : M nworld outcome :=
  c ← get_ctx p;
  r ← (if negb (is_nil (cx_pending c)) then rm_ctx_flush p else mret (Returns VK_SUCCESS));
  if negb (succeeds r) then mret r
  else if cx_channel c =? 0 then
    a ← nv_rm B (COther "vk_sync_wait_many" (vs_id <$> waits)); mret (Returns (an_status a))
  else add_waits p waits.

Definition bad_push (e : nvkmd_ctx_exec) : bool :=
  negb (Z.land (xe_addr e) 3 =? 0) || negb (Z.land (xe_size_B e) 3 =? 0) || (xe_size_B e =? 0) || (2 ^ 23 <=? xe_size_B e).
Definition push_of (e : nvkmd_ctx_exec) : NvRmExec :=
  mk_exec (xe_addr e) (xe_size_B e)
    (Z.lor (if xe_no_prefetch e then NV_RM_EXEC_NO_PREFETCH else 0) (if xe_incomplete e then NV_RM_EXEC_INCOMPLETE else 0)).
Fixpoint rm_ctx_exec (p : Z) (execs : list nvkmd_ctx_exec) : M nworld outcome :=
  match execs with
  | [] => mret (Returns VK_SUCCESS)
  | e :: execs =>
      if bad_push e then mret (Returns unsupported)
      else
      c ← get_ctx p;
      _ ← put_ctx p (mk_ctx (cx_channel c) (cx_pending c ++ [push_of e]) (cx_waits c) (cx_last_token c));
      rm_ctx_exec p execs
  end.

Fixpoint do_binds (binds : list nvkmd_ctx_bind) : M nworld outcome :=
  match binds with
  | [] => mret (Returns VK_SUCCESS)
  | b :: binds =>
      r ← (if xb_bind b then m ← get_mem (xb_mem b); rm_va_bind B (xb_va b) (xb_va_offset_B b) m (xb_mem_offset_B b) (xb_range_B b)
           else rm_va_unbind B (xb_va b) (xb_va_offset_B b) (xb_range_B b));
      if negb (r =? VK_SUCCESS) then mret (Returns r) else do_binds binds
  end.
Definition rm_ctx_bind (p : Z) (binds : list nvkmd_ctx_bind) : M nworld outcome :=
  r ← rm_ctx_flush p;
  if negb (succeeds r) then mret r else do_binds binds.

Fixpoint host_signals (signals : list vk_sync_point) : M nworld outcome :=
  match signals with
  | [] => mret (Returns VK_SUCCESS)
  | s :: signals =>
      a ← nv_rm B (COther "vk_sync_signal" [vs_id s; vs_value s]);
      if negb (an_status a =? VK_SUCCESS) then mret (Returns (an_status a)) else host_signals signals
  end.
Definition rm_ctx_signal (p : Z) (signals : list vk_sync_point) : M nworld outcome :=
  c ← get_ctx p;
  if cx_channel c =? 0 then
    r ← rm_ctx_flush p;
    if negb (succeeds r) then mret r else host_signals signals
  else if is_nil signals then rm_ctx_flush p
  else
  points ← calloc B "signals";
  if points =? 0 then mret (Returns VK_ERROR_OUT_OF_HOST_MEMORY)
  else if existsb (fun s => negb (vs_rm s)) signals then _ ← free_block; mret (Returns unsupported)
  else
  r ← rm_ctx_flush_signals p (point <$> signals);
  _ ← free_block;
  mret r.

Definition rm_ctx_destroy (p : Z) : M nworld () :=
  c ← get_ctx p;
  _ ← (if negb (cx_channel c =? 0) then _ ← nv_rm B (CContextDestroy (cx_channel c)); mret tt else mret tt);
  w ← getS;
  _ ← put_ctxs (delete p (nw_ctxs w));
  free_block.

(** [bind_only]: [engines == NVKMD_ENGINE_BIND]; [share]: the context, and
    whether it is one of this backend on the same device. *)
Definition rm_ctx_create_in (engines : Z) (bind_only : bool) (share : option (Z * bool)) : M nworld (Z + Z) :=
  s ← (match share with Some (q, _) => get_ctx q | None => mret no_ctx end);
  if match share with Some (_, same) => negb same || (cx_channel s =? 0) || bind_only | None => false end
  then mret (inl VK_ERROR_INITIALIZATION_FAILED)
  else
  p ← calloc B "context";
  if p =? 0 then mret (inl VK_ERROR_OUT_OF_HOST_MEMORY)
  else if bind_only then _ ← put_ctx p no_ctx; mret (inr p)
  else
  a ← nv_rm B (CContext engines (if share is Some _ then Some (cx_channel s) else None));
  if negb (an_status a =? VK_SUCCESS) then _ ← free_block; mret (inl (rm_result (an_status a)))
  else _ ← put_ctx p (mk_ctx (an_id a) [] [] 0); mret (inr p).
Definition rm_ctx_create (engines : Z) (bind_only : bool) : M nworld (Z + Z) := rm_ctx_create_in engines bind_only None.
Definition nvkmd_rm_create_shared_ctx (engines : Z) (bind_only : bool) (share : option (Z * bool)) : M nworld (Z + Z) :=
  if share is Some _ then rm_ctx_create_in engines bind_only share else mret (inl VK_ERROR_INITIALIZATION_FAILED).

End Ctx.

(** ** What was asked for and what was accepted *)

Inductive item := Wait (p : NvRmSyncPoint) | Push (e : NvRmExec) | Signal (p : NvRmSyncPoint).
Definition items (b : batch) : list item := (Wait <$> bt_waits b) ++ (Push <$> bt_pushes b) ++ (Signal <$> bt_signals b).
Definition on_channel (x : Z) (l : list batch) : list batch := filter (fun b => bt_context b = x) l.
Definition accepted (x : Z) (l : list batch) : list item := on_channel x l ≫= items.
(** The items a context still holds, and all of them in order. *)
Definition held (c : nvkmd_rm_ctx) : list item := (Wait <$> cx_waits c) ++ (Push <$> cx_pending c).
Definition stream (w : nworld) (p : Z) : list item :=
  match nw_ctxs w !! p with Some c => accepted (cx_channel c) (b_batches (nw_rm w)) ++ held c | None => [] end.

(** A batch never exceeds the chunk and never ends inside a continuation. *)
Definition good_batch (b : batch) : Prop :=
  (length (bt_pushes b) <= MAX_PUSHES)%nat /\ (bt_pushes b <> [] -> incomplete_at (bt_pushes b) (length (bt_pushes b) - 1) = false).

(** What a call on a context leaves alone. *)
Definition tables (w w' : nworld) : Prop :=
  nw_vas w' = nw_vas w /\ nw_mems w' = nw_mems w /\ b_ctx (nw_rm w') = b_ctx (nw_rm w) /\ b_cpu (nw_rm w') = b_cpu (nw_rm w) /\
  (b_lost (nw_rm w) = true -> b_lost (nw_rm w') = true).
#[export] Instance tables_po : PreOrder tables.
Proof. split; [done|]. intros w1 w2 w3 (? & ? & ? & ? & ?) (? & ? & ? & ? & ?). repeat split; try congruence. auto. Qed.
Lemma quiet_tables w w' : quiet w w' -> tables w w'.
Proof. by intros []. Qed.

Lemma accepted_app x l k : accepted x (l ++ k) = accepted x l ++ accepted x k.
Proof. unfold accepted, on_channel. by rewrite filter_app, bind_app. Qed.
Lemma accepted_one x b : bt_context b = x -> accepted x [b] = items b.
Proof. intros H. unfold accepted, on_channel. rewrite filter_cons_True by done. cbn. by rewrite app_nil_r. Qed.
Lemma accepted_other x y l : x <> y -> Forall (fun b => bt_context b = x) l -> accepted y l = [].
Proof.
  intros Hne. unfold accepted, on_channel. induction 1 as [|b l Hb _ IH]; [done|]. rewrite filter_cons_False by congruence. done.
Qed.

(** ** Boundaries *)

Lemma back_checked_le l n : (back_checked l n <= n)%nat.
Proof. induction n as [|n IH]; simpl; [done|]. destruct (incomplete_at l n); lia. Qed.
Lemma back_checked_spec l n m : back_checked l n = S m -> back l n = Some (S m) /\ incomplete_at l m = false.
Proof.
  induction n as [|n IH]; simpl; [done|]. destruct (incomplete_at l n) eqn:E; [auto|]. intros [= ->]. by split.
Qed.
Lemma incomplete_take l n m : (m < n)%nat -> incomplete_at (take n l) m = incomplete_at l m.
Proof. intros H. unfold incomplete_at. by rewrite lookup_take_lt. Qed.

(** A list that passed the check, and its first chunk. *)
Definition sound (l : list NvRmExec) : Prop := exists fuel, boundaries_ok fuel l = true.
Lemma sound_chunk l : sound l -> l <> [] ->
  exists count, back l (Nat.min (length l) MAX_PUSHES) = Some count /\ (0 < count <= length l)%nat /\ (count <= MAX_PUSHES)%nat /\
    incomplete_at l (count - 1) = false /\ sound (drop count l).
Proof.
  intros [fuel H] Hl. destruct l as [|e l]; [done|]. destruct fuel as [|fuel]; [done|].
  cbn [boundaries_ok] in H. set (n := Nat.min (length (e :: l)) MAX_PUSHES) in *.
  pose proof (back_checked_le (e :: l) n) as Hle. destruct (back_checked (e :: l) n) as [|m] eqn:E; [done|].
  apply back_checked_spec in E as [Eb Ei]. exists (S m). split; [done|]. unfold n in Hle. split; [lia|]. split; [lia|].
  split; [by replace (S m - 1)%nat with m by lia|by exists fuel].
Qed.
Lemma chunk_good x l w g count :
  (0 < count <= length l)%nat -> (count <= MAX_PUSHES)%nat -> incomplete_at l (count - 1) = false -> good_batch (mk_batch x (take count l) w g).
Proof.
  intros H1 H2 H3. split; cbn; rewrite length_take_le by lia; [done|]. intros _. rewrite incomplete_take by lia. done.
Qed.

Section Proofs.
Context (B : backend) `{!Contract B} (retries : nat).

Lemma wp_get_ctx p c w (Q : nvkmd_rm_ctx -> nworld -> Prop) : nw_ctxs w !! p = Some c -> Q c w -> wp (get_ctx p) Q w.
Proof. intros H HQ. unfold wp, get_ctx. mrun. by rewrite H. Qed.
Lemma wp_put_ctx {A} p c' w (m : M nworld A) Q : wp m Q (put_ctx p c' w).2 -> wp (_ ← put_ctx p c'; m) Q w.
Proof. intros H. exact H. Qed.
Lemma inv_put_ctx k ids w p c c' : inv k ids w -> nw_ctxs w !! p = Some c -> inv k ids (put_ctx p c' w).2.
Proof.
  intros [H1 H2 H3 H4 H5 H6 H7 H8] Hp. change (put_ctx p c' w).2 with (put_ctxs (<[p := c']> (nw_ctxs w)) w).2.
  split; try done; cbn.
  - destruct H4 as (? & ? & H4). do 2 (split; [done|]). apply map_Forall_insert_2; [by apply (H4 p c)|done].
  - rewrite (total_insert _ _ _ _ _ Hp). lia.
Qed.

(** Calls that do not touch the tables. *)
Definition plain (c : call) : bool := match c with CWait _ _ _ | CSync _ _ | CSyncWait _ _ _ | COther _ _ => true | _ => false end.
Lemma wp_plain k ids c w (Q : answer -> nworld -> Prop) :
  plain c = true -> inv k ids w ->
  (forall w', inv k ids w' -> tables w w' -> nw_ctxs w' = nw_ctxs w -> b_batches (nw_rm w') = b_batches (nw_rm w) -> Q (bk_answer B (nw_rm w) c) w') ->
  wp (nv_rm B c) Q w.
Proof.
  intros Hc H HQ. apply (wp_nv_rm B k ids); [apply called_neutral; [by destruct c|done]|]. intros w' Hi Q'.
  assert (E : forall s, effect c (bk_answer B (nw_rm w) c) s = s) by (intros s; unfold effect; destruct (_ =? _); [|done]; by destruct c).
  apply HQ; [done| | |].
  - etrans; [|by apply quiet_tables]. unfold called. cbn. rewrite E. by repeat split.
  - by rewrite (q_ctxs _ _ Q').
  - rewrite (q_batches _ _ Q'). unfold called. cbn. by rewrite E.
Qed.

(** One submission: accepted as one batch, or nothing changed. *)
Definition submitted (w w' : nworld) (p : Z) (c : nvkmd_rm_ctx) (pushes : list NvRmExec) (signals : list NvRmSyncPoint) (o : outcome) : Prop :=
  if succeeds o then
    b_batches (nw_rm w') = b_batches (nw_rm w) ++ [mk_batch (cx_channel c) pushes (cx_waits c) signals] /\
    exists token, nw_ctxs w' = <[p := mk_ctx (cx_channel c) (cx_pending c) [] token]> (nw_ctxs w)
  else o <> OutOfBounds /\ b_batches (nw_rm w') = b_batches (nw_rm w) /\ nw_ctxs w' = nw_ctxs w.
Lemma rm_ctx_submit_ok k ids fuel p c pushes signals w :
  inv k ids w -> nw_ctxs w !! p = Some c ->
  wp (rm_ctx_submit B fuel p pushes signals) (fun o w' => inv k ids w' /\ tables w w' /\ submitted w w' p c pushes signals o) w.
Proof.
  revert w. induction fuel as [|fuel IH]; intros w H Hp; [by apply wp_ret|].
  apply wp_bind, (wp_get_ctx p c); [done|]. set (call := CSubmit _ _ _ _). set (a := bk_answer B (nw_rm w) call).
  apply wp_bind, (wp_nv_rm B k ids); [by apply called_neutral|]. intros w1 H1 Q1. fold a.
  assert (T1 : tables w w1).
  { etrans; [|by apply quiet_tables]. unfold called, effect. cbn. fold a. by destruct (an_status a =? VK_SUCCESS). }
  assert (C1 : nw_ctxs w1 = nw_ctxs w) by (by rewrite (q_ctxs _ _ Q1)).
  assert (E1 : b_batches (nw_rm w1) = if an_status a =? VK_SUCCESS then b_batches (nw_rm w) ++ [mk_batch (cx_channel c) pushes (cx_waits c) signals]
      else b_batches (nw_rm w)).
  { rewrite (q_batches _ _ Q1). unfold called, effect. cbn. fold a. by destruct (an_status a =? VK_SUCCESS). }
  destruct (Z.eqb_spec (an_status a) VK_NOT_READY) as [En|En].
  - rewrite En in E1. cbn in E1. apply wp_bind, (wp_plain k ids); [done|done|]. intros w2 H2 T2 C2 E2.
    destruct (Z.eqb_spec (an_status (bk_answer B (nw_rm w1) (CWait (cx_channel c) (an_id a) UINT64_MAX))) VK_SUCCESS) as [Er|Er]; cbn [negb].
    + eapply wp_mono; [apply IH; [done|congruence]|]. intros o w3 (H3 & T3 & S3). split; [done|]. split; [etrans; [exact T1|by etrans]|].
      unfold submitted in *. by rewrite C2, C1, E2, E1 in S3.
    + apply wp_ret. split; [done|]. split; [by etrans|]. unfold submitted, rm_result. cbn [succeeds]. rewrite (proj2 (Z.eqb_neq _ _) Er).
      split; [done|]. split; congruence.
  - destruct (Z.eqb_spec (an_status a) VK_SUCCESS) as [Es|Es]; cbn [negb].
    + assert (Hp1 : nw_ctxs w1 !! p = Some c) by congruence.
      pose proof (inv_put_ctx k ids w1 p c (mk_ctx (cx_channel c) (cx_pending c) [] (an_id a)) H1 Hp1) as H2.
      unfold wp, put_ctx in *. mrun. split; [exact H2|]. split; [exact T1|]. split; [exact E1|]. exists (an_id a). cbn. by rewrite C1.
    + apply wp_ret. split; [done|]. split; [done|]. unfold submitted, rm_result. cbn [succeeds]. by rewrite (proj2 (Z.eqb_neq _ _) Es).
Qed.

(** The loop: what it accepted and what is left make the whole. *)
Definition sent (w w' : nworld) (p : Z) (c : nvkmd_rm_ctx) (l : list NvRmExec) (n : nat) (signals : list NvRmSyncPoint) (o : outcome) : Prop :=
  o <> OutOfBounds /\ (n <= length l)%nat /\ (succeeds o = true -> n = length l) /\
  exists bs waits token, b_batches (nw_rm w') = b_batches (nw_rm w) ++ bs /\
    nw_ctxs w' = <[p := mk_ctx (cx_channel c) (cx_pending c) waits token]> (nw_ctxs w) /\
    Forall (fun b => bt_context b = cx_channel c) bs /\ Forall good_batch bs /\ waits = (if (n =? 0)%nat then cx_waits c else []) /\
    (bs ≫= items) ++ (Wait <$> waits) ++ (Push <$> drop n l) =
      (Wait <$> cx_waits c) ++ (Push <$> l) ++ (if succeeds o then if is_nil l then [] else Signal <$> signals else []).
Lemma sent_none w w' p c l signals o :
  o <> OutOfBounds -> (succeeds o = true -> l = []) -> nw_ctxs w !! p = Some c -> b_batches (nw_rm w') = b_batches (nw_rm w) -> nw_ctxs w' = nw_ctxs w ->
  sent w w' p c l 0 signals o.
Proof.
  intros Ho Hl Hp Hb Hc. split; [done|]. split; [lia|]. split; [by intros ->%Hl|].
  exists [], (cx_waits c), (cx_last_token c). split; [by rewrite app_nil_r|]. split; [rewrite Hc; destruct c; by rewrite insert_id|].
  do 2 (split; [done|]). split; [done|]. rewrite drop_0. cbn. f_equal. destruct (succeeds o); [|by rewrite app_nil_r]. rewrite Hl by done. done.
Qed.
Lemma send_chunks_ok k ids n p c offset l signals w :
  sound l -> (length l <= n)%nat -> inv k ids w -> nw_ctxs w !! p = Some c ->
  wp (send_chunks B retries n p offset l signals) (fun r w' =>
    inv k ids w' /\ tables w w' /\ (offset <= r.2)%nat /\ sent w w' p c l (r.2 - offset) signals r.1) w.
Proof.
  revert w c offset l. induction n as [|n IH]; intros w c offset l Hs Hn H Hp.
  { destruct l; [|cbn in Hn; lia]. apply wp_ret. do 2 (split; [done|]). split; [done|]. cbn [fst snd]. rewrite Nat.sub_diag. by apply sent_none. }
  destruct (decide (l = [])) as [->|Hl].
  { apply wp_ret. do 2 (split; [done|]). split; [done|]. cbn [fst snd]. rewrite Nat.sub_diag. by apply sent_none. }
  destruct (sound_chunk l Hs Hl) as (count & Eb & Hc & Hm & Hi & Hd).
  assert (Es : send_chunks B retries (S n) p offset l signals =
    (r ← rm_ctx_submit B retries p (take count l) (if (count =? length l)%nat then signals else []);
     if negb (succeeds r) then mret (r, offset) else send_chunks B retries n p (offset + count) (drop count l) signals)).
  { destruct l; [done|]. cbn [send_chunks]. by rewrite Eb. }
  rewrite Es. apply wp_bind. set (sg := if (count =? length l)%nat then signals else []).
  eapply wp_mono; [by apply rm_ctx_submit_ok|]. intros o w1 (H1 & T1 & S1).
  unfold submitted in S1. destruct (succeeds o) eqn:Eo; cbn [negb].
  2:{ destruct S1 as (? & ? & ?). apply wp_ret. do 2 (split; [done|]). split; [done|]. cbn [fst snd]. rewrite Nat.sub_diag.
      apply sent_none; try done. by rewrite Eo. }
  destruct S1 as (B1 & token & C1). set (b := mk_batch (cx_channel c) (take count l) (cx_waits c) sg) in *.
  assert (Gb : good_batch b) by (by apply chunk_good).
  assert (Ib : items b = (Wait <$> cx_waits c) ++ (Push <$> take count l) ++ (Signal <$> sg)) by done.
  destruct (Nat.eqb_spec count (length l)) as [->|Hne].
  - rewrite drop_all. destruct n; apply wp_ret; do 2 (split; [done|]); (split; [cbn [snd]; lia|]); cbn [fst snd];
      replace (offset + length l - offset)%nat with (length l) by lia;
      (split; [done|]); (split; [done|]); (split; [done|]); exists [b], [], token; do 2 (split; [done|]);
      (split; [by apply Forall_singleton|]); (split; [by apply Forall_singleton|]);
      (split; [by destruct (Nat.eqb_spec (length l) 0); [lia|]|]);
      rewrite drop_all; cbn [mbind list_bind app fmap list_fmap]; rewrite Ib, !app_nil_r, take_ge by lia; by destruct l.
  - set (c1 := mk_ctx (cx_channel c) (cx_pending c) [] token) in *.
    eapply wp_mono; [apply (IH w1 c1 (offset + count)%nat (drop count l)); [done|rewrite length_drop; lia|done|by rewrite C1, lookup_insert_eq]|].
    intros [o2 off2] w2 (H2 & T2 & Ho & O2 & Hle & Hsu & bs & waits & tk & B2 & C2 & Fx & Fg & Hw & Eq). cbn [fst snd] in *.
    rewrite length_drop in Hle, Hsu. split; [done|]. split; [by etrans|]. split; [lia|].
    split; [done|]. split; [lia|]. split; [intros E; specialize (Hsu E); lia|].
    exists (b :: bs), waits, tk. split; [rewrite B2, B1, <- app_assoc; done|]. split; [rewrite C2, C1, insert_insert_eq; done|].
    split; [by constructor|]. split; [by constructor|]. split.
    { destruct (Nat.eqb_spec (off2 - offset) 0); [lia|]. rewrite Hw. by destruct (_ =? _)%nat. }
    rewrite drop_drop in Eq. replace (count + (off2 - (offset + count)))%nat with (off2 - offset)%nat in Eq by lia.
    cbn [mbind list_bind]. rewrite <- app_assoc, Eq, Ib. unfold sg. cbn [c1 cx_waits fmap list_fmap app]. rewrite app_nil_r.
    rewrite <- app_assoc. f_equal. rewrite app_assoc, <- fmap_app, take_drop. f_equal. destruct (succeeds o2); [|done].
    destruct l; [done|]. destruct (drop count _) eqn:Ed; [|done]. apply (f_equal length) in Ed. rewrite length_drop in Ed. cbn in *. lia.
Qed.
(** A call that appended [g] to what the context asked for. *)
Definition moved (w w' : nworld) (p : Z) (g : list item) : Prop :=
  exists c c' bs, nw_ctxs w !! p = Some c /\ nw_ctxs w' = <[p := c']> (nw_ctxs w) /\ cx_channel c' = cx_channel c /\
    b_batches (nw_rm w') = b_batches (nw_rm w) ++ bs /\ Forall (fun b => bt_context b = cx_channel c) bs /\ Forall good_batch bs /\
    (bs ≫= items) ++ held c' = held c ++ g.
Definition drained (w : nworld) (p : Z) : Prop := exists c, nw_ctxs w !! p = Some c /\ cx_pending c = [] /\ cx_waits c = [].
Definition ctx_call {A} (k : Z) (ids : list Z) (w : nworld) (p : Z) (Q : A -> list item -> nworld -> Prop) (o : A) (w' : nworld) : Prop :=
  inv k ids w' /\ tables w w' /\ exists g, moved w w' p g /\ Q o g w'.

Lemma moved_none w w' p c : nw_ctxs w !! p = Some c -> nw_ctxs w' = nw_ctxs w -> b_batches (nw_rm w') = b_batches (nw_rm w) -> moved w w' p [].
Proof.
  intros Hp Hc Hb. exists c, c, []. split; [done|]. split; [by rewrite Hc, insert_id|]. split; [done|]. split; [by rewrite app_nil_r|].
  do 2 (split; [done|]). by rewrite app_nil_r.
Qed.
Lemma ctx_moved_trans w1 w2 w3 p g h : moved w1 w2 p g -> moved w2 w3 p h -> moved w1 w3 p (g ++ h).
Proof.
  intros (c & c' & bs & H1 & H2 & H3 & H4 & H5 & H6 & H7) (d & d' & bs' & J1 & J2 & J3 & J4 & J5 & J6 & J7).
  rewrite H2, lookup_insert_eq in J1. injection J1 as <-. exists c, d', (bs ++ bs'). split; [done|].
  split; [by rewrite J2, H2, insert_insert_eq|]. split; [congruence|]. split; [by rewrite J4, H4, app_assoc|].
  rewrite H3 in J5. split; [by apply Forall_app|]. split; [by apply Forall_app|]. by rewrite bind_app, <- app_assoc, J7, !app_assoc, H7.
Qed.
Lemma moved_lookup w w' p g : moved w w' p g -> exists c c', nw_ctxs w !! p = Some c /\ nw_ctxs w' !! p = Some c' /\ cx_channel c' = cx_channel c.
Proof. intros (c & c' & bs & H1 & H2 & H3 & _). exists c, c'. by rewrite H2, lookup_insert_eq. Qed.
Lemma held_nil c : held c = [] -> cx_pending c = [] /\ cx_waits c = [].
Proof. unfold held. intros [H1%fmap_nil_inv H2%fmap_nil_inv]%app_nil. done. Qed.

(** Flushing appends the signals if it succeeds, and nothing otherwise. *)
Definition flushed (p : Z) (signals : list NvRmSyncPoint) (o : outcome) (g : list item) (w' : nworld) : Prop :=
  o <> OutOfBounds /\ g = (if succeeds o then Signal <$> signals else []) /\ (succeeds o = true -> drained w' p).
Lemma rm_ctx_flush_signals_ok k ids p c signals w :
  inv k ids w -> nw_ctxs w !! p = Some c -> wp (rm_ctx_flush_signals B retries p signals) (ctx_call k ids w p (flushed p signals)) w.
Proof.
  intros H Hp. unfold rm_ctx_flush_signals. apply wp_bind, (wp_get_ctx p c); [done|].
  destruct (boundaries_ok _ _) eqn:Eb; cbn [negb].
  2:{ apply wp_ret. do 2 (split; [done|]). exists []. split; [by apply (moved_none w w p c)|]. done. }
  destruct (is_nil (cx_pending c)) eqn:En.
  - destruct (cx_pending c) eqn:Ep; [|done]. destruct (negb (is_nil signals) || negb (is_nil (cx_waits c))) eqn:Ew.
    + eapply wp_mono; [by apply rm_ctx_submit_ok|]. intros o w1 (H1 & T1 & S1). do 2 (split; [done|]).
      unfold submitted in S1. destruct (succeeds o) eqn:Eo.
      * destruct S1 as (B1 & token & C1). exists (Signal <$> signals). split.
        -- eexists c, _, [_]. split; [done|]. split; [exact C1|]. split; [done|]. split; [exact B1|]. split; [by apply Forall_singleton|].
           split; [apply Forall_singleton; split; [cbn; lia|done]|]. unfold items, held. cbn. by rewrite Ep, !app_nil_r.
        -- split; [by intros ->|]. rewrite Eo. split; [done|]. intros _. eexists. rewrite C1, lookup_insert_eq. done.
      * destruct S1 as (? & ? & ?). exists []. split; [by apply (moved_none w w1 p c)|]. split; [done|]. rewrite Eo. done.
    + apply wp_ret. do 2 (split; [done|]). exists []. split; [by apply (moved_none w w p c)|]. split; [done|].
      destruct signals; [|done]. cbn in Ew. split; [done|]. intros _. exists c. split; [done|]. by destruct (cx_waits c).
  - apply wp_bind. eapply wp_mono; [apply (send_chunks_ok k ids (length (cx_pending c)) p c 0 (cx_pending c) signals); try done; by exists (length (cx_pending c))|].
    intros [o off] w1 (H1 & T1 & _ & S1). cbn [fst snd] in S1. rewrite Nat.sub_0_r in S1.
    destruct S1 as (Ho & Hle & Hsu & bs & waits & tk & B1 & C1 & Fx & Fg & Hw & Eq).
    set (c1 := mk_ctx (cx_channel c) (cx_pending c) waits tk) in *.
    assert (Hp1 : nw_ctxs w1 !! p = Some c1) by (by rewrite C1, lookup_insert_eq).
    apply wp_bind, (wp_get_ctx p c1); [done|]. set (c2 := mk_ctx (cx_channel c) (drop off (cx_pending c)) waits tk).
    assert (Hend : forall w2, inv k ids w2 -> tables w1 w2 -> nw_ctxs w2 = <[p := c2]> (nw_ctxs w) -> b_batches (nw_rm w2) = b_batches (nw_rm w1) ->
      ctx_call k ids w p (flushed p signals) o w2).
    { intros w2 H2 T2 C2 B2. split; [done|]. split; [by etrans|]. exists (if succeeds o then Signal <$> signals else []). split.
      - exists c, c2, bs. split; [done|]. split; [done|]. split; [done|]. split; [by rewrite B2|]. do 2 (split; [done|]).
        unfold held. cbn [c2 cx_waits cx_pending]. rewrite Eq, En, <- app_assoc. done.
      - split; [done|]. split; [done|]. intros E. exists c2. rewrite C2, lookup_insert_eq. split; [done|]. cbn.
        specialize (Hsu E). subst off. rewrite drop_all. split; [done|]. rewrite Hw. by destruct (cx_pending c). }
    unfold wp. destruct (Nat.ltb_spec 0 off) as [Hoff|Hoff].
    + rewrite bind_run, ret_run. apply Hend; [by apply (inv_put_ctx k ids w1 p c1)|done| |done].
      cbn. unfold put_ctx. mrun. cbn. by rewrite C1, insert_insert_eq.
    + mrun. apply Hend; [done|done| |done]. rewrite C1. unfold c1, c2. replace off with 0%nat by lia. by rewrite drop_0.
Qed.
Definition asks (all : list item) (o : outcome) (g : list item) (w' : nworld) : Prop :=
  o <> OutOfBounds /\ g `prefix_of` all /\ (succeeds o = true -> g = all).
Lemma asks_nil o w' : o <> OutOfBounds -> asks [] o [] w'.
Proof. by repeat split. Qed.
Lemma asks_cons x all o g w' : asks all o g w' -> asks (x :: all) o (x :: g) w'.
Proof. intros (H1 & H2 & H3). split; [done|]. split; [by apply prefix_cons|]. intros E. by rewrite H3. Qed.
Lemma ctx_call_none k ids w p c (o : outcome) all :
  inv k ids w -> nw_ctxs w !! p = Some c -> o <> OutOfBounds -> succeeds o = false \/ all = [] -> ctx_call k ids w p (asks all) o w.
Proof.
  intros H Hp Ho Hs. do 2 (split; [done|]). exists []. split; [by apply (moved_none w w p c)|]. split; [done|]. split; [apply prefix_nil|].
  intros E. destruct Hs; congruence.
Qed.
(** One more item in a context's hands, then the rest. *)
Lemma ctx_call_put {A} k ids w p c c' g (Q Q' : A -> list item -> nworld -> Prop) o w' :
  nw_ctxs w !! p = Some c -> cx_channel c' = cx_channel c -> held c' = held c ++ g ->
  (forall h, Q' o h w' -> Q o (g ++ h) w') -> ctx_call k ids (put_ctx p c' w).2 p Q' o w' -> ctx_call k ids w p Q o w'.
Proof.
  intros Hp Ec Eh HQ (Hi & T & h & M & Hq). split; [done|]. split; [exact T|]. exists (g ++ h). split; [|auto].
  eapply ctx_moved_trans; [|exact M]. exists c, c', []. split; [done|]. split; [done|]. split; [done|]. split; [by rewrite app_nil_r|].
  by do 2 (split; [done|]).
Qed.
Lemma ctx_call_then {A C} k ids w p (Q1 : A -> list item -> nworld -> Prop) (Q2 : C -> list item -> nworld -> Prop) o1 w1 o w' g1 :
  moved w w1 p g1 -> tables w w1 -> ctx_call k ids w1 p (fun o g w' => Q2 o (g1 ++ g) w') o w' -> Q1 o1 g1 w1 -> ctx_call k ids w p Q2 o w'.
Proof.
  intros M1 T1 (Hi & T & h & M & Hq) _. split; [done|]. split; [by etrans|]. exists (g1 ++ h). split; [by eapply ctx_moved_trans|done].
Qed.

Lemma rm_ctx_exec_ok k ids p c execs w :
  inv k ids w -> nw_ctxs w !! p = Some c -> wp (rm_ctx_exec p execs) (ctx_call k ids w p (asks ((fun e => Push (push_of e)) <$> execs))) w.
Proof.
  revert w c. induction execs as [|e execs IH]; intros w c H Hp; cbn [rm_ctx_exec].
  { apply wp_ret. apply (ctx_call_none k ids w p c); auto. }
  destruct (bad_push e); [apply wp_ret; apply (ctx_call_none k ids w p c); auto|].
  apply wp_bind, (wp_get_ctx p c); [done|]. set (c' := mk_ctx _ _ _ _). apply wp_put_ctx.
  pose proof (inv_put_ctx k ids w p c c' H Hp) as H1. eapply wp_mono; [apply (IH _ c' H1); unfold put_ctx; mrun; cbn; by rewrite lookup_insert_eq|].
  intros o w' Hc. refine (ctx_call_put k ids w p c c' [Push (push_of e)] _ _ o w' Hp _ _ _ Hc); [done| |].
  - unfold held. cbn. by rewrite fmap_app, app_assoc.
  - intros h. apply asks_cons.
Qed.

Fixpoint wait_items (waits : list vk_sync_point) : list item :=
  match waits with
  | [] => []
  | s :: waits => if vs_timeline s && (vs_value s =? 0) then wait_items waits else Wait (point s) :: wait_items waits
  end.
Lemma add_waits_ok k ids p c waits w :
  inv k ids w -> nw_ctxs w !! p = Some c -> cx_pending c = [] -> wp (add_waits p waits) (ctx_call k ids w p (asks (wait_items waits))) w.
Proof.
  revert w c. induction waits as [|s waits IH]; intros w c H Hp Hn; cbn [add_waits wait_items].
  { apply wp_ret. apply (ctx_call_none k ids w p c); auto. }
  destruct (vs_timeline s && (vs_value s =? 0)); [by apply (IH w c)|].
  destruct (negb (vs_rm s)); [apply wp_ret; apply (ctx_call_none k ids w p c); auto|].
  apply wp_bind, (wp_get_ctx p c); [done|]. set (c' := mk_ctx _ _ _ _). apply wp_put_ctx.
  pose proof (inv_put_ctx k ids w p c c' H Hp) as H1. eapply wp_mono; [apply (IH _ c' H1); [unfold put_ctx; mrun; cbn; by rewrite lookup_insert_eq|done]|].
  intros o w' Hc. refine (ctx_call_put k ids w p c c' [Wait (point s)] _ _ o w' Hp _ _ _ Hc); [done| |].
  - unfold held. cbn. by rewrite Hn, fmap_app, !app_nil_r.
  - intros h. apply asks_cons.
Qed.
Lemma drained_lookup w p : drained w p -> exists c, nw_ctxs w !! p = Some c /\ cx_pending c = [].
Proof. intros (c & ? & ? & ?). by exists c. Qed.
Lemma rm_ctx_flush_ok k ids p c w :
  inv k ids w -> nw_ctxs w !! p = Some c ->
  wp (rm_ctx_flush B retries p) (ctx_call k ids w p (fun o g w' => asks [] o g w' /\ g = [] /\ (succeeds o = true -> drained w' p))) w.
Proof.
  intros H Hp. eapply wp_mono; [by apply (rm_ctx_flush_signals_ok k ids p c [])|]. intros o w' (Hi & T & g & M & Ho & -> & Hd).
  split; [done|]. split; [done|]. exists []. destruct (succeeds o) eqn:E; (split; [done|]); (split; [by repeat split|]); (split; [done|]); auto.
Qed.
(** Waiting flushes what came before; a context without a channel waits on the host. *)
Lemma rm_ctx_wait_ok k ids p c waits w :
  inv k ids w -> nw_ctxs w !! p = Some c ->
  wp (rm_ctx_wait B retries p waits) (ctx_call k ids w p (asks (if cx_channel c =? 0 then [] else wait_items waits))) w.
Proof.
  intros H Hp. unfold rm_ctx_wait. apply wp_bind, (wp_get_ctx p c); [done|]. apply wp_bind.
  assert (Hrest : forall w1 o1, inv k ids w1 -> tables w w1 -> moved w w1 p [] -> o1 <> OutOfBounds ->
    (succeeds o1 = true -> exists c1, nw_ctxs w1 !! p = Some c1 /\ cx_pending c1 = []) ->
    wp (if negb (succeeds o1) then mret o1 else if cx_channel c =? 0 then a ← nv_rm B (COther "vk_sync_wait_many" (vs_id <$> waits)); mret (Returns (an_status a))
        else add_waits p waits) (ctx_call k ids w p (asks (if cx_channel c =? 0 then [] else wait_items waits))) w1).
  { intros w1 o1 H1 T1 M1 Ho Hc. destruct (moved_lookup _ _ _ _ M1) as (c0 & c1 & E0 & E1 & Ech). rewrite Hp in E0. injection E0 as <-.
    destruct (succeeds o1) eqn:E; cbn [negb].
    2:{ apply wp_ret. split; [done|]. split; [done|]. exists []. split; [done|]. split; [done|]. split; [apply prefix_nil|congruence]. }
    destruct (cx_channel c =? 0).
    - apply wp_bind, (wp_plain k ids); [done|done|]. intros w2 H2 T2 C2 B2. apply wp_ret. split; [done|]. split; [by etrans|]. exists [].
      split; [exact (ctx_moved_trans _ _ _ _ [] [] M1 (moved_none w1 w2 p c1 E1 C2 B2))|]. by apply asks_nil.
    - destruct (Hc eq_refl) as (c2 & E2 & Hn). eapply wp_mono; [by apply (add_waits_ok k ids p c2)|]. intros o w2 Hw.
      by apply (ctx_call_then k ids w p (fun _ _ _ => True) _ o1 w1 o w2 [] M1 T1 Hw). }
  destruct (is_nil (cx_pending c)) eqn:En; cbn [negb].
  - apply wp_ret. apply Hrest; try done; [by apply (moved_none w w p c)|]. intros _. exists c. split; [done|]. by destruct (cx_pending c).
  - eapply wp_mono; [by apply (rm_ctx_flush_ok k ids p c)|]. intros o1 w1 (H1 & T1 & g & M1 & (Ho & _) & -> & Hd).
    apply Hrest; try done. intros E. by apply drained_lookup, Hd.
Qed.
Lemma ctx_call_block k ids w p (Q : outcome -> list item -> nworld -> Prop) o w' :
  (forall g, Q o g w' -> Q o g (free_block w').2) -> ctx_call (k + 1) ids (alloced w) p Q o w' -> ctx_call k ids w p Q o (free_block w').2.
Proof.
  intros HQ (Hi & T & g & M & Hq). split; [by apply free_block_ok|]. split; [exact T|]. exists g. split; [exact M|auto].
Qed.
Lemma host_signals_ok k ids p c signals w :
  inv k ids w -> nw_ctxs w !! p = Some c -> wp (host_signals B signals) (ctx_call k ids w p (asks [])) w.
Proof.
  revert w c. induction signals as [|s signals IH]; intros w c H Hp; cbn [host_signals]; [apply wp_ret; apply (ctx_call_none k ids w p c); auto|].
  apply wp_bind, (wp_plain k ids); [done|done|]. intros w1 H1 T1 C1 B1. pose proof (moved_none w w1 p c Hp C1 B1) as M1.
  destruct (an_status _ =? VK_SUCCESS); cbn [negb].
  - eapply wp_mono; [by apply (IH w1 c); [|congruence]|]. intros o w2 Hw. by apply (ctx_call_then k ids w p (fun _ _ _ => True) _ o w1 o w2 [] M1 T1 Hw).
  - apply wp_ret. do 2 (split; [done|]). exists []. split; [exact M1|by apply asks_nil].
Qed.
Lemma rm_ctx_signal_ok k ids p c signals w :
  inv k ids w -> nw_ctxs w !! p = Some c ->
  wp (rm_ctx_signal B retries p signals) (ctx_call k ids w p (asks (if cx_channel c =? 0 then [] else (fun s => Signal (point s)) <$> signals))) w.
Proof.
  intros H Hp. unfold rm_ctx_signal. apply wp_bind, (wp_get_ctx p c); [done|]. destruct (cx_channel c =? 0).
  - apply wp_bind. eapply wp_mono; [by apply (rm_ctx_flush_ok k ids p c)|]. intros o1 w1 (H1 & T1 & g & M1 & (Ho & _) & -> & _).
    destruct (moved_lookup _ _ _ _ M1) as (c0 & c1 & _ & E1 & _). destruct (succeeds o1) eqn:E; cbn [negb].
    + eapply wp_mono; [by apply (host_signals_ok k ids p c1)|]. intros o w2 Hw. by apply (ctx_call_then k ids w p (fun _ _ _ => True) _ o w1 o w2 [] M1 T1 Hw).
    + apply wp_ret. do 2 (split; [done|]). exists []. split; [done|by apply asks_nil].
  - destruct signals as [|s signals]; cbn [is_nil].
    { eapply wp_mono; [by apply (rm_ctx_flush_ok k ids p c)|]. intros o w1 (H1 & T1 & g & M1 & A & -> & _). do 2 (split; [done|]). by exists []. }
    set (l := s :: signals). apply wp_bind, wp_calloc; [apply wp_ret; apply (ctx_call_none k ids w p c); auto|].
    pose proof (i_next _ _ _ H). rewrite (proj2 (Z.eqb_neq (nw_next w) 0)) by lia. pose proof (alloced_ok _ _ _ H) as H1.
    destruct (existsb _ l).
    { unfold wp. mrun. apply (ctx_call_block k ids w p _ _ (alloced w)); [done|]. by apply (ctx_call_none (k + 1) ids (alloced w) p c); auto. }
    apply wp_bind. eapply wp_mono; [by apply (rm_ctx_flush_signals_ok (k + 1) ids p c)|]. intros o w1 (H2 & T2 & g & M2 & Ho & -> & _).
    unfold wp. mrun. apply (ctx_call_block k ids w p _ o w1); [done|]. do 2 (split; [done|]). eexists. split; [exact M2|]. split; [done|].
    rewrite <- list_fmap_compose. destruct (succeeds o); [done|]. split; [apply prefix_nil|done].
Qed.
Lemma rm_ctx_sync_ok k ids p c w :
  inv k ids w -> nw_ctxs w !! p = Some c -> wp (rm_ctx_sync B retries p) (ctx_call k ids w p (asks [])) w.
Proof.
  intros H Hp. unfold rm_ctx_sync. apply wp_bind. eapply wp_mono; [by apply (rm_ctx_flush_ok k ids p c)|].
  intros o1 w1 (H1 & T1 & g & M1 & A & -> & _). destruct (moved_lookup _ _ _ _ M1) as (c0 & c1 & _ & E1 & _).
  apply wp_bind, (wp_get_ctx p c1); [done|]. destruct (negb (succeeds o1) || _).
  - apply wp_ret. do 2 (split; [done|]). by exists [].
  - apply wp_bind, (wp_plain k ids); [done|done|]. intros w2 H2 T2 C2 B2. apply wp_ret. split; [done|]. split; [by etrans|]. exists [].
    split; [exact (ctx_moved_trans _ _ _ _ [] [] M1 (moved_none w1 w2 p c1 E1 C2 B2))|]. by apply asks_nil.
Qed.

(** Binds on a context change ranges and bindings only. *)
Definition bind_ok (w : nworld) (b : nvkmd_ctx_bind) : Prop :=
  0 <= xb_va_offset_B b /\ 0 <= xb_range_B b /\ is_Some (nw_vas w !! xb_va b) /\ free_range w (xb_va b).
Definition same_ranges (w w' : nworld) : Prop := forall p, is_Some (nw_vas w' !! p) <-> is_Some (nw_vas w !! p).
Lemma same_ranges_update w w' p v v' : nw_vas w !! p = Some v -> nw_vas w' = <[p := v']> (nw_vas w) -> same_ranges w w'.
Proof.
  intros Hv E q. rewrite E. destruct (decide (p = q)) as [<-|]; [rewrite lookup_insert_eq, Hv|by rewrite lookup_insert_ne].
  split; eauto.
Qed.
Lemma bind_ok_same w w' b : nw_mems w' = nw_mems w -> same_ranges w w' -> bind_ok w b -> bind_ok w' b.
Proof. intros Em Hs (? & ? & ? & ?). split; [done|]. split; [done|]. split; [by apply Hs|]. unfold free_range. by rewrite Em. Qed.
Lemma do_binds_ok k ids binds w :
  inv k ids w -> Forall (bind_ok w) binds ->
  wp (do_binds B binds) (fun o w' => inv k ids w' /\ frame w w' /\ same_ranges w w' /\ o <> OutOfBounds) w.
Proof.
  revert w. induction binds as [|b binds IH]; intros w H Hb; cbn [do_binds]; [by apply wp_ret|].
  apply Forall_cons in Hb as [(Ho & Hr & [v Hv] & Hf) Hb]. apply wp_bind.
  assert (Hone : forall m', wp m' (fun r w' => exists l', inv k ids w' /\ frame w w' /\ nw_vas w' = <[xb_va b := with_bindings v l']> (nw_vas w)) w ->
    wp m' (fun r w' => wp (if negb (r =? VK_SUCCESS) then mret (Returns r) else do_binds B binds)
      (fun o w' => inv k ids w' /\ frame w w' /\ same_ranges w w' /\ o <> OutOfBounds) w') w).
  { intros m' Hm'. eapply wp_mono; [exact Hm'|]. intros r w1 (l' & H1 & F1 & V1). pose proof (same_ranges_update _ _ _ _ _ Hv V1) as S1.
    destruct (r =? VK_SUCCESS); cbn [negb]; [|by apply wp_ret].
    eapply wp_mono; [apply (IH w1 H1); eapply Forall_impl; [exact Hb|]; intros b'; apply bind_ok_same; [apply F1|done]|].
    intros o w2 (H2 & F2 & S2 & Ho2). split; [done|]. split; [by etrans|]. split; [|done]. intros q. by rewrite (S2 q). }
  apply Hone. destruct (xb_bind b).
  - apply wp_bind. unfold wp at 1. unfold get_mem. mrun. eapply wp_mono; [by apply (rm_va_bind_ok B k ids)|].
    intros r w1 (l' & ? & ? & ? & _). by exists l'.
  - eapply wp_mono; [by apply (rm_va_unbind_ok B k ids)|]. intros r w1 (l' & ? & ? & ? & _). by exists l'.
Qed.
Lemma rm_ctx_bind_ok k ids p c binds w :
  inv k ids w -> nw_ctxs w !! p = Some c -> Forall (bind_ok w) binds ->
  wp (rm_ctx_bind B retries p binds) (fun o w' => inv k ids w' /\ moved w w' p [] /\ same_ranges w w' /\ nw_mems w' = nw_mems w /\
    b_ctx (nw_rm w') = b_ctx (nw_rm w) /\ b_cpu (nw_rm w') = b_cpu (nw_rm w) /\ (b_lost (nw_rm w) = true -> b_lost (nw_rm w') = true) /\ o <> OutOfBounds) w.
Proof.
  intros H Hp Hb. unfold rm_ctx_bind. apply wp_bind. eapply wp_mono; [by apply (rm_ctx_flush_ok k ids p c)|].
  intros o1 w1 (H1 & (T1 & T2 & T3 & T4 & T5) & g & M1 & (Ho & _) & -> & _).
  destruct (moved_lookup _ _ _ _ M1) as (c0 & c1 & _ & E1 & _). assert (S1 : same_ranges w w1) by (intros q; by rewrite T1).
  destruct (succeeds o1); cbn [negb]; [|apply wp_ret; by repeat (split; [done|])].
  eapply wp_mono; [apply (do_binds_ok k ids); [done|]; eapply Forall_impl; [exact Hb|]; intros b; by apply bind_ok_same|].
  intros o w2 (H2 & F2 & S2 & Ho2). split; [done|].
  split; [exact (ctx_moved_trans _ _ _ _ [] [] M1 (moved_none w1 w2 p c1 E1 (f_ctxs _ _ F2) (f_batches _ _ F2)))|].
  split; [intros q; by rewrite (S2 q)|]. destruct F2. split; [congruence|]. split; [congruence|]. split; [congruence|]. split; [auto|done].
Qed.
(** ** Creation and destruction *)

Lemma inv_new_ctx k ids w p c :
  inv (k + 1) ids w -> nw_ctxs w !! p = None -> 0 < p < nw_next w -> inv k ids (put_ctx p c w).2.
Proof.
  intros [H1 H2 H3 H4 H5 H6 H7 H8] Hp Hn. change (put_ctx p c w).2 with (put_ctxs (<[p := c]> (nw_ctxs w)) w).2.
  split; try done; cbn.
  - destruct H4 as (? & ? & H4). do 2 (split; [done|]). by apply map_Forall_insert_2.
  - rewrite total_insert_new by done. lia.
Qed.
Lemma inv_drop_ctx k ids w p c : inv k ids w -> nw_ctxs w !! p = Some c -> inv k ids (free_block (put_ctxs (delete p (nw_ctxs w)) w).2).2.
Proof.
  intros [H1 H2 H3 H4 H5 H6 H7 H8] Hp. split; try done; cbn.
  - destruct H4 as (? & ? & H4). do 2 (split; [done|]). by apply map_Forall_delete.
  - rewrite (total_delete _ _ _ _ Hp). lia.
Qed.

(** The tables but for the channels. *)
Definition memory (w w' : nworld) : Prop :=
  nw_vas w' = nw_vas w /\ nw_mems w' = nw_mems w /\ b_cpu (nw_rm w') = b_cpu (nw_rm w) /\ b_batches (nw_rm w') = b_batches (nw_rm w) /\
  (b_lost (nw_rm w) = true -> b_lost (nw_rm w') = true).
#[local] Instance memory_po : PreOrder memory.
Proof. split; [done|]. intros w1 w2 w3 (? & ? & ? & ? & ?) (? & ? & ? & ? & ?). repeat split; try congruence. auto. Qed.
Lemma quiet_memory w w' : quiet w w' -> memory w w'.
Proof. by intros []. Qed.
Lemma called_memory w c : match c with CContext _ _ | CContextDestroy _ => True | _ => False end -> memory w (called B w c).
Proof. intros H. unfold called, effect. destruct (_ =? _); [|done]. by destruct c. Qed.

Lemma called_context w e x :
  let a := bk_answer B (nw_rm w) (CContext e x) in
  b_ctx (nw_rm (called B w (CContext e x))) = if an_status a =? VK_SUCCESS then {[an_id a]} ∪ b_ctx (nw_rm w) else b_ctx (nw_rm w).
Proof. cbn zeta. unfold called, effect. cbn. by destruct (_ =? _). Qed.

Definition created (w w' : nworld) (bind_only : bool) (r : Z + Z) : Prop :=
  match r with
  | inl e => e <> VK_SUCCESS /\ nw_ctxs w' = nw_ctxs w /\ b_ctx (nw_rm w') = b_ctx (nw_rm w)
  | inr p => exists x, nw_ctxs w !! p = None /\ nw_ctxs w' = <[p := mk_ctx x [] [] 0]> (nw_ctxs w) /\
      if bind_only then x = 0 /\ b_ctx (nw_rm w') = b_ctx (nw_rm w)
      else x <> 0 /\ (x ∉ b_ctx (nw_rm w)) /\ b_ctx (nw_rm w') = {[x]} ∪ b_ctx (nw_rm w)
  end.
Lemma rm_ctx_create_in_ok k ids w engines bind_only share :
  inv k ids w -> wp (rm_ctx_create_in B engines bind_only share) (fun r w' => inv k ids w' /\ memory w w' /\ created w w' bind_only r) w.
Proof.
  intros H. unfold rm_ctx_create_in. apply wp_bind.
  assert (Hs : exists s, match share with Some (q, _) => get_ctx q | None => mret no_ctx end = (fun w' => ((match share with Some (q, _) => get_ctx q | None => mret no_ctx end w').1, w')) /\
    (match share with Some (q, _) => get_ctx q | None => mret no_ctx end w).1 = s) by (eexists; split; [by destruct share as [[q same]|]|done]).
  destruct Hs as (s & Es & <-). unfold wp at 1. rewrite Es. cbn [fst snd]. set (s := fst _).
  destruct (match share with Some (_, same) => _ | None => false end); [by apply wp_ret|].
  apply wp_bind, wp_calloc; [by apply wp_ret|]. pose proof (i_next _ _ _ H) as Hn. rewrite (proj2 (Z.eqb_neq (nw_next w) 0)) by lia.
  pose proof (alloced_ok _ _ _ H) as H1.
  assert (Hfresh : nw_ctxs w !! nw_next w = None).
  { destruct (nw_ctxs w !! nw_next w) eqn:E; [|done]. apply (i_below _ _ _ H) in E. cbn in E. lia. }
  destruct bind_only.
  { apply wp_put_ctx, wp_ret. split; [apply (inv_new_ctx k ids (alloced w)); [done|done|cbn; lia]|]. split; [done|]. exists 0. by repeat split. }
  set (c := CContext _ _). set (a := bk_answer B (nw_rm (alloced w)) c).
  apply wp_bind, (wp_nv_rm B (k + 1) ids); [by apply called_neutral|]. intros w1 H2 Q1. fold a.
  assert (M1 : memory w w1).
  { etrans; [|by apply quiet_memory]. etrans; [|by apply called_memory]. done. }
  assert (C1 : nw_ctxs w1 = nw_ctxs w) by (by rewrite (q_ctxs _ _ Q1)).
  assert (X1 : b_ctx (nw_rm w1) = if an_status a =? VK_SUCCESS then {[an_id a]} ∪ b_ctx (nw_rm w) else b_ctx (nw_rm w)).
  { rewrite (q_ctx _ _ Q1). apply (called_context (alloced w)). }
  destruct (Z.eqb_spec (an_status a) VK_SUCCESS) as [Ea|Ea]; cbn [negb].
  - destruct (context_fresh _ _ _ Ea) as [F1 F2]. fold c a in F1, F2.
    apply wp_put_ctx, wp_ret. split; [apply (inv_new_ctx k ids w1); [done|by rewrite C1|rewrite (q_next _ _ Q1); cbn; lia]|].
    split; [exact M1|]. exists (an_id a). split; [done|]. split; [cbn; unfold put_ctx; mrun; cbn; by rewrite C1|]. by rewrite <- X1.
  - unfold wp. mrun. split; [by apply free_block_ok|]. split; [exact M1|]. by repeat split.
Qed.

Definition destroyed (w w' : nworld) (p : Z) (c : nvkmd_rm_ctx) : Prop :=
  nw_ctxs w' = delete p (nw_ctxs w) /\ b_ctx (nw_rm w) ∖ {[cx_channel c]} ⊆ b_ctx (nw_rm w').
Lemma rm_ctx_destroy_ok k ids w p c :
  inv k ids w -> nw_ctxs w !! p = Some c ->
  wp (rm_ctx_destroy B p) (fun _ w' => inv k ids w' /\ memory w w' /\ destroyed w w' p c) w.
Proof.
  intros H Hp. unfold rm_ctx_destroy. apply wp_bind, (wp_get_ctx p c); [done|]. apply wp_bind.
  assert (Hend : forall w1, inv k ids w1 -> memory w w1 -> nw_ctxs w1 = nw_ctxs w -> b_ctx (nw_rm w) ∖ {[cx_channel c]} ⊆ b_ctx (nw_rm w1) ->
    wp (w2 ← getS; _ ← put_ctxs (delete p (nw_ctxs w2)); free_block) (fun _ w' => inv k ids w' /\ memory w w' /\ destroyed w w' p c) w1).
  { intros w1 H1 M1 C1 X1. unfold wp. mrun. split; [apply (inv_drop_ctx k ids w1 p c); [done|congruence]|]. split; [exact M1|].
    split; [by rewrite <- C1|exact X1]. }
  destruct (cx_channel c =? 0); cbn [negb].
  - apply wp_ret. apply Hend; try done. set_solver.
  - set (d := CContextDestroy (cx_channel c)).
    apply wp_bind, (wp_nv_rm B k ids); [by apply called_neutral|]. intros w1 H1 Q1. apply wp_ret. apply Hend; [done| |by rewrite (q_ctxs _ _ Q1)|].
    + etrans; [exact (called_memory w d I)|by apply quiet_memory].
    + rewrite (q_ctx _ _ Q1). unfold called, effect. cbn. destruct (_ =? VK_SUCCESS); cbn; set_solver.
Qed.

(** ** Termination: a ring of [slots] batches, each wait for the oldest of
    which leaves fewer to wait for, makes [slots + 1] tries enough. *)
Definition drains (slots : nat) (left : rm -> nat) : Prop :=
  (forall s, left s <= slots)%nat /\
  forall w p x pushes waits signals,
    let a := bk_answer B (nw_rm w) (CSubmit x pushes waits signals) in
    let w1 := (nv_rm B (CSubmit x pushes waits signals) w).2 in
    an_status a = VK_NOT_READY -> an_status (bk_answer B (nw_rm w1) (CWait x (an_id a) p)) = VK_SUCCESS ->
    (left (nw_rm (nv_rm B (CWait x (an_id a) p) w1).2) < left (nw_rm w))%nat.
Lemma rm_ctx_submit_returns slots left fuel p pushes signals w :
  drains slots left -> (left (nw_rm w) < fuel)%nat -> (rm_ctx_submit B fuel p pushes signals w).1 <> Retrying.
Proof.
  intros [_ Hd]. revert w. induction fuel as [|fuel IH]; intros w Hl; [lia|]. cbn [rm_ctx_submit]. unfold get_ctx. mrun.
  set (c := default no_ctx (nw_ctxs w !! p)). set (call := CSubmit _ _ _ _).
  change ((nv_rm B call w).1) with (bk_answer B (nw_rm w) call). set (a := bk_answer B (nw_rm w) call).
  destruct (Z.eqb_spec (an_status a) VK_NOT_READY) as [En|En].
  - rewrite bind_run. set (w1 := (nv_rm B call w).2). change ((nv_rm B (CWait (cx_channel c) (an_id a) UINT64_MAX) w1).1) with (bk_answer B (nw_rm w1) (CWait (cx_channel c) (an_id a) UINT64_MAX)).
    destruct (Z.eqb_spec (an_status (bk_answer B (nw_rm w1) (CWait (cx_channel c) (an_id a) UINT64_MAX))) VK_SUCCESS) as [Er|Er]; cbn [negb]; [|done].
    apply IH. pose proof (Hd w UINT64_MAX (cx_channel c) pushes (cx_waits c) signals En Er). fold call a w1 in H. lia.
  - destruct (negb _); done.
Qed.
Lemma send_chunks_returns slots left n p offset l signals w :
  drains slots left -> (slots < retries)%nat -> (length l <= n)%nat -> (send_chunks B retries n p offset l signals w).1.1 <> Retrying.
Proof.
  intros Hd Hr. revert w offset l. induction n as [|n IH]; intros w offset l Hn; [destruct l; [done|cbn in Hn; lia]|].
  destruct l as [|e l]; [done|]. cbn [send_chunks]. destruct (back _ _) as [count|] eqn:Eb; [|done].
  rewrite bind_run. set (x := rm_ctx_submit _ _ _ _ _ _). assert (Hx : x.1 <> Retrying).
  { apply (rm_ctx_submit_returns slots left); [done|]. pose proof (proj1 Hd (nw_rm w)). lia. }
  destruct (succeeds x.1); cbn [negb]; [|done]. apply IH.
  assert (Hc : forall k m, back (e :: l) k = Some m -> (0 < m)%nat).
  { induction k as [|k IHk]; cbn [back]; [done|]. intros m. destruct (incomplete_at _ _); [apply IHk|intros [= <-]; lia]. }
  apply Hc in Eb. rewrite length_drop. cbn in *. lia.
Qed.
Lemma rm_ctx_flush_signals_returns slots left p signals w :
  drains slots left -> (slots < retries)%nat -> (rm_ctx_flush_signals B retries p signals w).1 <> Retrying.
Proof.
  intros Hd Hr. unfold rm_ctx_flush_signals, get_ctx. mrun. set (c := default no_ctx (nw_ctxs w !! p)).
  destruct (negb (boundaries_ok _ _)); [done|]. destruct (is_nil (cx_pending c)).
  - destruct (_ || _); [|done]. apply (rm_ctx_submit_returns slots left); [done|]. pose proof (proj1 Hd (nw_rm w)). lia.
  - rewrite bind_run. pose proof (send_chunks_returns slots left (length (cx_pending c)) p 0 (cx_pending c) signals w Hd Hr ltac:(lia)) as Hs.
    destruct (send_chunks _ _ _ _ _ _ _ w) as [[o off] w1]. mrun. by destruct (0 <? off)%nat; mrun.
Qed.
End Proofs.

End RmCtx.
