(* ===== verification/RmSession.v ===== *)
(** * Sessions on the resource-manager backend

    Mesa's calls on the objects of [nvkmd_rm.c] in any order ([rm_op]), by a
    client that uses live objects, leaves a memory object's own range alone, and
    passes 64-bit numbers ([allowed]; other calls are refused here).  [rgood] is
    the invariant of all of it.  The theorems of this file are about the worlds
    that such sessions reach, whatever the other side answers. *)

From Stdlib Require Import ZArith Lia.
From stdpp Require Import base option sets strings gmap list.
From S2P Require Import Prelude RmBackend RmVa RmCtx.

Set Default Goal Selector "!".
#[local] Open Scope Z_scope.

Module RmSession.
Import RmBackend RmVa RmCtx.

Inductive rm_op :=
  | OVaAlloc (sparse : bool) (fixed : option Z) (kind size alignment : Z)
  | OVaFree (p : Z)
  | OVaBind (p offset : Z) (mem memory_offset size : Z)
  | OVaUnbind (p offset size : Z)
  | OMemAlloc (generic size alignment : Z) (flags : mem_flags)
  | OMemTiled (generic size alignment kind tile : Z) (flags : mem_flags)
  | OMemImport (drm_fd fd : Z)
  | OMemFree (p : Z)
  | OMemMap (p : Z) (fixed : bool)
  | OMemUnmap (p : Z)
  | OMemExport (p drm_fd : Z)
  | OCtxCreate (engines : Z) (bind_only : bool) (share : option (Z * bool))
  | OCtxDestroy (p : Z)
  | OCtxExec (p : Z) (execs : list nvkmd_ctx_exec)
  | OCtxWait (p : Z) (waits : list vk_sync_point)
  | OCtxSignal (p : Z) (signals : list vk_sync_point)
  | OCtxFlush (p : Z)
  | OCtxSync (p : Z)
  | OCtxBind (p : Z) (binds : list nvkmd_ctx_bind).

Definition client_va (w : nworld) (p : Z) : Prop := is_Some (nw_vas w !! p) /\ free_range w p.
Definition live_mem (w : nworld) (p : Z) : Prop := is_Some (nw_mems w !! p).
Definition live_ctx (w : nworld) (p : Z) : Prop := is_Some (nw_ctxs w !! p).
Definition allowed (o : rm_op) (w : nworld) : Prop :=
  match o with
  | OVaAlloc _ _ _ size alignment => is_u64 size /\ is_u64 alignment
  | OVaFree p => client_va w p
  | OVaBind p offset mem _ size => client_va w p /\ live_mem w mem /\ 0 <= offset /\ 0 <= size
  | OVaUnbind p offset size => client_va w p /\ 0 <= offset /\ 0 <= size
  | OMemAlloc _ _ alignment _ | OMemTiled _ _ alignment _ _ _ => is_u64 alignment
  | OMemImport _ _ | OCtxCreate _ _ _ => True
  | OMemFree p | OMemMap p _ | OMemUnmap p | OMemExport p _ => live_mem w p
  | OCtxDestroy p | OCtxExec p _ | OCtxWait p _ | OCtxSignal p _ | OCtxFlush p | OCtxSync p => live_ctx w p
  | OCtxBind p binds => live_ctx w p /\ Forall (bind_ok w) binds
  end.
#[export] Instance free_range_dec w p : Decision (free_range w p).
Proof. unfold free_range. apply _. Defined.
#[export] Instance bind_ok_dec w b : Decision (bind_ok w b).
Proof. unfold bind_ok. apply _. Defined.
#[export] Instance allowed_dec o w : Decision (allowed o w).
Proof. unfold allowed, client_va, live_mem, live_ctx, is_u64. destruct o; apply _. Defined.

Definition status_of (r : Z + Z) : outcome := match r with inl e => Returns e | inr _ => Returns VK_SUCCESS end.

Section Session.
Context (B : backend) (retries : nat).

Definition rm_run (o : rm_op) : M nworld outcome :=
  match o with
  | OVaAlloc sparse fixed kind size alignment => r ← rm_va_alloc B sparse fixed kind size alignment; mret (status_of r)
  | OVaFree p => _ ← rm_va_free B p; mret (Returns VK_SUCCESS)
  | OVaBind p offset mem moff size => m ← get_mem mem; r ← rm_va_bind B p offset m moff size; mret (Returns r)
  | OVaUnbind p offset size => r ← rm_va_unbind B p offset size; mret (Returns r)
  | OMemAlloc g size alignment flags => r ← rm_mem_alloc B g size alignment flags; mret (status_of r)
  | OMemTiled g size alignment kind tile flags => r ← rm_mem_tiled B g size alignment kind tile flags; mret (status_of r)
  | OMemImport drm_fd fd => r ← rm_mem_import B drm_fd fd; mret (status_of r)
  | OMemFree p => _ ← rm_mem_free B p; mret (Returns VK_SUCCESS)
  | OMemMap p fixed => r ← rm_mem_map B p fixed; mret (status_of r)
  | OMemUnmap p => _ ← rm_mem_unmap B p; mret (Returns VK_SUCCESS)
  | OMemExport p fd => r ← rm_mem_export B p fd; mret (status_of r)
  | OCtxCreate engines bind_only share => r ← rm_ctx_create_in B engines bind_only share; mret (status_of r)
  | OCtxDestroy p => _ ← rm_ctx_destroy B p; mret (Returns VK_SUCCESS)
  | OCtxExec p execs => rm_ctx_exec p execs
  | OCtxWait p waits => rm_ctx_wait B retries p waits
  | OCtxSignal p signals => rm_ctx_signal B retries p signals
  | OCtxFlush p => rm_ctx_flush B retries p
  | OCtxSync p => rm_ctx_sync B retries p
  | OCtxBind p binds => rm_ctx_bind B retries p binds
  end.
Definition rm_step (o : rm_op) : M nworld outcome :=
  w ← getS; if decide (allowed o w) then rm_run o else mret (Returns VK_ERROR_UNKNOWN).
Fixpoint rm_session (ops : list rm_op) : M nworld (list outcome) :=
  match ops with [] => mret [] | o :: ops => r ← rm_step o; rs ← rm_session ops; mret (r :: rs) end.

End Session.

(** A new device: [vulkan] says whether a logical Vulkan device belongs to it. *)
Definition nw_start (vulkan : bool) : nworld :=
  mk_nw (mk_rm ∅ ∅ ∅ [] ∅ [] false []) [] ∅ ∅ ∅ 1 0 [] [] (if vulkan then Some false else None).

(** ** The invariant of a session *)

(** Channels are the contexts' own. *)
Definition channels (w : nworld) : Prop :=
  (forall p c, nw_ctxs w !! p = Some c -> cx_channel c <> 0 -> cx_channel c ∈ b_ctx (nw_rm w)) /\
  (forall p q c d, nw_ctxs w !! p = Some c -> nw_ctxs w !! q = Some d -> cx_channel c <> 0 -> cx_channel c = cx_channel d -> p = q).
Record rgood (w : nworld) : Prop := {
  rg_inv : inv 0 [] w;
  rg_channels : channels w;
  rg_batches : Forall good_batch (b_batches (nw_rm w));
}.

Lemma channels_same w w' : nw_ctxs w' = nw_ctxs w -> b_ctx (nw_rm w') = b_ctx (nw_rm w) -> channels w -> channels w'.
Proof. unfold channels. by intros -> ->. Qed.
Lemma channels_moved w w' p g : moved w w' p g -> b_ctx (nw_rm w') = b_ctx (nw_rm w) -> channels w -> channels w'.
Proof.
  intros (c & c' & bs & H1 & H2 & H3 & _) Hx [K1 K2].
  assert (Hl : forall q d, nw_ctxs w' !! q = Some d -> exists e, nw_ctxs w !! q = Some e /\ cx_channel e = cx_channel d).
  { intros q d. rewrite H2. intros [(<- & <-)|(? & ?)]%lookup_insert_Some; eauto. }
  split.
  - intros q d Hq. destruct (Hl q d Hq) as (e & He & <-). rewrite Hx. by apply (K1 q).
  - intros q r d e Hq Hr. destruct (Hl q d Hq) as (d0 & Hd & <-). destruct (Hl r e Hr) as (e0 & He & <-). by apply (K2 q r).
Qed.
Lemma batches_moved w w' p g : moved w w' p g -> Forall good_batch (b_batches (nw_rm w)) -> Forall good_batch (b_batches (nw_rm w')).
Proof. intros (c & c' & bs & _ & _ & _ & H4 & _ & H6 & _) H. rewrite H4. by apply Forall_app. Qed.
Lemma rgood_call (o : outcome) w p Q w' : rgood w -> ctx_call 0 [] w p Q o w' -> rgood w'.
Proof.
  intros [H1 H2 H3] (Hi & T & g & M & _). split; [done| |by eapply batches_moved]. eapply channels_moved; [exact M|apply T|done].
Qed.
Lemma rgood_tables w w' : rgood w -> inv 0 [] w' -> nw_ctxs w' = nw_ctxs w -> b_ctx (nw_rm w') = b_ctx (nw_rm w) -> b_batches (nw_rm w') = b_batches (nw_rm w) -> rgood w'.
Proof. intros [H1 H2 H3] Hi Hc Hx Hb. split; [done|by eapply channels_same|by rewrite Hb]. Qed.
Lemma rgood_frame w w' : rgood w -> inv 0 [] w' -> frame w w' -> rgood w'.
Proof. intros Hg Hi []. by apply (rgood_tables w). Qed.

Lemma rgood_start vulkan : rgood (nw_start vulkan).
Proof.
  split; [|split; [done|]|constructor].
  - split; cbn; try done; [apply space_nil|]. destruct vulkan; by intros [?|[?|?]].
  - done.
Qed.

(** What an operation asks of context [p], and what became of it: nothing but a
    prefix of that was appended to what the channel has or is going to get. *)
Definition asked (o : rm_op) (p : Z) : list item :=
  match o with
  | OCtxExec q execs => if decide (q = p) then (fun e => Push (push_of e)) <$> execs else []
  | OCtxWait q waits => if decide (q = p) then wait_items waits else []
  | OCtxSignal q signals => if decide (q = p) then (fun s => Signal (point s)) <$> signals else []
  | _ => []
  end.
Definition grown (w w' : nworld) (p : Z) (g : list item) : Prop :=
  (exists c c', nw_ctxs w !! p = Some c /\ nw_ctxs w' !! p = Some c' /\ cx_channel c' = cx_channel c) /\ stream w' p = stream w p ++ g.
Definition gpu_ctx (w : nworld) (p : Z) : Prop := exists c, nw_ctxs w !! p = Some c /\ cx_channel c <> 0.
Record stepped (o : rm_op) (w : nworld) (r : outcome) (w' : nworld) : Prop := {
  st_good : rgood w';
  st_bounds : r <> OutOfBounds;
  st_lost : b_lost (nw_rm w) = true -> b_lost (nw_rm w') = true;
  st_stream : forall p, gpu_ctx w p -> o <> OCtxDestroy p -> exists g, grown w w' p g /\ asks (asked o p) r g w';
}.

Lemma asks_none all r w' : r <> OutOfBounds -> succeeds r = false \/ all = [] -> asks all r [] w'.
Proof. intros H1 H2. split; [done|]. split; [apply prefix_nil|]. intros E. destruct H2; congruence. Qed.
Lemma grown_same w w' p : gpu_ctx w p -> nw_ctxs w' !! p = nw_ctxs w !! p -> b_batches (nw_rm w') = b_batches (nw_rm w) -> grown w w' p [].
Proof.
  intros (c & Hp & _) Hc Hb. split; [exists c, c; by rewrite Hc|]. unfold stream. by rewrite Hc, Hp, Hb, app_nil_r.
Qed.
Lemma grown_moved w w' p g : moved w w' p g -> grown w w' p g.
Proof.
  intros (c & c' & bs & H1 & H2 & H3 & H4 & H5 & H6 & H7). assert (E : nw_ctxs w' !! p = Some c') by (by rewrite H2, lookup_insert_eq).
  split; [by exists c, c'|]. unfold stream. rewrite E, H1, H3, H4, accepted_app, <- !app_assoc, <- H7. do 2 f_equal.
  unfold accepted, on_channel. rewrite filter_keeps; [done|]. by rewrite Forall_forall in *.
Qed.
Lemma grown_other w w' p q g : rgood w -> gpu_ctx w p -> moved w w' q g -> p <> q -> grown w w' p [].
Proof.
  intros [_ [_ K] _] (d & Hp & Hd) (c & c' & bs & H1 & H2 & H3 & H4 & H5 & _) Hne.
  assert (E : nw_ctxs w' !! p = Some d) by (by rewrite H2, lookup_insert_ne). split; [by exists d, d|].
  unfold stream. rewrite E, Hp, H4, accepted_app, app_nil_r, (accepted_other (cx_channel c) _ bs), app_nil_r; [done| |done].
  intros Ec. apply Hne. symmetry in Ec. by apply (K p q d c).
Qed.

Lemma stepped_same o w r w' :
  rgood w' -> nw_ctxs w' = nw_ctxs w -> b_batches (nw_rm w') = b_batches (nw_rm w) -> (b_lost (nw_rm w) = true -> b_lost (nw_rm w') = true) ->
  r <> OutOfBounds -> succeeds r = false \/ (forall p, asked o p = []) -> stepped o w r w'.
Proof.
  intros H Hc Hb Hl Hr Ha. split; try done. intros p Hp _. exists []. split; [apply grown_same; [done|by rewrite Hc|done]|].
  apply asks_none; [done|]. destruct Ha; auto.
Qed.
Lemma stepped_kept o w r w' : rgood w -> inv 0 [] w' -> kept w w' -> r <> OutOfBounds -> (forall p, asked o p = []) -> stepped o w r w'.
Proof. intros Hg Hi (? & ? & ? & ? & ?) Hr Ha. apply stepped_same; auto. by apply (rgood_tables w). Qed.
Lemma stepped_moved o w r w' q g all :
  rgood w -> inv 0 [] w' -> b_ctx (nw_rm w') = b_ctx (nw_rm w) -> (b_lost (nw_rm w) = true -> b_lost (nw_rm w') = true) -> moved w w' q g -> asks all r g w' ->
  (gpu_ctx w q -> asked o q = all) -> (forall p, p <> q -> asked o p = []) -> stepped o w r w'.
Proof.
  intros Hg Hi Hx Hl M A Hq Hp. split; [|apply A|done|].
  - destruct Hg as [H1 H2 H3]. split; [done|by eapply channels_moved|by eapply batches_moved].
  - intros p Hp' _. destruct (decide (p = q)) as [->|Hne].
    + exists g. split; [by apply grown_moved|]. by rewrite Hq.
    + exists []. split; [by eapply grown_other|]. rewrite Hp by done. apply asks_none; [apply A|auto].
Qed.
Lemma stepped_call o w r w' q all :
  rgood w -> ctx_call 0 [] w q (asks all) r w' -> (gpu_ctx w q -> asked o q = all) -> (forall p, p <> q -> asked o p = []) -> stepped o w r w'.
Proof. intros Hg (Hi & T & g & M & A) Hq Hp. eapply stepped_moved; try done; apply T. Qed.

Section Steps.
Context (B : backend) `{!Contract B} (retries : nat).

Lemma wp_status {r : M nworld (Z + Z)} (Q : outcome -> nworld -> Prop) w :
  wp r (fun x w' => Q (status_of x) w') w -> wp (x ← r; mret (status_of x)) Q w.
Proof. intros H. apply wp_bind. exact H. Qed.
Lemma status_bounds r : status_of r <> OutOfBounds.
Proof. by destruct r. Qed.

(** Contexts appear and disappear without touching the others. *)
Lemma stepped_create o w w' bind_only r :
  rgood w -> inv 0 [] w' -> memory w w' -> created w w' bind_only r -> (forall p, asked o p = []) -> stepped o w (status_of r) w'.
Proof.
  intros Hg Hi (V & Ms & Cp & Bt & L) Hc Ha. destruct r as [e|q].
  - destruct Hc as (_ & Hc & Hx). apply stepped_same; auto. by apply (rgood_tables w).
  - destruct Hc as (x & Hq & Hc & Hx). destruct Hg as [H1 [K1 K2] H3].
    assert (Hsub : b_ctx (nw_rm w) ⊆ b_ctx (nw_rm w')) by (destruct bind_only; destruct Hx as [? Hx]; [by rewrite Hx|destruct Hx as [_ ->]; set_solver]).
    assert (Hnew : forall p c, nw_ctxs w !! p = Some c -> cx_channel c <> 0 -> cx_channel c = x -> False).
    { intros p c Hp Hn E. specialize (K1 p c Hp Hn). destruct bind_only; [destruct Hx; congruence|]. destruct Hx as (_ & Hx & _). congruence. }
    split; [|done|done|].
    + split; [done| |by rewrite Bt]. split.
      * intros p c. rewrite Hc. intros [(<- & <-)|(_ & Hp)]%lookup_insert_Some Hn; [|by apply Hsub, (K1 p)].
        destruct bind_only; [destruct Hx; done|]. destruct Hx as (_ & _ & ->). cbn. set_solver.
      * intros p r c d. rewrite Hc. intros [(<- & <-)|(? & Hp)]%lookup_insert_Some [(<- & <-)|(? & Hr)]%lookup_insert_Some Hn E; try done.
        -- exfalso. cbn in E, Hn. apply (Hnew r d); congruence.
        -- exfalso. apply (Hnew p c); [done|done|exact E].
        -- by apply (K2 p r c d).
    + intros p Hp _. exists []. split; [|apply asks_none; [done|auto]]. apply grown_same; [done| |done].
      rewrite Hc, lookup_insert_ne; [done|]. intros ->. destruct Hp as (c & Hp & _). congruence.
Qed.
Lemma stepped_destroy w w' q c :
  rgood w -> inv 0 [] w' -> memory w w' -> nw_ctxs w !! q = Some c -> destroyed w w' q c -> stepped (OCtxDestroy q) w (Returns VK_SUCCESS) w'.
Proof.
  intros [H1 [K1 K2] H3] Hi (V & Ms & Cp & Bt & L) Hq (Hc & Hx). split; [|done|done|].
  - split; [done| |by rewrite Bt]. split.
    + intros p d. rewrite Hc. intros [Hne Hp]%lookup_delete_Some Hn. apply Hx, elem_of_difference. split; [by apply (K1 p)|].
      rewrite elem_of_singleton. intros E. apply Hne. symmetry. by apply (K2 p q d c).
    + intros p r d e. rewrite Hc. intros [_ Hp]%lookup_delete_Some [_ Hr]%lookup_delete_Some. by apply (K2 p r).
  - intros p Hp Hne. exists []. split; [|by apply asks_none; [|right]]. apply grown_same; [done| |done].
    rewrite Hc, lookup_delete_ne; [done|congruence].
Qed.

Lemma rm_run_ok o w : rgood w -> allowed o w -> wp (rm_run B retries o) (stepped o w) w.
Proof.
  intros Hg Ha. pose proof (rg_inv _ Hg) as H. destruct o; cbn [rm_run allowed] in *.
  - destruct Ha. apply wp_status. eapply wp_mono; [by apply (rm_va_alloc_ok B 0 [])|]. intros r w' (Hi & F & _).
    apply stepped_kept; try done; [by apply frame_kept|apply status_bounds].
  - destruct Ha as [[v Hv] Hf]. apply wp_bind. eapply wp_mono; [by apply (rm_va_free_ok B 0 [] w p v)|]. intros u w' (Hi & F & _).
    apply wp_ret, stepped_kept; try done. by apply frame_kept.
  - destruct Ha as ([[v Hv] Hf] & _ & ? & ?). apply wp_bind. unfold wp at 1. unfold get_mem. mrun. apply wp_bind.
    eapply wp_mono; [by apply (rm_va_bind_ok B 0 [])|]. intros r w' (l & Hi & F & _). apply wp_ret, stepped_kept; try done. by apply frame_kept.
  - destruct Ha as ([[v Hv] Hf] & ? & ?). apply wp_bind.
    eapply wp_mono; [by apply (rm_va_unbind_ok B 0 [])|]. intros r w' (l & Hi & F & _). apply wp_ret, stepped_kept; try done. by apply frame_kept.
  - apply wp_status. eapply wp_mono; [by apply (rm_mem_alloc_kind_ok B 0 [])|]. intros r w' (Hi & F & _).
    apply stepped_kept; try done. apply status_bounds.
  - apply wp_status. eapply wp_mono; [by apply (rm_mem_tiled_ok B 0 [])|]. intros r w' (Hi & F & _).
    apply stepped_kept; try done. apply status_bounds.
  - apply wp_status. eapply wp_mono; [by apply (rm_mem_import_ok B 0 [])|]. intros r w' (Hi & F & _).
    apply stepped_kept; try done. apply status_bounds.
  - destruct Ha as [m Hm]. apply wp_bind. eapply wp_mono; [by apply (rm_mem_free_ok B 0 [] w p m)|]. intros u w' (Hi & ? & ? & ? & ? & ? & ? & ?).
    apply wp_ret, stepped_kept; try done.
  - destruct Ha as [m Hm]. apply wp_status. eapply wp_mono; [by apply (rm_mem_map_ok B 0 [] w p m)|]. intros r w' (Hi & (? & ? & ? & ? & ? & ?) & _).
    apply stepped_same; auto; [by apply (rgood_tables w)|apply status_bounds].
  - destruct Ha as [m Hm]. apply wp_bind. eapply wp_mono; [by apply (rm_mem_unmap_ok B 0 [] w p m)|]. intros r w' (Hi & (? & ? & ? & ? & ? & ?) & _).
    apply wp_ret, stepped_same; auto. by apply (rgood_tables w).
  - destruct Ha as [m Hm]. apply wp_status. eapply wp_mono; [by apply (rm_mem_export_ok B 0 [] w p m)|]. intros r w' (Hi & (? & ? & ? & ? & ? & ?) & _).
    apply stepped_same; auto; [by apply (rgood_tables w)|apply status_bounds].
  - apply wp_status. eapply wp_mono; [by apply (rm_ctx_create_in_ok B 0 [])|]. intros r w' (Hi & Hm & Hc). by eapply stepped_create.
  - destruct Ha as [c Hc]. apply wp_bind. eapply wp_mono; [by apply (rm_ctx_destroy_ok B 0 [] w p c)|]. intros u w' (Hi & Hm & Hd).
    apply wp_ret. by eapply stepped_destroy.
  - destruct Ha as [c Hc]. eapply wp_mono; [by apply (rm_ctx_exec_ok 0 [] p c)|]. intros r w' Hw. eapply stepped_call; [done|exact Hw| |].
    + intros _. cbn. by rewrite decide_True.
    + intros q Hq. cbn. by rewrite decide_False.
  - destruct Ha as [c Hc]. eapply wp_mono; [by apply (rm_ctx_wait_ok B retries 0 [] p c)|]. intros r w' Hw. eapply stepped_call; [done|exact Hw| |].
    + intros (d & Hd & Hn). cbn. rewrite decide_True by done. destruct (Z.eqb_spec (cx_channel c) 0); [congruence|done].
    + intros q Hq. cbn. by rewrite decide_False.
  - destruct Ha as [c Hc]. eapply wp_mono; [by apply (rm_ctx_signal_ok B retries 0 [] p c)|]. intros r w' Hw. eapply stepped_call; [done|exact Hw| |].
    + intros (d & Hd & Hn). cbn. rewrite decide_True by done. destruct (Z.eqb_spec (cx_channel c) 0); [congruence|done].
    + intros q Hq. cbn. by rewrite decide_False.
  - destruct Ha as [c Hc]. eapply wp_mono; [by apply (rm_ctx_flush_ok B retries 0 [] p c)|]. intros r w' (Hi & T & g & M & A & -> & _).
    eapply (stepped_moved _ _ _ _ p [] []); try done; apply T.
  - destruct Ha as [c Hc]. eapply wp_mono; [by apply (rm_ctx_sync_ok B retries 0 [] p c)|]. intros r w' Hw. by eapply (stepped_call _ _ _ _ p []).
  - destruct Ha as [[c Hc] Hb]. eapply wp_mono; [by apply (rm_ctx_bind_ok B retries 0 [] p c)|]. intros r w' (Hi & M & _ & _ & Hx & _ & Hl & Ho).
    eapply (stepped_moved _ _ _ _ p [] []); try done.
Qed.
Lemma rm_step_ok o w : rgood w -> wp (rm_step B retries o) (stepped o w) w.
Proof.
  intros Hg. unfold rm_step. unfold wp. mrun. destruct (decide (allowed o w)); [by apply rm_run_ok|]. apply stepped_same; auto.
Qed.
Lemma rm_session_good ops w : rgood w -> rgood (rm_session B retries ops w).2.
Proof.
  revert w. induction ops as [|o ops IH]; intros w Hg; [done|]. cbn [rm_session]. mrun. apply IH. apply (st_good _ _ _ _ (rm_step_ok o w Hg)).
Qed.
End Steps.

(** ** An instance of the other side

    Fresh ids, ranges above the highest reserved one, a ring with room for one
    batch after every wait, one deferred release carried out at every call, and
    the calls that [fails] picks refused. *)
Section Demo.
Context (fails : call -> bool).

Definition next_id (l : list Z) : Z := 1 + foldr Z.max 0 l.
Definition busy (s : rm) : bool :=
  match last (b_hist s) with Some (CWait _ _ _, _) => false | _ => Nat.odd (length (b_batches s)) end.
Definition demo_answer (s : rm) (c : call) : answer :=
  mk_ans
    (if fails c then VK_ERROR_OUT_OF_DEVICE_MEMORY
     else match c with CSubmit _ _ _ _ => if busy s then VK_NOT_READY else VK_SUCCESS | _ => VK_SUCCESS end)
    (match c with
     | CAlloc _ _ _ _ | CImport _ _ => next_id (map_to_list (b_mem s)).*1
     | CBind _ _ _ _ _ => next_id (map_to_list (b_map s)).*1
     | CContext _ _ => next_id (elements (b_ctx s))
     | _ => 1
     end)
    (match c with CAlloc size _ _ _ => u64 size | CImport _ _ => 8192 | _ => 0 end).
Definition demo_heap_alloc (R : list (Z * Z)) (size align : Z) : Z :=
  if align <=? 0 then 0 else
  let top := foldr (fun r m => Z.max m (r.1 + r.2)) NV_RM_VA_START R in
  let a := (top + align - 1) / align * align in
  if a + size <=? NV_RM_VA_END then a else 0.
Definition demo_heap_addr (R : list (Z * Z)) (a size : Z) : bool :=
  (NV_RM_VA_START <=? a) && (a + size <=? NV_RM_VA_END) && forallb (fun r => (a + size <=? r.1) || (r.1 + r.2 <=? a)) R.
Definition demo : backend :=
  mk_backend demo_answer (fun _ => [(0%nat, true)]) (fun _ => false) (fun _ _ => true) demo_heap_alloc demo_heap_addr.

Lemma next_id_fresh l : (next_id l ∉ l) /\ 0 < next_id l.
Proof.
  assert (H : 0 <= foldr Z.max 0 l /\ Forall (fun x => x <= foldr Z.max 0 l) l).
  { induction l as [|x l [IH1 IH2]]; cbn; [by split|]. split; [lia|]. constructor; [lia|]. eapply Forall_impl; [exact IH2|]. intros y. cbn. lia. }
  destruct H as [H1 H2]. split; [|unfold next_id; lia]. intros Hin. rewrite Forall_forall in H2. apply H2 in Hin. unfold next_id in Hin. lia.
Qed.
Lemma next_key_fresh {A} (m : gmap Z A) : m !! next_id (map_to_list m).*1 = None.
Proof.
  destruct (m !! _) as [x|] eqn:E; [|done]. exfalso. apply (proj1 (next_id_fresh (map_to_list m).*1)).
  apply list_elem_of_fmap. eexists. split; [|apply elem_of_map_to_list; exact E]. done.
Qed.
#[export] Instance demo_contract : Contract demo.
Proof.
  split.
  - intros s c _. destruct c; try done; apply next_key_fresh.
  - intros s c. destruct c; cbn; try (unfold is_u64; lia). apply u64_range.
  - intros s m o n a k _. apply next_key_fresh.
  - intros s e x _. cbn. destruct (next_id_fresh (elements (b_ctx s))) as [H1 H2]. split; [lia|]. by rewrite elem_of_elements in H1.
  - intros R size align Hs. cbn. unfold demo_heap_alloc. destruct (Z.leb_spec align 0) as [|Ha]; [done|].
    set (top := foldr _ _ R). set (a := (top + align - 1) / align * align). destruct (Z.leb_spec (a + size) NV_RM_VA_END) as [Hle|]; [|done]. intros _.
    assert (Htop : NV_RM_VA_START <= top /\ Forall (fun r => r.1 + r.2 <= top) R).
    { unfold top. clear. induction R as [|r R [IH1 IH2]]; cbn; [by split|]. split; [lia|]. constructor; [lia|].
      eapply Forall_impl; [exact IH2|]. intros y. cbn. lia. }
    assert (Hta : top <= a).
    { unfold a. pose proof (Z.div_mod (top + align - 1) align ltac:(lia)). pose proof (Z.mod_pos_bound (top + align - 1) align Ha). nia. }
    destruct Htop as [H1 H2]. split; [|split].
    + unfold within, va_space. cbn. lia.
    + unfold a. apply Z.mod_mul. lia.
    + eapply Forall_impl; [exact H2|]. intros r Hr. unfold apart. cbn in *. lia.
  - intros R a size Hs. cbn. unfold demo_heap_addr. rewrite !andb_true_iff, !Z.leb_le, forallb_forall. intros [[H1 H2] H3]. split.
    + unfold within, va_space. cbn. lia.
    + apply Forall_forall. intros r Hr. apply list_elem_of_In, H3 in Hr. rewrite orb_true_iff, !Z.leb_le in Hr. unfold apart. cbn. lia.
Qed.
Lemma reclaim_hist x w : b_hist (nw_rm (reclaim x w).2) = b_hist (nw_rm w).
Proof. unfold reclaim. mrun. destruct (b_pending (nw_rm w) !! x.1); [|done]. destruct x as [? [|]]; done. Qed.
Lemma demo_hist c w : last (b_hist (nw_rm (nv_rm demo c w).2)) = Some (c, demo_answer (nw_rm w) c).
Proof.
  unfold nv_rm, pump. mrun. cbn [bk_reclaim demo reclaim_all]. mrun. rewrite reclaim_hist. cbn.
  unfold effect. rewrite last_snoc. done.
Qed.
(** Its ring has one slot to wait for. *)
Definition demo_left (s : rm) : nat := if busy s then 1%nat else 0%nat.
Lemma demo_drains : drains demo 1 demo_left.
Proof.
  split; [intros s; unfold demo_left; destruct (busy s); lia|]. intros w p x pushes waits signals a w1 Ha Hr.
  assert (Hb : busy (nw_rm w) = true).
  { unfold a in Ha. cbn in Ha. destruct (fails _); [done|]. by destruct (busy (nw_rm w)). }
  assert (Hn : busy (nw_rm (nv_rm demo (CWait x (an_id a) p) w1).2) = false) by (unfold busy; by rewrite demo_hist).
  unfold demo_left. rewrite Hb, Hn. lia.
Qed.
End Demo.

(** ** The theorems *)

Section Theorems.
Context (B : backend) `{!Contract B} (retries : nat).

Definition reached (vulkan : bool) (ops : list rm_op) : nworld := (rm_session B retries ops (nw_start vulkan)).2.
Lemma reached_good vulkan ops : rgood (reached vulkan ops).
Proof. apply rm_session_good; [done|apply rgood_start]. Qed.

Lemma stranded_nil k ids w : inv k ids w -> b_lost (nw_rm w) = false -> nw_stranded w = [].
Proof. intros H Hl. destruct (nw_stranded w) eqn:E; [done|]. rewrite (i_lost _ _ _ H) in Hl; [done|]. right. left. by rewrite E. Qed.

(** C3: after any session, the reserved ranges are exactly those of the live VA
    objects, of the releases still deferred, and of the releases that failed;
    they lie in NVK's part of the address space and apart from each other; the
    live GPU mappings are exactly theirs, each inside its range, and no two
    mappings overlap: a range is not handed out again before its mappings are
    gone. *)
Theorem rm_space_exact vulkan ops :
  let w := reached vulkan ops in
  nw_heap w ≡ₚ g_range <$> vgroups (nw_vas w) ++ b_pending (nw_rm w) ++ nw_retained w /\
  all_apart (nw_heap w) /\ Forall (fun r => within r va_space /\ 0 < r.2) (nw_heap w) /\
  map_to_list (b_map (nw_rm w)) ≡ₚ (vgroups (nw_vas w) ++ b_pending (nw_rm w) ++ nw_retained w) ≫= g_maps /\
  Forall (fun g => Forall (fun m => within m.2 (g_range g)) (g_maps g)) (owners w) /\
  forall i j x y, b_map (nw_rm w) !! i = Some x -> b_map (nw_rm w) !! j = Some y -> i <> j -> apart x y.
Proof.
  cbn zeta. pose proof (i_space _ _ _ (rg_inv _ (reached_good vulkan ops))) as Hsp. set (w := reached vulkan ops) in *. clearbody w.
  split; [apply (sp_heap _ _ _ Hsp)|]. split; [eapply all_apart_perm; [symmetry; apply (sp_heap _ _ _ Hsp)|apply (sp_apart _ _ _ Hsp)]|].
  pose proof (sp_good _ _ _ Hsp) as Hg. split; [|split; [apply (sp_maps _ _ _ Hsp)|split]].
  - rewrite (sp_heap _ _ _ Hsp). apply Forall_fmap. eapply Forall_impl; [exact Hg|]. intros g (? & ? & _). done.
  - eapply Forall_impl; [exact Hg|]. intros g (_ & _ & Hm & _). eapply Forall_impl; [exact Hm|]. by intros m [? _].
  - intros i j x y. apply (space_no_alias _ _ _ _ _ _ _ Hsp).
Qed.

(** C5: after any session, the allocations of the other side are exactly those
    of the live memory objects and the ones that could not be given back; every
    memory object is mapped whole, once, at the start of a range that no other
    object has; the blocks in use are exactly those of the live objects; and the
    device is lost if anything was given up. *)
Theorem rm_memory_exact vulkan ops :
  let w := reached vulkan ops in
  (map_to_list (b_mem (nw_rm w))).*1 ≡ₚ (mm_alloc <$> (map_to_list (nw_mems w)).*2) ++ nw_stranded w /\
  nw_blocks w = total (fun _ v => 1 + Z.of_nat (length (va_bindings v))) (nw_vas w) + Z.of_nat (size (nw_mems w)) + Z.of_nat (size (nw_ctxs w)) /\
  (forall p m, nw_mems w !! p = Some m -> exists v id, nw_vas w !! mm_va m = Some v /\ va_bindings v = [mk_binding 0 (mm_size_B m) id] /\
     b_map (nw_rm w) !! id = Some (va_addr v, mm_size_B m)) /\
  (forall p q m n, nw_mems w !! p = Some m -> nw_mems w !! q = Some n -> mm_va m = mm_va n -> p = q) /\
  (nw_retained w <> [] \/ nw_stranded w <> [] -> b_lost (nw_rm w) = true).
Proof.
  cbn zeta. pose proof (rg_inv _ (reached_good vulkan ops)) as H. set (w := reached vulkan ops) in *. clearbody w.
  split; [apply (i_allocs _ _ _ H)|]. split; [|split; [|split; [apply (i_own _ _ _ H)|]]].
  - rewrite (i_blocks _ _ _ H), !total_count. done.
  - intros p m Hm. destruct (i_whole _ _ _ H p m Hm) as (v & id & Hv & Hb). exists v, id. do 2 (split; [done|]).
    pose proof (i_space _ _ _ H) as Hsp. rewrite (owners_at w _ _ Hv) in Hsp. apply (space_lookup _ _ _ _ _ Hsp).
    apply elem_of_app. left. unfold va_group, va_maps. cbn. rewrite Hb. cbn. rewrite Z.add_0_r. by apply list_elem_of_singleton.
  - intros [E|E]; apply (i_lost _ _ _ H); auto.
Qed.

(** Without objects on a device that is not lost, only deferred releases are left. *)
Lemma no_objects w :
  inv 0 [] w -> nw_vas w = ∅ -> nw_mems w = ∅ -> nw_ctxs w = ∅ -> b_lost (nw_rm w) = false ->
  b_mem (nw_rm w) = ∅ /\ nw_blocks w = 0 /\ (b_pending (nw_rm w) = [] -> nw_heap w = [] /\ b_map (nw_rm w) = ∅).
Proof.
  intros H Hv Hm Hc Hl. pose proof (i_lost _ _ _ H) as L.
  assert (Hr : nw_retained w = []) by (destruct (nw_retained w); [done|rewrite L in Hl; [done|by left]]).
  assert (Hs : nw_stranded w = []) by (by apply (stranded_nil 0 [])).
  destruct (i_space _ _ _ H) as [S1 _ _ S4]. unfold owners, vgroups in S1, S4. rewrite Hv, Hr, map_to_list_empty in S1, S4. cbn in S1, S4.
  rewrite app_nil_r in S1, S4. split; [|split].
  - pose proof (i_allocs _ _ _ H) as A. rewrite Hm, Hs, map_to_list_empty in A. cbn in A. apply Permutation_nil_r, fmap_nil_inv in A.
    by apply map_to_list_empty_iff.
  - by rewrite (i_blocks _ _ _ H), Hv, Hm, Hc, !total_empty.
  - intros E. rewrite E in S1, S4. cbn in S1, S4. apply Permutation_nil_r in S1, S4. split; [done|]. by apply map_to_list_empty_iff.
Qed.

(** C4: the batches a context's channel accepted, with what the context still
    holds, are what the client asked for, in order and once: each call appends
    all of its waits, pushes or signals if it returned success and otherwise a
    prefix of them.  No batch has more than 1000 pushes or ends inside a
    continuation. *)
Theorem rm_stream_exact vulkan before ops p c :
  let w := reached vulkan before in
  let w' := (rm_session B retries ops w).2 in
  nw_ctxs w !! p = Some c -> cx_channel c <> 0 -> Forall (fun o => o <> OCtxDestroy p) ops ->
  Forall good_batch (b_batches (nw_rm w')) /\
  exists gs, stream w' p = stream w p ++ concat gs /\
    Forall2 (fun x g => g `prefix_of` asked x.1 p /\ (succeeds x.2 = true -> g = asked x.1 p)) (zip ops (rm_session B retries ops w).1) gs.
Proof.
  cbn zeta. pose proof (reached_good vulkan before) as Hg. set (w := reached vulkan before) in *. clearbody w. intros Hc Hn Hd.
  split; [apply (rg_batches _ (rm_session_good B retries ops w Hg))|].
  assert (Hp : gpu_ctx w p) by (by exists c). clear Hc Hn. revert w Hg Hp. induction Hd as [|o ops Ho Hd IH]; intros w Hg Hp.
  { exists []. cbn. rewrite app_nil_r. by split. }
  cbn [rm_session]. mrun. destruct (rm_step_ok B retries o w Hg) as [Hg1 _ _ Hs]. destruct (Hs p Hp Ho) as (g & [Hch Hgr] & _ & Hpre & Hall).
  assert (Hp1 : gpu_ctx (rm_step B retries o w).2 p).
  { destruct Hp as (c0 & E0 & N0). destruct Hch as (c1 & c2 & E1 & E2 & E3). exists c2. split; [done|]. congruence. }
  destruct (IH _ Hg1 Hp1) as (gs & E & Hgs). exists (g :: gs). split; [cbn; by rewrite E, Hgr, app_assoc|]. by constructor.
Qed.

(** C10: with a ring of [slots] batches, flushing with signals always returns,
    never reads outside the pushes, and appends to the channel, when it
    succeeds, everything the context held and then the signals. *)
Theorem rm_flush_returns slots left vulkan ops p c signals :
  drains B slots left -> (slots < retries)%nat ->
  let w := reached vulkan ops in
  nw_ctxs w !! p = Some c ->
  exists r w' c', rm_ctx_flush_signals B retries p signals w = (Returns r, w') /\ nw_ctxs w' !! p = Some c' /\
    if r =? VK_SUCCESS then held c' = [] /\ accepted (cx_channel c) (b_batches (nw_rm w')) = stream w p ++ (Signal <$> signals)
    else stream w' p = stream w p.
Proof.
  intros Hd Hr. cbn zeta. pose proof (rg_inv _ (reached_good vulkan ops)) as H. set (w := reached vulkan ops) in *. clearbody w. intros Hc.
  pose proof (rm_ctx_flush_signals_returns B retries slots left p signals w Hd Hr) as Hret.
  destruct (rm_ctx_flush_signals_ok B retries 0 [] p c signals w H Hc) as (_ & _ & g & M & Ho & Eg & Hdr).
  destruct (rm_ctx_flush_signals B retries p signals w) as [o w']. cbn [fst snd] in *.
  destruct (grown_moved _ _ _ _ M) as [(c0 & c' & E0 & E' & Ech) Est]. assert (c0 = c) as -> by congruence.
  destruct o as [r| |]; [|done|done]. exists r, w', c'. split; [done|]. split; [done|]. cbn [succeeds] in Hdr, Eg. destruct (r =? VK_SUCCESS).
  - destruct (Hdr eq_refl) as (d & Ed & D1 & D2). assert (d = c') as -> by congruence.
    assert (Hh : held c' = []) by (unfold held; by rewrite D1, D2). split; [done|].
    rewrite <- Eg, <- Est. unfold stream at 1. by rewrite E', Hh, app_nil_r, Ech.
  - rewrite Est, Eg. by rewrite app_nil_r.
Qed.

(** C9: binding replaces: on success exactly the bindings inside the range have
    gone and the new mapping lies at the range's address; a bind that would cut
    a mapping, or does not fit, is refused with nothing changed; whatever fails,
    only bindings inside the range may have gone. *)
Theorem rm_va_bind_exact vulkan ops p offset mem memory_offset size v :
  let w := reached vulkan ops in
  nw_vas w !! p = Some v -> free_range w p -> 0 <= offset -> 0 <= size ->
  let '(r, w') := rm_va_bind B p offset mem memory_offset size w in
  exists l, nw_vas w' = <[p := with_bindings v l]> (nw_vas w) /\ sublist (uncovered offset size (va_bindings v)) l /\
    (if r =? VK_SUCCESS then
       0 < size /\ offset + size <= va_size_B v /\ exists id, l = uncovered offset size (va_bindings v) ++ [mk_binding offset size id] /\
         b_map (nw_rm w') !! id = Some (va_addr v + offset, size)
     else sublist l (va_bindings v)) /\
    (bad_range memory_offset size (mm_size_B mem) || (size =? 0) || bad_range offset size (va_size_B v) ||
     existsb (partly_covered offset size) (va_bindings v) = true -> r = VK_ERROR_FEATURE_NOT_PRESENT /\ w' = w).
Proof.
  cbn zeta. pose proof (rg_inv _ (reached_good vulkan ops)) as H. set (w := reached vulkan ops) in *. clearbody w. intros Hv Hf Ho Hs.
  pose proof (rm_va_bind_ok B 0 [] p offset mem memory_offset size w v Ho Hs H Hv Hf) as (l & Hi & _ & Hv' & Hsub & Hl).
  pose proof (rm_va_bind_refused B p offset mem memory_offset size w v Hv) as Href.
  destruct (rm_va_bind B p offset mem memory_offset size w) as [r w']. cbn [fst snd] in *. exists l. do 2 (split; [done|]). split.
  - destruct (Z.eqb_spec r VK_SUCCESS) as [->|Hr]; [rewrite decide_True in Hl by done|by rewrite decide_False in Hl].
    destruct Hl as (? & ? & id & ->). do 2 (split; [done|]). exists id. split; [done|].
    pose proof (i_space _ _ _ Hi) as Hsp. rewrite (owners_at w' p _ ltac:(by rewrite Hv', lookup_insert_eq)) in Hsp.
    apply (space_lookup _ _ _ _ _ Hsp). cbn [mbind list_bind]. apply elem_of_app. left. unfold va_group. cbn [g_maps].
    rewrite va_maps_app. apply elem_of_app. right. by apply list_elem_of_singleton.
  - intros E. by injection (Href E) as -> ->.
Qed.

(** C21: an allocation of memory of any kind returns an object whose allocation
    is mapped whole at a range of its own, of the alignment asked for and the
    image's kind; or an error, with the client's objects and the blocks in use
    as they were, and, unless the device is lost, no allocation left behind. *)
Theorem rm_mem_tiled_exact vulkan ops generic size alignment kind tile flags :
  is_u64 alignment ->
  let w := reached vulkan ops in
  let '(r, w') := rm_mem_tiled B generic size alignment kind tile flags w in
  match r with
  | inr p => exists id size' va a i, nw_mems w !! p = None /\ nw_vas w !! va = None /\
      nw_mems w' = <[p := mk_mem (coherent flags) size' id va]> (nw_mems w) /\
      nw_vas w' = <[va := mk_va a (align64 size' 4096) kind [mk_binding 0 size' i]]> (nw_vas w) /\
      b_map (nw_rm w') !! i = Some (a, size') /\ a mod Z.max (mem_alignment flags alignment) 4096 = 0
  | inl e => e <> VK_SUCCESS /\ nw_vas w' = nw_vas w /\ nw_mems w' = nw_mems w /\ nw_blocks w' = nw_blocks w /\
      (b_lost (nw_rm w') = false -> (map_to_list (b_mem (nw_rm w'))).*1 ≡ₚ (map_to_list (b_mem (nw_rm w))).*1)
  end.
Proof.
  intros Ha. cbn zeta. pose proof (rg_inv _ (reached_good vulkan ops)) as H. set (w := reached vulkan ops) in *. clearbody w.
  destruct (rm_mem_tiled_ok B 0 [] w generic size alignment kind tile flags Ha H) as [Hi [K R]].
  destruct (rm_mem_tiled B generic size alignment kind tile flags w) as [[e|p] w']; cbn [fst snd] in *.
  - destruct R as [(V & Ms & Cx & _) He]. do 3 (split; [done|]). split; [by rewrite (i_blocks _ _ _ Hi), (i_blocks _ _ _ H), V, Ms, Cx|].
    intros Hl. assert (Hl0 : b_lost (nw_rm w) = false) by (destruct K as (_ & _ & _ & _ & K); by destruct (b_lost (nw_rm w)); [rewrite K in Hl|]).
    rewrite (i_allocs _ _ _ Hi), (i_allocs _ _ _ H), Ms, (stranded_nil _ _ _ Hi Hl), (stranded_nil _ _ _ H Hl0). done.
  - destruct R as (id & size' & va & a & i & Hp & Hva & Ms & V & Hal & Hs). exists id, size', va, a, i. do 4 (split; [done|]). split; [|done].
    pose proof (i_space _ _ _ Hi) as Hsp. rewrite (owners_at w' va _ ltac:(by rewrite V, lookup_insert_eq)) in Hsp.
    apply (space_lookup _ _ _ _ _ Hsp). cbn [mbind list_bind]. apply elem_of_app. left. unfold va_group, va_maps. cbn. rewrite Z.add_0_r.
    by apply list_elem_of_singleton.
Qed.

(** A CPU map that succeeds returns an address and holds one lease on the
    allocation, and none on any other; one that fails holds no lease, even when
    the other side granted it without an address, unless the device is lost. *)
Theorem rm_mem_map_exact vulkan ops p m fixed :
  let w := reached vulkan ops in
  nw_mems w !! p = Some m ->
  let '(r, w') := rm_mem_map B p fixed w in
  match r with
  | inr a => a <> 0 /\ forall i, cpu_refs (nw_rm w') i = cpu_refs (nw_rm w) i + (if decide (i = mm_alloc m) then 1 else 0)
  | inl e => e <> VK_SUCCESS /\ ((forall i, cpu_refs (nw_rm w') i = cpu_refs (nw_rm w) i) \/ e = VK_ERROR_DEVICE_LOST /\ b_lost (nw_rm w') = true)
  end.
Proof.
  cbn zeta. pose proof (rg_inv _ (reached_good vulkan ops)) as H. set (w := reached vulkan ops) in *. clearbody w. intros Hm.
  destruct (rm_mem_map_ok B 0 [] w p m fixed H Hm) as (_ & _ & R). destruct (rm_mem_map B p fixed w) as [[e|a] w']; cbn [fst snd] in *; [|exact R].
  destruct R as [He [L|L]]; (split; [done|]); [left|by right]. intros i. rewrite (L i). destruct (decide _); lia.
Qed.

End Theorems.

(** ** Concrete sessions *)

Definition no_fail : call -> bool := fun _ => false.
Definition d_flags : mem_flags := mk_mf true false false false false false.
Definition d_memory : list rm_op := [OVaAlloc false None 0 65536 4096; OMemAlloc 6 8192 4096 d_flags; OVaBind 1 4096 2 0 8192].
Definition d_channel : list rm_op := [OCtxCreate 1 false None].
Definition d_push (inc : bool) : nvkmd_ctx_exec := mk_cx 4096 8 false inc.
Definition d_point (n : Z) : vk_sync_point := mk_sp true false n n.

Lemma rm_space_exact_witness :
  let w := reached (demo no_fail) 2 true d_memory in
  length (nw_heap w) = 2%nat /\ size (b_map (nw_rm w)) = 2%nat /\
  forall i j x y, b_map (nw_rm w) !! i = Some x -> b_map (nw_rm w) !! j = Some y -> i <> j -> apart x y.
Proof.
  split; [vm_compute; reflexivity|]. split; [vm_compute; reflexivity|]. apply (rm_space_exact (demo no_fail) 2 true d_memory).
Defined.
Lemma rm_memory_exact_witness :
  let w := reached (demo no_fail) 2 true d_memory in
  nw_blocks w = 5 /\ (map_to_list (b_mem (nw_rm w))).*1 ≡ₚ (mm_alloc <$> (map_to_list (nw_mems w)).*2) ++ nw_stranded w.
Proof. split; [vm_compute; reflexivity|]. apply (rm_memory_exact (demo no_fail) 2 true d_memory). Defined.
Definition d_work : list rm_op :=
  [OCtxWait 1 [d_point 3]; OCtxExec 1 [d_push false; d_push true; d_push false]; OCtxSignal 1 [d_point 4]; OCtxExec 1 [d_push true]; OCtxFlush 1].
Lemma rm_stream_exact_witness :
  let w := reached (demo no_fail) 2 true d_channel in
  let w' := (rm_session (demo no_fail) 2 d_work w).2 in
  length (b_batches (nw_rm w')) = 1%nat /\ Forall good_batch (b_batches (nw_rm w')) /\ exists gs, stream w' 1 = stream w 1 ++ concat gs.
Proof.
  split; [vm_compute; reflexivity|].
  destruct (rm_stream_exact (demo no_fail) 2 true d_channel d_work 1 (mk_ctx 1 [] [] 0)) as [H (gs & E & _)];
    [vm_compute; reflexivity|done|repeat constructor; discriminate|]. split; [exact H|]. by exists gs.
Defined.
Lemma rm_flush_returns_witness :
  let w := reached (demo no_fail) 2 true (d_channel ++ [OCtxExec 1 [d_push false]; OCtxFlush 1; OCtxExec 1 [d_push false]]) in
  exists r w', rm_ctx_flush_signals (demo no_fail) 2 1 [mk_point 4 4] w = (Returns r, w').
Proof.
  destruct (rm_flush_returns (demo no_fail) 2 1 demo_left true (d_channel ++ [OCtxExec 1 [d_push false]; OCtxFlush 1; OCtxExec 1 [d_push false]]) 1
    (mk_ctx 1 [mk_exec 4096 8 0] [] 1) [mk_point 4 4]) as (r & w' & c' & E & _); [apply demo_drains|lia|vm_compute; reflexivity|].
  exists r, w'. exact E.
Defined.
Definition d_va : nvkmd_rm_va := mk_va NV_RM_VA_START 65536 0 [mk_binding 4096 8192 2].
Definition d_mem : nvkmd_rm_mem := mk_mem (coherent d_flags) 65536 1 3.
Lemma rm_va_bind_exact_witness :
  let w := reached (demo no_fail) 2 true d_memory in
  (rm_va_bind (demo no_fail) 1 4096 d_mem 0 16384 w).1 = VK_SUCCESS /\
  (exists l, nw_vas (rm_va_bind (demo no_fail) 1 4096 d_mem 0 16384 w).2 = <[1 := with_bindings d_va l]> (nw_vas w)) /\
  rm_va_bind (demo no_fail) 1 8192 d_mem 0 16384 w = (VK_ERROR_FEATURE_NOT_PRESENT, w).
Proof.
  split; [vm_compute; reflexivity|].
  assert (Hv : nw_vas (reached (demo no_fail) 2 true d_memory) !! 1 = Some d_va) by (vm_compute; reflexivity).
  assert (Hf : free_range (reached (demo no_fail) 2 true d_memory) 1) by (apply (bool_decide_eq_true_1 _); vm_compute; reflexivity).
  pose proof (rm_va_bind_exact (demo no_fail) 2 true d_memory 1 4096 d_mem 0 16384 d_va Hv Hf ltac:(lia) ltac:(lia)) as H1.
  pose proof (rm_va_bind_exact (demo no_fail) 2 true d_memory 1 8192 d_mem 0 16384 d_va Hv Hf ltac:(lia) ltac:(lia)) as H2.
  cbn zeta. destruct (rm_va_bind _ 1 4096 _ _ _ _) as [r w']. destruct (rm_va_bind _ 1 8192 _ _ _ _) as [r2 w2].
  destruct H1 as (l & E & _). destruct H2 as (_ & _ & _ & _ & E2). split; [by exists l|]. destruct E2 as [-> ->]; [vm_compute; reflexivity|done].
Defined.
Definition bind_fails : call -> bool := fun c => match c with CBind _ _ _ _ _ => true | _ => false end.
Lemma rm_mem_tiled_exact_witness :
  let w := reached (demo bind_fails) 2 true [] in
  exists e, (rm_mem_tiled (demo bind_fails) 6 65536 4096 6 0x20 d_flags w).1 = inl e /\ e <> VK_SUCCESS.
Proof.
  pose proof (rm_mem_tiled_exact (demo bind_fails) 2 true [] 6 65536 4096 6 0x20 d_flags ltac:(unfold is_u64; lia)) as H.
  cbn zeta in *. destruct (rm_mem_tiled _ 6 65536 4096 6 0x20 d_flags _) as [r w'] eqn:E.
  assert (Er : fst (r, w') = inl VK_ERROR_OUT_OF_DEVICE_MEMORY) by (rewrite <- E; vm_compute; reflexivity). cbn in Er.
  subst r. eexists. split; [reflexivity|]. apply H.
Defined.
Lemma rm_mem_map_exact_witness :
  let w := reached (demo no_fail) 2 true d_memory in
  exists a, (rm_mem_map (demo no_fail) 2 false w).1 = inr a /\ a <> 0 /\ cpu_refs (nw_rm (rm_mem_map (demo no_fail) 2 false w).2) 1 = cpu_refs (nw_rm w) 1 + 1.
Proof.
  pose proof (rm_mem_map_exact (demo no_fail) 2 true d_memory 2 d_mem false ltac:(vm_compute; reflexivity)) as H.
  cbn zeta in *. destruct (rm_mem_map _ 2 false _) as [r w'] eqn:E.
  assert (Er : fst (r, w') = inr 1) by (rewrite <- E; vm_compute; reflexivity). cbn in Er.
  subst r. exists 1. destruct H as [Hn H]. split; [reflexivity|]. split; [exact Hn|]. cbn [snd]. rewrite (H 1). by rewrite decide_True.
Defined.

End RmSession.
