(* ===== verification/RmDevice.v ===== *)
(** * Devices and synchronization of the resource-manager backend

    Synchronization objects are payloads of the other side: most operations of
    [rm_sync_type] are one call each.  [rm_sync_wait_many] and [rm_check_status]
    also carry the loss of the device over to Mesa, and [rm_sync_wait_many] turns
    Mesa's deadline into a timeout.  They run on the world of [RmBackend].

    Physical and logical devices ([nvkmd_rm_try_create_pdev], [rm_dev_create]
    and their destruction) have a world of their own, [dworld]: open
    descriptors, open resource-manager devices, DRM versions and blocks.  What
    the other side answers is again a parameter. *)

From Stdlib Require Import ZArith Lia.
From stdpp Require Import base option sets strings gmap list.
From S2P Require Import Prelude RmBackend RmVa RmCtx RmSession.

Set Default Goal Selector "!".
#[local] Open Scope Z_scope.

Module RmDevice.
Import RmBackend RmVa RmCtx RmSession.

Section Sync.
Context (B : backend).

(** [vk_device_is_lost_no_report], then the backend's own snapshot. *)
Definition rm_wait_status : M nworld Z :=
  w ← getS;
  if decide (nw_vk w = Some true) then mret VK_ERROR_DEVICE_LOST
  else lost ← nv_rm_is_lost; if lost : bool then vk_device_set_lost else mret VK_SUCCESS.
Definition rm_check_status : M nworld Z :=
  a ← nv_rm B (COther "check_status" []);
  if an_status a =? VK_SUCCESS then mret VK_SUCCESS else vk_device_set_lost.

(** The operations that are one call: its status, and what it returned. *)
Definition sync_call (operation : string) (args : list Z) : M nworld (Z + Z) :=
  a ← nv_rm B (CSync operation args);
  mret (if an_status a =? VK_SUCCESS then inr (an_id a) else inl (rm_result (an_status a))).
Definition rm_sync_init (flags initial : Z) : M nworld (Z + Z) := sync_call "create" [flags; initial].
Definition rm_sync_finish (id : Z) : M nworld () :=
  a ← nv_rm B (CSync "destroy_deferred" [id]);
  if an_status a =? VK_SUCCESS then mret tt else _ ← vk_device_set_lost; mret tt.
Definition rm_sync_signal (id value : Z) : M nworld (Z + Z) := sync_call "signal" [id; value].
Definition rm_sync_get_value (id : Z) : M nworld (Z + Z) := sync_call "get_value" [id].
Definition rm_sync_reset (id : Z) : M nworld (Z + Z) := sync_call "reset" [id].
Definition rm_sync_move (dst src src_flags : Z) : M nworld (Z + Z) :=
  sync_call "move" [dst; src; if Z.land src_flags NV_RM_SYNC_SHARED =? 0 then 0 else 1].
Definition rm_sync_reserve_signal (dst src : Z) : M nworld (Z * bool) :=
  r ← sync_call "reserve" [dst; src];
  mret (match r with inr reserved => (VK_SUCCESS, negb (reserved =? 0)) | inl e => (e, false) end).
Definition rm_sync_import_opaque_fd (id fd : Z) : M nworld (Z + Z) := sync_call "import_fd" [id; fd; 1].
Definition rm_sync_export_opaque_fd (id drm_fd : Z) : M nworld (Z + Z) := sync_call "export_fd" [id; 1; drm_fd].
Definition rm_sync_import_sync_file (id fd : Z) : M nworld (Z + Z) := sync_call "import_fd" [id; fd; 0].
Definition rm_sync_export_sync_file (id drm_fd : Z) : M nworld (Z + Z) := sync_call "export_fd" [id; 0; drm_fd].

(** [now]: [os_time_get_nano]. *)
Definition timeout_of (deadline now : Z) : Z :=
  if deadline =? UINT64_MAX then UINT64_MAX else if now <? deadline then deadline - now else 0.
Definition rm_sync_wait_many (waits : list NvRmSyncPoint) (flags deadline now : Z) : M nworld Z :=
  s ← rm_wait_status;
  if negb (s =? VK_SUCCESS) then mret VK_ERROR_DEVICE_LOST
  else if is_nil waits then mret VK_SUCCESS
  else
  points ← (if (16 <? length waits)%nat then calloc B "points" else mret 1);
  if points =? 0 then mret VK_ERROR_OUT_OF_HOST_MEMORY
  else
  a ← nv_rm B (CSyncWait waits flags (timeout_of deadline now));
  _ ← (if (16 <? length waits)%nat then free_block else mret tt);
  s ← rm_wait_status;
  if negb (s =? VK_SUCCESS) then mret VK_ERROR_DEVICE_LOST
  else mret (if an_status a =? 2 then VK_TIMEOUT else rm_result (an_status a)).

Definition rm_timestamp : M nworld Z :=
  a ← nv_rm B (COther "timestamp" []); mret (if an_status a =? VK_SUCCESS then an_id a else 0).

(** [nv_rm_close] on the ranges of this backend: every outstanding release runs. *)
Definition nv_rm_close_releases (ok : bool) : M nworld () :=
  w ← getS; reclaim_all (replicate (length (b_pending (nw_rm w))) (0%nat, ok)).

End Sync.

(** ** Devices *)

Record nv_info := mk_info { in_generic_kind : Z; in_max_shared_ctx : Z; in_has_zcull : bool; in_vram_size : Z; in_bar_size : Z }.
(** [struct _drmDevice]: its bus type is PCI, its vendor, the bits of its nodes,
    and its PCI location as one number. *)
Record drm_device := mk_drm { dd_pci : bool; dd_vendor : Z; dd_nodes : Z; dd_location : Z; dd_render : string }.
Record pdev := mk_pdev { pd_info : nv_info; pd_fd : Z; pd_path : string; pd_tiled : bool; pd_compression : bool; pd_shared : Z; pd_zcull : bool; pd_render_dev : Z }.
(** [dv_vk]: the Vulkan device whose hooks were set, if any. *)
Record dev := mk_dev { dv_fd : Z; dv_rm : Z; dv_vk : option Z; dv_va_start : Z; dv_va_end : Z }.

(** What the system and the other side answer: to [open], [drmGetVersion] (the
    name; [None]: no version), [calloc], [fstat], and [nv_rm_open]: its status,
    whether it left a device behind, and the information. *)
Record system := mk_sys {
  sy_open : nat -> string -> bool;
  sy_version : nat -> Z -> option (option string);
  sy_calloc : nat -> bool;
  sy_fstat : nat -> Z -> option Z;
  sy_rm_open : nat -> Z -> Z * bool * nv_info;
}.
Record dworld := mk_dw {
  dw_tick : nat;
  dw_next : Z;
  dw_fds : gset Z;
  dw_rms : gset Z;
  dw_versions : Z;
  dw_pdevs : gmap Z pdev;
  dw_devs : gmap Z dev;
  dw_blocks : Z;
  dw_hooks : gmap Z Z;     (** Vulkan device -> the resource-manager device its loss hook marks *)
}.
Definition NVIDIA_VENDOR_ID : Z := 0x10de.
Definition DRM_NODE_RENDER : Z := 2.

Definition rm_vram_used : Z := 0.
Definition rm_drm_fd (d : dev) : Z := dv_fd d.

Section Devices.
Context (S : system).

Definition tick : M dworld nat :=
  fun w => (dw_tick w, mk_dw (dw_tick w + 1) (dw_next w) (dw_fds w) (dw_rms w) (dw_versions w) (dw_pdevs w) (dw_devs w) (dw_blocks w) (dw_hooks w)).
Definition put_fds x n : M dworld () :=
  modS (fun w => mk_dw (dw_tick w) n x (dw_rms w) (dw_versions w) (dw_pdevs w) (dw_devs w) (dw_blocks w) (dw_hooks w)).
Definition put_rms x n : M dworld () :=
  modS (fun w => mk_dw (dw_tick w) n (dw_fds w) x (dw_versions w) (dw_pdevs w) (dw_devs w) (dw_blocks w) (dw_hooks w)).
Definition add_versions n : M dworld () :=
  modS (fun w => mk_dw (dw_tick w) (dw_next w) (dw_fds w) (dw_rms w) (dw_versions w + n) (dw_pdevs w) (dw_devs w) (dw_blocks w) (dw_hooks w)).
Definition put_pdevs m : M dworld () :=
  modS (fun w => mk_dw (dw_tick w) (dw_next w) (dw_fds w) (dw_rms w) (dw_versions w) m (dw_devs w) (dw_blocks w) (dw_hooks w)).
Definition put_devs m : M dworld () :=
  modS (fun w => mk_dw (dw_tick w) (dw_next w) (dw_fds w) (dw_rms w) (dw_versions w) (dw_pdevs w) m (dw_blocks w) (dw_hooks w)).
Definition put_dblocks n x : M dworld () :=
  modS (fun w => mk_dw (dw_tick w) x (dw_fds w) (dw_rms w) (dw_versions w) (dw_pdevs w) (dw_devs w) n (dw_hooks w)).
Definition put_hooks m : M dworld () :=
  modS (fun w => mk_dw (dw_tick w) (dw_next w) (dw_fds w) (dw_rms w) (dw_versions w) (dw_pdevs w) (dw_devs w) (dw_blocks w) m).

Definition open (path : string) : M dworld Z :=
  t ← tick; w ← getS;
  if sy_open S t path then _ ← put_fds ({[dw_next w]} ∪ dw_fds w) (dw_next w + 1); mret (dw_next w) else mret (-1).
Definition close (fd : Z) : M dworld () := w ← getS; put_fds (dw_fds w ∖ {[fd]}) (dw_next w).
Definition drmGetVersion (fd : Z) : M dworld (option (option string)) :=
  t ← tick;
  match sy_version S t fd with None => mret None | Some name => _ ← add_versions 1; mret (Some name) end.
Definition drmFreeVersion : M dworld () := add_versions (-1).
Definition dcalloc : M dworld Z :=
  t ← tick; w ← getS;
  if sy_calloc S t then _ ← put_dblocks (dw_blocks w + 1) (dw_next w + 1); mret (dw_next w) else mret 0.
Definition dfree : M dworld () := w ← getS; put_dblocks (dw_blocks w - 1) (dw_next w).
(** The device handle, 0 if none was left behind. *)
Definition nv_rm_open (location : Z) : M dworld (Z * Z * nv_info) :=
  t ← tick; w ← getS;
  let '(status, behind, info) := sy_rm_open S t location in
  if (behind : bool) || (status =? VK_SUCCESS) then _ ← put_rms ({[dw_next w]} ∪ dw_rms w) (dw_next w + 1); mret (status, dw_next w, info)
  else mret (status, 0, info).
Definition nv_rm_close (rm : Z) : M dworld () := w ← getS; put_rms (dw_rms w ∖ {[rm]}) (dw_next w).

Definition rm_pdev_destroy (p : Z) : M dworld () :=
  w ← getS;
  match dw_pdevs w !! p with
  | None => mret tt
  | Some d => _ ← close (pd_fd d); _ ← put_pdevs (delete p (dw_pdevs w)); dfree
  end.

Definition device_wanted (d : drm_device) : bool :=
  dd_pci d && (dd_vendor d =? NVIDIA_VENDOR_ID) && negb (Z.land (dd_nodes d) (Z.shiftl 1 DRM_NODE_RENDER) =? 0).
Definition is_native (v : option (option string)) : bool := if decide (v = Some (Some "nvidia-drm"%string)) then true else false.
Definition make_pdev (info : nv_info) (fd : Z) (path : string) (render_dev : Z) : pdev :=
  mk_pdev info fd path ((in_generic_kind info =? 0x06) || (in_generic_kind info =? 0xfe)) (in_generic_kind info =? 0x06)
    (in_max_shared_ctx info) (in_has_zcull info) render_dev.
Definition nvkmd_rm_try_create_pdev (d : drm_device) : M dworld (Z + Z) :=
  if negb (device_wanted d) then mret (inl VK_ERROR_INCOMPATIBLE_DRIVER)
  else
  fd ← open (dd_render d);
  if fd <? 0 then mret (inl VK_ERROR_INCOMPATIBLE_DRIVER)
  else
  version ← drmGetVersion fd;
  _ ← (match version with Some _ => drmFreeVersion | None => mret tt end);
  if negb (is_native version) then _ ← close fd; mret (inl VK_ERROR_INCOMPATIBLE_DRIVER)
  else
  p ← dcalloc;
  if p =? 0 then _ ← close fd; mret (inl VK_ERROR_OUT_OF_HOST_MEMORY)
  else
  t ← tick;
  match sy_fstat S t fd with
  | None => _ ← close fd; _ ← dfree; mret (inl VK_ERROR_INITIALIZATION_FAILED)
  | Some rdev =>
      '(status, rm, info) ← nv_rm_open (dd_location d);
      if negb (status =? VK_SUCCESS) then
        _ ← (if negb (rm =? 0) then nv_rm_close rm else mret tt);
        _ ← close fd; _ ← dfree; mret (inl status)
      else
        _ ← nv_rm_close rm;
        w ← getS;
        _ ← put_pdevs (<[p := make_pdev info fd (dd_render d) rdev]> (dw_pdevs w));
        mret (inr p)
  end.

(** [vk]: the logical device of the log object, if it has one. *)
Definition rm_dev_create (p location : Z) (vk : option Z) : M dworld (Z + Z) :=
  w ← getS;
  v ← dcalloc;
  if v =? 0 then mret (inl VK_ERROR_OUT_OF_HOST_MEMORY)
  else
  fd ← open (match dw_pdevs w !! p with Some d => pd_path d | None => "" end);
  if fd <? 0 then _ ← dfree; mret (inl VK_ERROR_INITIALIZATION_FAILED)
  else
  '(status, rm, info) ← nv_rm_open location;
  if negb (status =? VK_SUCCESS) then
    _ ← (if negb (rm =? 0) then nv_rm_close rm else mret tt);
    _ ← close fd; _ ← dfree; mret (inl status)
  else
    w ← getS;
    _ ← put_devs (<[v := mk_dev fd rm vk NV_RM_VA_START NV_RM_VA_END]> (dw_devs w));
    _ ← (match vk with Some k => put_hooks (<[k := rm]> (dw_hooks w)) | None => mret tt end);
    mret (inr v).
Definition rm_dev_destroy (v : Z) : M dworld () :=
  w ← getS;
  match dw_devs w !! v with
  | None => mret tt
  | Some d =>
      _ ← (match dv_vk d with Some k => put_hooks (delete k (dw_hooks w)) | None => mret tt end);
      _ ← nv_rm_close (dv_rm d);
      _ ← close (dv_fd d);
      _ ← put_devs (delete v (dw_devs w));
      dfree
  end.

End Devices.

(** ** What is open

    [dinv hf hr hb]: the descriptors [hf], resource-manager devices [hr] and
    [hb] blocks are in the hands of a running call; all others belong to the
    live devices, one each. *)
Definition pdev_fds (m : gmap Z pdev) : list Z := pd_fd <$> (map_to_list m).*2.
Definition dev_fds (m : gmap Z dev) : list Z := dv_fd <$> (map_to_list m).*2.
Definition dev_rms (m : gmap Z dev) : list Z := dv_rm <$> (map_to_list m).*2.
Definition hooked (m : gmap Z dev) (k rm : Z) : Prop := exists v d, m !! v = Some d /\ dv_vk d = Some k /\ dv_rm d = rm.
Record dinv (hf hr : list Z) (hb : Z) (w : dworld) : Prop := {
  di_fds : elements (dw_fds w) ≡ₚ hf ++ pdev_fds (dw_pdevs w) ++ dev_fds (dw_devs w);
  di_rms : elements (dw_rms w) ≡ₚ hr ++ dev_rms (dw_devs w);
  di_versions : dw_versions w = 0;
  di_blocks : dw_blocks w = hb + Z.of_nat (size (dw_pdevs w)) + Z.of_nat (size (dw_devs w));
  di_next : 0 < dw_next w;
  di_below : (forall x, x ∈ dw_fds w -> x < dw_next w) /\ (forall x, x ∈ dw_rms w -> x < dw_next w) /\
             map_Forall (fun k _ => k < dw_next w) (dw_pdevs w) /\ map_Forall (fun k _ => k < dw_next w) (dw_devs w);
  di_hooks : (forall k rm, dw_hooks w !! k = Some rm <-> hooked (dw_devs w) k rm) /\
             (forall v v' d d' k, dw_devs w !! v = Some d -> dw_devs w !! v' = Some d' -> dv_vk d = Some k -> dv_vk d' = Some k -> v = v');
}.
(** A call leaves the tables alone. *)
Definition dsame (w w' : dworld) : Prop := dw_pdevs w' = dw_pdevs w /\ dw_devs w' = dw_devs w /\ dw_hooks w' = dw_hooks w /\ dw_next w <= dw_next w'.
#[export] Instance dsame_po : PreOrder dsame.
Proof. split; [done|]. intros w1 w2 w3 (? & ? & ? & ?) (? & ? & ? & ?). repeat split; try congruence. lia. Qed.

Lemma elements_add (x : Z) (X : gset Z) : x ∉ X -> elements ({[x]} ∪ X) ≡ₚ x :: elements X.
Proof. apply elements_union_singleton. Qed.
Lemma elements_drop (x : Z) (X : gset Z) l : elements X ≡ₚ x :: l -> elements (X ∖ {[x]}) ≡ₚ l.
Proof.
  intros H. assert (Hx : x ∈ X) by (apply elem_of_elements; rewrite H; set_solver).
  apply (Permutation_cons_inv (a := x)). rewrite <- H, <- elements_add by set_solver. by rewrite <- union_difference_singleton_L.
Qed.

Section Proofs.
Context (S : system).

Lemma wp_tick hf hr hb w (Q : nat -> dworld -> Prop) :
  dinv hf hr hb w -> (forall t w', dinv hf hr hb w' -> dsame w w' -> Q t w') -> wp tick Q w.
Proof. intros [] HQ. apply HQ; [by split|done]. Qed.
Lemma wp_open hf hr hb path w (Q : Z -> dworld -> Prop) :
  dinv hf hr hb w -> (forall w', dinv hf hr hb w' -> dsame w w' -> Q (-1) w') ->
  (forall fd w', 0 < fd -> dinv (fd :: hf) hr hb w' -> dsame w w' -> Q fd w') -> wp (open S path) Q w.
Proof.
  intros H H1 H2. unfold open. apply wp_bind, (wp_tick hf hr hb); [done|]. intros t w1 Hi S1. unfold wp. mrun.
  destruct (sy_open S t path); mrun; [|by apply H1]. destruct Hi as [D1 D2 D3 D4 D5 (D6 & D7 & D8 & D9) D10].
  assert (Hf : dw_next w1 ∉ dw_fds w1) by (intros Hin; specialize (D6 _ Hin); lia).
  apply H2; [done| |].
  - split; try done; cbn; [by rewrite elements_add, D1|lia|]. split; [|split; [|split]].
    + intros x [->%elem_of_singleton|Hx]%elem_of_union; [lia|]. specialize (D6 x Hx). lia.
    + intros x Hx. specialize (D7 x Hx). lia.
    + eapply map_Forall_impl; [exact D8|]. cbn. lia.
    + eapply map_Forall_impl; [exact D9|]. cbn. lia.
  - etrans; [exact S1|]. split; [done|]. split; [done|]. split; [done|cbn; lia].
Qed.
Lemma close_ok fd hf hr hb w : dinv (fd :: hf) hr hb w -> dinv hf hr hb (close fd w).2 /\ dsame w (close fd w).2.
Proof.
  intros [D1 D2 D3 D4 D5 (D6 & D7 & D8 & D9) D10]. split; [|done]. unfold close. mrun. split; try done; cbn; [by apply elements_drop|].
  split; [|done]. intros x [Hx _]%elem_of_difference. by apply D6.
Qed.
Lemma wp_nv_rm_open hf hr hb loc w (Q : Z * Z * nv_info -> dworld -> Prop) :
  dinv hf hr hb w -> (forall st info w', st <> VK_SUCCESS -> dinv hf hr hb w' -> dsame w w' -> Q (st, 0, info) w') ->
  (forall st rm info w', 0 < rm -> dinv hf (rm :: hr) hb w' -> dsame w w' -> Q (st, rm, info) w') -> wp (nv_rm_open S loc) Q w.
Proof.
  intros H H1 H2. unfold nv_rm_open. apply wp_bind, (wp_tick hf hr hb); [done|]. intros t w1 Hi S1. unfold wp. mrun.
  destruct (sy_rm_open S t loc) as [[st behind] info]. destruct (behind || (st =? VK_SUCCESS)) eqn:E; mrun.
  2:{ apply H1; [|done|done]. bool_props. done. }
  destruct Hi as [D1 D2 D3 D4 D5 (D6 & D7 & D8 & D9) D10].
  assert (Hf : dw_next w1 ∉ dw_rms w1) by (intros Hin; specialize (D7 _ Hin); lia).
  apply H2; [done| |].
  - split; try done; cbn; [by rewrite elements_add, D2|lia|]. split; [|split; [|split]].
    + intros x Hx. specialize (D6 x Hx). lia.
    + intros x [->%elem_of_singleton|Hx]%elem_of_union; [lia|]. specialize (D7 x Hx). lia.
    + eapply map_Forall_impl; [exact D8|]. cbn. lia.
    + eapply map_Forall_impl; [exact D9|]. cbn. lia.
  - etrans; [exact S1|]. split; [done|]. split; [done|]. split; [done|cbn; lia].
Qed.
Lemma nv_rm_close_ok rm hf hr hb w : dinv hf (rm :: hr) hb w -> dinv hf hr hb (nv_rm_close rm w).2 /\ dsame w (nv_rm_close rm w).2.
Proof.
  intros [D1 D2 D3 D4 D5 (D6 & D7 & D8 & D9) D10]. split; [|done]. unfold nv_rm_close. mrun. split; try done; cbn; [by apply elements_drop|].
  split; [done|]. split; [|done]. intros x [Hx _]%elem_of_difference. by apply D7.
Qed.
Lemma wp_dcalloc hf hr hb w (Q : Z -> dworld -> Prop) :
  dinv hf hr hb w -> (forall w', dinv hf hr hb w' -> dsame w w' -> Q 0 w') ->
  (forall p w', 0 < p -> dw_next w <= p < dw_next w' -> dinv hf hr (hb + 1) w' -> dsame w w' -> Q p w') -> wp (dcalloc S) Q w.
Proof.
  intros H H1 H2. unfold dcalloc. apply wp_bind, (wp_tick hf hr hb); [done|]. intros t w1 Hi S1. unfold wp. mrun.
  destruct (sy_calloc S t); mrun; [|by apply H1]. destruct Hi as [D1 D2 D3 D4 D5 (D6 & D7 & D8 & D9) D10].
  apply H2; [done|destruct S1 as (_ & _ & _ & S1); cbn; lia| |].
  - split; try done; cbn; [lia|lia|]. split; [|split; [|split]].
    + intros x Hx. specialize (D6 x Hx). lia.
    + intros x Hx. specialize (D7 x Hx). lia.
    + eapply map_Forall_impl; [exact D8|]. cbn. lia.
    + eapply map_Forall_impl; [exact D9|]. cbn. lia.
  - etrans; [exact S1|]. split; [done|]. split; [done|]. split; [done|cbn; lia].
Qed.
Lemma dfree_ok hf hr hb w : dinv hf hr (hb + 1) w -> dinv hf hr hb (dfree w).2 /\ dsame w (dfree w).2.
Proof. intros []. split; [|done]. unfold dfree. mrun. split; try done. cbn. lia. Qed.
Lemma inv_new_pdev p d hf hr hb w :
  dinv (pd_fd d :: hf) hr (hb + 1) w -> dw_pdevs w !! p = None -> p < dw_next w -> dinv hf hr hb (put_pdevs (<[p := d]> (dw_pdevs w)) w).2.
Proof.
  intros [D1 D2 D3 D4 D5 (D6 & D7 & D8 & D9) D10] Hp Hn. split; try done; cbn.
  - unfold pdev_fds in *. rewrite D1, map_to_list_insert by done. cbn. apply Permutation_middle.
  - rewrite map_size_insert_None by done. lia.
  - do 2 (split; [done|]). split; [|done]. by apply map_Forall_insert_2.
Qed.
Lemma inv_drop_pdev p d hf hr hb w :
  dinv hf hr hb w -> dw_pdevs w !! p = Some d -> dinv (pd_fd d :: hf) hr (hb + 1) (put_pdevs (delete p (dw_pdevs w)) w).2.
Proof.
  intros [D1 D2 D3 D4 D5 (D6 & D7 & D8 & D9) D10] Hp. split; try done; cbn.
  - rewrite D1. unfold pdev_fds. rewrite <- (insert_delete_id _ _ _ Hp) at 1. rewrite map_to_list_insert by apply lookup_delete_eq. cbn.
    symmetry. apply Permutation_middle.
  - rewrite map_size_delete_Some by done. assert (size (dw_pdevs w) <> 0%nat) by (intros E; apply map_size_empty_inv in E; by rewrite E in Hp). lia.
  - do 2 (split; [done|]). split; [|done]. by apply map_Forall_delete.
Qed.
Lemma nvkmd_rm_try_create_pdev_ok d w :
  dinv [] [] 0 w ->
  wp (nvkmd_rm_try_create_pdev S d) (fun r w' => dinv [] [] 0 w' /\ dw_devs w' = dw_devs w /\ dw_hooks w' = dw_hooks w /\
    match r with
    | inl e => e <> VK_SUCCESS /\ dw_pdevs w' = dw_pdevs w
    | inr p => exists info fd rdev, device_wanted d = true /\ dw_pdevs w !! p = None /\
        dw_pdevs w' = <[p := make_pdev info fd (dd_render d) rdev]> (dw_pdevs w)
    end) w.
Proof.
  intros H. unfold nvkmd_rm_try_create_pdev. destruct (device_wanted d) eqn:Ed; cbn [negb]; [|by apply wp_ret].
  apply wp_bind, (wp_open [] [] 0); [done| |].
  { intros w1 H1 (? & ? & ? & ?). by apply wp_ret. }
  intros fd w1 Hfd H1 S1. destruct (Z.ltb_spec fd 0); [lia|].
  assert (Hfail : forall e w2, e <> VK_SUCCESS -> dinv [fd] [] 0 w2 -> dsame w w2 ->
    dinv [] [] 0 (close fd w2).2 /\ dw_devs (close fd w2).2 = dw_devs w /\ dw_hooks (close fd w2).2 = dw_hooks w /\ e <> VK_SUCCESS /\ dw_pdevs (close fd w2).2 = dw_pdevs w).
  { intros e w2 He H2 (?E1 & ?E2 & ?E3 & ?E4). destruct (close_ok fd [] [] 0 w2 H2) as [K3 (? & ? & ? & ?)]. split; [done|]. repeat split; congruence. }
  apply wp_bind. unfold drmGetVersion. apply wp_bind, (wp_tick [fd] [] 0); [done|]. intros t w2 H2 S2.
  assert (Hv : wp (match sy_version S t fd with None => mret None | Some name => _ ← add_versions 1; mret (Some name) end)
      (fun (v : option (option string)) w' => wp (match v with Some _ => drmFreeVersion | None => mret tt end) (fun _ w' => dinv [fd] [] 0 w' /\ dsame w w') w') w2).
  { destruct (sy_version S t fd) as [name|].
    - unfold wp, drmFreeVersion. mrun. cbn. split; [|etrans; [exact S1|done]]. destruct H2 as [D1 D2 D3 D4 D5 D6 D7]. split; try done. cbn. lia.
    - apply wp_ret, wp_ret. split; [done|]. by etrans. }
  eapply wp_mono; [exact Hv|]. clear Hv. intros v w3 Hw. apply wp_bind. eapply wp_mono; [exact Hw|]. intros _ w4 [H4 S4].
  destruct (is_native v); cbn [negb].
  2:{ unfold wp. mrun. by apply (Hfail VK_ERROR_INCOMPATIBLE_DRIVER). }
  apply wp_bind, (wp_dcalloc [fd] [] 0); [done| |].
  { intros w5 H5 S5. cbn [Z.eqb]. unfold wp. mrun. apply (Hfail VK_ERROR_OUT_OF_HOST_MEMORY); [done|done|by etrans]. }
  intros p w5 Hp Hn H5 S5. destruct (Z.eqb_spec p 0); [lia|]. assert (S05 : dsame w w5) by (by etrans).
  assert (Hfail2 : forall e w2, e <> VK_SUCCESS -> dinv [fd] [] (0 + 1) w2 -> dsame w w2 -> let w3 := (dfree (close fd w2).2).2 in
    dinv [] [] 0 w3 /\ dw_devs w3 = dw_devs w /\ dw_hooks w3 = dw_hooks w /\ e <> VK_SUCCESS /\ dw_pdevs w3 = dw_pdevs w).
  { intros e w6 He H6 (? & ? & ? & ?). destruct (close_ok fd [] [] (0 + 1) w6 H6) as [K7 (? & ? & ? & ?)].
    destruct (dfree_ok [] [] 0 _ K7) as [K8 (? & ? & ? & ?)]. split; [done|]. repeat split; congruence. }
  apply wp_bind, (wp_tick [fd] [] (0 + 1)); [done|]. intros t' w6 H6 S6. assert (S06 : dsame w w6) by (by etrans).
  destruct (sy_fstat S t' fd) as [rdev|].
  2:{ unfold wp. mrun. by apply (Hfail2 VK_ERROR_INITIALIZATION_FAILED). }
  apply wp_bind, (wp_nv_rm_open [fd] [] (0 + 1)); [done| |].
  - intros st info w7 Hst H7 S7. rewrite (proj2 (Z.eqb_neq _ _) Hst). cbn [negb Z.eqb]. unfold wp. mrun. apply (Hfail2 st); [done|done|by etrans].
  - intros st rm info w7 Hrm H7 S7. destruct (nv_rm_close_ok rm [fd] [] (0 + 1) w7 H7) as [H8 S8]. set (w8 := (nv_rm_close rm w7).2) in *.
    assert (S08 : dsame w w8) by (etrans; [exact S06|by etrans]).
    destruct (Z.eqb_spec st VK_SUCCESS) as [->|Hst]; cbn [negb].
    + unfold wp. mrun. fold w8. destruct S08 as (E1 & E2 & E3 & _).
      assert (Hfresh : dw_pdevs w !! p = None).
      { destruct (dw_pdevs w !! p) as [q|] eqn:Eq; [|done]. destruct S4 as (E4 & _ & _ & ?). rewrite <- E4 in Eq.
        destruct H4 as [_ _ _ _ _ (_ & _ & D8 & _) _]. apply D8 in Eq. cbn in Eq. lia. }
      assert (Hlt : p < dw_next w8) by (destruct S6 as (_ & _ & _ & ?), S7 as (_ & _ & _ & ?), S8 as (_ & _ & _ & ?); lia).
      split; [apply (inv_new_pdev p (make_pdev info fd (dd_render d) rdev)); [exact H8|by rewrite E1|done]|].
      split; [exact E2|]. split; [exact E3|]. exists info, fd, rdev. do 2 (split; [done|]). cbn. by rewrite E1.
    + destruct (Z.eqb_spec rm 0); [lia|]. cbn [negb]. unfold wp. mrun. fold w8. by apply (Hfail2 st).
Qed.
Lemma rm_pdev_destroy_ok p w :
  dinv [] [] 0 w -> wp (rm_pdev_destroy p) (fun _ w' => dinv [] [] 0 w' /\ dw_pdevs w' = delete p (dw_pdevs w) /\ dw_devs w' = dw_devs w) w.
Proof.
  intros H. unfold wp, rm_pdev_destroy. mrun. destruct (dw_pdevs w !! p) as [d|] eqn:E; mrun.
  2:{ split; [done|]. split; [|done]. by rewrite delete_id. }
  pose proof (inv_drop_pdev p d [] [] 0 w H E) as H1. destruct (close_ok _ _ _ _ _ H1) as [H2 _]. destruct (dfree_ok _ _ _ _ H2) as [H3 _].
  split; [exact H3|done].
Qed.
Definition hook (d : dev) (m : gmap Z Z) : gmap Z Z := match dv_vk d with Some k => <[k := dv_rm d]> m | None => m end.
Definition unhook (d : dev) (m : gmap Z Z) : gmap Z Z := match dv_vk d with Some k => delete k m | None => m end.
Lemma inv_new_dev v d hf hr hb w :
  dinv (dv_fd d :: hf) (dv_rm d :: hr) (hb + 1) w -> dw_devs w !! v = None -> v < dw_next w ->
  (forall k, dv_vk d = Some k -> dw_hooks w !! k = None) ->
  dinv hf hr hb (put_hooks (hook d (dw_hooks w)) (put_devs (<[v := d]> (dw_devs w)) w).2).2.
Proof.
  intros [D1 D2 D3 D4 D5 (D6 & D7 & D8 & D9) [D10 D11]] Hv Hn Hk. split; try done; cbn.
  - unfold dev_fds in *. rewrite D1, map_to_list_insert by done. cbn. by rewrite !app_assoc, <- Permutation_middle.
  - unfold dev_rms in *. rewrite D2, map_to_list_insert by done. cbn. apply Permutation_middle.
  - rewrite map_size_insert_None by done. lia.
  - do 3 (split; [done|]). by apply map_Forall_insert_2.
  - assert (Hold : forall k, dv_vk d = Some k -> forall u e, dw_devs w !! u = Some e -> dv_vk e <> Some k).
    { intros k E u e Hu Ee. assert (X : dw_hooks w !! k = Some (dv_rm e)) by (apply D10; by exists u, e). rewrite (Hk k E) in X. done. }
    split.
    + intros k rm. assert (X : dw_hooks w !! k = Some rm <-> exists u e, u <> v /\ dw_devs w !! u = Some e /\ dv_vk e = Some k /\ dv_rm e = rm).
      { rewrite D10. split; intros (u & e & H); exists u, e; [|tauto]. split; [|done]. intros ->. destruct H as [H _]. congruence. }
      assert (Y : hooked (<[v:=d]> (dw_devs w)) k rm <-> (dv_vk d = Some k /\ dv_rm d = rm) \/ exists u e, u <> v /\ dw_devs w !! u = Some e /\ dv_vk e = Some k /\ dv_rm e = rm).
      { split.
        - intros (u & e & [(-> & ->)|(Hne & Hu)]%lookup_insert_Some & H); [by left|]. right. exists u, e. by split.
        - intros [H|(u & e & Hne & Hu & H)]; [exists v, d; by rewrite lookup_insert_eq|]. exists u, e. by rewrite lookup_insert_ne. }
      rewrite Y, <- X. unfold hook. destruct (dv_vk d) as [k0|] eqn:E; [|split; [by right|by intros [[? _]|?]]].
      rewrite lookup_insert_Some. split.
      * intros [(-> & ->)|(_ & H)]; [by left|by right].
      * intros [([= ->] & ->)|H]; [by left|]. right. split; [|done]. intros ->. rewrite (Hk k eq_refl) in H. done.
    + intros u u' e e' k [(<- & <-)|(? & Hu)]%lookup_insert_Some [(<- & <-)|(? & Hu')]%lookup_insert_Some E E'; try done.
      * exfalso. by apply (Hold k E u' e').
      * exfalso. by apply (Hold k E' u e).
      * by apply (D11 u u' e e' k).
Qed.
Lemma inv_drop_dev v d hf hr hb w :
  dinv hf hr hb w -> dw_devs w !! v = Some d ->
  dinv (dv_fd d :: hf) (dv_rm d :: hr) (hb + 1) (put_devs (delete v (dw_devs w)) (put_hooks (unhook d (dw_hooks w)) w).2).2.
Proof.
  intros [D1 D2 D3 D4 D5 (D6 & D7 & D8 & D9) [D10 D11]] Hv. split; try done; cbn.
  - rewrite D1. unfold dev_fds. rewrite <- (insert_delete_id _ _ _ Hv) at 1. rewrite map_to_list_insert by apply lookup_delete_eq. cbn.
    by rewrite !app_assoc, <- Permutation_middle.
  - rewrite D2. unfold dev_rms. rewrite <- (insert_delete_id _ _ _ Hv) at 1. rewrite map_to_list_insert by apply lookup_delete_eq. cbn.
    symmetry. apply Permutation_middle.
  - rewrite map_size_delete_Some by done. assert (size (dw_devs w) <> 0%nat) by (intros E; apply map_size_empty_inv in E; by rewrite E in Hv). lia.
  - do 3 (split; [done|]). by apply map_Forall_delete.
  - split.
    + intros k rm. assert (Y : hooked (delete v (dw_devs w)) k rm <-> hooked (dw_devs w) k rm /\ dv_vk d <> Some k).
      { split.
        - intros (u & e & [Hne Hu]%lookup_delete_Some & E & ?). split; [by exists u, e|]. intros Ed. apply Hne. by apply (D11 v u d e k).
        - intros [(u & e & Hu & E & ?) Hd]. exists u, e. rewrite lookup_delete_ne; [done|]. intros ->. congruence. }
      rewrite Y, <- D10. unfold unhook. destruct (dv_vk d) as [k0|]; [|split; [by intros ?|tauto]].
      rewrite lookup_delete_Some. split; intros [H1 H2]; (split; congruence).
    + intros u u' e e' k [_ Hu]%lookup_delete_Some [_ Hu']%lookup_delete_Some. by apply (D11 u u' e e' k).
Qed.

Lemma wp_get {A} (f : dworld -> M dworld A) (Q : A -> dworld -> Prop) w : wp (f w) Q w -> wp (w ← getS; f w) Q w.
Proof. done. Qed.
Lemma rm_dev_create_ok p location vk w :
  dinv [] [] 0 w -> (forall k, vk = Some k -> dw_hooks w !! k = None) ->
  wp (rm_dev_create S p location vk) (fun r w' => dinv [] [] 0 w' /\ dw_pdevs w' = dw_pdevs w /\
    match r with
    | inl e => e <> VK_SUCCESS /\ dw_devs w' = dw_devs w /\ dw_hooks w' = dw_hooks w
    | inr v => exists fd rm, dw_devs w !! v = None /\ dw_devs w' = <[v := mk_dev fd rm vk NV_RM_VA_START NV_RM_VA_END]> (dw_devs w)
    end) w.
Proof.
  intros H Hk. unfold rm_dev_create. apply wp_get. set (path := match _ with Some d => pd_path d | None => "" end).
  apply wp_bind, (wp_dcalloc [] [] 0); [done| |].
  { intros w1 H1 (? & ? & ? & ?). by apply wp_ret. }
  intros v w1 Hv Hn H1 S1. destruct (Z.eqb_spec v 0); [lia|].
  apply wp_bind, (wp_open [] [] (0 + 1)); [done| |].
  { intros w2 H2 S2. cbn [Z.ltb Z.compare]. unfold wp. mrun. destruct (dfree_ok [] [] 0 w2 H2) as [H3 S3].
    assert (S03 : dsame w (dfree w2).2) by (etrans; [exact S1|by etrans]). destruct S03 as (? & ? & ? & ?). done. }
  intros fd w2 Hfd H2 S2. destruct (Z.ltb_spec fd 0); [lia|].
  assert (Hfail : forall e w6, e <> VK_SUCCESS -> dinv [fd] [] (0 + 1) w6 -> dsame w w6 -> let w3 := (dfree (close fd w6).2).2 in
    dinv [] [] 0 w3 /\ dw_pdevs w3 = dw_pdevs w /\ e <> VK_SUCCESS /\ dw_devs w3 = dw_devs w /\ dw_hooks w3 = dw_hooks w).
  { intros e w6 He H6 (? & ? & ? & ?). destruct (close_ok fd [] [] (0 + 1) w6 H6) as [K7 (? & ? & ? & ?)].
    destruct (dfree_ok [] [] 0 _ K7) as [K8 (? & ? & ? & ?)]. split; [done|]. repeat split; congruence. }
  assert (S02 : dsame w w2) by (by etrans).
  apply wp_bind, (wp_nv_rm_open [fd] [] (0 + 1)); [done| |].
  - intros st info w7 Hst H7 S7. rewrite (proj2 (Z.eqb_neq _ _) Hst). cbn [negb Z.eqb]. unfold wp. mrun. apply (Hfail st); [done|done|by etrans].
  - intros st rm info w7 Hrm H7 S7. assert (S07 : dsame w w7) by (by etrans).
    destruct (Z.eqb_spec st VK_SUCCESS) as [->|Hst]; cbn [negb].
    + destruct S07 as (E1 & E2 & E3 & _). set (d := mk_dev fd rm vk NV_RM_VA_START NV_RM_VA_END).
      assert (Hfresh : dw_devs w !! v = None).
      { destruct (dw_devs w !! v) as [q|] eqn:Eq; [|done]. destruct H as [_ _ _ _ _ (_ & _ & _ & D9) _]. apply D9 in Eq. cbn in Eq. lia. }
      assert (Hlt : v < dw_next w7) by (destruct S2 as (_ & _ & _ & ?), S7 as (_ & _ & _ & ?); lia).
      pose proof (inv_new_dev v d [] [] 0 w7 H7 ltac:(by rewrite E2) Hlt ltac:(by rewrite E3)) as Hi.
      apply wp_get. unfold wp. mrun. unfold hook in Hi. cbn [d dv_vk] in Hi.
      assert (Hend : forall w9, dinv [] [] 0 w9 -> dw_pdevs w9 = dw_pdevs w7 -> dw_devs w9 = <[v := d]> (dw_devs w7) ->
        dinv [] [] 0 w9 /\ dw_pdevs w9 = dw_pdevs w /\ exists fd rm, dw_devs w !! v = None /\ dw_devs w9 = <[v := mk_dev fd rm vk NV_RM_VA_START NV_RM_VA_END]> (dw_devs w)).
      { intros w9 ? ? E9. split; [done|]. split; [congruence|]. exists fd, rm. split; [done|]. by rewrite E9, E2. }
      destruct vk as [k|]; mrun; by apply Hend.
    + destruct (Z.eqb_spec rm 0); [lia|]. cbn [negb]. destruct (nv_rm_close_ok rm [fd] [] (0 + 1) w7 H7) as [H8 S8].
      unfold wp. mrun. apply (Hfail st); [done|done|by etrans].
Qed.
Lemma rm_dev_destroy_ok v w :
  dinv [] [] 0 w -> wp (rm_dev_destroy v) (fun _ w' => dinv [] [] 0 w' /\ dw_pdevs w' = dw_pdevs w /\ dw_devs w' = delete v (dw_devs w)) w.
Proof.
  intros H. unfold rm_dev_destroy. apply wp_get. destruct (dw_devs w !! v) as [d|] eqn:E.
  2:{ apply wp_ret. split; [done|]. split; [done|]. by rewrite delete_id. }
  pose proof (inv_drop_dev v d [] [] 0 w H E) as H1. unfold unhook in H1.
  assert (Hc : forall w1, dinv [dv_fd d] [dv_rm d] (0 + 1) (put_devs (delete v (dw_devs w)) w1).2 ->
    dinv [] [] 0 (dfree (put_devs (delete v (dw_devs w)) (close (dv_fd d) (nv_rm_close (dv_rm d) w1).2).2).2).2).
  { intros w1 K1. destruct (nv_rm_close_ok _ _ _ _ _ K1) as [K2 _]. destruct (close_ok _ _ _ _ _ K2) as [K3 _]. by destruct (dfree_ok _ _ _ _ K3). }
  unfold wp. destruct (dv_vk d) as [k|]; mrun; (split; [by apply Hc|done]).
Qed.
End Proofs.

(** ** Sessions *)

Inductive dev_op :=
  | DPdevCreate (d : drm_device)
  | DPdevDestroy (p : Z)
  | DDevCreate (p location : Z) (vk : option Z)
  | DDevDestroy (v : Z).
(** A Vulkan device creates one device of the backend. *)
Definition dev_allowed (o : dev_op) (w : dworld) : bool :=
  match o with DDevCreate _ _ (Some k) => bool_decide (dw_hooks w !! k = None) | _ => true end.
Definition dev_run (S : system) (o : dev_op) : M dworld () :=
  match o with
  | DPdevCreate d => _ ← nvkmd_rm_try_create_pdev S d; mret tt
  | DPdevDestroy p => rm_pdev_destroy p
  | DDevCreate p location vk => _ ← rm_dev_create S p location vk; mret tt
  | DDevDestroy v => rm_dev_destroy v
  end.
Fixpoint dev_session (S : system) (ops : list dev_op) : M dworld () :=
  match ops with
  | [] => mret tt
  | o :: ops => w ← getS; _ ← (if dev_allowed o w then dev_run S o else mret tt); dev_session S ops
  end.
Definition dw_start : dworld := mk_dw 0 1 ∅ ∅ 0 ∅ ∅ 0 ∅.
Lemma dinv_start : dinv [] [] 0 dw_start.
Proof. split; try done; cbn. split; [|done]. intros k rm. split; [done|]. by intros (v & d & ? & _). Qed.
Lemma dev_session_ok S ops w : dinv [] [] 0 w -> dinv [] [] 0 (dev_session S ops w).2.
Proof.
  revert w. induction ops as [|o ops IH]; intros w H; [done|]. cbn [dev_session]. mrun. apply IH. clear IH.
  destruct (dev_allowed o w) eqn:Ea; [|done]. destruct o as [d|p|p l vk|v]; cbn [dev_run]; mrun.
  - apply (nvkmd_rm_try_create_pdev_ok S d w H).
  - apply (rm_pdev_destroy_ok p w H).
  - apply (rm_dev_create_ok S p l vk w H). intros k ->. by apply bool_decide_eq_true_1 in Ea.
  - apply (rm_dev_destroy_ok v w H).
Qed.

(** ** Waiting, and closing *)

Lemma reclaim_all_hist l w : b_hist (nw_rm (reclaim_all l w).2) = b_hist (nw_rm w).
Proof. revert w. induction l as [|x l IH]; intros w; [done|]. cbn [reclaim_all]. rewrite bind_run, IH. apply reclaim_hist. Qed.
Lemma nv_rm_hist B c w : b_hist (nw_rm (nv_rm B c w).2) = b_hist (nw_rm w) ++ [(c, bk_answer B (nw_rm w) c)].
Proof.
  unfold nv_rm, pump. mrun. rewrite reclaim_all_hist. cbn. unfold effect. destruct (negb _); [done|]. by destruct c.
Qed.
Lemma nv_rm_vk B c w : nw_vk (nv_rm B c w).2 = nw_vk w /\ nw_blocks (nv_rm B c w).2 = nw_blocks w.
Proof. unfold nv_rm. mrun. destruct (pump_quiet B (called B w c)) as [_ _ _ _ E1 _ E2 _ _ _ _ _]. split; [exact E2|exact E1]. Qed.
Lemma rm_wait_status_run w b :
  nw_vk w = Some b ->
  exists w', rm_wait_status w = (if b || b_lost (nw_rm w) then VK_ERROR_DEVICE_LOST else VK_SUCCESS, w') /\
    nw_vk w' = Some (b || b_lost (nw_rm w)) /\ b_lost (nw_rm w') = b_lost (nw_rm w) /\ b_hist (nw_rm w') = b_hist (nw_rm w) /\ nw_blocks w' = nw_blocks w /\
    (b || b_lost (nw_rm w) = false -> w' = w).
Proof.
  intros Hb. unfold rm_wait_status. mrun. rewrite Hb. destruct b; [rewrite decide_True by done; mrun; exists w; by rewrite Hb|].
  rewrite decide_False by done. unfold nv_rm_is_lost. mrun. destruct (b_lost (nw_rm w)) eqn:El; mrun.
  - unfold vk_device_set_lost. mrun. rewrite Hb, decide_False by done. mrun. eexists. split; [reflexivity|]. by repeat split.
  - exists w. by rewrite Hb.
Qed.

Lemma timeout_u64 deadline now : is_u64 deadline -> is_u64 now -> is_u64 (timeout_of deadline now).
Proof. unfold timeout_of, UINT64_MAX, is_u64. intros. repeat case_match; lia. Qed.

(** Waiting on a device that is lost reports it and calls nobody; otherwise
    the other side is asked once, for all points, to wait no longer than the
    deadline, and a loss that was published in the meantime takes precedence
    over the outcome.  Mesa knows of the loss whenever it is returned, the
    scratch memory is given back, and without memory for it nothing is asked. *)
Theorem rm_sync_wait_exact B waits flags deadline now w lost :
  nw_vk w = Some lost -> 0 < nw_next w ->
  let '(r, w') := rm_sync_wait_many B waits flags deadline now w in
  nw_blocks w' = nw_blocks w /\
  if lost || b_lost (nw_rm w) then r = VK_ERROR_DEVICE_LOST /\ nw_vk w' = Some true /\ b_hist (nw_rm w') = b_hist (nw_rm w)
  else if is_nil waits then r = VK_SUCCESS /\ w' = w
  else
    (r = VK_ERROR_OUT_OF_HOST_MEMORY /\ (16 < length waits)%nat /\ w' = w) \/
    exists a, b_hist (nw_rm w') = b_hist (nw_rm w) ++ [(CSyncWait waits flags (timeout_of deadline now), a)] /\
      nw_vk w' = Some (b_lost (nw_rm w')) /\
      r = (if b_lost (nw_rm w') then VK_ERROR_DEVICE_LOST else if an_status a =? 2 then VK_TIMEOUT else an_status a).
Proof.
  intros Hb Hnext. unfold rm_sync_wait_many. destruct (rm_wait_status_run w lost Hb) as (w1 & E1 & V1 & L1 & H1 & N1 & W1).
  rewrite bind_run, E1. cbn [fst snd]. destruct (lost || b_lost (nw_rm w)) eqn:El; cbn [negb].
  { cbn. do 2 (split; [done|]). done. }
  rewrite (W1 eq_refl). change (VK_SUCCESS =? VK_SUCCESS) with true. cbn [negb]. destruct (is_nil waits); [by repeat split|]. rewrite orb_false_iff in El. destruct El as [-> El].
  assert (Hcall : forall w2, nw_vk w2 = Some false -> b_hist (nw_rm w2) = b_hist (nw_rm w) ->
    let w3 := (nv_rm B (CSyncWait waits flags (timeout_of deadline now)) w2).2 in
    nw_vk w3 = Some false /\ nw_blocks w3 = nw_blocks w2 /\
    b_hist (nw_rm w3) = b_hist (nw_rm w) ++ [(CSyncWait waits flags (timeout_of deadline now), bk_answer B (nw_rm w2) (CSyncWait waits flags (timeout_of deadline now)))]).
  { intros w2 V2 H2. cbn zeta. destruct (nv_rm_vk B (CSyncWait waits flags (timeout_of deadline now)) w2) as [-> ->]. rewrite nv_rm_hist, H2. done. }
  assert (Hend : forall a w3, nw_vk w3 = Some false -> b_hist (nw_rm w3) = b_hist (nw_rm w) ++ [(CSyncWait waits flags (timeout_of deadline now), a)] -> nw_blocks w3 = nw_blocks w ->
    let '(r, w') := (s ← rm_wait_status; if negb (s =? VK_SUCCESS) then mret VK_ERROR_DEVICE_LOST else mret (if an_status a =? 2 then VK_TIMEOUT else rm_result (an_status a))) w3 in
    nw_blocks w' = nw_blocks w /\ ((r = VK_ERROR_OUT_OF_HOST_MEMORY /\ (16 < length waits)%nat /\ w' = w) \/
    exists a, b_hist (nw_rm w') = b_hist (nw_rm w) ++ [(CSyncWait waits flags (timeout_of deadline now), a)] /\ nw_vk w' = Some (b_lost (nw_rm w')) /\
      r = (if b_lost (nw_rm w') then VK_ERROR_DEVICE_LOST else if an_status a =? 2 then VK_TIMEOUT else an_status a))).
  { intros a w3 V3 H3 N3. destruct (rm_wait_status_run w3 false V3) as (w4 & E4 & V4 & L4 & H4 & N4 & _). rewrite bind_run, E4. cbn [fst snd orb] in *.
    destruct (b_lost (nw_rm w3)) eqn:E3; cbn; (split; [congruence|]); right; exists a; rewrite H4, V4, L4; by repeat split. }
  destruct (16 <? length waits)%nat eqn:En.
  - apply Nat.ltb_lt in En. rewrite bind_run. unfold calloc. mrun. destruct (bk_calloc B (nw_rm w) "points"); mrun.
    2:{ split; [done|]. by left. }
    change ((new_address (add_blocks 1 w).2).1) with (nw_next w). change ((new_address (add_blocks 1 w).2).2) with (alloced w).
    rewrite (proj2 (Z.eqb_neq (nw_next w) 0)) by lia. mrun. destruct (Hcall (alloced w) Hb eq_refl) as (V3 & N3 & H3).
    refine (Hend _ (free_block (nv_rm B (CSyncWait waits flags (timeout_of deadline now)) (alloced w)).2).2 V3 H3 _).
    etrans; [apply (f_equal (fun n => n + -1)), N3|]. cbn. lia.
  - mrun. destruct (Hcall w Hb eq_refl) as (V3 & N3 & H3).
    apply (Hend (bk_answer B (nw_rm w) (CSyncWait waits flags (timeout_of deadline now)))
      (nv_rm B (CSyncWait waits flags (timeout_of deadline now)) w).2 V3 H3 N3).
Qed.

Lemma rm_sync_wait_exact_witness :
  let w := reached (demo no_fail) 2 true [] in
  (rm_sync_wait_many (demo no_fail) [mk_point 1 1] 0 500 200 w).1 = VK_SUCCESS /\
  exists a, b_hist (nw_rm (rm_sync_wait_many (demo no_fail) [mk_point 1 1] 0 500 200 w).2) = [(CSyncWait [mk_point 1 1] 0 300, a)].
Proof.
  split; [vm_compute; reflexivity|].
  pose proof (rm_sync_wait_exact (demo no_fail) [mk_point 1 1] 0 500 200 (reached (demo no_fail) 2 true []) false eq_refl ltac:(vm_compute; reflexivity)) as H.
  cbn zeta. destruct (rm_sync_wait_many _ _ _ _ _ _) as [r w']. destruct H as [_ [(_ & H & _)|(a & H & _)]]; [cbn in H; lia|].
  exists a. exact H.
Defined.

Lemma reclaim_all_empties n w :
  length (b_pending (nw_rm w)) = n ->
  let w' := (reclaim_all (replicate n (0%nat, true)) w).2 in b_pending (nw_rm w') = [] /\ b_lost (nw_rm w') = b_lost (nw_rm w).
Proof.
  revert w. induction n as [|n IH]; intros w Hn; cbn zeta; [by apply nil_length_inv in Hn|]. cbn [replicate reclaim_all]. rewrite bind_run.
  destruct (b_pending (nw_rm w)) as [|g l] eqn:E; [done|].
  assert (Hr : b_pending (nw_rm (reclaim (0%nat, true) w).2) = l /\ b_lost (nw_rm (reclaim (0%nat, true) w).2) = b_lost (nw_rm w)).
  { unfold reclaim, rm_va_release, util_vma_heap_free. mrun. rewrite E. cbn. mrun. cbn. by rewrite ?E. }
  destruct Hr as [H1 H2]. destruct (IH (reclaim (0%nat, true) w).2) as [H3 H4]; [by rewrite H1; injection Hn|]. by rewrite H3, H4, H2.
Qed.

(** C34: when a client has destroyed its objects and the device is not lost,
    closing it, which runs the outstanding releases, leaves no reserved range,
    mapping, allocation or block, so that the heap may be taken down. *)
Theorem rm_close_releases B `{!Contract B} retries vulkan ops :
  let w := reached B retries vulkan ops in
  nw_vas w = ∅ -> nw_mems w = ∅ -> nw_ctxs w = ∅ -> b_lost (nw_rm w) = false ->
  let w' := (nv_rm_close_releases true w).2 in
  nw_heap w' = [] /\ b_map (nw_rm w') = ∅ /\ b_mem (nw_rm w') = ∅ /\ nw_blocks w' = 0.
Proof.
  cbn zeta. pose proof (rg_inv _ (reached_good B retries vulkan ops)) as H. set (w := reached B retries vulkan ops) in *. clearbody w.
  intros Hv Hm Hc Hl. unfold nv_rm_close_releases. mrun. set (l := replicate _ _). destruct (reclaim_all_ok 0 [] l w H) as [Hi Q].
  destruct (reclaim_all_empties _ w eq_refl) as [Hp Hl']. fold l in Hp, Hl'.
  destruct (no_objects (reclaim_all l w).2 Hi) as (H1 & H2 & H3).
  - by rewrite (q_vas _ _ Q).
  - by rewrite (q_mems _ _ Q).
  - by rewrite (q_ctxs _ _ Q).
  - by rewrite Hl'.
  - destruct (H3 Hp) as [H4 H5]. done.
Qed.
Definition d_close : list rm_op := d_memory ++ d_channel ++ [OVaFree 1; OCtxDestroy 6; OMemFree 2].
Lemma rm_close_releases_witness :
  let w' := (nv_rm_close_releases true (reached (demo no_fail) 2 true d_close)).2 in
  nw_heap w' = [] /\ b_map (nw_rm w') = ∅ /\ b_mem (nw_rm w') = ∅ /\ nw_blocks w' = 0.
Proof. apply (rm_close_releases (demo no_fail) 2 true d_close); vm_compute; reflexivity. Defined.

(** After any creations and destructions of physical and logical devices,
    whatever the system and the other side answer, the open descriptors are
    exactly one for each live physical and each live logical device, the open
    resource-manager devices exactly one for each live logical device, no DRM
    version and no other block is left, and the loss hook of a Vulkan device is
    set exactly while its device lives, to that device's backend. *)
Theorem rm_devices_exact S ops :
  let w := (dev_session S ops dw_start).2 in
  elements (dw_fds w) ≡ₚ pdev_fds (dw_pdevs w) ++ dev_fds (dw_devs w) /\
  elements (dw_rms w) ≡ₚ dev_rms (dw_devs w) /\
  dw_versions w = 0 /\ dw_blocks w = Z.of_nat (size (dw_pdevs w)) + Z.of_nat (size (dw_devs w)) /\
  forall k rm, dw_hooks w !! k = Some rm <-> exists v d, dw_devs w !! v = Some d /\ dv_vk d = Some k /\ dv_rm d = rm.
Proof.
  cbn zeta. destruct (dev_session_ok S ops dw_start dinv_start) as [D1 D2 D3 D4 _ _ [D5 _]]. done.
Qed.
(** A session with every outcome: refused at each step, and a device made. *)
Definition d_system : system :=
  mk_sys (fun _ _ => true) (fun _ _ => Some (Some "nvidia-drm"%string)) (fun _ => true) (fun t _ => if (t <? 20)%nat then Some 7 else None)
    (fun t _ => ((if (t =? 4)%nat then VK_ERROR_INITIALIZATION_FAILED else VK_SUCCESS), true, mk_info 6 1 true 0 0)).
Definition d_drm : drm_device := mk_drm true NVIDIA_VENDOR_ID 4 0 "renderD128".
Example device_session :
  let w := (dev_session d_system [DPdevCreate d_drm; DPdevCreate d_drm; DDevCreate 5 0 (Some 1); DDevCreate 5 0 (Some 1)] dw_start).2 in
  size (dw_fds w) = 2%nat /\ size (dw_rms w) = 1%nat /\ dw_blocks w = 2.
Proof. vm_compute. done. Qed.

End RmDevice.
