(* ===== verification/Astc.v ===== *)
(** * Compressed-texture emulation in the Vulkan HAL ([hal/src/astc.c])

    An image of an ASTC or ETC2 format the ICD lacks is an ICD image of the
    decoded format plus, per mip level, a block image with one texel per
    compressed block.  The parts share the memory the application binds.

    Modelled here: the formats, the create-infos of the parts, their layout in
    one allocation, creation and destruction, memory binds and sparse binds;
    [AstcCopy] has the barriers and the copies.  The table of emulated images
    is a finite map: what [HashTable] proves of the table the code uses. *)

From Stdlib Require Import ZArith Lia.
From stdpp Require Import base option sets strings gmap list.
From S2P Require Import Prelude Vulkan.

Set Default Goal Selector "!".
#[local] Open Scope Z_scope.

Module Astc.
Import Vk.

Definition ASTC_FIRST : Z := 157.
Definition ASTC_LAST : Z := 184.
Definition ETC2_FIRST : Z := 147.
Definition ETC2_LAST : Z := 156.
Definition MAX_MIPS : Z := 16.
Definition NVHAL_ASTC_NUM_PARTITION_TABLES : Z := 14.
Definition VK_FORMAT_R8G8B8A8_UINT : Z := 41.
Definition VK_FORMAT_R16_UNORM : Z := 70.
Definition VK_FORMAT_R16_SNORM : Z := 71.
Definition VK_FORMAT_R16_UINT : Z := 74.
Definition VK_FORMAT_R16G16_UNORM : Z := 77.
Definition VK_FORMAT_R16G16_SNORM : Z := 78.
Definition VK_FORMAT_R16G16_UINT : Z := 81.
Definition VK_FORMAT_R32G32_UINT : Z := 101.
Definition VK_FORMAT_R32G32B32A32_UINT : Z := 107.
Definition VK_ERROR_FORMAT_NOT_SUPPORTED : Z := -11.
Definition VK_IMAGE_TYPE_2D : Z := 1.
Definition VK_IMAGE_TILING_OPTIMAL : Z := 0.
Definition SPARSE_BINDING : Z := 0x1.
Definition SPARSE_ALIASED : Z := 0x4.
Definition MUTABLE_FORMAT : Z := 0x8.
Definition EXTENDED_USAGE : Z := 0x100.
Definition SPARSE_FLAGS : Z := Z.lor SPARSE_BINDING SPARSE_ALIASED.
Definition RGBA_EXTRA_FLAGS : Z := Z.lor MUTABLE_FORMAT EXTENDED_USAGE.
Definition BLOCK_USAGE : Z := Z.lor (Z.lor USAGE_TRANSFER_SRC USAGE_TRANSFER_DST) USAGE_SAMPLED.
Definition QUEUE_COMPUTE : Z := 0x2.
Definition VK_REMAINING : Z := UINT32_MAX.

(** ** Formats *)

Inductive family := FAM_ASTC | FAM_ETC2.
#[export] Instance family_eq_dec : EqDecision family.
Proof. solve_decision. Defined.

Record efmt := mk_efmt {
  fam : family; bw : Z; bh : Z; cls : Z; variant : Z; twin : bool; decoded : Z; store : Z; block_fmt : Z;
}.

Definition block_dims : list (Z * Z) :=
  [(4, 4); (5, 4); (5, 5); (6, 5); (6, 6); (8, 5); (8, 6); (8, 8); (10, 5); (10, 6); (10, 8); (10, 10); (12, 10); (12, 12)].

Definition etc2_table : list (Z * (Z * Z * Z)) :=
  [ (0, (VK_FORMAT_R8G8B8A8_UNORM, VK_FORMAT_R8G8B8A8_UINT, VK_FORMAT_R32G32_UINT));
    (0, (VK_FORMAT_R8G8B8A8_SRGB, VK_FORMAT_R8G8B8A8_UINT, VK_FORMAT_R32G32_UINT));
    (1, (VK_FORMAT_R8G8B8A8_UNORM, VK_FORMAT_R8G8B8A8_UINT, VK_FORMAT_R32G32_UINT));
    (1, (VK_FORMAT_R8G8B8A8_SRGB, VK_FORMAT_R8G8B8A8_UINT, VK_FORMAT_R32G32_UINT));
    (2, (VK_FORMAT_R8G8B8A8_UNORM, VK_FORMAT_R8G8B8A8_UINT, VK_FORMAT_R32G32B32A32_UINT));
    (2, (VK_FORMAT_R8G8B8A8_SRGB, VK_FORMAT_R8G8B8A8_UINT, VK_FORMAT_R32G32B32A32_UINT));
    (3, (VK_FORMAT_R16_UNORM, VK_FORMAT_R16_UINT, VK_FORMAT_R32G32_UINT));
    (4, (VK_FORMAT_R16_SNORM, VK_FORMAT_R16_UINT, VK_FORMAT_R32G32_UINT));
    (5, (VK_FORMAT_R16G16_UNORM, VK_FORMAT_R16G16_UINT, VK_FORMAT_R32G32B32A32_UINT));
    (6, (VK_FORMAT_R16G16_SNORM, VK_FORMAT_R16G16_UINT, VK_FORMAT_R32G32B32A32_UINT)) ].

Definition efmt_get (f : Z) : option efmt :=
  if (ASTC_FIRST <=? f) && (f <=? ASTC_LAST) then
    let t := (f - ASTC_FIRST) / 2 in
    let srgb := Z.odd (f - ASTC_FIRST) in
    '(w, h) ← block_dims !! Z.to_nat t;
    Some (mk_efmt FAM_ASTC w h t 0 srgb (if srgb then VK_FORMAT_R8G8B8A8_SRGB else VK_FORMAT_R8G8B8A8_UNORM)
            VK_FORMAT_R8G8B8A8_UINT VK_FORMAT_R32G32B32A32_UINT)
  else if (ETC2_FIRST <=? f) && (f <=? ETC2_LAST) then
    let i := f - ETC2_FIRST in
    '(v, (dec, sto, blk)) ← etc2_table !! Z.to_nat i;
    Some (mk_efmt FAM_ETC2 4 4 (NVHAL_ASTC_NUM_PARTITION_TABLES + v) v (Z.odd i) dec sto blk)
  else None.

Definition div_up (a b : Z) : Z := u32 (a + b - 1) / b.
Definition mip_dim (d m : Z) : Z := if Z.shiftr d m =? 0 then 1 else Z.shiftr d m.

(** ** The physical device and the create-infos *)

Inductive astc_state := EMULATE | NATIVE | UNAVAILABLE.
#[export] Instance astc_state_eq_dec : EqDecision astc_state.
Proof. solve_decision. Defined.

Record astc_pd := mk_pd {
  p_state : astc_state; p_etc2_state : astc_state; p_usage : Z; p_flags : Z; p_qflags : list Z;
}.
Definition fam_state (p : astc_pd) (e : efmt) : astc_state :=
  match fam e with FAM_ASTC => p_state p | FAM_ETC2 => p_etc2_state p end.

(** true: the emulation implements it. *)
Definition ifp_check (p : astc_pd) (type tiling usage flags : Z) : bool :=
  (type =? VK_IMAGE_TYPE_2D) && (tiling =? VK_IMAGE_TILING_OPTIMAL) && (Z.ldiff usage (p_usage p) =? 0)
  && (Z.ldiff flags (p_flags p) =? 0) && negb (has_any flags SPARSE_ALIASED && negb (has_any flags SPARSE_BINDING)).

Inductive ichain :=
  | IFormatList (views : list Z)
  | IExternalMemory (handleTypes : Z)
  | IExternalFormat (externalFormat : Z)
  | IIgnored
  | IOther (sType : Z).

Record image_ci := mk_image_ci {
  c_format : Z; c_type : Z; c_tiling : Z; c_samples : Z; c_usage : Z; c_flags : Z;
  c_width : Z; c_height : Z; c_depth : Z; c_mips : Z; c_layers : Z; c_next : list ichain;
}.

(** A create-info for the ICD. *)
Record part_ci := mk_part_ci {
  k_format : Z; k_width : Z; k_height : Z; k_mips : Z; k_layers : Z; k_usage : Z; k_flags : Z; k_views : option (list Z);
}.
Record astc_cis := mk_cis { cis_e : efmt; cis_rgba : part_ci; cis_block : list part_ci }.

(** The view formats of one list: which members of the pair occur. *)
Fixpoint scan_views (cls0 : Z) (l : list Z) (plain tw : bool) : option (bool * bool) :=
  match l with
  | [] => Some (plain, tw)
  | v :: l =>
      ve ← efmt_get v;
      if negb (cls ve =? cls0) then None
      else scan_views cls0 l (plain || negb (twin ve)) (tw || twin ve)
  end.

(** The chain: a format list was given, and which members of the pair. *)
Fixpoint scan_chain (cls0 : Z) (l : list ichain) (lst plain tw : bool) : option (bool * bool * bool) :=
  match l with
  | [] => Some (lst, plain, tw)
  | IFormatList views :: l =>
      '(plain, tw) ← scan_views cls0 views plain tw;
      scan_chain cls0 l (lst || negb (bool_decide (views = []))) plain tw
  | IExternalMemory ht :: l => if negb (ht =? 0) then None else scan_chain cls0 l lst plain tw
  | IExternalFormat ef :: l => if negb (ef =? 0) then None else scan_chain cls0 l lst plain tw
  | IIgnored :: l => scan_chain cls0 l lst plain tw
  | IOther _ :: _ => None
  end.

(** [None]: refused with VK_ERROR_FORMAT_NOT_SUPPORTED. *)
Definition build_cis (p : astc_pd) (ci : image_ci) : option astc_cis :=
  e ← efmt_get (c_format ci);
  if negb (ifp_check p (c_type ci) (c_tiling ci) (c_usage ci) (c_flags ci)) || negb (c_samples ci =? 1)
     || (c_mips ci =? 0) || (MAX_MIPS <? c_mips ci) || negb (c_depth ci =? 1)
  then None
  else
  '(lst, plain, tw) ← scan_chain (cls e) (c_next ci) false false false;
  let pe := default e (efmt_get (if twin e then c_format ci - 1 else c_format ci)) in
  let te := default e (efmt_get (if twin e then c_format ci else c_format ci + 1)) in
  let views := (if plain : bool then [decoded pe] else []) ++ (if tw : bool then [decoded te] else []) ++ [store e] in
  let rgba := mk_part_ci (decoded e) (c_width ci) (c_height ci) (c_mips ci) (c_layers ci)
                (Z.lor (c_usage ci) USAGE_STORAGE) (Z.lor (c_flags ci) RGBA_EXTRA_FLAGS) (if lst : bool then Some views else None) in
  let block := (fun m => mk_part_ci (block_fmt e) (div_up (mip_dim (c_width ci) (Z.of_nat m)) (bw e))
                           (div_up (mip_dim (c_height ci) (Z.of_nat m)) (bh e)) 1 (c_layers ci) BLOCK_USAGE
                           (Z.land (c_flags ci) SPARSE_FLAGS) None)
               <$> seq 0 (Z.to_nat (c_mips ci)) in
  Some (mk_cis e rgba block).

(** ** One allocation for all parts *)

Definition align_up (v a : Z) : Z := u64 (u64 (v + a - 1) / a * a).

Fixpoint max_align (parts : list VkMemoryRequirements) (a : Z) : Z :=
  match parts with
  | [] => a
  | q :: parts => max_align parts (if a <? req_alignment q then req_alignment q else a)
  end.

(** Offsets, end, alignment and memory types. *)
Fixpoint place_parts (sparse : bool) (parts : list VkMemoryRequirements) (fin align bits : Z) : list Z * Z * Z * Z :=
  match parts with
  | [] => ([], fin, align, bits)
  | q :: parts =>
      let a := if sparse then align else if req_alignment q =? 0 then 1 else req_alignment q in
      let off := align_up fin a in
      let '(offs, fin, al, b) :=
        place_parts sparse parts (u64 (off + req_size q)) (if align <? a then a else align) (Z.land bits (req_memoryTypeBits q)) in
      (off :: offs, fin, al, b)
  end.

Definition combine (parts : list VkMemoryRequirements) (sparse : bool) : bool * list Z * VkMemoryRequirements :=
  let '(offs, fin, align, bits) := place_parts sparse parts 0 (max_align parts 1) UINT32_MAX in
  (negb (bits =? 0), offs, mk_reqs (if sparse then align_up fin align else fin) align bits).

(** ** Emulated images *)

Record astc_image := mk_astc {
  ai_image : Z; ai_format : Z; ai_e : efmt; ai_width : Z; ai_height : Z; ai_mips : Z; ai_layers : Z; ai_usage : Z;
  ai_block : list Z; ai_off : list Z; ai_size : list Z; ai_sparse : bool; ai_req : VkMemoryRequirements;
}.

Record gworld := mk_gw { g_images : gmap Z astc_image; gtr : trace }.

Record gicd := mk_gicd {
  gi_create : trace -> part_ci -> Z * Z;
  gi_reqs : trace -> Z -> VkMemoryRequirements;
  gi_dedicated : option (trace -> Z -> bool);     (** the query exists and is valid *)
  gi_calloc : trace -> bool;
  gi_hash_put : trace -> bool;
  gi_bind : trace -> Z -> Z -> Z -> Z;
  gi_malloc : trace -> bool;
}.

Definition gev (e : event) : M gworld () := modS (fun w => mk_gw (g_images w) (gtr w ++ [e])).
Definition gask {A} (f : trace -> A) : M gworld A := fun w => (f (gtr w), w).
Definition put_astc (m : gmap Z astc_image) : M gworld () := modS (fun w => mk_gw m (gtr w)).
Definition lookup_image (w : gworld) (image : Z) : option astc_image :=
  if image =? VK_NULL_HANDLE then None else g_images w !! image.

Section Icd.
Context (K : gicd).

Definition create_part (c : part_ci) : M gworld (Z * Z) :=
  '(r, h) ← gask (fun t => gi_create K t c);
  _ ← gev (Created KImage (r =? VK_SUCCESS) h);
  mret (r, h).

(** The block images up to the first failure. *)
Fixpoint create_blocks (l : list part_ci) : M gworld (Z * list Z) :=
  match l with
  | [] => mret (VK_SUCCESS, [])
  | c :: l =>
      '(r, h) ← create_part c;
      if negb (r =? VK_SUCCESS) then mret (r, [h])
      else '(r, hs) ← create_blocks l; mret (r, h :: hs)
  end.

Fixpoint destroy_images (l : list Z) : M gworld () :=
  match l with
  | [] => mret tt
  | h :: l => _ ← (if negb (h =? VK_NULL_HANDLE) then gev (Destroyed KImage h) else mret tt); destroy_images l
  end.

(** The images only; descriptor slots are not part of this model. *)
Definition destroy_parts (image : Z) (block : list Z) (app_image : bool) : M gworld () :=
  _ ← destroy_images block;
  if app_image then destroy_images [image] else mret tt.

Fixpoint any_dedicated (f : trace -> Z -> bool) (l : list Z) : M gworld bool :=
  match l with
  | [] => mret false
  | h :: l => b ← gask (fun t => f t h); if b : bool then mret true else any_dedicated f l
  end.

(** [None]: not ours; else the result and the handle. *)
Definition nvhal_astc_CreateImage (pd : option astc_pd) (device_emulates : bool) (ci : image_ci) : M gworld (option (Z * Z)) :=
  match efmt_get (c_format ci) with
  | None => mret None
  | Some e =>
  if match pd with Some p => bool_decide (fam_state p e = NATIVE) | None => false end then mret None
  else match (if device_emulates then pd else None) with
  | None => mret (Some (VK_ERROR_FORMAT_NOT_SUPPORTED, VK_NULL_HANDLE))
  | Some p =>
  if negb (bool_decide (fam_state p e = EMULATE)) then mret (Some (VK_ERROR_FORMAT_NOT_SUPPORTED, VK_NULL_HANDLE))
  else match build_cis p ci with
  | None => mret (Some (VK_ERROR_FORMAT_NOT_SUPPORTED, VK_NULL_HANDLE))
  | Some c =>
  ok ← gask (gi_calloc K);
  if negb ok then mret (Some (VK_ERROR_OUT_OF_HOST_MEMORY, VK_NULL_HANDLE))
  else
  '(r, image) ← create_part (cis_rgba c);
  '(r, block) ← (if r =? VK_SUCCESS then create_blocks (cis_block c) else mret (r, []));
  if negb (r =? VK_SUCCESS) then (_ ← destroy_parts image block true; mret (Some (r, VK_NULL_HANDLE)))
  else
  parts ← gask (fun t => gi_reqs K t <$> image :: block);
  ded ← (match gi_dedicated K with Some f => any_dedicated f (image :: block) | None => mret false end);
  let sparse := has_any (c_flags ci) SPARSE_BINDING in
  let '(fits, offs, req) := combine parts sparse in
  if ded || negb fits then (_ ← destroy_parts image block true; mret (Some (VK_ERROR_FORMAT_NOT_SUPPORTED, VK_NULL_HANDLE)))
  else
  put ← gask (gi_hash_put K);
  if negb put then (_ ← destroy_parts image block true; mret (Some (VK_ERROR_OUT_OF_HOST_MEMORY, VK_NULL_HANDLE)))
  else
  w ← getS;
  _ ← put_astc (<[image := mk_astc image (c_format ci) e (c_width ci) (c_height ci) (c_mips ci) (c_layers ci) (c_usage ci)
                             block offs (req_size <$> parts) sparse req]> (g_images w));
  mret (Some (VK_SUCCESS, image))
  end end end.

(** true: it was an emulated image. *)
Definition nvhal_astc_DestroyImage (image : Z) : M gworld bool :=
  w ← getS;
  match lookup_image w image with
  | None => mret false
  | Some ai => _ ← put_astc (delete image (g_images w)); _ ← destroy_parts (ai_image ai) (ai_block ai) true; mret true
  end.

(** ** Binding *)

Record bind_info := mk_bind { b_image : Z; b_memory : Z; b_offset : Z }.

Definition parts_of (ai : astc_image) : list Z := ai_image ai :: ai_block ai.

(** The binds of the block images of one image. *)
Definition block_binds (ai : astc_image) (mem offset : Z) : list bind_info :=
  zip_with (fun h o => mk_bind h mem (u64 (offset + o))) (ai_block ai) (tail (ai_off ai)).

(** [None]: out of host memory. *)
Definition nvhal_astc_expand_binds (l : list bind_info) : M gworld (option (list bind_info)) :=
  w ← getS;
  let expand b := b :: match lookup_image w (b_image b) with
                       | Some ai => block_binds ai (b_memory b) (b_offset b)
                       | None => []
                       end in
  if bool_decide (Forall (fun b => lookup_image w (b_image b) = None) l) then mret (Some l)
  else ok ← gask (gi_malloc K); mret (if ok : bool then Some (mjoin (expand <$> l)) else None).

Fixpoint bind_all (l : list bind_info) : M gworld Z :=
  match l with
  | [] => mret VK_SUCCESS
  | b :: l =>
      r ← gask (fun t => gi_bind K t (b_image b) (b_memory b) (b_offset b));
      _ ← gev (Called "vkBindImageMemory" [b_image b; b_memory b; b_offset b; r]);
      if r =? VK_SUCCESS then bind_all l else mret r
  end.
Definition nvhal_astc_bind1 (image mem offset : Z) : M gworld (option Z) :=
  w ← getS;
  match lookup_image w image with
  | None => mret None
  | Some ai =>
      r ← bind_all (mk_bind image mem (u64 (offset + default 0 (head (ai_off ai)))) :: block_binds ai mem offset);
      mret (Some r)
  end.

(** ** Sparse binding *)

Record sparse_bind := mk_sb { sb_off : Z; sb_size : Z; sb_mem : Z; sb_memoff : Z; sb_flags : Z }.
Record opaque_bind := mk_ob { ob_image : Z; ob_binds : list sparse_bind }.
(** One VkBindSparseInfo: its opaque binds and the images of its residency
    binds. *)
Record sparse_info := mk_si { si_opaque : list opaque_bind; si_residency : list Z }.

Definition is_emulated (w : gworld) (image : Z) : bool := bool_decide (is_Some (lookup_image w image)).

(** The first loop: a residency bind of an emulated image is refused; the
    loop ends at the first info with an emulated opaque bind. *)
Fixpoint sparse_scan (w : gworld) (l : list sparse_info) : Z + bool :=
  match l with
  | [] => inr false
  | i :: l =>
      let any := existsb (fun b => is_emulated w (ob_image b)) (si_opaque i) in
      if existsb (is_emulated w) (si_residency i) then inl VK_ERROR_FORMAT_NOT_SUPPORTED
      else if any then inr true
      else sparse_scan w l
  end.

(** The piece of a bind inside the part [[ps, pe)]. *)
Definition clip (ps pe : Z) (m : sparse_bind) : option sparse_bind :=
  let s0 := if ps <? sb_off m then sb_off m else ps in
  let e0 := if u64 (sb_off m + sb_size m) <? pe then u64 (sb_off m + sb_size m) else pe in
  if e0 <=? s0 then None
  else Some (mk_sb (s0 - ps) (e0 - s0) (sb_mem m)
               (if negb (sb_mem m =? VK_NULL_HANDLE) then u64 (sb_memoff m + (s0 - sb_off m)) else 0) (sb_flags m)).

Definition part_range (ai : astc_image) (i : nat) : Z * Z :=
  let ps := default 0 (ai_off ai !! i) in (ps, u64 (ps + default 0 (ai_size ai !! i))).

Definition split_bind (ai : astc_image) (binds : list sparse_bind) : list opaque_bind :=
  imap (fun i h => let '(ps, pe) := part_range ai i in mk_ob h (omap (clip ps pe) binds)) (parts_of ai).

Definition expand_opaque (w : gworld) (b : opaque_bind) : list opaque_bind :=
  match lookup_image w (ob_image b) with
  | None => [b]
  | Some ai => split_bind ai (ob_binds b)
  end.

Fixpoint expand_infos (w : gworld) (l : list sparse_info) : M gworld (option (list sparse_info)) :=
  match l with
  | [] => mret (Some [])
  | i :: l =>
      ok ← (if existsb (fun b => is_emulated w (ob_image b)) (si_opaque i) then gask (gi_malloc K) else mret true);
      if negb ok then mret None
      else
      r ← expand_infos w l;
      mret (cons (mk_si (mjoin (expand_opaque w <$> si_opaque i)) (si_residency i)) <$> r)
  end.

Definition nvhal_astc_bind_sparse (l : list sparse_info) : M gworld (Z + list sparse_info) :=
  w ← getS;
  match sparse_scan w l with
  | inl r => mret (inl r)
  | inr false => mret (inr l)
  | inr true =>
      ok ← gask (gi_malloc K);
      if negb ok then mret (inl VK_ERROR_OUT_OF_HOST_MEMORY)
      else
      r ← expand_infos w l;
      mret (match r with Some l => inr l | None => inl VK_ERROR_OUT_OF_HOST_MEMORY end)
  end.

End Icd.

(** ** The layout of the parts *)

(** Sizes and alignments of one part, as the Vulkan specification promises
    them: the alignment is a power of two; the bounds keep the sum of 17 parts
    within 64 bits. *)
Definition MAX_SIZE : Z := 2 ^ 48.
Definition pow2 (a : Z) : Prop := exists k, 0 <= k <= 32 /\ a = 2 ^ k.
Definition req_ok (q : VkMemoryRequirements) : Prop := 0 <= req_size q < MAX_SIZE /\ pow2 (req_alignment q).

Lemma alignment_pos a : pow2 a -> 0 < a <= 2 ^ 32.
Proof. intros (k & Hk & ->). split; [apply Z.pow_pos_nonneg; lia|apply Z.pow_le_mono_r; lia]. Qed.
Lemma pow2_divides a b : pow2 a -> pow2 b -> a <= b -> b mod a = 0.
Proof.
  intros (k & Hk & ->) (l & Hl & ->) H. assert (k <= l) by (apply (Z.pow_le_mono_r_iff 2); lia).
  replace l with (l - k + k) by lia. rewrite Z.pow_add_r by lia. apply Z.mod_mul. lia.
Qed.

(** In order, disjoint, aligned, within [[start, stop)]. *)
Fixpoint laid (start : Z) (offs : list Z) (reqs : list VkMemoryRequirements) (stop : Z) : Prop :=
  match offs, reqs with
  | [], [] => start <= stop
  | o :: offs, q :: reqs => start <= o /\ o mod req_alignment q = 0 /\ laid (o + req_size q) offs reqs stop
  | _, _ => False
  end.

Lemma laid_stop start offs reqs stop stop' : laid start offs reqs stop -> stop <= stop' -> laid start offs reqs stop'.
Proof.
  revert start reqs. induction offs as [|o offs IH]; intros start [|q reqs] H Hs; cbn in *; try done; [lia|].
  destruct H as (? & ? & ?). split_and!; [done|done|by apply IH].
Qed.
Lemma laid_length start offs reqs stop : laid start offs reqs stop -> length offs = length reqs.
Proof.
  revert start reqs. induction offs as [|o offs IH]; intros start [|q reqs] H; cbn in *; try done.
  f_equal. by eapply IH, H.
Qed.
Lemma laid_shift start offs reqs stop d :
  Forall req_ok reqs -> Forall (fun q => d mod req_alignment q = 0) reqs -> laid start offs reqs stop ->
  laid (d + start) (Z.add d <$> offs) reqs (d + stop).
Proof.
  revert start reqs. induction offs as [|o offs IH]; intros start [|q reqs] Hq Hd H; cbn in *; try done; [lia|].
  apply Forall_cons in Hq as [[_ Hq] ?], Hd as [? ?]. destruct H as (? & Hm & ?). pose proof (alignment_pos _ Hq).
  split_and!; [lia| |rewrite <- Z.add_assoc; by apply IH]. rewrite Z.add_mod, Hm by lia. by replace (d mod req_alignment q) with 0.
Qed.
Lemma laid_total start offs reqs stop : Forall req_ok reqs -> laid start offs reqs stop -> start <= stop.
Proof.
  revert start reqs. induction offs as [|o offs IH]; intros start [|q reqs] Hq H; cbn in *; try done.
  apply Forall_cons in Hq as [[? _] ?]. destruct H as (? & _ & H%IH); [lia|done].
Qed.
Lemma laid_lookup start offs reqs stop i o q :
  Forall req_ok reqs -> laid start offs reqs stop -> offs !! i = Some o -> reqs !! i = Some q -> start <= o /\ o + req_size q <= stop.
Proof.
  revert start reqs i. induction offs as [|o' offs IH]; intros start [|q' reqs] i Hq H Ho Hr; cbn in *; try done.
  apply Forall_cons in Hq as [[? _] Hq]. destruct H as (? & _ & H), i as [|i]; cbn in *; simplify_eq.
  - split; [done|]. by eapply laid_total.
  - edestruct (IH _ _ i Hq H Ho Hr). lia.
Qed.

Lemma align_up_spec v a : 0 < a -> 0 <= v -> v + a < 2 ^ 64 ->
  v <= align_up v a < v + a /\ align_up v a mod a = 0.
Proof.
  intros Ha Hv Hm. unfold align_up. rewrite (u64_id (v + a - 1)) by (unfold is_u64; lia).
  replace (v + a - 1) with (v + (a - 1)) by lia. pose proof (align_up_bounds v a Ha).
  rewrite u64_id by (unfold is_u64; lia). split; [done|]. apply Z.mod_mul. lia.
Qed.

Lemma max_align_spec parts a : Forall req_ok parts -> pow2 a ->
  pow2 (max_align parts a) /\ a <= max_align parts a /\ Forall (fun q => req_alignment q <= max_align parts a) parts.
Proof.
  revert a. induction parts as [|q parts IH]; intros a Hq Ha; cbn [max_align]; [split_and!; [done|lia|constructor]|].
  apply Forall_cons in Hq as [[_ Hq] Hqs].
  destruct (Z.ltb_spec a (req_alignment q));
    [destruct (IH (req_alignment q) Hqs Hq) as (? & ? & ?)|destruct (IH a Hqs Ha) as (? & ? & ?)];
    split_and!; try done; try lia; constructor; try done; lia.
Qed.

(** The largest end the parts can reach. *)
Definition room (n : nat) : Z := Z.of_nat n * (MAX_SIZE + 2 ^ 32).

Lemma room_S n : room (S n) = room n + (2 ^ 48 + 2 ^ 32).
Proof. unfold room, MAX_SIZE. lia. Qed.
Lemma room_nonneg n : 0 <= room n.
Proof. unfold room, MAX_SIZE. lia. Qed.

(** [sparse]: every part starts on the common alignment. *)
Definition coarse (sparse : bool) (align : Z) (offs : list Z) : Prop :=
  sparse = true -> Forall (fun o => o mod align = 0) offs.

Lemma place_parts_spec sparse parts fin align bits :
  Forall req_ok parts -> pow2 align -> Forall (fun q => req_alignment q <= align) parts ->
  0 <= fin -> fin + room (length parts) + 2 ^ 32 < 2 ^ 64 ->
  let '(offs, fin', al, b) := place_parts sparse parts fin align bits in
  laid fin offs parts fin' /\ fin' <= fin + room (length parts) /\ al = align /\ coarse sparse align offs /\
  (Z.land bits b = b) /\ Forall (fun q => Z.land (req_memoryTypeBits q) b = b) parts.
Proof.
  intros Hq Ha. revert fin bits. induction parts as [|q parts IH]; intros fin bits Hal Hf Hr; cbn [place_parts].
  { unfold room. cbn [laid length]. split_and!; try done; try lia; try apply Z.land_diag; try intros _; apply Forall_nil_2. }
  apply Forall_cons in Hq as [[Hsz Hq] Hqs], Hal as [Hal Hals]. pose proof (alignment_pos _ Ha). pose proof (alignment_pos _ Hq).
  set (a := if sparse then _ else _). assert (Ea : 0 < a <= align /\ a mod req_alignment q = 0 /\ (sparse = true -> a = align)).
  { subst a. destruct sparse; [split; [lia|]; split; [by apply pow2_divides|done]|].
    rewrite (proj2 (Z.eqb_neq (req_alignment q) 0)) by lia. split; [lia|]. split; [apply Z.mod_same; lia|done]. }
  destruct Ea as (Ea & Ed & Es). cbn [length] in Hr |- *. rewrite room_S in Hr |- *.
  pose proof (room_nonneg (length parts)). unfold MAX_SIZE in Hsz.
  destruct (align_up_spec fin a) as [Hu Hm]; [lia|lia|lia|]. set (off := align_up fin a) in *.
  rewrite u64_id by (unfold is_u64; lia).
  replace (if align <? a then a else align) with align by (destruct (Z.ltb_spec align a); lia).
  specialize (IH Hqs (off + req_size q) (Z.land bits (req_memoryTypeBits q)) Hals).
  destruct (place_parts _ _ _ _ _) as [[[offs fin'] al] b]. cbn [laid].
  destruct IH as (L & Hfin & -> & C & B & Bs); [lia|lia|].
  assert (Hb : Z.land bits b = b /\ Z.land (req_memoryTypeBits q) b = b).
  { split; rewrite <- B; [|rewrite (Z.land_comm bits)]; by rewrite !Z.land_assoc, Z.land_diag. }
  split_and!; try done; try lia.
  - apply Z.mod_divide; [lia|]. apply Z.mod_divide in Ed; [|lia]. etrans; [exact Ed|]. apply Z.mod_divide; [lia|done].
  - intros Hs. constructor; [by rewrite <- (Es Hs)|by apply C].
  - constructor; [by apply Hb|done].
Qed.

(** What the application is told about the allocation. *)
Definition layout_ok (reqs : list VkMemoryRequirements) (sparse : bool) (offs : list Z) (req : VkMemoryRequirements) : Prop :=
  head offs = Some 0 /\ laid 0 offs reqs (req_size req) /\ req_size req < 2 ^ 60 /\ pow2 (req_alignment req) /\
  Forall (fun q => req_alignment req mod req_alignment q = 0 /\
                   Z.land (req_memoryTypeBits q) (req_memoryTypeBits req) = req_memoryTypeBits req) reqs /\
  (sparse = true -> req_size req mod req_alignment req = 0 /\ Forall (fun o => o mod req_alignment req = 0) offs).

Lemma combine_spec parts sparse :
  Forall req_ok parts -> (0 < length parts <= 17)%nat ->
  let '(fits, offs, req) := combine parts sparse in fits = true -> layout_ok parts sparse offs req.
Proof.
  intros Hq Hn. unfold combine. destruct (max_align_spec parts 1 Hq) as (Hp & H1 & Hm); [by exists 0|].
  set (align := max_align parts 1) in *. pose proof (alignment_pos _ Hp).
  pose proof (place_parts_spec sparse parts 0 align UINT32_MAX Hq Hp Hm) as P.
  assert (Hr : 0 <= room (length parts) < 2 ^ 59) by (unfold room, MAX_SIZE; lia).
  assert (H0 : head (place_parts sparse parts 0 align UINT32_MAX).1.1.1 = Some 0).
  { clear P. destruct parts as [|q parts]; [cbn in Hn; lia|]. cbn [place_parts]. set (a := if sparse then _ else _).
    assert (Hz : 0 < a <= 2 ^ 32).
    { subst a. apply Forall_cons in Hq as [[_ Hq%alignment_pos] _]. destruct sparse; [done|]. destruct (Z.eqb_spec (req_alignment q) 0); lia. }
    destruct (align_up_spec 0 a) as [Hu Hz0]; [lia|lia|lia|]. rewrite Z.mod_small in Hz0 by lia.
    destruct (place_parts _ _ _ _ _) as [[[? ?] ?] ?]. cbn [fst head]. f_equal. exact Hz0. }
  destruct (place_parts _ _ _ _ _) as [[[offs fin] al] b]. cbn [fst] in H0.
  destruct P as (L & Hfin & -> & C & B & Bs); [lia|lia|]. intros _. pose proof (laid_total _ _ _ _ Hq L).
  assert (A : fin <= (if sparse then align_up fin align else fin) < 2 ^ 60 /\ (sparse = true -> (if sparse then align_up fin align else fin) mod align = 0)).
  { destruct sparse; [|split; [lia|done]]. destruct (align_up_spec fin align) as [? ?]; [lia|lia|lia|]. split; [lia|done]. }
  destruct A as [A Am]. unfold layout_ok. cbn [req_size req_alignment req_memoryTypeBits]. split_and!; try done; try lia.
  - eapply laid_stop; [exact L|lia].
  - rewrite Forall_forall in Hm, Bs, Hq |- *. intros q Hin. split; [|by apply Bs].
    apply pow2_divides; [apply (Hq q Hin)|done|by apply Hm].
  - intros Hs. split; [by apply Am|by apply C].
Qed.

(** ** The table of emulated images *)

(** What the Vulkan specification says of the ICD. *)
Class GicdLaws (K : gicd) : Prop := {
  gl_failed : forall t c, (gi_create K t c).1 <> VK_SUCCESS -> (gi_create K t c).2 = VK_NULL_HANDLE;
  gl_fresh : forall t c, (gi_create K t c).1 = VK_SUCCESS ->
    (gi_create K t c).2 <> VK_NULL_HANDLE /\ balance KImage (gi_create K t c).2 t = 0;
  gl_reqs : forall t h, req_ok (gi_reqs K t h);
}.

(** How often [h] occurs. *)
Definition held (h : Z) (l : list Z) : Z := sumZ ((fun p => if decide (p = h) then 1 else 0) <$> l).

Lemma held_app h l k : held h (l ++ k) = held h l + held h k.
Proof. unfold held. by rewrite fmap_app, sumZ_app. Qed.
Lemma held_cons h p l : held h (p :: l) = (if decide (p = h) then 1 else 0) + held h l.
Proof. reflexivity. Qed.
Lemma held_nonneg h l : 0 <= held h l.
Proof. induction l as [|p l IH]; [done|]. rewrite held_cons. case_decide; lia. Qed.
Lemma held_in h l : h ∈ l -> 1 <= held h l.
Proof.
  induction l as [|p l IH]; [set_solver|]. rewrite held_cons. pose proof (held_nonneg h l).
  intros [->|Hp]%elem_of_cons; [rewrite decide_True by done; lia|]. specialize (IH Hp). case_decide; lia.
Qed.
Lemma held_nodup l : (forall h, h ∈ l -> held h l <= 1) -> NoDup l.
Proof.
  induction l as [|p l IH]; intros H; [constructor|]. constructor.
  - intros Hp%held_in. specialize (H p ltac:(set_solver)). rewrite held_cons, decide_True in H by done. lia.
  - apply IH. intros h Hh. specialize (H h ltac:(set_solver)). rewrite held_cons in H. case_decide; lia.
Qed.

(** The ICD images of the table. *)
Definition recorded (h : Z) (m : gmap Z astc_image) : Z := total (fun _ ai => held h (parts_of ai)) m.

Lemma recorded_ge h m k ai : m !! k = Some ai -> held h (parts_of ai) <= recorded h m.
Proof. exact (total_ge (fun _ ai => held h (parts_of ai)) m k ai (fun _ _ => held_nonneg _ _)). Qed.

(** A recorded image: its parts, and where they lie. *)
Record image_ok (K : gicd) (t : trace) (k : Z) (ai : astc_image) : Prop := {
  io_key : ai_image ai = k;
  io_parts : Forall (fun h => h <> VK_NULL_HANDLE) (parts_of ai);
  io_mips : 1 <= ai_mips ai <= MAX_MIPS /\ length (ai_block ai) = Z.to_nat (ai_mips ai);
  io_fmt : efmt_get (ai_format ai) = Some (ai_e ai);
  io_layout : exists u, u `prefix_of` t /\ let reqs := gi_reqs K u <$> parts_of ai in
    ai_size ai = req_size <$> reqs /\ layout_ok reqs (ai_sparse ai) (ai_off ai) (ai_req ai);
}.

Record ginv (K : gicd) (w : gworld) : Prop := {
  gv_bal : forall h, h <> VK_NULL_HANDLE -> balance KImage h (gtr w) = recorded h (g_images w);
  gv_one : forall h, h <> VK_NULL_HANDLE -> balance KImage h (gtr w) <= 1;
  gv_image : forall k ai, g_images w !! k = Some ai -> image_ok K (gtr w) k ai;
}.

Lemma image_ok_prefix K t t' k ai : t `prefix_of` t' -> image_ok K t k ai -> image_ok K t' k ai.
Proof. intros Ht [? ? ? ? (u & Hu & ?)]. split; try done. exists u. split; [by trans t|done]. Qed.

(** What the calls of one operation did to the ICD images: [d h] more. *)
Record moved (d : Z -> Z) (w w' : gworld) : Prop := {
  mv_images : g_images w' = g_images w;
  mv_tr : gtr w `prefix_of` gtr w';
  mv_bal : forall h, h <> VK_NULL_HANDLE -> balance KImage h (gtr w') = balance KImage h (gtr w) + d h;
  mv_one : (forall h, h <> VK_NULL_HANDLE -> balance KImage h (gtr w) <= 1) ->
           forall h, h <> VK_NULL_HANDLE -> balance KImage h (gtr w') <= 1;
}.

Lemma moved_id w : moved (fun _ => 0) w w.
Proof. split; [done|done|intros; lia|auto]. Qed.
Lemma moved_trans d d' w w' w'' : moved d w w' -> moved d' w' w'' -> moved (fun h => d h + d' h) w w''.
Proof.
  intros [I1 T1 B1 O1] [I2 T2 B2 O2]. split; [by rewrite I2|by trans (gtr w')| |auto].
  intros h Hh. rewrite B2, B1 by done. lia.
Qed.
Lemma moved_ext d d' w w' : moved d w w' -> (forall h, h <> VK_NULL_HANDLE -> d h = d' h) -> moved d' w w'.
Proof. intros [I T B O] E. split; [done|done| |done]. intros h Hh. by rewrite B, E. Qed.

Lemma moved_called s l w : moved (fun _ => 0) w (gev (Called s l) w).2.
Proof.
  assert (E : forall h, balance KImage h (gtr (gev (Called s l) w).2) = balance KImage h (gtr w)).
  { intros h. cbn [gev modS snd gtr]. bal_simpl. lia. }
  split; [done|by eexists| |]; intros; rewrite E; [lia|auto].
Qed.

Lemma moved_destroy h0 w : h0 <> VK_NULL_HANDLE -> moved (fun h => - held h [h0]) w (gev (Destroyed KImage h0) w).2.
Proof.
  intros H0. assert (E : forall h, balance KImage h (gtr (gev (Destroyed KImage h0) w).2) = balance KImage h (gtr w) - held h [h0]).
  { intros h. cbn [gev modS snd gtr]. bal_simpl. rewrite held_cons. unfold held, sumZ. cbn. case_decide; lia. }
  split; [done|by eexists| |]; [intros; rewrite E; lia|]. intros H h Hh. rewrite E. specialize (H h Hh).
  pose proof (held_nonneg h [h0]). lia.
Qed.

Section Laws.
Context (K : gicd) `{!GicdLaws K}.

Lemma create_part_spec c w :
  wp (create_part K c) (fun r w' => (r.1 = VK_SUCCESS -> r.2 <> VK_NULL_HANDLE) /\ moved (fun h => held h [r.2]) w w') w.
Proof.
  unfold wp, create_part. rewrite bind_run. cbn [gask fst snd]. pose proof (gl_failed (gtr w) c) as HF. pose proof (gl_fresh (gtr w) c) as HS.
  destruct (gi_create K (gtr w) c) as [r h0]. cbn [fst snd] in *. rewrite bind_run, ret_run. cbn [fst snd gev modS].
  assert (E : forall h, h <> VK_NULL_HANDLE ->
    balance KImage h (gtr w ++ [Created KImage (r =? VK_SUCCESS) h0]) = balance KImage h (gtr w) + held h [h0]).
  { intros h Hh. destruct (Z.eqb_spec r VK_SUCCESS) as [Hr|Hr]; bal_simpl; rewrite held_cons; unfold held, sumZ; cbn; [case_decide; lia|].
    rewrite HF, decide_False by done. lia. }
  split; [intros Hr; apply HS, Hr|]. split; cbn [g_images gtr]; [done|by eexists|exact E|].
  intros H h Hh. rewrite E by done. rewrite held_cons. unfold held, sumZ. cbn. case_decide as D; [|specialize (H h Hh); lia].
  destruct (decide (r = VK_SUCCESS)) as [Hr|Hr]; [|rewrite HF in D by done; congruence].
  destruct (HS Hr) as [_ Hb]. rewrite <- D, Hb. lia.
Qed.

Lemma create_blocks_spec l w :
  wp (create_blocks K l) (fun r w' => moved (fun h => held h r.2) w w' /\
    (r.1 = VK_SUCCESS -> length r.2 = length l /\ Forall (fun h => h <> VK_NULL_HANDLE) r.2)) w.
Proof.
  revert w. induction l as [|c l IH]; intros w; cbn [create_blocks].
  { apply wp_ret. split; [apply moved_id|]. split; [done|apply Forall_nil_2]. }
  apply wp_bind. eapply wp_mono; [apply create_part_spec|]. intros [r h0] w1 [Hr M1]. cbn [fst snd] in *.
  destruct (Z.eqb_spec r VK_SUCCESS) as [E|E]; cbn [negb]; [|apply wp_ret; cbn [fst snd]; split; [exact M1|done]].
  apply wp_bind. eapply wp_mono; [apply IH|]. intros [r' hs] w2 [M2 H2]. apply wp_ret. cbn [fst snd] in *. split.
  - eapply moved_ext; [exact (moved_trans _ _ _ _ _ M1 M2)|]. intros h _. cbv beta. by rewrite <- held_app.
  - intros E'. destruct (H2 E') as [Hl Hf]. split; [cbn; lia|]. constructor; auto.
Qed.

Lemma destroy_images_spec l w : wp (destroy_images l) (fun _ => moved (fun h => - held h l) w) w.
Proof.
  revert w. induction l as [|h0 l IH]; intros w; cbn [destroy_images]; [apply wp_ret, moved_id|]. apply wp_bind.
  eapply wp_mono with (Q := fun _ w' => moved (fun h => if decide (h0 = VK_NULL_HANDLE) then 0 else - held h [h0]) w w').
  { destruct (Z.eqb_spec h0 VK_NULL_HANDLE) as [E|E]; cbn [negb].
    - apply wp_ret. destruct (decide (h0 = VK_NULL_HANDLE)); [|done]. apply moved_id.
    - unfold wp. destruct (decide (h0 = VK_NULL_HANDLE)); [done|]. by apply moved_destroy. }
  intros ? w1 M1. eapply wp_mono; [apply IH|]. intros ? w2 M2.
  eapply moved_ext; [exact (moved_trans _ _ _ _ _ M1 M2)|]. intros h Hh. cbv beta. rewrite (held_cons h h0 l).
  destruct (decide (h0 = VK_NULL_HANDLE)) as [->|].
  - rewrite decide_False by congruence. lia.
  - rewrite (held_cons h h0 []). unfold held at 1, sumZ. cbn. lia.
Qed.

Lemma destroy_parts_spec image block w :
  wp (destroy_parts image block true) (fun _ => moved (fun h => - held h (image :: block)) w) w.
Proof.
  unfold destroy_parts. apply wp_bind. eapply wp_mono; [apply destroy_images_spec|]. intros ? w1 M1.
  eapply wp_mono; [apply destroy_images_spec|]. intros ? w2 M2. eapply moved_ext; [exact (moved_trans _ _ _ _ _ M1 M2)|].
  intros h _. cbv beta. rewrite (held_cons h image block), held_cons. unfold held at 2, sumZ. cbn. lia.
Qed.

Lemma any_dedicated_world f l w : (any_dedicated f l w).2 = w.
Proof.
  revert w. induction l as [|h l IH]; intros w; [done|]. cbn [any_dedicated]. rewrite bind_run. cbn [gask fst snd].
  by destruct (f (gtr w) h).
Qed.

(** An operation that leaves the ICD images as they were keeps the table. *)
Lemma ginv_moved w w' : ginv K w -> moved (fun _ => 0) w w' -> ginv K w'.
Proof.
  intros [B O I] [Mi Mt Mb Mo]. split.
  - intros h Hh. rewrite Mb, B, Mi by done. lia.
  - by apply Mo.
  - intros k ai Hk. rewrite Mi in Hk. by eapply image_ok_prefix; [|apply I].
Qed.
Lemma build_cis_inv p ci c : 0 <= c_mips ci -> build_cis p ci = Some c ->
  1 <= c_mips ci <= MAX_MIPS /\ length (cis_block c) = Z.to_nat (c_mips ci).
Proof.
  intros H0. unfold build_cis. destruct (efmt_get (c_format ci)) as [e|]; [|done]. cbn [mbind option_bind].
  destruct (_ || _) eqn:C; [done|]. bool_props. destruct (scan_chain _ _ _ _ _) as [[[lst plain] tw]|]; [|done].
  intros [= <-]. cbn [cis_block]. rewrite length_fmap, length_seq. split; [unfold MAX_MIPS in *; lia|done].
Qed.

(** The parts of a failed creation are destroyed: nothing is left. *)
Lemma undo_spec image block r w0 w :
  ginv K w0 -> moved (fun h => held h (image :: block)) w0 w ->
  wp (_ ← destroy_parts image block true; mret (Some (r, VK_NULL_HANDLE)) : M gworld (option (Z * Z))) (fun _ => ginv K) w.
Proof.
  intros I M1. apply wp_bind. eapply wp_mono; [apply destroy_parts_spec|]. intros ? w' M2. apply wp_ret.
  eapply ginv_moved; [exact I|]. eapply moved_ext; [exact (moved_trans _ _ _ _ _ M1 M2)|]. intros h _. cbv beta. lia.
Qed.

Lemma record_ginv w0 w ai :
  ginv K w0 -> moved (fun h => held h (parts_of ai)) w0 w -> image_ok K (gtr w) (ai_image ai) ai ->
  ginv K (mk_gw (<[ai_image ai := ai]> (g_images w)) (gtr w)).
Proof.
  intros [B O I] [Mi Mt Mb Mo] Hok. assert (Hn : ai_image ai <> VK_NULL_HANDLE).
  { pose proof (io_parts _ _ _ _ Hok) as F. by apply Forall_cons in F as [? _]. }
  assert (Hnew : g_images w0 !! ai_image ai = None).
  { destruct (g_images w0 !! ai_image ai) as [old|] eqn:E; [exfalso|done]. pose proof (Mo O _ Hn) as Ho. rewrite Mb, B in Ho by done.
    pose proof (held_in (ai_image ai) (parts_of ai)) as H1. specialize (H1 ltac:(unfold parts_of; set_solver)).
    pose proof (recorded_ge (ai_image ai) _ _ _ E) as H2. pose proof (held_in (ai_image ai) (parts_of old)) as H3. destruct (I _ _ E) as [Hk _ _ _ _].
    specialize (H3 ltac:(unfold parts_of; rewrite Hk; set_solver)). lia. }
  split; cbn [g_images gtr].
  - intros h Hh. rewrite Mb, B, Mi by done. unfold recorded. rewrite total_insert_new by done. lia.
  - by apply Mo.
  - intros k x [[<- <-]|[Hne Hk]]%lookup_insert_Some; [done|]. rewrite Mi in Hk. by eapply image_ok_prefix; [|apply I].
Qed.

Lemma create_ginv pd dev ci w : 0 <= c_mips ci -> ginv K w -> wp (nvhal_astc_CreateImage K pd dev ci) (fun _ => ginv K) w.
Proof.
  intros H0 I. unfold nvhal_astc_CreateImage. destruct (efmt_get (c_format ci)) as [e|] eqn:Ee; [|by apply wp_ret].
  case_match; [by apply wp_ret|]. destruct (if dev : bool then pd else None) as [p|]; [|by apply wp_ret].
  destruct (bool_decide _); cbn [negb]; [|by apply wp_ret].
  destruct (build_cis p ci) as [c|] eqn:Ec; [|by apply wp_ret]. destruct (build_cis_inv p ci c H0 Ec) as [Hm Hl].
  apply wp_bind. unfold gask at 1. unfold wp at 1. cbn [fst snd]. destruct (gi_calloc K (gtr w)); cbn [negb]; [|by apply wp_ret].
  apply wp_bind. eapply wp_mono; [apply create_part_spec|]. intros [r image] w1 [Hi M1]. cbn [fst snd] in *.
  apply wp_bind. eapply wp_mono with (Q := fun rb w2 => moved (fun h => held h (image :: rb.2)) w w2 /\
    (rb.1 = VK_SUCCESS -> image <> VK_NULL_HANDLE /\ length rb.2 = Z.to_nat (c_mips ci) /\ Forall (fun h => h <> VK_NULL_HANDLE) rb.2)).
  { destruct (Z.eqb_spec r VK_SUCCESS) as [E|E]; [|by apply wp_ret].
    eapply wp_mono; [apply create_blocks_spec|]. intros [r2 block] w2 [M2 H2]. cbn [fst snd] in *. split.
    - eapply moved_ext; [exact (moved_trans _ _ _ _ _ M1 M2)|]. intros h _. cbv beta. by rewrite <- held_app.
    - intros E2. destruct (H2 E2) as [-> ?]. auto. }
  intros [r2 block] w2 [M2 H2]. cbn [fst snd] in *. destruct (Z.eqb_spec r2 VK_SUCCESS) as [E2|E2]; cbn [negb]; [|by eapply undo_spec].
  destruct (H2 E2) as (Hn & Hlen & Hblk). apply wp_bind. unfold gask at 1. unfold wp at 1. cbn [fst snd].
  set (parts := gi_reqs K (gtr w2) <$> image :: block). apply wp_bind.
  eapply wp_mono with (Q := fun _ w' => w' = w2).
  { destruct (gi_dedicated K) as [f|]; [|by apply wp_ret]. unfold wp. apply any_dedicated_world. }
  intros ded w2' ->. set (sparse := has_any (c_flags ci) SPARSE_BINDING).
  pose proof (combine_spec parts sparse) as C. destruct (combine parts sparse) as [[fits offs] req].
  destruct (ded || negb fits) eqn:Ed; [by eapply undo_spec|]. bool_props.
  apply wp_bind. unfold gask at 1. unfold wp at 1. cbn [fst snd]. destruct (gi_hash_put K (gtr w2)); cbn [negb]; [|by eapply undo_spec].
  unfold wp. rewrite !bind_run, ret_run. cbn [getS put_astc modS fst snd].
  set (ai := mk_astc _ _ _ _ _ _ _ _ _ _ _ _ _). apply (record_ginv w w2 ai I M2). split; try done.
  - constructor; done.
  - exists (gtr w2). split; [done|]. cbv zeta. change (gi_reqs K (gtr w2) <$> parts_of ai) with parts. split; [done|]. apply C; [| |done].
    + unfold parts. apply Forall_fmap, Forall_forall. intros. apply gl_reqs.
    + unfold parts. rewrite length_fmap. cbn [length]. unfold MAX_MIPS in Hm. lia.
Qed.

Lemma destroy_ginv image w : ginv K w -> wp (nvhal_astc_DestroyImage image) (fun _ => ginv K) w.
Proof.
  intros I. unfold wp, nvhal_astc_DestroyImage. rewrite bind_run. cbn [getS fst snd]. unfold lookup_image.
  destruct (image =? VK_NULL_HANDLE); [done|]. destruct (g_images w !! image) as [ai|] eqn:E; [|done].
  rewrite !bind_run, ret_run. cbn [put_astc modS fst snd]. set (w1 := mk_gw _ _).
  destruct (destroy_parts_spec (ai_image ai) (ai_block ai) w1) as [Mi Mt Mb Mo]. destruct I as [B O I]. split.
  - intros h Hh. rewrite Mb, Mi by done. cbn [w1 gtr g_images]. rewrite B by done. unfold recorded. rewrite (total_delete _ _ _ _ E).
    change (parts_of ai) with (ai_image ai :: ai_block ai). lia.
  - apply Mo, O.
  - intros k x Hk. rewrite Mi in Hk. cbn [w1 g_images] in Hk. apply lookup_delete_Some in Hk as [_ Hk].
    eapply image_ok_prefix; [exact Mt|]. by apply I.
Qed.

Lemma bind_all_spec l w : wp (bind_all K l) (fun r w' => moved (fun _ => 0) w w') w.
Proof.
  revert w. induction l as [|b l IH]; intros w; cbn [bind_all]; [apply wp_ret, moved_id|].
  apply wp_bind. unfold gask at 1. unfold wp at 1. cbn [fst snd]. apply wp_bind. unfold wp at 1.
  destruct (_ =? _); [|apply moved_called]. eapply wp_mono; [apply IH|]. intros ? w' M.
  exact (moved_trans _ _ _ _ _ (moved_called _ _ _) M).
Qed.

(** ** Histories and binds *)

Inductive gstep : gworld -> gworld -> Prop :=
  | step_create pd dev ci w : 0 <= c_mips ci -> gstep w (nvhal_astc_CreateImage K pd dev ci w).2
  | step_destroy image w : gstep w (nvhal_astc_DestroyImage image w).2
  | step_bind image mem offset w : gstep w (nvhal_astc_bind1 K image mem offset w).2.

Definition ginit : gworld := mk_gw ∅ [].

Lemma ginv_init : ginv K ginit.
Proof. split; intros; [|done|done]. cbn. unfold recorded. by rewrite total_empty. Qed.

Lemma gstep_ginv w w' : gstep w w' -> ginv K w -> ginv K w'.
Proof.
  intros [pd dev ci w0 Hc|image w0|image mem offset w0] I; [by apply create_ginv|by apply destroy_ginv|].
  unfold nvhal_astc_bind1. rewrite bind_run. cbn [getS fst snd]. destruct (lookup_image w0 image) as [ai|]; [|done].
  rewrite bind_run, ret_run. cbn [snd]. eapply ginv_moved; [exact I|]. apply bind_all_spec.
Qed.

Lemma reach_ginv w : rtc gstep ginit w -> ginv K w.
Proof.
  intros R. cut (forall w0, rtc gstep w0 w -> ginv K w0 -> ginv K w); [intros H; by eapply H, ginv_init|].
  clear R. induction 1 as [|w0 w1 w2 S _ IH]; [done|]. intros I. by eapply IH, gstep_ginv.
Qed.

Lemma lookup_ok w k ai : ginv K w -> lookup_image w k = Some ai -> g_images w !! k = Some ai /\ image_ok K (gtr w) k ai.
Proof. intros I. unfold lookup_image. destruct (k =? VK_NULL_HANDLE); [done|]. intros E. split; [done|by apply I]. Qed.

(** The binds of all parts of an image. *)
Definition part_binds (ai : astc_image) (mem o : Z) : list bind_info := mk_bind (ai_image ai) mem o :: block_binds ai mem o.

Lemma block_binds_offsets ai mem o stop :
  length (tail (ai_off ai)) = length (ai_block ai) -> 0 <= o -> o + stop < 2 ^ 64 ->
  Forall (fun x => 0 <= x <= stop) (tail (ai_off ai)) ->
  b_image <$> block_binds ai mem o = ai_block ai /\ b_offset <$> block_binds ai mem o = Z.add o <$> tail (ai_off ai) /\
  Forall (fun b => b_memory b = mem) (block_binds ai mem o).
Proof.
  intros Hl Ho Hs. unfold block_binds. revert Hl. generalize (ai_block ai) as hs, (tail (ai_off ai)) as os.
  induction hs as [|h hs IH]; intros [|x os] Hl F; try done. apply Forall_cons in F as [? F]. injection Hl as Hl.
  destruct (IH os Hl F) as (Ei & Eo & Em). cbn [zip_with fmap list_fmap].
  cbn [b_image b_offset]. rewrite u64_id by (unfold is_u64; lia). split_and!.
  - f_equal. apply Ei.
  - f_equal. apply Eo.
  - constructor; [done|exact Em].
Qed.

Lemma part_binds_laid w k ai mem o :
  image_ok K (gtr w) k ai -> 0 <= o -> o mod req_alignment (ai_req ai) = 0 -> o + req_size (ai_req ai) < 2 ^ 64 ->
  exists u, u `prefix_of` gtr w /\ let reqs := gi_reqs K u <$> parts_of ai in
    b_image <$> part_binds ai mem o = parts_of ai /\ Forall (fun b => b_memory b = mem) (part_binds ai mem o) /\
    laid o (b_offset <$> part_binds ai mem o) reqs (o + req_size (ai_req ai)) /\
    Forall (fun q => Z.land (req_memoryTypeBits q) (req_memoryTypeBits (ai_req ai)) = req_memoryTypeBits (ai_req ai)) reqs.
Proof.
  intros [_ _ _ _ (u & Hu & _ & Hh & HL & Hsz & Hp & Hr & _)] Ho Hm Hmax. exists u. split; [done|]. cbv zeta in *.
  set (reqs := gi_reqs K u <$> parts_of ai) in *.
  assert (Hok : Forall req_ok reqs) by (apply Forall_fmap, Forall_forall; intros; apply gl_reqs).
  pose proof (laid_length _ _ _ _ HL) as Hlen. destruct (ai_off ai) as [|o0 os] eqn:Eo; [done|]. injection Hh as ->.
  assert (F : Forall (fun x => 0 <= x <= req_size (ai_req ai)) os).
  { apply Forall_lookup. intros i x Hi. destruct (reqs !! S i) as [q|] eqn:Eq.
    - destruct (laid_lookup _ _ _ _ (S i) x q Hok HL Hi Eq). pose proof (proj1 (Forall_forall _ _) Hok q (list_elem_of_lookup_2 _ _ _ Eq)) as [? _]. lia.
    - apply lookup_ge_None in Eq. apply lookup_lt_Some in Hi. cbn in *. lia. }
  destruct (block_binds_offsets ai mem o (req_size (ai_req ai))) as (Bi & Bo & Bm); try (rewrite ?Eo; done).
  { rewrite Eo. cbn [tail]. subst reqs. rewrite length_fmap in Hlen. cbn in Hlen. lia. }
  rewrite Eo in Bo. cbn [tail] in Bo. unfold part_binds. cbn [fmap list_fmap b_image b_offset].
  change (list_fmap _ _ b_image) with (fmap (M := list) b_image). change (list_fmap _ _ b_offset) with (fmap (M := list) b_offset).
  rewrite Bi, Bo. split_and!; [done|by constructor| |eapply Forall_impl; [exact Hr|]; by intros ? [_ ?]].
  replace o with (o + 0) at 1 2 by lia. apply (laid_shift 0 (0 :: os)); [done| |done].
  eapply Forall_impl; [exact (proj2 (Forall_and _ _) (conj Hok Hr))|]. intros q [[_ Hq] [Hd _]]. apply alignment_pos in Hq, Hp.
  apply Z.mod_divide in Hd, Hm; [|lia|lia]. apply Z.mod_divide; [lia|]. by trans (req_alignment (ai_req ai)).
Qed.
End Laws.

(** ** The theorems *)

(** C31: after any history of creations, destructions and binds, and for every
    ICD, the ICD images outstanding are exactly the parts of the recorded
    images, each owned once; and binding a recorded image to an allocation
    that meets the reported requirements binds every part, in both bind calls,
    at an offset aligned for it, disjoint from the other parts and inside the
    reported size, in memory of a type every part allows. *)
Theorem astc_images_sound (K : gicd) `{!GicdLaws K} (w : gworld) :
  rtc (gstep K) ginit w ->
  (forall h, h <> VK_NULL_HANDLE -> balance KImage h (gtr w) = recorded h (g_images w) /\ recorded h (g_images w) <= 1) /\
  forall k ai mem o, lookup_image w k = Some ai ->
    0 <= o -> o mod req_alignment (ai_req ai) = 0 -> o + req_size (ai_req ai) < 2 ^ 64 ->
    exists u l, u `prefix_of` gtr w /\ b_image <$> l = parts_of ai /\ Forall (fun b => b_memory b = mem) l /\
      (let reqs := gi_reqs K u <$> parts_of ai in
       laid o (b_offset <$> l) reqs (o + req_size (ai_req ai)) /\
       Forall (fun q => Z.land (req_memoryTypeBits q) (req_memoryTypeBits (ai_req ai)) = req_memoryTypeBits (ai_req ai)) reqs) /\
      nvhal_astc_bind1 K k mem o w = (Some (bind_all K l w).1, (bind_all K l w).2) /\
      (gi_malloc K (gtr w) = true -> nvhal_astc_expand_binds K [mk_bind k mem o] w = (Some l, w)).
Proof.
  intros I%(reach_ginv K). split.
  { intros h Hh. rewrite <- (gv_bal K w I h Hh). split; [done|by apply I]. }
  intros k ai mem o Hk Ho Hm Hmax. destruct (lookup_ok K w k ai I Hk) as [_ Hok].
  destruct (part_binds_laid K w k ai mem o Hok Ho Hm Hmax) as (u & Hu & Hi & Hmem & L & Ht).
  exists u, (part_binds ai mem o). split_and!; try done.
  - unfold nvhal_astc_bind1. rewrite bind_run. cbn [getS fst snd]. rewrite Hk, bind_run, ret_run.
    destruct Hok as [Ekey _ _ _ (? & _ & _ & H0 & _)]. rewrite H0. cbn [default]. rewrite Z.add_0_r, u64_id.
    + unfold part_binds. by rewrite Ekey.
    + pose proof (laid_total _ _ _ _ (proj2 (Forall_fmap _ _ _) (proj2 (Forall_forall _ _) (fun h _ => gl_reqs u h))) L).
      unfold is_u64. lia.
  - intros Hma. unfold nvhal_astc_expand_binds. rewrite bind_run. cbn [getS fst snd].
    rewrite bool_decide_false.
    + rewrite bind_run, ret_run. cbn [gask fst snd]. rewrite Hma. cbn [fmap list_fmap b_image b_memory b_offset].
      rewrite Hk. cbn [mjoin list_join]. rewrite app_nil_r. unfold part_binds. by rewrite (io_key _ _ _ _ Hok).
    + intros F. apply Forall_cons in F as [F _]. cbn [b_image] in F. by rewrite Hk in F.
Qed.

(** ** Sparse binds *)

(** What a list of binds, executed in order, puts behind offset [x]: memory,
    offset in it, flags; [None]: as before.  The last bind that covers [x]
    decides, and a bind without memory unbinds. *)
Definition covers (x : Z) (m : sparse_bind) : bool := (sb_off m <=? x) && (x <? sb_off m + sb_size m).
Definition behind (x : Z) (m : sparse_bind) : Z * Z * Z :=
  (sb_mem m, if sb_mem m =? VK_NULL_HANDLE then 0 else sb_memoff m + (x - sb_off m), sb_flags m).
Definition backing (l : list sparse_bind) (x : Z) : option (Z * Z * Z) := behind x <$> last_with (covers x) l.

(** The binds to image [h]. *)
Definition ob_for (h : Z) (l : list opaque_bind) : list sparse_bind :=
  mjoin ((fun b => if decide (ob_image b = h) then ob_binds b else []) <$> l).
Definition opaques (l : list sparse_info) : list opaque_bind := mjoin (si_opaque <$> l).
Definition binds_of (l : list sparse_info) (h : Z) : list sparse_bind := ob_for h (opaques l).

(** A bind inside the 64-bit range, in the resource and in the memory. *)
Definition bind_ok (m : sparse_bind) : Prop :=
  0 <= sb_off m /\ 0 <= sb_size m /\ sb_off m + sb_size m < 2 ^ 64 /\ 0 <= sb_memoff m /\ sb_memoff m + sb_size m < 2 ^ 64.
Definition bind_aligned (a : Z) (m : sparse_bind) : Prop := sb_off m mod a = 0 /\ sb_memoff m mod a = 0.
Definition bind_inside (size : Z) (m : sparse_bind) : Prop := 0 <= sb_off m /\ 0 < sb_size m /\ sb_off m + sb_size m <= size.

Lemma clip_spec ps size m x : 0 <= ps -> ps + size < 2 ^ 64 -> bind_ok m -> 0 <= x < size ->
  match clip ps (ps + size) m with
  | Some m' => covers x m' = covers (ps + x) m /\ (covers x m' = true -> behind x m' = behind (ps + x) m)
  | None => covers (ps + x) m = false
  end.
Proof.
  intros Hp Hs (H1 & H2 & H3 & H4 & H5) Hx. unfold clip. rewrite (u64_id (sb_off m + _)) by (unfold is_u64; lia).
  set (s0 := if ps <? _ then _ else _). set (e0 := if sb_off m + sb_size m <? _ then _ else _).
  assert (Es : s0 = Z.max ps (sb_off m)) by (subst s0; destruct (Z.ltb_spec ps (sb_off m)); lia).
  assert (Ee : e0 = Z.min (sb_off m + sb_size m) (ps + size)) by (subst e0; destruct (Z.ltb_spec (sb_off m + sb_size m) (ps + size)); lia).
  unfold covers. destruct (Z.leb_spec e0 s0).
  { apply andb_false_iff. rewrite Z.leb_gt, Z.ltb_ge. lia. }
  cbn [sb_off sb_size]. split; [apply eq_bool_prop_intro; rewrite !Is_true_true, !andb_true_iff, !Z.leb_le, !Z.ltb_lt; lia|].
  intros C. apply andb_true_iff in C as [C1%Z.leb_le C2%Z.ltb_lt]. unfold behind. cbn [sb_mem sb_memoff sb_off sb_flags].
  destruct (Z.eqb_spec (sb_mem m) VK_NULL_HANDLE); cbn [negb]; [done|]. rewrite u64_id by (unfold is_u64; lia). do 2 f_equal. lia.
Qed.

Lemma clip_shape ps size a m m' : 0 <= ps -> ps + size < 2 ^ 64 -> bind_ok m -> clip ps (ps + size) m = Some m' ->
  bind_inside size m' /\ (0 < a -> ps mod a = 0 -> bind_aligned a m -> bind_aligned a m').
Proof.
  intros Hp Hs (H1 & H2 & H3 & H4 & H5). unfold clip. rewrite (u64_id (sb_off m + _)) by (unfold is_u64; lia).
  set (s0 := if ps <? _ then _ else _). set (e0 := if sb_off m + sb_size m <? _ then _ else _).
  assert (Es : (s0 = ps \/ s0 = sb_off m) /\ ps <= s0 /\ sb_off m <= s0) by (subst s0; destruct (Z.ltb_spec ps (sb_off m)); lia).
  assert (Ee : e0 <= sb_off m + sb_size m /\ e0 <= ps + size) by (subst e0; destruct (Z.ltb_spec (sb_off m + sb_size m) (ps + size)); lia).
  destruct (Z.leb_spec e0 s0); [done|]. intros [= <-]. unfold bind_inside, bind_aligned. cbn [sb_off sb_size sb_memoff].
  split; [lia|]. intros Ha Hpa [Hoa Hma]. apply Z.mod_divide in Hpa, Hoa, Hma; try lia.
  assert (Hsa : (a | s0)) by (destruct Es as [[->| ->] _]; done).
  split; (apply Z.mod_divide; [lia|]); [by apply Z.divide_sub_r|].
  destruct (negb _); [|apply Z.divide_0_r]. rewrite u64_id by (unfold is_u64; lia). by apply Z.divide_add_r, Z.divide_sub_r.
Qed.

Lemma backing_clip ps size l x : 0 <= ps -> ps + size < 2 ^ 64 -> Forall bind_ok l -> 0 <= x < size ->
  backing (omap (clip ps (ps + size)) l) x = backing l (ps + x).
Proof.
  intros Hp Hs F Hx. unfold backing. induction l as [|m l IH] using rev_ind; [done|].
  apply Forall_app in F as [F Fm]. apply Forall_cons in Fm as [Fm _]. rewrite omap_app, last_with_snoc.
  pose proof (clip_spec ps size m x Hp Hs Fm Hx) as C. cbn [omap list_omap]. destruct (clip ps (ps + size) m) as [m'|].
  - destruct C as [C B]. rewrite last_with_snoc, C in *. destruct (covers (ps + x) m); [cbn; by rewrite B|by apply IH].
  - rewrite C, app_nil_r. by apply IH.
Qed.

(** ** Where the binds of an image go *)

Lemma ob_for_app h l k : ob_for h (l ++ k) = ob_for h l ++ ob_for h k.
Proof. unfold ob_for. by rewrite fmap_app, join_app. Qed.
Lemma ob_for_cons h b l : ob_for h (b :: l) = (if decide (ob_image b = h) then ob_binds b else []) ++ ob_for h l.
Proof. reflexivity. Qed.

Lemma ob_for_imap h (f : nat -> list sparse_bind) l :
  (forall i, l !! i = Some h -> NoDup l -> ob_for h (imap (fun i h => mk_ob h (f i)) l) = f i) /\
  (h ∉ l -> ob_for h (imap (fun i h => mk_ob h (f i)) l) = []).
Proof.
  revert f. induction l as [|p l IH]; intros f; [done|]. destruct (IH (fun i => f (S i))) as [IH1 IH2].
  rewrite imap_cons, ob_for_cons. cbn [ob_image ob_binds]. split.
  - intros [|i] Hi Hn; cbn in Hi; apply NoDup_cons in Hn as [Hp Hn].
    + injection Hi as ->. rewrite decide_True by done. unfold compose. rewrite IH2 by done. apply app_nil_r.
    + rewrite decide_False; [by apply IH1|]. intros ->. apply Hp. by eapply list_elem_of_lookup_2.
  - intros Hp. rewrite decide_False by set_solver. apply IH2. set_solver.
Qed.

Lemma split_bind_eq ai binds :
  split_bind ai binds = imap (fun j h => mk_ob h (omap (clip (part_range ai j).1 (part_range ai j).2) binds)) (parts_of ai).
Proof. apply imap_ext. intros j h _. by destruct (part_range ai j). Qed.

Section Sparse.
Context (K : gicd) `{!GicdLaws K} (w : gworld) (I : ginv K w).

Lemma part_nonnull k ai h : g_images w !! k = Some ai -> h ∈ parts_of ai -> h <> VK_NULL_HANDLE.
Proof. intros Hk Hh. pose proof (io_parts _ _ _ _ (gv_image _ _ I k ai Hk)) as F. by apply (proj1 (Forall_forall _ _) F). Qed.

Lemma recorded_one h : h <> VK_NULL_HANDLE -> recorded h (g_images w) <= 1.
Proof. intros Hh. rewrite <- (gv_bal _ _ I h Hh). by apply I. Qed.

Lemma parts_nodup k ai : g_images w !! k = Some ai -> NoDup (parts_of ai).
Proof.
  intros Hk. apply held_nodup. intros h Hh. pose proof (recorded_one h (part_nonnull k ai h Hk Hh)) as H1.
  pose proof (recorded_ge h _ k ai Hk). lia.
Qed.

Lemma parts_disjoint k ai k' ai' h :
  g_images w !! k = Some ai -> g_images w !! k' = Some ai' -> h ∈ parts_of ai -> h ∈ parts_of ai' -> k = k'.
Proof.
  intros Hk Hk' Hh Hh'. destruct (decide (k = k')) as [|Hne]; [done|exfalso].
  pose proof (recorded_one h (part_nonnull k ai h Hk Hh)) as H1.
  pose proof (total_ge2 (fun _ ai' => held h (parts_of ai')) _ k ai k' ai' (fun _ x => held_nonneg _ _) Hk Hk' Hne) as H2.
  cbv beta in H2. apply held_in in Hh, Hh'. unfold recorded in H1. lia.
Qed.

Lemma lookup_image_eq k : lookup_image w k = g_images w !! k.
Proof.
  unfold lookup_image. destruct (Z.eqb_spec k VK_NULL_HANDLE) as [->|]; [|done].
  destruct (g_images w !! VK_NULL_HANDLE) as [ai|] eqn:E; [exfalso|done].
  apply (part_nonnull _ ai VK_NULL_HANDLE E); [|done]. rewrite <- (io_key _ _ _ _ (gv_image _ _ I _ _ E)) at 1. unfold parts_of. set_solver.
Qed.

(** The application names no block image: it never saw their handles. *)
Definition app_handle (h : Z) : Prop := forall k ai, g_images w !! k = Some ai -> h ∉ ai_block ai.

Lemma part_of_app k ai h : g_images w !! k = Some ai -> h ∈ parts_of ai -> app_handle h -> h = k.
Proof.
  intros Hk Hh Ha. apply elem_of_cons in Hh as [->|Hh]; [|by destruct (Ha k ai Hk)].
  by apply (io_key _ _ _ _ (gv_image _ _ I _ _ Hk)).
Qed.

Lemma expand_part k ai i h b :
  g_images w !! k = Some ai -> parts_of ai !! i = Some h -> app_handle (ob_image b) ->
  ob_for h (expand_opaque w b) =
  omap (clip (part_range ai i).1 (part_range ai i).2) (if decide (ob_image b = k) then ob_binds b else []).
Proof.
  intros Hk Hi Ha. assert (Hh : h ∈ parts_of ai) by (by eapply list_elem_of_lookup_2). unfold expand_opaque.
  rewrite lookup_image_eq. destruct (g_images w !! ob_image b) as [ai'|] eqn:E.
  - rewrite split_bind_eq. set (f := fun j => omap (clip (part_range ai' j).1 (part_range ai' j).2) (ob_binds b)). case_decide as D.
    + rewrite D, Hk in E. injection E as <-. destruct (ob_for_imap h f (parts_of ai)) as [O _].
      exact (O i Hi (parts_nodup k ai Hk)).
    + destruct (ob_for_imap h f (parts_of ai')) as [_ O]. apply O. intros Hh'. apply D. by rewrite (parts_disjoint _ _ _ _ _ Hk E Hh Hh').
  - rewrite ob_for_cons. cbn [ob_for fmap list_fmap mjoin list_join]. rewrite app_nil_r.
    rewrite decide_False; [|intros <-; rewrite (part_of_app k ai _ Hk Hh Ha) in E; by rewrite Hk in E].
    rewrite decide_False; [done|]. intros Eb. by rewrite Eb, Hk in E.
Qed.

Lemma expand_other h b : (forall k ai, g_images w !! k = Some ai -> h ∉ parts_of ai) ->
  ob_for h (expand_opaque w b) = if decide (ob_image b = h) then ob_binds b else [].
Proof.
  intros Hn. unfold expand_opaque. rewrite lookup_image_eq. destruct (g_images w !! ob_image b) as [ai|] eqn:E.
  - rewrite split_bind_eq. set (f := fun j => omap (clip (part_range ai j).1 (part_range ai j).2) (ob_binds b)). destruct (ob_for_imap h f (parts_of ai)) as [_ O].
    rewrite decide_False; [by eapply O, Hn|]. intros <-. apply (Hn _ _ E). unfold parts_of. rewrite (io_key _ _ _ _ (gv_image _ _ I _ _ E)). set_solver.
  - rewrite ob_for_cons. apply app_nil_r.
Qed.

(** One info with its opaque binds split; its residency binds go as they are. *)
Definition expanded (i : sparse_info) : sparse_info := mk_si (mjoin (expand_opaque w <$> si_opaque i)) (si_residency i).

Lemma expand_infos_run l w0 : (expand_infos K w l w0).2 = w0 /\
  match (expand_infos K w l w0).1 with Some l' => l' = expanded <$> l | None => gi_malloc K (gtr w0) = false end.
Proof.
  revert w0. induction l as [|i l IH]; intros w0; cbn [expand_infos]; [done|].
  rewrite bind_run. set (m := (if existsb _ _ then _ else _) : M gworld bool).
  assert (Em : (m w0).2 = w0 /\ ((m w0).1 = false -> gi_malloc K (gtr w0) = false)) by (subst m; by destruct (existsb _ _)).
  destruct Em as [Em Ef]. rewrite Em. destruct (m w0).1; cbn [negb]; [|split; [done|by apply Ef]].
  rewrite bind_run, ret_run. destruct (IH w0) as [-> IH2]. cbn [fst snd]. split; [done|].
  destruct (expand_infos K w l w0).1 as [l2|]; [cbn; by rewrite IH2|exact IH2].
Qed.

Definition no_emulated_opaque (i : sparse_info) : Prop := Forall (fun b => lookup_image w (ob_image b) = None) (si_opaque i).
Lemma no_opaque_test i : existsb (fun b => is_emulated w (ob_image b)) (si_opaque i) = false <-> no_emulated_opaque i.
Proof.
  unfold no_emulated_opaque. rewrite Forall_forall. split.
  - intros E b Hb. destruct (lookup_image w (ob_image b)) as [ai|] eqn:Eb; [|done].
    assert (existsb (fun b => is_emulated w (ob_image b)) (si_opaque i) = true) as X; [|by rewrite X in E].
    apply existsb_exists. exists b. split; [by apply list_elem_of_In|]. unfold is_emulated. rewrite Eb. by apply bool_decide_true.
  - intros H. apply not_true_iff_false. intros (b & Hb & Hx)%existsb_exists. unfold is_emulated in Hx. apply bool_decide_eq_true in Hx.
    rewrite (H b) in Hx by by apply list_elem_of_In. by destruct Hx.
Qed.

(** A residency bind of an emulated image in the infos up to the first with an
    opaque bind of an emulated image. *)
Definition residency_refused (l : list sparse_info) : Prop :=
  exists before i after h, l = before ++ i :: after /\ Forall no_emulated_opaque before /\
    h ∈ si_residency i /\ is_Some (lookup_image w h).

Lemma scan_spec l : match sparse_scan w l with
  | inl r => r = VK_ERROR_FORMAT_NOT_SUPPORTED /\ residency_refused l
  | inr any => ~ residency_refused l /\ (any = false -> Forall no_emulated_opaque l)
  end.
Proof.
  induction l as [|i l IH]; cbn [sparse_scan].
  { split; [by intros ([] & ? & ? & ? & ? & _)|intros _; apply Forall_nil_2]. }
  destruct (existsb (is_emulated w) (si_residency i)) eqn:Er.
  { split; [done|]. apply existsb_exists in Er as (h & Hh & He). exists [], i, l, h. split_and!; [done|apply Forall_nil_2|by apply list_elem_of_In|].
    by apply bool_decide_eq_true in He. }
  assert (Hi : forall h, h ∈ si_residency i -> ~ is_Some (lookup_image w h)).
  { intros h Hh He. apply not_true_iff_false in Er. apply Er, existsb_exists. exists h. split; [by apply list_elem_of_In|by apply bool_decide_eq_true]. }
  destruct (existsb (fun b => is_emulated w (ob_image b)) (si_opaque i)) eqn:Eo.
  - split; [|done]. intros (before & j & after & h & E & F & Hh & He). destruct before as [|i' before]; injection E as -> ->; [by apply (Hi h)|].
    apply Forall_cons in F as [F _]. apply no_opaque_test in F. by rewrite F in Eo.
  - apply no_opaque_test in Eo. destruct (sparse_scan w l) as [e|any].
    + destruct IH as [-> (before & j & after & h & -> & F & H)]. split; [done|]. exists (i :: before), j, after, h. split; [done|]. split; [by constructor|done].
    + destruct IH as [IH1 IH2]. split; [|intros E; constructor; auto]. intros (before & j & after & h & E & F & Hh & He).
      destruct before as [|i' before]; injection E as -> ->; [by apply (Hi h)|]. apply Forall_cons in F as [_ F]. apply IH1.
      by exists before, j, after, h.
Qed.

Lemma expanded_same i : no_emulated_opaque i -> expanded i = i.
Proof.
  unfold no_emulated_opaque, expanded. destruct i as [op rs]. cbn [si_opaque si_residency]. intros F. f_equal.
  induction F as [|b l Hb F IH]; [done|]. cbn [fmap list_fmap mjoin list_join]. unfold expand_opaque at 1. rewrite Hb. cbn. by f_equal.
Qed.

(** The answer to a submission. *)
Lemma bind_sparse_run l : match (nvhal_astc_bind_sparse K l w).1 with
  | inl e => e = VK_ERROR_FORMAT_NOT_SUPPORTED /\ residency_refused l \/ e = VK_ERROR_OUT_OF_HOST_MEMORY /\ gi_malloc K (gtr w) = false
  | inr l' => ~ residency_refused l /\ l' = expanded <$> l
  end.
Proof.
  unfold nvhal_astc_bind_sparse. rewrite bind_run. cbn [getS fst snd]. pose proof (scan_spec l) as S.
  destruct (sparse_scan w l) as [e|[|]] eqn:E; [by left| |].
  - rewrite bind_run. cbn [gask fst snd]. destruct (gi_malloc K (gtr w)) eqn:Em; cbn [negb]; [|by right]. rewrite bind_run, ret_run. cbn [fst].
    destruct (expand_infos_run l w) as [_ R]. destruct (expand_infos K w l w).1 as [l2|]; [by destruct S|by right; rewrite Em in R].
  - destruct S as [S1 S2]. split; [done|]. specialize (S2 eq_refl). symmetry. clear -S2.
    induction S2 as [|i l Hi F IH]; [done|]. cbn [fmap list_fmap]. by rewrite IH, (expanded_same i Hi).
Qed.
Lemma opaques_expanded l : opaques (expanded <$> l) = mjoin (expand_opaque w <$> opaques l).
Proof.
  induction l as [|i l IH]; [done|]. unfold opaques in *. cbn [fmap list_fmap mjoin list_join]. rewrite fmap_app, join_app. by f_equal.
Qed.

(** The binds of one part, and those of an image that is not emulated. *)
Lemma part_binds_of k ai i h l : g_images w !! k = Some ai -> parts_of ai !! i = Some h ->
  Forall (fun b => app_handle (ob_image b)) l ->
  ob_for h (mjoin (expand_opaque w <$> l)) = omap (clip (part_range ai i).1 (part_range ai i).2) (ob_for k l).
Proof.
  intros Hk Hi F. induction l as [|b l IH]; [done|]. apply Forall_cons in F as [Fb F].
  cbn [fmap list_fmap mjoin list_join]. rewrite ob_for_app, ob_for_cons, omap_app, (expand_part k ai i h b Hk Hi Fb). f_equal. by apply IH.
Qed.
Lemma other_binds_of h l : (forall k ai, g_images w !! k = Some ai -> h ∉ parts_of ai) ->
  ob_for h (mjoin (expand_opaque w <$> l)) = ob_for h l.
Proof.
  intros Hn. induction l as [|b l IH]; [done|]. cbn [fmap list_fmap mjoin list_join].
  rewrite ob_for_app, ob_for_cons, (expand_other h b Hn). f_equal. by apply IH.
Qed.

Lemma part_bounds k ai i h : g_images w !! k = Some ai -> parts_of ai !! i = Some h ->
  exists off size, ai_off ai !! i = Some off /\ ai_size ai !! i = Some size /\ 0 <= off /\ 0 <= size /\ off + size < 2 ^ 64 /\
    part_range ai i = (off, off + size) /\ (ai_sparse ai = true -> off mod req_alignment (ai_req ai) = 0).
Proof.
  intros Hk Hi. destruct (gv_image _ _ I k ai Hk) as [_ _ _ _ (u & _ & Es & _ & L & Hsz & _ & _ & Hsp)]. cbv zeta in *.
  set (reqs := gi_reqs K u <$> parts_of ai) in *.
  assert (Hok : Forall req_ok reqs) by (apply Forall_fmap, Forall_forall; intros; apply gl_reqs).
  assert (Hq : reqs !! i = Some (gi_reqs K u h)) by (unfold reqs; by rewrite list_lookup_fmap, Hi).
  destruct (lookup_lt_is_Some_2 (ai_off ai) i) as [off Ho]; [rewrite (laid_length _ _ _ _ L); by eapply lookup_lt_Some|].
  destruct (laid_lookup _ _ _ _ i off _ Hok L Ho Hq) as [H0 H1]. pose proof (gl_reqs u h) as [H2 _].
  exists off, (req_size (gi_reqs K u h)). assert (Hs : ai_size ai !! i = Some (req_size (gi_reqs K u h))) by (by rewrite Es, list_lookup_fmap, Hq).
  split_and!; try done; try lia.
  - unfold part_range. rewrite Ho, Hs. cbn [default from_option id]. rewrite u64_id; [done|]. unfold is_u64. lia.
  - intros Hsp'. destruct (Hsp Hsp') as [_ F]. by eapply (proj1 (Forall_lookup _ _) F).
Qed.
(** Each part gets what the opaque binds of [l] put behind its bytes of the
    image, by binds inside it; images that are not emulated get theirs as they are. *)
Definition sparse_refines (l l' : list sparse_info) : Prop :=
  (forall k ai i h, g_images w !! k = Some ai -> parts_of ai !! i = Some h ->
     exists off size, ai_off ai !! i = Some off /\ ai_size ai !! i = Some size /\
       (forall x, 0 <= x < size -> backing (binds_of l' h) x = backing (binds_of l k) (off + x)) /\
       Forall (bind_inside size) (binds_of l' h) /\
       (ai_sparse ai = true -> Forall (bind_aligned (req_alignment (ai_req ai))) (binds_of l k) ->
        Forall (bind_aligned (req_alignment (ai_req ai))) (binds_of l' h))) /\
  (forall h, recorded h (g_images w) = 0 -> binds_of l' h = binds_of l h).

Definition opaque_ok (b : opaque_bind) : Prop := app_handle (ob_image b) /\ Forall bind_ok (ob_binds b).

Lemma expanded_refines l l' : Forall opaque_ok (opaques l) -> opaques l' = mjoin (expand_opaque w <$> opaques l) -> sparse_refines l l'.
Proof.
  intros F R. apply Forall_and in F as [Fh Fb]. unfold sparse_refines, binds_of. rewrite R. split.
  - intros k ai i h Hk Hi. destruct (part_bounds k ai i h Hk Hi) as (off & size & Ho & Hs & H0 & H1 & H2 & Er & Ha).
    exists off, size. rewrite (part_binds_of k ai i h _ Hk Hi Fh), Er. cbn [fst snd].
    assert (Fk : Forall bind_ok (ob_for k (opaques l))).
    { clear -Fb. induction (opaques l) as [|b m IH]; [apply Forall_nil_2|]. apply Forall_cons in Fb as [? ?]. rewrite ob_for_cons.
      apply Forall_app. split; [case_decide; [done|apply Forall_nil_2]|by apply IH]. }
    set (a := req_alignment (ai_req ai)) in *.
    assert (Hpos : 0 < a).
    { destruct (gv_image _ _ I k ai Hk) as [_ _ _ _ (u & _ & _ & _ & _ & _ & Hp & _)]. apply (alignment_pos _ Hp). }
    split_and!; [done|done| | |].
    + intros x Hx. by apply backing_clip.
    + apply Forall_forall. intros m' (m & Hm & Hc)%list_elem_of_omap.
      by apply (clip_shape off size a m m' H0 H2 (proj1 (Forall_forall _ _) Fk m Hm) Hc).
    + intros Hsp Hal. apply Forall_forall. intros m' (m & Hm & Hc)%list_elem_of_omap.
      eapply (clip_shape off size a m m' H0 H2 (proj1 (Forall_forall _ _) Fk m Hm) Hc); [done|by apply Ha|].
      by apply (proj1 (Forall_forall _ _) Hal).
  - intros h Hr. apply other_binds_of. intros k ai Hk Hh. apply held_in in Hh.
    pose proof (recorded_ge h _ k ai Hk). lia.
Qed.
End Sparse.

(** C33: the opaque sparse binds of an emulated image reach its parts exactly.
    For every history and every submission whose opaque binds name images of
    the application and stay inside 64 bits, it is refused with
    VK_ERROR_FORMAT_NOT_SUPPORTED if and only if an emulated image has a
    residency bind in an info up to the first info with an opaque bind of an
    emulated image; otherwise it is accepted unless memory runs out.  Accepted,
    info by info and as a whole, each byte of each part is backed by what the
    application's opaque binds put at that byte of the image (last bind wins,
    unbinds included); the binds sent lie inside the part, and aligned binds of
    a sparse image stay aligned; images that are not emulated get their opaque
    binds unchanged.  Residency binds are passed on as they are (those of
    emulated images that are not refused too: [residency_bind_slips]). *)
Theorem astc_sparse_refines (K : gicd) `{!GicdLaws K} (w : gworld) (l : list sparse_info) :
  rtc (gstep K) ginit w -> Forall (opaque_ok w) (opaques l) ->
  match (nvhal_astc_bind_sparse K l w).1 with
  | inl e => e = VK_ERROR_FORMAT_NOT_SUPPORTED /\ residency_refused w l \/ e = VK_ERROR_OUT_OF_HOST_MEMORY /\ gi_malloc K (gtr w) = false
  | inr l' => ~ residency_refused w l /\ sparse_refines w l l' /\
      Forall2 (fun i i' => si_residency i' = si_residency i /\ sparse_refines w [i] [i']) l l'
  end.
Proof.
  intros I%(reach_ginv K) F. pose proof (bind_sparse_run K w l) as R. destruct (nvhal_astc_bind_sparse K l w).1 as [e|l']; [done|].
  destruct R as [R ->]. split; [done|]. split; [by apply (expanded_refines K w I), opaques_expanded|].
  apply Forall2_fmap_r, Forall_Forall2_diag, Forall_forall. intros i Hi. split; [done|].
  apply (expanded_refines K w I); [|exact (opaques_expanded w [i])]. unfold opaques in *. cbn. rewrite app_nil_r.
  apply Forall_forall. intros b Hb. apply (proj1 (Forall_forall _ _) F). apply list_elem_of_join. exists (si_opaque i).
  split; [done|]. by apply list_elem_of_fmap_2.
Qed.

(** ** Witnesses *)

(** An ICD that gives every image a new handle, one page and 1 KiB alignment. *)
Definition ev_handle (e : event) : Z := match e with Created _ _ h | Destroyed _ h | Moved _ h => h | Called _ _ => 0 end.
Definition next_handle (t : trace) : Z := 1 + foldr (fun e m => Z.max (ev_handle e) m) 0 t.
Lemma next_unused k t h : next_handle t <= h -> balance k h t = 0.
Proof.
  unfold next_handle. induction t as [|e t IH]; intros H; [done|]. cbn [foldr] in H. change (e :: t) with ([e] ++ t).
  rewrite balance_app, IH by lia. assert (ev_delta k h e = 0) as E; [|unfold balance, sumZ; cbn [fmap list_fmap foldr]; lia].
  destruct e as [k' ok h'|k' h'|k' h'|]; cbn in *; try done; case_decide as D; try done;
    [destruct D as (_ & -> & _)|destruct D as (_ & ->)|destruct D as (_ & ->)]; lia.
Qed.
Lemma next_pos t : 0 < next_handle t.
Proof. unfold next_handle. assert (0 <= foldr (fun e m => Z.max (ev_handle e) m) 0 t); [|lia]. induction t; cbn; lia. Qed.

Definition demo_icd : gicd :=
  mk_gicd (fun t _ => (VK_SUCCESS, next_handle t)) (fun _ h => mk_reqs 4000 1024 3) (Some (fun _ _ => false)) (fun _ => true) (fun _ => true)
    (fun _ _ _ _ => VK_SUCCESS) (fun _ => true).
#[export] Instance demo_laws : GicdLaws demo_icd.
Proof.
  split; cbn [gi_create gi_reqs demo_icd fst snd].
  - done.
  - intros t _ _. split; [pose proof (next_pos t); unfold VK_NULL_HANDLE; lia|by apply next_unused].
  - intros _ _. split; [unfold MAX_SIZE; cbn; lia|]. exists 10. cbn. lia.
Qed.

(** ETC2 RGBA8, 10x6 texels, two mip levels, sparse. *)
Definition demo_pd : astc_pd := mk_pd EMULATE EMULATE 7 0x11d [7].
Definition demo_ci : image_ci := mk_image_ci 151 VK_IMAGE_TYPE_2D VK_IMAGE_TILING_OPTIMAL 1 7 SPARSE_BINDING 10 6 1 2 1 [IFormatList [151; 152]].
Definition demo_world : gworld := (nvhal_astc_CreateImage demo_icd (Some demo_pd) true demo_ci ginit).2.
Lemma demo_reached : rtc (gstep demo_icd) ginit demo_world.
Proof. apply rtc_once. by constructor. Qed.

Definition demo_image : astc_image :=
  mk_astc 1 151 (mk_efmt FAM_ETC2 4 4 16 2 false VK_FORMAT_R8G8B8A8_UNORM VK_FORMAT_R8G8B8A8_UINT VK_FORMAT_R32G32B32A32_UINT)
    10 6 2 1 7 [2; 3] [0; 4096; 8192] [4000; 4000; 4000] true (mk_reqs 12288 1024 3).
Lemma demo_recorded : g_images demo_world !! 1 = Some demo_image.
Proof. vm_compute. reflexivity. Qed.

Lemma astc_images_sound_witness :
  balance KImage 3 (gtr demo_world) = 1 /\
  nvhal_astc_expand_binds demo_icd [mk_bind 1 77 2048] demo_world = (Some [mk_bind 1 77 2048; mk_bind 2 77 6144; mk_bind 3 77 10240], demo_world) /\
  laid 2048 [2048; 6144; 10240] (replicate 3 (mk_reqs 4000 1024 3)) 14336.
Proof.
  destruct (astc_images_sound demo_icd demo_world demo_reached) as [B S]. split; [rewrite (proj1 (B 3 ltac:(done))); vm_compute; reflexivity|].
  destruct (S 1 demo_image 77 2048) as (u & l & _ & _ & _ & [L _] & _ & E); [vm_compute; reflexivity|lia|reflexivity|cbn; lia|].
  specialize (E eq_refl). assert (Hl : l = [mk_bind 1 77 2048; mk_bind 2 77 6144; mk_bind 3 77 10240]).
  { vm_compute in E. by injection E. }
  subst l. split; [exact E|]. exact L.
Defined.

(** Two binds, the second of which crosses from the decoded image into the
    block image of level 0. *)
Definition demo_submit : list sparse_info :=
  [mk_si [mk_ob 1 [mk_sb 0 2048 9 1024 0; mk_sb 2048 6144 8 0 0]; mk_ob 40 [mk_sb 0 4096 9 8192 0]] [40]].
Definition demo_sent : list sparse_info :=
  [mk_si [mk_ob 1 [mk_sb 0 2048 9 1024 0; mk_sb 2048 1952 8 0 0]; mk_ob 2 [mk_sb 0 4000 8 2048 0]; mk_ob 3 [];
          mk_ob 40 [mk_sb 0 4096 9 8192 0]] [40]].

Lemma demo_only k ai : g_images demo_world !! k = Some ai -> k = 1 /\ ai = demo_image.
Proof.
  assert (g_images demo_world = {[1 := demo_image]}) as -> by (vm_compute; reflexivity). by intros [<- <-]%lookup_singleton_Some.
Qed.
Lemma demo_app h : h <> 2 -> h <> 3 -> app_handle demo_world h.
Proof. intros H2 H3 k ai [_ ->]%demo_only. cbn. set_solver. Qed.
Lemma demo_app_handles : Forall (opaque_ok demo_world) (opaques demo_submit).
Proof. repeat constructor; try (apply demo_app; done); unfold bind_ok; cbn; lia. Qed.

Lemma astc_sparse_refines_witness :
  (nvhal_astc_bind_sparse demo_icd demo_submit demo_world).1 = inr demo_sent /\
  backing (binds_of demo_sent 2) 100 = Some (8, 2148, 0) /\ binds_of demo_sent 40 = binds_of demo_submit 40.
Proof.
  assert (R : (nvhal_astc_bind_sparse demo_icd demo_submit demo_world).1 = inr demo_sent) by (vm_compute; reflexivity).
  pose proof (astc_sparse_refines demo_icd demo_world demo_submit demo_reached demo_app_handles) as S. rewrite R in S. destruct S as (_ & [P O] & _).
  split; [exact R|]. split; [|apply O; vm_compute; reflexivity].
  destruct (P 1 demo_image 1%nat 2 demo_recorded eq_refl) as (off & size & [= <-] & [= <-] & B & _). rewrite B by lia. vm_compute. reflexivity.
Defined.

(** ** A residency bind that is not refused *)

(** The scan for residency binds ends at the first info with an emulated
    opaque bind: a later info's residency bind of an emulated image is sent to
    the ICD, alone it is refused. *)
Lemma residency_bind_slips :
  let opaque := mk_si [mk_ob 1 []] [] in
  let residency := mk_si [] [1] in
  (nvhal_astc_bind_sparse demo_icd [residency] demo_world).1 = inl VK_ERROR_FORMAT_NOT_SUPPORTED /\
  exists i, (nvhal_astc_bind_sparse demo_icd [opaque; residency] demo_world).1 = inr [i; residency].
Proof. split; [vm_compute; reflexivity|]. eexists. vm_compute. reflexivity. Qed.

End Astc.
