(* ===== verification/AstcCopy.v ===== *)
(** * Barriers and copies of emulated images ([hal/src/astc.c])

    The commands recorded for images of [Astc]: barriers are mirrored to the
    block images; a copy from a buffer becomes copies of blocks and decoder
    dispatches, a copy to a buffer reads the blocks.  The definitions of copies
    between images are here too, their theorem is in [AstcImageCopy].

    The commands are given a meaning: memory is buffers of bytes, block images
    and decoded texels.  The decoder, a shader, is a function from the bytes of
    a block to texels; its dispatches obey conditional rendering, copies do not.  The specification is a compressed image whose copies
    address blocks the way the Vulkan specification says; the recorded
    commands refine it, and the decoded texels stay those of the blocks. *)

From Stdlib Require Import ZArith Lia.
From stdpp Require Import base option sets strings gmap list.
From S2P Require Import Prelude Vulkan Astc.

Set Default Goal Selector "!".
#[local] Open Scope Z_scope.

Module AstcCopy.
Import Vk Astc.

(** ** Barriers *)

Record barrier := mk_bar { br_image : Z; br_base : Z; br_levels : Z; br_rest : Z }.

(** First level and count. *)
Definition range_mips (ai : astc_image) (base levels : Z) : Z * Z :=
  if ai_mips ai <=? base then (0, 0)
  else
  let n := if levels =? VK_REMAINING then ai_mips ai - base else levels in
  (base, if ai_mips ai - base <? n then ai_mips ai - base else n).

Definition mirror (w : gworld) (b : barrier) : list barrier :=
  match lookup_image w (br_image b) with
  | None => []
  | Some ai =>
      let '(first, n) := range_mips ai (br_base b) (br_levels b) in
      (fun h => mk_bar h 0 1 (br_rest b)) <$> take (Z.to_nat n) (drop (Z.to_nat first) (ai_block ai))
  end.

(** The barriers of the application and those of the block images. *)
Definition nvhal_astc_barriers (K : gicd) (l : list barrier) : M gworld (list barrier) :=
  w ← getS;
  if bool_decide (mjoin (mirror w <$> l) = []) then mret l
  else ok ← gask (gi_malloc K); mret (if ok : bool then l ++ mjoin (mirror w <$> l) else l).

(** ** Copy commands *)

(** VkBufferImageCopy, of a 2D color image. *)
Record region := mk_region {
  rg_offset : Z; rg_row : Z; rg_height : Z; rg_mip : Z; rg_base : Z; rg_count : Z; rg_x : Z; rg_y : Z; rg_w : Z; rg_h : Z;
}.

Definition region_blocks (ai : astc_image) (r : region) : region :=
  let e := ai_e ai in
  mk_region (rg_offset r) (div_up (rg_row r) (bw e)) (div_up (rg_height r) (bh e)) 0 (rg_base r) (rg_count r)
    (Z.quot (rg_x r) (bw e)) (Z.quot (rg_y r) (bh e)) (div_up (rg_w r) (bw e)) (div_up (rg_h r) (bh e)).

Definition layers_of (ai : astc_image) (base count : Z) : Z :=
  if negb (count =? VK_REMAINING) then count
  else if base <? ai_layers ai then ai_layers ai - base else 0.

(** VkImageCopy, of 2D color images. *)
Record image_copy := mk_icopy {
  ic_smip : Z; ic_sbase : Z; ic_scount : Z; ic_sx : Z; ic_sy : Z;
  ic_dmip : Z; ic_dbase : Z; ic_dcount : Z; ic_dx : Z; ic_dy : Z; ic_w : Z; ic_h : Z;
}.

Record decode_job := mk_job {
  j_ai : astc_image; j_mip : Z; j_base : Z; j_count : Z; j_x : Z; j_y : Z; j_w : Z; j_h : Z;
}.

(** Push constants and work groups of a decoder dispatch. *)
Record dispatch := mk_dispatch { d_sx : Z; d_sy : Z; d_ex : Z; d_ey : Z; d_gx : Z; d_gy : Z; d_gz : Z }.

Inductive cmd :=
  | CmdCopyBufferToImage (buf img : Z) (r : region)
  | CmdCopyImageToBuffer (img buf : Z) (r : region)
  | CmdCopyImage (src dst : Z) (r : image_copy)                (** of images that hold blocks or plain texels *)
  | CmdCopyTexels (src dst : Z) (rs : list image_copy)         (** of decoded images *)
  | CmdDecode (conditional : bool) (j : decode_job) (d : dispatch)  (** [conditional]: logged as inside conditional rendering *)
  | CmdRestore.

Definition record_decode (conditional : bool) (j : decode_job) : cmd :=
  let e := ai_e (j_ai j) in
  CmdDecode conditional j
    match fam e with
    | FAM_ASTC => mk_dispatch (u32 (j_x j) / bw e) (u32 (j_y j) / bh e) (u32 (u32 (j_x j) + j_w j)) (u32 (u32 (j_y j) + j_h j))
                    (div_up (div_up (j_w j) (bw e)) 2) (div_up (div_up (j_h j) (bh e)) 2) (j_count j)
    | FAM_ETC2 => mk_dispatch (j_x j) (j_y j) (j_x j + i32 (j_w j)) (j_y j + i32 (j_h j)) (div_up (j_w j) 8) (div_up (j_h j) 8) (j_count j)
    end.

(** [family]: the queue family of the command buffer; [conditional]: it is
    inside conditional rendering as far as the shadow knows
    ([nvhal_cs_conditional]), which is logged: the dispatches are recorded all
    the same, under the application's predicate; [ready j]: the decoder's
    pipeline, views and descriptor set for the job exist; [space]: there is
    memory for the jobs beyond eight. *)
Definition decode_jobs (p : astc_pd) (family : option Z) (conditional : bool) (ready : decode_job -> bool) (space : bool) (jobs : list decode_job) : list cmd :=
  if bool_decide (length jobs = 0%nat) then []
  else match family ≫= (fun f => if 0 <=? f then p_qflags p !! Z.to_nat f else None) with
  | None => []
  | Some flags =>
      if negb (has_any flags QUEUE_COMPUTE) then []
      else if (8 <? Z.of_nat (length jobs)) && negb space then []
      else
      let todo := filter (fun j => ready j = true /\ j_w j <> 0 /\ j_h j <> 0 /\ j_count j <> 0) jobs in
      (record_decode conditional <$> todo) ++ (if bool_decide (length todo = 0%nat) then [] else [CmdRestore])
  end.

Definition mip_ok (ai : astc_image) (mip : Z) : bool := mip <? ai_mips ai.
Definition block_of (ai : astc_image) (mip : Z) : Z := default VK_NULL_HANDLE (ai_block ai !! Z.to_nat mip).

Definition upload_job (ai : astc_image) (r : region) : decode_job :=
  mk_job ai (rg_mip r) (rg_base r) (layers_of ai (rg_base r) (rg_count r)) (rg_x r) (rg_y r) (rg_w r) (rg_h r).

(** The commands recorded for the application's copy; [None]: not ours. *)
Definition nvhal_astc_cmd_copy_buffer_to_image (K : gicd) (p : astc_pd) (family : option Z) (conditional : bool) (ready : decode_job -> bool)
  (src dst : Z) (rs : list region) : M gworld (option (list cmd)) :=
  w ← getS;
  match lookup_image w dst with
  | None => mret None
  | Some ai =>
      ok ← (if (length rs <=? 8)%nat then mret true else gask (gi_malloc K));
      if negb ok then mret (Some [])
      else
      let rs := filter (fun r => mip_ok ai (rg_mip r) = true) rs in
      space ← gask (gi_malloc K);
      mret (Some (((fun r => CmdCopyBufferToImage src (block_of ai (rg_mip r)) (region_blocks ai r)) <$> rs)
                  ++ decode_jobs p family conditional ready space (upload_job ai <$> rs)))
  end.

Definition nvhal_astc_cmd_copy_image_to_buffer (src dst : Z) (rs : list region) : M gworld (option (list cmd)) :=
  w ← getS;
  match lookup_image w src with
  | None => mret None
  | Some ai =>
      mret (Some ((fun r => CmdCopyImageToBuffer (block_of ai (rg_mip r)) dst (region_blocks ai r))
                  <$> filter (fun r => mip_ok ai (rg_mip r) = true) rs))
  end.

(** The block images and the region in blocks; the extent is the source's. *)
Definition copy_blocks (sa da : option astc_image) (src dst : Z) (r : image_copy) : cmd :=
  let b := match sa with
           | Some a => mk_icopy 0 (ic_sbase r) (ic_scount r) (Z.quot (ic_sx r) (bw (ai_e a))) (Z.quot (ic_sy r) (bh (ai_e a)))
                         (ic_dmip r) (ic_dbase r) (ic_dcount r) (ic_dx r) (ic_dy r)
                         (div_up (ic_w r) (bw (ai_e a))) (div_up (ic_h r) (bh (ai_e a)))
           | None => r
           end in
  let b := match da with
           | Some a => mk_icopy (ic_smip b) (ic_sbase b) (ic_scount b) (ic_sx b) (ic_sy b)
                         0 (ic_dbase b) (ic_dcount b) (Z.quot (ic_dx r) (bw (ai_e a))) (Z.quot (ic_dy r) (bh (ai_e a))) (ic_w b) (ic_h b)
           | None => b
           end in
  CmdCopyImage (match sa with Some a => block_of a (ic_smip r) | None => src end)
    (match da with Some a => block_of a (ic_dmip r) | None => dst end) b.

(** One axis of the destination's texels the copied blocks cover. *)
Definition covered (sb : option Z) (db extent start edge : Z) : Z :=
  let w := match sb with Some b => u32 (div_up extent b * db) | None => u32 (extent * db) end in
  if edge <? u32 (start + w) then (if start <? edge then edge - start else 0) else w.

Definition copy_job (sa : option astc_image) (da : astc_image) (r : image_copy) : decode_job :=
  let e := ai_e da in
  let x := u32 (ic_dx r) in
  let y := u32 (ic_dy r) in
  let sb f := (fun a => f (ai_e a)) <$> sa in
  mk_job da (ic_dmip r) (ic_dbase r) (layers_of da (ic_dbase r) (ic_dcount r)) (i32 x) (i32 y)
    (covered (sb bw) (bw e) (ic_w r) x (mip_dim (ai_width da) (ic_dmip r))) (covered (sb bh) (bh e) (ic_h r) y (mip_dim (ai_height da) (ic_dmip r))).

Definition mips_both (sa da : option astc_image) (r : image_copy) : bool :=
  (match sa with Some a => mip_ok a (ic_smip r) | None => true end) && (match da with Some a => mip_ok a (ic_dmip r) | None => true end).

Definition nvhal_astc_cmd_copy_image (K : gicd) (p : astc_pd) (family : option Z) (conditional : bool) (ready : decode_job -> bool)
  (src dst : Z) (rs : list image_copy) : M gworld (option (list cmd)) :=
  w ← getS;
  let sa := lookup_image w src in
  let da := lookup_image w dst in
  if bool_decide (sa = None) && bool_decide (da = None) then mret None
  else
  let texels := match sa, da with Some s, Some d => cls (ai_e s) =? cls (ai_e d) | _, _ => false end in
  let decode := bool_decide (is_Some da) && negb texels in
  ok ← (if decode && (8 <? Z.of_nat (length rs)) then gask (gi_malloc K) else mret true);
  if negb ok then mret (Some [])
  else
  let rs' := filter (fun r => mips_both sa da r = true) rs in
  space ← gask (gi_malloc K);
  mret (Some ((if texels then [CmdCopyTexels src dst rs] else []) ++ (copy_blocks sa da src dst <$> rs')
              ++ match da with
                 | Some d => if texels then [] else decode_jobs p family conditional ready space (copy_job sa d <$> rs')
                 | None => []
                 end)).

(** The *2 commands: same work; [plain]: no pNext structure on the command or
    a region. *)
Definition with_plain_regions (K : gicd) (images : list Z) (plain : bool) (n : nat) (body : M gworld (option (list cmd))) :
  M gworld (option (list cmd)) :=
  w ← getS;
  if forallb (fun h => bool_decide (lookup_image w h = None)) images then mret None
  else if negb plain then mret (Some [])
  else
  ok ← (if (n <=? 8)%nat then mret true else gask (gi_malloc K));
  if negb ok then mret (Some []) else body.
Definition nvhal_astc_cmd_copy_buffer_to_image2 (K : gicd) p family conditional ready (src dst : Z) (plain : bool) (rs : list region) :=
  with_plain_regions K [dst] plain (length rs) (nvhal_astc_cmd_copy_buffer_to_image K p family conditional ready src dst rs).
Definition nvhal_astc_cmd_copy_image_to_buffer2 (K : gicd) (src dst : Z) (plain : bool) (rs : list region) :=
  with_plain_regions K [src] plain (length rs) (nvhal_astc_cmd_copy_image_to_buffer src dst rs).
Definition nvhal_astc_cmd_copy_image2 (K : gicd) p family conditional ready (src dst : Z) (plain : bool) (rs : list image_copy) :=
  with_plain_regions K [src; dst] plain (length rs) (nvhal_astc_cmd_copy_image K p family conditional ready src dst rs).

(** ** The meaning of the commands *)

(** Bytes of buffers, bytes of the texels of block images and of images that
    are not emulated (image, mip level, layer, x, y, byte), texels of decoded
    images (image, mip level, layer, x, y). *)
Record store := mk_store {
  s_buf : Z * Z -> Z;
  s_blk : Z * Z * Z * Z * Z * Z -> Z;
  s_tex : Z * Z * Z * Z * Z -> Z;
}.

(** A rectangle of blocks and its place in a buffer: rows and layers apart. *)
Record rect := mk_rect { q_off : Z; q_row : Z; q_height : Z; q_base : Z; q_layers : Z; q_x : Z; q_y : Z; q_w : Z; q_h : Z }.

Definition in_rect (q : rect) (l x y : Z) : bool :=
  (q_base q <=? l) && (l <? q_base q + q_layers q) && (q_x q <=? x) && (x <? q_x q + q_w q) && (q_y q <=? y) && (y <? q_y q + q_h q).
Definition blk_addr (size : Z) (q : rect) (l x y i : Z) : Z :=
  q_off q + (((l - q_base q) * q_height q + (y - q_y q)) * q_row q + (x - q_x q)) * size + i.

(** The blocks of a rectangle, byte by byte, in order. *)
Definition cells (size : Z) (q : rect) : list (Z * Z * Z * Z) :=
  l ← seqZ (q_base q) (q_layers q); y ← seqZ (q_y q) (q_h q); x ← seqZ (q_x q) (q_w q); i ← seqZ 0 size; [(l, x, y, i)].
Definition cell_addr (size : Z) (q : rect) (c : Z * Z * Z * Z) : Z := let '(l, x, y, i) := c in blk_addr size q l x y i.

(** The copy of a region of an uncompressed image with [layers] layers: zero
    row length and image height stand for the region's. *)
Definition icd_rect (layers : Z) (r : region) : rect :=
  mk_rect (rg_offset r) (if rg_row r =? 0 then rg_w r else rg_row r) (if rg_height r =? 0 then rg_h r else rg_height r)
    (rg_base r) (if rg_count r =? VK_REMAINING then layers - rg_base r else rg_count r) (rg_x r) (rg_y r) (rg_w r) (rg_h r).

(** The copy of a region of a compressed image: in units of blocks, rounded
    up. *)
Definition ceil (a b : Z) : Z := (a + b - 1) / b.
Definition compressed_rect (e : efmt) (layers : Z) (r : region) : rect :=
  mk_rect (rg_offset r) (ceil (if rg_row r =? 0 then rg_w r else rg_row r) (bw e))
    (ceil (if rg_height r =? 0 then rg_h r else rg_height r) (bh e))
    (rg_base r) (if rg_count r =? VK_REMAINING then layers - rg_base r else rg_count r)
    (rg_x r / bw e) (rg_y r / bh e) (ceil (rg_w r) (bw e)) (ceil (rg_h r) (bh e)).

(** Bytes per texel of the block formats; bytes per block of the compressed
    formats (Vulkan's compatible-format table). *)
Definition texel_size (f : Z) : Z := if f =? VK_FORMAT_R32G32B32A32_UINT then 16 else 8.
Definition block_size (f : Z) : Z :=
  if (ASTC_FIRST <=? f) && (f <=? ASTC_LAST) then 16
  else if (f <=? 150) || ((153 <=? f) && (f <=? 154)) then 8 else 16.

(** The texel columns (rows) a dispatch decodes: the invocations from the
    start, up to the end. *)
Definition decoded_range (f : family) (b start fin groups x : Z) : bool :=
  match f with
  | FAM_ASTC => (start * b <=? x) && (x <? fin) && (x <? (start + 2 * groups) * b)
  | FAM_ETC2 => (start <=? x) && (x <? fin) && (x <? start + 8 * groups)
  end.
Definition decodes (j : decode_job) (d : dispatch) (mip l x y : Z) : bool :=
  let e := ai_e (j_ai j) in
  (mip =? j_mip j) && (j_base j <=? l) && (l <? j_base j + d_gz d)
  && decoded_range (fam e) (bw e) (d_sx d) (d_ex d) (d_gx d) x && decoded_range (fam e) (bh e) (d_sy d) (d_ey d) (d_gy d) y.

(** The destination of a copy between images. *)
Definition in_dst (nlayers : Z) (r : image_copy) (l x y : Z) : bool :=
  let n := if ic_scount r =? VK_REMAINING then nlayers - ic_sbase r else ic_scount r in
  (ic_dbase r <=? l) && (l <? ic_dbase r + n) && (ic_dx r <=? x) && (x <? ic_dx r + ic_w r) && (ic_dy r <=? y) && (y <? ic_dy r + ic_h r).

Definition copy_texels (nlayers src dst : Z) (r : image_copy) (f : Z * Z * Z * Z * Z -> Z) : Z * Z * Z * Z * Z -> Z :=
  fun '(img, mip, l, x, y) =>
    if (img =? dst) && (mip =? ic_dmip r) && in_dst nlayers r l x y
    then f (src, ic_smip r, l - ic_dbase r + ic_sbase r, x - ic_dx r + ic_sx r, y - ic_dy r + ic_sy r)
    else f (img, mip, l, x, y).

Section Meaning.
(** The decoder: a texel of a block. *)
Context (dec : efmt -> list Z -> Z -> Z -> Z).
(** The texel size and the layers of the ICD's images. *)
Context (size : Z -> Z) (layers : Z -> Z).
(** Whether dispatches run where the commands are recorded: false under a false
    predicate of conditional rendering, begun in this command buffer or
    inherited.  Copies always run. *)
Context (pred : bool).

Definition block_bytes (n : Z) (s : store) (img l x y : Z) : list Z := (fun i => s_blk s (img, 0, l, x, y, i)) <$> seqZ 0 n.

Definition texel_of (ai : astc_image) (s : store) (mip l x y : Z) : Z :=
  let e := ai_e ai in
  dec e (block_bytes (size (block_of ai mip)) s (block_of ai mip) l (x / bw e) (y / bh e)) (x mod bw e) (y mod bh e).

Definition exec (c : cmd) (s : store) : store :=
  match c with
  | CmdCopyBufferToImage buf img r =>
      let q := icd_rect (layers img) r in
      mk_store (s_buf s)
        (fun '(img', mip, l, x, y, i) =>
           if (img' =? img) && (mip =? rg_mip r) && in_rect q l x y && (0 <=? i) && (i <? size img)
           then s_buf s (buf, blk_addr (size img) q l x y i)
           else s_blk s (img', mip, l, x, y, i))
        (s_tex s)
  | CmdCopyImageToBuffer img buf r =>
      let q := icd_rect (layers img) r in
      mk_store
        (fun '(buf', a) =>
           if buf' =? buf then
             match last_with (fun c => cell_addr (size img) q c =? a) (cells (size img) q) with
             | Some (l, x, y, i) => s_blk s (img, rg_mip r, l, x, y, i)
             | None => s_buf s (buf', a)
             end
           else s_buf s (buf', a))
        (s_blk s) (s_tex s)
  | CmdCopyImage src dst r =>
      mk_store (s_buf s)
        (fun '(img, mip, l, x, y, i) =>
           if (img =? dst) && (mip =? ic_dmip r) && in_dst (layers src) r l x y && (0 <=? i) && (i <? size src)
           then s_blk s (src, ic_smip r, l - ic_dbase r + ic_sbase r, x - ic_dx r + ic_sx r, y - ic_dy r + ic_sy r, i)
           else s_blk s (img, mip, l, x, y, i))
        (s_tex s)
  | CmdCopyTexels src dst rs =>
      mk_store (s_buf s) (s_blk s) (foldl (fun f r => copy_texels (layers src) src dst r f) (s_tex s) rs)
  | CmdDecode conditional j d =>
      if negb pred then s
      else
      mk_store (s_buf s) (s_blk s)
        (fun '(img, mip, l, x, y) =>
           if (img =? ai_image (j_ai j)) && decodes j d mip l x y then texel_of (j_ai j) s mip l x y
           else s_tex s (img, mip, l, x, y))
  | CmdRestore => s
  end.
Definition run (cmds : list cmd) (s : store) : store := foldl (fun s c => exec c s) s cmds.

End Meaning.

(** ** The specification: a compressed image *)

(** Blocks by mip level, layer, x, y, byte. *)
Definition content := Z * Z * Z * Z * Z -> Z.

Definition spec_upload (ai : astc_image) (buf : Z) (bytes : Z * Z -> Z) (r : region) (c : content) : content :=
  let q := compressed_rect (ai_e ai) (ai_layers ai) r in
  let n := block_size (ai_format ai) in
  fun '(mip, l, x, y, i) =>
    if (mip =? rg_mip r) && in_rect q l x y && (0 <=? i) && (i <? n) then bytes (buf, blk_addr n q l x y i) else c (mip, l, x, y, i).
Definition spec_uploads ai buf bytes (rs : list region) (c : content) : content := foldl (fun c r => spec_upload ai buf bytes r c) c rs.

Lemma spec_upload_ext ai buf bytes r (c c' : content) m l x y i : c (m, l, x, y, i) = c' (m, l, x, y, i) ->
  spec_upload ai buf bytes r c (m, l, x, y, i) = spec_upload ai buf bytes r c' (m, l, x, y, i).
Proof. intros E. unfold spec_upload. by case_match. Qed.

Definition spec_download (ai : astc_image) (buf : Z) (c : content) (bytes : Z * Z -> Z) (r : region) : Z * Z -> Z :=
  let q := compressed_rect (ai_e ai) (ai_layers ai) r in
  let n := block_size (ai_format ai) in
  fun '(buf', a) =>
    if buf' =? buf then
      match last_with (fun k => cell_addr n q k =? a) (cells n q) with
      | Some (l, x, y, i) => c (rg_mip r, l, x, y, i)
      | None => bytes (buf', a)
      end
    else bytes (buf', a).
Definition spec_downloads ai buf (c : content) (rs : list region) (bytes : Z * Z -> Z) : Z * Z -> Z :=
  foldl (spec_download ai buf c) bytes rs.

(** What the emulated image holds, as a compressed image. *)
Definition view (ai : astc_image) (s : store) : content := fun '(mip, l, x, y, i) => s_blk s (block_of ai mip, 0, l, x, y, i).

Definition mip_w (ai : astc_image) (m : Z) : Z := mip_dim (ai_width ai) m.
Definition mip_h (ai : astc_image) (m : Z) : Z := mip_dim (ai_height ai) m.

(** One axis of a region: on block boundaries, or up to the edge. *)
Definition axis_ok (b edge x w pitch : Z) : Prop :=
  0 <= x /\ x mod b = 0 /\ 0 < w /\ x + w <= edge /\ (w mod b = 0 \/ x + w = edge) /\ edge < 2 ^ 31 /\ 0 <= pitch /\ pitch + b <= 2 ^ 32.

(** The valid usage of a copy region (Vulkan specification). *)
Definition region_ok (ai : astc_image) (r : region) : Prop :=
  0 <= rg_mip r < ai_mips ai /\ 0 <= rg_base r < ai_layers ai /\ 0 < rg_count r /\
  axis_ok (bw (ai_e ai)) (mip_w ai (rg_mip r)) (rg_x r) (rg_w r) (rg_row r) /\
  axis_ok (bh (ai_e ai)) (mip_h ai (rg_mip r)) (rg_y r) (rg_h r) (rg_height r).

Lemma fmt_facts f e : efmt_get f = Some e ->
  texel_size (block_fmt e) = block_size f /\ 4 <= bw e <= 12 /\ 4 <= bh e <= 12 /\ (fam e = FAM_ETC2 -> bw e = 4 /\ bh e = 4).
Proof.
  intros H. assert (R : f ∈ seqZ 147 38).
  { apply elem_of_seqZ. unfold efmt_get, ASTC_FIRST, ASTC_LAST, ETC2_FIRST, ETC2_LAST in H.
    destruct ((157 <=? f) && (f <=? 184)) eqn:E1; [bool_props; lia|]. destruct ((147 <=? f) && (f <=? 156)) eqn:E2; [bool_props; lia|done]. }
  pose (P f e := texel_size (block_fmt e) = block_size f /\ 4 <= bw e <= 12 /\ 4 <= bh e <= 12 /\ (fam e = FAM_ETC2 -> bw e = 4 /\ bh e = 4)).
  assert (A : Forall (fun f => match efmt_get f with Some e => P f e | None => True end) (seqZ 147 38)).
  { subst P. vm_compute seqZ. repeat (constructor; [vm_compute; split_and!; (congruence || done)|]). constructor. }
  pose proof (proj1 (Forall_forall _ _) A f R) as Pf. cbv beta in Pf. rewrite H in Pf. exact Pf.
Qed.

Lemma div_up_ceil a b : 0 <= a -> 0 < b -> a + b <= 2 ^ 32 -> div_up a b = ceil a b.
Proof. intros. unfold div_up, ceil. rewrite u32_id; [done|]. unfold is_u32. lia. Qed.
Lemma ceil_pos a b : 0 < a -> 0 < b -> 0 < ceil a b.
Proof. intros. unfold ceil. apply Z.div_str_pos. lia. Qed.
Lemma ceil_bounds a b : 0 < b -> a <= ceil a b * b < a + b.
Proof. intros Hb. unfold ceil. replace (a + b - 1) with (a + (b - 1)) by lia. by apply align_up_bounds. Qed.

Lemma blocks_pitch b edge x w pitch : 4 <= b <= 12 -> axis_ok b edge x w pitch ->
  div_up pitch b = ceil pitch b /\ div_up w b = ceil w b /\ Z.quot x b = x / b /\
  (if ceil pitch b =? 0 then ceil w b else ceil pitch b) = ceil (if pitch =? 0 then w else pitch) b.
Proof.
  intros Hb (H1 & H2 & H3 & H4 & H5 & H6 & H7 & H8).
  split_and!; [apply div_up_ceil; lia|apply div_up_ceil; lia|apply Z.quot_div_nonneg; lia|].
  destruct (Z.eqb_spec pitch 0) as [->|Hp].
  - unfold ceil at 1. rewrite Z.div_small by lia. done.
  - pose proof (ceil_pos pitch b ltac:(lia) ltac:(lia)). by rewrite (proj2 (Z.eqb_neq _ 0)) by lia.
Qed.

(** The region of the block image is the application's region, in blocks. *)
Lemma region_blocks_rect ai n r : efmt_get (ai_format ai) = Some (ai_e ai) -> n = ai_layers ai -> region_ok ai r ->
  icd_rect n (region_blocks ai r) = compressed_rect (ai_e ai) (ai_layers ai) r.
Proof.
  intros He -> (_ & _ & _ & Hx & Hy). destruct (fmt_facts _ _ He) as (_ & Hw & Hh & _).
  destruct (blocks_pitch _ _ _ _ _ Hw Hx) as (E1 & E2 & E3 & E4), (blocks_pitch _ _ _ _ _ Hh Hy) as (F1 & F2 & F3 & F4).
  unfold icd_rect, compressed_rect, region_blocks. cbn [rg_offset rg_row rg_height rg_base rg_count rg_x rg_y rg_w rg_h].
  by rewrite E1, E2, E3, F1, F2, F3, E4, F4.
Qed.

(** A texel whose block is in the region's blocks is in the region. *)
Lemma texel_in_axis b edge x w pitch u : 4 <= b <= 12 -> axis_ok b edge x w pitch -> 0 <= u < edge ->
  (x / b <= u / b < x / b + ceil w b) -> x <= u < x + w.
Proof.
  intros Hb (H1 & H2 & H3 & H4 & H5 & _) Hu [L U]. apply Z.mod_divide in H2 as [k ->]; [|lia]. rewrite Z.div_mul in L, U by lia.
  pose proof (Z.mul_div_le u b ltac:(lia)). pose proof (Z.mul_succ_div_gt u b ltac:(lia)). split; [nia|].
  destruct H5 as [H5|H5]; [|lia]. apply Z.mod_divide in H5 as [c ->]; [|lia].
  assert (ceil (c * b) b = c) as E; [|rewrite E in U; nia]. unfold ceil.
  replace (c * b + b - 1) with ((b - 1) + c * b) by lia. rewrite Z.div_add, Z.div_small by lia. lia.
Qed.

(** The dispatch decodes the rectangle of the job, no more and no less. *)
Lemma axis_dispatch f b edge x w pitch u :
  4 <= b <= 12 -> (f = FAM_ETC2 -> b = 4) -> axis_ok b edge x w pitch ->
  match f with
  | FAM_ASTC => decoded_range f b (u32 x / b) (u32 (u32 x + w)) (div_up (div_up w b) 2) u
  | FAM_ETC2 => decoded_range f b x (x + i32 w) (div_up w 8) u
  end = (x <=? u) && (u <? x + w).
Proof.
  intros Hb Hf (H1 & H2 & H3 & H4 & H5 & H6 & _). destruct f; cbn [decoded_range].
  - rewrite (u32_id x), (u32_id (x + w)) by (unfold is_u32; lia). apply Z.mod_divide in H2 as [k ->]; [|lia]. rewrite Z.div_mul by lia.
    rewrite !div_up_ceil; try lia; [|rewrite div_up_ceil by lia; pose proof (ceil_bounds w b); nia|rewrite div_up_ceil by lia; pose proof (ceil_bounds w b); nia].
    pose proof (ceil_bounds w b ltac:(lia)). pose proof (ceil_bounds (ceil w b) 2 ltac:(lia)).
    destruct (Z.ltb_spec u (k * b + w)); [|by rewrite !andb_false_r].
    rewrite (proj2 (Z.ltb_lt u ((k + _) * b))) by nia. by rewrite !andb_true_r.
  - assert (i32 w = w) as ->.
    { unfold i32. rewrite u32_id by (unfold is_u32; lia). cbv zeta. by rewrite (proj2 (Z.ltb_lt w (2 ^ 31))) by lia. }
    rewrite div_up_ceil by lia. pose proof (ceil_bounds w 8 ltac:(lia)).
    destruct (Z.ltb_spec u (x + w)); [|by rewrite !andb_false_r]. rewrite (proj2 (Z.ltb_lt u (x + 8 * _))) by lia. by rewrite !andb_true_r.
Qed.

Section Refinement.
Context (dec : efmt -> list Z -> Z -> Z -> Z) (size layers : Z -> Z) (pred conditional : bool).
Context (K : gicd) `{!GicdLaws K} (w : gworld) (I : ginv K w) (k : Z) (ai : astc_image) (Hk : g_images w !! k = Some ai).

(** The ICD's block images have the texel size and the layers they were
    created with. *)
Definition icd_images : Prop :=
  forall m, 0 <= m < ai_mips ai -> size (block_of ai m) = texel_size (block_fmt (ai_e ai)) /\ layers (block_of ai m) = ai_layers ai.
Context (Himg : icd_images).

(** The decoded texels are those of the blocks. *)
Definition coherent (s : store) : Prop :=
  forall m l x y, 0 <= m < ai_mips ai -> 0 <= l < ai_layers ai -> 0 <= x < mip_w ai m -> 0 <= y < mip_h ai m ->
    s_tex s (ai_image ai, m, l, x, y) = texel_of dec size ai s m l x y.

Lemma ai_fmt : efmt_get (ai_format ai) = Some (ai_e ai).
Proof. by apply (gv_image _ _ I k ai Hk). Qed.

Lemma block_of_inj m m' : 0 <= m < ai_mips ai -> 0 <= m' < ai_mips ai -> block_of ai m = block_of ai m' -> m = m'.
Proof.
  intros Hm Hm' E. pose proof (parts_nodup K w I k ai Hk) as N. apply NoDup_cons in N as [_ N].
  destruct (gv_image _ _ I k ai Hk) as [_ _ [_ Hlen] _ _].
  assert (L : forall j, 0 <= j < ai_mips ai -> ai_block ai !! Z.to_nat j = Some (block_of ai j)).
  { intros j Hj. unfold block_of. destruct (lookup_lt_is_Some_2 (ai_block ai) (Z.to_nat j)) as [h ->]; [lia|done]. }
  pose proof (NoDup_lookup _ _ _ _ N (L m Hm) (eq_trans (L m' Hm') (f_equal Some (eq_sym E)))). lia.
Qed.

(** ** Copies into the image *)

Definition put_blocks (buf : Z) (r : region) : cmd := CmdCopyBufferToImage buf (block_of ai (rg_mip r)) (region_blocks ai r).
Abbreviation exec := (exec dec size layers pred).
Abbreviation run := (run dec size layers pred).

Lemma put_blocks_view buf r s m l x y i : region_ok ai r -> 0 <= m < ai_mips ai ->
  view ai (exec (put_blocks buf r) s) (m, l, x, y, i) = spec_upload ai buf (s_buf s) r (view ai s) (m, l, x, y, i).
Proof.
  intros Hr Hm. pose proof Hr as (Hmip & _). destruct (Himg _ Hmip) as [Es El]. destruct (fmt_facts _ _ ai_fmt) as [Ef _].
  unfold put_blocks, view, spec_upload. cbn [exec s_blk AstcCopy.exec]. rewrite Es, Ef, (region_blocks_rect ai _ r ai_fmt El Hr).
  cbn [region_blocks rg_mip]. rewrite Z.eqb_refl, andb_true_r.
  replace (block_of ai m =? block_of ai (rg_mip r)) with (m =? rg_mip r); [done|].
  destruct (Z.eqb_spec m (rg_mip r)) as [->|Hne]; [by rewrite Z.eqb_refl|]. symmetry. apply Z.eqb_neq. intros E.
  apply Hne. by apply block_of_inj.
Qed.

Lemma put_all rs buf s : Forall (region_ok ai) rs ->
  let s' := run (put_blocks buf <$> rs) s in
  s_buf s' = s_buf s /\ s_tex s' = s_tex s /\
  forall m l x y i, 0 <= m < ai_mips ai -> view ai s' (m, l, x, y, i) = spec_uploads ai buf (s_buf s) rs (view ai s) (m, l, x, y, i).
Proof.
  cbv zeta. induction rs as [|r rs IH] using rev_ind; [done|]. intros F. apply Forall_app in F as [F Fr]. apply Forall_cons in Fr as [Fr _].
  destruct (IH F) as (Eb & Et & Ev). rewrite fmap_app. unfold AstcCopy.run, spec_uploads in *. rewrite !foldl_app. cbn [fmap list_fmap foldl].
  split; [exact Eb|]. split; [exact Et|]. intros m l x y i Hm. rewrite put_blocks_view, Eb by done.
  apply spec_upload_ext. by apply Ev.
Qed.

(** ** Decoding *)

Definition touched (r : region) (m l x y : Z) : bool :=
  (m =? rg_mip r) && in_rect (compressed_rect (ai_e ai) (ai_layers ai) r) l (x / bw (ai_e ai)) (y / bh (ai_e ai)).

Lemma untouched rs buf bytes c m l x y i : Forall (fun r => touched r m l x y = false) rs ->
  spec_uploads ai buf bytes rs c (m, l, x / bw (ai_e ai), y / bh (ai_e ai), i) = c (m, l, x / bw (ai_e ai), y / bh (ai_e ai), i).
Proof.
  unfold spec_uploads. induction rs as [|r rs IH] using rev_ind; [done|]. intros F. apply Forall_app in F as [F Fr]. apply Forall_cons in Fr as [Fr _].
  rewrite foldl_app. cbn [foldl]. unfold spec_upload at 1. unfold touched in Fr. rewrite Fr. cbn [andb]. by apply IH.
Qed.

Lemma layers_of_count r : region_ok ai r -> layers_of ai (rg_base r) (rg_count r) = q_layers (compressed_rect (ai_e ai) (ai_layers ai) r)
  /\ 0 < layers_of ai (rg_base r) (rg_count r).
Proof.
  intros (_ & Hb & Hc & _). unfold layers_of. cbn [q_layers compressed_rect]. destruct (rg_count r =? VK_REMAINING); cbn [negb]; [|done].
  rewrite (proj2 (Z.ltb_lt (rg_base r) (ai_layers ai))) by lia. split; [done|lia].
Qed.

(** The texels a job decodes. *)
Definition in_region (r : region) (m l x y : Z) : bool :=
  (m =? rg_mip r) && (rg_base r <=? l) && (l <? rg_base r + layers_of ai (rg_base r) (rg_count r))
  && ((rg_x r <=? x) && (x <? rg_x r + rg_w r)) && ((rg_y r <=? y) && (y <? rg_y r + rg_h r)).

Lemma record_decode_exact r m l x y : region_ok ai r ->
  match record_decode conditional (upload_job ai r) with CmdDecode _ j d => decodes j d m l x y | _ => false end = in_region r m l x y.
Proof.
  intros (_ & _ & _ & Hx & Hy). destruct (fmt_facts _ _ ai_fmt) as (_ & Hw & Hh & Hf).
  pose proof (axis_dispatch (fam (ai_e ai)) _ _ _ _ _ x Hw (fun E => proj1 (Hf E)) Hx) as Ex.
  pose proof (axis_dispatch (fam (ai_e ai)) _ _ _ _ _ y Hh (fun E => proj2 (Hf E)) Hy) as Ey.
  unfold record_decode, upload_job, decodes, in_region. cbn [j_ai j_mip j_base j_count j_x j_y j_w j_h].
  destruct (fam (ai_e ai)); cbn [d_sx d_sy d_ex d_ey d_gx d_gy d_gz]; by rewrite Ex, Ey.
Qed.

Lemma touched_in_region r m l x y : region_ok ai r -> 0 <= x < mip_w ai m -> 0 <= y < mip_h ai m ->
  touched r m l x y = true -> in_region r m l x y = true.
Proof.
  intros Hr Hx Hy T. destruct (layers_of_count r Hr) as [El _]. destruct Hr as (_ & _ & _ & Ax & Ay).
  destruct (fmt_facts _ _ ai_fmt) as (_ & Hw & Hh & _). unfold touched, in_rect in T. unfold in_region. rewrite El.
  cbn [q_base q_layers q_x q_y q_w q_h compressed_rect] in *. bool_props. subst m.
  pose proof (texel_in_axis _ _ _ _ _ x Hw Ax Hx ltac:(lia)). pose proof (texel_in_axis _ _ _ _ _ y Hh Ay Hy ltac:(lia)).
  rewrite !andb_true_iff, !Z.leb_le, !Z.ltb_lt, Z.eqb_eq. lia.
Qed.

Lemma texel_of_ext s s' m l x y :
  (forall i, view ai s' (m, l, x / bw (ai_e ai), y / bh (ai_e ai), i) = view ai s (m, l, x / bw (ai_e ai), y / bh (ai_e ai), i)) ->
  texel_of dec size ai s' m l x y = texel_of dec size ai s m l x y.
Proof. intros E. unfold texel_of, block_bytes. f_equal. apply list_fmap_ext. intros j i _. apply E. Qed.

(** The dispatches run. *)
Context (Hpred : pred = true).

Lemma decode_all rs s : Forall (region_ok ai) rs ->
  let s' := run (record_decode conditional <$> (upload_job ai <$> rs)) s in
  s_buf s' = s_buf s /\ s_blk s' = s_blk s /\
  (forall m l x y, s_tex s' (ai_image ai, m, l, x, y) =
     if existsb (fun r => in_region r m l x y) rs then texel_of dec size ai s m l x y else s_tex s (ai_image ai, m, l, x, y)) /\
  forall h m l x y, h <> ai_image ai -> s_tex s' (h, m, l, x, y) = s_tex s (h, m, l, x, y).
Proof.
  cbv zeta. induction rs as [|r rs IH] using rev_ind; [done|]. intros F. apply Forall_app in F as [F Fr]. apply Forall_cons in Fr as [Fr _].
  destruct (IH F) as (Eb & Ek & Et & Eo). rewrite !fmap_app. unfold AstcCopy.run in *. rewrite foldl_app. cbn [fmap list_fmap foldl].
  set (s1 := foldl _ s _) in *. pose proof (record_decode_exact r) as Ed. destruct (record_decode conditional (upload_job ai r)) as [| | | |c j d|] eqn:E; try done.
  unfold record_decode in E. injection E as <- <- Ed'. clear Ed'. cbn [exec AstcCopy.exec]. rewrite Hpred. cbn [negb s_buf s_blk s_tex upload_job j_ai] in *.
  split; [done|]. split; [done|]. split; [|intros h m l x y Hh; rewrite (proj2 (Z.eqb_neq h _) Hh); by apply Eo].
  intros m l x y. rewrite existsb_app, Z.eqb_refl, (Ed m l x y Fr). cbn [andb existsb]. rewrite orb_false_r.
  destruct (in_region r m l x y); [rewrite orb_true_r|rewrite orb_false_r, Et; done].
  apply texel_of_ext. intros i. cbn [view]. by rewrite Ek.
Qed.

(** The decoder keeps the texels those of the blocks. *)
Lemma upload_coherent rs buf s : Forall (region_ok ai) rs -> coherent s ->
  coherent (run (record_decode conditional <$> (upload_job ai <$> rs)) (run (put_blocks buf <$> rs) s)).
Proof.
  intros F C m l x y Hm Hl Hx Hy. destruct (put_all rs buf s F) as (_ & Et & Ev). set (s1 := run (put_blocks buf <$> rs) s) in *.
  destruct (decode_all rs s1 F) as (_ & Ek & Ed & _). set (s2 := run _ s1) in *.
  assert (E2 : texel_of dec size ai s2 m l x y = texel_of dec size ai s1 m l x y) by (apply texel_of_ext; intros i; cbn [view]; by rewrite Ek).
  rewrite E2, Ed. destruct (existsb _ rs) eqn:Ex; [done|]. rewrite Et, (C m l x y Hm Hl Hx Hy). symmetry. apply texel_of_ext. intros i.
  rewrite Ev by done. apply untouched. apply Forall_forall. intros r Hr. destruct (touched r m l x y) eqn:T; [|done].
  apply (touched_in_region r) in T; [|by apply (proj1 (Forall_forall _ _) F)|done|done].
  assert (existsb (fun r => in_region r m l x y) rs = true) as X; [|by rewrite X in Ex].
  apply existsb_exists. exists r. split; [by apply list_elem_of_In|done].
Qed.

(** ** Copies out of the image *)

Definition get_blocks (buf : Z) (r : region) : cmd := CmdCopyImageToBuffer (block_of ai (rg_mip r)) buf (region_blocks ai r).

Lemma get_all rs buf s : Forall (region_ok ai) rs ->
  let s' := run (get_blocks buf <$> rs) s in
  s_blk s' = s_blk s /\ s_tex s' = s_tex s /\
  forall b a, s_buf s' (b, a) = spec_downloads ai buf (view ai s) rs (s_buf s) (b, a).
Proof.
  cbv zeta. induction rs as [|r rs IH] using rev_ind; [done|]. intros F. apply Forall_app in F as [F Fr]. apply Forall_cons in Fr as [Fr _].
  destruct (IH F) as (Eb & Et & Ev). rewrite fmap_app. unfold AstcCopy.run, spec_downloads in *. rewrite !foldl_app. cbn [fmap list_fmap foldl].
  set (s1 := foldl _ s _) in *. split; [exact Eb|]. split; [exact Et|]. intros b a. pose proof Fr as (Hmip & _).
  destruct (Himg _ Hmip) as [Es El]. destruct (fmt_facts _ _ ai_fmt) as [Ef _]. unfold get_blocks at 1.
  cbn [exec s_buf AstcCopy.exec]. rewrite Es, Ef, (region_blocks_rect ai _ r ai_fmt El Fr). unfold spec_download at 1.
  destruct (b =? buf); [|apply Ev]. destruct (last_with _ _) as [[[[l x] y] i]|]; [by cbn [view]; rewrite Eb|apply Ev].
Qed.
End Refinement.

(** ** The theorems *)

(** The copied blocks get decoded: the queue of the command buffer has compute,
    the decoder is ready, and no false predicate of conditional rendering is in
    effect. *)
Definition can_decode (p : astc_pd) (family : option Z) (pred : bool) (ready : decode_job -> bool) : Prop :=
  (exists f, family = Some f /\ 0 <= f /\ exists flags, p_qflags p !! Z.to_nat f = Some flags /\ has_any flags QUEUE_COMPUTE = true) /\
  (forall j, ready j = true) /\ pred = true.

(** The memory for the jobs beyond eight. *)
Definition memory (K : gicd) (w : gworld) (n : nat) : Prop := (n <= 8)%nat \/ gi_malloc K (gtr w) = true.

(** Dispatches change decoded texels only, whether they run or not. *)
Definition is_decode (c : cmd) : Prop := match c with CmdDecode _ _ _ | CmdRestore => True | _ => False end.
Lemma decode_jobs_decode p family conditional ready space jobs :
  Forall is_decode (decode_jobs p family conditional ready space jobs).
Proof.
  unfold decode_jobs. case_bool_decide; [done|]. destruct (family ≫= _); [|done]. case_match; [done|]. case_match; [done|]. apply Forall_app. split.
  - apply Forall_fmap, Forall_forall. done.
  - case_bool_decide; repeat constructor.
Qed.
Lemma decodes_keep dec size layers pred l s : Forall is_decode l ->
  let s' := run dec size layers pred l s in s_buf s' = s_buf s /\ s_blk s' = s_blk s.
Proof.
  cbv zeta. induction l as [|c l IH] using rev_ind; [done|]. intros [F Fc]%Forall_app. apply Forall_cons in Fc as [Fc _]. destruct (IH F) as [A B].
  unfold run in *. rewrite foldl_app. cbn [foldl]. destruct c as [| | | |c j d|]; try done. cbn [exec]. by destruct (negb pred).
Qed.

Lemma mips_ok ai rs : Forall (region_ok ai) rs -> filter (fun r => mip_ok ai (rg_mip r) = true) rs = rs.
Proof.
  intros F. apply filter_keeps. eapply Forall_impl; [exact F|]. intros r ((_ & Hm) & _). unfold mip_ok. by apply Z.ltb_lt.
Qed.

Lemma decode_jobs_all ai p family conditional pred ready space rs : can_decode p family pred ready ->
  (length rs <= 8)%nat \/ space = true -> Forall (region_ok ai) rs -> rs <> [] ->
  decode_jobs p family conditional ready space (upload_job ai <$> rs) = (record_decode conditional <$> (upload_job ai <$> rs)) ++ [CmdRestore].
Proof.
  intros ((f & -> & Hf & flags & Hq & Hc) & Hr & _) Hsp F Hne. unfold decode_jobs. rewrite bool_decide_false by (destruct rs; done).
  cbn [mbind option_bind]. rewrite (proj2 (Z.leb_le 0 f)), Hq, Hc by lia. cbn [negb].
  assert (Hj : (8 <? Z.of_nat (length (upload_job ai <$> rs))) && negb space = false).
  { rewrite length_fmap. destruct Hsp as [Hsp| ->]; [|apply andb_false_r]. by rewrite (proj2 (Z.ltb_ge _ _)) by lia. }
  rewrite Hj.
  assert (E : filter (fun j => ready j = true /\ j_w j <> 0 /\ j_h j <> 0 /\ j_count j <> 0) (upload_job ai <$> rs) = upload_job ai <$> rs).
  { apply filter_keeps, Forall_fmap. eapply Forall_impl; [exact F|]. intros r R. destruct (layers_of_count ai r R) as [_ Hl].
    destruct R as (_ & _ & _ & (_ & _ & ? & _) & (_ & _ & ? & _)). cbn [compose upload_job j_w j_h j_count]. split_and!; [done|lia|lia|lia]. }
  cbv zeta. rewrite E, bool_decide_false by (destruct rs; done). done.
Qed.

(** C14: an emulated image behaves as a compressed image.  For every history and
    valid regions (at most eight, or memory for the jobs): the commands
    recorded for a copy from a buffer put exactly the blocks the
    specification's copy puts at every mip level, layer and position and leave
    the buffers alone, whatever the queue, the decoder and conditional
    rendering; and they keep the decoded texels equal to the decoded blocks
    everywhere if the blocks get decoded at all ([can_decode]: a compute
    queue, a decoder that could be set up, and no false predicate of
    conditional rendering in effect; the source logs these cases as far as it
    knows them).  The commands for a copy to a buffer write exactly the bytes of
    the specification's copy. *)
Theorem astc_copy_refines (K : gicd) `{!GicdLaws K} dec (size layers : Z -> Z) (pred conditional : bool) (w : gworld) (k buf : Z)
    (family : option Z) (ai : astc_image) (p : astc_pd) (ready : decode_job -> bool) (rs : list region) :
  rtc (gstep K) ginit w -> lookup_image w k = Some ai -> icd_images size layers ai ->
  Forall (region_ok ai) rs -> memory K w (length rs) ->
  exists up down,
    nvhal_astc_cmd_copy_buffer_to_image K p family conditional ready buf k rs w = (Some up, w) /\
    nvhal_astc_cmd_copy_image_to_buffer k buf rs w = (Some down, w) /\
    forall s,
      (let s' := run dec size layers pred up s in
       s_buf s' = s_buf s /\
       (forall m l x y i, 0 <= m < ai_mips ai ->
          view ai s' (m, l, x, y, i) = spec_uploads ai buf (s_buf s) rs (view ai s) (m, l, x, y, i)) /\
       (can_decode p family pred ready -> coherent dec size ai s -> coherent dec size ai s')) /\
      (let s' := run dec size layers pred down s in
       s_blk s' = s_blk s /\ s_tex s' = s_tex s /\
       forall b a, s_buf s' (b, a) = spec_downloads ai buf (view ai s) rs (s_buf s) (b, a)).
Proof.
  intros I%(reach_ginv K) Hk Himg F Hma. pose proof Hk as Hg. rewrite (lookup_image_eq K w I) in Hg.
  set (dcmds := decode_jobs p family conditional ready (gi_malloc K (gtr w)) (upload_job ai <$> rs)).
  exists ((put_blocks ai buf <$> rs) ++ dcmds), (get_blocks ai buf <$> rs). split_and!.
  - unfold nvhal_astc_cmd_copy_buffer_to_image. rewrite bind_run. cbn [getS fst snd]. rewrite Hk, bind_run.
    assert (E : (if (length rs <=? 8)%nat then mret true else gask (gi_malloc K) : M gworld bool) w = (true, w)).
    { destruct (Nat.leb_spec (length rs) 8); [done|]. unfold gask. destruct Hma as [?|Hma]; [lia|]. by rewrite Hma. }
    rewrite E. cbn [fst snd negb]. rewrite bind_run, ret_run. cbn [gask fst snd]. by rewrite (mips_ok ai rs F).
  - unfold nvhal_astc_cmd_copy_image_to_buffer. rewrite bind_run. cbn [getS fst snd]. by rewrite Hk, ret_run, (mips_ok ai rs F).
  - intros s. split; [|by apply (get_all dec size layers pred K w I k ai Hg Himg)].
    destruct (put_all dec size layers pred K w I k ai Hg Himg rs buf s F) as (Eb & _ & Ev).
    destruct (decodes_keep dec size layers pred dcmds (run dec size layers pred (put_blocks ai buf <$> rs) s)) as [Db Dk];
      [apply decode_jobs_decode|].
    assert (Er : run dec size layers pred ((put_blocks ai buf <$> rs) ++ dcmds) s =
                 run dec size layers pred dcmds (run dec size layers pred (put_blocks ai buf <$> rs) s)) by (unfold run; apply foldl_app).
    cbv zeta in *. rewrite Er. split_and!.
    + by rewrite Db.
    + intros m l x y i Hm. rewrite <- Ev by done. cbn [view]. by rewrite Dk.
    + intros Hd C. destruct rs as [|r rs]; [exact C|]. unfold dcmds. rewrite (decode_jobs_all ai p family conditional pred) by done.
      unfold run at 1. rewrite foldl_app. cbn [foldl exec]. by apply (upload_coherent dec size layers pred conditional K w I k ai Hg Himg (proj2 (proj2 Hd))).
Qed.

(** Under a false predicate of conditional rendering the blocks arrive and the
    texels stay as they were, whatever the shadow knows of it. *)
Lemma predicated_upload_stale (K : gicd) `{!GicdLaws K} dec (size layers : Z -> Z) (w : gworld) (k buf : Z)
    (family : option Z) (conditional : bool) (p : astc_pd) (ready : decode_job -> bool) (rs : list region) up s :
  nvhal_astc_cmd_copy_buffer_to_image K p family conditional ready buf k rs w = (Some up, w) -> s_tex (run dec size layers false up s) = s_tex s.
Proof.
  unfold nvhal_astc_cmd_copy_buffer_to_image. rewrite bind_run. cbn [getS fst snd]. destruct (lookup_image w k) as [a|]; [|done]. rewrite bind_run.
  set (m := if (length rs <=? 8)%nat then _ else _). destruct (m w) as [ok w1]. cbn [fst snd]. destruct ok; cbn [negb]; [|by intros [= <- <-]].
  rewrite bind_run, ret_run. cbn [gask fst snd]. intros [= <- _].
  assert (T : forall l s, Forall (fun c => match c with CmdCopyTexels _ _ _ => False | _ => True end) l ->
    s_tex (run dec size layers false l s) = s_tex s).
  { clear. induction l as [|c l IH] using rev_ind; intros s; [done|]. intros [F Fc]%Forall_app. apply Forall_cons in Fc as [Fc _].
    unfold run in *. rewrite foldl_app. cbn [foldl]. destruct c as [| | | |c j d|]; try done; cbn [exec s_tex]; try by apply IH.
  }
  apply T, Forall_app. split; [apply Forall_fmap, Forall_forall; done|]. unfold decode_jobs.
  case_bool_decide; [done|]. destruct (family ≫= _); [|done]. case_match; [done|]. case_match; [done|]. apply Forall_app. split.
  - apply Forall_fmap, Forall_forall. done.
  - case_bool_decide; repeat constructor.
Qed.

(** Every block image of a level in a barrier's range gets the same barrier,
    after those of the application. *)
Lemma barriers_mirrored (K : gicd) `{!GicdLaws K} (w : gworld) l b ai m :
  rtc (gstep K) ginit w -> gi_malloc K (gtr w) = true -> b ∈ l -> lookup_image w (br_image b) = Some ai ->
  0 <= br_base b <= m -> m < ai_mips ai -> br_levels b = VK_REMAINING \/ m < br_base b + br_levels b ->
  exists extra, nvhal_astc_barriers K l w = (l ++ extra, w) /\ mk_bar (block_of ai m) 0 1 (br_rest b) ∈ extra.
Proof.
  intros I%(reach_ginv K) Hma Hb Hk Hlo Hhi Hin. exists (mjoin (mirror w <$> l)).
  destruct (lookup_ok K w _ ai I Hk) as [_ [_ _ [_ Hlen] _ _]].
  assert (Hm : mk_bar (block_of ai m) 0 1 (br_rest b) ∈ mjoin (mirror w <$> l)).
  { apply list_elem_of_join. exists (mirror w b). split; [|by apply list_elem_of_fmap_2]. unfold mirror. rewrite Hk. unfold range_mips.
    rewrite (proj2 (Z.leb_gt (ai_mips ai) (br_base b))) by lia. set (n := if _ <? _ then _ else _).
    assert (Hn : m < br_base b + n).
    { subst n. destruct (Z.eqb_spec (br_levels b) VK_REMAINING); case_match; bool_props; lia. }
    apply (list_elem_of_fmap_2 (fun h => mk_bar h 0 1 (br_rest b))). apply (list_elem_of_lookup_2 _ (Z.to_nat (m - br_base b))).
    rewrite lookup_take_lt by lia. rewrite lookup_drop. replace (Z.to_nat (br_base b) + Z.to_nat (m - br_base b))%nat with (Z.to_nat m) by lia.
    unfold block_of. destruct (lookup_lt_is_Some_2 (ai_block ai) (Z.to_nat m)) as [h ->]; [lia|done]. }
  split; [|exact Hm]. unfold nvhal_astc_barriers. rewrite bind_run. cbn [getS fst snd].
  rewrite bool_decide_false by (intros E; rewrite E in Hm; set_solver). rewrite bind_run, ret_run. cbn [gask fst snd]. by rewrite Hma.
Qed.

(** Uploading a region and downloading it again gives the bytes back, for any
    row length and image height. *)
Lemma copy_roundtrip ai buf buf' bytes bytes' r c a cell :
  cell ∈ cells (block_size (ai_format ai)) (compressed_rect (ai_e ai) (ai_layers ai) r) ->
  cell_addr (block_size (ai_format ai)) (compressed_rect (ai_e ai) (ai_layers ai) r) cell = a ->
  spec_download ai buf' (spec_upload ai buf bytes r c) bytes' r (buf', a) = bytes (buf, a).
Proof.
  intros Hc Ha. unfold spec_download. rewrite Z.eqb_refl. set (q := compressed_rect _ _ _) in *. set (n := block_size _) in *.
  destruct (last_with _ _) as [[[[l x] y] i]|] eqn:E.
  - apply last_with_Some in E as [Hin Ea]. apply Z.eqb_eq in Ea. unfold spec_upload. rewrite Z.eqb_refl. fold q n.
    unfold cells in Hin. repeat setoid_rewrite list_elem_of_bind in Hin. destruct Hin as (l' & (y' & (x' & (i' & [= <- <- <- <-]%list_elem_of_singleton & Hi) & Hx) & Hy) & Hl).
    apply elem_of_seqZ in Hi, Hx, Hy, Hl.
    assert (in_rect q l x y = true) as -> by (unfold in_rect; rewrite !andb_true_iff, !Z.leb_le, !Z.ltb_lt; lia).
    rewrite (proj2 (Z.leb_le 0 i)), (proj2 (Z.ltb_lt i n)) by lia. cbn [andb]. by rewrite <- Ea.
  - rewrite last_with_None in E. specialize (E cell Hc). cbv beta in E. apply Z.eqb_neq in E. congruence.
Qed.

(** ** A witness *)

(** Level 0 of the image, 10x6 texels: the 2x2 blocks at the right edge, out
    of a buffer with rows of three blocks. *)
Definition demo_region : region := mk_region 64 12 0 0 0 VK_REMAINING 4 0 6 6.
Definition demo_size (h : Z) : Z := 16.
Definition demo_layers (h : Z) : Z := 1.
Definition demo_dec (e : efmt) (bytes : list Z) (x y : Z) : Z := sumZ bytes + 1000 * x + 10000 * y.
Definition demo_store : store := mk_store (fun '(b, a) => b + a) (fun _ => 0) (fun '(_, _, _, x, y) => 1000 * (x mod 4) + 10000 * (y mod 4)).

Lemma astc_copy_refines_witness :
  exists up, nvhal_astc_cmd_copy_buffer_to_image demo_icd demo_pd (Some 0) false (fun _ => true) 9 1 [demo_region] demo_world = (Some up, demo_world) /\
    let s' := run demo_dec demo_size demo_layers true up demo_store in
    view demo_image s' (0, 0, 2, 1, 5) = 9 + (64 + (1 * 3 + 1) * 16 + 5) /\
    s_tex s' (1, 0, 0, 9, 5) = texel_of demo_dec demo_size demo_image s' 0 0 9 5 /\ s_tex s' (1, 0, 0, 9, 5) <> s_tex demo_store (1, 0, 0, 9, 5).
Proof.
  destruct (astc_copy_refines demo_icd demo_dec demo_size demo_layers true false demo_world 1 9 (Some 0) demo_image demo_pd (fun _ => true) [demo_region])
    as (up & down & Eu & _ & S).
  - exact demo_reached.
  - vm_compute. reflexivity.
  - intros m Hm. done.
  - constructor; [|constructor]. unfold region_ok, axis_ok. vm_compute; intuition congruence.
  - right. reflexivity.
  - exists up. split; [exact Eu|]. destruct (S demo_store) as [(_ & V & C) _]. cbv zeta in *. split; [rewrite V by (cbn; lia); vm_compute; reflexivity|].
    assert (C0 : coherent demo_dec demo_size demo_image demo_store).
    { intros m l x y _ _ _ _. unfold texel_of, demo_dec, block_bytes, demo_size. change (s_blk demo_store) with (fun _ : Z * Z * Z * Z * Z * Z => 0).
      cbn. change (sumZ _) with 0. lia. }
    assert (Hd : can_decode demo_pd (Some 0) true (fun _ => true)).
    { split; [exists 0; split; [reflexivity|split; [lia|exists 7; split; vm_compute; reflexivity]]|done]. }
    specialize (C Hd C0). split; [apply (C 0 0 9 5); vm_compute; intuition congruence|].
    vm_compute in Eu. injection Eu as <-. vm_compute. discriminate.
Defined.

End AstcCopy.
