(* ===== verification/AstcImageCopy.v ===== *)
(** * Copies between images, with emulated images on either side
      ([hal/src/astc.c]: [nvhal_astc_cmd_copy_image])

    The specification is a copy of blocks between images of size-compatible
    formats: an uncompressed texel counts as a block.  The recorded commands
    copy the blocks and, when both images are of one decode class, the decoded
    texels; otherwise the copied blocks are decoded.  Either way the blocks of
    every image are as specified and the decoded texels of every emulated image
    remain those of its blocks. *)

From Stdlib Require Import ZArith Lia.
From stdpp Require Import base option sets strings gmap list.
From S2P Require Import Prelude Vulkan Astc AstcCopy.

Set Default Goal Selector "!".
#[local] Open Scope Z_scope.

Module AstcImageCopy.
Import Vk Astc AstcCopy.

(** Formats of one class have the same blocks. *)
Lemma class_facts f f' e e' : efmt_get f = Some e -> efmt_get f' = Some e' -> cls e = cls e' ->
  bw e = bw e' /\ bh e = bh e' /\ block_size f = block_size f'.
Proof.
  assert (R : forall f e, efmt_get f = Some e -> f ∈ seqZ 147 38).
  { clear. intros f e H. apply elem_of_seqZ. unfold efmt_get, ASTC_FIRST, ASTC_LAST, ETC2_FIRST, ETC2_LAST in H.
    destruct ((157 <=? f) && (f <=? 184)) eqn:E1; [bool_props; lia|]. destruct ((147 <=? f) && (f <=? 156)) eqn:E2; [bool_props; lia|done]. }
  pose (P f f' := match efmt_get f, efmt_get f' with
    | Some e, Some e' => negb (cls e =? cls e') || ((bw e =? bw e') && (bh e =? bh e') && (block_size f =? block_size f'))
    | _, _ => true end).
  assert (A : forallb (fun f => forallb (P f) (seqZ 147 38)) (seqZ 147 38) = true) by (vm_compute; reflexivity).
  intros He He' Ec. rewrite forallb_forall in A. specialize (A f ltac:(by eapply list_elem_of_In, R)). rewrite forallb_forall in A.
  specialize (A f' ltac:(by eapply list_elem_of_In, R)). unfold P in A. rewrite He, He', (proj2 (Z.eqb_eq _ _) Ec) in A. cbn [negb orb] in A.
  bool_props. done.
Qed.

(** ** One axis *)

(** The source: block size and edge when it is emulated. *)
Definition src_axis (o : option (Z * Z)) (x w : Z) : Prop :=
  match o with Some (b, edge) => axis_ok b edge x w 0 | None => 0 <= x /\ 0 < w end.
(** The destination of [nb] blocks. *)
Definition dst_axis (o : option (Z * Z)) (same : bool) (x w nb : Z) : Prop :=
  match o with
  | Some (b, edge) => 0 <= x < edge /\ x mod b = 0 /\ edge < 2 ^ 31 /\ x / b + nb <= ceil edge b /\ (same = true -> axis_ok b edge x w 0)
  | None => 0 <= x
  end.

(** The texels covered: on block boundaries or up to the edge, and all those
    of the copied blocks. *)
Lemma covered_axis sb b edge x w nb :
  4 <= b <= 12 -> (forall s, sb = Some s -> 0 < s /\ 0 <= w /\ w + s <= 2 ^ 32) -> nb = ceil w (default 1 sb) -> 0 < nb ->
  dst_axis (Some (b, edge)) false x w nb ->
  let c := covered sb b w x edge in
  axis_ok b edge x c 0 /\ forall u, 0 <= u < edge -> x / b <= u / b < x / b + nb -> x <= u < x + c.
Proof.
  intros Hb Hs En Hn (Hx & Hm & He & Hfit & _). cbv zeta. apply Z.mod_divide in Hm as [k ->]; [|lia]. rewrite Z.div_mul in * by lia.
  pose proof (ceil_bounds edge b ltac:(lia)) as Hce.
  assert (Ew : match sb with Some s => u32 (div_up w s * b) | None => u32 (w * b) end = nb * b).
  { destruct sb as [s|]; cbn [default from_option id] in En.
    - destruct (Hs s eq_refl) as (? & ? & ?). rewrite div_up_ceil, <- En by lia. apply u32_id. unfold is_u32. nia.
    - unfold ceil in En. rewrite Z.div_1_r in En. replace w with nb by lia. apply u32_id. unfold is_u32. nia. }
  unfold covered. rewrite Ew, (u32_id (k * b + nb * b)) by (unfold is_u32; nia). rewrite (proj2 (Z.ltb_lt (k * b) edge)) by lia.
  unfold axis_ok. destruct (Z.ltb_spec edge (k * b + nb * b)).
  - split; [split_and!; try lia; apply Z.mod_mul; lia|]. intros u Hu [L _]. pose proof (Z.mul_div_le u b ltac:(lia)). nia.
  - split; [split_and!; try lia; [apply Z.mod_mul; lia|left; apply Z.mod_mul; lia]|].
    intros u Hu [L U]. pose proof (Z.mul_div_le u b ltac:(lia)). pose proof (Z.mul_succ_div_gt u b ltac:(lia)). nia.
Qed.

(** Within one class a texel keeps its place in its block. *)
Lemma texel_shift b edge sx dx w u : 4 <= b <= 12 -> axis_ok b edge sx w 0 -> dx mod b = 0 ->
  (u - dx + sx) / b = u / b - dx / b + sx / b /\ (u - dx + sx) mod b = u mod b.
Proof.
  intros Hb (_ & Hs & _) Hd. apply Z.mod_divide in Hs as [k ->], Hd as [j ->]; [|lia|lia].
  replace (u - j * b + k * b) with (u + (k - j) * b) by lia. rewrite Z.div_add, Z.mod_add, !Z.div_mul by lia. lia.
Qed.

(** ** The specification *)

Section Copy.
Context (dec : efmt -> list Z -> Z -> Z -> Z) (size layers : Z -> Z) (pred conditional : bool) (w : gworld).

(** The blocks of an image, by the application's handle. *)
Definition abs (s : store) (h : Z) : content :=
  match lookup_image w h with
  | Some ai => view ai s
  | None => fun '(m, l, x, y, i) => s_blk s (h, m, l, x, y, i)
  end.
Definition unit_w (h : Z) : Z := match lookup_image w h with Some ai => bw (ai_e ai) | None => 1 end.
Definition unit_h (h : Z) : Z := match lookup_image w h with Some ai => bh (ai_e ai) | None => 1 end.
Definition unit_size (h : Z) : Z := match lookup_image w h with Some ai => block_size (ai_format ai) | None => size h end.
Definition nlayers (h : Z) : Z := match lookup_image w h with Some ai => ai_layers ai | None => layers h end.

(** The region in blocks. *)
Definition block_region (src dst : Z) (r : image_copy) : image_copy :=
  mk_icopy (ic_smip r) (ic_sbase r) (ic_scount r) (ic_sx r / unit_w src) (ic_sy r / unit_h src)
    (ic_dmip r) (ic_dbase r) (ic_dcount r) (ic_dx r / unit_w dst) (ic_dy r / unit_h dst)
    (ceil (ic_w r) (unit_w src)) (ceil (ic_h r) (unit_h src)).

Definition spec_copy (src dst : Z) (f : Z -> content) (r : image_copy) : Z -> content :=
  let b := block_region src dst r in
  fun h '(m, l, x, y, i) =>
    if (h =? dst) && (m =? ic_dmip b) && in_dst (nlayers src) b l x y && (0 <=? i) && (i <? unit_size src)
    then f src (ic_smip b, l - ic_dbase b + ic_sbase b, x - ic_dx b + ic_sx b, y - ic_dy b + ic_sy b, i)
    else f h (m, l, x, y, i).

Definition copied_layers (src : Z) (r : image_copy) : Z :=
  if ic_scount r =? VK_REMAINING then nlayers src - ic_sbase r else ic_scount r.

(** Block size and edge of an emulated image. *)
Definition axis_x (h m : Z) : option (Z * Z) := (fun ai => (bw (ai_e ai), mip_w ai m)) <$> lookup_image w h.
Definition axis_y (h m : Z) : option (Z * Z) := (fun ai => (bh (ai_e ai), mip_h ai m)) <$> lookup_image w h.
Definition has_mip (h m : Z) : Prop := match lookup_image w h with Some ai => 0 <= m < ai_mips ai | None => True end.
Definition same_class (src dst : Z) : bool :=
  match lookup_image w src, lookup_image w dst with Some s, Some d => cls (ai_e s) =? cls (ai_e d) | _, _ => false end.

(** The valid usage of a copy between images (Vulkan specification). *)
Definition icopy_ok (src dst : Z) (r : image_copy) : Prop :=
  has_mip src (ic_smip r) /\ has_mip dst (ic_dmip r) /\
  src_axis (axis_x src (ic_smip r)) (ic_sx r) (ic_w r) /\ src_axis (axis_y src (ic_smip r)) (ic_sy r) (ic_h r) /\
  dst_axis (axis_x dst (ic_dmip r)) (same_class src dst) (ic_dx r) (ic_w r) (ceil (ic_w r) (unit_w src)) /\
  dst_axis (axis_y dst (ic_dmip r)) (same_class src dst) (ic_dy r) (ic_h r) (ceil (ic_h r) (unit_h src)) /\
  0 <= ic_sbase r /\ 0 < copied_layers src r /\ ic_sbase r + copied_layers src r <= nlayers src /\
  0 <= ic_dbase r /\ ic_dbase r + copied_layers src r <= nlayers dst /\
  (if ic_dcount r =? VK_REMAINING then nlayers dst - ic_dbase r else ic_dcount r) = copied_layers src r.

Context (K : gicd) `{!GicdLaws K} (I : ginv K w).
(** The ICD's images are what they were created as, and formats of one class
    decode alike. *)
Definition icd_all : Prop := forall k ai, g_images w !! k = Some ai -> icd_images size layers ai /\ layers k = ai_layers ai.
Definition dec_class : Prop := forall e e' bytes x y, cls e = cls e' -> dec e bytes x y = dec e' bytes x y.
Context (Himg : icd_all) (Hdec : dec_class).

Definition all_coherent (s : store) : Prop := forall k ai, g_images w !! k = Some ai -> coherent dec size ai s.

Abbreviation exec := (exec dec size layers pred).
Abbreviation run := (run dec size layers pred).
Abbreviation blocks src dst := (copy_blocks (lookup_image w src) (lookup_image w dst) src dst).

Lemma emu k ai : lookup_image w k = Some ai -> g_images w !! k = Some ai /\ efmt_get (ai_format ai) = Some (ai_e ai) /\ 4 <= bw (ai_e ai) <= 12 /\ 4 <= bh (ai_e ai) <= 12.
Proof.
  intros H. destruct (lookup_ok K w k ai I H) as [Hk Hok]. pose proof (io_fmt _ _ _ _ Hok) as Hf. destruct (fmt_facts _ _ Hf) as (_ & ? & ? & _). done.
Qed.

(** ** The block copy *)

Lemma src_quot b e x v : 4 <= b <= 12 -> src_axis (Some (b, e)) x v -> Z.quot x b = x / b /\ div_up v b = ceil v b.
Proof. intros Hb (H1 & _ & H3 & H4 & _ & H6 & _). split; [apply Z.quot_div_nonneg; lia|apply div_up_ceil; lia]. Qed.

Lemma copy_blocks_eq src dst r : icopy_ok src dst r -> exists b, blocks src dst r =
    CmdCopyImage (match lookup_image w src with Some a => block_of a (ic_smip r) | None => src end)
      (match lookup_image w dst with Some a => block_of a (ic_dmip r) | None => dst end) b /\
  let q := block_region src dst r in
  ic_smip b = (if lookup_image w src is Some _ then 0 else ic_smip r) /\ ic_dmip b = (if lookup_image w dst is Some _ then 0 else ic_dmip r) /\
  (forall n l x y, in_dst n b l x y = in_dst n q l x y) /\
  ic_sbase b = ic_sbase q /\ ic_dbase b = ic_dbase q /\ ic_sx b = ic_sx q /\ ic_sy b = ic_sy q /\ ic_dx b = ic_dx q /\ ic_dy b = ic_dy q.
Proof.
  intros (_ & _ & Sx & Sy & Dx & Dy & _). eexists. split; [reflexivity|]. cbv zeta. unfold block_region, unit_w, unit_h, axis_x, axis_y in *.
  assert (C1 : forall a, ceil a 1 = a) by (intros; unfold ceil; rewrite Z.div_1_r; lia).
  destruct (lookup_image w src) as [a|] eqn:Es, (lookup_image w dst) as [d|] eqn:Ed; cbn [fmap option_fmap option_map] in *.
  all: try (destruct (emu _ _ Es) as (_ & _ & ? & ?)); try (destruct (emu _ _ Ed) as (_ & _ & ? & ?)).
  all: try (apply src_quot in Sx as [? ?]; [|done]; apply src_quot in Sy as [? ?]; [|done]).
  all: try (assert (Z.quot (ic_dx r) (bw (ai_e d)) = ic_dx r / bw (ai_e d)) by (destruct Dx as (? & _); apply Z.quot_div_nonneg; lia)).
  all: try (assert (Z.quot (ic_dy r) (bh (ai_e d)) = ic_dy r / bh (ai_e d)) by (destruct Dy as (? & _); apply Z.quot_div_nonneg; lia)).
  all: rewrite ?C1, ?Z.div_1_r; unfold in_dst;
    cbn [ic_smip ic_sbase ic_scount ic_sx ic_sy ic_dmip ic_dbase ic_dcount ic_dx ic_dy ic_w ic_h]; split_and!; intros; congruence.
Qed.

Lemma block_in k ai m : g_images w !! k = Some ai -> 0 <= m < ai_mips ai -> block_of ai m ∈ ai_block ai.
Proof.
  intros Hk Hm. destruct (gv_image _ _ I k ai Hk) as [_ _ [_ Hlen] _ _]. unfold block_of.
  destruct (lookup_lt_is_Some_2 (ai_block ai) (Z.to_nat m)) as [h E]; [lia|]. rewrite E. cbn. by eapply list_elem_of_lookup_2.
Qed.

(** Which ICD image holds level [m] of an image. *)
Definition held_by (h m : Z) : Z * Z := match lookup_image w h with Some a => (block_of a m, 0) | None => (h, m) end.

Lemma held_by_eq h m dst dm : app_handle w h -> app_handle w dst -> has_mip h m -> has_mip dst dm ->
  ((held_by h m).1 =? (held_by dst dm).1) && ((held_by h m).2 =? (held_by dst dm).2) = (h =? dst) && (m =? dm).
Proof.
  intros Ah Ad Hh Hd. unfold held_by, has_mip in *.
  destruct (lookup_image w h) as [a|] eqn:Eh, (lookup_image w dst) as [d|] eqn:Ed; cbn [fst snd].
  - destruct (emu _ _ Eh) as (Gh & _), (emu _ _ Ed) as (Gd & _). rewrite Z.eqb_refl, andb_true_r. apply eq_bool_prop_intro.
    rewrite !Is_true_true, andb_true_iff, !Z.eqb_eq. split; [|intros [-> ->]; congruence]. intros E.
    assert (h = dst) as ->.
    { apply (parts_disjoint K w I h a dst d (block_of a m) Gh Gd); unfold parts_of; apply elem_of_cons; right; [|rewrite E]; by eapply block_in. }
    split; [done|]. replace d with a in * by congruence. by eapply (block_of_inj K w I dst a Gh).
  - destruct (emu _ _ Eh) as (Gh & _). rewrite (proj2 (Z.eqb_neq h dst)) by congruence. cbn [andb]. rewrite (proj2 (Z.eqb_neq (block_of a m) dst)); [done|].
    intros E. apply (Ad _ _ Gh). rewrite <- E. by eapply block_in.
  - destruct (emu _ _ Ed) as (Gd & _). rewrite (proj2 (Z.eqb_neq h dst)) by congruence. cbn [andb]. rewrite (proj2 (Z.eqb_neq h (block_of d dm))); [done|].
    intros E. apply (Ah _ _ Gd). rewrite E. by eapply block_in.
  - done.
Qed.

Lemma abs_at s h m l x y i : abs s h (m, l, x, y, i) = s_blk s ((held_by h m).1, (held_by h m).2, l, x, y, i).
Proof. unfold abs, held_by. by destruct (lookup_image w h). Qed.

Lemma src_facts src m : has_mip src m -> layers (held_by src m).1 = nlayers src /\ size (held_by src m).1 = unit_size src.
Proof.
  intros Hm. unfold held_by, nlayers, unit_size, has_mip in *.
  destruct (lookup_image w src) as [a|] eqn:E; [|done]. destruct (emu _ _ E) as (G & F & _). cbn [fst].
  destruct (Himg _ _ G) as [Hi _]. destruct (Hi _ Hm) as [-> ->]. destruct (fmt_facts _ _ F) as [-> _]. done.
Qed.

Lemma copy_step src dst r s h m l x y i : app_handle w h -> app_handle w dst -> icopy_ok src dst r -> has_mip h m ->
  abs (exec (blocks src dst r) s) h (m, l, x, y, i) = spec_copy src dst (abs s) r h (m, l, x, y, i).
Proof.
  intros Ah Ad Hr Hm. pose proof Hr as (Hs & Hd & _). destruct (src_facts src (ic_smip r) Hs) as [El Ez].
  destruct (copy_blocks_eq src dst r Hr) as (b & Eb & Es & Ed & Ei & E1 & E2 & E3 & E4 & E5 & E6). rewrite Eb.
  assert (Hsrc : held_by src (ic_smip r) = (match lookup_image w src with Some a => block_of a (ic_smip r) | None => src end, ic_smip b))
    by (unfold held_by; rewrite Es; by destruct (lookup_image w src)).
  assert (Hdst : held_by dst (ic_dmip r) = (match lookup_image w dst with Some a => block_of a (ic_dmip r) | None => dst end, ic_dmip b))
    by (unfold held_by; rewrite Ed; by destruct (lookup_image w dst)).
  pose proof (held_by_eq h m dst (ic_dmip r) Ah Ad Hm Hd) as Hq. rewrite Hdst in Hq. cbn [fst snd] in Hq. rewrite Hsrc in El, Ez. cbn [fst] in El, Ez.
  rewrite abs_at. cbn [AstcCopy.exec s_blk]. rewrite Hq, El, Ez, Ei. unfold spec_copy. rewrite !abs_at. cbv zeta.
  change (ic_dmip (block_region src dst r)) with (ic_dmip r). change (ic_smip (block_region src dst r)) with (ic_smip r).
  rewrite Hsrc, E1, E2, E3, E4, E5, E6. done.
Qed.

(** The copies of a command in order. *)
Definition spec_copies (src dst : Z) (rs : list image_copy) (f : Z -> content) : Z -> content := foldl (spec_copy src dst) f rs.

Lemma spec_copy_ext src dst r (f g : Z -> content) h m l x y i : has_mip src (ic_smip r) ->
  (forall m l x y i, has_mip src m -> f src (m, l, x, y, i) = g src (m, l, x, y, i)) -> f h (m, l, x, y, i) = g h (m, l, x, y, i) ->
  spec_copy src dst f r h (m, l, x, y, i) = spec_copy src dst g r h (m, l, x, y, i).
Proof. intros Hs Es Eh. unfold spec_copy. case_match; [by apply Es|done]. Qed.

Lemma copy_all src dst rs s : app_handle w src -> app_handle w dst -> Forall (icopy_ok src dst) rs ->
  let s' := run (blocks src dst <$> rs) s in
  s_buf s' = s_buf s /\ s_tex s' = s_tex s /\
  forall h m l x y i, app_handle w h -> has_mip h m -> abs s' h (m, l, x, y, i) = spec_copies src dst rs (abs s) h (m, l, x, y, i).
Proof.
  intros As Ad. cbv zeta. induction rs as [|r rs IH] using rev_ind; [done|]. intros F. apply Forall_app in F as [F Fr]. apply Forall_cons in Fr as [Fr _].
  destruct (IH F) as (Eb & Et & Ev). rewrite fmap_app. unfold AstcCopy.run, spec_copies in *. rewrite !foldl_app. cbn [fmap list_fmap foldl].
  split; [|split].
  - destruct (copy_blocks_eq src dst r Fr) as (b & -> & _). exact Eb.
  - destruct (copy_blocks_eq src dst r Fr) as (b & -> & _). exact Et.
  - intros h m l x y i Ah Hm. rewrite copy_step by done. apply spec_copy_ext; [apply Fr|intros; by apply Ev|by apply Ev].
Qed.

(** ** The decoded texels *)

(** Texels of equal bytes in blocks of one class. *)
Lemma texel_of_eq ai ai' s s' m m' l l' x y x' y' : cls (ai_e ai) = cls (ai_e ai') -> size (block_of ai m) = size (block_of ai' m') ->
  x mod bw (ai_e ai) = x' mod bw (ai_e ai') -> y mod bh (ai_e ai) = y' mod bh (ai_e ai') ->
  (forall i, 0 <= i < size (block_of ai m) -> view ai s (m, l, x / bw (ai_e ai), y / bh (ai_e ai), i)
                                       = view ai' s' (m', l', x' / bw (ai_e ai'), y' / bh (ai_e ai'), i)) ->
  texel_of dec size ai s m l x y = texel_of dec size ai' s' m' l' x' y'.
Proof.
  intros Hc Hs Hx Hy E. unfold texel_of. rewrite <- Hs, Hx, Hy, (Hdec _ _ _ _ _ Hc). f_equal. unfold block_bytes. apply list_fmap_ext.
  intros j i Hj. apply list_elem_of_lookup_2, elem_of_seqZ in Hj. apply E. lia.
Qed.

Lemma in_dst_iff n r l x y : in_dst n r l x y = true <->
  (ic_dbase r <= l < ic_dbase r + (if ic_scount r =? VK_REMAINING then n - ic_sbase r else ic_scount r)) /\
  ic_dx r <= x < ic_dx r + ic_w r /\ ic_dy r <= y < ic_dy r + ic_h r.
Proof. unfold in_dst. rewrite !andb_true_iff, !Z.leb_le, !Z.ltb_lt. tauto. Qed.

Lemma block_of_texel b x v u : 0 < b -> x mod b = 0 -> x <= u < x + v -> x / b <= u / b < x / b + ceil v b.
Proof.
  intros Hb Hm [L U]. apply Z.mod_divide in Hm as [k ->]; [|lia]. rewrite Z.div_mul by lia. pose proof (ceil_bounds v b Hb).
  split; [apply Z.div_le_lower_bound; lia|apply Z.div_lt_upper_bound; nia].
Qed.

Definition copy_both (src dst : Z) (s : store) (r : image_copy) : store :=
  exec (blocks src dst r) (mk_store (s_buf s) (s_blk s) (copy_texels (layers src) src dst r (s_tex s))).

(** The application's own handles. *)
Lemma app_key k ai : g_images w !! k = Some ai -> app_handle w k.
Proof.
  intros Hk k' ai' Hk' Hin. pose proof (io_key _ _ _ _ (gv_image _ _ I k ai Hk)) as Ek. assert (k' = k) as ->.
  { apply (parts_disjoint K w I k' ai' k ai k Hk' Hk); unfold parts_of; [set_solver|rewrite Ek; set_solver]. }
  replace ai' with ai in * by congruence. pose proof (parts_nodup K w I k ai Hk) as N. apply NoDup_cons in N as [N _]. by rewrite Ek in N.
Qed.

Lemma both_view src dst s r k ai m l bx by' i : app_handle w dst -> icopy_ok src dst r -> g_images w !! k = Some ai -> 0 <= m < ai_mips ai ->
  view ai (copy_both src dst s r) (m, l, bx, by', i) = spec_copy src dst (abs s) r k (m, l, bx, by', i).
Proof.
  intros Ad Hr Hk Hm. assert (Hlk : lookup_image w k = Some ai) by (by rewrite (lookup_image_eq K w I)).
  set (s0 := mk_store (s_buf s) (s_blk s) (copy_texels (layers src) src dst r (s_tex s))).
  pose proof (copy_step src dst r s0 k m l bx by' i (app_key k ai Hk) Ad Hr) as St. unfold has_mip in St. rewrite Hlk in St.
  specialize (St Hm). change (abs s0) with (abs s) in St. rewrite <- St. unfold abs at 1. by rewrite Hlk.
Qed.

Section OneClass.
Context (src dst : Z) (a d : astc_image) (r : image_copy) (Ad : app_handle w dst) (Hr : icopy_ok src dst r).
Context (Ea : lookup_image w src = Some a) (Ed : lookup_image w dst = Some d) (Ec : cls (ai_e a) = cls (ai_e d)).

(** What a valid region is, between two emulated images. *)
Record one_class : Prop := {
  oc_smip : 0 <= ic_smip r < ai_mips a; oc_dmip : 0 <= ic_dmip r < ai_mips d;
  oc_sx : axis_ok (bw (ai_e d)) (mip_w a (ic_smip r)) (ic_sx r) (ic_w r) 0;
  oc_sy : axis_ok (bh (ai_e d)) (mip_h a (ic_smip r)) (ic_sy r) (ic_h r) 0;
  oc_dx : axis_ok (bw (ai_e d)) (mip_w d (ic_dmip r)) (ic_dx r) (ic_w r) 0;
  oc_dy : axis_ok (bh (ai_e d)) (mip_h d (ic_dmip r)) (ic_dy r) (ic_h r) 0;
  oc_layers : 0 <= ic_sbase r /\ ic_sbase r + (if ic_scount r =? VK_REMAINING then ai_layers a - ic_sbase r else ic_scount r) <= ai_layers a;
  oc_units : bw (ai_e a) = bw (ai_e d) /\ bh (ai_e a) = bh (ai_e d) /\ 4 <= bw (ai_e d) <= 12 /\ 4 <= bh (ai_e d) <= 12;
  oc_size : size (block_of d (ic_dmip r)) = block_size (ai_format a) /\ size (block_of a (ic_smip r)) = block_size (ai_format a);
}.
Lemma one_class_ok : one_class.
Proof.
  destruct (emu _ _ Ea) as (Ga & Fa & _), (emu _ _ Ed) as (Gd & Fd & Wd & Hd). destruct (class_facts _ _ _ _ Fa Fd Ec) as (Ew & Eh & Esz).
  destruct Hr as (Hsm & Hdm & Sx & Sy & Dx & Dy & B1 & B2 & B3 & _).
  unfold copied_layers, has_mip, nlayers, axis_x, axis_y, same_class in *. rewrite ?Ea, ?Ed in *.
  cbn [fmap option_fmap option_map src_axis dst_axis] in *. rewrite (proj2 (Z.eqb_eq _ _) Ec), ?Ew, ?Eh in *.
  destruct (Himg _ _ Ga) as [Ia _], (Himg _ _ Gd) as [Id _], (Ia _ Hsm) as [Za _], (Id _ Hdm) as [Zd _].
  destruct (fmt_facts _ _ Fa) as [Ya _], (fmt_facts _ _ Fd) as [Yd _].
  split; try done; [by apply Dx|by apply Dy|]. split; congruence.
Qed.

(** The block copy, at the block of a texel. *)
Lemma spec_copy_one (f : Z -> content) k m l x y i :
  spec_copy src dst f r k (m, l, x / bw (ai_e d), y / bh (ai_e d), i) =
  if (k =? dst) && (m =? ic_dmip r) && in_dst (ai_layers a) (block_region src dst r) l (x / bw (ai_e d)) (y / bh (ai_e d))
     && (0 <=? i) && (i <? block_size (ai_format a))
  then f src (ic_smip r, l - ic_dbase r + ic_sbase r, (x / bw (ai_e d) - ic_dx r / bw (ai_e d) + ic_sx r / bw (ai_e d)),
              (y / bh (ai_e d) - ic_dy r / bh (ai_e d) + ic_sy r / bh (ai_e d)), i)
  else f k (m, l, x / bw (ai_e d), y / bh (ai_e d), i).
Proof.
  destruct (oc_units one_class_ok) as (Ew & Eh & _). set (b := block_region src dst r).
  assert (E : ic_sx b = ic_sx r / bw (ai_e d) /\ ic_sy b = ic_sy r / bh (ai_e d) /\ ic_dx b = ic_dx r / bw (ai_e d) /\ ic_dy b = ic_dy r / bh (ai_e d)).
  { unfold b, block_region, unit_w, unit_h. rewrite Ea, Ed, Ew, Eh. done. }
  destruct E as (E1 & E2 & E3 & E4). unfold spec_copy, nlayers, unit_size. cbv zeta. fold b. rewrite Ea, E1, E2, E3, E4. done.
Qed.

(** The blocks written are those of the texels written. *)
Lemma in_dst_blocks l x y : 0 <= x < mip_w d (ic_dmip r) -> 0 <= y < mip_h d (ic_dmip r) ->
  in_dst (ai_layers a) (block_region src dst r) l (x / bw (ai_e d)) (y / bh (ai_e d)) = in_dst (ai_layers a) r l x y.
Proof.
  intros Hx Hy. destruct (oc_units one_class_ok) as (Ew & Eh & Wd & Hd). apply eq_bool_prop_intro. rewrite !Is_true_true, !in_dst_iff.
  unfold block_region, unit_w, unit_h. rewrite Ea, Ed, Ew, Eh. cbn [ic_sbase ic_scount ic_dbase ic_dx ic_dy ic_w ic_h].
  pose proof (oc_dx one_class_ok) as Dx. pose proof (oc_dy one_class_ok) as Dy. split; intros (Hl & Ix & Iy); (split; [done|]).
  - split; [exact (texel_in_axis _ _ _ _ _ x Wd Dx Hx Ix)|exact (texel_in_axis _ _ _ _ _ y Hd Dy Hy Iy)].
  - destruct Dx as (_ & ? & _), Dy as (_ & ? & _). split; apply block_of_texel; (lia || done).
Qed.

(** A texel that was copied. *)
Lemma copied_texel s l x y : all_coherent s -> in_dst (ai_layers a) r l x y = true ->
  0 <= x < mip_w d (ic_dmip r) -> 0 <= y < mip_h d (ic_dmip r) ->
  s_tex s (src, ic_smip r, l - ic_dbase r + ic_sbase r, x - ic_dx r + ic_sx r, y - ic_dy r + ic_sy r)
  = texel_of dec size d (copy_both src dst s r) (ic_dmip r) l x y.
Proof.
  intros C Hin Hx Hy. pose proof (in_dst_blocks l x y Hx Hy) as Hb. rewrite Hin in Hb. apply in_dst_iff in Hin as (Hl & Hix & Hiy).
  destruct one_class_ok as [Sm Dm Sx Sy Dx Dy Ls (Ew & Eh & Wd & Hd) [Zd Za]]. destruct (emu _ _ Ea) as (Ga & _), (emu _ _ Ed) as (Gd & _).
  destruct (texel_shift _ _ _ (ic_dx r) _ x Wd Sx) as [X1 X2]; [apply Dx|]. destruct (texel_shift _ _ _ (ic_dy r) _ y Hd Sy) as [Y1 Y2]; [apply Dy|].
  rewrite <- (io_key _ _ _ _ (gv_image _ _ I src a Ga)) at 1. rewrite (C src a Ga); [|done|lia|destruct Sx; lia|destruct Sy; lia].
  apply texel_of_eq; [done|congruence|by rewrite Ew, X2|by rewrite Eh, Y2|].
  intros i Hi. rewrite (both_view src dst s r dst d), spec_copy_one, Ew, Eh, X1, Y1, !Z.eqb_refl, Hb by done. cbn [andb].
  rewrite (proj2 (Z.leb_le 0 i)), (proj2 (Z.ltb_lt i _)) by lia. unfold abs. by rewrite Ea.
Qed.

(** A copy within one class: texels and blocks move together. *)
Lemma copy_both_coherent s : all_coherent s -> all_coherent (copy_both src dst s r).
Proof.
  intros C k ai Hk m l x y Hm Hl Hx Hy. pose proof (io_key _ _ _ _ (gv_image _ _ I k ai Hk)) as Ek.
  assert (T : s_tex (copy_both src dst s r) = copy_texels (layers src) src dst r (s_tex s)).
  { unfold copy_both. destruct (copy_blocks_eq src dst r Hr) as (b & -> & _). done. }
  destruct (emu _ _ Ea) as (Ga & _). destruct (Himg _ _ Ga) as [_ La]. rewrite T, Ek. unfold copy_texels. rewrite La.
  destruct ((k =? dst) && (m =? ic_dmip r) && in_dst (ai_layers a) r l x y) eqn:Hit.
  - apply andb_true_iff in Hit as [Hit Hin]. apply andb_true_iff in Hit as [->%Z.eqb_eq ->%Z.eqb_eq].
    destruct (emu _ _ Ed) as (Gd & _). replace ai with d in * by congruence. by apply copied_texel.
  - rewrite <- Ek at 1. rewrite (C k ai Hk) by done. apply texel_of_eq; try done. intros i Hi. rewrite (both_view src dst s r k ai) by done.
    destruct (decide (k = dst /\ m = ic_dmip r)) as [[-> ->]|Hne].
    + destruct (emu _ _ Ed) as (Gd & _). replace ai with d in * by congruence. rewrite spec_copy_one, in_dst_blocks, Hit by done.
      cbn [andb]. unfold abs. by rewrite Ed.
    + unfold spec_copy. cbn [ic_dmip block_region]. assert ((k =? dst) && (m =? ic_dmip r) = false) as ->.
      { apply not_true_iff_false. rewrite andb_true_iff, !Z.eqb_eq. done. }
      cbn [andb]. unfold abs. by rewrite (lookup_image_eq K w I), Hk.
Qed.
End OneClass.

(** All texels first, then all blocks: as if region by region. *)
Definition set_tex (t : Z * Z * Z * Z * Z -> Z) (s : store) : store := mk_store (s_buf s) (s_blk s) t.

Lemma blocks_set_tex src dst rs t s : run (blocks src dst <$> rs) (set_tex t s) = set_tex t (run (blocks src dst <$> rs) s).
Proof. revert s. induction rs as [|r rs IH]; intros s; [done|]. cbn [fmap list_fmap AstcCopy.run foldl]. exact (IH (exec (blocks src dst r) s)). Qed.

Lemma both_run src dst rs s : run (CmdCopyTexels src dst rs :: (blocks src dst <$> rs)) s = foldl (copy_both src dst) s rs.
Proof.
  induction rs as [|r rs IH] using rev_ind; [by destruct s|]. rewrite foldl_app. cbn [foldl]. rewrite <- IH.
  set (T := fun l => foldl (fun f r => copy_texels (layers src) src dst r f) (s_tex s) l).
  change (run (CmdCopyTexels src dst (rs ++ [r]) :: (blocks src dst <$> rs ++ [r])) s)
    with (run (blocks src dst <$> rs ++ [r]) (set_tex (T (rs ++ [r])) s)).
  change (run (CmdCopyTexels src dst rs :: (blocks src dst <$> rs)) s) with (run (blocks src dst <$> rs) (set_tex (T rs) s)).
  rewrite !blocks_set_tex. unfold T at 1. rewrite foldl_app. cbn [foldl]. rewrite fmap_app. unfold AstcCopy.run at 1. rewrite foldl_app. done.
Qed.

Lemma texels_coherent src dst a d rs s : app_handle w dst -> Forall (icopy_ok src dst) rs ->
  lookup_image w src = Some a -> lookup_image w dst = Some d -> cls (ai_e a) = cls (ai_e d) ->
  all_coherent s -> all_coherent (run (CmdCopyTexels src dst rs :: (blocks src dst <$> rs)) s).
Proof.
  intros Ad F Ea Ed Ec C. rewrite both_run. induction rs as [|r rs IH] using rev_ind; [done|].
  apply Forall_app in F as [F Fr]. apply Forall_cons in Fr as [Fr _]. rewrite foldl_app. cbn [foldl].
  eapply copy_both_coherent; try done. by apply IH.
Qed.

(** ** Decoding the copied blocks *)

(** The texels a copy's job decodes, as a region of the destination. *)
Definition job_region (src : Z) (d : astc_image) (r : image_copy) : region :=
  let sb f := (fun a => f (ai_e a)) <$> lookup_image w src in
  mk_region 0 0 0 (ic_dmip r) (ic_dbase r) (ic_dcount r) (ic_dx r) (ic_dy r)
    (covered (sb bw) (bw (ai_e d)) (ic_w r) (ic_dx r) (mip_w d (ic_dmip r))) (covered (sb bh) (bh (ai_e d)) (ic_h r) (ic_dy r) (mip_h d (ic_dmip r))).

Lemma unit_axis src r (f : efmt -> Z) (g : astc_image -> Z -> Z) x v :
  (forall ai, lookup_image w src = Some ai -> 4 <= f (ai_e ai) <= 12) ->
  src_axis ((fun ai => (f (ai_e ai), g ai (ic_smip r))) <$> lookup_image w src) x v ->
  (forall s, (fun a => f (ai_e a)) <$> lookup_image w src = Some s -> 0 < s /\ 0 <= v /\ v + s <= 2 ^ 32) /\
  0 < ceil v (default 1 ((fun a => f (ai_e a)) <$> lookup_image w src)).
Proof.
  intros Hf. destruct (lookup_image w src) as [ai|]; cbn [fmap option_fmap option_map src_axis default from_option id].
  - specialize (Hf ai eq_refl). intros (? & ? & ? & ? & ? & ? & _). split; [intros s [= <-]; lia|apply ceil_pos; lia].
  - intros [_ ?]. split; [done|]. apply ceil_pos; lia.
Qed.

Lemma copy_job_ok src dst d r : icopy_ok src dst r -> lookup_image w dst = Some d ->
  copy_job (lookup_image w src) d r = upload_job d (job_region src d r) /\ region_ok d (job_region src d r) /\
  forall l x y, 0 <= x < mip_w d (ic_dmip r) -> 0 <= y < mip_h d (ic_dmip r) ->
    in_dst (nlayers src) (block_region src dst r) l (x / bw (ai_e d)) (y / bh (ai_e d)) = true ->
    in_region d (job_region src d r) (ic_dmip r) l x y = true.
Proof.
  intros (Hsm & Hdm & Sx & Sy & Dx & Dy & B1 & B2 & B3 & B4 & B5 & B6) Ed. destruct (emu _ _ Ed) as (Gd & Fd & Wd & Hd).
  destruct (unit_axis src r bw mip_w _ _ (fun ai E => proj1 (proj2 (proj2 (emu _ _ E)))) Sx) as [Ux Nx].
  destruct (unit_axis src r bh mip_h _ _ (fun ai E => proj2 (proj2 (proj2 (emu _ _ E)))) Sy) as [Uy Ny].
  assert (Ew : unit_w src = default 1 ((fun a => bw (ai_e a)) <$> lookup_image w src)) by (unfold unit_w; by destruct (lookup_image w src)).
  assert (Eh : unit_h src = default 1 ((fun a => bh (ai_e a)) <$> lookup_image w src)) by (unfold unit_h; by destruct (lookup_image w src)).
  assert (Nd : nlayers dst = ai_layers d) by (unfold nlayers; by rewrite Ed). rewrite Nd in *.
  unfold axis_x, axis_y, has_mip in *. rewrite Ed in Dx, Dy, Hdm. cbn [fmap option_fmap option_map] in Dx, Dy.
  assert (Dx' : dst_axis (Some (bw (ai_e d), mip_w d (ic_dmip r))) false (ic_dx r) (ic_w r) (ceil (ic_w r) (unit_w src)))
    by (destruct Dx as (? & ? & ? & ? & _); cbn [dst_axis]; split_and!; (done || lia)).
  assert (Dy' : dst_axis (Some (bh (ai_e d), mip_h d (ic_dmip r))) false (ic_dy r) (ic_h r) (ceil (ic_h r) (unit_h src)))
    by (destruct Dy as (? & ? & ? & ? & _); cbn [dst_axis]; split_and!; (done || lia)).
  rewrite Ew in Dx'. rewrite Eh in Dy'.
  destruct (covered_axis _ _ _ _ _ _ Wd Ux eq_refl Nx Dx') as [Ax Cx], (covered_axis _ _ _ _ _ _ Hd Uy eq_refl Ny Dy') as [Ay Cy].
  assert (Hl : layers_of d (ic_dbase r) (ic_dcount r) = copied_layers src r).
  { unfold layers_of. rewrite <- B6. destruct (ic_dcount r =? VK_REMAINING); cbn [negb]; [|done]. by rewrite (proj2 (Z.ltb_lt (ic_dbase r) _)) by lia. }
  assert (Hi : forall v edge, 0 <= v < edge -> edge < 2 ^ 31 -> u32 v = v /\ i32 v = v).
  { intros v edge Hv He. assert (u32 v = v) as Hu by (apply u32_id; unfold is_u32; lia). split; [done|]. unfold i32. rewrite Hu. cbv zeta. by rewrite (proj2 (Z.ltb_lt v _)) by lia. }
  destruct Dx' as (X0 & _ & X1 & _), Dy' as (Y0 & _ & Y1 & _). destruct (Hi _ _ X0 X1) as [Xu Xi], (Hi _ _ Y0 Y1) as [Yu Yi]. split_and!.
  - unfold copy_job, upload_job, job_region. cbv zeta. rewrite Xu, Xi, Yu, Yi. done.
  - unfold region_ok, job_region. cbn [rg_mip rg_base rg_count rg_x rg_y rg_w rg_h rg_row rg_height]. split_and!; try done; try lia.
    destruct (Z.eqb_spec (ic_dcount r) VK_REMAINING) as [->|]; [unfold VK_REMAINING, UINT32_MAX; lia|lia].
  - intros l x y Hx Hy (L & Bx & By)%in_dst_iff. unfold block_region, unit_w, unit_h in Bx, By. rewrite Ed in Bx, By.
    fold (unit_w src) in Bx. fold (unit_h src) in By. cbn [block_region ic_sbase ic_scount ic_dbase ic_dx ic_dy ic_w ic_h] in L, Bx, By.
    rewrite Ew in Bx. rewrite Eh in By. pose proof (Cx x Hx Bx). pose proof (Cy y Hy By).
    unfold in_region, job_region. cbn [rg_mip rg_base rg_count rg_x rg_y rg_w rg_h]. rewrite Hl. unfold copied_layers.
    rewrite !andb_true_iff, !Z.leb_le, !Z.ltb_lt, Z.eqb_refl. lia.
Qed.

Lemma spec_copies_kept src dst rs f h m l x y i :
  (h <> dst \/ Forall (fun r => (m =? ic_dmip r) && in_dst (nlayers src) (block_region src dst r) l x y = false) rs) ->
  spec_copies src dst rs f h (m, l, x, y, i) = f h (m, l, x, y, i).
Proof.
  intros H. unfold spec_copies. induction rs as [|r rs IH] using rev_ind; [done|]. rewrite foldl_app. cbn [foldl]. unfold spec_copy at 1. cbn [ic_dmip block_region].
  destruct H as [H|H].
  - rewrite (proj2 (Z.eqb_neq h dst) H). cbn [andb]. apply IH. by left.
  - apply Forall_app in H as [H Hr]. apply Forall_cons in Hr as [Hr _].
    destruct (h =? dst); cbn [andb]; [rewrite Hr; cbn [andb]|]; apply IH; by right.
Qed.

Lemma coherent_kept k ai s s' : g_images w !! k = Some ai -> coherent dec size ai s ->
  (forall m l x y, s_tex s' (ai_image ai, m, l, x, y) = s_tex s (ai_image ai, m, l, x, y)) ->
  (forall m l x y i, 0 <= m < ai_mips ai -> view ai s' (m, l, x, y, i) = view ai s (m, l, x, y, i)) -> coherent dec size ai s'.
Proof.
  intros Hk C T V m l x y Hm Hl Hx Hy. rewrite T, (C m l x y) by done. symmetry. apply texel_of_eq; try done. intros i _. by apply V.
Qed.

Lemma abs_view k ai s : g_images w !! k = Some ai -> abs s k = view ai s.
Proof. intros Hk. unfold abs. by rewrite (lookup_image_eq K w I), Hk. Qed.

(** The blocks of the images that are not the destination. *)
Lemma copies_elsewhere src dst rs s k ai : app_handle w src -> app_handle w dst -> Forall (icopy_ok src dst) rs ->
  g_images w !! k = Some ai -> k <> dst -> coherent dec size ai s -> coherent dec size ai (run (blocks src dst <$> rs) s).
Proof.
  intros As Ad F Hk Hne C. destruct (copy_all src dst rs s As Ad F) as (_ & Et & Ev). apply (coherent_kept k ai s); [done|done|intros; by rewrite Et|].
  intros m l x y i Hm. rewrite <- !(abs_view k ai _ Hk), Ev; [apply spec_copies_kept; by left|by eapply app_key|].
  unfold has_mip. by rewrite (lookup_image_eq K w I), Hk.
Qed.

Definition decode_cmds (src : Z) (d : astc_image) (rs : list image_copy) : list cmd :=
  record_decode conditional <$> (upload_job d <$> (job_region src d <$> rs)).

Lemma decode_coherent src dst d rs s : pred = true -> app_handle w src -> app_handle w dst -> Forall (icopy_ok src dst) rs -> lookup_image w dst = Some d ->
  all_coherent s -> all_coherent (run (decode_cmds src d rs) (run (blocks src dst <$> rs) s)).
Proof.
  intros Hp As Ad F Ed C k ai Hk. destruct (emu _ _ Ed) as (Gd & _ & _). pose proof (io_key _ _ _ _ (gv_image _ _ I dst d Gd)) as Ek.
  assert (Fj : Forall (region_ok d) (job_region src d <$> rs)).
  { apply Forall_fmap. eapply Forall_impl; [exact F|]. intros r Hr. apply (copy_job_ok src dst d r Hr Ed). }
  destruct (decode_all dec size layers pred conditional K w I dst d Gd Hp _ (run (blocks src dst <$> rs) s) Fj) as (_ & Dk & Dt & Do). fold (decode_cmds src d rs) in *.
  destruct (copy_all src dst rs s As Ad F) as (_ & Et & Ev). set (s1 := run (blocks src dst <$> rs) s) in *.
  assert (V2 : forall ai m l x y i, view ai (run (decode_cmds src d rs) s1) (m, l, x, y, i) = view ai s1 (m, l, x, y, i)) by (intros; unfold view; by rewrite Dk).
  destruct (decide (k = dst)) as [->|Hne].
  - replace ai with d in * by congruence. intros m l x y Hm Hl Hx Hy.
    assert (E2 : texel_of dec size d (run (decode_cmds src d rs) s1) m l x y = texel_of dec size d s1 m l x y) by (apply texel_of_eq; try done; intros; apply V2).
    rewrite E2, Dt. destruct (existsb _ _) eqn:Ex; [done|]. rewrite Et, (C dst d Gd) by done. apply texel_of_eq; try done. intros i _.
    rewrite <- !(abs_view dst d _ Gd), Ev; [|done|unfold has_mip; by rewrite Ed]. symmetry. apply spec_copies_kept. right.
    apply Forall_forall. intros r Hr. pose proof (proj1 (Forall_forall _ _) F r Hr) as Hok. destruct (copy_job_ok src dst d r Hok Ed) as (_ & _ & Hin).
    destruct (Z.eqb_spec m (ic_dmip r)) as [->|]; cbn [andb]; [|done]. apply not_true_iff_false. intros Hb.
    assert (existsb (fun q => in_region d q (ic_dmip r) l x y) (job_region src d <$> rs) = true) as X; [|by rewrite X in Ex].
    apply existsb_exists. exists (job_region src d r). split; [by apply list_elem_of_In, list_elem_of_fmap_2|by apply Hin].
  - apply (coherent_kept k ai s1); [done|exact (copies_elsewhere src dst rs s k ai As Ad F Hk Hne (C k ai Hk))| |intros; apply V2].
    intros m l x y. apply Do. rewrite Ek. by rewrite (io_key _ _ _ _ (gv_image _ _ I k ai Hk)).
Qed.

Lemma mips_both_all src dst rs : Forall (icopy_ok src dst) rs ->
  filter (fun r => mips_both (lookup_image w src) (lookup_image w dst) r = true) rs = rs.
Proof.
  intros F. apply filter_keeps. eapply Forall_impl; [exact F|]. intros r (Hs & Hd & _). unfold has_mip, mips_both, mip_ok in *.
  destruct (lookup_image w src), (lookup_image w dst); rewrite ?andb_true_iff, ?Z.ltb_lt; lia.
Qed.

(** ** The recorded commands *)

Definition image_cmds (p : astc_pd) (family : option Z) (ready : decode_job -> bool) (space : bool) (src dst : Z) (rs : list image_copy) : list cmd :=
  (if same_class src dst then [CmdCopyTexels src dst rs] else []) ++ (blocks src dst <$> rs) ++
  match lookup_image w dst with
  | Some d => if same_class src dst then [] else decode_jobs p family conditional ready space (copy_job (lookup_image w src) d <$> rs)
  | None => []
  end.

Lemma image_cmds_recorded p family ready src dst rs :
  is_Some (lookup_image w src) \/ is_Some (lookup_image w dst) -> Forall (icopy_ok src dst) rs -> memory K w (length rs) ->
  nvhal_astc_cmd_copy_image K p family conditional ready src dst rs w = (Some (image_cmds p family ready (gi_malloc K (gtr w)) src dst rs), w).
Proof.
  intros Hemu F Hma. unfold nvhal_astc_cmd_copy_image. rewrite bind_run. cbn [getS fst snd].
  assert (Hb : bool_decide (lookup_image w src = None) && bool_decide (lookup_image w dst = None) = false).
  { destruct Hemu as [[? ->]|[? ->]]; [done|apply andb_false_r]. }
  rewrite Hb. fold (same_class src dst). rewrite bind_run.
  match goal with |- context [(if ?c && ?n then gask _ else mret true) w] =>
    assert (E : (if c && n then gask (gi_malloc K) else mret true : M gworld bool) w = (true, w)) end.
  { destruct Hma as [Hn|Hma]; [rewrite (proj2 (Z.ltb_ge 8 _)), andb_false_r by lia; done|]. cbv zeta. match goal with |- (if ?b then _ else _) _ = _ => destruct b end; [unfold gask; by rewrite Hma|done]. }
  rewrite E. cbn [fst snd negb]. rewrite bind_run, ret_run. cbn [gask fst snd]. by rewrite (mips_both_all src dst rs F).
Qed.

Lemma run_app l k s : run (l ++ k) s = run k (run l s).
Proof. unfold AstcCopy.run. apply foldl_app. Qed.

(** What running the commands does to the blocks, and to the texels. *)
Lemma image_cmds_blocks p family ready space src dst rs s : app_handle w src -> app_handle w dst -> Forall (icopy_ok src dst) rs ->
  let s' := run (image_cmds p family ready space src dst rs) s in
  s_buf s' = s_buf s /\
  forall h m l x y i, app_handle w h -> has_mip h m -> abs s' h (m, l, x, y, i) = spec_copies src dst rs (abs s) h (m, l, x, y, i).
Proof.
  intros As Ad F. cbv zeta. unfold image_cmds. rewrite !run_app.
  set (s0 := run (if same_class src dst then _ else []) s). assert (E0 : s_buf s0 = s_buf s /\ abs s0 = abs s) by (subst s0; by destruct (same_class src dst)).
  destruct (copy_all src dst rs s0 As Ad F) as (Eb & _ & Ev). destruct E0 as [E0 Ea]. rewrite E0 in Eb. rewrite Ea in Ev.
  set (s1 := run (blocks src dst <$> rs) s0) in *.
  destruct (lookup_image w dst) as [d|] eqn:Ed; [|done]. destruct (same_class src dst); [done|].
  destruct (decodes_keep dec size layers pred _ s1 (decode_jobs_decode p family conditional ready space (copy_job (lookup_image w src) d <$> rs))) as [Db Dk].
  cbv zeta in *. split; [by rewrite Db|]. intros h m l x y i Ah Hm. rewrite <- Ev by done. rewrite !abs_at. by rewrite Dk.
Qed.

(** A copy whose destination is emulated in another class than the source's
    needs its blocks decoded. *)
Definition needs_decode (src dst : Z) : Prop := is_Some (lookup_image w dst) /\ same_class src dst = false.

Lemma image_cmds_coherent p family ready space src dst rs s : app_handle w src -> app_handle w dst -> Forall (icopy_ok src dst) rs ->
  (length rs <= 8)%nat \/ space = true -> (needs_decode src dst -> can_decode p family pred ready) ->
  all_coherent s -> all_coherent (run (image_cmds p family ready space src dst rs) s).
Proof.
  intros As Ad F Hsp Hcan C. unfold image_cmds. destruct (same_class src dst) eqn:Ec.
  - pose proof Ec as Ec'. unfold same_class in Ec'. destruct (lookup_image w src) as [a|] eqn:Ea, (lookup_image w dst) as [d|] eqn:Ed; try done.
    apply Z.eqb_eq in Ec'. rewrite app_nil_r, <- Ea, <- Ed. cbn [app]. by eapply texels_coherent.
  - cbn [app]. destruct (lookup_image w dst) as [d|] eqn:Ed.
    + assert (Hd : can_decode p family pred ready) by (apply Hcan; split; [by rewrite Ed|done]).
      assert (Ej : copy_job (lookup_image w src) d <$> rs = upload_job d <$> (job_region src d <$> rs)).
      { rewrite <- list_fmap_compose. apply list_fmap_ext. intros i r Hi%list_elem_of_lookup_2.
        by apply (copy_job_ok src dst d r (proj1 (Forall_forall _ _) F r Hi) Ed). }
      rewrite Ej, <- Ed. destruct rs as [|r rs]; [done|].
      rewrite (decode_jobs_all d p family conditional pred); [|done|by rewrite length_fmap| |done].
      * rewrite run_app, run_app. apply (decode_coherent src dst d (r :: rs) s (proj2 (proj2 Hd)) As Ad F Ed C).
      * apply Forall_fmap. eapply Forall_impl; [exact F|]. intros r' Hr'. by apply (copy_job_ok src dst d r' Hr' Ed).
    + rewrite app_nil_r, <- Ed. intros k ai Hk. apply (copies_elsewhere src dst rs s k ai As Ad F Hk); [|exact (C k ai Hk)].
      intros ->. by rewrite (lookup_image_eq K w I), Hk in Ed.
Qed.
End Copy.

(** C15: copies between images, with an emulated image as source, destination or
    both: for every history and valid regions (at most eight, or memory for
    the jobs), the recorded commands leave every image of the application with
    exactly the blocks of the specification's copy, whatever the queue, the
    decoder and conditional rendering; and the decoded texels of every emulated
    image remain those of its blocks when texels are copied (one decode class)
    or the destination is not emulated, and otherwise if the copied blocks get
    decoded at all ([can_decode]: a compute queue, a decoder that could be set
    up, no false predicate of conditional rendering in effect). *)
Theorem astc_image_copy_refines (K : gicd) `{!GicdLaws K} dec (size layers : Z -> Z) (pred conditional : bool) (w : gworld) (src dst : Z)
    (family : option Z) (p : astc_pd) (ready : decode_job -> bool) (rs : list image_copy) :
  rtc (gstep K) ginit w -> app_handle w src -> app_handle w dst -> is_Some (lookup_image w src) \/ is_Some (lookup_image w dst) ->
  icd_all size layers w -> dec_class dec -> Forall (icopy_ok layers w src dst) rs -> memory K w (length rs) ->
  exists cmds,
    nvhal_astc_cmd_copy_image K p family conditional ready src dst rs w = (Some cmds, w) /\
    forall s, let s' := run dec size layers pred cmds s in
      s_buf s' = s_buf s /\
      (forall h m l x y i, app_handle w h -> has_mip w h m ->
         abs w s' h (m, l, x, y, i) = spec_copies size layers w src dst rs (abs w s) h (m, l, x, y, i)) /\
      ((needs_decode w src dst -> can_decode p family pred ready) -> all_coherent dec size w s -> all_coherent dec size w s').
Proof.
  intros I%(reach_ginv K) As Ad Hemu Himg Hdec F Hma.
  exists (image_cmds conditional w p family ready (gi_malloc K (gtr w)) src dst rs). split; [by apply (image_cmds_recorded layers)|]. intros s. cbv zeta.
  destruct (image_cmds_blocks dec size layers pred conditional w K I Himg p family ready (gi_malloc K (gtr w)) src dst rs s As Ad F) as [Eb Ev].
  split; [exact Eb|]. split; [exact Ev|]. intros Hd C. by apply (image_cmds_coherent dec size layers pred conditional w K I Himg Hdec).
Qed.

(** The *2 commands record what the plain ones record. *)
Lemma copy2_same (K : gicd) (w : gworld) images plain n body :
  plain = true -> gi_malloc K (gtr w) = true -> (exists h, h ∈ images /\ is_Some (lookup_image w h)) ->
  with_plain_regions K images plain n body w = body w.
Proof.
  intros -> Hma (h & Hh & [ai Hai]). unfold with_plain_regions. rewrite bind_run. cbn [getS fst snd].
  assert (forallb (fun h => bool_decide (lookup_image w h = None)) images = false) as ->.
  { apply not_true_iff_false. rewrite forallb_forall. intros F. specialize (F h ltac:(by apply list_elem_of_In)). by rewrite Hai in F. }
  cbn [negb]. rewrite bind_run. destruct (n <=? 8)%nat; [done|]. unfold gask. cbn [fst snd]. by rewrite Hma.
Qed.

(** ** A witness *)

(** Two texels of an image with 16-byte texels become the two blocks of the
    lower right corner of the emulated image. *)
Definition demo_copy : image_copy := mk_icopy 0 0 1 0 0 0 0 VK_REMAINING 4 4 2 1.
Definition demo_src : store :=
  mk_store (fun _ => 0) (fun '(h, _, _, x, y, i) => if h =? 40 then x + i else 0) (fun '(_, _, _, x, y) => 1000 * (x mod 4) + 10000 * (y mod 4)).

Lemma astc_image_copy_refines_witness :
  exists cmds, nvhal_astc_cmd_copy_image demo_icd demo_pd (Some 0) false (fun _ => true) 40 1 [demo_copy] demo_world = (Some cmds, demo_world) /\
    let s' := run demo_dec demo_size demo_layers true cmds demo_src in
    view demo_image s' (0, 0, 2, 1, 7) = 8 /\ s_tex s' (1, 0, 0, 9, 5) = texel_of demo_dec demo_size demo_image s' 0 0 9 5.
Proof.
  destruct (astc_image_copy_refines demo_icd demo_dec demo_size demo_layers true false demo_world 40 1 (Some 0) demo_pd (fun _ => true) [demo_copy]) as (cmds & E & S).
  - exact demo_reached.
  - by apply demo_app.
  - by apply demo_app.
  - right. exists demo_image. vm_compute. reflexivity.
  - intros k ai [-> ->]%demo_only. split; [by intros m Hm|done].
  - intros e e' bytes x y _. done.
  - constructor; [|constructor]. vm_compute. intuition congruence.
  - right. reflexivity.
  - exists cmds. split; [exact E|]. destruct (S demo_src) as (_ & V & C). cbv zeta in *. split.
    + specialize (V 1 0 0 2 1 7 (demo_app 1 ltac:(done) ltac:(done))). rewrite (abs_view demo_world demo_icd (reach_ginv _ _ demo_reached) 1 demo_image _ demo_recorded) in V.
      rewrite V; [vm_compute; reflexivity|]. vm_compute. intuition congruence.
    + refine (C _ _ 1 demo_image demo_recorded 0 0 9 5 _ _ _ _); [| |vm_compute; intuition congruence..].
      { intros _. split; [exists 0; split; [reflexivity|split; [lia|exists 7; split; vm_compute; reflexivity]]|done]. }
      intros k ai [-> ->]%demo_only m l x y _ _ _ _. unfold texel_of, demo_dec, block_bytes, demo_size.
      assert (Z0 : sumZ ((fun i => s_blk demo_src (block_of demo_image m, 0, l, x / bw (ai_e demo_image), y / bh (ai_e demo_image), i)) <$> seqZ 0 16) = 0).
      { unfold block_of. destruct (Z.to_nat m) as [|[|?]]; vm_compute; reflexivity. }
      rewrite Z0. cbn. lia.
Defined.

End AstcImageCopy.
